(* ===== verification/_CoqProject ===== *)
-Q . S2P
Prelude.v
GoText.v
GoLib.v
PyFloat.v
Regex.v
GoFmt.v
Core.v
GoJson.v
PyJson.v
SessionKeys.v
Governance.v
Bus.v
BitVec.v
Indel.v
FileDiff.v
DiffPayload.v
Response.v
Think.v
Provider.v
Tools.v
ToolOutput.v
RunSpec.v
ToolBatch.v
Runner.v
RunnerFacts.v
CronSchedule.v
CronField.v
CronService.v
Pairing.v
Split.v
MultiAgent.v
BpeMerge.v
BpeVocab.v
BpeTables.v
BpeScan.v
Bpe.v
MemoryFabric.v
FabricFacts.v
GoPath.v
PyText.v
PyDiff.v
PyDiffFacts.v
GitObject.v
GitPack.v
GitIndex.v
GitTree.v
GitTreeFacts.v
GitRepo.v
GitRepoFacts.v
GitPatch.v
SessionText.v
Session.v
SessionFacts.v
Transient.v
Events.v
Channels.v
Outbound.v
OutboundFacts.v
OutboundTasks.v
OutboundTasksFacts.v
ChannelManager.v
NetPolicy.v
SessionCodec.v
SessionRecords.v
SessionStore.v
SessionFiles.v
SessionStoreFacts.v
SessionDurable.v
SessionRoundtrip.v
MessageRecords.v
SessionLife.v
A2A.v
A2AQueries.v
A2AStore.v
A2AFacts.v
A2AStreams.v
