(* ===== verification/Prelude.v ===== *)
(** * haosbot: a verification development of its core

    haosbot (Go, src/internal) is a chat agent: transports put messages on a bus,
    an agent loop takes them off and starts a run, which sends a governed copy of
    the conversation to a model provider, executes the tools the model asks for and
    answers over the same bus.  A run may delegate tasks to other agents.  A cron
    service starts turns by the clock, a pairing store decides which senders may
    talk to the agent, and a diff component shows what a tool changed in a file.
    A session keeps the messages of a conversation and gives the next run its part
    of them.
    Memories go to a durable outbox of jobs shared by the processes of a host and
    to files that a git store of its own versions; a byte-pair tokenizer counts
    what a request costs.
    This development models the parts that carry the program's own logic and proves
    what makes them correct.

    ** The parts and their files

    - [Prelude] (this file): reachability of transition systems, errors as values
      with their notation, the tactics [bool_hyps] and [bcase], the hint database
      [go] of invariant-preservation lemmas, and what the files share on lists,
      slices, stable sorting ([SortBy]) and sums over finite maps ([Msum]).
    - [GoText], [GoLib], [GoFmt], [Regex], [PyFloat], [GoJson]: the language and its library
      as the program uses them.  [GoText] is UTF-8 (package unicode/utf8) and the
      Python white-space helpers of internal/textutil/pystr.go; [GoLib] is int64
      arithmetic and functions of strings and strconv; [GoFmt] is quoting; [Regex]
      is package regexp (leftmost-first matching); [GoJson] is JSON values, their
      validity and decoding (package encoding/json, internal/core/raw.go);
      [PyFloat] is float64 with exact values, number literals, the shortest decimal
      form, and the program's [pyFloatRepr] and [pyJSONNumber]
      (internal/pairing/json.go).
    - [Core], [Response]: messages, contents, tool calls, responses and tool results
      (internal/core/types.go, message.go).
    - [Governance]: the repairs and the trimming of the transcript sent to a model
      (internal/agent/governance.go, tokens.go).  Its calls to the tokenizer and
      to encoding/json go through the class [Tokenizer].
    - [Think]: what of a model's output is reasoning
      (internal/textutil/stripthink.go, reasoning.go).
    - [Provider], [Tools]: requests, errors and the retry policy
      (internal/provider/provider.go), and the tool registry
      (internal/tools/tool.go).
    - [ToolOutput], [RunSpec], [ToolBatch], [Runner], [RunnerFacts]: the agent
      runner (internal/agent/toolresult.go, runner.go).  [RunSpec] has its
      configuration and the monad [M] of the world a run acts on (a clock, a log of
      what provider and hook are shown, the files of the workspace); [ToolBatch]
      runs the tools of a turn, with the goroutines and their semaphore as a step
      relation; [Runner] is the loop of a run, [RunnerFacts] what it guarantees.
      Everything that comes back from outside is the record [RunEnv]; any behaviour
      of it is covered.
    - [MultiAgent]: delegated tasks (internal/multiagent/manager.go) as a transition
      system whose labels are the critical sections of the methods and of the
      goroutine of a task.
    - [Bus]: the message bus (internal/bus/bus.go).  The state is the record
      [Bus]; each critical section is a definition; [step] interleaves them with
      any number of blocked consumers.
    - [BitVec], [Indel], [FileDiff], [DiffPayload]: line diffs
      (internal/filediff/indel.go, pytext.go, filediff.go, payload.go): bit
      vectors of 64-bit words, the bit-parallel alignment built on them, hunks and
      their rendering, and the bounded rendering.
    - [CronSchedule], [CronField], [CronService]: schedules, the grammar of cron
      fields, and the service (internal/cron/schedule.go, types.go, service.go).
      The class [CronEnv] stands for the zone database.  The service's state is
      the record [Service]; its methods, dispatches and completing executions are
      the labels of a step relation.
    - [Pairing]: the pairing store and its chat command
      (internal/pairing/store.go, json.go, pairing.go, reply.go), as functions of
      the store file.
    - [Split]: cutting a text into messages (internal/channels/telegram/split.go).
    - [BpeMerge], [BpeVocab], [BpeTables], [BpeScan], [Bpe]: the tokenizer
      (internal/bpe).  The two merge loops (an array scanned, and a heap over a
      linked list) and their rank tables; the embedded vocabulary and its
      open-addressing table; the character classes; the scanner of pieces; and
      encoding, decoding and truncation over them.
    - [MemoryFabric], [FabricFacts]: the outbox of memory jobs
      (internal/memoryfabric/store.go): the tables of the database as finite maps,
      each transaction a function, and the store with its two locks as a
      transition system over them.
    - [GoPath], [PyText], [PyDiff], [PyDiffFacts]: the file tree of package os as
      the git store uses it, and the Python text helpers and the port of difflib
      (internal/gitstore/pytext.go, paths.go, pydifflib.go).
    - [GitObject], [GitPack], [GitIndex], [GitTree], [GitTreeFacts]: the formats of
      a repository (internal/gitstore/object.go, pack.go, index.go and the tree
      walk of worktree.go): objects, packs and deltas, the index, and trees built
      from an index and compared with one another.
    - [GitRepo], [GitRepoFacts], [GitPatch]: the repository over a file tree
      (internal/gitstore/repo.go, worktree.go, gitstore.go, patch.go): refs, HEAD,
      staging, commits, the log, files read from trees, patches and the summary
      of the working tree.  Operations are in a monad of the repository's state in
      which a failure keeps the writes made before it.

    - [PyJson], [SessionKeys], [SessionText]: how Python writes a JSON text
      (internal/session/pyjson.go), keys of sessions and the stems of their files
      (keys.go), and the text of a replayed message (pyvalue.go, visibility.go,
      runtimecontext.go, sanitize.go and internal/textutil/media.go).
    - [Session], [SessionFacts], [Transient]: a session and what a run is shown of
      it (internal/session/session.go, history.go, summary.go, legal.go), and the
      bounded cache of temporary sessions (transient.go).
    - [SessionCodec], [SessionRecords]: messages as JSON and as records of a session
      file (internal/core/message.go, types.go, internal/session/session.go), and
      whole files: metadata, provider state, journal, runtime checkpoint, timestamps
      (session.go, store.go, pyjson.go, timefmt.go).
    - [SessionStore]: the store (store.go, session.go): a directory of files, sessions
      held by reference, the cache, and every operation as a computation in which each
      system call may succeed, fail or be the last before a crash.  [SessionFiles],
      [SessionStoreFacts], [SessionDurable], [SessionRoundtrip], [MessageRecords] and
      [SessionLife] have the lemmas on files, the rules for computations, the process
      that uses a store and is restarted, what is read of written records, and the
      invariants of the sessions of a store through anything that can happen to it.
    - [Events], [Channels], [ChannelManager]: events and outbound messages
      (internal/events), what channels share (internal/channels/base.go, section.go,
      delivery_policy.go) with the way of a message in, and the registry of channels
      with its status (manager.go).
    - [Outbound], [OutboundFacts], [OutboundTasks], [OutboundTasksFacts]: the way of
      a message out (internal/channels/manager_outbound.go): suppression of
      duplicates, merging of stream deltas, gates, a delivery with its retries; and
      the goroutines of deliveries with their two semaphores, the order per chat and
      cancellation, as a transition system.
    - [NetPolicy]: where requests may go (internal/netpolicy/netpolicy.go).
    - [A2A], [A2AQueries], [A2AStore], [A2AFacts], [A2AStreams]: the tasks of other
      agents (internal/a2a/types.go, handler.go, stream.go).  [A2A] has the data, the
      decoding of parameters and the pages of a list; in [A2AStore] every handler is a
      program of atomic actions on the shared maps, counters, hubs and channels, and a
      step lets one program take one action; the others have a logic for such programs
      and what holds in every interleaving.

    Definitions keep the names of the code.  A helper without a name of its own in
    the code (the body of a loop, a case of a switch) has the name of the function
    it is part of and what it does there.  A Go [int] that counts or indexes is a
    [nat] or a [Z]; it is an int64 with its wrap-around where the code can reach
    the bound (cron steps, delays, bit vectors).  A nilable value is an [option], a
    [(value, error)] result a sum.  A mutex makes a method one step.

    Tables and services that are not part of the source are arguments: printable
    characters ([PrintTable]), letter case ([CaseTable]), time zones ([CronEnv]),
    token counts ([Tokenizer]), the file system ([FsEnv]), and provider, hook,
    scheduler and cancellation of a run ([RunEnv]).  So are the bytes of the embedded
    vocabulary, SHA-256 and SHA-1, zlib, SQLite's [LENGTH], the numbers of stat, the
    order in which Go walks a map, the files of the working tree, how a clock
    reading is printed, what a channel answers to a call, the resolver with the
    parsers of URLs and addresses ([NetEnv]), the local time zone ([TimeLib]),
    times in RFC 3339 ([A2AEnv]), and what becomes of each system call of the session store ([weather]).

    ** What the theorems show

    - Runs: in every request, at every iteration and retry, tool results come after
      their calls and calls with distinct nonempty ids are answered once each, and it
      fits the budget; a run ends after a bounded number of requests; the
      transcript it leaves is the one it was given followed by complete exchanges
      and one of six ends.  Tools run in batches that keep the order of the calls,
      unsafe calls alone, under every schedule and cancellation.  Results shown to
      the model are bounded and an oversized one is saved under its reference.
    - Delegation: in every interleaving slots, tasks, depth and the chain of agents
      stay within their limits, and a task that has ended stays as it ended and is
      on disk when its end is signaled unless the file could not be written; two
      delegations can wait for each other.
    - Transcripts: in the prepared copy no answer is without its call and calls with
      distinct nonempty ids are answered once each ([Governance.unanswered_calls_remain]
      shows what is left for others), the copy-on-change loops compute
      their one-pass definitions, an already legal transcript is untouched,
      trimming keeps the system messages and a legal suffix, and a request that is
      let through fits the budget.
    - Bus: no lost wake-up, FIFO delivery within the bounds, publications accepted
      or rejected without a trace, dispatch to the subscribers of the moment.
    - Diffs: the alignment always exists, covers both files and keeps a longest
      common subsequence; the bit-parallel table is the quadratic one; hunks
      applied as [patch] does give the new file; counts, headers and limits.
    - Cron: at most one execution of a job in any interleaving, dispatch by due
      time within the limit, all-or-nothing requests, the next run is the first
      matching minute, intervals keep their phase, printed fields are read back.
    - Pairing: nobody is approved without a live code requested for them, through
      the store or through the chat command; a code pairs once; revocation is
      exact; codes are uniform; floats survive the file.
    - Text: a reasoning block is cut out exactly; split messages fit and lose
      nothing but white space.
    - Tokenizer: the two merge loops give the tokens of one definition, the scanner
      cuts where the published pattern cuts, the table finds exactly the words of
      the vocabulary, and decoding gives back the text that was encoded.
    - Memory fabric: in every interleaving the two counters are at least the pending
      jobs and the characters of the records they hold, and exactly these for
      single-byte text without a race with a prune; no pending job disappears, and no
      job is leased twice at a time.
    - Git store: what is staged and committed is what is read back, for an index
      without extended flags in which no path is a directory of another; a commit moves
      HEAD to an object with the tree of the index and the old HEAD as its parent;
      staged changes, the log and the summary are exact; index and deltas are read
      back as written; a unified diff turns the old text into the new one and
      matches are longest; reading a pack ends unless deltas name their bases.
    - Sessions: in every session of a store, loaded ones included, the stored records
      stay aligned with the messages and stand for them; in a replayed history a tool
      result that names a call comes after it and, where a budget is given, the history
      fits it but for one message or one turn; after a summary is committed
      the history is the marker and what follows the boundary; re-encoding a record keeps the value it
      denotes; the stem of a session's file gives its key back; temporary sessions
      stay within their limit through every sequence of calls.
    - Session files: a load gives the messages of the file and of the journal in order,
      each once when they are distinct; a saved session is loaded with its messages,
      records and archive offset; a message of texts is read from its record as it was
      written; and no acknowledged message is lost through any sequence of operations,
      failures and deaths of the process, as long as journal writes are all or nothing.
      What a loss of power, a torn write, a second process, an interrupted clearing and a retired file name do is
      shown by examples at the end of [SessionDurable].
    - Channels: nobody reaches the bus but those the configuration names and those
      paired by a live code; the dispatcher keeps the order of the bus and the whole
      text of every stream; only repetitions of the last answer are suppressed; a delivery makes a bounded
      number of attempts; deliveries to a chat start in order and one at a time unless
      they are cancelled ([OutboundTasksFacts.cancel_overlaps] shows what happens
      then); both semaphores hold, and the tasks always drain.
    - A2A: the tasks kept stay within their cap but for entries put back after an
      eviction; a request that looks at a task that has ended does not change it; a
      stream shows the snapshots of one task in order and nothing after its end;
      following page tokens gives each task once while the tasks do not change.  [A2AFacts] ends with runs that show
      a cancellation overwritten, an entry that is not counted and a hub that is kept.
    - Requests: every address that is dialled, however names resolve and servers
      redirect, is allowed for its host or outside the blocked ranges.
    - Where the code does not do what a comment promises, the behaviour is proved
      as it is (for example [Governance.snip_can_drop_everything],
      [RunnerFacts.run_can_end_silently], [Split.split_can_unbalance],
      [FabricFacts.bytes_drift], [GitPack.named_base_cycle]).

    ** Bounds and fuel

    Loops over strings take the length of the string as fuel, which suffices
    because every step consumes a byte; the same holds for the characters left in
    [Split.split_loop] and the text left in [Regex].  The loop of a run and its
    retries are bounded by the code itself ([MaxIterations], the delay schedule), so
    [rounds] is the number of rounds that remain; the goroutines of a batch finish
    in two rounds of any fair schedule once the scheduler's own choices are used up
    ([ToolBatch]).  The recovery walk of the alignment takes the sum of the lengths
    and is proved never to run out ([Indel.IndelOpcodes_aligns]); [popcount64]
    clears at least one of 64 bits a step; a cron range has at most 60 values before
    it ends or wraps ([rangeFuel], shown enough in [CronField]); the search for the
    next run walks the minutes of its window and the loop over a repeated hour at
    most the minutes zones can repeat ([repeatFuel]); the search for the shortest
    decimal stops at the seventeen digits that identify a float64 and otherwise
    falls back on the exact digits, so the round trip holds in either case.

    A merge loop takes the bytes of the piece (the heap loop three times as many and
    three: every pop removes an entry, every merge adds two), a probe the size of
    the table, the scanner and the readers of trees, commits and deltas the bytes
    that are left.  A chain of offset deltas has 66 links ([chainFuel], shown enough);
    a search for named bases has no bound in the code and its theorems hold for every
    fuel that ends it.  The walk over two trees takes their height, the matcher's
    stack twice the lines and one ([blocksFuel], shown enough), the log one round per
    commit; symbolic refs are followed six links deep as in the code.

    The JSON reader takes twice the length of its text ([GoJson.decode]), which
    [PyJson] shows enough for every text a writer gives; [pyStr] takes the length
    of the text it prints, since an element is shorter than its list.  The dispatcher
    takes one round per message of the bus, a delivery one per allowed attempt.  The
    loops of an A2A handler take [rounds]; a program that has used them up is still in
    its loop, so that the theorems on interleavings hold for every number of them.

    ** What is not modelled

    Transports, HTTP handlers, the HTTP client of the providers, the tools
    themselves, configuration decoding, prompt templates and the command line are
    glue over libraries and services.  File replacement is the boolean outcome of a
    save; the pairing document is kept as a JSON value (its layout is not modelled);
    the run-record files, the process lease and the model-facing tool of cron are
    left out, as are the Markdown conversion of Telegram and the HTTP executor of
    delegated tasks.  Of the git store, ignore rules, the walk over directories to
    stage, initialization, reverting and the configuration file are left out.  Of the
    session store, its setup (the identity and the namespace of a workspace) and the
    lock file are left out; the lock makes each operation one step.  Of the channel
    manager, the goroutines of StartAll and the order of StopAll are left out.  Of A2A,
    deadlines, the identifiers of requests and the text of the discovery card are left
    out.  The agent loop around a run, the memory store and the skills are the next
    parts to model.  *)

From stdpp Require Export base gmap strings list sorting.
From Stdlib Require Export ZArith Lia.

#[export] Set Default Goal Selector "!".
#[export] Set Warnings "-clear-no-such-hyp".
Open Scope Z_scope.

(** ** Reachability of a labelled transition system *)

Section Reach.
Context {S L : Type} (step : S → L → S → Prop).

Inductive steps : S → list L → S → Prop :=
  | steps_refl s : steps s [] s
  | steps_snoc s ls s' l s'' : steps s ls s' → step s' l s'' → steps s (ls ++ [l]) s''.

Definition reachable (init : S → Prop) (s : S) : Prop :=
  ∃ s0 ls, init s0 ∧ steps s0 ls s.

Lemma reachable_init (init : S → Prop) s : init s → reachable init s.
Proof. intros H. exists s, []. split; [done|constructor]. Qed.

Lemma reachable_step (init : S → Prop) s l s' :
  reachable init s → step s l s' → reachable init s'.
Proof.
  intros (s0 & ls & Hi & Hs) Hst. exists s0, (ls ++ [l]).
  split; [done|]. by econstructor.
Qed.

(** An inductive invariant holds in every reachable state. *)
Lemma reachable_invariant (init I : S → Prop) :
  (∀ s, init s → I s) →
  (∀ s l s', I s → step s l s' → I s') →
  ∀ s, reachable init s → I s.
Proof.
  intros Hi Hp s (s0 & ls & H0 & Hs). induction Hs; eauto.
Qed.
End Reach.

#[export] Hint Constructors steps : core.

(** Preservation of the components' invariants, for [auto with go]. *)
Create HintDb go.

(** ** Tactics of the development *)

(** [bcase] splits on the scrutinee of a boolean test or a match in the goal or a
    hypothesis and turns arithmetic tests into propositions. *)
Ltac bool_hyps :=
  repeat match goal with
  | H : _ && _ = true |- _ => apply andb_true_iff in H; destruct H
  | H : _ || _ = false |- _ => apply orb_false_iff in H; destruct H
  | H : negb _ = true |- _ => apply negb_true_iff in H
  | H : negb _ = false |- _ => apply negb_false_iff in H
  | H : (_ <? _) = true |- _ => apply Z.ltb_lt in H
  | H : (_ <? _) = false |- _ => apply Z.ltb_ge in H
  | H : (_ <=? _) = true |- _ => apply Z.leb_le in H
  | H : (_ <=? _) = false |- _ => apply Z.leb_gt in H
  | H : (_ =? _) = true |- _ => apply Z.eqb_eq in H
  | H : (_ =? _) = false |- _ => apply Z.eqb_neq in H
  | H : bool_decide _ = true |- _ => apply bool_decide_eq_true in H
  | H : bool_decide _ = false |- _ => apply bool_decide_eq_false in H
  end.

Ltac bcase := repeat (case_match; bool_hyps; simplify_eq/=).

(** ** Lists *)

Lemma filter_full_length {A} (f : A → bool) l :
  length (List.filter f l) = length l → List.filter f l = l.
Proof.
  intros H%filter_length_forallb. rewrite forallb_forall in H.
  induction l as [|x l IH]; simpl; [done|]. rewrite H by (by left).
  f_equal. apply IH. intros. apply H. by right.
Qed.

Lemma NoDup_map_filter {A B} (g : A → B) (f : A → bool) l :
  NoDup (map g l) → NoDup (map g (List.filter f l)).
Proof.
  intros H. eapply sublist_NoDup; [exact H|].
  induction l as [|x l IH]; simpl; [constructor|]. apply NoDup_cons in H as [_ H].
  destruct (f x); simpl; [apply sublist_skip|apply sublist_cons]; auto.
Qed.

Lemma filter_none {A} (f : A → bool) l : (∀ x, In x l → f x = false) → List.filter f l = [].
Proof.
  induction l as [|x l IH]; simpl; intros H; [done|]. rewrite H by (by left). apply IH. auto.
Qed.

Lemma sublist_length_eq {A} (l k : list A) : l `sublist_of` k → (length k ≤ length l)%nat → l = k.
Proof.
  induction 1 as [|x l k H IH|x l k H _]; simpl; intros Hl; [done| |].
  - f_equal. apply IH. lia.
  - apply sublist_length in H. lia.
Qed.

(** ** Slices

    [s[lo:hi]] of the code, for bounds it has checked. *)

Section Slices.
Local Open Scope nat_scope.

Definition slice {A} (s : list A) (lo hi : nat) : list A := take (hi - lo) (drop lo s).

Lemma slice_lookup {A} (s : list A) lo hi k x :
  slice s lo hi !! k = Some x → s !! (k + lo) = Some x.
Proof.
  unfold slice. intros H. apply lookup_take_Some in H as [H _]. rewrite lookup_drop in H. by rewrite Nat.add_comm.
Qed.

Lemma slice_length {A} (s : list A) lo hi : hi ≤ length s → length (slice s lo hi) = hi - lo.
Proof. intros H. unfold slice. rewrite length_take, length_drop. lia. Qed.

Lemma slice_cons {A} (s : list A) lo hi x :
  s !! lo = Some x → lo < hi → slice s lo hi = x :: slice s (S lo) hi.
Proof.
  intros H Hlt. unfold slice. rewrite (drop_S _ _ _ H).
  by replace (hi - lo) with (S (hi - S lo)) by lia.
Qed.

Lemma slice_drop {A} (s : list A) lo hi : lo ≤ hi → slice s lo hi ++ drop hi s = drop lo s.
Proof.
  intros H. unfold slice. rewrite <-(take_drop (hi - lo) (drop lo s)) at 2.
  rewrite drop_drop. by replace (lo + (hi - lo)) with hi by lia.
Qed.

Lemma slice_app {A} (s : list A) i k m : i ≤ k → k ≤ m → slice s i k ++ slice s k m = slice s i m.
Proof.
  intros H1 H2. unfold slice. replace (m - i) with ((k - i) + (m - k)) by lia.
  rewrite <-take_take_drop, drop_drop. by replace (i + (k - i)) with k by lia.
Qed.

Lemma slice_nil {A} (s : list A) i : slice s i i = [].
Proof. unfold slice. by rewrite Nat.sub_diag. Qed.
End Slices.

(** Counting after an update. *)
Lemma count_insert {A} (f : A → bool) (l : list A) i x y :
  l !! i = Some x →
  (length (List.filter f (<[i := y]> l)) + (if f x then 1 else 0) =
   length (List.filter f l) + (if f y then 1 else 0))%nat.
Proof.
  revert i. induction l as [|z l IH]; intros [|i] Hi; simpl in *; try done.
  - injection Hi as ->. destruct (f x), (f y); simpl; lia.
  - specialize (IH i Hi). destruct (f z); simpl; lia.
Qed.

(** ** Insertion sort: what a stable sort by [le] returns *)

Section SortBy.
Context {A : Type} (le : A → A → bool).

Fixpoint insert_by (x : A) (l : list A) : list A :=
  match l with [] => [x] | y :: l => if le x y then x :: y :: l else y :: insert_by x l end.
Definition sort_by (l : list A) : list A := foldr insert_by [] l.

Lemma insert_by_perm x l : insert_by x l ≡ₚ x :: l.
Proof. induction l as [|y l IH]; cbn; [done|]. destruct (le x y); [done|]. rewrite IH. apply perm_swap. Qed.

Lemma sort_by_perm l : sort_by l ≡ₚ l.
Proof. induction l as [|x l IH]; cbn; [done|]. by rewrite insert_by_perm, IH. Qed.

Lemma sort_by_sorted (R : relation A) `{!Transitive R} l :
  (∀ x y, le x y = true → R x y) → (∀ x y, le x y = false → R y x) → StronglySorted R (sort_by l).
Proof.
  intros Ht Hf. induction l as [|x l IH]; cbn; [constructor|]. change (foldr insert_by [] l) with (sort_by l).
  induction IH as [|y k Hk IHk Hall]; cbn; [by repeat constructor|]. destruct (le x y) eqn:E.
  - apply Ht in E. repeat constructor; try done. eapply Forall_impl; [exact Hall|]. intros z Hz. by transitivity y.
  - constructor; [done|]. rewrite insert_by_perm. constructor; [by apply Hf|done].
Qed.

Context (le_total : ∀ x y, le x y = false → le y x = true) (le_trans : ∀ x y z, le x y = true → le y z = true → le x z = true).

Lemma insert_by_comm x y l : ¬ (le x y = true ∧ le y x = true) → insert_by x (insert_by y l) = insert_by y (insert_by x l).
Proof.
  intros Hne. induction l as [|z l IH]; cbn [insert_by].
  - destruct (le x y) eqn:E1, (le y x) eqn:E2; try done; [by destruct Hne|]. apply le_total in E1. congruence.
  - destruct (le y z) eqn:Ey, (le x z) eqn:Ex; cbn [insert_by]; rewrite ?Ey, ?Ex, ?IH; try done.
    + destruct (le x y) eqn:E1, (le y x) eqn:E2; rewrite ?Ex, ?Ey; try done; [by destruct Hne|]. apply le_total in E1. congruence.
    + destruct (le x y) eqn:E1; [|done]. by rewrite (le_trans _ _ _ E1 Ey) in Ex.
    + destruct (le y x) eqn:E1; [|done]. by rewrite (le_trans _ _ _ E1 Ex) in Ey.
Qed.

(** Without ties the result does not depend on the order. *)
Lemma sort_by_order {B} (key : A → B) l l' :
  (∀ x y, le x y = true → le y x = true → key x = key y) → NoDup (key <$> l) → l ≡ₚ l' → sort_by l = sort_by l'.
Proof.
  intros Hkey Hnd Hp. revert Hnd. unfold sort_by. induction Hp as [|x l l' Hp IH|x y l|l1 l2 l3 H1 IH1 H2 IH2]; intros Hnd; cbn [foldr]; rewrite ?fmap_cons in Hnd.
  - done.
  - apply NoDup_cons in Hnd as [_ Hnd]. by rewrite (IH Hnd).
  - apply NoDup_cons in Hnd as [Hn _]. apply insert_by_comm. intros [Hxy Hyx]. apply Hn, elem_of_cons. left. auto.
  - rewrite IH1 by done. apply IH2. by rewrite <- H1.
Qed.
End SortBy.

(** ** Sums over finite maps *)

Section Msum.
Context {K V : Type} `{Countable K}.
Implicit Types (f g : K → V → Z) (m : gmap K V).

Definition msum f m : Z := map_fold (λ k v acc, f k v + acc) 0 m.

Lemma msum_insert f m k v : m !! k = None → msum f (<[k := v]> m) = f k v + msum f m.
Proof. intros Hk. unfold msum. rewrite map_fold_insert_L; [done|intros; lia|done]. Qed.

Lemma msum_delete f m k v : m !! k = Some v → msum f m = f k v + msum f (delete k m).
Proof. intros Hk. unfold msum. rewrite (map_fold_delete_L _ _ k v m); [done|intros; lia|done]. Qed.

Lemma msum_update f m k v v' : m !! k = Some v → msum f (<[k := v']> m) = msum f m - f k v + f k v'.
Proof.
  intros Hk. rewrite (msum_delete f m k v Hk), (msum_delete f _ k v') by apply lookup_insert_eq. rewrite delete_insert_eq. lia.
Qed.

Lemma msum_ext f g m : (∀ k v, m !! k = Some v → f k v = g k v) → msum f m = msum g m.
Proof.
  induction m as [|k v m Hk IH] using map_ind; [done|]. intros Hfg. rewrite !msum_insert by done.
  rewrite (Hfg k v) by apply lookup_insert_eq. f_equal. apply IH. intros k' v' Hk'. apply Hfg.
  rewrite lookup_insert_ne; [done|congruence].
Qed.

(** Two summands that differ at one key. *)
Lemma msum_ext_at f g m k v :
  m !! k = Some v → (∀ k' v', k' ≠ k → m !! k' = Some v' → f k' v' = g k' v') → msum g m = msum f m - f k v + g k v.
Proof.
  intros Hk Hfg. rewrite (msum_delete f m k v Hk), (msum_delete g m k v Hk).
  rewrite (msum_ext f g (delete k m)); [lia|]. intros k' v' [Hne Hk']%lookup_delete_Some. by apply Hfg.
Qed.

Lemma msum_nonneg f m : (∀ k v, m !! k = Some v → 0 ≤ f k v) → 0 ≤ msum f m.
Proof.
  induction m as [|k v m Hk IH] using map_ind; [done|]. intros Hf. rewrite msum_insert by done.
  specialize (Hf k v (lookup_insert_eq _ _ _)) as H1. assert (0 ≤ msum f m); [|lia]. apply IH. intros k' v' Hk'. apply Hf.
  rewrite lookup_insert_ne; [done|congruence].
Qed.

Lemma msum_fmap f (g : V → V) m : msum f (g <$> m) = msum (λ k v, f k (g v)) m.
Proof.
  induction m as [|k v m Hk IH] using map_ind; [done|]. rewrite fmap_insert, !msum_insert, IH; [done|done|].
  by rewrite lookup_fmap, Hk.
Qed.

(** Leaving out keys whose summand is zero. *)
Lemma msum_filter f (P : K * V → Prop) `{!∀ x, Decision (P x)} m :
  (∀ k v, m !! k = Some v → ¬ P (k, v) → f k v = 0) → msum f (filter P m) = msum f m.
Proof.
  induction m as [|k v m Hk IH] using map_ind; intros Hf; [by rewrite map_filter_empty|].
  assert (Hm : msum f (filter P m) = msum f m).
  { apply IH. intros k' v' Hk'. apply Hf. rewrite lookup_insert_ne; [done|congruence]. }
  rewrite msum_insert by done. destruct (decide (P (k, v))) as [HP|HP].
  - rewrite map_filter_insert_True by done. rewrite msum_insert, Hm; [done|]. apply map_lookup_filter_None. by left.
  - rewrite map_filter_insert_False, delete_id by done. rewrite Hm, (Hf k v); [lia|apply lookup_insert_eq|done].
Qed.
End Msum.

(** ** Errors as values

    A Go function that returns [(value, error)] is a function into [E + A]. *)

Definition rbind {E A B} (m : E + A) (k : A → E + B) : E + B :=
  match m with inl e => inl e | inr a => k a end.

Declare Scope go_scope.
Notation "x ←? m ; k" := (rbind m (λ x, k)) (at level 20, m at level 100, k at level 200) : go_scope.
Notation "' p ←? m ; k" := (rbind m (λ x, let 'p := x in k))
  (at level 20, p pattern, m at level 100, k at level 200) : go_scope.
#[global] Open Scope go_scope.

(** [if cond { return err }] *)
Definition guard_err {E} (cond : bool) (e : E) : E + unit := if cond then inl e else inr ().

Lemma rbind_inr {E A B} (m : E + A) (k : A → E + B) b :
  rbind m k = inr b ↔ ∃ a, m = inr a ∧ k a = inr b.
Proof. destruct m; simpl; naive_solver. Qed.

Lemma guard_inr {E} c (e : E) u : guard_err c e = inr u ↔ c = false.
Proof. unfold guard_err. destruct c, u; naive_solver. Qed.
