(* ===== verification/GoText.v ===== *)
(** * Text: UTF-8 and Python whitespace (src/internal/textutil/pystr.go)

    Go strings are byte strings; here a Go string is a [string] (one [ascii] per
    byte) and a rune is a [Z].  The first part models the functions of
    [unicode/utf8] and [strings] that the program uses; the second part is
    [textutil]'s port of Python's [str.isspace] and [str.strip]. *)

From S2P Require Import Prelude.
From Stdlib Require Import Ascii.
#[local] Open Scope string_scope.
#[local] Open Scope list_scope.
#[local] Open Scope Z_scope.
Open Scope Z_scope.

#[global] Arguments String.append : simpl nomatch.

(** ** Bytes and slices *)

Definition byteZ (c : ascii) : Z := Z.of_N (N_of_ascii c).
Definition Zbyte (z : Z) : ascii := ascii_of_N (Z.to_N z).

Lemma byteZ_range c : 0 ≤ byteZ c < 256.
Proof. unfold byteZ. pose proof (N_ascii_bounded c). lia. Qed.

Lemma byteZ_Zbyte z : 0 ≤ z < 256 → byteZ (Zbyte z) = z.
Proof. intros ?. unfold byteZ, Zbyte. rewrite N_ascii_embedding; lia. Qed.

(** [s[n:]] and [s[:n]] for [n <= len(s)]. *)
Fixpoint sdrop (n : nat) (s : string) : string :=
  match n, s with
  | O, _ => s
  | S n, String _ s => sdrop n s
  | S _, "" => ""
  end.

Fixpoint stake (n : nat) (s : string) : string :=
  match n, s with
  | O, _ => ""
  | S n, String c s => String c (stake n s)
  | S _, "" => ""
  end.

Definition slen (s : string) : nat := String.length s.

Fixpoint of_bytes (l : list Z) : string :=
  match l with [] => "" | z :: l => String (Zbyte z) (of_bytes l) end.

(** ** unicode/utf8 *)

Definition RuneError : Z := 0xFFFD.

Definition cont (lo hi : Z) (c : ascii) : bool := (lo <=? byteZ c) && (byteZ c <=? hi).

(** The accepted range of the second byte of a multi-byte sequence, by its first. *)
Definition accept2 (x : Z) : Z * Z :=
  if x =? 0xE0 then (0xA0, 0xBF)
  else if x =? 0xED then (0x80, 0x9F)
  else if x =? 0xF0 then (0x90, 0xBF)
  else if x =? 0xF4 then (0x80, 0x8F)
  else (0x80, 0xBF).

(** [utf8.DecodeRuneInString]: the first rune and its width. *)
Definition DecodeRune (s : string) : Z * nat :=
  match s with
  | "" => (RuneError, 0%nat)
  | String c0 r0 =>
      let x := byteZ c0 in
      let '(lo, hi) := accept2 x in
      if x <? 0x80 then (x, 1%nat)
      else if (0xC2 <=? x) && (x <=? 0xDF) then
        match r0 with
        | String c1 _ =>
            if cont lo hi c1 then ((x - 0xC0) * 64 + (byteZ c1 - 0x80), 2%nat) else (RuneError, 1%nat)
        | _ => (RuneError, 1%nat)
        end
      else if (0xE0 <=? x) && (x <=? 0xEF) then
        match r0 with
        | String c1 (String c2 _) =>
            if cont lo hi c1 && cont 0x80 0xBF c2
            then ((x - 0xE0) * 4096 + (byteZ c1 - 0x80) * 64 + (byteZ c2 - 0x80), 3%nat)
            else (RuneError, 1%nat)
        | _ => (RuneError, 1%nat)
        end
      else if (0xF0 <=? x) && (x <=? 0xF4) then
        match r0 with
        | String c1 (String c2 (String c3 _)) =>
            if cont lo hi c1 && cont 0x80 0xBF c2 && cont 0x80 0xBF c3
            then ((x - 0xF0) * 262144 + (byteZ c1 - 0x80) * 4096
                  + (byteZ c2 - 0x80) * 64 + (byteZ c3 - 0x80), 4%nat)
            else (RuneError, 1%nat)
        | _ => (RuneError, 1%nat)
        end
      else (RuneError, 1%nat)
  end.

Definition valid_rune (r : Z) : Prop := (0 ≤ r < 0xD800) ∨ (0xE000 ≤ r ≤ 0x10FFFF).

(** The bytes [utf8.AppendRune] writes; a value that is no rune is written as
    [RuneError]. *)
Definition EncodeRune (r : Z) : list Z :=
  if (0 <=? r) && (r <? 0x80) then [r]
  else if (0x80 <=? r) && (r <? 0x800) then [0xC0 + r / 64; 0x80 + r mod 64]
  else if (r <? 0) || (0x10FFFF <? r) || ((0xD800 <=? r) && (r <? 0xE000)) then [0xEF; 0xBF; 0xBD]
  else if r <? 0x10000 then [0xE0 + r / 4096; 0x80 + r / 64 mod 64; 0x80 + r mod 64]
  else [0xF0 + r / 262144; 0x80 + r / 4096 mod 64; 0x80 + r / 64 mod 64; 0x80 + r mod 64].

(** [string(runes)]. *)
Fixpoint of_runes (l : list Z) : string :=
  match l with [] => "" | r :: l => of_bytes (EncodeRune r) +:+ of_runes l end.

(** [[]rune(s)]; [fuel] bounds the number of runes and the length of [s] is enough. *)
Fixpoint runes_fuel (fuel : nat) (s : string) : list Z :=
  match fuel, s with
  | S fuel, String _ _ =>
      let '(r, n) := DecodeRune s in r :: runes_fuel fuel (sdrop n s)
  | _, _ => []
  end.

Definition runes (s : string) : list Z := runes_fuel (slen s) s.

Definition RuneStart (c : ascii) : bool := negb (cont 0x80 0xBF c).

(** [s[i]] with a default that is never read. *)
Definition sget (i : nat) (s : string) : ascii := default Ascii.zero (String.get i s).

(** The backward scan of [DecodeLastRuneInString] for a start byte: from [start]
    down, at most [k] bytes. *)
Fixpoint scan_start (k start : nat) (s : string) : nat :=
  match k with
  | O => start
  | S k => if RuneStart (sget start s) then start
           else match start with O => O | S start' => scan_start k start' s end
  end.

(** [utf8.DecodeLastRuneInString]. *)
Definition DecodeLastRune (s : string) : Z * nat :=
  let e := slen s in
  match e with
  | O => (RuneError, 0%nat)
  | S start =>
      let c := byteZ (sget start s) in
      if c <? 0x80 then (c, 1%nat)
      else
        let start := match start with O => O | S st => scan_start 3 st s end in
        let '(r, size) := DecodeRune (sdrop start s) in
        if Nat.eqb (start + size) e then (r, size) else (RuneError, 1%nat)
  end.

(** ** Python whitespace *)

Definition pySpaceRanges : list (Z * Z) :=
  [(0x0009, 0x000D); (0x001C, 0x0020); (0x0085, 0x0085); (0x00A0, 0x00A0); (0x1680, 0x1680);
   (0x2000, 0x200A); (0x2028, 0x2029); (0x202F, 0x202F); (0x205F, 0x205F); (0x3000, 0x3000)].

(** The binary search; [fuel] bounds its iterations. *)
Fixpoint PyIsSpace_loop (fuel : nat) (lo hi r : Z) : bool :=
  match fuel with
  | O => false
  | S fuel =>
      if lo <=? hi then
        let mid := Z.shiftr (lo + hi) 1 in
        let rng := default (0, 0) (pySpaceRanges !! Z.to_nat mid) in
        if r <? rng.1 then PyIsSpace_loop fuel lo (mid - 1) r
        else if rng.2 <? r then PyIsSpace_loop fuel (mid + 1) hi r
        else true
      else false
  end.

Definition PyIsSpace (r : Z) : bool :=
  PyIsSpace_loop (length pySpaceRanges) 0 (Z.of_nat (length pySpaceRanges) - 1) r.

(** Both strips count on [fuel] being at least the number of bytes. *)
Fixpoint PyLStrip_loop (fuel : nat) (s : string) : string :=
  match fuel, s with
  | S fuel, String _ _ =>
      let '(r, size) := DecodeRune s in
      if PyIsSpace r then PyLStrip_loop fuel (sdrop size s) else s
  | _, _ => s
  end.

Definition PyLStrip (s : string) : string := PyLStrip_loop (slen s) s.

Fixpoint PyRStrip_loop (fuel : nat) (s : string) : string :=
  match fuel, s with
  | S fuel, String _ _ =>
      let '(r, size) := DecodeLastRune s in
      if PyIsSpace r then PyRStrip_loop fuel (stake (slen s - size) s) else s
  | _, _ => s
  end.

Definition PyRStrip (s : string) : string := PyRStrip_loop (slen s) s.

Definition PyStrip (s : string) : string := PyRStrip (PyLStrip s).

(** ** Lemmas on slices *)

Lemma sapp_assoc a b c : a +:+ b +:+ c = (a +:+ b) +:+ c.
Proof. induction a as [|d a IH]; simpl; [done|]. by rewrite IH. Qed.

Lemma sapp_nil_r a : a +:+ "" = a.
Proof. induction a as [|d a IH]; simpl; [done|]. by rewrite IH. Qed.

Lemma slen_app s t : slen (s +:+ t) = (slen s + slen t)%nat.
Proof. unfold slen. induction s; simpl; congruence. Qed.

Lemma sdrop_app s t : sdrop (slen s) (s +:+ t) = t.
Proof. induction s; simpl; [by destruct t|done]. Qed.

Lemma slen_sdrop n s : slen (sdrop n s) = (slen s - n)%nat.
Proof. revert s. induction n; intros [|c s]; simpl; auto. Qed.

Lemma slen_stake n s : slen (stake n s) = (n `min` slen s)%nat.
Proof. revert s. induction n; intros [|c s]; simpl; auto. Qed.

Lemma stake_sdrop n s : stake n s +:+ sdrop n s = s.
Proof. revert s. induction n; intros [|c s]; simpl; auto. by rewrite IHn. Qed.

Lemma slen_of_bytes l : slen (of_bytes l) = length l.
Proof. unfold slen. induction l; simpl; congruence. Qed.

(** ** Decoding *)

(** A decoded rune consumes between one byte and the whole string. *)
Lemma DecodeRune_width s r n : DecodeRune s = (r, n) → s ≠ "" → (1 ≤ n ≤ slen s)%nat.
Proof.
  unfold slen. destruct s as [|c0 [|c1 [|c2 [|c3 s]]]]; simpl; [done|..];
    destruct (accept2 (byteZ c0)) as [lo hi]; intros H _; repeat case_match; simplify_eq; lia.
Qed.

(** The four shapes of an encoded rune, as arithmetic on its bytes. *)
Lemma EncodeRune_shape r :
  valid_rune r →
  (0 ≤ r < 0x80 ∧ EncodeRune r = [r]) ∨
  (∃ a b, EncodeRune r = [0xC0 + a; 0x80 + b] ∧ r = a * 64 + b ∧ 2 ≤ a < 32 ∧ 0 ≤ b < 64) ∨
  (∃ a b c, EncodeRune r = [0xE0 + a; 0x80 + b; 0x80 + c] ∧ r = a * 4096 + b * 64 + c ∧
     0 ≤ a < 16 ∧ 0 ≤ b < 64 ∧ 0 ≤ c < 64 ∧ (a = 0 → 32 ≤ b) ∧ (a = 13 → b < 32)) ∨
  (∃ a b c d, EncodeRune r = [0xF0 + a; 0x80 + b; 0x80 + c; 0x80 + d] ∧
     r = a * 262144 + b * 4096 + c * 64 + d ∧
     0 ≤ a < 5 ∧ 0 ≤ b < 64 ∧ 0 ≤ c < 64 ∧ 0 ≤ d < 64 ∧ (a = 0 → 16 ≤ b) ∧ (a = 4 → b < 16)).
Proof.
  unfold valid_rune, EncodeRune. intros Hv.
  destruct ((0 <=? r) && (r <? 128)) eqn:E1; [bool_hyps; left; split; [lia|done]|].
  destruct ((128 <=? r) && (r <? 2048)) eqn:E2.
  { bool_hyps. right; left. exists (r / 64), (r mod 64). split; [done|].
    Z.to_euclidean_division_equations. lia. }
  destruct (_ || _) eqn:E3; [exfalso; lia|]. right; right.
  assert (r / 4096 / 64 = r / 262144) by (rewrite Z.div_div by lia; done).
  assert (r / 64 / 64 = r / 4096) by (rewrite Z.div_div by lia; done).
  destruct (r <? 65536) eqn:E4; [left|right].
  - exists (r / 4096), (r / 64 mod 64), (r mod 64). split; [done|].
    Z.to_euclidean_division_equations. lia.
  - exists (r / 262144), (r / 4096 mod 64), (r / 64 mod 64), (r mod 64). split; [done|].
    Z.to_euclidean_division_equations. lia.
Qed.

Lemma cont_Zbyte lo hi z : 0 ≤ z < 256 → cont lo hi (Zbyte z) = (lo <=? z) && (z <=? hi).
Proof. intros. unfold cont. by rewrite byteZ_Zbyte. Qed.

(** Decoding inverts encoding, and reports the encoded width. *)
Lemma DecodeRune_EncodeRune r s :
  valid_rune r → DecodeRune (of_bytes (EncodeRune r) +:+ s) = (r, length (EncodeRune r)).
Proof.
  intros [[? ->]|[(a&b&->&->&?&?)|[(a&b&c&->&->&?&?&?&?&?)|(a&b&c&d&->&->&?&?&?&?&?&?)]]]%EncodeRune_shape;
    cbn -[byteZ Zbyte accept2 Z.add]; rewrite ?cont_Zbyte, ?byteZ_Zbyte by lia;
    unfold accept2.
  - repeat case_match; bool_hyps; simplify_eq; try lia; done.
  - repeat case_match; bool_hyps; simplify_eq; try lia; rewrite ?cont_Zbyte, ?byteZ_Zbyte in * by lia;
      f_equal; lia.
  - repeat case_match; bool_hyps; simplify_eq; try lia; rewrite ?cont_Zbyte, ?byteZ_Zbyte in * by lia;
      f_equal; lia.
  - repeat case_match; bool_hyps; simplify_eq; try lia; rewrite ?cont_Zbyte, ?byteZ_Zbyte in * by lia;
      f_equal; lia.
Qed.

#[global] Arguments DecodeRune : simpl never.
#[global] Arguments DecodeLastRune : simpl never.
#[global] Arguments PyIsSpace : simpl never.

Lemma EncodeRune_length r : (1 ≤ length (EncodeRune r) ≤ 4)%nat.
Proof. unfold EncodeRune. repeat case_match; simpl; lia. Qed.

Lemma slen_of_runes_cons r l :
  (slen (of_runes (r :: l)) = length (EncodeRune r) + slen (of_runes l))%nat.
Proof. simpl. by rewrite slen_app, slen_of_bytes. Qed.

Lemma of_runes_app l k : of_runes (l ++ k) = of_runes l +:+ of_runes k.
Proof. induction l as [|r l IH]; cbn; [done|]. by rewrite IH, sapp_assoc. Qed.

Lemma of_runes_nonempty r l : of_runes (r :: l) ≠ "".
Proof.
  intros H. apply (f_equal slen) in H. rewrite slen_of_runes_cons in H.
  pose proof (EncodeRune_length r). unfold slen in H at 2. simpl in H. lia.
Qed.

(** The first rune of an encoded sequence, and what is left. *)
Lemma DecodeRune_of_runes r l :
  valid_rune r →
  ∃ n, DecodeRune (of_runes (r :: l)) = (r, n) ∧ sdrop n (of_runes (r :: l)) = of_runes l.
Proof.
  intros Hv. exists (length (EncodeRune r)). simpl. split; [by apply DecodeRune_EncodeRune|].
  rewrite <-(slen_of_bytes (EncodeRune r)). apply sdrop_app.
Qed.

Lemma runes_fuel_of_runes fuel l :
  Forall valid_rune l → (slen (of_runes l) ≤ fuel)%nat → runes_fuel fuel (of_runes l) = l.
Proof.
  intros Hl. revert fuel. induction Hl as [|r l Hr Hl IH]; intros fuel Hf; [by destruct fuel|].
  rewrite slen_of_runes_cons in Hf. pose proof (EncodeRune_length r).
  destruct fuel as [|fuel]; [lia|].
  destruct (DecodeRune_of_runes r l Hr) as (n & Hd & Hs).
  pose proof (of_runes_nonempty r l) as Hne.
  destruct (of_runes (r :: l)) eqn:E; [done|]. simpl. rewrite Hd. rewrite Hs.
  rewrite IH by lia. done.
Qed.

(** ** Whitespace and strips *)

Definition spaceRange (i : Z) : Z * Z := default (0, 0) (pySpaceRanges !! Z.to_nat i).

(** The table is sorted and its ranges do not overlap. *)
Lemma spaceRange_sorted i j : 0 ≤ i < j → j < 10 → (spaceRange i).2 < (spaceRange j).1.
Proof.
  intros Hi Hj.
  assert (∀ a b : nat, (a < b < 10)%nat → (spaceRange (Z.of_nat a)).2 < (spaceRange (Z.of_nat b)).1) as H.
  { intros a b Hab. do 10 (destruct b as [|b]; [do 10 (destruct a as [|a]; [first [lia|vm_compute; reflexivity]|]); lia|]). lia. }
  specialize (H (Z.to_nat i) (Z.to_nat j)). rewrite !Z2Nat.id in H by lia. apply H. lia.
Qed.

Lemma spaceRange_ne i : 0 ≤ i < 10 → (spaceRange i).1 ≤ (spaceRange i).2.
Proof.
  intros Hi. rewrite <-(Z2Nat.id i) by lia. assert (Z.to_nat i < 10)%nat by lia.
  generalize dependent (Z.to_nat i). intros a Ha.
  do 10 (destruct a as [|a]; [vm_compute; done|]). lia.
Qed.

Lemma PyIsSpace_loop_spec fuel lo hi r :
  0 ≤ lo → hi < 10 → hi - lo < Z.of_nat fuel →
  PyIsSpace_loop fuel lo hi r = true ↔
    ∃ i, lo ≤ i ≤ hi ∧ (spaceRange i).1 ≤ r ≤ (spaceRange i).2.
Proof.
  revert lo hi. induction fuel as [|fuel IH]; intros lo hi Hlo Hhi Hf; simpl.
  { split; [done|]. intros (i & ? & _). lia. }
  destruct (lo <=? hi) eqn:E; bool_hyps; [|split; [done|]; intros (i & ? & _); lia].
  rewrite Z.shiftr_div_pow2 by lia. change (2 ^ 1) with 2.
  assert (lo ≤ (lo + hi) / 2 ≤ hi) as Hm by (Z.to_euclidean_division_equations; lia).
  generalize dependent ((lo + hi) / 2). intros mid Hm. fold (spaceRange mid).
  pose proof (spaceRange_ne mid ltac:(lia)).
  destruct (r <? (spaceRange mid).1) eqn:E1; [|destruct ((spaceRange mid).2 <? r) eqn:E2]; bool_hyps.
  - rewrite IH by lia. split; intros (i & ? & ?); exists i; (split; [|done]); [lia|].
    destruct (Z.le_gt_cases mid i); [|lia].
    destruct (Z.eq_dec mid i) as [->|]; [lia|].
    pose proof (spaceRange_sorted mid i ltac:(lia) ltac:(lia)). lia.
  - rewrite IH by lia. split; intros (i & ? & ?); exists i; (split; [|done]); [lia|].
    destruct (Z.le_gt_cases i mid); [|lia].
    destruct (Z.eq_dec mid i) as [->|]; [lia|].
    pose proof (spaceRange_sorted i mid ltac:(lia) ltac:(lia)).
    pose proof (spaceRange_ne i ltac:(lia)). lia.
  - split; [|done]. intros _. exists mid. lia.
Qed.

Lemma PyLStrip_loop_of_runes fuel l :
  Forall valid_rune l → (slen (of_runes l) ≤ fuel)%nat →
  ∃ l1 l2, l = l1 ++ l2 ∧ PyLStrip_loop fuel (of_runes l) = of_runes l2 ∧
    Forall (λ r, PyIsSpace r = true) l1 ∧
    (∀ r l', l2 = r :: l' → PyIsSpace r = false).
Proof.
  intros Hl. revert fuel. induction Hl as [|r l Hr Hl IH]; intros fuel Hf.
  { exists [], []. split_and!; [done|by destruct fuel|done|done]. }
  rewrite slen_of_runes_cons in Hf. pose proof (EncodeRune_length r).
  destruct fuel as [|fuel]; [lia|].
  destruct (DecodeRune_of_runes r l Hr) as (n & Hd & Hs).
  pose proof (of_runes_nonempty r l) as Hne.
  destruct (PyIsSpace r) eqn:Hsp.
  - destruct (IH fuel ltac:(lia)) as (l1 & l2 & -> & H1 & H2 & H3).
    exists (r :: l1), l2. split_and!; auto.
    destruct (of_runes (r :: l1 ++ l2)) eqn:E; [done|]. simpl. rewrite Hd, Hsp, Hs. done.
  - exists [], (r :: l). split_and!; auto; [|naive_solver].
    destruct (of_runes (r :: l)) eqn:E; [done|]. simpl. by rewrite Hd, Hsp.
Qed.

(** The left strip of a rune sequence, as the loop over runes sees it. *)
Fixpoint lstrip_runes (l : list Z) : list Z :=
  match l with
  | [] => []
  | r :: l' => if PyIsSpace r then lstrip_runes l' else l
  end.

Lemma lstrip_runes_app l1 l2 :
  Forall (λ r, PyIsSpace r = true) l1 → (∀ r l', l2 = r :: l' → PyIsSpace r = false) →
  lstrip_runes (l1 ++ l2) = l2.
Proof.
  intros H1 H2. induction H1 as [|r l1 Hr H1 IH]; simpl.
  - destruct l2 as [|r l2]; simpl; [done|]. by rewrite (H2 r l2).
  - by rewrite Hr.
Qed.

Lemma lstrip_runes_length l : (length (lstrip_runes l) ≤ length l)%nat.
Proof. induction l as [|r l IH]; simpl; [done|]. destruct (PyIsSpace r); simpl; lia. Qed.

(** ** Properties *)

(** The binary search of [PyIsSpace] terminates and decides membership in the
    table: a rune is whitespace exactly when one of the ranges holds it. *)
Theorem PyIsSpace_table r :
  PyIsSpace r = true ↔ ∃ rng, rng ∈ pySpaceRanges ∧ rng.1 ≤ r ≤ rng.2.
Proof.
  unfold PyIsSpace. rewrite PyIsSpace_loop_spec by (simpl; lia). split.
  - intros (i & Hi & Hr). exists (spaceRange i). split; [|done]. unfold spaceRange.
    destruct (pySpaceRanges !! Z.to_nat i) as [p|] eqn:E; simpl.
    + by apply list_elem_of_lookup_2 in E.
    + apply lookup_ge_None in E. simpl in *. lia.
  - intros (rng & [i Hi]%list_elem_of_lookup_1 & Hr). exists (Z.of_nat i).
    pose proof (lookup_lt_Some _ _ _ Hi). split; [simpl in *; lia|].
    unfold spaceRange. by rewrite Nat2Z.id, Hi.
Qed.

(** Converting runes to a string and back loses nothing:
    [[]rune(string(rs)) == rs] for every sequence of valid code points. *)
Lemma runes_of_runes l : Forall valid_rune l → runes (of_runes l) = l.
Proof. intros. apply runes_fuel_of_runes; [done|lia]. Qed.

(** [PyLStrip] removes exactly the longest prefix of runes that Python's
    [str.isspace] accepts. *)
Lemma PyLStrip_of_runes l :
  Forall valid_rune l → PyLStrip (of_runes l) = of_runes (lstrip_runes l).
Proof.
  intros Hl. unfold PyLStrip.
  destruct (PyLStrip_loop_of_runes (slen (of_runes l)) l Hl) as (l1 & l2 & -> & -> & H1 & H2); [lia|].
  by rewrite lstrip_runes_app.
Qed.

(** Decoding yields valid code points, whatever the bytes. *)
Lemma DecodeRune_valid s r n : DecodeRune s = (r, n) → valid_rune r.
Proof.
  unfold DecodeRune, valid_rune, RuneError. intros H.
  assert (∀ c, 0 ≤ byteZ c) by (intros c; unfold byteZ; lia).
  destruct s as [|c0 s]; [injection H as <- <-; lia|]. specialize (H0 c0).
  unfold accept2, cont in H. repeat case_match; bool_hyps; simplify_eq; lia.
Qed.

Lemma runes_valid s : Forall valid_rune (runes s).
Proof.
  unfold runes. generalize (slen s) at 1. intros fuel. revert s. induction fuel as [|fuel IH]; intros s; simpl; [constructor|].
  destruct s as [|c s]; [constructor|]. destruct (DecodeRune (String c s)) as [r n] eqn:E.
  constructor; [by eapply DecodeRune_valid|apply IH].
Qed.

Lemma runes_fuel_enough fuel s : (slen s ≤ fuel)%nat → runes_fuel fuel s = runes s.
Proof.
  unfold runes. assert (∀ f1 f2 s, (slen s ≤ f1)%nat → (slen s ≤ f2)%nat → runes_fuel f1 s = runes_fuel f2 s) as Hind.
  { clear. induction f1 as [|f1 IH]; intros f2 s H1 H2; destruct s as [|c s]; simpl in *; [by destruct f2|lia|by destruct f2|].
    destruct f2 as [|f2]; [simpl in *; lia|]. simpl. destruct (DecodeRune (String c s)) as [r n] eqn:E.
    pose proof (DecodeRune_width _ _ _ E ltac:(done)) as Hw.
    f_equal. apply IH; rewrite slen_sdrop; unfold slen in *; simpl in *; lia. }
  intros Hf. by apply Hind.
Qed.

Lemma runes_cons s r n : s ≠ "" → DecodeRune s = (r, n) → runes s = r :: runes (sdrop n s).
Proof.
  intros Hs E. destruct s as [|c s]; [done|]. pose proof (DecodeRune_width _ _ _ E Hs) as Hw.
  unfold runes at 1. unfold slen. simpl. rewrite E. f_equal. apply runes_fuel_enough.
  rewrite slen_sdrop. unfold slen in *. simpl in *. lia.
Qed.

(** Stripping on the left, for any bytes. *)
Lemma runes_PyLStrip s : runes (PyLStrip s) = lstrip_runes (runes s).
Proof.
  unfold PyLStrip. assert (∀ fuel s, (slen s ≤ fuel)%nat → runes (PyLStrip_loop fuel s) = lstrip_runes (runes s)) as Hind.
  { clear. induction fuel as [|fuel IH]; intros s Hf; destruct s as [|c s]; simpl in *; [done|lia|done|].
    destruct (DecodeRune (String c s)) as [r n] eqn:E. pose proof (DecodeRune_width _ _ _ E ltac:(done)) as Hw.
    rewrite (runes_cons (String c s) r n) by done. simpl. destruct (PyIsSpace r); [|by rewrite (runes_cons (String c s) r n)].
    apply IH. rewrite slen_sdrop. unfold slen in *. simpl in *. lia. }
  by apply Hind.
Qed.
