(* ===== verification/GoLib.v ===== *)
(** * The Go standard-library functions the program uses

    [strings], [strconv] and [unicode] functions on byte strings, and 64-bit
    integers.  Only what the modelled code calls. *)

From S2P Require Import Prelude GoText.
From Stdlib Require Import Ascii.
From stdpp Require Import pretty.
#[local] Open Scope string_scope.
#[local] Open Scope list_scope.
#[local] Open Scope Z_scope.

(** ** int64 *)

Definition MaxInt64 : Z := 2 ^ 63 - 1.
Definition wrapInt64 (z : Z) : Z := (z + 2 ^ 63) mod 2 ^ 64 - 2 ^ 63.
Definition is_int64 (z : Z) : Prop := - 2 ^ 63 ≤ z < 2 ^ 63.

Lemma wrapInt64_id z : is_int64 z → wrapInt64 z = z.
Proof. unfold is_int64, wrapInt64. intros. rewrite Z.mod_small; lia. Qed.

Lemma wrapInt64_range z : is_int64 (wrapInt64 z).
Proof. unfold is_int64, wrapInt64. pose proof (Z.mod_pos_bound (z + 2 ^ 63) (2 ^ 64)). lia. Qed.

(** ** Unsigned words *)

Definition u64 (z : Z) : Z := z mod 2 ^ 64.
Definition u32 (z : Z) : Z := z mod 2 ^ 32.

Lemma lor_add_shift v x k : 0 ≤ k → 0 ≤ v < 2 ^ k → Z.lor v (x * 2 ^ k) = v + x * 2 ^ k.
Proof.
  intros Hk Hv. assert (Hl : Z.land v (x * 2 ^ k) = 0).
  { apply Z.bits_inj'. intros i Hi. rewrite Z.land_spec, Z.bits_0. destruct (Z.ltb_spec i k).
    - rewrite Z.mul_pow2_bits_low by done. apply andb_false_r.
    - destruct (decide (v = 0)) as [->|]; [by rewrite Z.bits_0|]. rewrite Z.bits_above_log2; [done|lia|].
      assert (Z.log2 v < k) by (apply Z.log2_lt_pow2; lia). lia. }
  rewrite <- (Z.lxor_lor _ _ Hl). symmetry. by apply Z.add_nocarry_lxor.
Qed.

(** ** strings *)

Fixpoint HasPrefix (s p : string) : bool :=
  match p, s with
  | "", _ => true
  | String a p, String b s => Ascii.eqb a b && HasPrefix s p
  | _, _ => false
  end.

(** [strings.ReplaceAll] for a non-empty [old]. *)
Fixpoint ReplaceAll_fuel (fuel : nat) (s old new : string) : string :=
  match fuel, s with
  | _, "" => ""
  | O, _ => s
  | S fuel, String c t =>
      if HasPrefix s old then new +:+ ReplaceAll_fuel fuel (sdrop (slen old) s) old new
      else String c (ReplaceAll_fuel fuel t old new)
  end.
Definition ReplaceAll (s old new : string) : string := ReplaceAll_fuel (slen s) s old new.

(** [strings.Split(s, sep)] for a one-byte separator; never empty. *)
Fixpoint Split (s : string) (sep : ascii) : list string :=
  match s with
  | "" => [""]
  | String c s =>
      if Ascii.eqb c sep then "" :: Split s sep
      else match Split s sep with
           | [] => [String c ""]
           | w :: ws => String c w :: ws
           end
  end.

(** [strings.Contains(s, c)] for a one-byte [c]. *)
Fixpoint ContainsByte (s : string) (c : ascii) : bool :=
  match s with "" => false | String d s => Ascii.eqb d c || ContainsByte s c end.

(** [i := IndexByte(s, c)] with [s[:i]] and [s[i+1:]]. *)
Fixpoint cutByte (s : string) (c : ascii) : option (string * string) :=
  match s with
  | "" => None
  | String d t => if Ascii.eqb d c then Some ("", t) else '(a, b) ← cutByte t c; Some (String d a, b)
  end.

Lemma cutByte_app a b c : ContainsByte a c = false → cutByte (a +:+ String c b) c = Some (a, b).
Proof.
  induction a as [|d a IH]; cbn; [by rewrite Ascii.eqb_refl|]. intros [-> Ha]%orb_false_iff. by rewrite (IH Ha).
Qed.

Lemma cutByte_none s c : ContainsByte s c = false → cutByte s c = None.
Proof. induction s as [|d s IH]; cbn; [done|]. intros [-> Hs]%orb_false_iff. by rewrite (IH Hs). Qed.

Lemma cutByte_length s c a b : cutByte s c = Some (a, b) → (slen s = slen a + S (slen b))%nat.
Proof.
  revert a. induction s as [|d s IH]; intros a; cbn; [done|]. destruct (Ascii.eqb d c); [by intros [= <- <-]|].
  destruct (cutByte s c) as [[a' b']|] eqn:E; cbn; [|done]. intros [= <- <-]. specialize (IH a' eq_refl). unfold slen in *. cbn. lia.
Qed.

(** [strings.Index] and [strings.Contains] *)
Fixpoint Index (s sub : string) : option nat :=
  if HasPrefix s sub then Some 0%nat else
  match s with "" => None | String _ t => S <$> Index t sub end.
Definition Contains (s sub : string) : bool := bool_decide (is_Some (Index s sub)).

Fixpoint Join (l : list string) (sep : string) : string :=
  match l with
  | [] => ""
  | [s] => s
  | s :: l => s +:+ sep +:+ Join l sep
  end.

(** [unicode.IsSpace] *)
Definition IsSpace (r : Z) : bool :=
  ((0x09 <=? r) && (r <=? 0x0d)) || (r =? 0x20) || (r =? 0x85) || (r =? 0xa0) || (r =? 0x1680)
  || ((0x2000 <=? r) && (r <=? 0x200a)) || (r =? 0x2028) || (r =? 0x2029) || (r =? 0x202f)
  || (r =? 0x205f) || (r =? 0x3000).

(** [strings.TrimLeftFunc(s, unicode.IsSpace)] and its mirror. *)
Fixpoint TrimLeft_fuel (fuel : nat) (s : string) : string :=
  match fuel, s with
  | S fuel, String _ _ => let '(r, n) := DecodeRune s in if IsSpace r then TrimLeft_fuel fuel (sdrop n s) else s
  | _, _ => s
  end.
Fixpoint TrimRight_fuel (fuel : nat) (s : string) : string :=
  match fuel, s with
  | S fuel, String _ _ =>
      let '(r, n) := DecodeLastRune s in
      if IsSpace r then TrimRight_fuel fuel (stake (slen s - n) s) else s
  | _, _ => s
  end.
Definition TrimSpace (s : string) : string :=
  let s := TrimLeft_fuel (slen s) s in TrimRight_fuel (slen s) s.

(** [strings.Fields]: the maximal runs without white space.  [cur] is the word
    being read. *)
Fixpoint Fields_fuel (fuel : nat) (s cur : string) : list string :=
  match fuel, s with
  | S fuel, String _ _ =>
      let '(r, n) := DecodeRune s in
      if IsSpace r
      then (if String.eqb cur "" then [] else [cur]) ++ Fields_fuel fuel (sdrop n s) ""
      else Fields_fuel fuel (sdrop n s) (cur +:+ stake n s)
  | _, _ => if String.eqb cur "" then [] else [cur]
  end.
Definition Fields (s : string) : list string := Fields_fuel (slen s) s "".

(** [utf8.Valid]. *)
Fixpoint Valid_fuel (fuel : nat) (s : string) : bool :=
  match fuel, s with
  | S fuel, String _ _ =>
      let '(r, n) := DecodeRune s in
      if (r =? RuneError) && (n =? 1)%nat then false else Valid_fuel fuel (sdrop n s)
  | _, _ => true
  end.
Definition Valid (s : string) : bool := Valid_fuel (slen s) s.

(** ** strconv *)

Definition is_digit (c : ascii) : bool := (48 <=? byteZ c) && (byteZ c <=? 57).

Fixpoint digits (s : string) (acc : Z) : option Z :=
  match s with
  | "" => Some acc
  | String c s => if is_digit c then digits s (10 * acc + (byteZ c - 48)) else None
  end.

(** [strconv.Atoi] with a 64-bit [int]; [None] is any error. *)
Definition Atoi (s : string) : option Z :=
  let '(neg, ds) :=
    match s with
    | String "-" t => (true, t)
    | String "+" t => (false, t)
    | _ => (false, s)
    end in
  if String.eqb ds "" then None else
  n ← digits ds 0;
  let n := if (neg : bool) then - n else n in
  if (- 2 ^ 63 <=? n) && (n <? 2 ^ 63) then Some n else None.

Definition Itoa (z : Z) : string := pretty z.

(** ** ASCII case *)

Definition upper_ascii (c : ascii) : ascii :=
  if (97 <=? byteZ c) && (byteZ c <=? 122) then Zbyte (byteZ c - 32) else c.

Definition is_ascii (s : string) : bool := forallb (λ c, byteZ c <? 128) (String.list_ascii_of_string s).

Fixpoint ToUpper_ascii (s : string) : string :=
  match s with "" => "" | String c s => String (upper_ascii c) (ToUpper_ascii s) end.

Lemma ContainsByte_app s t c : ContainsByte (s +:+ t) c = ContainsByte s c || ContainsByte t c.
Proof. induction s as [|d s IH]; cbn; [done|]. by rewrite IH, orb_assoc. Qed.

Lemma HasPrefix_app p t : HasPrefix (p +:+ t) p = true.
Proof. induction p as [|c p IH]; cbn; [by destruct t|]. by rewrite Ascii.eqb_refl. Qed.

Lemma Index_prefix s sub : HasPrefix s sub = true → Index s sub = Some 0%nat.
Proof. intros H. destruct s; cbn [Index]; by rewrite H. Qed.

Lemma Index_skip c s sub : HasPrefix (String c s) sub = false → Index (String c s) sub = S <$> Index s sub.
Proof. intros H. cbn [Index]. by rewrite H. Qed.

Lemma Contains_app x sub y : Contains (x +:+ sub +:+ y) sub = true.
Proof.
  unfold Contains. apply bool_decide_eq_true. induction x as [|c x [i IH]].
  - rewrite Index_prefix; [eauto|]. exact (HasPrefix_app sub y).
  - cbn [String.append Index]. destruct (HasPrefix _ _); [eauto|]. rewrite IH. cbn. eauto.
Qed.

(** Only the character itself is encoded with the byte of an ASCII character. *)
Lemma ContainsByte_of_runes (c : ascii) l :
  byteZ c < 128 → Forall valid_rune l → byteZ c ∉ l → ContainsByte (of_runes l) c = false.
Proof.
  intros Hc Hl. induction Hl as [|r l Hr Hl IH]; intros Hin; [done|]. cbn [of_runes]. rewrite ContainsByte_app, IH by set_solver.
  rewrite orb_false_r. assert (byteZ c ≠ r) as Hne by set_solver.
  assert (∀ x, 0 ≤ x < 256 → x ≠ byteZ c → Ascii.eqb (Zbyte x) c = false) as Hx.
  { intros x Hx Hxc. apply Ascii.eqb_neq. intros <-. by rewrite byteZ_Zbyte in Hxc. }
  pose proof (byteZ_range c). assert (0 ≤ r ≤ 0x10FFFF) by (unfold valid_rune in Hr; lia).
  unfold EncodeRune. repeat case_match; bool_hyps; cbn [of_bytes ContainsByte];
    rewrite ?Hx; try done; try (Z.to_euclidean_division_equations; lia).
Qed.

(** ** Decimal round trip *)

Fixpoint all_digits (s : string) : bool :=
  match s with "" => true | String c s => is_digit c && all_digits s end.

(** The longest prefix of digits, and the rest. *)
Fixpoint span_digits (s : string) : string * string :=
  match s with
  | String c t => if is_digit c then let '(ds, r) := span_digits t in (String c ds, r) else ("", s)
  | "" => ("", "")
  end.

Definition starts_digit (s : string) : bool := match s with String c _ => is_digit c | "" => false end.

Lemma span_digits_app ds s : all_digits ds = true → starts_digit s = false → span_digits (ds +:+ s) = (ds, s).
Proof.
  intros Hd Hs. induction ds as [|c ds IH]; simpl.
  - destruct s as [|c s]; [done|]. simpl in *. by rewrite Hs.
  - apply andb_true_iff in Hd as [-> Hd]. by rewrite IH.
Qed.

Lemma pretty_char_digit n : (n < 10)%N → byteZ (pretty_N_char n) = 48 + Z.of_N n.
Proof.
  intros H. destruct n as [|p]; [done|].
  do 4 (destruct p as [p|p|]; try done; try lia).
Qed.

Lemma pretty_char_is_digit n : (n < 10)%N → is_digit (pretty_N_char n) = true.
Proof. intros H. unfold is_digit. rewrite pretty_char_digit by done. apply andb_true_iff. lia. Qed.

Lemma pretty_go_ind (P : N → string → Prop) :
  (∀ s, P 0%N s) →
  (∀ x s, x ≠ 0%N → P (x `div` 10)%N (String (pretty_N_char (x `mod` 10)) s) → P x s) →
  ∀ x s, P x s.
Proof.
  intros H0 HS x. induction (N.lt_wf_0 x) as [x _ IH]. intros s.
  destruct (decide (x = 0%N)) as [->|Hx]; [done|]. apply HS; [done|].
  apply IH. apply N.div_lt; lia.
Qed.

Lemma digits_pretty_go x s :
  ∀ acc, ∃ k, 0 ≤ k ∧ digits (pretty_N_go x s) acc = digits s (acc * 10 ^ k + Z.of_N x).
Proof.
  revert x s. apply (pretty_go_ind (λ x s, ∀ acc, ∃ k, 0 ≤ k ∧
    digits (pretty_N_go x s) acc = digits s (acc * 10 ^ k + Z.of_N x))).
  - intros s acc. exists 0. rewrite pretty_N_go_0. split; [lia|]. f_equal. lia.
  - intros x s Hx IH acc. rewrite pretty_N_go_step by lia.
    destruct (IH acc) as (k & Hk & ->). exists (k + 1). split; [lia|]. cbn [digits].
    pose proof (N.mod_lt x 10). pose proof (pretty_char_digit (x `mod` 10)%N ltac:(lia)) as E.
    rewrite pretty_char_is_digit, E by lia.
    f_equal. rewrite Z.pow_add_r by lia. pose proof (N.div_mod x 10). lia.
Qed.

Lemma all_digits_pretty_go x s : all_digits (pretty_N_go x s) = all_digits s.
Proof.
  revert x s. apply (pretty_go_ind (λ x s, all_digits (pretty_N_go x s) = all_digits s)).
  - intros s. by rewrite pretty_N_go_0.
  - intros x s Hx IH. rewrite pretty_N_go_step, IH by lia. cbn [all_digits].
    pose proof (N.mod_lt x 10). by rewrite pretty_char_is_digit by lia.
Qed.

Lemma Itoa_digits n : 0 ≤ n → all_digits (Itoa n) = true ∧ digits (Itoa n) 0 = Some n ∧ Itoa n ≠ "".
Proof.
  intros Hn. destruct n as [|p|p]; [done| |lia].
  change (Itoa (Zpos p)) with (pretty (Npos p)). unfold pretty, pretty_N. rewrite decide_False by done.
  destruct (digits_pretty_go (Npos p) "" 0) as (k & _ & E). rewrite all_digits_pretty_go.
  split; [done|]. split; [by rewrite E|]. intros H. rewrite H in E. by injection E.
Qed.

Lemma Atoi_Itoa n : 0 ≤ n < 2 ^ 63 → Atoi (Itoa n) = Some n.
Proof.
  intros Hn. destruct (Itoa_digits n) as (Ha & Hd & Hne); [lia|]. unfold Atoi.
  destruct (Itoa n) as [|c s]; [done|]. cbn [all_digits] in Ha. apply andb_true_iff in Ha as [Hc _].
  assert (match String c s with
          | String "-" t => (true, t) | String "+" t => (false, t) | _ => (false, String c s) end
          = (false, String c s)) as ->.
  { destruct c as [[] [] [] [] [] [] [] []]; done. }
  cbn [String.eqb]. rewrite Hd. simpl.
  destruct (Z.leb_spec (- 2 ^ 63) n), (Z.ltb_spec n (2 ^ 63)); done || lia.
Qed.

(** Byte order of strings. *)
Lemma String_leb_trans a b c : String.leb a b = true → String.leb b c = true → String.leb a c = true.
Proof.
  unfold String.leb. revert b c. induction a as [|x a IH]; intros [|y b] [|z c]; cbn; try done.
  unfold Ascii.compare.
  destruct (N.compare_spec (Ascii.N_of_ascii x) (Ascii.N_of_ascii y)) as [E1|E1|E1]; try done;
    destruct (N.compare_spec (Ascii.N_of_ascii y) (Ascii.N_of_ascii z)) as [E2|E2|E2]; try done;
    destruct (N.compare_spec (Ascii.N_of_ascii x) (Ascii.N_of_ascii z)) as [E3|E3|E3]; try done; try lia.
  apply IH.
Qed.

Lemma String_leb_refl a : String.leb a a = true.
Proof. destruct (String.leb_total a a); done. Qed.

Lemma String_leb_false a b : String.leb a b = false → String.leb b a = true ∧ a ≠ b.
Proof.
  intros E. split; [destruct (String.leb_total a b); congruence|]. intros ->. by rewrite String_leb_refl in E.
Qed.

(** ** Fields of a line with one-byte spaces *)

Lemma cont_ascii lo hi c : byteZ c < 128 → 128 ≤ lo → cont lo hi c = false.
Proof. intros Hc Hlo. unfold cont. apply andb_false_iff. left. apply Z.leb_gt. lia. Qed.

Lemma accept2_low x : 128 ≤ (accept2 x).1.
Proof. unfold accept2. repeat case_match; cbn; lia. Qed.

(** A rune does not reach across an ASCII byte. *)
Lemma DecodeRune_app_ascii s c t : s ≠ "" → byteZ c < 128 → DecodeRune (s +:+ String c t) = DecodeRune s.
Proof.
  intros Hs Hc. destruct s as [|c0 s]; [done|]. unfold DecodeRune. cbn [String.append].
  pose proof (accept2_low (byteZ c0)) as Hlo. destruct (accept2 (byteZ c0)) as [lo hi]. cbn in Hlo.
  assert (H1 : cont lo hi c = false) by (by apply cont_ascii). assert (H2 : cont 0x80 0xBF c = false) by (by apply cont_ascii).
  destruct (byteZ c0 <? 0x80); [done|]. destruct ((0xC2 <=? byteZ c0) && _).
  { destruct s; cbn; [by rewrite H1|done]. }
  destruct ((0xE0 <=? byteZ c0) && _).
  { destruct s as [|c1 [|c2 s]]; cbn; rewrite ?H1, ?H2, ?andb_false_r; try done. by destruct t. }
  destruct ((0xF0 <=? byteZ c0) && _); [|done].
  destruct s as [|c1 [|c2 [|c3 s]]]; cbn; rewrite ?H1, ?H2, ?andb_false_r; try done; destruct t as [|d [|? ?]]; try done; by rewrite ?andb_false_r.
Qed.

Lemma sdrop_app_le n s t : (n ≤ slen s)%nat → sdrop n (s +:+ t) = sdrop n s +:+ t.
Proof. revert n. induction s as [|c s IH]; intros [|n] Hn; try done; unfold slen in *; cbn in *; [lia|]. apply IH. lia. Qed.

Lemma stake_app_le n s t : (n ≤ slen s)%nat → stake n (s +:+ t) = stake n s.
Proof.
  revert n. induction s as [|c s IH]; intros n Hn; unfold slen in *; cbn in *.
  - assert (n = 0%nat) as -> by lia. by destruct t.
  - destruct n as [|n]; [done|]. cbn. f_equal. apply IH. lia.
Qed.

Lemma Fields_fuel_enough fuel s cur : (slen s ≤ fuel)%nat → Fields_fuel fuel s cur = Fields_fuel (slen s) s cur.
Proof.
  remember (slen s) as n eqn:En. revert fuel s cur En. induction n as [n IH] using lt_wf_ind. intros fuel s cur En Hf.
  destruct s as [|c s]; [cbn in En; subst n; by destruct fuel|]. destruct n as [|n]; [done|]. destruct fuel as [|fuel]; [lia|].
  cbn [Fields_fuel]. destruct (DecodeRune (String c s)) as [r k] eqn:E. apply DecodeRune_width in E as Hk; [|done].
  pose proof (slen_sdrop k (String c s)) as Hl. rewrite <- En in *.
  destruct (IsSpace r); rewrite (IH (slen (sdrop k (String c s)))) by lia; rewrite (IH (slen (sdrop k (String c s))) ltac:(lia) n) by lia; done.
Qed.

Lemma Fields_fuel_app s cur c t fuel :
  byteZ c < 128 → IsSpace (byteZ c) = true → (slen (s +:+ String c t) ≤ fuel)%nat →
  Fields_fuel fuel (s +:+ String c t) cur = Fields_fuel (slen s) s cur ++ Fields t.
Proof.
  intros Hc Hsp. remember (slen s) as n eqn:En. revert fuel s cur En. induction n as [n IH] using lt_wf_ind. intros fuel s cur En Hf.
  rewrite slen_app in Hf. cbn [slen String.length] in Hf. destruct fuel as [|fuel]; [unfold slen in *; lia|].
  destruct s as [|d s].
  - cbn in En. subst n. cbn [String.append Fields_fuel]. unfold DecodeRune. destruct (accept2 (byteZ c)).
    rewrite (proj2 (Z.ltb_lt _ _) Hc), Hsp. f_equal. cbn [sdrop]. apply Fields_fuel_enough. unfold slen in *. cbn in Hf. lia.
  - destruct n as [|n]; [done|]. change (String d s +:+ String c t) with (String d (s +:+ String c t)). cbn [Fields_fuel].
    change (String d (s +:+ String c t)) with (String d s +:+ String c t). rewrite DecodeRune_app_ascii by done.
    destruct (DecodeRune (String d s)) as [r k] eqn:E. apply DecodeRune_width in E as Hk; [|done].
    pose proof (slen_sdrop k (String d s)) as Hl. rewrite <- En in *. rewrite sdrop_app_le, stake_app_le by lia.
    assert (Hf' : (slen (sdrop k (String d s) +:+ String c t) ≤ fuel)%nat) by (rewrite slen_app; unfold slen in *; cbn in *; lia).
    destruct (IsSpace r); rewrite (IH (slen (sdrop k (String d s)))) by lia; rewrite (Fields_fuel_enough n) by lia; by rewrite <- ?app_assoc.
Qed.

Lemma Fields_app s c t : byteZ c < 128 → IsSpace (byteZ c) = true → Fields (s +:+ String c t) = Fields s ++ Fields t.
Proof. intros. by apply Fields_fuel_app. Qed.

Definition word_byte (c : ascii) : bool := (byteZ c <? 128) && negb (IsSpace (byteZ c)).
Lemma Fields_word w : w ≠ "" → forallb word_byte (String.list_ascii_of_string w) = true → Fields w = [w].
Proof.
  intros Hne Hw. unfold Fields.
  assert (H : ∀ cur, Fields_fuel (slen w) w cur = if String.eqb (cur +:+ w) "" then [] else [cur +:+ w]).
  { clear Hne. induction w as [|c w IH]; intros cur; [cbn; by rewrite sapp_nil_r|]. cbn in Hw. apply andb_true_iff in Hw as [Hc Hw].
    unfold word_byte in Hc. apply andb_true_iff in Hc as [Hc Hs]. apply negb_true_iff in Hs.
    change (slen (String c w)) with (S (slen w)). cbn [Fields_fuel]. unfold DecodeRune. destruct (accept2 (byteZ c)). rewrite Hc, Hs.
    cbn [sdrop stake]. rewrite (IH Hw). by rewrite <- sapp_assoc. }
  rewrite H. cbn. destruct w; [done|]. done.
Qed.

(** [sort.Strings] *)
Definition sort_strings : list string → list string := sort_by String.leb.

Lemma sort_strings_perm l : sort_strings l ≡ₚ l.
Proof. apply sort_by_perm. Qed.

(** ** Split and Join *)

Lemma Split_none s c : ContainsByte s c = false → Split s c = [s].
Proof.
  induction s as [|d s IH]; simpl; [done|]. intros [-> Hs]%orb_false_iff. by rewrite IH.
Qed.

Lemma Split_app s t c : ContainsByte s c = false → Split (s +:+ String c t) c = s :: Split t c.
Proof.
  induction s as [|d s IH]; simpl; [by rewrite Ascii.eqb_refl|]. intros [-> Hs]%orb_false_iff. by rewrite IH.
Qed.

Lemma Split_Join ls c :
  ls ≠ [] → Forall (λ s, ContainsByte s c = false) ls → Split (Join ls (String c "")) c = ls.
Proof.
  intros Hne H. induction H as [|s ls Hs Hls IH]; [done|]. destruct ls as [|s2 ls].
  - by apply Split_none.
  - change (Join (s :: s2 :: ls) (String c "")) with (s +:+ String c (Join (s2 :: ls) (String c ""))).
    rewrite Split_app by done. by rewrite IH.
Qed.

Lemma digits_contain s c : all_digits s = true → is_digit c = false → ContainsByte s c = false.
Proof.
  intros Hs Hc. induction s as [|d s IH]; simpl in *; [done|]. apply andb_true_iff in Hs as [Hd Hs].
  rewrite IH by done. destruct (Ascii.eqb_spec d c) as [->|]; [congruence|done].
Qed.

Lemma Itoa_contain n c : 0 ≤ n → is_digit c = false → ContainsByte (Itoa n) c = false.
Proof. intros Hn. apply digits_contain. by apply Itoa_digits. Qed.

(** ** Valid text *)

Lemma Valid_fuel_enough fuel s : (slen s ≤ fuel)%nat → Valid_fuel fuel s = Valid s.
Proof.
  unfold Valid. remember (slen s) as k eqn:Ek. assert (slen s ≤ k)%nat as Hk by lia. clear Ek.
  revert s k Hk. induction fuel as [|fuel IH]; intros s k Hk Hf; destruct s as [|c s]; cbn in Hk; try (by destruct k); try lia.
  destruct k as [|k]; [lia|]. cbn [Valid_fuel]. destruct (DecodeRune (String c s)) as [r n] eqn:E.
  destruct (DecodeRune_width _ _ _ E) as [H1 H2]; [done|]. cbn in H2. case_match; [done|].
  rewrite (IH _ k); [done|rewrite slen_sdrop; cbn; lia|lia].
Qed.

Lemma Valid_head s t n : s ≠ "" → slen s = n → (DecodeRune (s +:+ t)).2 = n → (n ≠ 1%nat ∨ (DecodeRune (s +:+ t)).1 ≠ RuneError) →
  Valid (s +:+ t) = Valid t.
Proof.
  intros Hs <- Hn Hr. unfold Valid at 1. destruct s as [|c s]; [done|]. cbn [String.append slen String.length Valid_fuel].
  cbn [String.append] in Hn, Hr. destruct (DecodeRune (String c (s +:+ t))) as [r n]. cbn [fst snd] in Hn, Hr. subst n.
  destruct (Z.eqb_spec r RuneError), (Nat.eqb_spec (slen (String c s)) 1); cbn [andb]; try tauto;
    (rewrite Valid_fuel_enough; [f_equal; exact (sdrop_app (String c s) t)|rewrite slen_sdrop; unfold slen; cbn; lia]).
Qed.
