(* ===== verification/PyFloat.v ===== *)
(** * Floating-point numbers and their text (src/internal/pairing/json.go)

    The finite float64 values are kept exactly, as integral multiples of 2^-1074
    with a sign (so that the two zeros differ).  [strconv.ParseFloat] on JSON
    number literals and the shortest form of [strconv.FormatFloat] are modelled
    by their documented meaning: the nearest value, ties to even, and the
    shortest digits that are read back as the value.  On top of them
    [pyFloatRepr] is the program's own function. *)

From S2P Require Import Prelude GoText GoLib.
From Stdlib Require Import Ascii.
From stdpp Require Import pretty.
#[local] Open Scope string_scope.
#[local] Open Scope list_scope.
#[local] Open Scope Z_scope.

(** ** float64 *)

Inductive float64 := Fin (neg : bool) (mag : Z) | Inf (neg : bool) | NaN.

(** The exponent of the unit, and the largest finite value in units. *)
Definition ulpExp : Z := 1074.
Definition maxMag : Z := (2 ^ 53 - 1) * 2 ^ 2045.

(** [num / den] units, rounded to 53 significant bits, ties to even. *)
Definition roundMag (num den : Z) : Z :=
  let s := Z.max 0 (Z.log2 (num / den) - 52) in
  let d := den * 2 ^ s in
  let a := num / d in
  let r := num mod d in
  (if 2 * r <? d then a else if d <? 2 * r then a + 1 else if Z.even a then a else a + 1) * 2 ^ s.

Definition representable (m : Z) : Prop := 0 ≤ m ≤ maxMag ∧ roundMag m 1 = m.
Definition finite (f : float64) : Prop := match f with Fin _ m => representable m | _ => False end.

Definition signed (neg : bool) (m : Z) : Z := if neg then - m else m.

Definition fadd (x y : float64) : float64 :=
  match x, y with
  | NaN, _ | _, NaN => NaN
  | Inf a, Inf b => if Bool.eqb a b then Inf a else NaN
  | Inf a, _ => Inf a
  | _, Inf b => Inf b
  | Fin a m, Fin b n =>
      let z := signed a m + signed b n in
      if z =? 0 then Fin (a && b) 0 else
      let r := roundMag (Z.abs z) 1 in
      if r <=? maxMag then Fin (z <? 0) r else Inf (z <? 0)
  end.

Definition fneg (x : float64) : float64 :=
  match x with Fin a m => Fin (negb a) m | Inf a => Inf (negb a) | NaN => NaN end.

Definition flt (x y : float64) : bool :=
  match x, y with
  | NaN, _ | _, NaN => false
  | Inf a, Inf b => a && negb b
  | Inf a, Fin _ _ => a
  | Fin _ _, Inf b => negb b
  | Fin a m, Fin b n => signed a m <? signed b n
  end.

(** [float64(i)] and [int64(f)]; out of range, the conversion of amd64. *)
Definition of_int (z : Z) : float64 := Fin (z <? 0) (roundMag (Z.abs z * 2 ^ ulpExp) 1).
Definition to_int64 (f : float64) : Z :=
  match f with
  | Fin neg m =>
      let z := signed neg (m / 2 ^ ulpExp) in
      if (- 2 ^ 63 <=? z) && (z <? 2 ^ 63) then z else - 2 ^ 63
  | _ => - 2 ^ 63
  end.

(** ** Reading: [json.Number.Float64] on a number literal *)

Definition cut_sign (s : string) : bool * string :=
  match s with
  | String "-" t => (true, t)
  | String "+" t => (false, t)
  | _ => (false, s)
  end.

(** The digits after a decimal point. *)
Definition cut_frac (s : string) : string * string :=
  match s with String "." t => span_digits t | _ => ("", s) end.

(** Sign, digits and decimal exponent of a literal. *)
Definition parseDecimal (s : string) : option (bool * Z * Z) :=
  let '(neg, s) := cut_sign s in
  let '(ip, s) := span_digits s in
  let '(fp, s) := cut_frac s in
  m ← (if String.eqb (ip +:+ fp) "" then None else digits (ip +:+ fp) 0);
  e ← (match s with
       | "" => Some 0
       | String c t =>
           if Ascii.eqb c "e" || Ascii.eqb c "E" then
             let '(eneg, ds) := cut_sign t in
             if String.eqb ds "" then None else signed eneg <$> digits ds 0
           else None
       end);
  Some (neg, m, e - Z.of_nat (slen fp)).

(** [m * 10^e], rounded. *)
Definition dec_round (m e : Z) : Z :=
  if 0 <=? e then roundMag (m * 10 ^ e * 2 ^ ulpExp) 1 else roundMag (m * 2 ^ ulpExp) (10 ^ (- e)).

(** [None] is the range error (or no number). *)
Definition Float64 (lit : string) : option float64 :=
  match parseDecimal lit with
  | Some (neg, m, e) => let r := dec_round m e in if r <=? maxMag then Some (Fin neg r) else None
  | None => None
  end.

(** ** Writing: [strconv.FormatFloat(f, 'e', -1, 64)] *)

(** The two [n]-digit neighbours of the exact decimal [N * 10^-1074] (which has
    [len] digits) are tried for growing [n]; seventeen digits are enough for any
    float64, and the exact digits are the value of last resort. *)
Fixpoint shortest_loop (fuel : nat) (mag N len n : Z) : Z * Z :=
  match fuel with
  | O => (N, - ulpExp)
  | S fuel =>
      let p := 10 ^ Z.max 0 (len - n) in
      let e := Z.max 0 (len - n) - ulpExp in
      let c := N / p in
      let r := N mod p in
      let lo := dec_round c e =? mag in
      let hi := dec_round (c + 1) e =? mag in
      if lo && hi then
        (if 2 * r <? p then c else if p <? 2 * r then c + 1 else if Z.even c then c else c + 1, e)
      else if lo then (c, e)
      else if hi then (c + 1, e)
      else shortest_loop fuel mag N len (n + 1)
  end.

Definition shortest (mag : Z) : Z * Z :=
  let N := mag * 5 ^ ulpExp in
  shortest_loop 17 mag N (Z.of_nat (slen (Itoa N))) 1.

(** [strings.TrimRight(s, "0")] *)
Fixpoint trim_zeros (s : string) : string :=
  match s with
  | "" => ""
  | String c t => let t' := trim_zeros t in if String.eqb t' "" && Ascii.eqb c "0" then "" else String c t'
  end.

(** The digits and the exponent of the scientific form. *)
Definition sci_parts (mag : Z) : string * Z :=
  let '(c, e) := shortest mag in
  let s := Itoa c in
  (trim_zeros s, Z.of_nat (slen s) - 1 + e).

(** [fmt.Sprintf("%02d", n)] for a natural number. *)
Definition pad2 (n : Z) : string := if n <? 10 then String "0" (Itoa n) else Itoa n.

Definition signed_exp (exp : Z) : string :=
  if exp <? 0 then String "-" (pad2 (- exp)) else String "+" (pad2 exp).

Definition FormatE (mag : Z) : string :=
  let '(ds, exp) := sci_parts mag in
  stake 1 ds +:+ (if Nat.ltb 1 (slen ds) then "." +:+ sdrop 1 ds else "") +:+ "e" +:+ signed_exp exp.

(** ** [pyFloatRepr] *)

(** [strings.Cut(s, sep)] without the flag. *)
Fixpoint Cut (s : string) (sep : ascii) : string * string :=
  match s with
  | "" => ("", "")
  | String c t => if Ascii.eqb c sep then ("", t) else let '(a, b) := Cut t sep in (String c a, b)
  end.

(** [strings.Replace(s, ".", "", 1)] *)
Fixpoint drop_dot (s : string) : string :=
  match s with "" => "" | String c t => if Ascii.eqb c "." then t else String c (drop_dot t) end.

Fixpoint zeros (n : nat) : string := match n with O => "" | S n => String "0" (zeros n) end.

(** The layout of the digits around the decimal point. *)
Definition repr_layout (digits : string) (exp : Z) : string :=
  let decpt := exp + 1 in
  let len := Z.of_nat (slen digits) in
  if (decpt <=? -4) || (16 <? decpt) then
    stake 1 digits +:+ (if 1 <? len then "." +:+ sdrop 1 digits else "")
    +:+ "e" +:+ (if exp <? 0 then "-" else "+") +:+ pad2 (Z.abs exp)
  else if decpt <=? 0 then "0." +:+ zeros (Z.to_nat (- decpt)) +:+ digits
  else if len <=? decpt then digits +:+ zeros (Z.to_nat (decpt - len)) +:+ ".0"
  else stake (Z.to_nat decpt) digits +:+ "." +:+ sdrop (Z.to_nat decpt) digits.

Definition pyFloatRepr (f : float64) : string :=
  match f with
  | NaN => "nan"
  | Inf neg => if neg then "-inf" else "inf"
  | Fin neg mag =>
      if mag =? 0 then (if neg then "-0.0" else "0.0") else
      let sci := FormatE mag in
      let '(mantissa, expText) := Cut sci "e" in
      match Atoi expText with
      | None => sci
      | Some exp =>
          let out := repr_layout (drop_dot mantissa) exp in
          if neg then "-" +:+ out else out
      end
  end.

(** [strings.ContainsAny(s, ".eE")] *)
Definition is_float_literal (s : string) : bool :=
  ContainsByte s "." || ContainsByte s "e" || ContainsByte s "E".

Definition pyJSONNumber (lit : string) : string :=
  if is_float_literal lit then
    match Float64 lit with Some f => pyFloatRepr f | None => lit end
  else if String.eqb lit "-0" then "0" else lit.

(** ** Rounding *)

#[local] Opaque Z.pow.

Lemma roundMag_scale k num den : 0 < k → 0 < den → roundMag (k * num) (k * den) = roundMag num den.
Proof.
  intros Hk Hd. unfold roundMag. rewrite Z.div_mul_cancel_l by lia.
  set (s := Z.max 0 _). rewrite <-Z.mul_assoc.
  assert (0 < den * 2 ^ s) by (apply Z.mul_pos_pos; [done|apply Z.pow_pos_nonneg; lia]).
  set (d := den * 2 ^ s) in *.
  rewrite Z.div_mul_cancel_l, Z.mul_mod_distr_l by lia.
  replace (2 * (k * (num mod d)) <? k * d) with (2 * (num mod d) <? d) by (apply eq_true_iff_eq; rewrite !Z.ltb_lt; nia).
  replace (k * d <? 2 * (k * (num mod d))) with (d <? 2 * (num mod d)) by (apply eq_true_iff_eq; rewrite !Z.ltb_lt; nia).
  done.
Qed.

Lemma roundMag_0 den : 0 < den → roundMag 0 den = 0.
Proof.
  intros Hd. unfold roundMag. rewrite Z.div_0_l by lia. change (Z.max 0 _) with 0.
  rewrite Z.pow_0_r, !Z.mul_1_r, Z.div_0_l, Z.mod_0_l by lia. destruct (Z.ltb_spec (2 * 0) den); lia.
Qed.

(** A multiple of the rounding unit is kept. *)
Lemma roundMag_exact m : (2 ^ Z.max 0 (Z.log2 m - 52) | m) → roundMag m 1 = m.
Proof.
  intros [k Hk]. unfold roundMag. rewrite Z.div_1_r, Z.mul_1_l. set (s := Z.max 0 _) in *.
  assert (0 < 2 ^ s) by (apply Z.pow_pos_nonneg; lia).
  rewrite Hk, Z.div_mul, Z.mod_mul, Z.mul_0_r by lia. destruct (Z.ltb_spec 0 (2 ^ s)); lia.
Qed.

(** What rounding gives: [R * 2^s] with at most 53 bits, next to the argument. *)
Lemma roundMag_spec num den : 0 ≤ num → 0 < den →
  ∃ R s, 0 ≤ s ∧ 0 ≤ R ≤ 2 ^ 53 ∧ roundMag num den = R * 2 ^ s ∧ 2 * (R * (den * 2 ^ s)) ≤ 2 * num + den * 2 ^ s ∧
    s = Z.max 0 (Z.log2 (num / den) - 52).
Proof.
  intros Hn Hd. unfold roundMag. set (s := Z.max 0 _). set (q := num / den).
  assert (0 < 2 ^ s) by (apply Z.pow_pos_nonneg; lia).
  assert (0 < den * 2 ^ s) as Hds by nia. set (d := den * 2 ^ s) in *.
  pose proof (Z.div_mod num d ltac:(lia)) as Hdm. pose proof (Z.mod_pos_bound num d Hds) as Hr.
  assert (0 ≤ num / d < 2 ^ 53) as Ha.
  { split; [apply Z.div_pos; lia|]. unfold d. rewrite <-Z.div_div by lia. fold q.
    assert (0 ≤ q) by (apply Z.div_pos; lia).
    apply Z.div_lt_upper_bound; [done|]. destruct (decide (q = 0)) as [->|]; [nia|].
    pose proof (Z.log2_spec q ltac:(lia)) as [_ Hq]. eapply Z.lt_le_trans; [exact Hq|].
    rewrite <-Z.pow_add_r by (subst s; lia). apply Z.pow_le_mono_r; [lia|]. subst s q. lia. }
  set (a := num / d) in *. set (r := num mod d) in *.
  set (R := if 2 * r <? d then a else if d <? 2 * r then a + 1 else if Z.even a then a else a + 1).
  assert (R = a ∨ R = a + 1 ∧ d ≤ 2 * r) as HR by (subst R; bcase; lia).
  exists R, s. split_and!; [lia|lia|lia|done| |done]. destruct HR as [->|[-> ?]]; nia.
Qed.

Lemma roundMag_idem num den : 0 ≤ num → 0 < den → roundMag (roundMag num den) 1 = roundMag num den.
Proof.
  intros Hn Hd. destruct (roundMag_spec num den Hn Hd) as (R & s & Hs & HR & E & _). rewrite E.
  apply roundMag_exact. destruct (decide (R = 0)) as [->|]; [by exists 0|].
  rewrite Z.log2_mul_pow2 by lia.
  destruct (decide (R = 2 ^ 53)) as [->|].
  - rewrite Z.log2_pow2 by lia. exists (2 ^ 52). rewrite <-!Z.pow_add_r by lia. f_equal. lia.
  - assert (Z.log2 R ≤ 52) by (apply Z.lt_succ_r; apply Z.log2_lt_pow2; lia).
    exists (R * 2 ^ (s - Z.max 0 (s + Z.log2 R - 52))). rewrite <-Z.mul_assoc, <-Z.pow_add_r by lia.
    f_equal. f_equal. lia.
Qed.

Lemma dec_round_scale m e k : 0 ≤ k → dec_round (m * 10 ^ k) (e - k) = dec_round m e.
Proof.
  intros Hk. unfold dec_round. destruct (Z.leb_spec 0 (e - k)), (Z.leb_spec 0 e); try lia.
  - by rewrite <-(Z.mul_assoc m), <-Z.pow_add_r, Zplus_minus by lia.
  - rewrite <-(roundMag_scale (10 ^ (- (e - k))) (m * 10 ^ e * 2 ^ ulpExp) 1)
      by (try apply Z.pow_pos_nonneg; lia).
    rewrite Z.mul_1_r. f_equal. replace k with (- (e - k) + e) at 1 by lia. rewrite Z.pow_add_r by lia. ring.
  - rewrite <-(roundMag_scale (10 ^ k) (m * 2 ^ ulpExp)) by (apply Z.pow_pos_nonneg; lia).
    f_equal; [ring|]. rewrite <-Z.pow_add_r by lia. f_equal. lia.
Qed.

Lemma dec_round_exact m : representable m → dec_round (m * 5 ^ ulpExp) (- ulpExp) = m.
Proof.
  intros [_ Hm]. unfold dec_round. destruct (Z.leb_spec 0 (- ulpExp)) as [H|_]; [unfold ulpExp in H; lia|].
  rewrite Z.opp_involutive, <-Z.mul_assoc, <-Z.pow_mul_l. change (5 * 2) with 10.
  rewrite <-(Z.mul_1_r (10 ^ ulpExp)) at 2. rewrite (Z.mul_comm m), roundMag_scale; [done| |lia].
  apply Z.pow_pos_nonneg; [lia|unfold ulpExp; lia].
Qed.

Lemma shortest_loop_spec fuel mag len n :
  representable mag → 0 < mag → 0 ≤ len → 0 ≤ n →
  let '(c, e) := shortest_loop fuel mag (mag * 5 ^ ulpExp) len n in
  dec_round c e = mag ∧ 0 ≤ c ≤ mag * 5 ^ ulpExp + 1 ∧ - ulpExp ≤ e ≤ len.
Proof.
  intros Hm Hp Hl. assert (0 ≤ mag * 5 ^ ulpExp) as HN by (apply Z.mul_nonneg_nonneg; [lia|apply Z.pow_nonneg; lia]).
  assert (0 < ulpExp) by (unfold ulpExp; lia).
  revert n. induction fuel as [|fuel IH]; intros n Hn; cbn [shortest_loop].
  { split_and!; try lia. by apply dec_round_exact. }
  assert (0 < 10 ^ Z.max 0 (len - n)) as Hpow by (apply Z.pow_pos_nonneg; lia).
  assert (0 ≤ mag * 5 ^ ulpExp / 10 ^ Z.max 0 (len - n) ≤ mag * 5 ^ ulpExp).
  { split; [by apply Z.div_pos|]. apply Z.div_le_upper_bound; [done|nia]. }
  specialize (IH (n + 1) ltac:(lia)). destruct (shortest_loop fuel _ _ _ _). bcase; auto with lia.
Qed.

(** ** Digit strings *)

Definition dval (s : string) : Z := default 0 (digits s 0).

Lemma digits_all s acc : all_digits s = true → digits s acc = Some (acc * 10 ^ Z.of_nat (slen s) + dval s).
Proof.
  unfold dval. revert acc. induction s as [|c s IH]; intros acc; cbn -[Z.mul Z.of_nat].
  - intros _. f_equal. change (Z.of_nat 0) with 0. lia.
  - intros [Hc Hs]%andb_true_iff. rewrite Hc, (IH _ Hs), (IH (10 * 0 + _) Hs). cbn [from_option id].
    f_equal. rewrite Nat2Z.inj_succ, Z.pow_succ_r by lia. unfold id, slen. ring.
Qed.

Lemma all_digits_app s t : all_digits (s +:+ t) = all_digits s && all_digits t.
Proof. induction s as [|c s IH]; simpl; [done|]. rewrite IH. by rewrite andb_assoc. Qed.

Lemma digits_app s t acc : digits (s +:+ t) acc = n ← digits s acc; digits t n.
Proof. revert acc. induction s as [|c s IH]; intros acc; simpl; [done|]. by destruct (is_digit c). Qed.

Lemma dval_app s t : all_digits s = true → all_digits t = true →
  dval (s +:+ t) = dval s * 10 ^ Z.of_nat (slen t) + dval t.
Proof. intros Hs Ht. unfold dval at 1. rewrite digits_app, (digits_all s) by done. cbn. rewrite digits_all by done. simpl. lia. Qed.

Lemma zeros_spec n : all_digits (zeros n) = true ∧ dval (zeros n) = 0 ∧ slen (zeros n) = n.
Proof.
  induction n as [|n (IH1 & IH2 & IH3)]; [done|]. split_and!; [done| |simpl; by f_equal].
  change (zeros (S n)) with ("0" +:+ zeros n). by rewrite dval_app, IH2 by done.
Qed.

Lemma all_digits_trim s : all_digits s = true → all_digits (trim_zeros s) = true.
Proof.
  induction s as [|c s IH]; simpl; [done|]. intros [Hc Hs]%andb_true_iff. destruct (_ && _); [done|].
  simpl. by rewrite Hc, IH.
Qed.

Lemma trim_zeros_eq s : s = trim_zeros s +:+ zeros (slen s - slen (trim_zeros s)).
Proof.
  induction s as [|c s IH]; [done|]. cbn [trim_zeros]. destruct (_ && _) eqn:E.
  - apply andb_true_iff in E as [E ->%Ascii.eqb_eq]. apply String.eqb_eq in E. rewrite E in IH.
    cbn. f_equal. cbn in IH. by rewrite Nat.sub_0_r in IH.
  - cbn. f_equal. exact IH.
Qed.

Lemma slen_pretty_go x t : (x ≠ 0)%N → Z.of_nat (slen (pretty_N_go x t)) ≤ Z.log2 (Z.of_N x) + 1 + Z.of_nat (slen t).
Proof.
  revert x t. refine (pretty_go_ind (λ x t, (x ≠ 0)%N →
    Z.of_nat (slen (pretty_N_go x t)) ≤ Z.log2 (Z.of_N x) + 1 + Z.of_nat (slen t)) _ _); [done|].
  intros x t Hx IH _. rewrite pretty_N_go_step by lia. set (t' := String _ t) in *.
  assert (slen t' = S (slen t)) as Ht by done.
  destruct (decide (x `div` 10 = 0)%N) as [->|Hd].
  - rewrite pretty_N_go_0, Ht. pose proof (Z.log2_nonneg (Z.of_N x)). lia.
  - specialize (IH Hd). rewrite N2Z.inj_div in IH. change (Z.of_N 10) with 10 in IH.
    assert (Z.log2 (Z.of_N x / 10) ≤ Z.log2 (Z.of_N x / 2)) as H1.
    { apply Z.log2_le_mono. apply Z.div_le_compat_l; lia. }
    assert (2 ≤ Z.of_N x) as Hx2.
    { destruct (decide (x = 1)%N) as [->|]; [done|]. lia. }
    assert (Z.log2 (Z.of_N x / 2) = Z.log2 (Z.of_N x) - 1) as H2.
    { rewrite <-Z.div2_div, Z.div2_spec, Z.log2_shiftr by lia. pose proof (Z.log2_pos (Z.of_N x)). lia. }
    lia.
Qed.

Lemma slen_Itoa n b : 0 ≤ n < 2 ^ b → 0 < b → Z.of_nat (slen (Itoa n)) ≤ b.
Proof.
  intros Hn Hb. destruct n as [|p|p]; [simpl; lia| |lia].
  change (Itoa (Zpos p)) with (pretty (Npos p)). unfold pretty, pretty_N. rewrite decide_False by done.
  pose proof (slen_pretty_go (Npos p) "" ltac:(done)) as H. change (slen "") with 0%nat in H.
  assert (Z.log2 (Z.of_N (Npos p)) < b) by (apply Z.log2_lt_pow2; simpl; lia). lia.
Qed.

(** The digits and the exponent of the shortest form. *)
Record sci_ok (mag : Z) (ds : string) (exp : Z) : Prop := {
  sci_digits : all_digits ds = true;
  sci_nonempty : ds ≠ "";
  sci_value : dec_round (dval ds) (exp + 1 - Z.of_nat (slen ds)) = mag;
  sci_exp : - 2 ^ 62 < exp < 2 ^ 62 }.

Lemma shortest_spec mag : representable mag → 0 < mag →
  let '(c, e) := shortest mag in dec_round c e = mag ∧ 0 ≤ c ∧ Z.of_nat (slen (Itoa c)) ≤ 2 ^ 61 ∧ - 2 ^ 61 < e < 2 ^ 61.
Proof.
  intros Hm Hp. unfold shortest.
  pose proof (shortest_loop_spec 17 mag (Z.of_nat (slen (Itoa (mag * 5 ^ ulpExp)))) 1 Hm Hp ltac:(lia) ltac:(lia)) as H.
  destruct (shortest_loop _ _ _ _ _) as [c e]. destruct H as (Hr & Hc & He).
  assert (0 ≤ mag * 5 ^ ulpExp < 2 ^ 6000 - 1) as HN.
  { destruct Hm as [Hm _]. split; [apply Z.mul_nonneg_nonneg; [lia|apply Z.pow_nonneg; lia]|].
    apply Z.le_lt_trans with (maxMag * 5 ^ ulpExp).
    - apply Z.mul_le_mono_nonneg_r; [apply Z.pow_nonneg|]; lia.
    - vm_compute. reflexivity. }
  pose proof (slen_Itoa (mag * 5 ^ ulpExp) 6000 ltac:(lia) ltac:(lia)).
  pose proof (slen_Itoa c 6000 ltac:(lia) ltac:(lia)).
  assert (6000 < 2 ^ 61) by (vm_compute; reflexivity). assert (ulpExp = 1074) by done. split_and!; lia.
Qed.

Lemma sci_parts_spec mag : representable mag → 0 < mag → sci_ok mag (sci_parts mag).1 (sci_parts mag).2.
Proof.
  intros Hm Hp. unfold sci_parts. pose proof (shortest_spec mag Hm Hp) as Hs. destruct (shortest mag) as [c e].
  destruct Hs as (Hr & Hc & Hlen & He). destruct (Itoa_digits c Hc) as (Ha & Hd & Hne). cbn [fst snd].
  set (s := Itoa c) in *. set (ds := trim_zeros s) in *. pose proof (trim_zeros_eq s) as Es. fold ds in Es.
  set (k := (slen s - slen ds)%nat) in *. destruct (zeros_spec k) as (Hz1 & Hz2 & Hz3).
  assert (all_digits ds = true) as Hds by (by apply all_digits_trim).
  clearbody k. clearbody ds. clearbody s.
  assert (c = dval ds * 10 ^ Z.of_nat k) as Ec.
  { assert (dval s = c) as <- by (unfold dval; by rewrite Hd). rewrite Es, dval_app, Hz2, Hz3 by done. lia. }
  assert (slen s = slen ds + k)%nat as El by (rewrite Es at 1; rewrite slen_app, Hz3; done).
  assert (dec_round (dval ds) (Z.of_nat (slen s) - 1 + e + 1 - Z.of_nat (slen ds)) = mag) as Hrr.
  { rewrite <-(dec_round_scale (dval ds) _ (Z.of_nat k)), <-Ec, <-Hr by lia. f_equal. lia. }
  assert (2 ^ 61 + 2 ^ 61 = 2 ^ 62) by done.
  split; [done| |done|lia]. intros E0. rewrite E0 in Hrr. change (dval "") with 0 in Hrr.
  unfold dec_round in Hrr. rewrite !Z.mul_0_l in Hrr.
  destruct (Z.leb_spec 0 (Z.of_nat (slen s) - 1 + e + 1 - Z.of_nat (slen ""))); rewrite roundMag_0 in Hrr; lia.
Qed.

(** ** Literals *)

Lemma cut_sign_digit s : starts_digit s = true → cut_sign s = (false, s).
Proof. destruct s as [|[[] [] [] [] [] [] [] []] s]; done. Qed.

Lemma pad2_digits n : 0 ≤ n → all_digits (pad2 n) = true ∧ digits (pad2 n) 0 = Some n ∧ starts_digit (pad2 n) = true.
Proof.
  intros Hn. destruct (Itoa_digits n Hn) as (Ha & Hd & Hne). unfold pad2. destruct (n <? 10).
  - split_and!; [done|exact Hd|done].
  - split_and!; [done|done|]. destruct (Itoa n); [done|]. cbn in Ha |- *. by apply andb_true_iff in Ha as [-> _].
Qed.

Lemma signed_exp_parts exp : signed_exp exp = (if exp <? 0 then "-" else "+") +:+ pad2 (Z.abs exp).
Proof. unfold signed_exp. destruct (Z.ltb_spec exp 0); cbn; do 2 f_equal; lia. Qed.

Lemma cut_signed_exp exp :
  cut_sign (signed_exp exp) = (exp <? 0, pad2 (Z.abs exp)) ∧ starts_digit (signed_exp exp) = false.
Proof. unfold signed_exp. destruct (Z.ltb_spec exp 0); cbn; (split; [do 2 f_equal; lia|done]). Qed.

(** A literal: digits, perhaps a fraction, perhaps an exponent. *)
Definition literal (ip : string) (fp : option string) (exp : option Z) : string :=
  ip +:+ match fp with Some fp => "." +:+ fp | None => "" end
  +:+ match exp with Some exp => "e" +:+ signed_exp exp | None => "" end.

Lemma parse_literal ip fp exp :
  all_digits ip = true → ip ≠ "" → all_digits (default "" fp) = true →
  parseDecimal (literal ip fp exp) =
    Some (false, dval (ip +:+ default "" fp), default 0 exp - Z.of_nat (slen (default "" fp))).
Proof.
  intros Hip Hne Hfp. unfold parseDecimal, literal.
  set (et := match exp with Some _ => _ | None => "" end).
  assert (starts_digit et = false) as Het by (by destruct exp).
  assert (∀ t, et ≠ String "." t) as Hdot by (by destruct exp).
  rewrite cut_sign_digit.
  2: { destruct ip; [done|]. cbn in Hip |- *. by apply andb_true_iff in Hip as [-> _]. }
  rewrite span_digits_app; [|done|by destruct fp].
  assert (cut_frac (match fp with Some fp => "." +:+ fp | None => "" end +:+ et) = (default "" fp, et)) as ->.
  { destruct fp as [fp|]; cbn [from_option id]; [cbn; by apply span_digits_app|].
    cbn. destruct et as [|[[] [] [] [] [] [] [] []] et']; try done. by destruct (Hdot et'). }
  assert (ip +:+ default "" fp ≠ "") as Hne' by (by destruct ip).
  destruct (String.eqb_spec (ip +:+ default "" fp) "") as [?|_]; [done|].
  rewrite digits_all by (by rewrite all_digits_app, Hip). cbn [mbind option_bind].
  rewrite Z.mul_0_l, Z.add_0_l. unfold et. destruct exp as [exp|]; cbn; [|done].
  destruct (cut_signed_exp exp) as [-> _]. destruct (pad2_digits (Z.abs exp) ltac:(lia)) as (_ & Hd & Hs).
  destruct (String.eqb_spec (pad2 (Z.abs exp)) "") as [E|_]; [by rewrite E in Hs|]. rewrite Hd. cbn.
  do 3 f_equal. unfold signed. destruct (Z.ltb_spec exp 0); lia.
Qed.

(** The value of a literal is the one of the digits, however they are laid out. *)
Lemma repr_layout_value mag ds exp :
  sci_ok mag ds exp →
  ∃ ip fp e, repr_layout ds exp = literal ip fp e ∧ all_digits ip = true ∧ ip ≠ "" ∧ all_digits (default "" fp) = true ∧
    dec_round (dval (ip +:+ default "" fp)) (default 0 e - Z.of_nat (slen (default "" fp))) = mag ∧
    (is_Some fp ∨ is_Some e).
Proof.
  intros [Hd Hne Hv _]. unfold repr_layout. set (len := Z.of_nat (slen ds)).
  assert (all_digits (stake 1 ds) = true ∧ all_digits (sdrop 1 ds) = true ∧ stake 1 ds ≠ "") as (Hd1 & Hd2 & Hd3).
  { destruct ds as [|c ds]; [done|]. cbn in *. apply andb_true_iff in Hd as [-> ?]. destruct ds; by cbn. }
  assert (∀ n, all_digits (stake n ds) = true ∧ all_digits (sdrop n ds) = true) as Hdn.
  { intros n. apply andb_true_iff. by rewrite <-all_digits_app, stake_sdrop. }
  assert (1 ≤ len) by (destruct ds; [done|]; cbn in len; lia).
  destruct (_ || _) eqn:Ebig; [|destruct (Z.leb_spec (exp + 1) 0); [|destruct (Z.leb_spec len (exp + 1))]].
  - exists (stake 1 ds), (if 1 <? len then Some (sdrop 1 ds) else None), (Some exp).
    split_and!; [|done|done|by destruct (1 <? len)| |eauto].
    { unfold literal. rewrite signed_exp_parts. by destruct (1 <? len). }
    rewrite <-Hv. destruct (Z.ltb_spec 1 len); cbn [from_option id].
    + rewrite stake_sdrop, slen_sdrop. f_equal. lia.
    + assert (sdrop 1 ds = "") as E. { pose proof (slen_sdrop 1 ds). destruct (sdrop 1 ds); [done|cbn in *; lia]. }
      rewrite <-(stake_sdrop 1 ds) at 2. rewrite E. f_equal. cbn. lia.
  - destruct (zeros_spec (Z.to_nat (- (exp + 1)))) as (Hz1 & Hz2 & Hz3).
    exists "0", (Some (zeros (Z.to_nat (- (exp + 1))) +:+ ds)), None. cbn [from_option id].
    assert (all_digits (zeros (Z.to_nat (- (exp + 1))) +:+ ds) = true) as Hall by (by rewrite all_digits_app, Hz1).
    split_and!; [|done|done|done| |eauto].
    { unfold literal. by rewrite sapp_nil_r. }
    rewrite <-Hv, !dval_app by done. rewrite Hz2, slen_app, Hz3. change (dval "0") with 0. f_equal; lia.
  - destruct (zeros_spec (Z.to_nat (exp + 1 - len))) as (Hz1 & Hz2 & Hz3).
    exists (ds +:+ zeros (Z.to_nat (exp + 1 - len))), (Some "0"), None. cbn [from_option id].
    split_and!; [|by rewrite all_digits_app, Hd|by destruct ds|done| |eauto].
    { unfold literal. by rewrite <-sapp_assoc. }
    rewrite <-Hv, !dval_app by (rewrite ?all_digits_app, ?Hd; done). rewrite Hz2, Hz3.
    change (dval "0") with 0. change (Z.of_nat (slen "0")) with 1.
    rewrite <-(dec_round_scale (dval ds) (exp + 1 - Z.of_nat (slen ds)) (exp + 1 - len + 1)) by lia.
    f_equal; [|lia]. rewrite Z.pow_add_r by lia. rewrite Z2Nat.id by lia. lia.
  - exists (stake (Z.to_nat (exp + 1)) ds), (Some (sdrop (Z.to_nat (exp + 1)) ds)), None. cbn [from_option id].
    destruct (Hdn (Z.to_nat (exp + 1))) as [? ?]. split_and!; [|done| |done| |eauto].
    { unfold literal. by rewrite sapp_nil_r. }
    { intros E. pose proof (slen_stake (Z.to_nat (exp + 1)) ds) as El. rewrite E in El. change (slen "") with 0%nat in El. lia. }
    rewrite stake_sdrop, slen_sdrop, <-Hv. f_equal. lia.
Qed.

Lemma FormatE_literal mag :
  FormatE mag = literal (stake 1 (sci_parts mag).1)
    (if Nat.ltb 1 (slen (sci_parts mag).1) then Some (sdrop 1 (sci_parts mag).1) else None) (Some (sci_parts mag).2).
Proof. unfold FormatE, literal. destruct (sci_parts mag) as [ds exp]. cbn [fst snd]. by destruct (Nat.ltb _ _). Qed.

Lemma Cut_app s t : ContainsByte s "e" = false → Cut (s +:+ "e" +:+ t) "e" = (s, t).
Proof.
  induction s as [|c s IH]; cbn in *; [done|]. intros [Hc Hs]%orb_false_iff. by rewrite Hc, (IH Hs).
Qed.

Lemma digit_not c d : is_digit c = true → is_digit d = false → Ascii.eqb c d = false.
Proof. intros Hc Hd. apply Ascii.eqb_neq. intros ->. congruence. Qed.

Lemma digits_no_byte s c : all_digits s = true → is_digit c = false → ContainsByte s c = false.
Proof.
  intros Hs Hc. induction s as [|d s IH]; cbn in *; [done|]. apply andb_true_iff in Hs as [Hd Hs].
  by rewrite (digit_not d c), IH.
Qed.

Lemma drop_dot_digits s t : all_digits s = true → drop_dot (s +:+ "." +:+ t) = s +:+ t.
Proof.
  induction s as [|c s IH]; cbn; [done|]. intros [Hc Hs]%andb_true_iff. rewrite (digit_not c ".") by done.
  f_equal. by apply IH.
Qed.

Lemma drop_dot_id s : all_digits s = true → drop_dot s = s.
Proof.
  induction s as [|c s IH]; cbn; [done|]. intros [Hc Hs]%andb_true_iff. rewrite (digit_not c ".") by done.
  f_equal. by apply IH.
Qed.

Lemma Atoi_signed_exp exp : - 2 ^ 62 < exp < 2 ^ 62 → Atoi (signed_exp exp) = Some exp.
Proof.
  intros He. unfold Atoi. destruct (cut_signed_exp exp) as [Hc _]. unfold cut_sign in Hc. rewrite Hc.
  destruct (pad2_digits (Z.abs exp) ltac:(lia)) as (_ & Hd & Hs).
  destruct (String.eqb_spec (pad2 (Z.abs exp)) "") as [E|_]; [by rewrite E in Hs|]. rewrite Hd. cbn [mbind option_bind].
  assert (2 ^ 63 = 2 * 2 ^ 62) as -> by done.
  assert ((if exp <? 0 then - Z.abs exp else Z.abs exp) = exp) as -> by (destruct (Z.ltb_spec exp 0); lia).
  destruct (Z.leb_spec (- (2 * 2 ^ 62)) exp), (Z.ltb_spec exp (2 * 2 ^ 62)); done || lia.
Qed.

(** The scientific form is taken apart into its digits and its exponent. *)
Lemma sci_cut mag : representable mag → 0 < mag →
  let '(mantissa, expText) := Cut (FormatE mag) "e" in
  drop_dot mantissa = (sci_parts mag).1 ∧ Atoi expText = Some (sci_parts mag).2.
Proof.
  intros Hm Hp. destruct (sci_parts_spec mag Hm Hp) as [Hd Hne _ He]. rewrite FormatE_literal.
  set (ds := (sci_parts mag).1) in *. set (exp := (sci_parts mag).2) in *.
  assert (all_digits (stake 1 ds) = true ∧ all_digits (sdrop 1 ds) = true) as [H1 H2].
  { apply andb_true_iff. by rewrite <-all_digits_app, stake_sdrop. }
  unfold literal. rewrite sapp_assoc, Cut_app.
  - split; [|by apply Atoi_signed_exp]. destruct (Nat.ltb_spec 1 (slen ds)).
    + rewrite drop_dot_digits by done. apply stake_sdrop.
    + rewrite sapp_nil_r, drop_dot_id by done. rewrite <-(stake_sdrop 1 ds) at 2.
      assert (sdrop 1 ds = "") as ->; [|by rewrite sapp_nil_r].
      pose proof (slen_sdrop 1 ds). destruct (sdrop 1 ds); [done|cbn in *; lia].
  - rewrite ContainsByte_app, digits_no_byte by done. destruct (Nat.ltb _ _); [|done].
    by rewrite ContainsByte_app, (digits_no_byte (sdrop 1 ds)).
Qed.

Lemma parse_neg s m e : starts_digit s = true → parseDecimal s = Some (false, m, e) → parseDecimal ("-" +:+ s) = Some (true, m, e).
Proof.
  intros Hs. unfold parseDecimal. rewrite (cut_sign_digit s Hs). cbn [cut_sign String.append].
  destruct (span_digits s) as [ip r]. destruct (cut_frac r) as [fp r'].
  destruct (if String.eqb _ _ then _ else _) as [m'|]; [|done]. cbn.
  destruct (match r' with "" => _ | _ => _ end) as [e'|]; [|done]. cbn. by intros [= -> ->].
Qed.

Lemma literal_is_float ip fp e : is_Some fp ∨ is_Some e → is_float_literal (literal ip fp e) = true.
Proof.
  intros H. unfold is_float_literal, literal. rewrite !ContainsByte_app.
  destruct H as [[? ->]|[? ->]]; cbn; rewrite ?orb_true_r; done.
Qed.

Lemma repr_roundtrip f :
  finite f → Float64 (pyFloatRepr f) = Some f ∧ is_float_literal (pyFloatRepr f) = true.
Proof.
  destruct f as [neg mag| |]; [|done|done]. cbn [finite pyFloatRepr]. intros Hm.
  destruct (Z.eqb_spec mag 0) as [->|Hnz].
  { destruct neg; split; vm_compute; reflexivity. }
  assert (0 < mag) as Hp by (destruct Hm; lia).
  pose proof (sci_cut mag Hm Hp) as Hcut. destruct (Cut (FormatE mag) "e") as [mantissa expText].
  destruct Hcut as [-> ->].
  destruct (repr_layout_value _ _ _ (sci_parts_spec mag Hm Hp)) as (ip & fp & e & -> & Hip & Hne & Hfp & Hv & Hdot).
  pose proof (parse_literal ip fp e Hip Hne Hfp) as Hparse.
  assert (starts_digit (literal ip fp e) = true) as Hst.
  { unfold literal. destruct ip; [done|]. cbn in Hip |- *. by apply andb_true_iff in Hip as [-> _]. }
  pose proof (literal_is_float ip fp e Hdot) as Hfl.
  unfold Float64. destruct neg.
  - rewrite (parse_neg _ _ _ Hst Hparse), Hv. destruct (Z.leb_spec mag maxMag); [|destruct Hm; lia].
    split; [done|]. exact Hfl.
  - rewrite Hparse, Hv. destruct (Z.leb_spec mag maxMag); [done|destruct Hm; lia].
Qed.

Lemma Float64_repr f : finite f → Float64 (pyFloatRepr f) = Some f.
Proof. intros Hf. by apply repr_roundtrip. Qed.

Lemma pyJSONNumber_repr f : finite f → pyJSONNumber (pyFloatRepr f) = pyFloatRepr f.
Proof. intros Hf. destruct (repr_roundtrip f Hf) as [E1 E2]. unfold pyJSONNumber. by rewrite E2, E1. Qed.

(** ** Sums stay finite *)

(** Below the next binade nothing rounds past the largest value. *)
Lemma roundMag_max z : 0 ≤ z ≤ maxMag + 2 ^ 2044 - 1 → roundMag z 1 ≤ maxMag.
Proof.
  intros Hz. destruct (roundMag_spec z 1) as (R & s & Hs & HR & -> & Hle & Es); [lia|lia|].
  rewrite Z.mul_1_l in Hle. rewrite Z.div_1_r in Es.
  assert (2 ^ 53 * 2 ^ 2044 ≤ maxMag) by (vm_compute; discriminate).
  assert (maxMag + 2 ^ 2044 - 1 < 2 ^ 2098) as Hlt by (vm_compute; reflexivity).
  assert (s ≤ 2045) as Hs45.
  { destruct (decide (z = 0)) as [->|]; [cbn in Es; lia|].
    assert (Z.log2 z < 2098); [apply Z.log2_lt_pow2; lia|lia]. }
  destruct (decide (s = 2045)) as [->|].
  - unfold maxMag. apply Z.mul_le_mono_nonneg_r; [apply Z.pow_nonneg; lia|].
    assert (2 ^ 2045 = 2 * 2 ^ 2044) as E by (rewrite <-Z.pow_succ_r by lia; done).
    assert (0 < 2 ^ 2044) by (apply Z.pow_pos_nonneg; lia).
    unfold maxMag in Hz. rewrite E in Hle, Hz. generalize dependent (2 ^ 2044). intros u. intros. nia.
  - etransitivity; [|done]. apply Z.mul_le_mono_nonneg; [lia|lia|apply Z.pow_nonneg; lia|].
    apply Z.pow_le_mono_r; lia.
Qed.

Lemma of_int_small z : is_int64 z → ∃ m, of_int z = Fin (z <? 0) m ∧ 0 ≤ m ≤ 2 ^ 2044 - 1.
Proof.
  intros Hz. eexists. split; [done|].
  assert (0 ≤ Z.abs z * 2 ^ ulpExp ≤ 2 ^ 63 * 2 ^ ulpExp) as Hb.
  { split; [apply Z.mul_nonneg_nonneg; [lia|apply Z.pow_nonneg; lia]|].
    apply Z.mul_le_mono_nonneg_r; [apply Z.pow_nonneg; lia|]. unfold is_int64 in Hz. lia. }
  destruct (roundMag_spec (Z.abs z * 2 ^ ulpExp) 1) as (R & s & Hs & HR & -> & Hle & Es); [lia|lia|].
  rewrite Z.mul_1_l in Hle. rewrite Z.div_1_r in Es. set (x := Z.abs z * 2 ^ ulpExp) in *. clearbody x.
  split; [apply Z.mul_nonneg_nonneg; [lia|apply Z.pow_nonneg; lia]|].
  assert (2 ^ 53 * 2 ^ 1137 ≤ 2 ^ 2044 - 1) by (vm_compute; discriminate). etransitivity; [|done].
  assert (2 ^ 63 * 2 ^ ulpExp < 2 ^ 1138) by (vm_compute; reflexivity).
  apply Z.mul_le_mono_nonneg; [lia|lia|apply Z.pow_nonneg; lia|]. apply Z.pow_le_mono_r; [lia|].
  destruct (decide (x = 0)) as [->|]; [cbn in Es; lia|].
  assert (Z.log2 x < 1138); [apply Z.log2_lt_pow2; lia|lia].
Qed.

(** A clock reading plus a lifetime is a finite number. *)
Lemma fadd_int_finite now ttl : finite now → is_int64 ttl → finite (fadd now (of_int ttl)).
Proof.
  destruct now as [a m| |]; [|done|done]. intros [Hm _] Ht.
  destruct (of_int_small ttl Ht) as (n & -> & Hn). cbn [fadd].
  assert (0 < 2 ^ 2044) by (apply Z.pow_pos_nonneg; lia).
  set (z := signed a m + signed (ttl <? 0) n).
  assert (Z.abs z ≤ maxMag + 2 ^ 2044 - 1) as Hz.
  { unfold z, signed. destruct a, (ttl <? 0); lia. }
  destruct (Z.eqb_spec z 0).
  - cbn. unfold representable. rewrite roundMag_0 by lia. assert (0 ≤ maxMag) by lia. done.
  - pose proof (roundMag_max (Z.abs z) ltac:(lia)) as Hle.
    destruct (Z.leb_spec (roundMag (Z.abs z) 1) maxMag); [|lia]. cbn. split; [|by apply roundMag_idem; lia].
    destruct (roundMag_spec (Z.abs z) 1) as (R & s & Hs & HR & E & _); [lia|lia|].
    split; [|done]. rewrite E. apply Z.mul_nonneg_nonneg; [lia|apply Z.pow_nonneg; lia].
Qed.

(** ** Result *)

(** A finite number survives being written and read: the text [pyFloatRepr]
    lays out denotes, for every finite float64 and either zero, a number literal
    with a fraction or an exponent whose nearest float64 is the same value with
    the same sign; re-encoding the literal leaves it as it is. *)
Theorem pyFloatRepr_roundtrip f :
  finite f →
  Float64 (pyFloatRepr f) = Some f ∧ is_float_literal (pyFloatRepr f) = true ∧ pyJSONNumber (pyFloatRepr f) = pyFloatRepr f.
Proof. intros Hf. destruct (repr_roundtrip f Hf). auto using pyJSONNumber_repr. Qed.

(** ** Examples *)

Lemma pyFloatRepr_roundtrip_witness :
  pyFloatRepr (of_int 1700000000) = "1700000000.0" ∧ Float64 "1700000000.0" = Some (of_int 1700000000).
Proof.
  assert (pyFloatRepr (of_int 1700000000) = "1700000000.0") as E by (vm_compute; reflexivity).
  assert (finite (of_int 1700000000)) as Hf by (vm_compute; repeat split; discriminate).
  destruct (pyFloatRepr_roundtrip (of_int 1700000000) Hf) as [H _]. rewrite E in H. exact (conj E H).
Defined.

Example repr_smallest : pyFloatRepr (Fin false 1) = "5e-324".
Proof. vm_compute. reflexivity. Qed.
