(* ===== verification/Regex.v ===== *)
(** * Regular expressions (package regexp, as the program uses it)

    A text is the list of its characters, each with the bytes it was decoded
    from, so that bytes that are not UTF-8 survive a replacement.  Matching is
    leftmost-first: of the matches at the leftmost position, the one a
    backtracking search finds first, which is what package regexp documents. *)

From S2P Require Import Prelude GoText GoLib.
From Stdlib Require Import Ascii.
#[local] Open Scope string_scope.
#[local] Open Scope list_scope.
#[local] Open Scope Z_scope.

(** ** Texts *)

Abbreviation tok := (Z * string)%type (only parsing).

Fixpoint toks_fuel (fuel : nat) (s : string) : list (Z * string) :=
  match fuel, s with
  | S fuel, String _ _ => let '(r, n) := DecodeRune s in (r, stake n s) :: toks_fuel fuel (sdrop n s)
  | _, _ => []
  end.
Definition toks (s : string) : list (Z * string) := toks_fuel (slen s) s.
Fixpoint untoks (l : list (Z * string)) : string := match l with [] => "" | t :: l => t.2 +:+ untoks l end.

(** ** Expressions *)

Inductive re :=
  | RChar (c : Z)
  | RClass (ranges : list (Z * Z))
  | RAny                                   (* [.] under [(?s)] *)
  | REps
  | RSeq (a b : re)
  | RAlt (a b : re)
  | RStar (greedy : bool) (a : re)
  | RBegin                                 (* [^] *)
  | REnd.                                  (* [\z] *)

Definition ROpt (a : re) : re := RAlt a REps.
Fixpoint RLit (s : string) : re :=
  match s with "" => REps | String c s => RSeq (RChar (byteZ c)) (RLit s) end.
Fixpoint RAlts (l : list re) : re :=
  match l with [] => REps | [a] => a | a :: l => RAlt a (RAlts l) end.
Fixpoint RSeqs (l : list re) : re := match l with [] => REps | [a] => a | a :: l => RSeq a (RSeqs l) end.

Definition in_ranges (ranges : list (Z * Z)) (c : Z) : bool := existsb (λ g, (g.1 <=? c) && (c <=? g.2)) ranges.

(** ** Matching

    [rmatch r b l k] runs [r] at the head of [l] ([b]: the beginning of the text)
    and then [k] on what is left; the first success in order of preference. *)
Definition orelse {A} (x y : option A) : option A := match x with Some a => Some a | None => y end.

Section Star.
Context {A : Type} (body : bool → list (Z * string) → (bool → list (Z * string) → option A) → option A).

(** An iteration that consumes nothing is not repeated. *)
Fixpoint star_loop (fuel : nat) (greedy b : bool) (l : list (Z * string)) (k : bool → list (Z * string) → option A)
    : option A :=
  let more :=
    match fuel with
    | O => None
    | S fuel => body b l (λ b' l', if Nat.ltb (length l') (length l) then star_loop fuel greedy b' l' k else None)
    end in
  if greedy then orelse more (k b l) else orelse (k b l) more.
End Star.

Definition char1 (p : Z → bool) {A} (l : list (Z * string)) (k : bool → list (Z * string) → option A) : option A :=
  match l with t :: l => if p t.1 then k false l else None | [] => None end.

Fixpoint rmatch {A} (r : re) (b : bool) (l : list (Z * string)) (k : bool → list (Z * string) → option A) : option A :=
  match r with
  | RChar c => char1 (Z.eqb c) l k
  | RClass ranges => char1 (in_ranges ranges) l k
  | RAny => char1 (λ _, true) l k
  | REps => k b l
  | RSeq a c => rmatch a b l (λ b l, rmatch c b l k)
  | RAlt a c => orelse (rmatch a b l k) (rmatch c b l k)
  | RStar greedy a => star_loop (rmatch a) (length l) greedy b l k
  | RBegin => if b then k b l else None
  | REnd => match l with [] => k b l | _ => None end
  end.

(** What is left after the match at the head of [l]. *)
Definition match_here (r : re) (b : bool) (l : list (Z * string)) : option (list (Z * string)) :=
  rmatch r b l (λ _ l', Some l').

(** [re.ReplaceAllString(s, "")]; an empty match changes nothing. *)
Fixpoint remove_fuel (fuel : nat) (r : re) (b : bool) (l : list (Z * string)) : list (Z * string) :=
  match fuel, l with
  | S fuel, t :: l' =>
      match match_here r b l with
      | Some rest => if Nat.ltb (length rest) (length l) then remove_fuel fuel r false rest
                     else t :: remove_fuel fuel r false l'
      | None => t :: remove_fuel fuel r false l'
      end
  | _, _ => l
  end.
Definition ReplaceAllEmpty (r : re) (s : string) : string :=
  let l := toks s in untoks (remove_fuel (length l) r true l).

(** ** Texts and strings *)

Lemma toks_fuel_untoks fuel s : (slen s ≤ fuel)%nat → untoks (toks_fuel fuel s) = s.
Proof.
  revert s. induction fuel as [|fuel IH]; intros s Hf; [destruct s; [done|cbn in Hf; lia]|].
  destruct s as [|c s]; [done|]. cbn [toks_fuel]. destruct (DecodeRune (String c s)) as [r n] eqn:E.
  destruct (DecodeRune_width _ _ _ E) as [H1 H2]; [done|]. cbn [untoks snd]. rewrite IH; [apply stake_sdrop|].
  rewrite slen_sdrop. lia.
Qed.

Lemma untoks_toks s : untoks (toks s) = s.
Proof. by apply toks_fuel_untoks. Qed.

Definition rtok (r : Z) : Z * string := (r, of_bytes (EncodeRune r)).

Lemma rtok_fst l : (map rtok l).*1 = l.
Proof. induction l as [|r l IH]; [done|]. cbn. f_equal. exact IH. Qed.

Lemma untoks_runes l : untoks (map rtok l) = of_runes l.
Proof. induction l as [|r l IH]; cbn; [done|]. by rewrite IH. Qed.

Lemma stake_app s t : stake (slen s) (s +:+ t) = s.
Proof. induction s as [|c s IH]; [by destruct t|]. cbn. f_equal. exact IH. Qed.

Lemma toks_fuel_of_runes fuel l :
  Forall valid_rune l → (slen (of_runes l) ≤ fuel)%nat → toks_fuel fuel (of_runes l) = map rtok l.
Proof.
  intros Hl. revert fuel. induction Hl as [|r l Hr Hl IH]; intros fuel Hf; [by destruct fuel|].
  rewrite slen_of_runes_cons in Hf. pose proof (EncodeRune_length r).
  destruct fuel as [|fuel]; [lia|]. pose proof (of_runes_nonempty r l) as Hne.
  assert (DecodeRune (of_runes (r :: l)) = (r, length (EncodeRune r))) as Hd by (by apply DecodeRune_EncodeRune).
  assert (stake (length (EncodeRune r)) (of_runes (r :: l)) = of_bytes (EncodeRune r)) as Ht.
  { cbn [of_runes]. rewrite <-(slen_of_bytes (EncodeRune r)). apply stake_app. }
  assert (sdrop (length (EncodeRune r)) (of_runes (r :: l)) = of_runes l) as Hs.
  { cbn [of_runes]. rewrite <-(slen_of_bytes (EncodeRune r)). apply sdrop_app. }
  destruct (of_runes (r :: l)) eqn:E; [done|]. cbn [toks_fuel]. rewrite Hd, Ht, Hs. cbn [map]. f_equal. apply IH. lia.
Qed.

Lemma toks_of_runes l : Forall valid_rune l → toks (of_runes l) = map rtok l.
Proof. intros Hl. by apply toks_fuel_of_runes. Qed.

(** ** A character every match needs *)

Fixpoint requires (c : Z) (r : re) : bool :=
  match r with
  | RChar d => c =? d
  | RSeq a b => requires c a || requires c b
  | RAlt a b => requires c a && requires c b
  | _ => false
  end.

(** A successful run leaves a suffix; a required character is in what was consumed. *)
Lemma star_suffix {A} (body : bool → list (Z * string) → (bool → list (Z * string) → option A) → option A) fuel g b l k x :
  (∀ b l k x, body b l k = Some x → ∃ b' pre l', l = pre ++ l' ∧ k b' l' = Some x) →
  star_loop body fuel g b l k = Some x → ∃ b' pre l', l = pre ++ l' ∧ k b' l' = Some x.
Proof.
  intros Hb. revert b l. induction fuel as [|fuel IH]; intros b l; cbn [star_loop].
  - destruct g; cbn; [intros H; by exists b, [], l|]. destruct (k b l) eqn:E; intros [= ->]. by exists b, [], l.
  - set (more := body _ _ _).
    assert (more = Some x → ∃ b' pre l', l = pre ++ l' ∧ k b' l' = Some x) as Hm.
    { intros H. apply Hb in H as (b' & pre & l' & -> & H). destruct (Nat.ltb _ _); [|done].
      apply IH in H as (b'' & pre' & l'' & -> & H). exists b'', (pre ++ pre'), l''. by rewrite <-app_assoc. }
    destruct g; cbn.
    + destruct more as [y|] eqn:E; cbn; [intros [= ->]; by apply Hm|]. intros H. by exists b, [], l.
    + destruct (k b l) as [y|] eqn:E; cbn; [intros [= ->]; by exists b, [], l|]. apply Hm.
Qed.

Lemma char1_suffix {A} p l (k : bool → list (Z * string) → option A) x :
  char1 p l k = Some x → ∃ t l', l = t :: l' ∧ p t.1 = true ∧ k false l' = Some x.
Proof. destruct l as [|t l]; cbn; [done|]. destruct (p t.1) eqn:E; [|done]. intros H. by exists t, l. Qed.

Lemma rmatch_suffix {A} r b l (k : bool → list (Z * string) → option A) x :
  rmatch r b l k = Some x → ∃ b' pre l', l = pre ++ l' ∧ k b' l' = Some x ∧
    ∀ c, requires c r = true → c ∈ pre.*1.
Proof.
  revert b l k x. induction r as [d|rg| | |r1 IH1 r2 IH2|r1 IH1 r2 IH2|g r IH| |]; intros b l k x; cbn [rmatch requires].
  - intros (t & l' & -> & Hd & H)%char1_suffix. exists false, [t], l'. split_and!; [done|done|].
    intros c ->%Z.eqb_eq. apply Z.eqb_eq in Hd. cbn. set_solver.
  - intros (t & l' & -> & Hd & H)%char1_suffix. by exists false, [t], l'.
  - intros (t & l' & -> & Hd & H)%char1_suffix. by exists false, [t], l'.
  - intros H. by exists b, [], l.
  - intros (b1 & p1 & l1 & -> & (b2 & p2 & l2 & -> & H & H2)%IH2 & H1)%IH1. exists b2, (p1 ++ p2), l2.
    split_and!; [by rewrite app_assoc|done|]. intros c [Hc|Hc]%orb_true_iff; rewrite fmap_app; set_solver.
  - destruct (rmatch r1 b l k) as [y|] eqn:E; cbn.
    + intros [= ->]. apply IH1 in E as (b1 & p1 & l1 & -> & H & H1). exists b1, p1, l1. split_and!; [done|done|].
      intros c [Hc _]%andb_true_iff. auto.
    + intros (b1 & p1 & l1 & -> & H & H1)%IH2. exists b1, p1, l1. split_and!; [done|done|].
      intros c [_ Hc]%andb_true_iff. auto.
  - intros H. apply star_suffix in H as (b' & pre & l' & -> & H); [by exists b', pre, l'|].
    clear -IH. intros b l k x (b' & pre & l' & -> & H & _)%IH. by exists b', pre, l'.
  - destruct b; [|done]. intros H. by exists true, [], l.
  - destruct l; [|done]. intros H. by exists b, [], [].
Qed.

Lemma match_here_requires c r b l : requires c r = true → c ∉ l.*1 → match_here r b l = None.
Proof.
  intros Hr Hc. unfold match_here. destruct (rmatch r b l _) as [x|] eqn:E; [|done].
  apply rmatch_suffix in E as (b' & pre & l' & -> & _ & H). exfalso. apply Hc. rewrite fmap_app. set_solver.
Qed.

Lemma remove_requires c r fuel b l : requires c r = true → c ∉ l.*1 → remove_fuel fuel r b l = l.
Proof.
  intros Hr. revert b l. induction fuel as [|fuel IH]; intros b l Hc; [done|]. destruct l as [|t l]; [done|].
  cbn [remove_fuel]. rewrite (match_here_requires c) by done. f_equal. apply IH. set_solver.
Qed.

(** An expression that needs a character the text lacks removes nothing. *)
Lemma ReplaceAllEmpty_requires c r l :
  Forall valid_rune l → requires c r = true → c ∉ l → ReplaceAllEmpty r (of_runes l) = of_runes l.
Proof.
  intros Hl Hr Hc. unfold ReplaceAllEmpty. rewrite toks_of_runes by done. rewrite (remove_requires c); [apply untoks_runes|done|]. by rewrite rtok_fst.
Qed.
