(* ===== verification/GoFmt.v ===== *)
(** * Quoted strings and JSON texts (packages strconv, fmt, encoding/json)

    [strconv.Quote] (the [%q] verb), hexadecimal digits, and [json.Valid].  The
    table of printable characters is a parameter. *)

From S2P Require Import Prelude GoText GoLib Regex.
From Stdlib Require Import Ascii.
#[local] Open Scope string_scope.
#[local] Open Scope list_scope.
#[local] Open Scope Z_scope.

(** [unicode.IsPrint] *)
Class PrintTable := IsPrint : Z → bool.

(** Hexadecimal digits of [\xNN], [\uNNNN] and [\UNNNNNNNN]. *)
Definition hexdigit (d : Z) : ascii := if d <? 10 then Zbyte (48 + d) else Zbyte (87 + d).
Fixpoint hex (width : nat) (z : Z) : string :=
  match width with O => "" | S w => hex w (z / 16) +:+ String (hexdigit (z mod 16)) "" end.

(** [hex.EncodeToString] and [hex.DecodeString]. *)
Fixpoint hexBytes (s : string) : string := match s with "" => "" | String c s => hex 2 (byteZ c) +:+ hexBytes s end.

Definition fromHexChar (c : ascii) : option Z :=
  let z := byteZ c in
  if (48 <=? z) && (z <=? 57) then Some (z - 48) else
  if (97 <=? z) && (z <=? 102) then Some (z - 87) else
  if (65 <=? z) && (z <=? 70) then Some (z - 55) else None.

Fixpoint DecodeString (s : string) : option string :=
  match s with
  | "" => Some ""
  | String a (String b t) => x ← fromHexChar a; y ← fromHexChar b; r ← DecodeString t; Some (String (Zbyte (16 * x + y)) r)
  | _ => None
  end.

Lemma fromHexChar_digit d : 0 ≤ d < 16 → fromHexChar (hexdigit d) = Some d.
Proof.
  intros Hd. assert (In d [0;1;2;3;4;5;6;7;8;9;10;11;12;13;14;15]) as Hin by (cbn; lia).
  cbn in Hin. repeat destruct Hin as [<-|Hin]; done.
Qed.

Lemma Zbyte_byteZ c : Zbyte (byteZ c) = c.
Proof. unfold Zbyte, byteZ. rewrite N2Z.id. apply Ascii.ascii_N_embedding. Qed.

Lemma hexBytes_cons c s :
  hexBytes (String c s) = String (hexdigit (byteZ c / 16)) (String (hexdigit (byteZ c mod 16)) (hexBytes s)).
Proof. pose proof (byteZ_range c). cbn [hexBytes hex String.append]. rewrite (Z.mod_small (byteZ c / 16) 16); [done|].
  split; [apply Z.div_pos; lia|apply Z.div_lt_upper_bound; lia]. Qed.

Lemma DecodeString_hexBytes s : DecodeString (hexBytes s) = Some s.
Proof.
  induction s as [|c s IH]; [done|]. pose proof (byteZ_range c). rewrite hexBytes_cons. cbn [DecodeString].
  rewrite !fromHexChar_digit, IH; [|split; [apply Z.div_pos; lia|apply Z.div_lt_upper_bound; lia]|apply Z.mod_pos_bound; lia].
  cbn. rewrite <- Z.div_mod by lia. by rewrite Zbyte_byteZ.
Qed.

Lemma DecodeString_length s b : DecodeString s = Some b → slen s = (2 * slen b)%nat.
Proof.
  assert (Hgen : ∀ n s b, (slen s ≤ n)%nat → DecodeString s = Some b → slen s = (2 * slen b)%nat); [|by apply (Hgen (slen s))].
  clear s b. induction n as [|n IH]; intros [|c [|d s]] b Hn; cbn in Hn |- *; intros H; try lia; simplify_eq; try done.
  destruct (fromHexChar c), (fromHexChar d); try done. destruct (DecodeString s) as [t|] eqn:E; [|done]. injection H as <-. cbn.
  specialize (IH s t). unfold slen in *. rewrite IH by (done || lia). lia.
Qed.

Lemma slen_hexBytes s : slen (hexBytes s) = (2 * slen s)%nat.
Proof. induction s as [|c s IH]; [done|]. rewrite hexBytes_cons. cbn [slen String.length] in *. unfold slen in IH. lia. Qed.

#[export] Instance hexBytes_inj : Inj (=) (=) hexBytes.
Proof. intros s t He. apply (f_equal DecodeString) in He. rewrite !DecodeString_hexBytes in He. congruence. Qed.

(** ** [strconv.Quote] *)

Section Quote.
Context `{PrintTable}.

Definition quoteRune (t : Z * string) : string :=
  let '(r, raw) := t in
  if (r =? RuneError) && Nat.eqb (slen raw) 1 then "\x" +:+ hex 2 (byteZ (sget 0 raw))
  else if (r =? 34) || (r =? 92) then "\" +:+ of_runes [r]
  else if IsPrint r then of_runes [r]
  else if r =? 7 then "\a" else if r =? 8 then "\b" else if r =? 12 then "\f" else if r =? 10 then "\n"
  else if r =? 13 then "\r" else if r =? 9 then "\t" else if r =? 11 then "\v"
  else if (r <? 32) || (r =? 127) then "\x" +:+ hex 2 r
  else if r <? 0x10000 then "\u" +:+ hex 4 r
  else "\U" +:+ hex 8 r.

Definition Quote (s : string) : string :=
  of_bytes [34] +:+ foldr (λ t rest, quoteRune t +:+ rest) "" (toks s) +:+ of_bytes [34].
End Quote.
