(* ===== verification/Core.v ===== *)
(** * The shared vocabulary (src/internal/core/types.go, message.go)

    Messages of a transcript and messages of the bus.  A raw JSON value
    ([json.RawMessage], or an [any] kept as decoded JSON) is its text; a nilable
    slice or pointer is an [option]. *)

From S2P Require Import Prelude GoText.
#[local] Open Scope string_scope.
#[local] Open Scope list_scope.
#[local] Open Scope Z_scope.

Abbreviation RawJSON := string (only parsing).

(** ** Roles *)

Abbreviation Role := string (only parsing).
Definition RoleSystem : Role := "system".
Definition RoleUser : Role := "user".
Definition RoleAssistant : Role := "assistant".
Definition RoleTool : Role := "tool".

Definition Role_Valid (r : Role) : bool :=
  bool_decide (r = RoleSystem) || bool_decide (r = RoleUser)
  || bool_decide (r = RoleAssistant) || bool_decide (r = RoleTool).

(** ** Content *)

Record ContentBlock := {
  cb_Type : string;
  cb_Text : string;
  cb_ImageURL : RawJSON;
  cb_Raw : option (gmap string RawJSON)
}.

Record Content := {
  c_Text : string;
  c_Blocks : option (list ContentBlock);
  c_isText : bool
}.

Definition TextContent (s : string) : Content :=
  {| c_Text := s; c_Blocks := None; c_isText := true |}.

Definition BlockContent (b : option (list ContentBlock)) : Content :=
  {| c_Text := ""; c_Blocks := b; c_isText := false |}.

Definition IsText (c : Content) : bool := c_isText c.

Definition IsZero (c : Content) : bool :=
  negb (c_isText c) && match c_Blocks c with None => true | Some _ => false end.

(** ** Tool calls *)

(** A [map[string]any] keeps the text [json.Marshal] gives of each value. *)
Record ToolCall := {
  tc_ID : string;
  tc_Name : string;
  tc_Arguments : RawJSON;
  tc_ExtraContent : option (gmap string RawJSON);
  tc_ProviderSpecificFields : option (gmap string RawJSON);
  tc_FunctionProviderSpecific : option (gmap string RawJSON)
}.

Definition HasValidName (t : ToolCall) : bool := negb (bool_decide (tc_Name t = "")).

Definition ArgumentsString (t : ToolCall) : string :=
  if bool_decide (tc_Arguments t = "") then "{}" else tc_Arguments t.

(** ** Transcript messages *)

Record Message := mkMessage {
  m_Role : Role;
  m_Content : Content;
  m_Timestamp : string;
  m_ToolCalls : option (list ToolCall);
  m_ToolCallID : string;
  m_Name : string;
  m_ReasoningContent : string;
  m_ThinkingBlocks : option (list RawJSON);
  m_extra : list (string * RawJSON);
  m_present : gset string
}.

Definition NewMessage (role : Role) (text : string) : Message :=
  mkMessage role (TextContent text) "" None "" "" "" None [] ∅.

(** [range m.ToolCalls]: a nil slice has no elements. *)
Definition calls (m : Message) : list ToolCall := default [] (m_ToolCalls m).

Definition with_ToolCalls (tcs : option (list ToolCall)) (m : Message) : Message :=
  mkMessage (m_Role m) (m_Content m) (m_Timestamp m) tcs (m_ToolCallID m) (m_Name m)
    (m_ReasoningContent m) (m_ThinkingBlocks m) (m_extra m) (m_present m).

Definition with_tool_result (id name : string) (m : Message) : Message :=
  mkMessage (m_Role m) (m_Content m) (m_Timestamp m) (m_ToolCalls m) id name
    (m_ReasoningContent m) (m_ThinkingBlocks m) (m_extra m) (m_present m).

(** [Message.Extra]: the value of an unmodelled key. *)
Fixpoint Extra_loop (key : string) (es : list (string * RawJSON)) : option RawJSON :=
  match es with
  | [] => None
  | (k, v) :: es => if decide (k = key) then Some v else Extra_loop key es
  end.

Definition Extra (m : Message) (key : string) : option RawJSON := Extra_loop key (m_extra m).

(** ** Bus messages *)

Record InboundMessage := {
  in_Channel : string;
  in_SenderID : string;
  in_ChatID : string;
  in_Content : string;
  in_Timestamp : Z;
  in_Media : list string;
  in_Metadata : gmap string RawJSON;
  in_SessionKeyOverride : option string;
  in_RequireExistingSess : bool;
  in_InputRole : option string
}.

Definition SessionKey (m : InboundMessage) : string :=
  match in_SessionKeyOverride m with
  | Some k => if decide (k = "") then in_Channel m +:+ ":" +:+ in_ChatID m else k
  | None => in_Channel m +:+ ":" +:+ in_ChatID m
  end.

Definition IsUserInput (m : InboundMessage) : bool :=
  match in_InputRole m with
  | Some r => bool_decide (r = RoleUser)
  | None => negb (bool_decide (in_Channel m = "system"))
  end.
