(* ===== verification/GoJson.v ===== *)
(** * JSON texts as encoding/json takes them apart

    A [json.RawMessage] is its text.  [objectFields] and [arrayItems]
    (src/internal/session/store.go, session.go) split the text of a container into
    the texts of its members, [stringToken] reads a string literal, and [decode]
    is the value of a text with the order of keys kept.  [json_Valid] is [json.Valid]. *)

From Stdlib Require Import Ascii.
From S2P Require Import Prelude GoText GoLib PyFloat GoFmt Core.
#[local] Open Scope string_scope.
#[local] Open Scope list_scope.
#[local] Open Scope Z_scope.

(** ** JSON values *)

#[local] Set Warnings "-register-all".

(** A number keeps its literal ([UseNumber]). *)
Inductive json :=
  | JNull | JBool (b : bool) | JNum (literal : string) | JStr (s : string)
  | JArr (items : list json) | JObj (fields : list (string * json)).

(** ** White space, numbers *)

Definition is_json_space (c : ascii) : bool :=
  let b := byteZ c in (b =? 32) || (b =? 9) || (b =? 10) || (b =? 13).
Fixpoint skip_space (s : string) : string :=
  match s with String c t => if is_json_space c then skip_space t else s | "" => "" end.

Definition json_frac (s : string) : option string :=
  match s with
  | String c t => if byteZ c =? 46 then let '(ds, r) := span_digits t in if String.eqb ds "" then None else Some r else Some s
  | "" => Some s
  end.

Definition json_exp (s : string) : option string :=
  match s with
  | String c t =>
      if (byteZ c =? 101) || (byteZ c =? 69) then
        let t := match t with String d u => if (byteZ d =? 43) || (byteZ d =? 45) then u else t | "" => t end in
        let '(ds, r) := span_digits t in if String.eqb ds "" then None else Some r
      else Some s
  | "" => Some s
  end.

Definition json_number (s : string) : option string :=
  let s := match s with String c t => if byteZ c =? 45 then t else s | "" => s end in
  let '(ds, r) := span_digits s in
  match ds with
  | "" => None
  | String c ds' => if (byteZ c =? 48) && negb (String.eqb ds' "") then None else r ← json_frac r; json_exp r
  end.

(** The nesting the scanner accepts. *)
Definition maxNestingDepth : nat := N.to_nat 10000.

(** ** String literals *)

Fixpoint hexValue (s : string) (acc : Z) : option Z :=
  match s with "" => Some acc | String c s => d ← fromHexChar c; hexValue s (acc * 16 + d) end.

(** [getu4]: four hexadecimal digits after a backslash and a u. *)
Definition getu4 (s : string) : option Z :=
  match s with
  | String b (String u (String h1 (String h2 (String h3 (String h4 _))))) =>
      if (byteZ b =? 92) && (byteZ u =? 117) then hexValue (String h1 (String h2 (String h3 (String h4 "")))) 0 else None
  | _ => None
  end.

(** [utf16.DecodeRune] of a pair of surrogates. *)
Definition surrogatePair (r1 r2 : Z) : option Z :=
  if (0xD800 <=? r1) && (r1 <? 0xDC00) && (0xDC00 <=? r2) && (r2 <? 0xE000)
  then Some ((r1 - 0xD800) * 0x400 + (r2 - 0xDC00) + 0x10000) else None.

Definition isSurrogate (r : Z) : bool := (0xD800 <=? r) && (r <? 0xE000).

Definition simpleEscape (e : Z) : option Z :=
  if e =? 34 then Some 34 else if e =? 92 then Some 92 else if e =? 47 then Some 47 else if e =? 98 then Some 8
  else if e =? 102 then Some 12 else if e =? 110 then Some 10 else if e =? 114 then Some 13 else if e =? 116 then Some 9 else None.

(** The characters up to the closing quote, and what follows it. *)
Fixpoint unquoteRunes (fuel : nat) (s : string) : option (list Z * string) :=
  match fuel, s with
  | O, _ | _, "" => None
  | S fuel, String c t =>
      let b := byteZ c in
      let emit r rest := '(rs, rest) ← unquoteRunes fuel rest; Some (r :: rs, rest) in
      if b =? 34 then Some ([], t)
      else if b =? 92 then
        match t with
        | "" => None
        | String e t1 =>
            match simpleEscape (byteZ e) with
            | Some r => emit r t1
            | None =>
                rr ← getu4 s;
                let rest := sdrop 6 s in
                if isSurrogate rr then
                  match getu4 rest ≫= surrogatePair rr with
                  | Some dec => emit dec (sdrop 6 rest)
                  | None => emit RuneError rest
                  end
                else emit rr rest
            end
        end
      else if b <? 32 then None
      else let '(r, n) := DecodeRune s in emit r (sdrop n s)
  end.

(** A string token. *)
Definition stringToken (s : string) : option (string * string) :=
  match s with
  | String q t => if byteZ q =? 34 then '(rs, rest) ← unquoteRunes (slen t) t; Some (of_runes rs, rest) else None
  | "" => None
  end.

(** ** Values

    A recursive descent over the grammar; each function returns the value it read and
    what follows.  [fuel] bounds the steps and twice the length of the text is enough;
    [depth] is the nesting left of the scanner's limit. *)

(** What [rest] leaves of [s]. *)
Definition consumed (s rest : string) : string := stake (slen s - slen rest) s.

Fixpoint json_value (fuel depth : nat) (s : string) : option (json * string) :=
  match fuel with
  | O => None
  | S fuel =>
      match skip_space s with
      | "" => None
      | String c t =>
          let s := String c t in
          let b := byteZ c in
          if b =? 123 then
            match depth with
            | O => None
            | S depth =>
                match skip_space t with
                | String d u => if byteZ d =? 125 then Some (JObj [], u)
                                else '(fields, u) ← json_members fuel depth t; Some (JObj fields, u)
                | "" => None
                end
            end
          else if b =? 91 then
            match depth with
            | O => None
            | S depth =>
                match skip_space t with
                | String d u => if byteZ d =? 93 then Some (JArr [], u)
                                else '(items, u) ← json_elements fuel depth t; Some (JArr items, u)
                | "" => None
                end
            end
          else if b =? 34 then '(str, u) ← stringToken s; Some (JStr str, u)
          else if HasPrefix s "true" then Some (JBool true, sdrop 4 s)
          else if HasPrefix s "false" then Some (JBool false, sdrop 5 s)
          else if HasPrefix s "null" then Some (JNull, sdrop 4 s)
          else u ← json_number s; Some (JNum (consumed s u), u)
      end
  end
with json_members (fuel depth : nat) (s : string) : option (list (string * json) * string) :=
  match fuel with
  | O => None
  | S fuel =>
      '(key, t) ← stringToken (skip_space s);
      match skip_space t with
      | String d u =>
          if byteZ d =? 58 then
            '(v, u) ← json_value fuel depth u;
            match skip_space u with
            | String e w => if byteZ e =? 44 then '(fields, w) ← json_members fuel depth w; Some ((key, v) :: fields, w)
                            else if byteZ e =? 125 then Some ([(key, v)], w) else None
            | "" => None
            end
          else None
      | "" => None
      end
  end
with json_elements (fuel depth : nat) (s : string) : option (list json * string) :=
  match fuel with
  | O => None
  | S fuel =>
      '(v, u) ← json_value fuel depth s;
      match skip_space u with
      | String e w => if byteZ e =? 44 then '(items, w) ← json_elements fuel depth w; Some (v :: items, w)
                      else if byteZ e =? 93 then Some ([v], w) else None
      | "" => None
      end
  end.

(** The next value of a text, and what follows it: [dec.Decode]. *)
Definition decode (s : string) : option (json * string) := json_value (S (slen s + slen s)) maxNestingDepth s.

Definition json_Valid (s : string) : bool :=
  match decode s with Some (_, rest) => String.eqb (skip_space rest) "" | None => false end.

(** ** Members of a container *)

(** The text of the next value, and what follows it: [dec.Decode(&raw)]. *)
Definition rawValue (s : string) : option (RawJSON * string) :=
  let s := skip_space s in
  '(_, rest) ← decode s;
  Some (consumed s rest, rest).

(** The members from a key on, to the closing brace. *)
Fixpoint membersFrom (fuel : nat) (s : string) : option (list (string * RawJSON)) :=
  match fuel with
  | O => None
  | S fuel =>
      '(key, s) ← stringToken (skip_space s);
      match skip_space s with
      | String colon s =>
          if negb (byteZ colon =? 58) then None else
          '(val, s) ← rawValue s;
          match skip_space s with
          | String e s => if byteZ e =? 44 then fields ← membersFrom fuel s; Some ((key, val) :: fields)
                          else if byteZ e =? 125 then Some [(key, val)] else None
          | "" => None
          end
      | "" => None
      end
  end.

(** The first object of [data]; what follows it is not looked at. *)
Definition objectFields (data : string) : option (list (string * RawJSON)) :=
  match skip_space data with
  | String b s =>
      if negb (byteZ b =? 123) then None else
      match skip_space s with
      | String e _ => if byteZ e =? 125 then Some [] else membersFrom (slen s) s
      | "" => None
      end
  | "" => None
  end.

Fixpoint itemsFrom (fuel : nat) (s : string) : option (list RawJSON) :=
  match fuel with
  | O => None
  | S fuel =>
      '(item, s) ← rawValue s;
      match skip_space s with
      | String e s => if byteZ e =? 44 then items ← itemsFrom fuel s; Some (item :: items)
                      else if byteZ e =? 93 then Some [item] else None
      | "" => None
      end
  end.

Definition arrayItems (raw : string) : option (list RawJSON) :=
  match skip_space raw with
  | String b s =>
      if negb (byteZ b =? 91) then None else
      match skip_space s with
      | String e _ => if byteZ e =? 93 then Some [] else itemsFrom (slen s) s
      | "" => None
      end
  | "" => None
  end.

(** The last value of a key, as in a Python dict read from the text. *)
Fixpoint fieldValue (fields : list (string * RawJSON)) (key : string) : option RawJSON :=
  match fields with
  | [] => None
  | (k, v) :: fields => match fieldValue fields key with Some v => Some v | None => if String.eqb k key then Some v else None end
  end.

(** ** [json.Unmarshal] into a string or a number *)

(** Null leaves the empty string. *)
Definition unmarshalString (raw : RawJSON) : option string :=
  if negb (json_Valid raw) then None else
  '(v, _) ← decode raw;
  match v with JStr s => Some s | JNull => Some "" | _ => None end.

(** A [json.Number] also takes a string that holds a number; null leaves the empty
    literal. *)
Definition isValidNumber (s : string) : bool := match json_number s with Some "" => true | _ => false end.
Definition unmarshalNumber (raw : RawJSON) : option string :=
  '(v, _) ← decode raw;
  match v with
  | JNum lit => Some lit
  | JStr s => if isValidNumber s then Some s else None
  | JNull => Some ""
  | _ => None
  end.

(** A text whose quotation marks are written as apostrophes. *)
Fixpoint dq (s : string) : string :=
  match s with "" => "" | String c s => String (if byteZ c =? 39 then Zbyte 34 else c) (dq s) end.

Example decode_1 :
  decode (dq " {'a' : [1.50, 'x\u00e9\n'], 'b':null} ,") = Some (JObj [("a", JArr [JNum "1.50"; JStr (of_bytes [120; 195; 169; 10])]); ("b", JNull)], " ,").
Proof. vm_compute. reflexivity. Qed.
Example decode_2 : decode (dq "'\ud83d\ude00\ud83d'") = Some (JStr (of_runes [0x1F600; RuneError]), "").
Proof. vm_compute. reflexivity. Qed.
Example json_valid_1 : json_Valid " {  } " = true.
Proof. vm_compute. reflexivity. Qed.
Example json_valid_2 : json_Valid "[-1.5e+10, true , null, [], {}]" = true.
Proof. vm_compute. reflexivity. Qed.
Example json_valid_3 : json_Valid "[01]" = false.
Proof. vm_compute. reflexivity. Qed.
Example json_valid_4 : json_Valid "[1,]" = false.
Proof. vm_compute. reflexivity. Qed.
