(* ===== verification/PyJson.v ===== *)
(** * Writing JSON as Python writes it (src/internal/session/pyjson.go)

    A session file has to look as if json.dumps had written it: separators with a
    space, only quotation marks, backslashes and control characters escaped, numbers
    passed through.  A value is re-encoded from its text by walking the tokens of the
    decoder; here the walk is over the value those tokens spell.  The main result is
    that the text that is written stands for the value that was read. *)

From Stdlib Require Import Ascii.
From S2P Require Import Prelude GoText GoLib PyFloat GoFmt Core GoJson.
#[local] Open Scope string_scope.
#[local] Open Scope list_scope.
#[local] Open Scope Z_scope.

Definition pyItemSep : string := ", ".
Definition pyKeySep : string := ": ".

Definition backslash : ascii := Zbyte 92.

(** One character of a string; [text] is its bytes. *)
Definition writePyChar (r : Z) (text : string) : string :=
  if r =? 34 then String backslash (String (Zbyte 34) "")
  else if r =? 92 then String backslash (String backslash "")
  else if r =? 10 then String backslash "n"
  else if r =? 13 then String backslash "r"
  else if r =? 9 then String backslash "t"
  else if r =? 8 then String backslash "b"
  else if r =? 12 then String backslash "f"
  else if r <? 0x20 then String backslash (String "u" (hex 4 r))
  else text.

Fixpoint writePyChars (fuel : nat) (s : string) : string :=
  match fuel, s with
  | O, _ | _, "" => ""
  | S fuel, _ =>
      let '(r, size) := DecodeRune s in
      if (r =? RuneError) && (size =? 1)%nat then of_runes [RuneError] +:+ writePyChars fuel (sdrop 1 s)
      else writePyChar r (stake size s) +:+ writePyChars fuel (sdrop size s)
  end.

Definition writePyString (s : string) : string :=
  String (Zbyte 34) (writePyChars (slen s) s +:+ String (Zbyte 34) "").

(** [appendPyTokenValue]. *)
Fixpoint pyText (v : json) : string :=
  match v with
  | JNull => "null"
  | JBool b => if b then "true" else "false"
  | JNum lit => lit
  | JStr s => writePyString s
  | JArr items => "[" +:+ Join (map pyText items) pyItemSep +:+ "]"
  | JObj fields => "{" +:+ Join (map (λ '(k, v), writePyString k +:+ pyKeySep +:+ pyText v) fields) pyItemSep +:+ "}"
  end.

(** [dec.More()] at the top level: something follows that does not close a container. *)
Definition More (s : string) : bool :=
  match skip_space s with
  | "" => false
  | String c _ => negb (byteZ c =? 93) && negb (byteZ c =? 125)
  end.

(** The code walks over the tokens and has no limit on the nesting; the model refuses a
    text nested deeper than [maxNestingDepth], which no reader of a record lets through. *)
Definition appendPyRaw (raw : RawJSON) : option string :=
  '(v, rest) ← decode raw;
  if More rest then None else Some (pyText v).

Example py_1 : appendPyRaw (dq "{'a':[1.50,'<\u2028/'],'b':{}, 'a':null}") = Some (dq "{'a': [1.50, '<" +:+ of_runes [0x2028] +:+ dq "/'], 'b': {}, 'a': null}").
Proof. vm_compute. reflexivity. Qed.

(** ** Characters and their bytes *)

Lemma Zbyte_eq z c : z = byteZ c → Zbyte z = c.
Proof. intros ->. apply Zbyte_byteZ. Qed.

(** A rune that decodes is the encoding of what it decodes to. *)
Lemma DecodeRune_text s r n :
  s ≠ "" → DecodeRune s = (r, n) → (r =? RuneError) && (n =? 1)%nat = false → stake n s = of_bytes (EncodeRune r).
Proof.
  destruct s as [|c rest]; [done|]. intros _ Hd Hok. unfold DecodeRune in Hd. pose proof (byteZ_range c). destruct (accept2 (byteZ c)) as [lo hi] eqn:Ha.
  unfold accept2 in Ha. unfold cont in Hd.
  destruct (Z.ltb_spec (byteZ c) 0x80).
  { injection Hd as <- <-. unfold EncodeRune. rewrite (proj2 (Z.leb_le 0 _)), (proj2 (Z.ltb_lt _ 0x80)) by lia. cbn. by rewrite Zbyte_byteZ. }
  destruct (Z.leb_spec 0xC2 (byteZ c)), (Z.leb_spec (byteZ c) 0xDF), (Z.leb_spec 0xE0 (byteZ c)), (Z.leb_spec (byteZ c) 0xEF),
    (Z.leb_spec 0xF0 (byteZ c)), (Z.leb_spec (byteZ c) 0xF4); try lia; cbn [andb] in Hd.
  all: destruct rest as [|c1 [|c2 [|c3 rest]]]; simplify_eq; try done; try pose proof (byteZ_range c1); try pose proof (byteZ_range c2); try pose proof (byteZ_range c3).
  all: match type of Hd with (if ?b then _ else _) = _ => destruct b eqn:Hb end; simplify_eq; try done; bool_hyps.
  all: repeat match type of Ha with (if ?b then _ else _) = _ => destruct b eqn:? end; simplify_eq; bool_hyps; try lia.
  all: unfold EncodeRune; repeat case_match; bool_hyps; try lia.
  all: cbn [stake of_bytes]; repeat f_equal; symmetry; apply Zbyte_eq; Z.to_euclidean_division_equations; lia.
Qed.

(** ** String literals *)

Definition pyChar (r : Z) : string := writePyChar r (of_bytes (EncodeRune r)).
Definition pyChars (rs : list Z) : string := foldr (λ r t, pyChar r +:+ t) "" rs.

Lemma writePyChars_runes fuel s : (slen s ≤ fuel)%nat → writePyChars fuel s = pyChars (runes s).
Proof.
  revert s. induction fuel as [|fuel IH]; intros s Hf; destruct s as [|c s]; [done|cbn in Hf; lia|done|].
  cbn [writePyChars]. destruct (DecodeRune (String c s)) as [r n] eqn:E. pose proof (DecodeRune_width _ _ _ E ltac:(done)) as Hw.
  rewrite (runes_cons (String c s) r n) by done. cbn [pyChars foldr]. fold (pyChars (runes (sdrop n (String c s)))).
  assert (slen (sdrop n (String c s)) ≤ fuel)%nat by (rewrite slen_sdrop; unfold slen in *; cbn in *; lia).
  destruct ((r =? RuneError) && (n =? 1)%nat) eqn:Hb.
  - apply andb_true_iff in Hb as [->%Z.eqb_eq ->%Nat.eqb_eq]. by rewrite IH by done.
  - rewrite IH by done. unfold pyChar. by rewrite (DecodeRune_text (String c s) r n).
Qed.

(** A character that is written as itself. *)
Lemma plain_first r t : valid_rune r → 0x20 ≤ r → r ≠ 34 → r ≠ 92 →
  ∃ c u, of_bytes (EncodeRune r) +:+ t = String c u ∧ byteZ c ≠ 34 ∧ byteZ c ≠ 92 ∧ 32 ≤ byteZ c.
Proof.
  intros Hv H1 H2 H3. pose proof (DecodeRune_EncodeRune r t Hv) as Hd.
  destruct (EncodeRune_shape r Hv) as [[? E]|[(a&b&E&?&?&?)|[(a&b&c&E&?&?&?&?&?)|(a&b&c&d&E&?&?&?&?&?&?)]]]; rewrite E; cbn [of_bytes String.append].
  all: eexists _, _; split; [reflexivity|rewrite byteZ_Zbyte; lia].
Qed.

(** A character that is written is read back, and ends where it was written to end. *)
Lemma unquote_pyChar fuel r t : valid_rune r →
  unquoteRunes (S fuel) (pyChar r +:+ t) = ('(rs, rest) ← unquoteRunes fuel t; Some (r :: rs, rest)).
Proof.
  intros Hv. unfold pyChar, writePyChar.
  destruct (Z.eqb_spec r 34) as [->|]; [done|]. destruct (Z.eqb_spec r 92) as [->|]; [done|]. destruct (Z.eqb_spec r 10) as [->|]; [done|].
  destruct (Z.eqb_spec r 13) as [->|]; [done|]. destruct (Z.eqb_spec r 9) as [->|]; [done|]. destruct (Z.eqb_spec r 8) as [->|]; [done|].
  destruct (Z.eqb_spec r 12) as [->|]; [done|]. destruct (Z.ltb_spec r 0x20) as [Hr|Hr].
  - assert (0 ≤ r < 0x20) as Hr' by (unfold valid_rune in Hv; lia). clear -Hr'.
    rewrite <- (Z2Nat.id r) by lia. assert (Z.to_nat r < 32)%nat as Hk by lia. clear Hr'. revert Hk. generalize (Z.to_nat r). intros k Hk.
    do 32 (destruct k as [|k]; [reflexivity|]). lia.
  - destruct (plain_first r t Hv) as (c & u & E & H1 & H2 & H3); [done..|]. pose proof (DecodeRune_EncodeRune r t Hv) as Hd.
    pose proof (sdrop_app (of_bytes (EncodeRune r)) t) as Hs. rewrite slen_of_bytes in Hs. rewrite E in *. cbn [unquoteRunes].
    rewrite (proj2 (Z.eqb_neq _ _) H1), (proj2 (Z.eqb_neq _ _) H2), (proj2 (Z.ltb_ge _ _)) by lia. by rewrite Hd, Hs.
Qed.

Lemma unquote_pyChars fuel rs t : Forall valid_rune rs → (length rs < fuel)%nat →
  unquoteRunes fuel (pyChars rs +:+ String (Zbyte 34) t) = Some (rs, t).
Proof.
  intros Hv. revert fuel. induction Hv as [|r rs Hr Hv IH]; intros fuel Hf; (destruct fuel as [|fuel]; [cbn in Hf; lia|]); [done|].
  cbn [pyChars foldr]. rewrite <- sapp_assoc, unquote_pyChar by done. cbn in Hf. fold (pyChars rs). by rewrite IH by lia.
Qed.

Lemma pyChar_length r : (1 ≤ slen (pyChar r))%nat.
Proof.
  unfold pyChar, writePyChar. pose proof (EncodeRune_length r). repeat case_match; rewrite ?slen_of_bytes; cbn; lia.
Qed.

Lemma pyChars_length rs : (length rs ≤ slen (pyChars rs))%nat.
Proof. induction rs as [|r rs IH]; cbn [pyChars foldr length]; [lia|]. rewrite slen_app. pose proof (pyChar_length r). fold (pyChars rs). lia. Qed.

(** A string that is written is read back, with bytes that are not UTF-8 replaced. *)
Lemma stringToken_pyString s t : stringToken (writePyString s +:+ t) = Some (of_runes (runes s), t).
Proof.
  unfold writePyString. rewrite writePyChars_runes by done. cbn [String.append stringToken].
  rewrite byteZ_Zbyte, Z.eqb_refl by lia. rewrite <- sapp_assoc. cbn [String.append].
  rewrite unquote_pyChars; [done|apply runes_valid|]. rewrite slen_app. pose proof (pyChars_length (runes s)). cbn. lia.
Qed.

(** ** Numbers *)

(** What may follow a value: the end, a comma or a closing bracket. *)
Definition closes (s : string) : bool :=
  match s with "" => true | String c _ => (byteZ c =? 44) || (byteZ c =? 93) || (byteZ c =? 125) end.

Lemma closes_digit s : closes s = true → starts_digit s = false.
Proof. destruct s as [|c s]; [done|]. unfold closes, starts_digit, is_digit. intros H. lia. Qed.

Lemma span_digits_rest s rest : starts_digit rest = false →
  span_digits (s +:+ rest) = ((span_digits s).1, (span_digits s).2 +:+ rest).
Proof.
  intros Hr. induction s as [|c s IH]; cbn [String.append].
  - destruct rest as [|c rest]; [done|]. cbn in Hr |- *. by rewrite Hr.
  - cbn. destruct (is_digit c); [|done]. rewrite IH. by destruct (span_digits s).
Qed.

Lemma json_frac_rest r rest : closes rest = true → json_frac (r +:+ rest) = (λ u, u +:+ rest) <$> json_frac r.
Proof.
  intros Hc. destruct r as [|c r]; cbn [String.append json_frac].
  - destruct rest as [|c rest]; [done|]. cbn in Hc |- *. by rewrite (proj2 (Z.eqb_neq _ 46)) by lia.
  - destruct (byteZ c =? 46); [|done]. rewrite span_digits_rest by (by apply closes_digit). destruct (span_digits r) as [ds u]. cbn. by destruct (String.eqb ds "").
Qed.

Lemma json_exp_rest r rest : closes rest = true → json_exp (r +:+ rest) = (λ u, u +:+ rest) <$> json_exp r.
Proof.
  intros Hc. pose proof (closes_digit _ Hc) as Hd. destruct r as [|c r]; cbn [String.append json_exp].
  - destruct rest as [|c rest]; [done|]. cbn in Hc |- *. by rewrite (proj2 (Z.eqb_neq _ 101)), (proj2 (Z.eqb_neq _ 69)) by lia.
  - destruct (_ || _); [|done]. set (sign := λ t, match t with String d u => if (byteZ d =? 43) || (byteZ d =? 45) then u else t | "" => t end).
    assert (sign (r +:+ rest) = sign r +:+ rest) as Hs.
    { destruct r as [|d r]; cbn; [|by destruct (_ || _)]. destruct rest as [|d rest]; [done|]. cbn in Hc |- *.
      by rewrite (proj2 (Z.eqb_neq _ 43)), (proj2 (Z.eqb_neq _ 45)) by lia. }
    fold (sign r). fold (sign (r +:+ rest)). rewrite Hs, span_digits_rest by done. destruct (span_digits (sign r)) as [ds u]. cbn. by destruct (String.eqb ds "").
Qed.

(** A number is read as far as it goes, whatever may follow a value. *)
Lemma json_number_rest lit rest u : closes rest = true → json_number lit = Some u → json_number (lit +:+ rest) = Some (u +:+ rest).
Proof.
  intros Hc. unfold json_number. set (sign := λ s, match s with String c t => if byteZ c =? 45 then t else s | "" => s end).
  fold (sign lit). fold (sign (lit +:+ rest)). destruct lit as [|c lit]; [done|].
  assert (sign (String c lit +:+ rest) = sign (String c lit) +:+ rest) as -> by (cbn; by destruct (byteZ c =? 45)).
  rewrite span_digits_rest by (by apply closes_digit). destruct (span_digits (sign (String c lit))) as [ds r]. cbn [fst snd]. destruct ds as [|d ds]; [done|].
  destruct (_ && _); [done|]. rewrite json_frac_rest by done. destruct (json_frac r) as [r'|]; [|done]. cbn. rewrite json_exp_rest by done.
  intros ->. done.
Qed.

(** What a number starts with. *)
Lemma json_number_first c lit u : json_number (String c lit) = Some u → byteZ c = 45 ∨ is_digit c = true.
Proof.
  unfold json_number. destruct (Z.eqb_spec (byteZ c) 45); [by left|]. cbn. destruct (is_digit c); [by right|done].
Qed.

(** ** Values *)

Lemma json_nested_ind (P : json → Prop) :
  P JNull → (∀ b, P (JBool b)) → (∀ lit, P (JNum lit)) → (∀ s, P (JStr s)) →
  (∀ items, Forall P items → P (JArr items)) → (∀ fields, Forall (λ kv, P kv.2) fields → P (JObj fields)) → ∀ v, P v.
Proof.
  intros Hnull Hbool Hnum Hstr Harr Hobj. fix IH 1. intros [| | | |items|fields]; [done..| |].
  - apply Harr. induction items; constructor; auto.
  - apply Hobj. induction fields as [|[k v] fields IHf]; constructor; [apply IH|done].
Qed.

(** What the decoder returns: number literals, and strings that are UTF-8. *)
Definition utf8ok (s : string) : bool := String.eqb (of_runes (runes s)) s.
Fixpoint sound (v : json) : bool :=
  match v with
  | JNull | JBool _ => true
  | JNum lit => isValidNumber lit
  | JStr s => utf8ok s
  | JArr items => forallb sound items
  | JObj fields => forallb (λ '(k, v), utf8ok k && sound v) fields
  end.

Fixpoint height (v : json) : nat :=
  match v with
  | JArr items => S (list_max (map height items))
  | JObj fields => S (list_max (map (λ '(_, v), height v) fields))
  | _ => O
  end.

(** Steps of the reader. *)
Fixpoint jsize (v : json) : nat :=
  match v with
  | JArr items => S (list_sum (map (λ v, S (jsize v)) items))
  | JObj fields => S (list_sum (map (λ '(_, v), S (jsize v)) fields))
  | _ => 1
  end.

Lemma consumed_app s rest : consumed (s +:+ rest) rest = s.
Proof.
  unfold consumed. rewrite slen_app, Nat.add_sub. induction s as [|c s IH]; [by destruct rest|]. cbn. unfold slen in IH. by rewrite IH.
Qed.

Lemma isValidNumber_spec lit : isValidNumber lit = true → json_number lit = Some "".
Proof. unfold isValidNumber. destruct (json_number lit) as [[|]|]; done. Qed.

Lemma skip_space_first c s : is_json_space c = false → skip_space (String c s) = String c s.
Proof. intros H. cbn. by rewrite H. Qed.

(** The first character of a value. *)
Lemma pyText_first v : sound v = true →
  ∃ c u, pyText v = String c u ∧ is_json_space c = false ∧ byteZ c ≠ 93 ∧ byteZ c ≠ 125.
Proof.
  destruct v as [|[]|lit|s|items|fields]; cbn [sound pyText]; intros Hs; try (eexists _, _; split; [reflexivity|done]).
  - apply isValidNumber_spec in Hs. destruct lit as [|c lit]; [done|]. eexists _, _. split; [reflexivity|].
    apply json_number_first in Hs. unfold is_digit, is_json_space in *. lia.
Qed.

Lemma json_value_space fuel depth s : json_value fuel depth (String " " s) = json_value fuel depth s.
Proof. by destruct fuel. Qed.
Lemma json_elements_space fuel depth s : json_elements fuel depth (String " " s) = json_elements fuel depth s.
Proof. destruct fuel; [done|]. cbn [json_elements]. by rewrite json_value_space. Qed.
Lemma json_members_space fuel depth s : json_members fuel depth (String " " s) = json_members fuel depth s.
Proof. by destruct fuel. Qed.

(** What [json_value] is to do with the text of [v]. *)
Definition reads (v : json) : Prop := ∀ fuel depth rest,
  sound v = true → closes rest = true → (jsize v ≤ fuel)%nat → (height v ≤ depth)%nat → json_value fuel depth (pyText v +:+ rest) = Some (v, rest).

Lemma elements_read v items fuel depth rest :
  Forall reads (v :: items) → forallb sound (v :: items) = true → (list_sum (map (λ v, S (jsize v)) (v :: items)) ≤ fuel)%nat →
  Forall (λ v, (height v ≤ depth)%nat) (v :: items) →
  json_elements fuel depth (Join (map pyText (v :: items)) pyItemSep +:+ String "]" rest) = Some (v :: items, rest).
Proof.
  revert v fuel. induction items as [|w items IH]; intros v fuel Hr Hs Hf Hh; inversion Hr as [|?? Hv Hr']; inversion Hh as [|?? Hvh Hh']; subst;
    cbn [forallb] in Hs; apply andb_true_iff in Hs as [Hsv Hs]; (destruct fuel as [|fuel]; [cbn in Hf; lia|]); cbn [map list_sum foldr] in Hf.
  - cbn [map Join json_elements]. rewrite Hv; [done|done|done|lia|done].
  - change (Join (map pyText (v :: w :: items)) pyItemSep) with (pyText v +:+ String "," (String " " (Join (map pyText (w :: items)) pyItemSep))).
    specialize (IH w fuel Hr' Hs). revert IH. generalize (Join (map pyText (w :: items)) pyItemSep). intros tl IH.
    rewrite <- !sapp_assoc. cbn [json_elements String.append]. rewrite Hv; [|done|done|lia|done]. cbn [mbind option_bind]. rewrite skip_space_first by done.
    change (byteZ "," =? 44) with true. cbn match. rewrite json_elements_space, IH; [done|cbn in *; lia|done].
Qed.

Definition pyField (kv : string * json) : string := let '(k, v) := kv in writePyString k +:+ pyKeySep +:+ pyText v.

Lemma utf8ok_eq s : utf8ok s = true → of_runes (runes s) = s.
Proof. apply String.eqb_eq. Qed.

Lemma key_read k s : utf8ok k = true → stringToken (skip_space (writePyString k +:+ s)) = Some (k, s).
Proof. intros Hk. change (skip_space (writePyString k +:+ s)) with (writePyString k +:+ s). by rewrite stringToken_pyString, utf8ok_eq. Qed.

Lemma members_read kv fields fuel depth rest :
  Forall (λ kv, reads kv.2) (kv :: fields) → forallb (λ '(k, v), utf8ok k && sound v) (kv :: fields) = true →
  (list_sum (map (λ '(_, v), S (jsize v)) (kv :: fields)) ≤ fuel)%nat → Forall (λ kv, (height kv.2 ≤ depth)%nat) (kv :: fields) →
  json_members fuel depth (Join (map pyField (kv :: fields)) pyItemSep +:+ String "}" rest) = Some (kv :: fields, rest).
Proof.
  revert kv fuel. induction fields as [|kw fields IH]; intros [k v] fuel Hr Hs Hf Hh; inversion Hr as [|?? Hv Hr']; inversion Hh as [|?? Hvh Hh']; subst;
    cbn [forallb] in Hs; apply andb_true_iff in Hs as [[Hk Hsv]%andb_true_iff Hs]; (destruct fuel as [|fuel]; [cbn in Hf; lia|]); cbn [map list_sum foldr] in Hf;
    cbn [snd] in Hv, Hvh.
  - cbn [map Join json_members pyField]. rewrite <- !sapp_assoc, key_read by done. cbn [mbind option_bind]. change (pyKeySep +:+ ?x) with (String ":" (String " " x)).
    rewrite skip_space_first by done. change (byteZ ":" =? 58) with true. cbn match. rewrite json_value_space, Hv; [done|done|done|lia|done].
  - change (Join (map pyField ((k, v) :: kw :: fields)) pyItemSep) with ((writePyString k +:+ String ":" (String " " (pyText v))) +:+ String "," (String " " (Join (map pyField (kw :: fields)) pyItemSep))).
    specialize (IH kw fuel Hr' Hs). revert IH. generalize (Join (map pyField (kw :: fields)) pyItemSep). intros tl IH.
    rewrite <- !sapp_assoc. cbn [json_members String.append]. rewrite key_read by done. cbn [mbind option_bind].
    rewrite skip_space_first by done. change (byteZ ":" =? 58) with true. cbn match. rewrite json_value_space, Hv; [|done|done|lia|done]. cbn [mbind option_bind].
    rewrite skip_space_first by done. change (byteZ "," =? 44) with true. cbn match. rewrite json_members_space, IH; [done|cbn in *; lia|done].
Qed.

Lemma list_max_Forall {A} (f : A → nat) l n : (list_max (map f l) ≤ n)%nat → Forall (λ x, (f x ≤ n)%nat) l.
Proof. intros H. apply list_max_le in H. by apply Forall_map in H. Qed.

(** Reading what was written gives the value, up to whatever may follow a value. *)
Lemma pyText_reads v : reads v.
Proof.
  induction v as [|[]|lit|s|items IH|fields IH] using json_nested_ind; intros fuel depth rest Hs Hc Hf Hh; (destruct fuel as [|fuel]; [cbn in Hf; lia|]).
  - by destruct rest.
  - by destruct rest.
  - by destruct rest.
  - cbn [sound pyText] in *. apply isValidNumber_spec in Hs as Hn. destruct lit as [|c lit]; [done|].
    assert (byteZ c = 45 ∨ 48 ≤ byteZ c ≤ 57) as Hfirst by (apply json_number_first in Hn; unfold is_digit in Hn; lia). pose proof (json_number_rest _ _ _ Hc Hn) as Hnr.
    cbn [json_value String.append] in *. rewrite skip_space_first by (unfold is_json_space; lia).
    rewrite (proj2 (Z.eqb_neq _ 123)), (proj2 (Z.eqb_neq _ 91)), (proj2 (Z.eqb_neq _ 34)) by lia. cbn [HasPrefix].
    rewrite !(proj2 (Ascii.eqb_neq _ c)) by (intros <-; vm_compute in Hfirst; intuition congruence). cbn [andb]. rewrite Hnr. cbn [mbind option_bind].
    change (String c (lit +:+ rest)) with (String c lit +:+ rest). by rewrite consumed_app.
  - cbn [sound pyText] in *. pose proof (stringToken_pyString s rest) as Ht. rewrite (utf8ok_eq _ Hs) in Ht.
    cbn [json_value]. unfold writePyString in *. cbn [String.append] in *. rewrite skip_space_first by done. cbn match. by rewrite Ht.
  - destruct depth as [|depth]; [cbn in Hh; lia|]. cbn [pyText json_value String.append sound height jsize] in *. rewrite skip_space_first by done. cbn match.
    destruct items as [|v items]; [done|]. rewrite <- sapp_assoc. cbn [String.append].
    pose proof (elements_read v items fuel depth rest IH Hs (le_S_n _ _ Hf) (list_max_Forall _ _ _ (le_S_n _ _ Hh))) as He.
    change (byteZ "[" =? 123) with false. change (byteZ "[" =? 91) with true. cbn match.
    destruct (pyText_first v) as (c & u & E & H1 & H2 & _); [by apply andb_true_iff in Hs as [? _]|].
    assert (∃ tl, Join (map pyText (v :: items)) pyItemSep = pyText v +:+ tl) as [tl Hj].
    { cbn [map Join]. destruct (map pyText items); [exists ""; by rewrite sapp_nil_r|eauto]. }
    rewrite Hj, E in *. cbn [String.append] in *. rewrite skip_space_first by done. rewrite (proj2 (Z.eqb_neq _ _) H2), He. done.
  - destruct depth as [|depth]; [cbn in Hh; lia|]. cbn [pyText json_value String.append sound height jsize] in *. rewrite skip_space_first by done. cbn match.
    destruct fields as [|kv fields]; [done|]. rewrite <- sapp_assoc. cbn [String.append].
    assert (Forall (λ kv, (height kv.2 ≤ depth)%nat) (kv :: fields)) as Hhs.
    { eapply Forall_impl; [exact (list_max_Forall _ _ _ (le_S_n _ _ Hh))|by intros []]. }
    pose proof (members_read kv fields fuel depth rest IH Hs (le_S_n _ _ Hf) Hhs) as He. fold pyField.
    change (byteZ "{" =? 123) with true. cbn match.
    assert (∃ tl, Join (map pyField (kv :: fields)) pyItemSep = String (Zbyte 34) tl) as [tl Hj].
    { destruct kv. cbn [map Join pyField]. unfold writePyString. destruct (map pyField fields); cbn [String.append]; eauto. }
    rewrite Hj in *. cbn [String.append] in *. rewrite skip_space_first by done. cbn match. rewrite He. done.
Qed.

(** ** What is read is sound *)

Lemma span_digits_split s ds r : span_digits s = (ds, r) → s = ds +:+ r ∧ all_digits ds = true ∧ starts_digit r = false.
Proof.
  revert ds r. induction s as [|c s IH]; cbn; intros ds r; [by intros [= <- <-]|]. destruct (is_digit c) eqn:Hc; [|intros [= <- <-]; by split_and!].
  destruct (span_digits s) as [ds' r'] eqn:E. intros [= <- <-]. destruct (IH ds' r' eq_refl) as (-> & H1 & H2). split_and!; [done|cbn; by rewrite Hc|done].
Qed.

Lemma json_exp_split r u : json_exp r = Some u → ∃ e, r = e +:+ u ∧ json_exp e = Some "" ∧ starts_digit e = false ∧ (∀ c e', e = String c e' → byteZ c ≠ 46).
Proof.
  destruct r as [|c t]; cbn [json_exp]; [intros [= <-]; by exists ""|]. destruct (_ || _) eqn:Hc; [|intros [= <-]; by exists ""].
  set (t0 := match t with String d u => if (byteZ d =? 43) || (byteZ d =? 45) then u else t | "" => t end). destruct (span_digits t0) as [ds r] eqn:E. apply span_digits_split in E as (E & Hds & Hr).
  destruct (String.eqb ds "") eqn:Hne; [done|]. intros [= <-].
  assert (∃ sg, t = sg +:+ ds +:+ r ∧ json_exp (String c (sg +:+ ds)) = Some "") as (sg & -> & He).
  { cbn [json_exp]. subst t0. rewrite Hc. pose proof (span_digits_app ds "" Hds ltac:(done)) as Hsp. rewrite sapp_nil_r in Hsp. destruct t as [|d t].
    - exists "". destruct ds; [done|]. by destruct r.
    - destruct ((byteZ d =? 43) || (byteZ d =? 45)) eqn:Hd.
      + exists (String d ""). rewrite E. split; [done|]. cbn [String.append]. by rewrite Hd, Hsp, Hne.
      + exists "". split; [done|]. cbn [String.append]. destruct ds as [|d' ds]; [done|]. cbn in E. injection E as <- _. by rewrite Hd, Hsp. }
  exists (String c (sg +:+ ds)). split_and!; [by cbn; rewrite sapp_assoc|done|cbn; unfold is_digit; lia|intros ?? [= <- _]; lia].
Qed.

Lemma json_frac_split r u : json_frac r = Some u →
  ∃ f, r = f +:+ u ∧ starts_digit f = false ∧ ∀ e, starts_digit e = false → (∀ c e', e = String c e' → byteZ c ≠ 46) → json_frac (f +:+ e) = Some e.
Proof.
  destruct r as [|c t]; cbn [json_frac].
  - intros [= <-]. exists "". split_and!; [done..|]. intros [|c e] _ Hdot; [done|]. cbn. by rewrite (proj2 (Z.eqb_neq _ _) (Hdot _ _ eq_refl)).
  - destruct (Z.eqb_spec (byteZ c) 46) as [Hc|Hc].
    + destruct (span_digits t) as [ds r] eqn:E. apply span_digits_split in E as (-> & Hds & Hr). destruct (String.eqb ds "") eqn:Hne; [done|]. intros [= <-].
      exists (String c ds). split_and!; [done|cbn; unfold is_digit; lia|]. intros e He _. cbn [String.append json_frac]. by rewrite Hc, Z.eqb_refl, span_digits_app, Hne.
    + intros [= <-]. exists "". split_and!; [done..|]. intros [|d e] _ Hdot; [done|]. cbn. by rewrite (proj2 (Z.eqb_neq _ _) (Hdot _ _ eq_refl)).
Qed.

Lemma starts_digit_app a b : starts_digit a = false → starts_digit b = false → starts_digit (a +:+ b) = false.
Proof. by destruct a. Qed.

(** The literal that is cut out is a number by itself. *)
Lemma json_number_split s u : json_number s = Some u → ∃ lit, s = lit +:+ u ∧ isValidNumber lit = true.
Proof.
  unfold json_number, isValidNumber. set (s0 := match s with String c t => if byteZ c =? 45 then t else s | "" => s end).
  destruct (span_digits s0) as [ds r] eqn:E. apply span_digits_split in E as (E & Hds & Hr). destruct ds as [|d ds]; [done|].
  destruct ((byteZ d =? 48) && _) eqn:Hz; [done|]. destruct (json_frac r) as [r2|] eqn:Ef; [|done]. cbn. intros Ee.
  apply json_frac_split in Ef as (f & -> & Hf & Hfe). apply json_exp_split in Ee as (e & -> & He & Hed & Hdot).
  assert (∃ sg, s = sg +:+ s0 ∧ (sg = "" ∨ ∃ c, sg = String c "" ∧ byteZ c = 45)) as (sg & Hsg & Hsign).
  { subst s0. destruct s as [|c s]; [by exists ""; auto|]. destruct (Z.eqb_spec (byteZ c) 45); [exists (String c "")|exists ""]; eauto. }
  exists (sg +:+ String d ds +:+ f +:+ e). rewrite Hsg, E. split; [by rewrite <- !sapp_assoc|].
  assert (Hd : is_digit d = true) by (cbn in Hds; by apply andb_true_iff in Hds as [? _]).
  assert (json_number (sg +:+ String d ds +:+ f +:+ e) = Some "") as Hn; [|by rewrite Hn].
  unfold json_number. assert (match sg +:+ String d ds +:+ f +:+ e with String c t => if byteZ c =? 45 then t else sg +:+ String d ds +:+ f +:+ e | "" => sg +:+ String d ds +:+ f +:+ e end
    = String d ds +:+ f +:+ e) as ->.
  { destruct Hsign as [->|(c & -> & Hc)]; cbn; [|by rewrite Hc]. rewrite (proj2 (Z.eqb_neq _ 45)); [done|]. unfold is_digit in Hd. lia. }
  rewrite span_digits_app by (done || by apply starts_digit_app). rewrite Hz, Hfe by done. done.
Qed.

Lemma fromHexChar_range c d : fromHexChar c = Some d → 0 ≤ d < 16.
Proof. unfold fromHexChar. repeat case_match; intros [= <-]; bool_hyps; lia. Qed.

Lemma getu4_range s r : getu4 s = Some r → 0 ≤ r < 0x10000.
Proof.
  unfold getu4. destruct s as [|b [|u [|h1 [|h2 [|h3 [|h4 s]]]]]]; try done. destruct (_ && _); [|done]. cbn [hexValue].
  destruct (fromHexChar h1) as [d1|] eqn:E1; [|done]. destruct (fromHexChar h2) as [d2|] eqn:E2; [|done]. destruct (fromHexChar h3) as [d3|] eqn:E3; [|done].
  destruct (fromHexChar h4) as [d4|] eqn:E4; [|done]. cbn. apply fromHexChar_range in E1, E2, E3, E4. intros [= <-]. lia.
Qed.

(** Whatever the escapes and bytes, characters are read. *)
Lemma unquoteRunes_valid fuel s rs rest : unquoteRunes fuel s = Some (rs, rest) → Forall valid_rune rs.
Proof.
  revert s rs rest. induction fuel as [|fuel IH]; intros s rs rest; [done|]. destruct s as [|c t]; [done|]. cbn [unquoteRunes].
  assert (Hemit : ∀ r s', valid_rune r → ('(rs, rest) ← unquoteRunes fuel s'; Some (r :: rs, rest)) = Some (rs, rest) → Forall valid_rune rs).
  { intros r s' Hr. destruct (unquoteRunes fuel s') as [[rs' rest']|] eqn:E; [|done]. cbn. intros [= <- <-]. constructor; [done|by eapply IH]. }
  destruct (byteZ c =? 34); [by intros [= <- <-]|]. destruct (byteZ c =? 92).
  - destruct t as [|e t1]; [done|]. destruct (simpleEscape (byteZ e)) as [r|] eqn:Es.
    + apply Hemit. unfold simpleEscape in Es. repeat case_match; simplify_eq; left; lia.
    + destruct (getu4 (String c (String e t1))) as [rr|] eqn:Eu; [|done]. apply getu4_range in Eu. cbn [mbind option_bind]. unfold isSurrogate. destruct (_ && _) eqn:Hsur.
      * destruct (getu4 (sdrop 6 _)) as [r2|] eqn:Eu2; cbn; [|apply Hemit; right; unfold RuneError; lia].
        destruct (surrogatePair rr r2) as [dec|] eqn:Ep; [|apply Hemit; right; unfold RuneError; lia]. apply Hemit. unfold surrogatePair in Ep. case_match; [|done].
        injection Ep as <-. bool_hyps. right. lia.
      * apply Hemit. unfold valid_rune. lia.
  - destruct (byteZ c <? 32); [done|]. destruct (DecodeRune (String c t)) as [r n] eqn:E. apply Hemit. by eapply DecodeRune_valid.
Qed.

Lemma stringToken_sound s str rest : stringToken s = Some (str, rest) → utf8ok str = true.
Proof.
  unfold stringToken. destruct s as [|q t]; [done|]. destruct (byteZ q =? 34); [|done]. destruct (unquoteRunes _ t) as [[rs u]|] eqn:E; [|done]. cbn.
  intros [= <- <-]. apply unquoteRunes_valid in E. unfold utf8ok. by rewrite runes_of_runes, String.eqb_refl.
Qed.

Lemma json_sound fuel :
  (∀ depth s v rest, json_value fuel depth s = Some (v, rest) → sound v = true ∧ (height v ≤ depth)%nat) ∧
  (∀ depth s fs rest, json_members fuel depth s = Some (fs, rest) →
     forallb (λ '(k, v), utf8ok k && sound v) fs = true ∧ (list_max (map (λ '(_, v), height v) fs) ≤ depth)%nat) ∧
  (∀ depth s vs rest, json_elements fuel depth s = Some (vs, rest) → forallb sound vs = true ∧ (list_max (map height vs) ≤ depth)%nat).
Proof.
  induction fuel as [|fuel (IHv & IHm & IHe)]; [done|]. split_and!; intros depth s.
  - intros v rest. cbn [json_value]. destruct (skip_space s) as [|c t]; [done|]. destruct (byteZ c =? 123).
    { destruct depth as [|depth]; [done|]. destruct (skip_space t) as [|d u]; [done|]. destruct (byteZ d =? 125); [intros [= <- <-]; cbn; split; [done|lia]|].
      destruct (json_members fuel depth t) as [[fs w]|] eqn:E; [|done]. cbn. intros [= <- <-]. apply IHm in E as [E1 E2]. cbn. split; [done|lia]. }
    destruct (byteZ c =? 91).
    { destruct depth as [|depth]; [done|]. destruct (skip_space t) as [|d u]; [done|]. destruct (byteZ d =? 93); [intros [= <- <-]; cbn; split; [done|lia]|].
      destruct (json_elements fuel depth t) as [[vs w]|] eqn:E; [|done]. cbn. intros [= <- <-]. apply IHe in E as [E1 E2]. cbn. split; [done|lia]. }
    destruct (byteZ c =? 34). { destruct (stringToken _) as [[str u]|] eqn:E; [|done]. cbn. intros [= <- <-]. split; [by apply stringToken_sound in E|cbn; lia]. }
    destruct (HasPrefix _ "true"); [intros [= <- <-]; cbn; split; [done|lia]|]. destruct (HasPrefix _ "false"); [intros [= <- <-]; cbn; split; [done|lia]|].
    destruct (HasPrefix _ "null"); [intros [= <- <-]; cbn; split; [done|lia]|]. destruct (json_number _) as [u|] eqn:E; [|done]. cbn [mbind option_bind]. intros [= <- <-].
    apply json_number_split in E as (lit & E & Hlit). rewrite E, consumed_app. cbn. split; [done|lia].
  - intros fs rest. cbn [json_members]. destruct (stringToken _) as [[key t]|] eqn:Ek; [|done]. apply stringToken_sound in Ek. cbn [mbind option_bind].
    destruct (skip_space t) as [|d u]; [done|]. destruct (byteZ d =? 58); [|done]. destruct (json_value fuel depth u) as [[v w]|] eqn:Ev; [|done]. apply IHv in Ev as [Hv1 Hv2]. cbn [mbind option_bind].
    destruct (skip_space w) as [|e x]; [done|]. destruct (byteZ e =? 44).
    + destruct (json_members fuel depth x) as [[fs' y]|] eqn:Em; [|done]. cbn. intros [= <- <-]. apply IHm in Em as [Em1 Em2]. cbn. rewrite Ek, Hv1. cbn. split; [done|unfold list_max in *; cbn in *; lia].
    + destruct (byteZ e =? 125); [|done]. intros [= <- <-]. cbn. rewrite Ek, Hv1. split; [done|lia].
  - intros vs rest. cbn [json_elements]. destruct (json_value fuel depth s) as [[v w]|] eqn:Ev; [|done]. apply IHv in Ev as [Hv1 Hv2]. cbn [mbind option_bind].
    destruct (skip_space w) as [|e x]; [done|]. destruct (byteZ e =? 44).
    + destruct (json_elements fuel depth x) as [[vs' y]|] eqn:Em; [|done]. cbn. intros [= <- <-]. apply IHe in Em as [Em1 Em2]. cbn. rewrite Hv1. cbn. split; [done|unfold list_max in *; cbn in *; lia].
    + destruct (byteZ e =? 93); [|done]. intros [= <- <-]. cbn. rewrite Hv1. split; [done|lia].
Qed.

(** ** Re-encoding *)

Lemma sum_sep_length {A} (f : A → string) (g : A → nat) (x : A) l :
  Forall (λ x, (g x ≤ 2 * slen (f x))%nat) (x :: l) → (list_sum (map (λ x, S (g x)) (x :: l)) ≤ 2 * slen (Join (map f (x :: l)) pyItemSep) + 1)%nat.
Proof.
  revert x. induction l as [|y l IH]; intros x H; inversion H as [|?? Hx Hl]; subst; [cbn [map Join list_sum foldr] in *; lia|].
  change (Join (map f (x :: y :: l)) pyItemSep) with (f x +:+ pyItemSep +:+ Join (map f (y :: l)) pyItemSep). rewrite !slen_app.
  apply IH in Hl. change (list_sum (map (λ x, S (g x)) (x :: y :: l))) with (S (g x) + list_sum (map (λ x, S (g x)) (y :: l)))%nat. cbn [slen pyItemSep String.length] in *. lia.
Qed.

(** The text has enough characters for the steps of the reader. *)
Lemma jsize_text v : sound v = true → (jsize v ≤ 2 * slen (pyText v))%nat.
Proof.
  induction v as [|[]|lit|s|items IH|fields IH] using json_nested_ind; intros Hs; try (cbn; lia).
  - cbn in Hs. apply isValidNumber_spec in Hs. destruct lit; [done|]. cbn. lia.
  - cbn [jsize pyText sound] in *. rewrite !slen_app. destruct items as [|v items]; [cbn; lia|].
    assert (Forall (λ v, (jsize v ≤ 2 * slen (pyText v))%nat) (v :: items)) as Hall.
    { apply Is_true_true, forallb_True in Hs. apply Forall_forall. intros w Hw. rewrite Forall_forall in IH, Hs. apply IH; [done|]. by apply Is_true_true, Hs. }
    apply (sum_sep_length pyText jsize) in Hall. change (slen "[") with 1%nat. change (slen "]") with 1%nat. lia.
  - cbn [jsize pyText sound] in *. fold pyField. rewrite !slen_app. destruct fields as [|kv fields]; [cbn; lia|].
    assert (Forall (λ kv, (jsize kv.2 ≤ 2 * slen (pyField kv))%nat) (kv :: fields)) as Hall.
    { apply Is_true_true, forallb_True in Hs. apply Forall_forall. intros [k w] Hw. rewrite Forall_forall in IH, Hs. specialize (IH _ Hw). specialize (Hs _ Hw).
      apply Is_true_true, andb_true_iff in Hs as [_ Hs]. cbn [pyField snd] in *. rewrite !slen_app. specialize (IH Hs). lia. }
    apply (sum_sep_length pyField (λ kv, jsize kv.2)) in Hall. change (slen "{") with 1%nat. change (slen "}") with 1%nat.
    assert (map (λ '(_, v), S (jsize v)) (kv :: fields) = map (λ kv, S (jsize kv.2)) (kv :: fields)) as -> by (apply map_ext; by intros []). lia.
Qed.

(** What the decoder returned can be written and read again. *)
Lemma decode_pyText v rest : sound v = true → (height v ≤ maxNestingDepth)%nat → closes rest = true → decode (pyText v +:+ rest) = Some (v, rest).
Proof.
  intros Hs Hh Hc. unfold decode. apply pyText_reads; [done|done| |done]. rewrite slen_app. pose proof (jsize_text v Hs). lia.
Qed.

(** C39. Re-encoding a JSON text as Python would write it does not change what it says:
    what is written is valid JSON and is read as the very value that was read from the
    original, every key in its place and every number with its digits. *)
Theorem reencoding_exact raw out :
  appendPyRaw raw = Some out → json_Valid out = true ∧ ∃ v rest, decode raw = Some (v, rest) ∧ decode out = Some (v, "").
Proof.
  unfold appendPyRaw. destruct (decode raw) as [[v rest]|] eqn:E; [|done]. cbn [mbind option_bind]. destruct (More rest); [done|]. intros [= <-].
  unfold decode in E. apply json_sound in E as [Hs Hh]. pose proof (decode_pyText v "" Hs Hh eq_refl) as Hd. rewrite sapp_nil_r in Hd.
  split; [unfold json_Valid; by rewrite Hd|eauto].
Qed.

Definition demoRaw : string := dq "{'a':[1.50,'<'],'b':{}, 'a':null}".
Definition demoOut : string := dq "{'a': [1.50, '<'], 'b': {}, 'a': null}".

Lemma reencoding_exact_witness : json_Valid demoOut = true ∧ ∃ v rest, decode demoRaw = Some (v, rest) ∧ decode demoOut = Some (v, "").
Proof. apply (reencoding_exact demoRaw demoOut). vm_compute. reflexivity. Defined.

(** ** Taking written objects apart *)

Lemma rawValue_text v rest : sound v = true → (height v ≤ maxNestingDepth)%nat → closes rest = true → rawValue (String " " (pyText v +:+ rest)) = Some (pyText v, rest).
Proof.
  intros Hs Hh Hc. unfold rawValue. destruct (pyText_first v Hs) as (c & u & E & H1 & _).
  assert (skip_space (String " " (pyText v +:+ rest)) = pyText v +:+ rest) as -> by (rewrite E; cbn [String.append]; change (skip_space (String " " (String c (u +:+ rest)))) with (skip_space (String c (u +:+ rest))); by apply skip_space_first).
  rewrite decode_pyText by done. cbn [mbind option_bind]. by rewrite consumed_app.
Qed.

Lemma membersFrom_space fuel s : membersFrom fuel (String " " s) = membersFrom fuel s.
Proof. by destruct fuel. Qed.

Definition rawFields (fields : list (string * json)) : list (string * RawJSON) := map (λ '(k, v), (k, pyText v)) fields.

Lemma membersFrom_text kv fields fuel rest :
  forallb (λ '(k, v), utf8ok k && sound v) (kv :: fields) = true → Forall (λ kv, (height kv.2 ≤ maxNestingDepth)%nat) (kv :: fields) → (length (kv :: fields) ≤ fuel)%nat →
  membersFrom fuel (Join (map pyField (kv :: fields)) pyItemSep +:+ String "}" rest) = Some (rawFields (kv :: fields)).
Proof.
  revert kv fuel. induction fields as [|kw fields IH]; intros [k v] fuel Hs Hh Hf; inversion Hh as [|?? Hvh Hh']; subst;
    cbn [forallb] in Hs; apply andb_true_iff in Hs as [[Hk Hsv]%andb_true_iff Hs]; (destruct fuel as [|fuel]; [cbn in Hf; lia|]); cbn [snd] in Hvh.
  - cbn [map Join membersFrom pyField]. rewrite <- !sapp_assoc, key_read by done. cbn [mbind option_bind]. change (pyKeySep +:+ ?x) with (String ":" (String " " x)).
    rewrite skip_space_first by done. change (byteZ ":" =? 58) with true. cbn [negb]. by rewrite rawValue_text.
  - change (Join (map pyField ((k, v) :: kw :: fields)) pyItemSep) with ((writePyString k +:+ String ":" (String " " (pyText v))) +:+ String "," (String " " (Join (map pyField (kw :: fields)) pyItemSep))).
    specialize (IH kw fuel Hs Hh'). revert IH. generalize (Join (map pyField (kw :: fields)) pyItemSep). intros tl IH.
    rewrite <- !sapp_assoc. cbn [membersFrom String.append]. rewrite key_read by done. cbn [mbind option_bind].
    rewrite skip_space_first by done. change (byteZ ":" =? 58) with true. cbn [negb]. rewrite rawValue_text by done. cbn [mbind option_bind].
    rewrite skip_space_first by done. change (byteZ "," =? 44) with true. cbn match. rewrite membersFrom_space, IH; [done|cbn in *; lia].
Qed.

Lemma fields_length fields : (length fields ≤ slen (Join (map pyField fields) pyItemSep))%nat.
Proof.
  assert (∀ kv, 1 ≤ slen (pyField kv))%nat as H1 by (intros [k v]; cbn [pyField]; unfold writePyString; cbn [String.append]; unfold slen; cbn [String.length]; lia).
  induction fields as [|kv fields IH]; [done|]. destruct fields as [|kw fields]; [cbn [map Join length]; apply H1|].
  change (Join (map pyField (kv :: kw :: fields)) pyItemSep) with (pyField kv +:+ pyItemSep +:+ Join (map pyField (kw :: fields)) pyItemSep). rewrite !slen_app. specialize (H1 kv). cbn [length] in *. lia.
Qed.

(** The members of a written object are the texts of its members. *)
Lemma objectFields_text fields : sound (JObj fields) = true → (height (JObj fields) ≤ maxNestingDepth)%nat → objectFields (pyText (JObj fields)) = Some (rawFields fields).
Proof.
  intros Hs Hh. cbn [pyText]. fold pyField. unfold objectFields. change ("{" +:+ ?x) with (String "{" x). rewrite skip_space_first by done. change (byteZ "{" =? 123) with true. cbn [negb].
  destruct fields as [|kv fields]; [done|]. change ("}" : string) with (String "}" ""). pose proof (fields_length (kv :: fields)) as Hlen.
  assert (Forall (λ kv, (height kv.2 ≤ maxNestingDepth)%nat) (kv :: fields)) as Hhs.
  { cbn [height] in Hh. eapply Forall_impl; [apply (list_max_Forall (λ '(_, v), height v) _ maxNestingDepth); lia|by intros []]. }
  pose proof (membersFrom_text kv fields (slen (Join (map pyField (kv :: fields)) pyItemSep +:+ String "}" "")) "" Hs Hhs) as Hm. rewrite slen_app in Hm. specialize (Hm ltac:(lia)).
  assert (∃ tl, Join (map pyField (kv :: fields)) pyItemSep = String (Zbyte 34) tl) as [tl Hj].
  { destruct kv. cbn [map Join pyField]. unfold writePyString. destruct (map pyField fields); cbn [String.append]; eauto. }
  rewrite <- slen_app in Hm. rewrite Hj in *. cbn [String.append] in *. rewrite skip_space_first by done. change (byteZ (Zbyte 34) =? 125) with false. cbn match. exact Hm.
Qed.

Lemma writePyString_utf8 s : writePyString (of_runes (runes s)) = writePyString s.
Proof. unfold writePyString. rewrite !writePyChars_runes by done. by rewrite runes_of_runes by apply runes_valid. Qed.
