(* ===== verification/SessionKeys.v ===== *)
(** * The names of session files (src/internal/session/keys.go)

    A session is stored under the base64url encoding of its key.  The decoder follows
    Python's lenient one; only a stem that is encoded again to itself is taken for a
    session, so a file belongs to one key and a key to one file. *)

From Stdlib Require Import Ascii.
From S2P Require Import Prelude GoText GoLib.
#[local] Open Scope string_scope.
#[local] Open Scope list_scope.
#[local] Open Scope Z_scope.

(** ** [base64.RawURLEncoding] *)

Definition b64Char (v : Z) : ascii :=
  if v <? 26 then Zbyte (65 + v) else if v <? 52 then Zbyte (71 + v) else if v <? 62 then Zbyte (v - 4)
  else if v =? 62 then "-"%char else "_"%char.

(** Three bytes give four characters; one or two that are left give two or three. *)
Fixpoint sextets (s : string) : list Z :=
  match s with
  | String a (String b (String c s)) =>
      byteZ a / 4 :: byteZ a mod 4 * 16 + byteZ b / 16 :: byteZ b mod 16 * 4 + byteZ c / 64 :: byteZ c mod 64 :: sextets s
  | String a (String b "") => [byteZ a / 4; byteZ a mod 4 * 16 + byteZ b / 16; byteZ b mod 16 * 4]
  | String a "" => [byteZ a / 4; byteZ a mod 4 * 16]
  | "" => []
  end.

Definition text (vs : list Z) : string := foldr (λ v s, String (b64Char v) s) "" vs.

Definition StorageKey (key : string) : string := text (sextets key).

(** ** Reading a stem *)

Definition b64Value (c : ascii) : option Z :=
  let b := byteZ c in
  if (65 <=? b) && (b <=? 90) then Some (b - 65)
  else if (97 <=? b) && (b <=? 122) then Some (b - 97 + 26)
  else if (48 <=? b) && (b <=? 57) then Some (b - 48 + 52)
  else if (b =? 43) || (b =? 45) then Some 62
  else if (b =? 47) || (b =? 95) then Some 63
  else None.

(** [strings.Repeat("=", n)] *)
Fixpoint equals (n : nat) : string := match n with O => "" | S n => String "=" (equals n) end.

(** The alphabet characters, and how many padding characters follow the last of them. *)
Fixpoint alphabetOf (s : string) (data : list Z) (padding : nat) : list Z * nat :=
  match s with
  | "" => (data, padding)
  | String c s =>
      match b64Value c with
      | Some v => alphabetOf s (data ++ [v]) 0
      | None => alphabetOf s data (if byteZ c =? 61 then S padding else padding)
      end
  end.

(** The loop over the six-bit values; [bits] is a uint32 with [nbits] bits in use. *)
Fixpoint bytesOf (data : list Z) (bits nbits : Z) : string :=
  match data with
  | [] => ""
  | v :: data =>
      let bits := Z.lor (u32 (Z.shiftl bits 6)) v in
      let nbits := nbits + 6 in
      if 8 <=? nbits then
        let nbits := nbits - 8 in
        String (Zbyte (Z.shiftr bits nbits mod 256)) (bytesOf data (Z.land bits (Z.shiftl 1 nbits - 1)) nbits)
      else bytesOf data bits nbits
  end.

Definition DecodeStorageKey (stem : string) : option string :=
  if negb (is_ascii stem) then None else
  let pad := (4 - slen stem mod 4)%nat in
  let s := if (pad =? 4)%nat then stem else stem +:+ equals pad in
  let '(data, padding) := alphabetOf s [] 0 in
  let rest := (length data mod 4)%nat in
  if (rest =? 1)%nat then None
  else if (rest =? 2)%nat && (padding <? 2)%nat then None
  else if (rest =? 3)%nat && (padding <? 1)%nat then None
  else let out := bytesOf data 0 0 in if Valid out then Some out else None.

Definition SessionKeyFromStem (stem : string) : option string :=
  key ← DecodeStorageKey stem;
  if String.eqb (StorageKey key) stem then Some key else None.

Example stem_1 : StorageKey "cli:direct" = "Y2xpOmRpcmVjdA".
Proof. reflexivity. Qed.
Example stem_2 : DecodeStorageKey "Y2!xp" = Some "cli".
Proof. reflexivity. Qed.
Example stem_3 : SessionKeyFromStem "Y2xpOmRpcmVjdA==" = None.
Proof. reflexivity. Qed.

(** ** The round trip *)

Lemma string_ind3 (P : string → Prop) :
  P "" → (∀ a, P (String a "")) → (∀ a b, P (String a (String b ""))) → (∀ a b c s, P s → P (String a (String b (String c s)))) → ∀ s, P s.
Proof. intros H0 H1 H2 H3. fix IH 1. intros [|a [|b [|c s]]]; [done..|]. apply H3, IH. Qed.

Definition sextet (v : Z) : Prop := 0 ≤ v < 64.

Lemma sextets_range s : Forall sextet (sextets s).
Proof.
  induction s as [|a|a b|a b c s IH] using string_ind3; cbn [sextets]; repeat constructor; try done;
    repeat match goal with |- context [byteZ ?x] => pose proof (byteZ_range x); generalize dependent (byteZ x); intros end; Z.to_euclidean_division_equations; lia.
Qed.

Lemma sextets_length s : (length (sextets s) mod 4 ≠ 1)%nat.
Proof.
  induction s as [|a|a b|a b c s IH] using string_ind3; cbn [sextets length]; try done.
  replace (S (S (S (S (length (sextets s)))))) with (length (sextets s) + 1 * 4)%nat by lia. by rewrite Nat.Div0.mod_add.
Qed.

Lemma b64_char v : sextet v → b64Value (b64Char v) = Some v ∧ byteZ (b64Char v) < 128.
Proof.
  intros Hv. unfold b64Char, b64Value, sextet in *.
  destruct (Z.ltb_spec v 26), (Z.ltb_spec v 52), (Z.ltb_spec v 62), (Z.eqb_spec v 62); try lia; rewrite ?byteZ_Zbyte by lia.
  all: try (repeat case_match; bool_hyps; try lia; split; [f_equal; lia|lia]). all: by cbn; repeat split; f_equal; lia.
Qed.

Lemma text_ascii vs : Forall sextet vs → is_ascii (text vs) = true.
Proof.
  unfold is_ascii. induction 1 as [|v vs Hv _ IH]; [done|]. cbn. apply andb_true_iff. split; [|done]. apply Z.ltb_lt, (b64_char v Hv).
Qed.

Lemma text_length vs : slen (text vs) = length vs.
Proof. induction vs as [|v vs IH]; [done|]. change (slen (text (v :: vs))) with (S (slen (text vs))). by rewrite IH. Qed.

Lemma alphabetOf_equals n data p : alphabetOf (equals n) data p = (data, (n + p)%nat).
Proof. revert p. induction n as [|n IH]; intros p; [done|]. cbn [alphabetOf equals]. change (b64Value "=") with (@None Z). cbn match. change (byteZ "=" =? 61) with true. cbn match. rewrite IH. f_equal. lia. Qed.

Lemma alphabetOf_text vs n data p : Forall sextet vs →
  alphabetOf (text vs +:+ equals n) data p = (data ++ vs, match vs with [] => n + p | _ => n end)%nat.
Proof.
  intros Hv. revert data p. induction Hv as [|v vs Hv Hvs IH]; intros data p; [cbn; by rewrite alphabetOf_equals, app_nil_r|].
  change (text (v :: vs) +:+ equals n) with (String (b64Char v) (text vs +:+ equals n)).
  cbn [alphabetOf]. rewrite (proj1 (b64_char v Hv)), IH, <- app_assoc. cbn. f_equal. destruct vs; lia.
Qed.

(** ** Bits *)

Lemma shift_or bits v : 0 ≤ bits < 256 → sextet v → Z.lor (u32 (Z.shiftl bits 6)) v = bits * 64 + v.
Proof.
  intros Hb Hv. unfold sextet in Hv. rewrite Z.shiftl_mul_pow2 by lia. unfold u32. rewrite Z.mod_small by lia.
  rewrite Z.lor_comm, lor_add_shift by lia. lia.
Qed.

Lemma mask_mod b k : 0 ≤ k → Z.land b (Z.shiftl 1 k - 1) = b mod 2 ^ k.
Proof. intros Hk. rewrite Z.shiftl_1_l, <- Z.land_ones, Z.ones_equiv by done. done. Qed.

(** A character comes out as soon as its eight bits are there. *)
Lemma out_char b k c : 0 ≤ k → b / 2 ^ k = byteZ c → Zbyte (Z.shiftr b k mod 256) = c.
Proof. intros Hk Hb. rewrite Z.shiftr_div_pow2, Hb, Z.mod_small by (done || apply byteZ_range). pose proof (byteZ_range c). unfold Zbyte, byteZ. by rewrite N2Z.id, ascii_N_embedding. Qed.

Ltac sextet_arith :=
  unfold sextet;
  repeat match goal with |- context [byteZ ?x] => pose proof (byteZ_range x); generalize dependent (byteZ x); intros end;
  Z.to_euclidean_division_equations; lia.

Lemma bytesOf_first v data : sextet v → bytesOf (v :: data) 0 0 = bytesOf data v 6.
Proof. intros Hv. cbn [bytesOf]. by rewrite shift_or by (done || lia). Qed.

(** With [6], [4] or [2] bits waiting the next value completes a byte. *)
Lemma bytesOf_next v data bits nbits c : nbits ∈ [6; 4; 2] → 0 ≤ bits < 64 → sextet v → (bits * 64 + v) / 2 ^ (nbits - 2) = byteZ c →
  bytesOf (v :: data) bits nbits = String c (bytesOf data ((bits * 64 + v) mod 2 ^ (nbits - 2)) (nbits - 2)).
Proof.
  intros Hn Hb Hv Hc. assert (2 ≤ nbits) by (rewrite !elem_of_cons, elem_of_nil in Hn; lia). cbn [bytesOf]. rewrite shift_or by (done || lia).
  rewrite (proj2 (Z.leb_le 8 _)) by lia. replace (nbits + 6 - 8) with (nbits - 2) by lia. rewrite mask_mod by lia. by rewrite (out_char _ _ c) by (done || lia).
Qed.

Lemma bytesOf_sextets s : bytesOf (sextets s) 0 0 = s.
Proof.
  induction s as [|a|a b|a b c s IH] using string_ind3; cbn [sextets]; [done| | |]; rewrite bytesOf_first by sextet_arith.
  - rewrite (bytesOf_next _ _ _ _ a); [done|set_solver|sextet_arith..].
  - rewrite (bytesOf_next _ _ _ _ a); [|set_solver|sextet_arith..]. rewrite (bytesOf_next _ _ _ _ b); [done|set_solver|sextet_arith..].
  - rewrite (bytesOf_next _ _ _ _ a); [|set_solver|sextet_arith..]. rewrite (bytesOf_next _ _ _ _ b); [|set_solver|sextet_arith..].
    rewrite (bytesOf_next _ _ _ _ c); [|set_solver|sextet_arith..]. repeat f_equal. change (2 ^ (6 - 2 - 2 - 2)) with 1. by rewrite Z.mod_1_r.
Qed.

Lemma DecodeStorageKey_text key : Valid key = true → DecodeStorageKey (StorageKey key) = Some key.
Proof.
  intros Hv. unfold DecodeStorageKey, StorageKey. pose proof (sextets_range key) as Hr. pose proof (sextets_length key) as Hl. pose proof (bytesOf_sextets key) as Hb.
  rewrite text_ascii by done. cbn [negb]. rewrite text_length. set (n := length (sextets key)) in *. pose proof (Nat.mod_upper_bound n 4 ltac:(lia)) as Hm.
  assert (alphabetOf (if (4 - n mod 4 =? 4)%nat then text (sextets key) else text (sextets key) +:+ equals (4 - n mod 4)) [] 0
    = (sextets key, if (n mod 4 =? 0)%nat then 0 else 4 - n mod 4)%nat) as ->.
  { destruct (Nat.eqb_spec (n mod 4) 0) as [->|Hn]; cbn match.
    - pose proof (alphabetOf_text (sextets key) 0 [] 0 Hr) as Ha. cbn [equals] in Ha. rewrite sapp_nil_r in Ha. cbn. rewrite Ha. by destruct (sextets key).
    - rewrite (proj2 (Nat.eqb_neq (4 - n mod 4) 4)) by lia. rewrite alphabetOf_text by done. destruct (sextets key); [done|done]. }
  fold n. rewrite (proj2 (Nat.eqb_neq _ _) Hl), Hb, Hv. destruct (Nat.eqb_spec (n mod 4) 0) as [->|Hn]; [done|].
  destruct (Nat.eqb_spec (n mod 4) 2) as [->|]; [done|]. destruct (Nat.eqb_spec (n mod 4) 3) as [->|]; [done|]. lia.
Qed.

(** A stem is taken for a session exactly when it is the stem its key is stored
    under: a file belongs to one key, and every key that is UTF-8 has its file. *)
Theorem stem_of_key stem key : SessionKeyFromStem stem = Some key ↔ stem = StorageKey key ∧ Valid key = true.
Proof.
  unfold SessionKeyFromStem. split.
  - destruct (DecodeStorageKey stem) as [k|] eqn:E; [|done]. cbn. destruct (String.eqb_spec (StorageKey k) stem) as [<-|]; [|done]. intros [= ->]. split; [done|].
    unfold DecodeStorageKey in E. destruct (negb _); [done|]. destruct (alphabetOf _ _ _) as [data padding]. repeat case_match; simplify_eq; done.
  - intros [-> Hv]. rewrite DecodeStorageKey_text by done. cbn. by rewrite String.eqb_refl.
Qed.

(** Also keys that are not UTF-8 have files of their own. *)
Lemma StorageKey_inj k1 k2 : StorageKey k1 = StorageKey k2 → k1 = k2.
Proof.
  unfold StorageKey. intros H. pose proof (alphabetOf_text (sextets k1) 0 [] 0 (sextets_range k1)) as H1. pose proof (alphabetOf_text (sextets k2) 0 [] 0 (sextets_range k2)) as H2.
  rewrite H, H2 in H1. injection H1 as H1 _. rewrite <- (bytesOf_sextets k1), <- (bytesOf_sextets k2). by rewrite H1.
Qed.
