(* ===== verification/Governance.v ===== *)
(** * Context governance (src/internal/agent/governance.go, tokens.go)

    The model-facing copy of a transcript: four repairs that make it
    structurally acceptable to a provider, and the trimming that makes it fit
    the context window.  Token counting is the interface [Tokenizer]: the BPE
    encoder ([internal/bpe]) and the JSON encoder of the standard library stand
    behind it; everything computed from their results is modelled. *)

From S2P Require Import Prelude GoText Core.
From Stdlib Require Import Ascii.
#[local] Open Scope string_scope.
#[local] Open Scope list_scope.
#[local] Open Scope Z_scope.

Definition SnipSafetyBuffer : Z := 1024.
(** The em dash is its three UTF-8 bytes. *)
Definition BackfillContent : string :=
  "[Tool result unavailable " +:+ of_bytes [0xE2; 0x80; 0x94] +:+ " call was interrupted or lost]".
Definition defaultMaxOutputTokens : Z := 4096.

Definition placeholderTexts : gset string := {["[Previous assistant message omitted.]"]}.

(** ** Predicates on messages *)

Definition isRole (r : Role) (m : Message) : bool := bool_decide (m_Role m = r).

Definition toolCallNameIsValid (tc : ToolCall) : bool := negb (bool_decide (tc_Name tc = "")).

Definition messageHasContent (m : Message) : bool :=
  if IsText (m_Content m) then negb (bool_decide (c_Text (m_Content m) = ""))
  else existsb (λ b, bool_decide (cb_Type b = "text") && negb (bool_decide (cb_Text b = "")))
         (default [] (c_Blocks (m_Content m))).

(** ** StripPlaceholderAssistantMessages *)

(** The test of the loop body: an assistant message whose stripped text is a
    placeholder and that carries no tool call. *)
Definition isPlaceholder (m : Message) : bool :=
  isRole RoleAssistant m &&
  let text := if IsText (m_Content m) then c_Text (m_Content m) else "" in
  bool_decide (PyStrip text ∈ placeholderTexts) && Nat.eqb (length (calls m)) 0.

(** The copy-on-first-change loop: [out] stays empty until the first removal,
    which copies [messages[:i]]. *)
Fixpoint StripPlaceholder_loop (messages : list Message) (i : nat) (rest : list Message)
    (out : list Message) (changed : bool) : list Message * bool :=
  match rest with
  | [] => (out, changed)
  | m :: rest =>
      if isPlaceholder m then
        StripPlaceholder_loop messages (S i) rest
          (if changed then out else take i messages) true
      else StripPlaceholder_loop messages (S i) rest (if changed then out ++ [m] else out) changed
  end.

Definition StripPlaceholderAssistantMessages (messages : list Message) : list Message :=
  let '(out, changed) := StripPlaceholder_loop messages 0 messages [] false in
  if changed then out else messages.

(** ** StripMalformedToolCalls *)

Fixpoint StripMalformed_loop (messages : list Message) (i : nat) (rest : list Message)
    (out : list Message) (changed : bool) : list Message * bool :=
  match rest with
  | [] => (out, changed)
  | m :: rest =>
      if negb (isRole RoleAssistant m) || Nat.eqb (length (calls m)) 0 then
        StripMalformed_loop messages (S i) rest (if changed then out ++ [m] else out) changed
      else
        let kept := List.filter toolCallNameIsValid (calls m) in
        if Nat.eqb (length kept) (length (calls m)) then
          StripMalformed_loop messages (S i) rest (if changed then out ++ [m] else out) changed
        else
          let out := if changed then out else take i messages in
          let repaired := with_ToolCalls (Some kept) m in
          if Nat.eqb (length kept) 0 && negb (messageHasContent m)
          then StripMalformed_loop messages (S i) rest out true
          else StripMalformed_loop messages (S i) rest (out ++ [repaired]) true
  end.

Definition StripMalformedToolCalls (messages : list Message) : list Message :=
  let '(out, changed) := StripMalformed_loop messages 0 messages [] false in
  if changed then out else messages.

(** ** DropOrphanToolResults *)

(** [declared[tc.ID] = true] for the calls of an assistant turn with an id. *)
Definition declareCalls (tcs : list ToolCall) (declared : gset string) : gset string :=
  foldl (λ d tc, if decide (tc_ID tc = "") then d else {[tc_ID tc]} ∪ d) declared tcs.

Definition declareMsg (m : Message) (declared : gset string) : gset string :=
  if isRole RoleAssistant m then declareCalls (calls m) declared else declared.

Fixpoint DropOrphan_loop (messages : list Message) (i : nat) (rest : list Message)
    (declared fulfilled : gset string) (out : list Message) (changed : bool)
    : list Message * bool :=
  match rest with
  | [] => (out, changed)
  | m :: rest =>
      let declared := declareMsg m declared in
      if isRole RoleTool m then
        let id := m_ToolCallID m in
        if bool_decide (id = "") || negb (bool_decide (id ∈ declared)) || bool_decide (id ∈ fulfilled)
        then DropOrphan_loop messages (S i) rest declared fulfilled
               (if changed then out else take i messages) true
        else DropOrphan_loop messages (S i) rest declared ({[id]} ∪ fulfilled)
               (if changed then out ++ [m] else out) changed
      else DropOrphan_loop messages (S i) rest declared fulfilled
             (if changed then out ++ [m] else out) changed
  end.

Definition DropOrphanToolResults (messages : list Message) : list Message :=
  let '(out, changed) := DropOrphan_loop messages 0 messages ∅ ∅ [] false in
  if changed then out else messages.

(** ** BackfillMissingToolResults *)

Record decl := { d_index : nat; d_id : string; d_name : string }.

(** The declarations of one assistant turn at index [i]. *)
Definition declsOf (i : nat) (m : Message) : list decl :=
  if isRole RoleAssistant m then
    flat_map (λ tc, if decide (tc_ID tc = "") then []
                    else [{| d_index := i; d_id := tc_ID tc; d_name := tc_Name tc |}]) (calls m)
  else [].

(** The first loop: every declaration, and every id a tool message answers. *)
Fixpoint collect (i : nat) (messages : list Message) (declared : list decl) (fulfilled : gset string)
    : list decl * gset string :=
  match messages with
  | [] => (declared, fulfilled)
  | m :: rest =>
      if isRole RoleAssistant m then collect (S i) rest (declared ++ declsOf i m) fulfilled
      else if isRole RoleTool m && negb (bool_decide (m_ToolCallID m = ""))
      then collect (S i) rest declared ({[m_ToolCallID m]} ∪ fulfilled)
      else collect (S i) rest declared fulfilled
  end.

(** The inner scan: the first position from [insertAt] that does not hold a tool
    message; the tool messages from there are the run that is skipped. *)
Fixpoint skipTools (insertAt : nat) (from : list Message) : nat :=
  match from with
  | m :: from => if isRole RoleTool m then skipTools (S insertAt) from else insertAt
  | [] => insertAt
  end.

Definition filler (d : decl) : Message :=
  with_tool_result (d_id d) (d_name d) (NewMessage RoleTool BackfillContent).

(** One iteration of the insertion loop: append a slot, shift the tail, store. *)
Definition backfillOne (st : list Message * nat) (d : decl) : list Message * nat :=
  let '(out, offset) := st in
  let insertAt := skipTools (d_index d + 1 + offset) (drop (d_index d + 1 + offset) out) in
  (take insertAt out ++ filler d :: drop insertAt out, S offset).

Definition BackfillMissingToolResults (messages : list Message) : list Message :=
  let '(declared, fulfilled) := collect 0 messages [] ∅ in
  let missing := List.filter (λ d, negb (bool_decide (d_id d ∈ fulfilled))) declared in
  match missing with
  | [] => messages
  | _ => (foldl backfillOne (messages, 0%nat) missing).1
  end.

(** ** PrepareForModel *)

Definition PrepareForModel (messages : list Message) : list Message :=
  BackfillMissingToolResults (DropOrphanToolResults
    (StripMalformedToolCalls (StripPlaceholderAssistantMessages messages))).

(** ** Serialisation *)

(** [spacedJSON]: Python's separators in a compact document, outside strings. *)
Fixpoint spacedJSON_loop (inString escaped : bool) (b : string) : string :=
  match b with
  | "" => ""
  | String c b =>
      if escaped then String c (spacedJSON_loop inString false b)
      else if Ascii.eqb c (Zbyte 92) then String c (spacedJSON_loop inString true b)
      else if Ascii.eqb c (Zbyte 34) then String c (spacedJSON_loop (negb inString) false b)
      else if negb inString && Ascii.eqb c (Zbyte 58)
      then String c (String (Zbyte 32) (spacedJSON_loop inString false b))
      else if negb inString && Ascii.eqb c (Zbyte 44)
      then String c (String (Zbyte 32) (spacedJSON_loop inString false b))
      else String c (spacedJSON_loop inString false b)
  end.

Definition spacedJSON (b : string) : string := spacedJSON_loop false false b.

Fixpoint join (sep : string) (parts : list string) : string :=
  match parts with
  | [] => ""
  | [p] => p
  | p :: ps => p +:+ sep +:+ join sep ps
  end.

Definition newline : string := String (Zbyte 10) "".

Definition joinWithNewline (parts : list string) : string := join newline parts.

(** ** Token estimation *)

(** What governance needs of the encoders: [bpe.TokenCount] (an error for text
    holding a special token, otherwise a count of at least 0), whether the
    vocabulary is available, and [marshalCompactNoEscape] on the three types it
    is applied to. *)
Class Tokenizer (ToolSchema : Type) := {
  TokenCount : string → option Z;
  bpeAvailable : bool;
  marshalBlock : ContentBlock → option string;
  marshalCalls : list ToolCall → option string;
  marshalTools : list ToolSchema → option string;
  TokenCount_nonneg : ∀ s n, TokenCount s = Some n → 0 ≤ n
}.

Inductive Source := tiktoken | heuristic.

Section Budget.
Context {ToolSchema : Type} `{!Tokenizer ToolSchema}.

Definition marshalSpaced {A} (marshal : A → option string) (v : A) : option string :=
  spacedJSON <$> marshal v.

Definition nonempty (s : string) : list string := if decide (s = "") then [] else [s].

(** [if len(m.ToolCalls) > 0 { if raw, err := marshalSpaced(...); err == nil { append } }] *)
Definition callParts (m : Message) : list string :=
  match calls m with
  | [] => []
  | tcs => match marshalSpaced marshalCalls tcs with Some raw => [raw] | None => [] end
  end.

Definition messageTokensParts (m : Message) : list string :=
  (if IsText (m_Content m) then [c_Text (m_Content m)]
   else flat_map (λ b, if decide (cb_Type b = "text") then nonempty (cb_Text b)
                       else match marshalSpaced marshalBlock b with Some raw => [raw] | None => [] end)
          (default [] (c_Blocks (m_Content m))))
  ++ nonempty (m_Name m) ++ nonempty (m_ToolCallID m) ++ callParts m
  ++ nonempty (m_ReasoningContent m).

Definition promptParts (m : Message) : list string :=
  (if IsText (m_Content m) then [c_Text (m_Content m)]
   else flat_map (λ b, if decide (cb_Type b = "text") then nonempty (cb_Text b) else [])
          (default [] (c_Blocks (m_Content m))))
  ++ callParts m ++ nonempty (m_ReasoningContent m) ++ nonempty (m_Name m)
  ++ nonempty (m_ToolCallID m).

Definition EstimateMessageTokens (m : Message) : Z :=
  let payload := joinWithNewline (messageTokensParts m) in
  if decide (payload = "") then 4
  else match TokenCount payload with
  | Some n => Z.max 4 (n + 4)
  | None => Z.max 4 (Z.of_nat (slen payload) + 4)
  end.

(** [estimateToolsTokens]; its memo table only caches the value computed here. *)
Definition estimateToolsTokens (tools : list ToolSchema) (leadingSeparator : bool) : option Z :=
  raw ← marshalSpaced marshalTools tools;
  TokenCount (if leadingSeparator then newline +:+ raw else raw).

Definition estimatePromptTokensWithSource (messages : list Message) (tools : list ToolSchema)
    : Z * Source :=
  let parts := flat_map promptParts messages in
  let messagePayload := joinWithNewline parts in
  let perMessageOverhead := Z.of_nat (length messages) * 4 in
  let measured : option Z :=
    if bpeAvailable then
      toolTokens ← (match tools with
                    | [] => Some 0
                    | _ => estimateToolsTokens tools (negb (Nat.eqb (length parts) 0))
                    end);
      messageTokens ← (if decide (messagePayload = "") then Some 0 else TokenCount messagePayload);
      Some (messageTokens + toolTokens + perMessageOverhead)
    else None in
  match measured with
  | Some n => (n, tiktoken)
  | None =>
      let toolPayload :=
        match tools with
        | [] => ""
        | _ => match marshalSpaced marshalTools tools with
               | Some raw => (if decide (messagePayload = "") then "" else newline) +:+ raw
               | None => ""
               end
        end in
      (Z.of_nat (slen (messagePayload +:+ toolPayload)) + perMessageOverhead, heuristic)
  end.

Definition EstimatePromptTokens := estimatePromptTokensWithSource.

(** ** Budget *)

Definition InputBudget (contextWindowTokens : Z) (maxTokens : option Z) : Z :=
  if contextWindowTokens =? 0 then 0
  else
    let maxOutput := default defaultMaxOutputTokens maxTokens in
    let budget := contextWindowTokens - maxOutput - SnipSafetyBuffer in
    if budget <=? 0 then 0 else budget.

(** The loop of [FindLegalMessageStart]: index, declared ids, candidate. *)
Fixpoint FindLegal_loop (i : nat) (declared : gset string) (start : nat) (ms : list Message) : nat :=
  match ms with
  | [] => start
  | m :: ms =>
      if isRole RoleAssistant m then FindLegal_loop (S i) (declareMsg m declared) start ms
      else if isRole RoleTool m && negb (bool_decide (m_ToolCallID m = ""))
              && negb (bool_decide (m_ToolCallID m ∈ declared))
      then FindLegal_loop (S i) ∅ (S i) ms
      else FindLegal_loop (S i) declared start ms
  end.

Definition FindLegalMessageStart (messages : list Message) : nat := FindLegal_loop 0 ∅ 0 messages.

(** The suffix from the first user message. *)
Fixpoint firstUserTail (ms : list Message) : list Message :=
  match ms with
  | [] => []
  | m :: ms' => if isRole RoleUser m then ms else firstUserTail ms'
  end.

(** The suffix from the last user message. *)
Fixpoint lastUserTail (ms : list Message) : list Message :=
  match ms with
  | [] => []
  | m :: ms' =>
      match lastUserTail ms' with
      | [] => if isRole RoleUser m then ms else []
      | t => t
      end
  end.

Definition userTail (messages : list Message) (last : bool) : list Message :=
  if last then lastUserTail messages else firstUserTail messages.

Definition legalHistoryTail (kept nonSystem : list Message) : list Message :=
  let fallback :=
    match kept with
    | [] => drop (length nonSystem - 1) nonSystem
    | _ => kept
    end in
  let result := userTail kept false in
  let result := match result with [] => userTail nonSystem true | _ => result end in
  let result := match result with [] => fallback | _ => result end in
  let start := FindLegalMessageStart result in
  if Nat.ltb 0 start && Nat.leb start (length result) then drop start result else result.

(** The collecting loop, newest first: [rest] is the reversed transcript and
    [kept] is in chronological order, which is what the final reversal yields. *)
Fixpoint keepNewest (remaining : Z) (rest : list Message) (kept : list Message) (keptTokens : Z)
    : list Message :=
  match rest with
  | [] => kept
  | m :: rest =>
      let t := EstimateMessageTokens m in
      if negb (Nat.eqb (length kept) 0) && (remaining <? keptTokens + t) then kept
      else keepNewest remaining rest (m :: kept) (keptTokens + t)
  end.

Definition sumTokens (ms : list Message) : Z := foldr (λ m n, EstimateMessageTokens m + n) 0 ms.

Definition SnipHistory (messages : list Message) (tools : list ToolSchema)
    (contextWindowTokens : Z) (maxTokens : option Z) (force : bool) : list Message :=
  if Nat.eqb (length messages) 0 || (contextWindowTokens =? 0) then messages
  else
    let budget := InputBudget contextWindowTokens maxTokens in
    if budget <=? 0 then messages
    else if negb force && ((EstimatePromptTokens messages tools).1 <=? budget) then messages
    else
      let system := List.filter (isRole RoleSystem) messages in
      let nonSystem := List.filter (λ m, negb (isRole RoleSystem m)) messages in
      if Nat.eqb (length nonSystem) 0 then messages
      else
        let systemTokens := Z.max (sumTokens system) (EstimatePromptTokens system tools).1 in
        let remaining := Z.max 0 (budget - systemTokens) in
        let kept := keepNewest remaining (rev nonSystem) [] 0 in
        system ++ legalHistoryTail kept nonSystem.

Definition RequestPressure (messages : list Message) (tools : list ToolSchema)
    (contextWindowTokens : Z) (maxTokens : option Z) : Z * bool :=
  if contextWindowTokens =? 0 then (0, false)
  else
    let budget := InputBudget contextWindowTokens maxTokens in
    let measured := (EstimatePromptTokens messages tools).1 in
    if (0 <? budget) && (measured <? budget) then (measured, false) else (measured, true).

Record ContextWindowExceededError := {
  e_SessionKey : string;
  e_EstimatedTokens : Z;
  e_InputBudget : Z;
  e_Source : Source
}.

Definition EnsureRequestFits (messages : list Message) (tools : list ToolSchema)
    (contextWindowTokens : Z) (maxTokens : option Z) (sessionKey : string)
    : option ContextWindowExceededError :=
  if contextWindowTokens =? 0 then None
  else
    let budget := InputBudget contextWindowTokens maxTokens in
    let '(estimated, source) := EstimatePromptTokens messages tools in
    if (0 <? budget) && (estimated <=? budget) then None
    else Some {| e_SessionKey := sessionKey; e_EstimatedTokens := estimated;
                 e_InputBudget := budget; e_Source := source |}.

Definition FitToBudget (messages : list Message) (tools : list ToolSchema)
    (contextWindowTokens : Z) (maxTokens : option Z) (sessionKey : string)
    : list Message + ContextWindowExceededError :=
  let updated := SnipHistory messages tools contextWindowTokens maxTokens true in
  let updated := DropOrphanToolResults updated in
  let updated := BackfillMissingToolResults updated in
  match EnsureRequestFits updated tools contextWindowTokens maxTokens sessionKey with
  | Some err => inr err
  | None => inl updated
  end.
End Budget.

(** ** Reference definitions *)

(** What the copy-on-change loops compute, message by message. *)
Definition stripMalformedMsg (m : Message) : list Message :=
  if negb (isRole RoleAssistant m) || Nat.eqb (length (calls m)) 0 then [m]
  else
    let kept := List.filter toolCallNameIsValid (calls m) in
    if Nat.eqb (length kept) (length (calls m)) then [m]
    else if Nat.eqb (length kept) 0 && negb (messageHasContent m) then []
    else [with_ToolCalls (Some kept) m].

Fixpoint dropOrphans (declared fulfilled : gset string) (ms : list Message) : list Message :=
  match ms with
  | [] => []
  | m :: ms =>
      let declared := declareMsg m declared in
      if isRole RoleTool m then
        let id := m_ToolCallID m in
        if bool_decide (id = "") || negb (bool_decide (id ∈ declared)) || bool_decide (id ∈ fulfilled)
        then dropOrphans declared fulfilled ms
        else m :: dropOrphans declared ({[id]} ∪ fulfilled) ms
      else m :: dropOrphans declared fulfilled ms
  end.

(** Backfill in one left-to-right pass: the fillers of an assistant turn are
    emitted when the run of tool messages after it ends. *)
Fixpoint backfill (miss : decl → bool) (i : nat) (pending : list Message) (ms : list Message)
    : list Message :=
  match ms with
  | [] => pending
  | m :: ms =>
      if isRole RoleTool m then m :: backfill miss (S i) pending ms
      else pending ++ m :: backfill miss (S i) (map filler (List.filter miss (declsOf i m))) ms
  end.

(** ** The loops compute their references *)

Lemma StripPlaceholder_loop_ref messages i rest out changed pre :
  messages = pre ++ rest → i = length pre →
  (let '(o, c) := StripPlaceholder_loop messages i rest out changed in if c then o else messages) =
  (if changed then out else pre) ++ List.filter (λ m, negb (isPlaceholder m)) rest.
Proof.
  revert i out changed pre. induction rest as [|m rest IH]; intros i out changed pre Hm Hi; simpl.
  { destruct changed; by rewrite ?app_nil_r in *. }
  assert (messages = (pre ++ [m]) ++ rest) as Hm' by (by rewrite <-app_assoc).
  assert (S i = length (pre ++ [m])) as Hi' by (rewrite length_app; simpl; lia).
  destruct (isPlaceholder m); simpl; rewrite (IH _ _ _ _ Hm' Hi').
  - destruct changed; [done|]. by rewrite Hm, Hi, take_app_length.
  - destruct changed; by rewrite <-app_assoc.
Qed.

Lemma StripMalformed_loop_ref messages i rest out changed pre :
  messages = pre ++ rest → i = length pre →
  (let '(o, c) := StripMalformed_loop messages i rest out changed in if c then o else messages) =
  (if changed then out else pre) ++ flat_map stripMalformedMsg rest.
Proof.
  revert i out changed pre. induction rest as [|m rest IH]; intros i out changed pre Hm Hi; simpl.
  { destruct changed; by rewrite ?app_nil_r in *. }
  assert (messages = (pre ++ [m]) ++ rest) as Hm' by (by rewrite <-app_assoc).
  assert (S i = length (pre ++ [m])) as Hi' by (rewrite length_app; simpl; lia).
  assert (take i messages = pre) as Ht by (by rewrite Hm, Hi, take_app_length).
  unfold stripMalformedMsg.
  destruct (_ || _); [rewrite (IH _ _ _ _ Hm' Hi'); destruct changed; by rewrite <-app_assoc|].
  destruct (Nat.eqb _ _); [rewrite (IH _ _ _ _ Hm' Hi'); destruct changed; by rewrite <-app_assoc|].
  rewrite Ht. destruct (_ && _); rewrite (IH _ _ _ _ Hm' Hi'); destruct changed; simpl;
    by rewrite <-?app_assoc.
Qed.

Lemma DropOrphan_loop_ref messages i rest declared fulfilled out changed pre :
  messages = pre ++ rest → i = length pre →
  (let '(o, c) := DropOrphan_loop messages i rest declared fulfilled out changed in
   if c then o else messages) =
  (if changed then out else pre) ++ dropOrphans declared fulfilled rest.
Proof.
  revert i declared fulfilled out changed pre.
  induction rest as [|m rest IH]; intros i declared fulfilled out changed pre Hm Hi; simpl.
  { destruct changed; by rewrite ?app_nil_r in *. }
  assert (messages = (pre ++ [m]) ++ rest) as Hm' by (by rewrite <-app_assoc).
  assert (S i = length (pre ++ [m])) as Hi' by (rewrite length_app; simpl; lia).
  assert (take i messages = pre) as Ht by (by rewrite Hm, Hi, take_app_length).
  destruct (isRole RoleTool m); [destruct (_ || _)|]; rewrite (IH _ _ _ _ _ _ Hm' Hi');
    rewrite ?Ht; destruct changed; simpl; by rewrite <-?app_assoc.
Qed.

Lemma StripPlaceholder_filter ms :
  StripPlaceholderAssistantMessages ms = List.filter (λ m, negb (isPlaceholder m)) ms.
Proof. by apply (StripPlaceholder_loop_ref ms 0 ms [] false []). Qed.

Lemma StripMalformed_flat_map ms : StripMalformedToolCalls ms = flat_map stripMalformedMsg ms.
Proof. by apply (StripMalformed_loop_ref ms 0 ms [] false []). Qed.

Lemma DropOrphan_dropOrphans ms : DropOrphanToolResults ms = dropOrphans ∅ ∅ ms.
Proof. by apply (DropOrphan_loop_ref ms 0 ms ∅ ∅ [] false []). Qed.

(** ** Backfill *)

(** Ids answered by the tool messages of a transcript. *)
Definition fulfilledIds (ms : list Message) : gset string :=
  list_to_set (flat_map (λ m, if isRole RoleTool m && negb (bool_decide (m_ToolCallID m = ""))
                              then [m_ToolCallID m] else []) ms).

Fixpoint allDecls (i : nat) (ms : list Message) : list decl :=
  match ms with [] => [] | m :: ms => declsOf i m ++ allDecls (S i) ms end.

Lemma role_excl m : isRole RoleAssistant m = true → isRole RoleTool m = false.
Proof. unfold isRole. intros H. bool_hyps. apply bool_decide_eq_false. by rewrite H. Qed.

Lemma collect_spec i ms declared fulfilled :
  collect i ms declared fulfilled = (declared ++ allDecls i ms, fulfilledIds ms ∪ fulfilled).
Proof.
  revert i declared fulfilled. induction ms as [|m ms IH]; intros i declared fulfilled; simpl.
  { rewrite app_nil_r. unfold fulfilledIds. simpl. f_equal. set_solver. }
  unfold fulfilledIds in *. simpl. rewrite list_to_set_app_L.
  destruct (isRole RoleAssistant m) eqn:Ha.
  - rewrite (role_excl _ Ha), IH, <-app_assoc. simpl. f_equal. set_solver.
  - assert (declsOf i m = []) as -> by (unfold declsOf; by rewrite Ha).
    destruct (_ && _); rewrite IH; simpl; f_equal; set_solver.
Qed.

Lemma skipTools_run n run rest :
  Forall (λ m, isRole RoleTool m = true) run →
  (∀ m l, rest = m :: l → isRole RoleTool m = false) →
  skipTools n (run ++ rest) = (n + length run)%nat.
Proof.
  intros Hr. revert n. induction Hr as [|m run Hm Hr IH]; intros n Hrest; simpl.
  - destruct rest as [|m l]; simpl; [lia|]. rewrite (Hrest m l) by done. lia.
  - rewrite Hm, IH by done. lia.
Qed.

Lemma filler_isTool d : isRole RoleTool (filler d) = true.
Proof. reflexivity. Qed.

(** From any point of the tool run after [m], the scan stops at its end. *)
Lemma skipTools_after pre m tools rest k :
  Forall (λ m, isRole RoleTool m = true) tools → (k ≤ length tools)%nat →
  (∀ m l, rest = m :: l → isRole RoleTool m = false) →
  let p := (length pre + 1 + k)%nat in
  skipTools p (drop p (pre ++ m :: tools ++ rest)) = (length pre + 1 + length tools)%nat.
Proof.
  intros Ht Hk Hrest p. subst p.
  replace (length pre + 1 + k)%nat with (length (pre ++ [m]) + k)%nat
    by (rewrite length_app; simpl; lia).
  replace (pre ++ m :: tools ++ rest) with ((pre ++ [m]) ++ tools ++ rest) by (by rewrite <-app_assoc).
  rewrite drop_app_add, drop_app_le by done.
  rewrite skipTools_run by (done || by apply Forall_drop).
  rewrite length_drop, length_app. simpl. lia.
Qed.

(** The insertions for one assistant turn land, in order, after its tool run. *)
Lemma backfillOne_turn ds n offset pre m tools rest k :
  Forall (λ d, d_index d = n) ds → (n + offset = length pre + k)%nat → (k ≤ length tools)%nat →
  Forall (λ m, isRole RoleTool m = true) tools →
  (∀ m l, rest = m :: l → isRole RoleTool m = false) →
  foldl backfillOne (pre ++ m :: tools ++ rest, offset) ds =
  (pre ++ m :: tools ++ map filler ds ++ rest, (offset + length ds)%nat).
Proof.
  revert offset tools k. induction ds as [|d ds IH]; intros offset tools k Hds Hn Hk Ht Hrest.
  { simpl. f_equal. lia. }
  apply Forall_cons in Hds as [Hd Hds]. simpl. rewrite Hd.
  replace (n + 1 + offset)%nat with (length pre + 1 + k)%nat by lia.
  rewrite skipTools_after by done.
  replace (length pre + 1 + length tools)%nat with (length (pre ++ m :: tools))
    by (rewrite length_app; simpl; lia).
  replace (pre ++ m :: tools ++ rest) with ((pre ++ m :: tools) ++ rest) by (by rewrite <-app_assoc).
  rewrite take_app_length, drop_app_length.
  replace ((pre ++ m :: tools) ++ filler d :: rest) with (pre ++ m :: (tools ++ [filler d]) ++ rest)
    by (by rewrite <-!app_assoc).
  rewrite (IH (S offset) (tools ++ [filler d]) (S k)).
  - rewrite <-!app_assoc. simpl. f_equal. lia.
  - done.
  - lia.
  - rewrite length_app. simpl. lia.
  - apply Forall_app. split; [done|]. by repeat constructor.
  - done.
Qed.

Lemma declsOf_index i m : Forall (λ d, d_index d = i) (declsOf i m).
Proof.
  unfold declsOf. destruct (isRole _ m); [|done].
  induction (calls m) as [|tc tcs IH]; simpl; [done|]. destruct (decide _); simpl; auto.
Qed.

Lemma declsOf_not_assistant i m : isRole RoleAssistant m = false → declsOf i m = [].
Proof. unfold declsOf. by intros ->. Qed.

Lemma backfill_tools miss i pending run ms :
  Forall (λ m, isRole RoleTool m = true) run →
  backfill miss i pending (run ++ ms) = run ++ backfill miss (i + length run) pending ms.
Proof.
  intros Hr. revert i. induction Hr as [|m run Hm Hr IH]; intros i; simpl.
  - f_equal. lia.
  - rewrite Hm, IH. do 3 f_equal; lia.
Qed.

Lemma allDecls_tools i run ms :
  Forall (λ m, isRole RoleTool m = true) run →
  allDecls i (run ++ ms) = allDecls (i + length run) ms.
Proof.
  intros Hr. revert i. induction Hr as [|m run Hm Hr IH]; intros i; simpl; [f_equal; lia|].
  rewrite declsOf_not_assistant, IH.
  - simpl. f_equal. lia.
  - destruct (isRole RoleAssistant m) eqn:E; [|done]. apply role_excl in E. congruence.
Qed.

(** A transcript splits into a maximal run of tool messages and the rest. *)
Lemma tool_run_split ms :
  ∃ run rest, ms = run ++ rest ∧ Forall (λ m, isRole RoleTool m = true) run ∧
    (∀ m l, rest = m :: l → isRole RoleTool m = false).
Proof.
  induction ms as [|m ms (run & rest & -> & Hr & Hrest)].
  { exists [], []. done. }
  destruct (isRole RoleTool m) eqn:E.
  - exists (m :: run), rest. split_and!; [done|by constructor|done].
  - exists [], (m :: run ++ rest). split_and!; [done|done|naive_solver].
Qed.

Lemma backfill_flush miss i fs rest :
  (∀ m l, rest = m :: l → isRole RoleTool m = false) →
  backfill miss i fs rest = fs ++ backfill miss i [] rest.
Proof.
  intros Hrest. destruct rest as [|m l]; simpl; [by rewrite app_nil_r|].
  by rewrite (Hrest m l).
Qed.

(** The index-and-offset loop computes the one-pass definition. *)
Lemma backfill_loop_ref miss ms :
  ∀ n offset pre,
  (∀ m l, ms = m :: l → isRole RoleTool m = false) →
  (n + offset = length pre)%nat →
  (foldl backfillOne (pre ++ ms, offset) (List.filter miss (allDecls n ms))).1 =
  pre ++ backfill miss n [] ms.
Proof.
  induction ms as [ms IH] using (induction_ltof1 _ (@length Message)). unfold ltof in IH.
  intros n offset pre Hhd Hn. destruct ms as [|m ms]; [done|].
  destruct (tool_run_split ms) as (run & rest & -> & Hrun & Hrest).
  simpl. rewrite (Hhd m _ eq_refl), List.filter_app, foldl_app.
  rewrite (backfillOne_turn _ n offset pre m run rest 0%nat); try done; try lia.
  2: { apply Forall_forall. intros d [Hd%list_elem_of_In _]%list_elem_of_In%List.filter_In.
       pose proof (declsOf_index n m) as H.
       rewrite Forall_forall in H. auto. }
  rewrite allDecls_tools by done. set (fs := map filler _).
  replace (pre ++ m :: run ++ fs ++ rest) with ((pre ++ m :: run ++ fs) ++ rest)
    by (by rewrite <-!app_assoc; simpl; rewrite <-app_assoc).
  rewrite IH.
  - rewrite backfill_tools, (backfill_flush miss _ fs) by done. rewrite <-!app_assoc. simpl.
    by rewrite <-app_assoc.
  - simpl. rewrite length_app. lia.
  - done.
  - rewrite length_app. simpl. rewrite length_app. subst fs. rewrite length_map. lia.
Qed.

Definition missingIn (ms : list Message) (d : decl) : bool :=
  negb (bool_decide (d_id d ∈ fulfilledIds ms)).

(** Backfill computes the one-pass definition, whatever the transcript. *)
Lemma Backfill_backfill ms :
  BackfillMissingToolResults ms = backfill (missingIn ms) 0 [] ms.
Proof.
  unfold BackfillMissingToolResults. rewrite collect_spec. simpl.
  rewrite (right_id_L ∅ (∪)). fold (missingIn ms).
  destruct (tool_run_split ms) as (run & rest & Hms & Hrun & Hrest).
  set (l := List.filter _ _).
  transitivity ((foldl backfillOne (ms, 0%nat) l).1); [by destruct l|]. subst l.
  generalize (missingIn ms) as miss. intros miss. rewrite Hms.
  rewrite allDecls_tools, backfill_tools by done. by apply backfill_loop_ref.
Qed.

(** ** Legality of a transcript *)

(** What a provider requires, read left to right: a tool message answers a
    nonempty id that an assistant turn has declared and that no earlier tool
    message has answered. *)
Fixpoint legal (D F : gset string) (ms : list Message) : Prop :=
  match ms with
  | [] => True
  | m :: ms =>
      let D := declareMsg m D in
      if isRole RoleTool m then
        m_ToolCallID m ≠ "" ∧ m_ToolCallID m ∈ D ∧ (m_ToolCallID m ∉ F) ∧
        legal D ({[m_ToolCallID m]} ∪ F) ms
      else legal D F ms
  end.

(** The same without the uniqueness of answers. *)
Fixpoint answersDeclared (D : gset string) (ms : list Message) : Prop :=
  match ms with
  | [] => True
  | m :: ms =>
      let D := declareMsg m D in
      (isRole RoleTool m = true → m_ToolCallID m ≠ "" ∧ m_ToolCallID m ∈ D) ∧ answersDeclared D ms
  end.

(** The nonempty ids an assistant turn, or a transcript, declares. *)
Definition msgIds (m : Message) : list string :=
  if isRole RoleAssistant m then List.filter (λ id, negb (bool_decide (id = ""))) (map tc_ID (calls m)) else [].

Definition declaredIds (ms : list Message) : list string := flat_map msgIds ms.

(** Every call with a nonempty id has a result: the guarantee the repair gives of
    any transcript.  Calls without an id and repeated ids are counted by
    [answered] below. *)
Definition complete (ms : list Message) : Prop := ∀ id, id ∈ declaredIds ms → id ∈ fulfilledIds ms.

(** The ids of all calls of a transcript, empty and repeated ones included, and
    of all its results. *)
Definition callIds (ms : list Message) : list string :=
  flat_map (λ m, if isRole RoleAssistant m then map tc_ID (calls m) else []) ms.

Definition resultIds (ms : list Message) : list string :=
  flat_map (λ m, if isRole RoleTool m then [m_ToolCallID m] else []) ms.

(** How often an id occurs. *)
Definition times (id : string) (ids : list string) : nat := count_occ String.string_dec ids id.

(** What holds of the calls and results of a repaired transcript: each result
    comes after a call with its id; a nonempty id that is called has a result, and
    no id has more results than calls, so an id called once has exactly one; and
    if all ids are distinct and nonempty there is one result for each call, and
    none is given twice. *)
Definition answered (ms : list Message) : Prop :=
  answersDeclared ∅ ms ∧
  (∀ id, id ≠ "" → id ∈ callIds ms → id ∈ resultIds ms) ∧
  (∀ id, (times id (resultIds ms) ≤ times id (callIds ms))%nat) ∧
  ("" ∉ callIds ms → NoDup (callIds ms) → resultIds ms ≡ₚ callIds ms ∧ legal ∅ ∅ ms).

Definition namesValid (ms : list Message) : Prop :=
  Forall (λ m, isRole RoleAssistant m = true → Forall (λ tc, toolCallNameIsValid tc = true) (calls m)) ms.

Lemma declareCalls_elem id tcs D :
  id ∈ declareCalls tcs D ↔ id ∈ D ∨ (id ≠ "" ∧ id ∈ map tc_ID tcs).
Proof.
  unfold declareCalls. revert D. induction tcs as [|tc tcs IH]; intros D; simpl; [set_solver|].
  rewrite IH. destruct (decide (tc_ID tc = "")) as [->|]; set_solver.
Qed.

Lemma declareMsg_elem id m D : id ∈ declareMsg m D ↔ id ∈ D ∨ id ∈ msgIds m.
Proof.
  unfold declareMsg, msgIds. destruct (isRole _ m); [|set_solver].
  rewrite declareCalls_elem, !list_elem_of_In, List.filter_In, negb_true_iff, bool_decide_eq_false.
  tauto.
Qed.

Lemma declareMsg_tool m D : isRole RoleTool m = true → declareMsg m D = D.
Proof.
  intros Ht. unfold declareMsg. destruct (isRole RoleAssistant m) eqn:E; [|done].
  apply role_excl in E. congruence.
Qed.

Lemma msgIds_tool m : isRole RoleTool m = true → msgIds m = [].
Proof.
  intros Ht. unfold msgIds. destruct (isRole RoleAssistant m) eqn:E; [|done].
  apply role_excl in E. congruence.
Qed.

Lemma declsOf_ids i m : map d_id (declsOf i m) = msgIds m.
Proof.
  unfold declsOf, msgIds. destruct (isRole _ m); [|done].
  induction (calls m) as [|tc tcs IH]; simpl; [done|].
  destruct (decide (tc_ID tc = "")) as [Heq|Hne]; simpl.
  - rewrite bool_decide_eq_true_2 by done. done.
  - rewrite bool_decide_eq_false_2 by done. simpl. by f_equal.
Qed.

Lemma allDecls_ids i ms : map d_id (allDecls i ms) = declaredIds ms.
Proof.
  revert i. induction ms as [|m ms IH]; intros i; simpl; [done|].
  by rewrite map_app, declsOf_ids, IH.
Qed.

Lemma msgIds_nonempty id m : id ∈ msgIds m → id ≠ "".
Proof.
  unfold msgIds. destruct (isRole _ m); [|set_solver].
  rewrite list_elem_of_In, List.filter_In, negb_true_iff, bool_decide_eq_false. tauto.
Qed.

(** *** What each repair guarantees *)

Lemma dropOrphans_legal D F ms : legal D F (dropOrphans D F ms).
Proof.
  revert D F. induction ms as [|m ms IH]; intros D F; simpl; [done|].
  destruct (isRole RoleTool m) eqn:Ht; [|simpl; rewrite Ht; apply IH].
  destruct (_ || _) eqn:E; [rewrite declareMsg_tool by done; apply IH|].
  bool_hyps. simpl. rewrite Ht. auto.
Qed.

Lemma dropOrphans_sublist D F ms : dropOrphans D F ms `sublist_of` ms.
Proof.
  revert D F. induction ms as [|m ms IH]; intros D F; simpl; [constructor|].
  destruct (isRole RoleTool m); [destruct (_ || _)|]; auto using sublist_skip, sublist_cons.
Qed.

Lemma dropOrphans_declaredIds D F ms : declaredIds (dropOrphans D F ms) = declaredIds ms.
Proof.
  revert D F. induction ms as [|m ms IH]; intros D F; simpl; [done|].
  destruct (isRole RoleTool m) eqn:Ht; [destruct (_ || _)|]; simpl; rewrite IH; try done.
  by rewrite msgIds_tool.
Qed.

(** Legal transcripts are left alone. *)
Lemma dropOrphans_id D F ms : legal D F ms → dropOrphans D F ms = ms.
Proof.
  revert D F. induction ms as [|m ms IH]; intros D F; simpl; [done|].
  destruct (isRole RoleTool m); [|intros H; by rewrite IH].
  intros (H1 & H2 & H3 & H4).
  rewrite bool_decide_eq_false_2, bool_decide_eq_true_2, bool_decide_eq_false_2 by done.
  simpl. by rewrite IH.
Qed.

Lemma legal_answersDeclared D F ms : legal D F ms → answersDeclared D ms.
Proof.
  revert D F. induction ms as [|m ms IH]; intros D F; simpl; [done|].
  destruct (isRole RoleTool m); [|intros; split; [done|eauto]].
  intros (? & ? & ? & ?). split; [done|eauto].
Qed.

Lemma legal_ext D F F' ms : F = F' → legal D F ms → legal D F' ms.
Proof. by intros ->. Qed.

(** A block of fillers whose ids are declared, fresh and distinct is legal. *)
Lemma legal_fillers D F ds rest :
  NoDup (map d_id ds) →
  (∀ id, id ∈ map d_id ds → id ≠ "" ∧ id ∈ D ∧ (id ∉ F)) →
  legal D (list_to_set (map d_id ds) ∪ F) rest →
  legal D F (map filler ds ++ rest).
Proof.
  revert F. induction ds as [|d ds IH]; intros F Hnd Hin Hr; simpl.
  { eapply legal_ext; [|exact Hr]. set_solver. }
  apply NoDup_cons in Hnd as [Hd Hnd]. simpl in Hin.
  destruct (Hin (d_id d)) as (? & ? & ?); [set_solver|]. split_and!; [done..|].
  apply IH; [done| |].
  - intros id Hid. destruct (Hin id) as (? & ? & ?); [set_solver|]. split_and!; [done..|].
    intros [->%elem_of_singleton|?]%elem_of_union; [done|done].
  - eapply legal_ext; [|exact Hr]. simpl. set_solver.
Qed.

Lemma answersDeclared_fillers D ds rest :
  (∀ id, id ∈ map d_id ds → id ≠ "" ∧ id ∈ D) → answersDeclared D rest →
  answersDeclared D (map filler ds ++ rest).
Proof.
  induction ds as [|d ds IH]; simpl; intros Hin Hr; [done|]. split.
  - intros _. apply Hin. set_solver.
  - apply IH; [|done]. intros. apply Hin. set_solver.
Qed.

(** The ids of the declarations of [ms] that [miss] selects. *)
Definition missIds (miss : decl → bool) (i : nat) (ms : list Message) : list string :=
  map d_id (List.filter miss (allDecls i ms)).

Lemma fulfilledIds_cons m ms :
  fulfilledIds (m :: ms) =
  (if isRole RoleTool m && negb (bool_decide (m_ToolCallID m = "")) then {[m_ToolCallID m]} else ∅)
  ∪ fulfilledIds ms.
Proof.
  unfold fulfilledIds. simpl. rewrite list_to_set_app_L. f_equal. destruct (_ && _); set_solver.
Qed.

(** More answered ids do no harm if the rest of the transcript does not use them. *)
Lemma legal_weaken D F X ms :
  legal D F ms → (∀ id, id ∈ X → id ∉ fulfilledIds ms) → legal D (X ∪ F) ms.
Proof.
  revert D F. induction ms as [|m ms IH]; intros D F; simpl; [done|].
  rewrite fulfilledIds_cons. destruct (isRole RoleTool m); simpl.
  - intros (H1 & H2 & H3 & H4) HX. rewrite bool_decide_eq_false_2 in HX by done. simpl in HX.
    split_and!; [done..|set_solver|]. eapply legal_ext; [|apply IH; [exact H4|set_solver]].
    set_solver.
  - intros Hl HX. apply IH; [done|]. set_solver.
Qed.

Lemma missIds_cons miss i m ms :
  missIds miss i (m :: ms) = map d_id (List.filter miss (declsOf i m)) ++ missIds miss (S i) ms.
Proof. unfold missIds. simpl. by rewrite List.filter_app, map_app. Qed.

Lemma missed_in_msgIds miss i m id :
  id ∈ map d_id (List.filter miss (declsOf i m)) → id ∈ msgIds m.
Proof.
  rewrite <-(declsOf_ids i m), !list_elem_of_In, !in_map_iff.
  intros (d & <- & [Hd _]%List.filter_In). eauto.
Qed.

(** Backfilling a legal transcript keeps it legal when no missing id is declared
    twice. *)
Lemma backfill_legal miss ms : ∀ i D F ds,
  legal D F ms →
  NoDup (map d_id ds ++ missIds miss i ms) →
  (∀ id, id ∈ map d_id ds → id ≠ "" ∧ id ∈ D ∧ (id ∉ F) ∧ (id ∉ fulfilledIds ms)) →
  (∀ id, id ∈ missIds miss i ms → (id ∉ F) ∧ (id ∉ fulfilledIds ms)) →
  legal D F (backfill miss i (map filler ds) ms).
Proof.
  induction ms as [|m ms IH]; intros i D F ds Hl Hnd Hds Hms.
  { simpl. rewrite <-(app_nil_r (map filler ds)). apply legal_fillers; [|set_solver|done].
    by rewrite app_nil_r in Hnd. }
  rewrite missIds_cons in Hnd, Hms. rewrite fulfilledIds_cons in Hds, Hms. simpl in *.
  destruct (isRole RoleTool m) eqn:Ht.
  - destruct Hl as (H1 & H2 & H3 & H4). rewrite declareMsg_tool in * by done.
    rewrite declsOf_not_assistant in Hnd, Hms.
    2,3: destruct (isRole RoleAssistant m) eqn:E; [apply role_excl in E; congruence|done].
    rewrite bool_decide_eq_false_2 in Hds, Hms by done. simpl in *. rewrite Ht.
    rewrite (declareMsg_tool m D) by done. split_and!; [done..|]. apply IH; [done..| |].
    + intros id Hid. destruct (Hds id Hid) as (? & ? & ? & ?). set_solver.
    + intros id Hid. destruct (Hms id Hid). set_solver.
  - simpl in Hds, Hms. rewrite (left_id_L ∅ (∪)) in Hds. rewrite (left_id_L ∅ (∪)) in Hms.
    rewrite NoDup_app in Hnd. destruct Hnd as (Hnd1 & Hdisj & Hnd2).
    apply legal_fillers; [done|intros id Hid; destruct (Hds id Hid) as (? & ? & ? & ?); done|].
    simpl. rewrite Ht. apply IH; [| |intros id Hid|intros id Hid].
    + apply legal_weaken; [done|]. intros id Hid%elem_of_list_to_set. by apply Hds.
    + done.
    + split_and!.
      * by eapply msgIds_nonempty, missed_in_msgIds.
      * apply declareMsg_elem. right. by eapply missed_in_msgIds.
      * destruct (Hms id) as [? _]; [set_solver|]. set_solver.
      * destruct (Hms id) as [_ ?]; [set_solver|]. set_solver.
    + destruct (Hms id) as [? ?]; [set_solver|]. set_solver.
Qed.

(** Without any assumption, every answer is still to an earlier declaration. *)
Lemma backfill_answersDeclared miss ms : ∀ i D ds,
  answersDeclared D ms → (∀ id, id ∈ map d_id ds → id ≠ "" ∧ id ∈ D) →
  answersDeclared D (backfill miss i (map filler ds) ms).
Proof.
  induction ms as [|m ms IH]; intros i D ds Hl Hds; simpl.
  { rewrite <-(app_nil_r (map filler ds)). by apply answersDeclared_fillers. }
  destruct Hl as [Hm Hl]. destruct (isRole RoleTool m) eqn:Ht.
  - simpl. rewrite Ht. split; [done|]. apply IH; [done|]. intros id Hid.
    rewrite declareMsg_tool by done. auto.
  - apply answersDeclared_fillers; [done|]. simpl. rewrite Ht. split; [done|].
    apply IH; [done|]. intros id Hid. apply missed_in_msgIds in Hid. split.
    + by eapply msgIds_nonempty.
    + apply declareMsg_elem. by right.
Qed.

Lemma declaredIds_fillers ds ms : declaredIds (map filler ds ++ ms) = declaredIds ms.
Proof. induction ds as [|d ds IH]; [done|]. simpl. by rewrite IH. Qed.

Lemma backfill_declaredIds miss ms i ds :
  declaredIds (backfill miss i (map filler ds) ms) = declaredIds ms.
Proof.
  revert i ds. induction ms as [|m ms IH]; intros i ds; simpl.
  { rewrite <-(app_nil_r (map filler ds)). apply declaredIds_fillers. }
  destruct (isRole RoleTool m); [simpl; by rewrite IH|].
  rewrite declaredIds_fillers. simpl. by rewrite IH.
Qed.

Lemma fulfilledIds_fillers ds ms :
  (∀ d, d ∈ ds → d_id d ≠ "") →
  fulfilledIds (map filler ds ++ ms) = list_to_set (map d_id ds) ∪ fulfilledIds ms.
Proof.
  induction ds as [|d ds IH]; intros Hne; [set_solver|].
  cbn [map app]. rewrite fulfilledIds_cons, IH by set_solver. rewrite filler_isTool.
  change (m_ToolCallID (filler d)) with (d_id d).
  rewrite bool_decide_eq_false_2 by (apply Hne; set_solver). simpl. set_solver.
Qed.

Lemma missed_nonempty miss i m d :
  d ∈ List.filter miss (declsOf i m) → d_id d ≠ "".
Proof.
  intros Hd. apply (msgIds_nonempty _ m), (missed_in_msgIds miss i). 
  by apply list_elem_of_In, in_map, list_elem_of_In.
Qed.

(** The ids answered after backfilling: those answered before and the missing ones. *)
Lemma backfill_fulfilledIds miss ms i ds :
  (∀ d, d ∈ ds → d_id d ≠ "") →
  fulfilledIds (backfill miss i (map filler ds) ms) =
  list_to_set (map d_id ds) ∪ list_to_set (missIds miss i ms) ∪ fulfilledIds ms.
Proof.
  revert i ds. induction ms as [|m ms IH]; intros i ds Hne; simpl.
  { rewrite <-(app_nil_r (map filler ds)), fulfilledIds_fillers by done. set_solver. }
  rewrite missIds_cons, (fulfilledIds_cons m ms).
  destruct (isRole RoleTool m) eqn:Ht.
  - rewrite fulfilledIds_cons, Ht, IH by done. rewrite declsOf_not_assistant; [set_solver|].
    destruct (isRole RoleAssistant m) eqn:E; [apply role_excl in E; congruence|done].
  - rewrite fulfilledIds_fillers, fulfilledIds_cons, Ht by done. simpl.
    rewrite IH by eauto using missed_nonempty. rewrite list_to_set_app_L. set_solver.
Qed.

Lemma backfill_sublist miss ms i ds : ms `sublist_of` backfill miss i ds ms.
Proof.
  revert i ds. induction ms as [|m ms IH]; intros i ds; simpl; [apply sublist_nil_l|].
  destruct (isRole RoleTool m); [by apply sublist_skip|].
  apply sublist_inserts_l. by apply sublist_skip.
Qed.

Lemma Backfill_complete ms : complete (BackfillMissingToolResults ms).
Proof.
  rewrite Backfill_backfill. intros id.
  rewrite (backfill_declaredIds _ ms 0 []), (backfill_fulfilledIds _ ms 0 []) by set_solver.
  rewrite <-(allDecls_ids 0 ms), list_elem_of_In, in_map_iff. intros (d & <- & Hd).
  destruct (missingIn ms d) eqn:E.
  - apply elem_of_union_l, elem_of_union_r, elem_of_list_to_set, list_elem_of_In.
    apply in_map, List.filter_In. done.
  - unfold missingIn in E. bool_hyps. set_solver.
Qed.

(** *** Calls and results counted *)

Lemma times_nil id l : times id l = 0%nat ↔ id ∉ l.
Proof. rewrite list_elem_of_In. symmetry. apply count_occ_not_In. Qed.

Lemma times_pos id l : id ∈ l ↔ (0 < times id l)%nat.
Proof. rewrite list_elem_of_In. apply (count_occ_In String.string_dec). Qed.

Lemma times_app id l l' : times id (l ++ l') = (times id l + times id l')%nat.
Proof. apply count_occ_app. Qed.

Lemma times_perm id l l' : l ≡ₚ l' → times id l = times id l'.
Proof. intros Hp. by apply Permutation_count_occ. Qed.

(** The calls with a nonempty id are the declarations. *)
Lemma times_declared id ms : id ≠ "" → times id (declaredIds ms) = times id (callIds ms).
Proof.
  intros Hne. induction ms as [|m ms IH]; [done|]. cbn [declaredIds callIds flat_map].
  rewrite !times_app. unfold declaredIds, callIds in IH. rewrite IH. f_equal. unfold msgIds.
  destruct (isRole _ m); [|done]. induction (map tc_ID (calls m)) as [|x l IHl]; [done|]. cbn.
  unfold times in *. case_bool_decide as Hx; cbn; destruct (String.string_dec x id); congruence.
Qed.

Lemma callIds_declared ms : "" ∉ callIds ms → declaredIds ms = callIds ms.
Proof.
  induction ms as [|m ms IH]; [done|]. cbn [declaredIds callIds flat_map]. intros Hn.
  unfold declaredIds, callIds in *. rewrite IH by set_solver. f_equal. unfold msgIds.
  destruct (isRole _ m); [|done]. apply not_elem_of_app in Hn as [Hn _].
  induction (map tc_ID (calls m)) as [|x l IHl]; [done|]. cbn.
  rewrite bool_decide_eq_false_2 by set_solver. cbn. f_equal. set_solver.
Qed.

Lemma resultIds_fillers ds ms : resultIds (map filler ds ++ ms) = map d_id ds ++ resultIds ms.
Proof. induction ds as [|d ds IH]; [done|]. cbn [map app]. unfold resultIds in *. cbn [flat_map]. by rewrite filler_isTool, IH. Qed.

Lemma callIds_fillers ds ms : callIds (map filler ds ++ ms) = callIds ms.
Proof. induction ds as [|d ds IH]; [done|]. cbn [map app]. unfold callIds in *. cbn [flat_map]. by rewrite IH. Qed.

Lemma callIds_tool m : isRole RoleTool m = true → (if isRole RoleAssistant m then map tc_ID (calls m) else []) = [].
Proof. intros Ht. destruct (isRole RoleAssistant m) eqn:E; [|done]. apply role_excl in E. congruence. Qed.

Lemma backfill_callIds miss ms i ds : callIds (backfill miss i (map filler ds) ms) = callIds ms.
Proof.
  revert i ds. induction ms as [|m ms IH]; intros i ds; cbn [backfill].
  { rewrite <-(app_nil_r (map filler ds)). apply callIds_fillers. }
  destruct (isRole RoleTool m); [|rewrite callIds_fillers]; unfold callIds in *; cbn [flat_map]; by rewrite IH.
Qed.

(** The results after backfilling: those there were and one per missing call. *)
Lemma backfill_resultIds miss ms i ds :
  resultIds (backfill miss i (map filler ds) ms) ≡ₚ map d_id ds ++ missIds miss i ms ++ resultIds ms.
Proof.
  revert i ds. induction ms as [|m ms IH]; intros i ds; cbn [backfill].
  { rewrite <-(app_nil_r (map filler ds)), resultIds_fillers. done. }
  rewrite missIds_cons. destruct (isRole RoleTool m) eqn:Ht.
  - rewrite declsOf_not_assistant
      by (destruct (isRole RoleAssistant m) eqn:E; [apply role_excl in E; congruence|done]).
    unfold resultIds in *. cbn [flat_map]. rewrite Ht, IH. simpl. solve_Permutation.
  - rewrite resultIds_fillers. unfold resultIds in *. cbn [flat_map]. rewrite Ht, IH. simpl. by rewrite <-app_assoc.
Qed.

(** A legal transcript gives no result twice, and none without an id. *)
Lemma legal_resultIds D F ms :
  legal D F ms → NoDup (resultIds ms) ∧ ("" ∉ resultIds ms) ∧ (∀ id, id ∈ resultIds ms → id ∉ F) ∧
    (∀ id, id ∈ resultIds ms → id ∈ fulfilledIds ms) ∧ (∀ id, id ∈ resultIds ms → id ∈ D ∨ id ∈ declaredIds ms).
Proof.
  revert D F. induction ms as [|m ms IH]; intros D F; cbn [legal].
  { intros _. cbn. split_and!; [constructor|set_solver..]. }
  rewrite fulfilledIds_cons. unfold resultIds, declaredIds. cbn [flat_map]. fold (resultIds ms) (declaredIds ms).
  destruct (isRole RoleTool m) eqn:Ht.
  - rewrite declareMsg_tool by done. intros (H1 & H2 & H3 & H4).
    destruct (IH _ _ H4) as (Hn & He & Hf & Hg & Hd). rewrite bool_decide_eq_false_2 by done. cbn.
    split_and!; [constructor; [set_solver|done]|set_solver..].
  - intros Hl. destruct (IH _ _ Hl) as (Hn & He & Hf & Hg & Hd). cbn. split_and!; [done|done|done|set_solver|].
    intros id Hid. rewrite elem_of_app. destruct (Hd id Hid) as [Hx%declareMsg_elem|?]; tauto.
Qed.

(** *** Names *)

Lemma namesValid_sublist ms ms' : ms' `sublist_of` ms → namesValid ms → namesValid ms'.
Proof.
  unfold namesValid. rewrite !Forall_forall. intros Hs H m Hm. apply H. by eapply elem_of_sublist.
Qed.

Lemma stripMalformedMsg_valid m : namesValid (stripMalformedMsg m).
Proof.
  unfold namesValid, stripMalformedMsg.
  destruct (isRole RoleAssistant m) eqn:Ha; simpl.
  2: { constructor; [by rewrite Ha|done]. }
  destruct (Nat.eqb_spec (length (calls m)) 0) as [Hl|Hl].
  { constructor; [|done]. intros _. apply nil_length_inv in Hl. by rewrite Hl. }
  assert (Forall (λ tc, toolCallNameIsValid tc = true) (List.filter toolCallNameIsValid (calls m))) as Hf.
  { apply Forall_forall. intros tc Htc%list_elem_of_In%List.filter_In. by destruct Htc. }
  destruct (Nat.eqb_spec (length (List.filter toolCallNameIsValid (calls m))) (length (calls m))) as [He|He].
  { constructor; [|done]. intros _. by rewrite <-(filter_full_length _ _ He). }
  destruct (_ && _); [done|]. by constructor.
Qed.

Lemma StripMalformed_namesValid ms : namesValid (StripMalformedToolCalls ms).
Proof.
  rewrite StripMalformed_flat_map. induction ms as [|m ms IH]; simpl; [constructor|].
  apply Forall_app. split; [apply stripMalformedMsg_valid|done].
Qed.

Lemma backfill_namesValid miss ms i ds :
  namesValid ms → namesValid (backfill miss i (map filler ds) ms).
Proof.
  unfold namesValid. revert i ds.
  assert (∀ ds, Forall (λ m, isRole RoleAssistant m = true →
     Forall (λ tc, toolCallNameIsValid tc = true) (calls m)) (map filler ds)) as Hfill.
  { intros ds. induction ds; simpl; constructor; auto. }
  induction ms as [|m ms IH]; intros i ds Hv; simpl; [apply Hfill|].
  apply Forall_cons in Hv as [Hm Hv]. destruct (isRole RoleTool m); [constructor; auto|].
  apply Forall_app. split; [apply Hfill|]. constructor; auto.
Qed.

(** ** Legal starting points *)

(** No tool message answers a (nonempty) id that [D] and the messages before it
    do not declare.  As in [FindLegalMessageStart] a tool message without an id is
    passed over; [PrepareForModel] drops such a message before a request is sent. *)
Fixpoint startLegal (D : gset string) (ms : list Message) : Prop :=
  match ms with
  | [] => True
  | m :: ms =>
      (isRole RoleTool m = true → m_ToolCallID m ≠ "" → m_ToolCallID m ∈ D) ∧
      startLegal (declareMsg m D) ms
  end.

Definition declaredAfter (D : gset string) (ms : list Message) : gset string :=
  foldl (λ D m, declareMsg m D) D ms.

Lemma declareMsg_mono m D D' : D ⊆ D' → declareMsg m D ⊆ declareMsg m D'.
Proof. intros H id. rewrite !declareMsg_elem. set_solver. Qed.

Lemma declaredAfter_mono D D' ms : D ⊆ D' → declaredAfter D ms ⊆ declaredAfter D' ms.
Proof. revert D D'. induction ms as [|m ms IH]; intros D D' H; simpl; auto using declareMsg_mono. Qed.

Lemma declaredAfter_suffix D l1 l2 : declaredAfter ∅ l2 ⊆ declaredAfter D (l1 ++ l2).
Proof. unfold declaredAfter. rewrite foldl_app. apply declaredAfter_mono. set_solver. Qed.

Lemma startLegal_app D l1 l2 :
  startLegal D (l1 ++ l2) ↔ startLegal D l1 ∧ startLegal (declaredAfter D l1) l2.
Proof. revert D. induction l1 as [|m l1 IH]; intros D; simpl; [tauto|]. rewrite IH. tauto. Qed.

(** The loop, with the messages already scanned split at the current candidate. *)
Lemma FindLegal_loop_spec rest : ∀ pre seg,
  startLegal ∅ seg →
  (∀ k, (k < length pre)%nat → ¬ startLegal ∅ (drop k (pre ++ seg ++ rest))) →
  let r := FindLegal_loop (length pre + length seg) (declaredAfter ∅ seg) (length pre) rest in
  (r ≤ length (pre ++ seg ++ rest))%nat ∧
  startLegal ∅ (drop r (pre ++ seg ++ rest)) ∧
  ∀ k, (k < r)%nat → ¬ startLegal ∅ (drop k (pre ++ seg ++ rest)).
Proof.
  induction rest as [|m rest IH]; intros pre seg Hseg Hpre.
  { simpl. rewrite app_nil_r in *. rewrite drop_app_length, length_app. split_and!; [lia|done|done]. }
  assert (pre ++ seg ++ m :: rest = pre ++ (seg ++ [m]) ++ rest) as Heq by (by rewrite <-!app_assoc).
  assert (declaredAfter ∅ (seg ++ [m]) = declareMsg m (declaredAfter ∅ seg)) as Hda
    by (unfold declaredAfter; by rewrite foldl_app).
  assert (length pre + length (seg ++ [m]) = S (length pre + length seg))%nat as Hlen
    by (rewrite length_app; simpl; lia).
  assert ((isRole RoleTool m = true → m_ToolCallID m ≠ "" → m_ToolCallID m ∈ declaredAfter ∅ seg) →
    startLegal ∅ (seg ++ [m])) as Hnext by (intros; by apply startLegal_app).
  cbn zeta. simpl. rewrite Heq in Hpre |- *.
  destruct (isRole RoleAssistant m) eqn:Ha.
  { specialize (IH pre (seg ++ [m])). rewrite Hda, Hlen in IH. apply IH; [|done].
    apply Hnext. by rewrite (role_excl _ Ha). }
  assert (declareMsg m (declaredAfter ∅ seg) = declaredAfter ∅ seg) as Hdm
    by (unfold declareMsg; by rewrite Ha).
  destruct (_ && _) eqn:E.
  - bool_hyps. specialize (IH (pre ++ seg ++ [m]) []). simpl in IH.
    rewrite Nat.add_0_r, <-!app_assoc in IH. simpl in IH.
    replace (length (pre ++ seg ++ [m])) with (S (length pre + length seg)) in IH
      by (rewrite !length_app; simpl; lia).
    rewrite <-app_assoc. simpl. rewrite <-app_assoc in Hpre. simpl in Hpre.
    apply IH; [done|]. intros k Hk.
    destruct (decide (k < length pre)%nat); [by apply Hpre|].
    rewrite drop_app_ge, drop_app_le by lia. rewrite startLegal_app. intros [_ [Hbad _]].
    specialize (Hbad ltac:(done) ltac:(done)). apply H0.
    rewrite <-(take_drop (k - length pre) seg). by apply (declaredAfter_suffix ∅ (take (k - length pre) seg)).
  - specialize (IH pre (seg ++ [m])). rewrite Hda, Hlen, Hdm in IH. apply IH; [|done].
    apply Hnext. intros Ht Hne. rewrite Ht in E. simpl in E.
    rewrite bool_decide_eq_false_2 in E by done. simpl in E. by bool_hyps.
Qed.

Lemma FindLegalMessageStart_spec ms :
  let s := FindLegalMessageStart ms in
  (s ≤ length ms)%nat ∧ startLegal ∅ (drop s ms) ∧ ∀ k, (k < s)%nat → ¬ startLegal ∅ (drop k ms).
Proof. apply (FindLegal_loop_spec ms [] []); simpl; [done|lia]. Qed.

(** ** Trimming *)

Section BudgetFacts.
Context {ToolSchema : Type} `{!Tokenizer ToolSchema}.

Lemma EstimateMessageTokens_ge m : 4 ≤ EstimateMessageTokens m.
Proof. unfold EstimateMessageTokens. destruct (decide _); [lia|]. destruct (TokenCount _); lia. Qed.

Lemma estimateToolsTokens_nonneg tools sep n : estimateToolsTokens tools sep = Some n → 0 ≤ n.
Proof. unfold estimateToolsTokens. intros (raw & _ & H)%bind_Some. by eapply TokenCount_nonneg. Qed.

Lemma EstimatePromptTokens_nonneg ms tools : 0 ≤ (EstimatePromptTokens ms tools).1.
Proof.
  unfold EstimatePromptTokens, estimatePromptTokensWithSource. cbn zeta.
  destruct (if bpeAvailable then _ else _) as [n|] eqn:E; simpl; [|lia].
  destruct bpeAvailable; [|done].
  apply bind_Some in E as (tt & Ht & (mt & Hm & [= <-])%bind_Some).
  assert (0 ≤ tt) by (destruct tools; [by simplify_eq|by eapply estimateToolsTokens_nonneg]).
  assert (0 ≤ mt) by (destruct (decide _); [by simplify_eq|by eapply TokenCount_nonneg]). lia.
Qed.

Lemma firstUserTail_suffix ms : firstUserTail ms `suffix_of` ms.
Proof.
  induction ms as [|m ms IH]; simpl; [done|]. destruct (isRole _ m); [done|]. by apply suffix_cons_r.
Qed.

Lemma lastUserTail_suffix ms : lastUserTail ms `suffix_of` ms.
Proof.
  induction ms as [|m ms IH]; simpl; [done|].
  destruct (lastUserTail ms); [destruct (isRole _ m); [done|apply suffix_nil]|]. by apply suffix_cons_r.
Qed.

Lemma drop_suffix {A} n (l : list A) : drop n l `suffix_of` l.
Proof. exists (take n l). by rewrite take_drop. Qed.

Lemma legalHistoryTail_spec kept nonSystem :
  kept `suffix_of` nonSystem →
  legalHistoryTail kept nonSystem `suffix_of` nonSystem ∧
  startLegal ∅ (legalHistoryTail kept nonSystem).
Proof.
  intros Hk. unfold legalHistoryTail. cbn zeta.
  set (fb := match kept with [] => _ | _ => kept end).
  assert (fb `suffix_of` nonSystem) as Hfb by (subst fb; destruct kept; auto using drop_suffix).
  set (r := match _ with [] => fb | _ => _ end).
  assert (r `suffix_of` nonSystem) as Hr.
  { subst r. pose proof (firstUserTail_suffix kept) as H1.
    pose proof (lastUserTail_suffix nonSystem) as H2. unfold userTail.
    destruct (firstUserTail kept); [by destruct (lastUserTail nonSystem)|]. by etrans. }
  clearbody r. clear fb Hfb.
  pose proof (FindLegalMessageStart_spec r) as (Hle & Hl & _).
  destruct (_ && _) eqn:E.
  - split; [|done]. etrans; [apply drop_suffix|done].
  - split; [done|]. apply andb_false_iff in E as [E|E].
    + apply Nat.ltb_ge in E. replace (FindLegalMessageStart r) with 0%nat in Hl by lia. done.
    + apply Nat.leb_gt in E. lia.
Qed.

Lemma keepNewest_spec remaining rest kept keptTokens :
  keptTokens = sumTokens kept →
  (kept = [] ∨ length kept = 1%nat ∨ keptTokens ≤ remaining) →
  let out := keepNewest remaining rest kept keptTokens in
  out `suffix_of` rev rest ++ kept ∧
  ((length out ≤ 1)%nat ∨ sumTokens out ≤ remaining) ∧
  (rest ++ kept ≠ [] → out ≠ []).
Proof.
  revert kept keptTokens. induction rest as [|m rest IH]; intros kept keptTokens Hs Hk; cbn zeta.
  - simpl. split_and!; [done| |done]. subst. destruct Hk as [->|[?|?]]; simpl; auto; left; lia.
  - simpl. destruct (_ && _) eqn:E.
    + split_and!.
      * exists (rev rest ++ [m]). done.
      * subst. destruct Hk as [->|[?|?]]; auto; left; simpl in *; lia.
      * intros _. bool_hyps. by destruct kept.
    + rewrite <-app_assoc. simpl. destruct (IH (m :: kept) (keptTokens + EstimateMessageTokens m)) as (?&?&?).
      * subst. simpl. lia.
      * apply andb_false_iff in E as [E|E]; bool_hyps; [|by right; right].
        apply Nat.eqb_eq in E. right; left. simpl. lia.
      * split_and!; [done..|]. intros _. apply H1. by destruct rest.
Qed.

(** After the last two repairs every tool result answers an earlier call. *)
Lemma repaired_answers ms : answersDeclared ∅ (BackfillMissingToolResults (DropOrphanToolResults ms)).
Proof.
  rewrite Backfill_backfill. apply (backfill_answersDeclared _ _ 0 ∅ []); [|set_solver].
  rewrite DropOrphan_dropOrphans. eapply legal_answersDeclared, dropOrphans_legal.
Qed.

(** The last two repairs make a transcript [answered], whatever it was. *)
Lemma fulfilled_result ms id : id ∈ fulfilledIds ms → id ∈ resultIds ms.
Proof.
  induction ms as [|m ms IH]; [set_solver|]. rewrite fulfilledIds_cons. unfold resultIds in *. cbn [flat_map].
  destruct (isRole RoleTool m); cbn; [case_bool_decide|]; set_solver.
Qed.

(** The missing calls: all calls of an id without a result, none of the others. *)
Lemma missing_times ms id :
  times id (missIds (missingIn ms) 0 ms) = if bool_decide (id ∈ fulfilledIds ms) then 0%nat else times id (declaredIds ms).
Proof.
  rewrite <-(allDecls_ids 0 ms). unfold missIds, times.
  induction (allDecls 0 ms) as [|d ds IH]; cbn [List.filter map count_occ]; [by case_bool_decide|].
  destruct (missingIn ms d) eqn:Hd; unfold missingIn in Hd; cbn [map count_occ];
    destruct (String.string_dec (d_id d) id) as [<-|]; rewrite IH; try done;
    apply (f_equal negb) in Hd; rewrite negb_involutive in Hd; by rewrite Hd.
Qed.

Lemma repaired_legal ms :
  let kept := DropOrphanToolResults ms in
  NoDup (declaredIds kept) → legal ∅ ∅ (BackfillMissingToolResults kept).
Proof.
  cbn zeta. intros Hnd. rewrite Backfill_backfill. apply (backfill_legal _ _ 0 ∅ ∅ []); [|..].
  - rewrite DropOrphan_dropOrphans. apply dropOrphans_legal.
  - rewrite <-(allDecls_ids 0) in Hnd. simpl. by apply NoDup_map_filter.
  - set_solver.
  - unfold missIds. intros id (d & <- & Hd)%list_elem_of_In%in_map_iff.
    apply List.filter_In in Hd as [_ Hd]. unfold missingIn in Hd. bool_hyps. set_solver.
Qed.

Lemma repaired_answered ms : answered (BackfillMissingToolResults (DropOrphanToolResults ms)).
Proof.
  pose proof (repaired_legal ms) as Hrl. cbn zeta in Hrl.
  assert (legal ∅ ∅ (DropOrphanToolResults ms)) as Hl by (rewrite DropOrphan_dropOrphans; apply dropOrphans_legal).
  set (kept := DropOrphanToolResults ms) in *. destruct (legal_resultIds _ _ _ Hl) as (Hn & He & _ & Hf & Hd).
  assert (callIds (BackfillMissingToolResults kept) = callIds kept) as Hc
    by (rewrite Backfill_backfill; apply (backfill_callIds _ _ 0 [])).
  assert (∀ id, id ≠ "" → id ∈ callIds (BackfillMissingToolResults kept) → id ∈ resultIds (BackfillMissingToolResults kept)) as Hall.
  { intros id Hne Hid. apply fulfilled_result, Backfill_complete, times_pos. rewrite times_declared by done. by apply times_pos. }
  assert (∀ id, (times id (resultIds (BackfillMissingToolResults kept)) ≤ times id (callIds (BackfillMissingToolResults kept)))%nat) as Hle.
  { intros id. rewrite Hc, Backfill_backfill, (times_perm id _ _ (backfill_resultIds _ _ 0 [])). cbn [map app].
    rewrite times_app, missing_times. destruct (decide (id ∈ resultIds kept)) as [Hin|Hni].
    - rewrite bool_decide_eq_true_2 by auto. destruct (Hd id Hin) as [?|Hdec]; [set_solver|].
      rewrite <-times_declared by (intros ->; done). apply times_pos in Hdec.
      assert (times id (resultIds kept) ≤ 1)%nat by (apply (proj1 (NoDup_count_occ String.string_dec _)), NoDup_ListNoDup; done). lia.
    - rewrite bool_decide_eq_false_2 by (intros ?%fulfilled_result; done). rewrite (proj2 (times_nil id (resultIds kept))) by done.
      destruct (decide (id = "")) as [->|Hne]; [|rewrite times_declared by done; lia].
      rewrite (proj2 (times_nil "" (declaredIds kept))); [lia|].
      unfold declaredIds. rewrite list_elem_of_In, in_flat_map. intros (m & _ & Hm%list_elem_of_In).
      by eapply msgIds_nonempty. }
  split_and!; [apply repaired_answers|done..|]. intros Hne Hnd. rewrite Hc in *. split.
  - apply NoDup_Permutation.
    + apply NoDup_ListNoDup, (NoDup_count_occ String.string_dec). intros id. etrans; [apply Hle|].
      apply (proj1 (NoDup_count_occ String.string_dec _)), NoDup_ListNoDup; done.
    + done.
    + intros id. split; intros Hid.
      * apply times_pos. pose proof (Hle id). apply times_pos in Hid. lia.
      * apply Hall; [by intros ->|done].
  - apply Hrl. by rewrite callIds_declared.
Qed.

(** A request that is not under pressure, and one that was fitted, is within the
    budget. *)
Lemma no_pressure_fits ms tools window maxTokens :
  window ≠ 0 → (RequestPressure ms tools window maxTokens).2 = false →
  0 < InputBudget window maxTokens ∧ (EstimatePromptTokens ms tools).1 ≤ InputBudget window maxTokens.
Proof.
  intros Hw. unfold RequestPressure. rewrite (proj2 (Z.eqb_neq _ _) Hw).
  destruct (0 <? InputBudget window maxTokens) eqn:E1; cbn [andb]; [|done].
  destruct ((EstimatePromptTokens ms tools).1 <? InputBudget window maxTokens) eqn:E2; [|done]. intros _. bool_hyps. lia.
Qed.

Lemma FitToBudget_fits ms tools window maxTokens key out :
  window ≠ 0 → FitToBudget ms tools window maxTokens key = inl out →
  answered out ∧
  0 < InputBudget window maxTokens ∧ (EstimatePromptTokens out tools).1 ≤ InputBudget window maxTokens.
Proof.
  intros Hw. unfold FitToBudget. cbn zeta. unfold EnsureRequestFits. rewrite (proj2 (Z.eqb_neq _ _) Hw).
  case_match eqn:E; [done|]. intros [= <-]. split_and!; [apply repaired_answered|..];
    destruct (EstimatePromptTokens _ _) as [n src]; destruct (_ && _) eqn:Eb; simplify_eq; bool_hyps; done.
Qed.

(** ** Properties of context governance *)

(** C5. Repair: in the copy [PrepareForModel] builds every tool result comes
    after a call with its id; a call with a nonempty id has a result, and no id
    has more results than calls; if the ids of the calls are nonempty and distinct
    there is exactly one result per call.  Every call kept has a name, and the
    transcript that survived the three removals is embedded in the copy in order. *)
Theorem PrepareForModel_legal ms :
  let kept := DropOrphanToolResults (StripMalformedToolCalls (StripPlaceholderAssistantMessages ms)) in
  let out := PrepareForModel ms in
  answered out ∧ namesValid out ∧ kept `sublist_of` out ∧ callIds out = callIds kept ∧
  (NoDup (declaredIds kept) → legal ∅ ∅ out).
Proof.
  cbn zeta. unfold PrepareForModel. set (stripped := StripMalformedToolCalls _).
  split_and!; [apply repaired_answered|..|apply repaired_legal]; rewrite Backfill_backfill.
  - apply (backfill_namesValid _ _ 0 []). rewrite DropOrphan_dropOrphans.
    eapply namesValid_sublist; [apply dropOrphans_sublist|apply StripMalformed_namesValid].
  - apply backfill_sublist.
  - apply (backfill_callIds _ _ 0 []).
Qed.

(** The copy-on-change loops and the index-and-offset insertion compute their
    one-pass definitions: a filter, a per-message rewrite, a scan with the
    declared and answered ids, and an insertion at the end of each tool run. *)
Theorem repairs_equiv ms :
  StripPlaceholderAssistantMessages ms = List.filter (λ m, negb (isPlaceholder m)) ms ∧
  StripMalformedToolCalls ms = flat_map stripMalformedMsg ms ∧
  DropOrphanToolResults ms = dropOrphans ∅ ∅ ms ∧
  BackfillMissingToolResults ms = backfill (missingIn ms) 0 [] ms.
Proof.
  split_and!; [apply StripPlaceholder_filter|apply StripMalformed_flat_map
    |apply DropOrphan_dropOrphans|apply Backfill_backfill].
Qed.

(** A transcript that is already legal and complete is sent unchanged by the
    last two repairs. *)
Theorem legal_complete_unchanged ms :
  legal ∅ ∅ ms → complete ms →
  BackfillMissingToolResults (DropOrphanToolResults ms) = ms.
Proof.
  intros Hl Hc. rewrite DropOrphan_dropOrphans, dropOrphans_id by done.
  unfold BackfillMissingToolResults. rewrite collect_spec. simpl.
  rewrite (right_id_L ∅ (∪)).
  assert (List.filter (λ d, negb (bool_decide (d_id d ∈ fulfilledIds ms))) (allDecls 0 ms) = []) as ->;
    [|done].
  apply filter_none. intros d Hd. rewrite bool_decide_eq_true_2; [done|].
  apply Hc. rewrite <-(allDecls_ids 0 ms). by apply list_elem_of_In, in_map.
Qed.

(** [FindLegalMessageStart] returns the least index from which every tool
    result answers a call declared within the suffix. *)
Theorem FindLegalMessageStart_least ms :
  let s := FindLegalMessageStart ms in
  (s ≤ length ms)%nat ∧ startLegal ∅ (drop s ms) ∧
  ∀ k, (k < s)%nat → ¬ startLegal ∅ (drop k ms).
Proof. apply FindLegalMessageStart_spec. Qed.

(** Trimming keeps every system message, in front and in order, and a suffix
    of the others that starts at a legal boundary; the suffix collected before
    the boundary adjustment fits what the system messages leave of the budget
    unless it is a single message. *)
Theorem SnipHistory_shape ms tools window maxTokens force :
  let system := List.filter (isRole RoleSystem) ms in
  let nonSystem := List.filter (λ m, negb (isRole RoleSystem m)) ms in
  let remaining := Z.max 0 (InputBudget window maxTokens
                     - Z.max (sumTokens system) (EstimatePromptTokens system tools).1) in
  let kept := keepNewest remaining (rev nonSystem) [] 0 in
  SnipHistory ms tools window maxTokens force = ms ∨
  (∃ tail, SnipHistory ms tools window maxTokens force = system ++ tail ∧
     tail `suffix_of` nonSystem ∧ startLegal ∅ tail ∧
     tail = legalHistoryTail kept nonSystem ∧
     kept `suffix_of` nonSystem ∧ kept ≠ [] ∧
     ((length kept ≤ 1)%nat ∨ sumTokens kept ≤ remaining)).
Proof.
  cbn zeta. unfold SnipHistory. destruct (_ || _); [by left|]. destruct (_ <=? 0); [by left|].
  destruct (_ && _); [by left|]. set (ns := List.filter (λ m, negb _) ms).
  destruct (Nat.eqb_spec (length ns) 0); [by left|]. right.
  set (remaining := Z.max 0 _).
  destruct (keepNewest_spec remaining (rev ns) [] 0) as (Hsuf & Hfit & Hne); [done|by left|].
  rewrite rev_involutive, app_nil_r in Hsuf.
  destruct (legalHistoryTail_spec _ _ Hsuf) as [??].
  eexists. split_and!; try done. apply Hne. rewrite app_nil_r.
  intros Hr. apply (f_equal length) in Hr. rewrite length_rev in Hr. done.
Qed.

(** Budget: the budget is never negative and, when positive, is what the
    window leaves after the output reservation and the safety buffer; a request
    that is not under pressure fits; and [FitToBudget] either returns a repaired
    request within a positive budget (or governance is off) or reports the
    measured size, which exceeds the budget or finds none. *)
Theorem FitToBudget_sound ms tools window maxTokens key :
  0 ≤ InputBudget window maxTokens ∧
  (0 < InputBudget window maxTokens →
     InputBudget window maxTokens =
       window - default defaultMaxOutputTokens maxTokens - SnipSafetyBuffer) ∧
  ((RequestPressure ms tools window maxTokens).2 = false →
     EnsureRequestFits ms tools window maxTokens key = None) ∧
  match FitToBudget ms tools window maxTokens key with
  | inl out =>
      complete out ∧ answersDeclared ∅ out ∧
      (window = 0 ∨
       0 < InputBudget window maxTokens ∧
       0 ≤ (EstimatePromptTokens out tools).1 ≤ InputBudget window maxTokens)
  | inr e =>
      window ≠ 0 ∧ e_InputBudget e = InputBudget window maxTokens ∧
      (e_InputBudget e = 0 ∨ e_InputBudget e < e_EstimatedTokens e)
  end.
Proof.
  assert (0 ≤ InputBudget window maxTokens) as Hb0.
  { unfold InputBudget. destruct (window =? 0); [done|]. destruct (_ <=? 0) eqn:E; bool_hyps; lia. }
  split_and!; [done|..].
  - unfold InputBudget. destruct (window =? 0); [done|]. by destruct (_ <=? 0).
  - unfold RequestPressure, EnsureRequestFits. destruct (window =? 0); [done|].
    destruct (EstimatePromptTokens ms tools) as [n src]. simpl.
    destruct (0 <? InputBudget window maxTokens); simpl; [|done].
    destruct (n <? InputBudget window maxTokens) eqn:E; [|done]. bool_hyps.
    by rewrite (proj2 (Z.leb_le _ _)) by lia.
  - unfold FitToBudget. cbn zeta. set (out := BackfillMissingToolResults _).
    assert (complete out) as Hc by apply Backfill_complete.
    assert (answersDeclared ∅ out) as Ha.
    { apply repaired_answers. }
    unfold EnsureRequestFits. destruct (window =? 0) eqn:Ew; bool_hyps; [by auto|].
    pose proof (EstimatePromptTokens_nonneg out tools) as Hnn.
    destruct (EstimatePromptTokens out tools) as [n src] eqn:Ep. simpl in *.
    destruct (0 <? InputBudget window maxTokens) eqn:E1; simpl;
      [destruct (n <=? InputBudget window maxTokens) eqn:E2|]; simpl; bool_hyps;
      rewrite ?Ep; simpl; split_and!; auto; try lia; right; lia.
Qed.

(** A window too small for the output reservation rejects every request: with
    a zero budget and a nonzero window [EnsureRequestFits] fails whatever the
    request is, and reports pressure - although the comment on [InputBudget] says
    that such a budget disables governance. *)
Theorem zero_budget_rejects ms tools window maxTokens key :
  window ≠ 0 → window ≤ default defaultMaxOutputTokens maxTokens + SnipSafetyBuffer →
  (RequestPressure ms tools window maxTokens).2 = true ∧
  EnsureRequestFits ms tools window maxTokens key =
    Some {| e_SessionKey := key; e_EstimatedTokens := (EstimatePromptTokens ms tools).1;
            e_InputBudget := 0; e_Source := (EstimatePromptTokens ms tools).2 |}.
Proof.
  intros Hw Hle. assert (InputBudget window maxTokens = 0) as Hb.
  { unfold InputBudget. rewrite (proj2 (Z.eqb_neq _ _) Hw).
    destruct (_ <=? 0) eqn:E; bool_hyps; lia. }
  unfold RequestPressure, EnsureRequestFits. rewrite (proj2 (Z.eqb_neq _ _) Hw), Hb.
  by destruct (EstimatePromptTokens ms tools).
Qed.
End BudgetFacts.

(** ** Examples *)

Definition demoCall (id name : string) : ToolCall :=
  {| tc_ID := id; tc_Name := name; tc_Arguments := "{}"; tc_ExtraContent := None;
     tc_ProviderSpecificFields := None; tc_FunctionProviderSpecific := None |}.

Definition demoAssistant (text : string) (tcs : list ToolCall) : Message :=
  with_ToolCalls (Some tcs) (NewMessage RoleAssistant text).

Definition demoResult (id : string) : Message :=
  with_tool_result id "ls" (NewMessage RoleTool "ok").

(** An encoder that always raises: every estimate is the byte fallback. *)
#[export] Program Instance byteTokenizer : Tokenizer unit :=
  {| TokenCount := λ _, None; bpeAvailable := false;
     marshalBlock := λ _, None; marshalCalls := λ _, None; marshalTools := λ _, None |}.
Next Obligation. done. Qed.

(** Repair does not reach a fixed point when an id is declared twice: the two
    unanswered declarations each get a filler, so the copy answers the id twice,
    which the repair itself would drop. *)
Theorem duplicate_declaration_answered_twice :
  ∃ ms, ¬ legal ∅ ∅ (PrepareForModel ms) ∧
    PrepareForModel (PrepareForModel ms) ≠ PrepareForModel ms.
Proof.
  exists [demoAssistant "" [demoCall "a" "ls"]; demoAssistant "" [demoCall "a" "ls"]].
  split.
  - intros H. vm_compute in H. destruct H as (_ & _ & _ & _ & _ & H & _). apply H. vm_compute. done.
  - vm_compute. discriminate.
Qed.

(** The limits of the repair: a call without an id stays unanswered, and so does
    the second call of an id that was already answered, whose own result is
    dropped - although the comment of [BackfillMissingToolResults] says that a
    turn declaring a call with no matching result is rejected. *)
Theorem unanswered_calls_remain :
  (∃ ms, PrepareForModel ms = ms ∧ callIds ms = [""] ∧ resultIds ms = []) ∧
  (∃ ms, resultIds ms = ["a"; "a"] ∧ callIds (PrepareForModel ms) = ["a"; "a"] ∧
     resultIds (PrepareForModel ms) = ["a"]).
Proof.
  split.
  - exists [demoAssistant "" [demoCall "" "ls"]]. by vm_compute.
  - exists [demoAssistant "" [demoCall "a" "ls"]; demoResult "a"; demoAssistant "" [demoCall "a" "ls"]; demoResult "a"].
    by vm_compute.
Qed.

(** A placeholder can survive the repair: placeholders are stripped before
    malformed calls, so one whose only calls are malformed is kept with its calls
    removed - a bare placeholder in the copy that is sent. *)
Theorem placeholder_survives :
  ∃ ms, existsb isPlaceholder (PrepareForModel ms) = true.
Proof.
  exists [demoAssistant "[Previous assistant message omitted.]" [demoCall "a" ""]]. by vm_compute.
Qed.

Definition demoInterrupted : list Message :=
  [demoAssistant "aaaaaaaaaaaaaaaaaaaaaaaaaaaa" [demoCall "a" "ls"];
   NewMessage RoleUser "stop"; demoResult "a"].

Lemma demoInterrupted_legal : legal ∅ ∅ demoInterrupted.
Proof. vm_compute. split_and!; done. Qed.

Lemma demoInterrupted_complete : complete demoInterrupted.
Proof.
  intros id Hid. assert (id = "a") as -> by (apply list_elem_of_In in Hid; simpl in Hid; naive_solver).
  by apply (bool_decide_unpack ("a" ∈ fulfilledIds demoInterrupted)).
Qed.

(** Trimming can drop the whole conversation: when the newest tool result
    answers a call declared before the last user message, the boundary adjustment
    skips past the result and nothing is left, although the transcript was legal
    and complete. *)
Theorem snip_can_drop_everything :
  ∃ ms window,
    legal ∅ ∅ ms ∧ complete ms ∧ existsb (isRole RoleUser) ms = true ∧
    SnipHistory (ToolSchema := unit) ms [] window (Some 0) true = [].
Proof.
  exists demoInterrupted, (1024 + 20).
  split_and!; [apply demoInterrupted_legal|apply demoInterrupted_complete|by vm_compute..].
Qed.

(** ** Witnesses *)

Lemma PrepareForModel_legal_witness :
  legal ∅ ∅ (PrepareForModel [demoResult "x"; demoAssistant "" [demoCall "a" "ls"; demoCall "b" ""]]).
Proof.
  apply (PrepareForModel_legal [demoResult "x"; demoAssistant "" [demoCall "a" "ls"; demoCall "b" ""]]).
  vm_compute. repeat constructor. set_solver.
Defined.

Lemma legal_complete_unchanged_witness :
  BackfillMissingToolResults (DropOrphanToolResults demoInterrupted) = demoInterrupted.
Proof.
  apply (legal_complete_unchanged demoInterrupted demoInterrupted_legal demoInterrupted_complete).
Defined.

Lemma zero_budget_rejects_witness :
  (RequestPressure (ToolSchema := unit) [] [] 4096 None).2 = true.
Proof. apply (zero_budget_rejects [] [] 4096 None ""); vm_compute; discriminate. Defined.
