(* ===== verification/Bus.v ===== *)
(** * The message bus (src/internal/bus/bus.go)

    The bus is two FIFO queues guarded by one mutex, a broadcast channel that
    wakes blocked consumers, and an ordered list of event subscribers.  Every
    operation below is one critical section of the code.  The broadcast channel
    is a generation number: [broadcastLocked] closes the current channel and
    replaces it, so a consumer that captured generation [w] can be woken by the
    channel exactly when [w] is older than the current one.  A blocking
    [Consume*] call is a consumer automaton that alternates between its locked
    poll and its [select]; [step] interleaves any number of them with the other
    operations. *)

From S2P Require Import Prelude.

Section Bus.
Context {InboundMessage OutboundMessage Event EventHandler : Type}.

(** [ctx.Err()]. *)
Inductive CtxErr := Canceled | DeadlineExceeded.

Inductive BusErr := ErrClosed | ErrFull | ErrCtx (e : CtxErr).

Record Options := { MaxInbound : Z; MaxOutbound : Z }.

Record subscription := { active : bool; handler : EventHandler }.

(** [subs] is the heap of subscriptions ([*subscription] pointers are its
    indices, allocated in order and never freed) and [handlers] the list of
    pointers the bus holds. *)
Record Bus := mkBus {
  inbound : list InboundMessage;
  outbound : list OutboundMessage;
  wait : nat;
  closed : bool;
  maxInbound : Z;
  maxOutbound : Z;
  subs : list subscription;
  handlers : list nat;
  consumers : Z;
  consumeStarts : Z
}.

Definition New (opts : Options) : Bus :=
  {| inbound := []; outbound := []; wait := 0; closed := false;
     maxInbound := MaxInbound opts; maxOutbound := MaxOutbound opts;
     subs := []; handlers := []; consumers := 0; consumeStarts := 0 |}.

(** Field assignments. *)
Definition set_inbound (q : list InboundMessage) (b : Bus) : Bus :=
  mkBus q (outbound b) (wait b) (closed b) (maxInbound b) (maxOutbound b)
    (subs b) (handlers b) (consumers b) (consumeStarts b).
Definition set_outbound (q : list OutboundMessage) (b : Bus) : Bus :=
  mkBus (inbound b) q (wait b) (closed b) (maxInbound b) (maxOutbound b)
    (subs b) (handlers b) (consumers b) (consumeStarts b).
Definition set_subs (ss : list subscription) (hs : list nat) (b : Bus) : Bus :=
  mkBus (inbound b) (outbound b) (wait b) (closed b) (maxInbound b) (maxOutbound b)
    ss hs (consumers b) (consumeStarts b).
Definition set_counters (c st : Z) (b : Bus) : Bus :=
  mkBus (inbound b) (outbound b) (wait b) (closed b) (maxInbound b) (maxOutbound b)
    (subs b) (handlers b) c st.
Definition set_closed (b : Bus) : Bus :=
  mkBus (inbound b) (outbound b) (wait b) true (maxInbound b) (maxOutbound b)
    (subs b) [] (consumers b) (consumeStarts b).

Definition broadcastLocked (b : Bus) : Bus :=
  mkBus (inbound b) (outbound b) (S (wait b)) (closed b) (maxInbound b) (maxOutbound b)
    (subs b) (handlers b) (consumers b) (consumeStarts b).

(** ** Inbound *)

Definition PublishInbound (ctx : option CtxErr) (msg : InboundMessage) (b : Bus)
    : Bus * option BusErr :=
  if closed b then (b, Some ErrClosed)
  else match ctx with
  | Some e => (b, Some (ErrCtx e))
  | None =>
      if (0 <? maxInbound b) && (maxInbound b <=? Z.of_nat (length (inbound b)))
      then (b, Some ErrFull)
      else (broadcastLocked (set_inbound (inbound b ++ [msg]) b), None)
  end.

(** What one locked poll of a consume loop decides. *)
Inductive poll (A : Type) :=
  | PollMsg (m : A)
  | PollClosed
  | PollWait (w : nat).
#[global] Arguments PollMsg {A}.
#[global] Arguments PollClosed {A}.
#[global] Arguments PollWait {A}.

Definition ConsumeInbound_enter (b : Bus) : Bus :=
  set_counters (consumers b + 1) (consumeStarts b + 1) b.

Definition ConsumeInbound_leave (b : Bus) : Bus :=
  set_counters (consumers b - 1) (consumeStarts b) b.

Definition ConsumeInbound_poll (b : Bus) : Bus * poll InboundMessage :=
  match inbound b with
  | msg :: rest => (set_inbound rest b, PollMsg msg)
  | [] => if closed b then (b, PollClosed) else (b, PollWait (wait b))
  end.

Definition InboundSize (b : Bus) : Z := Z.of_nat (length (inbound b)).

Definition HasConsumer (b : Bus) : bool := 0 <? consumeStarts b.

Definition ConsumerCount (b : Bus) : Z := consumers b.

(** ** Outbound *)

Definition PublishOutbound (ctx : option CtxErr) (msg : OutboundMessage) (b : Bus)
    : Bus * option BusErr :=
  if closed b then (b, Some ErrClosed)
  else match ctx with
  | Some e => (b, Some (ErrCtx e))
  | None =>
      if (0 <? maxOutbound b) && (maxOutbound b <=? Z.of_nat (length (outbound b)))
      then (b, Some ErrFull)
      else (broadcastLocked (set_outbound (outbound b ++ [msg]) b), None)
  end.

Definition ConsumeOutbound_poll (b : Bus) : Bus * poll OutboundMessage :=
  match outbound b with
  | msg :: rest => (set_outbound rest b, PollMsg msg)
  | [] => if closed b then (b, PollClosed) else (b, PollWait (wait b))
  end.

Definition TryConsumeOutbound (b : Bus) : Bus * option OutboundMessage :=
  match outbound b with
  | [] => (b, None)
  | msg :: rest => (set_outbound rest b, Some msg)
  end.

Definition OutboundSize (b : Bus) : Z := Z.of_nat (length (outbound b)).

(** ** Local event dispatch *)

(** [Subscribe] returns the pointer that the unsubscribe closure captures. *)
Definition Subscribe (h : EventHandler) (b : Bus) : Bus * nat :=
  let sub := length (subs b) in
  (set_subs (subs b ++ [{| active := true; handler := h |}]) (handlers b ++ [sub]) b, sub).

(** The loop that removes the first pointer equal to [sub]. *)
Fixpoint remove_first (sub : nat) (hs : list nat) : list nat :=
  match hs with
  | [] => []
  | h :: rest => if Nat.eqb h sub then rest else h :: remove_first sub rest
  end.

Definition deactivate (s : subscription) : subscription :=
  {| active := false; handler := handler s |}.

(** The body of the unsubscribe closure.  [once.Do] makes later calls do
    nothing; the body is idempotent by itself ([unsubscribe_idempotent]). *)
Definition unsubscribe (sub : nat) (b : Bus) : Bus :=
  set_subs (alter deactivate sub (subs b)) (remove_first sub (handlers b)) b.

(** A handler is outside this package: it may run any operation of the bus and
    may panic ([true]); [recover] contains the panic, the state stays. *)
Variable call : EventHandler → Event → Bus → Bus * bool.

(** The dispatch loop over the snapshot; the second component lists the
    subscriptions that were called. *)
Fixpoint Publish_loop (event : Event) (snapshot : list nat) (b : Bus) : Bus * list nat :=
  match snapshot with
  | [] => (b, [])
  | sub :: rest =>
      match subs b !! sub with
      | Some s =>
          if active s then
            let '(b', _) := call (handler s) event b in
            let '(b'', called) := Publish_loop event rest b' in
            (b'', sub :: called)
          else Publish_loop event rest b
      | None => Publish_loop event rest b
      end
  end.

Definition Publish (event : Event) (b : Bus) : Bus * list nat :=
  Publish_loop event (handlers b) b.

Definition Close (b : Bus) : Bus :=
  if closed b then b else broadcastLocked (set_closed b).

Definition Closed (b : Bus) : bool := closed b.

(** ** Interleavings *)

(** A consumer automaton: about to poll, or blocked in [select] on the
    generation it captured. *)
Inductive consumer := CLoop | CSelect (w : nat).

(** The bus with its blocked consumers.  [accepted*] and [delivered*] are the
    history of successful publishes and of messages handed out. *)
Record Sys := mkSys {
  bus : Bus;
  inC : gmap nat consumer;
  outC : gmap nat consumer;
  accepted : list InboundMessage;
  delivered : list InboundMessage;
  acceptedOut : list OutboundMessage;
  deliveredOut : list OutboundMessage
}.

Inductive label :=
  | LPublishIn (ctx : option CtxErr) (m : InboundMessage) (r : option BusErr)
  | LPublishOut (ctx : option CtxErr) (m : OutboundMessage) (r : option BusErr)
  | LEnterIn (t : nat) | LPollIn (t : nat) | LWakeIn (t : nat) | LCtxIn (t : nat)
  | LEnterOut (t : nat) | LPollOut (t : nat) | LWakeOut (t : nat) | LCtxOut (t : nat)
  | LTryOut | LSubscribe (h : EventHandler) | LUnsubscribe (s : nat) | LClose.

Inductive step : Sys → label → Sys → Prop :=
  | step_publish_in b ic oc ac dl aco dlo ctx m b' r :
      PublishInbound ctx m b = (b', r) →
      step (mkSys b ic oc ac dl aco dlo) (LPublishIn ctx m r)
           (mkSys b' ic oc (if r is Some _ then ac else ac ++ [m]) dl aco dlo)
  | step_publish_out b ic oc ac dl aco dlo ctx m b' r :
      PublishOutbound ctx m b = (b', r) →
      step (mkSys b ic oc ac dl aco dlo) (LPublishOut ctx m r)
           (mkSys b' ic oc ac dl (if r is Some _ then aco else aco ++ [m]) dlo)
  | step_enter_in b ic oc ac dl aco dlo t :
      ic !! t = None →
      step (mkSys b ic oc ac dl aco dlo) (LEnterIn t)
           (mkSys (ConsumeInbound_enter b) (<[t := CLoop]> ic) oc ac dl aco dlo)
  | step_poll_in_msg b ic oc ac dl aco dlo t b' m :
      ic !! t = Some CLoop →
      ConsumeInbound_poll b = (b', PollMsg m) →
      step (mkSys b ic oc ac dl aco dlo) (LPollIn t)
           (mkSys (ConsumeInbound_leave b') (delete t ic) oc ac (dl ++ [m]) aco dlo)
  | step_poll_in_closed b ic oc ac dl aco dlo t b' :
      ic !! t = Some CLoop →
      ConsumeInbound_poll b = (b', PollClosed) →
      step (mkSys b ic oc ac dl aco dlo) (LPollIn t)
           (mkSys (ConsumeInbound_leave b') (delete t ic) oc ac dl aco dlo)
  | step_poll_in_wait b ic oc ac dl aco dlo t b' w :
      ic !! t = Some CLoop →
      ConsumeInbound_poll b = (b', PollWait w) →
      step (mkSys b ic oc ac dl aco dlo) (LPollIn t)
           (mkSys b' (<[t := CSelect w]> ic) oc ac dl aco dlo)
  | step_wake_in b ic oc ac dl aco dlo t w :
      ic !! t = Some (CSelect w) → (w < wait b)%nat →
      step (mkSys b ic oc ac dl aco dlo) (LWakeIn t)
           (mkSys b (<[t := CLoop]> ic) oc ac dl aco dlo)
  | step_ctx_in b ic oc ac dl aco dlo t w :
      ic !! t = Some (CSelect w) →
      step (mkSys b ic oc ac dl aco dlo) (LCtxIn t)
           (mkSys (ConsumeInbound_leave b) (delete t ic) oc ac dl aco dlo)
  | step_enter_out b ic oc ac dl aco dlo t :
      oc !! t = None →
      step (mkSys b ic oc ac dl aco dlo) (LEnterOut t)
           (mkSys b ic (<[t := CLoop]> oc) ac dl aco dlo)
  | step_poll_out_msg b ic oc ac dl aco dlo t b' m :
      oc !! t = Some CLoop →
      ConsumeOutbound_poll b = (b', PollMsg m) →
      step (mkSys b ic oc ac dl aco dlo) (LPollOut t)
           (mkSys b' ic (delete t oc) ac dl aco (dlo ++ [m]))
  | step_poll_out_closed b ic oc ac dl aco dlo t b' :
      oc !! t = Some CLoop →
      ConsumeOutbound_poll b = (b', PollClosed) →
      step (mkSys b ic oc ac dl aco dlo) (LPollOut t)
           (mkSys b' ic (delete t oc) ac dl aco dlo)
  | step_poll_out_wait b ic oc ac dl aco dlo t b' w :
      oc !! t = Some CLoop →
      ConsumeOutbound_poll b = (b', PollWait w) →
      step (mkSys b ic oc ac dl aco dlo) (LPollOut t)
           (mkSys b' ic (<[t := CSelect w]> oc) ac dl aco dlo)
  | step_wake_out b ic oc ac dl aco dlo t w :
      oc !! t = Some (CSelect w) → (w < wait b)%nat →
      step (mkSys b ic oc ac dl aco dlo) (LWakeOut t)
           (mkSys b ic (<[t := CLoop]> oc) ac dl aco dlo)
  | step_ctx_out b ic oc ac dl aco dlo t w :
      oc !! t = Some (CSelect w) →
      step (mkSys b ic oc ac dl aco dlo) (LCtxOut t)
           (mkSys b ic (delete t oc) ac dl aco dlo)
  | step_try_out b ic oc ac dl aco dlo b' r :
      TryConsumeOutbound b = (b', r) →
      step (mkSys b ic oc ac dl aco dlo) LTryOut
           (mkSys b' ic oc ac dl aco (if r is Some m then dlo ++ [m] else dlo))
  | step_subscribe b ic oc ac dl aco dlo h :
      step (mkSys b ic oc ac dl aco dlo) (LSubscribe h)
           (mkSys (Subscribe h b).1 ic oc ac dl aco dlo)
  | step_unsubscribe b ic oc ac dl aco dlo s :
      step (mkSys b ic oc ac dl aco dlo) (LUnsubscribe s)
           (mkSys (unsubscribe s b) ic oc ac dl aco dlo)
  | step_close b ic oc ac dl aco dlo :
      step (mkSys b ic oc ac dl aco dlo) LClose
           (mkSys (Close b) ic oc ac dl aco dlo).

Definition initial (opts : Options) (s : Sys) : Prop :=
  s = mkSys (New opts) ∅ ∅ [] [] [] [].

(** ** One-call behaviour *)

(** What [PublishInbound] may do, by outcome. *)
Lemma PublishInbound_cases ctx m b b' r :
  PublishInbound ctx m b = (b', r) →
  (r = Some ErrClosed ∧ closed b = true ∧ b' = b) ∨
  (∃ e, r = Some (ErrCtx e) ∧ closed b = false ∧ ctx = Some e ∧ b' = b) ∨
  (r = Some ErrFull ∧ closed b = false ∧ ctx = None ∧ b' = b ∧
     0 < maxInbound b ≤ Z.of_nat (length (inbound b))) ∨
  (r = None ∧ closed b = false ∧ ctx = None ∧
     (maxInbound b ≤ 0 ∨ Z.of_nat (length (inbound b)) < maxInbound b) ∧
     b' = broadcastLocked (set_inbound (inbound b ++ [m]) b)).
Proof.
  unfold PublishInbound. intros H.
  destruct (closed b); [naive_solver|]. destruct ctx; [naive_solver|].
  destruct (0 <? maxInbound b) eqn:E1; simpl in H;
    [destruct (_ <=? _) eqn:E2|]; simplify_eq; bool_hyps; naive_solver lia.
Qed.

Lemma PublishOutbound_cases ctx m b b' r :
  PublishOutbound ctx m b = (b', r) →
  (r = Some ErrClosed ∧ closed b = true ∧ b' = b) ∨
  (∃ e, r = Some (ErrCtx e) ∧ closed b = false ∧ ctx = Some e ∧ b' = b) ∨
  (r = Some ErrFull ∧ closed b = false ∧ ctx = None ∧ b' = b ∧
     0 < maxOutbound b ≤ Z.of_nat (length (outbound b))) ∨
  (r = None ∧ closed b = false ∧ ctx = None ∧
     (maxOutbound b ≤ 0 ∨ Z.of_nat (length (outbound b)) < maxOutbound b) ∧
     b' = broadcastLocked (set_outbound (outbound b ++ [m]) b)).
Proof.
  unfold PublishOutbound. intros H.
  destruct (closed b); [naive_solver|]. destruct ctx; [naive_solver|].
  destruct (0 <? maxOutbound b) eqn:E1; simpl in H;
    [destruct (_ <=? _) eqn:E2|]; simplify_eq; bool_hyps; naive_solver lia.
Qed.

Lemma ConsumeInbound_poll_cases b b' p :
  ConsumeInbound_poll b = (b', p) →
  (∃ m rest, inbound b = m :: rest ∧ b' = set_inbound rest b ∧ p = PollMsg m) ∨
  (inbound b = [] ∧ closed b = true ∧ b' = b ∧ p = PollClosed) ∨
  (inbound b = [] ∧ closed b = false ∧ b' = b ∧ p = PollWait (wait b)).
Proof.
  unfold ConsumeInbound_poll. destruct (inbound b) eqn:?; [destruct (closed b) eqn:?|];
    intros; simplify_eq; naive_solver.
Qed.

Lemma ConsumeOutbound_poll_cases b b' p :
  ConsumeOutbound_poll b = (b', p) →
  (∃ m rest, outbound b = m :: rest ∧ b' = set_outbound rest b ∧ p = PollMsg m) ∨
  (outbound b = [] ∧ closed b = true ∧ b' = b ∧ p = PollClosed) ∨
  (outbound b = [] ∧ closed b = false ∧ b' = b ∧ p = PollWait (wait b)).
Proof.
  unfold ConsumeOutbound_poll. destruct (outbound b) eqn:?; [destruct (closed b) eqn:?|];
    intros; simplify_eq; naive_solver.
Qed.

(** ** The system invariant *)

(** Blocked consumers hold a generation that is not from the future, and one that
    still holds the current generation has nothing to take. *)
Definition no_lost_wakeup {A} (cs : gmap nat consumer) (w : nat) (cl : bool) (q : list A) : Prop :=
  ∀ t g, cs !! t = Some (CSelect g) → (g ≤ w)%nat ∧ (g = w → q = [] ∧ cl = false).

Definition bounded {A} (lim : Z) (q : list A) : Prop := 0 < lim → Z.of_nat (length q) ≤ lim.

Record Inv (opts : Options) (s : Sys) : Prop := {
  inv_max_in : maxInbound (bus s) = MaxInbound opts;
  inv_max_out : maxOutbound (bus s) = MaxOutbound opts;
  inv_in : no_lost_wakeup (inC s) (wait (bus s)) (closed (bus s)) (inbound (bus s));
  inv_out : no_lost_wakeup (outC s) (wait (bus s)) (closed (bus s)) (outbound (bus s));
  inv_fifo_in : accepted s = delivered s ++ inbound (bus s);
  inv_fifo_out : acceptedOut s = deliveredOut s ++ outbound (bus s);
  inv_cap_in : bounded (MaxInbound opts) (inbound (bus s));
  inv_cap_out : bounded (MaxOutbound opts) (outbound (bus s));
  inv_consumers : consumers (bus s) = Z.of_nat (size (inC s));
  inv_starts : consumers (bus s) ≤ consumeStarts (bus s)
}.

Lemma no_lost_wakeup_bump {A} cs w cl (q : list A) w' cl' (q' : list A) :
  no_lost_wakeup cs w cl q → (w < w')%nat → no_lost_wakeup cs w' cl' q'.
Proof. intros H Hw t g Hg. destruct (H t g Hg). split; [lia|]. intros ->. lia. Qed.

Lemma no_lost_wakeup_delete {A} cs w cl (q : list A) t :
  no_lost_wakeup cs w cl q → no_lost_wakeup (delete t cs) w cl q.
Proof. intros H t' g Hg. apply lookup_delete_Some in Hg as [??]. eauto. Qed.

Lemma no_lost_wakeup_loop {A} cs w cl (q : list A) t :
  no_lost_wakeup cs w cl q → no_lost_wakeup (<[t := CLoop]> cs) w cl q.
Proof. intros H t' g Hg. apply lookup_insert_Some in Hg as [[??]|[??]]; [done|eauto]. Qed.

Lemma no_lost_wakeup_select {A} cs w t :
  no_lost_wakeup cs w false (@nil A) → no_lost_wakeup (<[t := CSelect w]> cs) w false (@nil A).
Proof.
  intros H t' g Hg. apply lookup_insert_Some in Hg as [[? [=]]|[??]]; subst; eauto.
Qed.

(** Taking the head off a queue cannot strand a consumer. *)
Lemma no_lost_wakeup_tail {A} cs w cl (m : A) q :
  no_lost_wakeup cs w cl (m :: q) → no_lost_wakeup cs w cl q.
Proof. intros H t g Hg. destruct (H t g Hg) as [? Hq]. split; [done|]. intros ->. by destruct Hq. Qed.

Lemma bounded_snoc {A} lim (q : list A) m :
  lim ≤ 0 ∨ Z.of_nat (length q) < lim → bounded lim (q ++ [m]).
Proof. unfold bounded. rewrite length_app. simpl. lia. Qed.

Lemma bounded_tail {A} lim (q : list A) m : bounded lim (m :: q) → bounded lim q.
Proof. unfold bounded. simpl. lia. Qed.

Create HintDb bus.
#[local] Hint Resolve no_lost_wakeup_delete no_lost_wakeup_loop no_lost_wakeup_select
  no_lost_wakeup_tail bounded_snoc bounded_tail : bus.
#[local] Hint Extern 1 (no_lost_wakeup _ (S _) _ _) =>
  eapply no_lost_wakeup_bump; [eassumption|simpl; lia] : bus.

Lemma size_delete_loop (cs : gmap nat consumer) t c :
  cs !! t = Some c → Z.of_nat (size (delete t cs)) = Z.of_nat (size cs) - 1.
Proof.
  intros H.
  pose proof (map_size_insert_None t c (delete t cs) (lookup_delete_eq cs t)) as Hs.
  rewrite insert_delete_id in Hs by done. lia.
Qed.

Lemma size_insert_same (cs : gmap nat consumer) t c c' :
  cs !! t = Some c → size (<[t := c']> cs) = size cs.
Proof. intros H. apply map_size_insert_Some. eauto. Qed.

Lemma initial_Inv opts s : initial opts s → Inv opts s.
Proof.
  intros ->. split; simpl; try done; try (intros ?; simpl; lia);
    intros t g Hg; by rewrite lookup_empty in Hg.
Qed.

(** Each kind of transition preserves the invariant. *)
Ltac inv_step :=
  split; simpl in *; eauto with bus;
  try (erewrite size_delete_loop by eassumption);
  try (erewrite size_insert_same by eassumption);
  try (erewrite map_size_insert_None by eassumption);
  try congruence; try lia; eauto with bus.

Lemma publish_in_Inv opts b ic oc ac dl aco dlo ctx m b' r :
  Inv opts (mkSys b ic oc ac dl aco dlo) → PublishInbound ctx m b = (b', r) →
  Inv opts (mkSys b' ic oc (if r is Some _ then ac else ac ++ [m]) dl aco dlo).
Proof.
  intros [] H. apply PublishInbound_cases in H as
    [(->&?&->)|[(e&->&?&?&->)|[(->&?&?&->&?)|(->&?&?&?&->)]]]; simpl in *; [by split..|].
  inv_step.
  - subst. by rewrite app_assoc.
  - apply bounded_snoc. by rewrite <-inv_max_in0.
Qed.

Lemma publish_out_Inv opts b ic oc ac dl aco dlo ctx m b' r :
  Inv opts (mkSys b ic oc ac dl aco dlo) → PublishOutbound ctx m b = (b', r) →
  Inv opts (mkSys b' ic oc ac dl (if r is Some _ then aco else aco ++ [m]) dlo).
Proof.
  intros [] H. apply PublishOutbound_cases in H as
    [(->&?&->)|[(e&->&?&?&->)|[(->&?&?&->&?)|(->&?&?&?&->)]]]; simpl in *; [by split..|].
  inv_step.
  - subst. by rewrite app_assoc.
  - apply bounded_snoc. by rewrite <-inv_max_out0.
Qed.

Lemma close_Inv opts b ic oc ac dl aco dlo :
  Inv opts (mkSys b ic oc ac dl aco dlo) → Inv opts (mkSys (Close b) ic oc ac dl aco dlo).
Proof. intros []. unfold Close. destruct (closed b) eqn:E; [by split|]. inv_step. Qed.

Lemma step_Inv opts s l s' : Inv opts s → step s l s' → Inv opts s'.
Proof.
  intros HI Hst. destruct Hst; eauto using publish_in_Inv, publish_out_Inv, close_Inv;
    destruct HI; try by inv_step.
  - apply ConsumeInbound_poll_cases in H0 as [(m'&q&Hq&->&[=])|[(?&?&?&?)|(?&?&?&?)]]; [|done..].
    subst m'. simpl in *. rewrite Hq in *. inv_step. subst. by rewrite <-app_assoc.
  - apply ConsumeInbound_poll_cases in H0 as [(?&?&?&?&?)|[(Hq&?&->&?)|(?&?&?&?)]]; [done| |done].
    by inv_step.
  - apply ConsumeInbound_poll_cases in H0 as [(?&?&?&?&?)|[(?&?&?&?)|(Hq&Hc&->&[=])]]; [done..|].
    subst w. simpl in *. inv_step. rewrite Hq, Hc in *. eauto with bus.
  - apply ConsumeOutbound_poll_cases in H0 as [(m'&q&Hq&->&[=])|[(?&?&?&?)|(?&?&?&?)]]; [|done..].
    subst m'. simpl in *. rewrite Hq in *. inv_step. subst. by rewrite <-app_assoc.
  - apply ConsumeOutbound_poll_cases in H0 as [(?&?&?&?&?)|[(Hq&?&->&?)|(?&?&?&?)]]; [done| |done].
    by inv_step.
  - apply ConsumeOutbound_poll_cases in H0 as [(?&?&?&?&?)|[(?&?&?&?)|(Hq&Hc&->&[=])]]; [done..|].
    subst w. simpl in *. inv_step. rewrite Hq, Hc in *. eauto with bus.
  - unfold TryConsumeOutbound in H. simpl in *.
    destruct (outbound b) as [|m q] eqn:Hq; simplify_eq/=; [by inv_step; rewrite Hq|].
    inv_step. subst. by rewrite <-app_assoc.
Qed.

Lemma reachable_Inv opts s : reachable step (initial opts) s → Inv opts s.
Proof. apply reachable_invariant; eauto using initial_Inv, step_Inv. Qed.

(** ** Subscriptions *)

(** The pointers the bus holds are distinct and allocated. *)
Definition wf_subs (b : Bus) : Prop :=
  NoDup (handlers b) ∧ Forall (λ h, (h < length (subs b))%nat) (handlers b).

(** Everything a handler can do to the bus. *)
Inductive bus_op : Bus → Bus → Prop :=
  | op_pub_in ctx m b : bus_op b (PublishInbound ctx m b).1
  | op_pub_out ctx m b : bus_op b (PublishOutbound ctx m b).1
  | op_poll_in b : bus_op b (ConsumeInbound_poll b).1
  | op_poll_out b : bus_op b (ConsumeOutbound_poll b).1
  | op_enter b : bus_op b (ConsumeInbound_enter b)
  | op_leave b : bus_op b (ConsumeInbound_leave b)
  | op_try b : bus_op b (TryConsumeOutbound b).1
  | op_subscribe h b : bus_op b (Subscribe h b).1
  | op_unsubscribe s b : bus_op b (unsubscribe s b)
  | op_close b : bus_op b (Close b).

Definition inactive (sub : nat) (b : Bus) : Prop :=
  ∃ s, subs b !! sub = Some s ∧ active s = false.

Lemma remove_first_sublist sub hs : remove_first sub hs `sublist_of` hs.
Proof.
  induction hs as [|h hs IH]; simpl; [constructor|].
  destruct (Nat.eqb h sub); [by apply sublist_cons|by apply sublist_skip].
Qed.

(** Publishing and consuming do not touch the subscriptions. *)
Lemma PublishInbound_subs ctx m b :
  subs (PublishInbound ctx m b).1 = subs b ∧ handlers (PublishInbound ctx m b).1 = handlers b.
Proof. unfold PublishInbound. destruct (closed b), ctx; simpl; try done. by destruct (_ && _). Qed.

Lemma PublishOutbound_subs ctx m b :
  subs (PublishOutbound ctx m b).1 = subs b ∧ handlers (PublishOutbound ctx m b).1 = handlers b.
Proof. unfold PublishOutbound. destruct (closed b), ctx; simpl; try done. by destruct (_ && _). Qed.

Lemma polls_subs b :
  (subs (ConsumeInbound_poll b).1 = subs b ∧ handlers (ConsumeInbound_poll b).1 = handlers b) ∧
  (subs (ConsumeOutbound_poll b).1 = subs b ∧ handlers (ConsumeOutbound_poll b).1 = handlers b) ∧
  (subs (TryConsumeOutbound b).1 = subs b ∧ handlers (TryConsumeOutbound b).1 = handlers b).
Proof.
  unfold ConsumeInbound_poll, ConsumeOutbound_poll, TryConsumeOutbound.
  destruct (inbound b), (outbound b), (closed b); done.
Qed.

(** Each operation leaves the subscriptions alone, appends a fresh one, or
    deactivates one. *)
Lemma bus_op_subs b b' :
  bus_op b b' →
  (subs b' = subs b ∧ (handlers b' = handlers b ∨ handlers b' = [])) ∨
  (∃ h, b' = (Subscribe h b).1) ∨ (∃ s, b' = unsubscribe s b).
Proof.
  intros Hop. destruct Hop; eauto; left.
  1: destruct (PublishInbound_subs ctx m b); auto.
  1: destruct (PublishOutbound_subs ctx m b); auto.
  all: pose proof (polls_subs b) as ([]&[]&[]); auto.
  unfold Close. destruct (closed b); auto.
Qed.

Lemma bus_op_inactive b b' sub : bus_op b b' → inactive sub b → inactive sub b'.
Proof.
  intros Hop (s&Hs&Ha). apply bus_op_subs in Hop as [[Heq _]|[[h ->]|[s' ->]]]; unfold inactive; simpl.
  - rewrite Heq. eauto.
  - exists s. split; [|done]. by apply lookup_app_l_Some.
  - rewrite list_lookup_alter. destruct (decide (s' = sub)) as [->|]; rewrite Hs; simpl; eauto.
Qed.

Lemma bus_op_wf_subs b b' : bus_op b b' → wf_subs b → wf_subs b'.
Proof.
  intros Hop [Hnd Hlt]. apply bus_op_subs in Hop as [[Hs [Hh|Hh]]|[[h ->]|[s' ->]]];
    unfold wf_subs; rewrite ?Hs, ?Hh; simpl; auto using NoDup_nil_2.
  - rewrite NoDup_app, length_app. simpl. split_and!.
    + done.
    + intros x Hx [->|[]%not_elem_of_nil]%elem_of_cons. rewrite Forall_forall in Hlt.
      specialize (Hlt _ Hx). lia.
    + by apply NoDup_singleton.
    + rewrite Forall_app. split; [eapply Forall_impl; [done|]; simpl; lia|].
      constructor; [lia|done].
  - rewrite length_alter. pose proof (remove_first_sublist s' (handlers b)) as Hsub.
    split; [by eapply sublist_NoDup|]. rewrite Forall_forall in *. intros x Hx. apply Hlt.
    by eapply elem_of_sublist.
Qed.

Lemma unsubscribe_idempotent sub b :
  wf_subs b → unsubscribe sub (unsubscribe sub b) = unsubscribe sub b.
Proof.
  intros [Hnd _]. unfold unsubscribe, set_subs. simpl. f_equal.
  - rewrite list_alter_alter_eq. done.
  - induction Hnd as [|h hs Hin Hnd IH]; simpl; [done|].
    destruct (Nat.eqb_spec h sub) as [->|Hne].
    + clear IH Hnd. induction hs as [|h hs IH]; simpl; [done|].
      apply not_elem_of_cons in Hin as [? ?]. destruct (Nat.eqb_spec h sub); [congruence|].
      f_equal. auto.
    + simpl. apply Nat.eqb_neq in Hne as ->. by f_equal.
Qed.

(** ** The dispatch loop *)

Section Dispatch.
(** A handler reaches the bus only through its operations. *)
Hypothesis call_ops : ∀ h e b, rtc bus_op b (call h e b).1.

Lemma Publish_loop_app e l1 l2 b :
  Publish_loop e (l1 ++ l2) b =
  let '(b1, c1) := Publish_loop e l1 b in
  let '(b2, c2) := Publish_loop e l2 b1 in (b2, c1 ++ c2).
Proof.
  revert b. induction l1 as [|sub l1 IH]; intros b; simpl.
  - by destruct (Publish_loop e l2 b).
  - destruct (subs b !! sub) as [s|]; [destruct (active s)|]; [|apply IH..].
    destruct (call _ e b) as [b' p]. rewrite IH.
    destruct (Publish_loop e l1 b') as [b1 c1]. by destruct (Publish_loop e l2 b1).
Qed.

Lemma Publish_loop_sublist e l b : (Publish_loop e l b).2 `sublist_of` l.
Proof.
  revert b. induction l as [|sub l IH]; intros b; simpl; [constructor|].
  destruct (subs b !! sub) as [s|]; [destruct (active s)|]; [|by apply sublist_cons..].
  destruct (call _ e b) as [b' p]. specialize (IH b').
  destruct (Publish_loop e l b') as [b1 c1]. by apply sublist_skip.
Qed.

Lemma Publish_loop_ops e l b : rtc bus_op b (Publish_loop e l b).1.
Proof.
  revert b. induction l as [|sub l IH]; intros b; simpl; [done|].
  destruct (subs b !! sub) as [s|]; [destruct (active s)|]; [|apply IH..].
  pose proof (call_ops (handler s) e b) as Hc. destruct (call _ e b) as [b' p].
  specialize (IH b'). destruct (Publish_loop e l b') as [b1 c1]. by etrans.
Qed.

Lemma ops_inactive b b' sub : rtc bus_op b b' → inactive sub b → inactive sub b'.
Proof. induction 1; eauto using bus_op_inactive. Qed.

(** The turn of [sub]: it is called exactly when it is active in the state its
    predecessors left. *)
Lemma Publish_turn e pre sub post b :
  NoDup (pre ++ sub :: post) →
  sub ∈ (Publish_loop e (pre ++ sub :: post) b).2 ↔
  ∃ s, subs (Publish_loop e pre b).1 !! sub = Some s ∧ active s = true.
Proof.
  rewrite Publish_loop_app. intros (_ & Hpre & [Hpost _]%NoDup_cons)%NoDup_app.
  pose proof (Publish_loop_sublist e pre b) as Hs1.
  destruct (Publish_loop e pre b) as [b1 c1]. simpl in *.
  assert (sub ∉ c1) as Hc1.
  { intros Hin. eapply elem_of_sublist in Hin; [|done]. apply (Hpre sub Hin). set_solver. }
  assert (∀ b2, sub ∉ (Publish_loop e post b2).2) as Hc3.
  { intros b2 Hin. eapply elem_of_sublist in Hin; [|apply Publish_loop_sublist]. done. }
  destruct (subs b1 !! sub) as [s|] eqn:Hs; [destruct (active s) eqn:Ha|].
  - destruct (call _ e b1) as [b2 p]. destruct (Publish_loop e post b2) as [b3 c3]. simpl.
    split; [eauto|]. set_solver.
  - specialize (Hc3 b1). destruct (Publish_loop e post b1) as [b3 c3]. simpl in *.
    split; [set_solver|]. intros (s' & [= <-] & ?). congruence.
  - specialize (Hc3 b1). destruct (Publish_loop e post b1) as [b3 c3]. simpl in *.
    split; [set_solver|]. by intros (s' & ? & ?).
Qed.

(** Dispatch: [Publish] calls a sublist of the handlers registered when it
    started, in registration order; a handler is called exactly when it is still
    active once its predecessors have run; and a handler that an earlier handler
    unsubscribed in the same dispatch is not called. *)
Theorem publish_dispatch e b :
  wf_subs b →
  (Publish e b).2 `sublist_of` handlers b ∧
  (∀ pre sub post, handlers b = pre ++ sub :: post →
     sub ∈ (Publish e b).2 ↔
       ∃ s, subs (Publish_loop e pre b).1 !! sub = Some s ∧ active s = true) ∧
  (∀ pre s1 mid s2 post, handlers b = pre ++ s1 :: mid ++ s2 :: post →
     inactive s2 (Publish_loop e (pre ++ [s1]) b).1 → s2 ∉ (Publish e b).2).
Proof.
  intros [Hnd _]. unfold Publish. split_and!; [apply Publish_loop_sublist|..].
  - intros pre sub post Heq. rewrite Heq in Hnd |- *. by apply Publish_turn.
  - intros pre s1 mid s2 post Heq Hin. rewrite Heq in Hnd |- *.
    replace (pre ++ s1 :: mid ++ s2 :: post) with ((pre ++ s1 :: mid) ++ s2 :: post) in *
      by (by rewrite <-app_assoc).
    rewrite Publish_turn by done. intros (s & Hs & Ha).
    replace (pre ++ s1 :: mid) with ((pre ++ [s1]) ++ mid) in Hs by (by rewrite <-app_assoc).
    rewrite Publish_loop_app in Hs. destruct (Publish_loop e (pre ++ [s1]) b) as [b1 c1].
    pose proof (ops_inactive _ _ s2 (Publish_loop_ops e mid b1) Hin) as (s' & Hs' & Ha').
    destruct (Publish_loop e mid b1) as [b2 c2]. simpl in *. congruence.
Qed.
End Dispatch.

(** ** The properties of the bus *)

(** C6. No lost wakeup: in every reachable interleaving, a consumer blocked in
    [ConsumeInbound] while a message is queued or the bus is closed can be woken
    by its channel, and its next poll returns - with the oldest queued message
    if there is one. *)
Theorem consume_no_lost_wakeup opts s t w :
  reachable step (initial opts) s →
  inC s !! t = Some (CSelect w) →
  inbound (bus s) ≠ [] ∨ closed (bus s) = true →
  ∃ s' s'', step s (LWakeIn t) s' ∧ step s' (LPollIn t) s'' ∧ inC s'' !! t = None ∧
    delivered s'' = delivered s ++ take 1 (inbound (bus s)).
Proof.
  intros HI%reachable_Inv Ht Hq. destruct s as [b ic oc ac dl aco dlo].
  destruct (inv_in _ _ HI t w Ht) as [Hle Hw]. simpl in *.
  assert (w < wait b)%nat as Hlt.
  { destruct (decide (w = wait b)) as [->|]; [|lia]. destruct (Hw eq_refl). destruct Hq; congruence. }
  eexists. destruct (inbound b) as [|m q] eqn:Hin.
  - destruct Hq as [?|Hc]; [done|]. eexists. split_and!.
    + by eapply step_wake_in.
    + eapply step_poll_in_closed; [apply lookup_insert_eq|].
      unfold ConsumeInbound_poll. by rewrite Hin, Hc.
    + simpl. apply lookup_delete_eq.
    + simpl. by rewrite app_nil_r.
  - eexists. split_and!.
    + by eapply step_wake_in.
    + eapply step_poll_in_msg; [apply lookup_insert_eq|]. unfold ConsumeInbound_poll. by rewrite Hin.
    + simpl. apply lookup_delete_eq.
    + done.
Qed.

(** C10. Exactly-once FIFO delivery within the bound: in every reachable state the
    messages a queue accepted are the ones handed out, in order, followed by the
    ones still queued, and a positive limit is never exceeded; the consumer
    counter is the number of [ConsumeInbound] calls in flight. *)
Theorem bus_fifo_bounded opts s :
  reachable step (initial opts) s →
  accepted s = delivered s ++ inbound (bus s) ∧
  acceptedOut s = deliveredOut s ++ outbound (bus s) ∧
  (0 < MaxInbound opts → InboundSize (bus s) ≤ MaxInbound opts) ∧
  (0 < MaxOutbound opts → OutboundSize (bus s) ≤ MaxOutbound opts) ∧
  ConsumerCount (bus s) = Z.of_nat (size (inC s)) ∧
  (HasConsumer (bus s) = false → inC s = ∅).
Proof.
  intros HI%reachable_Inv. destruct HI. split_and!; auto.
  unfold HasConsumer. intros Hf. bool_hyps. apply map_size_empty_iff. lia.
Qed.

(** A publish either queues the message and reports success or leaves the bus
    untouched and reports why: a closed bus outranks a done context, which
    outranks a full queue. *)
Theorem publish_accept_or_reject ctx m mo b :
  (∀ b' r, PublishInbound ctx m b = (b', r) →
     (r = None ↔ closed b = false ∧ ctx = None ∧
                 (maxInbound b ≤ 0 ∨ InboundSize b < maxInbound b)) ∧
     (r = None → inbound b' = inbound b ++ [m] ∧ outbound b' = outbound b) ∧
     (r ≠ None → b' = b) ∧
     (closed b = true → r = Some ErrClosed) ∧
     (∀ e, closed b = false → ctx = Some e → r = Some (ErrCtx e))) ∧
  (∀ b' r, PublishOutbound ctx mo b = (b', r) →
     (r = None ↔ closed b = false ∧ ctx = None ∧
                 (maxOutbound b ≤ 0 ∨ OutboundSize b < maxOutbound b)) ∧
     (r = None → outbound b' = outbound b ++ [mo] ∧ inbound b' = inbound b) ∧
     (r ≠ None → b' = b) ∧
     (closed b = true → r = Some ErrClosed) ∧
     (∀ e, closed b = false → ctx = Some e → r = Some (ErrCtx e))).
Proof.
  unfold InboundSize, OutboundSize.
  split; intros b' r H; [apply PublishInbound_cases in H|apply PublishOutbound_cases in H];
    destruct H as [(->&?&->)|[(e&->&?&?&->)|[(->&?&?&->&?)|(->&?&?&?&->)]]];
    split_and!; try done; try congruence; simpl; try tauto;
    split; intros; destruct_and?; try congruence; lia.
Qed.

End Bus.

(** ** Witnesses *)

(** A consumer blocks on an empty bus, then a message arrives. *)
Definition demo_opts : Options := {| MaxInbound := 2; MaxOutbound := 0 |}.

Definition demo_state : @Sys nat nat nat :=
  mkSys (mkBus [42%nat] [] 1 false 2 0 [] [] 1 1) (<[7%nat := CSelect 0]> ∅) ∅ [42%nat] [] [] [].

Lemma demo_reachable : reachable step (initial demo_opts) demo_state.
Proof.
  eapply reachable_step; [eapply reachable_step; [eapply reachable_step|]|].
  - by apply reachable_init.
  - apply (step_enter_in _ _ _ _ _ _ _ 7). apply lookup_empty.
  - eapply step_poll_in_wait; [apply lookup_insert_eq|reflexivity].
  - rewrite insert_insert_eq. apply (step_publish_in (ConsumeInbound_enter (New demo_opts)) _ _ [] [] [] [] None 42%nat _ None).
    reflexivity.
Qed.

Lemma consume_no_lost_wakeup_witness :
  ∃ s' s'', step demo_state (LWakeIn 7) s' ∧ step s' (LPollIn 7) s'' ∧
    inC s'' !! 7%nat = None ∧ delivered s'' = [42%nat].
Proof.
  apply (consume_no_lost_wakeup demo_opts demo_state 7 0 demo_reachable).
  - reflexivity.
  - left. discriminate.
Defined.

Lemma bus_fifo_bounded_witness :
  accepted demo_state = [42%nat] ∧ InboundSize (bus demo_state) ≤ 2.
Proof.
  destruct (bus_fifo_bounded demo_opts demo_state demo_reachable) as (H1 & _ & H2 & _).
  split; [exact H1|apply H2; reflexivity].
Defined.

(** Handler 0 unsubscribes its peer 1; any other handler does nothing but panic. *)
Definition demo_call (h e : nat) (b : @Bus nat nat nat) : @Bus nat nat nat * bool :=
  if Nat.eqb h 0 then (unsubscribe 1 b, false) else (b, true).

Lemma demo_call_ops h e b : rtc bus_op b (demo_call h e b).1.
Proof.
  unfold demo_call. destruct (Nat.eqb h 0); simpl; [|done]. apply rtc_once. constructor.
Qed.

Definition demo_subs : @Bus nat nat nat :=
  (Subscribe 5 (Subscribe 6 (Subscribe 0 (New demo_opts)).1).1).1%nat.

Lemma publish_dispatch_witness :
  ((1 ∉ (Publish demo_call 0 demo_subs).2) ∧ (Publish demo_call 0 demo_subs).2 = [0; 2])%nat.
Proof.
  split; [|reflexivity].
  apply (publish_dispatch demo_call demo_call_ops 0%nat demo_subs) with
    (pre := []) (s1 := 0%nat) (mid := []) (post := [2%nat]).
  - unfold wf_subs. simpl. split; [|repeat constructor; lia].
    by apply (bool_decide_unpack (NoDup [0; 1; 2]%nat)).
  - reflexivity.
  - eexists. split; reflexivity.
Defined.
