(* ===== verification/BitVec.v ===== *)
(** * Fixed-width bit vectors (src/internal/filediff/indel.go, lines 229-329)

    A [bitvec] is a list of 64-bit words, least significant first.  [val] is the
    number it denotes; the operations are related to the operations of [Z] on
    that number, modulo the width where the code discards a carry. *)

From S2P Require Import Prelude.

Abbreviation bitvec := (list Z).

Definition W64 : Z := 2 ^ 64.
Definition wrap64 (z : Z) : Z := z mod W64.

Definition newBitvec (nbits : Z) : bitvec := replicate (Z.to_nat ((nbits + 63) / 64)) 0.

(** [b[i]]; out of range is never reached ([bit_index]). *)
Definition word (b : bitvec) (i : nat) : Z := nth i b 0.

(** [b[bit>>6] |= 1 << uint(bit&63)] *)
Definition set (b : bitvec) (bit : Z) : bitvec :=
  let i := Z.to_nat (Z.shiftr bit 6) in
  <[i := Z.lor (word b i) (Z.shiftl 1 (Z.land bit 63))]> b.

(** [b[bit>>6]&(1<<uint(bit&63)) != 0] *)
Definition test (b : bitvec) (bit : Z) : bool :=
  negb (Z.land (word b (Z.to_nat (Z.shiftr bit 6))) (Z.shiftl 1 (Z.land bit 63)) =? 0).

(** [x &= x - 1] clears the lowest set bit; 64 iterations clear a word. *)
Fixpoint popcount64_loop (fuel : nat) (x n : Z) : Z :=
  match fuel with
  | O => n
  | S fuel => if x =? 0 then n else popcount64_loop fuel (Z.land x (x - 1)) (n + 1)
  end.

Definition popcount64 (x : Z) : Z := popcount64_loop 65 x 0.

Definition popcountBelow (b : bitvec) (nbits : Z) : Z :=
  let full := Z.to_nat (nbits / 64) in
  let n := foldl (λ n w, n + popcount64 w) 0 (take full b) in
  let rem := nbits mod 64 in
  if negb (rem =? 0) && Nat.ltb full (length b)
  then n + popcount64 (Z.land (word b full) (Z.shiftl 1 rem - 1))
  else n.

(** [b == None] is the nil vector of a line that does not occur. *)
Definition andBitvec (a : bitvec) (b : option bitvec) : bitvec :=
  match b with
  | None => replicate (length a) 0
  | Some b => zip_with Z.land a b
  end.

Definition orBitvec (a b : bitvec) : bitvec := zip_with Z.lor a b.

Fixpoint addBitvec_loop (a b : bitvec) (carry : Z) : bitvec :=
  match a, b with
  | x :: a, y :: b =>
      let s := wrap64 (x + y) in
      let c := if s <? x then 1 else 0 in
      let s2 := wrap64 (s + carry) in
      let c := if s2 <? s then 1 else c in
      s2 :: addBitvec_loop a b c
  | _, _ => []
  end.

Definition addBitvec (a b : bitvec) : bitvec := addBitvec_loop a b 0.

Fixpoint subBitvec_loop (a b : bitvec) (borrow : Z) : bitvec :=
  match a, b with
  | x :: a, y :: b =>
      let d := wrap64 (x - y) in
      let bo := if x <? y then 1 else 0 in
      let d2 := wrap64 (d - borrow) in
      let bo := if d <? borrow then 1 else bo in
      d2 :: subBitvec_loop a b bo
  | _, _ => []
  end.

Definition subBitvec (a b : bitvec) : bitvec := subBitvec_loop a b 0.

(** ** Denotation *)

Definition wf (b : bitvec) : Prop := Forall (λ w, 0 ≤ w < W64) b.

Fixpoint val (b : bitvec) : Z :=
  match b with [] => 0 | w :: b => w + W64 * val b end.

Definition width (b : bitvec) : Z := 64 * Z.of_nat (length b).

Lemma width_cons w b : width (w :: b) = 64 + width b.
Proof. unfold width. simpl. lia. Qed.

Lemma width_nonneg b : 0 ≤ width b.
Proof. unfold width. lia. Qed.

Lemma val_range b : wf b → 0 ≤ val b < 2 ^ width b.
Proof.
  induction 1 as [|w b Hw Hb IH]; [by simpl|].
  rewrite width_cons, Z.pow_add_r by (lia || apply width_nonneg).
  change (2 ^ 64) with W64. simpl. nia.
Qed.

(** Bits of a vector, word by word. *)
Lemma val_testbit_cons w b j :
  0 ≤ w < W64 → 0 ≤ j →
  Z.testbit (val (w :: b)) j = if j <? 64 then Z.testbit w j else Z.testbit (val b) (j - 64).
Proof.
  intros Hw Hj. simpl. unfold W64 in *.
  destruct (j <? 64) eqn:E; bool_hyps.
  - rewrite <-(Z.mod_pow2_bits_low (w + 2 ^ 64 * val b) 64 j) by lia.
    rewrite Z.mul_comm, Z_mod_plus_full, Z.mod_small by lia. done.
  - replace j with ((j - 64) + 64) at 1 by lia.
    rewrite <-Z.div_pow2_bits by lia.
    rewrite Z.mul_comm, Z.div_add by lia. rewrite Z.div_small by lia. done.
Qed.

Lemma shiftr6 bit : Z.shiftr bit 6 = bit / 64.
Proof. by rewrite Z.shiftr_div_pow2. Qed.

Lemma land63 bit : Z.land bit 63 = bit mod 64.
Proof. change 63 with (Z.ones 6). by rewrite Z.land_ones by lia. Qed.

Lemma test_bit_word w k : 0 ≤ k → negb (Z.land w (Z.shiftl 1 k) =? 0) = Z.testbit w k.
Proof.
  intros Hk. rewrite Z.shiftl_1_l. destruct (Z.testbit w k) eqn:E.
  - apply negb_true_iff, Z.eqb_neq. intros H.
    apply (f_equal (λ z, Z.testbit z k)) in H. rewrite Z.land_spec, E, Z.pow2_bits_true in H by lia.
    by rewrite Z.bits_0 in H.
  - apply negb_false_iff, Z.eqb_eq. apply Z.bits_inj'. intros n Hn.
    rewrite Z.land_spec, Z.pow2_bits_eqb, Z.bits_0 by lia.
    destruct (Z.eqb_spec k n) as [->|]; [by rewrite E|by rewrite andb_false_r].
Qed.

Lemma val_testbit b j :
  wf b → 0 ≤ j → Z.testbit (val b) j = Z.testbit (word b (Z.to_nat (j / 64))) (j mod 64).
Proof.
  intros Hb. revert j. induction Hb as [|w b Hw Hb IH]; intros j Hj.
  { simpl. unfold word. destruct (Z.to_nat _); by rewrite !Z.bits_0. }
  rewrite val_testbit_cons by done. destruct (j <? 64) eqn:E; bool_hyps.
  - by rewrite Z.div_small, Z.mod_small by lia.
  - rewrite IH by lia.
    replace j with ((j - 64) + 1 * 64) at 3 4 by lia.
    rewrite Z.div_add, Z_mod_plus_full by lia.
    assert (0 ≤ (j - 64) / 64) by (apply Z.div_pos; lia).
    replace (Z.to_nat ((j - 64) / 64 + 1)) with (S (Z.to_nat ((j - 64) / 64))) by lia. done.
Qed.

(** [test] reads a bit of the number. *)
Lemma test_val b j : wf b → 0 ≤ j → test b j = Z.testbit (val b) j.
Proof.
  intros Hb Hj. unfold test. rewrite shiftr6, land63, val_testbit by done.
  apply test_bit_word. apply Z.mod_pos_bound. lia.
Qed.

(** ** Arithmetic *)

Lemma wrap64_range z : 0 ≤ wrap64 z < W64.
Proof. apply Z.mod_pos_bound. done. Qed.

(** One column of the addition: the two comparisons compute the carry out. *)
Lemma add_column x y c :
  0 ≤ x < W64 → 0 ≤ y < W64 → 0 ≤ c ≤ 1 →
  let s := wrap64 (x + y) in
  let s2 := wrap64 (s + c) in
  let c' := if s2 <? s then 1 else if s <? x then 1 else 0 in
  0 ≤ c' ≤ 1 ∧ x + y + c = s2 + W64 * c'.
Proof.
  intros Hx Hy Hc s s2 c'. pose proof (wrap64_range (x + y)).
  assert (s = x + y ∧ x + y < W64 ∨ s = x + y - W64 ∧ W64 ≤ x + y) as Hs.
  { unfold s, wrap64. destruct (decide (x + y < W64)) as [?|?].
    - left. rewrite Z.mod_small by lia. lia.
    - right. rewrite (Z.mod_eq _ W64) by done. unfold W64 in *.
      assert ((x + y) / 2 ^ 64 = 1) as -> by (symmetry; apply (Z.div_unique _ _ _ (x + y - 2 ^ 64)); lia). lia. }
  assert (s2 = s + c ∧ s + c < W64 ∨ s2 = 0 ∧ s + c = W64) as Hs2.
  { unfold s2, wrap64. fold s in H. destruct (decide (s + c < W64)) as [?|?].
    - left. rewrite Z.mod_small by lia. lia.
    - right. assert (s + c = W64) as -> by lia. rewrite Z_mod_same_full. lia. }
  unfold c'. fold s in H. clearbody s2 s. unfold W64 in *. bcase; lia.
Qed.

Lemma sub_column x y c :
  0 ≤ x < W64 → 0 ≤ y < W64 → 0 ≤ c ≤ 1 →
  let d := wrap64 (x - y) in
  let d2 := wrap64 (d - c) in
  let c' := if d <? c then 1 else if x <? y then 1 else 0 in
  0 ≤ c' ≤ 1 ∧ x - y - c = d2 - W64 * c'.
Proof.
  intros Hx Hy Hc d d2 c'. pose proof (wrap64_range (x - y)).
  assert (d = x - y ∧ y ≤ x ∨ d = x - y + W64 ∧ x < y) as Hd.
  { unfold d, wrap64. destruct (decide (y ≤ x)) as [?|?].
    - left. rewrite Z.mod_small by lia. lia.
    - right. rewrite (Z.mod_eq _ W64) by done. unfold W64 in *.
      assert ((x - y) / 2 ^ 64 = -1) as -> by (symmetry; apply (Z.div_unique _ _ _ (x - y + 2 ^ 64)); lia). lia. }
  assert (d2 = d - c ∧ c ≤ d ∨ d2 = W64 - 1 ∧ d < c) as Hd2.
  { unfold d2, wrap64. fold d in H. destruct (decide (c ≤ d)) as [?|?].
    - left. rewrite Z.mod_small by lia. lia.
    - right. assert (d - c = -1) as -> by lia. split; [reflexivity|lia]. }
  unfold c'. fold d in H. clearbody d2 d. unfold W64 in *. bcase; lia.
Qed.

Lemma length_add a b c : length a = length b → length (addBitvec_loop a b c) = length a.
Proof. revert b c. induction a as [|x a IH]; intros [|y b] c H; simplify_eq/=; f_equal; eauto. Qed.

Lemma length_sub a b c : length a = length b → length (subBitvec_loop a b c) = length a.
Proof. revert b c. induction a as [|x a IH]; intros [|y b] c H; simplify_eq/=; f_equal; eauto. Qed.

Lemma wf_add a b c : wf (addBitvec_loop a b c).
Proof.
  revert b c. induction a as [|x a IH]; intros [|y b] c; simpl; repeat constructor;
    first [apply IH | apply wrap64_range].
Qed.

Lemma wf_sub a b c : wf (subBitvec_loop a b c).
Proof.
  revert b c. induction a as [|x a IH]; intros [|y b] c; simpl; repeat constructor;
    first [apply IH | apply wrap64_range].
Qed.

(** A word-by-word carry chain computes modulo the width. *)
Lemma add_carry_mod a b c :
  wf a → wf b → length a = length b → 0 ≤ c ≤ 1 →
  ∃ co, 0 ≤ co ≤ 1 ∧ val a + val b + c = val (addBitvec_loop a b c) + 2 ^ width a * co.
Proof.
  intros Ha. revert b c. induction Ha as [|x a Hx Ha IH]; intros [|y b] c Hb Hl Hc; simplify_eq/=.
  { exists c. change (width []) with 0. lia. }
  inversion Hb as [|? ? Hy Hb']; subst.
  destruct (add_column x y c Hx Hy Hc) as [Hc' E]. simpl in E.
  destruct (IH b _ Hb' Hl Hc') as (co & Hco & E2). exists co. split; [done|].
  rewrite width_cons, Z.pow_add_r by (lia || apply width_nonneg).
  change (2 ^ 64) with W64. nia.
Qed.

Lemma sub_borrow_mod a b c :
  wf a → wf b → length a = length b → 0 ≤ c ≤ 1 →
  ∃ co, 0 ≤ co ≤ 1 ∧ val a - val b - c = val (subBitvec_loop a b c) - 2 ^ width a * co.
Proof.
  intros Ha. revert b c. induction Ha as [|x a Hx Ha IH]; intros [|y b] c Hb Hl Hc; simplify_eq/=.
  { exists c. change (width []) with 0. lia. }
  inversion Hb as [|? ? Hy Hb']; subst.
  destruct (sub_column x y c Hx Hy Hc) as [Hc' E]. simpl in E.
  destruct (IH b _ Hb' Hl Hc') as (co & Hco & E2). exists co. split; [done|].
  rewrite width_cons, Z.pow_add_r by (lia || apply width_nonneg).
  change (2 ^ 64) with W64. nia.
Qed.

Lemma val_add a b :
  wf a → wf b → length a = length b → val (addBitvec a b) = (val a + val b) mod 2 ^ width a.
Proof.
  intros Ha Hb Hl. destruct (add_carry_mod a b 0) as (co & _ & E); [done..|lia|].
  apply (Z.mod_unique_pos _ _ co); [|unfold addBitvec; lia].
  pose proof (val_range _ (wf_add a b 0)) as H. unfold addBitvec, width in *. by rewrite length_add in H.
Qed.

Lemma val_sub a b :
  wf a → wf b → length a = length b → val (subBitvec a b) = (val a - val b) mod 2 ^ width a.
Proof.
  intros Ha Hb Hl. destruct (sub_borrow_mod a b 0) as (co & _ & E); [done..|lia|].
  apply (Z.mod_unique_pos _ _ (- co)); [|unfold subBitvec; lia].
  pose proof (val_range _ (wf_sub a b 0)) as H. unfold subBitvec, width in *. by rewrite length_sub in H.
Qed.

(** ** Bitwise operations *)

Lemma word_range (f : Z → Z → Z) (g : bool → bool → bool) x y :
  (∀ j, Z.testbit (f x y) j = g (Z.testbit x j) (Z.testbit y j)) → g false false = false →
  0 ≤ f x y → 0 ≤ x < W64 → 0 ≤ y < W64 → 0 ≤ f x y < W64.
Proof.
  intros Hf Hg H0 Hx Hy. split; [done|]. unfold W64 in *.
  destruct (Z.lt_ge_cases (f x y) (2 ^ 64)) as [|H]; [done|exfalso].
  assert (f x y ≠ 0) by lia.
  assert (64 ≤ Z.log2 (f x y)) by (apply Z.log2_le_pow2; lia).
  assert (∀ z j, 0 ≤ z < 2 ^ 64 → 64 ≤ j → Z.testbit z j = false) as Hz.
  { intros z j Hz Hj. destruct (decide (z = 0)) as [->|]; [apply Z.bits_0|].
    apply Z.bits_above_log2; [lia|]. apply Z.log2_lt_pow2; [lia|].
    apply Z.lt_le_trans with (2 ^ 64); [lia|]. apply Z.pow_le_mono_r; lia. }
  pose proof (Z.bit_log2 (f x y)) as B. rewrite Hf, !Hz, Hg in B by lia.
  discriminate B. lia.
Qed.

Lemma land_range x y : 0 ≤ x < W64 → 0 ≤ y < W64 → 0 ≤ Z.land x y < W64.
Proof. intros. apply (word_range Z.land andb); try done; [intros; apply Z.land_spec|apply Z.land_nonneg; lia]. Qed.

Lemma lor_range x y : 0 ≤ x < W64 → 0 ≤ y < W64 → 0 ≤ Z.lor x y < W64.
Proof. intros. apply (word_range Z.lor orb); try done; [intros; apply Z.lor_spec|apply Z.lor_nonneg; lia]. Qed.

Lemma wf_zip_with f a b :
  (∀ x y, 0 ≤ x < W64 → 0 ≤ y < W64 → 0 ≤ f x y < W64) → wf a → wf b → wf (zip_with f a b).
Proof.
  intros Hf Ha. revert b. induction Ha as [|x a Hx Ha IH]; intros [|y b] Hb; simpl; try constructor.
  all: inversion Hb; subst; first [by apply Hf|by apply IH].
Qed.

Lemma zip_with_val f (g : bool → bool → bool) a b :
  (∀ x y j, Z.testbit (f x y) j = g (Z.testbit x j) (Z.testbit y j)) →
  (∀ x y, 0 ≤ x < W64 → 0 ≤ y < W64 → 0 ≤ f x y < W64) → g false false = false →
  wf a → wf b → length a = length b → val (zip_with f a b) = f (val a) (val b).
Proof.
  intros Hf Hr Hg Ha Hb Hl. apply Z.bits_inj'. intros j Hj. rewrite Hf.
  revert b j Hb Hl Hj. induction Ha as [|x a Hx Ha IH]; intros [|y b] j Hb Hl Hj; simplify_eq/=.
  { by rewrite !Z.bits_0, Hg. }
  inversion Hb as [|? ? Hy Hb']; subst.
  change (x + W64 * val a) with (val (x :: a)). change (y + W64 * val b) with (val (y :: b)).
  change (f x y + W64 * val (zip_with f a b)) with (val (f x y :: zip_with f a b)).
  rewrite !val_testbit_cons by auto. destruct (j <? 64) eqn:E; bool_hyps; [apply Hf|apply IH; auto; lia].
Qed.

Lemma wf_replicate n : wf (replicate n 0).
Proof. apply Forall_replicate. done. Qed.

Lemma val_replicate n : val (replicate n 0) = 0.
Proof. induction n as [|n IH]; simpl; [done|]. rewrite IH. lia. Qed.

(** The number of an optional row: a line that does not occur matches nowhere. *)
Definition oval (b : option bitvec) : Z := from_option val 0 b.

Lemma val_and a b :
  wf a → (∀ v, b = Some v → wf v ∧ length v = length a) → val (andBitvec a b) = Z.land (val a) (oval b).
Proof.
  intros Ha Hb. destruct b as [b|]; simpl.
  - destruct (Hb b eq_refl) as [Hw Hl].
    apply (zip_with_val Z.land andb); auto using Z.land_spec, land_range.
  - by rewrite val_replicate, Z.land_0_r.
Qed.

Lemma val_or a b : wf a → wf b → length a = length b → val (orBitvec a b) = Z.lor (val a) (val b).
Proof. intros. apply (zip_with_val Z.lor orb); auto using Z.lor_spec, lor_range. Qed.

(** ** Setting a bit *)

Lemma word_insert b i w k : (i < length b)%nat → word (<[i := w]> b) k = if decide (k = i) then w else word b k.
Proof.
  intros Hi. unfold word. rewrite !nth_lookup. destruct (decide (k = i)) as [->|].
  - by rewrite list_lookup_insert_eq.
  - by rewrite list_lookup_insert_ne.
Qed.

Lemma word_wf b i : wf b → 0 ≤ word b i < W64.
Proof.
  intros Hb. unfold word. rewrite nth_lookup. destruct (b !! i) as [w|] eqn:E; simpl; [|done].
  exact (Forall_lookup_1 _ _ _ _ Hb E).
Qed.

Lemma bit_index b bit : 0 ≤ bit < width b → (Z.to_nat (bit / 64) < length b)%nat.
Proof. unfold width. intros H. pose proof (Z.div_mod bit 64). pose proof (Z.mod_pos_bound bit 64). lia. Qed.

Lemma length_set b bit : length (set b bit) = length b.
Proof. apply length_insert. Qed.

Lemma wf_set b bit : wf b → wf (set b bit).
Proof.
  intros Hb. unfold set. apply Forall_insert; [done|]. apply lor_range; [by apply word_wf|].
  rewrite land63, Z.shiftl_1_l. pose proof (Z.mod_pos_bound bit 64).
  split; [apply Z.pow_nonneg; lia|]. apply Z.pow_lt_mono_r; lia.
Qed.

Lemma val_set b bit : wf b → 0 ≤ bit < width b → val (set b bit) = Z.lor (val b) (2 ^ bit).
Proof.
  intros Hb Hr. pose proof (bit_index _ _ Hr). apply Z.bits_inj'. intros j Hj.
  rewrite Z.lor_spec, Z.pow2_bits_eqb, !val_testbit by (lia || auto using wf_set).
  unfold set. rewrite shiftr6, land63, word_insert by done.
  pose proof (Z.mod_pos_bound bit 64). pose proof (Z.mod_pos_bound j 64).
  pose proof (Z.div_mod bit 64). pose proof (Z.div_mod j 64).
  assert (0 ≤ bit / 64) by (apply Z.div_pos; lia). assert (0 ≤ j / 64) by (apply Z.div_pos; lia).
  case_decide as E.
  - assert (j / 64 = bit / 64) as E' by lia. rewrite E', Z.lor_spec, Z.shiftl_1_l, Z.pow2_bits_eqb by lia.
    f_equal. destruct (Z.eqb_spec (bit mod 64) (j mod 64)), (Z.eqb_spec bit j); [done| | |done].
    + rewrite E' in *. lia.
    + subst. done.
  - destruct (Z.eqb_spec bit j) as [->|]; [done|]. by rewrite orb_false_r.
Qed.

Lemma new_width nbits : 0 ≤ nbits → nbits ≤ width (newBitvec nbits).
Proof.
  intros H. unfold width, newBitvec. rewrite length_replicate.
  pose proof (Z.div_mod (nbits + 63) 64). pose proof (Z.mod_pos_bound (nbits + 63) 64). lia.
Qed.

(** ** Counting *)

(** The number of set bits among the [n] lowest. *)
Fixpoint ones (n : nat) (x : Z) : Z :=
  match n with
  | O => 0
  | S n => Z.b2z (Z.odd x) + ones n (Z.div2 x)
  end.

Lemma ones_snoc n x : ones (S n) x = ones n x + Z.b2z (Z.testbit x (Z.of_nat n)).
Proof.
  revert x. induction n as [|n IH]; intros x; [simpl; lia|].
  change (ones (S (S n)) x) with (Z.b2z (Z.odd x) + ones (S n) (Z.div2 x)).
  rewrite IH. simpl. rewrite Z.div2_spec, Z.shiftr_spec by lia.
  replace (Z.of_nat n + 1) with (Z.of_nat (S n)) by lia. simpl. lia.
Qed.

Lemma ones_ext n x y :
  (∀ j, 0 ≤ j < Z.of_nat n → Z.testbit x j = Z.testbit y j) → ones n x = ones n y.
Proof.
  induction n as [|n IH]; intros H; [done|]. rewrite !ones_snoc, IH by (intros; apply H; lia).
  by rewrite H by lia.
Qed.

Lemma ones_add n k x : ones (n + k) x = ones n x + ones k (x / 2 ^ Z.of_nat n).
Proof.
  induction k as [|k IH]; [rewrite Nat.add_0_r; simpl; lia|].
  rewrite Nat.add_succ_r, !ones_snoc, IH, Z.div_pow2_bits by lia.
  replace (Z.of_nat (n + k)) with (Z.of_nat k + Z.of_nat n) by lia. lia.
Qed.

Lemma ones_0 n : ones n 0 = 0.
Proof. induction n; simpl; lia. Qed.

Lemma popcount64_loop_double fuel y n : popcount64_loop fuel (2 * y) n = popcount64_loop fuel y n.
Proof.
  revert y n. induction fuel as [|fuel IH]; intros y n; [done|]. simpl.
  destruct (Z.eqb_spec y 0) as [->|Hy]; [done|].
  destruct (Z.eqb_spec (2 * y) 0) as [|_]; [lia|].
  rewrite <-(IH (Z.land y (y - 1))). f_equal.
  apply Z.bits_inj'. intros j Hj. replace (2 * y - 1) with (2 * (y - 1) + 1) by lia.
  destruct (decide (j = 0)) as [->|].
  - by rewrite Z.land_spec, !Z.testbit_even_0.
  - replace j with (Z.succ (j - 1)) by lia.
    rewrite Z.land_spec, Z.testbit_odd_succ, !Z.testbit_even_succ, Z.land_spec by lia. done.
Qed.

Lemma popcount64_loop_ones k fuel x n :
  0 ≤ x < 2 ^ Z.of_nat k → (k ≤ fuel)%nat → popcount64_loop fuel x n = n + ones k x.
Proof.
  revert fuel x n. induction k as [|k IH]; intros fuel x n Hx Hf.
  { assert (x = 0) as -> by (simpl in Hx; lia). simpl. destruct fuel; simpl; lia. }
  rewrite Nat2Z.inj_succ, Z.pow_succ_r in Hx by lia. simpl.
  rewrite (Z.div2_odd x) at 1.
  assert (0 ≤ Z.div2 x < 2 ^ Z.of_nat k) by (pose proof (Z.div2_odd x); destruct (Z.odd x); simpl in *; lia).
  destruct (Z.odd x) eqn:E; simpl.
  - destruct fuel as [|fuel]; [lia|]. simpl.
    destruct (Z.eqb_spec (2 * Z.div2 x + 1) 0) as [|_]; [lia|].
    replace (Z.land (2 * Z.div2 x + 1) (2 * Z.div2 x + 1 - 1)) with (2 * Z.div2 x).
    + rewrite popcount64_loop_double, IH by lia. lia.
    + apply Z.bits_inj'. intros j Hj. rewrite Z.add_simpl_r, Z.land_spec.
      destruct (decide (j = 0)) as [->|]; [by rewrite Z.testbit_even_0, andb_false_r|].
      replace j with (Z.succ (j - 1)) by lia.
      rewrite Z.testbit_odd_succ, Z.testbit_even_succ by lia. by rewrite andb_diag.
  - rewrite Z.add_0_r, popcount64_loop_double, IH by lia. lia.
Qed.

Lemma popcount64_ones x : 0 ≤ x < W64 → popcount64 x = ones 64 x.
Proof. intros H. apply (popcount64_loop_ones 64); [done|lia]. Qed.

Lemma words_ones b k acc :
  wf b → (k ≤ length b)%nat →
  foldl (λ n w, n + popcount64 w) acc (take k b) = acc + ones (64 * k) (val b).
Proof.
  intros Hb. revert k acc. induction Hb as [|w b Hw Hb IH]; intros [|k] acc Hk; simpl length in Hk; try lia.
  1,2: simpl; lia.
  cbn [take foldl]. rewrite IH, popcount64_ones by (done || lia).
  replace (64 * S k)%nat with (64 + 64 * k)%nat by lia. rewrite ones_add.
  rewrite (ones_ext 64 (val (w :: b)) w).
  - change (2 ^ Z.of_nat 64) with W64. cbn [val].
    rewrite Z.mul_comm, Z.div_add, Z.div_small, Z.add_0_l by (done || lia). lia.
  - intros j Hj. rewrite val_testbit_cons by lia. destruct (Z.ltb_spec j 64); [done|lia].
Qed.

Lemma ones_mask r w : 0 ≤ r < 64 → ones 64 (Z.land w (Z.shiftl 1 r - 1)) = ones (Z.to_nat r) w.
Proof.
  intros Hr. rewrite Z.shiftl_1_l, Z.sub_1_r, <-Z.ones_equiv.
  replace 64%nat with (Z.to_nat r + (64 - Z.to_nat r))%nat by lia. rewrite ones_add, Z2Nat.id by lia.
  rewrite Z.land_ones, Z.div_small, ones_0, Z.add_0_r by (lia || (apply Z.mod_pos_bound, Z.pow_pos_nonneg; lia)).
  apply ones_ext. intros j Hj. rewrite Z.mod_pow2_bits_low by lia. done.
Qed.

(** [popcountBelow] counts the bits of the window, whatever lies above it. *)
Lemma popcountBelow_ones b n :
  wf b → 0 ≤ n ≤ width b → popcountBelow b n = ones (Z.to_nat n) (val b).
Proof.
  intros Hb Hn. unfold popcountBelow, width in *.
  pose proof (Z.div_mod n 64). pose proof (Z.mod_pos_bound n 64).
  assert (0 ≤ n / 64) by (apply Z.div_pos; lia).
  rewrite words_ones by (done || lia). rewrite Z.add_0_l.
  replace (Z.to_nat n) with (64 * Z.to_nat (n / 64) + Z.to_nat (n mod 64))%nat by lia.
  rewrite ones_add. destruct (Z.eqb_spec (n mod 64) 0) as [E|E]; cbn [negb andb].
  { rewrite E. simpl. lia. }
  destruct (Nat.ltb_spec (Z.to_nat (n / 64)) (length b)); [|lia].
  rewrite popcount64_ones, ones_mask by (lia || (apply land_range; [by apply word_wf|];
    rewrite Z.shiftl_1_l; pose proof (Z.pow_pos_nonneg 2 (n mod 64));
    pose proof (Z.pow_lt_mono_r 2 (n mod 64) 64); unfold W64; lia)).
  f_equal. apply ones_ext. intros j Hj. rewrite Z.div_pow2_bits, val_testbit by (done || lia).
  replace (j + Z.of_nat (64 * Z.to_nat (n / 64))) with (j + n / 64 * 64) by lia.
  by rewrite Z.div_add, Z_mod_plus_full, (Z.div_small j), (Z.mod_small j) by lia.
Qed.
