(* ===== verification/Indel.v ===== *)
(** * The indel alignment of two files (src/internal/filediff/indel.go)

    [lcsMatrix] is the bit-parallel longest-common-subsequence table over the
    vectors of [BitVec], [IndelOpcodes] the backward recovery walk and
    [opsToOpcodes] the grouping of single edits into blocks.  A Go panic (a
    negative [make], an index out of range) or a loop that does not end is
    [None]; [IndelOpcodes_total] shows it does not happen.  Positions are
    non-negative and kept in [nat]; [dist], which the code decrements, is in [Z]. *)

From S2P Require Import Prelude BitVec.

#[local] Open Scope string_scope.
#[local] Open Scope list_scope.
#[local] Open Scope nat_scope.

Abbreviation Tag := string (only parsing).
Definition TagEqual : Tag := "equal".
Definition TagInsert : Tag := "insert".
Definition TagDelete : Tag := "delete".
Definition TagReplace : Tag := "replace".

Record Opcode := mkOpcode {
  op_Tag : Tag; SrcStart : nat; SrcEnd : nat; DestStart : nat; DestEnd : nat }.

Record editop := mkEditop { tag : Tag; src : nat; dest : nat }.

#[export] Instance Opcode_eq_dec : EqDecision Opcode.
Proof. solve_decision. Defined.

(** The zero value [make] fills the slice with. *)
Definition editop_zero : editop := mkEditop "" 0 0.

(** ** Common prefix and suffix *)

Definition line_eqb (a b : option string) : bool :=
  match a, b with Some a, Some b => String.eqb a b | _, _ => false end.

Fixpoint prefix_loop (fuel : nat) (s1 s2 : list string) (prefix : nat) : nat :=
  match fuel with
  | O => prefix
  | S fuel =>
      if (prefix <? length s1) && (prefix <? length s2) && line_eqb (s1 !! prefix) (s2 !! prefix)
      then prefix_loop fuel s1 s2 (S prefix) else prefix
  end.

Fixpoint suffix_loop (fuel : nat) (s1 s2 : list string) (prefix suffix : nat) : nat :=
  match fuel with
  | O => suffix
  | S fuel =>
      if (suffix <? length s1 - prefix) && (suffix <? length s2 - prefix)
         && line_eqb (s1 !! (length s1 - 1 - suffix)) (s2 !! (length s2 - 1 - suffix))
      then suffix_loop fuel s1 s2 prefix (S suffix) else suffix
  end.

Definition commonAffix (s1 s2 : list string) : nat * nat :=
  let prefix := prefix_loop (length s1) s1 s2 0 in
  (prefix, suffix_loop (length s1) s1 s2 prefix 0).

(** ** The bit-parallel table *)

Fixpoint matches_loop (nbits : nat) (j : nat) (s1 : list string) (ms : gmap string bitvec) : gmap string bitvec :=
  match s1 with
  | [] => ms
  | line :: rest =>
      let m := default (newBitvec (Z.of_nat nbits)) (ms !! line) in
      matches_loop nbits (S j) rest (<[line := set m (Z.of_nat j)]> ms)
  end.

Fixpoint setAll (n : nat) (b : bitvec) : bitvec :=
  match n with O => b | S n => set (setAll n b) (Z.of_nat n) end.

(** One row: [u = S & Matches(line); S = (S + u) | (S - u)]. *)
Definition lcsRow (ms : gmap string bitvec) (s : bitvec) (line : string) : bitvec :=
  let u := andBitvec s (ms !! line) in
  orBitvec (addBitvec s u) (subBitvec s u).

Fixpoint rows_loop (ms : gmap string bitvec) (s2 : list string) (s : bitvec) : list bitvec * bitvec :=
  match s2 with
  | [] => ([], s)
  | line :: rest =>
      let s := lcsRow ms s line in
      let '(matrix, last) := rows_loop ms rest s in (s :: matrix, last)
  end.

Definition lcsMatrix (s1 s2 : list string) : Z * list bitvec :=
  if length s1 =? 0 then (0%Z, []) else
  let n := length s1 in
  let ms := matches_loop n 0 s1 ∅ in
  let '(matrix, s) := rows_loop ms s2 (setAll n (newBitvec (Z.of_nat n))) in
  ((Z.of_nat n - popcountBelow s (Z.of_nat n))%Z, matrix).

(** ** Recovery of the alignment *)

(** [ops[i] = e], a panic out of range. *)
Definition put (ops : list editop) (i : Z) (e : editop) : option (list editop) :=
  if ((0 <=? i) && (i <? Z.of_nat (length ops)))%Z then Some (<[Z.to_nat i := e]> ops) else None.

Fixpoint recover (fuel : nat) (matrix : list bitvec) (prefix col row : nat) (dist : Z)
    (ops : list editop) : option (nat * nat * Z * list editop) :=
  if (row =? 0) || (col =? 0) then Some (col, row, dist, ops) else
  match fuel with
  | O => None
  | S fuel =>
      r ← matrix !! (row - 1);
      if test r (Z.of_nat (col - 1)) then
        ops ← put ops (dist - 1) (mkEditop TagDelete (col - 1 + prefix) (row + prefix));
        recover fuel matrix prefix (col - 1) row (dist - 1) ops
      else
        let row := row - 1 in
        insert ← (if row =? 0 then Some false else
                    r ← matrix !! (row - 1); Some (negb (test r (Z.of_nat (col - 1)))));
        if (insert : bool) then
          ops ← put ops (dist - 1) (mkEditop TagInsert (col + prefix) (row + prefix));
          recover fuel matrix prefix col row (dist - 1) ops
        else recover fuel matrix prefix (col - 1) row dist ops
  end.

Fixpoint deletes (prefix col row : nat) (dist : Z) (ops : list editop) : option (Z * list editop) :=
  match col with
  | O => Some (dist, ops)
  | S col =>
      ops ← put ops (dist - 1) (mkEditop TagDelete (col + prefix) (row + prefix));
      deletes prefix col row (dist - 1) ops
  end.

Fixpoint inserts (prefix col row : nat) (dist : Z) (ops : list editop) : option (list editop) :=
  match row with
  | O => Some ops
  | S row =>
      ops ← put ops (dist - 1) (mkEditop TagInsert (col + prefix) (row + prefix));
      inserts prefix col row (dist - 1) ops
  end.

(** The inner loop: the edits of one block. *)
Fixpoint block_run (t : Tag) (ops : list editop) (srcPos destPos : nat) : list editop * nat * nat :=
  match ops with
  | [] => ([], srcPos, destPos)
  | e :: rest =>
      if String.eqb (tag e) t && (srcPos =? src e) && (destPos =? dest e) then
        if String.eqb t TagReplace then block_run t rest (S srcPos) (S destPos)
        else if String.eqb t TagInsert then block_run t rest srcPos (S destPos)
        else if String.eqb t TagDelete then block_run t rest (S srcPos) destPos
        else block_run t rest srcPos destPos
      else (ops, srcPos, destPos)
  end.

Fixpoint opsToOpcodes_loop (fuel : nat) (ops : list editop) (srcPos destPos : nat) (blocks : list Opcode)
    : option (list Opcode * nat * nat) :=
  match ops with
  | [] => Some (blocks, srcPos, destPos)
  | e :: _ =>
      match fuel with
      | O => None
      | S fuel =>
          let '(blocks, srcPos, destPos) :=
            if (srcPos <? src e) || (destPos <? dest e)
            then (blocks ++ [mkOpcode TagEqual srcPos (src e) destPos (dest e)], src e, dest e)
            else (blocks, srcPos, destPos) in
          let '(rest, srcEnd, destEnd) := block_run (tag e) ops srcPos destPos in
          opsToOpcodes_loop fuel rest srcEnd destEnd
            (blocks ++ [mkOpcode (tag e) srcPos srcEnd destPos destEnd])
      end
  end.

Definition opsToOpcodes (ops : list editop) (srcLen destLen : nat) : option (list Opcode) :=
  '(blocks, srcPos, destPos) ← opsToOpcodes_loop (length ops) ops 0 0 [];
  Some (if (srcPos <? srcLen) || (destPos <? destLen)
        then blocks ++ [mkOpcode TagEqual srcPos srcLen destPos destLen] else blocks).

(** [s[lo:hi]] *)
Definition IndelOpcodes (before after : list string) : option (list Opcode) :=
  let '(prefix, suffix) := commonAffix before after in
  let s1 := slice before prefix (length before - suffix) in
  let s2 := slice after prefix (length after - suffix) in
  let '(sim, matrix) := lcsMatrix s1 s2 in
  let srcLen := length s1 + prefix + suffix in
  let destLen := length s2 + prefix + suffix in
  let dist := (Z.of_nat (length s1) + Z.of_nat (length s2) - 2 * sim)%Z in
  ops ← (if (dist <? 0)%Z then None else Some (replicate (Z.to_nat dist) editop_zero));
  '(col, row, dist, ops) ← recover (length s1 + length s2) matrix prefix (length s1) (length s2) dist ops;
  '(dist, ops) ← deletes prefix col row dist ops;
  (* the deletions leave [col] at 0 *)
  ops ← inserts prefix 0 row dist ops;
  opsToOpcodes ops srcLen destLen.

(** ** The reference table

    [lcs i j] is the length of a longest common subsequence of the first [i]
    lines of [s2] and the first [j] of [s1] ([lcs_upper], [lcs_attained]). *)

Section Table.
Context (s1 s2 : list string).

Definition hit (i j : nat) : bool := line_eqb (s1 !! j) (s2 !! i).

Fixpoint lcs (i : nat) : nat → nat :=
  match i with
  | O => λ _, 0
  | S i =>
      fix go (j : nat) : nat :=
        match j with
        | O => 0
        | S j => if hit i j then S (lcs i j) else lcs i (S j) `max` go j
        end
  end.

Lemma lcs_0_r i : lcs i 0 = 0.
Proof. by destruct i. Qed.

Lemma lcs_SS i j :
  lcs (S i) (S j) = if hit i j then S (lcs i j) else lcs i (S j) `max` lcs (S i) j.
Proof. done. Qed.

(** Case analysis on the comparisons of table entries. *)
#[local] Ltac eqb_cases :=
  repeat match goal with |- context [?a =? ?b] => destruct (Nat.eqb_spec a b) end;
  simpl; first [done|exfalso; lia].

Lemma lcs_deltas i j :
  lcs i j ≤ lcs i (S j) ≤ S (lcs i j) ∧ lcs i j ≤ lcs (S i) j ≤ S (lcs i j).
Proof.
  revert j. induction i as [|i IHi].
  { assert (∀ j, lcs 1 j ≤ 1) as H by (induction j; rewrite ?lcs_0_r, ?lcs_SS; [lia|case_match; simpl in *; lia]).
    intros j. pose proof (H j). simpl (lcs 0 _). lia. }
  assert (∀ j, lcs (S i) j ≤ lcs (S i) (S j) ≤ S (lcs (S i) j)) as Hh.
  { intros j. destruct (IHi j), (IHi (S j)). rewrite (lcs_SS i j). case_match; lia. }
  assert (∀ j, lcs (S i) j ≤ lcs (S (S i)) j ≤ S (lcs (S i) j)) as Hv.
  { induction j as [|j IHj]; [rewrite !lcs_0_r; lia|].
    pose proof (Hh j). rewrite (lcs_SS (S i) j). case_match; lia. }
  intros j. split; [apply Hh|apply Hv].
Qed.

(** What the two bits the walk reads say about the table. *)
Lemma lcs_match i j :
  lcs (S i) (S j) = S (lcs (S i) j) → lcs i (S j) = lcs i j →
  hit i j = true ∧ lcs (S i) (S j) = S (lcs i j).
Proof.
  intros H1 H2. pose proof (lcs_deltas i j). rewrite lcs_SS in *. destruct (hit i j); [done|]. lia.
Qed.

Lemma lcs_insert i j :
  lcs (S i) (S j) = S (lcs (S i) j) → lcs i (S j) = S (lcs i j) → lcs (S i) (S j) = lcs i (S j).
Proof. intros H1 H2. pose proof (lcs_deltas i j). rewrite lcs_SS in *. case_match; lia. Qed.

Lemma sublist_snoc_inv {A} (l xs : list A) x :
  l `sublist_of` xs ++ [x] → l `sublist_of` xs ∨ ∃ l', l = l' ++ [x] ∧ l' `sublist_of` xs.
Proof.
  intros H. apply sublist_app_r in H as (k1 & k2 & -> & H1 & H2).
  apply sublist_cons_r in H2 as [H2|(k & -> & H2)]; apply sublist_nil_r in H2 as ->.
  - left. by rewrite app_nil_r.
  - right. eauto.
Qed.

(** Every common subsequence of the two prefixes is at most that long. *)
Lemma lcs_upper i j l :
  i ≤ length s2 → j ≤ length s1 →
  l `sublist_of` take j s1 → l `sublist_of` take i s2 → length l ≤ lcs i j.
Proof.
  revert j l. induction i as [|i IHi]; intros j l Hi Hj.
  { intros _ H. apply sublist_nil_r in H as ->. simpl. lia. }
  revert l Hj. induction j as [|j IHj]; intros l Hj H1 H2.
  { apply sublist_nil_r in H1 as ->. simpl. lia. }
  destruct (lookup_lt_is_Some_2 s1 j) as [x Hx]; [lia|].
  destruct (lookup_lt_is_Some_2 s2 i) as [y Hy]; [lia|].
  pose proof H1 as H1'. pose proof H2 as H2'.
  erewrite take_S_r in H1' by done. erewrite take_S_r in H2' by done.
  pose proof (lcs_deltas i (S j)). pose proof (lcs_deltas (S i) j).
  apply sublist_snoc_inv in H1' as [H1'|(l1 & -> & H1')]; [specialize (IHj l ltac:(lia) H1' H2); lia|].
  apply sublist_snoc_inv in H2' as [H2'|(l2 & E & H2')]; [specialize (IHi (S j) _ ltac:(lia) Hj H1 H2'); lia|].
  apply app_inj_tail in E as [-> ->].
  rewrite lcs_SS. unfold hit. rewrite Hx, Hy. simpl. rewrite String.eqb_refl.
  specialize (IHi j l2 ltac:(lia) ltac:(lia) H1' H2'). rewrite length_app. simpl. lia.
Qed.

(** The rows: bit [j] of row [i] is clear exactly where the table steps. *)
Definition row_ok (i : nat) (v : Z) : Prop :=
  ∀ j, j < length s1 → Z.testbit v (Z.of_nat j) = (lcs i (S j) =? lcs i j).

(** The carry of [V + (V & M)] into bit [j] is the vertical step at [j]. *)
Lemma carry_is_step i v m c :
  row_ok i v → (∀ j, j < length s1 → Z.testbit m (Z.of_nat j) = hit i j) →
  Z.testbit c 0 = false →
  (let u := Z.land v m in Z.div2 c = Z.lor (Z.land v u) (Z.land c (Z.lor v u))) →
  ∀ j, j ≤ length s1 → Z.testbit c (Z.of_nat j) = negb (lcs (S i) j =? lcs i j).
Proof.
  intros Hv Hm H0 Hc. induction j as [|j IH]; intros Hj.
  { change (Z.of_nat 0) with 0%Z. by rewrite H0, !lcs_0_r. }
  rewrite Nat2Z.inj_succ, <-Z.add_1_r, <-Z.shiftr_spec, <-Z.div2_spec, Hc by lia.
  rewrite !Z.lor_spec, !Z.land_spec, Z.lor_spec, Z.land_spec, IH, Hv, Hm by lia.
  pose proof (lcs_deltas i j). rewrite lcs_SS. destruct (hit i j).
  all: eqb_cases.
Qed.

Lemma row_step i v m w :
  row_ok i v → (∀ j, j < length s1 → Z.testbit m (Z.of_nat j) = hit i j) →
  (0 ≤ v < 2 ^ w)%Z → (Z.of_nat (length s1) ≤ w)%Z →
  let u := Z.land v m in
  row_ok (S i) (Z.lor ((v + u) mod 2 ^ w) ((v - u) mod 2 ^ w)).
Proof.
  intros Hv Hm Hr Hw u j Hj.
  assert (Z.ldiff u v = 0%Z) as Hu.
  { apply Z.bits_inj'. intros k Hk. unfold u. rewrite Z.ldiff_spec, Z.land_spec, Z.bits_0.
    by destruct (Z.testbit v k), (Z.testbit m k). }
  rewrite Z.lor_spec, !Z.mod_pow2_bits_low, Z.sub_nocarry_ldiff by (done || lia).
  destruct (Z.add_carry_bits v u false) as (c & E & Hc & H0). simpl in E. rewrite Z.add_0_r in E.
  rewrite <-Z.div2_div in Hc. rewrite E, !Z.lxor_spec, Z.ldiff_spec.
  rewrite (carry_is_step i v m c Hv Hm H0 Hc) by lia.
  unfold u. rewrite Z.land_spec, Hv, Hm by lia.
  pose proof (lcs_deltas i j). rewrite lcs_SS. destruct (hit i j).
  all: eqb_cases.
Qed.

(** Clear bits of a row add up to the table entry. *)
Lemma row_count i v k :
  row_ok i v → k ≤ length s1 → (ones k v = Z.of_nat k - Z.of_nat (lcs i k))%Z.
Proof.
  intros Hv. induction k as [|k IH]; intros Hk; [rewrite lcs_0_r; done|].
  rewrite ones_snoc, IH, Hv by lia. pose proof (lcs_deltas i k).
  destruct (Nat.eqb_spec (lcs i (S k)) (lcs i k)); simpl; lia.
Qed.

(** ** The match vectors *)

Definition nwords : nat := length (newBitvec (Z.of_nat (length s1))).

Definition matches_ok (k : nat) (ms : gmap string bitvec) : Prop :=
  ∀ line, (∀ m, ms !! line = Some m → wf m ∧ length m = nwords) ∧
    ∀ j, Z.testbit (oval (ms !! line)) (Z.of_nat j) = (j <? k) && line_eqb (s1 !! j) (Some line).

Lemma nwords_width b : length b = nwords → (Z.of_nat (length s1) ≤ width b)%Z.
Proof.
  intros H. pose proof (new_width (Z.of_nat (length s1)) ltac:(lia)). unfold width, nwords in *.
  by rewrite H.
Qed.

Lemma default_ok (ms : gmap string bitvec) line :
  (∀ m, ms !! line = Some m → wf m ∧ length m = nwords) →
  let m := default (newBitvec (Z.of_nat (length s1))) (ms !! line) in
  wf m ∧ length m = nwords ∧ val m = oval (ms !! line).
Proof.
  intros H. destruct (ms !! line) as [m|] eqn:E; simpl.
  - destruct (H m eq_refl). done.
  - split; [apply wf_replicate|]. split; [done|apply val_replicate].
Qed.

Lemma matches_loop_ok rest k ms :
  drop k s1 = rest → matches_ok k ms →
  matches_ok (length s1) (matches_loop (length s1) k rest ms).
Proof.
  revert k ms. induction rest as [|line rest IH]; intros k ms Hd Hms; simpl.
  { apply (f_equal length) in Hd. rewrite length_drop in Hd. simpl in Hd.
    intros line. destruct (Hms line) as [Hw Hb]. split; [done|]. intros j. rewrite Hb.
    destruct (s1 !! j) as [x|] eqn:Hj; simpl; [|by rewrite !andb_false_r].
    apply lookup_lt_Some in Hj. destruct (Nat.ltb_spec j k), (Nat.ltb_spec j (length s1)); done || lia. }
  assert (s1 !! k = Some line) as Hk by (rewrite <-(Nat.add_0_r k), <-lookup_drop, Hd; done).
  pose proof (lookup_lt_Some _ _ _ Hk) as Hlt.
  apply IH. { rewrite <-Nat.add_1_r, <-drop_drop, Hd. done. }
  intros l. destruct (decide (l = line)) as [->|Hne].
  - rewrite lookup_insert_eq. destruct (Hms line) as [Hw Hb].
    destruct (default_ok ms line Hw) as (Hwf & Hlen & Hval).
    split; [intros m [= <-]; split; [by apply wf_set|by rewrite length_set]|].
    intros j. simpl. pose proof (nwords_width _ Hlen).
    rewrite val_set, Z.lor_spec, Z.pow2_bits_eqb, Hval, Hb by (done || lia).
    destruct (Z.eqb_spec (Z.of_nat k) (Z.of_nat j)) as [E|E].
    + apply Nat2Z.inj in E as <-. rewrite Hk. simpl. rewrite String.eqb_refl.
      destruct (Nat.ltb_spec k (S k)); [by rewrite orb_true_r|lia].
    + destruct (Nat.ltb_spec j k), (Nat.ltb_spec j (S k)); rewrite ?orb_false_r; done || lia.
  - rewrite lookup_insert_ne by done. destruct (Hms l) as [Hw Hb]. split; [done|]. intros j. rewrite Hb.
    destruct (decide (j = k)) as [->|].
    + rewrite Hk. simpl. destruct (String.eqb_spec line l); [done|]. by rewrite !andb_false_r.
    + destruct (Nat.ltb_spec j k), (Nat.ltb_spec j (S k)); done || lia.
Qed.

Lemma matches_empty : matches_ok 0 ∅.
Proof. intros line. rewrite lookup_empty. split; [done|]. intros j. apply Z.bits_0. Qed.

Lemma setAll_ok k : k ≤ length s1 →
  let b := setAll k (newBitvec (Z.of_nat (length s1))) in
  wf b ∧ length b = nwords ∧ ∀ j, j < k → Z.testbit (val b) (Z.of_nat j) = true.
Proof.
  induction k as [|k IH]; intros Hk; simpl.
  { split; [apply wf_replicate|]. split; [done|lia]. }
  destruct IH as (Hw & Hl & Hb); [lia|]. pose proof (nwords_width _ Hl).
  split; [by apply wf_set|]. split; [by rewrite length_set|]. intros j Hj.
  rewrite val_set, Z.lor_spec, Z.pow2_bits_eqb by (done || lia).
  destruct (decide (j = k)) as [->|]; [by rewrite Z.eqb_refl, orb_true_r|]. by rewrite Hb by lia.
Qed.

(** A stored row, as the walk reads it. *)
Definition vec_ok (i : nat) (b : bitvec) : Prop := wf b ∧ length b = nwords ∧ row_ok i (val b).

Lemma vec_0 : vec_ok 0 (setAll (length s1) (newBitvec (Z.of_nat (length s1)))).
Proof.
  destruct (setAll_ok (length s1)) as (Hw & Hl & Hb); [done|]. split; [done|]. split; [done|].
  intros j Hj. by rewrite Hb.
Qed.

Lemma lcsRow_ok ms i line b :
  matches_ok (length s1) ms → s2 !! i = Some line → vec_ok i b → vec_ok (S i) (lcsRow ms b line).
Proof.
  intros Hms Hi (Hw & Hl & Hr). destruct (Hms line) as [Hm Hbits].
  assert (∀ m, ms !! line = Some m → wf m ∧ length m = length b) as Hm'.
  { intros m E. destruct (Hm m E). split; [done|congruence]. }
  assert (wf (andBitvec b (ms !! line)) ∧ length (andBitvec b (ms !! line)) = length b) as [Hwu Hlu].
  { destruct (ms !! line) as [m|] eqn:E; simpl.
    - destruct (Hm' m eq_refl). split; [apply wf_zip_with; [apply land_range|done..]|]. rewrite length_zip_with. lia.
    - split; [apply wf_replicate|apply length_replicate]. }
  unfold lcsRow. set (u := andBitvec b (ms !! line)) in *.
  assert (length (addBitvec b u) = length b) as La by (apply length_add; done).
  assert (length (subBitvec b u) = length b) as Ls by (apply length_sub; done).
  split; [apply wf_zip_with; [apply lor_range|apply wf_add|apply wf_sub]|].
  split; [unfold orBitvec; rewrite length_zip_with; lia|].
  rewrite val_or by (apply wf_add || apply wf_sub || congruence). rewrite val_add, val_sub by done.
  unfold u. rewrite val_and by done. apply row_step; [done| |by apply val_range|by apply nwords_width].
  intros j Hj. rewrite Hbits. unfold hit. rewrite Hi. destruct (Nat.ltb_spec j (length s1)); [done|lia].
Qed.

Lemma rows_loop_ok ms rest i b :
  matches_ok (length s1) ms → drop i s2 = rest → i ≤ length s2 → vec_ok i b →
  let '(matrix, last) := rows_loop ms rest b in
  length matrix = length rest ∧ vec_ok (length s2) last ∧
  ∀ k r, matrix !! k = Some r → vec_ok (S (i + k)) r.
Proof.
  intros Hms. revert i b. induction rest as [|line rest IH]; intros i b Hd Hi Hb; simpl.
  { apply (f_equal length) in Hd. rewrite length_drop in Hd. simpl in Hd.
    replace (length s2) with i by lia. done. }
  assert (s2 !! i = Some line) as Hl by (rewrite <-(Nat.add_0_r i), <-lookup_drop, Hd; done).
  pose proof (lookup_lt_Some _ _ _ Hl).
  pose proof (lcsRow_ok ms i line b Hms Hl Hb) as Hb'.
  specialize (IH (S i) (lcsRow ms b line)). rewrite <-Nat.add_1_r, <-drop_drop, Hd in IH.
  specialize (IH eq_refl ltac:(lia)). rewrite Nat.add_1_r in IH. specialize (IH Hb').
  destruct (rows_loop ms rest _) as [matrix last]. destruct IH as (E & Hlast & Hrows).
  split; [simpl; congruence|]. split; [done|]. intros [|k] r Hk; simplify_eq/=.
  - by rewrite Nat.add_0_r.
  - rewrite Nat.add_succ_r. by apply Hrows.
Qed.

(** The similarity is the table's entry, and the matrix holds its rows. *)
Lemma lcsMatrix_ok sim matrix :
  lcsMatrix s1 s2 = (sim, matrix) →
  sim = Z.of_nat (lcs (length s2) (length s1)) ∧
  (s1 ≠ [] → ∀ i, i < length s2 → ∃ r, matrix !! i = Some r ∧ vec_ok (S i) r).
Proof.
  unfold lcsMatrix. destruct (Nat.eqb_spec (length s1) 0) as [E|E].
  { intros [= <- <-]. rewrite E, lcs_0_r. split; [done|]. by destruct s1. }
  pose proof (rows_loop_ok _ s2 0 _ (matches_loop_ok s1 0 ∅ eq_refl matches_empty) eq_refl
                ltac:(lia) vec_0) as H.
  destruct (rows_loop _ _ _) as [matrix' last]. intros [= <- <-].
  destruct H as (Hlen & (Hw & Hl & Hr) & Hrows).
  split.
  - rewrite popcountBelow_ones by (done || (split; [lia|by apply nwords_width])).
    rewrite Nat2Z.id, (row_count (length s2)) by done. lia.
  - intros _ i Hi. destruct (lookup_lt_is_Some_2 matrix' i) as [r Hk]; [lia|]. exists r. split; [done|].
    by apply Hrows.
Qed.

(** Reading a stored row. *)
Lemma vec_test i b j :
  vec_ok i b → j < length s1 → test b (Z.of_nat j) = (lcs i (S j) =? lcs i j).
Proof. intros (Hw & _ & Hr) Hj. rewrite test_val by (done || lia). by apply Hr. Qed.

End Table.

(** ** Alignments

    [aligned before after i j ops]: the edits [ops], with equal lines between
    them, lead from position [i] of [before] and [j] of [after] to both ends. *)

Inductive aligned (before after : list string) : nat → nat → list editop → Prop :=
  | aligned_end : aligned before after (length before) (length after) []
  | aligned_match i j x ops :
      before !! i = Some x → after !! j = Some x →
      aligned before after (S i) (S j) ops → aligned before after i j ops
  | aligned_delete i j ops :
      i < length before → aligned before after (S i) j ops →
      aligned before after i j (mkEditop TagDelete i j :: ops)
  | aligned_insert i j ops :
      j < length after → aligned before after i (S j) ops →
      aligned before after i j (mkEditop TagInsert i j :: ops).

Lemma put_top acc e k :
  put (replicate (S k) editop_zero ++ acc) (Z.of_nat (S k) - 1) e
  = Some (replicate k editop_zero ++ e :: acc).
Proof.
  unfold put. rewrite length_app, length_replicate.
  replace (Z.of_nat (S k) - 1)%Z with (Z.of_nat k) by lia.
  destruct (Z.leb_spec 0 (Z.of_nat k)); [|lia].
  destruct (Z.ltb_spec (Z.of_nat k) (Z.of_nat (S k + length acc))); [|lia].
  cbn [andb]. rewrite Nat2Z.id, replicate_S_end, <-app_assoc. f_equal.
  rewrite <-(Nat.add_0_r k) at 1. rewrite <-(length_replicate k editop_zero) at 1. by rewrite insert_app_r.
Qed.

Lemma lcs_le s1 s2 i j : lcs s1 s2 i j ≤ i ∧ lcs s1 s2 i j ≤ j.
Proof.
  revert j. induction i as [|i IH]; intros j; [simpl; lia|]. induction j as [|j IHj]; [rewrite lcs_0_r; lia|].
  rewrite lcs_SS. pose proof (IH j). pose proof (IH (S j)). case_match; lia.
Qed.

(** The walk, on the middles [s1], [s2] of [before], [after]. *)
Section Walk.
Context (before after s1 s2 : list string) (matrix : list bitvec) (p : nat).
Context (Hbefore : ∀ j x, s1 !! j = Some x → before !! (j + p) = Some x).
Context (Hafter : ∀ i x, s2 !! i = Some x → after !! (i + p) = Some x).
Context (Hmatrix : s1 ≠ [] → ∀ i, i < length s2 → ∃ r, matrix !! i = Some r ∧ vec_ok s1 s2 (S i) r).

#[local] Abbreviation L := (lcs s1 s2).
#[local] Abbreviation blank d := (replicate d editop_zero).

Lemma mid_delete col j ops :
  col < length s1 → aligned before after (S col + p) j ops →
  aligned before after (col + p) j (mkEditop TagDelete (col + p) j :: ops).
Proof.
  intros Hc H. destruct (lookup_lt_is_Some_2 s1 col Hc) as [x Hx].
  apply aligned_delete; [|done]. by eapply lookup_lt_Some, Hbefore.
Qed.

Lemma mid_insert i row ops :
  row < length s2 → aligned before after i (S row + p) ops →
  aligned before after i (row + p) (mkEditop TagInsert i (row + p) :: ops).
Proof.
  intros Hc H. destruct (lookup_lt_is_Some_2 s2 row Hc) as [x Hx].
  apply aligned_insert; [|done]. by eapply lookup_lt_Some, Hafter.
Qed.

Lemma mid_match col row ops :
  hit s1 s2 row col = true → aligned before after (S col + p) (S row + p) ops →
  aligned before after (col + p) (row + p) ops.
Proof.
  unfold hit. intros Hh H.
  destruct (s1 !! col) as [x|] eqn:Hx, (s2 !! row) as [y|] eqn:Hy; try done. simpl in Hh.
  apply String.eqb_eq in Hh as ->.
  apply (aligned_match before after (col + p) (row + p) y); [by apply Hbefore|by apply Hafter|done].
Qed.

Lemma recover_ok fuel col row d acc :
  col ≤ length s1 → row ≤ length s2 → col + row ≤ fuel → d + 2 * L row col = col + row →
  aligned before after (col + p) (row + p) acc →
  ∃ col' row' acc',
    recover fuel matrix p col row (Z.of_nat d) (blank d ++ acc)
    = Some (col', row', Z.of_nat (col' + row'), blank (col' + row') ++ acc') ∧
    col' ≤ length s1 ∧ row' ≤ length s2 ∧ aligned before after (col' + p) (row' + p) acc' ∧
    (col' = 0 ∨ row' = 0) ∧ length acc' + (col' + row') = length acc + d.
Proof.
  revert col row d acc. induction fuel as [|fuel IH]; intros col row d acc Hc Hr Hf Hd Ha.
  all: destruct row as [|row]; [|destruct col as [|col]].
  all: try (simpl; rewrite ?lcs_0_r in Hd; simpl in Hd; eexists _, _, acc;
    split; [do 2 f_equal; [f_equal; f_equal; lia|do 2 f_equal; lia]|]; repeat split; auto; lia).
  { lia. }
  assert (s1 ≠ []) as Hne by (intros ->; simpl in Hc; lia).
  destruct (Hmatrix Hne row) as (r & Hrow & Hv); [lia|].
  pose proof (lcs_deltas s1 s2 (S row) col) as [Hh _].
  cbn [recover]. change ((S row =? 0) || (S col =? 0)) with false. cbn [Nat.sub]. rewrite !Nat.sub_0_r, Hrow. cbn.
  rewrite (vec_test _ _ _ _ _ Hv) by lia. destruct (Nat.eqb_spec (L (S row) (S col)) (L (S row) col)) as [E|E].
  { pose proof (lcs_le s1 s2 (S row) col).
    destruct d as [|d]; [lia|]. rewrite put_top. cbn.
    replace (Z.of_nat (S d) - 1)%Z with (Z.of_nat d) by lia.
    destruct (IH col (S row) d (mkEditop TagDelete (col + p) (S row + p) :: acc)) as (c' & r' & a' & E' & H');
      [lia..|apply mid_delete; [lia|done]|].
    exists c', r', a'. split; [exact E'|]. destruct H' as (?&?&?&?&?). simpl in *. repeat split; auto; lia. }
  assert (L (S row) (S col) = S (L (S row) col)) as Hstep by lia. clear E.
  assert (∃ b, (if row =? 0 then Some false else
                  r ← matrix !! (row - 1); Some (negb (test r (Z.of_nat col)))) = Some b ∧
               b = negb (L row (S col) =? L row col)) as (b & -> & Hb).
  { destruct row as [|row]; [by exists false|]. destruct (Hmatrix Hne row) as (r' & Hrow' & Hv'); [lia|].
    simpl. rewrite Nat.sub_0_r, Hrow'. simpl. eexists. split; [done|].
    by rewrite (vec_test _ _ _ _ _ Hv') by lia. }
  cbn. pose proof (lcs_deltas s1 s2 row col).
  destruct (Nat.eqb_spec (L row (S col)) (L row col)) as [E|E]; subst b; cbn.
  - destruct (lcs_match s1 s2 row col Hstep E) as [Hhit HL].
    destruct (IH col row d acc) as (c' & r' & a' & E' & H'); [lia..|by apply mid_match|].
    exists c', r', a'. split; [exact E'|]. destruct H' as (?&?&?&?&?). repeat split; auto; lia.
  - pose proof (lcs_insert s1 s2 row col Hstep ltac:(lia)) as HL. pose proof (lcs_le s1 s2 row (S col)).
    destruct d as [|d]; [lia|]. rewrite put_top. cbn.
    replace (Z.of_nat (S d) - 1)%Z with (Z.of_nat d) by lia.
    destruct (IH (S col) row d (mkEditop TagInsert (S col + p) (row + p) :: acc)) as (c' & r' & a' & E' & H');
      [lia..|apply mid_insert; [lia|done]|].
    exists c', r', a'. split; [exact E'|]. destruct H' as (?&?&?&?&?). simpl in *. repeat split; auto; lia.
Qed.

Lemma deletes_ok col row d acc :
  col ≤ length s1 → aligned before after (col + p) (row + p) acc →
  ∃ acc', deletes p col row (Z.of_nat (col + d)) (blank (col + d) ++ acc) = Some (Z.of_nat d, blank d ++ acc') ∧
    aligned before after p (row + p) acc' ∧ length acc' = length acc + col.
Proof.
  revert acc. induction col as [|col IH]; intros acc Hc Ha; [exists acc; by rewrite Nat.add_0_r|].
  cbn [deletes]. rewrite Nat.add_succ_l, put_top. cbn.
  replace (Z.of_nat (S (col + d)) - 1)%Z with (Z.of_nat (col + d)) by lia.
  destruct (IH (mkEditop TagDelete (col + p) (row + p) :: acc)) as (acc' & E & H & Hl);
    [lia|apply mid_delete; [lia|done]|].
  exists acc'. split; [exact E|]. simpl in Hl. split; [done|lia].
Qed.

Lemma inserts_ok row acc :
  row ≤ length s2 → aligned before after p (row + p) acc →
  ∃ acc', inserts p 0 row (Z.of_nat row) (blank row ++ acc) = Some acc' ∧
    aligned before after p p acc' ∧ length acc' = length acc + row.
Proof.
  revert acc. induction row as [|row IH]; intros acc Hc Ha; [exists acc; by rewrite Nat.add_0_r|].
  cbn [inserts]. rewrite put_top. cbn.
  replace (Z.of_nat (S row) - 1)%Z with (Z.of_nat row) by lia.
  destruct (IH (mkEditop TagInsert p (row + p) :: acc)) as (acc' & E & H & Hl);
    [lia|apply mid_insert; [lia|done]|].
  exists acc'. split; [exact E|]. simpl in Hl. split; [done|lia].
Qed.

End Walk.

(** ** Common prefix and suffix *)

Lemma line_eqb_true a b : line_eqb a b = true → ∃ x, a = Some x ∧ b = Some x.
Proof. destruct a, b; simpl; try done. intros H%String.eqb_eq. subst. eauto. Qed.

Definition agree_prefix (s1 s2 : list string) (p : nat) : Prop :=
  p ≤ length s1 ∧ p ≤ length s2 ∧ ∀ k, k < p → ∃ x, s1 !! k = Some x ∧ s2 !! k = Some x.

Definition agree_suffix (s1 s2 : list string) (p n : nat) : Prop :=
  p + n ≤ length s1 ∧ p + n ≤ length s2 ∧
  ∀ k, k < n → ∃ x, s1 !! (length s1 - 1 - k) = Some x ∧ s2 !! (length s2 - 1 - k) = Some x.

Lemma prefix_loop_ok fuel s1 s2 p : agree_prefix s1 s2 p → agree_prefix s1 s2 (prefix_loop fuel s1 s2 p).
Proof.
  revert p. induction fuel as [|fuel IH]; intros p Hp; simpl; [done|].
  case_match eqn:E; [|done]. apply andb_true_iff in E as [[?%Nat.ltb_lt ?%Nat.ltb_lt]%andb_true_iff E].
  apply IH. destruct Hp as (?&?&Hk). split; [lia|]. split; [lia|]. intros k Hlt.
  destruct (decide (k = p)) as [->|]; [by apply line_eqb_true|]. apply Hk. lia.
Qed.

Lemma suffix_loop_ok fuel s1 s2 p n :
  agree_suffix s1 s2 p n → agree_suffix s1 s2 p (suffix_loop fuel s1 s2 p n).
Proof.
  revert n. induction fuel as [|fuel IH]; intros n Hp; simpl; [done|].
  case_match eqn:E; [|done]. apply andb_true_iff in E as [[?%Nat.ltb_lt ?%Nat.ltb_lt]%andb_true_iff E].
  apply IH. destruct Hp as (?&?&Hk). split; [lia|]. split; [lia|]. intros k Hlt.
  destruct (decide (k = n)) as [->|]; [by apply line_eqb_true|]. apply Hk. lia.
Qed.

Lemma commonAffix_ok s1 s2 p n :
  commonAffix s1 s2 = (p, n) → agree_prefix s1 s2 p ∧ agree_suffix s1 s2 p n.
Proof.
  unfold commonAffix. intros [= <- <-].
  assert (agree_prefix s1 s2 (prefix_loop (length s1) s1 s2 0)) as Hp.
  { apply prefix_loop_ok. split; [lia|]. split; [lia|]. lia. }
  split; [done|]. apply suffix_loop_ok. destruct Hp as (?&?&_). split; [lia|]. split; [lia|]. lia.
Qed.

Lemma aligned_prefix before after p ops :
  agree_prefix before after p → aligned before after p p ops → aligned before after 0 0 ops.
Proof.
  induction p as [|p IH]; intros (H1 & H2 & Hk) H; [done|].
  destruct (Hk p) as (x & ? & ?); [lia|].
  apply IH; [repeat split; auto; lia|]. by eapply aligned_match.
Qed.

Lemma aligned_suffix before after p n :
  agree_suffix before after p n → aligned before after (length before - n) (length after - n) [].
Proof.
  induction n as [|n IH]; intros (H1 & H2 & Hk); [rewrite !Nat.sub_0_r; constructor|].
  destruct (Hk n) as (x & E1 & E2); [lia|].
  replace (length before - S n) with (length before - 1 - n) by lia.
  replace (length after - S n) with (length after - 1 - n) by lia.
  eapply aligned_match; [done..|].
  replace (S (length before - 1 - n)) with (length before - n) by lia.
  replace (S (length after - 1 - n)) with (length after - n) by lia.
  apply IH. repeat split; [lia..|]. intros k ?. apply Hk. lia.
Qed.

(** ** Grouping into blocks *)

(** [blocks_cover before after i j prev blocks]: the blocks are contiguous from
    [(i,j)] to both ends, each is a non-empty equal, insert or delete block, the
    lines of an equal block agree, and no two neighbours have the same tag. *)
Definition block_ok (before after : list string) (b : Opcode) : Prop :=
  op_Tag b = TagEqual ∧ SrcStart b < SrcEnd b ∧
    slice before (SrcStart b) (SrcEnd b) = slice after (DestStart b) (DestEnd b) ∧
    SrcEnd b - SrcStart b = DestEnd b - DestStart b
  ∨ op_Tag b = TagInsert ∧ SrcStart b = SrcEnd b ∧ DestStart b < DestEnd b
  ∨ op_Tag b = TagDelete ∧ SrcStart b < SrcEnd b ∧ DestStart b = DestEnd b.

Fixpoint blocks_cover (before after : list string) (i j : nat) (prev : Tag) (blocks : list Opcode) : Prop :=
  match blocks with
  | [] => i = length before ∧ j = length after
  | b :: rest =>
      SrcStart b = i ∧ DestStart b = j ∧ SrcEnd b ≤ length before ∧ DestEnd b ≤ length after ∧
      block_ok before after b ∧ op_Tag b ≠ prev ∧
      blocks_cover before after (SrcEnd b) (DestEnd b) (op_Tag b) rest
  end.

(** Lines inserted and deleted. *)
Definition edits (blocks : list Opcode) : nat :=
  sum_list_with (λ b, if String.eqb (op_Tag b) TagEqual then 0
                      else (SrcEnd b - SrcStart b) + (DestEnd b - DestStart b)) blocks.

Lemma aligned_bounds before after i j ops :
  aligned before after i j ops → i ≤ length before ∧ j ≤ length after.
Proof. induction 1; lia. Qed.

(** The equal lines in front of the next edit, or of the end. *)
Lemma aligned_gap before after i j ops :
  aligned before after i j ops →
  ∃ i' j', i ≤ i' ∧ j ≤ j' ∧ i' - i = j' - j ∧ i' ≤ length before ∧ j' ≤ length after ∧
    slice before i i' = slice after j j' ∧
    match ops with
    | [] => i' = length before ∧ j' = length after
    | e :: rest => src e = i' ∧ dest e = j' ∧ aligned before after i' j' ops ∧
        (tag e = TagDelete ∧ aligned before after (S i') j' rest
         ∨ tag e = TagInsert ∧ aligned before after i' (S j') rest)
    end.
Proof.
  induction 1 as [|i j x ops Hb Ha H IH|i j ops Hi H _|i j ops Hj H _].
  - exists (length before), (length after). unfold slice. rewrite !Nat.sub_diag. repeat split; auto.
  - destruct IH as (i' & j' & ? & ? & ? & ? & ? & Hs & Hm).
    exists i', j'. rewrite (slice_cons before i i' x), (slice_cons after j j' x), Hs by (done || lia).
    repeat split; auto; lia.
  - pose proof (aligned_bounds _ _ _ _ _ H). exists i, j. unfold slice. rewrite !Nat.sub_diag.
    repeat split; auto; try lia. by constructor.
  - pose proof (aligned_bounds _ _ _ _ _ H). exists i, j. unfold slice. rewrite !Nat.sub_diag.
    repeat split; auto; try lia. by constructor.
Qed.

(** The next edit is not one the block of tag [prev] ending at [(i,j)] should have taken. *)
Definition fresh (prev : Tag) (i j : nat) (ops : list editop) : Prop :=
  match ops with [] => True | e :: _ => tag e = prev → (src e, dest e) ≠ (i, j) end.

Lemma block_run_ok before after t ops i j :
  aligned before after i j ops → t = TagDelete ∨ t = TagInsert →
  ∃ rest i' j', block_run t ops i j = (rest, i', j') ∧ aligned before after i' j' rest ∧
    fresh t i' j' rest ∧ (i' - i) + (j' - j) + length rest = length ops ∧
    (length rest < length ops ∨ fresh t i j ops) ∧
    (t = TagDelete ∧ j' = j ∧ i ≤ i' ∨ t = TagInsert ∧ i' = i ∧ j ≤ j').
Proof.
  revert i j. induction ops as [|e ops IH]; intros i j H Ht; cbn [block_run].
  { exists [], i, j. split_and!; try done; simpl; try lia; first [by right|destruct Ht; [left|right]; auto]. }
  destruct (String.eqb (tag e) t && (i =? src e) && (j =? dest e)) eqn:E.
  - apply andb_true_iff in E as [[E%String.eqb_eq ?%Nat.eqb_eq]%andb_true_iff ?%Nat.eqb_eq].
    destruct (aligned_gap _ _ _ _ _ H) as (i' & j' & _ & _ & _ & _ & _ & _ & Hi & Hj & _ & Hrest).
    assert (i' = i) as -> by congruence. assert (j' = j) as -> by congruence.
    destruct Hrest as [[Htag Hrest]|[Htag Hrest]]; rewrite Htag in E; subst t; cbn.
    all: destruct (IH _ _ Hrest) as (rest & i' & j' & -> & Ha & Hf & Hn & _ & Hd); [auto|].
    all: exists rest, i', j'; destruct Hd as [(?&->&?)|(?&->&?)]; try done.
    all: split_and!; auto; simpl; first [lia|left; split_and!; done || lia|right; split_and!; done || lia].
  - assert (fresh t i j (e :: ops)).
    { intros Et [= Es Ed]. by rewrite Et, Es, Ed, String.eqb_refl, !Nat.eqb_refl in E. }
    exists (e :: ops), i, j. split_and!; try done; simpl; try lia; first [by right|destruct Ht; [left|right]; auto].
Qed.

(** The block appended for the equal lines after the last edit. *)
Definition tail_block (n m i j : nat) : list Opcode :=
  if (i <? n) || (j <? m) then [mkOpcode TagEqual i n j m] else [].

Lemma gap_test i j i' j' :
  i ≤ i' → j ≤ j' → i' - i = j' - j →
  ((i <? i') || (j <? j')) = negb (i =? i') ∧ (i = i' ↔ j = j').
Proof.
  intros. destruct (Nat.ltb_spec i i'), (Nat.ltb_spec j j'), (Nat.eqb_spec i i'); simpl; split; (done || lia).
Qed.

Lemma equal_block_ok before after i j i' j' :
  i ≤ i' → i' - i = j' - j → slice before i i' = slice after j j' → i ≠ i' →
  block_ok before after (mkOpcode TagEqual i i' j j').
Proof. intros. left. simpl. split_and!; done || lia. Qed.

Lemma opsToOpcodes_loop_ok before after fuel ops i j prev acc :
  aligned before after i j ops → length ops ≤ fuel → prev ≠ TagEqual → fresh prev i j ops →
  ∃ blocks i' j', opsToOpcodes_loop fuel ops i j acc = Some (acc ++ blocks, i', j') ∧
    let all := blocks ++ tail_block (length before) (length after) i' j' in
    blocks_cover before after i j prev all ∧ edits all = length ops.
Proof.
  revert ops i j prev acc. induction fuel as [|fuel IH]; intros ops i j prev acc Ha Hf Hp Hfr.
  all: destruct (aligned_gap _ _ _ _ _ Ha) as (gi & gj & Hi & Hj & Hd & Hbi & Hbj & Hs & Hm).
  all: destruct (gap_test i j gi gj Hi Hj Hd) as [Hg Hgij].
  all: destruct ops as [|e ops]; [destruct Hm as [-> ->]|simpl in Hf; try lia].
  1,2: exists [], i, j; rewrite app_nil_r; split; [done|]; unfold tail_block; rewrite Hg;
    destruct (Nat.eqb_spec i (length before)); simpl; [by rewrite <-Hgij|];
    split_and!; auto; by apply equal_block_ok.
  destruct Hm as (Hse & Hde & Hal & Htag). cbn [opsToOpcodes_loop]. rewrite Hse, Hde, Hg.
  destruct (block_run_ok _ _ (tag e) _ _ _ Hal) as (rest & i' & j' & Hrun & Ha' & Hfr' & Hn & Hlt & Hd');
    [naive_solver|].
  assert (length rest ≤ fuel ∧ tag e ≠ TagEqual ∧ (gi < i' ∨ gj < j')) as (Hl & Ht & Hne).
  { simpl in Hn. destruct Hlt as [Hlt|Hlt]; [|by destruct (Hlt eq_refl); rewrite Hse, Hde].
    simpl in Hlt. destruct Htag as [[-> _]|[-> _]]; split_and!; done || lia. }
  pose proof (aligned_bounds _ _ _ _ _ Ha').
  assert (block_ok before after (mkOpcode (tag e) gi i' gj j')) as Hok.
  { right. simpl. destruct Hd' as [(->&->&?)|(->&->&?)]; [right|left]; repeat split; lia. }
  set (b := mkOpcode (tag e) gi i' gj j') in *.
  assert (∀ bs, edits (b :: bs) = i' - gi + (j' - gj) + edits bs) as Hb.
  { intros bs. unfold edits, b. cbn [sum_list_with op_Tag SrcStart SrcEnd DestStart DestEnd].
    by destruct (String.eqb_spec (tag e) TagEqual). }
  destruct (Nat.eqb_spec i gi) as [Ei|Ei]; cbn [negb].
  - assert (j = gj) as Ej by (by apply Hgij). subst i j. rewrite Hrun. fold b.
    destruct (IH rest i' j' (tag e) (acc ++ [b]) Ha' Hl Ht Hfr') as (blocks & i2 & j2 & -> & Hc & He).
    exists (b :: blocks), i2, j2. rewrite <-app_assoc. split; [done|]. cbn zeta in *. rewrite <-app_comm_cons.
    split; [|rewrite Hb; cbn [length] in *; lia]. simpl. split_and!; auto; try lia.
    intros E. by apply (Hfr E); rewrite Hse, Hde.
  - rewrite Hrun. fold b.
    destruct (IH rest i' j' (tag e) ((acc ++ [mkOpcode TagEqual i gi j gj]) ++ [b]) Ha' Hl Ht Hfr')
      as (blocks & i2 & j2 & -> & Hc & He).
    exists (mkOpcode TagEqual i gi j gj :: b :: blocks), i2, j2. rewrite <-!app_assoc. split; [done|].
    cbn zeta in *. rewrite <-!app_comm_cons.
    split; [|change (edits (b :: blocks ++ tail_block (length before) (length after) i2 j2) = length (e :: ops));
             rewrite Hb; cbn [length] in *; lia].
    simpl. split_and!; auto; try lia. by apply equal_block_ok.
Qed.

Lemma aligned_fresh before after i j ops : aligned before after i j ops → fresh "" i j ops.
Proof.
  intros H. destruct (aligned_gap _ _ _ _ _ H) as (i' & j' & _ & _ & _ & _ & _ & _ & Hm).
  destruct ops as [|e ops]; [done|]. destruct Hm as (_ & _ & _ & Ht). intros E. rewrite E in Ht. naive_solver.
Qed.

(** ** The whole function *)

Definition middle (s : list string) (p n : nat) : list string := slice s p (length s - n).

Lemma IndelOpcodes_run before after p n :
  commonAffix before after = (p, n) →
  let s1 := middle before p n in
  let s2 := middle after p n in
  ∃ blocks, IndelOpcodes before after = Some blocks ∧ blocks_cover before after 0 0 "" blocks ∧
    edits blocks + 2 * lcs s1 s2 (length s2) (length s1) = length s1 + length s2.
Proof.
  intros Haff s1 s2. destruct (commonAffix_ok _ _ _ _ Haff) as [Hp Hs].
  pose proof Hs as (Hl1 & Hl2 & _).
  assert (length s1 = length before - n - p) as E1 by (apply slice_length; lia).
  assert (length s2 = length after - n - p) as E2 by (apply slice_length; lia).
  unfold IndelOpcodes. rewrite Haff. fold (middle before p n) (middle after p n). fold s1 s2.
  destruct (lcsMatrix s1 s2) as [sim matrix] eqn:EM.
  apply lcsMatrix_ok in EM as [-> Hm]. set (L := lcs s1 s2 (length s2) (length s1)).
  pose proof (lcs_le s1 s2 (length s2) (length s1)) as HL. fold L in HL.
  set (d := length s1 + length s2 - 2 * L).
  replace (Z.of_nat (length s1) + Z.of_nat (length s2) - 2 * Z.of_nat L)%Z with (Z.of_nat d) by lia.
  destruct (Z.ltb_spec (Z.of_nat d) 0); [lia|]. cbn. rewrite Nat2Z.id.
  rewrite <-(app_nil_r (replicate d editop_zero)).
  destruct (recover_ok before after s1 s2 matrix p (λ j x, slice_lookup _ _ _ _ _)
     (λ j x, slice_lookup _ _ _ _ _) Hm (length s1 + length s2) (length s1) (length s2) d [])
    as (col & row & acc & -> & Hc & Hr & Ha & Hz & Hlen); [lia..| |].
  { replace (length s1 + p) with (length before - n) by lia.
    replace (length s2 + p) with (length after - n) by lia. by eapply aligned_suffix. }
  cbn. destruct (deletes_ok before after s1 p (λ j x, slice_lookup _ _ _ _ _) col row row acc)
    as (acc2 & -> & Ha2 & Hlen2); [done..|].
  cbn. destruct (inserts_ok before after s2 p (λ j x, slice_lookup _ _ _ _ _) row acc2)
    as (ops & -> & Ha3 & Hlen3); [done..|].
  cbn. unfold opsToOpcodes. replace (length s1 + p + n) with (length before) by lia.
  replace (length s2 + p + n) with (length after) by lia.
  apply aligned_prefix in Ha3; [|done].
  destruct (opsToOpcodes_loop_ok before after (length ops) ops 0 0 "" [] Ha3)
    as (blocks & i' & j' & -> & Hcov & Hed); [done|done|by eapply aligned_fresh|].
  cbn. exists (blocks ++ tail_block (length before) (length after) i' j').
  split; [unfold tail_block; destruct (_ || _); [done|by rewrite app_nil_r]|]. split; [done|].
  rewrite Hed. simpl in Hlen. lia.
Qed.

Lemma IndelOpcodes_some before after :
  ∃ blocks, IndelOpcodes before after = Some blocks ∧ blocks_cover before after 0 0 "" blocks.
Proof.
  destruct (commonAffix before after) as [p n] eqn:E.
  destruct (IndelOpcodes_run _ _ _ _ E) as (blocks & ? & ? & _). eauto.
Qed.

(** ** Optimality *)

(** A common first or last line adds at most one to a common subsequence. *)
Lemma common_cons x (a b l : list string) k :
  (∀ l, l `sublist_of` a → l `sublist_of` b → length l ≤ k) →
  l `sublist_of` x :: a → l `sublist_of` x :: b → length l ≤ S k.
Proof.
  intros H. destruct l as [|y l]; [simpl; lia|]. simpl. intros Ha Hb.
  assert (∀ c, y :: l `sublist_of` x :: c → l `sublist_of` c) as Htail.
  { intros c Hc. apply sublist_cons_r in Hc as [Hc|(? & [= <- <-] & Hc)]; [|done].
    etrans; [|exact Hc]. by apply sublist_cons. }
  apply le_n_S, H; by apply Htail.
Qed.

Lemma common_snoc x (a b l : list string) k :
  (∀ l, l `sublist_of` a → l `sublist_of` b → length l ≤ k) →
  l `sublist_of` a ++ [x] → l `sublist_of` b ++ [x] → length l ≤ S k.
Proof.
  intros H. destruct l as [|y l _] using rev_ind; [simpl; lia|]. intros Ha Hb.
  assert (∀ c, l ++ [y] `sublist_of` c ++ [x] → l `sublist_of` c) as Hinit.
  { intros c Hc. apply sublist_snoc_inv in Hc as [Hc|(l' & [<- _]%app_inj_tail & Hc)]; [|done].
    etrans; [|exact Hc]. apply sublist_inserts_r. done. }
  rewrite length_app. simpl. rewrite Nat.add_1_r. apply le_n_S, H; by apply Hinit.
Qed.

Lemma common_affix_bound (pre suf a b l : list string) k :
  (∀ l, l `sublist_of` a → l `sublist_of` b → length l ≤ k) →
  l `sublist_of` pre ++ a ++ suf → l `sublist_of` pre ++ b ++ suf →
  length l ≤ length pre + length suf + k.
Proof.
  intros H. revert l. induction pre as [|x pre IH]; simpl.
  - induction suf as [|x suf IH] using rev_ind; simpl; [by rewrite !app_nil_r|].
    rewrite !app_assoc. intros l Ha Hb. rewrite length_app. simpl.
    replace (length suf + 1 + k) with (S (length suf + k)) by lia. by eapply common_snoc.
  - intros l Ha Hb. by eapply common_cons.
Qed.

Lemma affix_split before after p n :
  agree_prefix before after p → agree_suffix before after p n →
  before = take p before ++ middle before p n ++ drop (length before - n) before ∧
  after = take p before ++ middle after p n ++ drop (length before - n) before.
Proof.
  intros (H1 & H2 & Hp) (H3 & H4 & Hs).
  assert (∀ s : list string, p + n ≤ length s → s = take p s ++ middle s p n ++ drop (length s - n) s) as Hsplit.
  { intros s Hlen. unfold middle, slice. rewrite <-(take_drop p s) at 1. f_equal.
    rewrite <-(take_drop (length s - n - p) (drop p s)) at 1. rewrite drop_drop. do 2 f_equal. lia. }
  split; [by apply Hsplit|]. rewrite (Hsplit after) at 1 by done. f_equal; [|f_equal].
  - apply list_eq_same_length with p; [rewrite length_take; lia..|].
    intros k x y Hk Hx Hy. rewrite lookup_take_lt in Hx by done. rewrite lookup_take_lt in Hy by done.
    destruct (Hp k Hk) as (z & ? & ?). congruence.
  - apply list_eq_same_length with n; [rewrite length_drop; lia..|].
    intros k x y Hk Hx Hy. rewrite lookup_drop in Hx, Hy.
    destruct (Hs (n - 1 - k)) as (z & E1 & E2); [lia|].
    replace (length before - 1 - (n - 1 - k)) with (length before - n + k) in E1 by lia.
    replace (length after - 1 - (n - 1 - k)) with (length after - n + k) in E2 by lia. congruence.
Qed.

(** ** What the blocks say about the files *)

(** The lines an alignment keeps, and the two files it describes. *)
Definition kept (before : list string) (blocks : list Opcode) : list string :=
  b ← blocks; if String.eqb (op_Tag b) TagEqual then slice before (SrcStart b) (SrcEnd b) else [].

Definition replay (before after : list string) (blocks : list Opcode) : list string :=
  b ← blocks;
  if String.eqb (op_Tag b) TagEqual then slice before (SrcStart b) (SrcEnd b)
  else if String.eqb (op_Tag b) TagInsert then slice after (DestStart b) (DestEnd b) else [].

Definition unreplay (before after : list string) (blocks : list Opcode) : list string :=
  b ← blocks;
  if String.eqb (op_Tag b) TagEqual then slice after (DestStart b) (DestEnd b)
  else if String.eqb (op_Tag b) TagDelete then slice before (SrcStart b) (SrcEnd b) else [].

Lemma cover_describes before after i j prev blocks :
  blocks_cover before after i j prev blocks →
  kept before blocks `sublist_of` drop i before ∧ kept before blocks `sublist_of` drop j after ∧
  replay before after blocks = drop j after ∧ unreplay before after blocks = drop i before ∧
  edits blocks + 2 * length (kept before blocks) = (length before - i) + (length after - j) ∧
  i ≤ length before ∧ j ≤ length after.
Proof.
  revert i j prev. induction blocks as [|b blocks IH]; intros i j prev; cbn [blocks_cover].
  { intros [-> ->]. rewrite !drop_all. split_and!; done || (simpl; lia). }
  intros (<- & <- & Hs & Hd & Hok & _ & Hc). apply IH in Hc as (K1 & K2 & R1 & R2 & E & _ & _).
  unfold kept, replay, unreplay, edits in *. cbn. rewrite R1, R2.
  destruct Hok as [(Et & Hlt & Hsl & Hn)|[(Et & Heq & Hlt)|(Et & Hlt & Heq)]]; rewrite Et; cbn.
  - rewrite <-(slice_drop before (SrcStart b) (SrcEnd b)), <-(slice_drop after (DestStart b) (DestEnd b)) by lia.
    rewrite length_app, Hsl.
    assert (length (slice after (DestStart b) (DestEnd b)) = DestEnd b - DestStart b) by (apply slice_length; lia).
    split_and!; try lia; try done; by apply sublist_app.
  - rewrite <-Heq, <-(slice_drop after (DestStart b) (DestEnd b)) by lia.
    split_and!; try lia; try done; [by rewrite Heq|by apply sublist_inserts_l].
  - rewrite <-Heq, <-(slice_drop before (SrcStart b) (SrcEnd b)) by lia.
    split_and!; try lia; try done; [by apply sublist_inserts_l|by rewrite Heq].
Qed.

Lemma IndelOpcodes_common before after :
  ∃ blocks, IndelOpcodes before after = Some blocks ∧
    kept before blocks `sublist_of` before ∧ kept before blocks `sublist_of` after ∧
    edits blocks + 2 * length (kept before blocks) = length before + length after ∧
    ∀ l, l `sublist_of` before → l `sublist_of` after → length l ≤ length (kept before blocks).
Proof.
  destruct (commonAffix before after) as [p n] eqn:Ea.
  destruct (IndelOpcodes_run _ _ _ _ Ea) as (blocks & E & Hc & Hed). exists blocks. split; [done|].
  apply cover_describes in Hc as (K1 & K2 & _ & _ & Hk & _). rewrite !drop_0, !Nat.sub_0_r in *.
  split_and!; [done..|]. apply commonAffix_ok in Ea as [Hp Hs].
  destruct (affix_split _ _ _ _ Hp Hs) as [E1 E2]. intros l Hl1 Hl2. rewrite E1 in Hl1. rewrite E2 in Hl2.
  pose proof (f_equal length E1) as L1. pose proof (f_equal length E2) as L2. rewrite !length_app in L1, L2.
  assert (length l ≤ length (take p before) + length (drop (length before - n) before)
    + lcs (middle before p n) (middle after p n) (length (middle after p n)) (length (middle before p n))); [|lia].
  apply (common_affix_bound _ _ (middle before p n) (middle after p n)); [|done..]. intros l' H1 H2. apply lcs_upper; [done..| |]; by rewrite take_ge by done.
Qed.

(** ** Results *)

(** The alignment of two files always exists (the walk never writes outside
    its slice and the grouping loop ends), its blocks run contiguously from
    (0,0) to both ends with no replace block and no two neighbours of one tag,
    and replaying them on either file gives the other. *)
Theorem IndelOpcodes_aligns before after :
  ∃ blocks, IndelOpcodes before after = Some blocks ∧
    blocks_cover before after 0 0 "" blocks ∧
    replay before after blocks = after ∧ unreplay before after blocks = before.
Proof.
  destruct (IndelOpcodes_some before after) as (blocks & E & Hc). exists blocks. split; [done|].
  split; [done|]. apply cover_describes in Hc as (_ & _ & R1 & R2 & _). by rewrite R1, R2, !drop_0.
Qed.

(** C8. The alignment is optimal: the lines it keeps are a common subsequence of
    the two files that no common subsequence exceeds, and the lines it inserts
    and deletes are all the others. *)
Theorem IndelOpcodes_optimal before after :
  ∃ blocks, IndelOpcodes before after = Some blocks ∧
    kept before blocks `sublist_of` before ∧ kept before blocks `sublist_of` after ∧
    edits blocks + 2 * length (kept before blocks) = length before + length after ∧
    ∀ l, l `sublist_of` before → l `sublist_of` after → length l ≤ length (kept before blocks).
Proof. apply IndelOpcodes_common. Qed.

(** The bit-parallel table is the quadratic one: the similarity is its last
    entry, and bit [j] of row [i] is clear exactly where entry [j+1] of the
    table's row [i+1] exceeds entry [j]. *)
Theorem lcsMatrix_is_table s1 s2 :
  let '(sim, matrix) := lcsMatrix s1 s2 in
  sim = Z.of_nat (lcs s1 s2 (length s2) (length s1)) ∧
  ∀ i j, i < length s2 → j < length s1 →
    ∃ r, matrix !! i = Some r ∧
      test r (Z.of_nat j) = (lcs s1 s2 (S i) (S j) =? lcs s1 s2 (S i) j).
Proof.
  destruct (lcsMatrix s1 s2) as [sim matrix] eqn:E. apply lcsMatrix_ok in E as [-> Hm]. split; [done|].
  intros i j Hi Hj. destruct (Hm ltac:(by intros ->; simpl in Hj; lia) i Hi) as (r & Hr & Hv).
  exists r. split; [done|]. by apply vec_test.
Qed.
