(* ===== verification/FileDiff.v ===== *)
(** * Line diffs (src/internal/filediff/filediff.go, pytext.go, payload.go)

    [FileDiffFromText] aligns two texts line by line with [IndelOpcodes];
    [Groups] cuts the alignment into hunks, [UnifiedLines] renders them and
    [limitUnifiedDiffLines] bounds what is rendered.  [IndelOpcodes] never
    fails, so its option is discharged here once ([opcodes_of]). *)

From S2P Require Import Prelude GoText GoLib BitVec Indel.
From Stdlib Require Import Ascii.

#[local] Open Scope string_scope.
#[local] Open Scope list_scope.
#[local] Open Scope nat_scope.

(** ** Lines *)

(** The width of the line break at the head of [s], 0 for none. *)
Definition break_width (s : string) : nat :=
  match s with
  | "" => 0
  | String c t =>
      let b := byteZ c in
      if ((b =? 10) || (b =? 11) || (b =? 12) || (b =? 0x1c) || (b =? 0x1d) || (b =? 0x1e))%Z then 1
      else if (b =? 13)%Z then
        match t with String d _ => if (byteZ d =? 10)%Z then 2 else 1 | "" => 1 end
      else if (b =? 0xc2)%Z then
        match t with String d _ => if (byteZ d =? 0x85)%Z then 2 else 0 | "" => 0 end
      else if (b =? 0xe2)%Z then
        match t with
        | String d (String e _) =>
            if (byteZ d =? 0x80)%Z && ((byteZ e =? 0xa8)%Z || (byteZ e =? 0xa9)%Z) then 3 else 0
        | _ => 0
        end
      else 0
  end.

(** [s[lo:hi]] *)
Definition substr (s : string) (lo hi : nat) : string := stake (hi - lo) (sdrop lo s).

Fixpoint pySplitLines_loop (fuel : nat) (s : string) (i start : nat) (out : list string) : list string :=
  match fuel with
  | O => out
  | S fuel =>
      if i <? slen s then
        let width := break_width (sdrop i s) in
        if width =? 0 then pySplitLines_loop fuel s (S i) start out
        else pySplitLines_loop fuel s (i + width) (i + width) (out ++ [substr s start i])
      else if start <? slen s then out ++ [substr s start (slen s)] else out
  end.

(** Every iteration advances [i]; one more evaluates the exit. *)
Definition pySplitLines (s : string) : list string := pySplitLines_loop (S (slen s)) s 0 0 [].

Definition crlf : string := String (ascii_of_nat 13) (String (ascii_of_nat 10) "").
Definition lf : string := String (ascii_of_nat 10) "".

Definition normLines (s : string) : list string := pySplitLines (ReplaceAll s crlf lf).

(** ** The diff *)

Record FileDiff := mkFileDiff {
  BeforeLines : list string; AfterLines : list string; Opcodes : list Opcode;
  Added : nat; Deleted : nat }.

Definition opcodes_of (before after : list string) : list Opcode := default [] (IndelOpcodes before after).

Definition deletedBy (c : Opcode) : nat :=
  if String.eqb (op_Tag c) TagReplace || String.eqb (op_Tag c) TagDelete then SrcEnd c - SrcStart c else 0.
Definition addedBy (c : Opcode) : nat :=
  if String.eqb (op_Tag c) TagReplace || String.eqb (op_Tag c) TagInsert then DestEnd c - DestStart c else 0.

Definition FileDiffFromText (before after : string) : FileDiff :=
  let beforeLines := normLines before in
  let afterLines := normLines after in
  let opcodes := opcodes_of beforeLines afterLines in
  let '(added, deleted) :=
    foldl (λ '(added, deleted) code, (added + addedBy code, deleted + deletedBy code)) (0, 0) opcodes in
  mkFileDiff beforeLines afterLines opcodes added deleted.

Fixpoint equalStrings (a b : list string) : bool :=
  match a, b with
  | [], [] => true
  | x :: a, y :: b => String.eqb x y && equalStrings a b
  | _, _ => false
  end.

Definition Matches (d : FileDiff) (before after : string) : bool :=
  equalStrings (BeforeLines d) (normLines before) && equalStrings (AfterLines d) (normLines after).

Definition LineDiffStats (before after : option string) : nat * nat :=
  match before, after with
  | Some b, Some a => let d := FileDiffFromText b a in (Added d, Deleted d)
  | _, _ => (0, 0)
  end.

(** ** Hunks *)

Definition hasNonEqual (group : list Opcode) : bool := existsb (λ c, negb (String.eqb (op_Tag c) TagEqual)) group.

(** The two ends, when equal, shortened to [context] lines. *)
Definition trimFirst (context : nat) (codes : list Opcode) : list Opcode :=
  match codes with
  | first :: rest =>
      if String.eqb (op_Tag first) TagEqual then
        mkOpcode TagEqual (SrcStart first `max` (SrcEnd first - context)) (SrcEnd first)
          (DestStart first `max` (DestEnd first - context)) (DestEnd first) :: rest
      else codes
  | [] => []
  end.

Definition trimLastOp (context : nat) (c : Opcode) : Opcode :=
  if String.eqb (op_Tag c) TagEqual then
    mkOpcode TagEqual (SrcStart c) (SrcEnd c `min` (SrcStart c + context))
      (DestStart c) (DestEnd c `min` (DestStart c + context))
  else c.

Fixpoint trimLast (context : nat) (codes : list Opcode) : list Opcode :=
  match codes with
  | [] => []
  | [c] => [trimLastOp context c]
  | c :: rest => c :: trimLast context rest
  end.

Fixpoint Groups_loop (context : nat) (codes : list Opcode) (group : list Opcode) (groups : list (list Opcode))
    : list (list Opcode) :=
  match codes with
  | [] => if hasNonEqual group then groups ++ [group] else groups
  | code :: rest =>
      if String.eqb (op_Tag code) TagEqual && (context * 2 <? SrcEnd code - SrcStart code) then
        let group := group ++ [mkOpcode (op_Tag code) (SrcStart code) (SrcStart code + context)
                                 (DestStart code) (DestStart code + context)] in
        Groups_loop context rest
          [mkOpcode (op_Tag code) (SrcEnd code - context) (SrcEnd code) (DestEnd code - context) (DestEnd code)]
          (groups ++ [group])
      else Groups_loop context rest
             (group ++ [mkOpcode (op_Tag code) (SrcStart code) (SrcEnd code) (DestStart code) (DestEnd code)]) groups
  end.

Definition Groups (d : FileDiff) (context : nat) : list (list Opcode) :=
  match Opcodes d with
  | [] => []
  | _ => Groups_loop context (trimLast context (trimFirst context (Opcodes d))) [] []
  end.

Definition formatHunkRange (start lineCount : nat) : string :=
  if lineCount =? 1 then Itoa (Z.of_nat start)
  else Itoa (Z.of_nat start) +:+ "," +:+ Itoa (Z.of_nat lineCount).

Definition boolToInt (b : bool) : nat := if b then 1 else 0.

(** The body lines of one opcode. *)
Definition codeLines (d : FileDiff) (code : Opcode) : list string :=
  (if String.eqb (op_Tag code) TagEqual
   then map (String " ") (slice (BeforeLines d) (SrcStart code) (SrcEnd code)) else []) ++
  (if String.eqb (op_Tag code) TagReplace || String.eqb (op_Tag code) TagDelete
   then map (String "-") (slice (BeforeLines d) (SrcStart code) (SrcEnd code)) else []) ++
  (if String.eqb (op_Tag code) TagReplace || String.eqb (op_Tag code) TagInsert
   then map (String "+") (slice (AfterLines d) (DestStart code) (DestEnd code)) else []).

(** [group[0]] and [group[len-1]] of a non-empty group. *)
Definition opcode_zero : Opcode := mkOpcode "" 0 0 0 0.
Definition first_of (group : list Opcode) : Opcode := default opcode_zero (head group).
Definition last_of (group : list Opcode) : Opcode := default opcode_zero (last group).

Definition oldCount (group : list Opcode) : nat := SrcEnd (last_of group) - SrcStart (first_of group).
Definition newCount (group : list Opcode) : nat := DestEnd (last_of group) - DestStart (first_of group).

Definition hunkHeader (group : list Opcode) : string :=
  "@@ -" +:+ formatHunkRange (SrcStart (first_of group) + boolToInt (negb (oldCount group =? 0))) (oldCount group)
  +:+ " +" +:+ formatHunkRange (DestStart (first_of group) + boolToInt (negb (newCount group =? 0))) (newCount group)
  +:+ " @@".

Definition hunkBody (d : FileDiff) (group : list Opcode) : list string := mbind (codeLines d) group.

Definition UnifiedLines (d : FileDiff) (fromfile tofile : string) (context : nat) : list string :=
  if (Added d =? 0) && (Deleted d =? 0) then [] else
  ["--- " +:+ fromfile; "+++ " +:+ tofile] ++
  mbind (λ group, hunkHeader group :: hunkBody d group) (Groups d context).

(** ** Counts *)

Lemma counts_fold codes a b :
  foldl (λ '(added, deleted) code, (added + addedBy code, deleted + deletedBy code)) (a, b) codes
  = (a + sum_list_with addedBy codes, b + sum_list_with deletedBy codes).
Proof.
  revert a b. induction codes as [|c codes IH]; intros a b; simpl; [f_equal; lia|].
  rewrite IH. f_equal; lia.
Qed.

Lemma cover_counts before after i j prev blocks :
  blocks_cover before after i j prev blocks →
  sum_list_with addedBy blocks + length (kept before blocks) + j = length after ∧
  sum_list_with deletedBy blocks + length (kept before blocks) + i = length before.
Proof.
  revert i j prev. induction blocks as [|b blocks IH]; intros i j prev; cbn [blocks_cover].
  { intros [-> ->]. simpl. lia. }
  intros (<- & <- & Hs & Hd & Hok & _ & Hc). apply IH in Hc as [E1 E2].
  unfold kept, addedBy, deletedBy in *. cbn. rewrite length_app.
  destruct Hok as [(Et & Hlt & Hsl & Hn)|[(Et & Heq & Hlt)|(Et & Hlt & Heq)]]; rewrite Et; cbn; try lia.
  rewrite slice_length by lia. lia.
Qed.

(** ** Hunks describe the change *)

Section Hunks.
Context (before after : list string).

(** Lines [i..i'] of [before] are lines [j..j'] of [after]. *)
Definition gap_eq (i j i' j' : nat) : Prop :=
  i ≤ i' ≤ length before ∧ j ≤ j' ≤ length after ∧ i' - i = j' - j ∧ slice before i i' = slice after j j'.

(** One opcode, possibly an empty equal block (a context of 0 lines). *)
Definition step_ok (c : Opcode) : Prop :=
  op_Tag c = TagEqual ∧ gap_eq (SrcStart c) (DestStart c) (SrcEnd c) (DestEnd c)
  ∨ op_Tag c = TagInsert ∧ SrcStart c = SrcEnd c ∧ DestStart c < DestEnd c ≤ length after
  ∨ op_Tag c = TagDelete ∧ SrcStart c < SrcEnd c ≤ length before ∧ DestStart c = DestEnd c.

(** A contiguous run of opcodes from [(i,j)] to [(i',j')]. *)
Fixpoint chain (i j : nat) (g : list Opcode) (i' j' : nat) : Prop :=
  match g with
  | [] => i = i' ∧ j = j'
  | c :: g => SrcStart c = i ∧ DestStart c = j ∧ step_ok c ∧ chain (SrcEnd c) (DestEnd c) g i' j'
  end.

(** Hunks in order, with equal lines between them and around them. *)
Fixpoint hunks_ok (i j : nat) (groups : list (list Opcode)) : Prop :=
  match groups with
  | [] => gap_eq i j (length before) (length after)
  | g :: groups =>
      ∃ gi gj i' j', gap_eq i j gi gj ∧ chain gi gj g i' j' ∧ hasNonEqual g = true ∧ hunks_ok i' j' groups
  end.

Lemma gap_refl i j : i ≤ length before → j ≤ length after → gap_eq i j i j.
Proof. intros. unfold gap_eq, slice. rewrite !Nat.sub_diag. split_and!; done || lia. Qed.

Lemma gap_trans i j k l m n : gap_eq i j k l → gap_eq k l m n → gap_eq i j m n.
Proof.
  intros (?&?&?&E1) (?&?&?&E2). unfold gap_eq.
  rewrite <-(slice_app before i k m), <-(slice_app after j l n), E1, E2 by lia. split_and!; done || lia.
Qed.


Lemma gap_split i j m n k : gap_eq i j m n → k ≤ m - i → gap_eq i j (i + k) (j + k) ∧ gap_eq (i + k) (j + k) m n.
Proof.
  intros (?&?&?&E) Hk.
  rewrite <-(slice_app before i (i + k) m), <-(slice_app after j (j + k) n) in E by lia.
  apply app_inj_1 in E as [E1 E2]; [|rewrite !slice_length; lia].
  unfold gap_eq. split_and!; done || lia.
Qed.

Lemma chain_app i j g1 k l g2 m n : chain i j g1 k l → chain k l g2 m n → chain i j (g1 ++ g2) m n.
Proof.
  revert i j. induction g1 as [|c g1 IH]; intros i j; simpl; [intros [-> ->]; done|].
  intros (E1 & E2 & Hs & Hc) Hr. split_and!; auto.
Qed.

Lemma chain_snoc i j g c :
  chain i j g (SrcStart c) (DestStart c) → step_ok c → chain i j (g ++ [c]) (SrcEnd c) (DestEnd c).
Proof. intros Hg Hs. eapply chain_app; [exact Hg|]. simpl. by split_and!. Qed.

(** A run without a change is a gap. *)
Lemma chain_equal i j g k l :
  i ≤ length before → j ≤ length after → chain i j g k l → hasNonEqual g = false → gap_eq i j k l.
Proof.
  revert i j. induction g as [|c g IH]; intros i j Hi Hj; simpl; [intros [-> ->] _; by apply gap_refl|].
  intros (<- & <- & Hs & Hc) H. apply orb_false_iff in H as [Ht H].
  apply negb_false_iff, String.eqb_eq in Ht.
  destruct Hs as [[_ Hg]|[(E&_)|(E&_)]]; [|rewrite E in Ht; done..].
  eapply gap_trans; [exact Hg|]. destruct Hg as (?&?&_). apply IH; auto; lia.
Qed.

Lemma chain_bounds i j g k l :
  i ≤ length before → j ≤ length after → chain i j g k l → k ≤ length before ∧ l ≤ length after.
Proof.
  revert i j. induction g as [|c g IH]; intros i j Hi Hj; simpl; [intros [-> ->]; done|].
  intros (<- & <- & Hs & Hc). eapply IH; [| |exact Hc]; destruct Hs as [[_ (?&?&_)]|[(_&?&?)|(_&?&?)]]; lia.
Qed.

(** Neighbouring tags differ. *)
Fixpoint alternate (prev : Tag) (g : list Opcode) : Prop :=
  match g with [] => True | c :: g => op_Tag c ≠ prev ∧ alternate (op_Tag c) g end.

Lemma cover_chain i j prev blocks :
  blocks_cover before after i j prev blocks →
  chain i j blocks (length before) (length after) ∧ alternate prev blocks.
Proof.
  revert i j prev. induction blocks as [|b blocks IH]; intros i j prev; simpl; [done|].
  intros (?&?&?&?&Hok&?&Hc). apply IH in Hc as [Hc Ha]. split_and!; auto.
  destruct Hok as [(?&?&?&?)|[(?&?&?)|(?&?&?)]]; [left|right; left|right; right]; unfold gap_eq; split_and!; done || lia.
Qed.

Lemma trimFirst_ok ctx i j codes k l :
  i ≤ length before → j ≤ length after → chain i j codes k l →
  ∃ si sj, gap_eq i j si sj ∧ chain si sj (trimFirst ctx codes) k l.
Proof.
  intros Hi Hj. destruct codes as [|c codes]; simpl; [intros [-> ->]; exists k, l; eauto using gap_refl|].
  intros (<- & <- & Hs & Hc). destruct (String.eqb_spec (op_Tag c) TagEqual) as [E|E].
  - destruct Hs as [[_ Hg]|[(E'&_)|(E'&_)]]; [|by rewrite E' in E..].
    destruct (gap_split _ _ _ _ (SrcStart c `max` (SrcEnd c - ctx) - SrcStart c) Hg) as [G1 G2]; [lia|].
    destruct Hg as (?&?&?&_).
    exists (SrcStart c `max` (SrcEnd c - ctx)), (DestStart c `max` (DestEnd c - ctx)).
    replace (SrcStart c + (SrcStart c `max` (SrcEnd c - ctx) - SrcStart c)) with (SrcStart c `max` (SrcEnd c - ctx)) in * by lia.
    replace (DestStart c + (SrcStart c `max` (SrcEnd c - ctx) - SrcStart c)) with (DestStart c `max` (DestEnd c - ctx)) in * by lia.
    split; [done|]. simpl. split_and!; auto. left. done.
  - exists (SrcStart c), (DestStart c). split; [by apply gap_refl|]. by simpl.
Qed.

Lemma trimLast_ok ctx i j codes k l :
  i ≤ length before → j ≤ length after → chain i j codes k l →
  ∃ k' l', chain i j (trimLast ctx codes) k' l' ∧ gap_eq k' l' k l.
Proof.
  intros Hi Hj H. pose proof (chain_bounds _ _ _ _ _ Hi Hj H) as [Hk Hl]. revert i j Hi Hj H.
  induction codes as [|c codes IH]; intros i j Hi Hj;
    [intros [-> ->]; exists k, l; split; [by simpl|by apply gap_refl]|].
  destruct codes as [|c2 codes].
  - simpl. intros (<- & <- & Hs & <- & <-). unfold trimLastOp.
    destruct (String.eqb_spec (op_Tag c) TagEqual) as [E|E].
    + destruct Hs as [[_ Hg]|[(E'&_)|(E'&_)]]; [|by rewrite E' in E..].
      destruct (gap_split _ _ _ _ (SrcEnd c `min` (SrcStart c + ctx) - SrcStart c) Hg) as [G1 G2]; [lia|].
      destruct Hg as (?&?&?&_).
      exists (SrcEnd c `min` (SrcStart c + ctx)), (DestEnd c `min` (DestStart c + ctx)).
      replace (SrcStart c + (SrcEnd c `min` (SrcStart c + ctx) - SrcStart c)) with (SrcEnd c `min` (SrcStart c + ctx)) in * by lia.
      replace (DestStart c + (SrcEnd c `min` (SrcStart c + ctx) - SrcStart c)) with (DestEnd c `min` (DestStart c + ctx)) in * by lia.
      simpl. split_and!; auto. left. done.
    + exists (SrcEnd c), (DestEnd c). split; [by simpl|]. by apply gap_refl.
  - intros (H1 & H2 & Hs & Hc).
    assert (SrcEnd c ≤ length before ∧ DestEnd c ≤ length after) as [? ?].
    { destruct Hs as [[_ (?&?&_)]|[(_&?&?)|(_&?&?)]]; lia. }
    destruct (IH _ _ ltac:(done) ltac:(done) Hc) as (k' & l' & Hc' & Hg). exists k', l'. split; [|done].
    change (chain i j (c :: trimLast ctx (c2 :: codes)) k' l'). by simpl.
Qed.

(** A group that holds no change yet is not closed by the next opcode. *)
Definition open_ok (ctx : nat) (group codes : list Opcode) : Prop :=
  hasNonEqual group = true ∨
  match codes with [] => True | c :: _ => op_Tag c ≠ TagEqual ∨ SrcEnd c - SrcStart c ≤ ctx * 2 end.

Lemma hasNonEqual_app g1 g2 : hasNonEqual (g1 ++ g2) = hasNonEqual g1 || hasNonEqual g2.
Proof. apply existsb_app. Qed.

Lemma Groups_loop_ok ctx codes group groups pi pj gi gj i j k l prev :
  gap_eq pi pj gi gj → chain gi gj group i j → chain i j codes k l →
  gap_eq k l (length before) (length after) → alternate prev codes → open_ok ctx group codes →
  ∃ new, Groups_loop ctx codes group groups = groups ++ new ∧ hunks_ok pi pj new.
Proof.
  revert group groups pi pj gi gj i j prev.
  induction codes as [|c codes IH]; intros group groups pi pj gi gj i j prev Hp Hg Hc Hend Halt Hopen.
  - destruct Hc as [-> ->]. simpl. pose proof Hp as ([_ ?]&[_ ?]&_). destruct (hasNonEqual group) eqn:E.
    + exists [group]. split; [done|]. exists gi, gj, k, l. by split_and!.
    + exists []. rewrite app_nil_r. split; [done|]. simpl.
      eapply gap_trans; [exact Hp|]. eapply gap_trans; [by eapply chain_equal|done].
  - destruct Hc as (<- & <- & Hs & Hc). destruct Halt as [Hne Halt]. cbn [Groups_loop].
    replace (mkOpcode (op_Tag c) (SrcStart c) (SrcEnd c) (DestStart c) (DestEnd c)) with c by by destruct c.
    destruct (String.eqb_spec (op_Tag c) TagEqual) as [Et|Et]; cbn [andb].
    + assert (gap_eq (SrcStart c) (DestStart c) (SrcEnd c) (DestEnd c)) as Hgap.
      { destruct Hs as [[_ Hgap]|[(E'&_)|(E'&_)]]; [done|by rewrite E' in Et..]. }
      assert (∀ g, open_ok ctx g codes) as Hnext.
      { intros g. right. destruct codes as [|c2 codes]; [done|]. left. rewrite <-Et. apply Halt. }
      destruct (Nat.ltb_spec (ctx * 2) (SrcEnd c - SrcStart c)) as [Hlong|Hshort].
      * set (b1 := mkOpcode (op_Tag c) (SrcStart c) (SrcStart c + ctx) (DestStart c) (DestStart c + ctx)).
        set (b2 := mkOpcode (op_Tag c) (SrcEnd c - ctx) (SrcEnd c) (DestEnd c - ctx) (DestEnd c)).
        pose proof Hgap as (?&?&?&_).
        destruct (gap_split _ _ _ _ ctx Hgap) as [G1 G2]; [lia|].
        destruct (gap_split _ _ _ _ (SrcEnd c - SrcStart c - ctx - ctx) G2) as [G3 G4]; [lia|].
        replace (SrcStart c + ctx + (SrcEnd c - SrcStart c - ctx - ctx)) with (SrcEnd c - ctx) in * by lia.
        replace (DestStart c + ctx + (SrcEnd c - SrcStart c - ctx - ctx)) with (DestEnd c - ctx) in * by lia.
        destruct (IH [b2] (groups ++ [group ++ [b1]]) (SrcStart c + ctx) (DestStart c + ctx)
          (SrcEnd c - ctx) (DestEnd c - ctx) (SrcEnd c) (DestEnd c) (op_Tag c)) as (new & -> & Hnew); auto.
        { simpl. split_and!; auto. by left. }
        exists ((group ++ [b1]) :: new). rewrite <-app_assoc. split; [done|].
        exists gi, gj, (SrcStart c + ctx), (DestStart c + ctx).
        assert (step_ok b1) as Hb1 by (by left). split_and!; auto.
        -- exact (chain_snoc gi gj group b1 Hg Hb1).
        -- rewrite hasNonEqual_app. destruct Hopen as [->|[?|?]]; [done|done|lia].
      * eapply IH; eauto using chain_snoc.
    + eapply IH; eauto using chain_snoc. left. rewrite hasNonEqual_app. simpl.
      destruct (String.eqb_spec (op_Tag c) TagEqual); [done|]. by rewrite orb_true_r.
Qed.

Lemma trim_alternate ctx codes prev :
  alternate prev codes → alternate prev (trimLast ctx (trimFirst ctx codes)).
Proof.
  assert (∀ codes prev, alternate prev codes → alternate prev (trimLast ctx codes)) as H.
  { clear. induction codes as [|c codes IH]; intros prev; [done|]. intros [Hne Ha].
    specialize (IH _ Ha). destruct codes as [|c2 codes].
    - simpl. unfold trimLastOp. destruct (String.eqb_spec (op_Tag c) TagEqual) as [E|E]; simpl; [|done].
      by rewrite <-E.
    - split; [done|]. exact IH. }
  intros Ha. apply H. destruct codes as [|c codes]; [done|]. simpl.
  destruct (String.eqb_spec (op_Tag c) TagEqual) as [E|E]; [|done]. simpl. by rewrite <-E.
Qed.

Lemma trim_open ctx codes : open_ok ctx [] (trimLast ctx (trimFirst ctx codes)).
Proof.
  right. destruct codes as [|c codes]; [done|]. simpl.
  destruct (String.eqb_spec (op_Tag c) TagEqual) as [E|E]; destruct codes as [|c2 codes]; simpl.
  - right. lia.
  - right. lia.
  - unfold trimLastOp. rewrite (proj2 (String.eqb_neq _ _) E). by left.
  - by left.
Qed.

(** [Groups] cuts a covering alignment into hunks. *)
Lemma Groups_ok ctx codes a b :
  blocks_cover before after 0 0 "" codes →
  hunks_ok 0 0 (Groups (mkFileDiff before after codes a b) ctx).
Proof.
  intros Hc. apply cover_chain in Hc as [Hc Ha]. unfold Groups. simpl.
  destruct codes as [|c codes]; [destruct Hc as [E1 E2]; simpl; rewrite <-E1, <-E2; apply gap_refl; lia|].
  destruct (trimFirst_ok ctx _ _ _ _ _ (Nat.le_0_l _) (Nat.le_0_l _) Hc) as (si & sj & Hg & Hc').
  pose proof Hg as ([_ Hsi]&[_ Hsj]&_).
  destruct (trimLast_ok ctx _ _ _ _ _ Hsi Hsj Hc') as (k & l & Hc2 & Hg2).
  destruct (Groups_loop_ok ctx (trimLast ctx (trimFirst ctx (c :: codes))) [] [] 0 0 si sj si sj k l "" Hg) as (new & -> & Hnew); auto.
  - by simpl.
  - by apply trim_alternate.
  - apply trim_open.
Qed.

(** ** Applying a rendered diff

    [patch_body] reads the body of a hunk as [patch] does: a context or deleted
    line must be the next line of the file, context and added lines are output.
    [patch_hunks] copies the lines in front of a hunk, found from the line number
    of its header. *)

Fixpoint patch_body (body file : list string) : option (list string * list string) :=
  match body with
  | [] => Some ([], file)
  | String m line :: body =>
      if Ascii.eqb m "+" then
        '(out, file) ← patch_body body file; Some (line :: out, file)
      else match file with
      | x :: file =>
          if String.eqb x line then
            '(out, file) ← patch_body body file;
            Some (if Ascii.eqb m " " then line :: out else out, file)
          else None
      | [] => None
      end
  | "" :: _ => None
  end.

(** A hunk as rendered: the index of its first old line, and its body. *)
Fixpoint patch_hunks (hunks : list (nat * list string)) (pos : nat) (file : list string) : option (list string) :=
  match hunks with
  | [] => Some file
  | (at_, body) :: hunks =>
      let copied := take (at_ - pos) file in
      '(out, rest) ← patch_body body (drop (at_ - pos) file);
      tl ← patch_hunks hunks (pos + (length file - length rest)) rest;
      Some (copied ++ out ++ tl)
  end.

Lemma patch_body_app b1 b2 f o1 r1 o2 r2 :
  patch_body b1 f = Some (o1, r1) → patch_body b2 r1 = Some (o2, r2) →
  patch_body (b1 ++ b2) f = Some (o1 ++ o2, r2).
Proof.
  revert f o1. induction b1 as [|[|m line] b1 IH]; intros f o1; simpl; [intros [= <- <-]; done|done|].
  intros H1 H2. destruct (Ascii.eqb m "+").
  - destruct (patch_body b1 f) as [[o r]|] eqn:E; simplify_eq/=. by rewrite (IH _ _ E H2).
  - destruct f as [|x f]; [done|]. destruct (String.eqb x line); [|done].
    destruct (patch_body b1 f) as [[o r]|] eqn:E; simplify_eq/=. rewrite (IH _ _ E H2). simpl.
    by destruct (Ascii.eqb m " ").
Qed.

Lemma patch_context ls f : patch_body (map (String " ") ls) (ls ++ f) = Some (ls, f).
Proof. induction ls as [|x ls IH]; simpl; [done|]. by rewrite String.eqb_refl, IH. Qed.
Lemma patch_delete ls f : patch_body (map (String "-") ls) (ls ++ f) = Some ([], f).
Proof. induction ls as [|x ls IH]; simpl; [done|]. by rewrite String.eqb_refl, IH. Qed.
Lemma patch_insert ls f : patch_body (map (String "+") ls) f = Some (ls, f).
Proof. induction ls as [|x ls IH]; simpl; [done|]. by rewrite IH. Qed.

Lemma patch_code codes a b c :
  step_ok c →
  patch_body (codeLines (mkFileDiff before after codes a b) c) (drop (SrcStart c) before)
  = Some (slice after (DestStart c) (DestEnd c), drop (SrcEnd c) before).
Proof.
  unfold codeLines. simpl.
  intros [[-> (?&?&_&E)]|[(-> & E & ?)|(-> & ? & E)]]; cbn -[slice]; rewrite ?app_nil_r.
  - rewrite <-(slice_drop before (SrcStart c) (SrcEnd c)) by lia. rewrite E. apply patch_context.
  - rewrite E. apply patch_insert.
  - rewrite <-(slice_drop before (SrcStart c) (SrcEnd c)), patch_delete by lia.
    by rewrite E, (slice_nil after).
Qed.

Context (codes : list Opcode) (na nd : nat).
#[local] Abbreviation d := (mkFileDiff before after codes na nd).

(** Lines of a body by side. *)
Definition is_old (l : string) : bool := match l with String m _ => negb (Ascii.eqb m "+") | "" => false end.
Definition is_new (l : string) : bool := match l with String m _ => negb (Ascii.eqb m "-") | "" => false end.

Definition count (f : string → bool) (body : list string) : nat := length (List.filter f body).

Lemma count_app f a b : count f (a ++ b) = count f a + count f b.
Proof. unfold count. by rewrite List.filter_app, length_app. Qed.

Lemma count_map f m ls (b : bool) : (∀ l, f (String m l) = b) → count f (map (String m) ls) = if b then length ls else 0.
Proof.
  intros H. unfold count. induction ls as [|l ls IH]; simpl; [by destruct b|]. rewrite H.
  destruct b; simpl; lia.
Qed.

Lemma step_ok_mono c : step_ok c → SrcStart c ≤ SrcEnd c ∧ DestStart c ≤ DestEnd c.
Proof. intros [[_ (?&?&_)]|[(_&?&?)|(_&?&?)]]; lia. Qed.

Lemma code_counts c :
  step_ok c → count is_old (codeLines d c) = SrcEnd c - SrcStart c ∧
              count is_new (codeLines d c) = DestEnd c - DestStart c.
Proof.
  unfold codeLines. simpl.
  intros [[-> (?&?&E&_)]|[(-> & E & ?)|(-> & ? & E)]]; cbn -[slice count]; rewrite ?app_nil_r.
  all: erewrite !count_map by (intros; cbn; reflexivity); cbn -[slice];
    rewrite ?slice_length by lia; lia.
Qed.

(** A contiguous group, applied and counted. *)
Lemma group_ok g i j i' j' :
  chain i j g i' j' →
  patch_body (hunkBody d g) (drop i before) = Some (slice after j j', drop i' before) ∧
  count is_old (hunkBody d g) = i' - i ∧ count is_new (hunkBody d g) = j' - j ∧ i ≤ i' ∧ j ≤ j'.
Proof.
  revert i j. induction g as [|c g IH]; intros i j.
  { intros [-> ->]. rewrite slice_nil. split_and!; done || (unfold count; simpl; lia). }
  intros (<- & <- & Hs & Hc). apply IH in Hc as (Hp & Ho & Hn & ? & ?).
  destruct (step_ok_mono c Hs). destruct (code_counts c Hs) as [Co Cn].
  change (hunkBody d (c :: g)) with (codeLines d c ++ hunkBody d g).
  rewrite !count_app, Ho, Hn, Co, Cn. split_and!; try lia.
  rewrite <-(slice_app after (DestStart c) (DestEnd c) j') by lia.
  eapply patch_body_app; [by apply patch_code|done].
Qed.

Lemma chain_ends g i j i' j' :
  g ≠ [] → chain i j g i' j' →
  SrcStart (first_of g) = i ∧ DestStart (first_of g) = j ∧ SrcEnd (last_of g) = i' ∧ DestEnd (last_of g) = j'.
Proof.
  assert (∀ g c i j, chain i j (c :: g) i' j' →
    SrcEnd (last_of (c :: g)) = i' ∧ DestEnd (last_of (c :: g)) = j') as Hlast.
  { clear. induction g as [|c2 g IH]; intros c i j (_ & _ & _ & Hc); [done|]. exact (IH _ _ _ Hc). }
  destruct g as [|c g]; [done|]. intros _ Hc. destruct (Hlast _ _ _ _ Hc) as [? ?].
  destruct Hc as (?&?&_). by split_and!.
Qed.

Definition hunks_of (groups : list (list Opcode)) : list (nat * list string) :=
  map (λ g, (SrcStart (first_of g), hunkBody d g)) groups.

Lemma hunks_patch groups i j :
  hunks_ok i j groups → i ≤ length before →
  patch_hunks (hunks_of groups) i (drop i before) = Some (drop j after) ∧
  Forall (λ g, hasNonEqual g = true ∧ oldCount g = count is_old (hunkBody d g) ∧
               newCount g = count is_new (hunkBody d g)) groups.
Proof.
  revert i j. induction groups as [|g groups IH]; intros i j.
  { intros (?&?&?&E) ?. simpl. split; [|done]. f_equal.
    rewrite <-(slice_drop before i (length before)), <-(slice_drop after j (length after)), E, !drop_all by lia. done. }
  intros (gi & gj & i' & j' & Hgap & Hch & Hne & Hrest) Hi.
  destruct (group_ok _ _ _ _ _ Hch) as (Hp & Ho & Hn & ? & ?). pose proof Hgap as ([? ?]&[? ?]&?&Eg).
  destruct (chain_bounds _ _ _ _ _ ltac:(done) ltac:(done) Hch) as [? ?].
  destruct (chain_ends g gi gj i' j') as (E1 & E2 & E3 & E4); [by intros ->|done|].
  destruct (IH _ _ Hrest) as [Hpatch Hall]; [done|].
  split; [|constructor; [unfold oldCount, newCount; rewrite E1, E2, E3, E4; split_and!; auto|done]].
  simpl. rewrite E1, drop_drop. replace (i + (gi - i)) with gi by lia. rewrite Hp. simpl.
  rewrite !length_drop. replace (i + (length before - i - (length before - i'))) with i' by lia.
  rewrite Hpatch. simpl. f_equal. change (take (gi - i) (drop i before)) with (slice before i gi).
  rewrite Eg, slice_drop, slice_drop by lia. done.
Qed.

End Hunks.

(** ** Splitting lines *)

(** No line break starts in [l]. *)
Fixpoint no_break (l : string) : bool :=
  match l with "" => true | String _ t => (break_width l =? 0) && no_break t end.

Definition unlines (ls : list string) : string := foldr (λ l s, l +:+ lf +:+ s) "" ls.

(** A break-free line stays so in front of a newline. *)
Lemma break_width_before_lf c l t :
  break_width (String c l) = 0 → break_width (String c l +:+ lf +:+ t) = 0.
Proof.
  simpl. destruct (_ || _)%Z; [done|]. destruct (byteZ c =? 13)%Z; [destruct l; [done|case_match; done]|].
  destruct (byteZ c =? 0xc2)%Z; [by destruct l|].
  destruct (byteZ c =? 0xe2)%Z; [|done]. destruct l as [|c2 [|c3 l]]; try done.
  all: intros _; simpl; first [by destruct t|by rewrite andb_false_r].
Qed.

Lemma app_cons_assoc pre c l r : pre +:+ String c l +:+ r = (pre +:+ String c "") +:+ l +:+ r.
Proof. induction pre as [|d pre IH]; simpl in *; [done|]. by rewrite IH. Qed.

Lemma substr_mid pre l r : substr (pre +:+ l +:+ r) (slen pre) (slen pre + slen l) = l.
Proof.
  unfold substr. rewrite sdrop_app. replace (slen pre + slen l - slen pre) with (slen l) by lia.
  induction l as [|c l IH]; simpl; [done|]. by rewrite IH.
Qed.

Lemma skip_line fuel pre l t start out :
  no_break l = true →
  pySplitLines_loop (slen l + fuel) (pre +:+ l +:+ lf +:+ t) (slen pre) start out
  = pySplitLines_loop fuel (pre +:+ l +:+ lf +:+ t) (slen pre + slen l) start out.
Proof.
  revert pre. induction l as [|c l IH]; intros pre Hn; [by rewrite Nat.add_0_r|].
  cbn [no_break] in Hn. apply andb_true_iff in Hn as [Hb%Nat.eqb_eq Hn].
  change (slen (String c l) + fuel) with (S (slen l + fuel)). cbn [pySplitLines_loop].
  rewrite sdrop_app, break_width_before_lf by done.
  destruct (Nat.ltb_spec (slen pre) (slen (pre +:+ String c l +:+ lf +:+ t))) as [_|H];
    [|rewrite !slen_app in H; simpl in H; lia].
  rewrite Nat.eqb_refl, app_cons_assoc.
  specialize (IH (pre +:+ String c "") Hn). rewrite slen_app in IH. cbn [slen String.length] in IH.
  change (slen (String c l)) with (S (slen l)).
  replace (slen pre + S (slen l)) with (slen pre + 1 + slen l) by lia.
  rewrite <-IH. f_equal. lia.
Qed.

Lemma split_unlines ls pre out fuel :
  Forall (λ l, no_break l = true) ls → slen (unlines ls) < fuel →
  pySplitLines_loop fuel (pre +:+ unlines ls) (slen pre) (slen pre) out = out ++ ls.
Proof.
  intros Hls. revert pre out fuel. induction Hls as [|l ls Hl Hls IH]; intros pre out fuel Hf.
  - destruct fuel as [|fuel]; [simpl in Hf; lia|]. simpl.
    rewrite sapp_nil_r, Nat.ltb_irrefl. by rewrite app_nil_r.
  - change (unlines (l :: ls)) with (l +:+ lf +:+ unlines ls) in *. rewrite !slen_app in Hf.
    change (slen lf) with 1 in Hf.
    replace fuel with (slen l + S (fuel - slen l - 1)) by lia. rewrite skip_line by done.
    cbn [pySplitLines_loop].
    destruct (Nat.ltb_spec (slen pre + slen l) (slen (pre +:+ l +:+ lf +:+ unlines ls))) as [_|H];
      [|rewrite !slen_app in H; change (slen lf) with 1 in H; lia].
    rewrite sapp_assoc, <-slen_app, sdrop_app. change (break_width (lf +:+ unlines ls)) with 1. cbn [Nat.eqb].
    rewrite <-sapp_assoc, slen_app, substr_mid, sapp_assoc, sapp_assoc.
    specialize (IH ((pre +:+ l) +:+ lf) (out ++ [l]) (fuel - slen l - 1) ltac:(lia)).
    rewrite !slen_app in IH. change (slen lf) with 1 in IH. rewrite IH.
    by rewrite <-app_assoc.
Qed.

(** Normalisation leaves a text without carriage returns alone. *)
Fixpoint no_cr (s : string) : bool :=
  match s with "" => true | String c s => negb (byteZ c =? 13)%Z && no_cr s end.

Lemma ReplaceAll_no_cr fuel s : no_cr s = true → ReplaceAll_fuel fuel s crlf lf = s.
Proof.
  revert s. induction fuel as [|fuel IH]; intros [|c s]; try done. intros [Hc Hs]%andb_true_iff.
  cbn [ReplaceAll_fuel]. assert (HasPrefix (String c s) crlf = false) as ->.
  { cbn [HasPrefix crlf]. destruct (Ascii.eqb_spec (ascii_of_nat 13) c) as [<-|]; done. }
  by rewrite IH.
Qed.

Lemma no_break_no_cr l : no_break l = true → no_cr l = true.
Proof.
  induction l as [|c l IH]; [done|]. cbn [no_break no_cr]. intros [Hb%Nat.eqb_eq Hl]%andb_true_iff.
  rewrite (IH Hl), andb_true_r. apply negb_true_iff. destruct (Z.eqb_spec (byteZ c) 13) as [E|]; [|done].
  exfalso. revert Hb. cbn [break_width]. rewrite E. cbn. by destruct l as [|c2 l]; [|case_match].
Qed.

Lemma no_cr_app a b : no_cr (a +:+ b) = no_cr a && no_cr b.
Proof. induction a as [|c a IH]; [done|]. simpl. by rewrite IH, andb_assoc. Qed.

Lemma no_cr_unlines ls : Forall (λ l, no_break l = true) ls → no_cr (unlines ls) = true.
Proof.
  induction 1 as [|l ls Hl _ IH]; [done|]. change (unlines (l :: ls)) with (l +:+ lf +:+ unlines ls).
  by rewrite !no_cr_app, (no_break_no_cr l Hl), IH.
Qed.

(** Reading back a text of terminated lines: lines without a break of
    [str.splitlines], each followed by a newline, are split into exactly those
    lines, also after the CRLF normalisation. *)
Theorem normLines_unlines ls :
  Forall (λ l, no_break l = true) ls → normLines (unlines ls) = ls.
Proof.
  intros H. unfold normLines, ReplaceAll. rewrite ReplaceAll_no_cr by (by apply no_cr_unlines).
  apply (split_unlines ls "" [] (S (slen (unlines ls)))); [done|lia].
Qed.

Lemma normLines_unlines_witness : normLines (unlines ["a"; ""; "b c"]) = ["a"; ""; "b c"].
Proof. apply (normLines_unlines ["a"; ""; "b c"]). repeat constructor. Defined.

(** ** Results *)

Lemma FileDiff_fields before after :
  let d := FileDiffFromText before after in
  ∃ codes, d = mkFileDiff (normLines before) (normLines after) codes
      (sum_list_with addedBy codes) (sum_list_with deletedBy codes) ∧
    IndelOpcodes (normLines before) (normLines after) = Some codes ∧
    blocks_cover (normLines before) (normLines after) 0 0 "" codes.
Proof.
  destruct (IndelOpcodes_some (normLines before) (normLines after)) as (codes & E & Hc).
  exists codes. split_and!; [|done..]. unfold FileDiffFromText, opcodes_of. rewrite E. simpl.
  by rewrite counts_fold.
Qed.

(** The counts of a diff are exact: the lines added are the lines of the new
    text outside a longest common subsequence of the two texts, the lines
    deleted those of the old text. *)
Theorem FileDiff_counts before after :
  let d := FileDiffFromText before after in
  ∃ common, common `sublist_of` BeforeLines d ∧ common `sublist_of` AfterLines d ∧
    (∀ l, l `sublist_of` BeforeLines d → l `sublist_of` AfterLines d → length l ≤ length common) ∧
    Added d + length common = length (AfterLines d) ∧
    Deleted d + length common = length (BeforeLines d).
Proof.
  destruct (FileDiff_fields before after) as (codes & -> & E & Hc). simpl.
  destruct (IndelOpcodes_common (normLines before) (normLines after)) as (codes' & E' & H1 & H2 & _ & H3).
  assert (codes' = codes) as -> by congruence. exists (kept (normLines before) codes).
  apply cover_counts in Hc as [C1 C2]. split_and!; try done; lia.
Qed.

(** A unified diff can be applied: its hunks, each found by the old line
    number of its header, turn the old lines into the new ones, context and
    deleted lines being checked against the file; every hunk holds a change and
    the counts in its header are the numbers of old and new lines in its body. *)
Theorem UnifiedLines_patches before after context :
  let d := FileDiffFromText before after in
  patch_hunks (hunks_of (BeforeLines d) (AfterLines d) (Opcodes d) (Added d) (Deleted d) (Groups d context)) 0
    (BeforeLines d) = Some (AfterLines d) ∧
  Forall (λ g, hasNonEqual g = true ∧ oldCount g = count is_old (hunkBody d g) ∧
               newCount g = count is_new (hunkBody d g)) (Groups d context).
Proof.
  destruct (FileDiff_fields before after) as (codes & -> & E & Hc). cbn [BeforeLines AfterLines Opcodes Added Deleted].
  apply (Groups_ok _ _ context codes (sum_list_with addedBy codes) (sum_list_with deletedBy codes)) in Hc.
  exact (hunks_patch _ _ codes _ _ _ 0 0 Hc (Nat.le_0_l _)).
Qed.

(** [UnifiedLines] is empty exactly when the two texts have the same lines. *)
Theorem UnifiedLines_empty before after from to context :
  UnifiedLines (FileDiffFromText before after) from to context = [] ↔ normLines before = normLines after.
Proof.
  destruct (FileDiff_fields before after) as (codes & -> & E & Hc). unfold UnifiedLines. simpl.
  pose proof (cover_counts _ _ _ _ _ _ Hc) as [C1 C2].
  apply cover_describes in Hc as (K1 & K2 & _). rewrite !drop_0 in *.
  split.
  - destruct (_ && _) eqn:Ez; [|done]. intros _. apply andb_true_iff in Ez as [A%Nat.eqb_eq D%Nat.eqb_eq].
    assert (kept (normLines before) codes = normLines before) as <- by (apply sublist_length_eq; [done|lia]).
    apply sublist_length_eq; [done|lia].
  - intros He. destruct (IndelOpcodes_common (normLines before) (normLines after)) as (codes' & E' & _ & _ & H3 & H4).
    assert (codes' = codes) as -> by congruence. specialize (H4 (normLines before)). rewrite <-He in *.
    specialize (H4 ltac:(done) ltac:(done)).
    destruct (sum_list_with addedBy codes =? 0) eqn:A, (sum_list_with deletedBy codes =? 0) eqn:D; [done|..];
      bool_hyps; rewrite ?Nat.eqb_neq in *; lia.
Qed.
