(* ===== verification/DiffPayload.v ===== *)
(** * Bounded rendering of a diff (src/internal/filediff/payload.go)

    The unified diff of an edit event, cut to a number of body lines and a
    number of characters per line, with the headers of cut hunks rewritten. *)

From S2P Require Import Prelude GoText GoLib BitVec Indel FileDiff.
From Stdlib Require Import Ascii.

#[local] Open Scope string_scope.
#[local] Open Scope list_scope.
#[local] Open Scope nat_scope.

Record UnifiedDiffPayload := mkPayload {
  Format : string; Context : Z; Truncated : bool; Text : string }.

Record UnifiedDiffOptions := mkDiffOptions {
  FromFile : string; ToFile : string; ContextLines : Z; MaxLines : Z; MaxLineChars : Z; Diff : option FileDiff }.

Definition DefaultUnifiedDiffOptions : UnifiedDiffOptions := mkDiffOptions "before" "after" 3 500 1200 None.

(** ** Characters per line *)

Fixpoint limitUnifiedDiffLineChars_loop (lines : list string) (maxLineChars : nat) : list string * bool :=
  match lines with
  | [] => ([], false)
  | "" :: rest =>
      let '(limited, truncated) := limitUnifiedDiffLineChars_loop rest maxLineChars in ("" :: limited, truncated)
  | (String marker content as line) :: rest =>
      let '(limited, truncated) := limitUnifiedDiffLineChars_loop rest maxLineChars in
      if negb (Ascii.eqb marker " ") && negb (Ascii.eqb marker "+") && negb (Ascii.eqb marker "-")
      then (line :: limited, truncated)
      else if maxLineChars <? length (runes content)
      then (String marker (of_runes (take maxLineChars (runes content))) :: limited, true)
      else (line :: limited, truncated)
  end.

Definition limitUnifiedDiffLineChars (lines : list string) (maxLineChars : nat) : list string * bool :=
  if maxLineChars <=? 0 then (lines, false) else limitUnifiedDiffLineChars_loop lines maxLineChars.

(** ** Headers *)

Definition expect (p s : string) : option string := if HasPrefix s p then Some (sdrop (slen p) s) else None.

(** [\d+], greedy. *)
Definition digits1 (s : string) : option (string * string) :=
  let '(ds, r) := span_digits s in if String.eqb ds "" then None else Some (ds, r).

(** [(?:,(\d+))?]: what follows is a space, so taking the group is forced when it can be taken. *)
Definition opt_count (s : string) : string :=
  match s with
  | String "," t => match digits1 t with Some (_, r) => r | None => s end
  | _ => s
  end.

(** The header pattern, its groups 1, 3 and 5: the two starts and what follows the
    closing [@@] on the line. *)
Definition hunkHeaderRe (header : string) : option (string * string * string) :=
  s ← expect "@@ -" header;
  '(m1, s) ← digits1 s;
  s ← expect " +" (opt_count s);
  '(m3, s) ← digits1 s;
  s ← expect " @@" (opt_count s);
  if ContainsByte s (ascii_of_nat 10) then None else Some (m1, m3, s).

Definition rewriteHunkHeaderForBody (header : string) (body : list string) : string :=
  match hunkHeaderRe header with
  | None => header
  | Some (m1, m3, section) =>
      let mark p (line : string) := match line with "" => false | String c _ => p c end in
      let oldLines := count (mark (λ c, Ascii.eqb c " " || Ascii.eqb c "-")) body in
      let newLines := count (mark (λ c, Ascii.eqb c " " || Ascii.eqb c "+")) body in
      match Atoi m1, Atoi m3 with
      | Some oldStart, Some newStart =>
          "@@ -" +:+ formatHunkRange (Z.to_nat oldStart) oldLines +:+
          " +" +:+ formatHunkRange (Z.to_nat newStart) newLines +:+ " @@" +:+ section
      | _, _ => header
      end
  end.

(** ** Lines *)

Definition is_header (line : string) : bool := HasPrefix line "@@ ".

(** The inner loop: the lines up to the next header. *)
Fixpoint span_body (lines : list string) : list string * list string :=
  match lines with
  | [] => ([], [])
  | line :: rest =>
      if is_header line then ([], lines)
      else let '(body, r) := span_body rest in (line :: body, r)
  end.

Fixpoint limit_loop (fuel : nat) (diffLines : list string) (bodyLimit lineCharLimit : nat)
    (limited : list string) (truncated : bool) (emitted : nat) : list string * bool * nat :=
  match fuel, diffLines with
  | _, [] | O, _ => (limited, truncated, emitted)
  | S fuel, line :: rest =>
      if negb (is_header line)
      then limit_loop fuel rest bodyLimit lineCharLimit (limited ++ [line]) truncated emitted
      else
        let '(body, rest) := span_body rest in
        if bodyLimit <=? emitted then (limited, true, emitted) else
        let selected := take (bodyLimit - emitted) body in
        let truncated := truncated || (length selected <? length body) in
        let '(selected, truncatedLine) := limitUnifiedDiffLineChars selected lineCharLimit in
        let truncated := truncated || truncatedLine in
        let header := if length selected =? length body then line else rewriteHunkHeaderForBody line selected in
        let limited := (limited ++ [header]) ++ selected in
        let emitted := emitted + length selected in
        if truncated && (bodyLimit <=? emitted) then (limited, truncated, emitted)
        else limit_loop fuel rest bodyLimit lineCharLimit limited truncated emitted
  end.

Definition limitUnifiedDiffLines (diffLines : list string) (maxLines maxLineChars : Z) : list string * bool * nat :=
  limit_loop (length diffLines) diffLines (Z.to_nat maxLines) (Z.to_nat maxLineChars) [] false 0.

Definition BuildUnifiedDiffPayload (before after : option string) (opts : UnifiedDiffOptions)
    : option UnifiedDiffPayload :=
  match before, after with
  | Some before, Some after =>
      let diff := match Diff opts with Some d => d | None => FileDiffFromText before after end in
      let diffLines := UnifiedLines diff (FromFile opts) (ToFile opts) (Z.to_nat (ContextLines opts)) in
      match diffLines with
      | [] => None
      | _ =>
          let '(limited, truncated, emitted) := limitUnifiedDiffLines diffLines (MaxLines opts) (MaxLineChars opts) in
          if emitted =? 0 then None
          else Some (mkPayload "unified" (ContextLines opts) truncated (Join limited lf))
      end
  | _, _ => None
  end.

(** ** Bounds *)

Lemma chars_loop_length lines n : length (limitUnifiedDiffLineChars_loop lines n).1 = length lines.
Proof.
  induction lines as [|[|m c] lines IH]; simpl; [done|..];
    destruct (limitUnifiedDiffLineChars_loop lines n) as [l t]; simpl in *; [lia|].
  destruct (negb _ && _ && _); [simpl; lia|]. destruct (n <? _); simpl; lia.
Qed.

Lemma chars_length lines n : length (limitUnifiedDiffLineChars lines n).1 = length lines.
Proof. unfold limitUnifiedDiffLineChars. destruct (n <=? 0); [done|]. apply chars_loop_length. Qed.

(** Nothing is reported cut only if nothing changed. *)
Lemma chars_untouched lines n :
  (limitUnifiedDiffLineChars lines n).2 = false → (limitUnifiedDiffLineChars lines n).1 = lines.
Proof.
  unfold limitUnifiedDiffLineChars. destruct (n <=? 0); [done|].
  induction lines as [|[|m c] lines IH]; simpl; [done|..];
    destruct (limitUnifiedDiffLineChars_loop lines n) as [l t]; simpl in *.
  - intros ->. by rewrite IH.
  - destruct (negb _ && _ && _); simpl; [intros ->; by rewrite IH|].
    destruct (n <? _); simpl; [done|]. intros ->. by rewrite IH.
Qed.

Lemma span_body_app lines body rest : span_body lines = (body, rest) → lines = body ++ rest ∧ length rest ≤ length lines.
Proof.
  revert body rest. induction lines as [|l lines IH]; intros body rest; simpl; [by intros [= <- <-]|].
  destruct (is_header l); [intros [= <- <-]; simpl; split; [done|lia]|].
  destruct (span_body lines) as [b r]. destruct (IH b r eq_refl) as [-> ?]. intros [= <- <-]. simpl. split; [done|lia].
Qed.

Lemma limit_loop_ok fuel lines bl cl limited truncated emitted lim tr em :
  limit_loop fuel lines bl cl limited truncated emitted = (lim, tr, em) →
  length lines ≤ fuel → emitted ≤ bl →
  em ≤ bl ∧ (tr = false → truncated = false ∧ lim = limited ++ lines).
Proof.
  revert lines limited truncated emitted.
  induction fuel as [|fuel IH]; intros [|line rest] limited truncated emitted; simpl; intros H Hf He.
  1,3: simplify_eq/=; rewrite app_nil_r; auto. 1: lia.
  destruct (is_header line); simpl in H.
  - destruct (span_body rest) as [body rest'] eqn:Eb. apply span_body_app in Eb as [-> Hl].
    destruct (Nat.leb_spec bl emitted); [simplify_eq/=; split; [lia|done]|].
    pose proof (chars_length (take (bl - emitted) body) cl) as Hlen.
    pose proof (chars_untouched (take (bl - emitted) body) cl) as Hun.
    destruct (limitUnifiedDiffLineChars (take (bl - emitted) body) cl) as [selected tl]. simpl in *.
    rewrite length_take in *.
    remember (if length selected =? length body then line else rewriteHunkHeaderForBody line selected) as hd eqn:Ehd.
    remember (truncated || ((bl - emitted) `min` length body <? length body) || tl) as tr' eqn:Etr.
    assert (tr' = false → truncated = false ∧ hd = line ∧ selected = body) as Htr.
    { intros Et. rewrite Etr in Et. apply orb_false_iff in Et as [[Et Hlt%Nat.ltb_ge]%orb_false_iff ->].
      rewrite Hun in Ehd |- * by done. rewrite take_ge in Ehd |- * by lia. by rewrite Nat.eqb_refl in Ehd. }
    destruct (tr' && _) eqn:Eb.
    + injection H as <- <- <-. split; [lia|]. intros Et. by rewrite Et in Eb.
    + apply IH in H as [Hem Hr]; [|lia..]. split; [done|]. intros Et. destruct (Hr Et) as [E' ->].
      destruct (Htr E') as (? & Eh & Es). split; [done|]. rewrite Eh, Es. by rewrite <-!app_assoc.
  - apply IH in H as [Hem Hr]; [|lia..]. split; [done|]. intros Et. destruct (Hr Et) as [? ->].
    split; [done|]. by rewrite <-app_assoc.
Qed.

(** The rendered body respects the line limit, and a result that is not
    marked truncated is the whole diff. *)
Theorem limit_respected diffLines maxLines maxLineChars :
  let '(limited, truncated, emitted) := limitUnifiedDiffLines diffLines maxLines maxLineChars in
  (Z.of_nat emitted ≤ 0 `max` maxLines)%Z ∧ (truncated = false → limited = diffLines).
Proof.
  destruct (limitUnifiedDiffLines _ _ _) as [[lim tr] em] eqn:E. unfold limitUnifiedDiffLines in E.
  apply limit_loop_ok in E as [H1 H2]; [|done|lia]. split; [lia|]. intros Et. by destruct (H2 Et).
Qed.

(** ** Header round trip *)

Lemma expect_app p s : expect p (p +:+ s) = Some s.
Proof.
  unfold expect. assert (HasPrefix (p +:+ s) p = true) as ->.
  { induction p as [|c p IH]; [by destruct s|]. simpl. by rewrite Ascii.eqb_refl. }
  by rewrite sdrop_app.
Qed.

Lemma digits1_Itoa n s : starts_digit s = false → digits1 (Itoa (Z.of_nat n) +:+ s) = Some (Itoa (Z.of_nat n), s).
Proof.
  intros Hs. destruct (Itoa_digits (Z.of_nat n)) as (Ha & _ & Hne); [lia|].
  unfold digits1. rewrite span_digits_app by done. by destruct (String.eqb_spec (Itoa (Z.of_nat n)) "").
Qed.

(** What the pattern leaves of a rendered range. *)
Lemma range_parse start n c s :
  is_digit c = false → Ascii.eqb c "," = false →
  ∃ r, digits1 (formatHunkRange start n +:+ String c s) = Some (Itoa (Z.of_nat start), r) ∧ opt_count r = String c s.
Proof.
  intros Hc Hcomma. unfold formatHunkRange. destruct (n =? 1).
  - exists (String c s). rewrite digits1_Itoa by done. split; [done|].
    by destruct c as [[] [] [] [] [] [] [] []].
  - rewrite <-sapp_assoc. exists ("," +:+ Itoa (Z.of_nat n) +:+ String c s).
    rewrite <-sapp_assoc. rewrite digits1_Itoa by done. split; [done|].
    cbn [opt_count String.append]. by rewrite digits1_Itoa.
Qed.

Lemma header_parse a n b m section :
  ContainsByte section (ascii_of_nat 10) = false →
  hunkHeaderRe ("@@ -" +:+ formatHunkRange a n +:+ " +" +:+ formatHunkRange b m +:+ " @@" +:+ section)
  = Some (Itoa (Z.of_nat a), Itoa (Z.of_nat b), section).
Proof.
  intros Hs. unfold hunkHeaderRe. rewrite expect_app. cbn [mbind option_bind].
  change (" +" +:+ ?x) with (String " " (String "+" x)).
  destruct (range_parse a n " " (String "+" (formatHunkRange b m +:+ " @@" +:+ section))) as (r & E & Er); [done..|].
  rewrite E. cbn [mbind option_bind]. rewrite Er.
  change (String " " (String "+" ?x)) with (" +" +:+ x). rewrite expect_app. cbn [mbind option_bind].
  change (" @@" +:+ section) with (String " " ("@@" +:+ section)).
  destruct (range_parse b m " " ("@@" +:+ section)) as (r2 & E2 & Er2); [done..|].
  rewrite E2. cbn [mbind option_bind]. rewrite Er2. change (String " " ("@@" +:+ section)) with (" @@" +:+ section).
  rewrite expect_app. cbn [mbind option_bind]. by rewrite Hs.
Qed.

(** Cutting a hunk rewrites its header to the lines kept: the rewritten
    header of a rendered hunk has its two starts and, as counts, the old and
    new lines of the body that is left. *)
Theorem rewritten_header_counts group body :
  (Z.of_nat (SrcStart (first_of group)) < 2 ^ 62)%Z → (Z.of_nat (DestStart (first_of group)) < 2 ^ 62)%Z →
  Forall (λ l, ∃ m t, l = String m t ∧ (m = " " ∨ m = "+" ∨ m = "-")%char) body →
  rewriteHunkHeaderForBody (hunkHeader group) body
  = "@@ -" +:+ formatHunkRange (SrcStart (first_of group) + boolToInt (negb (oldCount group =? 0))) (count is_old body)
    +:+ " +" +:+ formatHunkRange (DestStart (first_of group) + boolToInt (negb (newCount group =? 0))) (count is_new body)
    +:+ " @@".
Proof.
  intros Ha Hb Hbody. unfold rewriteHunkHeaderForBody, hunkHeader.
  assert (∀ b : bool, boolToInt b ≤ 1) as Hbool by (intros []; simpl; lia).
  pose proof (Hbool (negb (oldCount group =? 0))). pose proof (Hbool (negb (newCount group =? 0))).
  set (a := SrcStart _ + _) in *. set (b := DestStart _ + _) in *.
  pose proof (header_parse a (oldCount group) b (newCount group) "" eq_refl) as E.
  change (" @@" +:+ "") with " @@" in E. rewrite E, !Atoi_Itoa by lia. rewrite !Nat2Z.id.
  change (" @@" +:+ "") with " @@".
  assert (∀ p q, (∀ m t, (m = " " ∨ m = "+" ∨ m = "-")%char → p (String m t) = q (String m t)) →
    count p body = count q body) as Hcount.
  { intros p q Hpq. unfold count. f_equal. apply List.filter_ext_in. intros l Hl%list_elem_of_In.
    destruct (proj1 (Forall_forall _ _) Hbody l Hl) as (m & t & -> & Hm). by apply Hpq. }
  rewrite <-(Hcount (λ l, match l with "" => false | String c _ => Ascii.eqb c " " || Ascii.eqb c "-" end) is_old),
    <-(Hcount (λ l, match l with "" => false | String c _ => Ascii.eqb c " " || Ascii.eqb c "+" end) is_new)
    by (intros m t [-> | [-> | ->]]; done). done.
Qed.

Lemma rewritten_header_counts_witness :
  rewriteHunkHeaderForBody (hunkHeader [mkOpcode TagDelete 4 9 4 4]) ["-a"; "-b"]
  = "@@ -" +:+ formatHunkRange 5 2 +:+ " +" +:+ formatHunkRange 4 0 +:+ " @@".
Proof.
  rewrite (rewritten_header_counts [mkOpcode TagDelete 4 9 4 4] ["-a"; "-b"]); [reflexivity|simpl; lia..|].
  repeat constructor; eexists _, _; (split; [reflexivity|auto]).
Defined.
