(* ===== verification/Response.v ===== *)
(** * Model responses (src/internal/core/types.go)

    What a provider returns and what a tool returns.  A thinking block is a JSON
    object of which the program reads the keys [type] and [thinking]; it is kept
    as these two, [None] for a value that is not a string, and its text.  The two
    latency measurements of a response are left out. *)

From S2P Require Import Prelude GoText GoLib PyFloat Core BitVec Indel FileDiff.
#[local] Open Scope string_scope.
#[local] Open Scope list_scope.
#[local] Open Scope Z_scope.

Abbreviation FinishReason := string (only parsing).
Definition FinishStop : FinishReason := "stop".
Definition FinishToolCalls : FinishReason := "tool_calls".
Definition FinishFunctionCall : FinishReason := "function_call".
Definition FinishLength : FinishReason := "length".
Definition FinishContentFilter : FinishReason := "content_filter".
Definition FinishRefusal : FinishReason := "refusal".
Definition FinishError : FinishReason := "error".

Record Usage := mkUsage {
  PromptTokens : Z; CompletionTokens : Z; TotalTokens : Z; CachedTokens : option Z; ReasoningTokens : option Z }.

Definition noUsage : Usage := mkUsage 0 0 0 None None.

(** [if other.X != nil { *u.X += *other.X }] *)
Definition add_opt (u other : option Z) : option Z :=
  match other with None => u | Some n => Some (wrapInt64 (default 0 u + n)) end.

Definition Usage_Add (u : Usage) (other : option Usage) : Usage :=
  match other with
  | None => u
  | Some o =>
      mkUsage (wrapInt64 (PromptTokens u + PromptTokens o)) (wrapInt64 (CompletionTokens u + CompletionTokens o))
        (wrapInt64 (TotalTokens u + TotalTokens o))
        (add_opt (CachedTokens u) (CachedTokens o)) (add_opt (ReasoningTokens u) (ReasoningTokens o))
  end.

Record ThinkingBlock := mkThinking { tb_Type : option string; tb_Thinking : option string; tb_Raw : RawJSON }.

Record Response := mkResponse {
  r_Content : string; r_HasContent : bool; r_ToolCalls : list ToolCall; r_FinishReason : FinishReason;
  r_Usage : option Usage; r_ReasoningContent : string; r_ThinkingBlocks : list ThinkingBlock;
  r_RetryAfter : option float64; r_ErrorStatusCode : option Z; r_ErrorKind : string; r_ErrorType : string;
  r_ErrorCode : string; r_ErrorRetryAfterS : option float64; r_ErrorShouldRetry : option bool }.

Definition HasToolCalls (r : Response) : bool := negb (Nat.eqb (length (r_ToolCalls r)) 0).

Definition ShouldExecuteTools (r : Response) : bool :=
  HasToolCalls r &&
  (bool_decide (r_FinishReason r = FinishToolCalls) || bool_decide (r_FinishReason r = FinishFunctionCall)
   || bool_decide (r_FinishReason r = FinishStop)).

Record ToolResult := mkToolResult {
  tr_CallID : string; tr_Content : string; tr_IsError : bool; tr_FileDiffs : option (gmap string FileDiff) }.

(** A stream event; the kinds are the constructors. *)
Inductive StreamEvent :=
  | StreamText (text : string)
  | StreamReasoning (text : string)
  | StreamToolCall (index : Z) (id name argumentsDelta : string)
  | StreamUsage (usage : option Usage)
  | StreamDone (response : option Response).
