(* ===== verification/Think.v ===== *)
(** * Reasoning in model output (src/internal/textutil/stripthink.go, reasoning.go)

    What of a response is the model's reasoning and what is the answer.  The
    patterns are the source's, written as expressions of [Regex]. *)

From S2P Require Import Prelude GoText GoLib Regex Core Response.
From Stdlib Require Import Ascii.
#[local] Open Scope string_scope.
#[local] Open Scope list_scope.
#[local] Open Scope Z_scope.

(** ** Patterns *)

Definition thinkingTags : list string := ["think"; "thinking"; "thought"].
Definition thinkingTagAlt : re := RAlts (map RLit thinkingTags).

Definition partialThinkingTag : re :=
  RSeqs [RChar 60; ROpt (RChar 47);
         RAlts (map RLit ["thinking"; "thinkin"; "thought"; "thinki"; "though"; "thoug"; "think"; "thou";
                          "thin"; "tho"; "thi"; "th"; "t"]);
         ROpt (RChar 62)].

Definition pySpaces : re := RStar true (RClass pySpaceRanges).
Definition pyEnd : re := RSeq (ROpt (RChar 10)) REnd.

Definition wellFormedTag (tag : string) : re :=
  RSeqs [RLit ("<" +:+ tag +:+ ">"); RStar false RAny; RLit ("</" +:+ tag +:+ ">")].

Definition unclosedBlock : re := RSeqs [RBegin; pySpaces; RChar 60; thinkingTagAlt; RChar 62; RStar true RAny; pyEnd].
Definition selfClosingStart : re := RSeqs [RBegin; pySpaces; RLit "<thinking/>"; pySpaces].
Definition selfClosingEnd : re := RSeqs [pySpaces; RLit "<thinking/>"; pySpaces; pyEnd].
Definition orphanCloseStart : re := RSeqs [RBegin; pySpaces; RLit "</"; thinkingTagAlt; RChar 62; pySpaces].
Definition orphanCloseEnd : re := RSeqs [pySpaces; RLit "</"; thinkingTagAlt; RChar 62; pySpaces; pyEnd].
Definition channelMarker : re :=
  RSeqs [RBegin; pySpaces; RChar 60; ROpt (RChar 124); RLit "channel"; ROpt (RChar 124); RChar 62; pySpaces].
Definition partialTag : re :=
  RSeq (RAlt partialThinkingTag
             (RSeqs [RChar 60; ROpt (RChar 124);
                     RAlts (map RLit ["c"; "ch"; "cha"; "chan"; "chann"; "channe"; "channel"]);
                     ROpt (RSeq (ROpt (RChar 124)) (ROpt (RChar 62)))]))
       pyEnd.
Definition lonePipe : re := RSeqs [RBegin; pySpaces; RChar 60; ROpt (RChar 124); pyEnd].

(** ** [StripThink] *)

Definition isTagNameChar (c : ascii) : bool :=
  let b := byteZ c in
  ((65 <=? b) && (b <=? 90)) || ((97 <=? b) && (b <=? 122)) || ((48 <=? b) && (b <=? 57))
  || (b =? 95) || (b =? 45) || (b =? 58) || (b =? 62) || (b =? 47).

(** The tag of a malformed opening at the head of a text that starts with [<]. *)
Definition malformed_tag (s : string) : option string :=
  List.find (λ tag, HasPrefix (sdrop 1 s) tag &&
    match sdrop (1 + slen tag) s with "" => true | String c _ => negb (isTagNameChar c) end) thinkingTags.

Fixpoint stripMalformedOpenTags_loop (fuel : nat) (text : string) : string :=
  match fuel, text with
  | S fuel, String c t =>
      if Ascii.eqb c "<" then
        match malformed_tag text with
        | Some tag => stripMalformedOpenTags_loop fuel (sdrop (1 + slen tag) text)
        | None => String c (stripMalformedOpenTags_loop fuel t)
        end
      else String c (stripMalformedOpenTags_loop fuel t)
  | _, _ => ""
  end.
Definition stripMalformedOpenTags (text : string) : string :=
  if negb (ContainsByte text "<") then text else stripMalformedOpenTags_loop (slen text) text.

Definition StripThink (text : string) : string :=
  if negb (ContainsByte text "<") then PyStrip text else
  let text := foldl (λ t tag, ReplaceAllEmpty (wellFormedTag tag) t) text thinkingTags in
  let text := ReplaceAllEmpty unclosedBlock text in
  let text := ReplaceAllEmpty selfClosingStart text in
  let text := ReplaceAllEmpty selfClosingEnd text in
  let text := stripMalformedOpenTags text in
  let text := ReplaceAllEmpty orphanCloseStart text in
  let text := ReplaceAllEmpty orphanCloseEnd text in
  let text := ReplaceAllEmpty channelMarker text in
  let text := ReplaceAllEmpty partialTag text in
  let text := ReplaceAllEmpty lonePipe text in
  PyStrip text.

Definition TruncatedSuffix : string := String "010" "... (truncated)".

Definition TruncateText (text : string) (maxChars : Z) : string :=
  if maxChars <=? 0 then text else
  let rs := runes text in
  if Z.of_nat (length rs) <=? maxChars then text else of_runes (take (Z.to_nat maxChars) rs) +:+ TruncatedSuffix.

(** ** [StripReasoningTags] *)

Definition stripReasoningSelfCloseStart : re :=
  RSeqs [RBegin; pySpaces; RChar 60; thinkingTagAlt; RLit "/>"; pySpaces].
Definition stripReasoningSelfCloseEnd : re := RSeqs [pySpaces; RChar 60; thinkingTagAlt; RLit "/>"; pySpaces; pyEnd].
Definition stripReasoningOpenStart : re := RSeqs [RBegin; pySpaces; RChar 60; thinkingTagAlt; RChar 62; pySpaces].
Definition stripReasoningCloseEnd : re := RSeqs [pySpaces; RLit "</"; thinkingTagAlt; RChar 62; pySpaces; pyEnd].
Definition stripReasoningPartial : re := RSeqs [pySpaces; partialThinkingTag; pyEnd].

(** [None] is a value that is not a string. *)
Definition StripReasoningTags (text : option string) : string :=
  match text with
  | None => ""
  | Some s =>
      if negb (ContainsByte s "<") then PyStrip s else
      let s := ReplaceAllEmpty stripReasoningSelfCloseStart s in
      let s := ReplaceAllEmpty stripReasoningSelfCloseEnd s in
      let s := ReplaceAllEmpty stripReasoningOpenStart s in
      let s := ReplaceAllEmpty stripReasoningCloseEnd s in
      let s := ReplaceAllEmpty stripReasoningPartial s in
      PyStrip s
  end.

(** ** [ExtractReasoning] *)

(** The leftmost opening tag: its offset and its name. *)
Fixpoint find_open (text : string) : option (nat * string) :=
  match text with
  | "" => None
  | String c t =>
      match (if Ascii.eqb c "<" then List.find (λ name, HasPrefix text ("<" +:+ name +:+ ">")) thinkingTags else None) with
      | Some tag => Some (0%nat, tag)
      | None => '(i, tag) ← find_open t; Some (S i, tag)
      end
  end.

(** Every round moves at least one byte on. *)
Fixpoint inlineThinkParts_loop (fuel : nat) (text : string) : list string :=
  match fuel, find_open text with
  | S fuel, Some (openIdx, tag) =>
      let body := sdrop (openIdx + slen tag + 2) text in
      let closeTag := "</" +:+ tag +:+ ">" in
      match Index body closeTag with
      | None => inlineThinkParts_loop fuel (sdrop (openIdx + 1) text)
      | Some rel => PyStrip (stake rel body) :: inlineThinkParts_loop fuel (sdrop (rel + slen closeTag) body)
      end
  | _, _ => []
  end.
Definition inlineThinkParts (text : string) : list string :=
  if negb (Contains text "</") then [] else inlineThinkParts_loop (slen text) text.

Definition blank_line : string := String "010" (String "010" "").

Definition ExtractThink (text : string) : option string * string :=
  if negb (ContainsByte text "<") then (None, PyStrip text) else
  let parts := inlineThinkParts text in
  (match parts with [] => None | _ => Some (Join parts blank_line) end, StripThink text).

Definition stripContentOrSelf (content : option string) : option string :=
  match content with
  | None | Some "" => content
  | Some c => Some (StripThink c)
  end.

Definition thinking_parts (blocks : list ThinkingBlock) : list string :=
  omap (λ b,
    if bool_decide (default "" (tb_Type b) = "thinking") then
      let part := StripReasoningTags (tb_Thinking b) in if String.eqb part "" then None else Some part
    else None) blocks.

Definition ExtractReasoning (reasoningContent : option string) (thinkingBlocks : list ThinkingBlock)
    (content : option string) : option string * option string :=
  if negb (bool_decide (default "" reasoningContent = "")) then
    (Some (StripReasoningTags reasoningContent), stripContentOrSelf content)
  else match thinkingBlocks with
  | _ :: _ =>
      let joined := Join (thinking_parts thinkingBlocks) blank_line in
      (if String.eqb joined "" then None else Some joined, stripContentOrSelf content)
  | [] =>
      match content with
      | Some c => if String.eqb c "" then (None, content)
                  else let '(thinking, cleaned) := ExtractThink c in (thinking, Some cleaned)
      | None => (None, None)
      end
  end.

(** ** Closed blocks *)

(** The characters of an ASCII literal. *)
Definition codes (s : string) : list Z := map byteZ (String.list_ascii_of_string s).

Fixpoint strip_lit (s : list Z) (l : list (Z * string)) : option (list (Z * string)) :=
  match s, l with
  | [], _ => Some l
  | c :: s, t :: l => if c =? t.1 then strip_lit s l else None
  | _ :: _, [] => None
  end.

Lemma rmatch_lit {A} s b l (k : bool → list (Z * string) → option A) :
  rmatch (RLit s) b l k =
    match strip_lit (codes s) l with Some l' => k (if String.eqb s "" then b else false) l' | None => None end.
Proof.
  revert b l. induction s as [|c s IH]; intros b l; [done|]. cbn [RLit rmatch].
  change (codes (String c s)) with (byteZ c :: codes s). destruct l as [|t l]; cbn [char1 strip_lit]; [done|].
  destruct (byteZ c =? t.1); [|done]. rewrite IH. destruct (strip_lit (codes s) l); [|done]. by destruct (String.eqb s "").
Qed.

Lemma lazy_skip {A} fuel (lb : list Z) rest (k : bool → list (Z * string) → option A) x :
  (length lb + length rest ≤ fuel)%nat →
  (∀ pre post, lb = pre ++ post → post ≠ [] → k false (map rtok post ++ rest) = None) →
  k false rest = Some x →
  star_loop (rmatch RAny) fuel false false (map rtok lb ++ rest) k = Some x.
Proof.
  revert fuel. induction lb as [|r lb IH]; intros fuel Hf Hk Hx.
  - destruct fuel; cbn; by rewrite Hx.
  - destruct fuel as [|fuel]; [cbn in Hf; lia|]. cbn [star_loop].
    rewrite (Hk [] (r :: lb)) by done. cbn [orelse rmatch char1 map app].
    destruct (Nat.ltb_spec (length (map rtok lb ++ rest)) (length (rtok r :: map rtok lb ++ rest))); [|cbn in *; lia].
    apply IH; [cbn in Hf; lia| |done]. intros pre post -> Hp. by apply (Hk (r :: pre) post).
Qed.

Lemma remove_copy fuel r b (pre : list Z) l :
  (∀ p1 p2 b, pre = p1 ++ p2 → p2 ≠ [] → match_here r b (map rtok p2 ++ l) = None) →
  (length pre + length l ≤ fuel)%nat →
  ∃ b' fuel', (length l ≤ fuel')%nat ∧
    remove_fuel fuel r b (map rtok pre ++ l) = map rtok pre ++ remove_fuel fuel' r b' l.
Proof.
  revert fuel b. induction pre as [|x pre IH]; intros fuel b Hm Hf; [by exists b, fuel|].
  destruct fuel as [|fuel]; [cbn in Hf; lia|]. cbn [map app remove_fuel].
  assert (match_here r b (rtok x :: map rtok pre ++ l) = None) as -> by (by apply (Hm [] (x :: pre))).
  destruct (IH fuel false) as (b' & fuel' & H1 & ->); [|cbn in Hf; lia|by exists b', fuel'].
  intros p1 p2 b0 -> Hp. by apply (Hm (x :: p1) p2).
Qed.

Lemma strip_lit_codes s l : strip_lit s (map rtok s ++ l) = Some l.
Proof. induction s as [|c s IH]; cbn; [done|]. by rewrite Z.eqb_refl. Qed.

Lemma match_wellFormed_no tag b c l : c ≠ 60 → match_here (wellFormedTag tag) b (rtok c :: l) = None.
Proof.
  intros Hc. unfold match_here, wellFormedTag. cbn [RSeqs rmatch]. rewrite rmatch_lit.
  change (codes ("<" +:+ tag +:+ ">")) with (60 :: codes (tag +:+ ">")). cbn [strip_lit rtok fst].
  by destruct (Z.eqb_spec 60 c).
Qed.

Definition opening (tag : string) : list Z := codes ("<" +:+ tag +:+ ">").
Definition closing (tag : string) : list Z := codes ("</" +:+ tag +:+ ">").

(** A closed block of a tag is matched whole. *)
Lemma match_block tag b lb l :
  60 ∉ lb → match_here (wellFormedTag tag) b (map rtok (opening tag) ++ map rtok lb ++ map rtok (closing tag) ++ l) = Some l.
Proof.
  intros Hb. unfold match_here, wellFormedTag. cbn [RSeqs rmatch]. rewrite rmatch_lit.
  change (codes ("<" +:+ tag +:+ ">")) with (opening tag). rewrite strip_lit_codes.
  change (String.eqb ("<" +:+ tag +:+ ">") "") with false.
  apply lazy_skip; [rewrite !length_app, !length_map; lia| |].
  - intros pre [|c post] -> Hp; [done|]. cbn [map app]. rewrite rmatch_lit.
    change (codes ("</" +:+ tag +:+ ">")) with (60 :: codes ("/" +:+ tag +:+ ">")). cbn [strip_lit rtok fst].
    destruct (Z.eqb_spec 60 c) as [<-|]; [|done]. set_solver.
  - rewrite rmatch_lit. change (codes ("</" +:+ tag +:+ ">")) with (closing tag). by rewrite strip_lit_codes.
Qed.

Lemma no_match_free tag b l rest :
  60 ∉ l → l ≠ [] → match_here (wellFormedTag tag) b (map rtok l ++ rest) = None.
Proof. destruct l as [|c l]; [done|]. intros Hc _. apply match_wellFormed_no. set_solver. Qed.

Lemma remove_block tag b la lb lc fuel :
  60 ∉ la → 60 ∉ lb → 60 ∉ lc →
  (length la + (length (opening tag) + (length lb + (length (closing tag) + length lc))) ≤ fuel)%nat →
  remove_fuel fuel (wellFormedTag tag) b
    (map rtok la ++ map rtok (opening tag) ++ map rtok lb ++ map rtok (closing tag) ++ map rtok lc)
  = map rtok la ++ map rtok lc.
Proof.
  intros Ha Hb Hc Hf.
  destruct (remove_copy fuel (wellFormedTag tag) b la
    (map rtok (opening tag) ++ map rtok lb ++ map rtok (closing tag) ++ map rtok lc)) as (b' & fuel' & Hf' & ->).
  { intros p1 p2 b0 -> Hp. apply no_match_free; [set_solver|done]. }
  { rewrite !length_app, !length_map. lia. }
  f_equal. rewrite !length_app, !length_map in Hf'. destruct fuel' as [|fuel']; [cbn in Hf'; lia|].
  pose proof (match_block tag b' lb (map rtok lc) Hb) as Hm.
  destruct (map rtok (opening tag) ++ map rtok lb ++ map rtok (closing tag) ++ map rtok lc) as [|t l] eqn:E; [done|].
  cbn [remove_fuel]. rewrite Hm. apply (f_equal length) in E. rewrite !length_app, !length_map in E. cbn [length] in E.
  destruct (Nat.ltb_spec (length (map rtok lc)) (length (t :: l))) as [_|Hge].
  - rewrite (remove_requires 60); [done|done|]. by rewrite rtok_fst.
  - rewrite length_map in Hge. cbn [length] in Hge. unfold opening in E. cbn in E. lia.
Qed.

(** No position of the text starts a match. *)
Fixpoint quiet (r : re) (l : list Z) : Prop :=
  match l with [] => True | _ :: l' => (∀ b, match_here r b (map rtok l) = None) ∧ quiet r l' end.

Lemma quiet_remove r l fuel b : quiet r l → remove_fuel fuel r b (map rtok l) = map rtok l.
Proof.
  revert fuel b. induction l as [|c l IH]; intros fuel b Hq; [by destruct fuel|]. destruct fuel as [|fuel]; [done|].
  destruct Hq as [Hm Hq]. cbn [map] in *. cbn [remove_fuel]. rewrite (Hm b). f_equal. by apply IH.
Qed.

Lemma quiet_free tag l l' : 60 ∉ l → quiet (wellFormedTag tag) l' → quiet (wellFormedTag tag) (l ++ l').
Proof.
  induction l as [|c l IH]; intros Hl Hq; [done|]. cbn [app quiet]. split; [|apply IH; [set_solver|done]].
  intros b. apply match_wellFormed_no. set_solver.
Qed.

Lemma quiet_lit tag lit l' :
  (∀ l, strip_lit (codes ("<" +:+ tag +:+ ">")) (map rtok (60 :: lit) ++ l) = None) →
  60 ∉ lit → quiet (wellFormedTag tag) l' → quiet (wellFormedTag tag) ((60 :: lit) ++ l').
Proof.
  intros Hs Hl Hq. cbn [app quiet]. split; [|by apply quiet_free].
  intros b. unfold match_here, wellFormedTag. cbn [RSeqs rmatch]. rewrite rmatch_lit.
  change (60 :: lit ++ l') with ((60 :: lit) ++ l'). by rewrite map_app, Hs.
Qed.

Lemma codes_valid s : is_ascii s = true → Forall valid_rune (codes s).
Proof.
  intros H. unfold is_ascii in H. rewrite forallb_forall in H. apply Forall_map, Forall_forall. intros c Hc.
  pose proof (H c (proj1 (list_elem_of_In _ _) Hc)). pose proof (byteZ_range c). left. lia.
Qed.

(** The other tags' patterns do not match a block. *)
Lemma quiet_other tag tag' la lb lc :
  tag ∈ thinkingTags → tag' ∈ thinkingTags → tag ≠ tag' → 60 ∉ la → 60 ∉ lb → 60 ∉ lc →
  quiet (wellFormedTag tag') (la ++ opening tag ++ lb ++ closing tag ++ lc).
Proof.
  intros Ht Ht' Hne Ha Hb Hc. apply quiet_free; [done|].
  assert (quiet (wellFormedTag tag') (closing tag ++ lc)) as Hcl.
  { assert (∃ lit, closing tag = 60 :: 47 :: lit ∧ 60 ∉ lit) as (lit & -> & Hlit).
    { unfold thinkingTags in Ht. repeat (apply elem_of_cons in Ht as [->|Ht]); [..|by apply not_elem_of_nil in Ht];
        (eexists; split; [reflexivity|]; apply (bool_decide_unpack _); vm_compute; exact I). }
    apply (quiet_lit tag' (47 :: lit)); [|set_solver|].
    - intros l. unfold thinkingTags in Ht'.
      repeat (apply elem_of_cons in Ht' as [->|Ht']); [reflexivity..|by apply not_elem_of_nil in Ht'].
    - rewrite <-(app_nil_r lc). by apply quiet_free. }
  pose proof (quiet_free tag' lb _ Hb Hcl) as Hq. clear Hcl.
  assert (∃ lit, (opening tag = 60 :: lit) ∧ (60 ∉ lit) ∧
    (∀ l, strip_lit (codes ("<" +:+ tag' +:+ ">")) (map rtok (60 :: lit) ++ l) = None)) as (lit & -> & Hlit & Hs).
  { unfold thinkingTags in Ht, Ht'.
    repeat (apply elem_of_cons in Ht as [->|Ht]); [..|by apply not_elem_of_nil in Ht];
      repeat (apply elem_of_cons in Ht' as [->|Ht']); try done; try (by apply not_elem_of_nil in Ht');
      (eexists; split_and!; [reflexivity|apply (bool_decide_unpack _); vm_compute; exact I|reflexivity]). }
  by apply quiet_lit.
Qed.

Definition block (tag : string) (la lb lc : list Z) : list Z := la ++ opening tag ++ lb ++ closing tag ++ lc.

Lemma tag_valid tag : tag ∈ thinkingTags → Forall valid_rune (opening tag) ∧ Forall valid_rune (closing tag).
Proof.
  intros Ht. unfold thinkingTags in Ht.
  repeat (apply elem_of_cons in Ht as [->|Ht]); [..|by apply not_elem_of_nil in Ht]; split; by apply codes_valid.
Qed.

Section Block.
Context (tag : string) (la lb lc : list Z).
Context (Htag : tag ∈ thinkingTags).
Context (Hva : Forall valid_rune la) (Hvb : Forall valid_rune lb) (Hvc : Forall valid_rune lc).
Context (Ha : 60 ∉ la) (Hb : 60 ∉ lb) (Hc : 60 ∉ lc).

Lemma block_valid : Forall valid_rune (block tag la lb lc).
Proof. destruct (tag_valid tag Htag). unfold block. rewrite !Forall_app. by split_and!. Qed.

Lemma own_pass : ReplaceAllEmpty (wellFormedTag tag) (of_runes (block tag la lb lc)) = of_runes (la ++ lc).
Proof.
  unfold ReplaceAllEmpty. rewrite toks_of_runes by apply block_valid. unfold block. rewrite length_map, !map_app.
  rewrite remove_block by (try done; rewrite !length_app; lia). by rewrite <-map_app, untoks_runes.
Qed.

Lemma other_pass tag' : tag' ∈ thinkingTags → tag ≠ tag' →
  ReplaceAllEmpty (wellFormedTag tag') (of_runes (block tag la lb lc)) = of_runes (block tag la lb lc).
Proof.
  intros Ht' Hne. unfold ReplaceAllEmpty. rewrite toks_of_runes by apply block_valid.
  rewrite quiet_remove by (by apply quiet_other). by rewrite untoks_runes.
Qed.

Lemma free_pass r : requires 60 r = true → ReplaceAllEmpty r (of_runes (la ++ lc)) = of_runes (la ++ lc).
Proof. intros Hr. apply (ReplaceAllEmpty_requires 60); [by apply Forall_app|done|set_solver]. Qed.

Lemma block_passes :
  foldl (λ t tag, ReplaceAllEmpty (wellFormedTag tag) t) (of_runes (block tag la lb lc)) thinkingTags = of_runes (la ++ lc).
Proof.
  assert (∀ tags t, t = of_runes (la ++ lc) → Forall (λ tag, requires 60 (wellFormedTag tag) = true) tags →
    foldl (λ t tag, ReplaceAllEmpty (wellFormedTag tag) t) t tags = of_runes (la ++ lc)) as Hrest.
  { intros tags t -> Hf. induction Hf as [|x tags Hx Hf IH]; [done|]. cbn [foldl]. by rewrite free_pass. }
  assert (∀ tags, NoDup tags → tag ∈ tags → Forall (λ x, x ∈ thinkingTags) tags →
    foldl (λ t tag, ReplaceAllEmpty (wellFormedTag tag) t) (of_runes (block tag la lb lc)) tags = of_runes (la ++ lc)) as Hgo.
  { intros tags Hnd Hin Hf. induction Hf as [|x tags Hx Hf IH]; [by apply not_elem_of_nil in Hin|]. cbn [foldl].
    apply NoDup_cons in Hnd as [Hx' Hnd]. destruct (decide (tag = x)) as [<-|Hne].
    - apply Hrest; [apply own_pass|]. apply Forall_forall. intros y _. done.
    - rewrite other_pass by done. apply IH; [done|]. set_solver. }
  apply Hgo; [apply (bool_decide_unpack _); vm_compute; exact I|done|apply Forall_forall; auto].
Qed.

Lemma StripThink_block : StripThink (of_runes (block tag la lb lc)) = PyStrip (of_runes (la ++ lc)).
Proof.
  unfold StripThink. destruct (ContainsByte (of_runes (block tag la lb lc)) "<") eqn:E; cbn [negb].
  - rewrite block_passes, !free_pass by done. unfold stripMalformedOpenTags.
    rewrite (ContainsByte_of_runes "<") by (done || by apply Forall_app || set_solver). cbn [negb].
    by rewrite !free_pass.
  - exfalso. unfold block in E. rewrite !of_runes_app, !ContainsByte_app in E.
    apply orb_false_iff in E as [_ [E _]%orb_false_iff]. unfold opening in E. by cbn in E.
Qed.

(** *** The extracted text *)

Lemma find_open_free a t :
  ContainsByte a "<" = false → find_open (a +:+ t) = '(i, tg) ← find_open t; Some ((slen a + i)%nat, tg).
Proof using.
  induction a as [|c a IH]; cbn [ContainsByte String.append find_open slen String.length].
  - intros _. by destruct (find_open t) as [[i tg]|].
  - intros [Hx Hs]%orb_false_iff. rewrite Hx, (IH Hs). by destruct (find_open t) as [[i tg]|].
Qed.

Lemma find_open_none a : ContainsByte a "<" = false → find_open a = None.
Proof using. intros H. rewrite <-(sapp_nil_r a), find_open_free by done. done. Qed.

Lemma Index_free b sub t :
  ContainsByte b "<" = false → Index (b +:+ String "<" sub +:+ t) (String "<" sub) = Some (slen b).
Proof using.
  induction b as [|c b IH]; cbn [ContainsByte].
  - intros _. apply Index_prefix. apply (HasPrefix_app (String "<" sub) t).
  - intros [Hx Hs]%orb_false_iff. change (String c b +:+ ?x) with (String c (b +:+ x)). rewrite Index_skip, (IH Hs); [done|].
    cbn [HasPrefix]. assert (Ascii.eqb "<" c = false) as ->; [|done].
    apply Ascii.eqb_neq. intros <-. done.
Qed.

Lemma of_runes_opening : of_runes (opening tag) = "<" +:+ tag +:+ ">".
Proof using Htag.
  clear -Htag. unfold thinkingTags in Htag.
  repeat (apply elem_of_cons in Htag as [->|Htag]); [reflexivity..|by apply not_elem_of_nil in Htag].
Qed.

Lemma of_runes_closing : of_runes (closing tag) = "</" +:+ tag +:+ ">".
Proof using Htag.
  clear -Htag. unfold thinkingTags in Htag.
  repeat (apply elem_of_cons in Htag as [->|Htag]); [reflexivity..|by apply not_elem_of_nil in Htag].
Qed.

Lemma find_opening t : find_open ("<" +:+ tag +:+ ">" +:+ t) = Some (0%nat, tag).
Proof using Htag.
  clear -Htag. unfold thinkingTags in Htag.
  repeat (apply elem_of_cons in Htag as [->|Htag]); [by destruct t..|by apply not_elem_of_nil in Htag].
Qed.

Lemma inline_block : inlineThinkParts (of_runes (block tag la lb lc)) = [PyStrip (of_runes lb)].
Proof.
  assert (∀ l, Forall valid_rune l → 60 ∉ l → ContainsByte (of_runes l) "<" = false) as Hfree
    by (intros l Hv Hl; by apply (ContainsByte_of_runes "<")).
  unfold block. rewrite !of_runes_app, of_runes_opening, of_runes_closing.
  set (a := of_runes la). set (b := of_runes lb). set (c := of_runes lc).
  assert (ContainsByte a "<" = false) as Ha' by (by apply Hfree). assert (ContainsByte b "<" = false) as Hb' by (by apply Hfree).
  assert (ContainsByte c "<" = false) as Hc' by (by apply Hfree).
  set (close := "</" +:+ tag +:+ ">"). set (open := "<" +:+ tag +:+ ">"). set (text := a +:+ open +:+ b +:+ close +:+ c).
  unfold inlineThinkParts.
  assert (Contains text "</" = true) as ->.
  { unfold text, close. rewrite !sapp_assoc, <-(sapp_assoc _ tag), <-(sapp_assoc _ _ c), <-(sapp_assoc _ "</"). apply Contains_app. }
  cbn [negb]. assert (find_open text = Some (slen a, tag)) as Hopen.
  { unfold text, open. rewrite find_open_free, <-!sapp_assoc, find_opening by done. cbn. by rewrite Nat.add_0_r. }
  assert (sdrop (slen a + slen tag + 2) text = b +:+ close +:+ c) as Hbody.
  { unfold text. replace (slen a + slen tag + 2)%nat with (slen (a +:+ open)).
    - by rewrite (sapp_assoc a), sdrop_app.
    - unfold open. rewrite !slen_app. cbn. lia. }
  destruct (slen text) as [|fuel] eqn:El.
  { unfold text, open in El. rewrite !slen_app in El. cbn in El. lia. }
  cbn [inlineThinkParts_loop]. rewrite Hopen. cbn beta iota zeta. rewrite Hbody. fold close.
  assert (Index (b +:+ close +:+ c) close = Some (slen b)) as -> by (by apply Index_free).
  f_equal; [by rewrite stake_app|].
  assert (sdrop (slen b + slen close) (b +:+ close +:+ c) = c) as ->.
  { by rewrite sapp_assoc, <-slen_app, sdrop_app. }
  destruct fuel; cbn [inlineThinkParts_loop]; [done|]. by rewrite find_open_none.
Qed.
End Block.

(** ** Result *)

(** A closed reasoning block in an answer is cut out exactly: for each tag
    name, if the texts before, in and after the block hold no other [<], the
    extracted reasoning is the stripped content of the block and the answer is
    the rest of the text, stripped; what the runner cleans again is the same. *)
Theorem reasoning_block_exact tag la lb lc :
  tag ∈ thinkingTags → Forall valid_rune (la ++ lb ++ lc) → 60 ∉ la ++ lb ++ lc →
  let text := of_runes la +:+ "<" +:+ tag +:+ ">" +:+ of_runes lb +:+ "</" +:+ tag +:+ ">" +:+ of_runes lc in
  ExtractReasoning (Some "") [] (Some text)
    = (Some (PyStrip (of_runes lb)), Some (PyStrip (of_runes (la ++ lc)))).
Proof.
  intros Ht Hv Hl. rewrite !Forall_app in Hv. destruct Hv as (Hva & Hvb & Hvc). cbn zeta.
  assert (of_runes la +:+ "<" +:+ tag +:+ ">" +:+ of_runes lb +:+ "</" +:+ tag +:+ ">" +:+ of_runes lc
    = of_runes (block tag la lb lc)) as ->.
  { unfold block. rewrite !of_runes_app, of_runes_opening, of_runes_closing by done. by rewrite <-!sapp_assoc. }
  assert (of_runes (block tag la lb lc) ≠ "") as Hne.
  { unfold block. rewrite !of_runes_app, of_runes_opening by done. by destruct (of_runes la). }
  assert (ContainsByte (of_runes (block tag la lb lc)) "<" = true) as Hlt.
  { unfold block. rewrite !of_runes_app, of_runes_opening, !ContainsByte_app by done. cbn. by rewrite orb_true_r. }
  unfold ExtractReasoning. cbn [from_option id]. rewrite bool_decide_eq_true_2 by done. cbn [negb].
  apply String.eqb_neq in Hne as ->. unfold ExtractThink. rewrite Hlt. cbn [negb].
  rewrite inline_block, StripThink_block by set_solver. done.
Qed.

(** The scrubbing is not complete: removing a block can bring together the
    halves of another, which stays in the answer with its content. *)
Theorem reasoning_can_leak :
  StripThink "a<th<think></think>ink>secret</think>b" = "a<think>secret</think>b" ∧
  StripThink (StripThink "a<th<think></think>ink>secret</think>b") = "ab".
Proof. split; vm_compute; reflexivity. Qed.

Lemma reasoning_block_exact_witness :
  ExtractReasoning (Some "") [] (Some ("so " +:+ "<" +:+ "thought" +:+ ">" +:+ " why " +:+ "</" +:+ "thought" +:+ ">" +:+ "42"))
  = (Some "why", Some "so 42").
Proof.
  pose proof (reasoning_block_exact "thought" (codes "so ") (codes " why ") (codes "42")) as H.
  cbn zeta in H. assert (of_runes (codes "so ") = "so ") as E1 by reflexivity.
  rewrite E1 in H. apply H.
  - apply (bool_decide_unpack _). vm_compute. exact I.
  - apply (codes_valid "so  why 42"). reflexivity.
  - apply (bool_decide_unpack _). vm_compute. exact I.
Defined.

Example strip_unclosed : StripThink "  <think>never closed" = "".
Proof. vm_compute. reflexivity. Qed.
Example strip_channel : StripThink "answer<|chan" = "answer".
Proof. vm_compute. reflexivity. Qed.
Example extract_order : ExtractReasoning (Some "") [] (Some "<thought>b</thought>x<think>a</think>")
  = (Some ("b" +:+ blank_line +:+ "a"), Some "x").
Proof. vm_compute. reflexivity. Qed.
