(* ===== verification/Provider.v ===== *)
(** * The provider boundary (src/internal/provider/provider.go)

    Requests, transport errors, and the policy that decides which failed
    responses are tried again and after how long.  Lower-casing beyond ASCII is
    a table of package unicode and a parameter ([CaseTable]). *)

From S2P Require Import Prelude GoText GoLib PyFloat Core BitVec Indel FileDiff Response.
From Stdlib Require Import Ascii.
#[local] Open Scope string_scope.
#[local] Open Scope list_scope.
#[local] Open Scope Z_scope.

Record ToolSchema := mkSchema { ts_Name : string; ts_Description : string; ts_Parameters : RawJSON }.

Record ChatRequest := mkRequest {
  cr_Messages : list Message; cr_Tools : list ToolSchema; cr_Model : string; cr_MaxTokens : Z;
  cr_Temperature : float64; cr_ReasoningEffort : string }.

Record HTTPError := mkHTTPError { he_StatusCode : Z; he_Status : string; he_Body : string; he_RetryAfter : float64 }.

Definition HTTPError_Error (e : HTTPError) : string :=
  let body := if Nat.ltb 512 (slen (he_Body e)) then stake 512 (he_Body e) +:+ "..." else he_Body e in
  "provider: http " +:+ Itoa (he_StatusCode e) +:+ " " +:+ he_Status e +:+ ": " +:+ body.

Definition Retryable (e : HTTPError) : bool :=
  (he_StatusCode e =? 408) || (he_StatusCode e =? 409) || (he_StatusCode e =? 429) || (500 <=? he_StatusCode e).

(** ** Retry policy *)

Definition RetryAfterBuffer : float64 := of_int 1.
Definition ChatRetryDelays : list float64 := [of_int 1; of_int 2; of_int 4].

Definition transientErrorMarkers : list string :=
  ["429"; "rate limit"; "500"; "502"; "503"; "504"; "overloaded"; "timeout"; "timed out"; "connection";
   "server error"; "server_error"; "temporarily unavailable"; "速率限制"; "访问量过大"].

Definition nonRetryable429Tokens : gset string :=
  list_to_set ["insufficient_quota"; "quota_exceeded"; "quota_exhausted"; "billing_hard_limit_reached";
    "insufficient_balance"; "credit_balance_too_low"; "billing_not_active"; "payment_required"].

Definition retryable429Tokens : gset string :=
  list_to_set ["rate_limit_exceeded"; "rate_limit_error"; "too_many_requests"; "request_limit_exceeded";
    "requests_limit_exceeded"; "overloaded_error"].

Definition nonRetryable429Markers : list string :=
  ["insufficient_quota"; "insufficient quota"; "quota exceeded"; "quota exhausted"; "billing hard limit";
   "billing_hard_limit_reached"; "billing not active"; "insufficient balance"; "insufficient_balance";
   "credit balance too low"; "payment required"; "out of credits"; "out of quota"; "exceeded your current quota"].

Definition retryable429Markers : list string :=
  ["rate limit"; "rate_limit"; "too many requests"; "retry after"; "try again in"; "temporarily unavailable";
   "overloaded"; "concurrency limit"; "速率限制"].

Definition containsAny (haystack : string) (needles : list string) : bool := existsb (Contains haystack) needles.

Definition lower_ascii (c : ascii) : ascii :=
  if (65 <=? byteZ c) && (byteZ c <=? 90) then Zbyte (byteZ c + 32) else c.
Fixpoint ToLower_ascii (s : string) : string :=
  match s with "" => "" | String c s => String (lower_ascii c) (ToLower_ascii s) end.

(** [strings.ToLower] *)
Class CaseTable := {
  ToLower : string → string;
  ToLower_on_ascii : ∀ s, is_ascii s = true → ToLower s = ToLower_ascii s }.

Section Retry.
Context `{CaseTable}.

Definition isRetryable429 (r : Response) : bool :=
  if bool_decide (r_ErrorStatusCode r = Some 402) then false else
  let tokens := [ToLower (r_ErrorType r); ToLower (r_ErrorCode r)] in
  if existsb (λ tok, negb (String.eqb tok "") && bool_decide (tok ∈ nonRetryable429Tokens)) tokens then false else
  let content := ToLower (r_Content r) in
  if containsAny content nonRetryable429Markers then false else
  if existsb (λ tok, negb (String.eqb tok "") && bool_decide (tok ∈ retryable429Tokens)) tokens then true else
  if containsAny content retryable429Markers then true else true.

Definition derefFloat (f : option float64) : float64 := default (Fin false 0) f.

Definition ClassifyResponse (r : option Response) : bool * float64 :=
  match r with
  | None => (false, Fin false 0)
  | Some r =>
      let after := derefFloat (r_ErrorRetryAfterS r) in
      match r_ErrorShouldRetry r with
      | Some b => (b, after)
      | None =>
          if negb (bool_decide (r_FinishReason r = FinishError)) then (false, Fin false 0) else
          let byStatus :=
            match r_ErrorStatusCode r with
            | Some code =>
                if code =? 429 then Some (isRetryable429 r)
                else if (code =? 408) || (code =? 409) || (500 <=? code) then Some true else None
            | None => None
            end in
          match byStatus with
          | Some b => (b, after)
          | None =>
              if bool_decide (r_ErrorKind r = "timeout") || bool_decide (r_ErrorKind r = "connection") then (true, after)
              else if containsAny (ToLower (r_Content r)) transientErrorMarkers then (true, after)
              else (false, Fin false 0)
          end
      end
  end.

Definition IsTransientErrorText (text : string) : bool := containsAny (ToLower text) transientErrorMarkers.

(** [attempt] counts from one. *)
Definition RetryDelay (attempt : Z) (retryAfter : float64) (delays : list float64) : float64 :=
  let delays := match delays with [] => ChatRetryDelays | _ => delays end in
  if flt (Fin false 0) retryAfter then fadd retryAfter RetryAfterBuffer else
  let idx := attempt - 1 in
  let idx := if Z.of_nat (length delays) <=? idx then Z.of_nat (length delays) - 1 else idx in
  let idx := if idx <? 0 then 0 else idx in
  default (Fin false 0) (delays !! Z.to_nat idx).
End Retry.
