(* ===== verification/Tools.v ===== *)
(** * The tool registry (src/internal/tools/tool.go)

    A tool is a record of what its interface promises.  What running it returns
    depends on the world: [t_Execute] takes the moment of the call. *)

From S2P Require Import Prelude GoText GoLib PyFloat Regex GoFmt Core GoJson BitVec Indel FileDiff Response Provider.
From Stdlib Require Import Ascii.
#[local] Open Scope string_scope.
#[local] Open Scope list_scope.
#[local] Open Scope Z_scope.

Record Result := mkResult { res_Content : string; res_IsError : bool; res_FileDiffs : option (gmap string FileDiff) }.

Record Concurrency := mkConcurrency { c_ReadOnly : bool; c_ConcurrencySafe : bool; c_Exclusive : bool }.

(** [t_Concurrency] is [None] for a tool without the optional interface;
    [t_Execute] returns an error text or a result. *)
Record Tool := mkTool {
  t_Name : string; t_Description : string; t_Parameters : RawJSON; t_Concurrency : option Concurrency;
  t_Execute : nat → RawJSON → string + Result }.

Definition IsReadOnly (t : Tool) : bool := match t_Concurrency t with Some c => c_ReadOnly c | None => false end.
Definition IsConcurrencySafe (t : Tool) : bool :=
  match t_Concurrency t with Some c => c_ConcurrencySafe c | None => false end.
Definition IsExclusive (t : Tool) : bool := match t_Concurrency t with Some c => c_Exclusive c | None => false end.

(** ** Registry *)

Record Registry := mkRegistry { reg_tools : gmap string Tool; reg_order : list string }.

Definition NewRegistry : Registry := mkRegistry ∅ [].

Definition Register (t : Tool) (r : Registry) : Registry :=
  let name := t_Name t in
  mkRegistry (<[name := t]> (reg_tools r))
    (match reg_tools r !! name with None => reg_order r ++ [name] | Some _ => reg_order r end).

Definition Get (r : Registry) (name : string) : option Tool := reg_tools r !! name.
Definition Names (r : Registry) : list string := reg_order r.
Definition Len (r : Registry) : nat := size (reg_tools r).

Definition emptyParameters : RawJSON :=
  of_bytes [123; 34; 116; 121; 112; 101; 34; 58; 34; 111; 98; 106; 101; 99; 116; 34; 44; 34; 112; 114; 111; 112; 101;
            114; 116; 105; 101; 115; 34; 58; 123; 125; 125].

Definition schema_of (name : string) (t : Tool) : ToolSchema :=
  mkSchema name (t_Description t) (if String.eqb (t_Parameters t) "" then emptyParameters else t_Parameters t).

(** [sort.Slice] by name; the names differ, so the result is determined. *)
Definition sort_schemas : list ToolSchema → list ToolSchema := sort_by (λ x y, String.leb (ts_Name x) (ts_Name y)).

Definition Schemas (r : Registry) : list ToolSchema :=
  let all := omap (λ name, schema_of name <$> reg_tools r !! name) (reg_order r) in
  let mcp s := HasPrefix (ts_Name s) "mcp_" in
  sort_schemas (List.filter (λ s, negb (mcp s)) all) ++ sort_schemas (List.filter mcp all).

(** ** Arguments *)

Definition describeJSON (s : string) : string :=
  match s with
  | "" => "empty"
  | String c _ =>
      let b := byteZ c in
      if b =? 91 then "an array" else if b =? 34 then "a string"
      else if (b =? 116) || (b =? 102) then "a boolean" else if b =? 110 then "null"
      else if (b =? 45) || ((48 <=? b) && (b <=? 57)) then "a number" else "a non-object value"
  end.

(** [inl] is the error's text. *)
Definition NormalizeArguments (raw : RawJSON) : string + RawJSON :=
  let trimmed := TrimSpace raw in
  if String.eqb trimmed "" || String.eqb trimmed "null" then inr "{}"
  else if negb (byteZ (sget 0 trimmed) =? 123) then
    inl ("arguments must be a JSON object, got " +:+ describeJSON trimmed)
  else if negb (json_Valid raw) then inl "arguments are not valid JSON"
  else inr raw.

(** ** Execution *)

Section Execute.
Context `{PrintTable}.

Definition errorResult (call : ToolCall) (text : string) : ToolResult := mkToolResult (tc_ID call) text true None.

(** [now] is the moment of the call and [ctxErr] the context's error after it. *)
Definition Execute (r : Registry) (now : nat) (ctxErr : option string) (call : ToolCall) : ToolResult :=
  if negb (HasValidName call) then
    errorResult call "Error: tool call has an empty or invalid name and was not executed."
  else match Get r (tc_Name call) with
  | None =>
      errorResult call ("Error: unknown tool " +:+ Quote (tc_Name call) +:+ ". Available tools: " +:+ Join (Names r) ", ")
  | Some t =>
      match NormalizeArguments (tc_Arguments call) with
      | inl err => errorResult call ("Error: invalid arguments for tool " +:+ Quote (tc_Name call) +:+ ": " +:+ err)
      | inr args =>
          match t_Execute t now args with
          | inl err =>
              match ctxErr with
              | Some c => errorResult call ("Error: tool " +:+ Quote (tc_Name call) +:+ " canceled: " +:+ c)
              | None => errorResult call ("Error: tool " +:+ Quote (tc_Name call) +:+ " failed: " +:+ err)
              end
          | inr res => mkToolResult (tc_ID call) (res_Content res) (res_IsError res) (res_FileDiffs res)
          end
      end
  end.

(** A result answers its call, whatever happened. *)
Lemma Execute_id r now ctxErr call : tr_CallID (Execute r now ctxErr call) = tc_ID call.
Proof. unfold Execute. repeat case_match; reflexivity. Qed.
End Execute.

(** ** The registry's invariant *)

Record reg_wf (r : Registry) : Prop := {
  reg_nodup : NoDup (reg_order r);
  reg_dom : ∀ n, n ∈ reg_order r ↔ is_Some (reg_tools r !! n);
  reg_named : ∀ n t, reg_tools r !! n = Some t → t_Name t = n }.

Inductive registered : Registry → Prop :=
  | registered_new : registered NewRegistry
  | registered_add t r : registered r → registered (Register t r).

Lemma registered_wf r : registered r → reg_wf r.
Proof.
  induction 1 as [|t r _ [H1 H2 H3]].
  - split; [constructor|..]; cbn; intros n; rewrite ?lookup_empty; [|done].
    split; [by intros ?%not_elem_of_nil|by intros [? [=]]].
  - unfold Register. split; cbn [reg_tools reg_order].
    + destruct (reg_tools r !! t_Name t) eqn:E; [done|]. apply NoDup_app. split_and!; [done| |apply NoDup_singleton].
      intros n Hn ->%list_elem_of_singleton. apply H2 in Hn as [? Hn]. congruence.
    + intros n. rewrite lookup_insert_is_Some'. destruct (reg_tools r !! t_Name t) eqn:E.
      * rewrite H2. split; [auto|intros [<-|?]; [eauto|done]].
      * rewrite elem_of_app, list_elem_of_singleton, H2. naive_solver.
    + intros n t'. destruct (decide (n = t_Name t)) as [->|]; [rewrite lookup_insert_eq; by intros [= <-]|].
      rewrite lookup_insert_ne by done. apply H3.
Qed.

(** ** Advertised schemas *)

Definition name_le (a b : ToolSchema) : Prop := String.leb (ts_Name a) (ts_Name b) = true.

#[export] Instance name_le_total : Total name_le.
Proof. intros a b. unfold name_le. destruct (String.leb_total (ts_Name a) (ts_Name b)); auto. Qed.

Lemma sort_schemas_perm l : sort_schemas l ≡ₚ l.
Proof. apply sort_by_perm. Qed.

#[export] Instance name_le_trans : Transitive name_le.
Proof. intros a b c. apply String_leb_trans. Qed.

Lemma sort_schemas_sorted l : Sorted name_le (sort_schemas l).
Proof. apply StronglySorted_Sorted, sort_by_sorted; [apply _|done|]. intros x y E. by apply String_leb_false in E as [? _]. Qed.

Definition all_schemas (r : Registry) : list ToolSchema :=
  omap (λ name, schema_of name <$> reg_tools r !! name) (reg_order r).

Lemma all_schemas_names r : reg_wf r → map ts_Name (all_schemas r) = reg_order r.
Proof.
  intros [_ Hd _]. unfold all_schemas. assert (∀ n, n ∈ reg_order r → is_Some (reg_tools r !! n)) as Hs by (intros n; apply Hd).
  clear Hd. induction (reg_order r) as [|n l IH]; [done|]. destruct (Hs n) as [t Ht]; [by left|]. cbn. rewrite Ht.
  cbn. f_equal. apply IH. intros x Hx. apply Hs. by right.
Qed.

Lemma all_schemas_elem r s : reg_wf r →
  s ∈ all_schemas r ↔ ∃ t, Get r (t_Name t) = Some t ∧ s = schema_of (t_Name t) t.
Proof.
  intros [_ Hd Hn]. unfold all_schemas, Get. rewrite list_elem_of_omap. split.
  - intros (n & Hin & Hs). destruct (reg_tools r !! n) as [t|] eqn:E; [|done]. cbn in Hs. injection Hs as <-.
    exists t. by rewrite (Hn n t E).
  - intros (t & Ht & ->). exists (t_Name t). rewrite Ht. split; [apply Hd; eauto|done].
Qed.

Lemma reg_Len r : reg_wf r → Len r = length (reg_order r).
Proof.
  intros [Hnd Hd _]. unfold Len. rewrite <-(size_dom (D := gset string)), <-(size_list_to_set (C := gset string) (reg_order r)) by done.
  f_equal. apply set_eq. intros n. by rewrite elem_of_dom, elem_of_list_to_set, Hd.
Qed.

(** What is advertised to the model: of every registered tool exactly one
    schema, under the name it was registered with and the last registration's
    description, first the built-in tools and then the MCP tools, each part in
    the order of the names whatever the order of registration. *)
Theorem schemas_deterministic r :
  registered r →
  ∃ own mcp, Schemas r = own ++ mcp ∧ Sorted name_le own ∧ Sorted name_le mcp ∧
    Forall (λ s, HasPrefix (ts_Name s) "mcp_" = false) own ∧ Forall (λ s, HasPrefix (ts_Name s) "mcp_" = true) mcp ∧
    NoDup (map ts_Name (Schemas r)) ∧ length (Schemas r) = Len r ∧
    ∀ s, s ∈ Schemas r ↔ ∃ t, Get r (t_Name t) = Some t ∧ s = schema_of (t_Name t) t.
Proof.
  intros Hr%registered_wf. set (all := all_schemas r).
  set (mcp := λ s, HasPrefix (ts_Name s) "mcp_").
  set (own := sort_schemas (List.filter (λ s, negb (mcp s)) all)). set (rest := sort_schemas (List.filter mcp all)).
  assert (own ++ rest ≡ₚ all) as Hperm.
  { unfold own, rest. rewrite !sort_schemas_perm. clear. induction all as [|s l IH]; cbn; [done|].
    destruct (mcp s); cbn; [by rewrite <-Permutation_middle, IH|by rewrite IH]. }
  assert (Schemas r = own ++ rest) as -> by done.
  exists own, rest. split_and!; [done|apply sort_schemas_sorted..| | | | |].
  - unfold own. rewrite sort_schemas_perm. apply Forall_forall. intros s [_ Hs]%list_elem_of_In%filter_In.
    by apply negb_true_iff.
  - unfold rest. rewrite sort_schemas_perm. apply Forall_forall. intros s [_ Hs]%list_elem_of_In%filter_In. done.
  - rewrite Hperm. unfold all. rewrite all_schemas_names by done. apply Hr.
  - rewrite Hperm, (reg_Len r Hr), <-(all_schemas_names r Hr). unfold all. by rewrite length_map.
  - intros s. rewrite Hperm. by apply all_schemas_elem.
Qed.

Definition demo_tool (name : string) : Tool :=
  mkTool name "a tool" "" None (λ _ args, inr (mkResult args false None)).
Definition demo_registry : Registry :=
  Register (demo_tool "exec") (Register (demo_tool "mcp_a") (Register (demo_tool "read_file") (Register (demo_tool "exec") NewRegistry))).

Lemma schemas_deterministic_witness :
  map ts_Name (Schemas demo_registry) = ["exec"; "read_file"; "mcp_a"] ∧
  ∃ own mcp, Schemas demo_registry = own ++ mcp ∧ Sorted name_le own ∧ Sorted name_le mcp ∧
    Forall (λ s, HasPrefix (ts_Name s) "mcp_" = false) own ∧ Forall (λ s, HasPrefix (ts_Name s) "mcp_" = true) mcp ∧
    NoDup (map ts_Name (Schemas demo_registry)) ∧ length (Schemas demo_registry) = Len demo_registry ∧
    ∀ s, s ∈ Schemas demo_registry ↔ ∃ t, Get demo_registry (t_Name t) = Some t ∧ s = schema_of (t_Name t) t.
Proof.
  split; [vm_compute; reflexivity|]. apply (schemas_deterministic demo_registry).
  repeat constructor.
Defined.
