(* ===== verification/ToolOutput.v ===== *)
(** * Tool results for the model (src/internal/agent/toolresult.go)

    An empty result becomes a marker and an oversized one a reference to a file
    of the workspace.  The files are kept as a map from directories (a bucket per
    session, by its path in the workspace) to their files; whether a directory or
    a file can be read, written or removed, the age of a bucket and the resolved
    path of a file are answers of the operating system ([FsEnv]). *)

From S2P Require Import Prelude GoText GoLib PyFloat Regex Core BitVec Indel FileDiff Response Think.
From Stdlib Require Import Ascii.
#[local] Open Scope string_scope.
#[local] Open Scope list_scope.
#[local] Open Scope Z_scope.

Definition toolResultPreviewChars : nat := 1200.
Definition toolResultRetentionSecs : Z := 7 * 24 * 60 * 60.
Definition toolResultMaxBuckets : nat := 32.
Definition toolResultOffloadExempt : gset string := {["read_file"]}.

Definition EmptyToolResultMessage (toolName : string) : string := "(" +:+ toolName +:+ " completed with no output)".

(** [unsafeChars.ReplaceAllString(name, "_")]: each of the nine ASCII characters. *)
Definition unsafe_char (c : ascii) : bool := existsb (Z.eqb (byteZ c)) [60; 62; 58; 34; 47; 92; 124; 63; 42].
Fixpoint replace_unsafe (s : string) : string :=
  match s with "" => "" | String c s => String (if unsafe_char c then "_" else c)%char (replace_unsafe s) end.
Definition SafeFilename (name : string) : string := PyStrip (replace_unsafe name).

(** The text of a block list that is all text. *)
Fixpoint all_text (blocks : list ContentBlock) : option string :=
  match blocks with
  | [] => Some ""
  | b :: blocks => if bool_decide (cb_Type b = "text") then t ← all_text blocks; Some (cb_Text b +:+ t) else None
  end.

Definition EnsureNonemptyContent (toolName : string) (content : Content) : Content :=
  let marker := TextContent (EmptyToolResultMessage toolName) in
  if IsZero content then marker
  else if IsText content then (if String.eqb (PyStrip (c_Text content)) "" then marker else content)
  else match default [] (c_Blocks content) with
  | [] => marker
  | blocks => match all_text blocks with
              | Some t => if String.eqb (PyStrip t) "" then marker else content
              | None => content
              end
  end.

Definition newline : string := String "010" "".

Definition RenderToolResultReference (referencePath : string) (originalSize : Z) (preview : string)
    (truncatedPreview : bool) (maxChars : Z) : string :=
  let result :=
    "[tool output persisted]" +:+ newline +:+ "Full output saved to workspace path: " +:+ referencePath +:+ newline
    +:+ "Original size: " +:+ Itoa originalSize +:+ " chars" +:+ newline +:+ "Preview:" +:+ newline +:+ preview
    +:+ (if truncatedPreview then newline +:+ "..." +:+ newline +:+ "Preview is also truncated." else "")
    +:+ newline +:+ "Result truncated. Read the saved file if you need the complete output." in
  if (0 <? maxChars) && (maxChars <? Z.of_nat (slen result)) then "[truncated: " +:+ referencePath +:+ "]" else result.

(** ** The workspace *)

Abbreviation files := (gmap string (gmap string string)) (only parsing).

Definition toolResultsDir : string := ".nanobot/tool-results".

(** [filepath.Join(root, name)] for a name without a separator. *)
Definition bucketPath (name : string) : string :=
  if String.eqb name "." then toolResultsDir
  else if String.eqb name ".." then ".nanobot" else toolResultsDir +:+ "/" +:+ name.

Definition bucketOf (sessionKey : string) : string :=
  bucketPath (let b := SafeFilename sessionKey in if String.eqb b "" then "default" else b).

(** Whether a directory is an entry of [root]. *)
Definition in_root (p : string) : bool := HasPrefix p (toolResultsDir +:+ "/").

(** The answers of the operating system at a moment.  [statFails] is an error of
    [os.Stat] other than the file's absence. *)
Record FsEnv := {
  mkdirOK : nat → string → bool;
  readDirOK : nat → bool;
  removeOK : nat → string → bool;
  statFails : nat → string → string → bool;
  writeOK : nat → string → string → bool;
  bucketAge : nat → string → Z;         (* seconds since the bucket was modified *)
  resolve : string → string → string → string (* workspace, bucket and file *) }.

(** [sort.Slice] by time of modification, newest first. *)
Definition sort_buckets (age : string → Z) : list string → list string := sort_by (λ x y, age x <=? age y).

Section Workspace.
Context (E : FsEnv).

(** [os.RemoveAll] of each of [l]. *)
Definition remove_buckets (now : nat) (l : list string) (f : files) : files :=
  foldr (λ p f, if removeOK E now p then delete p f else f) f l.

Definition cleanupToolResultBuckets (now : nat) (current : string) (f : files) : files :=
  if negb (readDirOK E now) then f else
  let siblings := List.filter (λ p, in_root p && negb (String.eqb p current)) (elements (dom f)) in
  let old p := toolResultRetentionSecs <? bucketAge E now p in
  let f := remove_buckets now (List.filter old siblings) f in
  let kept := List.filter (λ p, negb (old p)) siblings in
  let keep := (toolResultMaxBuckets - 1)%nat in
  if Nat.leb (length kept) keep then f
  else remove_buckets now (drop keep (sort_buckets (bucketAge E now) kept)) f.

(** The file of a result, written unless something is there. *)
Definition save_result (now : nat) (bucket file content : string) (f : files) : option files :=
  let dir := default ∅ (f !! bucket) in
  if statFails E now bucket file then Some f else
  match dir !! file with
  | Some _ => Some f
  | None => if writeOK E now bucket file then Some (<[bucket := <[file := content]> dir]> f) else None
  end.

Definition MaybePersistToolResult (now : nat) (workspace sessionKey toolCallID content : string) (maxChars : Z)
    (f : files) : string * files :=
  if String.eqb workspace "" || (maxChars <=? 0) || (Z.of_nat (slen content) <=? maxChars) then (content, f) else
  let bucket := bucketOf sessionKey in
  if negb (mkdirOK E now bucket) then (TruncateText content maxChars, f) else
  let f := <[bucket := default ∅ (f !! bucket)]> f in
  let f := cleanupToolResultBuckets now bucket f in
  let file := SafeFilename toolCallID +:+ ".txt" in
  match save_result now bucket file content f with
  | None => (TruncateText content maxChars, f)
  | Some f =>
      let truncated := Nat.ltb toolResultPreviewChars (slen content) in
      let preview := if truncated then stake toolResultPreviewChars content else content in
      (RenderToolResultReference (resolve E workspace bucket file) (Z.of_nat (slen content)) preview truncated maxChars, f)
  end.

(** The closure of [NormalizeToolResult]. *)
Definition persist (now : nat) (workspace sessionKey text callID : string) (maxChars : Z)
    (f : files) : string * files :=
  let '(out, f) := MaybePersistToolResult now workspace sessionKey callID text maxChars f in
  (if String.eqb workspace "" then TruncateText out maxChars else out, f).

Definition with_Text (t : string) (b : ContentBlock) : ContentBlock :=
  {| cb_Type := cb_Type b; cb_Text := t; cb_ImageURL := cb_ImageURL b; cb_Raw := cb_Raw b |}.

(** The loop over the blocks: the blocks, whether one changed, the files. *)
Fixpoint persist_blocks (now : nat) (workspace sessionKey toolCallID : string) (maxChars : Z) (i : Z)
    (blocks : list ContentBlock) (f : files)
    : list ContentBlock * bool * files :=
  match blocks with
  | [] => ([], false, f)
  | b :: rest =>
      if negb (bool_decide (cb_Type b = "text")) then
        let '(out, changed, f) := persist_blocks now workspace sessionKey toolCallID maxChars (i + 1) rest f in
        (b :: out, changed, f)
      else
        let '(next, f) := persist now workspace sessionKey (cb_Text b) (toolCallID +:+ "_text_" +:+ Itoa i) maxChars f in
        let '(out, changed, f) := persist_blocks now workspace sessionKey toolCallID maxChars (i + 1) rest f in
        if String.eqb next (cb_Text b) then (b :: out, changed, f) else (with_Text next b :: out, true, f)
  end.

Definition NormalizeToolResult (now : nat) (workspace sessionKey toolCallID toolName : string) (content : Content)
    (maxChars : Z) (f : files) : Content * files :=
  let content := EnsureNonemptyContent toolName content in
  if bool_decide (toolName ∈ toolResultOffloadExempt) then (content, f)
  else if IsText content then
    let '(t, f) := persist now workspace sessionKey (c_Text content) toolCallID maxChars f in (TextContent t, f)
  else match default [] (c_Blocks content) with
  | [] => (content, f)
  | blocks =>
      let '(out, changed, f) := persist_blocks now workspace sessionKey toolCallID maxChars 0 blocks f in
      if (changed : bool) then (BlockContent (Some out), f) else (content, f)
  end.
End Workspace.

(** ** Buckets *)

Section Buckets.
Context (E : FsEnv).

Lemma remove_buckets_lookup now l f p :
  remove_buckets E now l f !! p = if decide (p ∈ l ∧ removeOK E now p = true) then None else f !! p.
Proof.
  unfold remove_buckets. induction l as [|x l IH]; cbn [foldr]; [by rewrite decide_False by (by intros [?%not_elem_of_nil _])|].
  destruct (removeOK E now x) eqn:Ex; [destruct (decide (p = x)) as [->|Hne]|].
  - rewrite lookup_delete_eq. by rewrite decide_True by (split; [left|done]).
  - rewrite lookup_delete_ne, IH by done. repeat case_decide; rewrite ?elem_of_cons in *; naive_solver.
  - rewrite IH. repeat case_decide; rewrite ?elem_of_cons in *; destruct_and?; destruct_or?; simplify_eq; first [done|tauto|congruence].
Qed.

Lemma sort_buckets_perm age l : sort_buckets age l ≡ₚ l.
Proof. apply sort_by_perm. Qed.

Definition newer (age : string → Z) (p q : string) : Prop := age p ≤ age q.

Lemma sort_buckets_sorted age l : StronglySorted (newer age) (sort_buckets age l).
Proof.
  apply sort_by_sorted; unfold newer.
  - intros x y z ? ?. lia.
  - intros x y. apply Z.leb_le.
  - intros x y ?%Z.leb_gt. lia.
Qed.

(** The entries of [root] other than the current bucket. *)
Definition siblings (current : string) (f : files) : list string :=
  List.filter (λ p, in_root p && negb (String.eqb p current)) (elements (dom f)).

Lemma siblings_elem current f p : p ∈ siblings current f ↔ is_Some (f !! p) ∧ in_root p = true ∧ p ≠ current.
Proof.
  unfold siblings. rewrite list_elem_of_In, filter_In, <-list_elem_of_In, elem_of_elements, elem_of_dom.
  rewrite andb_true_iff, negb_true_iff, String.eqb_neq. done.
Qed.

Lemma siblings_nodup current f : NoDup (siblings current f).
Proof. unfold siblings. apply NoDup_ListNoDup, List.NoDup_filter, NoDup_ListNoDup, NoDup_elements. Qed.

Definition expired (now : nat) (p : string) : bool := toolResultRetentionSecs <? bucketAge E now p.

(** The siblings that are kept, newest first. *)
Definition survivors (now : nat) (current : string) (f : files) : list string :=
  take (toolResultMaxBuckets - 1)
    (sort_buckets (bucketAge E now) (List.filter (λ p, negb (expired now p)) (siblings current f))).

Lemma kept_elem now current f p :
  p ∈ List.filter (λ p, negb (expired now p)) (siblings current f) ↔ p ∈ siblings current f ∧ expired now p = false.
Proof. by rewrite list_elem_of_In, filter_In, <-list_elem_of_In, negb_true_iff. Qed.

Lemma survivors_siblings now current f p : p ∈ survivors now current f → p ∈ siblings current f ∧ expired now p = false.
Proof. intros (i & Hp & _)%elem_of_take. apply list_elem_of_lookup_2 in Hp. rewrite sort_buckets_perm in Hp. by apply kept_elem. Qed.

(** What the cleanup leaves, when the directory can be read and cleaned. *)
Lemma cleanup_lookup now current f p :
  readDirOK E now = true → (∀ q, removeOK E now q = true) →
  cleanupToolResultBuckets E now current f !! p =
    if decide (p ∈ siblings current f ∧ p ∉ survivors now current f) then None else f !! p.
Proof.
  intros Hr Hrm. unfold cleanupToolResultBuckets. rewrite Hr. cbn [negb]. fold (siblings current f).
  set (kept := List.filter (λ p, negb (toolResultRetentionSecs <? bucketAge E now p)) (siblings current f)).
  assert (∀ q, q ∈ List.filter (λ p, toolResultRetentionSecs <? bucketAge E now p) (siblings current f) ↔
               q ∈ siblings current f ∧ q ∉ kept) as Hold.
  { intros q. unfold kept. rewrite !list_elem_of_In, !filter_In, negb_true_iff. destruct (_ <? _); naive_solver. }
  assert (∀ q, q ∈ kept → q ∈ siblings current f) as Hks by (intros q Hq; by apply (kept_elem now current f q) in Hq as [? _]).
  assert (survivors now current f = take (toolResultMaxBuckets - 1) (sort_buckets (bucketAge E now) kept)) as Hsv by done.
  assert (∀ q, q ∈ kept ↔ q ∈ survivors now current f ∨
               q ∈ drop (toolResultMaxBuckets - 1) (sort_buckets (bucketAge E now) kept)) as Hsplit.
  { intros q. rewrite Hsv, <-elem_of_app, take_drop, sort_buckets_perm. done. }
  assert (∀ q, q ∈ survivors now current f → q ∉ drop (toolResultMaxBuckets - 1) (sort_buckets (bucketAge E now) kept)) as Hdisj.
  { rewrite Hsv. assert (NoDup (sort_buckets (bucketAge E now) kept)) as Hnd.
    { rewrite sort_buckets_perm. apply NoDup_ListNoDup, List.NoDup_filter, NoDup_ListNoDup, siblings_nodup. }
    rewrite <-(take_drop (toolResultMaxBuckets - 1) (sort_buckets _ kept)) in Hnd. apply NoDup_app in Hnd as (_ & Hnd & _).
    done. }
  destruct (Nat.leb_spec (length kept) (toolResultMaxBuckets - 1)) as [Hl|Hl].
  - assert (drop (toolResultMaxBuckets - 1) (sort_buckets (bucketAge E now) kept) = []) as Hnil.
    { apply drop_ge. by rewrite (Permutation_length (sort_buckets_perm _ _)). }
    rewrite Hnil in *. rewrite remove_buckets_lookup.
    repeat case_decide; try done; specialize (Hold p); specialize (Hsplit p); specialize (Hrm p); set_solver.
  - rewrite !remove_buckets_lookup.
    repeat case_decide; try done; specialize (Hold p); specialize (Hsplit p); specialize (Hrm p);
      specialize (Hdisj p); specialize (Hks p); naive_solver.
Qed.
End Buckets.

(** ** Theorems *)

Lemma siblings_cleanup E now current f :
  readDirOK E now = true → (∀ q, removeOK E now q = true) →
  siblings current (cleanupToolResultBuckets E now current f) ≡ₚ survivors E now current f.
Proof.
  intros Hr Hrm. apply NoDup_Permutation; [apply siblings_nodup| |].
  - unfold survivors. eapply sublist_NoDup; [|apply sublist_take]. rewrite sort_buckets_perm.
    apply NoDup_ListNoDup, List.NoDup_filter, NoDup_ListNoDup, siblings_nodup.
  - intros p. rewrite siblings_elem, cleanup_lookup by done. case_decide as H.
    + split; [by intros [[? [=]] _]|naive_solver].
    + rewrite <-siblings_elem. split.
      * intros Hp. destruct (decide (p ∈ survivors E now current f)); [done|]. by destruct H.
      * intros Hp. by apply survivors_siblings in Hp as [? _].
Qed.

Lemma survivors_newest E now current f p q :
  p ∈ siblings current f → p ∉ survivors E now current f → q ∈ survivors E now current f →
  expired E now p = true ∨ bucketAge E now q ≤ bucketAge E now p.
Proof.
  intros Hp Hnp Hq. destruct (expired E now p) eqn:He; [by left|right].
  assert (p ∈ sort_buckets (bucketAge E now) (List.filter (λ p, negb (expired E now p)) (siblings current f))) as Hin.
  { rewrite sort_buckets_perm. by apply kept_elem. }
  pose proof (sort_buckets_sorted (bucketAge E now) (List.filter (λ p, negb (expired E now p)) (siblings current f))) as Hs.
  unfold survivors in *. revert Hs Hin Hnp Hq.
  set (l := sort_buckets _ _). intros Hs Hin Hnp Hq. rewrite <-(take_drop (toolResultMaxBuckets - 1) l) in Hs, Hin.
  apply elem_of_app in Hin as [?|Hin]; [done|].
  apply (StronglySorted_app_1_elem_of (newer (bucketAge E now)) _ _ q p Hs); done.
Qed.

(** The cleanup of the workspace: it leaves at most 32 buckets, none but the
    current one past the retention; the current bucket and every bucket that stays
    keep their files as they are, nothing outside the directory is touched, and
    what is removed is expired or at least as old as everything that stays. *)
Theorem buckets_bounded E now current f :
  readDirOK E now = true → (∀ q, removeOK E now q = true) → in_root current = true → is_Some (f !! current) →
  let f' := cleanupToolResultBuckets E now current f in
  (length (List.filter in_root (elements (dom f'))) ≤ toolResultMaxBuckets)%nat ∧ f' !! current = f !! current ∧
  f' ⊆ f ∧ (∀ p, in_root p = false → f' !! p = f !! p) ∧
  (∀ p, p ∈ siblings current f' → expired E now p = false) ∧
  (∀ p q, p ∈ siblings current f → f' !! p = None → q ∈ siblings current f' →
     expired E now p = true ∨ bucketAge E now q ≤ bucketAge E now p).
Proof.
  intros Hr Hrm Hroot Hcur f'. pose proof (siblings_cleanup E now current f Hr Hrm) as Hsib. fold f' in Hsib.
  assert (∀ p, f' !! p = if decide (p ∈ siblings current f ∧ p ∉ survivors E now current f) then None else f !! p)
    as Hl by (intros p; by apply cleanup_lookup).
  split_and!.
  - transitivity (length (current :: siblings current f')).
    + apply submseteq_length, NoDup_submseteq.
      { apply NoDup_ListNoDup, List.NoDup_filter, NoDup_ListNoDup, NoDup_elements. }
      intros p. rewrite list_elem_of_In, filter_In, <-list_elem_of_In, elem_of_elements, elem_of_dom, elem_of_cons, siblings_elem.
      destruct (decide (p = current)); naive_solver.
    + cbn [length]. rewrite Hsib. unfold survivors. rewrite length_take. unfold toolResultMaxBuckets. lia.
  - rewrite Hl. rewrite decide_False; [done|]. rewrite siblings_elem. naive_solver.
  - apply map_subseteq_spec. intros p fs. rewrite Hl. by case_decide.
  - intros p Hp. rewrite Hl. rewrite decide_False; [done|]. rewrite siblings_elem. intros [(_ & ? & _) _]. congruence.
  - intros p Hp. rewrite Hsib in Hp. by apply survivors_siblings in Hp as [_ ?].
  - intros p q Hp Hnone Hq. rewrite Hsib in Hq. apply (survivors_newest E now current f p q); [done| |done].
    rewrite Hl in Hnone. case_decide as Hd; [by destruct Hd|]. apply siblings_elem in Hp as [[? ?] _]. congruence.
Qed.

Lemma runes_fuel_length fuel s : (length (runes_fuel fuel s) ≤ fuel)%nat.
Proof.
  revert s. induction fuel as [|fuel IH]; intros s; cbn [runes_fuel]; [cbn; lia|].
  destruct s as [|c s]; [cbn; lia|]. destruct (DecodeRune _) as [r n]. cbn [length]. specialize (IH (sdrop n (String c s))). lia.
Qed.

(** What the model may be sent under a limit: a text of at most so many runes, a
    text cut to so many, or the path of a file. *)
Definition bounded (maxChars : Z) (t : string) : Prop :=
  Z.of_nat (length (runes t)) ≤ maxChars ∨
  (∃ l, Z.of_nat (length l) ≤ maxChars ∧ t = of_runes l +:+ TruncatedSuffix) ∨
  (∃ path, t = "[truncated: " +:+ path +:+ "]").

Lemma bounded_short maxChars t : Z.of_nat (slen t) ≤ maxChars → bounded maxChars t.
Proof. intros H. left. pose proof (runes_fuel_length (slen t) t). unfold runes. lia. Qed.

Lemma TruncateText_bounded maxChars t : 0 < maxChars → bounded maxChars (TruncateText t maxChars).
Proof.
  intros H. unfold TruncateText. destruct (Z.leb_spec maxChars 0); [lia|].
  destruct (Z.leb_spec (Z.of_nat (length (runes t))) maxChars); [by left|right; left].
  eexists. split; [|done]. rewrite length_take. lia.
Qed.

Lemma Render_bounded path size preview tr maxChars :
  0 < maxChars → bounded maxChars (RenderToolResultReference path size preview tr maxChars).
Proof.
  intros H. unfold RenderToolResultReference. cbv zeta. case_match eqn:Hc; [right; right; eauto|].
  apply bounded_short. destruct (Z.ltb_spec 0 maxChars); [|lia]. cbn [andb] in Hc. bool_hyps. lia.
Qed.

Lemma persist_bounded E now workspace sessionKey text callID maxChars f :
  0 < maxChars → bounded maxChars (persist E now workspace sessionKey text callID maxChars f).1.
Proof.
  intros H. unfold persist, MaybePersistToolResult.
  destruct (String.eqb workspace "") eqn:Hw; cbn [orb]; [by apply TruncateText_bounded|].
  destruct (Z.leb_spec maxChars 0); [lia|]. cbn [orb].
  destruct (Z.leb_spec (Z.of_nat (slen text)) maxChars); [by apply bounded_short|].
  cbv zeta. destruct (mkdirOK _ _ _); cbn [negb]; [|by apply TruncateText_bounded].
  destruct (save_result _ _ _ _ _ _); [by apply Render_bounded|by apply TruncateText_bounded].
Qed.

Lemma persist_blocks_bounded E now workspace sessionKey callID maxChars i blocks f :
  0 < maxChars →
  Forall (λ b, cb_Type b = "text" → bounded maxChars (cb_Text b))
    (persist_blocks E now workspace sessionKey callID maxChars i blocks f).1.1.
Proof.
  intros H. revert i f. induction blocks as [|b rest IH]; intros i f; [constructor|]. cbn [persist_blocks].
  case_bool_decide as Ht; cbn [negb].
  - pose proof (persist_bounded E now workspace sessionKey (cb_Text b) (callID +:+ "_text_" +:+ Itoa i) maxChars f H) as Hb.
    destruct (persist _ _ _ _ _ _ _ _) as [next f']. specialize (IH (i + 1) f').
    destruct (persist_blocks _ _ _ _ _ _ _ _ _) as [[out changed] f'']. cbn in Hb, IH.
    destruct (String.eqb_spec next (cb_Text b)) as [->|]; constructor; auto.
  - specialize (IH (i + 1) f). destruct (persist_blocks _ _ _ _ _ _ _ _ _) as [[out changed] f'].
    constructor; [by intros ?|done].
Qed.

Lemma persist_blocks_unchanged E now workspace sessionKey callID maxChars i blocks f :
  let '(out, changed, _) := persist_blocks E now workspace sessionKey callID maxChars i blocks f in
  changed = false → out = blocks.
Proof.
  revert i f. induction blocks as [|b rest IH]; intros i f; [done|]. cbn [persist_blocks]. destruct (negb _).
  - specialize (IH (i + 1) f). destruct (persist_blocks _ _ _ _ _ _ _ _ _) as [[out changed] f']. intros. f_equal. auto.
  - destruct (persist _ _ _ _ _ _ _ _) as [next f']. specialize (IH (i + 1) f').
    destruct (persist_blocks _ _ _ _ _ _ _ _ _) as [[out changed] f'']. destruct (String.eqb _ _); [intros; f_equal; auto|done].
Qed.

(** The texts of a content. *)
Definition texts (c : Content) : list string :=
  if IsText c then [c_Text c]
  else map cb_Text (List.filter (λ b, bool_decide (cb_Type b = "text")) (default [] (c_Blocks c))).

Lemma texts_blocks (P : string → Prop) bs :
  Forall (λ b, cb_Type b = "text" → P (cb_Text b)) bs →
  Forall P (map cb_Text (List.filter (λ b, bool_decide (cb_Type b = "text")) bs)).
Proof.
  induction 1 as [|b bs Hb _ IH]; cbn; [constructor|]. case_bool_decide; cbn; [constructor; auto|done].
Qed.

(** However large the result of a tool, every text the model receives of it is
    within the limit: at most [maxChars] runes, or cut to that many and marked, or
    the path of the file that holds it.  Only [read_file], which has a limit of its
    own, is passed on as it is. *)
Theorem tool_result_bounded E now workspace sessionKey callID toolName content maxChars f :
  0 < maxChars → toolName ∉ toolResultOffloadExempt →
  Forall (bounded maxChars)
    (texts (NormalizeToolResult E now workspace sessionKey callID toolName content maxChars f).1).
Proof.
  intros Hmax Hex. unfold NormalizeToolResult. rewrite bool_decide_eq_false_2 by done.
  set (c := EnsureNonemptyContent toolName content). destruct (IsText c) eqn:Ht.
  - pose proof (persist_bounded E now workspace sessionKey (c_Text c) callID maxChars f Hmax) as Hb.
    destruct (persist _ _ _ _ _ _ _ _) as [t f']. constructor; [exact Hb|constructor].
  - destruct (default [] (c_Blocks c)) as [|b bs] eqn:Hbs.
    { unfold texts. cbn [fst]. rewrite Ht, Hbs. constructor. }
    pose proof (persist_blocks_bounded E now workspace sessionKey callID maxChars 0 (b :: bs) f Hmax) as Hb.
    pose proof (persist_blocks_unchanged E now workspace sessionKey callID maxChars 0 (b :: bs) f) as Hu.
    destruct (persist_blocks _ _ _ _ _ _ _ _ _) as [[out []] f']; cbn [fst] in Hb |- *.
    + unfold texts. cbn [IsText c_isText BlockContent c_Blocks]. by apply texts_blocks.
    + unfold texts. rewrite Ht, Hbs, <-(Hu eq_refl). by apply texts_blocks.
Qed.

Lemma cleanup_current E now current f : cleanupToolResultBuckets E now current f !! current = f !! current.
Proof.
  unfold cleanupToolResultBuckets. destruct (readDirOK E now); [cbn [negb]|done]. fold (siblings current f).
  assert (∀ g, current ∉ List.filter g (siblings current f)) as Hf.
  { intros g. rewrite list_elem_of_In, filter_In, <-list_elem_of_In, siblings_elem. naive_solver. }
  case_match; rewrite !remove_buckets_lookup.
  - rewrite decide_False; [done|]. intros [Hc _]. by apply Hf in Hc.
  - rewrite !decide_False; [done|..]; intros [Hc _]; [by apply Hf in Hc|].
    assert (∃ i, sort_buckets (bucketAge E now) (List.filter (λ p, negb (toolResultRetentionSecs <? bucketAge E now p))
        (siblings current f)) !! i = Some current) as [i Hi].
    { apply list_elem_of_lookup in Hc as [i Hi]. rewrite lookup_drop in Hi. eauto. }
    apply list_elem_of_lookup_2 in Hi. rewrite sort_buckets_perm in Hi. by apply Hf in Hi.
Qed.

(** An oversized result is not lost: when the workspace can be written and no
    earlier result has the name, the file under the call's name in the session's
    bucket holds the whole output, byte for byte, and what the model receives is
    the reference to this file; with a file there already, that file is kept. *)
Theorem oversized_result_saved E now workspace sessionKey callID content maxChars f :
  workspace ≠ "" → 0 < maxChars < Z.of_nat (slen content) →
  let bucket := bucketOf sessionKey in let file := SafeFilename callID +:+ ".txt" in
  mkdirOK E now bucket = true → writeOK E now bucket file = true → statFails E now bucket file = false →
  let '(t, f') := MaybePersistToolResult E now workspace sessionKey callID content maxChars f in
  (∃ preview rest, content = preview +:+ rest ∧
     t = RenderToolResultReference (resolve E workspace bucket file) (Z.of_nat (slen content)) preview
           (Nat.ltb (slen preview) (slen content)) maxChars) ∧
  ∃ saved, f' !! bucket = Some saved ∧
    saved !! file = Some (default content (default ∅ (f !! bucket) !! file)) ∧
    ∀ other, other ≠ file → saved !! other = default ∅ (f !! bucket) !! other.
Proof.
  intros Hw Hmax bucket file Hmk Hwr Hst. unfold MaybePersistToolResult.
  rewrite (proj2 (String.eqb_neq workspace "") Hw), (proj2 (Z.leb_gt maxChars 0)), (proj2 (Z.leb_gt _ _)) by lia.
  cbn [orb]. cbv zeta. fold bucket file. rewrite Hmk. cbn [negb].
  set (dir := default ∅ (f !! bucket)). set (f1 := cleanupToolResultBuckets E now bucket _).
  assert (f1 !! bucket = Some dir) as Hf1 by (unfold f1; by rewrite cleanup_current, lookup_insert_eq).
  unfold save_result. rewrite Hst, Hf1. cbn [from_option id].
  assert (∃ preview rest, content = preview +:+ rest ∧
      (if Nat.ltb toolResultPreviewChars (slen content) then stake toolResultPreviewChars content else content) = preview ∧
      Nat.ltb toolResultPreviewChars (slen content) = Nat.ltb (slen preview) (slen content)) as (pv & rest & Hc & Hpv & Htr).
  { destruct (Nat.ltb_spec toolResultPreviewChars (slen content)) as [Hl|Hl].
    - exists (stake toolResultPreviewChars content), (sdrop toolResultPreviewChars content).
      rewrite stake_sdrop, slen_stake. split_and!; [done..|]. symmetry. apply Nat.ltb_lt. lia.
    - exists content, "". rewrite sapp_nil_r. split_and!; [done..|]. symmetry. by rewrite Nat.ltb_irrefl. }
  rewrite Hpv, Htr. destruct (dir !! file) as [old|] eqn:Ho.
  - split; [eauto|]. exists dir. by rewrite Hf1, Ho.
  - rewrite Hwr. split; [eauto|]. exists (<[file:=content]> dir). rewrite !lookup_insert_eq. split_and!; [done..|].
    intros other Hne. by rewrite lookup_insert_ne.
Qed.

(** ** Instances *)

(** A file system where everything succeeds and every bucket is [age] seconds old. *)
Definition demo_fs (age : Z) : FsEnv :=
  {| mkdirOK _ _ := true; readDirOK _ := true; removeOK _ _ := true; statFails _ _ _ := false; writeOK _ _ _ := true;
     bucketAge _ _ := age; resolve w b n := w +:+ "/" +:+ b +:+ "/" +:+ n |}.

Lemma buckets_bounded_witness :
  let f := <[bucketOf "cli:a" := {["1.txt" := "x"]}]> {[bucketOf "cli:b" := ∅]} in
  cleanupToolResultBuckets (demo_fs 604801) 0 (bucketOf "cli:a") f !! bucketOf "cli:b" = None ∧
  (length (List.filter in_root (elements (dom (cleanupToolResultBuckets (demo_fs 604801) 0 (bucketOf "cli:a") f))))
     ≤ toolResultMaxBuckets)%nat.
Proof.
  split; [vm_compute; reflexivity|].
  apply (buckets_bounded (demo_fs 604801) 0 (bucketOf "cli:a")); [reflexivity|reflexivity|reflexivity|vm_compute; eauto].
Defined.

Lemma tool_result_bounded_witness :
  (NormalizeToolResult (demo_fs 0) 0 "" "cli:a" "1" "exec" (TextContent "0123456789abc") 10 ∅).1
    = TextContent ("0123456789" +:+ TruncatedSuffix) ∧
  Forall (bounded 10) (texts (NormalizeToolResult (demo_fs 0) 0 "" "cli:a" "1" "exec" (TextContent "0123456789abc") 10 ∅).1).
Proof.
  split; [vm_compute; reflexivity|]. apply tool_result_bounded; [lia|]. unfold toolResultOffloadExempt. set_solver.
Defined.

Lemma oversized_result_saved_witness :
  ∃ saved, (MaybePersistToolResult (demo_fs 0) 0 "/w" "cli:a" "1" "0123456789abc" 10 ∅).2 !! bucketOf "cli:a" = Some saved ∧
    saved !! "1.txt" = Some "0123456789abc".
Proof.
  pose proof (oversized_result_saved (demo_fs 0) 0 "/w" "cli:a" "1" "0123456789abc" 10 ∅
    ltac:(discriminate) ltac:(cbn; lia) eq_refl eq_refl eq_refl) as H.
  destruct (MaybePersistToolResult _ _ _ _ _ _ _ _) as [t f]. destruct H as (_ & saved & H1 & H2 & _).
  exists saved. split; [exact H1|exact H2].
Defined.

(** The name of the file is the call's id, and a file that is there is not
    written again: when a provider uses an id a second time in a session (or two
    ids differ only in characters a file name cannot hold), the reference to the
    second output, with its size and preview, leads to the first output. *)
Theorem reused_id_stale_reference :
  let first := "first output, longer than the limit" in
  let second := "second output, longer than the limit" in
  let f1 := (MaybePersistToolResult (demo_fs 0) 0 "/w" "cli:a" "call/1" first 10 ∅).2 in
  let '(t2, f2) := MaybePersistToolResult (demo_fs 0) 1 "/w" "cli:a" "call:1" second 10 f1 in
  t2 = "[truncated: /w/.nanobot/tool-results/cli_a/call_1.txt]" ∧
  (f2 !! bucketOf "cli:a" ≫= lookup "call_1.txt") = Some first ∧
  ∀ b d n, f2 !! b = Some d → d !! n ≠ Some second.
Proof.
  cbv zeta. set (r := MaybePersistToolResult _ 1 _ _ _ _ _ _).
  assert (r = ("[truncated: /w/.nanobot/tool-results/cli_a/call_1.txt]",
               {[bucketOf "cli:a" := {["call_1.txt" := "first output, longer than the limit"]}]})) as ->.
  { vm_compute. reflexivity. }
  split_and!; [done|vm_compute; reflexivity|]. intros b d n [<- <-]%lookup_singleton_Some.
  intros [_ [=]]%lookup_singleton_Some.
Qed.
