(* ===== verification/RunSpec.v ===== *)
(** * One agent run: its configuration and its world (src/internal/agent/runner.go)

    The configuration and the result of a run, the pure parts of the runner, and
    the world a run acts on.  The world is a state monad [M]: a clock, a log of
    what the run showed to its provider and its hook, and the files of the
    workspace.  What comes back from outside (the provider, the hook, the caller's
    cancellation, the scheduler, the file system) is the record [RunEnv]; each
    answer may depend on the moment it is asked for, so it is any behaviour. *)

From S2P Require Import Prelude GoText GoLib PyFloat Regex GoFmt Core Governance BitVec Indel FileDiff.
From S2P Require Import Response Think Provider Tools ToolOutput.
From Stdlib Require Import Ascii.
#[local] Open Scope string_scope.
#[local] Open Scope list_scope.
#[local] Open Scope Z_scope.

Definition DefaultError : string := "Sorry, I encountered an error calling the AI model.".
Definition ArrearageError : string :=
  "The AI provider rejected the request because the API key is out of quota or the " +:+
  "account is in arrears. Please top up / check the billing status of your API key and try again.".
Definition maxEmptyRetries : Z := 2.
Definition PersistedModelErrorPlaceholder : string := "[Assistant reply unavailable due to model error.]".
Definition EmptyFinalResponseMessage : string :=
  "I completed the tool steps but couldn't produce a final answer. " +:+ "Please try again or narrow the task.".
Definition DefaultMaxToolIterations : Z := 200.
Definition DefaultMaxToolResultChars : Z := 16000.

Abbreviation StopReason := string (only parsing).
Definition StopCompleted : StopReason := "completed".
Definition StopMaxIterations : StopReason := "max_iterations".
Definition StopError : StopReason := "error".
Definition StopCanceled : StopReason := "cancelled".
Definition StopEmptyFinalResponse : StopReason := "empty_final_response".

(** [rs_RetryDelays] is [None] for a nil slice.  The provider and the hook are in
    [RunEnv]; the route of a request (channel, chat, metadata) is only handed to the
    tools, whose behaviour is a function of the moment, and metrics are left out. *)
Record RunSpec := mkRunSpec {
  rs_Messages : list Message; rs_Tools : option Registry; rs_Model : string; rs_RetryDelays : option (list float64);
  rs_Workspace : string; rs_ContextWindowTokens : Z; rs_MaxIterations : Z; rs_MaxToolResultChars : Z;
  rs_MaxTokens : Z; rs_Temperature : float64; rs_ReasoningEffort : string; rs_ConcurrentTools : bool;
  rs_MaxParallelTools : Z; rs_SessionKey : string; rs_ErrorMessage : string; rs_MaxIterationsMessage : string;
  rs_FinalizeOnMaxIterations : option bool }.

Definition withDefaults (s : RunSpec) : RunSpec :=
  mkRunSpec (rs_Messages s) (rs_Tools s) (rs_Model s) (rs_RetryDelays s) (rs_Workspace s) (rs_ContextWindowTokens s)
    (if rs_MaxIterations s <=? 0 then DefaultMaxToolIterations else rs_MaxIterations s)
    (if rs_MaxToolResultChars s <=? 0 then DefaultMaxToolResultChars else rs_MaxToolResultChars s)
    (if rs_MaxTokens s <=? 0 then 8192 else rs_MaxTokens s)
    (rs_Temperature s) (rs_ReasoningEffort s) (rs_ConcurrentTools s) (rs_MaxParallelTools s) (rs_SessionKey s)
    (if String.eqb (rs_ErrorMessage s) "" then DefaultError else rs_ErrorMessage s)
    (rs_MaxIterationsMessage s) (rs_FinalizeOnMaxIterations s).

(** [noTools := spec; noTools.Tools = nil] *)
Definition without_tools (s : RunSpec) : RunSpec :=
  mkRunSpec (rs_Messages s) None (rs_Model s) (rs_RetryDelays s) (rs_Workspace s) (rs_ContextWindowTokens s)
    (rs_MaxIterations s) (rs_MaxToolResultChars s) (rs_MaxTokens s) (rs_Temperature s) (rs_ReasoningEffort s)
    (rs_ConcurrentTools s) (rs_MaxParallelTools s) (rs_SessionKey s) (rs_ErrorMessage s) (rs_MaxIterationsMessage s)
    (rs_FinalizeOnMaxIterations s).

Record RunResult := mkRunResult {
  rr_FinalContent : string; rr_Messages : list Message; rr_ToolsUsed : list string; rr_Usage : option Usage;
  rr_StopReason : StopReason; rr_Error : string }.

(** ** Errors *)

(** A Go error as the runner inspects it: its text, the [HTTPError] in its chain
    ([errors.As]), whether a passed deadline is in it ([errors.Is]), and the name
    and the text of its dynamic type with the pointers removed. *)
Record GoError := mkError {
  ge_Error : string; ge_HTTP : option HTTPError; ge_Deadline : bool; ge_TypeName : string; ge_TypeString : string }.

Definition goErrorTypeName (e : GoError) : string :=
  if negb (String.eqb (ge_TypeName e) "") then ge_TypeName e
  else if negb (String.eqb (ge_TypeString e) "") then ge_TypeString e else "unknown error".

Definition sourceName (s : Source) : string := match s with tiktoken => "tiktoken" | heuristic => "heuristic" end.

Definition ContextWindowExceededError_Error (e : ContextWindowExceededError) : string :=
  let key := if String.eqb (e_SessionKey e) "" then "default" else e_SessionKey e in
  "model input still exceeds the local context budget after request fitting for " +:+ key +:+ ": " +:+
  Itoa (e_EstimatedTokens e) +:+ "/" +:+ Itoa (e_InputBudget e) +:+ " via " +:+ sourceName (e_Source e).

Definition windowError (e : ContextWindowExceededError) : GoError :=
  mkError (ContextWindowExceededError_Error e) None false "ContextWindowExceededError" "agent.ContextWindowExceededError".

Section Errors.
Context `{CaseTable}.

(** A response built from an error, with what the classification found. *)
Definition errorResponse (content : string) (status : option Z) (kind : string) (after : option float64)
    (should : option bool) : Response :=
  mkResponse content false [] FinishError None "" [] after status kind "" "" after should.

Definition errorResponseFromException (err : GoError) : Response :=
  let detail := PyStrip (ge_Error err) in
  let detail := if String.eqb detail "" then goErrorTypeName err else detail in
  let content := "Error calling LLM: " +:+ detail in
  match ge_HTTP err with
  | Some h =>
      let code := he_StatusCode h in
      let kind := if code =? 429 then "rate_limit" else if 500 <=? code then "server_error"
                  else if (code =? 401) || (code =? 403) then "authentication" else "" in
      let after := if flt (Fin false 0) (he_RetryAfter h) then Some (he_RetryAfter h) else None in
      errorResponse content (Some code) kind after (Some (Retryable h))
  | None =>
      if ge_Deadline err then errorResponse content None "timeout" None (Some true)
      else if IsTransientErrorText detail then errorResponse content None "connection" None (Some true)
      else errorResponse content None "" None None
  end.

Definition isArrearage (r : Response) : bool :=
  String.eqb (r_ErrorType r) "insufficient_quota"
  || containsAny (ToLower (r_Content r +:+ " " +:+ r_ErrorCode r +:+ " " +:+ r_ErrorType r))
       ["insufficient_quota"; "out of quota"; "arrears"; "billing"].
End Errors.

(** ** Texts *)

Definition MaxLengthRecoveries : nat := 3.
Definition LengthRecoveryTailChars : nat := 64.

Definition LengthRecoveryPrompt : string :=
  "The previous assistant response was cut off. " +:+
  "Continue the same response from its exact endpoint. Output only new " +:+
  "continuation text in the same language and style. Do not acknowledge this " +:+
  "instruction, restart the response, repeat its title or any existing text, " +:+
  "recap, or apologize.".

Definition IsBlankText (content : string) : bool := String.eqb (PyStrip content) "".

Definition EmptyRetryEligible (finishReason : FinishReason) (clean : string) : bool :=
  if bool_decide (finishReason = FinishError) || bool_decide (finishReason = FinishLength)
     || bool_decide (finishReason = FinishRefusal) || bool_decide (finishReason = FinishContentFilter)
  then false else IsBlankText clean.

Definition RestoreOuterWhitespace (content original : string) : string :=
  if String.eqb original "" then content else
  let leadingSize := (slen original - slen (PyLStrip original))%nat in
  let trailingSize := (slen original - slen (PyRStrip original))%nat in
  stake leadingSize original +:+ content +:+ (if Nat.ltb 0 trailingSize then sdrop (slen original - trailingSize) original else "").

Definition BuildLengthRecoveryMessage (content : string) : Message :=
  let tail :=
    if Nat.ltb LengthRecoveryTailChars (slen content) then
      let rs := runes content in
      if Nat.ltb LengthRecoveryTailChars (length rs) then of_runes (drop (length rs - LengthRecoveryTailChars) rs) else content
    else content in
  NewMessage RoleUser
    (LengthRecoveryPrompt +:+ newline +:+ newline +:+
     "The following tail was already delivered to the user. Treat it as immutable " +:+
     "context and do not output it again:" +:+ newline +:+
     "<already_delivered_tail>" +:+ newline +:+ tail +:+ newline +:+ "</already_delivered_tail>" +:+ newline +:+
     "Begin with the text that belongs immediately after this tail.").

Definition BudgetExhaustedFinalizationPrompt : string :=
  "The tool-call budget for this turn is exhausted. " +:+
  "Based only on the conversation and tool results above, provide a concise final " +:+
  "response to the user. Do not call or request tools. Do not claim the task is " +:+
  "complete unless the evidence above clearly shows it is complete. State what was " +:+
  "done, what remains, and the best next step if anything is incomplete.".

Definition shouldFinalizeOnMaxIterations (spec : RunSpec) : bool := default true (rs_FinalizeOnMaxIterations spec).

Definition maxIterationsMessage (spec : RunSpec) : string :=
  if negb (String.eqb (rs_MaxIterationsMessage spec) "")
  then ReplaceAll (rs_MaxIterationsMessage spec) "{max_iterations}" (Itoa (rs_MaxIterations spec))
  else "I reached the maximum number of tool call iterations (" +:+ Itoa (rs_MaxIterations spec) +:+
       ") without completing the task. You can try breaking the task into smaller steps.".

(** ** Turns of the transcript *)

Definition thinkingOf (r : Response) : option (list RawJSON) :=
  match r_ThinkingBlocks r with [] => None | bs => Some (map tb_Raw bs) end.

Definition assistantMessage (resp : Response) (clean : string) (toolCalls : option (list ToolCall)) : Message :=
  mkMessage RoleAssistant (TextContent clean) "" toolCalls "" "" (r_ReasoningContent resp) (thinkingOf resp) [] ∅.

Definition validCalls (calls : list ToolCall) : list ToolCall := List.filter HasValidName calls.

(** The last message when it is an assistant turn without tool calls. *)
Definition closed (messages : list Message) : option Message :=
  m ← last messages; if isRole RoleAssistant m && Nat.eqb (length (calls m)) 0 then Some m else None.

Definition AppendFinalMessage (messages : list Message) (content : string) : list Message :=
  if String.eqb content "" then messages else
  match closed messages with
  | Some m =>
      if IsText (m_Content m) && String.eqb (c_Text (m_Content m)) content then messages
      else take (length messages - 1) messages ++ [NewMessage RoleAssistant content]
  | None => messages ++ [NewMessage RoleAssistant content]
  end.

Definition AppendModelErrorPlaceholder (messages : list Message) : list Message :=
  match closed messages with
  | Some _ => messages
  | None => messages ++ [NewMessage RoleAssistant PersistedModelErrorPlaceholder]
  end.

(** ** The world *)

(** What a run shows to the outside: calls of the hook and of the provider, and
    pauses. *)
Inductive Event :=
  | EvIteration (iteration : Z)
  | EvText (delta : string)
  | EvReasoning (delta : string)
  | EvReasoningEnd
  | EvToolStart (call : ToolCall)
  | EvToolEnd (call : ToolCall) (result : ToolResult)
  | EvRequest (request : ChatRequest)
  | EvSleep (seconds : float64).

Record World := mkWorld { w_time : nat; w_log : list Event; w_fs : gmap string (gmap string string) }.

Definition M (A : Type) : Type := World → A * World.
#[export] Instance M_ret : MRet M := λ A a w, (a, w).
#[export] Instance M_bind : MBind M := λ A B k m w, let '(a, w) := m w in k a w.

Definition emit (e : Event) : M unit := λ w, ((), mkWorld (w_time w) (w_log w ++ [e]) (w_fs w)).
(** An answer from outside; the clock moves. *)
Definition ask {A} (f : nat → A) : M A := λ w, (f (w_time w), mkWorld (S (w_time w)) (w_log w) (w_fs w)).
Definition with_fs {A} (f : nat → gmap string (gmap string string) → A * gmap string (gmap string string)) : M A :=
  λ w, let '(a, fs) := f (w_time w) (w_fs w) in (a, mkWorld (S (w_time w)) (w_log w) fs).

(** A stream: the events that were received, then its end or the caller's
    cancellation. *)
Record StreamRun := mkStream { sr_events : list StreamEvent; sr_cancel : option GoError }.

Record RunEnv := mkEnv {
  ctxErr : nat → option string;                               (* ctx.Err() *)
  beforeIteration : nat → Z → list Message → option string;   (* hook.BeforeIteration *)
  streaming : bool;                                           (* the provider is a StreamingProvider *)
  chat : nat → ChatRequest → GoError + Response;
  chatStream : nat → ChatRequest → GoError + StreamRun;
  sleepInterrupted : nat → float64 → bool;                    (* SleepWithContext *)
  schedule : nat → list nat;                                  (* which goroutine moves next *)
  pickCancel : nat → bool;                                    (* the choice of a select *)
  run_fs : FsEnv }.

(** ** Logs *)

(** [m] only adds events that satisfy [P], and what it adds and returns is related
    by [Q]. *)
Definition adds {A} (Q : list Event → A → Prop) (m : M A) : Prop :=
  ∀ w, let '(a, w') := m w in ∃ l, w_log w' = w_log w ++ l ∧ Q l a.

Section Adds.
Context {A B : Type}.

Lemma adds_ret (Q : list Event → A → Prop) a : Q [] a → adds Q (mret a).
Proof. intros HQ w. exists []. by rewrite app_nil_r. Qed.

Lemma adds_bind (Q : list Event → A → Prop) (R : list Event → B → Prop) m k :
  adds Q m → (∀ l a, Q l a → adds (λ l', R (l ++ l')) (k a)) → adds R (m ≫= k).
Proof.
  intros Hm Hk w. unfold mbind, M_bind. specialize (Hm w). destruct (m w) as [a w1]. destruct Hm as (l & Hl & HQ).
  specialize (Hk l a HQ w1). destruct (k a w1) as [b w2]. destruct Hk as (l' & Hl' & HR).
  exists (l ++ l'). by rewrite Hl', Hl, <-app_assoc.
Qed.

Lemma adds_impl (Q R : list Event → A → Prop) m : adds Q m → (∀ l a, Q l a → R l a) → adds R m.
Proof. intros Hm HI w. specialize (Hm w). destruct (m w). destruct Hm as (l & ? & ?). eauto. Qed.
End Adds.

Lemma adds_emit e : adds (λ l _, l = [e]) (emit e).
Proof. intros w. by exists [e]. Qed.

Lemma adds_ask {A} (f : nat → A) : adds (λ l _, l = []) (ask f).
Proof. intros w. exists []. by rewrite app_nil_r. Qed.

Lemma adds_with_fs {A} f : adds (λ l (_ : A), l = []) (with_fs f).
Proof. intros w. unfold with_fs. destruct (f _ _) as [a fs]. exists []. by rewrite app_nil_r. Qed.
