(* ===== verification/ToolBatch.v ===== *)
(** * Running the tools of a turn (src/internal/agent/runner.go)

    [executeTools] partitions the calls into batches and runs the calls of a batch
    one after the other or in goroutines that share a semaphore.  A goroutine is a
    state machine ([goroutine]); the scheduler ([schedule] of the environment)
    decides which one moves next, and [wg.Wait] is that all of them finish.  The
    function [goStep] is shown to follow the step relation [gostep], on which the
    proofs are by rule induction. *)

From S2P Require Import Prelude GoText GoLib PyFloat Regex GoFmt Core Governance BitVec Indel FileDiff.
From S2P Require Import Response Think Provider Tools ToolOutput RunSpec.
From Stdlib Require Import Ascii.
#[local] Open Scope string_scope.
#[local] Open Scope list_scope.
#[local] Open Scope Z_scope.

(** ** Batches *)

Definition safe_call (r : Registry) (c : ToolCall) : bool :=
  match Get r (tc_Name c) with Some t => IsConcurrencySafe t && negb (IsExclusive t) | None => false end.

Definition flush (current : list nat) (batches : list (list nat)) : list (list nat) :=
  match current with [] => batches | _ => batches ++ [current] end.

Fixpoint partition_loop (r : Registry) (i : nat) (calls : list ToolCall) (current : list nat) (batches : list (list nat))
    : list (list nat) :=
  match calls with
  | [] => flush current batches
  | c :: calls =>
      if safe_call r c then partition_loop r (S i) calls (current ++ [i]) batches
      else partition_loop r (S i) calls [] (flush current batches ++ [[i]])
  end.

Definition partitionBatches (r : Registry) (calls : list ToolCall) : list (list nat) := partition_loop r 0 calls [] [].

(** ** Goroutines *)

Inductive goroutine :=
  | GWait                       (* before the semaphore *)
  | GReady
  | GStarted                    (* after hook.OnToolStart *)
  | GRan (result : ToolResult)  (* after Tools.Execute *)
  | GDone (result : ToolResult).

(** [p_free] counts the free places of the semaphore; [None] without one. *)
Record Pool := mkPool { p_free : option Z; p_gos : list goroutine }.

Definition set_go (pos : nat) (g : goroutine) (p : Pool) : Pool := mkPool (p_free p) (<[pos := g]> (p_gos p)).
Definition add_free (n : Z) (p : Pool) : Pool := mkPool (Z.add n <$> p_free p) (p_gos p).

Definition zeroResult : ToolResult := mkToolResult "" "" false None.
Definition result_of (g : goroutine) : ToolResult := match g with GDone r => r | _ => zeroResult end.

Section Execute.
Context `{PrintTable} (E : RunEnv).

Definition canceledResult (c : ToolCall) (err : string) : ToolResult :=
  errorResult c ("Error: tool " +:+ Quote (tc_Name c) +:+ " canceled: " +:+ err).

Definition runTool (r : Registry) (c : ToolCall) : M ToolResult :=
  ask (λ now, Execute r now (ctxErr E now) c).

Definition runOne (r : Registry) (c : ToolCall) : M ToolResult :=
  emit (EvToolStart c);; res ← runTool r c; emit (EvToolEnd c res);; mret res.

(** The next step of the goroutine at a position of the batch. *)
Definition goStep (r : Registry) (cs : list ToolCall) (pos : nat) (p : Pool) : M Pool :=
  match cs !! pos, p_gos p !! pos with
  | Some c, Some GWait =>
      match p_free p with
      | None => mret (set_go pos GReady p)
      | Some free =>
          sel ← ask (λ now, (ctxErr E now, pickCancel E now));
          match sel with
          | (Some err, pick) =>
              if (free <=? 0) || pick then mret (set_go pos (GDone (canceledResult c err)) p)
              else mret (add_free (-1) (set_go pos GReady p))
          | (None, _) => if free <=? 0 then mret p else mret (add_free (-1) (set_go pos GReady p))
          end
      end
  | Some c, Some GReady => emit (EvToolStart c);; mret (set_go pos GStarted p)
  | Some c, Some GStarted => res ← runTool r c; mret (set_go pos (GRan res) p)
  | Some c, Some (GRan res) => emit (EvToolEnd c res);; mret (add_free 1 (set_go pos (GDone res) p))
  | _, _ => mret p
  end.

Fixpoint goSteps (r : Registry) (cs : list ToolCall) (order : list nat) (p : Pool) : M Pool :=
  match order with [] => mret p | pos :: order => p ← goStep r cs pos p; goSteps r cs order p end.

(** [wg.Wait]: whoever is left is run to its end; a goroutine that finds the
    semaphore full in the first round finds a place in the second. *)
Definition finish_round (n : nat) : list nat := flat_map (λ pos, [pos; pos; pos; pos]) (seq 0 n).
Definition wait_order (n : nat) : list nat := finish_round n ++ finish_round n.

Definition runParallel (r : Registry) (maxParallel : Z) (cs : list ToolCall) : M (list ToolResult) :=
  let p := mkPool (if 0 <? maxParallel then Some maxParallel else None) (replicate (length cs) GWait) in
  order ← ask (schedule E);
  p ← goSteps r cs order p;
  p ← goSteps r cs (wait_order (length cs)) p;
  mret (map result_of (p_gos p)).

Fixpoint runSequential (r : Registry) (cs : list ToolCall) : M (list ToolResult) :=
  match cs with
  | [] => mret []
  | c :: cs => res ← runOne r c; rest ← runSequential r cs; mret (res :: rest)
  end.

Definition runBatch (spec : RunSpec) (r : Registry) (cs : list ToolCall) : M (list ToolResult) :=
  if Nat.eqb (length cs) 1 || negb (rs_ConcurrentTools spec) then runSequential r cs
  else runParallel r (rs_MaxParallelTools spec) cs.

(** [out[i] = ...] for the indices of a batch. *)
Fixpoint store (batch : list nat) (results : list ToolResult) (out : list ToolResult) : list ToolResult :=
  match batch, results with
  | i :: batch, res :: results => store batch results (<[i := res]> out)
  | _, _ => out
  end.

Definition select_calls (calls : list ToolCall) (batch : list nat) : list ToolCall := omap (λ i, calls !! i) batch.

Fixpoint runBatches (spec : RunSpec) (r : Registry) (calls : list ToolCall) (batches : list (list nat))
    (out : list ToolResult) : M (list ToolResult) :=
  match batches with
  | [] => mret out
  | batch :: batches =>
      results ← runBatch spec r (select_calls calls batch);
      runBatches spec r calls batches (store batch results out)
  end.

Definition executeTools (spec : RunSpec) (calls : list ToolCall) : M (list ToolResult) :=
  match rs_Tools spec with
  | None =>
      mret (map (λ c, errorResult c ("Error: unknown tool " +:+ Quote (tc_Name c) +:+ " (no tools registered).")) calls)
  | Some r => runBatches spec r calls (partitionBatches r calls) (replicate (length calls) zeroResult)
  end.
End Execute.

(** ** Batches cover the calls *)

Lemma flush_concat cur bs : concat (flush cur bs) = concat bs ++ cur.
Proof. unfold flush. destruct cur; [by rewrite app_nil_r|]. by rewrite concat_app, concat_cons, concat_nil, app_nil_r. Qed.

Lemma partition_loop_concat r calls i cur bs :
  concat (partition_loop r i calls cur bs) = concat bs ++ cur ++ seq i (length calls).
Proof.
  revert i cur bs. induction calls as [|c calls IH]; intros i cur bs; cbn [partition_loop length seq].
  - by rewrite flush_concat, app_nil_r.
  - destruct (safe_call r c); rewrite IH; [by rewrite <-!app_assoc|].
    by rewrite concat_app, flush_concat, concat_cons, concat_nil, <-!app_assoc.
Qed.

(** A batch holds one call, or only calls that may run beside others. *)
Definition batch_ok (r : Registry) (cs : list ToolCall) : Prop :=
  length cs = 1%nat ∨ (cs ≠ [] ∧ Forall (λ c, safe_call r c = true) cs).

Lemma select_calls_app calls b1 b2 : select_calls calls (b1 ++ b2) = select_calls calls b1 ++ select_calls calls b2.
Proof. apply omap_app. Qed.

Lemma flush_ok r all cur bs :
  Forall (λ b, batch_ok r (select_calls all b)) bs → Forall (λ c, safe_call r c = true) (select_calls all cur) →
  (cur ≠ [] → select_calls all cur ≠ []) → Forall (λ b, batch_ok r (select_calls all b)) (flush cur bs).
Proof.
  intros Hb Hc Hn. unfold flush. destruct cur as [|x cur]; [done|]. apply Forall_app. split; [done|].
  constructor; [right; auto|constructor].
Qed.

Lemma partition_loop_ok r all pre calls cur bs :
  all = pre ++ calls → Forall (λ b, batch_ok r (select_calls all b)) bs →
  Forall (λ c, safe_call r c = true) (select_calls all cur) → (cur ≠ [] → select_calls all cur ≠ []) →
  Forall (λ b, batch_ok r (select_calls all b)) (partition_loop r (length pre) calls cur bs).
Proof.
  revert pre cur bs. induction calls as [|c calls IH]; intros pre cur bs -> Hb Hc Hn; cbn [partition_loop].
  - by apply flush_ok.
  - assert ((pre ++ c :: calls) !! length pre = Some c) as Hl by (by rewrite lookup_app_r, Nat.sub_diag by lia).
    assert (select_calls (pre ++ c :: calls) [length pre] = [c]) as H1 by (cbn; by rewrite Hl).
    assert (S (length pre) = length (pre ++ [c])) as Hlen by (rewrite length_app; cbn; lia).
    destruct (safe_call r c) eqn:Hs; rewrite Hlen; apply IH; try (by rewrite <-app_assoc); [done|..].
    + rewrite select_calls_app, H1. apply Forall_app. split; [done|by repeat constructor].
    + intros _. rewrite select_calls_app, H1. by destruct (select_calls _ cur).
    + apply Forall_app. split; [by apply flush_ok|]. constructor; [left; by rewrite H1|constructor].
    + constructor.
    + done.
Qed.

Lemma partitionBatches_spec r calls :
  concat (partitionBatches r calls) = seq 0 (length calls) ∧
  Forall (λ b, batch_ok r (select_calls calls b)) (partitionBatches r calls).
Proof.
  split; [apply partition_loop_concat|]. apply (partition_loop_ok r calls [] calls); try done; constructor.
Qed.

(** ** The step relation *)

Section Gostep.
Context (cs : list ToolCall).

Inductive gostep (pos : nat) (p : Pool) : list Event → Pool → Prop :=
  | gs_go c : cs !! pos = Some c → p_gos p !! pos = Some GWait → p_free p = None → gostep pos p [] (set_go pos GReady p)
  | gs_acquire c f : cs !! pos = Some c → p_gos p !! pos = Some GWait → p_free p = Some f → 0 < f →
      gostep pos p [] (add_free (-1) (set_go pos GReady p))
  | gs_cancel c f res : cs !! pos = Some c → p_gos p !! pos = Some GWait → p_free p = Some f → tr_CallID res = tc_ID c →
      gostep pos p [] (set_go pos (GDone res) p)
  | gs_block f : p_gos p !! pos = Some GWait → p_free p = Some f → f ≤ 0 → gostep pos p [] p
  | gs_begin c : cs !! pos = Some c → p_gos p !! pos = Some GReady → gostep pos p [EvToolStart c] (set_go pos GStarted p)
  | gs_run c res : cs !! pos = Some c → p_gos p !! pos = Some GStarted → tr_CallID res = tc_ID c →
      gostep pos p [] (set_go pos (GRan res) p)
  | gs_end c res : cs !! pos = Some c → p_gos p !! pos = Some (GRan res) →
      gostep pos p [EvToolEnd c res] (add_free 1 (set_go pos (GDone res) p))
  | gs_idle : (∀ c g, cs !! pos = Some c → p_gos p !! pos = Some g → ∃ res, g = GDone res) → gostep pos p [] p.

(** The positions that move, and what they show. *)
Inductive gosteps : list nat → Pool → list Event → Pool → Prop :=
  | gosteps_nil p : gosteps [] p [] p
  | gosteps_cons pos order p l p' l' p'' :
      gostep pos p l p' → gosteps order p' l' p'' → gosteps (pos :: order) p (l ++ l') p''.

Lemma gosteps_app o1 o2 p l1 p1 l2 p2 : gosteps o1 p l1 p1 → gosteps o2 p1 l2 p2 → gosteps (o1 ++ o2) p (l1 ++ l2) p2.
Proof. induction 1; intros H2; [done|]. rewrite <-app_assoc. cbn. econstructor; eauto. Qed.

Lemma gosteps_app_inv o1 o2 p l p2 :
  gosteps (o1 ++ o2) p l p2 → ∃ l1 l2 p1, l = l1 ++ l2 ∧ gosteps o1 p l1 p1 ∧ gosteps o2 p1 l2 p2.
Proof.
  revert p l. induction o1 as [|pos o1 IH]; intros p l Hs; [by exists [], l, p; repeat constructor|].
  inversion Hs as [|? ? ? la pa lb ? Hst Hr]; subst. apply IH in Hr as (l1 & l2 & p1 & -> & ? & ?).
  exists (la ++ l1), l2, p1. split_and!; [by rewrite app_assoc|by econstructor|done].
Qed.
End Gostep.

Section Refines.
Context `{PrintTable} (E : RunEnv) (r : Registry) (cs : list ToolCall).

Lemma adds_runTool c : adds (λ l res, l = [] ∧ tr_CallID res = tc_ID c) (runTool E r c).
Proof. intros w. exists []. cbn. rewrite app_nil_r, Execute_id. done. Qed.

(** The function follows the relation, whatever the environment answers. *)
Lemma goStep_gostep pos p : adds (λ l p', gostep cs pos p l p') (goStep E r cs pos p).
Proof.
  unfold goStep. destruct (cs !! pos) as [c|] eqn:Hc; [|apply adds_ret, gs_idle; intros; congruence].
  destruct (p_gos p !! pos) as [[| | |res|res]|] eqn:Hg; [..|apply adds_ret, gs_idle; intros; congruence].
  - destruct (p_free p) as [f|] eqn:Hf; [|by apply adds_ret, (gs_go _ _ _ c)].
    eapply adds_bind; [apply adds_ask|]. intros l [[err|] pick] ->; cbn [app].
    + destruct (Z.leb_spec f 0); cbn [orb]; [|destruct pick]; apply adds_ret.
      * by apply (gs_cancel _ _ _ c f).
      * by apply (gs_cancel _ _ _ c f).
      * by apply (gs_acquire _ _ _ c f).
    + destruct (Z.leb_spec f 0); apply adds_ret; [by apply (gs_block _ _ _ f)|by apply (gs_acquire _ _ _ c f)].
  - eapply adds_bind; [apply adds_emit|]. intros l [] ->. apply adds_ret. by apply gs_begin.
  - eapply adds_bind; [apply adds_runTool|]. intros l res [-> Hid]. apply adds_ret. by apply (gs_run _ _ _ c).
  - eapply adds_bind; [apply adds_emit|]. intros l [] ->. apply adds_ret. by apply gs_end.
  - apply adds_ret, gs_idle. intros c' g _ Hg'. exists res. congruence.
Qed.

Lemma goSteps_gosteps order p : adds (λ l p', gosteps cs order p l p') (goSteps E r cs order p).
Proof.
  revert p. induction order as [|pos order IH]; intros p; cbn [goSteps]; [apply adds_ret; constructor|].
  eapply adds_bind; [apply goStep_gostep|]. intros l p1 H1.
  eapply adds_impl; [apply IH|]. intros l' p2 H2. by econstructor.
Qed.
End Refines.

(** ** The invariant of a batch *)

Definition holding (g : goroutine) : bool := match g with GReady | GStarted | GRan _ => true | _ => false end.
Definition active (g : goroutine) : bool := match g with GStarted | GRan _ => true | _ => false end.
Definition count (f : goroutine → bool) (p : Pool) : Z := Z.of_nat (length (List.filter f (p_gos p))).

(** How many tools run after the events [l]. *)
Fixpoint running (l : list Event) : Z :=
  match l with
  | [] => 0
  | EvToolStart _ :: l => 1 + running l
  | EvToolEnd _ _ :: l => running l - 1
  | _ :: l => running l
  end.

Definition within (cap : option Z) (n : Z) : Prop := match cap with Some m => n ≤ m | None => True end.

(** An event of one of the calls [cs]. *)
Definition tool_event (cs : list ToolCall) (e : Event) : Prop :=
  ∃ c, c ∈ cs ∧ (e = EvToolStart c ∨ ∃ res, e = EvToolEnd c res ∧ tr_CallID res = tc_ID c).

Lemma running_app l l' : running (l ++ l') = running l + running l'.
Proof. induction l as [|e l IH]; [done|]. destruct e; cbn; lia. Qed.

Lemma count_set f pos g g' p :
  p_gos p !! pos = Some g → count f (set_go pos g' p) = count f p - (if f g then 1 else 0) + (if f g' then 1 else 0).
Proof. intros Hg. unfold count. cbn. pose proof (count_insert f (p_gos p) pos g g' Hg). destruct (f g), (f g'); lia. Qed.

Lemma count_active_holding p : count active p ≤ count holding p.
Proof. unfold count. induction (p_gos p) as [|[] l IH]; cbn; lia. Qed.

Section Invariant.
Context (cs : list ToolCall) (cap : option Z).

Record pool_ok (p : Pool) (l : list Event) : Prop := {
  po_len : length (p_gos p) = length cs;
  po_running : running l = count active p;
  po_free : match p_free p with None => cap = None | Some f => 0 ≤ f ∧ cap = Some (f + count holding p) end;
  po_events : Forall (tool_event cs) l;
  po_bound : ∀ l', l' `prefix_of` l → within cap (running l');
  po_results : ∀ pos c res, cs !! pos = Some c →
    p_gos p !! pos = Some (GRan res) ∨ p_gos p !! pos = Some (GDone res) → tr_CallID res = tc_ID c }.

(** A step that puts a goroutine into a state with its result. *)
Lemma results_set pos p g l :
  pool_ok p l → (∀ c res, cs !! pos = Some c → g = GRan res ∨ g = GDone res → tr_CallID res = tc_ID c) →
  ∀ pos' c res, cs !! pos' = Some c →
    p_gos (set_go pos g p) !! pos' = Some (GRan res) ∨ p_gos (set_go pos g p) !! pos' = Some (GDone res) →
    tr_CallID res = tc_ID c.
Proof.
  intros Hok Hg pos' c res Hc. cbn. destruct (decide (pos = pos')) as [<-|Hne].
  - destruct (decide (pos < length (p_gos p))%nat).
    + rewrite list_lookup_insert_eq by done. intros Hr. apply (Hg c); [done|]. naive_solver.
    + rewrite list_insert_ge by lia. by apply (po_results _ _ Hok).
  - rewrite list_lookup_insert_ne by done. by apply (po_results _ _ Hok).
Qed.

(** A step that shows nothing. *)
Lemma pool_ok_silent pos p g g' f' l :
  pool_ok p l → p_gos p !! pos = Some g →
  count active (set_go pos g' p) = count active p →
  match f' with None => cap = None | Some f => 0 ≤ f ∧ cap = Some (f + count holding (set_go pos g' p)) end →
  (∀ c res, cs !! pos = Some c → g' = GRan res ∨ g' = GDone res → tr_CallID res = tc_ID c) →
  pool_ok (mkPool f' (<[pos := g']> (p_gos p))) (l ++ []).
Proof.
  intros Hok Hg Ha Hf Hr. rewrite app_nil_r. pose proof Hok as [H1 H2 H3 H4 H5 H6]. split; cbn [p_free p_gos]; auto.
  - by rewrite length_insert.
  - by rewrite H2, <-Ha.
  - eapply results_set; [exact Hok|done].
Qed.

Lemma pool_ok_shown pos p g g' f' l e :
  pool_ok p l → p_gos p !! pos = Some g → tool_event cs e →
  running [e] = count active (set_go pos g' p) - count active p →
  match f' with None => cap = None | Some f => 0 ≤ f ∧ cap = Some (f + count holding (set_go pos g' p)) end →
  (∀ c res, cs !! pos = Some c → g' = GRan res ∨ g' = GDone res → tr_CallID res = tc_ID c) →
  pool_ok (mkPool f' (<[pos := g']> (p_gos p))) (l ++ [e]).
Proof.
  intros Hok Hg He Ha Hf Hr. pose proof Hok as [H1 H2 H3 H4 H5 H6].
  assert (running (l ++ [e]) = count active (set_go pos g' p)) as Hrun by (rewrite running_app; lia).
  split; cbn [p_free p_gos]; auto.
  - by rewrite length_insert.
  - apply Forall_app. by repeat constructor.
  - intros l' [k Hk]. destruct (decide (k = [])) as [->|Hne].
    + rewrite app_nil_r in Hk. subst l'. rewrite Hrun. pose proof (count_active_holding (set_go pos g' p)).
      unfold within. clear - Hf H. destruct cap; [|done]. destruct f' as [f|]; [|done]. destruct Hf as [? [= ->]]. lia.
    + apply H5. destruct (exists_last Hne) as (k' & x & ->). rewrite app_assoc in Hk.
      apply app_inj_tail in Hk as [-> _]. by exists k'.
  - eapply results_set; [exact Hok|done].
Qed.

Lemma pool_ok_step pos p l l' p' : pool_ok p l → gostep cs pos p l' p' → pool_ok p' (l ++ l').
Proof.
  intros Hok Hs. pose proof (po_free _ _ Hok) as Hf. pose proof (po_results _ _ Hok) as Hres.
  destruct Hs as [c Hc Hg Hfr|c f Hc Hg Hfr Hpos|c f res Hc Hg Hfr Hid|f Hg Hfr Hle|c Hc Hg|c res Hc Hg Hid|c res Hc Hg|Hd];
    try (rewrite app_nil_r; exact Hok).
  - rewrite Hfr in Hf. eapply pool_ok_silent; [done|exact Hg|rewrite (count_set _ _ _ _ _ Hg); cbn; lia|by rewrite Hfr|naive_solver].
  - rewrite Hfr in Hf. eapply pool_ok_silent; [done|exact Hg|rewrite (count_set _ _ _ _ _ Hg); cbn; lia| |naive_solver].
    cbn. rewrite Hfr. cbn. destruct Hf as [? ->]. rewrite (count_set _ _ _ _ _ Hg). cbn. split; [lia|f_equal; lia].
  - rewrite Hfr in Hf. eapply pool_ok_silent; [done|exact Hg|rewrite (count_set _ _ _ _ _ Hg); cbn; lia| |naive_solver].
    rewrite Hfr. destruct Hf as [? ->]. rewrite (count_set _ _ _ _ _ Hg). cbn. split; [lia|f_equal; lia].
  - eapply pool_ok_shown; [done|exact Hg| |rewrite (count_set _ _ _ _ _ Hg); cbn; lia| |naive_solver].
    + exists c. split; [by eapply list_elem_of_lookup_2|by left].
    + destruct (p_free p); [|done]. destruct Hf as [? ->]. rewrite (count_set _ _ _ _ _ Hg). cbn. split; [lia|f_equal; lia].
  - eapply pool_ok_silent; [done|exact Hg|rewrite (count_set _ _ _ _ _ Hg); cbn; lia| |naive_solver].
    destruct (p_free p); [|done]. destruct Hf as [? ->]. rewrite (count_set _ _ _ _ _ Hg). cbn. split; [lia|f_equal; lia].
  - eapply pool_ok_shown; [done|exact Hg| |rewrite (count_set _ _ _ _ _ Hg); cbn; lia| |].
    + exists c. split; [by eapply list_elem_of_lookup_2|right]. exists res. split; [done|]. eapply Hres; eauto.
    + cbn. destruct (p_free p); [|done]. cbn. destruct Hf as [? ->]. rewrite (count_set _ _ _ _ _ Hg). cbn. split; [lia|f_equal; lia].
    + intros c' res' Hc' [[=]|[= <-]]. eapply Hres; eauto.
Qed.

Lemma pool_ok_steps order p l l' p' : pool_ok p l → gosteps cs order p l' p' → pool_ok p' (l ++ l').
Proof.
  intros Hok Hs. revert l Hok. induction Hs as [p|pos order p l1 p1 l2 p2 H1 _ IH]; intros l Hok; [by rewrite app_nil_r|].
  rewrite app_assoc. eauto using pool_ok_step.
Qed.
End Invariant.

(** ** Every goroutine finishes *)

Definition rank (g : goroutine) : nat :=
  match g with GWait => 0 | GReady => 1 | GStarted => 2 | GRan _ => 3 | GDone _ => 4 end.

(** The goroutine at [pos] stands before a full semaphore. *)
Definition blocked (pos : nat) (p : Pool) : Prop :=
  p_gos p !! pos = Some GWait ∧ ∃ f, p_free p = Some f ∧ f ≤ 0.

Section Finish.
Context (cs : list ToolCall).

Lemma gostep_progress pos p l p' g :
  length (p_gos p) = length cs → gostep cs pos p l p' → p_gos p !! pos = Some g → ¬ blocked pos p →
  ∃ g', p_gos p' = <[pos := g']> (p_gos p) ∧ (4 `min` S (rank g) ≤ rank g')%nat.
Proof.
  intros Hlen Hs Hg Hb.
  destruct Hs as [c ? Hg' ?|c f ? Hg' ? ?|c f res ? Hg' ? ?|f Hg' ? ?|c ? Hg'|c res ? Hg' ?|c res ? Hg'|Hd];
    try (rewrite Hg in Hg'; injection Hg' as ->); try (eexists; split; [reflexivity|cbn; lia]).
  - exfalso. apply Hb. split; eauto.
  - destruct (cs !! pos) as [c|] eqn:Hc.
    + destruct (Hd c g eq_refl Hg) as [res ->]. exists (GDone res). by rewrite list_insert_id.
    + apply lookup_ge_None in Hc. apply lookup_lt_Some in Hg. lia.
Qed.

Lemma gostep_blocked pos p l p' :
  gostep cs pos p l p' → blocked pos p → p' = p ∨ ∃ res, p_gos p' = <[pos := GDone res]> (p_gos p).
Proof.
  intros Hs [Hg (f & Hf & Hle)].
  destruct Hs as [c ? Hg' ?|c f' ? Hg' ? ?|c f' res ? Hg' ? ?|f' Hg' ? ?|c ? Hg'|c res ? Hg' ?|c res ? Hg'|Hd]; simplify_eq; eauto.
  lia.
Qed.

Lemma done_repeat n pos p l p' res :
  gosteps cs (replicate n pos) p l p' → p_gos p !! pos = Some (GDone res) → p' = p.
Proof.
  revert l. induction n as [|n IH]; intros l Hs Hg; cbn [replicate] in Hs; inversion Hs as [|? ? ? l1 p1 l2 ? H1 H2]; subst; [done|].
  assert (p1 = p) as -> by (destruct H1; congruence). eauto.
Qed.

Lemma blocked_repeat n pos p l p' :
  gosteps cs (replicate n pos) p l p' → blocked pos p → p' = p ∨ ∃ res, p_gos p' = <[pos := GDone res]> (p_gos p).
Proof.
  revert l. induction n as [|n IH]; intros l Hs Hb; cbn [replicate] in Hs; inversion Hs as [|? ? ? l1 p1 l2 ? H1 H2]; subst; [by left|].
  destruct (gostep_blocked _ _ _ _ H1 Hb) as [->|[res Hp1]]; [eauto|]. right. exists res.
  rewrite (done_repeat n pos p1 l2 p' res H2), Hp1; [done|]. destruct Hb as [Hg%lookup_lt_Some _].
  by rewrite Hp1, list_lookup_insert_eq.
Qed.

Lemma progress_repeat n pos p l p' g :
  length (p_gos p) = length cs → gosteps cs (replicate n pos) p l p' → p_gos p !! pos = Some g → ¬ blocked pos p →
  ∃ g', p_gos p' = <[pos := g']> (p_gos p) ∧ (4 `min` (rank g + n) ≤ rank g')%nat.
Proof.
  revert p l g. induction n as [|n IH]; intros p l g Hlen Hs Hg Hb; cbn [replicate] in Hs;
    inversion Hs as [|? ? ? l1 p1 l2 ? H1 H2]; subst.
  { exists g. rewrite list_insert_id by done. split; [done|lia]. }
  destruct (gostep_progress _ _ _ _ _ Hlen H1 Hg Hb) as (g1 & Hp1 & Hr1).
  assert (p_gos p1 !! pos = Some g1) as Hg1 by (rewrite Hp1, list_lookup_insert_eq; [done|by eapply lookup_lt_Some]).
  destruct (IH p1 l2 g1) as (g' & Hp' & Hr'); [by rewrite Hp1, length_insert|done..| |].
  - intros [Hw _]. rewrite Hg1 in Hw. injection Hw as ->. cbn in Hr1. lia.
  - exists g'. rewrite Hp', Hp1, list_insert_insert_eq. split; [done|lia].
Qed.

Definition done_at (pos : nat) (p : Pool) : Prop := ∃ res, p_gos p !! pos = Some (GDone res).
Definition parked_at (pos : nat) (p : Pool) : Prop := p_gos p !! pos = Some GWait ∨ done_at pos p.

(** Four moves take a goroutine to its end unless the semaphore is full. *)
Lemma quad pos p l p' :
  length (p_gos p) = length cs → (pos < length cs)%nat → gosteps cs [pos; pos; pos; pos] p l p' →
  (∀ j, j ≠ pos → p_gos p' !! j = p_gos p !! j) ∧ parked_at pos p' ∧ (¬ blocked pos p → done_at pos p').
Proof.
  intros Hlen Hpos Hs. change [pos; pos; pos; pos] with (replicate 4 pos) in Hs.
  destruct (lookup_lt_is_Some_2 (p_gos p) pos) as [g Hg]; [lia|].
  assert (∀ res, p_gos p' = <[pos := GDone res]> (p_gos p) →
    (∀ j, j ≠ pos → p_gos p' !! j = p_gos p !! j) ∧ done_at pos p') as Hset.
  { intros res Hp'. split; [intros j Hj; by rewrite Hp', list_lookup_insert_ne|].
    exists res. by rewrite Hp', list_lookup_insert_eq by lia. }
  assert (blocked pos p ∨ ¬ blocked pos p) as [Hb|Hb].
  { unfold blocked. destruct (p_gos p !! pos) as [[]|]; try (right; intros [? ?]; congruence).
    destruct (p_free p) as [f|]; [|right; intros [_ (? & ? & _)]; congruence].
    destruct (decide (f ≤ 0)); [left; eauto|right; intros [_ (? & [= <-] & ?)]; lia]. }
  - destruct (blocked_repeat 4 pos p l p' Hs Hb) as [->|[res Hp']].
    + split_and!; [done|left; apply Hb|done].
    + destruct (Hset res Hp'). unfold parked_at. auto.
  - destruct (progress_repeat 4 pos p l p' g Hlen Hs Hg Hb) as (g' & Hp' & Hr).
    destruct g' as [| | |res|res]; cbn [rank] in Hr; try lia. destruct (Hset res Hp'). unfold parked_at. auto.
Qed.

Context (cap : option Z) (Hcap : match cap with Some n => 0 < n | None => True end).

(** When everyone is parked, the semaphore has a free place. *)
Lemma parked_free pos p l : pool_ok cs cap p l → (∀ j, (j < length cs)%nat → parked_at j p) → ¬ blocked pos p.
Proof.
  intros Hok Hp [_ (f & Hf & Hle)]. pose proof (po_free _ _ _ _ Hok) as H. rewrite Hf in H. destruct H as [H ->].
  assert (count holding p = 0) as Hz; [|cbn in Hcap; lia].
  unfold count. rewrite filter_none; [done|]. intros g [j Hj]%list_elem_of_In%list_elem_of_lookup.
  assert (j < length cs)%nat as Hlt by (rewrite <-(po_len _ _ _ _ Hok); by eapply lookup_lt_Some).
  destruct (Hp j Hlt) as [Hw|[res Hd]]; simplify_eq; done.
Qed.

Lemma round_parks k n p l0 l p' :
  pool_ok cs cap p l0 → (k + n = length cs)%nat → gosteps cs (flat_map (λ pos, [pos; pos; pos; pos]) (seq k n)) p l p' →
  (∀ j, (j < k)%nat → parked_at j p) → ∀ j, (j < length cs)%nat → parked_at j p'.
Proof.
  revert k p l0 l. induction n as [|n IH]; intros k p l0 l Hok Hk Hs Hp.
  { inversion Hs; subst. replace (length cs) with k by lia. done. }
  cbn [seq flat_map] in Hs. apply gosteps_app_inv in Hs as (l1 & l2 & p1 & -> & Hq & Hs).
  destruct (quad k p l1 p1 (po_len _ _ _ _ Hok) ltac:(lia) Hq) as (Ho & Hpk & _).
  apply (IH (S k) p1 (l0 ++ l1) l2); [by eapply pool_ok_steps|lia|done|].
  intros j Hj. destruct (decide (j = k)) as [->|]; [done|]. unfold parked_at, done_at. rewrite Ho by done. apply Hp. lia.
Qed.

Lemma round_finishes k n p l0 l p' :
  pool_ok cs cap p l0 → (k + n = length cs)%nat → gosteps cs (flat_map (λ pos, [pos; pos; pos; pos]) (seq k n)) p l p' →
  (∀ j, (j < length cs)%nat → parked_at j p) → (∀ j, (j < k)%nat → done_at j p) → ∀ j, (j < length cs)%nat → done_at j p'.
Proof.
  revert k p l0 l. induction n as [|n IH]; intros k p l0 l Hok Hk Hs Hp Hd.
  { inversion Hs; subst. replace (length cs) with k by lia. done. }
  cbn [seq flat_map] in Hs. apply gosteps_app_inv in Hs as (l1 & l2 & p1 & -> & Hq & Hs).
  destruct (quad k p l1 p1 (po_len _ _ _ _ Hok) ltac:(lia) Hq) as (Ho & Hpk & Hdk).
  specialize (Hdk (parked_free k p l0 Hok Hp)).
  apply (IH (S k) p1 (l0 ++ l1) l2); [by eapply pool_ok_steps|lia|done|..]; intros j Hj; destruct (decide (j = k)) as [->|]; try done.
  - unfold parked_at, done_at. rewrite Ho by done. by apply Hp.
  - unfold done_at. rewrite Ho by done. apply Hd. lia.
Qed.

(** [wg.Wait] returns: after any schedule every goroutine comes to its end. *)
Lemma wait_finishes p l0 l p' :
  pool_ok cs cap p l0 → gosteps cs (wait_order (length cs)) p l p' → ∀ j, (j < length cs)%nat → done_at j p'.
Proof.
  intros Hok Hs. apply gosteps_app_inv in Hs as (l1 & l2 & p1 & -> & H1 & H2).
  eapply (round_finishes 0 (length cs) p1 (l0 ++ l1)); [by eapply pool_ok_steps|done|exact H2| |lia].
  eapply (round_parks 0 (length cs) p l0); [done|done|exact H1|lia].
Qed.
End Finish.

(** ** Results in the order of the calls *)

Definition answers (cs : list ToolCall) (results : list ToolResult) : Prop :=
  Forall2 (λ c tr, tr_CallID tr = tc_ID c) cs results.

Definition tool_cap (maxParallel : Z) : option Z := if 0 <? maxParallel then Some maxParallel else None.

(** What the hook sees of a batch: its calls one after the other, or calls that are
    safe beside each other, never more at once than the semaphore allows. *)
Inductive batch_log (spec : RunSpec) (r : Registry) (cs : list ToolCall) : list Event → Prop :=
  | bl_sequential results :
      length cs = 1%nat ∨ rs_ConcurrentTools spec = false → answers cs results →
      batch_log spec r cs (concat (zip_with (λ c res, [EvToolStart c; EvToolEnd c res]) cs results))
  | bl_parallel l :
      rs_ConcurrentTools spec = true → Forall (λ c, safe_call r c = true) cs → Forall (tool_event cs) l → running l = 0 →
      (∀ l', l' `prefix_of` l → within (tool_cap (rs_MaxParallelTools spec)) (running l')) →
      batch_log spec r cs l.

Lemma seq_split k m b c :
  b ++ c = seq k m → (length b ≤ m)%nat ∧ b = seq k (length b) ∧ c = seq (k + length b) (m - length b).
Proof.
  intros H. assert (m = length b + length c)%nat as -> by (rewrite <-(length_seq m k), <-H, length_app; done).
  rewrite seq_app in H. apply app_inj_1 in H as [Hb Hc]; [|by rewrite length_seq].
  replace (length b + length c - length b)%nat with (length c) by lia. split_and!; [lia|done..].
Qed.

Lemma select_seq calls k n : (k + n ≤ length calls)%nat → select_calls calls (seq k n) = take n (drop k calls).
Proof.
  revert k. induction n as [|n IH]; intros k Hk; [done|]. cbn [seq].
  destruct (lookup_lt_is_Some_2 calls k) as [c Hc]; [lia|]. rewrite (drop_S _ _ _ Hc). cbn. rewrite Hc. cbn.
  f_equal. apply IH. lia.
Qed.

Lemma store_seq k results out :
  (k + length results ≤ length out)%nat →
  store (seq k (length results)) results out = take k out ++ results ++ drop (k + length results) out.
Proof.
  revert k out. induction results as [|res results IH]; intros k out Hk; cbn [length seq store app] in *.
  - by rewrite Nat.add_0_r, take_drop.
  - rewrite IH by (rewrite length_insert; lia). rewrite (take_S_r _ _ res) by (rewrite list_lookup_insert_eq; [done|lia]).
    rewrite take_insert_ge, drop_insert_lt, <-app_assoc by lia. cbn. by rewrite Nat.add_succ_r.
Qed.

Section Answers.
Context `{PrintTable} (E : RunEnv) (spec : RunSpec) (r : Registry).

Lemma runSequential_spec cs :
  adds (λ l results, answers cs results ∧ l = concat (zip_with (λ c res, [EvToolStart c; EvToolEnd c res]) cs results))
    (runSequential E r cs).
Proof.
  induction cs as [|c cs IH]; cbn [runSequential]; [apply adds_ret; repeat constructor|].
  eapply (adds_bind (λ l res, l = [EvToolStart c; EvToolEnd c res] ∧ tr_CallID res = tc_ID c)).
  - unfold runOne. eapply adds_bind; [apply adds_emit|]. intros l [] ->.
    eapply adds_bind; [apply adds_runTool|]. intros l res [-> Hid].
    eapply adds_bind; [apply adds_emit|]. intros l [] ->. by apply adds_ret.
  - intros l res [-> Hid]. eapply adds_bind; [exact IH|]. intros l results [Ha ->]. apply adds_ret.
    split; [by constructor|]. cbn. by rewrite app_nil_r.
Qed.

Lemma runParallel_spec cs :
  adds (λ l results, answers cs results ∧ Forall (tool_event cs) l ∧ running l = 0 ∧
          ∀ l', l' `prefix_of` l → within (tool_cap (rs_MaxParallelTools spec)) (running l'))
    (runParallel E r (rs_MaxParallelTools spec) cs).
Proof.
  unfold runParallel. fold (tool_cap (rs_MaxParallelTools spec)). set (cap := tool_cap _).
  assert (match cap with Some n => 0 < n | None => True end) as Hcap.
  { unfold cap, tool_cap. by destruct (Z.ltb_spec 0 (rs_MaxParallelTools spec)). }
  set (p0 := mkPool cap (replicate (length cs) GWait)).
  assert (∀ f, f GWait = false → count f p0 = 0) as Hcount.
  { intros f Hf. unfold count. rewrite filter_none; [done|]. intros g [-> _]%list_elem_of_In%elem_of_replicate. done. }
  assert (pool_ok cs cap p0 []) as Hok.
  { split; cbn; [by rewrite length_replicate|by rewrite Hcount| |constructor| |].
    - destruct cap; [|done]. rewrite Hcount by done. split; [lia|f_equal; lia].
    - intros l' ->%prefix_nil_inv. unfold within. destruct cap; cbn; [lia|done].
    - intros pos c res _ [Hp|Hp]; apply lookup_replicate in Hp as [[=] _]. }
  eapply adds_bind; [apply adds_ask|]. intros l0 order ->.
  eapply adds_bind; [apply goSteps_gosteps|]. intros l1 p1 H1.
  eapply adds_bind; [apply goSteps_gosteps|]. intros l2 p2 H2.
  apply adds_ret. cbn [app]. rewrite app_nil_r.
  assert (pool_ok cs cap p1 l1) as Hok1 by (by eapply (pool_ok_steps _ _ _ _ [])).
  pose proof (pool_ok_steps _ _ _ _ _ _ _ Hok1 H2) as Hok2.
  pose proof (wait_finishes cs cap Hcap p1 l1 l2 p2 Hok1 H2) as Hdone. split_and!.
  - apply Forall2_same_length_lookup. rewrite length_map, (po_len _ _ _ _ Hok2). split; [done|].
    intros i c tr Hc Htr. rewrite list_lookup_fmap in Htr. destruct (Hdone i) as [res Hres]; [by eapply lookup_lt_Some|].
    rewrite Hres in Htr. injection Htr as <-. by eapply (po_results _ _ _ _ Hok2); [|right].
  - apply Hok2.
  - rewrite (po_running _ _ _ _ Hok2). unfold count. rewrite filter_none; [done|].
    intros g [j Hj]%list_elem_of_In%list_elem_of_lookup. destruct (Hdone j) as [res Hres]; [|by simplify_eq].
    rewrite <-(po_len _ _ _ _ Hok2). by eapply lookup_lt_Some.
  - apply Hok2.
Qed.

Lemma runBatch_spec cs :
  batch_ok r cs → adds (λ l results, answers cs results ∧ batch_log spec r cs l) (runBatch E spec r cs).
Proof.
  intros Hb. unfold runBatch. destruct (Nat.eqb_spec (length cs) 1) as [H1|H1]; cbn [orb].
  - eapply adds_impl; [apply runSequential_spec|]. intros l results [Ha ->]. split; [done|]. by constructor; [left|].
  - destruct (rs_ConcurrentTools spec) eqn:Hc; cbn [negb].
    + eapply adds_impl; [apply runParallel_spec|]. intros l results (Ha & He & Hr & Hp). split; [done|].
      destruct Hb as [?|[_ Hs]]; [done|]. by apply bl_parallel.
    + eapply adds_impl; [apply runSequential_spec|]. intros l results [Ha ->]. split; [done|]. by constructor; [right|].
Qed.

Lemma runBatches_spec calls batches k m out :
  concat batches = seq k m → (k + m = length calls)%nat → length out = length calls →
  Forall (λ b, batch_ok r (select_calls calls b)) batches → answers (take k calls) (take k out) →
  adds (λ l out', answers calls out' ∧
          ∃ segs, l = concat segs ∧ Forall2 (batch_log spec r) (map (select_calls calls) batches) segs)
    (runBatches E spec r calls batches out).
Proof.
  revert k m out. induction batches as [|b batches IH]; intros k m out Hc Hk Hlen Hb Ha; cbn [runBatches].
  - apply adds_ret. assert (m = 0%nat) as -> by (apply (f_equal length) in Hc; by rewrite length_seq in Hc).
    rewrite Nat.add_0_r in Hk. subst k. rewrite firstn_all, take_ge in Ha by lia. split; [done|]. exists []. by split; [|constructor].
  - inversion Hb as [|? ? Hb1 Hb2]; subst. rewrite concat_cons in Hc. apply seq_split in Hc as (Hbm & Hbs & Hc).
    eapply adds_bind; [by apply runBatch_spec|]. intros l results [Hr Hlog].
    assert (length results = length b) as Hlr.
    { apply Forall2_length in Hr. rewrite <-Hr, Hbs, select_seq, length_take, length_drop, length_seq by lia. lia. }
    assert (store b results out = take k out ++ results ++ drop (k + length b) out) as Hst
      by (rewrite Hbs at 1; rewrite <-Hlr; apply store_seq; lia).
    assert (select_calls calls b = take (length b) (drop k calls)) as Hsel by (rewrite Hbs at 1; apply select_seq; lia).
    eapply adds_impl; [apply (IH (k + length b)%nat (m - length b)%nat (store b results out)); [done|lia| |done|]|].
    + rewrite Hst, !length_app, length_take, length_drop. lia.
    + rewrite Hst, <-take_take_drop, app_assoc, take_app_length' by (rewrite length_app, length_take; lia).
      rewrite Hsel in Hr. by apply Forall2_app.
    + intros l' out' (Ha' & segs & -> & Hs). split; [done|]. exists (l :: segs). split; [done|]. by constructor.
Qed.

Lemma concat_select calls batches : concat (map (select_calls calls) batches) = select_calls calls (concat batches).
Proof. induction batches as [|b batches IH]; [done|]. cbn [map concat]. by rewrite select_calls_app, <-IH. Qed.
End Answers.

Section Theorems.
Context `{PrintTable} (E : RunEnv) (spec : RunSpec).

(** The results answer the calls in their order, and no tools without a registry. *)
Lemma executeTools_spec calls :
  adds (λ l out, answers calls out ∧
          match rs_Tools spec with
          | None => l = []
          | Some r => ∃ batches segs, concat batches = calls ∧ Forall (batch_ok r) batches ∧ l = concat segs ∧
                        Forall2 (batch_log spec r) batches segs
          end) (executeTools E spec calls).
Proof.
  unfold executeTools. destruct (rs_Tools spec) as [r|].
  - destruct (partitionBatches_spec r calls) as [Hc Hok].
    eapply adds_impl; [apply (runBatches_spec E spec r calls _ 0 (length calls)); [done|done|by rewrite length_replicate|done|constructor]|].
    intros l out (Ha & segs & -> & Hs). split; [done|]. exists (map (select_calls calls) (partitionBatches r calls)), segs.
    split_and!; [|by apply Forall_map|done..]. rewrite concat_select, Hc, select_seq by lia. by rewrite drop_0, firstn_all.
  - apply adds_ret. split; [|done]. induction calls; constructor; auto.
Qed.

(** C3. Tool execution under every schedule and every cancellation: it ends with
    one result per call, in the order of the calls and under their ids.  What the
    hook sees is a sequence of batches that together are the calls in their order:
    a call that is not declared safe runs alone from start to end; calls run beside
    each other only if all of them are safe and the run allows it, and then never
    more at once than [MaxParallelTools]. *)
Theorem tools_isolated_in_order calls w :
  let '(out, w') := executeTools E spec calls w in
  answers calls out ∧
  ∃ l, w_log w' = w_log w ++ l ∧
    match rs_Tools spec with
    | None => l = []
    | Some r => ∃ batches segs, concat batches = calls ∧ Forall (batch_ok r) batches ∧ l = concat segs ∧
                  Forall2 (batch_log spec r) batches segs
    end.
Proof.
  pose proof (executeTools_spec calls w) as Hs. destruct (executeTools E spec calls w) as [out w'].
  destruct Hs as (l & Hl & Ha & Hb). eauto.
Qed.
End Theorems.
