(* ===== verification/Runner.v ===== *)
(** * The agent runner (src/internal/agent/runner.go)

    One run of the agent: the loop that sends the governed transcript to the
    provider, tries transient failures again, runs the tools the model asks for,
    continues answers that were cut off and decides how the turn ends.  The loop
    counter is bounded by [MaxIterations] and the retry loop by the schedule, so
    both are structural: [rounds] is the number of rounds that remain. *)

From S2P Require Import Prelude GoText GoLib PyFloat Regex GoFmt Core Governance BitVec Indel FileDiff.
From S2P Require Import Response Think Provider Tools ToolOutput RunSpec ToolBatch.
From Stdlib Require Import Ascii.
#[local] Open Scope string_scope.
#[local] Open Scope list_scope.
#[local] Open Scope Z_scope.

(** ** Streams *)

Record streamPartial := mkPartial { sp_id : string; sp_name : string; sp_args : string }.

(** The variables of [consumeStream]; [ss_streamed] is what [streamedReasoning]
    points to. *)
Record StreamState := mkSS {
  ss_text : string; ss_reasoning : string; ss_partials : gmap Z streamPartial; ss_order : list Z;
  ss_final : option Response; ss_open : bool; ss_streamed : bool }.

Definition closeNativeReasoning (s : StreamState) : M StreamState :=
  if ss_open s then
    emit EvReasoningEnd;;
    mret (mkSS (ss_text s) (ss_reasoning s) (ss_partials s) (ss_order s) (ss_final s) false (ss_streamed s))
  else mret s.

Definition nonblank_or (new old : string) : string := if String.eqb new "" then old else new.

Definition consumeEvent (ev : StreamEvent) (s : StreamState) : M StreamState :=
  match ev with
  | StreamText t =>
      let s := mkSS (ss_text s +:+ t) (ss_reasoning s) (ss_partials s) (ss_order s) (ss_final s) (ss_open s) (ss_streamed s) in
      s ← (if String.eqb t "" then mret s else closeNativeReasoning s);
      emit (EvText t);; mret s
  | StreamReasoning t =>
      emit (EvReasoning t);;
      mret (mkSS (ss_text s) (ss_reasoning s +:+ t) (ss_partials s) (ss_order s) (ss_final s)
              (ss_open s || negb (String.eqb t "")) (ss_streamed s || negb (String.eqb t "")))
  | StreamToolCall index id name delta =>
      let '(p, order) :=
        match ss_partials s !! index with
        | Some p => (p, ss_order s)
        | None => (mkPartial "" "" "", ss_order s ++ [index])
        end in
      let p := mkPartial (nonblank_or id (sp_id p)) (nonblank_or name (sp_name p)) (sp_args p +:+ delta) in
      mret (mkSS (ss_text s) (ss_reasoning s) (<[index := p]> (ss_partials s)) order (ss_final s) (ss_open s) (ss_streamed s))
  | StreamUsage _ => mret s
  | StreamDone r =>
      mret (mkSS (ss_text s) (ss_reasoning s) (ss_partials s) (ss_order s)
              (match r with Some _ => r | None => ss_final s end) (ss_open s) (ss_streamed s))
  end.

Fixpoint consumeEvents (evs : list StreamEvent) (s : StreamState) : M StreamState :=
  match evs with [] => mret s | ev :: evs => s ← consumeEvent ev s; consumeEvents evs s end.

Definition partialCall (p : streamPartial) : ToolCall :=
  let args := PyStrip (sp_args p) in
  {| tc_ID := sp_id p; tc_Name := sp_name p; tc_Arguments := if String.eqb args "" then "{}" else args;
     tc_ExtraContent := None; tc_ProviderSpecificFields := None; tc_FunctionProviderSpecific := None |}.

Definition finishStream (s : StreamState) : Response :=
  match ss_final s with
  | Some r => r
  | None =>
      let tcs := omap (λ idx, partialCall <$> ss_partials s !! idx) (ss_order s) in
      mkResponse (ss_text s) (negb (String.eqb (ss_text s) "")) tcs
        (match tcs with [] => FinishStop | _ => FinishToolCalls end) None (ss_reasoning s) [] None None "" "" "" None None
  end.

(** The response or the error, and whether reasoning has been streamed. *)
Definition consumeStream (st : StreamRun) (streamedReasoning : bool) : M ((GoError + Response) * bool) :=
  s ← consumeEvents (sr_events st) (mkSS "" "" ∅ [] None false streamedReasoning);
  s ← closeNativeReasoning s;
  mret (match sr_cancel st with Some err => inl err | None => inr (finishStream s) end, ss_streamed s).

(** ** The state of a run *)

(** The variables of [Run] and the fields of [result] that survive an iteration. *)
Record RunState := mkState {
  st_messages : list Message; st_usage : Usage; st_usageSeen : bool; st_toolsUsed : list string;
  st_emptyRetries : Z; st_lengthParts : list string; st_FinalContent : string; st_StopReason : StopReason }.

Definition with_messages (ms : list Message) (st : RunState) : RunState :=
  mkState ms (st_usage st) (st_usageSeen st) (st_toolsUsed st) (st_emptyRetries st) (st_lengthParts st)
    (st_FinalContent st) (st_StopReason st).
Definition with_emptyRetries (n : Z) (st : RunState) : RunState :=
  mkState (st_messages st) (st_usage st) (st_usageSeen st) (st_toolsUsed st) n (st_lengthParts st)
    (st_FinalContent st) (st_StopReason st).
Definition with_lengthParts (parts : list string) (st : RunState) : RunState :=
  mkState (st_messages st) (st_usage st) (st_usageSeen st) (st_toolsUsed st) (st_emptyRetries st) parts
    (st_FinalContent st) (st_StopReason st).
Definition with_outcome (content : string) (stop : StopReason) (st : RunState) : RunState :=
  mkState (st_messages st) (st_usage st) (st_usageSeen st) (st_toolsUsed st) (st_emptyRetries st) (st_lengthParts st)
    content stop.
Definition add_usage (u : option Usage) (st : RunState) : RunState :=
  match u with
  | None => st
  | Some _ => mkState (st_messages st) (Usage_Add (st_usage st) u) true (st_toolsUsed st) (st_emptyRetries st)
                (st_lengthParts st) (st_FinalContent st) (st_StopReason st)
  end.
Definition add_tools (tcs : list ToolCall) (st : RunState) : RunState :=
  mkState (st_messages st) (st_usage st) (st_usageSeen st)
    (foldl (λ used c, if bool_decide (tc_Name c ∈ used) then used else used ++ [tc_Name c]) (st_toolsUsed st) tcs)
    (st_emptyRetries st) (st_lengthParts st) (st_FinalContent st) (st_StopReason st).

(** A return from the middle of the loop: [result.Usage] has not been set. *)
Definition early (stop : StopReason) (final err : string) (messages : list Message) (st : RunState) : RunResult :=
  mkRunResult final messages (st_toolsUsed st) None stop err.

(** How an iteration ends. *)
Inductive Next := NReturn (r : RunResult) | NBreak (st : RunState) | NContinue (st : RunState).

Section Runner.
Context `{PrintTable} `{CaseTable} `{!Tokenizer ToolSchema} (E : RunEnv).

(** ** Requests *)

Definition toolSchemasOf (spec : RunSpec) : list ToolSchema :=
  match rs_Tools spec with Some r => if Nat.ltb 0 (Len r) then Schemas r else [] | None => [] end.

(** The model-facing copy: repaired, and fitted when the request is under
    pressure. *)
Definition governed (spec : RunSpec) (messages : list Message) : list Message + ContextWindowExceededError :=
  let messages := PrepareForModel messages in
  let tools := toolSchemasOf spec in
  let window := rs_ContextWindowTokens spec in
  if (0 <? window) && (RequestPressure messages tools window (Some (rs_MaxTokens spec))).2
  then FitToBudget messages tools window (Some (rs_MaxTokens spec)) (rs_SessionKey spec)
  else inl messages.

Definition requestModelOnce (spec : RunSpec) (messages : list Message) (streamedReasoning : bool)
    : M ((GoError + Response) * bool) :=
  match governed spec messages with
  | inr e => mret (inl (windowError e), streamedReasoning)
  | inl messages =>
      let req := mkRequest messages (toolSchemasOf spec) (rs_Model spec) (rs_MaxTokens spec) (rs_Temperature spec)
                   (rs_ReasoningEffort spec) in
      emit (EvRequest req);;
      if streaming E then
        stream ← ask (λ now, chatStream E now req);
        match stream with
        | inl err => mret (inl err, streamedReasoning)
        | inr st => consumeStream st streamedReasoning
        end
      else
        resp ← ask (λ now, chat E now req);
        mret (resp, streamedReasoning)
  end.

(** [rounds] is [len(delays) + 1 - attempt]. *)
Fixpoint requestModel_loop (rounds : nat) (attempt : Z) (spec : RunSpec) (delays : list float64) (messages : list Message)
    (streamedReasoning : bool) : M ((GoError + Response) * bool) :=
  answer ← requestModelOnce spec messages streamedReasoning;
  let '(resp, streamedReasoning) := answer in
  match resp with
  | inl err => mret (inl err, streamedReasoning)
  | inr r =>
      if negb (bool_decide (r_FinishReason r = FinishError)) then mret (inr r, streamedReasoning) else
      let '(transient, retryAfter) := ClassifyResponse (Some r) in
      if negb transient then mret (inr r, streamedReasoning) else
      match rounds with
      | O => mret (inr r, streamedReasoning)
      | S rounds =>
          let delay := RetryDelay attempt retryAfter delays in
          if flt (Fin false 0) delay then
            emit (EvSleep delay);;
            interrupted ← ask (λ now, sleepInterrupted E now delay);
            if (interrupted : bool) then mret (inr r, streamedReasoning)
            else requestModel_loop rounds (attempt + 1) spec delays messages streamedReasoning
          else requestModel_loop rounds (attempt + 1) spec delays messages streamedReasoning
      end
  end.

Definition delaysOf (spec : RunSpec) : list float64 := default ChatRetryDelays (rs_RetryDelays spec).

Definition requestModel (spec : RunSpec) (messages : list Message) (streamedReasoning : bool)
    : M ((GoError + Response) * bool) :=
  requestModel_loop (length (delaysOf spec)) 1 spec (delaysOf spec) messages streamedReasoning.

(** ** Turns *)

Definition toolMessage (spec : RunSpec) (tr : ToolResult) (toolName : string) : M Message :=
  content ← with_fs (λ now fs, NormalizeToolResult (run_fs E) now (rs_Workspace spec) (rs_SessionKey spec) (tr_CallID tr)
                                 toolName (TextContent (tr_Content tr)) (rs_MaxToolResultChars spec) fs);
  mret (mkMessage RoleTool content "" None (tr_CallID tr) toolName "" None [] ∅).

Fixpoint toolMessages (spec : RunSpec) (results : list ToolResult) (tcs : list ToolCall) : M (list Message) :=
  match results, tcs with
  | tr :: results, c :: tcs => m ← toolMessage spec tr (tc_Name c); ms ← toolMessages spec results tcs; mret (m :: ms)
  | _, _ => mret []
  end.

Definition finalizeAfterMaxIterations (spec : RunSpec) (messages : list Message) : M (option string) :=
  if negb (shouldFinalizeOnMaxIterations spec) then mret None else
  answer ← requestModelOnce (without_tools spec)
             (messages ++ [NewMessage RoleUser BudgetExhaustedFinalizationPrompt]) false;
  mret (match answer.1 with
        | inl _ => None
        | inr r =>
            if bool_decide (r_FinishReason r = FinishError) || HasToolCalls r then None else
            let clean := StripThink (r_Content r) in if IsBlankText clean then None else Some clean
        end).

(** ** The loop *)

(** The tool branch of an iteration. *)
Definition toolTurn (spec : RunSpec) (iteration : Z) (resp : Response) (clean : string) (tcs : list ToolCall)
    (st : RunState) : M Next :=
  let st := with_lengthParts [] (add_tools tcs st) in
  let messages := st_messages st ++ [assistantMessage resp clean (Some tcs)] in
  results ← executeTools E spec tcs;
  answers ← toolMessages spec results tcs;
  let messages := messages ++ answers in
  if iteration =? rs_MaxIterations spec - 1 then
    salvaged ← finalizeAfterMaxIterations spec messages;
    let terminal := default (maxIterationsMessage spec) salvaged in
    mret (NContinue (with_messages (AppendFinalMessage messages terminal) (with_outcome terminal StopMaxIterations st)))
  else mret (NContinue (with_messages messages st)).

(** The terminal branch. *)
Definition terminalTurn (resp : Response) (clean originalContent : string) (st : RunState) : Next :=
  if IsBlankText clean then
    NReturn (early StopEmptyFinalResponse EmptyFinalResponseMessage EmptyFinalResponseMessage
               (AppendFinalMessage (st_messages st) EmptyFinalResponseMessage) st)
  else
    let final :=
      match st_lengthParts st with
      | [] => clean
      | parts => PyStrip (Join parts "" +:+ RestoreOuterWhitespace clean originalContent)
      end in
    NBreak (with_outcome final StopCompleted (with_messages (st_messages st ++ [assistantMessage resp clean None]) st)).

(** What an iteration does with a response; [emptyRetries] is reset unless the
    response is one to try again. *)
Definition handleResponse (spec : RunSpec) (iteration : Z) (resp : Response) (clean originalContent : string)
    (st : RunState) : M Next :=
  if bool_decide (r_FinishReason resp = FinishError) then
    let msg := if isArrearage resp then ArrearageError else if String.eqb clean "" then rs_ErrorMessage spec else clean in
    mret (NReturn (early StopError msg msg (AppendModelErrorPlaceholder (st_messages st)) st))
  else
    let tcs := validCalls (r_ToolCalls resp) in
    let toolBranch := ShouldExecuteTools resp && negb (Nat.eqb (length tcs) 0) in
    let eligible := negb toolBranch && EmptyRetryEligible (r_FinishReason resp) clean in
    if eligible && (st_emptyRetries st <? maxEmptyRetries) then
      mret (NContinue (with_emptyRetries (st_emptyRetries st + 1) st))
    else
      let st := if eligible then st else with_emptyRetries 0 st in
      if bool_decide (r_FinishReason resp = FinishLength) && Nat.ltb (length (st_lengthParts st)) MaxLengthRecoveries then
        let st := with_lengthParts (st_lengthParts st ++ [RestoreOuterWhitespace clean originalContent]) st in
        mret (NContinue (with_messages (st_messages st ++ [assistantMessage resp clean None; BuildLengthRecoveryMessage clean]) st))
      else if negb toolBranch then mret (terminalTurn resp clean originalContent st)
      else toolTurn spec iteration resp clean tcs st.

Definition with_Content (content : string) (r : Response) : Response :=
  mkResponse content (r_HasContent r) (r_ToolCalls r) (r_FinishReason r) (r_Usage r) (r_ReasoningContent r)
    (r_ThinkingBlocks r) (r_RetryAfter r) (r_ErrorStatusCode r) (r_ErrorKind r) (r_ErrorType r) (r_ErrorCode r)
    (r_ErrorRetryAfterS r) (r_ErrorShouldRetry r).

(** From the response to the decision: usage, reasoning, cleaning. *)
Definition receive (spec : RunSpec) (iteration : Z) (resp : Response) (streamedReasoning : bool) (st : RunState) : M Next :=
  let st := add_usage (r_Usage resp) st in
  let originalContent := r_Content resp in
  let '(reasoning, cleaned) := ExtractReasoning (Some (r_ReasoningContent resp)) (r_ThinkingBlocks resp) (Some (r_Content resp)) in
  let resp := with_Content (default "" cleaned) resp in
  (if negb (String.eqb (default "" reasoning) "") && negb streamedReasoning
   then emit (EvReasoning (default "" reasoning));; emit EvReasoningEnd else mret ());;
  handleResponse spec iteration resp (StripThink (r_Content resp)) originalContent st.

Definition iterate (spec : RunSpec) (iteration : Z) (st : RunState) : M Next :=
  canceled ← ask (ctxErr E);
  match canceled with
  | Some err => mret (NReturn (early StopCanceled (st_FinalContent st) err (st_messages st) st))
  | None =>
      emit (EvIteration iteration);;
      refused ← ask (λ now, beforeIteration E now iteration (st_messages st));
      match refused with
      | Some err => mret (NReturn (early StopError (st_FinalContent st) err (st_messages st) st))
      | None =>
          answer ← requestModel spec (st_messages st) false;
          let '(resp, streamedReasoning) := answer in
          match resp with
          | inr r => receive spec iteration r streamedReasoning st
          | inl err =>
              canceled ← ask (ctxErr E);
              match canceled with
              | Some cerr => mret (NReturn (early StopCanceled (st_FinalContent st) cerr (st_messages st) st))
              | None => receive spec iteration (errorResponseFromException err) streamedReasoning st
              end
          end
      end
  end.

Definition conclude (st : RunState) : RunResult :=
  mkRunResult (st_FinalContent st) (st_messages st) (st_toolsUsed st)
    (if st_usageSeen st then Some (st_usage st) else None) (st_StopReason st) "".

(** [rounds] is [spec.MaxIterations - iteration]. *)
Fixpoint Run_loop (rounds : nat) (spec : RunSpec) (iteration : Z) (st : RunState) : M RunResult :=
  match rounds with
  | O => mret (conclude st)
  | S rounds =>
      next ← iterate spec iteration st;
      match next with
      | NReturn r => mret r
      | NBreak st => mret (conclude st)
      | NContinue st => Run_loop rounds spec (iteration + 1) st
      end
  end.

Definition initial (spec : RunSpec) : RunState := mkState (rs_Messages spec) noUsage false [] 0 [] "" StopCompleted.

Definition Run (spec : RunSpec) : M RunResult :=
  let spec := withDefaults spec in Run_loop (Z.to_nat (rs_MaxIterations spec)) spec 0 (initial spec).
End Runner.
