(* ===== verification/RunnerFacts.v ===== *)
(** * What a run of the agent guarantees

    Properties of [Runner.Run]: the requests it sends, how often it asks, and the
    transcript it leaves; and the runs that end in a way the comments of the code
    do not say. *)

From S2P Require Import Prelude GoText GoLib PyFloat Regex GoFmt Core Governance BitVec Indel FileDiff.
From S2P Require Import Response Think Provider Tools ToolOutput RunSpec ToolBatch Runner.
From Stdlib Require Import Ascii.
#[local] Open Scope string_scope.
#[local] Open Scope list_scope.
#[local] Open Scope Z_scope.

(** The requests of a log. *)
Definition requests (l : list Event) : list ChatRequest :=
  omap (λ e, match e with EvRequest r => Some r | _ => None end) l.

Lemma requests_app l l' : requests (l ++ l') = requests l ++ requests l'.
Proof. apply omap_app. Qed.

(** A part of a run that sends nothing. *)
Definition quiet {A} (m : M A) : Prop := adds (λ l _, requests l = []) m.

Lemma quiet_bind {A B} (m : M A) (k : A → M B) : quiet m → (∀ a, quiet (k a)) → quiet (m ≫= k).
Proof.
  intros Hm Hk. eapply adds_bind; [exact Hm|]. intros l a Hl. eapply adds_impl; [apply Hk|].
  intros l' b Hl'. by rewrite requests_app, Hl, Hl'.
Qed.

Lemma quiet_ret {A} (a : A) : quiet (mret a).
Proof. by apply adds_ret. Qed.
Lemma quiet_ask {A} (f : nat → A) : quiet (ask f).
Proof. eapply adds_impl; [apply adds_ask|]. by intros l a ->. Qed.
Lemma quiet_emit e : (∀ r, e ≠ EvRequest r) → quiet (emit e).
Proof. intros He. eapply adds_impl; [apply adds_emit|]. intros l a ->. by destruct e; naive_solver. Qed.
Lemma quiet_with_fs {A} f : quiet (A := A) (with_fs f).
Proof. eapply adds_impl; [apply adds_with_fs|]. by intros l a ->. Qed.

Create HintDb quiet.
#[export] Hint Resolve quiet_ret quiet_ask quiet_with_fs : quiet.
#[export] Hint Extern 1 (quiet (emit _)) => apply quiet_emit; discriminate : quiet.
#[export] Hint Extern 2 (quiet (_ ≫= _)) => apply quiet_bind; [|intros] : quiet.
#[export] Hint Extern 3 (quiet (match ?x with _ => _ end)) => destruct x : quiet.

Lemma quiet_close s : quiet (closeNativeReasoning s).
Proof. unfold closeNativeReasoning. auto with quiet. Qed.
#[export] Hint Resolve quiet_close : quiet.

Lemma quiet_consume evs s : quiet (consumeEvents evs s).
Proof.
  revert s. induction evs as [|ev evs IH]; intros s; cbn [consumeEvents]; [auto with quiet|]. apply quiet_bind; [|auto].
  destruct ev; unfold consumeEvent; auto 8 with quiet.
Qed.
#[export] Hint Resolve quiet_consume : quiet.

Lemma quiet_events {A} (m : M A) (Q : list Event → A → Prop) :
  adds Q m → (∀ l a, Q l a → Forall (λ e, ∀ r, e ≠ EvRequest r) l) → quiet m.
Proof.
  intros Hm HQ. eapply adds_impl; [exact Hm|]. intros l a Hl%HQ.
  induction Hl as [|e l He _ IH]; [done|]. destruct e; cbn; try apply IH. by destruct (He request).
Qed.

Section Facts.
Context `{PrintTable} `{CaseTable} `{!Tokenizer ToolSchema} (E : RunEnv).

(** ** Requests *)

(** A request that is in order: its calls and results match ([answered]), and with
    a window it is within the budget the window leaves. *)
Definition acceptable (window maxTokens : Z) (req : ChatRequest) : Prop :=
  answered (cr_Messages req) ∧
  (0 < window → 0 < InputBudget window (Some maxTokens) ∧
     (EstimatePromptTokens (cr_Messages req) (cr_Tools req)).1 ≤ InputBudget window (Some maxTokens)).

Lemma governed_spec spec ms out :
  governed spec ms = inl out →
  answered out ∧
  (0 < rs_ContextWindowTokens spec → 0 < InputBudget (rs_ContextWindowTokens spec) (Some (rs_MaxTokens spec)) ∧
     (EstimatePromptTokens out (toolSchemasOf spec)).1 ≤ InputBudget (rs_ContextWindowTokens spec) (Some (rs_MaxTokens spec))).
Proof.
  unfold governed. cbv zeta.
  assert (answered (PrepareForModel ms)) as Ha by apply repaired_answered.
  destruct (Z.ltb_spec 0 (rs_ContextWindowTokens spec)) as [Hw|Hw]; cbn [andb]; [|intros [= <-]; split_and!; auto; lia].
  destruct (RequestPressure _ _ _ _).2 eqn:Hp.
  - intros Hf. apply FitToBudget_fits in Hf as (? & ? & ?); [|lia]. split_and!; auto.
  - intros [= <-]. split_and!; [done..|]. intros _. apply no_pressure_fits; [lia|done].
Qed.

(** Without a window the transcript is still repaired: only the trimming is off. *)
Lemma governed_no_window spec ms :
  rs_ContextWindowTokens spec = 0 → governed spec ms = inl (PrepareForModel ms).
Proof. intros Hw. unfold governed. by rewrite Hw. Qed.

(** The requests of a part of a run: acceptable, and at most [n]. *)
Definition sends (spec : RunSpec) (n : nat) (l : list Event) : Prop :=
  (length (requests l) ≤ n)%nat ∧ Forall (acceptable (rs_ContextWindowTokens spec) (rs_MaxTokens spec)) (requests l).

Lemma sends_quiet spec l : requests l = [] → sends spec 0 l.
Proof. intros Hl. unfold sends. rewrite Hl. split; [cbn; lia|constructor]. Qed.

Lemma sends_app spec n n' l l' : sends spec n l → sends spec n' l' → sends spec (n + n') (l ++ l').
Proof.
  intros [? ?] [? ?]. unfold sends. rewrite requests_app, length_app. split; [lia|by apply Forall_app].
Qed.

Lemma sends_le spec n n' l : sends spec n l → (n ≤ n')%nat → sends spec n' l.
Proof. intros [? ?] ?. split; [lia|done]. Qed.

Lemma requestModelOnce_sends spec ms flag : adds (λ l _, sends spec 1 l) (requestModelOnce E spec ms flag).
Proof.
  unfold requestModelOnce. destruct (governed spec ms) as [out|e] eqn:Hg.
  - eapply adds_bind; [apply adds_emit|]. intros l [] ->.
    assert (∀ l', requests l' = [] → sends spec 1 ([EvRequest (mkRequest out (toolSchemasOf spec) (rs_Model spec)
        (rs_MaxTokens spec) (rs_Temperature spec) (rs_ReasoningEffort spec))] ++ l')) as Hone.
    { intros l' Hl'. unfold sends. rewrite requests_app, Hl'. split; [cbn; lia|]. cbn. repeat constructor; by eapply governed_spec. }
    eapply adds_impl; [|intros l a; apply Hone].
    destruct (streaming E); [|apply quiet_bind; auto with quiet].
    apply quiet_bind; [auto with quiet|]. intros [err|st]; [auto with quiet|]. unfold consumeStream. auto 8 with quiet.
  - apply adds_ret. by eapply sends_le; [apply sends_quiet|lia].
Qed.

(** A retry is only made for a transient failure, so a request costs at most the
    attempts of the schedule. *)
Lemma requestModel_loop_sends rounds attempt spec delays ms flag :
  adds (λ l _, sends spec (S rounds) l) (requestModel_loop E rounds attempt spec delays ms flag).
Proof.
  revert attempt flag. induction rounds as [|rounds IH]; intros attempt flag; cbn [requestModel_loop];
    (eapply adds_bind; [apply requestModelOnce_sends|]); intros l [[err|r] flag'] Hl;
    try (apply adds_ret; rewrite app_nil_r; eapply sends_le; [exact Hl|lia]);
    (destruct (negb (bool_decide _)); [apply adds_ret; rewrite app_nil_r; eapply sends_le; [exact Hl|lia]|]);
    destruct (ClassifyResponse _) as [[] after]; cbn [negb]; try (apply adds_ret; rewrite app_nil_r; eapply sends_le; [exact Hl|lia]).
  assert (∀ l1, requests l1 = [] →
    adds (λ l' _, sends spec (S (S rounds)) (l ++ l1 ++ l')) (requestModel_loop E rounds (attempt + 1) spec delays ms flag')) as Hrec.
  { intros l1 Hl1. eapply adds_impl; [apply IH|]. intros l' a Hl'. apply (sends_app _ 1 (S rounds)); [done|].
    apply (sends_app _ 0 (S rounds)); [by apply sends_quiet|done]. }
  destruct (flt _ _); [|exact (Hrec [] eq_refl)].
  eapply adds_bind; [apply adds_emit|]. intros l1 [] ->. eapply adds_bind; [apply adds_ask|]. intros l2 [] ->.
  - apply adds_ret. rewrite app_nil_r. eapply sends_le; [apply (sends_app _ 1 0); [exact Hl|by apply sends_quiet]|lia].
  - exact (Hrec [EvSleep _] eq_refl).
Qed.

(** ** Turns *)

Lemma requests_tool_events cs l : Forall (tool_event cs) l → requests l = [].
Proof.
  induction 1 as [|e l (c & _ & [->|(res & -> & _)]) _ IH]; [done|cbn; exact IH..].
Qed.

Lemma requests_sequential cs results :
  requests (concat (zip_with (λ c res, [EvToolStart c; EvToolEnd c res]) cs results)) = [].
Proof. revert results. induction cs as [|c cs IH]; intros [|res results]; [done..|]. cbn. apply IH. Qed.

Lemma executeTools_answers spec tcs : adds (λ l out, requests l = [] ∧ answers tcs out) (executeTools E spec tcs).
Proof.
  eapply adds_impl; [apply executeTools_spec|]. intros l out [Ha Hl]. split; [|done].
  destruct (rs_Tools spec) as [r|]; [|by subst]. destruct Hl as (batches & segs & _ & _ & -> & Hs). clear Ha.
  induction Hs as [|cs seg batches segs Hb _ IH]; [done|]. rewrite concat_cons, requests_app, IH, app_nil_r.
  destruct Hb as [results _ _|l _ _ He _ _]; [apply requests_sequential|by eapply requests_tool_events].
Qed.

(** A tool message that answers a call. *)
Definition tool_answer (c : ToolCall) (m : Message) : Prop :=
  m_Role m = RoleTool ∧ m_ToolCallID m = tc_ID c ∧ m_Name m = tc_Name c.

Lemma toolMessages_answer spec tcs results :
  answers tcs results → adds (λ l ms, requests l = [] ∧ Forall2 tool_answer tcs ms) (toolMessages E spec results tcs).
Proof.
  induction 1 as [|c tr tcs results Hid _ IH]; cbn [toolMessages]; [apply adds_ret; by split; [|constructor]|].
  eapply (adds_bind (λ l m, requests l = [] ∧ tool_answer c m)).
  - unfold toolMessage. eapply adds_bind; [apply adds_with_fs|]. intros l content ->. by apply adds_ret.
  - intros l m [Hl Hm]. eapply adds_bind; [exact IH|]. intros l' ms [Hl' Hms]. apply adds_ret.
    rewrite !requests_app, Hl, Hl'. split; [done|by constructor].
Qed.

(** What an iteration adds to the transcript when the run goes on: nothing, a cut
    answer with the request to continue it, or a tool turn, its calls followed at
    once by their results in order. *)
Inductive added : list Message → Prop :=
  | added_nothing : added []
  | added_recovery r clean : added [assistantMessage r clean None; BuildLengthRecoveryMessage clean]
  | added_tools r clean tcs results :
      tcs ≠ [] → Forall (λ c, HasValidName c = true) tcs → Forall2 tool_answer tcs results →
      added (assistantMessage r clean (Some tcs) :: results).

(** How a run ends, after the transcript [ms]: stopped by the caller or the hook;
    failed; with the notice for a blank answer; with an answer; with the budget
    used up; or with the iterations used up by retries or continuations. *)
Inductive ends (ms : list Message) (r : RunResult) : Prop :=
  | ends_stopped : rr_Messages r = ms → rr_FinalContent r = "" → rr_StopReason r = StopCanceled ∨ rr_StopReason r = StopError → ends ms r
  | ends_failed : rr_Messages r = AppendModelErrorPlaceholder ms → rr_StopReason r = StopError → rr_Error r = rr_FinalContent r → ends ms r
  | ends_blank : rr_Messages r = AppendFinalMessage ms EmptyFinalResponseMessage → rr_StopReason r = StopEmptyFinalResponse →
      rr_FinalContent r = EmptyFinalResponseMessage → rr_Error r = EmptyFinalResponseMessage → ends ms r
  | ends_answered resp clean : rr_Messages r = ms ++ [assistantMessage resp clean None] → IsBlankText clean = false →
      rr_StopReason r = StopCompleted → rr_Error r = "" → ends ms r
  | ends_exhausted : rr_Messages r = AppendFinalMessage ms (rr_FinalContent r) → rr_StopReason r = StopMaxIterations →
      (∃ c m, last ms = Some m ∧ tool_answer c m) → rr_Error r = "" → ends ms r
  | ends_silent : rr_Messages r = ms → rr_StopReason r = StopCompleted → rr_FinalContent r = "" → rr_Error r = "" → ends ms r.

Definition fresh (st : RunState) : Prop := st_FinalContent st = "" ∧ st_StopReason st = StopCompleted.

(** What an iteration may do to a run. *)
Definition proceeds (spec : RunSpec) (iteration : Z) (st : RunState) (next : Next) : Prop :=
  match next with
  | NReturn r => ends (st_messages st) r
  | NBreak st' => ends (st_messages st) (conclude st')
  | NContinue st' =>
      ∃ seg, added seg ∧
        ((st_messages st' = st_messages st ++ seg ∧ fresh st') ∨
         (iteration = rs_MaxIterations spec - 1 ∧ ends (st_messages st ++ seg) (conclude st')))
  end.

Lemma last_answer tcs results ms m :
  tcs ≠ [] → Forall2 tool_answer tcs results → ∃ c m', last (ms ++ m :: results) = Some m' ∧ tool_answer c m'.
Proof.
  intros Hne Hf. destruct (exists_last Hne) as (tcs' & c & ->). apply Forall2_app_inv_l in Hf as (r1 & r2 & _ & H2 & ->).
  inversion H2 as [|? m' ? ? Hm Hr]; subst. inversion Hr; subst. exists c, m'. split; [|done].
  by rewrite app_comm_cons, app_assoc, last_snoc.
Qed.

Definition last_round (spec : RunSpec) (iteration : Z) : nat := if iteration =? rs_MaxIterations spec - 1 then 1 else 0.

Lemma toolTurn_spec spec iteration resp clean tcs st :
  fresh st → tcs ≠ [] → Forall (λ c, HasValidName c = true) tcs →
  adds (λ l next, sends spec (last_round spec iteration) l ∧ proceeds spec iteration st next)
    (toolTurn E spec iteration resp clean tcs st).
Proof.
  intros [Hf1 Hf2] Hne Hv. unfold toolTurn. eapply adds_bind; [apply executeTools_answers|]. intros l results [Hl Ha].
  eapply adds_bind; [by apply toolMessages_answer|]. intros l' ms [Hl' Hms].
  assert (requests (l ++ l') = []) as Hq by (by rewrite requests_app, Hl, Hl').
  set (seg := assistantMessage resp clean (Some tcs) :: ms).
  assert (added seg) as Hseg by (by econstructor).
  cbn [st_messages with_lengthParts add_tools]. unfold last_round. destruct (Z.eqb_spec iteration (rs_MaxIterations spec - 1)) as [Hi|Hi].
  - eapply (adds_bind (λ l _, sends spec 1 l)).
    { unfold finalizeAfterMaxIterations. destruct (negb _); [apply adds_ret; by eapply sends_le; [apply sends_quiet|lia]|].
      eapply adds_bind; [apply requestModelOnce_sends|]. intros l1 a Hs. apply adds_ret. by rewrite app_nil_r. }
    intros l2 salvaged Hs. apply adds_ret. rewrite app_nil_r, app_assoc. split.
    { by apply (sends_app _ 0 1); [apply sends_quiet|]. }
    exists seg. split; [done|]. right. split; [done|]. apply ends_exhausted; cbn; [by rewrite <-app_assoc|done| |done].
    by eapply last_answer.
  - apply adds_ret. rewrite app_nil_r. split; [by apply sends_quiet|]. exists seg. split; [done|]. left.
    split; [cbn; by rewrite <-app_assoc|done].
Qed.

Lemma handleResponse_spec spec iteration resp clean original st :
  fresh st →
  adds (λ l next, sends spec (last_round spec iteration) l ∧ proceeds spec iteration st next)
    (handleResponse E spec iteration resp clean original st).
Proof.
  intros Hf. assert (sends spec (last_round spec iteration) []) as Hnil by (eapply sends_le; [by apply sends_quiet|lia]).
  unfold handleResponse. destruct (bool_decide (r_FinishReason resp = FinishError)).
  { apply adds_ret. split; [done|]. by apply ends_failed. }
  cbv zeta. set (tcs := validCalls (r_ToolCalls resp)).
  destruct (ShouldExecuteTools resp && negb (Nat.eqb (length tcs) 0)) eqn:Ht; cbn [negb andb];
    [|destruct (EmptyRetryEligible (r_FinishReason resp) clean); cbn [andb]].
  all: try (destruct (st_emptyRetries st <? maxEmptyRetries);
    [apply adds_ret; split; [done|]; exists []; split; [constructor|left; split; [cbn; by rewrite app_nil_r|exact Hf]]|]).
  all: destruct (bool_decide (r_FinishReason resp = FinishLength) && _);
    [apply adds_ret; split; [done|]; eexists; split; [apply added_recovery|left; split; [reflexivity|exact Hf]]|].
  1: { apply (toolTurn_spec spec iteration resp clean tcs (with_emptyRetries 0 st)); [exact Hf| |].
    - intros ->. cbn in Ht. by rewrite andb_false_r in Ht.
    - apply Forall_forall. intros c [_ Hc]%list_elem_of_In%filter_In. done. }
  all: apply adds_ret; split; [done|]; unfold terminalTurn; destruct (IsBlankText clean) eqn:Hb;
    [by apply ends_blank|by eapply ends_answered].
Qed.

Lemma quiet_reasoning (b : bool) t : quiet (if b then emit (EvReasoning t);; emit EvReasoningEnd else mret ()).
Proof. destruct b; auto with quiet. Qed.

Lemma receive_spec spec iteration resp flag st :
  fresh st →
  adds (λ l next, sends spec (last_round spec iteration) l ∧ proceeds spec iteration st next)
    (receive E spec iteration resp flag st).
Proof.
  intros Hf. unfold receive. destruct (ExtractReasoning _ _ _) as [reasoning cleaned].
  eapply adds_bind; [apply quiet_reasoning|].
  intros l [] Hl. assert (st_messages (add_usage (r_Usage resp) st) = st_messages st) as Hm by (by destruct (r_Usage resp)).
  eapply adds_impl; [apply handleResponse_spec; by destruct (r_Usage resp)|].
  intros l' next [Hs Hp]. split; [by apply (sends_app _ 0); [apply sends_quiet|]|]. unfold proceeds in *. by rewrite Hm in Hp.
Qed.

Lemma iterate_spec spec iteration st :
  fresh st →
  adds (λ l next, sends spec (S (length (delaysOf spec)) + last_round spec iteration) l ∧ proceeds spec iteration st next)
    (iterate E spec iteration st).
Proof.
  intros Hf. pose proof Hf as [Hf1 _]. unfold iterate. eapply adds_bind; [apply adds_ask|]. intros l0 [err|] ->.
  { apply adds_ret. split; [by eapply sends_le; [apply sends_quiet|lia]|]. apply ends_stopped; cbn; auto. }
  eapply adds_bind; [apply adds_emit|]. intros l1 [] ->. eapply adds_bind; [apply adds_ask|]. intros l2 [err|] ->.
  { apply adds_ret. split; [by eapply sends_le; [apply sends_quiet|lia]|]. apply ends_stopped; cbn; auto. }
  eapply adds_bind; [apply requestModel_loop_sends|]. intros l3 [[err|resp] flag] Hs; cbn [app].
  - eapply adds_bind; [apply adds_ask|]. intros l4 [cerr|] ->.
    + apply adds_ret. split; [|apply ends_stopped; cbn; auto]. rewrite !app_nil_r.
      eapply (sends_le _ (0 + S (length (delaysOf spec)))); [by apply (sends_app _ 0 _ [_]); [apply sends_quiet|]|lia].
    + eapply adds_impl; [by apply receive_spec|]. intros l5 next [Hs' Hp]. split; [|done].
      apply (sends_app _ 0 _ [_]); [by apply sends_quiet|]. by apply (sends_app _ (S (length (delaysOf spec)))).
  - eapply adds_impl; [by apply receive_spec|]. intros l5 next [Hs' Hp]. split; [|done].
    apply (sends_app _ 0 _ [_]); [by apply sends_quiet|]. by apply (sends_app _ (S (length (delaysOf spec)))).
Qed.

Lemma Run_loop_spec rounds spec iteration st :
  fresh st → iteration + Z.of_nat rounds = rs_MaxIterations spec →
  adds (λ l r, sends spec (rounds * S (length (delaysOf spec)) + (if decide (rounds = 0%nat) then 0 else 1)) l ∧
          ∃ segs, Forall added segs ∧ ends (st_messages st ++ concat segs) r)
    (Run_loop E rounds spec iteration st).
Proof.
  revert iteration st. induction rounds as [|rounds IH]; intros iteration st Hf Hi; cbn [Run_loop].
  { apply adds_ret. split; [by apply sends_quiet|]. exists []. split; [constructor|]. cbn. rewrite app_nil_r.
    destruct Hf. by apply ends_silent. }
  rewrite decide_False by done. set (d := S (length (delaysOf spec))).
  eapply adds_bind; [by apply iterate_spec|]. intros l next [Hs Hp]. fold d in Hs.
  assert (last_round spec iteration = if decide (rounds = 0%nat) then 1 else 0)%nat as Hlast.
  { unfold last_round. destruct (Z.eqb_spec iteration (rs_MaxIterations spec - 1)); case_decide; lia. }
  assert (last_round spec iteration ≤ 1)%nat as Hle by (rewrite Hlast; case_decide; lia).
  destruct next as [r|st'|st']; cbn [proceeds] in Hp.
  - apply adds_ret. rewrite app_nil_r. split; [eapply sends_le; [exact Hs|lia]|]. exists []. cbn. by rewrite app_nil_r.
  - apply adds_ret. rewrite app_nil_r. split; [eapply sends_le; [exact Hs|lia]|]. exists []. cbn. by rewrite app_nil_r.
  - destruct Hp as (seg & Hseg & [[Hms Hf']|[Hi' He]]).
    + eapply adds_impl; [apply IH; [done|lia]|]. intros l' r [Hs' (segs & Hsegs & Hr)]. split.
      * eapply sends_le; [by apply (sends_app _ _ _ _ _ Hs Hs')|]. rewrite Hlast. fold d. case_decide; lia.
      * exists (seg :: segs). split; [by constructor|]. cbn. by rewrite app_assoc, <-Hms.
    + assert (rounds = 0%nat) as -> by lia. cbn [Run_loop]. apply adds_ret. rewrite app_nil_r.
      split; [eapply sends_le; [exact Hs|lia]|]. exists [seg]. split; [by repeat constructor|]. cbn. by rewrite app_nil_r.
Qed.

Lemma withDefaults_positive spec : 0 < rs_MaxIterations (withDefaults spec).
Proof. cbn. destruct (Z.leb_spec (rs_MaxIterations spec) 0); [done|lia]. Qed.

Lemma Run_spec spec :
  adds (λ l r, sends (withDefaults spec) (Z.to_nat (rs_MaxIterations (withDefaults spec)) * S (length (delaysOf spec)) + 1) l ∧
          ∃ segs, Forall added segs ∧ ends (rs_Messages spec ++ concat segs) r)
    (Run E spec).
Proof.
  unfold Run. pose proof (withDefaults_positive spec). eapply adds_impl.
  - apply (Run_loop_spec (Z.to_nat (rs_MaxIterations (withDefaults spec))) (withDefaults spec) 0); [done|lia].
  - intros l r [Hs Hr]. split; [|exact Hr]. eapply sends_le; [exact Hs|].
    change (delaysOf (withDefaults spec)) with (delaysOf spec). case_decide; lia.
Qed.

(** ** The claims *)

(** C1. Every request a run sends to a provider, at every iteration, retry and
    salvage attempt, with a context window or without: each tool result comes after
    a call with its id; each call with a nonempty id has a result, and no id has
    more results than calls, so that when the ids of the calls are nonempty and
    distinct each call has exactly one result; and with a context window configured
    the request is within the positive budget that window leaves. *)
Theorem run_requests_acceptable spec w req :
  let '(_, w') := Run E spec w in
  ∃ l, w_log w' = w_log w ++ l ∧
    (EvRequest req ∈ l → acceptable (rs_ContextWindowTokens spec) (rs_MaxTokens (withDefaults spec)) req).
Proof.
  pose proof (Run_spec spec w) as Hr. destruct (Run E spec w) as [r w']. destruct Hr as (l & Hl & [_ Hs] & _).
  exists l. split; [done|]. intros Hin. rewrite Forall_forall in Hs. apply Hs.
  apply list_elem_of_omap. by exists (EvRequest req).
Qed.

(** C19. A run ends, and its cost is bounded: whatever the provider answers, it
    makes at most one request per iteration and delay of the schedule, plus one to
    salvage an answer. *)
Theorem run_terminates_bounded spec w :
  ∃ r w' l, Run E spec w = (r, w') ∧ w_log w' = w_log w ++ l ∧
    Z.of_nat (length (requests l)) ≤
      (if rs_MaxIterations spec <=? 0 then DefaultMaxToolIterations else rs_MaxIterations spec)
      * (1 + Z.of_nat (length (delaysOf spec))) + 1.
Proof.
  pose proof (Run_spec spec w) as Hr. pose proof (withDefaults_positive spec) as Hp.
  destruct (Run E spec w) as [r w']. destruct Hr as (l & Hl & [Hn _] & _). exists r, w', l. split_and!; [done..|].
  change (if rs_MaxIterations spec <=? 0 then DefaultMaxToolIterations else rs_MaxIterations spec)
    with (rs_MaxIterations (withDefaults spec)). nia.
Qed.

(** C2. The transcript of a run: the messages it was given, then complete
    exchanges (a tool turn with the results of its calls in order, each under its
    call's id and name, or a cut answer with the request to go on), then one of the
    six ends; the only message that is ever replaced is a closing assistant turn,
    by the final notice. *)
Theorem run_transcript spec w :
  let '(r, _) := Run E spec w in
  ∃ segs, Forall added segs ∧ ends (rs_Messages spec ++ concat segs) r.
Proof.
  pose proof (Run_spec spec w) as Hr. destruct (Run E spec w) as [r w']. by destruct Hr as (l & _ & _ & Hr).
Qed.

(** A transport error is final: the retry policy calls the same failure, read
    as a response, transient (a 429 or 5xx of the HTTP client), but the runner asks
    it only about responses, so one request is made and no delay is waited for. *)
Theorem transport_error_not_retried spec ms flag w err h :
  streaming E = false → (∀ now req, chat E now req = inl err) → ge_HTTP err = Some h → Retryable h = true →
  (ClassifyResponse (Some (errorResponseFromException err))).1 = true ∧
  ∃ l, w_log (requestModel E spec ms flag w).2 = w_log w ++ l ∧ (length l ≤ 1)%nat.
Proof.
  intros Hs Hc Hh Hr. split.
  { unfold errorResponseFromException. rewrite Hh. cbn. done. }
  unfold requestModel. destruct (length (delaysOf spec)); cbn [requestModel_loop];
    unfold mbind, M_bind, requestModelOnce; (destruct (governed spec ms); [|exists []; rewrite app_nil_r; cbn; split; [done|lia]]);
    rewrite Hs; unfold mbind, M_bind, emit, ask; cbn; rewrite Hc; cbn; eexists; (split; [reflexivity|cbn; lia]).
Qed.
End Facts.

(** ** Runs that end in other ways *)

#[local] Instance demo_print : PrintTable := λ r, (32 <=? r) && (r <? 127).
#[local] Program Instance demo_case : CaseTable := {| ToLower := ToLower_ascii |}.
Next Obligation. done. Qed.
#[local] Program Instance demo_tokenizer : Tokenizer ToolSchema :=
  {| TokenCount := λ _, None; bpeAvailable := false;
     marshalBlock := λ _, None; marshalCalls := λ _, None; marshalTools := λ _, None |}.
Next Obligation. done. Qed.

Definition demo_response (content : string) (finish : FinishReason) (tokens : Z) : Response :=
  mkResponse content true [] finish (Some (mkUsage tokens 0 tokens None None)) "" [] None None "" "" "" None None.

(** A provider that answers every request the same way. *)
Definition demo_env (answer : GoError + Response) : RunEnv :=
  mkEnv (λ _, None) (λ _ _ _, None) false (λ _ _, answer) (λ _ _, inr (mkStream [] None)) (λ _ _, false) (λ _, [])
    (λ _, false) (demo_fs 0).

Definition demo_spec (iterations : Z) : RunSpec :=
  mkRunSpec [NewMessage RoleUser "hi"] None "m" None "" 0 iterations 0 0 (of_int 0) "" true 0 "cli:a" "" "" None.

Definition demo_world : World := mkWorld 0 [] ∅.

Lemma transport_error_not_retried_witness :
  ∃ l, w_log (requestModel (demo_env (inl (mkError "http 503" (Some (mkHTTPError 503 "" "" (of_int 0))) false "HTTPError" "")))
      (demo_spec 1) [NewMessage RoleUser "hi"] false demo_world).2 = w_log demo_world ++ l ∧ (length l ≤ 1)%nat.
Proof. eapply transport_error_not_retried; reflexivity. Defined.

(** The last iteration can be used up by a retry of a blank answer or by the
    request to continue a cut one.  The run then reports that it completed, with no
    answer, no error and, in the second case, a transcript whose last message is
    the runner's own instruction to the model. *)
Theorem run_can_end_silently :
  let blank := (Run (demo_env (inr (demo_response "" FinishStop 0))) (demo_spec 2) demo_world).1 in
  let cut := (Run (demo_env (inr (demo_response "half an" FinishLength 0))) (demo_spec 2) demo_world).1 in
  rr_StopReason blank = StopCompleted ∧ rr_FinalContent blank = "" ∧ rr_Error blank = "" ∧
  rr_Messages blank = [NewMessage RoleUser "hi"] ∧
  rr_StopReason cut = StopCompleted ∧ rr_FinalContent cut = "" ∧ rr_Error cut = "" ∧
  last (rr_Messages cut) = Some (BuildLengthRecoveryMessage "half an").
Proof. vm_compute. split_and!; reflexivity. Qed.

(** The tokens of a run that ends in an error or a blank answer are not
    reported: three answered requests of a hundred tokens each leave no usage. *)
Theorem run_usage_lost :
  let '(r, w) := Run (demo_env (inr (demo_response "" FinishStop 100))) (demo_spec 5) demo_world in
  length (requests (w_log w)) = 3%nat ∧ rr_StopReason r = StopEmptyFinalResponse ∧ rr_Usage r = None ∧
  rr_Usage (Run (demo_env (inr (demo_response "" FinishStop 100))) (demo_spec 2) demo_world).1 = Some (mkUsage 200 0 200 None None).
Proof. vm_compute. split_and!; reflexivity. Qed.
