(* ===== verification/CronSchedule.v ===== *)
(** * Schedules (src/internal/cron/schedule.go, types.go, and the schedule
    arithmetic of service.go)

    An instant ([time.Time]) is a number of nanoseconds since the Unix epoch.
    The calendar functions of package [time] are modelled here; the time-zone
    database is a parameter ([TimeZones]), as is the upper-casing of non-ASCII
    text. *)

From S2P Require Import Prelude GoText GoLib.
From Stdlib Require Import Ascii.
#[local] Open Scope string_scope.
#[local] Open Scope list_scope.
#[local] Open Scope Z_scope.

(** ** Package time *)

Abbreviation Time := Z (only parsing).
Definition Millisecond : Z := 1000000.
Definition Second : Z := 1000 * Millisecond.
Definition Minute : Z := 60 * Second.

Definition UnixMilli (t : Time) : Z := t / Millisecond.
Definition ofUnixMilli (ms : Z) : Time := ms * Millisecond.

(** Days since the epoch of a proleptic Gregorian date and back; [d] may leave
    the month, as in [time.Date]. *)
Definition days_from_civil (y m d : Z) : Z :=
  let y := if m <=? 2 then y - 1 else y in
  let era := y / 400 in
  let yoe := y - era * 400 in
  let mp := (m + 9) mod 12 in
  let doy := (153 * mp + 2) / 5 + d - 1 in
  let doe := yoe * 365 + yoe / 4 - yoe / 100 + doy in
  era * 146097 + doe - 719468.

Definition civil_from_days (z : Z) : Z * Z * Z :=
  let z := z + 719468 in
  let era := z / 146097 in
  let doe := z - era * 146097 in
  let yoe := (doe - doe / 1460 + doe / 36524 - doe / 146096) / 365 in
  let doy := doe - (365 * yoe + yoe / 4 - yoe / 100) in
  let mp := (5 * doy + 2) / 153 in
  let d := doy - (153 * mp + 2) / 5 + 1 in
  let m := if mp <? 10 then mp + 3 else mp - 9 in
  (yoe + era * 400 + (if m <=? 2 then 1 else 0), m, d).

(** A location: the offset in seconds in force at a Unix second, and the
    half-open range of seconds on which it is in force. *)
Record Location := mkLocation { lookup_zone : Z → Z * Z * Z }.

Definition fixed (off : Z) : Location := mkLocation (λ _, (off, - 2 ^ 63, 2 ^ 63)).
Definition UTC : Location := fixed 0.

Definition offset (loc : Location) (sec : Z) : Z := (lookup_zone loc sec).1.1.

Record civil := mkCivil {
  c_year : Z; c_month : Z; c_day : Z; c_hour : Z; c_min : Z; c_weekday : Z; c_sec : Z; c_nsec : Z }.

(** The fields of [t.In(loc)]. *)
Definition fields_in (loc : Location) (t : Time) : civil :=
  let sec := t / Second in
  let l := sec + offset loc sec in
  let days := l / 86400 in
  let s := l mod 86400 in
  let '(y, m, d) := civil_from_days days in
  mkCivil y m d (s / 3600) (s mod 3600 / 60) ((days + 4) mod 7) (s mod 60) (t mod Second).

(** [time.Date]: the instant whose wall clock in [loc] shows the fields. *)
Definition Date (loc : Location) (y m d hh mi ss ns : Z) : Time :=
  let unix := days_from_civil y m d * 86400 + hh * 3600 + mi * 60 + ss in
  let '(off, start, stop) := lookup_zone loc unix in
  let off :=
    if off =? 0 then 0 else
    let utc := unix - off in
    if (utc <? start) || (stop <=? utc) then offset loc utc else off in
  (unix - off) * Second + ns.

(** [t.AddDate(years, 0, 0)] *)
Definition AddYears (loc : Location) (t : Time) (years : Z) : Time :=
  let f := fields_in loc t in
  Date loc (c_year f + years) (c_month f) (c_day f) (c_hour f) (c_min f) (c_sec f) (c_nsec f).

(** [t.Truncate(d)] for instants after year 1, of which the epoch is a whole
    number of minutes away. *)
Definition Truncate (t d : Z) : Time := t - t mod d.

(** The largest offset of a zone, in seconds: RFC 8536, the format of the
    database, keeps offsets between -25 and +26 hours. *)
Definition maxOffset : Z := 93600.
Definition bounded_zone (loc : Location) : Prop := ∀ sec, - maxOffset < offset loc sec < maxOffset.

(** The time-zone database and Unicode upper-casing. *)
Class CronEnv := {
  Local : Location;
  LoadLocation : string → option Location;
  LoadLocation_empty : LoadLocation "" = Some UTC;
  Local_bounded : bounded_zone Local;
  LoadLocation_bounded : ∀ name loc, LoadLocation name = Some loc → bounded_zone loc;
  ToUpper : string → string;
  ToUpper_is_ascii : ∀ s, is_ascii s = true → ToUpper s = ToUpper_ascii s }.

(** ** Data *)

Definition KindAt : string := "at".
Definition KindEvery : string := "every".
Definition KindCron : string := "cron".

Record Schedule := mkSchedule {
  Kind : string; AtMS : option Z; EveryMS : option Z; Expr : string; TZ : string }.

Inductive SchedErr :=
  | ErrTZ | ErrAt | ErrEvery | ErrExpr | ErrKind (kind : string) | ErrFieldCount | ErrUnknownTZ (tz : string)
  | ErrField (name : string) (e : SchedErr) | ErrEmptyItem | ErrStep (s : string) | ErrRange (s : string)
  | ErrDescending (s : string) | ErrValue (s : string) | ErrNoValues | ErrHorizon | ErrLoop.

Record fieldMatcher := mkMatcher { fm_any : bool; fm_set : gset Z }.

Record cronSpec := mkSpec {
  sp_minute : fieldMatcher; sp_hour : fieldMatcher; sp_day : fieldMatcher; sp_month : fieldMatcher;
  sp_weekday : fieldMatcher; dayAny : bool; weekdayAny : bool; sp_loc : Location }.

Definition monthNames : list (string * Z) :=
  [("JAN", 1); ("FEB", 2); ("MAR", 3); ("APR", 4); ("MAY", 5); ("JUN", 6);
   ("JUL", 7); ("AUG", 8); ("SEP", 9); ("OCT", 10); ("NOV", 11); ("DEC", 12)].
Definition weekdayNames : list (string * Z) :=
  [("SUN", 0); ("MON", 1); ("TUE", 2); ("WED", 3); ("THU", 4); ("FRI", 5); ("SAT", 6)].

Fixpoint assoc (names : list (string * Z)) (k : string) : option Z :=
  match names with [] => None | (n, v) :: names => if String.eqb n k then Some v else assoc names k end.

(** ** Calendar round trip *)

(** One day of a 400-year era, and the check of all of them. *)
Definition day_check (doe : Z) : bool :=
  let yoe := (doe - doe / 1460 + doe / 36524 - doe / 146096) / 365 in
  let doy := doe - (365 * yoe + yoe / 4 - yoe / 100) in
  let mp := (5 * doy + 2) / 153 in
  (0 <=? yoe) && (yoe <? 400) && (0 <=? mp) && (mp <? 12).

Fixpoint check_days (n : nat) (doe : Z) : bool :=
  match n with O => true | S n => day_check doe && check_days n (doe + 1) end.

Lemma check_days_spec n doe k :
  check_days n doe = true → doe ≤ k < doe + Z.of_nat n → day_check k = true.
Proof.
  revert doe. induction n as [|n IH]; intros doe; simpl; [lia|]. intros [H1 H2]%andb_true_iff Hk.
  destruct (decide (k = doe)) as [->|]; [done|]. eapply IH; [exact H2|lia].
Qed.

Lemma all_days : check_days (Z.to_nat 146097) 0 = true.
Proof. vm_compute. reflexivity. Qed.

Lemma days_civil_inverse z :
  let '(y, m, d) := civil_from_days z in days_from_civil y m d = z.
Proof.
  unfold civil_from_days, days_from_civil. cbv zeta.
  set (w := z + 719468). set (era := w / 146097). set (doe := w - era * 146097).
  assert (0 ≤ doe < 146097) as Hdoe.
  { pose proof (Z.mod_pos_bound w 146097). pose proof (Z.div_mod w 146097). unfold doe, era. lia. }
  pose proof (check_days_spec _ _ doe all_days ltac:(lia)) as Hc. unfold day_check in Hc. cbv zeta in Hc.
  set (yoe := (doe - doe / 1460 + doe / 36524 - doe / 146096) / 365) in *.
  set (doy := doe - (365 * yoe + yoe / 4 - yoe / 100)) in *.
  set (mp := (5 * doy + 2) / 153) in *. bool_hyps.
  set (m := if mp <? 10 then mp + 3 else mp - 9).
  assert ((m + 9) mod 12 = mp ∧ (if m <=? 2 then yoe + era * 400 + 1 - 1 else yoe + era * 400) = yoe + era * 400) as [Em Ey].
  { unfold m. destruct (Z.ltb_spec mp 10) as [Hmp|Hmp].
    - replace (mp + 3 + 9) with (mp + 1 * 12) by lia. rewrite Z_mod_plus_full, Z.mod_small by lia.
      split; [done|]. destruct (_ <=? 2); lia.
    - replace (mp - 9 + 9) with mp by lia. rewrite Z.mod_small by lia. split; [done|]. destruct (_ <=? 2); lia. }
  assert ((if m <=? 2 then yoe + era * 400 + (if m <=? 2 then 1 else 0) - 1
           else yoe + era * 400 + (if m <=? 2 then 1 else 0)) = yoe + era * 400) as Ey'.
  { destruct (m <=? 2); lia. }
  rewrite Ey', Em.
  assert ((yoe + era * 400) / 400 = era) as -> by (rewrite Z.div_add by lia; rewrite Z.div_small by lia; lia).
  replace (yoe + era * 400 - era * 400) with yoe by lia.
  unfold doy, doe, w. lia.
Qed.

Section Schedule.
Context `{CronEnv}.

(** ** Parsing *)

Definition splitStep (item : string) : SchedErr + (string * Z) :=
  match Split item "/" with
  | [base] => inr (base, 1)
  | [base; s] =>
      match Atoi s with
      | Some n => if n <=? 0 then inl (ErrStep s) else inr (base, n)
      | None => inl (ErrStep s)
      end
  | _ => inl (ErrStep item)
  end.

(** [names] is nil for the numeric fields: an empty list has no entry. *)
Definition parseFieldValue (raw : string) (min max : Z) (names : list (string * Z)) : SchedErr + Z :=
  match assoc names (ToUpper raw) with
  | Some v => inr v
  | None =>
      match Atoi raw with
      | Some v => if (v <? min) || (max <? v) then inl (ErrValue raw) else inr v
      | None => inl (ErrValue raw)
      end
  end.

(** [for v := start; v <= end; v += step], with [int] wrap-around. *)
Fixpoint range_loop (fuel : nat) (v end_ step : Z) (normalizeSunday : bool) (set : gset Z) : option (gset Z) :=
  if end_ <? v then Some set else
  match fuel with
  | O => None
  | S fuel =>
      let n := if normalizeSunday && (v =? 7) then 0 else v in
      range_loop fuel (wrapInt64 (v + step)) end_ step normalizeSunday ({[n]} ∪ set)
  end.

(** More than any field needs ([range_loop_total]). *)
Definition rangeFuel : nat := 300.

(** The bounds of one list item. *)
Definition itemBounds (item base : string) (min max : Z) (names : list (string * Z)) : SchedErr + (Z * Z) :=
  if String.eqb base "*" then inr (min, max)
  else if ContainsByte base "-" then
    match Split base "-" with
    | [a; b] =>
        start ←? parseFieldValue a min max names;
        end_ ←? parseFieldValue b min max names;
        if end_ <? start then inl (ErrDescending base) else inr (start, end_)
    | _ => inl (ErrRange base)
    end
  else
    start ←? parseFieldValue base min max names;
    inr (start, if ContainsByte item "/" then max else start).

Fixpoint items_loop (items : list string) (min max : Z) (names : list (string * Z)) (normalizeSunday : bool)
    (set : gset Z) : SchedErr + gset Z :=
  match items with
  | [] => inr set
  | item :: rest =>
      if String.eqb item "" then inl ErrEmptyItem else
      '(base, step) ←? splitStep item;
      '(start, end_) ←? itemBounds item base min max names;
      match range_loop rangeFuel start end_ step normalizeSunday set with
      | Some set => items_loop rest min max names normalizeSunday set
      | None => inl ErrLoop
      end
  end.

Definition parseField (raw : string) (min max : Z) (names : list (string * Z)) (normalizeSunday : bool)
    : SchedErr + fieldMatcher :=
  let raw := ToUpper (TrimSpace raw) in
  if String.eqb raw "*" then inr (mkMatcher true ∅) else
  set ←? items_loop (Split raw ",") min max names normalizeSunday ∅;
  if decide (set = ∅) then inl ErrNoValues else inr (mkMatcher false set).

Definition wrap_err {A} (name : string) (m : SchedErr + A) : SchedErr + A :=
  match m with inl e => inl (ErrField name e) | inr a => inr a end.

Definition parseCron (expr tz : string) : SchedErr + cronSpec :=
  match Fields expr with
  | [p0; p1; p2; p3; p4] =>
      loc ←? (if String.eqb (TrimSpace tz) "" then inr Local
              else match LoadLocation tz with Some l => inr l | None => inl (ErrUnknownTZ tz) end);
      minute ←? wrap_err "minute" (parseField p0 0 59 [] false);
      hour ←? wrap_err "hour" (parseField p1 0 23 [] false);
      day ←? wrap_err "day" (parseField p2 1 31 [] false);
      month ←? wrap_err "month" (parseField p3 1 12 monthNames false);
      weekday ←? wrap_err "weekday" (parseField p4 0 7 weekdayNames true);
      inr (mkSpec minute hour day month weekday (String.eqb p2 "*") (String.eqb p4 "*") loc)
  | _ => inl ErrFieldCount
  end.

Definition ValidateSchedule (s : Schedule) : SchedErr + unit :=
  if String.eqb (Kind s) KindAt then
    if negb (String.eqb (TZ s) "") then inl ErrTZ
    else match AtMS s with Some at_ => guard_err (at_ <=? 0) ErrAt | None => inl ErrAt end
  else if String.eqb (Kind s) KindEvery then
    if negb (String.eqb (TZ s) "") then inl ErrTZ
    else match EveryMS s with Some ev => guard_err (ev <=? 0) ErrEvery | None => inl ErrEvery end
  else if String.eqb (Kind s) KindCron then
    if String.eqb (TrimSpace (Expr s)) "" then inl ErrExpr
    else _ ←? parseCron (Expr s) (TZ s); inr ()
  else inl (ErrKind (Kind s)).

(** ** Matching *)

Definition match_ (m : fieldMatcher) (v : Z) : bool := fm_any m || bool_decide (v ∈ fm_set m).

Definition matches (s : cronSpec) (t : Time) : bool :=
  let f := fields_in (sp_loc s) t in
  if negb (match_ (sp_minute s) (c_min f)) || negb (match_ (sp_hour s) (c_hour f))
     || negb (match_ (sp_month s) (c_month f))
  then false
  else
    let dom := match_ (sp_day s) (c_day f) in
    let dow := match_ (sp_weekday s) (c_weekday f) in
    if dayAny s && weekdayAny s then true
    else if dayAny s then dow
    else if weekdayAny s then dom
    else dom || dow.

Fixpoint next_loop (fuel : nat) (s : cronSpec) (cur limit : Time) : option Time :=
  match fuel with
  | O => None
  | S fuel =>
      if cur <? limit then
        if matches s cur then Some cur else next_loop fuel s (cur + Minute) limit
      else None
  end.

Definition next_start (after : Time) : Time := Truncate after Minute + Minute.
Definition next_limit (s : cronSpec) (after : Time) : Time := AddYears (sp_loc s) (next_start after) 5.

(** One step per minute of the search window. *)
Definition next (s : cronSpec) (after : Time) : option Time :=
  let cur := next_start after in
  let limit := next_limit s after in
  next_loop (Z.to_nat ((limit - cur) / Minute + 1)) s cur limit.

(** [inr None] is the nil pointer: no further run. *)
Definition NextRun (s : Schedule) (after : Time) : SchedErr + option Z :=
  _ ←? ValidateSchedule s;
  if String.eqb (Kind s) KindAt then
    let at_ := default 0 (AtMS s) in
    if at_ <=? UnixMilli after then inr None else inr (Some at_)
  else if String.eqb (Kind s) KindEvery then
    inr (Some (wrapInt64 (UnixMilli after + default 0 (EveryMS s))))
  else if String.eqb (Kind s) KindCron then
    spec ←? parseCron (Expr s) (TZ s);
    match next spec after with
    | None => inl ErrHorizon
    | Some t => inr (Some (UnixMilli t))
    end
  else inr None.

(** ** The next run after an execution (service.go) *)

(** [local.Format("2006-01-02T15:04")]: the wall clock to the minute. *)
Definition cronWallKey (s : Schedule) (at_ : Time) : Z * Z * Z * Z * Z :=
  let loc := default UTC (LoadLocation (TZ s)) in
  let f := fields_in loc at_ in
  (c_year f, c_month f, c_day f, c_hour f, c_min f).

(** The loop that skips a repeated wall-clock minute; [None] when the fuel ends. *)
Fixpoint skip_repeat (fuel : nat) (s : Schedule) (previousKey : Z * Z * Z * Z * Z) (next : option Z)
    : option (SchedErr + option Z) :=
  match next with
  | Some ms =>
      if decide (cronWallKey s (ofUnixMilli ms) = previousKey) then
        match fuel with
        | O => None
        | S fuel =>
            match NextRun s (ofUnixMilli ms) with
            | inl e => Some (inl e)
            | inr next => skip_repeat fuel s previousKey next
            end
        end
      else Some (inr (Some ms))
  | None => Some (inr None)
  end.

(** Two instants with one wall-clock minute are less than two offsets and a
    minute apart: more steps than that distance has minutes. *)
Definition repeatFuel : nat := 3200.

(** int64 division truncates towards zero. *)
Definition nextRecurringAfter (s : Schedule) (after : Time) (previousScheduledMS : Z)
    : option (SchedErr + option Z) :=
  match String.eqb (Kind s) KindEvery, EveryMS s with
  | true, Some every =>
      let next := wrapInt64 (previousScheduledMS + every) in
      if next <=? UnixMilli after then
        let missed := wrapInt64 (Z.quot (wrapInt64 (UnixMilli after - next)) every + 1) in
        Some (inr (Some (wrapInt64 (next + wrapInt64 (missed * every)))))
      else Some (inr (Some next))
  | _, _ =>
      match NextRun s after with
      | inl e => Some (inl e)
      | inr None => Some (inr None)
      | inr (Some n) =>
          if negb (String.eqb (Kind s) KindCron) || (previousScheduledMS =? 0) then Some (inr (Some n))
          else skip_repeat repeatFuel s (cronWallKey s (ofUnixMilli previousScheduledMS)) (Some n)
      end
  end.

(** ** The search for the next occurrence *)

Lemma next_loop_spec s fuel cur limit :
  (limit - cur) / Minute + 1 ≤ Z.of_nat fuel →
  match next_loop fuel s cur limit with
  | Some t => ∃ k, 0 ≤ k ∧ t = cur + k * Minute ∧ t < limit ∧ matches s t = true ∧
                   ∀ i, 0 ≤ i < k → matches s (cur + i * Minute) = false
  | None => ∀ i, 0 ≤ i → cur + i * Minute < limit → matches s (cur + i * Minute) = false
  end.
Proof.
  assert (0 < Minute) as HM by done.
  revert cur. induction fuel as [|fuel IH]; intros cur Hf; simpl.
  { intros i Hi Hlt. exfalso. assert (0 ≤ (limit - cur) / Minute) by (apply Z.div_pos; nia). lia. }
  destruct (Z.ltb_spec cur limit) as [Hlt|Hge]; [|intros i Hi Hc; exfalso; nia].
  destruct (matches s cur) eqn:E.
  { exists 0. split_and!; try done; intros; lia. }
  specialize (IH (cur + Minute)).
  assert ((limit - (cur + Minute)) / Minute = (limit - cur) / Minute - 1) as Ediv.
  { replace (limit - (cur + Minute)) with (limit - cur + (-1) * Minute) by lia. rewrite Z.div_add by lia. lia. }
  specialize (IH ltac:(lia)).
  assert (∀ i, 0 ≤ i → (i ≠ 0 → matches s (cur + Minute + (i - 1) * Minute) = false) →
    matches s (cur + i * Minute) = false) as Hstep.
  { intros i Hi Hm. destruct (decide (i = 0)) as [->|Hne]; [by rewrite Z.mul_0_l, Z.add_0_r|].
    rewrite <-Hm by done. f_equal. lia. }
  destruct (next_loop fuel s (cur + Minute) limit) as [t|].
  - destruct IH as (k & Hk & -> & Hl & Hm & Hno). exists (k + 1). split_and!; [lia|lia|lia|done|].
    intros i Hi. apply Hstep; [lia|]. intros ?. apply Hno. lia.
  - intros i Hi Hc. apply Hstep; [lia|]. intros ?. apply IH; lia.
Qed.

(** Whole minutes after an instant are the steps of the search. *)
Lemma next_start_spec after :
  after < next_start after ∧ next_start after mod Minute = 0 ∧
  ∀ u, u mod Minute = 0 → after < u → ∃ i, 0 ≤ i ∧ u = next_start after + i * Minute.
Proof.
  unfold next_start, Truncate. assert (0 < Minute) as HM by done.
  pose proof (Z.mod_pos_bound after Minute HM). pose proof (Z.div_mod after Minute ltac:(lia)) as E.
  split_and!; [lia| |].
  - replace (after - after mod Minute + Minute) with ((after / Minute + 1) * Minute) by lia. apply Z_mod_mult.
  - intros u Hu Hlt. pose proof (Z.div_mod u Minute ltac:(lia)) as Eu. rewrite Hu in Eu.
    exists (u / Minute - after / Minute - 1). split; [|lia].
    assert (after / Minute < u / Minute); [|lia]. nia.
Qed.

(** C40. The next occurrence of a cron expression is the first one: [next]
    returns a whole minute after the given instant that matches, no earlier
    whole minute after it matches, and it finds none only if no whole minute of
    the five-year window does. *)
Theorem next_first s after :
  match next s after with
  | Some t => t mod Minute = 0 ∧ after < t < next_limit s after ∧ matches s t = true ∧
              ∀ u, u mod Minute = 0 → after < u < t → matches s u = false
  | None => ∀ u, u mod Minute = 0 → after < u < next_limit s after → matches s u = false
  end.
Proof.
  assert (0 < Minute) as HM by done.
  destruct (next_start_spec after) as (Hgt & Hmod & Hsteps). unfold next.
  pose proof (next_loop_spec s (Z.to_nat ((next_limit s after - next_start after) / Minute + 1))
    (next_start after) (next_limit s after) ltac:(lia)) as Hl.
  destruct (next_loop _ _ _ _) as [t|].
  - destruct Hl as (k & Hk & -> & Hlt & Hm & Hno). split_and!; [|nia|done|done|].
    { by rewrite Z_mod_plus_full. }
    intros u Hu Hr. destruct (Hsteps u Hu) as (i & Hi & ->); [lia|]. apply Hno. nia.
  - intros u Hu Hr. destruct (Hsteps u Hu) as (i & Hi & ->); [lia|]. apply Hl; lia.
Qed.

(** ** Skipping a repeated minute ends *)

Lemma fields_local loc t1 t2 :
  let f1 := fields_in loc t1 in let f2 := fields_in loc t2 in
  (c_year f1, c_month f1, c_day f1, c_hour f1, c_min f1)
  = (c_year f2, c_month f2, c_day f2, c_hour f2, c_min f2) →
  - 60 < (t1 / Second + offset loc (t1 / Second)) - (t2 / Second + offset loc (t2 / Second)) < 60.
Proof.
  unfold fields_in. set (l1 := t1 / Second + _). set (l2 := t2 / Second + _).
  pose proof (days_civil_inverse (l1 / 86400)) as D1. pose proof (days_civil_inverse (l2 / 86400)) as D2.
  destruct (civil_from_days (l1 / 86400)) as [[y1 m1] d1], (civil_from_days (l2 / 86400)) as [[y2 m2] d2].
  simpl. intros [= -> -> -> Hh Hm]. clearbody l1 l2.
  assert (l1 / 86400 = l2 / 86400) as Ed by congruence.
  pose proof (Z.div_mod l1 86400 ltac:(lia)). pose proof (Z.div_mod l2 86400 ltac:(lia)).
  set (s1 := l1 mod 86400) in *. set (s2 := l2 mod 86400) in *.
  pose proof (Z.div_mod s1 3600 ltac:(lia)). pose proof (Z.div_mod s2 3600 ltac:(lia)).
  pose proof (Z.div_mod (s1 mod 3600) 60 ltac:(lia)). pose proof (Z.div_mod (s2 mod 3600) 60 ltac:(lia)).
  pose proof (Z.mod_pos_bound (s1 mod 3600) 60 ltac:(lia)). pose proof (Z.mod_pos_bound (s2 mod 3600) 60 ltac:(lia)).
  lia.
Qed.

Definition repeatBound : Z := (61 + 2 * maxOffset) * 1000.

Lemma wall_key_close s m1 m2 :
  cronWallKey s (ofUnixMilli m1) = cronWallKey s (ofUnixMilli m2) → m1 - m2 < repeatBound.
Proof.
  unfold cronWallKey. set (loc := default UTC (LoadLocation (TZ s))).
  assert (bounded_zone loc) as Hb.
  { unfold loc. destruct (LoadLocation (TZ s)) as [l|] eqn:E; [by eapply LoadLocation_bounded|].
    intros sec. unfold offset, UTC, fixed, maxOffset. simpl. lia. }
  intros Hk. pose proof (fields_local loc _ _ Hk) as Hl.
  pose proof (Hb (ofUnixMilli m1 / Second)). pose proof (Hb (ofUnixMilli m2 / Second)).
  assert (∀ m, ofUnixMilli m / Second = m / 1000) as Hs.
  { intros m. unfold ofUnixMilli, Second. rewrite Z.mul_comm, (Z.mul_comm 1000).
    apply Z.div_mul_cancel_l; unfold Millisecond; lia. }
  rewrite !Hs in *. unfold repeatBound, maxOffset in *.
  pose proof (Z.div_mod m1 1000 ltac:(lia)). pose proof (Z.div_mod m2 1000 ltac:(lia)).
  pose proof (Z.mod_pos_bound m1 1000 ltac:(lia)). pose proof (Z.mod_pos_bound m2 1000 ltac:(lia)). lia.
Qed.

Lemma milli_minute t : t mod Minute = 0 → ofUnixMilli (UnixMilli t) = t.
Proof.
  intros Hm. unfold ofUnixMilli, UnixMilli. pose proof (Z.div_mod t Minute ltac:(done)) as E. rewrite Hm in E.
  rewrite E. replace (Minute * (t / Minute) + 0) with ((60000 * (t / Minute)) * Millisecond) by (unfold Minute, Second; lia).
  by rewrite Z.div_mul.
Qed.

(** A cron occurrence is a whole minute, a minute or more after the last one. *)
Lemma NextRun_cron s ms n :
  Kind s = KindCron → NextRun s (ofUnixMilli ms) = inr (Some n) →
  ofUnixMilli n mod Minute = 0 ∧ ms < n ∧ (ofUnixMilli ms mod Minute = 0 → ms + 60000 ≤ n).
Proof.
  intros HK. unfold NextRun. rewrite HK. simpl. intros (_ & _ & Hn)%rbind_inr.
  apply rbind_inr in Hn as (spec & _ & Hn). pose proof (next_first spec (ofUnixMilli ms)) as Hf.
  destruct (next spec (ofUnixMilli ms)) as [t|]; [|done]. injection Hn as <-.
  destruct Hf as (Hmin & [Hgt _] & _). rewrite milli_minute by done.
  pose proof (milli_minute t Hmin) as Et. unfold ofUnixMilli, Millisecond in *.
  split_and!; [done|lia|]. intros Hm.
  pose proof (Z.div_mod t Minute ltac:(done)) as E1. pose proof (Z.div_mod (ms * 1000000) Minute ltac:(done)) as E2.
  rewrite Hmin in E1. rewrite Hm in E2. unfold Minute, Second, Millisecond in *. nia.
Qed.

Lemma skip_repeat_total s key base ms fuel :
  Kind s = KindCron → cronWallKey s (ofUnixMilli base) = key →
  base ≤ ms → ofUnixMilli ms mod Minute = 0 → (repeatBound - (ms - base)) < 60000 * Z.of_nat fuel →
  is_Some (skip_repeat fuel s key (Some ms)).
Proof.
  intros HK Hb. revert ms. induction fuel as [|fuel IH]; intros ms Hms Hmin Hf; cbn [skip_repeat].
  all: destruct (decide (cronWallKey s (ofUnixMilli ms) = key)) as [E|]; [|eauto].
  all: pose proof (wall_key_close s ms base ltac:(congruence)).
  { lia. }
  destruct (NextRun s (ofUnixMilli ms)) as [e|[n|]] eqn:EN; [eauto| |by destruct fuel; eauto].
  destruct (NextRun_cron s ms n HK EN) as (? & ? & Hstep). specialize (Hstep Hmin).
  apply IH; [lia|done|lia].
Qed.

(** The computation of the next run always ends. *)
Lemma nextRecurringAfter_total s after prev : is_Some (nextRecurringAfter s after prev).
Proof.
  unfold nextRecurringAfter.
  assert (is_Some (match NextRun s after with
    | inl e => Some (inl e)
    | inr None => Some (inr None)
    | inr (Some n) =>
        if negb (String.eqb (Kind s) KindCron) || (prev =? 0) then Some (inr (Some n))
        else skip_repeat repeatFuel s (cronWallKey s (ofUnixMilli prev)) (Some n)
    end)) as Hother.
  { destruct (NextRun s after) as [e|[n|]] eqn:EN; [eauto| |eauto].
    destruct (String.eqb_spec (Kind s) KindCron) as [HK|]; [|eauto]. destruct (prev =? 0); [eauto|]. simpl negb. cbn [orb].
    assert (3200 ≤ Z.of_nat repeatFuel) as Hfuel by done. generalize dependent repeatFuel. intros fuel Hfuel.
    destruct fuel as [|fuel]; [lia|]. cbn [skip_repeat].
    destruct (decide _) as [E|]; [|eauto].
    destruct (NextRun s (ofUnixMilli n)) as [e|[n2|]] eqn:EN2; [eauto| |destruct fuel; eauto].
    destruct (NextRun_cron s n n2 HK EN2) as (? & ? & _).
    apply (skip_repeat_total s _ n); [done|done|lia|done|]. unfold repeatBound, maxOffset. lia. }
  destruct (String.eqb (Kind s) KindEvery); [|done].
  destruct (EveryMS s) as [ev|]; [|done]. destruct (_ <=? _); eauto.
Qed.

(** A recurring interval keeps its phase: after an execution that was
    scheduled for [prev], the next run is the first instant after [now] that is
    a positive number of whole periods after [prev], as long as the sums stay
    within 64 bits. *)
Theorem every_keeps_phase s every now prev :
  Kind s = KindEvery → EveryMS s = Some every → 0 < every →
  0 ≤ prev → 0 ≤ UnixMilli now → prev + every < 2 ^ 62 → UnixMilli now + every < 2 ^ 62 →
  ∃ next k, nextRecurringAfter s now prev = Some (inr (Some next)) ∧
    1 ≤ k ∧ next = prev + k * every ∧ UnixMilli now < next ∧
    ∀ k', 1 ≤ k' → UnixMilli now < prev + k' * every → next ≤ prev + k' * every.
Proof.
  intros HK HE Hev Hp Hn Hb1 Hb2. unfold nextRecurringAfter. rewrite HK, HE, String.eqb_refl.
  set (ms := UnixMilli now) in *.
  assert (∀ z, - 2 ^ 62 ≤ z < 2 ^ 63 → wrapInt64 z = z) as W by (intros; apply wrapInt64_id; unfold is_int64; lia).
  rewrite (W (prev + every)) by lia. destruct (Z.leb_spec (prev + every) ms) as [Hle|Hgt].
  - rewrite (W (ms - (prev + every))) by lia. rewrite Z.quot_div_nonneg by lia.
    set (q := (ms - (prev + every)) / every).
    pose proof (Z.div_mod (ms - (prev + every)) every ltac:(lia)) as Ed. fold q in Ed.
    pose proof (Z.mod_pos_bound (ms - (prev + every)) every Hev).
    assert (0 ≤ q) by (apply Z.div_pos; lia). assert (q ≤ ms - (prev + every)) by nia.
    rewrite (W (q + 1)) by lia. rewrite (W ((q + 1) * every)) by nia. rewrite W by nia.
    exists (prev + every + (q + 1) * every), (q + 2). split_and!; [done|lia|lia|nia|].
    intros k' Hk' Hlt. assert (q + 2 ≤ k') by nia. nia.
  - exists (prev + every), 1. split_and!; [done|lia|lia|lia|]. intros k' Hk' _. nia.
Qed.

End Schedule.

(** A concrete environment: a local zone that is set back from +02:00 to +01:00
    at second 100,000, UTC, and the zone again under a name. *)
Definition autumn : Location :=
  mkLocation (λ sec, if sec <? 100000 then (7200, - 2 ^ 63, 100000) else (3600, 100000, 2 ^ 63)).

Lemma autumn_bounded : bounded_zone autumn.
Proof. intros sec. unfold offset, autumn. simpl. destruct (sec <? 100000); simpl; unfold maxOffset; lia. Qed.

Lemma UTC_bounded : bounded_zone UTC.
Proof. intros sec. unfold offset, UTC, fixed, maxOffset. simpl. lia. Qed.

Definition autumn_load (s : string) : option Location :=
  if String.eqb s "" then Some UTC else if String.eqb s "Autumn" then Some autumn else None.

Lemma autumn_load_bounded name loc : autumn_load name = Some loc → bounded_zone loc.
Proof.
  unfold autumn_load. destruct (String.eqb name ""); [intros [= <-]; apply UTC_bounded|].
  destruct (String.eqb name "Autumn"); [intros [= <-]; apply autumn_bounded|done].
Qed.

Definition autumn_env : CronEnv := {|
  Local := autumn;
  LoadLocation := autumn_load;
  LoadLocation_empty := eq_refl;
  Local_bounded := autumn_bounded;
  LoadLocation_bounded := autumn_load_bounded;
  ToUpper := ToUpper_ascii;
  ToUpper_is_ascii := λ s _, eq_refl |}.

Lemma every_keeps_phase_witness :
  ∃ next k, @nextRecurringAfter autumn_env (mkSchedule KindEvery None (Some 60000) "" "") (ofUnixMilli 250000) 30000
      = Some (inr (Some next)) ∧
    1 ≤ k ∧ next = 30000 + k * 60000 ∧ 250000 < next ∧ next = 270000.
Proof.
  destruct (@every_keeps_phase autumn_env (mkSchedule KindEvery None (Some 60000) "" "") 60000
    (ofUnixMilli 250000) 30000) as (next & k & E & Hk & Hn & Hgt & Hleast); try (reflexivity || (vm_compute; congruence)).
  exists next, k. change (UnixMilli (ofUnixMilli 250000)) with 250000 in *. split_and!; try assumption.
  specialize (Hleast 4). lia.
Defined.
