(* ===== verification/CronField.v ===== *)
(** * The grammar of cron fields (src/internal/cron/schedule.go)

    The textual form of a field and what it selects: [parseField] of a printed
    field is the set its grammar denotes. *)

From S2P Require Import Prelude GoText GoLib CronSchedule.
From Stdlib Require Import Ascii.
#[local] Open Scope string_scope.
#[local] Open Scope list_scope.
#[local] Open Scope Z_scope.

(** ** Grammar *)

Inductive base := BStar | BVal (a : Z) | BRange (a b : Z).
Record item := mkItem { i_base : base; i_step : option Z }.

Definition print_base (b : base) : string :=
  match b with BStar => "*" | BVal a => Itoa a | BRange a b => Itoa a +:+ String "-" (Itoa b) end.
Definition print_item (i : item) : string :=
  match i_step i with None => print_base (i_base i) | Some n => print_base (i_base i) +:+ String "/" (Itoa n) end.
Definition print_field (items : list item) : string := Join (map print_item items) ",".

(** First value, last value and period of an item. *)
Definition item_bounds (min max : Z) (i : item) : Z * Z :=
  match i_base i with
  | BStar => (min, max)
  | BVal a => (a, match i_step i with Some _ => max | None => a end)
  | BRange a b => (a, b)
  end.

Definition selects (min max : Z) (i : item) (v : Z) : Prop :=
  let '(a, b) := item_bounds min max i in a ≤ v ≤ b ∧ (v - a) mod default 1 (i_step i) = 0.

Definition item_ok (min max : Z) (i : item) : Prop :=
  match i_base i with
  | BStar => True
  | BVal a => min ≤ a ≤ max
  | BRange a b => min ≤ a ∧ a ≤ b ∧ b ≤ max
  end ∧ match i_step i with None => True | Some n => 1 ≤ n < 2 ^ 62 end.

Definition norm (sunday : bool) (v : Z) : Z := if sunday && (v =? 7) then 0 else v.

(** ** Characters *)

(** The characters of a printed field. *)
Definition plain (c : ascii) : bool :=
  is_digit c || Ascii.eqb c "*" || Ascii.eqb c "-" || Ascii.eqb c "/" || Ascii.eqb c ",".

Fixpoint all_plain (s : string) : bool :=
  match s with "" => true | String c s => plain c && all_plain s end.

Lemma plain_facts c :
  plain c = true → byteZ c < 128 ∧ IsSpace (byteZ c) = false ∧ upper_ascii c = c.
Proof. by destruct c as [[] [] [] [] [] [] [] []]. Qed.

Lemma all_plain_app s t : all_plain (s +:+ t) = all_plain s && all_plain t.
Proof. induction s as [|c s IH]; simpl; [done|]. by rewrite IH, andb_assoc. Qed.

Lemma digits_plain s : all_digits s = true → all_plain s = true.
Proof.
  induction s as [|c s IH]; simpl; [done|]. intros [Hc Hs]%andb_true_iff.
  unfold plain. by rewrite Hc, IH.
Qed.

Lemma plain_upper s : all_plain s = true → is_ascii s = true ∧ ToUpper_ascii s = s.
Proof.
  induction s as [|c s IH]; [done|]. simpl. intros [Hc Hs]%andb_true_iff.
  destruct (plain_facts c Hc) as (H1 & _ & ->). destruct (IH Hs) as [H2 ->]. split; [|done].
  unfold is_ascii in *. simpl. rewrite H2. destruct (Z.ltb_spec (byteZ c) 128); done || lia.
Qed.

Lemma plain_get s i c : all_plain s = true → String.get i s = Some c → plain c = true.
Proof.
  revert i. induction s as [|d s IH]; intros [|i]; simpl; try done; intros [Hd Hs]%andb_true_iff.
  - by intros [= <-].
  - by apply IH.
Qed.

Lemma get_lt i s : (i < slen s)%nat → ∃ c, String.get i s = Some c.
Proof. revert i. induction s as [|c s IH]; intros [|i]; simpl; try lia; [eauto|]. intros. apply IH. lia. Qed.

Lemma DecodeRune_ascii c s : byteZ c < 128 → DecodeRune (String c s) = (byteZ c, 1%nat).
Proof.
  intros Hc. unfold DecodeRune. destruct (accept2 (byteZ c)) as [lo hi].
  destruct (Z.ltb_spec (byteZ c) 128); [done|lia].
Qed.

Lemma plain_trim s : all_plain s = true → TrimSpace s = s.
Proof.
  intros Hs. unfold TrimSpace.
  assert (TrimLeft_fuel (slen s) s = s) as ->.
  { destruct s as [|c s]; [done|]. pose proof Hs as [Hc _]%andb_true_iff.
    destruct (plain_facts c Hc) as (H1 & H2 & _). cbn [slen String.length TrimLeft_fuel].
    by rewrite DecodeRune_ascii, H2. }
  destruct s as [|c s]; [done|]. cbn [slen String.length TrimRight_fuel].
  unfold DecodeLastRune. change (slen (String c s)) with (S (slen s)). cbn zeta.
  destruct (get_lt (slen s) (String c s)) as [d Hd]; [simpl; lia|].
  unfold sget. rewrite Hd. cbn [default]. apply (plain_get _ _ _ Hs) in Hd.
  destruct (plain_facts d Hd) as (H1 & H2 & _). cbn [from_option id].
  destruct (Z.ltb_spec (byteZ d) 128); [|lia]. by rewrite H2.
Qed.

Lemma Itoa_plain n : 0 ≤ n → all_plain (Itoa n) = true.
Proof. intros Hn. apply digits_plain. by apply Itoa_digits. Qed.

(** ** Splitting *)

(** ** The range loop *)

Lemma range_loop_spec fuel v end_ step sun set :
  0 ≤ v → 1 ≤ step < 2 ^ 62 → end_ < 2 ^ 62 → end_ - v + 1 ≤ Z.of_nat fuel →
  ∃ set', range_loop fuel v end_ step sun set = Some set' ∧
    ∀ x, x ∈ set' ↔ x ∈ set ∨ ∃ y, v ≤ y ≤ end_ ∧ (y - v) mod step = 0 ∧ x = norm sun y.
Proof.
  revert v set. induction fuel as [|fuel IH]; intros v set Hv Hs He Hf; simpl.
  - destruct (Z.ltb_spec end_ v); [|lia]. exists set. split; [done|]. intros x.
    split; [auto|]. intros [?|(y & ? & _)]; [done|lia].
  - destruct (Z.ltb_spec end_ v) as [Hlt|Hge].
    { exists set. split; [done|]. intros x. split; [auto|]. intros [?|(y & ? & _)]; [done|lia]. }
    rewrite wrapInt64_id by (unfold is_int64; lia). fold (norm sun v).
    destruct (IH (v + step) ({[norm sun v]} ∪ set)) as (set' & -> & Hset); [lia..|].
    exists set'. split; [done|]. intros x. rewrite Hset, elem_of_union, elem_of_singleton. split.
    + intros [[->|?]|(y & Hy & Hm & ->)]; [right; exists v; rewrite Z.sub_diag|by left|right; exists y].
      * by split_and!.
      * split_and!; [lia|lia| |done].
        replace (y - v) with (y - (v + step) + 1 * step) by lia. by rewrite Z_mod_plus_full.
    + intros [?|(y & Hy & Hm & ->)]; [by left; right|].
      destruct (decide (y = v)) as [->|Hne]; [by left; left|]. right. exists y.
      assert (step ≤ y - v).
      { destruct (Z.lt_ge_cases (y - v) step); [|done]. rewrite Z.mod_small in Hm by lia. lia. }
      split_and!; [lia|lia| |done].
      replace (y - (v + step)) with (y - v + (-1) * step) by lia. by rewrite Z_mod_plus_full.
Qed.

Lemma range_loop_stop fuel v end_ step sun set : end_ < v → range_loop fuel v end_ step sun set = Some set.
Proof. intros H. destruct fuel; simpl; destruct (Z.ltb_spec end_ v); done || lia. Qed.

Lemma range_loop_step fuel v end_ step sun set :
  v ≤ end_ →
  range_loop (S fuel) v end_ step sun set
  = range_loop fuel (wrapInt64 (v + step)) end_ step sun ({[norm sun v]} ∪ set).
Proof. intros H. simpl. destruct (Z.ltb_spec end_ v); done || lia. Qed.

(** With a step within 60 of the largest [int] the sum wraps; the loop still ends. *)
Lemma range_loop_wraps fuel v end_ step sun set :
  2 ^ 63 - 60 ≤ step < 2 ^ 63 → end_ ≤ 59 → step - 2 ^ 63 ≤ v ≤ 59 →
  v + (2 ^ 63 - step) + 2 ≤ Z.of_nat fuel → is_Some (range_loop fuel v end_ step sun set).
Proof.
  intros Hs He. revert v set. induction (lt_wf fuel) as [fuel _ IH]. intros v set Hv Hf.
  destruct fuel as [|fuel]; [lia|].
  destruct (Z.lt_ge_cases end_ v); [rewrite range_loop_stop by done; eauto|].
  rewrite range_loop_step by done.
  destruct (Z.lt_ge_cases (v + step) (2 ^ 63)) as [Hno|Hov].
  - rewrite wrapInt64_id by (unfold is_int64; lia). rewrite range_loop_stop by lia. eauto.
  - assert (wrapInt64 (v + step) = v + step - 2 ^ 64) as ->.
    { unfold wrapInt64. replace (v + step + 2 ^ 63) with (v + step - 2 ^ 63 + 1 * 2 ^ 64) by lia.
      rewrite Z_mod_plus_full, Z.mod_small; lia. }
    destruct fuel as [|fuel]; [lia|].
    destruct (Z.lt_ge_cases end_ (v + step - 2 ^ 64)); [rewrite range_loop_stop by done; eauto|].
    rewrite range_loop_step, wrapInt64_id by (done || unfold is_int64; lia).
    apply IH; lia.
Qed.

(** Every field's loop ends. *)
Lemma range_loop_total v end_ step sun set :
  0 ≤ v → end_ ≤ 59 → 1 ≤ step < 2 ^ 63 → is_Some (range_loop rangeFuel v end_ step sun set).
Proof.
  intros Hv He Hs. destruct (Z.lt_ge_cases end_ v) as [Hlt|Hge]; [rewrite range_loop_stop by done; eauto|].
  destruct (Z.lt_ge_cases step (2 ^ 62)) as [Hsmall|Hbig].
  - destruct (range_loop_spec rangeFuel v end_ step sun set) as (set' & -> & _); [lia..|unfold rangeFuel; lia|eauto].
  - destruct (Z.lt_ge_cases step (2 ^ 63 - 60)).
    + change rangeFuel with (S 299). rewrite range_loop_step by done.
      rewrite wrapInt64_id by (unfold is_int64; lia). rewrite range_loop_stop by lia. eauto.
    + apply range_loop_wraps; [lia|lia|lia|unfold rangeFuel; lia].
Qed.

(** ** Printed fields *)

Section Fields.
Context `{CronEnv}.

Definition names_ok (names : list (string * Z)) : Prop := Forall (λ p, all_digits p.1 = false) names.

Lemma monthNames_ok : names_ok monthNames.
Proof. repeat constructor. Qed.
Lemma weekdayNames_ok : names_ok weekdayNames.
Proof. repeat constructor. Qed.

Lemma assoc_digits names s : names_ok names → all_digits s = true → assoc names s = None.
Proof.
  induction 1 as [|[n v] names Hn _ IH]; intros Hs; simpl in *; [done|].
  destruct (String.eqb_spec n s) as [->|]; [congruence|]. by apply IH.
Qed.

Lemma ToUpper_plain s : all_plain s = true → ToUpper s = s.
Proof. intros Hs. destruct (plain_upper s Hs). by rewrite ToUpper_is_ascii. Qed.

Lemma parse_value a min max names :
  0 ≤ min → min ≤ a ≤ max → max < 2 ^ 62 → names_ok names → parseFieldValue (Itoa a) min max names = inr a.
Proof.
  intros. unfold parseFieldValue. destruct (Itoa_digits a) as (Hd & _ & _); [lia|].
  rewrite ToUpper_plain, assoc_digits, Atoi_Itoa by (done || lia || by apply digits_plain).
  destruct (Z.ltb_spec a min), (Z.ltb_spec max a); done || lia.
Qed.

Lemma base_facts min max b :
  0 ≤ min →
  match b with BStar => True | BVal a => min ≤ a ≤ max | BRange a b => min ≤ a ∧ a ≤ b ∧ b ≤ max end →
  all_plain (print_base b) = true ∧ ContainsByte (print_base b) "/" = false ∧
  ContainsByte (print_base b) "," = false ∧ print_base b ≠ "".
Proof.
  intros Hm. destruct b as [|a|a b]; intros Hb; simpl; [done| |].
  - rewrite Itoa_plain, !Itoa_contain by (done || lia). destruct (Itoa_digits a); [lia|]. naive_solver.
  - rewrite all_plain_app, !ContainsByte_app. simpl. rewrite !Itoa_plain, !Itoa_contain by (done || lia).
    split_and!; [done..|]. by destruct (Itoa a).
Qed.

Lemma splitStep_print min max i :
  0 ≤ min → item_ok min max i → splitStep (print_item i) = inr (print_base (i_base i), default 1 (i_step i)).
Proof.
  intros Hm [Hb Hs]. destruct (base_facts min max (i_base i) Hm Hb) as (_ & Hc & _). unfold splitStep, print_item.
  destruct (i_step i) as [n|]; simpl.
  - rewrite Split_app, (Split_none (Itoa n)) by (done || apply Itoa_contain; done || lia).
    rewrite Atoi_Itoa by lia. destruct (Z.leb_spec n 0); done || lia.
  - by rewrite Split_none.
Qed.

Lemma itemBounds_print min max names i :
  0 ≤ min → max < 2 ^ 62 → names_ok names → item_ok min max i →
  itemBounds (print_item i) (print_base (i_base i)) min max names = inr (item_bounds min max i).
Proof.
  intros Hm HM Hn [Hb Hs]. unfold itemBounds, item_bounds, print_item.
  destruct (i_base i) as [|a|a b]; cbn [print_base]; [done| |].
  - destruct (Itoa_digits a) as (Hd & _ & Hne); [lia|].
    destruct (String.eqb_spec (Itoa a) "*") as [E|_]; [by rewrite E in Hd|].
    rewrite (Itoa_contain a "-"), parse_value by (done || lia). simpl. do 2 f_equal.
    destruct (i_step i) as [n|]; [|by rewrite Itoa_contain by (done || lia)].
    rewrite ContainsByte_app. simpl. by rewrite orb_true_r.
  - destruct (String.eqb_spec (Itoa a +:+ String "-" (Itoa b)) "*") as [E|_].
    { destruct (Itoa_digits a) as (Hd & _ & Hne); [lia|]. destruct (Itoa a) as [|c s]; [done|].
      injection E as -> _. simpl in Hd. done. }
    rewrite ContainsByte_app. simpl. rewrite orb_true_r.
    rewrite Split_app, (Split_none (Itoa b)) by (apply Itoa_contain; done || lia).
    rewrite !parse_value by (done || lia). simpl. destruct (Z.ltb_spec b a); done || lia.
Qed.

Lemma print_item_facts min max i :
  0 ≤ min → item_ok min max i →
  all_plain (print_item i) = true ∧ ContainsByte (print_item i) "," = false ∧ print_item i ≠ "".
Proof.
  intros Hm [Hb Hs]. destruct (base_facts min max (i_base i) Hm Hb) as (Hp & _ & Hc & Hne). unfold print_item.
  destruct (i_step i) as [n|]; [|done]. rewrite all_plain_app, ContainsByte_app. simpl.
  rewrite Hp, Hc, Itoa_plain, Itoa_contain by (done || lia). split_and!; [done..|]. by destruct (print_base (i_base i)).
Qed.

Lemma selects_range min max i v :
  item_ok min max i → min ≤ max →
  selects min max i v → min ≤ v ≤ max.
Proof.
  intros [Hb _] Hm. unfold selects, item_bounds. destruct (i_base i); simpl; [|destruct (i_step i)|]; lia.
Qed.

Lemma items_loop_print min max names sun items set :
  0 ≤ min → max ≤ 59 → names_ok names → Forall (item_ok min max) items →
  ∃ set', items_loop (map print_item items) min max names sun set = inr set' ∧
    ∀ x, x ∈ set' ↔ x ∈ set ∨ ∃ i y, i ∈ items ∧ selects min max i y ∧ x = norm sun y.
Proof.
  intros Hm HM Hn Hok. revert set. induction Hok as [|i items Hi Hok IH]; intros set.
  { exists set. split; [done|]. intros x. split; [auto|]. intros [?|(i & y & Hin & _)]; [done|set_solver]. }
  cbn [map items_loop]. destruct (print_item_facts min max i Hm Hi) as (_ & _ & Hne).
  destruct (String.eqb_spec (print_item i) ""); [done|].
  rewrite (splitStep_print min max) by done. cbn [rbind]. rewrite itemBounds_print by (done || lia). cbn [rbind].
  destruct (item_bounds min max i) as [a b] eqn:Eb.
  assert (0 ≤ a ∧ b ≤ 59 ∧ 1 ≤ default 1 (i_step i) < 2 ^ 62) as (Ha & Hb & Hst).
  { destruct Hi as [Hbase Hs]. unfold item_bounds in Eb.
    destruct (i_base i), (i_step i); simplify_eq/=; split_and!; lia. }
  destruct (range_loop_spec rangeFuel a b (default 1 (i_step i)) sun set) as (set1 & -> & H1);
    [lia|lia|lia|unfold rangeFuel; lia|].
  destruct (IH set1) as (set' & -> & H2). exists set'. split; [done|]. intros x. rewrite H2, H1.
  assert (∀ y, selects min max i y ↔ a ≤ y ≤ b ∧ (y - a) mod default 1 (i_step i) = 0) as Hsel.
  { intros y. unfold selects. by rewrite Eb. }
  split.
  - intros [[?|(y & ? & ? & ->)]|(i' & y & ? & ? & ->)]; [by left|right|right].
    + exists i, y. split_and!; [left|by apply Hsel|done].
    + exists i', y. split_and!; [by right|done|done].
  - intros [?|(i' & y & Hin & Hs & ->)]; [by left; left|]. apply elem_of_cons in Hin as [->|Hin].
    + left. right. exists y. apply Hsel in Hs as [? ?]. done.
    + right. eauto.
Qed.

(** The first value of an item is selected. *)
Lemma selects_first min max i : item_ok min max i → min ≤ max → ∃ y, selects min max i y.
Proof.
  intros [Hb Hs] Hm. destruct (item_bounds min max i) as [a b] eqn:E. exists a. unfold selects. rewrite E, Z.sub_diag.
  split; [|by destruct (default 1 (i_step i))]. unfold item_bounds in E.
  destruct (i_base i), (i_step i); simplify_eq/=; lia.
Qed.

(** Reading a printed field: a list of items (a star, a value or a range,
    each with an optional step) is parsed to exactly the values its grammar
    denotes, with 7 standing for Sunday where asked, whatever names the field
    accepts.  A value with a step runs to the end of the field. *)
Theorem parseField_print items min max names sun :
  0 ≤ min → min ≤ max → max ≤ 59 → names_ok names → items ≠ [] → Forall (item_ok min max) items →
  print_field items ≠ "*" →
  ∃ m, parseField (print_field items) min max names sun = inr m ∧ fm_any m = false ∧
    ∀ v, match_ m v = true ↔ ∃ i y, i ∈ items ∧ selects min max i y ∧ v = norm sun y.
Proof.
  intros Hm Hmm HM Hn Hne Hok Hstar. unfold parseField.
  assert (Forall (λ s, all_plain s = true ∧ ContainsByte s "," = false) (map print_item items)) as Hf.
  { apply Forall_map. eapply Forall_impl; [exact Hok|]. intros i Hi. simpl.
    by destruct (print_item_facts min max i Hm Hi) as (?&?&_). }
  assert (all_plain (print_field items) = true) as Hp.
  { unfold print_field. clear -Hf. induction Hf as [|s ls [Hs _] Hls IH]; [done|].
    destruct ls as [|s2 ls]; [done|]. cbn [Join]. rewrite !all_plain_app, Hs. exact IH. }
  rewrite plain_trim, ToUpper_plain by done. destruct (String.eqb_spec (print_field items) "*"); [done|].
  unfold print_field. rewrite Split_Join; [|by destruct items|eapply Forall_impl; [exact Hf|naive_solver]].
  destruct (items_loop_print min max names sun items ∅ Hm HM Hn Hok) as (set & -> & Hset). cbn [rbind].
  assert (∀ v, v ∈ set ↔ ∃ i y, i ∈ items ∧ selects min max i y ∧ v = norm sun y) as Hs.
  { intros v. rewrite Hset. set_solver. }
  destruct (decide (set = ∅)) as [E|_].
  - exfalso. destruct items as [|i items]; [done|]. inversion Hok as [|? ? Hi _]; subst.
    destruct (selects_first min max i Hi Hmm) as [y Hy].
    assert (norm sun y ∈ (∅ : gset Z)) by (apply Hs; exists i, y; split_and!; [left|done|done]). set_solver.
  - exists (mkMatcher false set). split_and!; [done..|]. intros v. unfold match_. simpl. by rewrite bool_decide_eq_true.
Qed.

End Fields.

Lemma parseField_print_witness :
  ∃ m, @parseField autumn_env "1-5/2,9,30/15" 0 59 [] false = inr m ∧ match_ m 45 = true.
Proof.
  destruct (@parseField_print autumn_env [mkItem (BRange 1 5) (Some 2); mkItem (BVal 9) None; mkItem (BVal 30) (Some 15)]
    0 59 [] false) as (m & E & _ & Hm); [lia|lia|lia|constructor|discriminate| |vm_compute; discriminate|].
  - repeat constructor; simpl; lia.
  - exists m. split; [exact E|]. apply Hm. exists (mkItem (BVal 30) (Some 15)), 45.
    split; [right; right; left|]. split; [|reflexivity]. split; [split; discriminate|reflexivity].
Defined.

(** A step near the largest [int] is accepted and wraps: the minute field
    [59/9223372036854775807], whose only value within the field is 59, also
    selects minute 57, and a value below the field. *)
Theorem step_wraps :
  ∃ m, @parseField autumn_env "59/9223372036854775807" 0 59 [] false = inr m ∧
    match_ m 57 = true ∧ match_ m (-1) = true.
Proof. eexists. split; [vm_compute; reflexivity|]. split; vm_compute; reflexivity. Qed.

(** The repeated hour of a clock change is skipped only for a named zone:
    05:30 of one day occurs twice in the zone [autumn].  After the first of the
    two runs the schedule that names the zone waits for the next day; the same
    schedule in the local zone, which is the same zone, runs again an hour later
    at the same wall clock, because the key of a schedule without a zone is
    computed in UTC. *)
Theorem local_repeat_runs_twice :
  let sched tz := mkSchedule KindCron None None "30 5 * * *" tz in
  let first := 99000000 in
  let second := 102600000 in
  @nextRecurringAfter autumn_env (sched "Autumn") (ofUnixMilli first) first = Some (inr (Some 189000000)) ∧
  @nextRecurringAfter autumn_env (sched "") (ofUnixMilli first) first = Some (inr (Some second)) ∧
  fields_in (@Local autumn_env) (ofUnixMilli first) = fields_in (@Local autumn_env) (ofUnixMilli second).
Proof. split_and!; vm_compute; reflexivity. Qed.
