(* ===== verification/CronService.v ===== *)
(** * The cron service (src/internal/cron/service.go, types.go)

    The scheduler's state under its mutex, one definition per method, and the
    interleavings of methods, dispatches and completing executions as a step
    relation.  Clock readings, fresh ids, the outcome of an executor and whether
    a save to disk succeeds are arguments.  An execution is a goroutine: it is
    in [executing] from its launch until its completion, under the number of its
    cancel function. *)

From S2P Require Import Prelude GoText GoLib CronSchedule.
From Stdlib Require Import Ascii.
#[local] Open Scope string_scope.
#[local] Open Scope list_scope.
#[local] Open Scope Z_scope.

(** ** Data *)

Definition PayloadAgentTurn : string := "agent_turn".
Definition PayloadSystemEvent : string := "system_event".
Definition StatusRunning : string := "running".
Definition StatusOK : string := "ok".
Definition StatusError : string := "error".
Definition StatusSkipped : string := "skipped".
Definition MisfireFireOnce : string := "fire_once".
Definition MisfireSkip : string := "skip".
Definition maxRunHistory : nat := 20.
Definition defaultMaxConcurrent : Z := 2.

Record Payload := mkPayload {
  PKind : string; PMessage : string; SystemEvent : string; SessionKey : string;
  OriginChannel : string; OriginChatID : string; OriginMetadata : list (string * string) }.

Record RunRecord := mkRun {
  RunAtMS : Z; RScheduledForMS : Z; RStatus : string; DurationMS : Z; RError : string;
  RunID : string; RIdempotencyKey : string }.

Record JobState := mkState {
  NextRunAtMS : option Z; LastRunAtMS : option Z; LastScheduledForMS : option Z; LastStatus : string;
  LastError : string; LastIdempotencyKey : string; RunHistory : list RunRecord; Pending : bool }.

Record Job := mkJob {
  ID : string; Name : string; Enabled : bool; JSchedule : Schedule; JPayload : Payload; JState : JobState;
  CreatedAtMS : Z; UpdatedAtMS : Z; DeleteAfterRun : bool; TimeoutMS : Z; MisfirePolicy : string;
  MisfireGraceMS : Z; ScheduledForMS : Z; IdempotencyKey : string }.

Record Update := mkUpdate {
  UName : option string; UEnabled : option bool; USchedule : option Schedule; UMessage : option string;
  UDeleteAfterRun : option bool; UTimeoutMS : option Z; UMisfirePolicy : option string;
  UMisfireGraceMS : option Z }.

Inductive CronErr :=
  | ErrNotFound | ErrProtected | ErrUnbound | ErrActive | ErrLeaseHeld | ErrClosed
  | ErrSave | ErrSched (e : SchedErr) | ErrMsg (msg : string).

Definition lift {A} (m : SchedErr + A) : CronErr + A := match m with inl e => inl (ErrSched e) | inr a => inr a end.

(** [running], [loaded], [dirty], [closed], [maxConcurrent] and [wake] (one
    buffered signal) are the fields of [Service]; [disk] is the content of the
    store file, [executing] the goroutines in flight and [cancelled] the cancel
    functions called. *)
Record Service := mkService {
  jobs : list Job; active : gmap string nat; running : bool; loaded : bool; dirty : bool; closed : bool;
  maxConcurrent : Z; wake : bool; leased : bool; disk : list Job;
  executing : gmap nat Job; cancelled : gset nat; tickets : nat }.

(** ** Field updates *)

Definition with_state (f : JobState → JobState) (j : Job) : Job :=
  mkJob (ID j) (Name j) (Enabled j) (JSchedule j) (JPayload j) (f (JState j)) (CreatedAtMS j) (UpdatedAtMS j)
    (DeleteAfterRun j) (TimeoutMS j) (MisfirePolicy j) (MisfireGraceMS j) (ScheduledForMS j) (IdempotencyKey j).
Definition with_enabled (b : bool) (j : Job) : Job :=
  mkJob (ID j) (Name j) b (JSchedule j) (JPayload j) (JState j) (CreatedAtMS j) (UpdatedAtMS j)
    (DeleteAfterRun j) (TimeoutMS j) (MisfirePolicy j) (MisfireGraceMS j) (ScheduledForMS j) (IdempotencyKey j).
Definition with_policy (timeout : Z) (policy : string) (j : Job) : Job :=
  mkJob (ID j) (Name j) (Enabled j) (JSchedule j) (JPayload j) (JState j) (CreatedAtMS j) (UpdatedAtMS j)
    (DeleteAfterRun j) timeout policy (MisfireGraceMS j) (ScheduledForMS j) (IdempotencyKey j).
Definition with_run (scheduled : Z) (key : string) (j : Job) : Job :=
  mkJob (ID j) (Name j) (Enabled j) (JSchedule j) (JPayload j) (JState j) (CreatedAtMS j) (UpdatedAtMS j)
    (DeleteAfterRun j) (TimeoutMS j) (MisfirePolicy j) (MisfireGraceMS j) scheduled key.
Definition with_times (created updated : Z) (j : Job) : Job :=
  mkJob (ID j) (Name j) (Enabled j) (JSchedule j) (JPayload j) (JState j) created updated
    (DeleteAfterRun j) (TimeoutMS j) (MisfirePolicy j) (MisfireGraceMS j) (ScheduledForMS j) (IdempotencyKey j).
Definition with_id (id : string) (j : Job) : Job :=
  mkJob id (Name j) (Enabled j) (JSchedule j) (JPayload j) (JState j) (CreatedAtMS j) (UpdatedAtMS j)
    (DeleteAfterRun j) (TimeoutMS j) (MisfirePolicy j) (MisfireGraceMS j) (ScheduledForMS j) (IdempotencyKey j).
Definition with_payload_kind (k : string) (j : Job) : Job :=
  let p := JPayload j in
  mkJob (ID j) (Name j) (Enabled j) (JSchedule j)
    (mkPayload k (PMessage p) (SystemEvent p) (SessionKey p) (OriginChannel p) (OriginChatID p) (OriginMetadata p))
    (JState j) (CreatedAtMS j) (UpdatedAtMS j) (DeleteAfterRun j) (TimeoutMS j) (MisfirePolicy j)
    (MisfireGraceMS j) (ScheduledForMS j) (IdempotencyKey j).

Definition st_next (n : option Z) (s : JobState) : JobState :=
  mkState n (LastRunAtMS s) (LastScheduledForMS s) (LastStatus s) (LastError s) (LastIdempotencyKey s) (RunHistory s) (Pending s).
Definition st_status (status err : string) (s : JobState) : JobState :=
  mkState (NextRunAtMS s) (LastRunAtMS s) (LastScheduledForMS s) status err (LastIdempotencyKey s) (RunHistory s) (Pending s).
Definition st_pending (b : bool) (s : JobState) : JobState :=
  mkState (NextRunAtMS s) (LastRunAtMS s) (LastScheduledForMS s) (LastStatus s) (LastError s) (LastIdempotencyKey s) (RunHistory s) b.

Definition set_jobs (js : list Job) (s : Service) : Service :=
  mkService js (active s) (running s) (loaded s) (dirty s) (closed s) (maxConcurrent s) (wake s) (leased s)
    (disk s) (executing s) (cancelled s) (tickets s).
Definition set_dirty (b : bool) (s : Service) : Service :=
  mkService (jobs s) (active s) (running s) (loaded s) b (closed s) (maxConcurrent s) (wake s) (leased s)
    (disk s) (executing s) (cancelled s) (tickets s).
Definition set_disk (d : list Job) (s : Service) : Service :=
  mkService (jobs s) (active s) (running s) (loaded s) (dirty s) (closed s) (maxConcurrent s) (wake s) (leased s)
    d (executing s) (cancelled s) (tickets s).
Definition set_flags (running_ loaded_ closed_ leased_ : bool) (s : Service) : Service :=
  mkService (jobs s) (active s) running_ loaded_ (dirty s) closed_ (maxConcurrent s) (wake s) leased_
    (disk s) (executing s) (cancelled s) (tickets s).
Definition set_active (a : gmap string nat) (s : Service) : Service :=
  mkService (jobs s) a (running s) (loaded s) (dirty s) (closed s) (maxConcurrent s) (wake s) (leased s)
    (disk s) (executing s) (cancelled s) (tickets s).
Definition set_executing (e : gmap nat Job) (n : nat) (s : Service) : Service :=
  mkService (jobs s) (active s) (running s) (loaded s) (dirty s) (closed s) (maxConcurrent s) (wake s) (leased s)
    (disk s) e (cancelled s) n.
Definition set_cancelled (c : gset nat) (s : Service) : Service :=
  mkService (jobs s) (active s) (running s) (loaded s) (dirty s) (closed s) (maxConcurrent s) (wake s) (leased s)
    (disk s) (executing s) c (tickets s).
Definition set_max (n : Z) (s : Service) : Service :=
  mkService (jobs s) (active s) (running s) (loaded s) (dirty s) (closed s) n (wake s) (leased s)
    (disk s) (executing s) (cancelled s) (tickets s).
(** The non-blocking send on the one-slot channel. *)
Definition signal (s : Service) : Service :=
  mkService (jobs s) (active s) (running s) (loaded s) (dirty s) (closed s) (maxConcurrent s) true (leased s)
    (disk s) (executing s) (cancelled s) (tickets s).

(** ** Persistence *)

(** What the JSON of a job keeps. *)
Definition persisted (j : Job) : Job := with_run 0 "" (with_state (st_pending false) j).

(** [ok] is whether every file operation of the save succeeds. *)
Definition saveLocked (ok : bool) (s : Service) : Service * bool :=
  if ok then (set_dirty false (set_disk (map persisted (jobs s)) s), true) else (set_dirty true s, false).

(** ** Small operations *)

Definition NewService : Service :=
  mkService [] ∅ false false false false defaultMaxConcurrent false false [] ∅ ∅ 0.

Definition idempotencyKey (jobID : string) (scheduledForMS : Z) : string :=
  jobID +:+ ":" +:+ Itoa scheduledForMS.

Fixpoint indexOf (js : list Job) (id : string) (i : nat) : option nat :=
  match js with
  | [] => None
  | j :: js => if String.eqb (ID j) id then Some i else indexOf js id (S i)
  end.
Definition indexLocked (s : Service) (id : string) : option nat := indexOf (jobs s) id 0.

Definition normalizeJobPolicy (j : Job) : Job :=
  with_policy (if TimeoutMS j <? 0 then 0 else TimeoutMS j)
    (if String.eqb (MisfirePolicy j) "" then MisfireFireOnce else MisfirePolicy j) j.

Definition shouldFireMisfire (j : Job) (now : Time) : bool :=
  let policy := if String.eqb (MisfirePolicy j) "" then MisfireFireOnce else MisfirePolicy j in
  match NextRunAtMS (JState j) with
  | Some next =>
      if negb (String.eqb policy MisfireFireOnce) then false
      else if MisfireGraceMS j <=? 0 then true
      else wrapInt64 (UnixMilli now - next) <=? MisfireGraceMS j
  | None => false
  end.

Definition validateBoundJob (j : Job) : CronErr + unit :=
  let p := JPayload j in
  if String.eqb (PKind p) PayloadSystemEvent then
    guard_err (String.eqb (TrimSpace (SystemEvent p)) "") (ErrMsg "cron: system event name is required")
  else if negb (String.eqb (PKind p) PayloadAgentTurn) then inl (ErrMsg "cron: unsupported payload kind")
  else guard_err (String.eqb (TrimSpace (SessionKey p)) "" || String.eqb (TrimSpace (OriginChannel p)) ""
                  || String.eqb (TrimSpace (OriginChatID p)) "") ErrUnbound.

Definition SetExecutor (s : Service) : CronErr + Service :=
  if negb (Nat.eqb (size (active s)) 0) then inl (ErrMsg "cron: cannot replace executor while jobs are active")
  else inr s.

Definition SetMaxConcurrent (n : Z) (s : Service) : Service := signal (set_max (if n <? 1 then 1 else n) s).

Definition ActiveCount (s : Service) : nat := size (active s).

Definition Cancel (id : string) (s : Service) : CronErr + Service :=
  match active s !! id with
  | Some t => inr (set_cancelled ({[t]} ∪ cancelled s) s)
  | None => match indexLocked s id with None => inl ErrNotFound | Some _ => inl (ErrMsg "cron: job is not running") end
  end.

(** ** Lifecycle *)

(** [file] is what reading and parsing the store file gives: [inr None] when it
    does not exist.  A corrupt file has been renamed by the time of the error. *)
Definition loadLocked (file : CronErr + option (list Job)) (s : Service) : Service * (CronErr + unit) :=
  match file with
  | inl e => (set_jobs [] s, inl e)
  | inr content => (set_jobs (match content with Some js => map normalizeJobPolicy js | None => [] end) s, inr ())
  end.

Definition Load (file : CronErr + option (list Job)) (s : Service) : Service * (CronErr + unit) :=
  if loaded s then (s, inr ()) else
  match loadLocked file s with
  | (s, inr _) => (set_flags (running s) true (closed s) (leased s) s, inr ())
  | (s, inl e) => (s, inl e)
  end.

Section Service.
Context `{CronEnv}.

(** The texts of schedule errors are not reproduced. *)
Definition errText (e : CronErr) : string :=
  match e with ErrMsg m => m | ErrUnbound => "cron: agent job is not bound to a session" | _ => "error" end.

Definition prepareJobOnStartLocked (now : Time) (j : Job) : Job :=
  if negb (Enabled j) then with_state (st_next None) j else
  let j := normalizeJobPolicy j in
  let disable status err j := with_state (st_status status err) (with_state (st_next None) (with_enabled false j)) in
  let recompute j :=
    match NextRun (JSchedule j) now with
    | inl e => disable StatusError (errText (ErrSched e)) j
    | inr next => with_state (st_next next) j
    end in
  match validateBoundJob j with
  | inl e => disable StatusError (errText e) j
  | inr _ =>
      match NextRunAtMS (JState j) with
      | Some next =>
          if UnixMilli now <? next then j
          else if shouldFireMisfire j now then j
          else if String.eqb (Kind (JSchedule j)) KindAt
          then disable StatusSkipped "cron: missed one-shot skipped by misfire policy" j
          else recompute j
      | None => recompute j
      end
  end.

(** [lease] is whether the process lease can be taken, [ok] whether the save succeeds. *)
Definition Start (file : CronErr + option (list Job)) (lease ok : bool) (now : Time) (s : Service)
    : Service * (CronErr + unit) :=
  if running s then (s, inr ()) else
  match Load file s with
  | (s, inl e) => (s, inl e)
  | (s, inr _) =>
      if negb lease then (s, inl ErrLeaseHeld) else
      let s := set_jobs (map (prepareJobOnStartLocked now) (jobs s)) s in
      let '(s, saved) := saveLocked ok s in
      if (saved : bool) then (signal (set_flags true (loaded s) false true s), inr ())
      else (set_flags (running s) (loaded s) (closed s) false s, inl ErrSave)
  end.

(** The first half of [Close]; the second runs when no goroutine is left. *)
Definition Close_begin (s : Service) : Service :=
  signal (set_cancelled (cancelled s ∪ dom (executing s)) (set_flags (running s) (loaded s) true (leased s) s)).
Definition Close_end (s : Service) : Service := set_flags false (loaded s) (closed s) false s.

(** ** Dispatch *)

(** [time.Duration] is an int64 of nanoseconds. *)
Definition maxSleep : Z := 5 * Minute.

Definition earliest_step (act : gmap string nat) (earliest : Z) (j : Job) : Z :=
  match NextRunAtMS (JState j) with
  | Some n =>
      if negb (Enabled j) || bool_decide (is_Some (act !! ID j)) then earliest
      else if (earliest =? 0) || (n <? earliest) then n else earliest
  | None => earliest
  end.
Definition earliest_loop (act : gmap string nat) (js : list Job) : Z := foldl (earliest_step act) 0 js.

Definition nextDelay (now : Time) (s : Service) : Z :=
  if dirty s then Second
  else if maxConcurrent s <=? Z.of_nat (size (active s)) then Second
  else
    let earliest := earliest_loop (active s) (jobs s) in
    if earliest =? 0 then maxSleep else
    let d := wrapInt64 (wrapInt64 (earliest - UnixMilli now) * Millisecond) in
    if d <? 0 then 0 else if maxSleep <? d then maxSleep else d.

(** The due jobs with their index and instant. *)
Fixpoint due_loop (now : Z) (act : gmap string nat) (js : list Job) (i : nat) : list (nat * Z) :=
  match js with
  | [] => []
  | j :: js =>
      match NextRunAtMS (JState j) with
      | Some n =>
          if Enabled j && (n <=? now) && negb (bool_decide (is_Some (act !! ID j)))
          then (i, n) :: due_loop now act js (S i) else due_loop now act js (S i)
      | None => due_loop now act js (S i)
      end
  end.

(** [sort.SliceStable] on the instant. *)
Definition sort_due : list (nat * Z) → list (nat * Z) := sort_by (λ x y, x.2 <=? y.2).

(** One launch: the goroutine is registered under the lock.  [pending] is the flag
    of the snapshot, which a dispatch copies after setting it. *)
Definition launch (id : string) (idx : nat) (scheduled : Z) (pending : bool) (s : Service) : Service :=
  match jobs s !! idx with
  | None => s
  | Some j =>
      let t := tickets s in
      let snapshot := with_run scheduled (idempotencyKey (ID j) scheduled) (with_state (st_pending pending) j) in
      set_executing (<[t := snapshot]> (executing s)) (S t)
        (set_active (<[id := t]> (active s)) (set_jobs (<[idx := with_state (st_pending true) j]> (jobs s)) s))
  end.

Definition launch_due (s : Service) (c : nat * Z) : Service :=
  launch (default "" (ID <$> jobs s !! c.1)) c.1 c.2 true s.

Definition dispatch_candidates (now : Time) (s : Service) : list (nat * Z) :=
  let cands := sort_due (due_loop (UnixMilli now) (active s) (jobs s) 0) in
  let capacity := Z.to_nat (maxConcurrent s - Z.of_nat (size (active s))) in
  take capacity cands.

Definition dispatchDue (ok : bool) (now : Time) (s : Service) : Service :=
  if closed s then s else
  let '(s, saved) := if dirty s then saveLocked ok s else (s, true) in
  if negb saved then s else
  foldl launch_due s (dispatch_candidates now s).

(** ** Execution *)

Inductive outcome := Success (runID : string) | Skipped (err : string) | Failed (err : string).

Definition status_of (o : outcome) : string :=
  match o with Success _ => StatusOK | Skipped _ => StatusSkipped | Failed _ => StatusError end.
Definition error_of (o : outcome) : string := match o with Success _ => "" | Skipped e | Failed e => e end.

(** The head of [execute]: a snapshot without an instant runs for now. *)
Definition execute_begin (start : Time) (snapshot : Job) : Job :=
  let at_ := if ScheduledForMS snapshot =? 0 then UnixMilli start else ScheduledForMS snapshot in
  with_run at_ (if String.eqb (IdempotencyKey snapshot) "" then idempotencyKey (ID snapshot) at_
                else IdempotencyKey snapshot) snapshot.

(** The record of a finished run; the executor's run id defaults to the key. *)
Definition run_record (snapshot : Job) (o : outcome) (start end_ : Time) : RunRecord :=
  let key := IdempotencyKey snapshot in
  let rid := match o with Success r => if String.eqb r "" then key else r | _ => key end in
  mkRun (UnixMilli start) (ScheduledForMS snapshot) (status_of o) (Z.quot (end_ - start) Millisecond)
    (error_of o) rid key.

Definition push_history (h : list RunRecord) (r : RunRecord) : list RunRecord :=
  let h := h ++ [r] in drop (length h - maxRunHistory) h.

Definition nextRecurring (sch : Schedule) (after : Time) (prev : Z) : SchedErr + option Z :=
  default (inl ErrLoop) (nextRecurringAfter sch after prev).

(** The state a job is left in by a run; [None] deletes it. *)
Definition after_run (snapshot : Job) (o : outcome) (start end_ : Time) (j : Job) : option Job :=
  let r := run_record snapshot o start end_ in
  let st := JState j in
  let j := with_state (λ _, mkState (NextRunAtMS st) (Some (RunAtMS r)) (Some (ScheduledForMS snapshot))
      (status_of o) (error_of o) (IdempotencyKey snapshot) (push_history (RunHistory st) r) false) j in
  let j := with_times (CreatedAtMS j) (UnixMilli end_) j in
  if String.eqb (Kind (JSchedule j)) KindAt then
    if DeleteAfterRun j then None
    else Some (with_state (st_next None) (with_enabled false j))
  else if Enabled j then
    match nextRecurring (JSchedule j) end_ (ScheduledForMS snapshot) with
    | inl e => Some (with_state (st_status StatusError (errText (ErrSched e))) (with_state (st_next None) (with_enabled false j)))
    | inr next => Some (with_state (st_next next) j)
    end
  else Some (with_state (st_next None) j).

(** The part of [execute] under the lock, for the goroutine of ticket [t]. *)
Definition execute_finish (t : nat) (o : outcome) (ok : bool) (start end_ : Time) (s : Service) : Service :=
  match executing s !! t with
  | None => s
  | Some snapshot =>
      let snapshot := execute_begin start snapshot in
      let s := set_executing (delete t (executing s)) (tickets s) s in
      let s := set_active (delete (ID snapshot) (active s)) s in
      match indexLocked s (ID snapshot) with
      | None => signal s
      | Some idx =>
          match jobs s !! idx with
          | None => signal s
          | Some j =>
              let s := match after_run snapshot o start end_ j with
                       | Some j => set_jobs (<[idx := j]> (jobs s)) s
                       | None => set_jobs (delete idx (jobs s)) s
                       end in
              signal (saveLocked ok s).1
          end
      end
  end.

(** ** Requests *)

Definition AddJob (newID : string) (ok : bool) (now : Time) (job : Job) (s : Service) : Service * (CronErr + Job) :=
  let req : CronErr + Job :=
    _ ←? guard_err (String.eqb (TrimSpace (Name job)) "") (ErrMsg "cron: name is required");
    let job := if String.eqb (PKind (JPayload job)) "" then with_payload_kind PayloadAgentTurn job else job in
    _ ←? guard_err (String.eqb (TrimSpace (PMessage (JPayload job))) "" && String.eqb (PKind (JPayload job)) PayloadAgentTurn)
           (ErrMsg "cron: message is required");
    let job := normalizeJobPolicy job in
    _ ←? guard_err (negb (String.eqb (MisfirePolicy job) MisfireFireOnce) && negb (String.eqb (MisfirePolicy job) MisfireSkip))
           (ErrMsg "cron: invalid misfire policy");
    _ ←? guard_err (MisfireGraceMS job <? 0) (ErrMsg "cron: misfire grace must be >= 0");
    _ ←? guard_err (TimeoutMS job <? 0) (ErrMsg "cron: timeout must be >= 0");
    _ ←? validateBoundJob job;
    _ ←? lift (ValidateSchedule (JSchedule job));
    let job := if String.eqb (ID job) "" then with_id newID job else job in
    let job := with_times (UnixMilli now) (UnixMilli now) (with_enabled true job) in
    next ←? lift (NextRun (JSchedule job) now);
    inr (with_state (st_next next) job) in
  match req with
  | inl e => (s, inl e)
  | inr job =>
      match indexLocked s (ID job) with
      | Some _ => (s, inl (ErrMsg "cron: duplicate job id"))
      | None =>
          let wasDirty := dirty s in
          let before := jobs s in
          let '(s, saved) := saveLocked ok (set_jobs (before ++ [job]) s) in
          if (saved : bool) then (signal s, inr job)
          else (set_dirty wasDirty (set_jobs (take (length (jobs s) - 1) (jobs s)) s), inl ErrSave)
      end
  end.

Definition UpsertSystemJob (ok : bool) (now : Time) (job : Job) (s : Service) : Service * (CronErr + Job) :=
  let req : CronErr + Job :=
    _ ←? guard_err (negb (String.eqb (PKind (JPayload job)) PayloadSystemEvent)) (ErrMsg "cron: system job requires system_event payload");
    _ ←? guard_err (String.eqb (TrimSpace (ID job)) "") (ErrMsg "cron: system job id is required");
    let job := normalizeJobPolicy job in
    _ ←? lift (ValidateSchedule (JSchedule job));
    inr job in
  match req with
  | inl e => (s, inl e)
  | inr job =>
      let idx := indexLocked s (ID job) in
      let existing := i ← idx; jobs s !! i in
      let job := match existing with
                 | Some ex => with_state (λ _, JState ex) (with_times (CreatedAtMS ex) (UpdatedAtMS job) job)
                 | None => with_times (UnixMilli now) (UpdatedAtMS job) job
                 end in
      let job := with_times (CreatedAtMS job) (UnixMilli now) (with_enabled true job) in
      match NextRun (JSchedule job) now with
      | inl e => (s, inl (ErrSched e))
      | inr next =>
          let job := with_state (st_next next) job in
          let s := set_jobs (match idx with Some i => <[i := job]> (jobs s) | None => jobs s ++ [job] end) s in
          let '(s, saved) := saveLocked ok s in
          if (saved : bool) then (signal s, inr job) else (s, inl ErrSave)
      end
  end.

(** [out[i] < out[j]] of [ListJobs]: by next run, jobs without one last, by name. *)
Definition list_less (a b : Job) : bool :=
  match NextRunAtMS (JState a), NextRunAtMS (JState b) with
  | None, None => String.ltb (Name a) (Name b)
  | None, Some _ => false
  | Some _, None => true
  | Some x, Some y => x <? y
  end.

Definition view (s : Service) (j : Job) : Job :=
  with_state (st_pending (bool_decide (is_Some (active s !! ID j)))) j.

Definition ListJobs (includeDisabled : bool) (s : Service) : list Job :=
  sort_by (λ x y, negb (list_less y x)) (map (view s) (List.filter (λ j, includeDisabled || Enabled j) (jobs s))).

Definition GetJob (id : string) (s : Service) : option Job :=
  i ← indexLocked s id; j ← jobs s !! i; Some (view s j).

(** The candidate of an update, from the stored job. *)
Definition update_candidate (now : Time) (u : Update) (j : Job) : CronErr + Job :=
  name ←? match UName u with
          | None => inr (Name j)
          | Some n => let n := TrimSpace n in
              if String.eqb n "" then inl (ErrMsg "cron: name cannot be empty") else inr n
          end;
  message ←? match UMessage u with
             | None => inr (PMessage (JPayload j))
             | Some m => let m := TrimSpace m in
                 if String.eqb m "" then inl (ErrMsg "cron: message cannot be empty") else inr m
             end;
  schedule ←? match USchedule u with
              | None => inr (JSchedule j)
              | Some sch => _ ←? lift (ValidateSchedule sch); inr sch
              end;
  timeout ←? match UTimeoutMS u with
             | None => inr (TimeoutMS j)
             | Some t => if t <? 0 then inl (ErrMsg "cron: timeout must be >= 0") else inr t
             end;
  policy ←? match UMisfirePolicy u with
            | None => inr (MisfirePolicy j)
            | Some p => let p := TrimSpace p in
                if negb (String.eqb p MisfireFireOnce) && negb (String.eqb p MisfireSkip)
                then inl (ErrMsg "cron: invalid misfire policy") else inr p
            end;
  grace ←? match UMisfireGraceMS u with
           | None => inr (MisfireGraceMS j)
           | Some g => if g <? 0 then inl (ErrMsg "cron: misfire grace must be >= 0") else inr g
           end;
  let enabled := default (Enabled j) (UEnabled u) in
  next ←? (if negb enabled then inr None
           else if bool_decide (is_Some (USchedule u)) || bool_decide (is_Some (UEnabled u))
           then lift (NextRun schedule now)
           else inr (NextRunAtMS (JState j)));
  let p := JPayload j in
  inr (mkJob (ID j) name enabled schedule
    (mkPayload (PKind p) message (SystemEvent p) (SessionKey p) (OriginChannel p) (OriginChatID p) (OriginMetadata p))
    (st_next next (JState j)) (CreatedAtMS j) (UnixMilli now) (default (DeleteAfterRun j) (UDeleteAfterRun u))
    timeout policy grace (ScheduledForMS j) (IdempotencyKey j)).

Definition UpdateJob (id : string) (u : Update) (ok : bool) (now : Time) (s : Service) : Service * (CronErr + Job) :=
  match i ← indexLocked s id; j ← jobs s !! i; Some (i, j) with
  | None => (s, inl ErrNotFound)
  | Some (idx, original) =>
      if String.eqb (PKind (JPayload original)) PayloadSystemEvent then (s, inl ErrProtected) else
      match update_candidate now u original with
      | inl e => (s, inl e)
      | inr candidate =>
          let wasDirty := dirty s in
          let '(s, saved) := saveLocked ok (set_jobs (<[idx := candidate]> (jobs s)) s) in
          if (saved : bool) then (signal s, inr (view s candidate))
          else (set_dirty wasDirty (set_jobs (<[idx := original]> (jobs s)) s), inl ErrSave)
      end
  end.

Definition RemoveJob (id : string) (ok : bool) (s : Service) : Service * (CronErr + unit) :=
  match i ← indexLocked s id; j ← jobs s !! i; Some (i, j) with
  | None => (s, inl ErrNotFound)
  | Some (idx, original) =>
      if String.eqb (PKind (JPayload original)) PayloadSystemEvent then (s, inl ErrProtected)
      else if bool_decide (is_Some (active s !! id)) then (s, inl ErrActive)
      else
        let wasDirty := dirty s in
        let '(s, saved) := saveLocked ok (set_jobs (delete idx (jobs s)) s) in
        if (saved : bool) then (signal s, inr ())
        else (set_dirty wasDirty (set_jobs (take idx (jobs s) ++ original :: drop idx (jobs s)) s), inl ErrSave)
  end.

Definition RunNow (id : string) (force ok : bool) (now : Time) (s : Service) : Service * (CronErr + unit) :=
  if closed s then (s, inl ErrClosed) else
  let '(s, saved) := if dirty s then saveLocked ok s else (s, true) in
  if negb saved then (s, inl ErrSave) else
  match i ← indexLocked s id; j ← jobs s !! i; Some (i, j) with
  | None => (s, inl ErrNotFound)
  | Some (idx, job) =>
      if bool_decide (is_Some (active s !! id)) then (s, inl ErrActive)
      else if maxConcurrent s <=? Z.of_nat (size (active s)) then (s, inl (ErrMsg "cron: concurrency limit reached"))
      else if negb force && negb (Enabled job) then (s, inl (ErrMsg "cron: job is disabled"))
      else match validateBoundJob job with
           | inl e => (s, inl e)
           | inr _ => (launch id idx (UnixMilli now) (Pending (JState job)) s, inr ())
           end
  end.

(** File name of a run record. *)
Definition safeRune (r : Z) : bool :=
  ((97 <=? r) && (r <=? 122)) || ((65 <=? r) && (r <=? 90)) || ((48 <=? r) && (r <=? 57)) || (r =? 45) || (r =? 95).
Definition safeRunName (id : string) : string := of_runes (map (λ r, if safeRune r then r else 95) (runes id)).

(** ** Interleavings *)

Definition history_ok (j : Job) : Prop := (length (RunHistory (JState j)) ≤ maxRunHistory)%nat.

Inductive event :=
  | EvAdd | EvUpsert | EvUpdate | EvRemove | EvRun | EvCancel | EvMax | EvDispatch | EvFinish | EvStart | EvClose | EvClosed.

Inductive step : Service → event → Service → Prop :=
  | step_add newID ok now job s : history_ok job → step s EvAdd (AddJob newID ok now job s).1
  | step_upsert ok now job s : history_ok job → step s EvUpsert (UpsertSystemJob ok now job s).1
  | step_update id u ok now s : step s EvUpdate (UpdateJob id u ok now s).1
  | step_remove id ok s : step s EvRemove (RemoveJob id ok s).1
  | step_run id force ok now s : step s EvRun (RunNow id force ok now s).1
  | step_cancel id s s' : Cancel id s = inr s' → step s EvCancel s'
  | step_max n s : step s EvMax (SetMaxConcurrent n s)
  | step_dispatch ok now s : step s EvDispatch (dispatchDue ok now s)
  | step_finish t o ok start end_ s : step s EvFinish (execute_finish t o ok start end_ s)
  | step_start file lease ok now s : loaded s = true → step s EvStart (Start file lease ok now s).1
  | step_close s : step s EvClose (Close_begin s)
  | step_close_end s : executing s = ∅ → step s EvClosed (Close_end s).

(** A service whose store has just been read; its file was written by a service. *)
Definition initial (s : Service) : Prop :=
  ∃ js, s = set_flags false true false false (set_disk js (set_jobs (map normalizeJobPolicy js) NewService)) ∧
    NoDup (map ID js) ∧ Forall history_ok js.

(** ** Invariant *)

(** Job ids are unique, the history of a job is bounded, and the running
    executions are in bijection with the active jobs, all of which exist. *)
Record inv (js : list Job) (act : gmap string nat) (exec : gmap nat Job) (n : nat) : Prop := {
  inv_ids : NoDup (map ID js);
  inv_history : Forall history_ok js;
  inv_active : ∀ id t, act !! id = Some t → ∃ snap, exec !! t = Some snap ∧ ID snap = id;
  inv_executing : ∀ t snap, exec !! t = Some snap → act !! ID snap = Some t;
  inv_tickets : ∀ t, is_Some (exec !! t) → (t < n)%nat;
  inv_exists : ∀ id, is_Some (act !! id) → id ∈ map ID js }.

Definition Inv (s : Service) : Prop := inv (jobs s) (active s) (executing s) (tickets s).

Lemma indexOf_spec js id k :
  match indexOf js id k with
  | Some i => ∃ n j, i = (k + n)%nat ∧ js !! n = Some j ∧ ID j = id
  | None => id ∉ map ID js
  end.
Proof.
  revert k. induction js as [|j js IH]; intros k; simpl; [set_solver|].
  destruct (String.eqb_spec (ID j) id) as [<-|Hne].
  - exists 0%nat, j. by rewrite Nat.add_0_r.
  - specialize (IH (S k)). destruct (indexOf js id (S k)) as [i|].
    + destruct IH as (n & j' & -> & Hl & He). exists (S n), j'. split_and!; [lia|done|done].
    + set_solver.
Qed.

Lemma indexLocked_Some s id i :
  indexLocked s id = Some i → ∃ j, jobs s !! i = Some j ∧ ID j = id.
Proof.
  unfold indexLocked. pose proof (indexOf_spec (jobs s) id 0) as H'. intros E. rewrite E in H'.
  destruct H' as (n & j & -> & ? & ?). eauto.
Qed.

Lemma indexLocked_None s id : indexLocked s id = None → id ∉ map ID (jobs s).
Proof. unfold indexLocked. pose proof (indexOf_spec (jobs s) id 0) as H'. intros E. by rewrite E in H'. Qed.

(** Replacing the jobs by others with the same ids. *)
Lemma inv_same_ids js js' act exec n :
  inv js act exec n → map ID js' = map ID js → Forall history_ok js' → inv js' act exec n.
Proof. intros [] E Hh. split; rewrite ?E; done. Qed.

Lemma map_ID_insert js i j j' : js !! i = Some j → ID j' = ID j → map ID (<[i := j']> js) = map ID js.
Proof.
  intros Hi E.
  change (ID <$> <[i := j']> js = ID <$> js). rewrite list_fmap_insert. apply list_insert_id.
  by rewrite list_lookup_fmap, Hi, E.
Qed.

Lemma inv_replace js act exec n i j j' :
  inv js act exec n → js !! i = Some j → ID j' = ID j → history_ok j' → inv (<[i := j']> js) act exec n.
Proof.
  intros Hinv Hi E Hh. eapply inv_same_ids; [done|by eapply map_ID_insert|].
  apply Forall_insert; [apply Hinv|done].
Qed.

Lemma inv_append js act exec n j :
  inv js act exec n → ID j ∉ map ID js → history_ok j → inv (js ++ [j]) act exec n.
Proof.
  intros [] Hid Hh. split; rewrite ?map_app; try done.
  - apply NoDup_app. split_and!; [done|set_solver|]. apply NoDup_singleton.
  - by apply Forall_app_2, Forall_singleton.
  - intros id Ha. apply elem_of_app. left. auto.
Qed.

Lemma elem_of_delete_other js i j id :
  js !! i = Some j → id ∈ map ID js → id ≠ ID j → id ∈ map ID (delete i js).
Proof.
  intros Hi Hin Hne. apply list_elem_of_In, in_map_iff in Hin as (x & <- & Hx%list_elem_of_In).
  rewrite <-(take_drop_middle js i j Hi) in Hx.
  rewrite delete_take_drop, map_app, elem_of_app. apply elem_of_app in Hx as [Hx|Hx].
  - left. by apply list_elem_of_In, in_map, list_elem_of_In.
  - apply elem_of_cons in Hx as [->|Hx]; [done|]. right. by apply list_elem_of_In, in_map, list_elem_of_In.
Qed.

Lemma inv_delete js act exec n i j :
  inv js act exec n → js !! i = Some j → act !! ID j = None → inv (delete i js) act exec n.
Proof.
  intros [] Hi Ha. split; try done.
  - eapply sublist_NoDup; [done|]. apply (fmap_sublist ID), sublist_delete.
  - rewrite Forall_forall in *. intros x Hx. apply inv_history0.
    eapply elem_of_sublist; [exact Hx|apply sublist_delete].
  - intros id Hid. eapply elem_of_delete_other; [done|auto|]. intros ->. rewrite Ha in Hid. by destruct Hid.
Qed.

Lemma inv_launch js act exec n i j snap :
  inv js act exec n → js !! i = Some j → ID snap = ID j → act !! ID j = None →
  inv (<[i := with_state (st_pending true) j]> js) (<[ID j := n]> act) (<[n := snap]> exec) (S n).
Proof.
  intros Hinv Hi Hs Ha. pose proof (Forall_lookup_1 _ _ _ _ (inv_history _ _ _ _ Hinv) Hi) as Hh.
  apply (inv_replace _ _ _ _ i j (with_state (st_pending true) j)) in Hinv; [|done..].
  assert (exec !! n = None) as Hfresh.
  { apply eq_None_not_Some. intros Hx. apply (inv_tickets _ _ _ _ Hinv) in Hx. lia. }
  destruct Hinv as [H1 H2 H3 H4 H5 H6]. split; try done.
  - intros id t. rewrite lookup_insert_Some. intros [[<- <-]|[Hne Hl]].
    + exists snap. by rewrite lookup_insert_eq.
    + destruct (H3 _ _ Hl) as (sn & He & <-). exists sn. rewrite lookup_insert_ne; [done|]. intros <-. congruence.
  - intros t sn. rewrite lookup_insert_Some. intros [[<- <-]|[Hne Hl]].
    + by rewrite Hs, lookup_insert_eq.
    + pose proof (H4 _ _ Hl). rewrite lookup_insert_ne; [done|]. intros E. congruence.
  - intros t. destruct (decide (t = n)) as [->|]; [lia|]. rewrite lookup_insert_ne by done. intros Hx%H5. lia.
  - intros id. destruct (decide (id = ID j)) as [->|]; [|rewrite lookup_insert_ne by done; apply H6].
    intros _. rewrite (map_ID_insert js i j) by done. apply list_elem_of_In, in_map, list_elem_of_In.
    by eapply list_elem_of_lookup_2.
Qed.

Lemma launch_inv s id idx scheduled pend j :
  Inv s → jobs s !! idx = Some j → ID j = id → active s !! id = None → Inv (launch id idx scheduled pend s).
Proof. intros Hinv Hi <- Ha. unfold launch. rewrite Hi. by apply inv_launch. Qed.

(** The end of an execution frees its job. *)
Lemma inv_finish js act exec n t snap :
  inv js act exec n → exec !! t = Some snap → inv js (delete (ID snap) act) (delete t exec) n.
Proof.
  intros [H1 H2 H3 H4 H5 H6] Ht. split; try done.
  - intros id t'. rewrite lookup_delete_Some. intros [Hne Hl]. destruct (H3 _ _ Hl) as (sn & He & <-).
    exists sn. rewrite lookup_delete_ne; [done|]. intros <-. congruence.
  - intros t' sn. rewrite lookup_delete_Some. intros [Hne Hl]. pose proof (H4 _ _ Hl).
    rewrite lookup_delete_ne; [done|]. intros E. pose proof (H4 _ _ Ht). rewrite E in *. congruence.
  - intros t' [x Hx]. apply lookup_delete_Some in Hx as [_ Hx]. apply H5. eauto.
  - intros id [x Hx]. apply lookup_delete_Some in Hx as [_ Hx]. apply H6. eauto.
Qed.

Lemma push_history_length h r : (length (push_history h r) ≤ maxRunHistory)%nat.
Proof. unfold push_history. rewrite length_drop. lia. Qed.

Lemma after_run_ok snap o start end_ j j' :
  after_run snap o start end_ j = Some j' → ID j' = ID j ∧ history_ok j'.
Proof.
  unfold after_run, history_ok. cbn [JSchedule with_times with_state].
  intros Ha.
  repeat match type of Ha with
  | (if ?b then _ else _) = _ => destruct b
  | match ?m with inl _ => _ | inr _ => _ end = _ => destruct m
  end; try discriminate Ha; injection Ha as <-; simpl; split; try done; apply push_history_length.
Qed.

Lemma execute_finish_inv t o ok start end_ s : Inv s → Inv (execute_finish t o ok start end_ s).
Proof.
  intros Hinv. unfold execute_finish. destruct (executing s !! t) as [snap|] eqn:Et; [|done].
  pose proof (inv_finish _ _ _ _ _ _ Hinv Et) as Hf.
  change (ID (execute_begin start snap)) with (ID snap).
  set (s1 := set_active _ _).
  assert (Inv s1) as Hs1 by exact Hf.
  destruct (indexLocked s1 (ID snap)) as [idx|] eqn:Ei; [|exact Hf].
  apply indexLocked_Some in Ei as (j & Hj & Hid). rewrite Hj.
  destruct (after_run _ _ _ _ j) as [j'|] eqn:Ea.
  - apply after_run_ok in Ea as [E1 E2]. destruct ok; exact (inv_replace _ _ _ _ _ _ _ Hs1 Hj E1 E2).
  - assert (active s1 !! ID j = None) as Ha by (rewrite Hid; apply lookup_delete_eq).
    destruct ok; exact (inv_delete _ _ _ _ _ _ Hs1 Hj Ha).
Qed.

(** ** Dispatch *)

Lemma saveLocked_inv ok s : Inv s → Inv (saveLocked ok s).1.
Proof. by destruct ok. Qed.

Lemma due_loop_spec now act js k c :
  c ∈ due_loop now act js k ↔
  ∃ n j, c.1 = (k + n)%nat ∧ js !! n = Some j ∧ Enabled j = true ∧ NextRunAtMS (JState j) = Some c.2 ∧
         c.2 ≤ now ∧ act !! ID j = None.
Proof.
  revert k. induction js as [|j js IH]; intros k; cbn [due_loop].
  { split; [set_solver|]. intros (n & j & _ & [=] & _). }
  assert (c ∈ due_loop now act js (S k) ↔
    ∃ n j, c.1 = (k + S n)%nat ∧ js !! n = Some j ∧ Enabled j = true ∧ NextRunAtMS (JState j) = Some c.2 ∧
           c.2 ≤ now ∧ act !! ID j = None) as IH'.
  { rewrite IH. split; intros (n & j' & E & R); exists n, j'; (split; [lia|done]). }
  assert ((∃ n j0, c.1 = (k + n)%nat ∧ (j :: js) !! n = Some j0 ∧ Enabled j0 = true ∧
             NextRunAtMS (JState j0) = Some c.2 ∧ c.2 ≤ now ∧ act !! ID j0 = None) ↔
    (c.1 = k ∧ Enabled j = true ∧ NextRunAtMS (JState j) = Some c.2 ∧ c.2 ≤ now ∧ act !! ID j = None) ∨
    c ∈ due_loop now act js (S k)) as ->.
  { rewrite IH'. split.
    - intros ([|n] & j0 & E & Hl & R); simplify_eq/=; [left; split; [lia|done]|right; exists n, j0; split; [lia|done]].
    - intros [(E & R)|(n & j0 & E & Hl & R)]; [exists 0%nat, j; simpl; split; [lia|done]|exists (S n), j0; split; [lia|done]]. }
  destruct (NextRunAtMS (JState j)) as [m|] eqn:En; [|naive_solver].
  destruct (Enabled j && (m <=? now) && negb (bool_decide (is_Some (act !! ID j)))) eqn:Ec.
  - apply andb_true_iff in Ec as [[He Hm%Z.leb_le]%andb_true_iff Ha].
    apply negb_true_iff, bool_decide_eq_false, eq_None_not_Some in Ha.
    rewrite elem_of_cons. destruct c as [c1 c2]. simpl. split.
    + intros [[= -> ->]|?]; [left; done|by right].
    + intros [(-> & _ & [= ->] & _)|?]; [by left|by right].
  - split; [by right|]. intros [(_ & He & [= <-] & Hle & Ha)|?]; [|done].
    rewrite He, Ha in Ec. destruct (Z.leb_spec m now); [done|lia].
Qed.

Lemma due_loop_NoDup now act js k : NoDup (due_loop now act js k).*1.
Proof.
  revert k. induction js as [|j js IH]; intros k; cbn [due_loop]; [constructor|].
  destruct (NextRunAtMS (JState j)) as [m|]; [|apply IH].
  destruct (Enabled j && _ && _); [|apply IH]. cbn. constructor; [|apply IH].
  intros Hin. apply list_elem_of_fmap in Hin as (c & Ec & Hin). apply due_loop_spec in Hin as (n & j' & E & _).
  simpl in Ec. lia.
Qed.

Lemma sort_due_perm l : sort_due l ≡ₚ l.
Proof. apply sort_by_perm. Qed.

Definition due_le (a b : nat * Z) : Prop := a.2 ≤ b.2.

Lemma sort_due_sorted l : StronglySorted due_le (sort_due l).
Proof.
  apply sort_by_sorted; unfold due_le.
  - intros x y z ? ?. lia.
  - intros x y. apply Z.leb_le.
  - intros x y ?%Z.leb_gt. lia.
Qed.

Definition idle_at (s : Service) (c : nat * Z) : Prop :=
  ∃ j, jobs s !! c.1 = Some j ∧ active s !! ID j = None.

Lemma ids_inj js i k j1 j2 :
  NoDup (map ID js) → js !! i = Some j1 → js !! k = Some j2 → ID j1 = ID j2 → i = k.
Proof.
  intros Hnd H1 H2 E. eapply (NoDup_lookup (map ID js) i k (ID j1)); [done|..];
    change (map ID js) with (ID <$> js); rewrite list_lookup_fmap; [by rewrite H1|by rewrite H2, E].
Qed.

(** What launching one candidate does. *)
Lemma launch_due_step s c j :
  Inv s → jobs s !! c.1 = Some j → active s !! ID j = None →
  let s' := launch_due s c in
  Inv s' ∧ active s' = <[ID j := tickets s]> (active s) ∧ jobs s' = <[c.1 := with_state (st_pending true) j]> (jobs s) ∧
  ∃ snap, executing s' = <[tickets s := snap]> (executing s) ∧ ID snap = ID j ∧ ScheduledForMS snap = c.2 ∧
          tickets s' = S (tickets s).
Proof.
  intros Hinv Hj Ha. unfold launch_due. rewrite Hj. cbn [fmap option_fmap option_map default from_option id].
  split; [by eapply launch_inv|]. unfold launch. rewrite Hj. split_and!; try done.
  eexists. by split_and!.
Qed.

Lemma launch_all cands s :
  Inv s → NoDup cands.*1 → Forall (idle_at s) cands →
  let s' := foldl launch_due s cands in
  Inv s' ∧ map ID (jobs s') = map ID (jobs s) ∧
  size (active s') = (size (active s) + length cands)%nat ∧
  (∀ id, is_Some (active s' !! id) ↔ is_Some (active s !! id) ∨
         ∃ c j, c ∈ cands ∧ jobs s !! c.1 = Some j ∧ ID j = id) ∧
  executing s ⊆ executing s' ∧
  (∀ c j, c ∈ cands → jobs s !! c.1 = Some j →
     ∃ t snap, (tickets s ≤ t)%nat ∧ executing s' !! t = Some snap ∧ ID snap = ID j ∧ ScheduledForMS snap = c.2).
Proof.
  revert s. induction cands as [|c cands IH]; intros s Hinv Hnd Hidle; simpl.
  { split_and!; [done|done|lia|set_solver|done|set_solver]. }
  inversion Hnd as [|? ? Hc Hnd']; subst. inversion Hidle as [|? ? (j & Hj & Ha) Hidle']; subst.
  destruct (launch_due_step s c j Hinv Hj Ha) as (Hinv1 & Eact & Ejobs & snap & Eexec & Hid & Hsch & Etick).
  assert (∀ i, i ≠ c.1 → jobs (launch_due s c) !! i = jobs s !! i) as Hother.
  { intros i Hi. rewrite Ejobs. by rewrite list_lookup_insert_ne. }
  assert (map ID (jobs (launch_due s c)) = map ID (jobs s)) as Hids by (rewrite Ejobs; by apply map_ID_insert with j).
  assert (Forall (idle_at (launch_due s c)) cands) as Hidle1.
  { rewrite Forall_forall in *. intros c' Hc'. destruct (Hidle' c' Hc') as (j' & Hj' & Ha').
    assert (c'.1 ≠ c.1) as Hne.
    { intros E. apply Hc. rewrite <-E. apply list_elem_of_fmap. eauto. }
    exists j'. rewrite Hother, Eact by done. split; [done|]. rewrite lookup_insert_ne; [done|].
    intros E. apply Hne. symmetry. eapply ids_inj; [apply Hinv|done..]. }
  destruct (IH _ Hinv1 Hnd' Hidle1) as (I1 & I2 & I3 & I4 & I5 & I6).
  rewrite Etick in *. split_and!.
  - done.
  - by rewrite I2.
  - rewrite I3, Eact, map_size_insert_None by done. lia.
  - intros id. rewrite I4, Eact, lookup_insert_is_Some'. split.
    + intros [[<-|?]|(c' & j' & Hc' & Hj' & <-)]; [right; exists c, j; split_and!; [left|done|done]|by left|].
      right. exists c', j'. rewrite Hother in Hj'; [split_and!; [by right|done|done]|].
      intros E. apply Hc. rewrite <-E. apply list_elem_of_fmap. eauto.
    + intros [?|(c' & j' & [->|Hc']%elem_of_cons & Hj' & <-)]; [left; by right|left; left; congruence|].
      right. exists c', j'. rewrite Hother; [done|]. intros E. apply Hc. rewrite <-E. apply list_elem_of_fmap. eauto.
  - etrans; [|exact I5]. rewrite Eexec. apply insert_subseteq, eq_None_not_Some.
    intros Hx. apply (inv_tickets _ _ _ _ Hinv) in Hx. lia.
  - intros c' j' [->|Hc']%elem_of_cons Hj'.
    + exists (tickets s), snap. split_and!; [lia| |congruence|done].
      eapply lookup_weaken; [|exact I5]. rewrite Eexec. by rewrite lookup_insert_eq.
    + destruct (I6 c' j' Hc') as (t & sn & ? & ?); [|exists t, sn; split; [lia|done]].
      rewrite Hother; [done|]. intros E. apply Hc. rewrite <-E. apply list_elem_of_fmap. eauto.
Qed.

Lemma candidates_ok now s :
  NoDup (dispatch_candidates now s).*1 ∧ Forall (idle_at s) (dispatch_candidates now s).
Proof.
  unfold dispatch_candidates. set (l := due_loop _ _ _ _). set (n := Z.to_nat _).
  assert (NoDup (sort_due l).*1) as Hnd.
  { rewrite sort_due_perm. apply due_loop_NoDup. }
  split.
  - rewrite fmap_take. eapply sublist_NoDup; [exact Hnd|]. apply sublist_take.
  - apply Forall_take. rewrite sort_due_perm. apply Forall_forall. intros c Hc.
    apply due_loop_spec in Hc as (k & j & E & Hj & _ & _ & _ & Ha). exists j. simpl in E. by rewrite E.
Qed.

(** The state a dispatch acts on, after a pending save. *)
Definition dispatch_base (ok : bool) (s : Service) : Service := if dirty s then (saveLocked ok s).1 else s.

Lemma dispatch_base_same ok s :
  jobs (dispatch_base ok s) = jobs s ∧ active (dispatch_base ok s) = active s ∧
  executing (dispatch_base ok s) = executing s ∧ tickets (dispatch_base ok s) = tickets s ∧
  maxConcurrent (dispatch_base ok s) = maxConcurrent s.
Proof. unfold dispatch_base, saveLocked. destruct (dirty s), ok; done. Qed.

Lemma dispatch_eq ok now s :
  dispatchDue ok now s = if closed s then s else if dirty s && negb ok then dispatch_base ok s
                         else foldl launch_due (dispatch_base ok s) (dispatch_candidates now (dispatch_base ok s)).
Proof. unfold dispatchDue, dispatch_base, saveLocked. destruct (closed s), (dirty s), ok; done. Qed.

Lemma dispatch_inv ok now s : Inv s → Inv (dispatchDue ok now s).
Proof.
  intros Hinv. rewrite dispatch_eq. destruct (closed s); [done|].
  assert (Inv (dispatch_base ok s)) as Hb by (unfold dispatch_base; destruct (dirty s); [by apply saveLocked_inv|done]).
  destruct (dirty s && negb ok); [done|]. destruct (candidates_ok now (dispatch_base ok s)).
  by apply launch_all.
Qed.

(** ** Requests *)

Lemma AddJob_inv newID ok now job s :
  history_ok job → Inv s → Inv (AddJob newID ok now job s).1.
Proof.
  intros Hh Hinv. unfold AddJob. set (req := rbind _ _).
  assert (∀ j, req = inr j → history_ok j) as Hreq.
  { intros j Hr. unfold req in Hr. repeat (apply rbind_inr in Hr as (? & _ & Hr)). injection Hr as <-.
    unfold history_ok. simpl.
    repeat match goal with |- context [if ?b then _ else _] => destruct b end; exact Hh. }
  destruct req as [e|j]; [done|]. specialize (Hreq j eq_refl).
  destruct (indexLocked s (ID j)) eqn:Ei; [done|]. apply indexLocked_None in Ei.
  destruct ok; simpl.
  - by apply inv_append.
  - unfold Inv. simpl. rewrite length_app, take_app_le by (simpl; lia). rewrite take_ge by (simpl; lia). done.
Qed.

Lemma UpsertSystemJob_inv ok now job s :
  history_ok job → Inv s → Inv (UpsertSystemJob ok now job s).1.
Proof.
  intros Hh Hinv. unfold UpsertSystemJob. set (req := rbind _ _).
  assert (∀ j, req = inr j → history_ok j) as Hreq.
  { intros j Hr. unfold req in Hr. repeat (apply rbind_inr in Hr as (? & _ & Hr)). by injection Hr as <-. }
  destruct req as [e|j]; [done|]. specialize (Hreq j eq_refl).
  destruct (indexLocked s (ID j)) as [i|] eqn:Ei; cbn [mbind option_bind].
  - apply indexLocked_Some in Ei as (ex & Hex & Hid). rewrite Hex.
    destruct (NextRun _ _); [done|].
    destruct ok; (eapply (inv_replace (jobs s)); [exact Hinv|exact Hex|done|]); apply (Forall_lookup_1 _ _ _ _ (inv_history _ _ _ _ Hinv) Hex).
  - apply indexLocked_None in Ei. destruct (NextRun _ _); [done|]. destruct ok; by apply (inv_append (jobs s)).
Qed.

Lemma lookup_Some s id i j :
  (i ← indexLocked s id; j ← jobs s !! i; Some (i, j)) = Some (i, j) → jobs s !! i = Some j ∧ ID j = id.
Proof.
  destruct (indexLocked s id) as [k|] eqn:E; [|done]. apply indexLocked_Some in E as (j' & Hj & Hid).
  cbn. rewrite Hj. cbn. intros [= <- <-]. done.
Qed.

Lemma update_candidate_ok now u j c : update_candidate now u j = inr c → ID c = ID j ∧ RunHistory (JState c) = RunHistory (JState j).
Proof.
  unfold update_candidate. intros Hr. repeat (apply rbind_inr in Hr as (? & _ & Hr)). injection Hr as <-. done.
Qed.

Lemma UpdateJob_inv id u ok now s : Inv s → Inv (UpdateJob id u ok now s).1.
Proof.
  intros Hinv. unfold UpdateJob. destruct (_ ≫= _) as [[i j]|] eqn:El; [|done].
  apply lookup_Some in El as [Hj Hid].
  destruct (String.eqb _ _); [done|]. destruct (update_candidate now u j) as [e|c] eqn:Ec; [done|].
  apply update_candidate_ok in Ec as [E1 E2].
  pose proof (Forall_lookup_1 _ _ _ _ (inv_history _ _ _ _ Hinv) Hj) as Hh.
  destruct ok; simpl.
  - eapply (inv_replace (jobs s)); [exact Hinv|exact Hj|done|]. unfold history_ok. by rewrite E2.
  - unfold Inv. simpl. rewrite list_insert_insert_eq, list_insert_id by done. done.
Qed.

(** The rollback of a removal puts the job back where it was. *)
Lemma delete_restore (js : list Job) i j :
  js !! i = Some j → take i (delete i js) ++ j :: drop i (delete i js) = js.
Proof.
  intros Hj. rewrite <-(take_drop_middle js i j Hj) at 3.
  pose proof (lookup_lt_Some _ _ _ Hj). rewrite delete_take_drop.
  by rewrite take_app_length', drop_app_length' by (rewrite length_take; lia).
Qed.

Lemma RemoveJob_inv id ok s : Inv s → Inv (RemoveJob id ok s).1.
Proof.
  intros Hinv. unfold RemoveJob. destruct (_ ≫= _) as [[i j]|] eqn:El; [|done].
  apply lookup_Some in El as [Hj Hid]. destruct (String.eqb _ _); [done|].
  destruct (bool_decide _) eqn:Ea; [done|]. apply bool_decide_eq_false, eq_None_not_Some in Ea.
  destruct ok; simpl.
  - eapply (inv_delete (jobs s)); [exact Hinv|exact Hj|]. by rewrite Hid.
  - unfold Inv. simpl.
    by rewrite delete_restore.
Qed.

Lemma RunNow_inv id force ok now s : Inv s → Inv (RunNow id force ok now s).1.
Proof.
  intros Hinv. unfold RunNow. destruct (closed s); [done|].
  assert (∀ s, Inv s → Inv (match i ← indexLocked s id; j ← jobs s !! i; Some (i, j) with
    | None => (s, inl ErrNotFound)
    | Some (idx, job) =>
      if bool_decide (is_Some (active s !! id)) then (s, inl ErrActive)
      else if maxConcurrent s <=? Z.of_nat (size (active s)) then (s, inl (ErrMsg "cron: concurrency limit reached"))
      else if negb force && negb (Enabled job) then (s, inl (ErrMsg "cron: job is disabled"))
      else match validateBoundJob job with
           | inl e => (s, inl e)
           | inr _ => (launch id idx (UnixMilli now) (Pending (JState job)) s, inr ())
           end
    end).1) as Hgo.
  { clear. intros s Hinv. destruct (_ ≫= _) as [[i j]|] eqn:El; [|done]. apply lookup_Some in El as [Hj Hid].
    destruct (bool_decide _) eqn:Ea; [done|]. apply bool_decide_eq_false, eq_None_not_Some in Ea.
    destruct (_ <=? _); [done|]. destruct (_ && _); [done|]. destruct (validateBoundJob j); [done|].
    by eapply launch_inv. }
  destruct (dirty s); [|exact (Hgo s Hinv)].
  destruct ok; [exact (Hgo (saveLocked true s).1 (saveLocked_inv true s Hinv))|exact Hinv].
Qed.

Lemma prepare_ok now j : ID (prepareJobOnStartLocked now j) = ID j ∧
  RunHistory (JState (prepareJobOnStartLocked now j)) = RunHistory (JState j).
Proof.
  unfold prepareJobOnStartLocked. destruct (negb (Enabled j)); [done|].
  destruct (validateBoundJob _); [done|]. destruct (NextRunAtMS _) as [n|].
  - destruct (_ <? _); [done|]. destruct (shouldFireMisfire _ _); [done|]. destruct (String.eqb _ _); [done|].
    by destruct (NextRun _ _).
  - by destruct (NextRun _ _).
Qed.

Lemma Start_inv file lease ok now s : loaded s = true → Inv s → Inv (Start file lease ok now s).1.
Proof.
  intros Hl Hinv. unfold Start. destruct (running s); [done|]. unfold Load. rewrite Hl.
  destruct lease; [|done]. cbn [negb].
  assert (inv (map (prepareJobOnStartLocked now) (jobs s)) (active s) (executing s) (tickets s)) as Hp.
  { eapply inv_same_ids; [exact Hinv|..].
    - rewrite map_map. apply map_ext. intros j. apply prepare_ok.
    - apply Forall_map. eapply Forall_impl; [apply Hinv|]. intros j Hj. unfold history_ok. simpl.
      destruct (prepare_ok now j) as [_ ->]. exact Hj. }
  destruct ok; exact Hp.
Qed.

Lemma initial_inv s : initial s → Inv s.
Proof.
  intros (js & -> & Hnd & Hh). split; simpl; try (intros; by rewrite lookup_empty in *).
  - by rewrite map_map.
  - apply Forall_map. eapply Forall_impl; [exact Hh|]. done.
Qed.

Lemma step_inv s e s' : Inv s → step s e s' → Inv s'.
Proof.
  intros Hinv Hst. revert Hinv. destruct Hst; intros Hinv.
  - by apply AddJob_inv.
  - by apply UpsertSystemJob_inv.
  - by apply UpdateJob_inv.
  - by apply RemoveJob_inv.
  - by apply RunNow_inv.
  - unfold Cancel in *. destruct (active s !! id); [|by destruct (indexLocked s id)]. by simplify_eq.
  - exact Hinv.
  - by apply dispatch_inv.
  - by apply execute_finish_inv.
  - by apply Start_inv.
  - exact Hinv.
  - exact Hinv.
Qed.

Lemma reachable_inv s : reachable step initial s → Inv s.
Proof. apply reachable_invariant; [apply initial_inv|apply step_inv]. Qed.

(** ** Results *)

(** C7. In every interleaving of requests, dispatches, completions, restarts and
    shutdowns: job ids stay unique, no job has two executions in flight, every
    execution is registered as active under its job and every active job exists
    and has an execution, and no run history exceeds its bound. *)
Theorem cron_executions s :
  reachable step initial s →
  NoDup (map ID (jobs s)) ∧
  (∀ t1 t2 j1 j2, executing s !! t1 = Some j1 → executing s !! t2 = Some j2 → ID j1 = ID j2 → t1 = t2) ∧
  (∀ id, is_Some (active s !! id) ↔ ∃ t j, executing s !! t = Some j ∧ ID j = id) ∧
  (∀ id, is_Some (active s !! id) → id ∈ map ID (jobs s)) ∧
  Forall (λ j, (length (RunHistory (JState j)) ≤ maxRunHistory)%nat) (jobs s).
Proof.
  intros Hr. destruct (reachable_inv s Hr) as [H1 H2 H3 H4 H5 H6]. split_and!; try done.
  - intros t1 t2 j1 j2 E1 E2 E. apply H4 in E1. apply H4 in E2. rewrite E in E1. congruence.
  - intros id. split.
    + intros [t Ht]. destruct (H3 _ _ Ht) as (j & ? & ?). eauto.
    + intros (t & j & Ht & <-). apply H4 in Ht. eauto.
Qed.

(** A job that a dispatch at [now] may launch. *)
Definition due (now : Time) (s : Service) (j : Job) (at_ : Z) : Prop :=
  j ∈ jobs s ∧ Enabled j = true ∧ NextRunAtMS (JState j) = Some at_ ∧ at_ ≤ UnixMilli now ∧ active s !! ID j = None.

Lemma sorted_take_drop n l a b :
  StronglySorted due_le l → a ∈ take n l → b ∈ drop n l → due_le a b.
Proof.
  revert n. induction l as [|x l IH]; intros [|n] Hs Ha Hb; simpl in *; try set_solver.
  inversion Hs as [|? ? Hs' Hall]; subst. apply elem_of_cons in Ha as [->|Ha].
  - rewrite Forall_forall in Hall. apply Hall. eapply elem_of_sublist; [exact Hb|apply sublist_drop].
  - by eapply IH.
Qed.

(** What a dispatch launches: the jobs that become active were due, and each
    has an execution scheduled for its due instant; jobs that stay behind are
    due no earlier than those launched, and stay behind only when the
    concurrency limit is reached; the limit is not exceeded. *)
Theorem dispatch_launches s ok now :
  reachable step initial s → closed s = false → (dirty s = true → ok = true) →
  let s' := dispatchDue ok now s in
  (∀ id, is_Some (active s' !! id) → active s !! id = None →
     ∃ j at_ t snap, ID j = id ∧ due now s j at_ ∧
       executing s' !! t = Some snap ∧ ID snap = id ∧ ScheduledForMS snap = at_ ∧
       (∀ j2 at2, due now s j2 at2 → active s' !! ID j2 = None → at_ ≤ at2)) ∧
  (∀ j at_, due now s j at_ → active s' !! ID j = None → maxConcurrent s ≤ Z.of_nat (size (active s'))) ∧
  Z.of_nat (size (active s')) ≤ Z.max (Z.of_nat (size (active s))) (maxConcurrent s).
Proof.
  intros Hr%reachable_inv Hcl Hd s'.
  assert (s' = foldl launch_due (dispatch_base ok s) (dispatch_candidates now (dispatch_base ok s))) as Es'.
  { unfold s'. rewrite dispatch_eq, Hcl. destruct (dirty s); [by rewrite Hd|done]. }
  destruct (dispatch_base_same ok s) as (Ej & Ea & Ee & Et & Em).
  assert (Inv (dispatch_base ok s)) as Hb by (unfold Inv; by rewrite Ej, Ea, Ee, Et).
  destruct (candidates_ok now (dispatch_base ok s)) as [C1 C2].
  destruct (launch_all _ _ Hb C1 C2) as (_ & _ & Hsize & Hact & _ & Hexec). rewrite <-Es' in *.
  rewrite Ej, Ea in *.
  set (cands := dispatch_candidates now (dispatch_base ok s)) in *.
  set (l := sort_due (due_loop (UnixMilli now) (active s) (jobs s) 0)).
  set (n := Z.to_nat (maxConcurrent s - Z.of_nat (size (active s)))).
  assert (cands = take n l) as Ec by (unfold cands, dispatch_candidates; by rewrite Ej, Ea, Em).
  assert (∀ c, c ∈ l ↔ ∃ j, jobs s !! c.1 = Some j ∧ due now s j c.2) as Hl.
  { intros c. unfold l. rewrite sort_due_perm, due_loop_spec. split.
    - intros (k & j & E & Hj & ? & ? & ? & ?). simpl in E. subst k. exists j. split; [done|].
      split_and!; try done. by eapply list_elem_of_lookup_2.
    - intros (j & Hj & _ & ? & ? & ? & ?). by exists c.1, j. }
  assert (∀ j at_, due now s j at_ → active s' !! ID j = None → ∃ c, c ∈ drop n l ∧ c.2 = at_) as Hleft.
  { intros j at_ Hdue Hna. pose proof Hdue as (Hin & _). apply list_elem_of_lookup_1 in Hin as (k & Hk).
    assert ((k, at_) ∈ l) as Hin by (apply Hl; by exists j).
    rewrite <-(take_drop n l) in Hin. apply elem_of_app in Hin as [Hin|Hin]; [|by exists (k, at_)].
    exfalso. apply eq_None_not_Some in Hna. apply Hna, Hact. right. exists (k, at_), j. by rewrite Ec. }
  assert (length cands ≤ n)%nat as Hlen by (rewrite Ec, length_take; lia).
  split_and!.
  - intros id Hs Hn. apply Hact in Hs as [Hs|(c & j & Hc & Hj & <-)]; [rewrite Hn in Hs; by destruct Hs|].
    destruct (Hexec c j Hc Hj) as (t & snap & _ & Hx & Hid & Hsch). rewrite Ec in Hc.
    assert (c ∈ l) as Hcl' by (eapply elem_of_sublist; [exact Hc|apply sublist_take]).
    apply Hl in Hcl' as (j' & Hj' & Hdue). assert (j' = j) as -> by congruence.
    exists j, c.2, t, snap. split_and!; try done. intros j2 at2 Hd2 Hna.
    destruct (Hleft j2 at2 Hd2 Hna) as (c2 & Hc2 & <-). eapply sorted_take_drop; [apply sort_due_sorted|exact Hc|exact Hc2].
  - intros j at_ Hdue Hna. destruct (Hleft j at_ Hdue Hna) as (c & Hc & _).
    assert (n < length l)%nat.
    { destruct (Nat.lt_ge_cases n (length l)); [done|]. rewrite drop_ge in Hc by done. set_solver. }
    rewrite Hsize. assert (length cands = n) by (rewrite Ec, length_take; lia). unfold n in *. lia.
  - rewrite Hsize. unfold n in Hlen. lia.
Qed.

(** A change that cannot be saved stops the scheduler from starting work:
    while the store is dirty and saving fails, or after shutdown has begun,
    neither a dispatch nor a manual run starts an execution. *)
Theorem no_launch_unsaved s id force ok now :
  (dirty s = true ∧ ok = false) ∨ closed s = true →
  executing (dispatchDue ok now s) = executing s ∧ active (dispatchDue ok now s) = active s ∧
  executing (RunNow id force ok now s).1 = executing s ∧ active (RunNow id force ok now s).1 = active s ∧
  ∃ e, (RunNow id force ok now s).2 = inl e.
Proof.
  intros [[Hd ->]|Hc]; unfold dispatchDue, RunNow; [|rewrite Hc; split_and!; eauto].
  destruct (closed s); [split_and!; eauto|]. rewrite Hd. simpl. split_and!; eauto.
Qed.

(** Requests are atomic: a request that reports an error, a failed save
    included, leaves the service as it was, down to the flag for an earlier
    unsaved change; one that succeeds is on disk, and does what it says. *)
Theorem requests_atomic s newID ok now job id u :
  match AddJob newID ok now job s with
  | (s', inl _) => s' = s
  | (s', inr j) => jobs s' = jobs s ++ [j] ∧ (ID j ∉ map ID (jobs s)) ∧
                   dirty s' = false ∧ disk s' = map persisted (jobs s')
  end ∧
  match UpdateJob id u ok now s with
  | (s', inl _) => s' = s
  | (s', inr _) => (∃ i old c, jobs s !! i = Some old ∧ ID old = id ∧ update_candidate now u old = inr c ∧
                      jobs s' = <[i := c]> (jobs s)) ∧
                   dirty s' = false ∧ disk s' = map persisted (jobs s')
  end ∧
  match RemoveJob id ok s with
  | (s', inl _) => s' = s
  | (s', inr _) => (∃ i old, jobs s !! i = Some old ∧ ID old = id ∧ jobs s' = delete i (jobs s)) ∧
                   active s !! id = None ∧ dirty s' = false ∧ disk s' = map persisted (jobs s')
  end.
Proof.
  assert (∀ js1 js2, js1 = jobs s → set_dirty (dirty s) (set_jobs js1 (set_dirty true (set_jobs js2 s))) = s) as Hroll.
  { intros js1 js2 ->. by destruct s. }
  split_and!.
  - unfold AddJob. destruct (rbind _ _) as [e|j]; [done|]. destruct (indexLocked s (ID j)) eqn:Ei; [done|].
    apply indexLocked_None in Ei. destruct ok; cbn -[set_dirty set_jobs]; [done|].
    apply Hroll. simpl. rewrite length_app, take_app_le by (simpl; lia). by rewrite take_ge by (simpl; lia).
  - unfold UpdateJob. destruct (_ ≫= _) as [[i j]|] eqn:El; [|done]. apply lookup_Some in El as [Hj Hid].
    destruct (String.eqb _ _); [done|]. destruct (update_candidate now u j) as [e|c] eqn:Ec; [done|].
    destruct ok; cbn -[set_dirty set_jobs].
    + split; [|done]. by exists i, j, c.
    + apply Hroll. simpl. by rewrite list_insert_insert_eq, list_insert_id.
  - unfold RemoveJob. destruct (_ ≫= _) as [[i j]|] eqn:El; [|done]. apply lookup_Some in El as [Hj Hid].
    destruct (String.eqb _ _); [done|]. destruct (bool_decide _) eqn:Ea; [done|].
    apply bool_decide_eq_false, eq_None_not_Some in Ea. destruct ok; cbn -[set_dirty set_jobs].
    + split; [|done]. by exists i, j.
    + apply Hroll. simpl. by apply delete_restore.
Qed.

(** ** Sleeping *)

Definition runs_positive (bound : Z) (j : Job) : Prop := ∀ n, NextRunAtMS (JState j) = Some n → 0 < n < bound.

Lemma earliest_fold bound act js e0 :
  0 ≤ e0 < bound → Forall (runs_positive bound) js →
  let e := foldl (earliest_step act) e0 js in
  0 ≤ e < bound ∧ (0 < e0 → 0 < e ≤ e0) ∧
  Forall (λ j, ∀ n, Enabled j = true → NextRunAtMS (JState j) = Some n → act !! ID j = None → 0 < e ≤ n) js.
Proof.
  intros He0 Hpos. revert e0 He0. induction Hpos as [|j js Hj Hpos IH]; intros e0 He0; cbv zeta in *; cbn [foldl].
  { split_and!; try lia. done. }
  assert (0 ≤ earliest_step act e0 j < bound ∧ (0 < e0 → 0 < earliest_step act e0 j ≤ e0) ∧
    (∀ n, Enabled j = true → NextRunAtMS (JState j) = Some n → act !! ID j = None →
      0 < earliest_step act e0 j ≤ n)) as (H1 & H2 & H3).
  { unfold earliest_step. unfold runs_positive in Hj. destruct (NextRunAtMS (JState j)) as [n|]; [|naive_solver lia].
    specialize (Hj n eq_refl). destruct (negb (Enabled j) || bool_decide (is_Some (act !! ID j))) eqn:Es.
    - split_and!; try lia. intros n' He _ Ha. by rewrite He, Ha in Es.
    - destruct (Z.eqb_spec e0 0), (Z.ltb_spec n e0); simpl; split_and!; try lia; intros n' _ [= <-] _; lia. }
  destruct (IH _ H1) as (I1 & I2 & I3). split_and!; try lia.
  constructor; [|done]. intros n He En Ha. specialize (H3 n He En Ha). lia.
Qed.

(** The scheduler does not oversleep: with no unsaved change and a free
    slot, the delay until the next look is at most the time to the next run of
    any idle enabled job and at most five minutes, as long as the instants are
    within 292 years of each other. *)
Theorem nextDelay_no_oversleep s now :
  dirty s = false → Z.of_nat (size (active s)) < maxConcurrent s → 0 ≤ UnixMilli now < 2 ^ 42 →
  Forall (runs_positive (2 ^ 43)) (jobs s) →
  0 ≤ nextDelay now s ≤ maxSleep ∧
  ∀ j n, j ∈ jobs s → Enabled j = true → NextRunAtMS (JState j) = Some n → active s !! ID j = None →
    nextDelay now s ≤ Z.max 0 ((n - UnixMilli now) * Millisecond).
Proof.
  intros Hd Hm Hnow Hjobs. unfold nextDelay. rewrite Hd.
  destruct (Z.leb_spec (maxConcurrent s) (Z.of_nat (size (active s)))); [lia|].
  destruct (earliest_fold (2 ^ 43) (active s) (jobs s) 0 ltac:(lia) Hjobs) as (E0 & _ & Eall).
  change (foldl (earliest_step (active s)) 0 (jobs s)) with (earliest_loop (active s) (jobs s)) in *.
  set (e := earliest_loop (active s) (jobs s)) in *. clearbody e. rewrite Forall_forall in Eall.
  assert (0 ≤ maxSleep) by done.
  destruct (Z.eqb_spec e 0) as [Ez|Hez].
  { split; [lia|]. intros j n Hin He En Ha. specialize (Eall j Hin n He En Ha). lia. }
  rewrite (wrapInt64_id (e - UnixMilli now)) by (unfold is_int64; lia).
  rewrite wrapInt64_id by (unfold is_int64, Millisecond; lia).
  set (d := (e - UnixMilli now) * Millisecond).
  assert (∀ x : Z, x ≤ Z.max 0 d → ∀ j n, j ∈ jobs s → Enabled j = true → NextRunAtMS (JState j) = Some n →
    active s !! ID j = None → x ≤ Z.max 0 ((n - UnixMilli now) * Millisecond)) as Hle.
  { intros x Hx j n Hin He En Ha. specialize (Eall j Hin n He En Ha). unfold d, Millisecond in *. lia. }
  destruct (Z.ltb_spec d 0); [|destruct (Z.ltb_spec maxSleep d)]; (split; [lia|apply Hle; lia]).
Qed.

End Service.

(** ** Keys *)

Lemma app_colon_inj a b x y :
  ContainsByte x ":" = false → ContainsByte y ":" = false →
  a +:+ String ":" x = b +:+ String ":" y → a = b ∧ x = y.
Proof.
  intros Hx Hy. revert b. induction a as [|c a IH]; intros [|d b]; simpl; intros E; simplify_eq.
  - done.
  - exfalso. clear -Hx. induction b as [|c b IH]; simpl in Hx; [done|]. apply orb_false_iff in Hx as [_ Hx]. auto.
  - exfalso. clear -Hy. induction a as [|c a IH]; simpl in Hy; [done|]. apply orb_false_iff in Hy as [_ Hy]. auto.
  - destruct (IH b) as [-> ->]; done.
Qed.

Lemma digits_no_colon s : all_digits s = true → ContainsByte s ":" = false.
Proof.
  induction s as [|c s IH]; [done|]. simpl. intros [Hc Hs]%andb_true_iff. rewrite (IH Hs).
  by destruct (Ascii.eqb_spec c ":") as [->|].
Qed.

Lemma Itoa_no_colon n : ContainsByte (Itoa n) ":" = false.
Proof.
  destruct n as [|p|p]; [done|apply digits_no_colon; by apply Itoa_digits|].
  change (Itoa (Zneg p)) with (String "-" (Itoa (Zpos p))). cbn [ContainsByte].
  rewrite digits_no_colon; [done|]. by apply (Itoa_digits (Zpos p)).
Qed.

(** Idempotency keys identify an execution: two keys are equal only for the
    same job and the same scheduled instant, also when ids contain a colon. *)
Theorem idempotencyKey_inj id1 id2 t1 t2 :
  idempotencyKey id1 t1 = idempotencyKey id2 t2 → id1 = id2 ∧ t1 = t2.
Proof.
  unfold idempotencyKey. simpl. intros E. apply app_colon_inj in E as [-> E]; [|apply Itoa_no_colon..].
  split; [done|]. by apply (inj pretty.pretty) in E.
Qed.

Lemma idempotencyKey_inj_witness :
  idempotencyKey "a:1" 2 = idempotencyKey ("a:" +:+ "1") (1 + 1) ∧ "a:1" = "a:" +:+ "1" ∧ 2 = 1 + 1.
Proof. split; [reflexivity|]. exact (idempotencyKey_inj "a:1" ("a:" +:+ "1") 2 (1 + 1) eq_refl). Defined.

(** ** Scenarios *)

Definition demo_payload : Payload := mkPayload PayloadAgentTurn "hi" "" "s" "c" "1" [].
Definition demo_state (next : option Z) : JobState := mkState next None None "" "" "" [] false.
Definition demo_job (sch : Schedule) (next : option Z) : Job :=
  mkJob "j" "demo" true sch demo_payload (demo_state next) 0 0 false 0 MisfireFireOnce 0 0 "".
Definition every_minute : Schedule := mkSchedule KindEvery None (Some 60000) "" "".

(** A loaded service with one job, due at 1,000 ms. *)
Definition demo_service : Service :=
  set_flags false true false false
    (set_disk [demo_job every_minute (Some 1000)]
      (set_jobs (map normalizeJobPolicy [demo_job every_minute (Some 1000)]) NewService)).

Lemma cron_demo_initial : initial demo_service.
Proof.
  exists [demo_job every_minute (Some 1000)]. split; [reflexivity|]. split; [|repeat constructor; simpl; lia].
  apply NoDup_singleton.
Qed.

Definition demo_dispatched : Service := @dispatchDue true (ofUnixMilli 2000) demo_service.

Lemma cron_demo_reachable : reachable (@step autumn_env) initial demo_dispatched.
Proof. eapply reachable_step; [apply reachable_init, cron_demo_initial|]. constructor. Qed.

Lemma cron_executions_witness : NoDup (map ID (jobs demo_dispatched)) ∧ is_Some (active demo_dispatched !! "j").
Proof.
  split; [apply (@cron_executions autumn_env demo_dispatched cron_demo_reachable)|].
  vm_compute. eauto.
Defined.

Lemma dispatch_launches_witness :
  is_Some (active demo_dispatched !! "j") ∧
  Z.of_nat (size (active demo_dispatched)) ≤ Z.max 0 (maxConcurrent demo_service).
Proof.
  split; [vm_compute; eauto|].
  apply (@dispatch_launches autumn_env demo_service true (ofUnixMilli 2000) (reachable_init _ _ _ cron_demo_initial));
    reflexivity.
Defined.

Lemma no_launch_unsaved_witness :
  executing (@dispatchDue false (ofUnixMilli 2000) (set_dirty true demo_service)) = executing demo_service.
Proof.
  apply (@no_launch_unsaved (set_dirty true demo_service) "j" true false (ofUnixMilli 2000)). left. split; reflexivity.
Defined.

Lemma nextDelay_no_oversleep_witness : nextDelay (ofUnixMilli 400) demo_service ≤ Z.max 0 ((1000 - 400) * Millisecond).
Proof.
  apply (nextDelay_no_oversleep demo_service (ofUnixMilli 400)) with (j := normalizeJobPolicy (demo_job every_minute (Some 1000)));
    try reflexivity.
  - vm_compute. split; congruence.
  - repeat constructor; unfold runs_positive; simpl in *; naive_solver lia.
  - left.
Defined.

(** A job scheduled far ahead makes the scheduler spin: for a one-shot job
    in the year 2321 the conversion of the delay to nanoseconds overflows, and
    the delay is zero although the job is not due. *)
Theorem far_job_spins :
  let job := demo_job (mkSchedule KindAt (Some 11080000000000) None "" "") (Some 11080000000000) in
  let s := set_jobs [job] NewService in
  nextDelay (ofUnixMilli 1780000000000) s = 0 ∧
  dispatch_candidates (ofUnixMilli 1780000000000) s = [].
Proof. split; vm_compute; reflexivity. Qed.

(** A one-shot time given to a job while it runs is lost: the update is
    accepted and stored with its next run in the future, and the end of the
    run that was in flight disables the job before that instant. *)
Theorem reschedule_while_running_lost :
  let at_ := mkSchedule KindAt (Some 10000000) None "" "" in
  let u := mkUpdate None None (Some at_) None None None None None in
  let '(s1, r) := @UpdateJob autumn_env "j" u true (ofUnixMilli 3000) demo_dispatched in
  let s2 := @execute_finish autumn_env 0 (Success "") true (ofUnixMilli 2000) (ofUnixMilli 4000) s1 in
  (∃ j, r = inr j ∧ Enabled j = true ∧ NextRunAtMS (JState j) = Some 10000000) ∧
  (∃ j, jobs s2 = [j] ∧ Enabled j = false ∧ NextRunAtMS (JState j) = None ∧ LastStatus (JState j) = StatusOK).
Proof.
  vm_compute. split; eexists; (split; [reflexivity|]); repeat split; reflexivity.
Qed.

(** The upsert of a system job is not rolled back: when the save fails the
    request reports the error, yet the job is in the store. *)
Theorem upsert_not_rolled_back :
  let job := mkJob "sys" "heartbeat" true every_minute
    (mkPayload PayloadSystemEvent "" "tick" "" "" "" []) (demo_state None) 0 0 false 0 "" 0 0 "" in
  let '(s, r) := @UpsertSystemJob autumn_env false (ofUnixMilli 5000) job NewService in
  r = inl ErrSave ∧ map ID (jobs s) = ["sys"] ∧ disk s = [].
Proof. vm_compute. repeat split; reflexivity. Qed.

(** Two executions can share a run record: the file names of the keys of
    jobs [a.b] and [a_b] at one instant are the same. *)
Theorem run_record_names_collide :
  idempotencyKey "a.b" 7 ≠ idempotencyKey "a_b" 7 ∧
  safeRunName (idempotencyKey "a.b" 7) = safeRunName (idempotencyKey "a_b" 7).
Proof. split; [discriminate|vm_compute; reflexivity]. Qed.
