(* ===== verification/Pairing.v ===== *)
(** * The pairing store (src/internal/pairing/store.go, json.go, pairing.go)

    Which senders may talk to the agent.  Every operation reads the store file,
    changes the view of it and writes it back under the store's lock, so an
    operation is a function of the file.  The file is kept as the JSON document
    it holds: its text layout is not modelled, but numbers are rewritten as the
    encoder rewrites them ([canon]).  Only the table of printable characters of
    the unicode package is a parameter ([PrintTable]). *)

From S2P Require Import Prelude GoText GoLib PyFloat Regex GoFmt GoJson.
From Stdlib Require Import Ascii.
#[local] Open Scope string_scope.
#[local] Open Scope list_scope.
#[local] Open Scope Z_scope.

(** ** JSON objects *)

(** [o.get(key)]: nil for an absent key. *)
Fixpoint get (o : list (string * json)) (key : string) : json :=
  match o with [] => JNull | (k, v) :: o => if String.eqb k key then v else get o key end.

Section Pairing.
Context `{PrintTable}.

Definition reprRune (quote : Z) (r : Z) : string :=
  if r =? 92 then String "\" (String "\" "")
  else if r =? quote then String "\" (of_runes [quote])
  else if r =? 10 then String "\" (String "n" "")
  else if r =? 13 then String "\" (String "r" "")
  else if r =? 9 then String "\" (String "t" "")
  else if IsPrint r then of_runes [r]
  else if r <? 0x100 then String "\" (String "x" (hex 2 r))
  else if r <? 0x10000 then String "\" (String "u" (hex 4 r))
  else String "\" (String "U" (hex 8 r)).

Definition pyReprString (s : string) : string :=
  let rs := runes s in
  let quote := if existsb (Z.eqb 39) rs && negb (existsb (Z.eqb 34) rs) then 34 else 39 in
  of_runes [quote] +:+ foldr (λ r t, reprRune quote r +:+ t) "" rs +:+ of_runes [quote].

(** [pyStr], and [pyRepr] for the members of a container. *)
Fixpoint pyStr (v : json) : string :=
  let pyRepr v := match v with JStr s => pyReprString s | _ => pyStr v end in
  match v with
  | JNull => "None"
  | JBool b => if b then "True" else "False"
  | JStr s => s
  | JNum lit => pyJSONNumber lit
  | JArr items => "[" +:+ Join (map pyRepr items) ", " +:+ "]"
  | JObj fields => "{" +:+ Join (map (λ '(k, v), pyReprString k +:+ ": " +:+ pyRepr v) fields) ", " +:+ "}"
  end.

(** What a value becomes by being written and read. *)
Fixpoint canon (v : json) : json :=
  match v with
  | JNum lit => JNum (pyJSONNumber lit)
  | JArr items => JArr (map canon items)
  | JObj fields => JObj (map (λ '(k, v), (k, canon v)) fields)
  | _ => v
  end.

Definition numericValue (v : json) : option float64 := match v with JNum lit => Float64 lit | _ => None end.

(** ** The view of the store *)

Record storeData := mkData {
  approvedOrder : list string; approved : gmap string (gset string);
  pendingOrder : list string; pending : gmap string json }.

Definition newStoreData : storeData := mkData [] ∅ [] ∅.

Definition setApproved (channel sender : string) (d : storeData) : storeData :=
  match approved d !! channel with
  | None => mkData (approvedOrder d ++ [channel]) (<[channel := {[sender]}]> (approved d)) (pendingOrder d) (pending d)
  | Some users => mkData (approvedOrder d) (<[channel := {[sender]} ∪ users]> (approved d)) (pendingOrder d) (pending d)
  end.

Fixpoint removeString (l : list string) (value : string) : list string :=
  match l with [] => [] | x :: l => if String.eqb x value then l else x :: removeString l value end.

Definition delApproved (channel : string) (d : storeData) : storeData :=
  match approved d !! channel with
  | None => d
  | Some _ => mkData (removeString (approvedOrder d) channel) (delete channel (approved d)) (pendingOrder d) (pending d)
  end.

Definition setPending (code : string) (entry : json) (d : storeData) : storeData :=
  mkData (approvedOrder d) (approved d)
    (match pending d !! code with None => pendingOrder d ++ [code] | Some _ => pendingOrder d end)
    (<[code := entry]> (pending d)).

Definition delPending (code : string) (d : storeData) : storeData :=
  match pending d !! code with
  | None => d
  | Some _ => mkData (approvedOrder d) (approved d) (removeString (pendingOrder d) code) (delete code (pending d))
  end.

(** ** The file *)

Inductive file := FMissing | FUnreadable | FCorrupt | FDoc (doc : json).

Definition obj_fields (v : json) : option (list (string * json)) := match v with JObj f => Some f | _ => None end.

Definition load_users (v : json) : gset string :=
  match v with JArr users => list_to_set (map pyStr users) | _ => ∅ end.

(** [None] is a [StoreIOError]. *)
Definition load (f : file) : option storeData :=
  match f with
  | FUnreadable => None
  | FMissing | FCorrupt => Some newStoreData
  | FDoc (JObj root) =>
      let ap := default [] (obj_fields (get root "approved")) in
      let pe := default [] (obj_fields (get root "pending")) in
      Some (mkData ap.*1 (list_to_map (map (λ '(c, v), (c, load_users v)) ap)) pe.*1 (list_to_map pe))
  | FDoc _ => Some newStoreData
  end.

Definition users_of (d : storeData) (channel : string) : gset string := default ∅ (approved d !! channel).

Definition doc_of (d : storeData) : json :=
  JObj [("approved", JObj (map (λ c, (c, JArr (map JStr (sort_strings (elements (users_of d c)))))) (approvedOrder d)));
        ("pending", JObj (map (λ code, (code, canon (default JNull (pending d !! code)))) (pendingOrder d)))].

(** [ok] is whether [writeFileAtomic] succeeds.  It works on a temporary file up to the
    rename and reports no error after it, so a failure leaves the file as it was. *)
Definition save (ok : bool) (d : storeData) (f : file) : file * bool :=
  if ok then (FDoc (doc_of d), true) else (f, false).

(** ** Pending codes *)

Definition entry_live (now : float64) (v : json) : bool :=
  match v with
  | JObj info =>
      match get info "channel", get info "sender_id", numericValue (get info "expires_at") with
      | JStr channel, sender, Some expiresAt =>
          negb (String.eqb channel "") && negb (match sender with JNull => true | _ => false end)
          && negb (flt expiresAt now)
      | _, _, _ => false
      end
  | _ => false
  end.

Definition gcPending (now : float64) (d : storeData) : storeData :=
  let expired := List.filter (λ code, negb (entry_live now (default JNull (pending d !! code)))) (pendingOrder d) in
  foldl (λ d code, delPending code d) d expired.

Definition CodeAlphabet : string := "ABCDEFGHIJKLMNOPQRSTUVWXYZ0123456789".
Definition CodeLength : nat := 8.

(** The bytes of the random source, as read one by one; [None] when it fails. *)
Fixpoint draw (stream : list Z) (need : nat) : option (list Z) :=
  match need with
  | O => Some []
  | S n =>
      match stream with
      | [] => None
      | b :: stream =>
          if 256 - 256 mod 36 <=? b then draw stream need
          else rest ← draw stream n; Some (byteZ (sget (Z.to_nat (b mod 36)) CodeAlphabet) :: rest)
      end
  end.

Definition randomCode (stream : list Z) : option string :=
  buf ← draw stream CodeLength;
  Some (of_bytes (take 4 buf) +:+ "-" +:+ of_bytes (drop 4 buf)).

(** ** Operations *)

Inductive ioErr := ErrRead | ErrWrite | ErrRandom.

Definition find_code (channel sender : string) (d : storeData) : option string :=
  snd <$> list_find (λ code,
    match default JNull (pending d !! code) with
    | JObj info =>
        String.eqb (match get info "channel" with JStr c => c | _ => "" end) channel
        && String.eqb (pyStr (get info "sender_id")) sender
    | _ => false
    end = true) (pendingOrder d).

(** A string as [pyJSONString] writes it and the decoder reads it: a byte that is
    not UTF-8 becomes U+FFFD.  The strings of a document are UTF-8 already, as the
    decoder yields no others. *)
Definition utf8 (s : string) : string := of_runes (runes s).

Definition new_entry (channel sender : string) (now : float64) (ttl : Z) : json :=
  JObj [("channel", JStr (utf8 channel)); ("sender_id", JStr (utf8 sender));
        ("created_at", JNum (pyFloatRepr now)); ("expires_at", JNum (pyFloatRepr (fadd now (of_int ttl))))].

Definition GenerateCode (channel senderID : string) (ttl : Z) (now : float64) (stream : list Z) (ok : bool) (f : file)
    : file * (ioErr + string) :=
  match load f with
  | None => (f, inl ErrRead)
  | Some d =>
      let d := gcPending now d in
      match find_code channel senderID d with
      | Some code => (f, inr code)
      | None =>
          match randomCode stream with
          | None => (f, inl ErrRandom)
          | Some code =>
              let '(f, saved) := save ok (setPending code (new_entry channel senderID now ttl) d) f in
              if (saved : bool) then (f, inr code) else (f, inl ErrWrite)
          end
      end
  end.

Definition ApproveCode (code : string) (now : float64) (ok : bool) (f : file) : file * (ioErr + option (string * string)) :=
  match load f with
  | None => (f, inl ErrRead)
  | Some d =>
      let d := gcPending now d in
      match pending d !! code with
      | Some (JObj info) =>
          let d := delPending code d in
          let channel := match get info "channel" with JStr c => c | _ => "" end in
          let sender := pyStr (get info "sender_id") in
          let '(f, saved) := save ok (setApproved channel sender d) f in
          if (saved : bool) then (f, inr (Some (channel, sender))) else (f, inl ErrWrite)
      | _ => (f, inr None)
      end
  end.

Definition DenyCode (code : string) (now : float64) (ok : bool) (f : file) : file * (ioErr + bool) :=
  match load f with
  | None => (f, inl ErrRead)
  | Some d =>
      let d := gcPending now d in
      match pending d !! code with
      | None => (f, inr false)
      | Some _ =>
          let '(f, saved) := save ok (delPending code d) f in
          if (saved : bool) then (f, inr true) else (f, inl ErrWrite)
      end
  end.

Definition IsApproved (channel senderID : string) (f : file) : bool :=
  match load f with None => false | Some d => bool_decide (senderID ∈ users_of d channel) end.

Record PendingRequest := mkPending {
  Code : string; Channel : json; SenderID : json; CreatedAt : json; ExpiresAt : json;
  Extra : gmap string json; present : gset string }.

Definition standard_keys : list string := ["channel"; "sender_id"; "created_at"; "expires_at"].

Definition pending_request (code : string) (info : list (string * json)) : PendingRequest := {|
  Code := code; Channel := get info "channel"; SenderID := get info "sender_id";
  CreatedAt := get info "created_at"; ExpiresAt := get info "expires_at";
  Extra := list_to_map (List.filter (λ kv, negb (bool_decide (kv.1 ∈ standard_keys))) info);
  present := list_to_set (List.filter (λ k, bool_decide (k ∈ standard_keys)) info.*1) |}.

(** [PendingRequest.Map]: only present keys are copied, extra keys last. *)
Definition copy_key (p : PendingRequest) (k : string) (v : json) (m : gmap string json) : gmap string json :=
  if decide (k ∈ present p) then <[k := v]> m else m.

Definition Map (p : PendingRequest) : gmap string json :=
  Extra p ∪ copy_key p "expires_at" (ExpiresAt p) (copy_key p "created_at" (CreatedAt p)
    (copy_key p "sender_id" (SenderID p) (copy_key p "channel" (Channel p) {["code" := JStr (Code p)]}))).

Definition ListPending (now : float64) (f : file) : list PendingRequest :=
  match load f with
  | None => []
  | Some d =>
      let d := gcPending now d in
      omap (λ code, info ← obj_fields (default JNull (pending d !! code)); Some (pending_request code info)) (pendingOrder d)
  end.

Definition Revoke (channel senderID : string) (ok : bool) (f : file) : file * (ioErr + bool) :=
  match load f with
  | None => (f, inl ErrRead)
  | Some d =>
      match approved d !! channel with
      | None => (f, inr false)
      | Some users =>
          if negb (bool_decide (senderID ∈ users)) then (f, inr false) else
          let users := users ∖ {[senderID]} in
          let d := mkData (approvedOrder d) (<[channel := users]> (approved d)) (pendingOrder d) (pending d) in
          let d := if decide (users = ∅) then delApproved channel d else d in
          let '(f, saved) := save ok d f in
          if (saved : bool) then (f, inr true) else (f, inl ErrWrite)
      end
  end.

Definition RevokeChannel (channel : string) (ok : bool) (f : file) : file * (ioErr + nat) :=
  match load f with
  | None => (f, inl ErrRead)
  | Some d =>
      let users := users_of d channel in
      if decide (users = ∅) then (f, inr 0%nat) else
      let '(f, saved) := save ok (delApproved channel d) f in
      if (saved : bool) then (f, inr (size users)) else (f, inl ErrWrite)
  end.

Definition ClearChannel (channel : string) (now : float64) (ok : bool) (f : file) : file * (ioErr + nat * nat) :=
  match load f with
  | None => (f, inl ErrRead)
  | Some d =>
      let d := gcPending now d in
      let approvedUsers := users_of d channel in
      let d := delApproved channel d in
      let codes := List.filter (λ code, match default JNull (pending d !! code) with
                                   | JObj info => String.eqb (pyStr (get info "channel")) channel
                                   | _ => false
                                   end) (pendingOrder d) in
      let d := foldl (λ d code, delPending code d) d codes in
      if bool_decide (approvedUsers = ∅) && Nat.eqb (length codes) 0 then (f, inr (0%nat, 0%nat)) else
      let '(f, saved) := save ok d f in
      if (saved : bool) then (f, inr (size approvedUsers, length codes)) else (f, inl ErrWrite)
  end.

Definition GetApproved (channel : string) (f : file) : list string :=
  match load f with None => [] | Some d => sort_strings (elements (users_of d channel)) end.

(** ** The chat command (reply.go) *)

Fixpoint pySplit_loop (fuel : nat) (s cur : string) : list string :=
  match fuel, s with
  | S fuel, String _ _ =>
      let '(r, n) := DecodeRune s in
      if PyIsSpace r
      then (if String.eqb cur "" then [] else [cur]) ++ pySplit_loop fuel (sdrop n s) ""
      else pySplit_loop fuel (sdrop n s) (cur +:+ stake n s)
  | _, _ => if String.eqb cur "" then [] else [cur]
  end.
Definition pySplit (s : string) : list string := pySplit_loop (slen s) s "".

Definition FormatExpiry (expiresAt now : float64) : string :=
  let remaining := to_int64 (fadd expiresAt (fneg now)) in
  if 0 <? remaining then Itoa remaining +:+ "s" else "expired".

Definition pending_line (item : PendingRequest) (now : float64) : string :=
  "- `" +:+ Code item +:+ "` | " +:+ pyStr (Channel item) +:+ " | " +:+ pyStr (SenderID item) +:+ " | "
  +:+ FormatExpiry (default (Fin false 0) (numericValue (ExpiresAt item))) now.

Definition newline : string := String "010" "".

Definition revoke_reply (channel user : string) (ok : bool) (f : file) : file * (ioErr + string) :=
  match Revoke channel user ok f with
  | (f, inl e) => (f, inl e)
  | (f, inr true) => (f, inr ("Revoked " +:+ user +:+ " from " +:+ channel))
  | (f, inr false) => (f, inr (user +:+ " was not in the approved list for " +:+ channel))
  end.

(** [clock i] is the [i]-th reading of the clock. *)
Definition handlePairingSubcommand (channel subcommandText : string) (clock : nat → float64) (ok : bool) (f : file)
    : file * (ioErr + string) :=
  let parts := pySplit subcommandText in
  let sub := default "list" (head parts) in
  let arg := parts !! 1%nat in
  if String.eqb sub "list" then
    match ListPending (clock 0%nat) f with
    | [] => (f, inr "No pending pairing requests.")
    | pending =>
        (f, inr (Join ("Pending pairing requests:" :: imap (λ i item, pending_line item (clock (S i))) pending) newline))
    end
  else if String.eqb sub "approve" then
    match arg with
    | None => (f, inr "Usage: `/pairing approve <code>`")
    | Some arg =>
        match ApproveCode arg (clock 0%nat) ok f with
        | (f, inl e) => (f, inl e)
        | (f, inr None) => (f, inr ("Invalid or expired pairing code: `" +:+ arg +:+ "`"))
        | (f, inr (Some (resultChannel, resultSender))) =>
            (f, inr ("Approved pairing code `" +:+ arg +:+ "` — " +:+ resultSender +:+ " can now access " +:+ resultChannel))
        end
    end
  else if String.eqb sub "deny" then
    match arg with
    | None => (f, inr "Usage: `/pairing deny <code>`")
    | Some arg =>
        match DenyCode arg (clock 0%nat) ok f with
        | (f, inl e) => (f, inl e)
        | (f, inr true) => (f, inr ("Denied pairing code `" +:+ arg +:+ "`"))
        | (f, inr false) => (f, inr ("Pairing code `" +:+ arg +:+ "` not found or already expired"))
        end
    end
  else if String.eqb sub "revoke" then
    match parts with
    | [_; user] => revoke_reply channel user ok f
    | [_; ch; user] => revoke_reply ch user ok f
    | _ => (f, inr "Usage: `/pairing revoke <user_id>` or `/pairing revoke <channel> <user_id>`")
    end
  else (f, inr ("Unknown pairing command." +:+ newline +:+
         "Usage: `/pairing [list|approve <code>|deny <code>|revoke <user_id>|revoke <channel> <user_id>]`")).

Definition unavailable : string := "The pairing store is temporarily unavailable. Please try again.".

Definition HandlePairingCommand (channel subcommandText : string) (clock : nat → float64) (ok : bool) (f : file)
    : file * string :=
  match handlePairingSubcommand channel subcommandText clock ok f with
  | (f, inl _) => (f, unavailable)
  | (f, inr out) => (f, out)
  end.

(** ** Well-formed views and files *)

Record wf (d : storeData) : Prop := {
  wf_approved : NoDup (approvedOrder d) ∧ ∀ c, c ∈ approvedOrder d ↔ is_Some (approved d !! c);
  wf_pending : NoDup (pendingOrder d) ∧ ∀ c, c ∈ pendingOrder d ↔ is_Some (pending d !! c) }.

(** The decoder never yields an object with a repeated key. *)
Definition fields_ok (v : json) : Prop := NoDup (default [] (obj_fields v)).*1.
Definition file_ok (f : file) : Prop :=
  match f with FDoc (JObj root) => fields_ok (get root "approved") ∧ fields_ok (get root "pending") | _ => True end.

Lemma lookup_list_to_map_fst {A B} (g : A → B) (l : list (string * A)) c :
  c ∈ l.*1 ↔ is_Some ((list_to_map (map (λ '(c, v), (c, g v)) l) : gmap string B) !! c).
Proof.
  induction l as [|[k v] l IH]; simpl.
  - rewrite lookup_empty. split; [by intros ?%not_elem_of_nil|by intros [? [=]]].
  - rewrite elem_of_cons, IH, lookup_insert_is_Some'. naive_solver.
Qed.

Lemma load_wf f d : file_ok f → load f = Some d → wf d.
Proof.
  assert (wf newStoreData) as H0.
  { split; (split; [constructor|]); intros c; simpl; rewrite lookup_empty; (split; [set_solver|by intros [? [=]]]). }
  destruct f as [| | |[| | | | |root]]; simpl; intros Hf Hl; simplify_eq; try done. destruct Hf as [Ha Hp].
  split; simpl.
  - split; [exact Ha|]. intros c. apply lookup_list_to_map_fst.
  - split; [exact Hp|]. intros c. rewrite (lookup_list_to_map_fst id). f_equiv.
    enough (map (λ '(c, v), (c, id v)) (default [] (obj_fields (get root "pending"))) = default [] (obj_fields (get root "pending"))) as -> by done.
    rewrite <-map_id. apply map_ext. by intros [].
Qed.

Lemma load_sorted_users (u : gset string) : load_users (JArr (map JStr (sort_strings (elements u)))) = u.
Proof.
  simpl. rewrite map_map. simpl. rewrite map_id. apply set_eq. intros x.
  rewrite elem_of_list_to_set, sort_strings_perm, elem_of_elements. done.
Qed.

Lemma list_to_map_keys {B} (g : string → B) (l : list string) c :
  (list_to_map (map (λ k, (k, g k)) l) : gmap string B) !! c = if decide (c ∈ l) then Some (g c) else None.
Proof.
  induction l as [|k l IH]; simpl; [done|]. destruct (decide (c = k)) as [->|Hne].
  - rewrite lookup_insert_eq, decide_True by left. done.
  - rewrite lookup_insert_ne, IH by done. destruct (decide (c ∈ l)), (decide (c ∈ k :: l)); set_solver.
Qed.

Lemma fst_map {B} (g : string → B) l : (map (λ k, (k, g k)) l).*1 = l.
Proof. induction l as [|k l IH]; [done|]. cbn. f_equal. exact IH. Qed.

(** Reading back what was written. *)
Lemma load_doc d :
  wf d → ∃ d', load (FDoc (doc_of d)) = Some d' ∧ approvedOrder d' = approvedOrder d ∧ approved d' = approved d ∧
    pendingOrder d' = pendingOrder d ∧ pending d' = canon <$> pending d.
Proof.
  intros [[Ha1 Ha2] [Hp1 Hp2]]. unfold doc_of. eexists. split; [reflexivity|]. simpl.
  split_and!.
  - apply fst_map.
  - apply map_eq. intros c. rewrite map_map. rewrite list_to_map_keys.
    destruct (decide (c ∈ approvedOrder d)) as [Hin|Hin].
    + rewrite load_sorted_users. unfold users_of. apply Ha2 in Hin as [u Hu]. by rewrite Hu.
    + symmetry. apply eq_None_not_Some. by rewrite <-Ha2.
  - apply fst_map.
  - apply map_eq. intros c. rewrite list_to_map_keys, lookup_fmap.
    destruct (decide (c ∈ pendingOrder d)) as [Hin|Hin].
    + apply Hp2 in Hin as [v Hv]. by rewrite Hv.
    + destruct (pending d !! c) eqn:E; [|done]. exfalso. apply Hin, Hp2. eauto.
Qed.

(** ** Changing the view *)

Lemma removeString_elem l x y : NoDup l → y ∈ removeString l x ↔ y ∈ l ∧ y ≠ x.
Proof.
  induction 1 as [|z l Hz Hl IH]; simpl; [set_solver|]. destruct (String.eqb_spec z x) as [->|]; set_solver.
Qed.

Lemma removeString_NoDup l x : NoDup l → NoDup (removeString l x).
Proof.
  induction 1 as [|z l Hz Hl IH]; simpl; [constructor|]. destruct (String.eqb_spec z x); [done|].
  constructor; [|done]. rewrite removeString_elem by done. naive_solver.
Qed.

Lemma delPending_wf code d : wf d → wf (delPending code d).
Proof.
  intros [Ha [Hp1 Hp2]]. unfold delPending. destruct (pending d !! code) eqn:E; [|done].
  split; simpl; [done|]. split; [by apply removeString_NoDup|]. intros c.
  rewrite removeString_elem, Hp2, lookup_delete_is_Some by done. naive_solver.
Qed.

Lemma delPending_lookup code d c :
  pending (delPending code d) !! c = if decide (c = code) then None else pending d !! c.
Proof.
  unfold delPending. destruct (pending d !! code) eqn:E; simpl; destruct (decide (c = code)) as [->|]; try done.
  - apply lookup_delete_eq.
  - by apply lookup_delete_ne.
Qed.

Lemma delPending_approved code d : approved (delPending code d) = approved d.
Proof. unfold delPending. by destruct (pending d !! code). Qed.

Lemma del_all codes d :
  wf d →
  let d' := foldl (λ d code, delPending code d) d codes in
  wf d' ∧ approved d' = approved d ∧
  ∀ c, pending d' !! c = if decide (c ∈ codes) then None else pending d !! c.
Proof.
  revert d. induction codes as [|code codes IH]; intros d Hd; simpl; [done|].
  destruct (IH (delPending code d) (delPending_wf code d Hd)) as (H1 & H2 & H3). split_and!; [done|..].
  - by rewrite H2, delPending_approved.
  - intros c. rewrite H3, delPending_lookup.
    destruct (decide (c ∈ codes)), (decide (c ∈ code :: codes)), (decide (c = code)); set_solver.
Qed.

Lemma gcPending_spec now d :
  wf d → wf (gcPending now d) ∧ approved (gcPending now d) = approved d ∧
  ∀ c, pending (gcPending now d) !! c = v ← pending d !! c; if entry_live now v then Some v else None.
Proof.
  intros Hd. unfold gcPending. set (expired := List.filter _ _). destruct (del_all expired d Hd) as (H1 & H2 & H3).
  split_and!; [done|done|]. intros c. rewrite H3. destruct Hd as [_ [_ Hp]].
  destruct (pending d !! c) as [v|] eqn:E; cbn.
  - destruct (decide _) as [Hin|Hin].
    + apply list_elem_of_In, filter_In in Hin as [_ Hl]. rewrite E in Hl. simpl in Hl. by destruct (entry_live now v).
    + destruct (entry_live now v) eqn:El; [done|]. exfalso. apply Hin, list_elem_of_In, filter_In.
      split; [apply list_elem_of_In, Hp; eauto|]. by rewrite E; simpl; rewrite El.
  - by destruct (decide _).
Qed.

Lemma setPending_wf code v d : wf d → wf (setPending code v d).
Proof.
  intros [Ha [Hp1 Hp2]]. split; simpl; [done|]. destruct (pending d !! code) eqn:E.
  - split; [done|]. intros c. rewrite Hp2, lookup_insert_is_Some'. naive_solver.
  - split.
    + apply NoDup_app. split_and!; [done| |apply NoDup_singleton]. intros c Hc ->%list_elem_of_singleton.
      apply Hp2 in Hc. rewrite E in Hc. by destruct Hc.
    + intros c. rewrite elem_of_app, Hp2, list_elem_of_singleton, lookup_insert_is_Some'. naive_solver.
Qed.

Lemma setApproved_wf c s d : wf d → wf (setApproved c s d).
Proof.
  intros [[Ha1 Ha2] Hp]. unfold setApproved. destruct (approved d !! c) eqn:E; split; simpl; try done.
  - split; [done|]. intros x. rewrite Ha2, lookup_insert_is_Some'. naive_solver.
  - split.
    + apply NoDup_app. split_and!; [done| |apply NoDup_singleton]. intros x Hx ->%list_elem_of_singleton.
      apply Ha2 in Hx. rewrite E in Hx. by destruct Hx.
    + intros x. rewrite elem_of_app, Ha2, list_elem_of_singleton, lookup_insert_is_Some'. naive_solver.
Qed.

Lemma delApproved_wf c d : wf d → wf (delApproved c d).
Proof.
  intros [[Ha1 Ha2] Hp]. unfold delApproved. destruct (approved d !! c) eqn:E; [|done].
  split; simpl; [|done]. split; [by apply removeString_NoDup|]. intros x.
  rewrite removeString_elem, Ha2, lookup_delete_is_Some by done. naive_solver.
Qed.

Lemma users_setApproved c s d x : users_of (setApproved c s d) x = if decide (x = c) then {[s]} ∪ users_of d c else users_of d x.
Proof.
  unfold users_of, setApproved. destruct (approved d !! c) as [u|] eqn:E; simpl; destruct (decide (x = c)) as [->|].
  - by rewrite lookup_insert_eq.
  - by rewrite lookup_insert_ne.
  - rewrite lookup_insert_eq. simpl. set_solver.
  - by rewrite lookup_insert_ne.
Qed.

Lemma users_delApproved c d x : users_of (delApproved c d) x = if decide (x = c) then ∅ else users_of d x.
Proof.
  unfold users_of, delApproved. destruct (approved d !! c) as [u|] eqn:E; simpl; destruct (decide (x = c)) as [->|]; try done.
  - by rewrite lookup_delete_eq.
  - by rewrite lookup_delete_ne.
  - by rewrite E.
Qed.

(** What a saved view says about senders and codes. *)
Lemma IsApproved_saved d c s :
  wf d → IsApproved c s (FDoc (doc_of d)) = bool_decide (s ∈ users_of d c).
Proof.
  intros Hd. destruct (load_doc d Hd) as (d' & E & _ & Ha & _). unfold IsApproved. rewrite E.
  unfold users_of. by rewrite Ha.
Qed.

Lemma saved_ok d : wf d → file_ok (FDoc (doc_of d)).
Proof. intros [[Ha _] [Hp _]]. split; unfold fields_ok; simpl; by rewrite fst_map. Qed.

(** ** All operations *)

Inductive op :=
  | OGenerate (channel sender : string) (ttl : Z) (now : float64) (stream : list Z)
  | OApprove (code : string) (now : float64)
  | ODeny (code : string) (now : float64)
  | ORevoke (channel sender : string)
  | ORevokeChannel (channel : string)
  | OClear (channel : string) (now : float64).

(** The file an operation leaves; [ok] is whether a write succeeds. *)
Definition run (o : op) (ok : bool) (f : file) : file :=
  match o with
  | OGenerate c s ttl now stream => (GenerateCode c s ttl now stream ok f).1
  | OApprove code now => (ApproveCode code now ok f).1
  | ODeny code now => (DenyCode code now ok f).1
  | ORevoke c s => (Revoke c s ok f).1
  | ORevokeChannel c => (RevokeChannel c ok f).1
  | OClear c now => (ClearChannel c now ok f).1
  end.

(** The live pending request behind a code. *)
Definition requested (f : file) (code : string) (now : float64) (c s : string) : Prop :=
  ∃ d info, load f = Some d ∧ pending d !! code = Some (JObj info) ∧ entry_live now (JObj info) = true ∧
    get info "channel" = JStr c ∧ pyStr (get info "sender_id") = s.

(** What an operation writes, if it writes. *)
Definition writes (o : op) (d : storeData) : storeData → Prop := λ d',
  wf d' ∧ ∀ c s, s ∈ users_of d' c →
    s ∈ users_of d c ∨
    ∃ code now info, o = OApprove code now ∧ pending d !! code = Some (JObj info) ∧
      entry_live now (JObj info) = true ∧ get info "channel" = JStr c ∧ pyStr (get info "sender_id") = s.

Lemma live_channel now info : entry_live now (JObj info) = true → ∃ c, get info "channel" = JStr c.
Proof. simpl. destruct (get info "channel"); try done. eauto. Qed.

Lemma users_gc now d c : wf d → users_of (gcPending now d) c = users_of d c.
Proof. intros Hd. unfold users_of. by destruct (gcPending_spec now d Hd) as (_ & -> & _). Qed.

Lemma gcPending_wf now d : wf d → wf (gcPending now d).
Proof. intros Hd. by apply gcPending_spec. Qed.

Lemma users_delPending code d c : users_of (delPending code d) c = users_of d c.
Proof. unfold users_of. by rewrite delPending_approved. Qed.

#[local] Hint Resolve gcPending_wf setPending_wf delPending_wf setApproved_wf delApproved_wf : go.

(** The view a revocation writes. *)
Definition without (c s : string) (u : gset string) (d : storeData) : storeData :=
  let d1 := mkData (approvedOrder d) (<[c := u ∖ {[s]}]> (approved d)) (pendingOrder d) (pending d) in
  if decide (u ∖ {[s]} = ∅) then delApproved c d1 else d1.

Lemma without_spec c s u d : wf d → approved d !! c = Some u →
  wf (without c s u d) ∧ ∀ x, users_of (without c s u d) x = if decide (x = c) then u ∖ {[s]} else users_of d x.
Proof.
  intros Hd E. unfold without. set (d1 := mkData _ _ _ _).
  assert (wf d1) as Hd1.
  { destruct Hd as [[Ha1 Ha2] Hp]. split; simpl; [|done]. split; [done|]. intros x.
    rewrite Ha2, lookup_insert_is_Some'. naive_solver. }
  assert (∀ x, users_of d1 x = if decide (x = c) then u ∖ {[s]} else users_of d x) as Hu1.
  { intros x. unfold users_of. simpl. destruct (decide (x = c)) as [->|]; [by rewrite lookup_insert_eq|by rewrite lookup_insert_ne]. }
  destruct (decide _) as [Ee|Ee]; (split; [by auto with go|]); [|exact Hu1].
  intros x. rewrite users_delApproved, Hu1. by destruct (decide (x = c)).
Qed.

(** An operation that lets nobody in. *)
Lemma writes_fewer o d d' : wf d' → (∀ c s, s ∈ users_of d' c → s ∈ users_of d c) → writes o d d'.
Proof. intros Hw Hu. split; [done|]. intros c s Hs. left. by apply Hu. Qed.

Lemma approve_writes code now d info :
  wf d → pending (gcPending now d) !! code = Some (JObj info) →
  writes (OApprove code now) d
    (setApproved (match get info "channel" with JStr c => c | _ => "" end) (pyStr (get info "sender_id"))
       (delPending code (gcPending now d))).
Proof.
  intros Hd Ep. destruct (gcPending_spec now d Hd) as (Hw & _ & Hpend). split; [by auto with go|]. intros c s.
  rewrite Hpend in Ep. destruct (pending d !! code) as [v|] eqn:Ev; [|done]. cbn in Ep.
  destruct (entry_live now v) eqn:El; [|done]. injection Ep as ->.
  destruct (live_channel now info El) as [ch Hch]. rewrite Hch, users_setApproved.
  destruct (decide (c = ch)) as [->|]; rewrite users_delPending, users_gc by done; [|by left].
  intros [->%elem_of_singleton|?]%elem_of_union; [|by left].
  right. exists code, now, info. by split_and!.
Qed.

(** An operation leaves the file, or writes a view it may write. *)
Lemma run_writes o ok f d :
  load f = Some d → wf d → run o ok f = f ∨ ∃ d', run o ok f = FDoc (doc_of d') ∧ writes o d d'.
Proof.
  intros Hl Hd. destruct o as [c s ttl now stream|code now|code now|c s|c|c now]; simpl.
  - unfold GenerateCode. rewrite Hl. destruct (find_code _ _ _); [by left|]. destruct (randomCode stream) as [code|]; [|by left].
    destruct ok; [|by left]. right. eexists. split; [reflexivity|]. apply writes_fewer; [by auto with go|].
    intros c' s'. by rewrite <-(users_gc now d).
  - unfold ApproveCode. rewrite Hl. destruct (pending (gcPending now d) !! code) as [[| | | | |info]|] eqn:Ep; try by left.
    destruct ok; [|by left]. right. eexists. split; [reflexivity|]. by apply approve_writes.
  - unfold DenyCode. rewrite Hl. destruct (pending _ !! code); [|by left]. destruct ok; [|by left].
    right. eexists. split; [reflexivity|]. apply writes_fewer; [by auto with go|].
    intros c' s'. by rewrite users_delPending, users_gc.
  - unfold Revoke. rewrite Hl. destruct (approved d !! c) as [u|] eqn:E; [|by left].
    destruct (negb _); [by left|]. destruct ok; [|by left]. right. exists (without c s u d). split; [reflexivity|].
    destruct (without_spec c s u d Hd E) as [Hw Hu]. apply writes_fewer; [done|]. intros c' s'. rewrite Hu.
    destruct (decide (c' = c)) as [->|]; [|done]. unfold users_of. rewrite E. set_solver.
  - unfold RevokeChannel. rewrite Hl. destruct (decide _); [by left|]. destruct ok; [|by left].
    right. eexists. split; [reflexivity|]. apply writes_fewer; [by auto with go|].
    intros c' s'. rewrite users_delApproved. destruct (decide (c' = c)); [set_solver|done].
  - unfold ClearChannel. rewrite Hl. set (codes := List.filter _ _). destruct (_ && _); [by left|].
    destruct ok; [|by left]. right. eexists. split; [reflexivity|].
    destruct (del_all codes (delApproved c (gcPending now d))) as (H1 & H2 & _); [by auto with go|].
    apply writes_fewer; [done|]. intros c' s'. unfold users_of at 1. rewrite H2.
    fold (users_of (delApproved c (gcPending now d)) c'). rewrite users_delApproved.
    destruct (decide (c' = c)); [set_solver|]. by rewrite users_gc.
Qed.

Lemma run_unreadable o ok f : load f = None → run o ok f = f.
Proof.
  intros Hl. destruct o; simpl; unfold GenerateCode, ApproveCode, DenyCode, Revoke, RevokeChannel, ClearChannel; by rewrite Hl.
Qed.

Lemma run_admits o ok f c s :
  file_ok f →
  file_ok (run o ok f) ∧ run o false f = f ∧
  (IsApproved c s (run o ok f) = true →
   IsApproved c s f = true ∨ ∃ code now, o = OApprove code now ∧ requested f code now c s).
Proof.
  intros Hf.
  assert (run o false f = f) as Hfail.
  { destruct o; simpl; unfold GenerateCode, ApproveCode, DenyCode, Revoke, RevokeChannel, ClearChannel;
      destruct (load f); try done; repeat case_match; simplify_eq/=; done. }
  destruct (load f) as [d|] eqn:Hl.
  - pose proof (load_wf f d Hf Hl) as Hd.
    destruct (run_writes o ok f d Hl Hd) as [E|(d' & E & Hw & Hu)]; rewrite E; [by auto|].
    split_and!; [by apply saved_ok|done|]. rewrite IsApproved_saved by done. intros Hs%bool_decide_eq_true.
    apply Hu in Hs as [Hs|(code & now & info & -> & ? & ? & ? & ?)].
    + left. unfold IsApproved. rewrite Hl. by apply bool_decide_eq_true.
    + right. exists code, now. split; [done|]. by exists d, info.
  - rewrite run_unreadable by done. by auto.
Qed.

Lemma revoke_reply_run ch user ok f : (revoke_reply ch user ok f).1 = run (ORevoke ch user) ok f.
Proof. unfold revoke_reply. simpl. by destruct (Revoke ch user ok f) as [? [?|[]]]. Qed.

(** A chat command leaves the file, or does what one operation does to it; the
    operation approves a code only if the command's first words say so. *)
Lemma command_runs channel text clock ok f :
  ∃ (o : option op), (HandlePairingCommand channel text clock ok f).1 = default f ((λ o, run o ok f) <$> o) ∧
    ∀ code now, o = Some (OApprove code now) → take 2 (pySplit text) = ["approve"; code] ∧ now = clock 0%nat.
Proof.
  unfold HandlePairingCommand.
  assert (∀ (r : file * (ioErr + string)), (match r with (f, inl _) => (f, unavailable) | (f, inr out) => (f, out) end).1 = r.1) as ->
    by (by intros [? [?|?]]).
  unfold handlePairingSubcommand. destruct (pySplit text) as [|sub rest]; cbn [head default from_option id].
  { exists None. split; [|done]. by destruct (ListPending _ _). }
  destruct (String.eqb_spec sub "list"); [exists None; split; [by destruct (ListPending _ _)|done]|].
  destruct (String.eqb_spec sub "approve") as [->|].
  { destruct rest as [|arg rest]; cbn; [by exists None|]. exists (Some (OApprove arg (clock 0%nat))).
    split; [|by intros ? ? [= <- <-]; rewrite take_0]. cbn. by destruct (ApproveCode _ _ _ _) as [? [?|[[? ?]|]]]. }
  destruct (String.eqb_spec sub "deny") as [->|].
  { destruct rest as [|arg rest]; cbn; [by exists None|]. exists (Some (ODeny arg (clock 0%nat))).
    split; [|done]. cbn. by destruct (DenyCode _ _ _ _) as [? [?|[]]]. }
  destruct (String.eqb_spec sub "revoke") as [->|]; [|by exists None].
  destruct rest as [|a [|b [|]]]; try (by exists None).
  - exists (Some (ORevoke channel a)). split; [apply revoke_reply_run|done].
  - exists (Some (ORevoke a b)). split; [apply revoke_reply_run|done].
Qed.

(** ** Results *)

(** C9. A sender is let in only by a code: after any operation, a sender that was
    not approved before is approved only if the operation approved a pending,
    unexpired code that had been requested for that channel and sender; a failed
    write changes nothing, and the file stays well-formed. *)
Theorem approval_needs_code o ok f c s :
  file_ok f →
  file_ok (run o ok f) ∧ run o false f = f ∧
  (IsApproved c s (run o ok f) = true →
   IsApproved c s f = true ∨ ∃ code now, o = OApprove code now ∧ requested f code now c s).
Proof. apply run_admits. Qed.

(** The chat command admits nobody by itself: whatever the text of a
    [/pairing] command, a sender approved after it and not before was named by a
    live code that the command approves in its first two words; on a store that
    cannot be read or written the file is left as it is. *)
Theorem pairing_command_safe channel text clock ok f c s :
  file_ok f →
  let f' := (HandlePairingCommand channel text clock ok f).1 in
  file_ok f' ∧ (ok = false ∨ load f = None → f' = f) ∧
  (IsApproved c s f' = true →
   IsApproved c s f = true ∨
   ∃ code, take 2 (pySplit text) = ["approve"; code] ∧ requested f code (clock 0%nat) c s).
Proof.
  intros Hf. destruct (command_runs channel text clock ok f) as ([o|] & -> & Ho); cbn; [|by auto].
  destruct (run_admits o ok f c s Hf) as (H1 & H2 & H3). split_and!; [done| |].
  - intros [->|Hl]; [done|]. by apply run_unreadable.
  - intros [?|(code & now & -> & Hr)]%H3; [by left|]. right. exists code.
    destruct (Ho code now eq_refl) as [? ->]. done.
Qed.

Lemma canon_new_entry c s now ttl :
  finite now → is_int64 ttl → canon (new_entry c s now ttl) = new_entry c s now ttl.
Proof.
  intros Hn Ht. unfold new_entry. cbn [canon map].
  by rewrite !pyJSONNumber_repr by auto using fadd_int_finite.
Qed.

Lemma utf8_nonempty s : s ≠ "" → utf8 s ≠ "".
Proof.
  intros Hs. unfold utf8, runes. destruct s as [|a s]; [done|]. cbn -[DecodeRune of_runes].
  destruct (DecodeRune _) as [r n]. apply of_runes_nonempty.
Qed.

Lemma utf8_id l : Forall valid_rune l → utf8 (of_runes l) = of_runes l.
Proof. intros Hl. unfold utf8. by rewrite runes_of_runes. Qed.

Lemma new_entry_live c s now ttl now2 :
  c ≠ "" → finite now → is_int64 ttl → flt (fadd now (of_int ttl)) now2 = false →
  entry_live now2 (new_entry c s now ttl) = true.
Proof.
  intros Hc Hn Ht Hlt. unfold new_entry. cbn -[pyFloatRepr Float64 fadd flt of_int utf8].
  rewrite Float64_repr by auto using fadd_int_finite. rewrite Hlt.
  by destruct (String.eqb_spec (utf8 c) "") as [E%utf8_nonempty|].
Qed.

(** A code pairs the sender it was made for, once: a code generated for a
    sender without a live one, approved before it expires, approves exactly that
    channel and sender (as UTF-8), and a second approval finds no code. *)
Theorem code_pairs_once f d c s ttl now stream code now2 now3 ok :
  file_ok f → load f = Some d → c ≠ "" → find_code c s (gcPending now d) = None →
  randomCode stream = Some code → finite now → is_int64 ttl → flt (fadd now (of_int ttl)) now2 = false →
  let '(f1, r1) := GenerateCode c s ttl now stream true f in
  let '(f2, r2) := ApproveCode code now2 true f1 in
  r1 = inr code ∧ r2 = inr (Some (utf8 c, utf8 s)) ∧ IsApproved (utf8 c) (utf8 s) f2 = true ∧
  (ApproveCode code now3 ok f2).2 = inr None.
Proof.
  intros Hf Hl Hc Hfind Hcode Hnow Httl Hn. pose proof (load_wf f d Hf Hl) as Hd.
  unfold GenerateCode. rewrite Hl, Hfind, Hcode. cbn [save].
  set (d1 := setPending code (new_entry c s now ttl) (gcPending now d)).
  assert (wf d1) as Hd1 by (apply setPending_wf, gcPending_spec, Hd).
  destruct (load_doc d1 Hd1) as (d1' & El & _ & _ & _ & Ep). pose proof (load_wf _ _ (saved_ok d1 Hd1) El) as Hd1'.
  unfold ApproveCode at 1. rewrite El. destruct (gcPending_spec now2 d1' Hd1') as (Hg & _ & Hgp).
  assert (pending (gcPending now2 d1') !! code = Some (new_entry c s now ttl)) as Hcode'.
  { rewrite Hgp, Ep, lookup_fmap. unfold d1, setPending. cbn [pending]. rewrite lookup_insert_eq.
    cbn [fmap option_fmap option_map mbind option_bind]. by rewrite canon_new_entry, new_entry_live. }
  rewrite Hcode'. cbn [new_entry save get String.eqb Ascii.eqb Bool.eqb pyStr].
  set (d2 := setApproved (utf8 c) (utf8 s) (delPending code (gcPending now2 d1'))).
  assert (wf d2) as Hd2 by (by apply setApproved_wf, delPending_wf).
  split_and!; [done|done| |].
  - rewrite IsApproved_saved by done. apply bool_decide_eq_true. unfold d2. rewrite users_setApproved, decide_True by done.
    set_solver.
  - destruct (load_doc d2 Hd2) as (d2' & El2 & _ & _ & _ & Ep2). pose proof (load_wf _ _ (saved_ok d2 Hd2) El2) as Hd2'.
    unfold ApproveCode. rewrite El2. destruct (gcPending_spec now3 d2' Hd2') as (_ & _ & Hgp2).
    assert (pending (gcPending now3 d2') !! code = None) as ->; [|done].
    rewrite Hgp2, Ep2, lookup_fmap.
    assert (pending d2 !! code = None) as ->; [|done].
    unfold d2, setApproved. destruct (approved _ !! utf8 c); simpl; rewrite delPending_lookup, decide_True; done.
Qed.

(** Revocation is exact: it removes the sender from the channel and leaves
    every other approval as it was. *)
Theorem revoke_exact f c s :
  file_ok f → (Revoke c s true f).2 = inr true →
  ∀ c' s', IsApproved c' s' (Revoke c s true f).1 =
    if decide (c' = c ∧ s' = s) then false else IsApproved c' s' f.
Proof.
  intros Hf. unfold Revoke. destruct (load f) as [d|] eqn:Hl; [|done]. pose proof (load_wf f d Hf Hl) as Hd.
  destruct (approved d !! c) as [u|] eqn:E; [|done]. destruct (negb _) eqn:En; [done|]. intros _ c' s'. cbn [save fst].
  destruct (without_spec c s u d Hd E) as [Hw Hu].
  transitivity (IsApproved c' s' (FDoc (doc_of (without c s u d)))); [reflexivity|].
  rewrite IsApproved_saved, Hu by done. unfold IsApproved. rewrite Hl.
  assert (users_of d c = u) as Huc by (unfold users_of; by rewrite E).
  destruct (decide (c' = c)) as [->|Hne].
  - rewrite Huc. destruct (decide (c = c ∧ s' = s)) as [[_ ->]|Hne].
    + apply bool_decide_eq_false. set_solver.
    + apply bool_decide_ext. assert (s' ≠ s) by naive_solver. set_solver.
  - by destruct (decide (c' = c ∧ s' = s)) as [[? _]|].
Qed.

(** ** Codes *)

(** Codes are drawn without bias: of the byte values that are not rejected
    each letter is given by exactly seven, a code has the shape [XXXX-XXXX] over
    the alphabet, and enough accepted bytes always give one. *)
Theorem randomCode_uniform :
  (∀ i, 0 ≤ i < 36 →
    length (List.filter (λ b, negb (256 - 256 mod 36 <=? b) && (b mod 36 =? i)) (map Z.of_nat (seq 0 256))) = 7%nat) ∧
  (∀ stream code, randomCode stream = Some code →
    ∃ a b, code = of_bytes a +:+ "-" +:+ of_bytes b ∧ length a = 4%nat ∧ length b = 4%nat ∧
      Forall (λ x, ∃ i, (i < 36)%nat ∧ x = byteZ (sget i CodeAlphabet)) (a ++ b)) ∧
  (∀ stream, (8 ≤ length (List.filter (λ b : Z, (b <? 252)%Z) stream))%nat → is_Some (randomCode stream)).
Proof.
  assert (∀ n stream buf, draw stream n = Some buf →
    length buf = n ∧ Forall (λ x, ∃ i, (i < 36)%nat ∧ x = byteZ (sget i CodeAlphabet)) buf) as Hdraw.
  { intros n stream. revert n. induction stream as [|b stream IH]; intros [|n] buf; simpl; try (intros [= <-]; done).
    destruct (_ <=? b); [apply IH|]. destruct (draw stream n) as [rest|] eqn:E; [|done]. cbn. intros [= <-].
    destruct (IH n rest E) as [Hl Hf]. split; [simpl; lia|]. constructor; [|done].
    exists (Z.to_nat (b mod 36)). split; [|done]. pose proof (Z.mod_pos_bound b 36). lia. }
  assert (∀ n stream, (n ≤ length (List.filter (λ b : Z, (b <? 252)%Z) stream))%nat → is_Some (draw stream n)) as Htotal.
  { intros n stream. revert n. induction stream as [|b stream IH]; intros [|n]; simpl; eauto; [lia|].
    intros Hn. change (256 - 256 mod 36) with 252. destruct (Z.leb_spec 252 b), (Z.ltb_spec b 252); try lia.
    - by apply IH.
    - simpl in Hn. destruct (IH n) as [rest ->]; [lia|]. cbn. eauto. }
  split_and!.
  - intros i Hi. rewrite <-(Z2Nat.id i) by lia. assert (Z.to_nat i < 36)%nat as Hlt by lia. revert Hlt.
    generalize (Z.to_nat i). clear. intros n Hn. do 36 (destruct n as [|n]; [vm_compute; reflexivity|]). lia.
  - intros stream code. unfold randomCode. destruct (draw stream CodeLength) as [buf|] eqn:E; [|done]. cbn -[of_bytes].
    intros [= <-]. apply Hdraw in E as [Hl Hf]. exists (take 4 buf), (drop 4 buf).
    rewrite length_take, length_drop, Hl, take_drop. split_and!; [done|by vm_compute|by vm_compute|done].
  - intros stream Hs. unfold randomCode. destruct (Htotal CodeLength stream Hs) as [buf ->]. cbn. eauto.
Qed.

(** ** Listed requests *)

Lemma lookup_list_to_map_get (info : list (string * json)) k :
  (list_to_map info : gmap string json) !! k = if decide (k ∈ info.*1) then Some (get info k) else None.
Proof.
  induction info as [|[k' v] info IH]; simpl; [done|].
  destruct (String.eqb_spec k' k) as [->|Hne].
  - rewrite lookup_insert_eq, decide_True; [done|]. by left.
  - rewrite lookup_insert_ne, IH by done.
    destruct (decide (k ∈ info.*1)) as [Hk|Hk]; [by rewrite decide_True by (by right)|].
    rewrite decide_False; [done|]. intros [?|?]%elem_of_cons; [by subst|by apply Hk].
Qed.

Lemma get_filter (p : string → bool) (info : list (string * json)) k :
  p k = true → get (List.filter (λ kv, p kv.1) info) k = get info k.
Proof.
  intros Hp. induction info as [|[k' v] info IH]; simpl; [done|]. destruct (String.eqb_spec k' k) as [->|Hne].
  - rewrite Hp. simpl. by rewrite String.eqb_refl.
  - destruct (p k'); simpl; [|done]. by apply String.eqb_neq in Hne as ->.
Qed.

Lemma elem_of_filter_keys (p : string → bool) (info : list (string * json)) k :
  k ∈ (List.filter (λ kv, p kv.1) info).*1 ↔ k ∈ info.*1 ∧ p k = true.
Proof.
  rewrite !list_elem_of_fmap. setoid_rewrite list_elem_of_In. setoid_rewrite filter_In. naive_solver.
Qed.

Lemma lookup_copy_key code info k' v m k :
  k' ∈ standard_keys →
  copy_key (pending_request code info) k' v m !! k = if decide (k = k' ∧ k ∈ info.*1) then Some v else m !! k.
Proof.
  intros Hk'. unfold copy_key. destruct (decide (k' ∈ present _)) as [Hin|Hin]; cbn in Hin.
  - apply elem_of_list_to_set, list_elem_of_In, filter_In in Hin as [Hin%list_elem_of_In _].
    destruct (decide (k = k' ∧ k ∈ info.*1)) as [[-> _]|Hne]; [apply lookup_insert_eq|].
    rewrite lookup_insert_ne; [done|]. naive_solver.
  - destruct (decide (k = k' ∧ k ∈ info.*1)) as [[-> Hk]|]; [|done]. destruct Hin.
    apply elem_of_list_to_set, list_elem_of_In, filter_In. split; [by apply list_elem_of_In|by apply bool_decide_eq_true].
Qed.

(** A listed request has the keys of the stored entry with their values, and the
    code unless the entry has a key of that name. *)
Lemma Map_request code info k :
  Map (pending_request code info) !! k =
    if decide (k ∈ info.*1) then Some (get info k) else if decide (k = "code") then Some (JStr code) else None.
Proof.
  unfold Map.
  set (p := λ k, negb (bool_decide (k ∈ standard_keys))).
  rewrite lookup_union, (lookup_list_to_map_get (List.filter (λ kv, p kv.1) info)).
  cbn [pending_request Extra Code Channel SenderID CreatedAt ExpiresAt].
  rewrite !lookup_copy_key by (unfold standard_keys; set_solver). rewrite lookup_singleton.
  destruct (decide (k ∈ standard_keys)) as [Hs|Hs].
  - assert (p k = false) as Hp by (unfold p; by rewrite bool_decide_eq_true_2).
    rewrite decide_False by (rewrite elem_of_filter_keys, Hp; naive_solver). rewrite (left_id_L None _).
    unfold standard_keys in Hs. repeat (apply elem_of_cons in Hs as [->|Hs]); [..|by apply not_elem_of_nil in Hs];
      repeat case_decide; try done; naive_solver.
  - assert (p k = true) as Hp by (unfold p; by rewrite bool_decide_eq_false_2).
    rewrite get_filter by done. destruct (decide (k ∈ info.*1)) as [Hk|Hk].
    + rewrite decide_True by (by rewrite elem_of_filter_keys). by rewrite union_Some_l.
    + rewrite decide_False by (rewrite elem_of_filter_keys; naive_solver). rewrite (left_id_L None _).
      repeat (rewrite decide_False by naive_solver). destruct (decide ("code" = k)), (decide (k = "code")); congruence.
Qed.

End Pairing.

(** ** A concrete store *)

#[local] Instance ascii_print : PrintTable := λ r, (32 <=? r) && (r <? 127).

Definition demo_store : file :=
  FDoc (JObj [("approved", JObj [("telegram", JArr [JStr "bob"; JStr "eve"])]);
              ("pending", JObj [("AAAA-AAAB", JObj [("channel", JStr "telegram"); ("sender_id", JStr "ann");
                 ("created_at", JNum "100.0"); ("expires_at", JNum "700.0")])])]).

Lemma demo_store_ok : file_ok demo_store.
Proof. split; unfold fields_ok; apply (bool_decide_unpack _); vm_compute; exact I. Qed.

Lemma approval_needs_code_witness :
  IsApproved "telegram" "ann" (run (OApprove "AAAA-AAAB" (of_int 200)) true demo_store) = true ∧
  ∃ code now, OApprove "AAAA-AAAB" (of_int 200) = OApprove code now ∧ requested demo_store code now "telegram" "ann".
Proof.
  destruct (approval_needs_code (OApprove "AAAA-AAAB" (of_int 200)) true demo_store "telegram" "ann" demo_store_ok) as (_ & _ & H).
  assert (IsApproved "telegram" "ann" (run (OApprove "AAAA-AAAB" (of_int 200)) true demo_store) = true) as E
    by (vm_compute; reflexivity).
  split; [exact E|]. destruct (H E) as [H'|H']; [vm_compute in H'; discriminate|exact H'].
Defined.

Lemma pairing_command_safe_witness :
  ∃ code, take 2 (pySplit "approve  AAAA-AAAB") = ["approve"; code] ∧ requested demo_store code (of_int 200) "telegram" "ann".
Proof.
  destruct (pairing_command_safe "cli" "approve  AAAA-AAAB" (λ _, of_int 200) true demo_store "telegram" "ann" demo_store_ok)
    as (_ & _ & H).
  destruct H as [H|H]; [vm_compute; reflexivity|vm_compute in H; discriminate|exact H].
Defined.

Lemma code_pairs_once_witness :
  let '(f1, r1) := GenerateCode "telegram" "joe" 600 (of_int 200) [0; 255; 1; 2; 3; 4; 5; 6; 7] true demo_store in
  let '(f2, r2) := ApproveCode "ABCD-EFGH" (of_int 800) true f1 in
  r1 = inr "ABCD-EFGH" ∧ r2 = inr (Some ("telegram", "joe")) ∧ IsApproved "telegram" "joe" f2 = true ∧
  (ApproveCode "ABCD-EFGH" (of_int 801) true f2).2 = inr None.
Proof.
  destruct (load demo_store) as [d|] eqn:E; [|discriminate].
  apply (code_pairs_once demo_store d "telegram" "joe" 600 (of_int 200) [0; 255; 1; 2; 3; 4; 5; 6; 7] "ABCD-EFGH"
    (of_int 800) (of_int 801) true demo_store_ok E).
  - discriminate.
  - injection E as <-. vm_compute. reflexivity.
  - vm_compute. reflexivity.
  - vm_compute. repeat split; discriminate.
  - split; [discriminate|reflexivity].
  - vm_compute. reflexivity.
Defined.

Lemma revoke_exact_witness :
  IsApproved "telegram" "eve" (Revoke "telegram" "eve" true demo_store).1 = false ∧
  IsApproved "telegram" "bob" (Revoke "telegram" "eve" true demo_store).1 = true.
Proof.
  assert ((Revoke "telegram" "eve" true demo_store).2 = inr true) as Hr by (vm_compute; reflexivity).
  pose proof (revoke_exact demo_store "telegram" "eve" demo_store_ok Hr) as H.
  split; [rewrite (H "telegram" "eve"); reflexivity|]. rewrite (H "telegram" "bob"). vm_compute. reflexivity.
Defined.
