(* ===== verification/Split.v ===== *)
(** * Splitting messages for Telegram (src/internal/channels/telegram/split.go)

    [SplitMarkdown] cuts a text into messages of at most [maxLen] characters and
    keeps fenced code blocks closed.  Positions are those of characters, as in the
    code; [-1] is a failed search.  The loop shortens the rest at every turn, so the
    number of characters is enough fuel ([splitStep_shortens]); [None] would be a
    loop that does not end. *)

From S2P Require Import Prelude GoText.
From Stdlib Require Import Ascii.
#[local] Open Scope string_scope.
#[local] Open Scope list_scope.
#[local] Open Scope Z_scope.

Definition MaxMessageLen : Z := 4000.

(** ** Searches *)

(** The last position that satisfies [f] on the suffix there, from [i]; [acc] is
    the last one so far. *)
Fixpoint last_where (f : list Z → bool) (i acc : Z) (l : list Z) : Z :=
  match l with [] => acc | _ :: l' => last_where f (i + 1) (if f l then i else acc) l' end.

Definition starts (target : Z) (l : list Z) : bool := match l with r :: _ => r =? target | [] => false end.

Definition lastIndexRune (s : list Z) (target : Z) : Z := last_where (starts target) 0 (-1) s.

Definition lastIndexRuneFrom (s : list Z) (target from : Z) : Z :=
  let from := if from <? 0 then 0 else from in
  let i := last_where (starts target) 0 (-1) s in if i <? from then -1 else i.

Definition fence_here (l : list Z) : bool :=
  match l with a :: b :: c :: _ => (a =? 96) && (b =? 96) && (c =? 96) | _ => false end.

Definition lastFenceIndex (s : list Z) : Z := last_where fence_here 0 (-1) s.

(** [skip] counts the characters of the occurrence just counted. *)
Fixpoint countFence_loop (skip : nat) (l : list Z) : Z :=
  match l, skip with
  | [], _ => 0
  | _ :: l', S skip => countFence_loop skip l'
  | _ :: l', O => if fence_here l then 1 + countFence_loop 2 l' else countFence_loop 0 l'
  end.
Definition countFence (s : list Z) : Z := countFence_loop 0 s.

Fixpoint until_newline (l : list Z) : list Z :=
  match l with r :: l => if r =? 10 then [] else r :: until_newline l | [] => [] end.

Fixpoint hasRunePrefix_loop (s p : list Z) {struct p} : bool :=
  match p, s with
  | [], _ => true
  | r :: p, x :: s => (x =? r) && hasRunePrefix_loop s p
  | _ :: _, [] => false
  end.
Definition hasRunePrefix (s : list Z) (prefix : string) : bool := hasRunePrefix_loop s (runes prefix).

(** ** One turn of the loop *)

Definition fence3 : string := "```".
Definition fenceLine (rs : list Z) (fencePos : Z) : string := of_runes (until_newline (drop (Z.to_nat fencePos) rs)).

Definition splitInsideFencedCodeBlock (rs : list Z) (pos : Z) : bool * Z * string :=
  let before := take (Z.to_nat pos) rs in
  if countFence before mod 2 =? 0 then (false, -1, "") else
  let opening := lastFenceIndex before in
  if opening <? 0 then (true, -1, fence3) else (true, opening, fenceLine rs opening).

Definition recutPos (rs : list Z) (budget minCodePos : Z) : Z :=
  let budget := if Z.of_nat (length rs) <? budget then Z.of_nat (length rs) else budget in
  let budget := if budget <? 0 then 0 else budget in
  let recut := take (Z.to_nat budget) rs in
  let adjusted := lastIndexRuneFrom recut 10 minCodePos in
  let adjusted := if adjusted <? minCodePos then lastIndexRuneFrom recut 32 minCodePos else adjusted in
  if minCodePos <? adjusted then adjusted else budget.

Definition drop_newline (l : list Z) : list Z := match l with r :: l' => if r =? 10 then l' else l | [] => [] end.

(** A cut without a fence: the chunk and the rest, stripped on the left. *)
Definition plainCut (rs : list Z) (pos : Z) : string * list Z :=
  (of_runes (take (Z.to_nat pos) rs), runes (PyLStrip (of_runes (drop (Z.to_nat pos) rs)))).

Definition closing : string := String "010" fence3.

Definition splitPos (maxLen : Z) (rs : list Z) : Z :=
  let cut := take (Z.to_nat maxLen) rs in
  let pos := lastIndexRune cut 10 in
  let pos := if pos <=? 0 then lastIndexRune cut 32 else pos in
  if pos <=? 0 then maxLen else pos.

(** The position inside a block that opens the text; [None] for a hard cut. *)
Definition fencePos (maxLen pos minCodePos : Z) (rs : list Z) : option Z :=
  let closingLen := Z.of_nat (length (runes closing)) in
  let pos :=
    if pos <? minCodePos then
      (if maxLen <=? minCodePos + closingLen then None else Some (recutPos rs (maxLen - closingLen) minCodePos))
    else if maxLen <? pos + closingLen then
      (let budget := maxLen - closingLen in if budget <=? minCodePos then None else Some (recutPos rs budget minCodePos))
    else Some pos in
  match pos with Some p => if p <=? minCodePos then None else Some p | None => None end.

Definition splitStep (maxLen : Z) (rs : list Z) : string * list Z :=
  let pos := splitPos maxLen rs in
  match splitInsideFencedCodeBlock rs pos with
  | (false, _, _) => plainCut rs pos
  | (true, opening, fence) =>
      if 0 <? opening then plainCut rs opening else
      let minCodePos := Z.of_nat (length (runes fence))
                        + (if hasRunePrefix rs (fence +:+ String "010" "") then 1 else 0) in
      match fencePos maxLen pos minCodePos rs with
      | None => plainCut rs maxLen
      | Some pos =>
          (of_runes (take (Z.to_nat pos) rs) +:+ closing,
           runes fence ++ 10 :: drop_newline (drop (Z.to_nat pos) rs))
      end
  end.

Fixpoint split_loop (fuel : nat) (maxLen : Z) (rs : list Z) : option (list string) :=
  match rs, fuel with
  | [], _ => Some []
  | _, O => None
  | _, S fuel =>
      if Z.of_nat (length rs) <=? maxLen then Some [of_runes rs] else
      let '(chunk, rest) := splitStep maxLen rs in
      chunks ← split_loop fuel maxLen rest; Some (chunk :: chunks)
  end.

Definition SplitMarkdown (content : string) (maxLen : Z) : option (list string) :=
  if String.eqb content "" then Some [] else
  let content := PyLStrip content in
  if String.eqb content "" then Some [] else
  let rs := runes content in
  if Z.of_nat (length rs) <=? maxLen then Some [of_runes rs]
  else if maxLen <? 1 then Some [of_runes rs]
  else split_loop (length rs) maxLen rs.

Example split_words : SplitMarkdown "  one two three" 8 = Some ["one two"; "three"].
Proof. vm_compute. reflexivity. Qed.

(** ** Searches stay in range *)

Lemma last_where_spec f i acc l :
  last_where f i acc l = acc ∨ i ≤ last_where f i acc l < i + Z.of_nat (length l).
Proof.
  revert i acc. induction l as [|r l IH]; intros i acc; cbn [last_where length]; [by left|].
  destruct (IH (i + 1) (if f (r :: l) then i else acc)) as [->|?]; [|right; lia]. destruct (f (r :: l)); [right; lia|by left].
Qed.

Lemma last_where_found f i acc l j :
  (j < length l)%nat → f (drop j l) = true → i ≤ last_where f i acc l.
Proof.
  revert i acc j. induction l as [|r l IH]; intros i acc j Hj Hf; cbn [last_where length] in *; [lia|].
  destruct j as [|j].
  - cbn in Hf. rewrite Hf. destruct (last_where_spec f (i + 1) i l) as [->|?]; lia.
  - specialize (IH (i + 1) (if f (r :: l) then i else acc) j ltac:(lia) Hf). lia.
Qed.

Lemma lastIndexRune_range s t : -1 ≤ lastIndexRune s t < Z.of_nat (length s).
Proof. unfold lastIndexRune. destruct (last_where_spec (starts t) 0 (-1) s) as [->|?]; lia. Qed.

Lemma countFence_found skip l : 0 < countFence_loop skip l → ∃ j, (j < length l)%nat ∧ fence_here (drop j l) = true.
Proof.
  revert skip. induction l as [|r l IH]; intros skip; cbn [countFence_loop length]; [destruct skip; lia|].
  destruct skip as [|skip].
  - destruct (fence_here (r :: l)) eqn:E; [intros _; exists 0%nat; split; [lia|exact E]|].
    intros (j & ? & ?)%IH. exists (S j). split; [lia|done].
  - intros (j & ? & ?)%IH. exists (S j). split; [lia|done].
Qed.

Lemma countFence_nonneg skip l : 0 ≤ countFence_loop skip l.
Proof.
  revert skip. induction l as [|r l IH]; intros [|skip]; cbn [countFence_loop]; try lia; [|apply IH].
  destruct (fence_here (r :: l)); [specialize (IH 2%nat); lia|apply IH].
Qed.

(** An odd number of fences: the last one exists. *)
Lemma inside_opening rs pos b opening fence :
  (0 ≤ pos ≤ Z.of_nat (length rs)) → splitInsideFencedCodeBlock rs pos = (b, opening, fence) → b = true →
  0 ≤ opening < pos ∧ fence = fenceLine rs opening.
Proof.
  intros Hpos. unfold splitInsideFencedCodeBlock. set (before := take _ rs).
  assert (Z.of_nat (length before) = pos) as Hlen by (unfold before; rewrite length_take; lia).
  destruct (Z.eqb_spec (countFence before mod 2) 0) as [He|He]; [intros [= <- _ _]; done|].
  assert (0 < countFence before) as Hc.
  { pose proof (countFence_nonneg 0 before). destruct (decide (countFence before = 0)) as [Hz|]; [by rewrite Hz in He|].
    unfold countFence in *. lia. }
  apply countFence_found in Hc as (j & Hj & Hf).
  pose proof (last_where_found fence_here 0 (-1) before j Hj Hf) as H0.
  destruct (last_where_spec fence_here 0 (-1) before) as [Hr|Hr]; [lia|]. fold (lastFenceIndex before) in *.
  destruct (Z.ltb_spec (lastFenceIndex before) 0); [lia|]. intros [= <- <- <-] _. split; [lia|done].
Qed.

Lemma until_newline_spec l : (until_newline l = l) ∨ ∃ v, l = until_newline l ++ 10 :: v.
Proof.
  induction l as [|r l IH]; cbn; [by left|]. destruct (Z.eqb_spec r 10) as [->|].
  - right. by exists l.
  - destruct IH as [->|[v Hv]]; [by left|right]. exists v. cbn. by f_equal.
Qed.

Lemma hasRunePrefix_app l v : hasRunePrefix_loop (l ++ v) l = true.
Proof. induction l as [|r l IH]; cbn; [done|]. rewrite Z.eqb_refl. exact IH. Qed.

Lemma recutPos_le rs budget m : 0 ≤ budget → recutPos rs budget m ≤ budget.
Proof.
  intros Hb. unfold recutPos. cbv zeta. set (b1 := if _ <? budget then _ else budget). set (b2 := if b1 <? 0 then 0 else b1).
  assert (0 ≤ b2 ≤ budget) as Hb2.
  { unfold b2, b1. destruct (Z.ltb_spec (Z.of_nat (length rs)) budget); case_match; bool_hyps; lia. }
  assert (∀ t, lastIndexRuneFrom (take (Z.to_nat b2) rs) t m ≤ b2) as Hl.
  { intros t. unfold lastIndexRuneFrom. pose proof (lastIndexRune_range (take (Z.to_nat b2) rs) t) as Hr.
    rewrite length_take in Hr. fold (lastIndexRune (take (Z.to_nat b2) rs) t). repeat case_match; lia. }
  destruct (m <? _); [|lia]. destruct (_ <? m); [specialize (Hl 32)|specialize (Hl 10)]; lia.
Qed.

Lemma fencePos_range maxLen pos m rs p :
  0 ≤ m → fencePos maxLen pos m rs = Some p → m < p ∧ p + 4 ≤ maxLen.
Proof.
  intros Hm. unfold fencePos. cbv zeta. change (Z.of_nat (length (runes closing))) with 4.
  assert (∀ b, 0 ≤ b → recutPos rs b m ≤ b) as Hr by (intros; by apply recutPos_le).
  destruct (Z.ltb_spec pos m).
  - destruct (Z.leb_spec maxLen (m + 4)); [done|]. destruct (Z.leb_spec (recutPos rs (maxLen - 4) m) m); [done|].
    intros [= <-]. specialize (Hr (maxLen - 4)). lia.
  - destruct (Z.ltb_spec maxLen (pos + 4)).
    + destruct (Z.leb_spec (maxLen - 4) m); [done|]. destruct (Z.leb_spec (recutPos rs (maxLen - 4) m) m); [done|].
      intros [= <-]. specialize (Hr (maxLen - 4)). lia.
    + destruct (Z.leb_spec pos m); [done|]. intros [= <-]. lia.
Qed.

(** ** One turn *)

Definition nonspace (l : list Z) : list Z := List.filter (λ r, negb (PyIsSpace r)) l.

Lemma nonspace_lstrip l : nonspace (lstrip_runes l) = nonspace l.
Proof. induction l as [|r l IH]; cbn; [done|]. destruct (PyIsSpace r) eqn:E; cbn; [done|]. by rewrite E. Qed.

Lemma nonspace_app l l' : nonspace (l ++ l') = nonspace l ++ nonspace l'.
Proof. apply List.filter_app. Qed.

(** A turn: the chunk fits, the rest is shorter, and no character but white space
    is lost between them. *)
Record turn (maxLen : Z) (rs : list Z) (out : string * list Z) : Prop := {
  turn_shorter : (length out.2 < length rs)%nat;
  turn_valid : Forall valid_rune out.2;
  turn_fits : Z.of_nat (length (runes out.1)) ≤ maxLen;
  turn_keeps : nonspace rs `sublist_of` nonspace (runes out.1 ++ out.2) }.

Lemma plainCut_turn maxLen rs pos :
  Forall valid_rune rs → 0 < pos ≤ maxLen → pos ≤ Z.of_nat (length rs) → turn maxLen rs (plainCut rs pos).
Proof.
  intros Hv Hpos Hl. assert (Forall valid_rune (take (Z.to_nat pos) rs)) as Ht by (by apply Forall_take).
  assert (Forall valid_rune (drop (Z.to_nat pos) rs)) as Hd by (by apply Forall_drop).
  unfold plainCut. rewrite runes_PyLStrip, runes_of_runes by done.
  pose proof (lstrip_runes_length (drop (Z.to_nat pos) rs)) as Hle. rewrite length_drop in Hle. split; cbn [fst snd].
  - lia.
  - rewrite <-(runes_of_runes (drop _ rs)), <-runes_PyLStrip by done. apply runes_valid.
  - rewrite runes_of_runes, length_take by done. lia.
  - rewrite runes_of_runes, nonspace_app, nonspace_lstrip, <-nonspace_app, take_drop by done. done.
Qed.

Lemma runes_closed l : Forall valid_rune l → runes (of_runes l +:+ closing) = l ++ [10; 96; 96; 96].
Proof.
  intros Hl. change closing with (of_runes [10; 96; 96; 96]). rewrite <-of_runes_app. apply runes_of_runes.
  apply Forall_app. split; [done|]. unfold valid_rune. repeat constructor; lia.
Qed.

Lemma nonspace_drop_newline l : nonspace (drop_newline l) = nonspace l.
Proof. destruct l as [|r l]; cbn; [done|]. by destruct (Z.eqb_spec r 10) as [->|]. Qed.

(** A cut inside a block that opens the text: the block is closed and opened again. *)
Lemma fenceCut_turn maxLen u v p :
  let rs := u ++ 10 :: v in
  Forall valid_rune rs → Z.of_nat (length u) + 1 < p → p + 4 ≤ maxLen → maxLen < Z.of_nat (length rs) →
  turn maxLen rs (of_runes (take (Z.to_nat p) rs) +:+ closing, u ++ 10 :: drop_newline (drop (Z.to_nat p) rs)).
Proof.
  intros rs Hv Hp Hm Hl. assert (Forall valid_rune (take (Z.to_nat p) rs)) as Ht by (by apply Forall_take).
  assert (length (drop_newline (drop (Z.to_nat p) rs)) ≤ length rs - Z.to_nat p)%nat as Hd.
  { rewrite <-length_drop. destruct (drop (Z.to_nat p) rs) as [|r l]; cbn; [lia|]. destruct (r =? 10); cbn; lia. }
  split; cbn [fst snd].
  - rewrite length_app. cbn [length]. lia.
  - apply Forall_app in Hv as [Hu Hv']. inversion Hv' as [|? ? H10 Hv'']; subst. apply Forall_app. split; [done|]. constructor; [done|].
    assert (Forall valid_rune (drop (Z.to_nat p) rs)) as Hdv by (apply Forall_drop; apply Forall_app; split; [done|by constructor]).
    destruct (drop (Z.to_nat p) rs) as [|r l]; cbn; [done|]. destruct (r =? 10); [by inversion Hdv|done].
  - rewrite runes_closed, length_app, length_take by done. cbn [length]. lia.
  - rewrite runes_closed by done. rewrite <-(take_drop (Z.to_nat p) rs) at 1. rewrite !nonspace_app.
    rewrite <-app_assoc. apply sublist_app; [done|].
    change (nonspace (10 :: ?l)) with (nonspace l) in *.
    transitivity (nonspace (drop_newline (drop (Z.to_nat p) rs))); [by rewrite nonspace_drop_newline|].
    apply sublist_inserts_l, sublist_inserts_l. done.
Qed.

(** Every turn makes progress. *)
Lemma splitStep_shortens maxLen rs :
  Forall valid_rune rs → 1 ≤ maxLen < Z.of_nat (length rs) → turn maxLen rs (splitStep maxLen rs).
Proof.
  intros Hv Hm. assert (0 < splitPos maxLen rs ≤ maxLen) as Hpos.
  { unfold splitPos. set (cut := take _ rs). cbv zeta. pose proof (lastIndexRune_range cut 10) as H1.
    pose proof (lastIndexRune_range cut 32) as H2.
    assert (Z.of_nat (length cut) = maxLen) as Hc by (unfold cut; rewrite length_take; lia).
    repeat case_match; bool_hyps; lia. }
  unfold splitStep. cbv zeta. set (pos := splitPos maxLen rs) in *.
  destruct (splitInsideFencedCodeBlock rs pos) as [[inside opening] fence] eqn:Hin.
  destruct inside; [|apply plainCut_turn; [done|lia..]].
  destruct (inside_opening rs pos true opening fence ltac:(lia) Hin eq_refl) as [Ho ->].
  destruct (Z.ltb_spec 0 opening); [apply plainCut_turn; [done|lia..]|].
  assert (opening = 0) as -> by lia. unfold fenceLine. change (drop (Z.to_nat 0) rs) with rs.
  destruct (until_newline_spec rs) as [Hu|[v Hu]].
  - rewrite Hu, runes_of_runes by done.
    set (m := Z.of_nat (length rs) + (if hasRunePrefix rs _ then 1 else 0)). assert (Z.of_nat (length rs) ≤ m) as Hmin by (unfold m; case_match; lia).
    destruct (fencePos maxLen pos m rs) as [p|] eqn:Hf; [|apply plainCut_turn; [done|lia..]].
    apply fencePos_range in Hf; lia.
  - set (u := until_newline rs) in *.
    assert (Forall valid_rune u) as Hvu by (rewrite Hu in Hv; by apply Forall_app in Hv as [? _]).
    assert (hasRunePrefix rs (of_runes u +:+ String "010" "") = true) as ->.
    { unfold hasRunePrefix. change (String "010" "") with (of_runes [10]). rewrite <-of_runes_app, runes_of_runes.
      - rewrite Hu at 1. change (10 :: v) with ([10] ++ v). rewrite app_assoc. apply hasRunePrefix_app.
      - apply Forall_app. split; [done|]. constructor; [unfold valid_rune; lia|constructor]. }
    rewrite runes_of_runes by done.
    destruct (fencePos maxLen pos (Z.of_nat (length u) + 1) rs) as [p|] eqn:Hf; [|apply plainCut_turn; [done|lia..]].
    apply fencePos_range in Hf; [|lia]. clearbody u. subst rs. apply fenceCut_turn; [done|lia..].
Qed.

Lemma split_loop_spec fuel maxLen rs :
  Forall valid_rune rs → 1 ≤ maxLen → (length rs ≤ fuel)%nat →
  ∃ chunks, split_loop fuel maxLen rs = Some chunks ∧
    Forall (λ c, Z.of_nat (length (runes c)) ≤ maxLen) chunks ∧
    nonspace rs `sublist_of` nonspace (concat (map runes chunks)).
Proof.
  revert rs. induction fuel as [|fuel IH]; intros rs Hv Hm Hf.
  { destruct rs; [|cbn in Hf; lia]. exists []. by repeat constructor. }
  destruct rs as [|r rs']; [exists []; by repeat constructor|]. set (rs := r :: rs') in *. cbn [split_loop]. fold rs.
  destruct (Z.leb_spec (Z.of_nat (length rs)) maxLen) as [Hl|Hl].
  - exists [of_runes rs]. cbn [map concat]. rewrite app_nil_r, runes_of_runes by done. split_and!; [done| |done].
    constructor; [by rewrite runes_of_runes|constructor].
  - destruct (splitStep_shortens maxLen rs Hv ltac:(lia)) as [H1 H2 H3 H4].
    destruct (splitStep maxLen rs) as [chunk rest]. cbn [fst snd] in *.
    destruct (IH rest H2 Hm ltac:(lia)) as (chunks & -> & Hc & Hs). exists (chunk :: chunks). cbn [mbind option_bind map concat].
    split_and!; [done|by constructor|]. etrans; [exact H4|]. rewrite !nonspace_app. by apply sublist_app.
Qed.

(** C21. [SplitMarkdown] always returns.  Each message it returns has at most
    [maxLen] characters, and read one after the other they hold every character of
    the text but white space, in order; only white space and fence lines differ. *)
Theorem split_total_bounded content maxLen :
  1 ≤ maxLen →
  ∃ chunks, SplitMarkdown content maxLen = Some chunks ∧
    Forall (λ c, Z.of_nat (length (runes c)) ≤ maxLen) chunks ∧
    nonspace (runes content) `sublist_of` nonspace (concat (map runes chunks)).
Proof.
  intros Hm. unfold SplitMarkdown. destruct (String.eqb_spec content "") as [->|_]; [exists []; by repeat constructor|].
  cbv zeta. rewrite <-nonspace_lstrip, <-runes_PyLStrip.
  destruct (String.eqb_spec (PyLStrip content) "") as [->|_]; [exists []; by repeat constructor|].
  pose proof (runes_valid (PyLStrip content)) as Hv. set (rs := runes (PyLStrip content)) in *.
  destruct (Z.leb_spec (Z.of_nat (length rs)) maxLen) as [Hl|Hl].
  - exists [of_runes rs]. cbn [map concat]. rewrite app_nil_r, runes_of_runes by done. split_and!; [done| |done].
    constructor; [by rewrite runes_of_runes|constructor].
  - destruct (Z.ltb_spec maxLen 1); [lia|]. by apply split_loop_spec.
Qed.

Lemma split_total_bounded_witness :
  ∃ chunks, SplitMarkdown "  one two three" 8 = Some chunks ∧
    Forall (λ c, Z.of_nat (length (runes c)) ≤ 8) chunks ∧
    nonspace (runes "  one two three") `sublist_of` nonspace (concat (map runes chunks)).
Proof. apply split_total_bounded. lia. Defined.

(** A text of Markdown with the fences of its blocks in pairs. *)
Definition balanced (s : string) : bool := countFence (runes s) mod 2 =? 0.

Definition inlineBlock : string := fence3 +:+ String "010" ("ab" +:+ fence3 +:+ " cd ef gh ij kl mn op qr st uv").

(** The cut can leave a block unbalanced, which the comment on [SplitMarkdown]
    excludes: when the only line break in reach is the one after the opening fence,
    the cut moves past the end of the block without counting the fences again, so
    the message gets a third fence and the prose that follows becomes code. *)
Theorem split_can_unbalance :
  balanced inlineBlock = true ∧
  ∃ c1 c2 c3, SplitMarkdown inlineBlock 20 = Some [c1; c2; c3] ∧ balanced c1 = false ∧
    c2 = fence3 +:+ String "010" (" gh ij kl" +:+ closing).
Proof. split; [reflexivity|]. eexists _, _, _. split; [vm_compute; reflexivity|]. split; reflexivity. Qed.
