(* ===== verification/MultiAgent.v ===== *)
(** * Delegated tasks (src/internal/multiagent/manager.go)

    The manager of delegated tasks: limits, admission, the goroutine that runs a
    task, cancellation, retention, and the file the tasks survive a restart in.
    The state is the record [Manager]; [exec] is one atomic action of a method or a
    goroutine (the code between two releases of the lock, or one operation on a
    channel), and the system is its closure.  The executor is any program: while a
    task executes it may delegate, wait and return as it likes.  That a context is
    done (a deadline, [Cancel], the parent's end) can be observed at any moment.  The
    file is kept as its tasks by id, with the statuses the manager writes; a file
    with another status, which only another program can have written, is outside
    the model.  Writing the file may fail at each of its three attempts in the life
    of a task: [persist] then returns without a word and the file stays as it was.
    A restart is that of the process: what was written is there.  [newID] draws ids
    that have not been drawn before. *)

From S2P Require Import Prelude GoText GoLib.
From Stdlib Require Import Ascii.
#[local] Open Scope string_scope.
#[local] Open Scope list_scope.
#[local] Open Scope Z_scope.

(** ** Data *)

Inductive TaskStatus := TaskSubmitted | TaskWorking | TaskCompleted | TaskFailed | TaskCanceled.
#[export] Instance TaskStatus_eq_dec : EqDecision TaskStatus.
Proof. solve_decision. Defined.

Record Profile := mkProfile {
  pf_ID : string; pf_Name : string; pf_Role : string; pf_Instructions : string; pf_Model : string; pf_Provider : string;
  pf_Endpoint : string; pf_TokenEnv : string; pf_ToolAllow : list string; pf_DelegateTo : list string;
  pf_MemoryScope : string; pf_MemoryOwner : string; pf_MaxParallel : Z; pf_MaxTokens : Z; pf_MaxToolIterations : Z;
  pf_Enabled : bool }.

(** Durations are in nanoseconds. *)
Record Limits := mkLimits {
  MaxDepth : Z; MaxParallel : Z; MaxChildren : Z; MaxTasks : Z; TaskTimeout : Z; Retention : Z; TaskTimeoutSecs : Z;
  RetentionMinutes : Z }.

(** [tk_Completed] is [None] for the zero time. *)
Record Task := mkTask {
  tk_ID : string; tk_Parent : string; tk_Root : string; tk_Trace : string; tk_Agent : string; tk_RequestedBy : string;
  tk_Depth : Z; tk_Prompt : string; tk_Status : TaskStatus; tk_Result : string; tk_Error : string; tk_Created : Z;
  tk_Started : option Z; tk_Completed : option Z; tk_Deadline : Z; tk_Ancestry : list string }.

(** [dr_Wait] and [dr_Detach] only matter after the task is registered: a caller
    that waits is a [LWait] of its executor, and a detached task is one whose context
    is not done when its parent's is. *)
Record DelegateRequest := mkDelegate {
  dr_AgentID : string; dr_Prompt : string; dr_Wait : bool; dr_Timeout : Z; dr_RequestedBy : string; dr_Detach : bool }.

Record ExecutionMeta := mkMeta {
  em_TaskID : string; em_Root : string; em_Trace : string; em_Agent : string; em_Depth : Z; em_Ancestry : list string }.

(** Where the goroutine of a task stands.  A call of [withYieldedSlot] that has
    given up the slot is in the list of [PhExecuting], with the task it waits for. *)
Inductive phase :=
  | PhSubmitting                             (* registered, not yet written *)
  | PhSpawned                                (* before the slot of the profile *)
  | PhProfile                                (* before the lease *)
  | PhLeased
  | PhStarting                               (* marked as working, not yet written *)
  | PhExecuting (waits : list (option string))
  | PhFinishing (status : TaskStatus) (result error : string)
  | PhPersisting                             (* terminal, not yet written *)
  | PhClosing                                (* after the attempt to write, before close(done) *)
  | PhReleasing                              (* the deferred calls *)
  | PhExited.

#[export] Instance ExecutionMeta_eq_dec : EqDecision ExecutionMeta.
Proof. solve_decision. Defined.

(** [m_leases] are the tasks that hold a place of [sem], [m_slots] those that hold
    one of a profile's semaphore, with the profile; [m_metas] are the metadata given
    to executors so far.  [m_unsaved] is a ghost: the tasks that ended when the file
    could not be written, and that no later write has saved. *)
Record Manager := mkManager {
  m_profiles : gmap string Profile; m_limits : Limits; m_tasks : gmap string Task; m_done : gmap string bool;
  m_cancels : gset string; m_runs : gmap string phase; m_leases : gset string; m_slots : gmap string string;
  m_metas : list ExecutionMeta; m_persists : bool; m_disk : gmap string Task; m_unsaved : gset string }.

Definition isTerminal (s : TaskStatus) : bool :=
  match s with TaskCompleted | TaskFailed | TaskCanceled => true | _ => false end.

Definition second : Z := 1000000000.
Definition minute : Z := 60 * second.

Definition normalizeLimits (l : Limits) : Limits :=
  let timeout := if TaskTimeout l <=? 0 then (if 0 <? TaskTimeoutSecs l then TaskTimeoutSecs l * second else 5 * minute)
                 else TaskTimeout l in
  let retention := if Retention l <=? 0 then (if 0 <? RetentionMinutes l then RetentionMinutes l * minute else 60 * minute)
                   else Retention l in
  mkLimits (if MaxDepth l <=? 0 then 3 else MaxDepth l) (if MaxParallel l <=? 0 then 4 else MaxParallel l)
    (if MaxChildren l <=? 0 then 8 else MaxChildren l) (if MaxTasks l <=? 0 then 1024 else MaxTasks l)
    timeout retention (timeout / second) (retention / minute).

(** The bytes are those of the characters: any other byte is refused either way. *)
Definition idChar (c : ascii) : bool :=
  let r := byteZ c in
  ((97 <=? r) && (r <=? 122)) || ((65 <=? r) && (r <=? 90)) || ((48 <=? r) && (r <=? 57)) || (r =? 45) || (r =? 95).
Definition validProfileID (id : string) : bool :=
  match id with
  | "" => false
  | String c _ =>
      Nat.leb (slen id) 64 && forallb idChar (String.list_ascii_of_string id)
      && negb ((byteZ c =? 45) || (byteZ c =? 95))
  end.

Definition delegationAllowed (allowed : list string) (target : string) : bool :=
  existsb (λ item, let item := TrimSpace item in String.eqb item "*" || String.eqb item target) allowed.

(** The capacity of a profile's semaphore. *)
Definition profileCap (l : Limits) (p : Profile) : Z :=
  if (pf_MaxParallel p <=? 0) || (MaxParallel l <? pf_MaxParallel p) then MaxParallel l else pf_MaxParallel p.

(** ** Retention *)

(** [sort.Slice] by time of completion. *)
Definition sort_rows : list (Z * string) → list (Z * string) := sort_by (λ x y, x.1 <=? y.1).

(** The loop that deletes the oldest while there are too many. *)
Fixpoint evict (maxTasks : Z) (rows : list (Z * string)) (tasks : gmap string Task) : gmap string Task :=
  match rows with
  | [] => tasks
  | (_, id) :: rows => if Z.of_nat (size tasks) <=? maxTasks then tasks else evict maxTasks rows (delete id tasks)
  end.

Definition expired_task (limits : Limits) (now : Z) (t : Task) : bool :=
  isTerminal (tk_Status t) && match tk_Completed t with Some at_ => at_ <? now - Retention limits | None => false end.

Definition cleaned (limits : Limits) (now : Z) (tasks : gmap string Task) : gmap string Task :=
  let tasks := filter (λ kv, expired_task limits now kv.2 = false) tasks in
  if Z.of_nat (size tasks) <=? MaxTasks limits then tasks else
  let rows := omap (λ kv, if isTerminal (tk_Status kv.2) then Some (default 0 (tk_Completed kv.2), kv.1) else None)
                (map_to_list tasks) in
  evict (MaxTasks limits) (sort_rows rows) tasks.

Definition with_tasks (tasks : gmap string Task) (m : Manager) : Manager :=
  mkManager (m_profiles m) (m_limits m) tasks (m_done m) (m_cancels m) (m_runs m) (m_leases m) (m_slots m) (m_metas m)
    (m_persists m) (m_disk m) (m_unsaved m).

(** Deleted tasks lose their channel and their cancel function. *)
Definition cleanupLocked (now : Z) (m : Manager) : Manager :=
  let tasks := cleaned (m_limits m) now (m_tasks m) in
  let gone := dom (m_tasks m) ∖ dom tasks in
  mkManager (m_profiles m) (m_limits m) tasks (filter (λ kv, kv.1 ∉ gone) (m_done m)) (m_cancels m ∖ gone) (m_runs m)
    (m_leases m) (m_slots m) (m_metas m) (m_persists m) (m_disk m) (m_unsaved m).

(** [ok]: the directory, the temporary file and the rename succeed; otherwise
    [persist] returns and leaves the file. *)
Definition persist (ok : bool) (m : Manager) : Manager :=
  mkManager (m_profiles m) (m_limits m) (m_tasks m) (m_done m) (m_cancels m) (m_runs m) (m_leases m) (m_slots m) (m_metas m)
    (m_persists m) (if m_persists m && ok then m_tasks m else m_disk m) (if ok then ∅ else m_unsaved m).

Definition set_unsaved (unsaved : gset string) (m : Manager) : Manager :=
  mkManager (m_profiles m) (m_limits m) (m_tasks m) (m_done m) (m_cancels m) (m_runs m) (m_leases m) (m_slots m) (m_metas m)
    (m_persists m) (m_disk m) unsaved.

(** ** Start *)

Definition interrupted (now : Z) (t : Task) : Task :=
  mkTask (tk_ID t) (tk_Parent t) (tk_Root t) (tk_Trace t) (tk_Agent t) (tk_RequestedBy t) (tk_Depth t) (tk_Prompt t)
    TaskFailed (tk_Result t) "runtime restarted before task completed" (tk_Created t) (tk_Started t) (Some now)
    (tk_Deadline t) (tk_Ancestry t).

Definition recovered (now : Z) (t : Task) : Task := if isTerminal (tk_Status t) then t else interrupted now t.

Definition named (p : Profile) (id : string) : Profile :=
  mkProfile id (if String.eqb (pf_Name p) "" then id else pf_Name p) (pf_Role p) (pf_Instructions p) (pf_Model p)
    (pf_Provider p) (pf_Endpoint p) (pf_TokenEnv p) (pf_ToolAllow p) (pf_DelegateTo p)
    (if String.eqb (pf_MemoryScope p) "" then "project" else pf_MemoryScope p) (pf_MemoryOwner p) (pf_MaxParallel p)
    (pf_MaxTokens p) (pf_MaxToolIterations p) (pf_Enabled p).

(** What a request is refused for, with what its text names. *)
Inductive ManagerError :=
  | ErrProfileIDRequired | ErrInvalidProfileID (id : string) | ErrDuplicateProfile (id : string)
  | ErrAgentRequired | ErrPromptRequired | ErrUnknownAgent (id : string) | ErrAgentDisabled (id : string)
  | ErrMaxDepth (limit : Z) | ErrNotAllowed (source target : string) | ErrCycle (agent : string)
  | ErrMaxChildren (limit : Z) (parent : string) | ErrCapacity (limit : Z)
  | ErrNotFound (id : string) | ErrTask (text : string).

Fixpoint addProfiles (profiles : list Profile) (acc : gmap string Profile) : ManagerError + gmap string Profile :=
  match profiles with
  | [] => inr acc
  | p :: rest =>
      let id := TrimSpace (pf_ID p) in
      if String.eqb id "" then inl ErrProfileIDRequired
      else if negb (validProfileID id) then inl (ErrInvalidProfileID id)
      else match acc !! id with
      | Some _ => inl (ErrDuplicateProfile id)
      | None => addProfiles rest (<[id := named p id]> acc)
      end
  end.

(** [disk] is what the file holds ([load]). *)
Definition NewManager (profiles : list Profile) (limits : Limits) (persists : bool) (disk : gmap string Task) (now : Z)
    : ManagerError + Manager :=
  let limits := normalizeLimits limits in
  profiles ←? addProfiles profiles ∅;
  let tasks := if persists then recovered now <$> filter (λ kv, kv.1 ≠ "") disk else ∅ in
  inr (cleanupLocked now
    (mkManager profiles limits tasks ((λ _, true) <$> tasks) ∅ ∅ ∅ ∅ [] persists disk ∅)).

(** ** Delegation *)

(** What a delegated task inherits: depth, parent, root, trace, requester and
    ancestry. *)
Record lineage := mkLineage {
  li_depth : Z; li_parent : string; li_root : string; li_trace : string; li_by : string; li_ancestry : list string }.

Definition lineageOf (meta : option ExecutionMeta) (trace requestedBy : string) : lineage :=
  let by_ := TrimSpace requestedBy in
  let by_ := if String.eqb by_ "" then "commander" else by_ in
  match meta with
  | None => mkLineage 1 "" "" trace by_ []
  | Some e =>
      let named := negb (String.eqb (em_Agent e) "") in
      mkLineage (em_Depth e + 1) (em_TaskID e) (em_Root e)
        (if String.eqb (em_Trace e) "" then trace else em_Trace e) (if named then em_Agent e else by_)
        (em_Ancestry e ++ if named then [em_Agent e] else [])
  end.

(** The checks before the lock is taken. *)
Definition checkDelegation (m : Manager) (meta : option ExecutionMeta) (agent prompt : string) (li : lineage) : ManagerError + unit :=
  _ ←? guard_err (String.eqb agent "") ErrAgentRequired;
  _ ←? guard_err (String.eqb prompt "") ErrPromptRequired;
  profile ←? match m_profiles m !! agent with Some p => inr p | None => inl (ErrUnknownAgent agent) end;
  _ ←? guard_err (negb (pf_Enabled profile)) (ErrAgentDisabled agent);
  _ ←? guard_err (MaxDepth (m_limits m) <? li_depth li) (ErrMaxDepth (MaxDepth (m_limits m)));
  _ ←? match meta with
       | Some e =>
           if String.eqb (em_Agent e) "" then inr () else
           match m_profiles m !! em_Agent e with
           | Some source => guard_err (negb (delegationAllowed (pf_DelegateTo source) agent)) (ErrNotAllowed (em_Agent e) agent)
           | None => inl (ErrNotAllowed (em_Agent e) agent)
           end
       | None => inr ()
       end;
  guard_err (existsb (String.eqb agent) (li_ancestry li)) (ErrCycle agent).

Definition children (parent : string) (tasks : gmap string Task) : nat :=
  size (filter (λ kv, tk_Parent kv.2 = parent) tasks).

Definition newTask (m : Manager) (id agent prompt : string) (timeout now : Z) (li : lineage) : Task :=
  let timeout := if (timeout <=? 0) || (TaskTimeout (m_limits m) <? timeout) then TaskTimeout (m_limits m) else timeout in
  mkTask id (li_parent li) (if String.eqb (li_root li) "" then id else li_root li) (li_trace li) agent (li_by li) (li_depth li)
    prompt TaskSubmitted "" "" now None None (now + timeout) (li_ancestry li).

Definition register (t : Task) (m : Manager) : Manager :=
  mkManager (m_profiles m) (m_limits m) (<[tk_ID t := t]> (m_tasks m)) (<[tk_ID t := false]> (m_done m)) (m_cancels m)
    (<[tk_ID t := PhSubmitting]> (m_runs m)) (m_leases m) (m_slots m) (m_metas m) (m_persists m) (m_disk m) (m_unsaved m).

(** [Delegate] up to the release of the lock; [id] and [trace] are fresh. *)
Definition Delegate (m : Manager) (meta : option ExecutionMeta) (req : DelegateRequest) (id trace : string) (now : Z)
    : ManagerError + Manager :=
  let agent := TrimSpace (dr_AgentID req) in
  let prompt := TrimSpace (dr_Prompt req) in
  let li := lineageOf meta trace (dr_RequestedBy req) in
  _ ←? checkDelegation m meta agent prompt li;
  let parent := li_parent li in
  _ ←? guard_err (negb (String.eqb parent "") && (MaxChildren (m_limits m) <=? Z.of_nat (children parent (m_tasks m))))
         (ErrMaxChildren (MaxChildren (m_limits m)) parent);
  let m := cleanupLocked now m in
  _ ←? guard_err (MaxTasks (m_limits m) <=? Z.of_nat (size (m_tasks m))) (ErrCapacity (MaxTasks (m_limits m)));
  inr (register (newTask m id agent prompt (dr_Timeout req) now li) m).

(** ** The goroutine of a task *)

Definition set_phase (id : string) (ph : phase) (m : Manager) : Manager :=
  mkManager (m_profiles m) (m_limits m) (m_tasks m) (m_done m) (m_cancels m) (<[id := ph]> (m_runs m)) (m_leases m)
    (m_slots m) (m_metas m) (m_persists m) (m_disk m) (m_unsaved m).
Definition set_slots (leases : gset string) (slots : gmap string string) (m : Manager) : Manager :=
  mkManager (m_profiles m) (m_limits m) (m_tasks m) (m_done m) (m_cancels m) (m_runs m) leases slots (m_metas m)
    (m_persists m) (m_disk m) (m_unsaved m).
Definition set_cancels (cancels : gset string) (m : Manager) : Manager :=
  mkManager (m_profiles m) (m_limits m) (m_tasks m) (m_done m) cancels (m_runs m) (m_leases m) (m_slots m) (m_metas m)
    (m_persists m) (m_disk m) (m_unsaved m).
Definition set_done (id : string) (m : Manager) : Manager :=
  mkManager (m_profiles m) (m_limits m) (m_tasks m)
    (match m_done m !! id with Some _ => <[id := true]> (m_done m) | None => m_done m end)
    (m_cancels m) (m_runs m) (m_leases m) (m_slots m) (m_metas m) (m_persists m) (m_disk m) (m_unsaved m).
Definition add_meta (e : ExecutionMeta) (m : Manager) : Manager :=
  mkManager (m_profiles m) (m_limits m) (m_tasks m) (m_done m) (m_cancels m) (m_runs m) (m_leases m) (m_slots m)
    (e :: m_metas m) (m_persists m) (m_disk m) (m_unsaved m).

Definition working (now : Z) (t : Task) : Task :=
  mkTask (tk_ID t) (tk_Parent t) (tk_Root t) (tk_Trace t) (tk_Agent t) (tk_RequestedBy t) (tk_Depth t) (tk_Prompt t)
    TaskWorking (tk_Result t) (tk_Error t) (tk_Created t) (Some now) (tk_Completed t) (tk_Deadline t) (tk_Ancestry t).

(** [finish]: an empty [error] is a nil error. *)
Definition finished (status : TaskStatus) (result error : string) (now : Z) (t : Task) : Task :=
  mkTask (tk_ID t) (tk_Parent t) (tk_Root t) (tk_Trace t) (tk_Agent t) (tk_RequestedBy t) (tk_Depth t) (tk_Prompt t)
    status result (if String.eqb error "" then tk_Error t else error) (tk_Created t) (tk_Started t) (Some now)
    (tk_Deadline t) (tk_Ancestry t).

Definition metaOf (t : Task) : ExecutionMeta :=
  mkMeta (tk_ID t) (tk_Root t) (tk_Trace t) (tk_Agent t) (tk_Depth t) (tk_Ancestry t).

(** How many tasks hold a slot of a profile. *)
Definition profileLoad (agent : string) (m : Manager) : Z :=
  Z.of_nat (size (filter (λ kv, kv.2 = agent) (m_slots m))).

(** How [Execute] ended. *)
Inductive outcome := OutOK (result : string) | OutError (result error : string) | OutCanceled (result error : string).

Definition finishing (o : outcome) : phase :=
  match o with
  | OutOK r => PhFinishing TaskCompleted r ""
  | OutError r e => PhFinishing TaskFailed r e
  | OutCanceled r e => PhFinishing TaskCanceled r e
  end.

Inductive label :=
  | LDelegate (meta : option ExecutionMeta) (req : DelegateRequest) (id trace : string) (now : Z)
  | LCleanup (now : Z)
  | LSubmit (id : string) (ok : bool)
  | LSlot (id : string)
  | LLease (id : string)
  | LStart (id : string) (now : Z)
  | LStarted (id : string) (ok : bool)
  | LYield (id : string)
  | LWait (id : string) (i : nat) (target : string)
  | LResume (id : string) (i : nat)
  | LReturn (id : string) (o : outcome)
  | LFinish (id : string) (now : Z)
  | LPersist (id : string) (ok : bool)
  | LClose (id : string)
  | LExit (id : string)
  | LContextDone (id : string) (error : string)
  | LResumeCanceled (id : string) (i : nat).

(** Whether [Wait] returns without being canceled. *)
Definition waitOver (m : Manager) (target : option string) : bool :=
  match target with
  | None => true
  | Some id =>
      match m_tasks m !! id with
      | None => true
      | Some t => isTerminal (tk_Status t) || bool_decide (m_done m !! id = Some true)
      end
  end.

Definition remove_nth {A} (i : nat) (l : list A) : list A := take i l ++ drop (S i) l.

Definition leaseFree (m : Manager) : bool := Z.of_nat (size (m_leases m)) <? MaxParallel (m_limits m).

(** One action; [None] when it is not possible now. *)
Definition exec (l : label) (m : Manager) : option Manager :=
  match l with
  | LDelegate meta req id trace now =>
      if bool_decide (m_tasks m !! id = None) && bool_decide (m_runs m !! id = None)
         && match meta with Some e => bool_decide (e ∈ m_metas m) | None => true end
      then match Delegate m meta req id trace now with inr m => Some m | inl _ => None end else None
  | LCleanup now => Some (cleanupLocked now m)
  | LSubmit id ok =>
      match m_runs m !! id with
      | Some PhSubmitting => Some (set_phase id PhSpawned (set_cancels ({[id]} ∪ m_cancels m) (persist ok m)))
      | _ => None
      end
  | LSlot id =>
      match m_runs m !! id, m_tasks m !! id with
      | Some PhSpawned, Some t =>
          match m_profiles m !! tk_Agent t with
          | None => Some (set_phase id PhProfile m)
          | Some p =>
              if profileLoad (tk_Agent t) m <? profileCap (m_limits m) p
              then Some (set_phase id PhProfile (set_slots (m_leases m) (<[id := tk_Agent t]> (m_slots m)) m)) else None
          end
      | _, _ => None
      end
  | LLease id =>
      match m_runs m !! id with
      | Some PhProfile => if leaseFree m then Some (set_phase id PhLeased (set_slots ({[id]} ∪ m_leases m) (m_slots m) m)) else None
      | _ => None
      end
  | LStart id now =>
      match m_runs m !! id, m_tasks m !! id with
      | Some PhLeased, Some t => Some (set_phase id PhStarting (with_tasks (<[id := working now t]> (m_tasks m)) m))
      | _, _ => None
      end
  | LStarted id ok =>
      match m_runs m !! id, m_tasks m !! id with
      | Some PhStarting, Some t => Some (set_phase id (PhExecuting []) (add_meta (metaOf t) (persist ok m)))
      | _, _ => None
      end
  | LYield id =>
      match m_runs m !! id with
      | Some (PhExecuting ws) => Some (set_phase id (PhExecuting (ws ++ [None])) (set_slots (m_leases m ∖ {[id]}) (m_slots m) m))
      | _ => None
      end
  | LWait id i target =>
      match m_runs m !! id with
      | Some (PhExecuting ws) => match ws !! i with Some None => Some (set_phase id (PhExecuting (<[i := Some target]> ws)) m) | _ => None end
      | _ => None
      end
  | LResume id i =>
      match m_runs m !! id with
      | Some (PhExecuting ws) =>
          match ws !! i with
          | Some w =>
              if waitOver m w && (bool_decide (id ∈ m_leases m) || leaseFree m)
              then Some (set_phase id (PhExecuting (remove_nth i ws)) (set_slots ({[id]} ∪ m_leases m) (m_slots m) m)) else None
          | None => None
          end
      | _ => None
      end
  | LReturn id o => match m_runs m !! id with Some (PhExecuting []) => Some (set_phase id (finishing o) m) | _ => None end
  | LFinish id now =>
      match m_runs m !! id, m_tasks m !! id with
      | Some (PhFinishing s r e), Some t =>
          Some (set_phase id PhPersisting (with_tasks (<[id := finished s r e now t]> (m_tasks m)) m))
      | _, _ => None
      end
  | LPersist id ok =>
      match m_runs m !! id with
      | Some PhPersisting =>
          Some (set_phase id PhClosing (let m := persist ok m in set_unsaved (if ok then m_unsaved m else {[id]} ∪ m_unsaved m) m))
      | _ => None
      end
  | LClose id => match m_runs m !! id with Some PhClosing => Some (set_phase id PhReleasing (set_done id m)) | _ => None end
  | LExit id =>
      match m_runs m !! id with
      | Some PhReleasing =>
          Some (set_phase id PhExited (set_cancels (m_cancels m ∖ {[id]}) (set_slots (m_leases m ∖ {[id]}) (delete id (m_slots m)) m)))
      | _ => None
      end
  | LContextDone id error =>
      match m_runs m !! id with
      | Some PhSpawned | Some PhProfile => Some (set_phase id (PhFinishing TaskCanceled "" error) m)
      | _ => None
      end
  | LResumeCanceled id i =>
      match m_runs m !! id with
      | Some (PhExecuting ws) =>
          match ws !! i with Some _ => Some (set_phase id (PhExecuting (remove_nth i ws)) m) | None => None end
      | _ => None
      end
  end.

(** ** Reads *)

Definition Get (m : Manager) (id : string) : option Task := m_tasks m !! id.

Definition statusText (s : TaskStatus) : string :=
  match s with
  | TaskSubmitted => "submitted" | TaskWorking => "working" | TaskCompleted => "completed" | TaskFailed => "failed"
  | TaskCanceled => "canceled"
  end.

Definition taskError (t : Task) : option ManagerError :=
  match tk_Status t with
  | TaskFailed | TaskCanceled =>
      Some (ErrTask (if String.eqb (tk_Error t) "" then "multiagent: task ended as " +:+ statusText (tk_Status t) else tk_Error t))
  | _ => None
  end.

(** [Wait] at a moment: its result, or [None] while it blocks. *)
Definition Wait (m : Manager) (id : string) : option (option Task * option ManagerError) :=
  match m_tasks m !! id with
  | None => Some (None, Some (ErrNotFound id))
  | Some t =>
      if isTerminal (tk_Status t) || bool_decide (m_done m !! id = Some true) then Some (Some t, taskError t) else None
  end.

(** [Cancel]: the task as it is, and whether its context is canceled. *)
Definition Cancel (m : Manager) (id : string) : ManagerError + (Task * bool) :=
  match m_tasks m !! id with
  | None => inl (ErrNotFound id)
  | Some t => inr (t, negb (isTerminal (tk_Status t)) && bool_decide (id ∈ m_cancels m))
  end.

Definition List (limit now : Z) (m : Manager) : list Task * Manager :=
  let m := cleanupLocked now m in
  let out := sort_by (λ x y, tk_Created y <=? tk_Created x) (map snd (map_to_list (m_tasks m))) in
  (if (0 <? limit) && (limit <? Z.of_nat (length out)) then take (Z.to_nat limit) out else out, m).

(** ** Retention keeps what runs *)

Lemma evict_sub maxTasks rows tasks : evict maxTasks rows tasks ⊆ tasks.
Proof.
  revert tasks. induction rows as [|[at_ id] rows IH]; intros tasks; cbn; [done|]. case_match; [done|].
  etrans; [apply IH|apply delete_subseteq].
Qed.

Lemma evict_keeps maxTasks rows tasks id : id ∉ map snd rows → evict maxTasks rows tasks !! id = tasks !! id.
Proof.
  revert tasks. induction rows as [|[at_ id'] rows IH]; intros tasks Hid; cbn in *; [done|]. case_match; [done|].
  apply not_elem_of_cons in Hid as [Hne Hid]. rewrite IH by done. by rewrite lookup_delete_ne.
Qed.

Lemma evict_bound maxTasks rows tasks :
  0 ≤ maxTasks → (∀ id, is_Some (tasks !! id) → id ∈ map snd rows) → Z.of_nat (size (evict maxTasks rows tasks)) ≤ maxTasks.
Proof.
  intros Hm. revert tasks. induction rows as [|[at_ id] rows IH]; intros tasks Hd; cbn.
  - assert (tasks = ∅) as ->; [|by rewrite map_size_empty].
    apply map_eq. intros i. rewrite lookup_empty. destruct (tasks !! i) eqn:E; [|done].
    by destruct (not_elem_of_nil i); apply Hd.
  - destruct (Z.leb_spec (Z.of_nat (size tasks)) maxTasks); [done|]. apply IH. intros i [t Ht].
    apply lookup_delete_Some in Ht as [Hne Ht]. specialize (Hd i ltac:(eauto)). cbn in Hd.
    apply elem_of_cons in Hd as [->|?]; done.
Qed.

Lemma sort_rows_perm rows : sort_rows rows ≡ₚ rows.
Proof. apply sort_by_perm. Qed.

Definition terminal_rows (tasks : gmap string Task) : list (Z * string) :=
  omap (λ kv, if isTerminal (tk_Status kv.2) then Some (default 0 (tk_Completed kv.2), kv.1) else None) (map_to_list tasks).

Lemma terminal_rows_elem tasks id :
  id ∈ map snd (sort_rows (terminal_rows tasks)) ↔ ∃ t, tasks !! id = Some t ∧ isTerminal (tk_Status t) = true.
Proof.
  rewrite sort_rows_perm. rewrite list_elem_of_fmap. unfold terminal_rows. setoid_rewrite list_elem_of_omap. split.
  - intros ([at_ i] & -> & [k t] & Hin & Hr). apply elem_of_map_to_list in Hin. cbn in Hr.
    destruct (isTerminal (tk_Status t)) eqn:E; [|done]. injection Hr as _ <-. eauto.
  - intros (t & Ht & Hs). exists (default 0 (tk_Completed t), id). split; [done|]. exists (id, t).
    split; [by apply elem_of_map_to_list|]. cbn. by rewrite Hs.
Qed.

Section Cleaned.
Context (limits : Limits) (now : Z).

Lemma cleaned_sub tasks : cleaned limits now tasks ⊆ tasks.
Proof.
  unfold cleaned. case_match; [apply map_filter_subseteq|]. etrans; [apply evict_sub|apply map_filter_subseteq].
Qed.

Lemma cleaned_live tasks id t :
  tasks !! id = Some t → isTerminal (tk_Status t) = false → cleaned limits now tasks !! id = Some t.
Proof.
  intros Ht Hs. unfold cleaned. set (kept := filter _ tasks).
  assert (kept !! id = Some t) as Hk by (apply map_lookup_filter_Some; split; [done|cbn; unfold expired_task; by rewrite Hs]).
  case_match; [done|]. rewrite evict_keeps; [done|]. rewrite (terminal_rows_elem kept id). intros (t' & Ht' & Hs'). congruence.
Qed.

Lemma cleaned_size tasks :
  Z.of_nat (size tasks) ≤ MaxTasks limits ∨ (0 ≤ MaxTasks limits ∧ ∀ id t, tasks !! id = Some t → isTerminal (tk_Status t) = true) →
  Z.of_nat (size (cleaned limits now tasks)) ≤ MaxTasks limits.
Proof.
  intros [Hs|[Hm Ht]].
  - etrans; [|exact Hs]. apply inj_le, map_subseteq_size, cleaned_sub.
  - unfold cleaned. set (kept := filter _ tasks). destruct (Z.leb_spec (Z.of_nat (size kept)) (MaxTasks limits)); [done|].
    apply evict_bound; [done|]. intros id [t Hk]. apply (terminal_rows_elem kept id). exists t. split; [done|].
    apply map_lookup_filter_Some in Hk as [? _]. eauto.
Qed.
End Cleaned.

(** ** The invariant *)

(** The chain of agents from the root of a delegation to a task. *)
Record good_chain (m : Manager) (depth : Z) (chain : list string) : Prop := {
  gc_depth : depth = Z.of_nat (length chain);
  gc_limit : depth ≤ MaxDepth (m_limits m);
  gc_nodup : NoDup chain;
  gc_known : Forall (λ a, a ≠ "" ∧ is_Some (m_profiles m !! a)) chain }.

Definition taskChain (t : Task) : list string := tk_Ancestry t ++ [tk_Agent t].
Definition metaChain (e : ExecutionMeta) : list string := em_Ancestry e ++ [em_Agent e].

(** What a phase says of the task. *)
Definition phase_ok (m : Manager) (id : string) (ph : phase) : Prop :=
  match ph with
  | PhSubmitting | PhSpawned | PhProfile | PhLeased | PhStarting | PhExecuting _ =>
      m_done m !! id = Some false ∧ ∃ t, m_tasks m !! id = Some t ∧ isTerminal (tk_Status t) = false
  | PhFinishing s _ _ =>
      isTerminal s = true ∧ m_done m !! id = Some false ∧ ∃ t, m_tasks m !! id = Some t ∧ isTerminal (tk_Status t) = false
  | PhPersisting => m_done m !! id ≠ Some true ∧ ∀ t, m_tasks m !! id = Some t → isTerminal (tk_Status t) = true
  | PhClosing =>
      m_done m !! id ≠ Some true ∧
      ∀ t, m_tasks m !! id = Some t → isTerminal (tk_Status t) = true ∧ (m_persists m = true → id ∉ m_unsaved m → m_disk m !! id = Some t)
  | PhReleasing | PhExited =>
      ∀ t, m_tasks m !! id = Some t → isTerminal (tk_Status t) = true ∧ (m_persists m = true → id ∉ m_unsaved m → m_disk m !! id = Some t)
  end.

(** A task that was loaded at the start: it has ended, and the file holds the record
    it was recovered from. *)
Definition loaded_ok (m : Manager) (id : string) (t : Task) : Prop :=
  isTerminal (tk_Status t) = true ∧
  (m_persists m = true → ∃ t0 now, m_disk m !! id = Some t0 ∧ recovered now t0 = t).

Record inv (m : Manager) : Prop := {
  iv_leases : Z.of_nat (size (m_leases m)) ≤ MaxParallel (m_limits m);
  iv_slots : ∀ agent p, m_profiles m !! agent = Some p → profileLoad agent m ≤ profileCap (m_limits m) p;
  iv_size : Z.of_nat (size (m_tasks m)) ≤ MaxTasks (m_limits m);
  iv_chain : ∀ id t, m_tasks m !! id = Some t → is_Some (m_runs m !! id) → good_chain m (tk_Depth t) (taskChain t);
  iv_metas : ∀ e, e ∈ m_metas m → good_chain m (em_Depth e) (metaChain e);
  iv_phase : ∀ id ph, m_runs m !! id = Some ph → phase_ok m id ph;
  iv_fresh : ∀ id, m_runs m !! id = None → m_slots m !! id = None ∧ id ∉ m_leases m;
  iv_loaded : ∀ id t, m_tasks m !! id = Some t → m_runs m !! id = None → loaded_ok m id t }.

(** The parts of a phase that only depend on one entry of the maps. *)
Lemma phase_ok_ext m m' id ph :
  m_tasks m' !! id = m_tasks m !! id → m_done m' !! id = m_done m !! id →
  (m_persists m' = true → m_persists m = true) →
  (∀ t, m_persists m = true → m_tasks m !! id = Some t → id ∉ m_unsaved m' →
     (id ∉ m_unsaved m → m_disk m !! id = Some t) → m_disk m' !! id = Some t) →
  phase_ok m id ph → phase_ok m' id ph.
Proof. intros Ht Hd Hp Hk. destruct ph; cbn; rewrite ?Ht, ?Hd; naive_solver. Qed.

Lemma good_chain_ext m m' depth chain :
  m_limits m' = m_limits m → m_profiles m' = m_profiles m → good_chain m depth chain → good_chain m' depth chain.
Proof. intros Hl Hp [? ? ? ?]. split; rewrite ?Hl, ?Hp; done. Qed.

Lemma loaded_ext m m' id t : m_persists m' = m_persists m → m_disk m' = m_disk m → loaded_ok m id t → loaded_ok m' id t.
Proof. unfold loaded_ok. by intros -> ->. Qed.

(** The parts of the invariant that a change elsewhere leaves as they are. *)
Ltac frame :=
  intros; first [done | eapply loaded_ext; [..|eauto]; done | eapply good_chain_ext; [..|eauto]; done | eapply phase_ok_ext; [..|eauto]; solve [auto]].

(** Writing the file keeps the invariant. *)
Lemma inv_persist ok m : inv m → inv (persist ok m).
Proof.
  intros [H1 H2 H3 H4 H5 H6 H7 H8]. split; cbn; auto.
  - intros id t Ht Hr. eapply good_chain_ext; [..|by eapply H4]; done.
  - intros e He. eapply good_chain_ext; [..|by apply H5]; done.
  - intros id ph Hr. eapply phase_ok_ext; [..|by eapply H6]; cbn; auto.
    intros t Hp Ht. rewrite Hp. destruct ok; cbn; auto.
  - intros id t Ht Hr. destruct (H8 id t Ht Hr) as [Hterm Hd]. split; [done|]. cbn. intros Hp. rewrite Hp.
    destruct ok; cbn; [|auto]. exists t, 0. split; [done|]. unfold recovered. by rewrite Hterm.
Qed.

(** A task whose end could not be written. *)
Lemma inv_unsaved id m : inv m → inv (set_unsaved ({[id]} ∪ m_unsaved m) m).
Proof.
  intros [H1 H2 H3 H4 H5 H6 H7 H8]. split; cbn; auto; try frame.
  intros i ph Hr. eapply phase_ok_ext; [..|by eapply H6]; cbn; auto. set_solver.
Qed.

(** A goroutine moves on: only its own phase changes. *)
Lemma inv_phase id ph m : inv m → is_Some (m_runs m !! id) → phase_ok m id ph → inv (set_phase id ph m).
Proof.
  intros [H1 H2 H3 H4 H5 H6 H7 H8] Hin Hph. split; cbn; auto.
  - intros i t Ht Hr. eapply good_chain_ext; [..|eapply H4; [exact Ht|]]; [done..|].
    apply lookup_insert_is_Some in Hr. destruct (decide (id = i)) as [<-|]; naive_solver.
  - intros e He. eapply good_chain_ext; [..|by apply H5]; done.
  - intros i ph'. destruct (decide (id = i)) as [<-|Hne].
    + rewrite lookup_insert_eq. intros [= <-]. eapply phase_ok_ext; [..|exact Hph]; auto.
    + rewrite lookup_insert_ne by done. intros Hr. eapply phase_ok_ext; [..|by eapply H6]; auto.
  - intros i Hi. apply lookup_insert_None in Hi as [Hi _]. auto.
  - intros i ti Hti Hi. apply lookup_insert_None in Hi as [Hi Hne]. eapply loaded_ext; [..|apply H8]; done.
Qed.

(** Semaphores. *)
Lemma inv_slots leases slots m :
  inv m → Z.of_nat (size leases) ≤ MaxParallel (m_limits m) →
  (∀ agent p, m_profiles m !! agent = Some p → Z.of_nat (size (filter (λ kv, kv.2 = agent) slots)) ≤ profileCap (m_limits m) p) →
  (∀ id, m_runs m !! id = None → slots !! id = None ∧ id ∉ leases) → inv (set_slots leases slots m).
Proof.
  intros [H1 H2 H3 H4 H5 H6 H7 H8] Hl Hs Hf. split; cbn; auto; frame.
Qed.

Lemma inv_cancels cancels m : inv m → inv (set_cancels cancels m).
Proof.
  intros [H1 H2 H3 H4 H5 H6 H7 H8]. split; cbn; auto; frame.
Qed.

Lemma inv_meta e m : inv m → good_chain m (em_Depth e) (metaChain e) → inv (add_meta e m).
Proof.
  intros [H1 H2 H3 H4 H5 H6 H7 H8] He. split; cbn; auto; try frame.
  intros e' [->|He']%elem_of_cons; frame.
Qed.

Lemma inv_cleanup now m : inv m → inv (cleanupLocked now m).
Proof.
  intros [H1 H2 H3 H4 H5 H6 H7 H8].
  assert (∀ id t, cleaned (m_limits m) now (m_tasks m) !! id = Some t → m_tasks m !! id = Some t) as Hsub
    by (intros id t Ht; eapply lookup_weaken; [exact Ht|apply cleaned_sub]).
  assert (∀ id, m_done (cleanupLocked now m) !! id = m_done m !! id ∨
    (m_done (cleanupLocked now m) !! id = None ∧ ∃ t, m_tasks m !! id = Some t ∧ isTerminal (tk_Status t) = true)) as Hdone.
  { intros id. cbn. destruct (decide (id ∈ dom (m_tasks m) ∖ dom (cleaned (m_limits m) now (m_tasks m)))) as [Hin|Hin].
    - right. split; [apply map_lookup_filter_None; right; intros ? _ Hc; by apply Hc|].
      apply elem_of_difference in Hin as [[t Ht]%elem_of_dom Hn]. exists t. split; [done|].
      destruct (isTerminal (tk_Status t)) eqn:E; [done|]. destruct Hn. apply elem_of_dom.
      rewrite (cleaned_live _ _ _ _ _ Ht E). eauto.
    - left. destruct (m_done m !! id) eqn:E; [by apply map_lookup_filter_Some|apply map_lookup_filter_None; by left]. }
  split; cbn; auto.
  - apply cleaned_size. by left.
  - intros id t Ht Hr. eapply good_chain_ext; [..|eapply H4; [by apply Hsub|done]]; done.
  - intros e He. eapply good_chain_ext; [..|by apply H5]; done.
  - intros id ph Hr. specialize (H6 id ph Hr). specialize (Hdone id).
    assert (∀ t, m_tasks m !! id = Some t → isTerminal (tk_Status t) = false →
      m_tasks (cleanupLocked now m) !! id = Some t) as Hlive by (intros; by apply cleaned_live).
    destruct ph; cbn [phase_ok] in *; cbn [m_tasks m_persists m_disk cleanupLocked] in *; try (naive_solver congruence).
    all: destruct H6 as [Hd Ht] || pose proof H6 as Ht.
    all: naive_solver congruence.
  - intros id t Ht Hr. eapply loaded_ext; [..|apply H8]; auto.
Qed.

(** The task of a goroutine changes together with its phase. *)
Lemma inv_update id t t' ph m :
  inv m → m_tasks m !! id = Some t → is_Some (m_runs m !! id) → tk_Depth t' = tk_Depth t → taskChain t' = taskChain t →
  phase_ok (with_tasks (<[id := t']> (m_tasks m)) m) id ph →
  inv (set_phase id ph (with_tasks (<[id := t']> (m_tasks m)) m)).
Proof.
  intros [H1 H2 H3 H4 H5 H6 H7 H8] Ht Hin Hd Hc Hph. split; cbn; auto; try frame.
  - by rewrite map_size_insert_Some by eauto.
  - intros i ti Hti Hr. destruct (decide (id = i)) as [<-|Hne].
    + rewrite lookup_insert_eq in Hti. injection Hti as <-. rewrite Hd, Hc. eapply good_chain_ext; [..|by eapply H4]; done.
    + rewrite lookup_insert_ne in Hti by done. rewrite lookup_insert_ne in Hr by done. eapply good_chain_ext; [..|by eapply H4]; done.
  - intros i ph'. destruct (decide (id = i)) as [<-|Hne].
    + rewrite lookup_insert_eq. intros [= <-]. eapply phase_ok_ext; [..|exact Hph]; auto.
    + rewrite lookup_insert_ne by done. intros Hr. eapply phase_ok_ext; [..|by eapply H6]; cbn; auto. by rewrite lookup_insert_ne.
  - intros i Hi. apply lookup_insert_None in Hi as [Hi _]. auto.
  - intros i ti Hti Hi. apply lookup_insert_None in Hi as [Hi Hne]. rewrite lookup_insert_ne in Hti by done.
    eapply loaded_ext; [..|apply H8]; done.
Qed.

Lemma inv_close id m : inv m → m_runs m !! id = Some PhClosing → inv (set_phase id PhReleasing (set_done id m)).
Proof.
  intros [H1 H2 H3 H4 H5 H6 H7 H8] Hr. split; cbn; auto; try frame.
  - intros i t Ht Hi. eapply good_chain_ext; [..|eapply H4; [exact Ht|]]; [done..|].
    destruct (decide (id = i)) as [<-|]; [rewrite Hr; eauto|by rewrite lookup_insert_ne in Hi].
  - intros i ph'. destruct (decide (id = i)) as [<-|Hne].
    + rewrite lookup_insert_eq. intros [= <-]. destruct (H6 id _ Hr) as [_ Hc]. exact Hc.
    + rewrite lookup_insert_ne by done. intros Hi. eapply phase_ok_ext; [..|by eapply H6]; cbn; auto.
      destruct (m_done m !! id); [|done]. by rewrite lookup_insert_ne.
  - intros i Hi. apply lookup_insert_None in Hi as [Hi _]. auto.
  - intros i ti Hti Hi. apply lookup_insert_None in Hi as [Hi Hne]. eapply loaded_ext; [..|apply H8]; done.
Qed.

(** A delegation that is admitted extends a good chain. *)
Lemma checkDelegation_chain m meta agent prompt li trace by_ :
  inv m → match meta with Some e => e ∈ m_metas m | None => True end → li = lineageOf meta trace by_ →
  checkDelegation m meta agent prompt li = inr () → good_chain m (li_depth li) (li_ancestry li ++ [agent]).
Proof.
  intros Hinv Hmeta -> Ha. unfold checkDelegation in Ha.
  apply rbind_inr in Ha as ([] & Hag%guard_inr & Ha). apply rbind_inr in Ha as ([] & _ & Ha).
  apply rbind_inr in Ha as (profile & Hp & Ha). apply rbind_inr in Ha as ([] & _ & Ha).
  apply rbind_inr in Ha as ([] & Hd%guard_inr & Ha). apply rbind_inr in Ha as ([] & _ & Ha%guard_inr).
  apply String.eqb_neq in Hag. bool_hyps. destruct (m_profiles m !! agent) as [p|] eqn:Hpr; [|done].
  assert (good_chain m (li_depth (lineageOf meta trace by_) - 1) (li_ancestry (lineageOf meta trace by_))) as [G1 G2 G3 G4].
  { destruct meta as [e|]; cbn.
    - pose proof (iv_metas _ Hinv e Hmeta) as Hg. replace (em_Depth e + 1 - 1) with (em_Depth e) by lia.
      assert (em_Agent e ≠ "") as Hne by (destruct Hg as [_ _ _ [_ Hl]%Forall_app]; by inversion Hl; naive_solver).
      apply String.eqb_neq in Hne as ->. exact Hg.
    - split; cbn in *; [done|lia|constructor|constructor]. }
  split.
  - rewrite length_app. cbn. lia.
  - lia.
  - apply NoDup_app. split_and!; [done| |apply NoDup_singleton]. intros a Hin ->%list_elem_of_singleton.
    rewrite <-not_true_iff_false, existsb_exists in Ha. apply Ha. exists agent. split; [by apply list_elem_of_In|apply String.eqb_refl].
  - apply Forall_app. split; [done|]. constructor; [|constructor]. split; [done|eauto].
Qed.

Lemma inv_register t m :
  inv m → m_tasks m !! tk_ID t = None → m_runs m !! tk_ID t = None → Z.of_nat (size (m_tasks m)) < MaxTasks (m_limits m) →
  tk_Status t = TaskSubmitted → good_chain m (tk_Depth t) (taskChain t) → inv (register t m).
Proof.
  intros [H1 H2 H3 H4 H5 H6 H7 H8] Ht Hr Hs Hst Hg. split; cbn; auto; try frame.
  - rewrite map_size_insert_None by done. lia.
  - intros i ti Hti Hi. destruct (decide (tk_ID t = i)) as [<-|Hne].
    + rewrite lookup_insert_eq in Hti. injection Hti as <-. eapply good_chain_ext; [..|exact Hg]; done.
    + rewrite lookup_insert_ne in Hti by done. rewrite lookup_insert_ne in Hi by done. eapply good_chain_ext; [..|by eapply H4]; done.
  - intros i ph'. destruct (decide (tk_ID t = i)) as [<-|Hne].
    + rewrite lookup_insert_eq. intros [= <-]. cbn. rewrite !lookup_insert_eq. split; [done|]. exists t. by rewrite Hst.
    + rewrite lookup_insert_ne by done. intros Hi. eapply phase_ok_ext; [..|by eapply H6]; cbn; auto; by rewrite lookup_insert_ne.
  - intros i Hi. apply lookup_insert_None in Hi as [Hi _]. auto.
  - intros i ti Hti Hi. apply lookup_insert_None in Hi as [Hi Hne]. rewrite lookup_insert_ne in Hti by done.
    eapply loaded_ext; [..|apply H8]; done.
Qed.

Lemma inv_Delegate m meta req id trace now m' :
  inv m → m_tasks m !! id = None → m_runs m !! id = None →
  match meta with Some e => e ∈ m_metas m | None => True end →
  Delegate m meta req id trace now = inr m' → inv m'.
Proof.
  intros Hinv Ht Hr Hmeta Hd. unfold Delegate in Hd. set (li := lineageOf _ _ _) in Hd.
  apply rbind_inr in Hd as ([] & Ha & Hd). apply rbind_inr in Hd as ([] & _ & Hd).
  apply rbind_inr in Hd as ([] & Hcap%guard_inr & Hd). injection Hd as <-. bool_hyps.
  pose proof (inv_cleanup now m Hinv) as Hinv'. apply inv_register; [done| |done|done|done|].
  - destruct (m_tasks (cleanupLocked now m) !! id) eqn:E; [|done].
    assert (m_tasks m !! id = Some t) as Hc by (eapply lookup_weaken; [exact E|apply cleaned_sub]). congruence.
  - eapply good_chain_ext; [..|by eapply checkDelegation_chain]; done.
Qed.

(** A free place of a semaphore is taken by one task. *)
Lemma take_lease m id : leaseFree m = true → Z.of_nat (size ({[id]} ∪ m_leases m)) ≤ MaxParallel (m_limits m).
Proof.
  unfold leaseFree. intros H. bool_hyps.
  pose proof (size_union_alt ({[id]} : gset string) (m_leases m)) as Hu. rewrite size_singleton in Hu.
  assert (size (m_leases m ∖ {[id]}) ≤ size (m_leases m))%nat by (apply subseteq_size; set_solver). lia.
Qed.

Lemma drop_lease m id : inv m → Z.of_nat (size (m_leases m ∖ {[id]})) ≤ MaxParallel (m_limits m).
Proof.
  intros H. pose proof (iv_leases m H). assert (size (m_leases m ∖ {[id]}) ≤ size (m_leases m))%nat by (apply subseteq_size; set_solver). lia.
Qed.

Lemma take_slot m id t p agent p' :
  inv m → m_profiles m !! tk_Agent t = Some p → profileLoad (tk_Agent t) m < profileCap (m_limits m) p →
  m_profiles m !! agent = Some p' →
  Z.of_nat (size (filter (λ kv, kv.2 = agent) (<[id := tk_Agent t]> (m_slots m)))) ≤ profileCap (m_limits m) p'.
Proof.
  intros Hinv Hp Hl Hp'. pose proof (iv_slots m Hinv agent p' Hp') as Hs. unfold profileLoad in *.
  destruct (decide (tk_Agent t = agent)) as [<-|Hne].
  - rewrite map_filter_insert_True by done. rewrite Hp in Hp'. injection Hp' as <-.
    rewrite map_size_insert. case_match; cbn; lia.
  - rewrite map_filter_insert_False by done. etrans; [|exact Hs]. apply inj_le, map_subseteq_size.
    rewrite map_filter_delete. apply delete_subseteq.
Qed.

Lemma drop_slot m id agent p :
  inv m → m_profiles m !! agent = Some p →
  Z.of_nat (size (filter (λ kv, kv.2 = agent) (delete id (m_slots m)))) ≤ profileCap (m_limits m) p.
Proof.
  intros Hinv Hp. etrans; [|by apply (iv_slots m Hinv)]. unfold profileLoad. apply inj_le, map_subseteq_size.
  rewrite map_filter_delete. apply delete_subseteq.
Qed.

(** The next phase of a task that goes on. *)
Lemma phase_next m id ph ph' :
  inv m → m_runs m !! id = Some ph → (phase_ok m id ph → phase_ok m id ph') → inv (set_phase id ph' m).
Proof. intros Hinv Hr Hn. apply inv_phase; [done|eauto|]. apply Hn. by eapply iv_phase. Qed.

Definition step (m : Manager) (l : label) (m' : Manager) : Prop := exec l m = Some m'.

Lemma inv_step m l m' : inv m → step m l m' → inv m'.
Proof.
  unfold step. intros Hinv. destruct l as [meta req id trace now|now|id ok|id|id|id now|id ok|id|id i target|id i|id o|id now|id ok|id|id|id error|id i];
    cbn [exec]; intros Hs.
  - case_match eqn:Hc; [|done]. bool_hyps. destruct (Delegate _ _ _ _ _ _) eqn:Hd; [done|]. injection Hs as <-.
    eapply inv_Delegate; [done..| |exact Hd]. destruct meta; [by bool_hyps|done].
  - injection Hs as <-. by apply inv_cleanup.
  - destruct (m_runs m !! id) as [[]|] eqn:Hr; simplify_eq.
    eapply phase_next; [by apply inv_cancels, inv_persist|exact Hr|done].
  - destruct (m_runs m !! id) as [[]|] eqn:Hr; simplify_eq. destruct (m_tasks m !! id) as [t|] eqn:Ht; [|done].
    destruct (m_profiles m !! tk_Agent t) as [p|] eqn:Hp; [|injection Hs as <-; by eapply phase_next].
    destruct (Z.ltb_spec (profileLoad (tk_Agent t) m) (profileCap (m_limits m) p)); [|done]. injection Hs as <-.
    eapply phase_next; [apply inv_slots; [done|apply Hinv|intros; by eapply take_slot|]|exact Hr|done].
    intros i Hi. destruct (iv_fresh m Hinv i Hi). split; [|done]. by rewrite lookup_insert_ne by congruence.
  - destruct (m_runs m !! id) as [[]|] eqn:Hr; simplify_eq. destruct (leaseFree m) eqn:Hf; [|done]. injection Hs as <-.
    eapply phase_next; [apply inv_slots; [done|by apply take_lease|by apply (iv_slots m Hinv)|]|exact Hr|done].
    intros i Hi. destruct (iv_fresh m Hinv i Hi). split; [done|]. assert (id ≠ i) by congruence. set_solver.
  - destruct (m_runs m !! id) as [[]|] eqn:Hr; simplify_eq. destruct (m_tasks m !! id) as [t|] eqn:Ht; [|done]. injection Hs as <-.
    apply (inv_update id t); [done..|eauto|done|done|]. destruct (iv_phase m Hinv id _ Hr) as [Hd _]. cbn. rewrite lookup_insert_eq. eauto.
  - destruct (m_runs m !! id) as [[]|] eqn:Hr; simplify_eq. destruct (m_tasks m !! id) as [t|] eqn:Ht; [|done]. injection Hs as <-.
    eapply phase_next; [apply inv_meta; [by apply inv_persist|]|exact Hr|done].
    eapply good_chain_ext; [..|eapply (iv_chain m Hinv id t Ht); eauto]; done.
  - destruct (m_runs m !! id) as [[]|] eqn:Hr; simplify_eq.
    eapply phase_next; [apply inv_slots; [done|by apply drop_lease|by apply (iv_slots m Hinv)|]|exact Hr|done].
    intros i Hi. destruct (iv_fresh m Hinv i Hi). set_solver.
  - destruct (m_runs m !! id) as [[]|] eqn:Hr; simplify_eq. destruct (waits !! i) as [[]|]; simplify_eq. by eapply phase_next.
  - destruct (m_runs m !! id) as [[]|] eqn:Hr; simplify_eq. destruct (waits !! i) as [w|]; [|done].
    destruct (waitOver m w && _) eqn:Hw; [|done]. injection Hs as <-. apply andb_true_iff in Hw as [_ Hw].
    eapply phase_next; [apply inv_slots; [done| |by apply (iv_slots m Hinv)|]|exact Hr|done].
    + apply orb_true_iff in Hw as [Hw|Hw]; [|by apply take_lease]. bool_hyps. rewrite subseteq_union_1_L by set_solver. apply Hinv.
    + intros j Hj. destruct (iv_fresh m Hinv j Hj). split; [done|]. assert (id ≠ j) by congruence. set_solver.
  - destruct (m_runs m !! id) as [[| | | | |[|]| | | | |]|] eqn:Hr; simplify_eq. eapply phase_next; [done|exact Hr|].
    intros [? ?]. by destruct o.
  - destruct (m_runs m !! id) as [[| | | | | |s r e| | | |]|] eqn:Hr; simplify_eq. destruct (m_tasks m !! id) as [t|] eqn:Ht; [|done].
    injection Hs as <-. destruct (iv_phase m Hinv id _ Hr) as (Hst & Hd & _).
    apply (inv_update id t); [done..|eauto|done|done|]. cbn. rewrite Hd. split; [done|]. rewrite lookup_insert_eq. by intros ? [= <-].
  - destruct (m_runs m !! id) as [[]|] eqn:Hr; simplify_eq.
    pose proof (inv_persist ok m Hinv) as Hp. destruct ok.
    + eapply phase_next; [exact Hp|exact Hr|]. cbn. intros [Hd Ht]. split; [done|]. intros t Htt. split; [auto|]. by intros ->.
    + eapply phase_next; [by apply (inv_unsaved id), Hp|exact Hr|]. cbn. intros [Hd Ht]. split; [done|].
      intros t Htt. split; [auto|]. set_solver.
  - destruct (m_runs m !! id) as [[]|] eqn:Hr; simplify_eq. by apply inv_close.
  - destruct (m_runs m !! id) as [[]|] eqn:Hr; simplify_eq.
    eapply phase_next; [apply inv_cancels, inv_slots; [done|by apply drop_lease|intros; by apply drop_slot|]|exact Hr|done].
    intros i Hi. destruct (iv_fresh m Hinv i Hi). split; [rewrite lookup_delete_None; auto|set_solver].
  - destruct (m_runs m !! id) as [[]|] eqn:Hr; simplify_eq; (eapply phase_next; [done|exact Hr|]); cbn; naive_solver.
  - destruct (m_runs m !! id) as [[]|] eqn:Hr; simplify_eq. destruct (waits !! i) as [w|]; simplify_eq. by eapply phase_next.
Qed.

Definition init (m : Manager) : Prop :=
  ∃ profiles limits persists disk now, NewManager profiles limits persists disk now = inr m.

Lemma normalizeLimits_positive l :
  0 < MaxParallel (normalizeLimits l) ∧ 0 < MaxTasks (normalizeLimits l) ∧ 0 < MaxDepth (normalizeLimits l).
Proof. cbn. repeat case_match; bool_hyps; lia. Qed.

Lemma inv_init m : init m → inv m.
Proof.
  intros (profiles & limits & persists & disk & now & Hm). unfold NewManager in Hm.
  destruct (normalizeLimits_positive limits) as (Hp & Ht & _). set (lim := normalizeLimits limits) in *.
  apply rbind_inr in Hm as (ps & _ & Hm). injection Hm as <-.
  split; cbn [m_leases m_limits m_profiles m_tasks m_runs m_metas m_slots cleanupLocked].
  - rewrite size_empty. lia.
  - intros agent p _. unfold profileLoad. cbn. rewrite map_filter_empty, map_size_empty. unfold profileCap.
    destruct (Z.leb_spec (pf_MaxParallel p) 0); cbn [orb]; [lia|]. case_match; lia.
  - apply cleaned_size. right. split; [lia|]. intros id t. destruct persists; [|by rewrite lookup_empty].
    rewrite lookup_fmap, fmap_Some. intros (t0 & _ & ->). unfold recovered. by destruct (isTerminal (tk_Status t0)) eqn:E.
  - intros id t _. rewrite lookup_empty. by intros [? [=]].
  - intros e He. by apply not_elem_of_nil in He.
  - intros id ph. by rewrite lookup_empty.
  - intros id _. rewrite lookup_empty. set_solver.
  - intros id t Hc _. assert ((if persists then recovered now <$> filter (λ kv, kv.1 ≠ "") disk else ∅) !! id = Some t) as Hl
      by (eapply lookup_weaken; [exact Hc|apply cleaned_sub]).
    destruct persists; [|by rewrite lookup_empty in Hl]. rewrite lookup_fmap, fmap_Some in Hl.
    destruct Hl as (t0 & [Hd _]%map_lookup_filter_Some & ->). split.
    + unfold recovered. by destruct (isTerminal (tk_Status t0)) eqn:E.
    + intros _. exists t0, now. done.
Qed.

Lemma manager_inv m : reachable step init m → inv m.
Proof. apply reachable_invariant; [exact inv_init|exact inv_step]. Qed.

Lemma chain_size m depth chain : good_chain m depth chain → depth ≤ Z.of_nat (size (m_profiles m)).
Proof.
  intros [-> _ Hnd Hk]. rewrite <-(size_dom (D := gset string)), <-(size_list_to_set (C := gset string) chain) by done.
  apply inj_le, subseteq_size. intros a Ha%elem_of_list_to_set. rewrite Forall_forall in Hk. apply elem_of_dom. by apply Hk.
Qed.

(** C4. The limits hold in every state the manager reaches, however requests,
    goroutines, cancellations and clean-ups interleave: the slots in use never
    exceed the global limit or a profile's, the tasks never exceed the capacity, and
    the chain of agents of every task delegated here is within the depth limit, has
    only configured agents and none twice, so no delegation goes deeper than there
    are profiles. *)
Theorem delegation_bounded m :
  reachable step init m →
  Z.of_nat (size (m_leases m)) ≤ MaxParallel (m_limits m) ∧
  (∀ agent p, m_profiles m !! agent = Some p → profileLoad agent m ≤ profileCap (m_limits m) p) ∧
  Z.of_nat (size (m_tasks m)) ≤ MaxTasks (m_limits m) ∧
  ∀ id t, m_tasks m !! id = Some t → is_Some (m_runs m !! id) →
    tk_Depth t = Z.of_nat (length (taskChain t)) ∧ NoDup (taskChain t) ∧
    Forall (λ a, is_Some (m_profiles m !! a)) (taskChain t) ∧
    tk_Depth t ≤ MaxDepth (m_limits m) ∧ tk_Depth t ≤ Z.of_nat (size (m_profiles m)).
Proof.
  intros Hr%manager_inv. split_and!; [apply Hr..|]. intros id t Ht Hi. pose proof (iv_chain m Hr id t Ht Hi) as Hg.
  split_and!; [apply Hg..| |apply Hg|by eapply chain_size]. eapply Forall_impl; [apply Hg|]. naive_solver.
Qed.

Lemma Delegate_tasks m meta req id trace now m' :
  Delegate m meta req id trace now = inr m' → ∃ t, m_tasks m' = <[id := t]> (m_tasks (cleanupLocked now m)).
Proof.
  unfold Delegate. intros ([] & _ & Hd)%rbind_inr. apply rbind_inr in Hd as ([] & _ & Hd).
  apply rbind_inr in Hd as ([] & _ & Hd). injection Hd as <-. eexists. reflexivity.
Qed.

(** Only the goroutine of a task and the retention change it. *)
Lemma step_terminal m l m' id t :
  inv m → step m l m' → m_tasks m !! id = Some t → isTerminal (tk_Status t) = true →
  m_tasks m' !! id = Some t ∨ m_tasks m' !! id = None.
Proof.
  intros Hinv Hs Ht Hterm.
  assert (∀ now, m_tasks (cleanupLocked now m) !! id = Some t ∨ m_tasks (cleanupLocked now m) !! id = None) as Hclean.
  { intros now. cbn. destruct (cleaned _ _ _ !! id) as [t'|] eqn:E; [left|by right].
    assert (m_tasks m !! id = Some t') as Hc by (eapply lookup_weaken; [exact E|apply cleaned_sub]). congruence. }
  assert (∀ i ti t', m_tasks m !! i = Some ti → isTerminal (tk_Status ti) = false →
    <[i := t']> (m_tasks m) !! id = Some t ∨ <[i := t']> (m_tasks m) !! id = None) as Hother.
  { intros i ti t' Hi Hn. left. rewrite lookup_insert_ne; [done|]. intros ->. rewrite Ht in Hi. congruence. }
  unfold step in Hs. destruct l as [meta req id' trace now|now|i ok|i|i|i now|i ok|i|i j target|i j|i o|i now|i ok|i|i|i error|i j]; cbn [exec] in Hs.
  all: repeat (case_match; try done); simplify_eq; bool_hyps; auto.
  1-2: match goal with H : Delegate _ _ _ _ _ _ = inr _ |- _ => apply Delegate_tasks in H as [t' ->] end;
    (rewrite lookup_insert_ne; [apply Hclean|congruence]).
  - match goal with H : m_runs m !! i = Some _ |- _ => pose proof (iv_phase m Hinv i _ H) as (_ & ti & Hti & Hn) end.
    simplify_eq. by eapply Hother.
  - match goal with H : m_runs m !! i = Some _ |- _ => pose proof (iv_phase m Hinv i _ H) as (_ & _ & ti & Hti & Hn) end.
    simplify_eq. by eapply Hother.
Qed.

(** C20. A task that has ended stays as it ended: no later step changes its record,
    it can only be dropped by the retention; and once its completion has been
    signaled, with a file configured and unless the file could not be written when
    it ended nor since, the file holds the same record if the task ran in this
    process, and the one it was recovered from if it was loaded at the start. *)
Theorem terminal_final_durable m l m' id t :
  reachable step init m → step m l m' → m_tasks m !! id = Some t → isTerminal (tk_Status t) = true →
  (m_tasks m' !! id = Some t ∨ m_tasks m' !! id = None) ∧
  (m_done m !! id = Some true → m_persists m = true → id ∉ m_unsaved m →
   ∃ t0 now, m_disk m !! id = Some t0 ∧ recovered now t0 = t ∧ (is_Some (m_runs m !! id) → t0 = t)).
Proof.
  intros Hr%manager_inv Hs Ht Hterm. split; [by eapply step_terminal|]. intros Hd Hp Hu.
  destruct (m_runs m !! id) as [ph|] eqn:Hph.
  - exists t, 0. split; [|unfold recovered; by rewrite Hterm].
    pose proof (iv_phase m Hr id ph Hph) as Hk. destruct ph; cbn in Hk; naive_solver congruence.
  - destruct (iv_loaded m Hr id t Ht Hph) as [_ (t0 & now & H0 & Hn)]; [done|]. exists t0, now. split_and!; [done..|].
    by intros [? [=]].
Qed.

(** ** Traces *)

Fixpoint run_labels (ls : list label) (m : Manager) : option Manager :=
  match ls with [] => Some m | l :: ls => m ← exec l m; run_labels ls m end.

Lemma run_labels_snoc ls l m : run_labels (ls ++ [l]) m = (m ← run_labels ls m; exec l m).
Proof.
  revert m. induction ls as [|l' ls IH]; intros m; cbn.
  - by destruct (exec l m).
  - destruct (exec l' m); cbn; [apply IH|done].
Qed.

Lemma run_reachable ls m0 m : init m0 → run_labels ls m0 = Some m → reachable step init m.
Proof.
  intros Hi. revert m. induction ls as [|l ls IH] using rev_ind; intros m Hr.
  - injection Hr as <-. by apply reachable_init.
  - rewrite run_labels_snoc in Hr. apply bind_Some in Hr as (m1 & H1 & Hs). eapply reachable_step; [by apply IH|exact Hs].
Qed.

Definition demo_profile (id : string) (targets : list string) : Profile :=
  mkProfile id "" "" "" "" "" "" "" [] targets "" "" 0 0 0 true.
Definition demo_profiles : list Profile := [demo_profile "lead" ["*"]; demo_profile "coder" []; demo_profile "tester" []].
Definition demo_limits : Limits := mkLimits 0 1 0 0 0 0 0 0.
Definition demo_start : option Manager :=
  match NewManager demo_profiles demo_limits true ∅ 0 with inr m => Some m | inl _ => None end.

Definition delegate_to (meta : option ExecutionMeta) (agent id : string) : label :=
  LDelegate meta (mkDelegate agent "work" true 0 "" false) id "trace" 1.
(** From the submission of a task to its execution. *)
Definition begin (id : string) : list label := [LSubmit id true; LSlot id; LLease id; LStart id 2; LStarted id true].
Definition lead_meta : ExecutionMeta := mkMeta "p" "p" "trace" "lead" 1 [].

Lemma demo_manager_reachable ls m :
  (m0 ← demo_start; run_labels ls m0) = Some m → reachable step init m.
Proof.
  intros (m0 & H0 & Hr)%bind_Some. apply (run_reachable ls m0); [|done]. unfold demo_start in H0.
  destruct (NewManager demo_profiles demo_limits true ∅ 0) eqn:E; [done|]. injection H0 as <-. repeat eexists. exact E.
Qed.

(** The lead delegates to two agents in the same turn; the first ends. *)
Definition deadlock_trace : list label :=
  [delegate_to None "lead" "p"] ++ begin "p" ++
  [LYield "p"; LYield "p"; delegate_to (Some lead_meta) "coder" "c1"; LWait "p" 0 "c1";
   delegate_to (Some lead_meta) "tester" "c2"; LWait "p" 1 "c2"; LSubmit "c2" true; LSlot "c2"] ++ begin "c1" ++
  [LReturn "c1" (OutOK "done"); LFinish "c1" 3; LPersist "c1" true; LClose "c1"; LExit "c1"; LResume "p" 0].

(** The slot that is given up for a nested delegation can be taken back too
    early: with two waiting delegations in one turn, the first result takes the
    slot again while the second child still needs it.  In this state only a new
    request, a cancellation or a deadline can move anything, although the comment on
    [withYieldedSlot] says that it prevents this deadlock. *)
Theorem concurrent_delegation_deadlock :
  ∃ m, reachable step init m ∧
    m_runs m !! "p" = Some (PhExecuting [Some "c2"]) ∧ m_runs m !! "c2" = Some PhProfile ∧ m_leases m = {["p"]} ∧
    ∀ l m', step m l m' →
      match l with LDelegate _ _ _ _ _ | LCleanup _ | LYield _ | LWait _ _ _ | LContextDone _ _ | LResumeCanceled _ _ => True | _ => False end.
Proof.
  destruct (m0 ← demo_start; run_labels deadlock_trace m0) as [m|] eqn:Hm; [|vm_compute in Hm; discriminate Hm].
  exists m. split; [by eapply demo_manager_reachable|].
  assert (m_runs m = <["p" := PhExecuting [Some "c2"]]> (<["c1" := PhExited]> {["c2" := PhProfile]}) ∧ m_leases m = {["p"]} ∧
    MaxParallel (m_limits m) = 1 ∧ waitOver m (Some "c2") = false) as (Hr & Hl & Hmax & Hw).
  { vm_compute in Hm. injection Hm as <-. repeat split; vm_compute; reflexivity. }
  clear Hm. split_and!; [by rewrite Hr|by rewrite Hr|done|].
  assert (∀ id ph, m_runs m !! id = Some ph →
    (id = "p" ∧ ph = PhExecuting [Some "c2"]) ∨ ph = PhExited ∨ ph = PhProfile) as Hcases.
  { intros id ph. rewrite Hr, !lookup_insert_Some, lookup_singleton_Some. intros [[<- <-]|[_ [[<- <-]|[_ [<- <-]]]]]; auto. }
  intros l m' Hs. unfold step in Hs. destruct l as [| |i ?|i|i|i ?|i ?|i|i j ?|i j|i o|i ?|i ?|i|i|i ?|i j]; try exact I; cbn [exec] in Hs.
  all: destruct (m_runs m !! i) as [ph|] eqn:Hi; [|done]; destruct (Hcases i ph Hi) as [[-> ->]|[->| ->]]; try discriminate Hs.
  - unfold leaseFree in Hs. rewrite Hl, Hmax, size_singleton in Hs. done.
  - destruct ([Some "c2"] !! j) as [w|] eqn:Hj; [|discriminate Hs]. apply list_lookup_singleton_Some in Hj as [_ <-].
    rewrite Hw in Hs. discriminate Hs.
Qed.

Definition early_trace : list label :=
  [delegate_to None "lead" "p"] ++ begin "p" ++ [LReturn "p" (OutOK "done"); LFinish "p" 3].

(** A task is seen as completed before its record is written: between the two
    steps of [finish], [Get] and [Wait] already return the result, and a restart
    then recovers the task as failed.  The comment in [finish] says that a terminal
    task becomes observable only after its durable snapshot is written. *)
Theorem terminal_seen_before_durable :
  ∃ m t, reachable step init m ∧ Get m "p" = Some t ∧ tk_Status t = TaskCompleted ∧ tk_Result t = "done" ∧
    Wait m "p" = Some (Some t, None) ∧ m_done m !! "p" = Some false ∧
    ∃ m', NewManager demo_profiles demo_limits true (m_disk m) 4 = inr m' ∧
      tk_Status <$> m_tasks m' !! "p" = Some TaskFailed.
Proof.
  destruct (m0 ← demo_start; run_labels early_trace m0) as [m|] eqn:Hm; [|vm_compute in Hm; discriminate Hm].
  exists m. pose proof (demo_manager_reachable _ _ Hm) as Hr. vm_compute in Hm. injection Hm as <-.
  eexists. split; [exact Hr|]. clear Hr. split_and!; [reflexivity|reflexivity|reflexivity|reflexivity|reflexivity|].
  eexists. split; vm_compute; reflexivity.
Qed.

(** [persist] does not report that the file could not be written, and [finish]
    signals the completion all the same: a task that ended is then recovered as
    failed by a restart, although the comment in [finish] says that it becomes
    observable only after its durable snapshot is written. *)
Theorem unwritten_end_lost :
  ∃ m t, reachable step init m ∧ Get m "p" = Some t ∧ tk_Status t = TaskCompleted ∧ m_done m !! "p" = Some true ∧
    ∃ m', NewManager demo_profiles demo_limits true (m_disk m) 4 = inr m' ∧
      tk_Status <$> m_tasks m' !! "p" = Some TaskFailed.
Proof.
  destruct (m0 ← demo_start; run_labels (early_trace ++ [LPersist "p" false; LClose "p"; LExit "p"]) m0) as [m|] eqn:Hm;
    [|vm_compute in Hm; discriminate Hm].
  exists m. pose proof (demo_manager_reachable _ _ Hm) as Hr. vm_compute in Hm. injection Hm as <-.
  eexists. split; [exact Hr|]. clear Hr. split_and!; [reflexivity|reflexivity|reflexivity|].
  eexists. split; vm_compute; reflexivity.
Qed.

Lemma delegation_bounded_witness :
  ∃ m, reachable step init m ∧ size (m_leases m) = 1%nat ∧ Z.of_nat (size (m_leases m)) ≤ MaxParallel (m_limits m).
Proof.
  destruct (m0 ← demo_start; run_labels early_trace m0) as [m|] eqn:Hm; [|vm_compute in Hm; discriminate Hm].
  exists m. pose proof (demo_manager_reachable _ _ Hm) as Hr. split; [exact Hr|]. split.
  - clear Hr. vm_compute in Hm. injection Hm as <-. vm_compute. reflexivity.
  - clear Hm. apply delegation_bounded, Hr.
Defined.

Lemma terminal_final_durable_witness :
  ∃ m m' t, reachable step init m ∧ step m (LExit "p") m' ∧ m_tasks m !! "p" = Some t ∧
    (m_tasks m' !! "p" = Some t ∨ m_tasks m' !! "p" = None) ∧ ∃ t0, m_disk m !! "p" = Some t0.
Proof.
  destruct (m0 ← demo_start; run_labels (early_trace ++ [LPersist "p" true; LClose "p"]) m0) as [m|] eqn:Hm;
    [|vm_compute in Hm; discriminate Hm].
  pose proof (demo_manager_reachable _ _ Hm) as Hr. vm_compute in Hm. injection Hm as Hm. rewrite <-Hm in Hr. clear Hm m.
  match type of Hr with reachable _ _ ?m =>
    destruct (m_tasks m !! "p") as [t|] eqn:Ht; [|vm_compute in Ht; discriminate Ht];
    destruct (exec (LExit "p") m) as [m'|] eqn:He; [|vm_compute in He; discriminate He];
    exists m, m', t; split; [exact Hr|]; split; [exact He|]; split; [exact Ht|];
    assert (m_done m !! "p" = Some true) as Hdone by (vm_compute; reflexivity);
    assert (m_persists m = true) as Hp by reflexivity;
    assert ("p" ∉ m_unsaved m) as Hu by (intros Hin; vm_compute in Hin; discriminate Hin);
    destruct (terminal_final_durable m (LExit "p") m' "p" t Hr He Ht) as [Hf Hd]
  end.
  - clear Hr He. vm_compute in Ht. injection Ht as <-. reflexivity.
  - split; [exact Hf|]. destruct (Hd Hdone Hp Hu) as (t0 & now & H0 & _). exists t0. exact H0.
Defined.
