(* ===== verification/BpeMerge.v ===== *)
(** * Byte-pair merging (src/internal/bpe/bpe.go)

    The two merge routines of the tokenizer: the scan over a list of parts for
    short pieces ([mergePartsSmall]) and the heap with lazily dropped entries for
    long ones ([mergePartsLarge]).  Both are shown to compute the reference
    [merges]: as long as two neighbours form a token, join the leftmost pair of the
    lowest rank.  The vocabulary is the function [rank]; positions are byte offsets
    into the piece.  An index out of range, on which the code would panic, and a
    loop that does not end are [None]; the theorems show that neither happens. *)

From S2P Require Import Prelude GoText.

Open Scope string_scope.
Open Scope list_scope.
Open Scope Z_scope.

(** [math.MaxUint32]. *)
Definition maxRank : Z := 2 ^ 32 - 1.

(** [piece[i:j]]. *)
Definition sub (piece : string) (i j : nat) : string := stake (j - i) (sdrop i piece).

Record part := mkPart { p_start : nat; p_rank : Z }.

(** [container/heap] over [mergeHeap]: the elements, of which [Pop] takes a least
    one.  [Less] orders entries totally, so which one is not a question. *)
Record mergeEntry := mkEntry { me_start : nat; me_rank : Z }.

Definition Less (a b : mergeEntry) : bool :=
  if negb (me_rank a =? me_rank b) then me_rank a <? me_rank b else (me_start a <? me_start b)%nat.

Fixpoint popMin (e : mergeEntry) (h : list mergeEntry) : mergeEntry * list mergeEntry :=
  match h with
  | [] => (e, [])
  | x :: h => if Less x e then let '(m, rest) := popMin x h in (m, e :: rest)
              else let '(m, rest) := popMin e h in (m, x :: rest)
  end.

Record mergeState := mkState
  { ms_prev : Z; ms_end : nat; ms_nextEnd : nat; ms_nextRank : Z; ms_curRank : Z }.

Section Merge.
Context (rank : string → option Z).

Definition rankOr (s : string) : Z := default maxRank (rank s).

(** ** Short pieces *)

(** The first pass: the rank of every pair of bytes and the leftmost minimum. *)
Fixpoint initParts (piece : string) (k i : nat) (minRank : Z) (minIdx : nat) : list part * Z * nat :=
  match k with
  | O => ([], minRank, minIdx)
  | S k =>
      let r := rankOr (sub piece i (i + 2)) in
      let '(parts, mr, mi) :=
        if r <? minRank then initParts piece k (S i) r i else initParts piece k (S i) minRank minIdx in
      (mkPart i r :: parts, mr, mi)
  end.

Definition getRank (piece : string) (parts : list part) (i : nat) : Z :=
  match parts !! i, parts !! (i + 3)%nat with
  | Some p, Some q => rankOr (sub piece (p_start p) (p_start q))
  | _, _ => maxRank
  end.

Definition setRank (i : nat) (r : Z) (parts : list part) : list part :=
  alter (λ p, mkPart (p_start p) r) i parts.

Definition mergeAt (piece : string) (i : nat) (parts : list part) : list part :=
  let parts := if (0 <? i)%nat then setRank (i - 1) (getRank piece parts (i - 1)) parts else parts in
  let parts := setRank i (getRank piece parts i) parts in
  take (i + 1) parts ++ drop (i + 2) parts.

(** [for j := 0; j+1 < len(parts); j++], from [j]. *)
Fixpoint minScan (j : nat) (parts : list part) (minRank : Z) (minIdx : nat) : Z * nat :=
  match parts with
  | p :: ((_ :: _) as rest) =>
      if p_rank p <? minRank then minScan (S j) rest (p_rank p) j else minScan (S j) rest minRank minIdx
  | _ => (minRank, minIdx)
  end.

(** [minIdx] is only read while [minRank] is a rank, so it starts as [0] here. *)
Fixpoint smallLoop (fuel : nat) (piece : string) (parts : list part) (minRank : Z) (minIdx : nat) : option (list part) :=
  if minRank =? maxRank then Some parts else
  match fuel with
  | O => None
  | S fuel =>
      let parts := mergeAt piece minIdx parts in
      let '(minRank, minIdx) := minScan 0 parts maxRank 0 in
      smallLoop fuel piece parts minRank minIdx
  end.

Definition lookupRank (s : string) : list Z := match rank s with Some r => [r] | None => [] end.

Fixpoint emitParts (piece : string) (parts : list part) : list Z :=
  match parts with
  | p :: ((q :: _) as rest) => lookupRank (sub piece (p_start p) (p_start q)) ++ emitParts piece rest
  | _ => []
  end.

Definition mergePartsSmall (piece : string) (dst : list Z) : option (list Z) :=
  let n := slen piece in
  if (n =? 0)%nat then Some dst else
  if (n =? 1)%nat then Some (dst ++ lookupRank piece) else
  let '(parts, minRank, minIdx) := initParts piece (n - 1) 0 maxRank 0 in
  let parts := parts ++ [mkPart (n - 1) maxRank; mkPart n maxRank] in
  parts ← smallLoop n piece parts minRank minIdx;
  Some (dst ++ emitParts piece parts).

(** ** Long pieces *)

Definition setNextRank (r : Z) (m : mergeState) : mergeState :=
  mkState (ms_prev m) (ms_end m) (ms_nextEnd m) r (ms_curRank m).

Fixpoint initLarge (piece : string) (k i : nat) (state : list mergeState) (h : list mergeEntry)
    : list mergeState * list mergeEntry :=
  match k with
  | O => (state, h)
  | S k =>
      let '(state, h) :=
        match rank (sub piece i (i + 2)) with
        | Some r => (alter (setNextRank r) i state, h ++ [mkEntry i r])
        | None => (state, h)
        end in
      initLarge piece k (S i) (state ++ [mkState (Z.of_nat i) (i + 2) (i + 3) maxRank maxRank]) h
  end.

Definition potentialMerge (piece : string) (start nextEndItem : nat) (sh : list mergeState * list mergeEntry)
    : option (list mergeState * list mergeEntry) :=
  let '(state, h) := sh in
  m ← state !! start;
  let m := mkState (ms_prev m) (ms_end m) nextEndItem maxRank (ms_curRank m) in
  if (nextEndItem <=? slen piece)%nat then
    match rank (sub piece start nextEndItem) with
    | Some r => Some (<[start := setNextRank r m]> state, h ++ [mkEntry start r])
    | None => Some (<[start := m]> state, h)
    end
  else Some (<[start := m]> state, h).

Definition setPrev (p : nat) (m : mergeState) : mergeState :=
  mkState (Z.of_nat p) (ms_end m) (ms_nextEnd m) (ms_nextRank m) (ms_curRank m).

(** [state[leftStart].prev] as an index. *)
Definition prevOf (state : list mergeState) (leftStart : nat) : option nat :=
  m ← state !! leftStart; if ms_prev m <? 0 then None else Some (Z.to_nat (ms_prev m)).

(** One valid entry. *)
Definition mergeLeft (piece : string) (leftStart : nat) (sh : list mergeState * list mergeEntry)
    : option (list mergeState * list mergeEntry) :=
  let '(state, h) := sh in
  l ← state !! leftStart;
  let rightStart := ms_end l in
  let rightEnd := ms_nextEnd l in
  r ← state !! rightStart;
  let rightNextEnd := ms_nextEnd r in
  let state := <[leftStart := mkState (ms_prev l) rightEnd (ms_nextEnd l) (ms_nextRank l) (ms_nextRank l)]> state in
  '(state, h) ← potentialMerge piece leftStart rightNextEnd (state, h);
  let state := if (rightEnd <? length state)%nat then alter (setPrev leftStart) rightEnd state else state in
  '(state, h) ← (if (0 <? leftStart)%nat
                 then p ← prevOf state leftStart; potentialMerge piece p rightEnd (state, h)
                 else Some (state, h));
  _ ← state !! rightStart;
  Some (alter (setNextRank maxRank) rightStart state, h).

Fixpoint largeLoop (fuel : nat) (piece : string) (state : list mergeState) (h : list mergeEntry) : option (list mergeState) :=
  match h with
  | [] => Some state
  | e :: h =>
      match fuel with
      | O => None
      | S fuel =>
          let '(top, h) := popMin e h in
          if me_rank top =? maxRank then Some state else
          m ← state !! me_start top;
          if negb (me_rank top =? ms_nextRank m) then largeLoop fuel piece state h else
          '(state, h) ← mergeLeft piece (me_start top) (state, h);
          largeLoop fuel piece state h
      end
  end.

Fixpoint emitLarge (fuel : nat) (piece : string) (state : list mergeState) (i : nat) : option (list Z) :=
  match state !! i with
  | None => Some []
  | Some m =>
      match fuel with
      | O => None
      | S fuel =>
          rest ← emitLarge fuel piece state (ms_end m);
          Some ((if negb (ms_curRank m =? maxRank) then [ms_curRank m] else lookupRank (sub piece i (ms_end m))) ++ rest)
      end
  end.

Definition mergePartsLarge (piece : string) (dst : list Z) : option (list Z) :=
  let n := slen piece in
  let '(state, h) := initLarge piece (n - 1) 0 [mkState (-1) 1 2 maxRank maxRank] [] in
  state ← largeLoop (3 * n + 3) piece state h;
  out ← emitLarge n piece state 0;
  Some (dst ++ out).

Definition mergeParts (piece : string) (dst : list Z) : option (list Z) :=
  if (slen piece <? 100)%nat then mergePartsSmall piece dst else mergePartsLarge piece dst.

(** [encodePiece]: a piece that is a token stays whole. *)
Definition encodePiece (piece : string) (dst : list Z) : option (list Z) :=
  if (slen piece =? 0)%nat then Some dst else
  match rank piece with
  | Some r => Some (dst ++ [r])
  | None => mergeParts piece dst
  end.
End Merge.

(** ** The reference *)

Section Facts.
Context (rank : string → option Z) (piece : string).
Hypothesis rank_bound : ∀ s r, rank s = Some r → 0 ≤ r < maxRank.

(** A segmentation is the list of the starts of its tokens and the end. *)
Record seg (b : list nat) : Prop := {
  seg_first : b !! 0%nat = Some 0%nat;
  seg_last : last b = Some (slen piece);
  seg_sorted : ∀ i j x y, (i < j)%nat → b !! i = Some x → b !! j = Some y → (x < y)%nat
}.

Definition pairRank (b : list nat) (j : nat) : Z :=
  match b !! j, b !! S (S j) with
  | Some s, Some e => rankOr rank (sub piece s e)
  | _, _ => maxRank
  end.

(** The pair the next merge takes. *)
Definition leftmost (b : list nat) (j : nat) : Prop :=
  pairRank b j < maxRank ∧ ∀ j', pairRank b j < pairRank b j' ∨ (pairRank b j = pairRank b j' ∧ (j ≤ j')%nat).

Inductive merges : list nat → list nat → Prop :=
  | merges_done b : (∀ j, pairRank b j = maxRank) → merges b b
  | merges_step b j b' : leftmost b j → merges (delete (S j) b) b' → merges b b'.

Lemma leftmost_unique b j k : leftmost b j → leftmost b k → j = k.
Proof. intros [_ Hj] [_ Hk]. specialize (Hj k). specialize (Hk j). lia. Qed.

Lemma merges_det b b1 b2 : merges b b1 → merges b b2 → b1 = b2.
Proof.
  intros H. revert b2. induction H as [b Hd|b j b' Hl _ IH]; intros b2 H2; destruct H2 as [b Hd2|b k b2' Hl2 H2]; [done|..].
  - destruct Hl2 as [Hl2 _]. rewrite Hd in Hl2. lia.
  - destruct Hl as [Hl _]. rewrite Hd2 in Hl. lia.
  - pose proof (leftmost_unique _ _ _ Hl Hl2) as <-. by apply IH.
Qed.

Lemma rankOr_bound s : 0 ≤ rankOr rank s ≤ maxRank.
Proof. unfold rankOr. destruct (rank s) as [r|] eqn:E; cbn; [apply rank_bound in E; lia|unfold maxRank; lia]. Qed.

Lemma pairRank_bound b j : 0 ≤ pairRank b j ≤ maxRank.
Proof. unfold pairRank. repeat case_match; try apply rankOr_bound; unfold maxRank; lia. Qed.

Lemma pairRank_inside b j : pairRank b j ≠ maxRank → ∃ s m e, b !! j = Some s ∧ b !! S j = Some m ∧ b !! S (S j) = Some e.
Proof.
  unfold pairRank. intros H. destruct (b !! j) as [s|] eqn:Es; [|done]. destruct (b !! S (S j)) as [e|] eqn:Ee; [|done].
  destruct (lookup_lt_is_Some_2 b (S j)) as [m Hm]; [apply lookup_lt_Some in Ee; lia|].
  by exists s, m, e.
Qed.

(** Joining two neighbours keeps a segmentation. *)
Lemma lookup_delete_idx (b : list nat) j k :
  delete j b !! k = if (k <? j)%nat then b !! k else b !! S k.
Proof. destruct (Nat.ltb_spec k j); [by apply list_lookup_delete_lt|by apply list_lookup_delete_ge]. Qed.

Lemma seg_delete b j : seg b → (S (S j) < length b)%nat → seg (delete (S j) b).
Proof.
  intros [H0 Hl Hs] Hj. split.
  - by rewrite lookup_delete_idx.
  - rewrite last_lookup in *. rewrite lookup_delete_idx, length_delete by (apply lookup_lt_is_Some_2; lia).
    case_match eqn:E; bool_hyps; [apply Nat.ltb_lt in E; lia|]. rewrite <-Hl. f_equal. lia.
  - intros i k x y Hik. rewrite !lookup_delete_idx. intros Hx Hy.
    destruct (Nat.ltb_spec i (S j)), (Nat.ltb_spec k (S j)); (eapply Hs; [|exact Hx|exact Hy]); lia.
Qed.

(** ** Short pieces follow the reference *)

Definition partsOf (b : list nat) : list part := imap (λ j s, mkPart s (pairRank b j)) b.

Lemma partsOf_lookup b j : partsOf b !! j = (λ s, mkPart s (pairRank b j)) <$> b !! j.
Proof. apply list_lookup_imap. Qed.

Lemma getRank_partsOf b parts i :
  p_start <$> parts = b → getRank rank piece parts i =
    match b !! i, b !! (i + 3)%nat with Some s, Some e => rankOr rank (sub piece s e) | _, _ => maxRank end.
Proof. intros <-. unfold getRank. rewrite !list_lookup_fmap. by destruct (parts !! i), (parts !! (i + 3)%nat). Qed.

Lemma setRank_starts i r parts : p_start <$> setRank i r parts = p_start <$> parts.
Proof.
  apply list_eq. intros k. unfold setRank. rewrite !list_lookup_fmap, list_lookup_alter.
  case_decide; [subst|done]. by destruct (parts !! k).
Qed.

Lemma partsOf_starts b : p_start <$> partsOf b = b.
Proof. apply list_eq. intros k. rewrite list_lookup_fmap, partsOf_lookup. by destruct (b !! k). Qed.

Lemma setRank_lookup i r parts k :
  setRank i r parts !! k = (λ p, mkPart (p_start p) (if decide (i = k) then r else p_rank p)) <$> parts !! k.
Proof.
  unfold setRank. rewrite list_lookup_alter. case_decide; subst; destruct (parts !! k) as [[]|]; done.
Qed.

(** One merge of the scan is one merge of the reference. *)
Lemma mergeAt_partsOf b i :
  (S (S i) < length b)%nat → mergeAt rank piece i (partsOf b) = partsOf (delete (S i) b).
Proof.
  intros Hi. unfold mergeAt. rewrite Nat.add_1_r, Nat.add_comm. cbn [Nat.add]. rewrite <-delete_take_drop.
  rewrite (getRank_partsOf b) by (case_match; rewrite ?setRank_starts; apply partsOf_starts).
  rewrite (getRank_partsOf b (partsOf b)) by apply partsOf_starts.
  apply list_eq. intros k. rewrite partsOf_lookup, lookup_delete_idx.
  assert (∀ (l : list part) a, delete (S i) l !! a = if (a <? S i)%nat then l !! a else l !! S a) as Hd.
  { intros l a. destruct (Nat.ltb_spec a (S i)); [by apply list_lookup_delete_lt|by apply list_lookup_delete_ge]. }
  rewrite Hd. clear Hd. unfold pairRank. rewrite !lookup_delete_idx.
  destruct (Nat.ltb_spec 0 i), (Nat.ltb_spec k (S i)), (Nat.ltb_spec (S (S k)) (S i)); try lia;
    rewrite ?setRank_lookup, partsOf_lookup; unfold pairRank.
  all: repeat case_decide; try lia; subst; try (destruct (b !! _) as [s|] eqn:Es; [|done]; cbn [fmap option_fmap option_map p_start p_rank]).
  all: by rewrite ?(Nat.add_comm _ 3).
Qed.

Lemma minScan_cons j p q rest mr mi :
  minScan j (p :: q :: rest) mr mi =
    if p_rank p <? mr then minScan (S j) (q :: rest) (p_rank p) j else minScan (S j) (q :: rest) mr mi.
Proof. done. Qed.

Lemma minScan_spec parts j mr mi :
  let '(mr', mi') := minScan j parts mr mi in
  mr' ≤ mr ∧ (∀ k p, parts !! k = Some p → (S k < length parts)%nat → mr' ≤ p_rank p) ∧
  ((mr', mi') = (mr, mi) ∨
   ∃ k p, (S k < length parts)%nat ∧ parts !! k = Some p ∧ p_rank p = mr' ∧ mr' < mr ∧ mi' = (j + k)%nat ∧
     ∀ k' p', (k' < k)%nat → parts !! k' = Some p' → mr' < p_rank p').
Proof.
  revert j mr mi. induction parts as [|p [|q rest] IH]; intros j mr mi; [..|rewrite minScan_cons].
  1-2: cbn [minScan]; split_and!; [lia|intros k p' _ Hl; cbn in Hl; lia|by left].
  destruct (Z.ltb_spec (p_rank p) mr) as [Hp|Hp].
  - specialize (IH (S j) (p_rank p) j). destruct (minScan (S j) (q :: rest) (p_rank p) j) as [mr' mi'].
    destruct IH as (H1 & H2 & H3). split_and!; [lia| |].
    + intros [|k] p' Hk Hl; simplify_eq/=; [done|]. apply (H2 k); [done|cbn in *; lia].
    + right. destruct H3 as [[= -> ->]|(k & p' & Hk & Hp' & Hr & Hlt & -> & Hall)].
      * exists 0%nat, p. split_and!; [cbn; lia|done|done|lia|lia|lia].
      * exists (S k), p'. split_and!; [cbn in *; lia|done|done|lia|lia|].
        intros [|k'] p'' Hk' Hp''; simplify_eq/=; [lia|]. apply (Hall k'); [lia|done].
  - specialize (IH (S j) mr mi). destruct (minScan (S j) (q :: rest) mr mi) as [mr' mi'].
    destruct IH as (H1 & H2 & H3). split_and!; [lia| |].
    + intros [|k] p' Hk Hl; simplify_eq/=; [lia|]. apply (H2 k); [done|cbn in *; lia].
    + destruct H3 as [H3|(k & p' & Hk & Hp' & Hr & Hlt & -> & Hall)]; [by left|right].
      exists (S k), p'. split_and!; [cbn in *; lia|done|done|lia|lia|].
      intros [|k'] p'' Hk' Hp''; simplify_eq/=; [lia|]. apply (Hall k'); [lia|done].
Qed.

(** The scan finds the reference's pair, or that there is none. *)
Definition found (b : list nat) (mr : Z) (mi : nat) : Prop :=
  if mr =? maxRank then ∀ j, pairRank b j = maxRank else leftmost b mi.

Lemma minScan_found b : let '(mr, mi) := minScan 0 (partsOf b) maxRank 0 in found b mr mi.
Proof.
  pose proof (minScan_spec (partsOf b) 0 maxRank 0) as H. destruct (minScan 0 (partsOf b) maxRank 0) as [mr mi].
  destruct H as (_ & Hall & Hex). unfold found.
  assert (∀ k, pairRank b k ≠ maxRank → mr ≤ pairRank b k) as Hmin.
  { intros k Hk. destruct (pairRank_inside _ _ Hk) as (s & m & e & Hs & _ & He). apply (Hall k (mkPart s (pairRank b k))).
    - by rewrite partsOf_lookup, Hs.
    - unfold partsOf. rewrite length_imap. apply lookup_lt_Some in He. lia. }
  destruct (Z.eqb_spec mr maxRank) as [->|Hne].
  - intros j. destruct (decide (pairRank b j = maxRank)) as [|Hj]; [done|]. specialize (Hmin j Hj).
    pose proof (pairRank_bound b j). lia.
  - destruct Hex as [[= -> ->]|(k & p & Hk & Hp & <- & Hlt & -> & Hleft)]; [done|]. cbn [Nat.add].
    rewrite partsOf_lookup in Hp. destruct (b !! k) as [s|] eqn:Es; [|done]. injection Hp as <-. cbn [p_rank] in *.
    split; [done|]. intros j'. destruct (decide (pairRank b j' = maxRank)) as [->|Hj]; [by left|].
    specialize (Hmin j' Hj). destruct (decide (j' < k)%nat) as [Hlt'|]; [|lia]. left.
    destruct (pairRank_inside _ _ Hj) as (s' & _ & _ & Hs' & _).
    apply (Hleft j' (mkPart s' (pairRank b j')) Hlt'). by rewrite partsOf_lookup, Hs'.
Qed.

Lemma found_inside b mr mi : found b mr mi → mr ≠ maxRank → (S (S mi) < length b)%nat.
Proof.
  unfold found. destruct (Z.eqb_spec mr maxRank); [done|]. intros [Hlt _] _.
  destruct (pairRank_inside b mi) as (s & m & e & _ & _ & He); [lia|]. by apply lookup_lt_Some in He.
Qed.

Lemma smallLoop_merges fuel b mr mi :
  seg b → found b mr mi → (length b ≤ S (S fuel))%nat →
  ∃ b', smallLoop rank fuel piece (partsOf b) mr mi = Some (partsOf b') ∧ merges b b' ∧ seg b'.
Proof.
  revert b mr mi. induction fuel as [|fuel IH]; intros b mr mi Hseg Hf Hl; cbn [smallLoop]; pose proof (found_inside _ _ _ Hf) as Hin;
    unfold found in Hf; (destruct (Z.eqb_spec mr maxRank) as [->|Hne]; [exists b; split_and!; [done|by constructor|done]|]);
    specialize (Hin Hne); [lia|].
  rewrite mergeAt_partsOf by done. pose proof (minScan_found (delete (S mi) b)) as Hf'.
  destruct (minScan 0 (partsOf (delete (S mi) b)) maxRank 0) as [mr' mi'].
  destruct (IH (delete (S mi) b) mr' mi') as (b' & Hb' & Hm & Hs'); [by apply seg_delete|done| |].
  { rewrite length_delete by (apply lookup_lt_is_Some_2; lia). lia. }
  exists b'. split_and!; [done|by econstructor|done].
Qed.

(** The first pass, and the segmentation into bytes. *)
Definition bytesSeg : list nat := seq 0 (S (slen piece)).

Lemma bytesSeg_lookup j : bytesSeg !! j = if (j <=? slen piece)%nat then Some j else None.
Proof.
  unfold bytesSeg. destruct (Nat.leb_spec j (slen piece)); [apply lookup_seq; lia|apply lookup_seq_ge; lia].
Qed.

Lemma bytesSeg_seg : seg bytesSeg.
Proof.
  split; [done| |].
  - rewrite last_lookup, bytesSeg_lookup. unfold bytesSeg. rewrite length_seq. cbn [pred]. by rewrite Nat.leb_refl.
  - intros i j x y. rewrite !bytesSeg_lookup. repeat case_match; naive_solver lia.
Qed.

Lemma initParts_spec k i mr mi x y :
  mr ≤ maxRank →
  let '(parts, mr', mi') := initParts rank piece k i mr mi in
  parts = (λ a, mkPart a (rankOr rank (sub piece a (a + 2)))) <$> seq i k ∧
  minScan i (parts ++ [mkPart x maxRank; y]) mr mi = (mr', mi').
Proof.
  revert i mr mi. induction k as [|k IH]; intros i mr mi Hmr; cbn [initParts].
  - split; [done|]. cbn. by destruct (Z.ltb_spec maxRank mr); [lia|].
  - destruct (Z.ltb_spec (rankOr rank (sub piece i (i + 2))) mr) as [Hlt|Hge].
    + pose proof (IH (S i) (rankOr rank (sub piece i (i + 2))) i ltac:(lia)) as H.
      destruct (initParts rank piece k (S i) _ i) as [[parts mr'] mi']. destruct H as [-> H]. split; [done|].
      cbn [seq fmap list_fmap app]. destruct (_ ++ _) eqn:E; [by destruct (seq (S i) k)|]. rewrite minScan_cons. cbn [p_rank].
      by destruct (Z.ltb_spec (rankOr rank (sub piece i (i + 2))) mr); [|lia].
    + pose proof (IH (S i) mr mi Hmr) as H.
      destruct (initParts rank piece k (S i) mr mi) as [[parts mr'] mi']. destruct H as [-> H]. split; [done|].
      cbn [seq fmap list_fmap app]. destruct (_ ++ _) eqn:E; [by destruct (seq (S i) k)|]. rewrite minScan_cons. cbn [p_rank].
      by destruct (Z.ltb_spec (rankOr rank (sub piece i (i + 2))) mr); [lia|].
Qed.

Lemma initParts_bytes :
  (2 ≤ slen piece)%nat →
  ((λ a, mkPart a (rankOr rank (sub piece a (a + 2)))) <$> seq 0 (slen piece - 1))
    ++ [mkPart (slen piece - 1) maxRank; mkPart (slen piece) maxRank] = partsOf bytesSeg.
Proof.
  intros Hn. apply list_eq. intros j. rewrite partsOf_lookup, lookup_app, list_lookup_fmap, length_fmap, length_seq.
  unfold pairRank. rewrite !bytesSeg_lookup. destruct (decide (j < slen piece - 1)%nat) as [Hj|Hj].
  - rewrite lookup_seq_lt by lia. cbn [fmap option_fmap option_map]. destruct (Nat.leb_spec j (slen piece)); [|lia].
    destruct (Nat.leb_spec (S (S j)) (slen piece)); [|lia]. cbn [fmap option_fmap option_map]. by replace (0 + j + 2)%nat with (S (S j)) by lia.
  - rewrite lookup_seq_ge by lia. cbn [fmap option_fmap option_map].
    destruct (Nat.leb_spec (S (S j)) (slen piece)); [lia|]. destruct (Nat.leb_spec j (slen piece)).
    + destruct (decide (j = slen piece)) as [->|].
      * replace (slen piece - (slen piece - 1))%nat with 1%nat by lia. done.
      * replace (j - (slen piece - 1))%nat with 0%nat by lia. cbn. do 2 f_equal. lia.
    + destruct (j - (slen piece - 1))%nat as [|[|k]] eqn:E; try lia. done.
Qed.

(** The ranks of the tokens of a segmentation. *)
Fixpoint emitSeg (b : list nat) : list Z :=
  match b with
  | s :: ((e :: _) as rest) => lookupRank rank (sub piece s e) ++ emitSeg rest
  | _ => []
  end.

Lemma emitParts_seg parts : emitParts rank piece parts = emitSeg (p_start <$> parts).
Proof. induction parts as [|p [|q rest] IH]; [done..|]. cbn in *. by rewrite IH. Qed.

Lemma merges_short b : (length b ≤ 2)%nat → merges b b.
Proof.
  intros Hb. constructor. intros j. destruct (decide (pairRank b j = maxRank)) as [|Hj]; [done|].
  destruct (pairRank_inside _ _ Hj) as (s & m & e & _ & _ & He). apply lookup_lt_Some in He. lia.
Qed.

Lemma stake_all s : stake (slen s) s = s.
Proof. induction s as [|c s IH]; [done|]. cbn. f_equal. exact IH. Qed.

Lemma mergePartsSmall_spec dst :
  piece ≠ "" →
  ∃ b, merges bytesSeg b ∧ seg b ∧ mergePartsSmall rank piece dst = Some (dst ++ emitSeg b).
Proof.
  intros Hne. unfold mergePartsSmall. destruct (Nat.eqb_spec (slen piece) 0) as [H0|H0]; [by destruct piece|].
  destruct (Nat.eqb_spec (slen piece) 1) as [H1|H1].
  { exists bytesSeg. split_and!; [apply merges_short; unfold bytesSeg; rewrite length_seq; lia|apply bytesSeg_seg|].
    unfold bytesSeg. rewrite H1. cbn [seq emitSeg]. rewrite app_nil_r. unfold sub. cbn [Nat.sub sdrop].
    pose proof (stake_all piece) as Ha. rewrite H1 in Ha. destruct piece; [done|]. cbn [sdrop]. by rewrite Ha. }
  pose proof (initParts_spec (slen piece - 1) 0 maxRank 0 (slen piece - 1) (mkPart (slen piece) maxRank) ltac:(lia)) as Hi.
  destruct (initParts rank piece (slen piece - 1) 0 maxRank 0) as [[parts mr] mi]. destruct Hi as [-> Hi].
  rewrite initParts_bytes in * by lia. pose proof (minScan_found bytesSeg) as Hf. rewrite Hi in Hf.
  destruct (smallLoop_merges (slen piece) bytesSeg mr mi) as (b & -> & Hm & Hs); [apply bytesSeg_seg|done| |].
  { unfold bytesSeg. rewrite length_seq. lia. }
  exists b. split_and!; [done..|]. cbn. by rewrite emitParts_seg, partsOf_starts.
Qed.

(** ** Long pieces follow the reference *)

Definition before (m y : mergeEntry) : Prop :=
  me_rank m < me_rank y ∨ (me_rank m = me_rank y ∧ (me_start m ≤ me_start y)%nat).

Lemma Less_before y m : if Less y m then before y m ∧ y ≠ m else before m y.
Proof.
  unfold Less, before. destruct (Z.eqb_spec (me_rank y) (me_rank m)) as [E|E]; cbn [negb].
  - destruct (Nat.ltb_spec (me_start y) (me_start m)); [|lia]. split; [lia|]. intros ->. lia.
  - destruct (Z.ltb_spec (me_rank y) (me_rank m)); [|lia]. split; [lia|]. intros ->. lia.
Qed.

Lemma popMin_spec e h :
  let '(m, rest) := popMin e h in m :: rest ≡ₚ e :: h ∧ ∀ y, y ∈ e :: h → before m y.
Proof.
  revert e. induction h as [|x h IH]; intros e; cbn [popMin].
  - split; [done|]. intros y ->%list_elem_of_singleton. right. lia.
  - pose proof (Less_before x e) as Hl. destruct (Less x e).
    + specialize (IH x). destruct (popMin x h) as [m rest]. destruct IH as [Hp Hm]. split.
      { by rewrite perm_swap, Hp. }
      intros y [->|Hy]%elem_of_cons; [|by apply Hm]. specialize (Hm x ltac:(by left)). unfold before in *. lia.
    + specialize (IH e). destruct (popMin e h) as [m rest]. destruct IH as [Hp Hm]. split.
      { rewrite perm_swap, Hp. apply perm_swap. }
      intros y [->|[->|Hy]%elem_of_cons]%elem_of_cons; [apply Hm; by left| |apply Hm; by right].
      specialize (Hm e ltac:(by left)). unfold before in *. lia.
Qed.

(** What [potentialMerge] offers: the rank of the token from [start] to [e]. *)
Definition offer (start e : nat) : option Z := if (e <=? slen piece)%nat then rank (sub piece start e) else None.
Definition pushed (start e : nat) : list mergeEntry := match offer start e with Some r => [mkEntry start r] | None => [] end.

Lemma potentialMerge_eval start e st h m :
  st !! start = Some m →
  potentialMerge rank piece start e (st, h) =
    Some (<[start := mkState (ms_prev m) (ms_end m) e (default maxRank (offer start e)) (ms_curRank m)]> st, h ++ pushed start e).
Proof.
  intros Hm. unfold potentialMerge, pushed, offer. rewrite Hm. cbn.
  destruct (Nat.leb_spec e (slen piece)); [destruct (rank (sub piece start e))|]; cbn; by rewrite ?app_nil_r.
Qed.

Definition joined (s : nat) (l r : mergeState) : mergeState :=
  mkState (ms_prev l) (ms_nextEnd l) (ms_nextEnd r) (default maxRank (offer s (ms_nextEnd r))) (ms_nextRank l).

(** The joined token is stored and its right neighbour linked to it. *)
Lemma relink_lookup s st l r k :
  st !! s = Some l → (s < ms_nextEnd l)%nat →
  (let st1 := <[s := joined s l r]> st in
   if (ms_nextEnd l <? length st)%nat then alter (setPrev s) (ms_nextEnd l) st1 else st1) !! k =
  (λ m, if decide (k = s) then joined s l r else if decide (k = ms_nextEnd l) then setPrev s m else m) <$> st !! k.
Proof.
  intros Hl Hs. pose proof (lookup_lt_Some _ _ _ Hl) as Hls. cbv zeta.
  assert (∀ i, <[s := joined s l r]> st !! i = if decide (i = s) then Some (joined s l r) else st !! i) as H1.
  { intros i. case_decide; [subst; by rewrite list_lookup_insert_eq|by rewrite list_lookup_insert_ne by done]. }
  destruct (Nat.ltb_spec (ms_nextEnd l) (length st)); rewrite ?list_lookup_alter, !H1;
    repeat case_decide; subst; try lia; rewrite ?Hl; try done; try (by rewrite option_fmap_id).
  by rewrite lookup_ge_None_2 by lia.
Qed.

(** The left neighbour is offered the joined token. *)
Definition offerPrev (s p e : nat) (st : list mergeState) (k : nat) (m : mergeState) : mergeState :=
  if decide ((0 < s)%nat ∧ k = p) then mkState (ms_prev m) (ms_end m) e (default maxRank (offer p e)) (ms_curRank m) else m.

Lemma offerPrev_eval s p e st h l :
  st !! s = Some l → ((0 < s)%nat → ms_prev l = Z.of_nat p ∧ is_Some (st !! p)) →
  ∃ st', (if (0 <? s)%nat then q ← prevOf st s; potentialMerge rank piece q e (st, h) else Some (st, h)) =
      Some (st', h ++ (if (0 <? s)%nat then pushed p e else [])) ∧
    length st' = length st ∧ ∀ k, st' !! k = offerPrev s p e st k <$> st !! k.
Proof.
  intros Hl Hp. unfold offerPrev. destruct (Nat.ltb_spec 0 s) as [Hs|Hs].
  - destruct (Hp Hs) as (Hpv & [mp Hmp]). unfold prevOf. rewrite Hl. cbn [mbind option_bind]. rewrite Hpv.
    destruct (Z.ltb_spec (Z.of_nat p) 0); [lia|]. cbn [mbind option_bind]. rewrite Nat2Z.id.
    erewrite potentialMerge_eval by exact Hmp. eexists. split; [done|]. split; [by rewrite length_insert|].
    intros k. destruct (decide (k = p)) as [->|]; [|rewrite list_lookup_insert_ne by done].
    + rewrite list_lookup_insert_eq by (by eapply lookup_lt_Some). rewrite Hmp. cbn. by rewrite decide_True.
    + destruct (st !! k); cbn; [by rewrite decide_False by naive_solver|done].
  - exists st. rewrite app_nil_r. split_and!; [done..|]. intros k. destruct (st !! k); cbn; [by rewrite decide_False by lia|done].
Qed.

Definition after (s p : nat) (l r : mergeState) (k : nat) (m : mergeState) : mergeState :=
  if decide (k = s) then joined s l r
  else if decide (k = ms_end l) then setNextRank maxRank m
  else if decide (k = ms_nextEnd l) then setPrev s m
  else if decide ((0 < s)%nat ∧ k = p) then
    mkState (ms_prev m) (ms_end m) (ms_nextEnd l) (default maxRank (offer p (ms_nextEnd l))) (ms_curRank m)
  else m.

(** What a valid entry does to every position. *)
Lemma mergeLeft_eval s p st h l r :
  st !! s = Some l → st !! ms_end l = Some r →
  (s < ms_end l < ms_nextEnd l)%nat → ((0 < s)%nat → ms_prev l = Z.of_nat p ∧ is_Some (st !! p) ∧ (p < s)%nat) →
  ∃ st', mergeLeft rank piece s (st, h) =
      Some (st', (h ++ pushed s (ms_nextEnd r)) ++ (if (0 <? s)%nat then pushed p (ms_nextEnd l) else [])) ∧
    length st' = length st ∧ ∀ k, st' !! k = after s p l r k <$> st !! k.
Proof.
  intros Hl Hr Ho Hp. pose proof (lookup_lt_Some _ _ _ Hl) as Hls. pose proof (lookup_lt_Some _ _ _ Hr) as Hlr.
  unfold mergeLeft. rewrite Hl. cbn [mbind option_bind]. rewrite Hr. cbn [mbind option_bind].
  erewrite potentialMerge_eval by (by rewrite list_lookup_insert_eq). cbn [mbind option_bind ms_prev ms_end ms_nextEnd ms_curRank].
  rewrite list_insert_insert_eq, length_insert. fold (joined s l r).
  pose proof (λ k, relink_lookup s st l r k Hl ltac:(lia)) as H2. cbv zeta in H2.
  set (st2 := if (ms_nextEnd l <? length st)%nat then _ else _) in *.
  assert (length st2 = length st) as Hlen2.
  { unfold st2. case_match; by rewrite ?length_alter, length_insert. }
  clearbody st2.
  destruct (offerPrev_eval s p (ms_nextEnd l) st2 (h ++ pushed s (ms_nextEnd r)) (joined s l r)) as (st3 & -> & Hlen3 & H3).
  { rewrite H2, Hl. cbn. by rewrite decide_True. }
  { intros Hs. destruct (Hp Hs) as (Hpv & Hsp & _). split; [done|]. rewrite H2. by apply fmap_is_Some. }
  cbn [mbind option_bind].
  assert (is_Some (st3 !! ms_end l)) as [m3 Hm3] by (apply lookup_lt_is_Some_2; lia).
  rewrite Hm3. cbn [mbind option_bind]. eexists. split; [done|]. split; [rewrite length_alter; lia|].
  assert ((0 < s)%nat → (p < s)%nat) as Hps by (intros Hs; by destruct (Hp Hs) as (_ & _ & ?)).
  intros k. rewrite list_lookup_alter. unfold after.
  destruct (decide (ms_end l = k)) as [<-|]; rewrite H3, H2; unfold offerPrev; [rewrite Hr|destruct (st !! k); [|done]];
    cbn [fmap option_fmap option_map]; f_equal; repeat case_decide; done || lia.
Qed.

(** The state and the heap beside a segmentation. *)
Record heapFor (b : list nat) (st : list mergeState) (h : list mergeEntry) : Prop := {
  hf_len : length st = slen piece;
  hf_live : ∀ j s e, b !! j = Some s → b !! S j = Some e → ∃ m, st !! s = Some m ∧
    ms_end m = e ∧ ms_nextEnd m = default (S (slen piece)) (b !! S (S j)) ∧ ms_nextRank m = pairRank b j ∧
    (∀ i p, j = S i → b !! i = Some p → ms_prev m = Z.of_nat p) ∧
    (ms_curRank m = maxRank ∨ rank (sub piece s e) = Some (ms_curRank m));
  hf_dead : ∀ s m, st !! s = Some m → s ∉ b → ms_nextRank m = maxRank;
  hf_offered : ∀ s m, st !! s = Some m → ms_nextRank m ≠ maxRank → mkEntry s (ms_nextRank m) ∈ h;
  hf_entries : ∀ e, e ∈ h → (me_start e < slen piece)%nat ∧ me_rank e < maxRank
}.

Lemma seg_le b j x : seg b → b !! j = Some x → (x ≤ slen piece)%nat.
Proof.
  intros [_ Hl Hs] Hx. rewrite last_lookup in Hl. pose proof (lookup_lt_Some _ _ _ Hx).
  destruct (decide (j = pred (length b))) as [->|]; [by simplify_eq|].
  assert (x < slen piece)%nat; [eapply Hs; [|done..]; lia|lia].
Qed.

Lemma seg_next b j x y : seg b → b !! j = Some x → b !! S j = Some y → (x < y ≤ slen piece)%nat.
Proof. intros Hb Hx Hy. split; [by eapply (seg_sorted b Hb j (S j)); [lia|..]|by eapply seg_le]. Qed.

Lemma seg_inj b i j x : seg b → b !! i = Some x → b !! j = Some x → i = j.
Proof.
  intros Hb Hi Hj. destruct (lt_eq_lt_dec i j) as [[H|H]|H]; [|done|];
    [pose proof (seg_sorted b Hb i j x x H Hi Hj)|pose proof (seg_sorted b Hb j i x x H Hj Hi)]; lia.
Qed.

Lemma seg_end b j x : seg b → b !! j = Some x → b !! S j = None → x = slen piece.
Proof.
  intros Hb Hj Hn. pose proof (seg_last b Hb) as Hl. rewrite last_lookup in Hl. apply lookup_ge_None in Hn.
  apply lookup_lt_Some in Hj as Hlt. replace (pred (length b)) with j in Hl by lia. congruence.
Qed.

Lemma offer_inside s e : (e ≤ slen piece)%nat → default maxRank (offer s e) = rankOr rank (sub piece s e).
Proof. intros He. unfold offer, rankOr. by destruct (Nat.leb_spec e (slen piece)); [|lia]. Qed.

Lemma offer_none s : offer s (S (slen piece)) = None.
Proof. unfold offer. by destruct (Nat.leb_spec (S (slen piece)) (slen piece)); [lia|]. Qed.

Lemma pushed_elem s e : default maxRank (offer s e) ≠ maxRank → mkEntry s (default maxRank (offer s e)) ∈ pushed s e.
Proof. unfold pushed. destruct (offer s e); cbn; [by left|done]. Qed.

Lemma pushed_entry s e x : x ∈ pushed s e → me_start x = s ∧ me_rank x < maxRank.
Proof.
  unfold pushed, offer. destruct (_ <=? _)%nat; [|by intros ?%elem_of_nil].
  destruct (rank (sub piece s e)) as [r|] eqn:E; [|by intros ?%elem_of_nil].
  intros ->%list_elem_of_singleton. apply rank_bound in E. cbn. lia.
Qed.

Section OneMerge.
Context (b : list nat) (st : list mergeState) (h : list mergeEntry) (j s m e p : nat) (l r : mergeState).
Hypothesis Hb : seg b.
Hypothesis Hh : heapFor b st (mkEntry s (pairRank b j) :: h).
Hypotheses (Hs : b !! j = Some s) (Hm : b !! S j = Some m) (He : b !! S (S j) = Some e).
Hypothesis Hp : (0 < s)%nat → ∃ i, j = S i ∧ b !! i = Some p.
Hypothesis Hrank : pairRank b j ≠ maxRank.
Hypotheses (Hl : st !! s = Some l) (Hr : st !! m = Some r).
Hypotheses (Hl_end : ms_end l = m) (Hl_next : ms_nextEnd l = e) (Hl_rank : ms_nextRank l = pairRank b j).
Hypothesis Hl_prev : ∀ i q, j = S i → b !! i = Some q → ms_prev l = Z.of_nat q.
Hypothesis Hr_next : ms_nextEnd r = default (S (slen piece)) (b !! S (S (S j))).

Lemma one_order : (s < m)%nat ∧ (m < e)%nat ∧ (e ≤ slen piece)%nat ∧ ((0 < s)%nat → (p < s)%nat).
Proof.
  pose proof (seg_next b j s m Hb Hs Hm). pose proof (seg_next b (S j) m e Hb Hm He). split_and!; try lia.
  intros Hpos. destruct (Hp Hpos) as (i & -> & Hi). by eapply seg_next.
Qed.

Lemma one_first i : j = S i → (0 < s)%nat ∧ b !! i = Some p.
Proof.
  intros ->. assert (0 < s)%nat as H0.
  { eapply (seg_sorted b Hb 0 (S i)); [lia|apply Hb|done]. }
  split; [done|]. by destruct (Hp H0) as (i' & [= <-] & Hi).
Qed.

Lemma after_other k x : k ≠ s → k ≠ m → k ≠ e → ¬ ((0 < s)%nat ∧ k = p) → after s p l r k x = x.
Proof. intros. unfold after. rewrite Hl_end, Hl_next. by rewrite !decide_False. Qed.

Lemma after_self x : after s p l r s x = joined s l r.
Proof. unfold after. by rewrite decide_True. Qed.

Lemma after_next x : after s p l r e x = setPrev s x.
Proof.
  pose proof one_order. unfold after. rewrite Hl_end, Hl_next, (decide_False (P := e = s)), (decide_False (P := e = m)) by lia.
  by rewrite decide_True.
Qed.

Lemma after_prev x : (0 < s)%nat →
  after s p l r p x = mkState (ms_prev x) (ms_end x) e (rankOr rank (sub piece p e)) (ms_curRank x).
Proof.
  pose proof one_order. intros Hpos. unfold after.
  rewrite Hl_end, Hl_next, (decide_False (P := p = s)), (decide_False (P := p = m)), (decide_False (P := p = e)) by lia.
  rewrite decide_True by done. by rewrite offer_inside by lia.
Qed.

Definition live (b : list nat) (st : list mergeState) (j s e : nat) : Prop := ∃ m, st !! s = Some m ∧
  ms_end m = e ∧ ms_nextEnd m = default (S (slen piece)) (b !! S (S j)) ∧ ms_nextRank m = pairRank b j ∧
  (∀ i p, j = S i → b !! i = Some p → ms_prev m = Z.of_nat p) ∧
  (ms_curRank m = maxRank ∨ rank (sub piece s e) = Some (ms_curRank m)).

Context (st' : list mergeState).
Hypothesis Hst : ∀ k, st' !! k = after s p l r k <$> st !! k.

(** A token left of the pair. *)
Lemma one_live_left j' s' e' : (j' < j)%nat → b !! j' = Some s' → b !! S j' = Some e' → live (delete (S j) b) st' j' s' e'.
Proof.
  intros Hj Hs' He'. destruct (hf_live _ _ _ Hh j' s' e' Hs' He') as (x & Hx & H1 & H2 & H3 & H4 & H5).
  pose proof one_order as (O1 & O2 & O3 & O4).
  assert (s' < s)%nat by (by eapply (seg_sorted b Hb j' j)).
  unfold live. rewrite Hst, Hx. cbn [fmap option_fmap option_map]. unfold pairRank. rewrite !lookup_delete_idx.
  destruct (Nat.ltb_spec j' (S j)) as [_|]; [|lia].
  assert (∀ i q, j' = S i → delete (S j) b !! i = Some q → b !! i = Some q) as Hback.
  { intros i q -> . rewrite lookup_delete_idx. by destruct (Nat.ltb_spec i (S j)); [|lia]. }
  destruct (decide (j = S j')) as [Hj'|Hne].
  - destruct (one_first j' Hj') as [Hpos Hp']. assert (s' = p) as -> by congruence. rewrite Hs', <-Hj'.
    destruct (Nat.ltb_spec (S j) (S j)) as [|_]; [lia|]. rewrite He. exists (after s p l r p x). split; [done|].
    rewrite after_prev by done. cbn. split_and!; [done..| |done]. intros i q Hi Hq. eapply H4; [done|]. by eapply Hback.
  - destruct (Nat.ltb_spec (S (S j')) (S j)) as [_|]; [|lia]. exists x. rewrite after_other; try lia; [|].
    + split_and!; [done..| |done]. intros i q Hi Hq. eapply H4; [done|]. by eapply Hback.
    + intros [Hpos Hs'p]. destruct (Hp Hpos) as (i & Hi' & Hi). rewrite Hs'p in Hs'. pose proof (seg_inj b _ _ _ Hb Hi Hs'). lia.
Qed.

(** The joined token. *)
Lemma one_live_joined : live (delete (S j) b) st' j s e.
Proof.
  destruct (hf_live _ _ _ Hh j s m Hs Hm) as (x & Hx & _). pose proof one_order as (O1 & O2 & O3 & O4).
  unfold live. rewrite Hst, Hx. cbn [fmap option_fmap option_map]. rewrite after_self. eexists. split; [done|].
  unfold joined. cbn [ms_end ms_nextEnd ms_nextRank ms_prev ms_curRank]. unfold pairRank. rewrite !lookup_delete_idx.
  destruct (Nat.ltb_spec j (S j)) as [_|]; [|lia]. destruct (Nat.ltb_spec (S (S j)) (S j)) as [|_]; [lia|].
  rewrite Hs, Hr_next. split_and!; [done|done| | |].
  - destruct (b !! S (S (S j))) as [x'|] eqn:Ex; cbn [default from_option id].
    + apply offer_inside. by eapply seg_le.
    + by rewrite offer_none.
  - intros i q Hi. rewrite lookup_delete_idx. destruct (Nat.ltb_spec i (S j)) as [_|]; [|lia]. intros Hq. by eapply Hl_prev.
  - right. rewrite Hl_rank. unfold pairRank in *. rewrite Hs, He in *. unfold rankOr in *.
    by destruct (rank (sub piece s e)).
Qed.

(** A token right of the pair. *)
Lemma one_live_right j' s' e' :
  (j < j')%nat → b !! S j' = Some s' → b !! S (S j') = Some e' → live (delete (S j) b) st' j' s' e'.
Proof.
  intros Hj Hs' He'. destruct (hf_live _ _ _ Hh (S j') s' e' Hs' He') as (x & Hx & H1 & H2 & H3 & H4 & H5).
  pose proof one_order as (O1 & O2 & O3 & O4).
  unfold live. rewrite Hst, Hx. cbn [fmap option_fmap option_map]. unfold pairRank in *. rewrite !lookup_delete_idx.
  destruct (Nat.ltb_spec j' (S j)) as [|_]; [lia|]. destruct (Nat.ltb_spec (S (S j')) (S j)) as [|_]; [lia|].
  destruct (decide (j' = S j)) as [->|Hne].
  - assert (s' = e) as -> by congruence. rewrite after_next. eexists. split; [done|]. cbn. split_and!; [done..| |done].
    intros i q [= <-]. rewrite lookup_delete_idx. destruct (Nat.ltb_spec j (S j)) as [_|]; [|lia]. naive_solver.
  - assert (e < s')%nat by (eapply (seg_sorted b Hb (S (S j)) (S j')); [lia|done..]).
    exists x. rewrite after_other by lia. split_and!; [done..| |done].
    intros i q ->. rewrite lookup_delete_idx. destruct (Nat.ltb_spec i (S j)) as [|_]; [lia|]. naive_solver.
Qed.

Lemma one_live j' s' e' :
  delete (S j) b !! j' = Some s' → delete (S j) b !! S j' = Some e' → live (delete (S j) b) st' j' s' e'.
Proof.
  intros Hs' He'. rewrite lookup_delete_idx in Hs', He'.
  destruct (Nat.ltb_spec j' (S j)), (Nat.ltb_spec (S j') (S j)); try lia.
  - apply one_live_left; [lia|done..].
  - assert (j' = j) as -> by lia. assert (s' = s) as -> by congruence. assert (e' = e) as -> by congruence. apply one_live_joined.
  - by apply one_live_right; [lia|..].
Qed.

Lemma one_kept k : k ∈ delete (S j) b ↔ k ∈ b ∧ k ≠ m.
Proof.
  rewrite !list_elem_of_lookup. split.
  - intros (i & Hi). rewrite lookup_delete_idx in Hi. destruct (Nat.ltb_spec i (S j));
      (split; [by eexists|]); intros ->; pose proof (seg_inj b _ _ _ Hb Hi Hm); lia.
  - intros [(i & Hi) Hne]. destruct (lt_eq_lt_dec i (S j)) as [[Hlt|Heq]|Hgt]; [|rewrite Heq in Hi; congruence|].
    + exists i. rewrite lookup_delete_idx. by destruct (Nat.ltb_spec i (S j)); [|lia].
    + exists (pred i). rewrite lookup_delete_idx. destruct (Nat.ltb_spec (pred i) (S j)); [lia|].
      by replace (S (pred i)) with i by lia.
Qed.

Lemma one_dead k x : st' !! k = Some x → k ∉ delete (S j) b → ms_nextRank x = maxRank.
Proof.
  rewrite Hst. intros (y & Hy & ->)%fmap_Some Hk. rewrite one_kept in Hk. pose proof one_order as (O1 & O2 & O3 & O4).
  assert (∀ i q, b !! i = Some q → q ≠ m → k ≠ q) as Hin.
  { intros i q Hq Hne ->. apply Hk. split; [|done]. by eapply list_elem_of_lookup_2. }
  pose proof (Hin j s Hs ltac:(lia)) as K1. pose proof (Hin (S (S j)) e He ltac:(lia)) as K2.
  assert (¬ ((0 < s)%nat ∧ k = p)) as K3.
  { intros [Hpos Hkp]. destruct (Hp Hpos) as (i & _ & Hi). specialize (O4 Hpos). by apply (Hin i p Hi ltac:(lia)). }
  destruct (decide (k = m)) as [->|K4].
  - unfold after. rewrite Hl_end, decide_False by done. by rewrite decide_True.
  - rewrite after_other by done. eapply (hf_dead _ _ _ Hh); [done|]. naive_solver.
Qed.

Lemma one_offered k x :
  st' !! k = Some x → ms_nextRank x ≠ maxRank →
  mkEntry k (ms_nextRank x) ∈ (h ++ pushed s (ms_nextEnd r)) ++ (if (0 <? s)%nat then pushed p (ms_nextEnd l) else []).
Proof.
  rewrite Hst. intros (y & Hy & ->)%fmap_Some Hx. pose proof one_order as (O1 & O2 & O3 & O4).
  assert (k ≠ s → ms_nextRank y ≠ maxRank → mkEntry k (ms_nextRank y) ∈ h) as Hold.
  { intros Hne Hy'. pose proof (hf_offered _ _ _ Hh k y Hy Hy') as [Heq|]%elem_of_cons; [congruence|done]. }
  rewrite !elem_of_app. destruct (decide (k = s)) as [->|K1].
  { rewrite after_self in *. left. right. by apply pushed_elem. }
  destruct (decide (k = m)) as [->|K2].
  { unfold after in Hx. rewrite Hl_end, decide_False, decide_True in Hx by done. done. }
  destruct (decide (k = e)) as [->|K3].
  { rewrite after_next in *. left. left. by apply Hold. }
  destruct (decide ((0 < s)%nat ∧ k = p)) as [[Hpos ->]|K4].
  - rewrite after_prev in * by done. right. cbn [ms_nextRank] in *. rewrite Hl_next. destruct (Nat.ltb_spec 0 s); [|lia].
    rewrite <-(offer_inside p e O3) in *. by apply pushed_elem.
  - rewrite after_other in * by done. left. left. by apply Hold.
Qed.

Lemma one_heapFor :
  length st' = length st →
  heapFor (delete (S j) b) st' ((h ++ pushed s (ms_nextEnd r)) ++ (if (0 <? s)%nat then pushed p (ms_nextEnd l) else [])).
Proof.
  intros Hlen. pose proof one_order as (O1 & O2 & O3 & O4).
  split; [rewrite Hlen; apply Hh|apply one_live|apply one_dead|apply one_offered|].
  intros x. rewrite !elem_of_app. intros [[Hx|Hx]|Hx].
  - apply (hf_entries _ _ _ Hh). by right.
  - apply pushed_entry in Hx as [-> ?]. split; [lia|done].
  - destruct (Nat.ltb_spec 0 s); [|by apply elem_of_nil in Hx]. apply pushed_entry in Hx as [-> ?]. split; [lia|done].
Qed.
End OneMerge.

#[local] Instance heapFor_proper b st : Proper ((≡ₚ) ==> iff) (heapFor b st).
Proof.
  assert (∀ h h', h ≡ₚ h' → heapFor b st h → heapFor b st h') as H.
  { intros h h' Hp [H1 H2 H3 H4 H5]. split; [done..| |].
    - intros. rewrite <-Hp. by apply H4.
    - intros e. rewrite <-Hp. apply H5. }
  intros h h' Hp. split; apply H; [done|by symmetry].
Qed.

(** A live position is the start of a token that has a right neighbour or ends the piece. *)
Lemma heapFor_rank b st h j : seg b → heapFor b st h → pairRank b j ≠ maxRank →
  ∃ s, b !! j = Some s ∧ mkEntry s (pairRank b j) ∈ h.
Proof.
  intros Hb Hh Hj. destruct (pairRank_inside _ _ Hj) as (s & m & e & Hs & Hm & _). exists s. split; [done|].
  destruct (hf_live _ _ _ Hh j s m Hs Hm) as (x & Hx & _ & _ & Hr & _). rewrite <-Hr in *. by eapply hf_offered.
Qed.

Lemma heapFor_stale b st top h m :
  heapFor b st (top :: h) → st !! me_start top = Some m → me_rank top ≠ ms_nextRank m → heapFor b st h.
Proof.
  intros [H1 H2 H3 H4 H5] Hm Hne. split; [done..| |].
  - intros s x Hx Hr. pose proof (H4 s x Hx Hr) as [Heq|]%elem_of_cons; [|done].
    subst top. cbn in *. congruence.
  - intros e He. apply H5. by right.
Qed.

(** A valid entry is the leftmost pair of lowest rank, and merging it follows the reference. *)
Lemma heapFor_valid b st top h m :
  seg b → heapFor b st (top :: h) → (∀ y, y ∈ top :: h → before top y) → st !! me_start top = Some m →
  me_rank top = ms_nextRank m →
  ∃ j st' h', leftmost b j ∧ mergeLeft rank piece (me_start top) (st, h) = Some (st', h') ∧
    heapFor (delete (S j) b) st' h' ∧ (length h' ≤ length h + 2)%nat.
Proof.
  intros Hb Hh Hmin Hm Hr. destruct top as [s k]. cbn [me_start me_rank] in *.
  destruct (hf_entries _ _ _ Hh (mkEntry s k) ltac:(by left)) as [Hlt Hk]. cbn in Hlt, Hk.
  assert (∃ j, b !! j = Some s) as [j Hj].
  { apply list_elem_of_lookup. destruct (decide (s ∈ b)) as [|Hn]; [done|]. pose proof (hf_dead _ _ _ Hh s m Hm Hn). lia. }
  assert (is_Some (b !! S j)) as [e He].
  { destruct (b !! S j) eqn:E; [done|]. pose proof (seg_end b j s Hb Hj E). lia. }
  destruct (hf_live _ _ _ Hh j s e Hj He) as (x & Hx & Hend & Hnext & Hrank & Hprev & _). simplify_eq.
  rewrite Hrank in *. assert (pairRank b j ≠ maxRank) as Hj' by lia.
  destruct (pairRank_inside _ _ Hj') as (s' & m' & e' & Hs' & Hm' & He'). simplify_eq.
  destruct (hf_live _ _ _ Hh (S j) _ e' He He') as (r & Hr & _ & Hrn & _). rewrite He' in Hnext. cbn in Hnext.
  set (p := match j with O => O | S i => default O (b !! i) end).
  assert ((0 < s)%nat → ∃ i, j = S i ∧ b !! i = Some p) as Hp.
  { intros Hpos. destruct j as [|i]; [pose proof (seg_first b Hb); simplify_eq; lia|]. exists i. split; [done|].
    destruct (lookup_lt_is_Some_2 b i) as [q Hq]; [apply lookup_lt_Some in Hj; lia|]. unfold p. by rewrite Hq. }
  pose proof (seg_next b j _ _ Hb Hj He). pose proof (seg_next b (S j) _ _ Hb He He').
  destruct (mergeLeft_eval s p st h m r) as (st' & Hst' & Hlen & Hk'); [done..|lia| |].
  { intros Hpos. destruct (Hp Hpos) as (i & -> & Hi). destruct (hf_live _ _ _ Hh i p s Hi Hj) as (y & Hy & _).
    split_and!; [by eapply Hprev|by eexists|by eapply seg_next]. }
  exists j. eexists _, _. split_and!; [|exact Hst'|by eapply one_heapFor|].
  - split; [lia|]. intros j'. destruct (decide (pairRank b j' = maxRank)) as [->|Hne]; [by left|].
    destruct (heapFor_rank _ _ _ j' Hb Hh Hne) as (q & Hq & Hin). specialize (Hmin _ Hin). unfold before in Hmin. cbn in Hmin.
    destruct Hmin as [|[-> Hle]]; [by left|right]. split; [done|]. destruct (decide (j ≤ j')%nat) as [|Hgt]; [done|].
    pose proof (seg_sorted b Hb j' j q s ltac:(lia) Hq Hj). lia.
  - rewrite !length_app. unfold pushed. repeat case_match; cbn; lia.
Qed.

Lemma largeLoop_merges fuel b st h :
  seg b → heapFor b st h → (length h + 2 * length b ≤ fuel)%nat →
  ∃ b' st' h', largeLoop rank fuel piece st h = Some st' ∧ merges b b' ∧ seg b' ∧ heapFor b' st' h'.
Proof.
  revert b st h. induction fuel as [|fuel IH]; intros b st h Hb Hh Hf.
  { destruct b; [by destruct Hb|cbn in Hf; lia]. }
  destruct h as [|e h]; cbn [largeLoop].
  { exists b, st, []. split_and!; [done| |done..]. constructor. intros j. destruct (decide (pairRank b j = maxRank)) as [|Hj]; [done|].
    by destruct (heapFor_rank _ _ _ j Hb Hh Hj) as (s & _ & ?%elem_of_nil). }
  pose proof (popMin_spec e h) as Hpop. destruct (popMin e h) as [top rest]. destruct Hpop as [Hperm Hmin].
  assert (length rest = length h) as Hlen by (apply Permutation_length in Hperm; cbn in Hperm; lia).
  rewrite <-Hperm in Hh. destruct (hf_entries _ _ _ Hh top ltac:(by left)) as [Hlt Hk].
  destruct (Z.eqb_spec (me_rank top) maxRank); [lia|].
  destruct (lookup_lt_is_Some_2 st (me_start top)) as [m Hm]; [by rewrite (hf_len _ _ _ Hh)|]. rewrite Hm. cbn [mbind option_bind].
  destruct (Z.eqb_spec (me_rank top) (ms_nextRank m)) as [Hr|Hr]; cbn [negb].
  - destruct (heapFor_valid b st top rest m) as (j & st' & h' & Hl & -> & Hh' & Hlen'); [done..| |done|done|].
    { intros y Hy. apply Hmin. by rewrite <-Hperm. }
    cbn [mbind option_bind]. destruct (pairRank_inside b j) as (s1 & m1 & e1 & _ & _ & He1); [destruct Hl; lia|].
    apply lookup_lt_Some in He1. destruct (IH (delete (S j) b) st' h') as (b' & st'' & h'' & Hl' & Hm' & Hs' & Hh''); [by apply seg_delete|done| |].
    { rewrite length_delete by (apply lookup_lt_is_Some_2; lia). cbn in Hf. lia. }
    exists b', st'', h''. split_and!; [done|by econstructor|done..].
  - apply (IH b st rest); [done|by eapply heapFor_stale|cbn in Hf; lia].
Qed.

(** The state after the first [i] pairs of bytes were looked up. *)
Definition initAt (i k : nat) : mergeState :=
  mkState (Z.of_nat k - 1) (S k) (S (S k)) (if (k <? i)%nat then rankOr rank (sub piece k (k + 2)) else maxRank) maxRank.

Definition initHeap (i : nat) (h : list mergeEntry) : Prop :=
  (length h ≤ i)%nat ∧ ∀ e, e ∈ h ↔ (me_start e < i)%nat ∧ rank (sub piece (me_start e) (me_start e + 2)) = Some (me_rank e).

Lemma initAt_lookup i n k : (initAt i <$> seq 0 n) !! k = if (k <? n)%nat then Some (initAt i k) else None.
Proof.
  rewrite list_lookup_fmap. destruct (Nat.ltb_spec k n); [by rewrite lookup_seq_lt by lia|by rewrite lookup_seq_ge by lia].
Qed.

Lemma initLarge_row i h :
  initHeap i h →
  ∃ h', (match rank (sub piece i (i + 2)) with
         | Some r => (alter (setNextRank r) i (initAt i <$> seq 0 (S i)), h ++ [mkEntry i r])
         | None => (initAt i <$> seq 0 (S i), h)
         end) = (initAt (S i) <$> seq 0 (S i), h') ∧ initHeap (S i) h'.
Proof.
  intros [Hlen Hh]. destruct (rank (sub piece i (i + 2))) as [r|] eqn:Er.
  - exists (h ++ [mkEntry i r]). split; [f_equal|split].
    + apply list_eq. intros k. rewrite list_lookup_alter, !initAt_lookup. case_decide; subst.
      * destruct (Nat.ltb_spec k (S k)); [|lia]. cbn [fmap option_fmap option_map]. f_equal. unfold initAt, setNextRank, rankOr.
        cbn [ms_prev ms_end ms_nextEnd ms_curRank]. by rewrite Er, (proj2 (Nat.ltb_lt k (S k))) by lia.
      * destruct (Nat.ltb_spec k (S i)); [|done]. f_equal. unfold initAt.
        by destruct (Nat.ltb_spec k i), (Nat.ltb_spec k (S i)); try lia.
    + rewrite length_app. cbn. lia.
    + intros e. rewrite elem_of_app, Hh, list_elem_of_singleton. split; [intros [[]| ->]; cbn; split; [lia|done|lia|done]|].
      intros [Hlt He]. destruct (decide (me_start e = i)) as [<-|]; [right|left; split; [lia|done]].
      destruct e. cbn in *. congruence.
  - exists h. split; [f_equal|split; [lia|]].
    + apply list_eq. intros k. rewrite !initAt_lookup. destruct (Nat.ltb_spec k (S i)); [|done]. f_equal. unfold initAt.
      destruct (Nat.ltb_spec k i), (Nat.ltb_spec k (S i)); try lia; [done|]. replace k with i by lia. unfold rankOr. by rewrite Er.
    + intros e. rewrite Hh. split; [intros []; split; [lia|done]|]. intros [Hlt He]. split; [|done].
      destruct (decide (me_start e = i)) as [<-|]; [congruence|lia].
Qed.

Lemma initLarge_spec k i h :
  initHeap i h →
  ∃ h', initLarge rank piece k i (initAt i <$> seq 0 (S i)) h = (initAt (i + k) <$> seq 0 (S (i + k)), h') ∧ initHeap (i + k) h'.
Proof.
  revert i h. induction k as [|k IH]; intros i h Hh; cbn [initLarge].
  { exists h. by rewrite Nat.add_0_r. }
  destruct (initLarge_row i h Hh) as (h' & -> & Hh').
  replace ((initAt (S i) <$> seq 0 (S i)) ++ [mkState (Z.of_nat i) (i + 2) (i + 3) maxRank maxRank])
    with (initAt (S i) <$> seq 0 (S (S i))).
  - rewrite <-Nat.add_succ_comm. by apply IH.
  - rewrite (seq_S (S i)), fmap_app. f_equal. cbn. unfold initAt.
    destruct (Nat.ltb_spec (S i) (S i)); [lia|]. f_equal. f_equal; lia.
Qed.

Lemma initHeap_for h :
  (1 ≤ slen piece)%nat → initHeap (slen piece - 1) h →
  heapFor bytesSeg (initAt (slen piece - 1) <$> seq 0 (slen piece)) h.
Proof.
  intros Hn [Hlen Hh]. split.
  - by rewrite length_fmap, length_seq.
  - intros j s e. rewrite !bytesSeg_lookup. destruct (Nat.leb_spec j (slen piece)); [|done].
    destruct (Nat.leb_spec (S j) (slen piece)) as [Hj|]; [|done]. intros [= <-] [= <-].
    exists (initAt (slen piece - 1) j). rewrite initAt_lookup. destruct (Nat.ltb_spec j (slen piece)); [|lia].
    unfold initAt, pairRank. cbn [ms_end ms_nextEnd ms_nextRank ms_prev ms_curRank]. rewrite !bytesSeg_lookup.
    destruct (Nat.leb_spec j (slen piece)); [|lia].
    split_and!; [done|done| | | |by left].
    + destruct (Nat.leb_spec (S (S j)) (slen piece)); cbn; lia.
    + destruct (Nat.ltb_spec j (slen piece - 1)), (Nat.leb_spec (S (S j)) (slen piece)); try lia.
      by replace (j + 2)%nat with (S (S j)) by lia.
    + intros i p ->. rewrite bytesSeg_lookup. destruct (Nat.leb_spec i (slen piece)); [|done]. intros [= <-]. lia.
  - intros s m Hs Hno. exfalso. apply Hno. rewrite initAt_lookup in Hs. destruct (Nat.ltb_spec s (slen piece)); [|done].
    apply list_elem_of_lookup_2 with s. rewrite bytesSeg_lookup. by destruct (Nat.leb_spec s (slen piece)); [|lia].
  - intros s m Hs Hr. rewrite initAt_lookup in Hs. destruct (Nat.ltb_spec s (slen piece)); [|done]. injection Hs as <-.
    unfold initAt in *. cbn [ms_nextRank] in *. apply Hh. cbn [me_start me_rank].
    destruct (Nat.ltb_spec s (slen piece - 1)); [|done]. split; [done|]. unfold rankOr in *. by destruct (rank _).
  - intros e He. apply Hh in He as [Hlt He]. apply rank_bound in He. lia.
Qed.

Lemma merges_length b b' : merges b b' → (length b' ≤ length b)%nat.
Proof.
  induction 1 as [|b j b' [Hl _] _ IH]; [done|]. etrans; [exact IH|].
  destruct (pairRank_inside b j) as (s & m & e & _ & Hm & _); [lia|]. rewrite length_delete by (by eexists). lia.
Qed.

Lemma emitLarge_seg fuel b st h j s :
  seg b → heapFor b st h → b !! j = Some s → (length b ≤ S (fuel + j))%nat →
  emitLarge rank fuel piece st s = Some (emitSeg (drop j b)).
Proof.
  intros Hb Hh. revert j s. induction fuel as [|fuel IH]; intros j s Hs Hf; rewrite (drop_S _ _ _ Hs);
    (destruct (b !! S j) as [e|] eqn:He; [rewrite (drop_S _ _ _ He)|]); cbn [emitLarge emitSeg].
  - apply lookup_lt_Some in He. lia.
  - rewrite (seg_end b j s Hb Hs He), lookup_ge_None_2 by (rewrite (hf_len _ _ _ Hh); lia). by rewrite drop_ge by (by apply lookup_ge_None).
  - destruct (hf_live _ _ _ Hh j s e Hs He) as (m & -> & Hend & _ & _ & _ & Hcur). rewrite Hend, (IH (S j) e He) by lia.
    cbn [mbind option_bind]. rewrite (drop_S _ _ _ He). do 2 f_equal. destruct (Z.eqb_spec (ms_curRank m) maxRank) as [|Hne]; cbn [negb]; [done|].
    destruct Hcur as [|Hcur]; [done|]. unfold lookupRank. by rewrite Hcur.
  - rewrite (seg_end b j s Hb Hs He), lookup_ge_None_2 by (rewrite (hf_len _ _ _ Hh); lia). by rewrite drop_ge by (by apply lookup_ge_None).
Qed.

Lemma mergePartsLarge_spec dst :
  piece ≠ "" →
  ∃ b, merges bytesSeg b ∧ seg b ∧ mergePartsLarge rank piece dst = Some (dst ++ emitSeg b).
Proof.
  intros Hne. assert (1 ≤ slen piece)%nat as Hn by (destruct piece; [done|cbn; lia]). unfold mergePartsLarge.
  destruct (initLarge_spec (slen piece - 1) 0 []) as (h & Hi & Hh).
  { split; [cbn; lia|]. intros e. split; [by intros ?%elem_of_nil|lia]. }
  change (initAt 0 <$> seq 0 1) with [mkState (-1) 1 2 maxRank maxRank] in Hi. rewrite Hi. cbn [Nat.add] in *.
  replace (S (slen piece - 1)) with (slen piece) by lia.
  destruct (largeLoop_merges (3 * slen piece + 3) bytesSeg (initAt (slen piece - 1) <$> seq 0 (slen piece)) h)
    as (b & st & h' & -> & Hm & Hs & Hh'); [apply bytesSeg_seg|by apply initHeap_for| |].
  { unfold bytesSeg. rewrite length_seq. destruct Hh as [Hh _]. lia. }
  cbn [mbind option_bind]. apply merges_length in Hm as Hlen. unfold bytesSeg in Hlen. rewrite length_seq in Hlen.
  rewrite (emitLarge_seg _ b st h' 0 0); [|done|done|apply Hs|lia]. cbn [mbind option_bind]. rewrite drop_0. by exists b.
Qed.

(** ** The reference on tokens *)

Lemma sdrop_sdrop i k (s : string) : sdrop i (sdrop k s) = sdrop (k + i) s.
Proof. revert s. induction k as [|k IH]; intros s; [done|]. destruct s as [|c s]; [by destruct i|]. cbn. apply IH. Qed.

Lemma stake_add i k (s : string) : stake (i + k) s = stake i s +:+ stake k (sdrop i s).
Proof. revert s. induction i as [|i IH]; intros s; [done|]. destruct s as [|c s]; [by destruct k|]. cbn. by rewrite IH. Qed.

Lemma sub_join s m e : (s ≤ m ≤ e)%nat → sub piece s m +:+ sub piece m e = sub piece s e.
Proof.
  intros H. unfold sub. replace (e - s)%nat with ((m - s) + (e - m))%nat by lia. rewrite stake_add, sdrop_sdrop.
  by replace (s + (m - s))%nat with m by lia.
Qed.

Fixpoint spans (b : list nat) : list string :=
  match b with
  | s :: ((e :: _) as rest) => sub piece s e :: spans rest
  | _ => []
  end.

Lemma spans_lookup b j :
  spans b !! j = match b !! j, b !! S j with Some s, Some e => Some (sub piece s e) | _, _ => None end.
Proof. revert j. induction b as [|s [|e rest] IH]; intros [|j]; [done..|]. cbn [spans lookup list_lookup]. apply IH. Qed.

Lemma emitSeg_spans b : emitSeg b = concat (lookupRank rank <$> spans b).
Proof. induction b as [|s [|e rest] IH]; [done..|]. cbn in *. by rewrite IH. Qed.

(** Byte-pair encoding as a relation on token lists: as long as two neighbours form
    a token, the leftmost pair of the lowest rank is joined. *)
Inductive bpe : list string → list string → Prop :=
  | bpe_done toks :
      (∀ j a b, toks !! j = Some a → toks !! S j = Some b → rank (a +:+ b) = None) → bpe toks toks
  | bpe_merge toks j a b k toks' :
      toks !! j = Some a → toks !! S j = Some b → rank (a +:+ b) = Some k →
      (∀ j' a' b' k', toks !! j' = Some a' → toks !! S j' = Some b' → rank (a' +:+ b') = Some k' →
         k < k' ∨ (k = k' ∧ (j ≤ j')%nat)) →
      bpe (take j toks ++ (a +:+ b) :: drop (S (S j)) toks) toks' → bpe toks toks'.

Lemma spans_delete b j s e :
  seg b → b !! j = Some s → b !! S (S j) = Some e →
  spans (delete (S j) b) = take j (spans b) ++ sub piece s e :: drop (S (S j)) (spans b).
Proof.
  intros Hb Hs He. assert (j ≤ length (spans b))%nat as Hlen.
  { destruct (lookup_lt_is_Some_2 b (S j)) as [m Hm]; [apply lookup_lt_Some in He; lia|].
    assert (spans b !! j = Some (sub piece s m)) as Hsp by (by rewrite spans_lookup, Hs, Hm). apply lookup_lt_Some in Hsp. lia. }
  apply list_eq. intros k. rewrite spans_lookup, !lookup_delete_idx.
  destruct (lt_eq_lt_dec k j) as [[Hlt| ->]|Hgt].
  - rewrite lookup_app_l by (rewrite length_take; lia). rewrite lookup_take, decide_True, spans_lookup by done.
    by destruct (Nat.ltb_spec k (S j)), (Nat.ltb_spec (S k) (S j)); try lia.
  - rewrite lookup_app_r by (rewrite length_take; lia). rewrite length_take, Nat.min_l, Nat.sub_diag by done. cbn [lookup list_lookup].
    destruct (Nat.ltb_spec j (S j)), (Nat.ltb_spec (S j) (S j)); try lia. by rewrite Hs, He.
  - rewrite lookup_app_r by (rewrite length_take; lia). rewrite length_take, Nat.min_l by done.
    destruct (k - j)%nat as [|d] eqn:Ed; [lia|]. rewrite lookup_cons, lookup_drop, spans_lookup.
    replace (S (S j) + d)%nat with (S k) by lia.
    by destruct (Nat.ltb_spec k (S j)), (Nat.ltb_spec (S k) (S j)); try lia.
Qed.

(** Neighbours of a segmentation and the rank of their join. *)
Lemma spans_pair b j a c :
  seg b → spans b !! j = Some a → spans b !! S j = Some c →
  ∃ s m e, b !! j = Some s ∧ b !! S j = Some m ∧ b !! S (S j) = Some e ∧ a +:+ c = sub piece s e.
Proof.
  intros Hb. rewrite !spans_lookup. destruct (b !! j) as [s|] eqn:Es; [|done]. destruct (b !! S j) as [m|] eqn:Em; [|done].
  destruct (b !! S (S j)) as [e|] eqn:Ee; [|done]. intros [= <-] [= <-]. exists s, m, e. split_and!; [done..|].
  pose proof (seg_next b j s m Hb Es Em). pose proof (seg_next b (S j) m e Hb Em Ee). apply sub_join. lia.
Qed.

Lemma spans_rank b j a c :
  seg b → spans b !! j = Some a → spans b !! S j = Some c → pairRank b j = rankOr rank (a +:+ c).
Proof. intros Hb Ha Hc. destruct (spans_pair b j a c Hb Ha Hc) as (s & m & e & Hs & _ & He & ->). unfold pairRank. by rewrite Hs, He. Qed.

Lemma merges_bpe b b' : merges b b' → seg b → bpe (spans b) (spans b').
Proof.
  induction 1 as [b Hd|b j b' [Hlt Hl] _ IH]; intros Hb.
  - constructor. intros j a c Ha Hc. specialize (Hd j). rewrite (spans_rank b j a c Hb Ha Hc) in Hd. unfold rankOr in Hd.
    destruct (rank (a +:+ c)) as [r|] eqn:E; [|done]. apply rank_bound in E. cbn in Hd. lia.
  - destruct (pairRank_inside b j) as (s & m & e & Hs & Hm & He); [lia|].
    assert (spans b !! j = Some (sub piece s m)) as Ha by (by rewrite spans_lookup, Hs, Hm).
    assert (spans b !! S j = Some (sub piece m e)) as Hc by (by rewrite spans_lookup, Hm, He).
    pose proof (spans_rank b j _ _ Hb Ha Hc) as Hr. destruct (spans_pair b j _ _ Hb Ha Hc) as (? & ? & ? & ? & ? & ? & Hj). simplify_eq.
    eapply (bpe_merge _ j _ _ (pairRank b j)); [done..| | |].
    + rewrite Hr in *. unfold rankOr in *. destruct (rank _); [done|cbn in *; lia].
    + intros j' a' c' k' Ha' Hc' Hk'. specialize (Hl j'). rewrite (spans_rank b j' _ _ Hb Ha' Hc') in Hl.
      unfold rankOr in Hl. rewrite Hk' in Hl. cbn in Hl. lia.
    + rewrite Hj, <-(spans_delete b j _ _ Hb Hs He). apply IH, seg_delete; [done|]. by apply lookup_lt_Some in He.
Qed.

Definition cat (toks : list string) : string := foldr String.append "" toks.

Lemma sub_all : sub piece 0 (slen piece) = piece.
Proof. unfold sub. rewrite Nat.sub_0_r. exact (stake_all piece). Qed.

Lemma spans_cat_from b j s e :
  seg b → b !! j = Some s → last b = Some e → cat (spans (drop j b)) = sub piece s e.
Proof.
  intros Hb Hs He. remember (length b - j)%nat as d eqn:Ed. revert j s Hs Ed.
  induction d as [|d IH]; intros j s Hs Ed; [apply lookup_lt_Some in Hs; lia|].
  rewrite (drop_S _ _ _ Hs). destruct (b !! S j) as [m|] eqn:Hm.
  - specialize (IH (S j) m Hm ltac:(lia)). rewrite (drop_S _ _ _ Hm) in *. cbn [spans cat foldr] in *. fold (cat (spans (m :: drop (S (S j)) b))).
    rewrite IH. pose proof (seg_next b j s m Hb Hs Hm). pose proof (seg_last b Hb). simplify_eq. apply sub_join.
    pose proof (seg_le b (S j) m Hb Hm). lia.
  - pose proof (seg_end b j s Hb Hs Hm) as ->. rewrite drop_ge by (by apply lookup_ge_None).
    pose proof (seg_last b Hb). simplify_eq. cbn. unfold sub. by rewrite Nat.sub_diag.
Qed.

Lemma spans_cat b : seg b → cat (spans b) = piece.
Proof.
  intros Hb. rewrite <-(drop_0 b), (spans_cat_from b 0 0 (slen piece)); [apply sub_all|done|apply Hb|apply Hb].
Qed.

(** The segmentation into bytes. *)
Definition bytesOf (s : string) : list string := (λ c, String c "") <$> String.list_ascii_of_string s.

Lemma byte_at j t :
  (λ c, String c "") <$> String.list_ascii_of_string t !! j = if (S j <=? slen t)%nat then Some (stake 1 (sdrop j t)) else None.
Proof. revert j. induction t as [|c t IH]; intros [|j]; [done..|]. exact (IH j). Qed.

Lemma spans_bytes : spans bytesSeg = bytesOf piece.
Proof.
  apply list_eq. intros j. unfold bytesOf. rewrite spans_lookup, !bytesSeg_lookup, list_lookup_fmap, byte_at.
  destruct (Nat.leb_spec j (slen piece)), (Nat.leb_spec (S j) (slen piece)); try lia; try done.
  unfold sub. by replace (S j - j)%nat with 1%nat by lia.
Qed.

(** Every token of the result is known when every byte is. *)
Lemma bpe_known toks toks' :
  bpe toks toks' → Forall (λ t, is_Some (rank t)) toks → Forall (λ t, is_Some (rank t)) toks'.
Proof.
  induction 1 as [|toks j a b k toks' Ha Hb Hk _ _ IH]; [done|]. intros Hall. apply IH, Forall_app. split.
  - by apply Forall_take.
  - constructor; [by eexists|by apply Forall_drop].
Qed.

Lemma bpe_length toks toks' : bpe toks toks' → (length toks' ≤ length toks)%nat.
Proof.
  induction 1 as [|toks j a b k toks' Ha Hb Hk _ _ IH]; [done|]. etrans; [exact IH|]. apply lookup_lt_Some in Hb.
  rewrite length_app, length_take. cbn. rewrite length_drop. lia.
Qed.

Lemma mergeParts_bpe dst :
  piece ≠ "" →
  ∃ toks, bpe (bytesOf piece) toks ∧ cat toks = piece ∧ mergeParts rank piece dst = Some (dst ++ concat (lookupRank rank <$> toks)).
Proof.
  intros Hne.
  assert (∃ b, merges bytesSeg b ∧ seg b ∧ mergeParts rank piece dst = Some (dst ++ emitSeg b)) as (b & Hm & Hs & ->).
  { unfold mergeParts. case_match; [by apply mergePartsSmall_spec|by apply mergePartsLarge_spec]. }
  exists (spans b). rewrite emitSeg_spans. split_and!; [|by apply spans_cat|done]. rewrite <-spans_bytes.
  apply merges_bpe; [done|apply bytesSeg_seg].
Qed.

(** C27. Both merge routines of the tokenizer always return and compute the same
    thing, whatever the vocabulary: the byte-pair encoding of the piece.  Starting
    from its bytes, the leftmost pair of lowest rank is joined as long as two
    neighbours form a token; the result is the ranks of the remaining tokens, which
    together are the piece. *)
Theorem merge_routines_agree dst :
  piece ≠ "" →
  ∃ toks, bpe (bytesOf piece) toks ∧ cat toks = piece ∧
    mergePartsSmall rank piece dst = Some (dst ++ concat (lookupRank rank <$> toks)) ∧
    mergePartsLarge rank piece dst = Some (dst ++ concat (lookupRank rank <$> toks)).
Proof.
  intros Hne. destruct (mergePartsSmall_spec dst Hne) as (b & Hm & Hs & ->).
  destruct (mergePartsLarge_spec dst Hne) as (b' & Hm' & _ & ->). rewrite (merges_det _ _ _ Hm' Hm), emitSeg_spans.
  exists (spans b). split_and!; [|by apply spans_cat|done..]. rewrite <-spans_bytes.
  apply merges_bpe; [done|apply bytesSeg_seg].
Qed.
End Facts.

(** A small vocabulary. *)
Definition demo_rank (s : string) : option Z :=
  snd <$> List.find (λ kv, String.eqb kv.1 s) [("a", 1); ("b", 2); ("c", 3); ("ab", 5); ("ba", 4); ("aba", 6)].

Lemma merge_routines_agree_witness :
  ∃ toks, bpe demo_rank (bytesOf "abcabab") toks ∧ cat toks = "abcabab" ∧
    mergePartsSmall demo_rank "abcabab" [] = Some ([] ++ concat (lookupRank demo_rank <$> toks)) ∧
    mergePartsLarge demo_rank "abcabab" [] = Some ([] ++ concat (lookupRank demo_rank <$> toks)).
Proof.
  apply merge_routines_agree; [|done]. intros s r Hs. unfold demo_rank in Hs. apply fmap_Some in Hs as ([k v] & Hf & ->).
  apply find_some in Hf as [Hin _]. cbn in Hin. unfold maxRank. repeat (destruct Hin as [[= <- <-]|Hin]; [cbn; lia|]). done.
Defined.

Lemma merge_example : mergePartsLarge demo_rank "abcabab" [] = Some [5; 3; 6; 2].
Proof. reflexivity. Qed.
