(* ===== verification/BpeVocab.v ===== *)
(** * The tokenizer's vocabulary (src/internal/bpe/vocab.go)

    The embedded file is decoded into the tokens, their offsets and an open-addressed
    table of ranks.  The file itself is a parameter: any sequence of bytes.  The
    table is a map from slots to entries, an absent slot holding 0; a probe that has
    seen every slot would go on forever, which is [None]. *)

From S2P Require Import Prelude GoText BpeMerge.

Open Scope string_scope.
Open Scope list_scope.
Open Scope Z_scope.

Definition wrapU32 (z : Z) : Z := z mod 2 ^ 32.

Definition blobMagic : string := "NBPE".
Definition blobVersion : Z := 1.
Definition headerSize : nat := 16.
Definition tableSize : Z := Z.shiftl 1 17.
Definition tableMask : Z := tableSize - 1.

Inductive VocabError :=
  | ShortBlob (n : nat) | BadMagic (m : string) | BadVersion (v : Z) | BadCount (n : Z) | BadMaxLen (n : Z)
  | TruncatedLengths | BadSum (off : Z) (n : nat) | EmptyToken (i : nat).

Record vocabulary := mkVocab { v_tokens : string; v_offs : list Z; v_table : gmap Z Z }.

(** [binary.LittleEndian.Uint32(blob[i:i+4])]. *)
Definition byteAt (blob : string) (i : nat) : Z := byteZ (sget i blob).
Definition Uint32 (blob : string) (i : nat) : Z :=
  byteAt blob i + Z.shiftl (byteAt blob (i + 1)) 8 + Z.shiftl (byteAt blob (i + 2)) 16 + Z.shiftl (byteAt blob (i + 3)) 24.

Fixpoint fnv (b : string) (h : Z) : Z :=
  match b with
  | "" => h
  | String c b => fnv b (wrapU32 (Z.lxor h (byteZ c) * 16777619))
  end.

Definition hashBytes (b : string) : Z :=
  let h := fnv b 2166136261 in
  let h := Z.lxor h (Z.shiftr h 16) in
  let h := wrapU32 (h * 0x7feb352d) in
  let h := Z.lxor h (Z.shiftr h 15) in
  let h := wrapU32 (h * 0x846ca68b) in
  Z.lxor h (Z.shiftr h 16).

(** [v.offs]: the offset of every token and the end of the last. *)
Fixpoint offsets (lengths : string) (off : Z) : list Z :=
  match lengths with
  | "" => [off]
  | String c lengths => off :: offsets lengths (wrapU32 (off + byteZ c))
  end.

Definition slot (table : gmap Z Z) (h : Z) : Z := default 0 (table !! h).

(** [tokens[offs[i]:offs[i+1]]]. *)
Definition tokenAt (tokens : string) (offs : list Z) (i : nat) : string :=
  sub tokens (Z.to_nat (default 0 (offs !! i))) (Z.to_nat (default 0 (offs !! S i))).

Definition probeFuel : nat := Z.to_nat tableSize.

(** [for v.table[h] != 0 { h = (h + 1) & tableMask }]. *)
Fixpoint freeSlot (fuel : nat) (table : gmap Z Z) (h : Z) : option Z :=
  match fuel with
  | O => None
  | S fuel => if slot table h =? 0 then Some h else freeSlot fuel table (Z.land (h + 1) tableMask)
  end.

(** The insertions, [k] of them from rank [i]. *)
Fixpoint fillTable (k i : nat) (tokens : string) (offs : list Z) (table : gmap Z Z) : option (VocabError + gmap Z Z) :=
  match k with
  | O => Some (inr table)
  | S k =>
      let tok := tokenAt tokens offs i in
      if (slen tok =? 0)%nat then Some (inl (EmptyToken i)) else
      h ← freeSlot probeFuel table (Z.land (hashBytes tok) tableMask);
      fillTable k (S i) tokens offs (<[h := wrapU32 (Z.of_nat i + 1)]> table)
  end.

Definition loadVocab (blob : string) : option (VocabError + vocabulary) :=
  if (slen blob <? headerSize)%nat then Some (inl (ShortBlob (slen blob))) else
  if negb (String.eqb (sub blob 0 4) blobMagic) then Some (inl (BadMagic (sub blob 0 4))) else
  let version := Uint32 blob 4 in
  if negb (version =? blobVersion) then Some (inl (BadVersion version)) else
  let n := Uint32 blob 8 in
  let maxLen := Uint32 blob 12 in
  if (n <=? 0) || (tableSize <=? n) then Some (inl (BadCount n)) else
  if 255 <? maxLen then Some (inl (BadMaxLen maxLen)) else
  if (slen blob <? headerSize + Z.to_nat n)%nat then Some (inl TruncatedLengths) else
  let lengths := sub blob headerSize (headerSize + Z.to_nat n) in
  let tokens := sdrop (headerSize + Z.to_nat n) blob in
  let offs := offsets lengths 0 in
  let off := default 0 (last offs) in
  if negb (off =? Z.of_nat (slen tokens)) then Some (inl (BadSum off (slen tokens))) else
  table ← fillTable (Z.to_nat n) 0 tokens offs ∅;
  Some (match table with inl err => inl err | inr table => inr (mkVocab tokens offs table) end).

(** [rank]: [None] for a probe that does not end, [Some None] for [ok = false]. *)
Fixpoint probe (fuel : nat) (v : vocabulary) (tok : string) (h : Z) : option (option Z) :=
  match fuel with
  | O => None
  | S fuel =>
      let e := slot (v_table v) h in
      if e =? 0 then Some None else
      let i := e - 1 in
      if String.eqb (tokenAt (v_tokens v) (v_offs v) (Z.to_nat i)) tok then Some (Some i)
      else probe fuel v tok (Z.land (h + 1) tableMask)
  end.

Definition rank (v : vocabulary) (tok : string) : option Z :=
  default None (probe probeFuel v tok (Z.land (hashBytes tok) tableMask)).

Definition token (v : vocabulary) (i : Z) : option string :=
  if Z.of_nat (length (v_offs v)) - 1 <=? i then None else Some (tokenAt (v_tokens v) (v_offs v) (Z.to_nat i)).

Definition NumRanks (v : vocabulary) : Z := Z.of_nat (length (v_offs v)) - 1.

(** ** Open addressing *)

Lemma tableSize_pos : 0 < tableSize.
Proof. done. Qed.

Lemma tableSize_u32 : tableSize < 2 ^ 32.
Proof. done. Qed.

Lemma probeFuel_size : Z.of_nat probeFuel = tableSize.
Proof. unfold probeFuel. apply Z2Nat.id. pose proof tableSize_pos. lia. Qed.

Lemma land_mask z : Z.land z tableMask = z mod tableSize.
Proof. exact (Z.land_ones z 17 ltac:(lia)). Qed.

#[local] Opaque tableSize probeFuel.

(** The slot at distance [d] of a probe that starts at [h]. *)
Definition at_ (h d : Z) : Z := (h + d) mod tableSize.

Lemma at_range h d : 0 ≤ at_ h d < tableSize.
Proof. apply Z.mod_pos_bound, tableSize_pos. Qed.

Lemma at_0 h : 0 ≤ h < tableSize → at_ h 0 = h.
Proof. intros H. unfold at_. rewrite Z.add_0_r. by apply Z.mod_small. Qed.

Lemma at_step h d : at_ (Z.land (h + 1) tableMask) d = at_ h (d + 1).
Proof.
  unfold at_. rewrite land_mask, Z.add_mod_idemp_l by (pose proof tableSize_pos; lia). f_equal. lia.
Qed.

Lemma at_inj h d d' : 0 ≤ d < tableSize → 0 ≤ d' < tableSize → at_ h d = at_ h d' → d = d'.
Proof.
  unfold at_. intros Hd Hd' E. apply (f_equal (λ z, (z - h) mod tableSize)) in E.
  rewrite !Zminus_mod_idemp_l in E. replace (h + d - h) with d in E by lia. replace (h + d' - h) with d' in E by lia.
  by rewrite !Z.mod_small in E.
Qed.

(** A table with fewer entries than slots has a free one on every path. *)
Lemma free_exists (table : gmap Z Z) h :
  Z.of_nat (size table) < tableSize → ∃ d, 0 ≤ d < tableSize ∧ table !! at_ h d = None.
Proof.
  intros Hsize. pose proof tableSize_pos.
  destruct (decide (Forall (λ d, is_Some (table !! at_ h d)) (seqZ 0 tableSize))) as [Hall|Hno].
  - exfalso. rewrite Forall_forall in Hall.
    assert (length (at_ h <$> seqZ 0 tableSize) ≤ size (dom table))%nat as Hle.
    { rewrite <-(size_list_to_set (C := gset Z) (at_ h <$> seqZ 0 tableSize)).
      - apply subseteq_size. intros x (d & -> & Hd)%elem_of_list_to_set%list_elem_of_fmap. apply elem_of_dom. by apply Hall.
      - apply NoDup_fmap_2_strong; [|apply NoDup_seqZ]. intros x y Hx%elem_of_seqZ Hy%elem_of_seqZ. apply at_inj; lia. }
    rewrite length_fmap, length_seqZ, size_dom in Hle. lia.
  - apply not_Forall_Exists in Hno; [|apply _]. apply Exists_exists in Hno as (d & Hd%elem_of_seqZ & Hnone).
    exists d. split; [lia|]. by apply eq_None_not_Some.
Qed.

Definition entries (table : gmap Z Z) : Prop := ∀ h e, table !! h = Some e → 1 ≤ e.

Lemma slot_free table h : entries table → slot table h = 0 ↔ table !! h = None.
Proof.
  intros He. unfold slot. destruct (table !! h) as [e|] eqn:E; [|done]. apply He in E. cbn. split; [lia|done].
Qed.

Lemma freeSlot_spec fuel table h :
  entries table → 0 ≤ h < tableSize → (∃ d, 0 ≤ d < Z.of_nat fuel ∧ table !! at_ h d = None) →
  ∃ d, 0 ≤ d < Z.of_nat fuel ∧ freeSlot fuel table h = Some (at_ h d) ∧ table !! at_ h d = None ∧
    ∀ d', 0 ≤ d' < d → is_Some (table !! at_ h d').
Proof.
  intros He. revert h. induction fuel as [|fuel IH]; intros h Hh (d & Hd & Hfree); [lia|]. cbn [freeSlot].
  destruct (Z.eqb_spec (slot table h) 0) as [Hs|Hs].
  - exists 0. rewrite at_0 by done. apply slot_free in Hs; [|done]. split_and!; [lia|lia|done|done|lia].
  - destruct (decide (d = 0)) as [->|Hne]; [rewrite at_0, <-slot_free in Hfree by done; done|].
    destruct (IH (Z.land (h + 1) tableMask)) as (d1 & Hd1 & -> & Hn & Hall).
    { rewrite land_mask. apply Z.mod_pos_bound, tableSize_pos. }
    { exists (d - 1). rewrite at_step. split; [lia|]. by replace (d - 1 + 1) with d by lia. }
    exists (d1 + 1). rewrite at_step in *. split_and!; [lia|lia|done|done|].
    intros d' Hd'. destruct (decide (d' = 0)) as [->|].
    + rewrite at_0 by done. apply not_eq_None_Some. by rewrite <-slot_free.
    + specialize (Hall (d' - 1) ltac:(lia)). rewrite at_step in Hall. by replace (d' - 1 + 1) with d' in Hall by lia.
Qed.

(** The table after the first [k] insertions: every token is on its own probe path,
    behind tokens that were inserted before it. *)
Record filled (tok : nat → string) (k : nat) (table : gmap Z Z) : Prop := {
  fl_entries : ∀ h e, table !! h = Some e → ∃ i, (i < k)%nat ∧ e = Z.of_nat i + 1;
  fl_placed : ∀ i, (i < k)%nat → ∃ d, 0 ≤ d < tableSize ∧
    table !! at_ (hashBytes (tok i) mod tableSize) d = Some (Z.of_nat i + 1) ∧
    ∀ d', 0 ≤ d' < d → ∃ j, (j < i)%nat ∧ table !! at_ (hashBytes (tok i) mod tableSize) d' = Some (Z.of_nat j + 1);
  fl_size : size table = k
}.

Lemma filled_entries tok k table : filled tok k table → entries table.
Proof. intros [H _ _] h e He. apply H in He as (i & _ & ->). lia. Qed.

Lemma filled_insert tok k table :
  filled tok k table → Z.of_nat k < tableSize →
  ∃ h, freeSlot probeFuel table (hashBytes (tok k) mod tableSize) = Some h ∧ filled tok (S k) (<[h := Z.of_nat k + 1]> table).
Proof.
  intros Hf Hk. pose proof tableSize_pos.
  destruct (freeSlot_spec probeFuel table (hashBytes (tok k) mod tableSize)) as (d & Hd & Hfree & Hnone & Hall).
  { by eapply filled_entries. }
  { by apply Z.mod_pos_bound. }
  { rewrite probeFuel_size. apply free_exists. by rewrite (fl_size _ _ _ Hf). }
  exists (at_ (hashBytes (tok k) mod tableSize) d). split; [done|]. rewrite probeFuel_size in Hd.
  destruct Hf as [H1 H2 H3]. split.
  - intros h e [[<- <-]|[_ He]]%lookup_insert_Some; [exists k; lia|]. apply H1 in He as (i & Hi & ->). exists i. lia.
  - intros i Hi. destruct (decide (i = k)) as [->|Hne].
    + exists d. split; [done|]. split; [by rewrite lookup_insert_eq|]. intros d' Hd'. destruct (Hall d' Hd') as [e He].
      destruct (H1 _ _ He) as (j & Hj & ->). exists j. split; [done|]. rewrite lookup_insert_ne; [done|].
      intros E. apply at_inj in E; lia.
    + destruct (H2 i ltac:(lia)) as (di & Hdi & Hat & Hbefore).
      assert (∀ x e, table !! x = Some e → <[at_ (hashBytes (tok k) mod tableSize) d := Z.of_nat k + 1]> table !! x = Some e) as Hkeep.
      { intros x e Hx. rewrite lookup_insert_ne; [done|]. congruence. }
      exists di. split_and!; [lia|lia|by apply Hkeep|]. intros d' Hd'. destruct (Hbefore d' Hd') as (j & Hj & Hat'). eauto.
  - rewrite map_size_insert_None by done. lia.
Qed.

Lemma fillTable_spec k i tokens offs table :
  filled (tokenAt tokens offs) i table → Z.of_nat (i + k) < tableSize →
  ∃ r, fillTable k i tokens offs table = Some r ∧
    match r with
    | inr table' => filled (tokenAt tokens offs) (i + k) table'
    | inl err => ∃ j, (j < i + k)%nat ∧ err = EmptyToken j ∧ tokenAt tokens offs j = ""
    end.
Proof.
  revert i table. induction k as [|k IH]; intros i table Hf Hk; cbn [fillTable].
  { exists (inr table). by rewrite Nat.add_0_r. }
  destruct (Nat.eqb_spec (slen (tokenAt tokens offs i)) 0) as [He|_].
  { eexists. split; [done|]. exists i. split_and!; [lia|done|]. by destruct (tokenAt tokens offs i). }
  destruct (filled_insert _ _ _ Hf ltac:(lia)) as (h & Hh & Hf').
  rewrite land_mask, Hh. cbn [mbind option_bind]. unfold wrapU32. pose proof tableSize_u32. rewrite Z.mod_small by lia.
  replace (i + S k)%nat with (S i + k)%nat by lia. apply IH; [done|lia].
Qed.

Lemma filled_empty tok : filled tok 0 ∅.
Proof. split; [done|lia|done]. Qed.

(** A probe stops at the first slot that is free or holds the token. *)
Definition other (v : vocabulary) (t : string) (h d : Z) : Prop :=
  ∃ e, v_table v !! at_ h d = Some e ∧ tokenAt (v_tokens v) (v_offs v) (Z.to_nat (e - 1)) ≠ t.

Lemma probe_walk fuel v t h :
  entries (v_table v) → 0 ≤ h < tableSize → (∃ d, 0 ≤ d < Z.of_nat fuel ∧ v_table v !! at_ h d = None) →
  ∃ r d, probe fuel v t h = Some r ∧ 0 ≤ d < Z.of_nat fuel ∧ (∀ d', 0 ≤ d' < d → other v t h d') ∧
    match r with
    | Some i => v_table v !! at_ h d = Some (i + 1) ∧ tokenAt (v_tokens v) (v_offs v) (Z.to_nat i) = t
    | None => v_table v !! at_ h d = None
    end.
Proof.
  intros He. revert h. induction fuel as [|fuel IH]; intros h Hh (d & Hd & Hfree); [lia|]. cbn [probe].
  destruct (Z.eqb_spec (slot (v_table v) h) 0) as [Hs|Hs].
  { exists None, 0. rewrite at_0 by done. apply slot_free in Hs; [|done]. split_and!; [done|lia|lia|lia|done]. }
  assert (v_table v !! h = Some (slot (v_table v) h)) as Hat.
  { unfold slot in *. by destruct (v_table v !! h). }
  destruct (String.eqb_spec (tokenAt (v_tokens v) (v_offs v) (Z.to_nat (slot (v_table v) h - 1))) t) as [Ht|Ht].
  { exists (Some (slot (v_table v) h - 1)), 0. rewrite at_0 by done. split_and!; [done|lia|lia|lia| |done].
    rewrite Hat. f_equal. lia. }
  destruct (decide (d = 0)) as [->|Hne]; [rewrite at_0 in Hfree by done; congruence|].
  destruct (IH (Z.land (h + 1) tableMask)) as (r & d1 & -> & Hd1 & Hall & Hr).
  { rewrite land_mask. apply Z.mod_pos_bound, tableSize_pos. }
  { exists (d - 1). rewrite at_step. split; [lia|]. by replace (d - 1 + 1) with d by lia. }
  exists r, (d1 + 1). rewrite at_step in Hr. split_and!; [done|lia|lia| |done].
  intros d' Hd'. destruct (decide (d' = 0)) as [->|].
  - exists (slot (v_table v) h). by rewrite at_0.
  - specialize (Hall (d' - 1) ltac:(lia)). unfold other in *. rewrite at_step in Hall.
    by replace (d' - 1 + 1) with d' in Hall by lia.
Qed.

(** What a decoded vocabulary is. *)
Record loaded (v : vocabulary) : Prop := {
  ld_count : (0 < pred (length (v_offs v)))%nat ∧ Z.of_nat (pred (length (v_offs v))) < tableSize;
  ld_table : filled (tokenAt (v_tokens v) (v_offs v)) (pred (length (v_offs v))) (v_table v)
}.

Definition ranks (v : vocabulary) : nat := pred (length (v_offs v)).
Definition tok (v : vocabulary) (i : nat) : string := tokenAt (v_tokens v) (v_offs v) i.

Lemma probe_spec v t :
  loaded v →
  ∃ r, probe probeFuel v t (Z.land (hashBytes t) tableMask) = Some r ∧
    match r with
    | Some i => ∃ n, i = Z.of_nat n ∧ (n < ranks v)%nat ∧ tok v n = t ∧ ∀ m, (m < n)%nat → tok v m ≠ t
    | None => ∀ n, (n < ranks v)%nat → tok v n ≠ t
    end.
Proof.
  intros [[_ Hk] Hf]. pose proof tableSize_pos. rewrite land_mask.
  destruct (probe_walk probeFuel v t (hashBytes t mod tableSize)) as (r & d & Hp & Hd & Hall & Hr).
  { by eapply filled_entries. }
  { by apply Z.mod_pos_bound. }
  { rewrite probeFuel_size. apply free_exists. by rewrite (fl_size _ _ _ Hf). }
  rewrite probeFuel_size in Hd. exists r. split; [done|].
  assert (∀ n, (n < ranks v)%nat → tok v n = t → ∃ dn, d ≤ dn < tableSize ∧
    v_table v !! at_ (hashBytes t mod tableSize) dn = Some (Z.of_nat n + 1) ∧
    ∀ d', 0 ≤ d' < dn → ∃ j, (j < n)%nat ∧ v_table v !! at_ (hashBytes t mod tableSize) d' = Some (Z.of_nat j + 1)) as Hpath.
  { intros n Hn Ht. destruct (fl_placed _ _ _ Hf n Hn) as (dn & Hdn & Hat & Hb). unfold tok in Ht. rewrite Ht in Hat, Hb.
    exists dn. split_and!; try lia; [|done..]. destruct (decide (d ≤ dn)) as [|Hlt]; [done|exfalso].
    destruct (Hall dn ltac:(lia)) as (e & He & Hne). rewrite Hat in He. injection He as <-.
    replace (Z.of_nat n + 1 - 1) with (Z.of_nat n) in Hne by lia. rewrite Nat2Z.id in Hne. done. }
  destruct r as [i|].
  - destruct Hr as [Hat Ht]. destruct (fl_entries _ _ _ Hf _ _ Hat) as (n & Hn & E). assert (i = Z.of_nat n) as -> by lia.
    rewrite Nat2Z.id in Ht. exists n. split_and!; [done..|]. intros m Hm Htm.
    destruct (Hpath m) as (dm & Hdm & Hatm & Hbm); [unfold ranks in *; lia|done|].
    destruct (decide (dm = d)) as [->|]; [rewrite Hat in Hatm; injection Hatm; lia|].
    destruct (Hbm d ltac:(lia)) as (j & Hj & Hatj). rewrite Hat in Hatj. injection Hatj. lia.
  - intros n Hn Ht. destruct (Hpath n Hn Ht) as (dn & Hdn & Hat & Hb). destruct (decide (dn = d)) as [->|]; [congruence|].
    destruct (Hb d ltac:(lia)) as (j & _ & Hatj). congruence.
Qed.

Lemma rank_spec v t i :
  loaded v →
  rank v t = Some i ↔ ∃ n, i = Z.of_nat n ∧ (n < ranks v)%nat ∧ tok v n = t ∧ ∀ m, (m < n)%nat → tok v m ≠ t.
Proof.
  intros Hv. unfold rank. destruct (probe_spec v t Hv) as (r & -> & Hr). cbn [default from_option id].
  destruct r as [i'|]; [|split; [done|intros (n & _ & Hn & Ht & _); by destruct (Hr n Hn)]].
  destruct Hr as (n & -> & Hn & Ht & Hm). split.
  - intros [= <-]. by exists n.
  - intros (n' & -> & Hn' & Ht' & Hm'). do 2 f_equal. destruct (lt_eq_lt_dec n n') as [[H|H]|H]; [|done|].
    + by destruct (Hm' n H).
    + by destruct (Hm n' H).
Qed.

Lemma rank_bound v t r : loaded v → rank v t = Some r → 0 ≤ r < maxRank.
Proof.
  intros Hv Hr. apply rank_spec in Hr as (n & -> & Hn & _); [|done]. destruct Hv as [[_ Hk] _]. pose proof tableSize_u32.
  unfold ranks, maxRank in *. lia.
Qed.

Lemma rank_token v t r : loaded v → rank v t = Some r → token v r = Some t.
Proof.
  intros Hv Hr. apply rank_spec in Hr as (n & -> & Hn & Ht & _); [|done]. unfold token, ranks, tok in *. rewrite Nat2Z.id.
  destruct (Z.leb_spec (Z.of_nat (length (v_offs v)) - 1) (Z.of_nat n)); [lia|]. by rewrite Ht.
Qed.

Lemma token_lookup v i t : 0 ≤ i → token v i = Some t ↔ (Z.to_nat i < ranks v)%nat ∧ tok v (Z.to_nat i) = t.
Proof.
  intros Hi. unfold token, ranks, tok. destruct (Z.leb_spec (Z.of_nat (length (v_offs v)) - 1) i).
  - split; [done|]. lia.
  - split; [intros [= <-]; split; [lia|done]|]. by intros [_ ->].
Qed.

Lemma length_offsets lengths off : length (offsets lengths off) = S (slen lengths).
Proof. revert off. induction lengths as [|c l IH]; intros off; [done|]. cbn. by rewrite IH. Qed.

Lemma slen_sub s i j : (i ≤ j ≤ slen s)%nat → slen (sub s i j) = (j - i)%nat.
Proof. intros H. unfold sub. rewrite slen_stake, slen_sdrop. lia. Qed.

(** Decoding always ends; what it accepts is a vocabulary. *)
Lemma loadVocab_spec blob :
  ∃ r, loadVocab blob = Some r ∧ match r with inr v => loaded v ∧ Uint32 blob 8 = Z.of_nat (ranks v) | inl _ => True end.
Proof.
  unfold loadVocab. repeat (case_match; [by eexists|]). bool_hyps. apply Nat.ltb_ge in H4.
  set (n := Z.to_nat (Uint32 blob 8)) in *. set (offs := offsets (sub blob headerSize (headerSize + n)) 0).
  assert (length offs = S n) as Hlen.
  { unfold offs. rewrite length_offsets, slen_sub by lia. lia. }
  destruct (fillTable_spec n 0 (sdrop (headerSize + n) blob) offs ∅) as (r & -> & Hr); [apply filled_empty|lia|].
  cbn [mbind option_bind]. eexists. split; [done|]. destruct r as [|table]; [done|]. split; [|unfold ranks; cbn [v_offs]; rewrite Hlen; cbn; lia].
  split; cbn [v_offs v_table v_tokens]; rewrite Hlen; [split; cbn; lia|done].
Qed.

(** Decoding the vocabulary ends on every file, and in a decoded vocabulary
    every lookup ends: the probe finds a token's lowest rank if the bytes are a
    token, and no rank otherwise, however the hashes collide. *)
Theorem vocabulary_exact blob :
  ∃ r, loadVocab blob = Some r ∧ ∀ v, r = inr v → ∀ t,
    (∃ found, probe probeFuel v t (Z.land (hashBytes t) tableMask) = Some found) ∧
    (∀ i, rank v t = Some i ↔ 0 ≤ i ∧ token v i = Some t ∧ ∀ j, 0 ≤ j < i → token v j ≠ Some t).
Proof.
  destruct (loadVocab_spec blob) as (r & -> & Hr). exists r. split; [done|]. intros v -> t. destruct Hr as [Hv _]. split.
  { destruct (probe_spec v t Hv) as (found & -> & _). by eexists. }
  intros i. rewrite rank_spec by done. split.
  - intros (n & -> & Hn & Ht & Hm). split; [lia|]. rewrite token_lookup, Nat2Z.id by lia. split; [done|].
    intros j Hj. rewrite token_lookup by lia. intros [_ Htj]. apply (Hm (Z.to_nat j)); [lia|done].
  - intros (Hi & Ht & Hm). apply token_lookup in Ht as [Hn Ht]; [|done]. exists (Z.to_nat i). split_and!; [lia|done..|].
    intros m Hlt Htm. apply (Hm (Z.of_nat m)); [lia|]. rewrite token_lookup, Nat2Z.id by lia. split; [lia|done].
Qed.
