(* ===== verification/BpeScan.v ===== *)
(** * The pre-tokenizer (src/internal/bpe/scanner.go)

    The hand-written scanner that cuts a text into pieces.  A position in the text
    is what is left of it from there on; a scan returns how many bytes it consumed.
    The scanner is compared with the pattern it implements, given a meaning of its
    own by backtracking over the characters of the text. *)

From S2P Require Import Prelude GoText GoLib Regex BpeMerge BpeTables.

Open Scope string_scope.
Open Scope list_scope.
Open Scope Z_scope.

(** ** Character classes *)

(** The binary search of [inRanges]; [mid] is computed without overflow. *)
Fixpoint inRanges_loop (fuel : nat) (ranges : list (Z * Z)) (r lo hi : Z) : bool :=
  match fuel with
  | O => false
  | S fuel =>
      if hi <? lo then false else
      let mid := Z.shiftr (lo + hi) 1 in
      let rng := default (0, 0) (ranges !! Z.to_nat mid) in
      if r <? rng.1 then inRanges_loop fuel ranges r lo (mid - 1)
      else if rng.2 <? r then inRanges_loop fuel ranges r (mid + 1) hi
      else true
  end.

Definition inRanges (ranges : list (Z * Z)) (r : Z) : bool :=
  inRanges_loop (S (length ranges)) ranges r 0 (Z.of_nat (length ranges) - 1).

Definition isSpace (r : Z) : bool := IsSpace r.
Definition isLetter (r : Z) : bool := inRanges letterRanges r.
Definition isNumber (r : Z) : bool := inRanges numberRanges r.
Definition Classify (r : Z) : bool * bool * bool := (isSpace r, isLetter r, isNumber r).

(** ** Characters *)

Definition decodeRune (s : string) : Z * nat :=
  let c := byteZ (sget 0 s) in
  if c <? 0x80 then (c, 1%nat) else
  if (c =? 0xED) && (2 <? slen s)%nat && cont 0xA0 0xBF (sget 1 s) && cont 0x80 0xBF (sget 2 s) then (RuneError, 3%nat)
  else DecodeRune s.

(** ** The scanner *)

Definition oneOf (l : list Z) (r : Z) : bool := existsb (Z.eqb r) l.

(** [for j < len(s) { r, size := decodeRune(s, j); if !p(r) { break }; j += size }]. *)
Fixpoint scanRun (p : Z → bool) (fuel : nat) (s : string) : nat :=
  match fuel, s with
  | S fuel, String _ _ =>
      let '(r, size) := decodeRune s in
      if p r then (size + scanRun p fuel (sdrop size s))%nat else 0%nat
  | _, _ => 0%nat
  end.

Definition scanSpace (s : string) : nat := scanRun isSpace (slen s) s.
Definition notSpaceLetterNumber (r : Z) : bool := negb (isSpace r || isLetter r || isNumber r).
Definition scanNonSpaceLetterNumber (s : string) : nat := scanRun notSpaceLetterNumber (slen s) s.

Fixpoint scanCRLF (s : string) : nat :=
  match s with
  | String c s => if oneOf [13; 10] (byteZ c) then S (scanCRLF s) else 0%nat
  | "" => 0%nat
  end.

(** Branch 1, after the apostrophe: [size] bytes are the first letter. *)
Definition second (s : string) (size : nat) (l : list Z) : option nat :=
  if (size <? slen s)%nat then
    let '(r2, s2) := decodeRune (sdrop size s) in if oneOf l r2 then Some (1 + size + s2)%nat else None
  else None.

Definition contraction (s : string) : option nat :=
  if (0 <? slen s)%nat then
    let '(r, size) := decodeRune s in
    if oneOf [100; 68; 109; 77; 115; 83; 116; 84; 0x17F] r then Some (1 + size)%nat
    else if oneOf [108; 76] r then second s size [108; 76]
    else if oneOf [118; 86; 114; 82] r then second s size [101; 69]
    else None
  else None.

Definition branch1 (s : string) : option nat :=
  match s with String c rest => if byteZ c =? 39 then contraction rest else None | "" => None end.

(** Branch 2: letters, with one other character before them. *)
Definition branch2 (s : string) : option nat :=
  let '(r, size) := decodeRune s in
  let j := if negb (oneOf [13; 10] r) && negb (isLetter r) && negb (isNumber r) then size else 0%nat in
  let t := sdrop j s in
  if (0 <? slen t)%nat then
    let '(r, size) := decodeRune t in
    if isLetter r then Some (j + size + scanRun isLetter (slen t) (sdrop size t))%nat else None
  else None.

(** Branch 3: at most three numbers. *)
Definition branch3 (s : string) : option nat :=
  let '(r, _) := decodeRune s in if isNumber r then Some (scanRun isNumber 3 s) else None.

Definition matchBranch4 (s : string) : nat :=
  let j := if byteZ (sget 0 s) =? 32 then 1%nat else 0%nat in
  let k := scanNonSpaceLetterNumber (sdrop j s) in
  if (0 <? k)%nat then (j + k + scanCRLF (sdrop (j + k) s))%nat
  else if negb (j =? 0)%nat then
    (let k := scanNonSpaceLetterNumber s in if (0 <? k)%nat then (k + scanCRLF (sdrop k s))%nat else 0%nat)
  else 0%nat.

(** Branch 6: the position of the last CR or LF of the white space. *)
Fixpoint lastNewline (fuel : nat) (s : string) (j : nat) (last : option nat) : option nat :=
  match fuel, s with
  | S fuel, String _ _ =>
      let '(r, size) := decodeRune s in
      if isSpace r then lastNewline fuel (sdrop size s) (j + size) (if oneOf [13; 10] r then Some j else last) else last
  | _, _ => last
  end.

(** Branch 7: where the white space ends and where its last character starts. *)
Fixpoint lastSpace (fuel : nat) (s : string) (j : nat) (last : option nat) : nat * option nat :=
  match fuel, s with
  | S fuel, String _ _ =>
      let '(r, size) := decodeRune s in
      if isSpace r then lastSpace fuel (sdrop size s) (j + size) (Some j) else (j, last)
  | _, _ => (j, last)
  end.

Definition branch7 (s : string) : option nat :=
  let '(j, last) := lastSpace (slen s) s 0 None in
  if (0 <? j)%nat then
    if (j =? slen s)%nat then Some j
    else match last with Some k => if (0 <? k)%nat then Some k else None | None => None end
  else None.

(** [matchPiece]: the first branch that matches. *)
Definition matchPiece (s : string) : nat :=
  match branch1 s with Some n => n | None =>
  match branch2 s with Some n => n | None =>
  match branch3 s with Some n => n | None =>
  let n := matchBranch4 s in if (0 <? n)%nat then n else
  let j := scanSpace s in if (j =? slen s)%nat && (0 <? j)%nat then j else
  match lastNewline (slen s) s 0 None with Some k => (k + 1)%nat | None =>
  match branch7 s with Some n => n | None => snd (decodeRune s)
  end end end end end.

(** [ScanPieces]: half-open ranges of the text. *)
Fixpoint ScanPieces_loop (fuel : nat) (s : string) (i : nat) : option (list (nat * nat)) :=
  match s with
  | "" => Some []
  | _ =>
      match fuel with
      | O => None
      | S fuel => let n := matchPiece s in ps ← ScanPieces_loop fuel (sdrop n s) (i + n); Some ((i, i + n)%nat :: ps)
      end
  end.

Definition ScanPieces (text : string) : option (list (nat * nat)) := ScanPieces_loop (slen text) text 0.

(** ** The pattern *)

Abbreviation chars_t := (list (Z * string)) (only parsing).

(** Patterns over character classes.  [PRep p lo hi] is greedy; [PAtomic] is what a
    possessive quantifier does: no way back into it. *)
Inductive pat :=
  | PSet (p : Z → bool)
  | PRep (p : Z → bool) (lo : nat) (hi : option nat)
  | PSeq (a b : pat)
  | PAlt (a b : pat)
  | PAtomic (a : pat)
  | PNotAhead (p : Z → bool)
  | PEnd.

(** The ways to match at most [hi] and at least [lo] characters, longest first. *)
Fixpoint reps (p : Z → bool) (hi lo : nat) (l : chars_t) : list chars_t :=
  match hi, l with
  | S hi, t :: l' => (if p t.1 then reps p hi (lo - 1) l' else []) ++ (if (lo =? 0)%nat then [l] else [])
  | _, _ => if (lo =? 0)%nat then [l] else []
  end.

(** What is left after each match at the head of a text, in order of preference. *)
Fixpoint pmatch (r : pat) (l : chars_t) : list chars_t :=
  match r with
  | PSet p => match l with t :: l' => if p t.1 then [l'] else [] | [] => [] end
  | PRep p lo hi => reps p (default (length l) hi) lo l
  | PSeq a b => flat_map (pmatch b) (pmatch a l)
  | PAlt a b => pmatch a l ++ pmatch b l
  | PAtomic a => take 1 (pmatch a l)
  | PNotAhead p => match l with t :: _ => if p t.1 then [] else [l] | [] => [l] end
  | PEnd => match l with [] => [l] | _ => [] end
  end.

Definition crlf : Z → bool := oneOf [13; 10].

(** [Pattern], alternative by alternative. *)
Definition apostrophe : pat :=                           (* '(?i:[sdmt]|ll|ve|re) *)
  PSeq (PSet (oneOf [39]))
    (PAlt (PSet (oneOf [100; 68; 109; 77; 115; 83; 116; 84; 0x17F]))
    (PAlt (PSeq (PSet (oneOf [108; 76])) (PSet (oneOf [108; 76])))
    (PAlt (PSeq (PSet (oneOf [118; 86])) (PSet (oneOf [101; 69])))
          (PSeq (PSet (oneOf [114; 82])) (PSet (oneOf [101; 69])))))).
Definition words : pat :=                                (* [^\r\n\p{L}\p{N}]?+\p{L}++ *)
  PSeq (PAtomic (PRep (λ r, negb (crlf r) && negb (isLetter r) && negb (isNumber r)) 0 (Some 1%nat))) (PAtomic (PRep isLetter 1 None)).
Definition numbers : pat := PAtomic (PRep isNumber 1 (Some 3%nat)).    (* \p{N}{1,3}+ *)
Definition others : pat :=                               (* ' '?[^\s\p{L}\p{N}]++[\r\n]*+ *)
  PSeq (PRep (oneOf [32]) 0 (Some 1%nat)) (PSeq (PAtomic (PRep notSpaceLetterNumber 1 None)) (PAtomic (PRep crlf 0 None))).
Definition trailing : pat := PSeq (PAtomic (PRep isSpace 1 None)) PEnd.   (* \s++$ *)
Definition newlines : pat := PSeq (PRep isSpace 0 None) (PSet crlf).      (* \s*[\r\n] *)
Definition allButLast : pat := PSeq (PRep isSpace 1 None) (PNotAhead (λ r, negb (isSpace r))).   (* \s+(?!\S) *)
Definition Pattern : pat :=
  PAlt apostrophe (PAlt words (PAlt numbers (PAlt others (PAlt trailing (PAlt newlines (PAlt allButLast (PSet isSpace))))))).

(** The characters of a text with their bytes, as [decodeRune] reads them. *)
Fixpoint chars_fuel (fuel : nat) (s : string) : chars_t :=
  match fuel, s with
  | S fuel, String _ _ => let '(r, n) := decodeRune s in (r, stake n s) :: chars_fuel fuel (sdrop n s)
  | _, _ => []
  end.
Definition chars (s : string) : chars_t := chars_fuel (slen s) s.

(** ** Characters of a text *)

Lemma decodeRune_width s r n : decodeRune s = (r, n) → s ≠ "" → (1 ≤ n ≤ slen s)%nat.
Proof.
  intros E Hs. unfold decodeRune in E. case_match.
  { injection E as _ <-. destruct s; [done|cbn; lia]. }
  case_match eqn:Hc; [|by eapply DecodeRune_width]. bool_hyps. apply Nat.ltb_lt in H3. injection E as _ <-. lia.
Qed.

(** A character below U+0080 is one byte. *)
Lemma decodeRune_ascii c s r n :
  decodeRune (String c s) = (r, n) → if byteZ c <? 128 then r = byteZ c ∧ n = 1%nat else 128 ≤ r.
Proof.
  unfold decodeRune. change (sget 0 (String c s)) with c. destruct (Z.ltb_spec (byteZ c) 0x80) as [Hc|Hc]; [by intros [= <- <-]|].
  case_match eqn:Hc'; [intros [= <- _]; unfold RuneError; lia|]. clear Hc'. unfold DecodeRune, accept2.
  destruct (Z.ltb_spec (byteZ c) 0x80); [lia|].
  intros E. repeat (case_match; simplify_eq; bool_hyps; unfold cont, RuneError in *; bool_hyps; try lia).
Qed.

Lemma chars_fuel_enough fuel s : (slen s ≤ fuel)%nat → chars_fuel fuel s = chars s.
Proof.
  unfold chars. remember (slen s) as k eqn:Ek. assert (slen s ≤ k)%nat as Hk by lia. clear Ek.
  revert s k Hk. induction fuel as [|fuel IH]; intros s k Hk Hf; destruct s as [|c s]; cbn in Hk; try (by destruct k); try lia.
  destruct k as [|k]; [lia|]. cbn [chars_fuel]. destruct (decodeRune (String c s)) as [r n] eqn:E.
  destruct (decodeRune_width _ _ _ E) as [H1 H2]; [done|]. cbn in H2. f_equal.
  rewrite (IH _ k); [done|rewrite slen_sdrop; cbn; lia|lia].
Qed.

Lemma chars_cons s r n : s ≠ "" → decodeRune s = (r, n) → chars s = (r, stake n s) :: chars (sdrop n s).
Proof.
  intros Hs E. unfold chars at 1. destruct s as [|c s]; [done|]. cbn [slen String.length chars_fuel]. rewrite E. f_equal.
  apply chars_fuel_enough. destruct (decodeRune_width _ _ _ E) as [H1 H2]; [done|]. rewrite slen_sdrop. cbn. lia.
Qed.

Lemma untoks_chars s : untoks (chars s) = s.
Proof.
  remember (slen s) as k eqn:Ek. revert s Ek. induction (lt_wf k) as [k _ IH]. intros s ->.
  destruct (decide (s = "")) as [->|Hs]; [done|]. destruct (decodeRune s) as [r n] eqn:E.
  destruct (decodeRune_width _ _ _ E Hs) as [H1 H2]. rewrite (chars_cons s r n Hs E). cbn [untoks snd].
  rewrite (IH (slen (sdrop n s))); [apply stake_sdrop|rewrite slen_sdrop; lia|done].
Qed.

Lemma length_chars s : (length (chars s) ≤ slen s)%nat.
Proof.
  unfold chars. generalize (slen s) at 1 2 as k. intros k. revert s. induction k as [|k IH]; intros s; [done|].
  destruct s as [|c s]; [cbn; lia|]. cbn [chars_fuel]. destruct (decodeRune _). cbn. specialize (IH (sdrop n (String c s))). lia.
Qed.

Lemma chars_nil s : chars s = [] ↔ s = "".
Proof.
  split; [|by intros ->]. intros H. destruct (decide (s = "")) as [|Hs]; [done|]. destruct (decodeRune s) as [r n] eqn:E.
  by rewrite (chars_cons s r n Hs E) in H.
Qed.

(** [n] bytes were consumed and the characters [rest] are left. *)
Definition consumes (s : string) (n : nat) (rest : chars_t) : Prop := (n ≤ slen s)%nat ∧ chars (sdrop n s) = rest.

Lemma consumes_0 s : consumes s 0 (chars s).
Proof. split; [lia|by destruct s]. Qed.

Lemma consumes_trans s n m rest : (n ≤ slen s)%nat → consumes (sdrop n s) m rest → consumes s (n + m) rest.
Proof. intros Hn [Hm <-]. rewrite slen_sdrop in Hm. split; [lia|]. by rewrite sdrop_sdrop. Qed.

Lemma consumes_end s n : consumes s n [] ↔ n = slen s.
Proof.
  split.
  - intros [Hn H%chars_nil]. assert (slen (sdrop n s) = 0%nat) as Hl by (by rewrite H). rewrite slen_sdrop in Hl. lia.
  - intros ->. split; [done|]. apply chars_nil. assert (slen (sdrop (slen s) s) = 0%nat) as Hl by (rewrite slen_sdrop; lia).
    by destruct (sdrop (slen s) s).
Qed.

(** At most [k] leading characters of a class are skipped. *)
Fixpoint skip (p : Z → bool) (k : nat) (l : chars_t) : chars_t :=
  match k, l with S k, t :: l' => if p t.1 then skip p k l' else l | _, _ => l end.

Lemma skip_enough p k l : (length l ≤ k)%nat → skip p k l = skip p (length l) l.
Proof.
  revert k. induction l as [|t l IH]; intros [|k] Hk; cbn in *; [done..|lia|]. case_match; [|done]. apply IH. lia.
Qed.

Lemma scanRun_consumes p k s : consumes s (scanRun p k s) (skip p k (chars s)).
Proof.
  revert s. induction k as [|k IH]; intros s; [apply consumes_0|]. destruct (decide (s = "")) as [->|Hs]; [apply consumes_0|].
  destruct (decodeRune s) as [r n] eqn:E. destruct (decodeRune_width _ _ _ E Hs) as [H1 H2].
  pose proof (consumes_0 s) as H0. rewrite (chars_cons s r n Hs E) in *. cbn [skip fst].
  replace (scanRun p (S k) s) with (if p r then (n + scanRun p k (sdrop n s))%nat else 0%nat) by (by destruct s; [|cbn; rewrite E]).
  destruct (p r); [|done]. apply consumes_trans; [done|apply IH].
Qed.

Lemma reps_zero p hi l : ∃ tl, reps p hi 0 l = skip p hi l :: tl.
Proof.
  revert l. induction hi as [|hi IH]; intros l; [by exists []|]. destruct l as [|t l]; [by exists []|]. cbn.
  destruct (p t.1); [|by exists []]. destruct (IH l) as [tl ->]. by eexists.
Qed.

Lemma reps_one p hi t l : reps p (S hi) 1 (t :: l) = if p t.1 then reps p hi 0 l else [].
Proof. cbn. rewrite app_nil_r. done. Qed.

Lemma atomic_one p l :
  pmatch (PAtomic (PRep p 1 None)) l =
    match l with t :: l' => if p t.1 then [skip p (length l') l'] else [] | [] => [] end.
Proof.
  destruct l as [|t l]; [done|]. cbn [pmatch default from_option id length]. rewrite reps_one. destruct (p t.1); [|done].
  by destruct (reps_zero p (length l) l) as [tl ->].
Qed.

Lemma atomic_star p l : pmatch (PAtomic (PRep p 0 None)) l = [skip p (length l) l].
Proof. cbn [pmatch default from_option]. by destruct (reps_zero p (length l) l) as [tl ->]. Qed.

(** A branch of the scanner and an alternative of the pattern. *)
Definition agrees (s : string) (o : option nat) (r : pat) : Prop :=
  match o with
  | Some n => ∃ rest tl, pmatch r (chars s) = rest :: tl ∧ consumes s n rest
  | None => pmatch r (chars s) = []
  end.

Lemma agrees_alt s o1 o2 a b :
  agrees s o1 a → agrees s o2 b → agrees s (match o1 with Some n => Some n | None => o2 end) (PAlt a b).
Proof.
  unfold agrees. cbn [pmatch]. destruct o1 as [n|].
  - intros (rest & tl & -> & Hc) _. by exists rest, (tl ++ pmatch b (chars s)).
  - intros ->. done.
Qed.

Lemma head_char s : s ≠ "" → ∃ r n, decodeRune s = (r, n) ∧ (1 ≤ n ≤ slen s)%nat ∧ chars s = (r, stake n s) :: chars (sdrop n s).
Proof.
  intros Hs. destruct (decodeRune s) as [r n] eqn:E. exists r, n. split_and!; [done|by eapply decodeRune_width..|by apply chars_cons].
Qed.

Lemma oneOf_elem l r : oneOf l r = true ↔ r ∈ l.
Proof.
  unfold oneOf. rewrite existsb_exists. split.
  - intros (x & Hx & <-%Z.eqb_eq). by apply list_elem_of_In.
  - intros Hr. exists r. rewrite Z.eqb_refl. split; [by apply list_elem_of_In|done].
Qed.

(** The byte test of an ASCII character is the test of the character. *)
Lemma oneOf_byte l c s r n :
  Forall (λ x, 0 ≤ x < 128) l → decodeRune (String c s) = (r, n) → oneOf l (byteZ c) = oneOf l r.
Proof.
  intros Hl E. apply decodeRune_ascii in E. destruct (Z.ltb_spec (byteZ c) 128) as [|Hc]; [by destruct E as [-> _]|].
  rewrite Forall_forall in Hl. apply eq_bool_prop_intro. rewrite !Is_true_true, !oneOf_elem.
  split; intros H%Hl; lia.
Qed.

Lemma oneOf_width l c s r n :
  Forall (λ x, 0 ≤ x < 128) l → decodeRune (String c s) = (r, n) → oneOf l r = true → n = 1%nat.
Proof.
  intros Hl E Hr%oneOf_elem. apply decodeRune_ascii in E. rewrite Forall_forall in Hl. apply Hl in Hr. cbn in Hr.
  destruct (Z.ltb_spec (byteZ c) 128); [by destruct E|lia].
Qed.

Lemma consumes_S c s n rest : consumes s n rest → consumes (String c s) (S n) rest.
Proof. intros [Hn Hr]. split; [unfold slen in *; cbn; lia|done]. Qed.

Lemma second_agrees s n l c :
  (n ≤ slen s)%nat →
  match second s n l with
  | Some m => ∃ rest, pmatch (PSet (oneOf l)) (chars (sdrop n s)) = [rest] ∧ consumes (String c s) m rest
  | None => pmatch (PSet (oneOf l)) (chars (sdrop n s)) = []
  end.
Proof.
  intros Hn. unfold second. destruct (Nat.ltb_spec n (slen s)) as [Hlt|Hge].
  - assert (sdrop n s ≠ "") as Hne by (intros E; apply (f_equal slen) in E; rewrite slen_sdrop in E; cbn in E; lia).
    destruct (head_char _ Hne) as (r2 & n2 & -> & Hn2 & ->). cbn [pmatch fst]. destruct (oneOf l r2); [|done].
    eexists. split; [done|]. apply consumes_S, consumes_trans; [done|]. split; [lia|done].
  - replace (sdrop n s) with ""; [done|]. symmetry. assert (slen (sdrop n s) = 0%nat) as H0 by (rewrite slen_sdrop; lia).
    by destruct (sdrop n s).
Qed.

Lemma branch1_agrees s : s ≠ "" → agrees s (branch1 s) apostrophe.
Proof.
  intros Hs. destruct s as [|c s]; [done|]. destruct (head_char (String c s) Hs) as (r & n & E & Hn & Hc).
  unfold agrees. rewrite Hc. cbn [branch1 apostrophe pmatch fst].
  pose proof (oneOf_byte [39] c s r n ltac:(repeat constructor; lia) E) as Hb.
  replace (byteZ c =? 39) with (oneOf [39] r) by (rewrite <-Hb; cbn; by rewrite orb_false_r).
  destruct (oneOf [39] r) eqn:E39; [|done].
  assert (n = 1%nat) as -> by (eapply (oneOf_width [39]); [repeat constructor; lia|exact E|done]).
  cbn [flat_map]. rewrite app_nil_r. change (sdrop 1 (String c s)) with (sdrop 0 s). replace (sdrop 0 s) with s by (by destruct s).
  clear E Hc Hb E39. unfold contraction.
  destruct (decide (s = "")) as [->|Hne]; [done|]. destruct (Nat.ltb_spec 0 (slen s)); [|by destruct s; [|cbn in *; lia]].
  destruct (head_char s Hne) as (r1 & n1 & -> & Hn1 & ->). cbn [pmatch fst].
  destruct (oneOf [100; 68; 109; 77; 115; 83; 116; 84; 0x17F] r1).
  { eexists _, _. split; [done|]. apply consumes_S. split; [lia|done]. }
  destruct (oneOf [108; 76] r1) eqn:Hll; [|destruct (oneOf [118; 86; 114; 82] r1) eqn:Hvr].
  - pose proof (second_agrees s n1 [108; 76] c ltac:(lia)) as H2.
    assert (oneOf [118; 86] r1 = false ∧ oneOf [114; 82] r1 = false) as [-> ->].
    { apply oneOf_elem in Hll. set_unfold in Hll. destruct Hll as [->|[->|[]]]; done. }
    cbn [app flat_map]. rewrite !app_nil_r. destruct (second s n1 [108; 76]); [|exact H2].
    destruct H2 as (rest & H2 & Hc). exists rest, []. by split.
  - pose proof (second_agrees s n1 [101; 69] c ltac:(lia)) as H2.
    assert (oneOf [118; 86] r1 = negb (oneOf [114; 82] r1)) as ->.
    { apply oneOf_elem in Hvr. set_unfold in Hvr. destruct Hvr as [->|[->|[->|[->|[]]]]]; done. }
    destruct (oneOf [114; 82] r1); cbn [negb app flat_map]; rewrite !app_nil_r; (destruct (second s n1 [101; 69]); [|exact H2]);
      destruct H2 as (rest & H2 & Hc); exists rest, []; by split.
  - assert (oneOf [118; 86] r1 = false ∧ oneOf [114; 82] r1 = false) as [-> ->]; [|done].
    cbn in Hvr |- *. repeat (apply orb_false_iff in Hvr as [? Hvr]). repeat match goal with H : _ = false |- _ => rewrite H end. done.
Qed.

Lemma branch2_agrees s : s ≠ "" → agrees s (branch2 s) words.
Proof.
  intros Hs. destruct (head_char s Hs) as (r & n & E & Hn & Hc). unfold agrees, branch2, words. rewrite E.
  set (pre r := negb (oneOf [13; 10] r) && negb (isLetter r) && negb (isNumber r)).
  change (negb (oneOf [13; 10] r) && negb (isLetter r) && negb (isNumber r)) with (pre r).
  change (λ r, negb (crlf r) && negb (isLetter r) && negb (isNumber r)) with pre.
  set (j := if pre r then n else 0%nat). assert (consumes s j (skip pre 1 (chars s))) as Hj.
  { pose proof (consumes_0 s) as H0. rewrite Hc in *. cbn [skip fst]. unfold j. destruct (pre r); [|done]. split; [lia|done]. }
  assert (pmatch (PSeq (PAtomic (PRep pre 0 (Some 1%nat))) (PAtomic (PRep isLetter 1 None))) (chars s)
    = pmatch (PAtomic (PRep isLetter 1 None)) (skip pre 1 (chars s))) as ->.
  { change (pmatch (PSeq ?a ?b) ?l) with (flat_map (pmatch b) (pmatch a l)).
    change (pmatch (PAtomic (PRep pre 0 (Some 1%nat))) (chars s)) with (take 1 (reps pre 1 0 (chars s))).
    destruct (reps_zero pre 1 (chars s)) as [tl ->]. cbn [take flat_map]. apply app_nil_r. }
  clearbody j. destruct Hj as [Hj Hcj]. rewrite <-Hcj, atomic_one. clear Hcj E.
  destruct (decide (sdrop j s = "")) as [Ht|Ht]; [by rewrite Ht|].
  destruct (head_char _ Ht) as (r1 & n1 & -> & Hn1 & ->). cbn [fst]. destruct (Nat.ltb_spec 0 (slen (sdrop j s))); [|lia].
  destruct (isLetter r1); [|done]. eexists _, []. split; [done|].
  rewrite slen_sdrop in Hn1. rewrite <-(skip_enough _ (slen (sdrop j s))); [|etrans; [apply length_chars|rewrite !slen_sdrop; lia]].
  rewrite <-Nat.add_assoc. apply consumes_trans; [done|]. apply consumes_trans; [rewrite slen_sdrop; lia|]. apply scanRun_consumes.
Qed.

Lemma branch3_agrees s : s ≠ "" → agrees s (branch3 s) numbers.
Proof.
  intros Hs. destruct (head_char s Hs) as (r & n & E & Hn & Hc). unfold agrees, branch3, numbers. rewrite E.
  pose proof (scanRun_consumes isNumber 3 s) as Hr. rewrite Hc in *. cbn [pmatch default from_option id].
  rewrite reps_one. cbn [skip fst] in *. destruct (isNumber r); [|done].
  destruct (reps_zero isNumber 2 (chars (sdrop n s))) as [tl ->]. eexists _, []. split; [done|exact Hr].
Qed.

(** [[^\s\p{L}\p{N}]++[\r\n]*+], the part of branch 4 after the space. *)
Definition otherRun : pat := PSeq (PAtomic (PRep notSpaceLetterNumber 1 None)) (PAtomic (PRep crlf 0 None)).

Lemma scanCRLF_consumes s : consumes s (scanCRLF s) (skip crlf (length (chars s)) (chars s)).
Proof.
  induction s as [|c s IH]; [apply consumes_0|]. pose proof (consumes_0 (String c s)) as H0.
  destruct (head_char (String c s) ltac:(done)) as (r & n & E & Hn & Hc). rewrite Hc in *. cbn [scanCRLF length skip fst].
  pose proof (oneOf_byte [13; 10] c s r n ltac:(repeat constructor; lia) E) as ->. fold crlf. destruct (crlf r) eqn:Hr; [|done].
  assert (n = 1%nat) as -> by (eapply oneOf_width; [|exact E|exact Hr]; repeat constructor; lia).
  apply consumes_S. change (sdrop 1 (String c s)) with (sdrop 0 s). replace (sdrop 0 s) with s by (by destruct s). exact IH.
Qed.

Definition runThenCRLF (s : string) : option nat :=
  let k := scanNonSpaceLetterNumber s in if (0 <? k)%nat then Some (k + scanCRLF (sdrop k s))%nat else None.

Lemma otherRun_agrees s : agrees s (runThenCRLF s) otherRun.
Proof.
  unfold agrees, runThenCRLF, otherRun. change (pmatch (PSeq ?a ?b) ?l) with (flat_map (pmatch b) (pmatch a l)). rewrite atomic_one.
  pose proof (scanRun_consumes notSpaceLetterNumber (slen s) s) as [Hk Hck]. fold (scanNonSpaceLetterNumber s) in *.
  rewrite skip_enough in Hck by apply length_chars.
  destruct (decide (s = "")) as [->|Hs]; [done|]. destruct (head_char s Hs) as (r & n & E & Hn & Hc). rewrite Hc in *.
  cbn [fst length skip] in *. assert (scanNonSpaceLetterNumber s = if notSpaceLetterNumber r then (n + scanRun notSpaceLetterNumber (pred (slen s)) (sdrop n s))%nat else 0%nat) as Hs'.
  { unfold scanNonSpaceLetterNumber. destruct s; [done|]. cbn [slen String.length scanRun pred]. by rewrite E. }
  destruct (notSpaceLetterNumber r).
  - destruct (Nat.ltb_spec 0 (scanNonSpaceLetterNumber s)); [|lia]. cbn [flat_map]. rewrite app_nil_r, atomic_star, <-Hck.
    eexists _, []. split; [done|]. apply consumes_trans; [done|apply scanCRLF_consumes].
  - rewrite Hs'. done.
Qed.

Lemma branch4_agrees s :
  s ≠ "" → agrees s (if (0 <? matchBranch4 s)%nat then Some (matchBranch4 s) else None) others.
Proof.
  intros Hs. destruct s as [|c s]; [done|]. destruct (head_char (String c s) Hs) as (r & n & E & Hn & Hc).
  assert (pmatch others (chars (String c s)) = (if oneOf [32] r then pmatch otherRun (chars (sdrop n (String c s))) else [])
    ++ pmatch otherRun (chars (String c s))) as Hp.
  { rewrite Hc at 1. unfold others. change (pmatch (PSeq ?a ?b) ?l) with (flat_map (pmatch b) (pmatch a l)).
    fold otherRun. cbn [pmatch default from_option id reps fst]. rewrite <-Hc. change (0 - 1 =? 0)%nat with true. cbn [Nat.eqb].
    change (flat_map _ ?x) with (flat_map (pmatch otherRun) x). destruct (oneOf [32] r); cbn [app flat_map]; by rewrite !app_nil_r. }
  unfold agrees. rewrite Hp. clear Hp Hc. unfold matchBranch4. change (sget 0 (String c s)) with c.
  pose proof (oneOf_byte [32] c s r n ltac:(repeat constructor; lia) E) as Hb.
  replace (byteZ c =? 32) with (oneOf [32] r) by (rewrite <-Hb; cbn; by rewrite orb_false_r).
  pose proof (otherRun_agrees (String c s)) as H0. unfold agrees, runThenCRLF in H0.
  destruct (oneOf [32] r) eqn:E32.
  - assert (n = 1%nat) as -> by (eapply (oneOf_width [32]); [repeat constructor; lia|exact E|done]).
    pose proof (otherRun_agrees (sdrop 1 (String c s))) as H1. unfold agrees, runThenCRLF in H1.
    destruct (Nat.ltb_spec 0 (scanNonSpaceLetterNumber (sdrop 1 (String c s)))).
    + destruct H1 as (rest & tl & -> & Hcons). cbn [Nat.eqb negb]. rewrite (proj2 (Nat.ltb_lt 0 _)) by lia.
      eexists _, _. split; [done|]. rewrite <-sdrop_sdrop, <-Nat.add_assoc. apply consumes_trans; [cbn; lia|exact Hcons].
    + rewrite H1. cbn [Nat.eqb negb app]. destruct (Nat.ltb_spec 0 (scanNonSpaceLetterNumber (String c s))).
      * by rewrite (proj2 (Nat.ltb_lt 0 _)) by lia.
      * done.
  - replace (sdrop 0 (String c s)) with (String c s) by done. cbn [Nat.eqb negb app Nat.add].
    destruct (Nat.ltb_spec 0 (scanNonSpaceLetterNumber (String c s))).
    + by rewrite (proj2 (Nat.ltb_lt 0 _)) by lia.
    + done.
Qed.

Lemma branch5_agrees s :
  s ≠ "" → agrees s (if (scanSpace s =? slen s)%nat && (0 <? scanSpace s)%nat then Some (scanSpace s) else None) trailing.
Proof.
  intros Hs. unfold agrees, trailing. change (pmatch (PSeq ?a ?b) ?l) with (flat_map (pmatch b) (pmatch a l)). rewrite atomic_one.
  pose proof (scanRun_consumes isSpace (slen s) s) as Hk. fold (scanSpace s) in Hk. rewrite skip_enough in Hk by apply length_chars.
  destruct (head_char s Hs) as (r & n & E & Hn & Hc). rewrite Hc in *. cbn [fst length skip] in *.
  destruct (isSpace r) eqn:Hr.
  - destruct (skip isSpace (length (chars (sdrop n s))) (chars (sdrop n s))) as [|t l] eqn:Hsk.
    + apply consumes_end in Hk. rewrite Hk, Nat.eqb_refl, (proj2 (Nat.ltb_lt 0 _)) by lia. exists [], []. split; [done|]. by apply consumes_end.
    + destruct (Nat.eqb_spec (scanSpace s) (slen s)) as [He|_]; [|done]. rewrite He in Hk.
      destruct Hk as [_ Hk]. pose proof (proj2 (consumes_end s (slen s)) eq_refl) as [_ Hend]. congruence.
  - assert (scanSpace s = 0%nat) as -> by (unfold scanSpace; destruct s; [done|]; cbn [slen String.length scanRun]; by rewrite E, Hr).
    by rewrite andb_comm.
Qed.

Lemma crlf_space r : crlf r = true → isSpace r = true.
Proof. intros [->|[->|[]%elem_of_nil]%elem_of_cons]%oneOf_elem%elem_of_cons; done. Qed.

Lemma newlines_cons t l : pmatch newlines (t :: l) =
  (if isSpace t.1 then pmatch newlines l else []) ++ (if crlf t.1 then [l] else []).
Proof.
  unfold newlines. change (pmatch (PSeq ?a ?b) ?l) with (flat_map (pmatch b) (pmatch a l)).
  cbn [pmatch default from_option id length reps Nat.eqb]. rewrite flat_map_app. cbn [flat_map]. rewrite app_nil_r. f_equal.
  by destruct (isSpace t.1).
Qed.

Lemma lastNewline_spec fuel s j last :
  (slen s ≤ fuel)%nat →
  match pmatch newlines (chars s) with
  | rest :: _ => ∃ k, lastNewline fuel s j last = Some (j + k)%nat ∧ consumes s (k + 1) rest
  | [] => lastNewline fuel s j last = last
  end.
Proof.
  revert s j last. induction fuel as [|fuel IH]; intros s j last Hf.
  { destruct s; [done|cbn in Hf; lia]. }
  destruct s as [|c s]; [done|]. destruct (head_char (String c s) ltac:(done)) as (r & n & E & Hn & Hc). rewrite Hc, newlines_cons.
  cbn [fst lastNewline]. rewrite E. destruct (isSpace r) eqn:Hr.
  - specialize (IH (sdrop n (String c s)) (j + n)%nat (if crlf r then Some j else last) ltac:(rewrite slen_sdrop; lia)).
    fold crlf. destruct (pmatch newlines (chars (sdrop n (String c s)))) as [|rest tl].
    + rewrite IH. cbn [app]. destruct (crlf r) eqn:Hcr; [|done]. exists 0%nat. split; [by rewrite Nat.add_0_r|].
      assert (n = 1%nat) as -> by (eapply oneOf_width; [|exact E|exact Hcr]; repeat constructor; lia). split; [lia|done].
    + destruct IH as (k & -> & Hk). cbn [app]. exists (n + k)%nat. split; [f_equal; lia|].
      rewrite <-Nat.add_assoc. apply consumes_trans; [lia|done].
  - destruct (crlf r) eqn:Hcr; [by rewrite (crlf_space r Hcr) in Hr|done].
Qed.

Lemma branch6_agrees s :
  agrees s (match lastNewline (slen s) s 0 None with Some k => Some (k + 1)%nat | None => None end) newlines.
Proof.
  unfold agrees. pose proof (lastNewline_spec (slen s) s 0 None ltac:(lia)) as H.
  destruct (pmatch newlines (chars s)) as [|rest tl]; [by rewrite H|]. destruct H as (k & -> & Hk). by exists rest, tl.
Qed.

(** The white space with its last character given back, when something follows it. *)
Definition givenBack (l : chars_t) : list chars_t :=
  flat_map (pmatch (PNotAhead (λ r, negb (isSpace r)))) (reps isSpace (length l) 0 l).

Lemma givenBack_cons t l :
  givenBack (t :: l) = if isSpace t.1 then givenBack l ++ [t :: l] else [].
Proof.
  unfold givenBack. cbn [length reps Nat.eqb]. rewrite flat_map_app. cbn [flat_map pmatch]. rewrite app_nil_r.
  by destruct (isSpace t.1).
Qed.

Lemma allButLast_cons t l : pmatch allButLast (t :: l) = if isSpace t.1 then givenBack l else [].
Proof.
  unfold allButLast. change (pmatch (PSeq ?a ?b) ?l) with (flat_map (pmatch b) (pmatch a l)).
  change (pmatch (PRep isSpace 1 None) (t :: l)) with (reps isSpace (S (length l)) 1 (t :: l)). rewrite reps_one.
  by destruct (isSpace t.1).
Qed.

Lemma lastSpace_spec fuel s j last :
  (slen s ≤ fuel)%nat →
  match givenBack (chars s) with
  | [] => s ≠ "" ∧ lastSpace fuel s j last = (j, last)
  | rest :: _ =>
      (rest = [] ∧ ∃ last', lastSpace fuel s j last = (j + slen s, last')%nat) ∨
      ∃ j' k, lastSpace fuel s j last = (j', Some (j + k)%nat) ∧ consumes s k rest ∧ (j < j' < j + slen s)%nat
  end.
Proof.
  revert s j last. induction fuel as [|fuel IH]; intros s j last Hf.
  { destruct s; [|cbn in Hf; lia]. left. split; [done|]. exists last. by rewrite Nat.add_0_r. }
  destruct s as [|c s]; [left; split; [done|]; exists last; cbn; by rewrite Nat.add_0_r|].
  destruct (head_char (String c s) ltac:(done)) as (r & n & E & Hn & Hc). pose proof (consumes_0 (String c s)) as H0. rewrite Hc in *.
  rewrite givenBack_cons. cbn [fst lastSpace]. rewrite E. destruct (isSpace r); [|done].
  set (t := sdrop n (String c s)) in *. assert (slen t = slen (String c s) - n)%nat as Ht by apply slen_sdrop.
  specialize (IH t (j + n)%nat (Some j) ltac:(lia)). destruct (givenBack (chars t)) as [|rest tl]; cbn [app].
  - destruct IH as [Hne ->]. right. exists (j + n)%nat, 0%nat. rewrite Nat.add_0_r. split_and!; [done|exact H0|lia|].
    assert (slen t ≠ 0%nat) by (by destruct t). lia.
  - destruct IH as [(-> & last' & ->)|(j' & k & -> & Hk & Hj)].
    + left. split; [done|]. exists last'. f_equal. lia.
    + right. exists j', (n + k)%nat. split_and!; [do 2 f_equal; lia| |lia|lia]. apply consumes_trans; [lia|done].
Qed.

Lemma branch7_agrees s : s ≠ "" → agrees s (branch7 s) allButLast.
Proof.
  intros Hs. unfold agrees, branch7. destruct (head_char s Hs) as (r & n & E & Hn & Hc). rewrite Hc, allButLast_cons. cbn [fst].
  replace (lastSpace (slen s) s 0 None) with (if isSpace r then lastSpace (pred (slen s)) (sdrop n s) n (Some 0%nat) else (0%nat, None))
    by (destruct s; [done|]; cbn [slen String.length lastSpace pred]; by rewrite E).
  destruct (isSpace r); [|done]. assert (slen (sdrop n s) = slen s - n)%nat as Ht by apply slen_sdrop.
  pose proof (lastSpace_spec (pred (slen s)) (sdrop n s) n (Some 0%nat) ltac:(lia)) as H.
  destruct (givenBack (chars (sdrop n s))) as [|rest tl].
  - destruct H as [Hne ->]. assert (slen (sdrop n s) ≠ 0%nat) by (by destruct (sdrop n s)).
    destruct (Nat.ltb_spec 0 n), (Nat.eqb_spec n (slen s)); try lia. done.
  - destruct H as [(-> & last' & ->)|(j' & k & -> & Hk & Hj)].
    + rewrite (proj2 (Nat.ltb_lt 0 _)), (proj2 (Nat.eqb_eq _ _)) by lia. exists [], tl. split; [done|]. apply consumes_end. lia.
    + rewrite (proj2 (Nat.ltb_lt 0 j')), (proj2 (Nat.eqb_neq _ _)), (proj2 (Nat.ltb_lt 0 (n + k))) by lia. exists rest, tl. split; [done|].
      apply consumes_trans; [lia|done].
Qed.

(** ** The scanner is the pattern *)

#[local] Opaque inRanges.

(** Where the first four branches do not match, the character is white space. *)
Lemma only_space s r n :
  s ≠ "" → decodeRune s = (r, n) → branch2 s = None → branch3 s = None → matchBranch4 s = 0%nat → isSpace r = true.
Proof.
  intros Hs E H2 H3 H4. destruct s as [|c s]; [done|]. unfold branch2, branch3 in H2, H3. rewrite E in H2, H3.
  destruct (isNumber r) eqn:HN; [done|]. destruct (isLetter r) eqn:HL.
  { cbn [negb] in H2. rewrite andb_false_r in H2. cbn [andb] in H2. change (sdrop 0 (String c s)) with (String c s) in H2.
    cbv zeta in H2. rewrite (proj2 (Nat.ltb_lt 0 (slen (String c s)))) in H2 by (cbn; lia). rewrite E, HL in H2. done. }
  destruct (isSpace r) eqn:HS; [done|exfalso]. unfold matchBranch4 in H4. change (sget 0 (String c s)) with c in H4.
  assert ((byteZ c =? 32) = false) as H32.
  { pose proof (oneOf_byte [32] c s r n ltac:(repeat constructor; lia) E) as Hb. cbn [oneOf existsb] in Hb. rewrite !orb_false_r in Hb.
    rewrite Hb. destruct (Z.eqb_spec r 32) as [->|]; done. }
  rewrite H32 in H4. change (sdrop 0 (String c s)) with (String c s) in H4.
  assert (0 < scanNonSpaceLetterNumber (String c s))%nat as Hk.
  { destruct (decodeRune_width _ _ _ E Hs). unfold scanNonSpaceLetterNumber. cbn [slen String.length scanRun]. rewrite E.
    unfold notSpaceLetterNumber at 1. rewrite HS, HL, HN. cbn. lia. }
  rewrite (proj2 (Nat.ltb_lt 0 _)) in H4 by done. lia.
Qed.

Definition orElse (o1 o2 : option nat) : option nat := match o1 with Some n => Some n | None => o2 end.

Lemma matchPiece_agrees s : s ≠ "" → agrees s (Some (matchPiece s)) Pattern.
Proof.
  intros Hs. destruct (head_char s Hs) as (r & n & E & Hn & Hc).
  set (o4 := if (0 <? matchBranch4 s)%nat then Some (matchBranch4 s) else None).
  set (o5 := if (scanSpace s =? slen s)%nat && (0 <? scanSpace s)%nat then Some (scanSpace s) else None).
  set (o6 := match lastNewline (slen s) s 0 None with Some k => Some (k + 1)%nat | None => None end).
  set (o8 := if isSpace r then Some n else None).
  assert (agrees s (orElse (branch1 s) (orElse (branch2 s) (orElse (branch3 s) (orElse o4 (orElse o5 (orElse o6 (orElse (branch7 s) o8))))))) Pattern) as Ha.
  { unfold Pattern. repeat (apply agrees_alt; [by first [apply branch1_agrees|apply branch2_agrees|apply branch3_agrees|apply branch4_agrees
      |apply branch5_agrees|apply branch6_agrees|apply branch7_agrees]|]).
    unfold agrees, o8. rewrite Hc. cbn [pmatch fst]. destruct (isSpace r); [|done]. eexists _, []. split; [done|]. split; [lia|done]. }
  replace (Some (matchPiece s)) with (orElse (branch1 s) (orElse (branch2 s) (orElse (branch3 s) (orElse o4 (orElse o5 (orElse o6 (orElse (branch7 s) o8)))))));
    [exact Ha|].
  unfold matchPiece, o4, o5, o6, o8. rewrite E. cbn [snd].
  destruct (branch1 s); [done|]. destruct (branch2 s) eqn:H2; [done|]. destruct (branch3 s) eqn:H3; [done|].
  destruct (Nat.ltb_spec 0 (matchBranch4 s)); [done|]. rewrite (only_space s r n) by (done || lia). cbn [orElse].
  destruct (_ && _); [done|]. destruct (lastNewline (slen s) s 0 None); [done|]. by destruct (branch7 s).
Qed.

(** Every match of the pattern consumes something. *)
Lemma scanRun_pos p k s : (0 < k)%nat → (match chars s with t :: _ => p t.1 | [] => false end) = true → (0 < scanRun p k s)%nat.
Proof.
  intros Hk Hp. destruct (decide (s = "")) as [->|Hs]; [done|]. destruct (head_char s Hs) as (r & n & E & Hn & Hc). rewrite Hc in Hp.
  cbn in Hp. destruct k as [|k]; [lia|]. destruct s; [done|]. cbn [scanRun]. rewrite E, Hp. lia.
Qed.

Lemma matchPiece_pos s : s ≠ "" → (1 ≤ matchPiece s ≤ slen s)%nat.
Proof.
  intros Hs. split; [|by destruct (matchPiece_agrees s Hs) as (rest & tl & _ & Hle & _)].
  destruct (head_char s Hs) as (r & n & E & Hn & Hc). unfold matchPiece.
  destruct (branch1 s) as [k|] eqn:H1.
  { destruct s; [done|]. cbn in H1. case_match; [|done]. unfold contraction, second in H1. repeat case_match; simplify_eq; lia. }
  destruct (branch2 s) as [k|] eqn:H2.
  { unfold branch2 in H2. rewrite E in H2. set (j := if _ && _ && _ then n else 0%nat) in H2. clearbody j. cbv zeta in H2.
    destruct (Nat.ltb_spec 0 (slen (sdrop j s))) as [Hpos|]; [|done]. destruct (decodeRune (sdrop j s)) as [r1 n1] eqn:E1.
    apply decodeRune_width in E1 as [? _]; [|intros E0; rewrite E0 in Hpos; cbn in Hpos; lia].
    destruct (isLetter r1); [|done]. injection H2 as <-. lia. }
  destruct (branch3 s) as [k|] eqn:H3.
  { unfold branch3 in H3. rewrite E in H3. destruct (isNumber r) eqn:HN; [|done].
    assert (k = scanRun isNumber 3 s) as -> by congruence. apply scanRun_pos; [lia|by rewrite Hc]. }
  destruct (Nat.ltb_spec 0 (matchBranch4 s)); [lia|]. destruct (_ && _) eqn:H5; [apply andb_true_iff in H5 as [_ H5%Nat.ltb_lt]; lia|].
  destruct (lastNewline (slen s) s 0 None); [lia|]. destruct (branch7 s) as [k|] eqn:H7; [|rewrite E; cbn; lia].
  unfold branch7 in H7. destruct (lastSpace (slen s) s 0 None) as [j last]. repeat case_match; simplify_eq; bool_hyps;
    repeat match goal with H : (_ <? _)%nat = true |- _ => apply Nat.ltb_lt in H end; lia.
Qed.

(** A text cut into pieces, each the pattern's first match where it starts. *)
Inductive cuts : nat → string → list (nat * nat) → Prop :=
  | cuts_end i : cuts i "" []
  | cuts_piece i s n rest alternatives ps :
      s ≠ "" → (0 < n)%nat → pmatch Pattern (chars s) = rest :: alternatives → consumes s n rest →
      cuts (i + n) (sdrop n s) ps → cuts i s ((i, i + n)%nat :: ps).

Lemma ScanPieces_loop_cuts fuel s i : (slen s ≤ fuel)%nat → ∃ ps, ScanPieces_loop fuel s i = Some ps ∧ cuts i s ps.
Proof.
  revert s i. induction fuel as [|fuel IH]; intros s i Hf; destruct (decide (s = "")) as [->|Hs].
  1, 3: exists []; split; [done|constructor].
  { destruct s; [done|cbn in Hf; lia]. }
  destruct (matchPiece_pos s Hs) as [H1 H2]. destruct (matchPiece_agrees s Hs) as (rest & tl & Hp & Hc).
  destruct (IH (sdrop (matchPiece s) s) (i + matchPiece s)%nat) as (ps & Hps & Hcut); [rewrite slen_sdrop; lia|].
  exists ((i, i + matchPiece s)%nat :: ps). split; [|by econstructor].
  destruct s as [|c s]; [done|]. cbn [ScanPieces_loop]. by rewrite Hps.
Qed.

Lemma cuts_cat i s ps text :
  cuts i s ps → sdrop i text = s → cat ((λ p, sub text p.1 p.2) <$> ps) = s.
Proof.
  intros H. induction H as [i|i s n rest tl ps _ _ _ [Hn _] _ IH]; intros Ht; [done|].
  cbn [fmap list_fmap cat foldr]. fold (cat ((λ p, sub text p.1 p.2) <$> ps)). rewrite IH by (by rewrite <-sdrop_sdrop, Ht).
  unfold sub. cbn [fst snd]. replace (i + n - i)%nat with n by lia. rewrite Ht. apply stake_sdrop.
Qed.

(** C28. The hand-written scanner is the pattern it replaces.  On every text, valid
    UTF-8 or not, it ends, its pieces are not empty, follow one another and together
    are the text, and each is what the pattern, read with its backtracking,
    possessive quantifiers and lookahead, matches first where the piece starts. *)
Theorem scanner_is_pattern text :
  ∃ pieces, ScanPieces text = Some pieces ∧ cuts 0 text pieces ∧
    cat ((λ p, sub text p.1 p.2) <$> pieces) = text.
Proof.
  destruct (ScanPieces_loop_cuts (slen text) text 0) as (ps & Hps & Hc); [done|]. exists ps. split_and!; [done..|].
  apply (cuts_cat 0 text ps text Hc). by destruct text.
Qed.

(** ** Character classes *)

#[local] Transparent inRanges.

(** Ranges in ascending order, disjoint. *)
Fixpoint ascending (ranges : list (Z * Z)) : bool :=
  match ranges with
  | a :: ((b :: _) as rest) => (a.1 <=? a.2) && (a.2 <? b.1) && ascending rest
  | [a] => a.1 <=? a.2
  | [] => true
  end.

Lemma ascending_lookup ranges i j a b :
  ascending ranges = true → ranges !! i = Some a → ranges !! j = Some b → a.1 ≤ a.2 ∧ ((i < j)%nat → a.2 < b.1).
Proof.
  revert i j a b. induction ranges as [|x [|y rest] IH]; intros i j a b Ha Hi Hj; [done|..].
  - destruct i, j; simplify_eq/=. bool_hyps. split; [done|lia].
  - cbn [ascending] in Ha. apply andb_true_iff in Ha as [Ha1 Ha2]. bool_hyps.
    assert (y.1 ≤ y.2) as Hy by (destruct (IH 0 0 y y Ha2 eq_refl eq_refl)%nat as [? _]; done).
    destruct i as [|i], j as [|j]; simplify_eq/=; [split; [done|lia]|split; [done|]..| |].
    + intros _. destruct j as [|j]; simplify_eq/=; [done|].
      destruct (IH 0%nat (S j) y b Ha2 eq_refl Hj) as [_ H']. specialize (H' ltac:(lia)). lia.
    + destruct (IH i 0%nat a y Ha2 Hi eq_refl) as [? _]. split; [done|lia].
    + destruct (IH i j a b Ha2 Hi Hj) as [? H']. split; [done|]. intros. apply H'. lia.
Qed.

Lemma in_ranges_lookup ranges r :
  in_ranges ranges r = true ↔ ∃ k g, ranges !! k = Some g ∧ g.1 ≤ r ≤ g.2.
Proof.
  unfold in_ranges. rewrite existsb_exists. split.
  - intros (g & Hg & Hr). apply list_elem_of_In, list_elem_of_lookup in Hg as [k Hk]. bool_hyps. exists k, g. split; [done|lia].
  - intros (k & g & Hk & Hr). exists g. split; [apply list_elem_of_In; by eapply list_elem_of_lookup_2|].
    apply andb_true_iff. split; apply Z.leb_le; lia.
Qed.

Lemma inRanges_loop_spec fuel ranges r lo hi :
  ascending ranges = true → 0 ≤ lo → hi < Z.of_nat (length ranges) → hi - lo + 2 ≤ Z.of_nat fuel →
  (∀ k g, ranges !! k = Some g → g.1 ≤ r ≤ g.2 → lo ≤ Z.of_nat k ≤ hi) →
  inRanges_loop fuel ranges r lo hi = in_ranges ranges r.
Proof.
  intros Ha. revert lo hi. induction fuel as [|fuel IH]; intros lo hi Hlo Hhi Hf Hc; cbn [inRanges_loop].
  { symmetry. apply not_true_iff_false. rewrite in_ranges_lookup. intros (k & g & Hk & Hr). specialize (Hc k g Hk Hr). lia. }
  destruct (Z.ltb_spec hi lo) as [Hlt|Hge].
  { symmetry. apply not_true_iff_false. rewrite in_ranges_lookup. intros (k & g & Hk & Hr). specialize (Hc k g Hk Hr). lia. }
  rewrite Z.shiftr_div_pow2 by lia. change (2 ^ 1) with 2. set (mid := (lo + hi) / 2).
  assert (lo ≤ mid ≤ hi) as Hmid by (unfold mid; split; [apply Z.div_le_lower_bound; lia|apply Z.div_le_upper_bound; lia]).
  destruct (lookup_lt_is_Some_2 ranges (Z.to_nat mid)) as [g Hg]; [lia|]. rewrite Hg. cbn [default from_option id].
  pose proof (ascending_lookup ranges (Z.to_nat mid) (Z.to_nat mid) g g Ha Hg Hg) as [Hgg _].
  destruct (Z.ltb_spec r g.1) as [Hr|Hr]; [|destruct (Z.ltb_spec g.2 r) as [Hr'|Hr']].
  - apply IH; [lia..|]. intros k x Hk Hx. specialize (Hc k x Hk Hx). split; [lia|].
    destruct (decide (Z.of_nat k ≤ mid - 1)) as [|Hn]; [done|exfalso].
    destruct (decide (k = Z.to_nat mid)) as [->|]; [simplify_eq; lia|].
    pose proof (ascending_lookup ranges (Z.to_nat mid) k g x Ha Hg Hk) as [_ H']. specialize (H' ltac:(lia)). lia.
  - apply IH; [lia..|]. intros k x Hk Hx. specialize (Hc k x Hk Hx). split; [|lia].
    destruct (decide (mid + 1 ≤ Z.of_nat k)) as [|Hn]; [done|exfalso].
    destruct (decide (k = Z.to_nat mid)) as [->|]; [simplify_eq; lia|].
    pose proof (ascending_lookup ranges k (Z.to_nat mid) x g Ha Hk Hg) as [_ H']. specialize (H' ltac:(lia)). lia.
  - symmetry. apply in_ranges_lookup. exists (Z.to_nat mid), g. split; [done|lia].
Qed.

Lemma inRanges_spec ranges r : ascending ranges = true → inRanges ranges r = in_ranges ranges r.
Proof.
  intros Ha. unfold inRanges. apply inRanges_loop_spec; [done|lia..|]. intros k g Hk _. apply lookup_lt_Some in Hk. lia.
Qed.

(** The binary search over the two tables of the source is membership in them. *)
Theorem classes_exact r :
  isLetter r = in_ranges letterRanges r ∧ isNumber r = in_ranges numberRanges r.
Proof. split; apply inRanges_spec; vm_compute; reflexivity. Qed.

(** The long s is a letter, so a text that starts with it is one piece: the
    contraction class of the pattern, which contains it, is only read after an
    apostrophe. *)
Theorem long_s_one_piece :
  ScanPieces (of_bytes [0xC5; 0xBF; 0x73]) = Some [(0, 3)%nat].
Proof. vm_compute. reflexivity. Qed.
