(* ===== verification/Bpe.v ===== *)
(** * The tokenizer (src/internal/bpe/bpe.go, truncate.go, utf8replace.go)

    Encoding, decoding and token-bounded truncation over a decoded vocabulary.  The
    embedded vocabulary file is the argument [blob].  [None] stands for a loop that
    does not end; the theorems show that there is none. *)

From S2P Require Import Prelude GoText GoLib Core BpeMerge BpeVocab BpeScan Governance.

Open Scope string_scope.
Open Scope list_scope.
Open Scope Z_scope.

Definition specialTokens : list (string * Z) :=
  [("<|endoftext|>", 100257); ("<|fim_prefix|>", 100258); ("<|fim_middle|>", 100259); ("<|fim_suffix|>", 100260);
   ("<|endofprompt|>", 100276)].

(** [findSpecialToken]: the empty string for none. *)
Fixpoint findSpecialToken_in (l : list (string * Z)) (text : string) : string :=
  match l with
  | st :: l => if Contains text st.1 then st.1 else findSpecialToken_in l text
  | [] => ""
  end.
Definition findSpecialToken (text : string) : string := findSpecialToken_in specialTokens text.

Inductive EncodeError := ErrUnavailable (e : VocabError) | SpecialTokenError (token : string).

(** ** Encoding *)

Fixpoint encodePieces (v : vocabulary) (text : string) (ps : list (nat * nat)) (out : list Z) : option (list Z) :=
  match ps with
  | [] => Some out
  | p :: ps => out ← encodePiece (rank v) (sub text p.1 p.2) out; encodePieces v text ps out
  end.

Definition encodeOrdinary (v : vocabulary) (text : string) : option (list Z) :=
  ps ← ScanPieces text; encodePieces v text ps [].

Section Tokenizer.
(** The embedded file. *)
Context (blob : string).

Definition getVocab : option (VocabError + vocabulary) := loadVocab blob.

Definition EncodeOrdinary (text : string) : option (EncodeError + list Z) :=
  v ← getVocab;
  match v with
  | inl e => Some (inl (ErrUnavailable e))
  | inr v => out ← encodeOrdinary v text; Some (inr out)
  end.

Definition Encode (text : string) : option (EncodeError + list Z) :=
  let tok := findSpecialToken text in
  if negb (String.eqb tok "") then Some (inl (SpecialTokenError tok)) else EncodeOrdinary text.

Definition BpeTokenCount (text : string) : option (EncodeError + Z) :=
  r ← Encode text;
  Some (match r with inl e => inl e | inr tokens => inr (Z.of_nat (length tokens)) end).

Definition Available : option bool :=
  v ← getVocab; Some (match v with inl _ => false | inr _ => true end).

(** ** Decoding *)

Fixpoint tokenBytes (v : vocabulary) (tokens : list Z) : string :=
  match tokens with
  | [] => ""
  | t :: tokens => default "" (token v t) +:+ tokenBytes v tokens
  end.

(** [DecodeBytes]; nil without a vocabulary. *)
Definition DecodeBytes (tokens : list Z) : option string :=
  v ← getVocab; Some (match v with inl _ => "" | inr v => tokenBytes v tokens end).
End Tokenizer.

(** [utf8Lead]: how many continuation bytes, and the range of the first. *)
Definition utf8Lead (c : Z) : option (nat * Z * Z) :=
  if (0xC2 <=? c) && (c <=? 0xDF) then Some (1%nat, 0x80, 0xBF)
  else if (0xE0 <=? c) && (c <=? 0xEF) then
    Some (2%nat, (if c =? 0xE0 then 0xA0 else 0x80), (if c =? 0xE0 then 0xBF else if c =? 0xED then 0x9F else 0xBF))
  else if (0xF0 <=? c) && (c <=? 0xF4) then
    Some (3%nat, (if c =? 0xF0 then 0x90 else 0x80), (if c =? 0xF0 then 0xBF else if c =? 0xF4 then 0x8F else 0xBF))
  else None.

(** The loop over the continuation bytes: how many were consumed and whether all were there. *)
Fixpoint continuation (need : nat) (lo hi : Z) (s : string) : nat * bool :=
  match need with
  | O => (0%nat, true)
  | S need =>
      match s with
      | "" => (0%nat, false)
      | String c s =>
          if (byteZ c <? lo) || (hi <? byteZ c) then (0%nat, false)
          else let '(n, good) := continuation need 0x80 0xBF s in (S n, good)
      end
  end.

Definition replacementChar : string := of_bytes (EncodeRune RuneError).

Fixpoint decodeUTF8_loop (fuel : nat) (replacement : bool) (b : string) : string :=
  match fuel, b with
  | S fuel, String c rest =>
      let bad := if replacement then replacementChar else "" in
      if byteZ c <? 0x80 then String c (decodeUTF8_loop fuel replacement rest) else
      match utf8Lead (byteZ c) with
      | None => bad +:+ decodeUTF8_loop fuel replacement rest
      | Some (need, lo, hi) =>
          let '(n, good) := continuation need lo hi rest in
          (if good then stake (S n) b else bad) +:+ decodeUTF8_loop fuel replacement (sdrop n rest)
      end
  | _, _ => ""
  end.

Definition decodeUTF8 (b : string) (replacement : bool) : string :=
  if Valid b then b else decodeUTF8_loop (slen b) replacement b.
Definition decodeUTF8Replace (b : string) : string := decodeUTF8 b true.
Definition decodeUTF8Ignore (b : string) : string := decodeUTF8 b false.

Definition Decode (blob : string) (tokens : list Z) : option string :=
  b ← DecodeBytes blob tokens; Some (decodeUTF8Replace b).

(** ** Truncation *)

Definition TruncatedSuffix : string := String (Zbyte 10) "... (truncated)".

Definition truncateToUTF8Bytes (text : string) (maxBytes : Z) : string :=
  if maxBytes <=? 0 then "" else
  if Z.of_nat (slen text) <=? maxBytes then text else decodeUTF8Ignore (stake (Z.to_nat maxBytes) text).

Definition truncateByBytes (text : string) (maxTokens : Z) : string :=
  if Z.of_nat (slen text) <=? maxTokens then text else
  let suffixBytes := Z.of_nat (slen TruncatedSuffix) in
  if maxTokens <=? suffixBytes then truncateToUTF8Bytes text maxTokens
  else truncateToUTF8Bytes text (maxTokens - suffixBytes) +:+ TruncatedSuffix.

(** The loop over shorter and shorter bodies, from [budget] tokens down to none;
    [None] when none fits. *)
Fixpoint shorten (budget : nat) (v : vocabulary) (tokens : list Z) (text : string) (maxTokens : Z) : option (option string) :=
  let result := decodeUTF8Replace (tokenBytes v (take budget tokens)) +:+ TruncatedSuffix in
  if negb (String.eqb (findSpecialToken result) "") then Some (Some (truncateByBytes text maxTokens)) else
  enc ← encodeOrdinary v result;
  if Z.of_nat (length enc) <=? maxTokens then Some (Some result) else
  match budget with O => Some None | S budget => shorten budget v tokens text maxTokens end.

Definition TruncateTextToTokens (blob text : string) (maxTokens : Z) : option string :=
  if maxTokens <=? 0 then Some text else
  vocab ← getVocab blob;
  match vocab with
  | inl _ => Some (truncateByBytes text maxTokens)
  | inr v =>
      tokens ← encodeOrdinary v text;
      if negb (String.eqb (findSpecialToken text) "") then Some (truncateByBytes text maxTokens) else
      if Z.of_nat (length tokens) <=? maxTokens then Some text else
      if negb (String.eqb (findSpecialToken TruncatedSuffix) "") then Some (truncateByBytes text maxTokens) else
      suffixTokens ← encodeOrdinary v TruncatedSuffix;
      let bodyBudget := maxTokens - Z.of_nat (length suffixTokens) in
      let prefix := decodeUTF8Replace (tokenBytes v (take (Z.to_nat maxTokens) tokens)) in
      if bodyBudget <=? 0 then Some prefix else
      found ← shorten (Z.to_nat bodyBudget) v tokens text maxTokens;
      Some (default prefix found)
  end.

(** ** Encoding and decoding *)

Lemma tokenBytes_app v l k : tokenBytes v (l ++ k) = tokenBytes v l +:+ tokenBytes v k.
Proof. induction l as [|t l IH]; [done|]. cbn. by rewrite IH, sapp_assoc. Qed.

Lemma tokenBytes_lookup v t : loaded v → is_Some (rank v t) → tokenBytes v (lookupRank (rank v) t) = t.
Proof.
  intros Hv [r Hr]. unfold lookupRank. rewrite Hr. cbn. rewrite (rank_token v t r Hv Hr). apply sapp_nil_r.
Qed.

Lemma tokenBytes_tokens v toks :
  loaded v → Forall (λ t, is_Some (rank v t)) toks → tokenBytes v (concat (lookupRank (rank v) <$> toks)) = cat toks.
Proof.
  intros Hv Hall. induction Hall as [|t toks Ht Hall IH]; [done|]. cbn. by rewrite tokenBytes_app, tokenBytes_lookup, IH.
Qed.

Lemma length_lookups rank toks : (length (concat (lookupRank rank <$> toks)) ≤ length toks)%nat.
Proof. induction toks as [|t toks IH]; [done|]. cbn. rewrite length_app. unfold lookupRank at 1. case_match; cbn; lia. Qed.

Lemma length_bytesOf s : length (bytesOf s) = slen s.
Proof. unfold bytesOf. rewrite length_fmap. induction s as [|c s IH]; [done|]. cbn. f_equal. exact IH. Qed.

(** What the encoder does to one piece. *)
Definition encodes (v : vocabulary) (piece : string) (out : list Z) : Prop :=
  (length out ≤ slen piece)%nat ∧ ((∀ c, is_Some (rank v (String c ""))) → tokenBytes v out = piece).

Lemma encodePiece_spec v piece dst :
  loaded v → ∃ out, encodePiece (rank v) piece dst = Some (dst ++ out) ∧ encodes v piece out.
Proof.
  intros Hv. unfold encodePiece. destruct (Nat.eqb_spec (slen piece) 0) as [H0|H0].
  { exists []. rewrite app_nil_r. split; [done|]. split; [cbn; lia|]. by destruct piece. }
  destruct (rank v piece) as [r|] eqn:Hr.
  { exists [r]. split; [done|]. split; [cbn; lia|]. intros _. cbn. rewrite (rank_token v piece r Hv Hr). apply sapp_nil_r. }
  destruct (mergeParts_bpe (rank v) piece (λ s r, rank_bound v s r Hv) dst) as (toks & Hb & Hc & ->); [by destruct piece|].
  eexists. split; [done|]. split.
  - etrans; [apply length_lookups|]. etrans; [by eapply bpe_length|]. by rewrite length_bytesOf.
  - intros Hall. rewrite tokenBytes_tokens; [done..|]. eapply bpe_known; [done|]. unfold bytesOf. by apply Forall_fmap, Forall_true.
Qed.

Lemma encodes_app v p q a b : encodes v p a → encodes v q b → encodes v (p +:+ q) (a ++ b).
Proof.
  intros [H1 H2] [H3 H4]. split; [rewrite length_app, slen_app; lia|]. intros Hall. by rewrite tokenBytes_app, H2, H4.
Qed.

Lemma encodePieces_spec v text ps dst :
  loaded v → ∃ out, encodePieces v text ps dst = Some (dst ++ out) ∧ encodes v (cat ((λ p, sub text p.1 p.2) <$> ps)) out.
Proof.
  intros Hv. revert dst. induction ps as [|p ps IH]; intros dst; cbn [encodePieces].
  { exists []. by rewrite app_nil_r. }
  destruct (encodePiece_spec v (sub text p.1 p.2) dst Hv) as (o1 & -> & H1). cbn [mbind option_bind].
  destruct (IH (dst ++ o1)) as (o2 & -> & H2). exists (o1 ++ o2). split; [by rewrite app_assoc|]. by apply encodes_app.
Qed.

Lemma encodeOrdinary_spec v text : loaded v → ∃ out, encodeOrdinary v text = Some out ∧ encodes v text out.
Proof.
  intros Hv. unfold encodeOrdinary, ScanPieces. destruct (ScanPieces_loop_cuts (slen text) text 0) as (ps & -> & Hc); [done|].
  cbn [mbind option_bind]. destruct (encodePieces_spec v text ps [] Hv) as (out & -> & Ho). exists out. split; [done|].
  by rewrite (cuts_cat 0 text ps text Hc ltac:(by destruct text)) in Ho.
Qed.

#[local] Opaque encodeOrdinary.

(** ** Invalid bytes *)

(** Decides the integer comparisons of the goal and of [H]. *)
Ltac compare_in H :=
  repeat match type of H with
  | context [?a <? ?b] => destruct (Z.ltb_spec a b); cbn [andb orb] in H; try lia
  | context [?a <=? ?b] => destruct (Z.leb_spec a b); cbn [andb orb] in H; try lia
  | context [?a =? ?b] => destruct (Z.eqb_spec a b); cbn [andb orb] in H; try lia
  end.
Ltac compare_goal :=
  repeat match goal with
  | |- context [?a <? ?b] => destruct (Z.ltb_spec a b); cbn [andb orb]; try lia
  | |- context [?a <=? ?b] => destruct (Z.leb_spec a b); cbn [andb orb]; try lia
  | |- context [?a =? ?b] => destruct (Z.eqb_spec a b); cbn [andb orb]; try lia
  end.

(** A complete sequence is decoded whole, whatever follows it. *)
Lemma sequence_decodes c rest need lo hi n t :
  utf8Lead (byteZ c) = Some (need, lo, hi) → continuation need lo hi rest = (n, true) →
  n = need ∧ (1 ≤ n ≤ slen rest)%nat ∧ (DecodeRune (stake (S n) (String c rest) +:+ t)).2 = S n.
Proof.
  intros Hl Hc. unfold utf8Lead in Hl. unfold DecodeRune, accept2, cont.
  compare_in Hl; simplify_eq; destruct rest as [|c1 [|c2 [|c3 rest]]]; cbn [continuation] in Hc; try done.
  all: compare_in Hc; try done; simplify_eq.
  all: split; [done|split; [cbn; lia|cbn [stake String.append]; compare_goal; done]].
Qed.

Lemma decodeUTF8_loop_valid fuel replacement b : Valid (decodeUTF8_loop fuel replacement b) = true.
Proof.
  revert b. induction fuel as [|fuel IH]; intros b; [done|]. destruct b as [|c rest]; [done|]. cbn [decodeUTF8_loop].
  assert (∀ t, Valid ((if replacement then replacementChar else "") +:+ t) = Valid t) as Hbad.
  { intros t. destruct replacement; [|done]. apply (Valid_head _ _ 3); [done|done| |by left].
    unfold replacementChar. rewrite DecodeRune_EncodeRune; [done|]. right. unfold RuneError. lia. }
  destruct (Z.ltb_spec (byteZ c) 0x80) as [Hc|Hc].
  { change (String c (decodeUTF8_loop fuel replacement rest)) with (String c "" +:+ decodeUTF8_loop fuel replacement rest).
    rewrite (Valid_head _ _ 1); [apply IH|done|done|..]; unfold DecodeRune; cbn [String.append];
      (destruct (accept2 (byteZ c)); destruct (Z.ltb_spec (byteZ c) 0x80); [|lia]); [done|right; cbn; unfold RuneError; lia]. }
  destruct (utf8Lead (byteZ c)) as [[[need lo] hi]|] eqn:Hl; [|by rewrite Hbad].
  destruct (continuation need lo hi rest) as [n good] eqn:Hk. destruct good; [|by rewrite Hbad].
  destruct (sequence_decodes c rest need lo hi n (decodeUTF8_loop fuel replacement (sdrop n rest)) Hl Hk) as (_ & Hn & Hd).
  rewrite (Valid_head _ _ (S n)); [apply IH|done| |done|left; lia].
  rewrite slen_stake. unfold slen in *. cbn. lia.
Qed.

Lemma continuation_length need lo hi s n good : continuation need lo hi s = (n, good) → (n ≤ slen s)%nat.
Proof.
  revert lo hi s n good. induction need as [|need IH]; intros lo hi s n good; cbn [continuation]; [intros [= <- _]; lia|].
  destruct s as [|c s]; [intros [= <- _]; lia|]. case_match; [intros [= <- _]; lia|].
  destruct (continuation need 0x80 0xBF s) as [m g] eqn:E. intros [= <- _]. apply IH in E. unfold slen in *. cbn. lia.
Qed.

(** Dropping what is not UTF-8 never lengthens a text. *)
Lemma decodeUTF8Ignore_length b : (slen (decodeUTF8Ignore b) ≤ slen b)%nat.
Proof.
  unfold decodeUTF8Ignore, decodeUTF8. case_match; [done|]. clear H.
  assert (∀ fuel s, slen (decodeUTF8_loop fuel false s) ≤ slen s)%nat as Hall; [|apply Hall].
  intros fuel. induction fuel as [|fuel IH]; intros s; [cbn; lia|]. destruct s as [|c rest]; [cbn; lia|]. cbn [decodeUTF8_loop].
  case_match; [specialize (IH rest); unfold slen in *; cbn; lia|].
  destruct (utf8Lead (byteZ c)) as [[[need lo] hi]|]; [|specialize (IH rest); unfold slen in *; cbn; lia].
  destruct (continuation need lo hi rest) as [n good] eqn:Hk. apply continuation_length in Hk.
  specialize (IH (sdrop n rest)). rewrite slen_sdrop in IH. rewrite slen_app.
  assert (slen (if good then stake (S n) (String c rest) else "") ≤ S n)%nat.
  { destruct good; [rewrite slen_stake; lia|cbn; lia]. }
  change (slen (String c rest)) with (S (slen rest)). lia.
Qed.

(** ** Truncation *)

Lemma truncateToUTF8Bytes_length text n : Z.of_nat (slen (truncateToUTF8Bytes text n)) ≤ Z.max 0 n.
Proof.
  unfold truncateToUTF8Bytes. destruct (Z.leb_spec n 0); [cbn; lia|]. destruct (Z.leb_spec (Z.of_nat (slen text)) n); [lia|].
  pose proof (decodeUTF8Ignore_length (stake (Z.to_nat n) text)) as H'. rewrite slen_stake in H'. lia.
Qed.

Lemma truncateByBytes_length text n : 0 < n → Z.of_nat (slen (truncateByBytes text n)) ≤ n.
Proof.
  intros Hn. unfold truncateByBytes. destruct (Z.leb_spec (Z.of_nat (slen text)) n); [done|]. case_match; bool_hyps.
  - pose proof (truncateToUTF8Bytes_length text n). lia.
  - rewrite slen_app. pose proof (truncateToUTF8Bytes_length text (n - Z.of_nat (slen TruncatedSuffix))). lia.
Qed.

(** The text fits, by tokens. *)
Definition fits (v : vocabulary) (r : string) (maxTokens : Z) : Prop :=
  ∃ toks, encodeOrdinary v r = Some toks ∧ Z.of_nat (length toks) ≤ maxTokens.

Lemma fits_bytes v text n : loaded v → 0 < n → fits v (truncateByBytes text n) n.
Proof.
  intros Hv Hn. destruct (encodeOrdinary_spec v (truncateByBytes text n) Hv) as (toks & Ht & Hl & _). exists toks. split; [done|].
  pose proof (truncateByBytes_length text n Hn). lia.
Qed.

Definition candidate (v : vocabulary) (tokens : list Z) (budget : nat) : string :=
  decodeUTF8Replace (tokenBytes v (take budget tokens)) +:+ TruncatedSuffix.

Lemma shorten_unfold budget v tokens text n :
  shorten budget v tokens text n =
    if negb (String.eqb (findSpecialToken (candidate v tokens budget)) "") then Some (Some (truncateByBytes text n)) else
    enc ← encodeOrdinary v (candidate v tokens budget);
    if Z.of_nat (length enc) <=? n then Some (Some (candidate v tokens budget)) else
    match budget with O => Some None | S budget => shorten budget v tokens text n end.
Proof. by destruct budget. Qed.

Lemma shorten_spec budget v tokens text n :
  loaded v → 0 < n → ∃ found, shorten budget v tokens text n = Some found ∧ match found with Some r => fits v r n | None => True end.
Proof.
  intros Hv Hn. induction budget as [|budget IH]; rewrite shorten_unfold.
  all: destruct (negb _); [exists (Some (truncateByBytes text n)); split; [reflexivity|by apply fits_bytes]|].
  - destruct (encodeOrdinary_spec v (candidate v tokens 0) Hv) as (enc & He & _). rewrite He. cbn [mbind option_bind].
    destruct (Z.leb_spec (Z.of_nat (length enc)) n) as [Hle|]; [|clear He; by exists None].
    exists (Some (candidate v tokens 0)). split; [reflexivity|]. exists enc. exact (conj He Hle).
  - destruct (encodeOrdinary_spec v (candidate v tokens (S budget)) Hv) as (enc & He & _). rewrite He. cbn [mbind option_bind].
    destruct (Z.leb_spec (Z.of_nat (length enc)) n) as [Hle|]; [|exact IH].
    exists (Some (candidate v tokens (S budget))). split; [reflexivity|]. exists enc. exact (conj He Hle).
Qed.

(** C29. Decoding what was encoded gives the text back, byte by byte, for every text
    and every vocabulary that has a token for each byte; a text that is valid UTF-8
    is given back by [Decode] too. *)
Theorem tokens_roundtrip blob v text :
  getVocab blob = Some (inr v) → (∀ c, is_Some (rank v (String c ""))) →
  ∃ tokens, EncodeOrdinary blob text = Some (inr tokens) ∧ (length tokens ≤ slen text)%nat ∧
    DecodeBytes blob tokens = Some text ∧ (Valid text = true → Decode blob tokens = Some text).
Proof.
  intros Hb Hall. pose proof (loadVocab_spec blob) as (r & Hr & Hv). unfold getVocab in Hb. rewrite Hb in Hr. injection Hr as <-.
  destruct Hv as [Hv _]. destruct (encodeOrdinary_spec v text Hv) as (tokens & Ht & Hlen & Hdec). exists tokens.
  unfold Decode, DecodeBytes, EncodeOrdinary, getVocab. rewrite Hb. cbn [mbind option_bind]. rewrite Ht, (Hdec Hall).
  split_and!; [done..|]. intros Hval. cbn. unfold decodeUTF8Replace, decodeUTF8. by rewrite Hval.
Qed.

(** Truncation always returns, and what it returns is within the bound: at most
    [maxTokens] tokens when the vocabulary can be read, at most as many bytes when it
    cannot.  The one exception is the prefix of exactly [maxTokens] tokens, taken when
    no body fits before the suffix: cut inside a character, it may encode to more. *)
Theorem truncation_bounded blob text maxTokens :
  0 < maxTokens →
  ∃ r, TruncateTextToTokens blob text maxTokens = Some r ∧
    match getVocab blob with
    | Some (inr v) => fits v r maxTokens ∨
        ∃ tokens, encodeOrdinary v text = Some tokens ∧ maxTokens < Z.of_nat (length tokens) ∧
          r = decodeUTF8Replace (tokenBytes v (take (Z.to_nat maxTokens) tokens))
    | _ => Z.of_nat (slen r) ≤ maxTokens
    end.
Proof.
  intros Hn. unfold TruncateTextToTokens. destruct (Z.leb_spec maxTokens 0); [lia|].
  destruct (loadVocab_spec blob) as (r & Hr & Hv). unfold getVocab. rewrite Hr. cbn [mbind option_bind].
  destruct r as [e|v]; [eexists; split; [done|by apply truncateByBytes_length]|]. destruct Hv as [Hv _].
  destruct (encodeOrdinary_spec v text Hv) as (tokens & Ht & _). rewrite Ht. cbn [mbind option_bind].
  case_match; [eexists; split; [done|left; by apply fits_bytes]|].
  destruct (Z.leb_spec (Z.of_nat (length tokens)) maxTokens) as [Hle|Hgt]; [exists text; split; [done|left; by exists tokens]|].
  case_match; [eexists; split; [done|left; by apply fits_bytes]|].
  destruct (encodeOrdinary_spec v TruncatedSuffix Hv) as (suffix & -> & _). cbn [mbind option_bind].
  case_match; [eexists; split; [done|]; right; by exists tokens|].
  destruct (shorten_spec (Z.to_nat (maxTokens - Z.of_nat (length suffix))) v tokens text maxTokens Hv Hn) as (found & -> & Hf).
  cbn [mbind option_bind]. eexists. split; [done|]. destruct found as [r|]; cbn [default from_option id].
  - by left.
  - right. by exists tokens.
Qed.

(** ** The interface of context governance *)

Definition countOf (r : option (EncodeError + Z)) : option Z := match r with Some (inr n) => Some n | _ => None end.

(** The tokenizer keeps what governance assumes of it.  How values are marshalled is
    encoding/json's. *)
#[program] Definition bpeTokenizer {ToolSchema : Type} (blob : string) (marshalBlock : ContentBlock → option string)
    (marshalCalls : list ToolCall → option string) (marshalTools : list ToolSchema → option string) : Tokenizer ToolSchema :=
  {| TokenCount text := countOf (BpeTokenCount blob text);
     bpeAvailable := default false (Available blob);
     Governance.marshalBlock := marshalBlock; Governance.marshalCalls := marshalCalls; Governance.marshalTools := marshalTools |}.
Next Obligation.
  intros ToolSchema blob _ _ _ s n. cbn. unfold BpeTokenCount. destruct (Encode blob s) as [[e|tokens]|]; cbn; [done| |done].
  intros [= <-]. lia.
Qed.

(** A text without a special token is counted exactly when the vocabulary can be read. *)
Lemma BpeTokenCount_some blob text :
  findSpecialToken text = "" →
  ∃ r, BpeTokenCount blob text = Some r ∧
    match getVocab blob with Some (inr v) => ∃ n, r = inr n ∧ 0 ≤ n ≤ Z.of_nat (slen text) | _ => ∃ e, r = inl (ErrUnavailable e) end.
Proof.
  intros Hs. unfold BpeTokenCount, Encode, EncodeOrdinary. rewrite Hs. cbn [String.eqb negb].
  destruct (loadVocab_spec blob) as (r & Hr & Hv). unfold getVocab. rewrite Hr. cbn [mbind option_bind].
  destruct r as [e|v]; [eexists; split; [done|by exists e]|]. destruct Hv as [Hv _].
  destruct (encodeOrdinary_spec v text Hv) as (tokens & -> & Hl & _). cbn [mbind option_bind].
  eexists. split; [done|]. eexists. split; [done|lia].
Qed.

(** ** A vocabulary of single bytes *)

Definition le32 (n : Z) : string := of_bytes [n mod 256; n / 256 mod 256; 0; 0].
Definition byteBlob : string :=
  "NBPE" +:+ le32 1 +:+ le32 256 +:+ le32 1 +:+ of_bytes (replicate 256 1) +:+ of_bytes (seqZ 0 256).

Definition byteVocab : vocabulary := Eval vm_compute in
  match loadVocab byteBlob with Some (inr v) => v | _ => mkVocab "" [] ∅ end.

Lemma byteBlob_loads : getVocab byteBlob = Some (inr byteVocab).
Proof. vm_compute. reflexivity. Qed.

Lemma byteVocab_bytes c : is_Some (rank byteVocab (String c "")).
Proof.
  assert (forallb (λ i, bool_decide (is_Some (rank byteVocab (String (Zbyte i) "")))) (seqZ 0 256) = true) as H by (vm_compute; reflexivity).
  rewrite forallb_forall in H. specialize (H (byteZ c)). pose proof (byteZ_range c).
  rewrite <-list_elem_of_In, elem_of_seqZ in H. specialize (H ltac:(lia)). apply bool_decide_eq_true in H.
  replace c with (Zbyte (byteZ c)); [done|]. unfold Zbyte, byteZ. rewrite N2Z.id. apply Ascii.ascii_N_embedding.
Qed.

Lemma tokens_roundtrip_witness :
  ∃ tokens, EncodeOrdinary byteBlob "don't stop" = Some (inr tokens) ∧ (length tokens ≤ slen "don't stop")%nat ∧
    DecodeBytes byteBlob tokens = Some "don't stop" ∧ (Valid "don't stop" = true → Decode byteBlob tokens = Some "don't stop").
Proof. apply (tokens_roundtrip byteBlob byteVocab); [exact byteBlob_loads|exact byteVocab_bytes]. Defined.

Lemma truncation_bounded_witness :
  ∃ r, TruncateTextToTokens byteBlob "a text of more than twenty bytes" 20 = Some r ∧
    match getVocab byteBlob with
    | Some (inr v) => fits v r 20 ∨
        ∃ tokens, encodeOrdinary v "a text of more than twenty bytes" = Some tokens ∧ 20 < Z.of_nat (length tokens) ∧
          r = decodeUTF8Replace (tokenBytes v (take (Z.to_nat 20) tokens))
    | _ => Z.of_nat (slen r) ≤ 20
    end.
Proof. apply truncation_bounded. lia. Defined.

Lemma truncation_example : TruncateTextToTokens byteBlob "a text of more than twenty bytes" 20 = Some ("a te" +:+ TruncatedSuffix).
Proof. vm_compute. reflexivity. Qed.
