(* ===== verification/MemoryFabric.v ===== *)
(** * The shared memory store (src/internal/memoryfabric/store.go)

    A transactional outbox: a completed turn is one canonical record and one job per
    projection, committed together; workers claim jobs under a lease and acknowledge
    or retry them.  The database is the record [DB] of its four tables; each method
    is one transaction, so a function of the database that returns an error or the
    database it commits.  The queries are written out as what they select or update.

    SHA-256 and SQLite's LENGTH are arguments.  SQLite documents LENGTH of a text as
    the number of its characters before the first NUL. *)

From S2P Require Import Prelude GoText GoLib GoFmt Provider.

Open Scope string_scope.
Open Scope list_scope.
Open Scope Z_scope.

Inductive jobState := stateQueued | stateRunning | stateSucceeded | stateDead.
#[export] Instance jobState_eq_dec : EqDecision jobState.
Proof. solve_decision. Defined.

Definition defaultLease : Z := 2 * 60 * 1000.
Definition defaultMaxAttempts : Z := 8.
Definition defaultMaxPending : Z := 512.
Definition defaultMaxPendingBytes : Z := 4 * 1024 * 1024.
Definition defaultMaxContentBytes : Z := 64 * 1024.
Definition defaultMaxDiskBytes : Z := 200 * 1024 * 1024.

Record Namespace := mkNamespace { ns_Scope : string; ns_Owner : string }.

Definition ScopeProject : string := "project".
Definition ScopeGlobal : string := "global".
Definition scopes : list string := ["private"; "team"; ScopeProject; ScopeGlobal].
Definition LegacyUnassignedOwner : string := "legacy-unassigned".

Inductive FabricError :=
  | ErrScope (scope : string) | ErrOwner (scope : string) | ErrSessionEmpty | ErrContentEmpty | ErrContentLimit (n : Z)
  | ErrRecordConflict (id : string) | ErrDiskUsage | ErrDiskBudget (n : Z) | ErrJobCapacity (n : Z) | ErrByteBudget (n : Z)
  | ErrProjectionEmpty | ErrNoRows | ErrNotDead (projection id : string) | ErrJobRequired | ErrCutoffRequired.

(** A row of [memory_records] and one of [memory_outbox]. *)
Record Rec := mkRec { rc_Session : string; rc_Scope : string; rc_Owner : string; rc_Content : string; rc_Hash : string; rc_Created : Z }.
Record Row := mkRow
  { rw_Record : string; rw_State : jobState; rw_Attempts : Z; rw_Lease : Z; rw_Next : Z; rw_Error : string; rw_Created : Z; rw_Updated : Z }.

(** The tables; a job is keyed by its id and its projection. *)
Record DB := mkDB
  { db_records : gmap string Rec; db_outbox : gmap (string * string) Row; db_receipts : gset (string * string);
    db_jobs : Z; db_bytes : Z }.

Record Store := mkStore
  { s_namespace : Namespace; s_maxPending : Z; s_maxPendingBytes : Z; s_maxContentBytes : Z; s_maxDiskBytes : Z;
    s_maxAttempts : Z; s_lease : Z; s_projections : list string }.

Record Job := mkJob
  { j_ID : string; j_Projection : string; j_RecordID : string; j_SessionKey : string; j_Scope : string; j_Owner : string;
    j_Content : string; j_Attempts : Z; j_CreatedAt : Z }.

(** [state IN (queued, running)]. *)
Definition pending (r : Row) : bool := bool_decide (rw_State r = stateQueued) || bool_decide (rw_State r = stateRunning).

Definition with_state (st : jobState) (attempts lease next : Z) (error : string) (now : Z) (r : Row) : Row :=
  mkRow (rw_Record r) st attempts lease next error (rw_Created r) now.

Section Fabric.
Context `{CaseTable} (Sum256 : string → string) (LENGTH : string → Z).

Definition NormalizeNamespace (ns : Namespace) : FabricError + Namespace :=
  let scope := ToLower (TrimSpace (ns_Scope ns)) in
  let owner := TrimSpace (ns_Owner ns) in
  let scope := if String.eqb scope "" then ScopeProject else scope in
  if negb (bool_decide (scope ∈ scopes)) then inl (ErrScope scope) else
  if String.eqb owner "" then
    (if String.eqb scope ScopeGlobal then inr (mkNamespace scope ScopeGlobal) else inl (ErrOwner scope))
  else inr (mkNamespace scope owner).

Definition Key (ns : Namespace) : string := ns_Scope ns +:+ ":" +:+ ns_Owner ns.

Definition nul : string := String (Zbyte 0) "".
Definition DeterministicID (sessionKey content : string) : string :=
  "mem-" +:+ hexBytes (stake 16 (Sum256 (sessionKey +:+ nul +:+ content))).
Definition ScopedRecordID (ns : Namespace) (externalID : string) : string :=
  match NormalizeNamespace ns with
  | inl _ => ""
  | inr ns => "rec-" +:+ hexBytes (stake 16 (Sum256 (Key ns +:+ nul +:+ TrimSpace externalID)))
  end.

(** ** Queries *)

(** [EXISTS(SELECT 1 FROM memory_outbox WHERE record_id=? AND state IN (queued, running))]. *)
Definition recordPending (outbox : gmap (string * string) Row) (id : string) : bool :=
  existsb (λ kr, String.eqb (rw_Record kr.2) id && pending kr.2) (map_to_list outbox).

Definition countJobs (outbox : gmap (string * string) Row) : Z := msum (λ _ r, if pending r then 1 else 0) outbox.
Definition sumBytes (records : gmap string Rec) (outbox : gmap (string * string) Row) : Z :=
  msum (λ id r, if recordPending outbox id then LENGTH (rc_Content r) else 0) records.

Definition with_counters (jobs bytes : Z) (db : DB) : DB :=
  mkDB (db_records db) (db_outbox db) (db_receipts db) jobs bytes.
Definition with_outbox (outbox : gmap (string * string) Row) (db : DB) : DB :=
  mkDB (db_records db) outbox (db_receipts db) (db_jobs db) (db_bytes db).

(** The statement that rebuilds both counters. *)
Definition rebuildCounters (db : DB) : DB :=
  with_counters (countJobs (db_outbox db)) (sumBytes (db_records db) (db_outbox db)) db.

(** ** Open *)

Definition positiveOr (n d : Z) : Z := if n <=? 0 then d else n.

Definition openStore (ns : Namespace) (maxPending maxPendingBytes maxContentBytes maxDiskBytes maxAttempts lease : Z)
    (projections : list string) : FabricError + Store :=
  let ns := if String.eqb (ns_Scope ns) "" && String.eqb (ns_Owner ns) "" then mkNamespace ScopeProject "default" else ns in
  ns ←? NormalizeNamespace ns;
  inr (mkStore ns (positiveOr maxPending defaultMaxPending) (positiveOr maxPendingBytes defaultMaxPendingBytes)
         (positiveOr maxContentBytes defaultMaxContentBytes) (positiveOr maxDiskBytes defaultMaxDiskBytes)
         (positiveOr maxAttempts defaultMaxAttempts) (positiveOr lease defaultLease)
         (match projections with [] => ["graph"; "obsidian"] | _ => projections end)).

(** [TRIM(x)='']: SQLite's TRIM takes spaces off. *)
Definition blank (s : string) : bool := forallb (λ c, byteZ c =? 32) (String.list_ascii_of_string s).

Definition backfill (r : Rec) : Rec :=
  mkRec (rc_Session r) (if blank (rc_Scope r) then ScopeProject else rc_Scope r)
    (if blank (rc_Owner r) then LegacyUnassignedOwner else rc_Owner r) (rc_Content r) (rc_Hash r) (rc_Created r).

(** What [Open] does to an existing database. *)
Definition openDB (db : DB) : DB :=
  rebuildCounters (mkDB (backfill <$> db_records db) (db_outbox db) (db_receipts db) (db_jobs db) (db_bytes db)).

(** ** AppendTurn *)

Definition sameRecord (sessionKey : string) (ns : Namespace) (hash : string) (r : Rec) : bool :=
  String.eqb (rc_Session r) sessionKey && String.eqb (rc_Scope r) (ns_Scope ns) && String.eqb (rc_Owner r) (ns_Owner ns)
  && String.eqb (rc_Hash r) hash.

(** The id to write under and whether the record exists; a record from before
    namespaces is found under its external id. *)
Definition resolveRecord (db : DB) (externalID sessionKey : string) (ns : Namespace) (hash : string)
    : FabricError + (string * bool) :=
  let recordID := ScopedRecordID ns externalID in
  match db_records db !! recordID with
  | Some r => if sameRecord sessionKey ns hash r then inr (recordID, true) else inl (ErrRecordConflict recordID)
  | None =>
      if negb (String.eqb externalID recordID) then
        match db_records db !! externalID with
        | Some r =>
            if String.eqb (rc_Scope r) (ns_Scope ns) && String.eqb (rc_Owner r) (ns_Owner ns) then
              if negb (String.eqb (rc_Session r) sessionKey) || negb (String.eqb (rc_Hash r) hash)
              then inl (ErrRecordConflict externalID) else inr (externalID, true)
            else inr (recordID, false)
        | None => inr (recordID, false)
        end
      else inr (recordID, false)
  end.

(** The disk check and the insertion of a new record; [disk] is what [diskUsage]
    answers. *)
Definition insertRecord (s : Store) (db : DB) (id sessionKey : string) (ns : Namespace) (content hash : string) (now : Z)
    (disk : option Z) : FabricError + DB :=
  _ ←? (if 0 <? s_maxDiskBytes s then
          match disk with
          | None => inl ErrDiskUsage
          | Some used => guard_err (s_maxDiskBytes s <? used + Z.of_nat (slen content) + 64 * 1024) (ErrDiskBudget (s_maxDiskBytes s))
          end
        else inr ());
  inr (mkDB (<[id := mkRec sessionKey (ns_Scope ns) (ns_Owner ns) content hash now]> (db_records db)) (db_outbox db)
         (db_receipts db) (db_jobs db) (db_bytes db)).

Definition newRow (id : string) (created now : Z) : Row := mkRow id stateQueued 0 0 0 "" created now.

(** [INSERT OR IGNORE INTO memory_outbox]. *)
Definition insertIgnore (key : string * string) (r : Row) (outbox : gmap (string * string) Row) : gmap (string * string) Row :=
  match outbox !! key with Some _ => outbox | None => <[key := r]> outbox end.

Definition missing (outbox : gmap (string * string) Row) (id : string) (projections : list string) : Z :=
  Z.of_nat (length (List.filter (λ p, bool_decide (outbox !! (id, p) = None)) projections)).

Definition enqueue (id : string) (now : Z) (projections : list string) (outbox : gmap (string * string) Row)
    : gmap (string * string) Row :=
  foldl (λ outbox p, insertIgnore (id, p) (newRow id now now) outbox) outbox projections.

Definition enqueueJobs (s : Store) (db : DB) (id content : string) (now : Z) : FabricError + DB :=
  let missingJobs := missing (db_outbox db) id (s_projections s) in
  _ ←? guard_err (s_maxPending s <? db_jobs db + missingJobs) (ErrJobCapacity (s_maxPending s));
  let isPending := recordPending (db_outbox db) id in
  _ ←? guard_err ((0 <? missingJobs) && negb isPending && (s_maxPendingBytes s <? db_bytes db + Z.of_nat (slen content)))
         (ErrByteBudget (s_maxPendingBytes s));
  let db' := with_outbox (enqueue id now (s_projections s) (db_outbox db)) db in
  inr (if 0 <? missingJobs then
         with_counters (db_jobs db + missingJobs) (db_bytes db + (if isPending then 0 else Z.of_nat (slen content))) db'
       else db').

Definition AppendTurnScoped (s : Store) (db : DB) (recordID sessionKey : string) (ns : Namespace) (content : string) (now : Z)
    (disk : option Z) : FabricError + DB :=
  ns ←? NormalizeNamespace ns;
  let externalID := TrimSpace recordID in
  let externalID := if String.eqb externalID "" then DeterministicID sessionKey content else externalID in
  _ ←? guard_err (String.eqb (TrimSpace sessionKey) "") ErrSessionEmpty;
  _ ←? guard_err (String.eqb (TrimSpace content) "") ErrContentEmpty;
  _ ←? guard_err ((0 <? s_maxContentBytes s) && (s_maxContentBytes s <? Z.of_nat (slen content))) (ErrContentLimit (s_maxContentBytes s));
  let hash := Sum256 content in
  found ←? resolveRecord db externalID sessionKey ns hash;
  db ←? (if found.2 then inr db else insertRecord s db found.1 sessionKey ns content hash now disk);
  enqueueJobs s db found.1 content now.

(** ** Claim *)

Definition eligible (projection : string) (now : Z) (kr : (string * string) * Row) : bool :=
  String.eqb kr.1.2 projection
  && ((bool_decide (rw_State kr.2 = stateQueued) && (rw_Next kr.2 <=? now))
      || (bool_decide (rw_State kr.2 = stateRunning) && (rw_Lease kr.2 <=? now))).

(** [ORDER BY created_at,job_id]. *)
Definition earlier (a b : (string * string) * Row) : bool :=
  if rw_Created a.2 =? rw_Created b.2 then String.leb a.1.1 b.1.1 else rw_Created a.2 <? rw_Created b.2.

Definition firstOf (l : list ((string * string) * Row)) : option ((string * string) * Row) :=
  foldr (λ x acc, match acc with None => Some x | Some y => Some (if earlier x y then x else y) end) None l.

Definition jobOf (key : string * string) (r : Row) (rc : Rec) : Job :=
  mkJob key.1 key.2 (rw_Record r) (rc_Session rc) (rc_Scope rc) (rc_Owner rc) (rc_Content rc) (rw_Attempts r) (rw_Created r).

Definition Claim (s : Store) (db : DB) (projection : string) (now : Z) : FabricError + option (Job * DB) :=
  _ ←? guard_err (String.eqb projection "") ErrProjectionEmpty;
  match firstOf (List.filter (eligible projection now) (map_to_list (db_outbox db))) with
  | None => inr None
  | Some (key, r) =>
      let r := with_state stateRunning (rw_Attempts r + 1) (now + s_lease s) (rw_Next r) (rw_Error r) now r in
      match db_records db !! rw_Record r with
      | None => inl ErrNoRows
      | Some rc => inr (Some (jobOf key r rc, with_outbox (<[key := r]> (db_outbox db)) db))
      end
  end.

(** ** Ack and Retry *)

Definition decrementPendingCounter (recordID : string) (contentBytes : Z) (db : DB) : DB :=
  let byteDelta := if recordPending (db_outbox db) recordID then 0 else contentBytes in
  with_counters (if 0 <? db_jobs db then db_jobs db - 1 else 0) (if byteDelta <? db_bytes db then db_bytes db - byteDelta else 0) db.

(** A job that is not pending, or has no record, is left alone. *)
Definition Ack (db : DB) (projection jobID : string) (now : Z) : DB :=
  match db_outbox db !! (jobID, projection) with
  | Some r =>
      match db_records db !! rw_Record r with
      | Some rc =>
          if pending r then
            let db := with_outbox (<[(jobID, projection) := with_state stateSucceeded (rw_Attempts r) 0 (rw_Next r) "" now r]> (db_outbox db)) db in
            let db := decrementPendingCounter (rw_Record r) (LENGTH (rc_Content rc)) db in
            mkDB (db_records db) (db_outbox db) ({[(projection, rw_Record r)]} ∪ db_receipts db) (db_jobs db) (db_bytes db)
          else db
      | None => db
      end
  | None => db
  end.

Definition retryDelaySeconds (attempt : Z) : Z :=
  if attempt <=? 1 then 1 else if attempt =? 2 then 5 else if attempt =? 3 then 30 else 120.

Definition Retry (s : Store) (db : DB) (projection jobID cause : string) (now : Z) : DB :=
  match db_outbox db !! (jobID, projection) with
  | Some r =>
      match db_records db !! rw_Record r with
      | Some rc =>
          if negb (pending r) then db else
          if s_maxAttempts s <=? rw_Attempts r then
            decrementPendingCounter (rw_Record r) (LENGTH (rc_Content rc))
              (with_outbox (<[(jobID, projection) := with_state stateDead (rw_Attempts r) 0 (rw_Next r) cause now r]> (db_outbox db)) db)
          else
            with_outbox (<[(jobID, projection) :=
              with_state stateQueued (rw_Attempts r) 0 (now + retryDelaySeconds (rw_Attempts r) * 1000) cause now r]> (db_outbox db)) db
      | None => db
      end
  | None => db
  end.

(** ** Administration *)

Definition seedProjection (projection : string) (now : Z) (db : DB) : gmap (string * string) Row :=
  map_fold (λ id rc outbox, insertIgnore (id, projection) (newRow id (rc_Created rc) now) outbox) (db_outbox db) (db_records db).

Definition requeue (projection : string) (now : Z) (key : string * string) (r : Row) : Row :=
  if String.eqb key.2 projection then with_state stateQueued 0 0 0 "" now r else r.

Definition RequeueProjection (db : DB) (projection : string) (now : Z) : FabricError + DB :=
  _ ←? guard_err (String.eqb (TrimSpace projection) "") ErrProjectionEmpty;
  inr (rebuildCounters
         (mkDB (db_records db) (map_imap (λ key r, Some (requeue projection now key r)) (seedProjection projection now db))
            (filter (λ pr, pr.1 ≠ projection) (db_receipts db)) (db_jobs db) (db_bytes db))).

Definition RetryDead (s : Store) (db : DB) (projection jobID : string) (now : Z) : FabricError + DB :=
  let projection := TrimSpace projection in
  let jobID := TrimSpace jobID in
  _ ←? guard_err (String.eqb projection "" || String.eqb jobID "") ErrJobRequired;
  match db_outbox db !! (jobID, projection) with
  | Some r =>
      match db_records db !! rw_Record r with
      | Some rc =>
          _ ←? guard_err (negb (bool_decide (rw_State r = stateDead))) (ErrNotDead projection jobID);
          let isPending := recordPending (db_outbox db) (rw_Record r) in
          let contentBytes := LENGTH (rc_Content rc) in
          _ ←? guard_err (s_maxPending s <? db_jobs db + 1) (ErrJobCapacity (s_maxPending s));
          _ ←? guard_err (negb isPending && (s_maxPendingBytes s <? db_bytes db + contentBytes)) (ErrByteBudget (s_maxPendingBytes s));
          inr (with_counters (db_jobs db + 1) (db_bytes db + (if isPending then 0 else contentBytes))
                 (with_outbox (<[(jobID, projection) := with_state stateQueued 0 0 0 "" now r]> (db_outbox db)) db))
      | None => inl ErrNoRows
      end
  | None => inl ErrNoRows
  end.

Definition quarantine (owner : string) (before : Z) (r : Rec) : Rec :=
  if String.eqb (rc_Scope r) ScopeProject && String.eqb (rc_Owner r) owner && (rc_Created r <=? before)
  then mkRec (rc_Session r) (rc_Scope r) LegacyUnassignedOwner (rc_Content r) (rc_Hash r) (rc_Created r) else r.

(** [before] is [None] for the zero time. *)
Definition QuarantineLegacyProjectRecords (db : DB) (owner : string) (before : option Z) : DB :=
  let owner := TrimSpace owner in
  match before with
  | Some before =>
      if String.eqb owner "" then db
      else mkDB (quarantine owner before <$> db_records db) (db_outbox db) (db_receipts db) (db_jobs db) (db_bytes db)
  | None => db
  end.

(** ** Stats *)

Record StatsOf := mkStats
  { st_Pending : Z; st_PendingBytes : Z; st_Running : Z; st_Succeeded : Z; st_Dead : Z; st_OldestAgeSecs : Z }.

(** [SELECT COUNT ... WHERE state=?] and [SELECT MIN(created_at)] of the pending. *)
Definition countState (st : jobState) (outbox : gmap (string * string) Row) : Z :=
  msum (λ _ r, if bool_decide (rw_State r = st) then 1 else 0) outbox.
Definition oldestPending (outbox : gmap (string * string) Row) : option Z :=
  foldr (λ kr acc, if pending kr.2 then Some (match acc with Some t => Z.min (rw_Created kr.2) t | None => rw_Created kr.2 end) else acc)
    None (map_to_list outbox).

Definition Stats (db : DB) (now : Z) : StatsOf :=
  let running := countState stateRunning (db_outbox db) in
  let pendings := db_jobs db - running in
  mkStats (if pendings <? 0 then 0 else pendings) (db_bytes db) running
    (countState stateSucceeded (db_outbox db)) (countState stateDead (db_outbox db))
    (match oldestPending (db_outbox db) with
     | Some oldest => let age := Z.quot (now - oldest) 1000 in if age <? 0 then 0 else age
     | None => 0
     end).

(** ** Pruning: a query, and later a transaction that deletes what it found *)

Definition jobsOf (outbox : gmap (string * string) Row) (id : string) : list Row :=
  List.filter (λ r, String.eqb (rw_Record r) id) (map snd (map_to_list outbox)).

Definition prunable (db : DB) (before : Z) (ns : option Namespace) (id : string) (r : Rec) : bool :=
  (rc_Created r <? before)
  && match jobsOf (db_outbox db) id with [] => false | js => forallb (λ j, bool_decide (rw_State j = stateSucceeded)) js end
  && match ns with Some ns => String.eqb (rc_Scope r) (ns_Scope ns) && String.eqb (rc_Owner r) (ns_Owner ns) | None => true end.

(** [ORDER BY r.created_at LIMIT ?]. *)
Definition pruneSelect (db : DB) (before : option Z) (ns : option Namespace) (maxRecords : Z) : FabricError + list string :=
  match before with
  | None => inl ErrCutoffRequired
  | Some before =>
      ns ←? match ns with None => inr None | Some ns => n ←? NormalizeNamespace ns; inr (Some n) end;
      let maxRecords := if maxRecords <=? 0 then 1000 else maxRecords in
      let maxRecords := if 10000 <? maxRecords then 10000 else maxRecords in
      let rows := List.filter (λ kr, prunable db before ns kr.1 kr.2) (map_to_list (db_records db)) in
      inr (take (Z.to_nat maxRecords) (map snd (sort_by (λ x y, x.1 <=? y.1) (map (λ kr, (rc_Created kr.2, kr.1)) rows))))
  end.

(** [DELETE FROM memory_records] with [ON DELETE CASCADE]. *)
Definition deleteRecord (db : DB) (id : string) : DB :=
  mkDB (delete id (db_records db)) (filter (λ kr, rw_Record kr.2 ≠ id) (db_outbox db)) (db_receipts db) (db_jobs db) (db_bytes db).
Definition pruneDelete (db : DB) (ids : list string) : DB := foldl deleteRecord db ids.
End Fabric.
