(* ===== verification/FabricFacts.v ===== *)
(** * The shared memory store keeps its promises

    The transactions of MemoryFabric.v as operations on one database, in any order:
    the two queue counters never count too little, and are exact for text of
    single-byte characters when no prune races with a requeue; a turn is stored whole or not at all, a pending
    job ends only as done, dead or pruned, and a lease keeps other workers away. *)

From S2P Require Import Prelude GoText GoLib GoFmt Provider MemoryFabric.

Open Scope string_scope.
Open Scope list_scope.
Open Scope Z_scope.

(** ** The order of the outbox *)

Lemma earlier_trans a b c : earlier a b = true → earlier b c = true → earlier a c = true.
Proof.
  unfold earlier. destruct (Z.eqb_spec (rw_Created a.2) (rw_Created b.2)), (Z.eqb_spec (rw_Created b.2) (rw_Created c.2)),
    (Z.eqb_spec (rw_Created a.2) (rw_Created c.2)); rewrite ?Z.ltb_lt; try lia; eauto using String_leb_trans.
Qed.

Lemma earlier_total a b : earlier a b = true ∨ earlier b a = true.
Proof.
  unfold earlier. destruct (Z.eqb_spec (rw_Created a.2) (rw_Created b.2)) as [E1|E1],
    (Z.eqb_spec (rw_Created b.2) (rw_Created a.2)); rewrite ?Z.ltb_lt; try lia. apply String.leb_total.
Qed.

Lemma earlier_refl a : earlier a a = true.
Proof. destruct (earlier_total a a); done. Qed.

Lemma firstOf_none l : firstOf l = None ↔ l = [].
Proof. destruct l as [|x l]; cbn; [done|]. split; [|done]. by destruct (foldr _ None l). Qed.

Lemma firstOf_some l x : firstOf l = Some x → x ∈ l ∧ ∀ y, y ∈ l → earlier x y = true.
Proof.
  revert x. induction l as [|a l IH]; intros x; [done|]. change (firstOf (a :: l)) with
    (match firstOf l with None => Some a | Some y => Some (if earlier a y then a else y) end).
  destruct (firstOf l) as [b|] eqn:E.
  - destruct (IH b eq_refl) as [Hin Hmin]. intros [= <-]. destruct (earlier a b) eqn:Eab.
    + split; [left|]. intros y [->|Hy]%elem_of_cons; [apply earlier_refl|]. eauto using earlier_trans.
    + split; [by right|]. intros y [->|Hy]%elem_of_cons; [|auto]. destruct (earlier_total a b); congruence.
  - apply firstOf_none in E as ->. intros [= <-]. split; [left|]. intros y ->%list_elem_of_singleton. apply earlier_refl.
Qed.

(** Sums of smaller parts, or of fewer. *)
Lemma msum_le `{Countable K} {V} (f g : K → V → Z) (m : gmap K V) :
  (∀ k v, m !! k = Some v → f k v ≤ g k v) → msum f m ≤ msum g m.
Proof.
  induction m as [|k v m Hk IH] using map_ind; [done|]. intros Hfg. rewrite !msum_insert by done.
  specialize (Hfg k v (lookup_insert_eq _ _ _)) as H1. assert (msum f m ≤ msum g m); [|lia]. apply IH.
  intros k' v' Hk'. apply Hfg. rewrite lookup_insert_ne; [done|congruence].
Qed.

Lemma msum_filter_le `{Countable K} {V} (f : K → V → Z) (P : K * V → Prop) `{!∀ x, Decision (P x)} (m : gmap K V) :
  (∀ k v, m !! k = Some v → 0 ≤ f k v) → msum f (filter P m) ≤ msum f m.
Proof.
  induction m as [|k v m Hk IH] using map_ind; [done|]. intros Hf.
  specialize (Hf k v (lookup_insert_eq _ _ _)) as H1. assert (Hm : msum f (filter P m) ≤ msum f m).
  { apply IH. intros k' v' Hk'. apply Hf. rewrite lookup_insert_ne; [done|congruence]. }
  rewrite msum_insert by done. destruct (decide (P (k, v))).
  - rewrite map_filter_insert_True by done. rewrite msum_insert; [lia|]. apply map_lookup_filter_None. by left.
  - rewrite map_filter_insert_False, delete_id by done. lia.
Qed.

Section Counting.
Context (LENGTH : string → Z).
Implicit Types (outbox : gmap (string * string) Row) (records : gmap string Rec).

Definition pend1 (r : Row) : Z := if pending r then 1 else 0.

Lemma recordPending_spec outbox id :
  recordPending outbox id = true ↔ ∃ key r, outbox !! key = Some r ∧ rw_Record r = id ∧ pending r = true.
Proof.
  unfold recordPending. rewrite existsb_exists. split.
  - intros ([key r] & Hin%list_elem_of_In%elem_of_map_to_list & [?%String.eqb_eq ?]%andb_true_iff). eauto.
  - intros (key & r & Hr & He & Hp). exists (key, r). split; [by apply list_elem_of_In, elem_of_map_to_list|].
    cbn. by rewrite He, String.eqb_refl.
Qed.

Lemma recordPending_false outbox id :
  recordPending outbox id = false ↔ ∀ key r, outbox !! key = Some r → rw_Record r = id → pending r = false.
Proof.
  rewrite <- not_true_iff_false, recordPending_spec. split.
  - intros Hn key r Hr He. apply not_true_iff_false. intros Hp. apply Hn. eauto.
  - intros Hf (key & r & Hr & He & Hp). specialize (Hf key r Hr He). congruence.
Qed.

Lemma countJobs_update outbox key r r' :
  outbox !! key = Some r → countJobs (<[key := r']> outbox) = countJobs outbox - pend1 r + pend1 r'.
Proof. apply (msum_update (λ _ r, pend1 r)). Qed.

Lemma countJobs_insert outbox key r : outbox !! key = None → countJobs (<[key := r]> outbox) = pend1 r + countJobs outbox.
Proof. apply (msum_insert (λ _ r, pend1 r)). Qed.

(** A row of another record does not matter. *)
Lemma recordPending_other outbox key r id :
  (∀ r0, outbox !! key = Some r0 → rw_Record r0 ≠ id) → rw_Record r ≠ id →
  recordPending (<[key := r]> outbox) id = recordPending outbox id.
Proof.
  intros Hold Hne. apply eq_true_iff_eq. rewrite !recordPending_spec.
  split; intros (k & x & Hx & He & Hp); exists k, x; split_and!; try done.
  - destruct (decide (k = key)) as [->|]; [rewrite lookup_insert_eq in Hx; congruence|]. by rewrite lookup_insert_ne in Hx.
  - destruct (decide (k = key)) as [->|]; [by destruct (Hold x Hx)|]. by rewrite lookup_insert_ne.
Qed.

Definition bytesIf (b : bool) (rc : Rec) : Z := if b then LENGTH (rc_Content rc) else 0.

(** The bytes when only one record may have changed its standing. *)
Lemma sumBytes_change records outbox outbox' id rc :
  records !! id = Some rc → (∀ id', id' ≠ id → recordPending outbox' id' = recordPending outbox id') →
  sumBytes LENGTH records outbox' = sumBytes LENGTH records outbox - bytesIf (recordPending outbox id) rc + bytesIf (recordPending outbox' id) rc.
Proof.
  intros Hrc Hsame. apply (msum_ext_at (λ id, bytesIf (recordPending outbox id)) (λ id, bytesIf (recordPending outbox' id)) _ id rc Hrc).
  intros id' v Hne _. by rewrite Hsame.
Qed.

Lemma sumBytes_same records outbox outbox' :
  (∀ id, recordPending outbox' id = recordPending outbox id) → sumBytes LENGTH records outbox' = sumBytes LENGTH records outbox.
Proof. intros Hsame. apply msum_ext. intros id v _. by rewrite Hsame. Qed.
End Counting.

(** ** Transactions in sequence *)

Section Store.
Context `{CaseTable} (Sum256 : string → string) (LENGTH : string → Z) (s : Store).
Implicit Types (exact : bool).

Inductive Op :=
  | OAppend (recordID sessionKey : string) (ns : Namespace) (content : string) (now : Z) (disk : option Z)
  | OClaim (projection : string) (now : Z)
  | OAck (projection jobID : string) (now : Z)
  | ORetry (projection jobID cause : string) (now : Z)
  | ORequeue (projection : string) (now : Z)
  | ORetryDead (projection jobID : string) (now : Z)
  | OQuarantine (owner : string) (before : option Z)
  | OPrune (ids : list string)
  | OReopen.

Definition orElse (db : DB) (r : FabricError + DB) : DB := match r with inr db' => db' | inl _ => db end.

(** What is committed; a transaction that fails is rolled back. *)
Definition apply_op (op : Op) (db : DB) : DB :=
  match op with
  | OAppend id sk ns c now disk => orElse db (AppendTurnScoped Sum256 s db id sk ns c now disk)
  | OClaim p now => match Claim s db p now with inr (Some (_, db')) => db' | _ => db end
  | OAck p id now => Ack LENGTH db p id now
  | ORetry p id cause now => Retry LENGTH s db p id cause now
  | ORequeue p now => orElse db (RequeueProjection LENGTH db p now)
  | ORetryDead p id now => orElse db (RetryDead LENGTH s db p id now)
  | OQuarantine owner before => QuarantineLegacyProjectRecords db owner before
  | OPrune ids => pruneDelete db ids
  | OReopen => openDB LENGTH db
  end.

Definition emptyDB : DB := mkDB ∅ ∅ ∅ 0 0.

(** LENGTH as SQLite documents it: characters, of which a text has at most as many as
    bytes. *)
Definition lengthDoc : Prop := ∀ c, 0 ≤ LENGTH c ≤ Z.of_nat (slen c).

(** [exact]: equal, otherwise at most. *)
Definition within (exact : bool) (a b : Z) : Prop := if exact then a = b else a ≤ b.

(** What is asked of an operation: a turn has no SHA-256 collision with a stored one;
    and for exact counters also that the characters of its text are single bytes, and
    that a prune finds its records as the query left them. *)
Definition regular (exact : bool) (db : DB) (op : Op) : Prop :=
  match op with
  | OAppend _ _ _ content _ _ =>
      (exact = true → LENGTH content = Z.of_nat (slen content))
      ∧ ∀ id rc, db_records db !! id = Some rc → Sum256 (rc_Content rc) = Sum256 content → rc_Content rc = content
  | OPrune ids => exact = true → Forall (λ id, recordPending (db_outbox db) id = false) ids
  | _ => True
  end.

Inductive reached (exact : bool) : DB → Prop :=
  | reached_empty : reached exact emptyDB
  | reached_op db op : reached exact db → regular exact db op → reached exact (apply_op op db).

Lemma regular_weaken db op : regular true db op → regular false db op.
Proof. destruct op; cbn; try done. intros [_ ?]. by split. Qed.

Lemma reached_weaken db : reached true db → reached false db.
Proof. induction 1; constructor; auto using regular_weaken. Qed.

Record Inv (exact : bool) (db : DB) : Prop := mkInv
  { inv_rows : ∀ key r, db_outbox db !! key = Some r → key.1 = rw_Record r ∧ is_Some (db_records db !! rw_Record r);
    inv_recs : ∀ id rc, db_records db !! id = Some rc →
      0 ≤ LENGTH (rc_Content rc) ∧ within exact (LENGTH (rc_Content rc)) (Z.of_nat (slen (rc_Content rc))) ∧ rc_Hash rc = Sum256 (rc_Content rc);
    inv_jobs : within exact (countJobs (db_outbox db)) (db_jobs db);
    inv_bytes : within exact (sumBytes LENGTH (db_records db) (db_outbox db)) (db_bytes db) }.

Lemma within_move exact a b a' b' : within exact a b → a' - a ≤ b' - b → (exact = true → a' - a = b' - b) → within exact a' b'.
Proof. destruct exact; cbn; [intros -> _ Hx; specialize (Hx eq_refl)|intros ? ? _]; lia. Qed.

Lemma within_le exact a b : within exact a b → a ≤ b.
Proof. destruct exact; cbn; lia. Qed.

Lemma within_refl exact a : within exact a a.
Proof. destruct exact; cbn; lia. Qed.

Lemma recordPending_at outbox key r : outbox !! key = Some r → pending r = true → recordPending outbox (rw_Record r) = true.
Proof. intros Hr Hp. apply recordPending_spec. eauto. Qed.

Lemma countJobs_nonneg outbox : 0 ≤ countJobs outbox.
Proof. apply msum_nonneg. intros _ r _. destruct (pending r); lia. Qed.

Lemma sumBytes_nonneg exact db outbox : Inv exact db → 0 ≤ sumBytes LENGTH (db_records db) outbox.
Proof. intros Hi. apply msum_nonneg. intros id rc Hrc. pose proof (proj1 (inv_recs _ _ Hi id rc Hrc)). destruct (recordPending _ _); lia. Qed.

(** A row changes its state; the counters must follow. *)
Lemma Inv_setRow exact db key r r' rc receipts jobs bytes :
  Inv exact db → db_outbox db !! key = Some r → db_records db !! rw_Record r = Some rc → rw_Record r' = rw_Record r →
  jobs = db_jobs db - pend1 r + pend1 r' →
  bytes = db_bytes db - bytesIf LENGTH (recordPending (db_outbox db) (rw_Record r)) rc
          + bytesIf LENGTH (recordPending (<[key := r']> (db_outbox db)) (rw_Record r)) rc →
  Inv exact (mkDB (db_records db) (<[key := r']> (db_outbox db)) receipts jobs bytes).
Proof.
  intros Hi Hr Hrc He -> ->. split; cbn [db_outbox db_records db_jobs db_bytes].
  - intros k x Hx. destruct (decide (k = key)) as [->|].
    + rewrite lookup_insert_eq in Hx. simplify_eq. rewrite He. apply (inv_rows _ _ Hi key r Hr).
    + rewrite lookup_insert_ne in Hx by done. apply (inv_rows _ _ Hi k x Hx).
  - apply (inv_recs _ _ Hi).
  - pose proof (countJobs_update _ key r r' Hr). eapply within_move; [apply (inv_jobs _ _ Hi)|intros; lia..].
  - assert (Hb := sumBytes_change LENGTH (db_records db) (db_outbox db) (<[key := r']> (db_outbox db)) _ rc Hrc).
    eapply within_move; [apply (inv_bytes _ _ Hi)|intros; rewrite Hb; [lia|]..]; intros id' Hne;
      (apply recordPending_other; [|congruence]); intros r0 Hr0; congruence.
Qed.

(** A pending row stays pending. *)
Lemma Inv_stay exact db key r r' :
  Inv exact db → db_outbox db !! key = Some r → rw_Record r' = rw_Record r → pending r = true → pending r' = true →
  Inv exact (with_outbox (<[key := r']> (db_outbox db)) db).
Proof.
  intros Hi Hr He Hp Hp'. destruct (proj2 (inv_rows _ _ Hi key r Hr)) as [rc Hrc].
  eapply Inv_setRow; [done..| |].
  - unfold pend1. rewrite Hp, Hp'. lia.
  - rewrite (recordPending_at _ key r Hr Hp), <- He, (recordPending_at _ key r'); [|apply lookup_insert_eq|done]. lia.
Qed.

(** A pending row leaves, and [decrementPendingCounter] takes it off. *)
Lemma Inv_leave exact db key r r' rc :
  Inv exact db → db_outbox db !! key = Some r → db_records db !! rw_Record r = Some rc → rw_Record r' = rw_Record r →
  pending r = true → pending r' = false →
  Inv exact (decrementPendingCounter (rw_Record r) (LENGTH (rc_Content rc)) (with_outbox (<[key := r']> (db_outbox db)) db)).
Proof.
  intros Hi Hr Hrc He Hp Hp'. unfold decrementPendingCounter, with_counters, with_outbox.
  cbn [db_outbox db_records db_jobs db_bytes db_receipts].
  pose proof (countJobs_update _ key r r' Hr) as Hc. pose proof (countJobs_nonneg (<[key := r']> (db_outbox db))) as Hc0.
  pose proof (sumBytes_nonneg exact db (<[key := r']> (db_outbox db)) Hi) as Hb0.
  assert (Hb : sumBytes LENGTH (db_records db) (<[key := r']> (db_outbox db))
    = sumBytes LENGTH (db_records db) (db_outbox db) - LENGTH (rc_Content rc) + bytesIf LENGTH (recordPending (<[key := r']> (db_outbox db)) (rw_Record r)) rc).
  { rewrite (sumBytes_change LENGTH _ (db_outbox db) _ (rw_Record r) rc Hrc).
    - by rewrite (recordPending_at _ key r Hr Hp).
    - intros id' Hne. apply recordPending_other; [|congruence]. intros r0 Hr0. congruence. }
  unfold pend1 in Hc. rewrite Hp, Hp' in Hc. pose proof (within_le _ _ _ (inv_jobs _ _ Hi)).
  pose proof (within_le _ _ _ (inv_bytes _ _ Hi)). pose proof (proj1 (inv_recs _ _ Hi _ rc Hrc)).
  eapply Inv_setRow; [done..| |].
  - unfold pend1. rewrite Hp, Hp'. destruct (Z.ltb_spec 0 (db_jobs db)); lia.
  - rewrite (recordPending_at _ key r Hr Hp). unfold bytesIf in *.
    destruct (recordPending (<[key := r']> _) _); destruct (Z.ltb_spec (if true then 0 else 0) (db_bytes db));
      destruct (Z.ltb_spec (LENGTH (rc_Content rc)) (db_bytes db)); cbn [bytesIf] in *; lia.
Qed.

Lemma Inv_receipts exact db receipts : Inv exact db → Inv exact (mkDB (db_records db) (db_outbox db) receipts (db_jobs db) (db_bytes db)).
Proof. intros [? ? ? ?]. by split. Qed.

Lemma eligible_pending p now key r : eligible p now (key, r) = true → key.2 = p ∧ pending r = true.
Proof.
  unfold eligible, pending. cbn. intros [->%String.eqb_eq Hor]%andb_true_iff. split; [done|].
  apply orb_true_iff in Hor as [[-> _]%andb_true_iff|[-> _]%andb_true_iff]; [done|apply orb_true_r].
Qed.

(** What a successful claim did. *)
Lemma Claim_inv db p now job db' :
  Claim s db p now = inr (Some (job, db')) →
  ∃ key r rc, db_outbox db !! key = Some r ∧ eligible p now (key, r) = true ∧ db_records db !! rw_Record r = Some rc
    ∧ (∀ key' r', db_outbox db !! key' = Some r' → eligible p now (key', r') = true → earlier (key, r) (key', r') = true)
    ∧ let r1 := with_state stateRunning (rw_Attempts r + 1) (now + s_lease s) (rw_Next r) (rw_Error r) now r in
      job = jobOf key r1 rc ∧ db' = with_outbox (<[key := r1]> (db_outbox db)) db.
Proof.
  unfold Claim. intros (u & _ & Hm)%rbind_inr. destruct (firstOf _) as [[key r]|] eqn:E; [|done].
  apply firstOf_some in E as [Hin Hmin]. destruct (db_records db !! _) as [rc|] eqn:Erc; [|done]. simplify_eq.
  apply list_elem_of_In, filter_In in Hin as [Hin%list_elem_of_In%elem_of_map_to_list Hel].
  exists key, r, rc. split_and!; try done. intros key' r' Hr' Hel'. apply Hmin.
  apply list_elem_of_In, filter_In. split; [by apply list_elem_of_In, elem_of_map_to_list|done].
Qed.

Lemma Inv_Claim exact db p now job db' : Inv exact db → Claim s db p now = inr (Some (job, db')) → Inv exact db'.
Proof.
  intros Hi (key & r & rc & Hr & Hel & Hrc & _ & _ & ->)%Claim_inv. apply eligible_pending in Hel as [_ Hp].
  by eapply Inv_stay.
Qed.

Lemma Inv_Ack exact db p id now : Inv exact db → Inv exact (Ack LENGTH db p id now).
Proof.
  intros Hi. unfold Ack. destruct (db_outbox db !! (id, p)) as [r|] eqn:Hr; [|done].
  destruct (db_records db !! rw_Record r) as [rc|] eqn:Hrc; [|done]. destruct (pending r) eqn:Hp; [|done].
  apply Inv_receipts. by apply Inv_leave.
Qed.

Lemma Inv_Retry exact db p id cause now : Inv exact db → Inv exact (Retry LENGTH s db p id cause now).
Proof.
  intros Hi. unfold Retry. destruct (db_outbox db !! (id, p)) as [r|] eqn:Hr; [|done].
  destruct (db_records db !! rw_Record r) as [rc|] eqn:Hrc; [|done]. destruct (pending r) eqn:Hp; [|done]. cbn [negb].
  destruct (s_maxAttempts s <=? rw_Attempts r); [by apply Inv_leave|by eapply Inv_stay].
Qed.

Lemma Inv_RetryDead exact db p id now db' : Inv exact db → RetryDead LENGTH s db p id now = inr db' → Inv exact db'.
Proof.
  intros Hi. unfold RetryDead. intros (u & _ & Hm)%rbind_inr. destruct (db_outbox db !! _) as [r|] eqn:Hr; [|done].
  destruct (db_records db !! rw_Record r) as [rc|] eqn:Hrc; [|done].
  apply rbind_inr in Hm as (? & Hd%guard_inr & (? & _ & (? & _ & Hm)%rbind_inr)%rbind_inr). simplify_eq.
  apply negb_false_iff, bool_decide_eq_true in Hd.
  assert (Hp : pending r = false) by (unfold pending; by rewrite Hd).
  unfold with_counters, with_outbox. cbn [db_outbox db_records db_jobs db_bytes db_receipts]. eapply Inv_setRow; [done..| |].
  - unfold pend1. rewrite Hp. change (pending (with_state stateQueued 0 0 0 "" now r)) with true. cbn beta iota. lia.
  - assert (Hnew : recordPending (<[(TrimSpace id, TrimSpace p) := with_state stateQueued 0 0 0 "" now r]> (db_outbox db)) (rw_Record r) = true).
    { eapply (recordPending_at _ _ (with_state stateQueued 0 0 0 "" now r)); [apply lookup_insert_eq|done]. }
    rewrite Hnew. unfold bytesIf. destruct (recordPending (db_outbox db) _); lia.
Qed.

(** ** A turn is appended *)

Lemma insertIgnore_lookup outbox k r key :
  insertIgnore k r outbox !! key = match outbox !! key with Some x => Some x | None => if bool_decide (key = k) then Some r else None end.
Proof.
  unfold insertIgnore. destruct (decide (key = k)) as [->|Hne].
  - rewrite bool_decide_eq_true_2 by done. destruct (outbox !! k) eqn:E; [by rewrite E|by rewrite lookup_insert_eq].
  - rewrite bool_decide_eq_false_2 by done. destruct (outbox !! k); [|rewrite lookup_insert_ne by done]; by destruct (outbox !! key).
Qed.

Lemma enqueue_lookup id now ps outbox key :
  enqueue id now ps outbox !! key
  = match outbox !! key with
    | Some r => Some r
    | None => if bool_decide (key.1 = id ∧ key.2 ∈ ps) then Some (newRow id now now) else None
    end.
Proof.
  revert outbox. induction ps as [|p ps IH]; intros outbox.
  - cbn. rewrite bool_decide_eq_false_2 by (intros [_ ?%elem_of_nil]; done). by destruct (outbox !! key).
  - change (enqueue id now (p :: ps) outbox) with (enqueue id now ps (insertIgnore (id, p) (newRow id now now) outbox)).
    rewrite IH, insertIgnore_lookup. destruct (outbox !! key); [done|]. destruct key as [i q]. cbn [fst snd].
    repeat case_bool_decide; set_solver.
Qed.

Lemma missing_pos outbox id ps : 0 < missing outbox id ps ↔ ∃ p, p ∈ ps ∧ outbox !! (id, p) = None.
Proof.
  unfold missing. set (l := List.filter _ ps). split.
  - intros Hl. destruct l as [|p l'] eqn:E; [cbn in Hl; lia|]. exists p.
    assert (Hin : In p l) by (rewrite E; left; done). apply filter_In in Hin as [? ?%bool_decide_eq_true]. by rewrite list_elem_of_In.
  - intros (p & Hp & Hn). assert (Hin : In p l).
    { apply filter_In. split; [by apply list_elem_of_In|]. by apply bool_decide_eq_true. }
    destruct l; [done|cbn; lia].
Qed.

Lemma missing_nonneg outbox id ps : 0 ≤ missing outbox id ps.
Proof. unfold missing. lia. Qed.

Lemma countJobs_enqueue id now ps outbox : NoDup ps → countJobs (enqueue id now ps outbox) = countJobs outbox + missing outbox id ps.
Proof.
  intros Hnd. revert outbox. induction Hnd as [|p ps Hp Hnd IH]; intros outbox; [cbn; unfold missing; cbn; lia|].
  change (enqueue id now (p :: ps) outbox) with (enqueue id now ps (insertIgnore (id, p) (newRow id now now) outbox)).
  rewrite IH. unfold insertIgnore, missing. cbn [List.filter]. destruct (outbox !! (id, p)) eqn:E; [done|].
  rewrite countJobs_insert by done. rewrite (bool_decide_eq_true_2 (None = None)) by done. cbn [length].
  rewrite (filter_ext_in (λ q, bool_decide (<[(id, p) := newRow id now now]> outbox !! (id, q) = None)) (λ q, bool_decide (outbox !! (id, q) = None))).
  - change (pend1 (newRow id now now)) with 1. lia.
  - intros q Hq. rewrite lookup_insert_ne; [done|]. intros [= <-]. by apply Hp, list_elem_of_In.
Qed.

Lemma countJobs_enqueue_le id now ps outbox : countJobs (enqueue id now ps outbox) ≤ countJobs outbox + missing outbox id ps.
Proof.
  revert outbox. induction ps as [|p ps IH]; intros outbox; [cbn; unfold missing; cbn; lia|].
  change (enqueue id now (p :: ps) outbox) with (enqueue id now ps (insertIgnore (id, p) (newRow id now now) outbox)).
  etrans; [apply IH|]. unfold insertIgnore, missing. cbn [List.filter]. destruct (outbox !! (id, p)) eqn:E; [done|].
  rewrite countJobs_insert by done. rewrite (bool_decide_eq_true_2 (None = None)) by done. cbn [length].
  change (pend1 (newRow id now now)) with 1.
  assert (length (List.filter (λ q, bool_decide (<[(id, p) := newRow id now now]> outbox !! (id, q) = None)) ps)
    ≤ length (List.filter (λ q, bool_decide (outbox !! (id, q) = None)) ps))%nat; [|lia].
  clear. induction ps as [|q ps IH]; [done|]. cbn. destruct (decide ((id, p) = (id, q))) as [<-|Hne].
  - rewrite lookup_insert_eq. cbn. case_bool_decide; cbn; lia.
  - rewrite lookup_insert_ne by done. case_bool_decide; cbn; lia.
Qed.

Lemma recordPending_enqueue id now ps outbox id' :
  recordPending (enqueue id now ps outbox) id'
  = recordPending outbox id' || (String.eqb id' id && (0 <? missing outbox id ps)).
Proof.
  apply eq_true_iff_eq. rewrite orb_true_iff, andb_true_iff, String.eqb_eq, Z.ltb_lt, missing_pos, !recordPending_spec. split.
  - intros (key & r & Hr & He & Hp). rewrite enqueue_lookup in Hr. destruct (outbox !! key) as [r0|] eqn:E; [left; simplify_eq; eauto|].
    case_bool_decide as Hk; [|done]. destruct Hk as [<- Hin]. simplify_eq. right. split; [done|]. exists key.2. by destruct key.
  - intros [(key & r & Hr & He & Hp)|(-> & p & Hp & Hn)].
    + exists key, r. by rewrite enqueue_lookup, Hr.
    + exists (id, p), (newRow id now now). by rewrite enqueue_lookup, Hn, bool_decide_eq_true_2.
Qed.

Lemma Inv_enqueue exact db id rc now db' :
  (exact = true → NoDup (s_projections s)) → Inv exact db → db_records db !! id = Some rc →
  enqueueJobs s db id (rc_Content rc) now = inr db' → Inv exact db'.
Proof.
  intros Hnd Hi Hrc. unfold enqueueJobs. intros (? & _ & (? & _ & [= <-])%rbind_inr)%rbind_inr.
  set (ps := s_projections s) in *. set (out' := enqueue id now ps (db_outbox db)).
  pose proof (missing_nonneg (db_outbox db) id ps) as Hm0. destruct (inv_recs _ _ Hi id rc Hrc) as (Hlen0 & Hlen & _).
  assert (Hj : within exact (countJobs out') (db_jobs db + missing (db_outbox db) id ps)).
  { eapply within_move; [apply (inv_jobs _ _ Hi)| |].
    - pose proof (countJobs_enqueue_le id now ps (db_outbox db)). fold out' in H0. lia.
    - intros He. unfold out'. rewrite countJobs_enqueue by auto. lia. }
  assert (Hb := sumBytes_change LENGTH (db_records db) (db_outbox db) out' id rc Hrc).
  unfold out' in Hb at 3. rewrite recordPending_enqueue, String.eqb_refl in Hb. cbn [andb] in Hb.
  assert (Hsame : ∀ id', id' ≠ id → recordPending out' id' = recordPending (db_outbox db) id').
  { intros id' Hne. unfold out'. rewrite recordPending_enqueue. apply String.eqb_neq in Hne as ->. apply orb_false_r. }
  specialize (Hb Hsame). unfold bytesIf in Hb. pose proof (inv_bytes _ _ Hi) as Hbytes.
  assert (Hrows : ∀ key r, out' !! key = Some r → key.1 = rw_Record r ∧ is_Some (db_records db !! rw_Record r)).
  { intros key r. unfold out'. rewrite enqueue_lookup. destruct (db_outbox db !! key) as [r0|] eqn:E; [intros [= <-]; by apply (inv_rows _ _ Hi)|].
    case_bool_decide as Hk; [|done]. intros [= <-]. destruct Hk as [<- _]. cbn. by rewrite Hrc. }
  destruct (Z.ltb_spec 0 (missing (db_outbox db) id ps)); split; cbn [db_outbox db_records db_jobs db_bytes with_counters with_outbox];
    try done; try apply (inv_recs _ _ Hi); fold out'.
  - eapply within_move; [exact Hbytes|..]; rewrite Hb; destruct (recordPending (db_outbox db) id); cbn [orb];
      destruct exact; cbn in Hlen; intros; try done; lia.
  - replace (db_jobs db) with (db_jobs db + missing (db_outbox db) id ps) by lia. exact Hj.
  - eapply within_move; [exact Hbytes|..]; rewrite Hb; destruct (recordPending (db_outbox db) id); cbn [orb]; intros; lia.
Qed.

Lemma resolveRecord_spec db ext sk ns hash id found :
  resolveRecord Sum256 db ext sk ns hash = inr (id, found) →
  if found then ∃ rc, db_records db !! id = Some rc ∧ sameRecord sk ns hash rc = true
  else id = ScopedRecordID Sum256 ns ext ∧ db_records db !! id = None.
Proof.
  unfold resolveRecord. destruct (db_records db !! ScopedRecordID Sum256 ns ext) as [rc|] eqn:E.
  { destruct (sameRecord sk ns hash rc) eqn:Es; [|done]. intros [= <- <-]. eauto. }
  destruct (negb _); [|intros [= <- <-]; done].
  destruct (db_records db !! ext) as [rc|] eqn:El; [|intros [= <- <-]; done].
  destruct (String.eqb (rc_Scope rc) (ns_Scope ns) && String.eqb (rc_Owner rc) (ns_Owner ns)) eqn:Ens; [|intros [= <- <-]; done].
  destruct (negb _ || negb _) eqn:Eid; [done|]. intros [= <- <-]. exists rc. split; [done|].
  apply orb_false_iff in Eid as [Hs%negb_false_iff Hh%negb_false_iff]. apply andb_true_iff in Ens as [Hsc Ho].
  unfold sameRecord. by rewrite Hs, Hh, Hsc, Ho.
Qed.

Lemma Inv_fresh exact db id : Inv exact db → db_records db !! id = None → recordPending (db_outbox db) id = false.
Proof.
  intros Hi Hn. apply recordPending_false. intros key r Hr He. destruct (proj2 (inv_rows _ _ Hi key r Hr)) as [rc Hrc].
  rewrite He in Hrc. congruence.
Qed.

Lemma Inv_insertRecord exact db id sk ns content now disk db' :
  Inv exact db → db_records db !! id = None → 0 ≤ LENGTH content → within exact (LENGTH content) (Z.of_nat (slen content)) →
  insertRecord s db id sk ns content (Sum256 content) now disk = inr db' → Inv exact db'.
Proof.
  intros Hi Hn Hpos Hlen. unfold insertRecord. intros (? & _ & [= <-])%rbind_inr.
  split; cbn [db_outbox db_records db_jobs db_bytes].
  - intros key r Hr. destruct (inv_rows _ _ Hi key r Hr) as [Hk Hs]. split; [done|].
    rewrite lookup_insert_ne; [done|]. intros He. rewrite <- He in Hs. by apply (is_Some_None (A := Rec)); rewrite <- Hn.
  - intros id' rc [[<- <-]|[_ Hrc]]%lookup_insert_Some; [done|by apply (inv_recs _ _ Hi id')].
  - apply (inv_jobs _ _ Hi).
  - unfold sumBytes. rewrite msum_insert by done. erewrite Inv_fresh by done. apply (inv_bytes _ _ Hi).
Qed.

Lemma insertRecord_lookup db id sk ns content hash now disk db' :
  insertRecord s db id sk ns content hash now disk = inr db' →
  db_records db' = <[id := mkRec sk (ns_Scope ns) (ns_Owner ns) content hash now]> (db_records db)
  ∧ db_outbox db' = db_outbox db ∧ db_jobs db' = db_jobs db ∧ db_bytes db' = db_bytes db ∧ db_receipts db' = db_receipts db.
Proof. unfold insertRecord. by intros (? & _ & [= <-])%rbind_inr. Qed.

(** The whole of a successful append. *)
Lemma Append_inv db rid sk ns content now disk db' :
  AppendTurnScoped Sum256 s db rid sk ns content now disk = inr db' →
  ∃ ns' ext id found db1, NormalizeNamespace ns = inr ns' ∧ ext = (if String.eqb (TrimSpace rid) "" then DeterministicID Sum256 sk content else TrimSpace rid)
    ∧ resolveRecord Sum256 db ext sk ns' (Sum256 content) = inr (id, found)
    ∧ (if found then db1 = db else insertRecord s db id sk ns' content (Sum256 content) now disk = inr db1)
    ∧ enqueueJobs s db1 id content now = inr db'.
Proof.
  unfold AppendTurnScoped. intros (ns' & Hns & (? & _ & (? & _ & (? & _ & ([id found] & Hf & (db1 & Hd & He)%rbind_inr)%rbind_inr)%rbind_inr)%rbind_inr)%rbind_inr)%rbind_inr.
  exists ns'. eexists. exists id, found, db1. split_and!; try done. cbn [snd fst] in Hd. destruct found; congruence.
Qed.

Lemma Inv_Append exact db rid sk ns content now disk db' :
  (exact = true → NoDup (s_projections s)) → lengthDoc → Inv exact db → regular exact db (OAppend rid sk ns content now disk) →
  AppendTurnScoped Sum256 s db rid sk ns content now disk = inr db' → Inv exact db'.
Proof.
  intros Hnd Hdoc Hi [Hlen Hcol] (ns' & ext & id & found & db1 & _ & _ & Hf & Hd & He)%Append_inv. apply resolveRecord_spec in Hf.
  destruct found.
  - subst db1. destruct Hf as (rc & Hrc & Hs). assert (Hc : rc_Content rc = content).
    { unfold sameRecord in Hs. apply andb_true_iff in Hs as [_ Hh%String.eqb_eq]. apply (Hcol id rc Hrc).
      by rewrite <- (proj2 (proj2 (inv_recs _ _ Hi id rc Hrc))). }
    rewrite <- Hc in He. by eapply Inv_enqueue.
  - destruct Hf as [-> Hn]. assert (Hi1 : Inv exact db1).
    { eapply (Inv_insertRecord exact); [done..| | |done]; [apply Hdoc|]. destruct exact; [by apply Hlen|]. apply Hdoc. }
    apply insertRecord_lookup in Hd as (Hr & _). eapply (Inv_enqueue exact db1 _ (mkRec sk _ _ content _ now)); [done..| |done].
    rewrite Hr. apply lookup_insert_eq.
Qed.

(** ** Administration *)

Lemma Inv_rebuild exact records outbox receipts jobs bytes :
  (∀ key r, outbox !! key = Some r → key.1 = rw_Record r ∧ is_Some (records !! rw_Record r)) →
  (∀ id rc, records !! id = Some rc → 
     0 ≤ LENGTH (rc_Content rc) ∧ within exact (LENGTH (rc_Content rc)) (Z.of_nat (slen (rc_Content rc))) ∧ rc_Hash rc = Sum256 (rc_Content rc)) →
  Inv exact (rebuildCounters LENGTH (mkDB records outbox receipts jobs bytes)).
Proof. intros Hr Hc. split; [done..|apply within_refl|apply within_refl]. Qed.

(** Records may change their namespace and nothing else. *)
Lemma Inv_relabel exact (g : Rec → Rec) db :
  (∀ rc, rc_Content (g rc) = rc_Content rc ∧ rc_Hash (g rc) = rc_Hash rc) → Inv exact db →
  Inv exact (mkDB (g <$> db_records db) (db_outbox db) (db_receipts db) (db_jobs db) (db_bytes db)).
Proof.
  intros Hg Hi. split; cbn [db_outbox db_records db_jobs db_bytes].
  - intros key r Hr. destruct (inv_rows _ _ Hi key r Hr) as [? Hs]. by rewrite lookup_fmap, fmap_is_Some.
  - intros id rc. rewrite lookup_fmap, fmap_Some. intros (rc0 & Hrc & ->). destruct (Hg rc0) as [-> ->]. by apply (inv_recs _ _ Hi id).
  - apply (inv_jobs _ _ Hi).
  - eapply within_move; [apply (inv_bytes _ _ Hi)|intros; unfold sumBytes; rewrite msum_fmap..];
      (rewrite (msum_ext _ (λ id r, if recordPending (db_outbox db) id then LENGTH (rc_Content r) else 0));
        [lia|intros id rc _; by rewrite (proj1 (Hg rc))]).
Qed.

Lemma Inv_openDB exact db : Inv exact db → Inv exact (openDB LENGTH db).
Proof. intros Hi. apply (Inv_relabel _ backfill) in Hi as [? ? _ _]; [|done]. by apply Inv_rebuild. Qed.

Lemma quarantine_same owner before rc : rc_Content (quarantine owner before rc) = rc_Content rc ∧ rc_Hash (quarantine owner before rc) = rc_Hash rc.
Proof. unfold quarantine. by destruct (_ && _). Qed.

Lemma Inv_Quarantine exact db owner before : Inv exact db → Inv exact (QuarantineLegacyProjectRecords db owner before).
Proof.
  intros Hi. unfold QuarantineLegacyProjectRecords. destruct before; [|done]. destruct (String.eqb _ _); [done|].
  by apply (Inv_relabel _ (quarantine _ _)); [intros; apply quarantine_same|].
Qed.

Lemma seedProjection_lookup p now db key r :
  seedProjection p now db !! key = Some r →
  db_outbox db !! key = Some r ∨ ∃ rc, db_records db !! key.1 = Some rc ∧ r = newRow key.1 (rc_Created rc) now.
Proof.
  unfold seedProjection. revert r. generalize (db_records db) as records. intros records.
  induction records as [|id rc records Hn Hfk IH] using map_first_key_ind; intros r; [rewrite map_fold_empty; auto|].
  rewrite map_fold_insert_first_key by done. rewrite insertIgnore_lookup.
  destruct (map_fold _ _ records !! key) as [x|] eqn:E.
  - intros [= <-]. destruct (IH x eq_refl) as [?|(rc' & Hrc' & ->)]; [by left|]. right. exists rc'. split; [|done].
    rewrite lookup_insert_ne; [done|congruence].
  - case_bool_decide as Hk; [|done]. subst key. intros [= <-]. right. exists rc. split; [apply lookup_insert_eq|done].
Qed.

Lemma Inv_Requeue exact db p now db' : Inv exact db → RequeueProjection LENGTH db p now = inr db' → Inv exact db'.
Proof.
  intros Hi. unfold RequeueProjection. intros (? & _ & [= <-])%rbind_inr. apply Inv_rebuild; [|apply (inv_recs _ _ Hi)].
  intros key r. rewrite map_lookup_imap, bind_Some. intros (r0 & Hr0%seedProjection_lookup & [= <-]).
  assert (He : rw_Record (requeue p now key r0) = rw_Record r0) by (unfold requeue; by destruct (String.eqb _ _)). rewrite He.
  destruct Hr0 as [Hr0|(rc & Hrc & ->)]; [by apply (inv_rows _ _ Hi)|]. cbn. by rewrite Hrc.
Qed.

Lemma recordPending_delete db id id' :
  recordPending (db_outbox (deleteRecord db id)) id' = recordPending (db_outbox db) id' && negb (String.eqb id' id).
Proof.
  apply eq_true_iff_eq. rewrite andb_true_iff, negb_true_iff, String.eqb_neq, !recordPending_spec. split.
  - intros (key & r & Hr & He & Hp). cbn in Hr. apply map_lookup_filter_Some in Hr as [Hr Hne]. cbn in Hne. subst. eauto 10.
  - intros ((key & r & Hr & He & Hp) & Hne). exists key, r. split; [|done]. apply map_lookup_filter_Some. cbn. by subst.
Qed.

Lemma Inv_deleteRecord exact db id : (exact = true → recordPending (db_outbox db) id = false) → Inv exact db → Inv exact (deleteRecord db id).
Proof.
  intros Hp Hi. split; cbn [deleteRecord db_records db_jobs db_bytes].
  - intros key r. cbn. intros [Hr Hne]%map_lookup_filter_Some. destruct (inv_rows _ _ Hi key r Hr). split; [done|].
    rewrite lookup_delete_ne; [done|]. cbn in Hne. congruence.
  - intros id' rc [_ Hrc]%lookup_delete_Some. by apply (inv_recs _ _ Hi id').
  - eapply within_move; [apply (inv_jobs _ _ Hi)|..].
    + assert (countJobs (db_outbox (deleteRecord db id)) ≤ countJobs (db_outbox db)); [|lia].
      apply msum_filter_le. intros key r _. destruct (pending r); lia.
    + intros He. assert (countJobs (db_outbox (deleteRecord db id)) = countJobs (db_outbox db)); [|lia].
      apply msum_filter. intros key r Hr Hne. cbn in Hne. apply dec_stable in Hne.
      by rewrite (proj1 (recordPending_false _ _) (Hp He) key r Hr Hne).
  - assert (sumBytes LENGTH (delete id (db_records db)) (db_outbox (deleteRecord db id))
      = msum (λ id r, if recordPending (db_outbox db) id then LENGTH (rc_Content r) else 0) (delete id (db_records db))) as Hsum.
    { apply msum_ext. intros id' v [Hne _]%lookup_delete_Some. rewrite recordPending_delete.
      apply not_eq_sym, String.eqb_neq in Hne as ->. by rewrite andb_true_r. }
    eapply within_move; [apply (inv_bytes _ _ Hi)|intros; rewrite Hsum; unfold sumBytes..];
      (destruct (db_records db !! id) as [rc|] eqn:Hrc; [rewrite (msum_delete _ (db_records db) id rc Hrc)|rewrite (delete_id _ _ Hrc); lia]).
    + pose proof (proj1 (inv_recs _ _ Hi id rc Hrc)). destruct (recordPending (db_outbox db) id); lia.
    + rewrite Hp by done. lia.
Qed.

Lemma Inv_prune exact db ids :
  (exact = true → Forall (λ id, recordPending (db_outbox db) id = false) ids) → Inv exact db → Inv exact (pruneDelete db ids).
Proof.
  unfold pruneDelete. revert db. induction ids as [|id ids IH]; intros db Hf Hi; [done|]. cbn.
  apply IH; [|apply Inv_deleteRecord; [|done]; intros He; by specialize (Hf He); inversion Hf].
  intros He. specialize (Hf He). inversion_clear Hf as [|? ? Hp Hf'].
  eapply Forall_impl; [exact Hf'|]. intros id' Hid'. cbn beta in *. by rewrite recordPending_delete, Hid'.
Qed.

Lemma Inv_apply exact db op :
  (exact = true → NoDup (s_projections s)) → lengthDoc → regular exact db op → Inv exact db → Inv exact (apply_op op db).
Proof.
  intros Hnd Hdoc Hreg Hi. destruct op; cbn [apply_op];
    eauto using Inv_Ack, Inv_Retry, Inv_Quarantine, Inv_prune, Inv_openDB.
  - destruct (AppendTurnScoped _ _ _ _ _ _ _ _ _) eqn:E; cbn; eauto using Inv_Append.
  - destruct (Claim _ _ _ _) as [|[[job db']|]] eqn:E; eauto using Inv_Claim.
  - destruct (RequeueProjection _ _ _ _) eqn:E; cbn; eauto using Inv_Requeue.
  - destruct (RetryDead _ _ _ _ _ _) eqn:E; cbn; eauto using Inv_RetryDead.
Qed.

Lemma Inv_empty exact : Inv exact emptyDB.
Proof. split; [done..|apply within_refl|apply within_refl]. Qed.

Lemma Inv_reached exact db : (exact = true → NoDup (s_projections s)) → lengthDoc → reached exact db → Inv exact db.
Proof. intros Hnd Hdoc. induction 1; [apply Inv_empty|by apply Inv_apply]. Qed.

(** ** What the query for pruning leaves *)

Lemma prunable_settled db before ns id rc : prunable db before ns id rc = true → recordPending (db_outbox db) id = false.
Proof.
  unfold prunable. intros [[_ Hj]%andb_true_iff _]%andb_true_iff. apply recordPending_false. intros key r Hr He.
  assert (Hin : In r (jobsOf (db_outbox db) id)).
  { apply filter_In. split; [|by apply String.eqb_eq]. apply in_map_iff. exists (key, r). split; [done|].
    by apply list_elem_of_In, elem_of_map_to_list. }
  destruct (jobsOf (db_outbox db) id) as [|j js]; [done|]. rewrite forallb_forall in Hj. specialize (Hj r Hin).
  apply bool_decide_eq_true in Hj. unfold pending. by rewrite Hj.
Qed.

Lemma pruneSelect_regular db before ns n ids : pruneSelect db before ns n = inr ids → regular true db (OPrune ids).
Proof.
  unfold pruneSelect. destruct before as [before|]; [|done]. intros (ns' & _ & [= <-])%rbind_inr. cbn [regular]. intros _.
  apply Forall_forall. intros id Hid. apply (subseteq_take _ _) in Hid. apply list_elem_of_fmap in Hid as ([c i] & -> & Hid).
  rewrite sort_by_perm in Hid. apply list_elem_of_In, in_map_iff in Hid as ([k rc] & [= _ ->] & [_ Hp]%filter_In).
  by eapply prunable_settled.
Qed.

(** ** One row through a transaction *)

Lemma enqueueJobs_inv db id content now db' :
  enqueueJobs s db id content now = inr db' →
  db_outbox db' = enqueue id now (s_projections s) (db_outbox db) ∧ db_records db' = db_records db ∧ db_receipts db' = db_receipts db
  ∧ db_jobs db' = db_jobs db + missing (db_outbox db) id (s_projections s)
  ∧ db_jobs db + missing (db_outbox db) id (s_projections s) ≤ s_maxPending s
  ∧ (db_bytes db' = db_bytes db ∨ db_bytes db' = db_bytes db + Z.of_nat (slen content) ∧ db_bytes db' ≤ s_maxPendingBytes s).
Proof.
  unfold enqueueJobs. intros (? & Hc%guard_inr & (? & Hb%guard_inr & [= <-])%rbind_inr)%rbind_inr.
  apply Z.ltb_ge in Hc. pose proof (missing_nonneg (db_outbox db) id (s_projections s)).
  destruct (Z.ltb_spec 0 (missing (db_outbox db) id (s_projections s))); cbn [db_outbox db_records db_receipts db_jobs db_bytes with_counters with_outbox];
    split_and!; try done; try lia.
  destruct (recordPending _ _); [left; lia|]. cbn [andb negb] in Hb. apply Z.ltb_ge in Hb. by right.
Qed.

Lemma Append_row db rid sk ns content now disk db' key r :
  AppendTurnScoped Sum256 s db rid sk ns content now disk = inr db' → db_outbox db !! key = Some r → db_outbox db' !! key = Some r.
Proof.
  intros (ns' & ext & id & found & db1 & _ & _ & _ & Hd & He)%Append_inv Hr. apply enqueueJobs_inv in He as (-> & _).
  assert (db_outbox db1 = db_outbox db) as -> by (destruct found; [by subst|by apply insertRecord_lookup in Hd as (_ & -> & _)]).
  by rewrite enqueue_lookup, Hr.
Qed.

Lemma seed_keeps p now db key r : db_outbox db !! key = Some r → seedProjection p now db !! key = Some r.
Proof.
  unfold seedProjection. intros Hr. generalize (db_records db) as records. intros records.
  induction records as [|id rc records Hn Hfk IH] using map_first_key_ind; [by rewrite map_fold_empty|].
  rewrite map_fold_insert_first_key by done. by rewrite insertIgnore_lookup, IH.
Qed.

Lemma Requeue_row db p now db' key r :
  RequeueProjection LENGTH db p now = inr db' → db_outbox db !! key = Some r → db_outbox db' !! key = Some (requeue p now key r).
Proof.
  unfold RequeueProjection. intros (? & _ & [= <-])%rbind_inr Hr. cbn [db_outbox rebuildCounters with_counters].
  by rewrite map_lookup_imap, (seed_keeps p now db key r Hr).
Qed.

Lemma prune_row db ids key r : db_outbox db !! key = Some r → rw_Record r ∉ ids → db_outbox (pruneDelete db ids) !! key = Some r.
Proof.
  unfold pruneDelete. revert db. induction ids as [|id ids IH]; intros db Hr Hn; [done|]. cbn. apply not_elem_of_cons in Hn as [Hne Hn].
  apply IH; [|done]. cbn. by apply map_lookup_filter_Some.
Qed.

Lemma RetryDead_row db p id now db' key r :
  RetryDead LENGTH s db p id now = inr db' → db_outbox db !! key = Some r → pending r = true → db_outbox db' !! key = Some r.
Proof.
  unfold RetryDead. intros (? & _ & Hm)%rbind_inr Hr Hp. destruct (db_outbox db !! (_, _)) as [r0|] eqn:E; [|done].
  destruct (db_records db !! _) eqn:Erc; [|done]. apply rbind_inr in Hm as (? & Hd%guard_inr & (? & _ & (? & _ & [= <-])%rbind_inr)%rbind_inr).
  apply negb_false_iff, bool_decide_eq_true in Hd. cbn [db_outbox with_counters with_outbox].
  rewrite lookup_insert_ne; [done|]. intros <-. simplify_eq. unfold pending in Hp. by rewrite Hd in Hp.
Qed.

Lemma Ack_row db p id now key r : db_outbox db !! key = Some r → key ≠ (id, p) → db_outbox (Ack LENGTH db p id now) !! key = Some r.
Proof.
  intros Hr Hne. unfold Ack. destruct (db_outbox db !! (id, p)); [|done]. destruct (db_records db !! _); [|done].
  destruct (pending _); [|done]. cbn. by rewrite lookup_insert_ne.
Qed.

Lemma Retry_row db p id cause now key r :
  db_outbox db !! key = Some r → key ≠ (id, p) → db_outbox (Retry LENGTH s db p id cause now) !! key = Some r.
Proof.
  intros Hr Hne. unfold Retry. destruct (db_outbox db !! (id, p)); [|done]. destruct (db_records db !! _); [|done].
  destruct (negb _); [done|]. destruct (_ <=? _); cbn; by rewrite lookup_insert_ne.
Qed.

Lemma Append_db1 db id sk ns' content now disk db1 (found : bool) :
  (if found then db1 = db else insertRecord s db id sk ns' content (Sum256 content) now disk = inr db1) →
  db_outbox db1 = db_outbox db ∧ db_jobs db1 = db_jobs db ∧ db_bytes db1 = db_bytes db ∧ db_receipts db1 = db_receipts db
  ∧ db_records db1 = if found then db_records db else <[id := mkRec sk (ns_Scope ns') (ns_Owner ns') content (Sum256 content) now]> (db_records db).
Proof. destruct found; [by intros ->|]. by intros (-> & -> & -> & -> & ->)%insertRecord_lookup. Qed.

Lemma resolve_again db db' ext sk ns' hash id (found : bool) content now :
  resolveRecord Sum256 db ext sk ns' hash = inr (id, found) →
  db_records db' = (if found then db_records db else <[id := mkRec sk (ns_Scope ns') (ns_Owner ns') content hash now]> (db_records db)) →
  resolveRecord Sum256 db' ext sk ns' hash = inr (id, true).
Proof.
  intros Hf Hr. destruct found; [unfold resolveRecord in *; by rewrite Hr|]. apply resolveRecord_spec in Hf as [-> _].
  unfold resolveRecord. rewrite Hr, lookup_insert_eq. unfold sameRecord. cbn. by rewrite !String.eqb_refl.
Qed.

Lemma enqueue_again db id content now now' db' :
  enqueueJobs s db id content now = inr db' → enqueueJobs s db' id content now' = inr db'.
Proof.
  intros (Ho & _ & _ & Hj & Hle & _)%enqueueJobs_inv. rewrite <- Hj in Hle.
  assert (Hm : missing (db_outbox db') id (s_projections s) = 0).
  { pose proof (missing_nonneg (db_outbox db') id (s_projections s)). apply Z.le_antisymm; [|done]. apply Z.nlt_ge. intros (p & Hp & Hn)%missing_pos.
    rewrite Ho, enqueue_lookup in Hn. destruct (db_outbox db !! (id, p)); [done|]. by rewrite bool_decide_eq_true_2 in Hn. }
  assert (Hsame : enqueue id now' (s_projections s) (db_outbox db') = db_outbox db').
  { apply map_eq. intros key. rewrite enqueue_lookup. destruct (db_outbox db' !! key) eqn:E; [done|]. case_bool_decide as Hk; [|done].
    exfalso. destruct Hk as [<- Hp]. assert (0 < missing (db_outbox db') key.1 (s_projections s)); [|lia].
    apply missing_pos. exists key.2. by destruct key. }
  unfold enqueueJobs. rewrite Hm, Hsame, Z.add_0_r, (proj2 (Z.ltb_ge _ _) Hle). cbn. by destruct db'.
Qed.

(** Queued and running jobs are the pending ones. *)
Lemma countState_pending outbox : countState stateQueued outbox + countState stateRunning outbox = countJobs outbox.
Proof.
  unfold countState, countJobs. induction outbox as [|k r m Hk IH] using map_ind; [done|]. rewrite !msum_insert by done.
  rewrite <- IH. unfold pending. repeat case_bool_decide; cbn [orb]; try congruence; lia.
Qed.

Lemma Stats_queued db now : db_jobs db = countJobs (db_outbox db) → st_Pending (Stats db now) = countState stateQueued (db_outbox db).
Proof.
  intros Hj. cbn [st_Pending Stats]. rewrite Hj, <- countState_pending.
  assert (0 ≤ countState stateQueued (db_outbox db)) by (apply msum_nonneg; intros; case_bool_decide; lia).
  destruct (Z.ltb_spec (countState stateQueued (db_outbox db) + countState stateRunning (db_outbox db) - countState stateRunning (db_outbox db)) 0); lia.
Qed.

Lemma Stats_queued_le db now : countJobs (db_outbox db) ≤ db_jobs db → countState stateQueued (db_outbox db) ≤ st_Pending (Stats db now).
Proof.
  intros Hj. cbn [st_Pending Stats]. rewrite <- countState_pending in Hj.
  destruct (Z.ltb_spec (db_jobs db - countState stateRunning (db_outbox db)) 0); lia.
Qed.

(** ** The theorems *)

(** C22. In every database reached by transactions in any order, without a SHA-256
    collision and with LENGTH as documented, the counters never count too little:
    pending-jobs is at least the number of queued and running jobs, pending-bytes at
    least the characters of the records that have one; every job belongs to a stored
    record, and the number of queued jobs is at most what [Stats] reports as pending.
    If moreover all text was of single-byte characters, every prune found its records
    as its query left them and no projection is configured twice, the counters are
    exact: the number of those jobs, the bytes of those records, and [Stats] reports the
    number of queued jobs. *)
Theorem counters_exact db :
  lengthDoc →
  (reached false db →
     countJobs (db_outbox db) ≤ db_jobs db
     ∧ sumBytes LENGTH (db_records db) (db_outbox db) ≤ db_bytes db
     ∧ (∀ key r, db_outbox db !! key = Some r → key.1 = rw_Record r ∧ is_Some (db_records db !! rw_Record r))
     ∧ ∀ now, countState stateQueued (db_outbox db) ≤ st_Pending (Stats db now))
  ∧ (reached true db → NoDup (s_projections s) →
     db_jobs db = countJobs (db_outbox db)
     ∧ db_bytes db = msum (λ id rc, if recordPending (db_outbox db) id then Z.of_nat (slen (rc_Content rc)) else 0) (db_records db)
     ∧ ∀ now, st_Pending (Stats db now) = countState stateQueued (db_outbox db)).
Proof.
  intros Hdoc. split.
  - intros Hr. apply Inv_reached in Hr as Hi; [|done..].
    split_and!; [apply (inv_jobs _ _ Hi)|apply (inv_bytes _ _ Hi)|apply (inv_rows _ _ Hi)|intros now; apply Stats_queued_le, (inv_jobs _ _ Hi)].
  - intros Hr Hnd. apply Inv_reached in Hr as Hi; [|done..]. pose proof (inv_jobs _ _ Hi) as Hj. cbn in Hj.
    split_and!; [done| |intros now; by apply Stats_queued]. pose proof (inv_bytes _ _ Hi) as Hb. cbn in Hb. rewrite <-Hb.
    apply msum_ext. intros id rc Hrc. pose proof (proj1 (proj2 (inv_recs _ _ Hi id rc Hrc))) as Hl. cbn in Hl. by rewrite Hl.
Qed.

(** A successful append has stored the turn and a job for every projection, has
    changed no other record, no existing job and no receipt, has kept within the job
    limit, and has added the turn's bytes within the byte limit or not at all. *)
Theorem append_whole db rid sk ns content now disk db' :
  AppendTurnScoped Sum256 s db rid sk ns content now disk = inr db' →
  ∃ id ns' rc, NormalizeNamespace ns = inr ns' ∧ db_records db' !! id = Some rc ∧ sameRecord sk ns' (Sum256 content) rc = true
    ∧ (db_records db !! id = Some rc ∨ db_records db !! id = None ∧ rc_Content rc = content)
    ∧ (∀ p, p ∈ s_projections s → is_Some (db_outbox db' !! (id, p)))
    ∧ (∀ id', id' ≠ id → db_records db' !! id' = db_records db !! id')
    ∧ (∀ key r, db_outbox db !! key = Some r → db_outbox db' !! key = Some r)
    ∧ (∀ key, key.1 ≠ id → db_outbox db' !! key = db_outbox db !! key)
    ∧ db_receipts db' = db_receipts db
    ∧ db_jobs db' ≤ s_maxPending s
    ∧ (db_bytes db' = db_bytes db ∨ db_bytes db' = db_bytes db + Z.of_nat (slen content) ∧ db_bytes db' ≤ s_maxPendingBytes s).
Proof.
  intros Ha. pose proof (Append_row db rid sk ns content now disk db') as Hrow.
  apply Append_inv in Ha as Hinv. destruct Hinv as (ns' & ext & id & found & db1 & Hns & _ & Hf & Hd & He).
  apply Append_db1 in Hd as (Ho1 & Hj1 & Hb1 & Hrc1 & Hr1). apply enqueueJobs_inv in He as (Ho & Hr & Hrc & Hj & Hle & Hb).
  rewrite Ho1, Hj1, ?Hb1, ?Hrc1 in *. apply resolveRecord_spec in Hf.
  assert (Hrec : ∃ rc, db_records db' !! id = Some rc ∧ sameRecord sk ns' (Sum256 content) rc = true
    ∧ (db_records db !! id = Some rc ∨ db_records db !! id = None ∧ rc_Content rc = content)).
  { rewrite Hr, Hr1. destruct found; [naive_solver|]. destruct Hf as [_ Hn]. eexists. rewrite lookup_insert_eq. split_and!; [done| |by right].
    unfold sameRecord. cbn. by rewrite !String.eqb_refl. }
  destruct Hrec as (rc & Hrc' & Hs & Hor). exists id, ns', rc. split_and!; try done; try lia.
  - intros p Hp. rewrite Ho, enqueue_lookup. destruct (db_outbox db !! (id, p)); [done|]. by rewrite bool_decide_eq_true_2.
  - intros id' Hne. rewrite Hr, Hr1. destruct found; [done|]. by rewrite lookup_insert_ne.
  - eauto.
  - intros key Hne. rewrite Ho, enqueue_lookup. destruct (db_outbox db !! key); [done|]. by rewrite bool_decide_eq_false_2 by tauto.
Qed.

(** Appending a turn that was appended succeeds again, whatever the time and the
    disk usage, and changes nothing. *)
Theorem append_again db rid sk ns content now disk db' now' disk' :
  AppendTurnScoped Sum256 s db rid sk ns content now disk = inr db' →
  AppendTurnScoped Sum256 s db' rid sk ns content now' disk' = inr db'.
Proof.
  intros Ha. apply Append_inv in Ha as Hinv. destruct Hinv as (ns' & ext & id & found & db1 & Hns & -> & Hf & Hd & He).
  apply Append_db1 in Hd as (_ & _ & _ & _ & Hr1). pose proof (enqueueJobs_inv _ _ _ _ _ He) as (_ & Hr & _). rewrite Hr1 in Hr.
  pose proof (resolve_again _ _ _ _ _ _ _ _ _ _ Hf Hr) as Hf'. apply enqueue_again with (now' := now') in He.
  unfold AppendTurnScoped in *. rewrite Hns in *. cbn [rbind] in *.
  apply rbind_inr in Ha as (u1 & -> & (u2 & -> & (u3 & -> & _)%rbind_inr)%rbind_inr). cbn [rbind]. by rewrite Hf'.
Qed.

(** [Claim] answers nothing exactly when no job of the projection is due: queued
    and past its retry time, or running with its lease over.  Otherwise it answers the
    oldest due job, by creation time and then id, with its turn and one more attempt,
    and leaves it running under a lease from now; nothing else changes. *)
Theorem claim_oldest db p now :
  p ≠ "" → lengthDoc → reached false db →
  (Claim s db p now = inr None ∧ (∀ key r, db_outbox db !! key = Some r → eligible p now (key, r) = false))
  ∨ ∃ key r rc, db_outbox db !! key = Some r ∧ eligible p now (key, r) = true ∧ db_records db !! rw_Record r = Some rc
    ∧ (∀ key' r', db_outbox db !! key' = Some r' → eligible p now (key', r') = true → earlier (key, r) (key', r') = true)
    ∧ let r1 := with_state stateRunning (rw_Attempts r + 1) (now + s_lease s) (rw_Next r) (rw_Error r) now r in
      Claim s db p now = inr (Some (jobOf key r1 rc, with_outbox (<[key := r1]> (db_outbox db)) db)).
Proof.
  intros Hp Hdoc Hi%Inv_reached; [|done..]. destruct (Claim s db p now) as [e|[[job db']|]] eqn:E.
  - exfalso. unfold Claim in E. rewrite (proj2 (String.eqb_neq p "") Hp) in E. cbn in E.
    destruct (firstOf _) as [[key r]|] eqn:Ef; [|done]. apply firstOf_some in Ef as [Hin _].
    apply list_elem_of_In, filter_In in Hin as [Hin%list_elem_of_In%elem_of_map_to_list _].
    destruct (proj2 (inv_rows _ _ Hi key r Hin)) as [rc Hrc]. cbn in E. by rewrite Hrc in E.
  - right. apply Claim_inv in E as (key & r & rc & ? & ? & ? & ? & -> & ->). exists key, r, rc. done.
  - left. split; [done|]. intros key r Hr. unfold Claim in E. rewrite (proj2 (String.eqb_neq p "") Hp) in E. cbn in E.
    destruct (firstOf _) as [[key' r']|] eqn:Ef; [cbn in E; by destruct (db_records db !! _)|]. apply firstOf_none in Ef.
    apply not_true_iff_false. intros Hel. assert (Hin : In (key, r) []) by (rewrite <- Ef; apply filter_In; split; [by apply list_elem_of_In, elem_of_map_to_list|done]). done.
Qed.

(** How a transaction can take a job off the queue. *)
Inductive ended (db db' : DB) (key : string * string) (r : Row) : Op → Prop :=
  | ended_ack now r' :
      db_outbox db' !! key = Some r' → rw_State r' = stateSucceeded → (key.2, rw_Record r) ∈ db_receipts db' →
      ended db db' key r (OAck key.2 key.1 now)
  | ended_dead cause now r' :
      s_maxAttempts s ≤ rw_Attempts r → db_outbox db' !! key = Some r' → rw_State r' = stateDead → rw_Error r' = cause →
      ended db db' key r (ORetry key.2 key.1 cause now)
  | ended_prune ids : rw_Record r ∈ ids → ended db db' key r (OPrune ids).

(** C23. A queued or running job is never lost: after any transaction it is still
    queued or running, or it was acknowledged and is succeeded with a receipt, or its
    retries are used up and it is dead with the cause, or its record was pruned. *)
Theorem no_job_lost db op key r :
  db_outbox db !! key = Some r → pending r = true →
  (∃ r', db_outbox (apply_op op db) !! key = Some r' ∧ pending r' = true ∧ rw_Record r' = rw_Record r ∧ rw_Created r' = rw_Created r)
  ∨ ended db (apply_op op db) key r op.
Proof.
  intros Hr Hp. assert (Hstay : db_outbox (apply_op op db) !! key = Some r → (∃ r', db_outbox (apply_op op db) !! key = Some r' ∧ pending r' = true
    ∧ rw_Record r' = rw_Record r ∧ rw_Created r' = rw_Created r) ∨ ended db (apply_op op db) key r op) by (left; eauto).
  destruct op as [rid sk ns c now disk|p now|p id now|p id cause now|p now|p id now|owner before|ids|]; cbn [apply_op] in *.
  - apply Hstay. destruct (AppendTurnScoped _ _ _ _ _ _ _ _ _) eqn:E; cbn; [done|]. by eapply Append_row.
  - destruct (Claim s db p now) as [|[[job db']|]] eqn:E; [by apply Hstay| |by apply Hstay].
    apply Claim_inv in E as (key' & r' & rc & Hr' & _ & _ & _ & _ & ->). cbn [with_outbox db_outbox] in *.
    destruct (decide (key = key')) as [<-|]; [|apply Hstay; by rewrite lookup_insert_ne]. simplify_eq. left.
    eexists. by rewrite lookup_insert_eq.
  - destruct (decide (key = (id, p))) as [->|]; [|by apply Hstay, Ack_row]. revert Hstay. unfold Ack. rewrite Hr, Hp.
    destruct (db_records db !! _) as [rc|]; [|auto]. intros _. right. eapply ended_ack; cbn; [apply lookup_insert_eq|done|set_solver].
  - destruct (decide (key = (id, p))) as [->|]; [|by apply Hstay, Retry_row]. revert Hstay. unfold Retry. rewrite Hr, Hp.
    destruct (db_records db !! _) as [rc|]; [|auto]. intros _. cbn [negb]. destruct (Z.leb_spec (s_maxAttempts s) (rw_Attempts r)).
    + right. eapply (ended_dead _ _ (id, p)); cbn; [done|apply lookup_insert_eq|done..].
    + left. eexists. cbn. by rewrite lookup_insert_eq.
  - destruct (RequeueProjection _ _ _ _) as [|db'] eqn:E; [by apply Hstay|]. left. exists (requeue p now key r).
    cbn. rewrite (Requeue_row _ _ _ _ _ _ E Hr). unfold requeue. by destruct (String.eqb _ _).
  - apply Hstay. destruct (RetryDead _ _ _ _ _ _) eqn:E; cbn; [done|]. by eapply RetryDead_row.
  - apply Hstay. unfold QuarantineLegacyProjectRecords. destruct before; [|done]. by destruct (String.eqb _ _).
  - destruct (decide (rw_Record r ∈ ids)) as [|Hn]; [right; by constructor|by apply Hstay, prune_row].
  - by apply Hstay.
Qed.

(** Transactions that are not about this job, before [until]. *)
Definition leaves_alone (key : string * string) (record : string) (until : Z) (op : Op) : Prop :=
  match op with
  | OClaim _ now => now < until
  | OAck p id _ | ORetry p id _ _ => key ≠ (id, p)
  | ORequeue p _ => p ≠ key.2
  | OPrune ids => record ∉ ids
  | _ => True
  end.

Definition run (ops : list Op) (db : DB) : DB := foldl (λ db op, apply_op op db) db ops.

Lemma leased_row db op key r until :
  db_outbox db !! key = Some r → rw_State r = stateRunning → rw_Lease r = until → leaves_alone key (rw_Record r) until op →
  db_outbox (apply_op op db) !! key = Some r.
Proof.
  intros Hr Hs Hl Hop. assert (Hp : pending r = true) by (unfold pending; by rewrite Hs).
  destruct op as [rid sk ns c now disk|p now|p id now|p id cause now|p now|p id now|owner before|ids|]; cbn [apply_op leaves_alone] in *.
  - destruct (AppendTurnScoped _ _ _ _ _ _ _ _ _) eqn:E; cbn; [done|]. by eapply Append_row.
  - destruct (Claim s db p now) as [|[[job db']|]] eqn:E; [done| |done].
    apply Claim_inv in E as (key' & r' & rc & Hr' & Hel & _ & _ & _ & ->). cbn. rewrite lookup_insert_ne; [done|]. intros ->. simplify_eq.
    unfold eligible in Hel. cbn in Hel. rewrite Hs in Hel. cbn in Hel. apply andb_true_iff in Hel as [_ ?%Z.leb_le]. lia.
  - by apply Ack_row.
  - by apply Retry_row.
  - destruct (RequeueProjection _ _ _ _) as [|db'] eqn:E; [done|]. cbn. rewrite (Requeue_row _ _ _ _ _ _ E Hr). unfold requeue.
    apply not_eq_sym, String.eqb_neq in Hop. by rewrite Hop.
  - destruct (RetryDead _ _ _ _ _ _) eqn:E; cbn; [done|]. by eapply RetryDead_row.
  - unfold QuarantineLegacyProjectRecords. destruct before; [|done]. by destruct (String.eqb _ _).
  - by apply prune_row.
  - done.
Qed.

Lemma leased_rows ops db key r until :
  db_outbox db !! key = Some r → rw_State r = stateRunning → rw_Lease r = until → Forall (leaves_alone key (rw_Record r) until) ops →
  db_outbox (run ops db) !! key = Some r.
Proof.
  unfold run. revert db. induction ops as [|op ops IH]; intros db Hr Hs Hl Hf; [done|]. inversion_clear Hf. cbn.
  apply IH; try done. by eapply leased_row.
Qed.

End Store.

(** ** A store with one turn *)

Definition asciiCase : CaseTable := {| ToLower := ToLower_ascii; ToLower_on_ascii := λ _ _, eq_refl |}.
#[local] Existing Instance asciiCase.

Definition demoStore : Store := mkStore (mkNamespace "project" "default") 512 4096 1024 1000000 8 1000 ["graph"; "obsidian"].
Definition demoSum (c : string) : string := c.
Definition byteLen (c : string) : Z := Z.of_nat (slen c).
Definition demoNs : Namespace := mkNamespace "project" "w".
Definition demoApply : Op → DB → DB := apply_op demoSum byteLen demoStore.
Definition demoTurn : Op := OAppend "turn-1" "cli:1" demoNs "hello" 100 (Some 0).
Definition demoDB : DB := demoApply demoTurn emptyDB.
Definition demoID : string := ScopedRecordID demoSum demoNs "turn-1".

Lemma demoStore_nodup : NoDup (s_projections demoStore).
Proof. by apply (bool_decide_unpack _). Qed.

Lemma byteLen_doc : lengthDoc byteLen.
Proof. intros c. unfold byteLen. lia. Qed.

Lemma demoDB_reached : reached demoSum byteLen demoStore true demoDB.
Proof. apply reached_op; [constructor|]. split; [done|]. intros id rc Hrc. done. Qed.

Definition succeeded {E A} (r : E + A) : bool := match r with inr _ => true | inl _ => false end.
Lemma orElse_ok db (r : FabricError + DB) : succeeded r = true → r = inr (orElse db r).
Proof. by destruct r. Qed.

Lemma demoDB_append : AppendTurnScoped demoSum demoStore emptyDB "turn-1" "cli:1" demoNs "hello" 100 (Some 0) = inr demoDB.
Proof. apply orElse_ok. by vm_compute. Qed.

(** Both halves at a store of one turn. *)
Lemma counters_exact_witness :
  db_jobs demoDB = 2 ∧ db_bytes demoDB = 5 ∧ db_jobs demoDB = countJobs (db_outbox demoDB)
  ∧ sumBytes byteLen (db_records demoDB) (db_outbox demoDB) ≤ db_bytes demoDB.
Proof.
  destruct (counters_exact demoSum byteLen demoStore demoDB byteLen_doc) as [Hle Heq].
  split_and!; [by vm_compute..| |].
  - exact (proj1 (Heq demoDB_reached demoStore_nodup)).
  - exact (proj1 (proj2 (Hle (reached_weaken _ _ _ _ demoDB_reached)))).
Defined.

Lemma append_whole_witness : ∃ id rc, db_records demoDB !! id = Some rc ∧ sameRecord "cli:1" demoNs "hello" rc = true.
Proof.
  destruct (append_whole demoSum byteLen demoStore emptyDB "turn-1" "cli:1" demoNs "hello" 100 (Some 0) demoDB demoDB_append)
    as (id & ns' & rc & Hns & Hrc & Hs & _).
  exists id, rc. split; [exact Hrc|]. injection Hns as <-. exact Hs.
Defined.

Lemma append_again_witness : AppendTurnScoped demoSum demoStore demoDB "turn-1" "cli:1" demoNs "hello" 999 None = inr demoDB.
Proof. apply (append_again demoSum byteLen demoStore emptyDB "turn-1" "cli:1" demoNs "hello" 100 (Some 0) demoDB 999 None demoDB_append). Defined.

Definition claimed (r : FabricError + option (Job * DB)) : bool := match r with inr (Some _) => true | _ => false end.

Lemma claim_oldest_witness :
  ∃ key r rc, db_outbox demoDB !! key = Some r ∧ db_records demoDB !! rw_Record r = Some rc ∧ eligible "graph" 200 (key, r) = true.
Proof.
  destruct (claim_oldest demoSum byteLen demoStore demoDB "graph" 200) as [[Hn _]|(key & r & rc & ? & ? & ? & _)].
  - done.
  - exact byteLen_doc.
  - exact (reached_weaken _ _ _ _ demoDB_reached).
  - exfalso. assert (Hc : claimed (Claim demoStore demoDB "graph" 200) = true) by by vm_compute. rewrite Hn in Hc. discriminate Hc.
  - exists key, r, rc. split_and!; assumption.
Defined.

Lemma demoRow_pending : db_outbox demoDB !! (demoID, "graph") = Some (newRow demoID 100 100) ∧ pending (newRow demoID 100 100) = true.
Proof. split; by vm_compute. Qed.

Lemma no_job_lost_witness :
  ended demoStore demoDB (demoApply (OAck "graph" demoID 300) demoDB) (demoID, "graph") (newRow demoID 100 100) (OAck "graph" demoID 300).
Proof.
  destruct demoRow_pending as [Hr Hp].
  destruct (no_job_lost demoSum byteLen demoStore demoDB (OAck "graph" demoID 300) (demoID, "graph") (newRow demoID 100 100) Hr Hp)
    as [(r' & Hr' & Hp' & _)|He].
  - exfalso. vm_compute in Hr'. injection Hr' as <-. discriminate Hp'.
  - exact He.
Defined.

Definition demoClaim (db : DB) (p : string) (now : Z) : Job * DB :=
  match Claim demoStore db p now with inr (Some x) => x | _ => (mkJob "" "" "" "" "" "" "" 0 0, emptyDB) end.
Lemma demoClaim_ok db p now :
  claimed (Claim demoStore db p now) = true → Claim demoStore db p now = inr (Some ((demoClaim db p now).1, (demoClaim db p now).2)).
Proof. unfold demoClaim. by destruct (Claim demoStore db p now) as [|[[? ?]|]]. Qed.
Definition demoTurn2 : Op := OAppend "turn-2" "cli:1" demoNs "again" 150 (Some 0).


(** ** Two ways the counters drift *)

(** LENGTH as SQLite documents it, for a text without NUL. *)
Definition charLen (c : string) : Z := Z.of_nat (length (runes c)).
Definition accent : string := String (Zbyte 195) (String (Zbyte 169) "").
Definition accentDB : DB := apply_op demoSum charLen demoStore (OAppend "turn-1" "cli:1" demoNs accent 100 (Some 0)) emptyDB.

(** The append counts two bytes for a two-byte character and the acknowledgements take
    one off: the queue is empty and the counter is not. *)
Theorem bytes_drift :
  let db := run demoSum charLen demoStore [OAck "graph" demoID 200; OAck "obsidian" demoID 200] accentDB in
  db_bytes accentDB = 2 ∧ countJobs (db_outbox db) = 0 ∧ db_jobs db = 0 ∧ db_bytes db = 1.
Proof. by vm_compute. Qed.

(** A projection requeued between the query and the deletion of a prune: its job is
    deleted with the record and stays in the counter. *)
Theorem prune_race :
  let done := run demoSum byteLen demoStore [OAck "graph" demoID 200; OAck "obsidian" demoID 200] demoDB in
  let db := run demoSum byteLen demoStore [ORequeue "graph" 300; OPrune [demoID]] done in
  pruneSelect done (Some 250) None 10 = inr [demoID] ∧ countJobs (db_outbox db) = 0 ∧ db_jobs db = 1 ∧ db_bytes db = 5.
Proof. by vm_compute. Qed.
