(* ===== verification/GoPath.v ===== *)
(** * Paths and a tree of files (Go's path/filepath and os)

    [filepath.Clean], [Join], [Dir] and [IsAbs] on a Unix system, and the files that the
    repository plumbing reads and writes, as a map from clean paths.  A read or a write
    fails where the tree of files says so (a missing directory, a directory in the way);
    a disk that is full or a permission that is missing is not modelled. *)

From Stdlib Require Import Ascii.
From stdpp Require Import gmap strings.
From S2P Require Import Prelude GoText GoLib.

Open Scope string_scope.
Open Scope list_scope.

(** ** path/filepath *)

Definition IsAbs (path : string) : bool := HasPrefix path "/".

(** The elements that stay; [stack] holds the last one first. *)
Fixpoint cleanParts (rooted : bool) (parts stack : list string) : list string :=
  match parts with
  | [] => reverse stack
  | p :: parts =>
      if String.eqb p "" || String.eqb p "." then cleanParts rooted parts stack else
      if String.eqb p ".." then
        match stack with
        | [] => cleanParts rooted parts (if rooted then [] else [".."])
        | top :: below => cleanParts rooted parts (if String.eqb top ".." then ".." :: stack else below)
        end
      else cleanParts rooted parts (p :: stack)
  end.

Definition Clean (path : string) : string :=
  let parts := cleanParts (IsAbs path) (Split path "/") [] in
  if IsAbs path then "/" +:+ Join parts "/" else
  match parts with [] => "." | _ => Join parts "/" end.

Fixpoint JoinPath (elems : list string) : string :=
  match elems with
  | [] => ""
  | "" :: elems => JoinPath elems
  | _ => Clean (Join elems "/")
  end.

(** Up to and including the last separator. *)
Fixpoint upToSlash (path : string) : string :=
  match path with
  | "" => ""
  | String c rest =>
      let r := upToSlash rest in
      if String.eqb r "" && negb (Ascii.eqb c "/") then "" else String c r
  end.
Definition DirPath (path : string) : string := Clean (upToSlash path).

(** ** os *)

Inductive inode := File (content : string) | Dir.
Abbreviation fileTree := (gmap string inode).

Definition ReadFile (fs : fileTree) (path : string) : option string := match fs !! path with Some (File c) => Some c | _ => None end.
Definition Stat (fs : fileTree) (path : string) : bool := bool_decide (is_Some (fs !! path)).

(** [os.MkdirAll]; [fuel] is the length of the path. *)
Fixpoint MkdirAll_fuel (fuel : nat) (fs : fileTree) (path : string) : option fileTree :=
  match fs !! path, fuel with
  | Some Dir, _ => Some fs
  | Some (File _), _ | None, O => None
  | None, S fuel =>
      if String.eqb (DirPath path) path then None else
      fs ← MkdirAll_fuel fuel fs (DirPath path); Some (<[path := Dir]> fs)
  end.
Definition MkdirAll (fs : fileTree) (path : string) : option fileTree := MkdirAll_fuel (slen path) fs path.

(** [os.WriteFile], and what a rename from the same directory does. *)
Definition WriteFile (fs : fileTree) (path content : string) : option fileTree :=
  match fs !! DirPath path, fs !! path with
  | Some Dir, Some Dir => None
  | Some Dir, _ => Some (<[path := File content]> fs)
  | _, _ => None
  end.

(** [O_APPEND|O_CREATE]. *)
Definition AppendFile (fs : fileTree) (path content : string) : option fileTree :=
  WriteFile fs path (default "" (ReadFile fs path) +:+ content).

(** ** Lemmas *)

Lemma WriteFile_insert fs path content fs' : WriteFile fs path content = Some fs' → fs' = <[path := File content]> fs.
Proof. unfold WriteFile. intros H. by repeat case_match; simplify_eq. Qed.

Lemma WriteFile_same fs path content fs' : WriteFile fs path content = Some fs' → ReadFile fs' path = Some content.
Proof. intros ->%WriteFile_insert. unfold ReadFile. by rewrite lookup_insert_eq. Qed.

Lemma WriteFile_other fs path content fs' q : WriteFile fs path content = Some fs' → q ≠ path → ReadFile fs' q = ReadFile fs q.
Proof. intros ->%WriteFile_insert Hq. unfold ReadFile. by rewrite lookup_insert_ne. Qed.

Lemma AppendFile_other fs path content fs' q : AppendFile fs path content = Some fs' → q ≠ path → ReadFile fs' q = ReadFile fs q.
Proof. apply WriteFile_other. Qed.

Lemma MkdirAll_read fs path fs' q : MkdirAll fs path = Some fs' → ReadFile fs' q = ReadFile fs q.
Proof.
  unfold MkdirAll. generalize (slen path). intros fuel. revert path fs'. induction fuel as [|fuel IH]; intros path fs'; cbn [MkdirAll_fuel].
  - destruct (fs !! path) as [[]|]; [done|by intros [= <-]|done].
  - destruct (fs !! path) as [[]|] eqn:E; [done|by intros [= <-]|]. destruct (String.eqb _ _); [done|].
    destruct (MkdirAll_fuel fuel fs (DirPath path)) as [fs1|] eqn:E1; [|done]. intros [= <-]. specialize (IH _ _ E1).
    unfold ReadFile in *. destruct (decide (q = path)) as [->|]; [|by rewrite lookup_insert_ne].
    by rewrite lookup_insert_eq, E.
Qed.

Example Clean_examples :
  map Clean ["/ws/.git/refs//heads/./main"; "a/../../b"; "/../x"; ""; "a/.."] = ["/ws/.git/refs/heads/main"; "../b"; "/x"; "."; "."]
  ∧ map DirPath ["/ws/HEAD"; "/HEAD"; "HEAD"] = ["/ws"; "/"; "."].
Proof. done. Qed.
