(* ===== verification/PyText.v ===== *)
(** * Python's text primitives (src/internal/gitstore/pytext.go and paths.go)

    [str.splitlines], [bytes.decode("utf-8", "replace")], [str.strip] and the path rules
    of pathlib, as the git store reproduces them. *)

From Stdlib Require Import Ascii.
From stdpp Require Import list strings.
From S2P Require Import Prelude GoText GoLib GoPath Bpe.

Open Scope string_scope.
Open Scope list_scope.
Open Scope Z_scope.

(** ** Lines *)

(** The width of the line boundary at the front of [s], if there is one. *)
Definition boundary (isStr : bool) (s : string) : option nat :=
  match s with
  | "" => None
  | String c rest =>
      let b := byteZ c in
      if (b =? 10) || (b =? 11) || (b =? 12) || (b =? 0x1c) || (b =? 0x1d) || (b =? 0x1e) then Some 1%nat else
      if b =? 13 then Some (match rest with String d _ => if byteZ d =? 10 then 2%nat else 1%nat | "" => 1%nat end) else
      match rest with
      | String d rest =>
          if isStr && (b =? 0xc2) && (byteZ d =? 0x85) then Some 2%nat else
          match rest with
          | String e _ =>
              if isStr && (b =? 0xe2) && (byteZ d =? 0x80) && ((byteZ e =? 0xa8) || (byteZ e =? 0xa9)) then Some 3%nat else None
          | "" => None
          end
      | "" => None
      end
  end.

(** [cur] is [s[start:i]]; [fuel] is the number of bytes left. *)
Fixpoint splitLines_loop (fuel : nat) (isStr keepEnds : bool) (cur s : string) : list string :=
  match fuel, s with
  | S fuel, String c rest =>
      match boundary isStr s with
      | Some width => (if keepEnds then cur +:+ stake width s else cur) :: splitLines_loop fuel isStr keepEnds "" (sdrop width s)
      | None => splitLines_loop fuel isStr keepEnds (cur +:+ String c "") rest
      end
  | _, _ => if String.eqb cur "" then [] else [cur]
  end.
Definition splitLinesMode (s : string) (isStr keepEnds : bool) : list string := splitLines_loop (slen s) isStr keepEnds "" s.
Definition splitLines (s : string) (isStr : bool) : list string := splitLinesMode s isStr false.
Definition splitLinesKeepEnds (s : string) (isStr : bool) : list string := splitLinesMode s isStr true.
Definition splitLinesStr (s : string) : list string := splitLines s true.
Definition splitLinesBytes (s : string) : list string := splitLines s false.

(** ** Decoding with replacement *)

Definition inRange (lo hi : Z) (c : ascii) : bool := negb ((byteZ c <? lo) || (hi <? byteZ c)).
Abbreviation tail_byte := (inRange 0x80 0xbf).

(** The length of the maximal subpart at the front, and whether it is complete. *)
Definition utf8SequenceLen (s : string) : nat * bool :=
  match s with
  | "" => (0%nat, true)
  | String c0 rest =>
      let c := byteZ c0 in
      if c <? 0x80 then (1%nat, true) else
      if c <? 0xc2 then (1%nat, false) else
      if c <? 0xe0 then
        match rest with String c1 _ => if tail_byte c1 then (2%nat, true) else (1%nat, false) | "" => (1%nat, false) end
      else if c <? 0xf0 then
        let lo := if c =? 0xe0 then 0xa0 else 0x80 in
        let hi := if c =? 0xe0 then 0xbf else if c =? 0xed then 0x9f else 0xbf in
        match rest with
        | "" => (1%nat, false)
        | String c1 rest =>
            if negb (inRange lo hi c1) then (1%nat, false) else
            match rest with String c2 _ => if tail_byte c2 then (3%nat, true) else (2%nat, false) | "" => (2%nat, false) end
        end
      else if c <? 0xf5 then
        let lo := if c =? 0xf0 then 0x90 else 0x80 in
        let hi := if c =? 0xf0 then 0xbf else if c =? 0xf4 then 0x8f else 0xbf in
        match rest with
        | "" => (1%nat, false)
        | String c1 rest =>
            if negb (inRange lo hi c1) then (1%nat, false) else
            match rest with
            | "" => (2%nat, false)
            | String c2 rest =>
                if negb (tail_byte c2) then (2%nat, false) else
                match rest with String c3 _ => if tail_byte c3 then (4%nat, true) else (3%nat, false) | "" => (3%nat, false) end
            end
        end
      else (1%nat, false)
  end.

Definition replacement : string := of_bytes (EncodeRune RuneError).

Fixpoint decodeUTF8_loop (fuel : nat) (b : string) : string :=
  match fuel, b with
  | S fuel, String c rest =>
      if byteZ c <? 0x80 then String c (decodeUTF8_loop fuel rest) else
      let '(size, ok) := utf8SequenceLen b in
      (if ok then stake size b else replacement) +:+ decodeUTF8_loop fuel (sdrop size b)
  | _, _ => ""
  end.
Definition decodeUTF8Replace (b : string) : string := decodeUTF8_loop (slen b) b.

(** ** Stripping *)

(** [unicode.Zs]. *)
Definition isZs (r : Z) : bool :=
  (r =? 0x20) || (r =? 0xa0) || (r =? 0x1680) || ((0x2000 <=? r) && (r <=? 0x200a)) || (r =? 0x202f) || (r =? 0x205f) || (r =? 0x3000).
Definition isPythonSpace (r : Z) : bool :=
  (r =? 9) || (r =? 10) || (r =? 11) || (r =? 12) || (r =? 13) || (r =? 32) || (r =? 0x1c) || (r =? 0x1d) || (r =? 0x1e) || (r =? 0x1f)
  || (r =? 0x85) || (r =? 0xa0) || isZs r || (r =? 0x2028) || (r =? 0x2029).

Fixpoint TrimLeftFunc (fuel : nat) (f : Z → bool) (s : string) : string :=
  match fuel, s with
  | S fuel, String _ _ => let '(r, n) := DecodeRune s in if f r then TrimLeftFunc fuel f (sdrop n s) else s
  | _, _ => s
  end.
Fixpoint TrimRightFunc (fuel : nat) (f : Z → bool) (s : string) : string :=
  match fuel, s with
  | S fuel, String _ _ => let '(r, n) := DecodeLastRune s in if f r then TrimRightFunc fuel f (stake (slen s - n) s) else s
  | _, _ => s
  end.
Definition pythonStrip (s : string) : string :=
  let s := TrimLeftFunc (slen s) isPythonSpace s in TrimRightFunc (slen s) isPythonSpace s.
Definition pythonStartsWith (s prefix : string) : bool := HasPrefix s prefix.

(** ** Paths *)

Fixpoint TrimRightByte (s : string) (c : ascii) : string :=
  match s with
  | "" => ""
  | String d s => let r := TrimRightByte s c in if String.eqb r "" && Ascii.eqb d c then "" else String d r
  end.

Definition pythonPathJoin (base p : string) : string :=
  if String.eqb p "" then base else
  if IsAbs p then p else
  if String.eqb base "" then p else
  TrimRightByte base "/" +:+ "/" +:+ p.

Definition pythonPathParts (p : string) : list string :=
  (if HasPrefix p "/" then ["/"] else [])
  ++ filter (λ part, negb (String.eqb part "" || String.eqb part ".") = true) (Split p "/").

(** ** Lemmas *)

Lemma inRange_cont lo hi c : inRange lo hi c = cont lo hi c.
Proof. unfold inRange, cont. rewrite negb_orb, <- !Z.leb_antisym. done. Qed.

(** The maximal subpart, as the tokenizer computes it. *)
Lemma utf8SequenceLen_lead c rest :
  0x80 ≤ byteZ c →
  utf8SequenceLen (String c rest)
  = match utf8Lead (byteZ c) with None => (1%nat, false) | Some (need, lo, hi) => let '(n, good) := continuation need lo hi rest in (S n, good) end.
Proof.
  intros Hc. unfold utf8SequenceLen, utf8Lead, inRange. cbn zeta.
  destruct (Z.ltb_spec (byteZ c) 0x80); [lia|].
  destruct (Z.ltb_spec (byteZ c) 0xc2), (Z.leb_spec 0xC2 (byteZ c)), (Z.ltb_spec (byteZ c) 0xe0), (Z.leb_spec (byteZ c) 0xDF), (Z.leb_spec 0xE0 (byteZ c)),
    (Z.leb_spec (byteZ c) 0xEF), (Z.ltb_spec (byteZ c) 0xf0), (Z.leb_spec 0xF0 (byteZ c)), (Z.ltb_spec (byteZ c) 0xf5), (Z.leb_spec (byteZ c) 0xF4); try lia; cbn [andb]; try done.
  all: destruct rest as [|c1 [|c2 [|c3 rest]]]; cbn [continuation]; rewrite ?negb_involutive; try done.
  all: repeat (match goal with |- context [if ?b then _ else _] => destruct b eqn:? end; cbn [negb]; try done).
Qed.

Lemma decode_loops_agree fuel b : decodeUTF8_loop fuel b = Bpe.decodeUTF8_loop fuel true b.
Proof.
  revert b. induction fuel as [|fuel IH]; intros b; [done|]. destruct b as [|c rest]; [done|]. cbn [decodeUTF8_loop Bpe.decodeUTF8_loop].
  destruct (Z.ltb_spec (byteZ c) 0x80) as [|Hc]; [by rewrite IH|]. rewrite utf8SequenceLen_lead by done.
  destruct (utf8Lead (byteZ c)) as [[[need lo] hi]|]; [|by rewrite IH]. destruct (continuation need lo hi rest) as [n []]; by rewrite IH.
Qed.

(** A rune that decodes is a complete sequence. *)
Lemma utf8SequenceLen_decodes s r n : s ≠ "" → DecodeRune s = (r, n) → (r =? RuneError) && (n =? 1)%nat = false → utf8SequenceLen s = (n, true).
Proof.
  destruct s as [|c rest]; [done|]. intros _ Hd Hok. unfold DecodeRune, accept2 in Hd. unfold utf8SequenceLen. cbn zeta.
  assert (∀ lo hi d, inRange lo hi d = cont lo hi d) as Hr by (intros; apply inRange_cont).
  destruct (Z.ltb_spec (byteZ c) 0x80).
  { destruct (if byteZ c =? 0xE0 then _ else _) as [lo hi]. by simplify_eq. }
  destruct (Z.ltb_spec (byteZ c) 0xc2), (Z.leb_spec 0xC2 (byteZ c)), (Z.leb_spec (byteZ c) 0xDF), (Z.leb_spec 0xE0 (byteZ c)), (Z.leb_spec (byteZ c) 0xEF),
    (Z.leb_spec 0xF0 (byteZ c)), (Z.leb_spec (byteZ c) 0xF4), (Z.ltb_spec (byteZ c) 0xe0), (Z.ltb_spec (byteZ c) 0xf0), (Z.ltb_spec (byteZ c) 0xf5); try lia; cbn [andb] in Hd;
  destruct (Z.eqb_spec (byteZ c) 0xE0), (Z.eqb_spec (byteZ c) 0xED), (Z.eqb_spec (byteZ c) 0xF0), (Z.eqb_spec (byteZ c) 0xF4); try lia;
  destruct rest as [|c1 [|c2 [|c3 rest]]]; cbn in Hd; simplify_eq; try done; rewrite ?Hr;
  repeat (match type of Hd with context [cont ?a ?b ?d] => destruct (cont a b d) end; cbn [andb negb] in *; simplify_eq; try done).
Qed.

Lemma decode_loop_id fuel b : (slen b ≤ fuel)%nat → Valid b = true → decodeUTF8_loop fuel b = b.
Proof.
  revert b. induction fuel as [|fuel IH]; intros b Hf Hv; destruct b as [|c rest]; [done|cbn in Hf; lia|done|].
  unfold Valid in Hv. cbn [slen String.length Valid_fuel] in Hv. destruct (DecodeRune (String c rest)) as [r n] eqn:E.
  destruct (DecodeRune_width _ _ _ E) as [H1 H2]; [done|]. destruct ((r =? RuneError) && _) eqn:Hb; [done|].
  rewrite Valid_fuel_enough in Hv by (rewrite slen_sdrop; unfold slen in *; cbn in *; lia). specialize (IH (sdrop n (String c rest))).
  rewrite slen_sdrop in IH. specialize (IH ltac:(lia) Hv). pose proof (utf8SequenceLen_decodes (String c rest) r n ltac:(done) E Hb) as Hl. cbn [decodeUTF8_loop].
  destruct (Z.ltb_spec (byteZ c) 0x80) as [Hc|Hc].
  - unfold utf8SequenceLen in Hl. rewrite (proj2 (Z.ltb_lt _ _) Hc) in Hl. injection Hl as <-. cbn in IH. by rewrite IH.
  - rewrite Hl, IH. apply stake_sdrop.
Qed.

(** The git store's decoder and the tokenizer's are two implementations of
    [bytes.decode("utf-8", "replace")]: they agree on every input, their result is valid
    UTF-8, and text that is valid is not changed. *)
Lemma decodeUTF8Replace_spec b :
  decodeUTF8Replace b = Bpe.decodeUTF8Replace b ∧ Valid (decodeUTF8Replace b) = true ∧ (Valid b = true → decodeUTF8Replace b = b).
Proof.
  assert (Hid : Valid b = true → decodeUTF8Replace b = b) by (by apply decode_loop_id). split_and!; [|unfold decodeUTF8Replace; rewrite decode_loops_agree; apply decodeUTF8_loop_valid|done].
  unfold Bpe.decodeUTF8Replace, decodeUTF8. destruct (Valid b) eqn:E; [by apply Hid|]. apply decode_loops_agree.
Qed.

(** [strip] removes what the text helpers' [PyStrip] removes. *)
Lemma isPythonSpace_table r : isPythonSpace r = PyIsSpace r.
Proof.
  apply eq_bool_prop_intro. rewrite !Is_true_true, PyIsSpace_table. unfold isPythonSpace, isZs. split.
  - intros H.
    assert (Hrng : ∀ lo hi, (lo, hi) ∈ pySpaceRanges → lo ≤ r ≤ hi → ∃ rng, rng ∈ pySpaceRanges ∧ rng.1 ≤ r ≤ rng.2) by (intros lo hi ? ?; by exists (lo, hi)).
    repeat (apply orb_true_iff in H as [H|H]); bool_hyps; unfold pySpaceRanges in *;
      first [apply (Hrng 0x0009 0x000D); [set_solver|lia]|apply (Hrng 0x001C 0x0020); [set_solver|lia]|apply (Hrng 0x0085 0x0085); [set_solver|lia]
            |apply (Hrng 0x00A0 0x00A0); [set_solver|lia]|apply (Hrng 0x1680 0x1680); [set_solver|lia]|apply (Hrng 0x2000 0x200A); [set_solver|lia]
            |apply (Hrng 0x2028 0x2029); [set_solver|lia]|apply (Hrng 0x202F 0x202F); [set_solver|lia]|apply (Hrng 0x205F 0x205F); [set_solver|lia]
            |apply (Hrng 0x3000 0x3000); [set_solver|lia]].
  - intros (rng & Hin & Hr). unfold pySpaceRanges in Hin. rewrite !elem_of_cons in Hin.
    repeat (destruct Hin as [->|Hin]); [..|by apply elem_of_nil in Hin]; cbn [fst snd] in Hr;
      repeat (match goal with |- context [r =? ?k] => destruct (Z.eqb_spec r k); [by rewrite ?orb_true_r|] end);
      rewrite ?(proj2 (Z.leb_le 0x2000 r)), ?(proj2 (Z.leb_le r 0x200a)) by lia; try (by rewrite ?orb_true_r); lia.
Qed.

Lemma TrimLeftFunc_Py fuel s : TrimLeftFunc fuel isPythonSpace s = PyLStrip_loop fuel s.
Proof.
  revert s. induction fuel as [|fuel IH]; intros s; [done|]. destruct s as [|c s]; [done|]. cbn [TrimLeftFunc PyLStrip_loop].
  destruct (DecodeRune _) as [r n]. rewrite isPythonSpace_table. by destruct (PyIsSpace r); rewrite ?IH.
Qed.

Lemma TrimRightFunc_Py fuel s : TrimRightFunc fuel isPythonSpace s = PyRStrip_loop fuel s.
Proof.
  revert s. induction fuel as [|fuel IH]; intros s; [done|]. destruct s as [|c s]; [done|]. cbn [TrimRightFunc PyRStrip_loop].
  destruct (DecodeLastRune _) as [r n]. rewrite isPythonSpace_table. by destruct (PyIsSpace r); rewrite ?IH.
Qed.

Lemma pythonStrip_Py s : pythonStrip s = PyStrip s.
Proof. unfold pythonStrip, PyStrip, PyLStrip, PyRStrip. rewrite TrimLeftFunc_Py. apply TrimRightFunc_Py. Qed.

(** Lines with their ends make up the text. *)
Lemma boundary_width isStr s w : boundary isStr s = Some w → (1 ≤ w ≤ slen s)%nat.
Proof. destruct s as [|c [|d [|e s]]]; cbn; intros H; repeat case_match; simplify_eq; lia. Qed.

Lemma splitLines_loop_concat fuel isStr cur s :
  (slen s ≤ fuel)%nat → Join (splitLines_loop fuel isStr true cur s) "" = cur +:+ s.
Proof.
  assert (Hj : ∀ w ws, Join (w :: ws) "" = w +:+ Join ws "") by (intros w [|]; [cbn; by rewrite sapp_nil_r|done]).
  assert (Hend : ∀ cur, Join (if String.eqb cur "" then [] else [cur]) "" = cur +:+ "").
  { intros c. rewrite sapp_nil_r. by destruct (String.eqb_spec c "") as [->|]. }
  revert cur s. induction fuel as [|fuel IH]; intros cur s Hf; destruct s as [|c rest]; [apply Hend|cbn in Hf; lia|apply Hend|].
  cbn [splitLines_loop]. destruct (boundary isStr (String c rest)) as [w|] eqn:E.
  - apply boundary_width in E. rewrite Hj, IH; [|rewrite slen_sdrop; cbn in *; lia]. cbn [String.append]. by rewrite <- sapp_assoc, stake_sdrop.
  - rewrite IH by (cbn in Hf; unfold slen; lia). by rewrite <- sapp_assoc.
Qed.

Lemma splitLinesKeepEnds_concat s isStr : Join (splitLinesKeepEnds s isStr) "" = s.
Proof. by apply splitLines_loop_concat. Qed.
