(* ===== verification/PyDiff.v ===== *)
(** * Python's difflib (src/internal/gitstore/pydifflib.go)

    [SequenceMatcher] over lines and [unified_diff].  Indices are natural numbers; a Go
    map from lines or from indices is a [gmap]; the stack of regions and the loops that
    extend a match run on fuel. *)

From Stdlib Require Import Ascii.
From stdpp Require Import gmap strings list.
From S2P Require Import Prelude GoText GoLib.

Open Scope string_scope.
Open Scope list_scope.
Open Scope nat_scope.

Abbreviation lines := (list string).

(** [s[lo:hi]]. *)
(** A matching block [a[i:i+k] == b[j:j+k]]. *)
Record seqMatch := mkMatch { m_i : nat; m_j : nat; m_k : nat }.

Inductive opTag := Replace | Delete | Insert | Equal.
#[export] Instance opTag_eq_dec : EqDecision opTag.
Proof. solve_decision. Defined.
Record seqOpcode := mkOp { op_tag : opTag; op_i1 : nat; op_i2 : nat; op_j1 : nat; op_j2 : nat }.

Record seqMatcher := mkMatcher { sm_a : lines; sm_b : lines; sm_b2j : gmap string (list nat); sm_bjunk : gset string; sm_bpopular : gset string }.

(** ** The index of [b] *)

Fixpoint indexLines (b : lines) (i : nat) (b2j : gmap string (list nat)) : gmap string (list nat) :=
  match b with
  | [] => b2j
  | elt :: b => indexLines b (S i) (<[elt := default [] (b2j !! elt) ++ [i]]> b2j)
  end.

Definition removeAll (junk : gset string) (b2j : gmap string (list nat)) : gmap string (list nat) := filter (λ kv, kv.1 ∉ junk) b2j.

Definition chainB (isJunk : option (string → bool)) (a b : lines) : seqMatcher :=
  let b2j := indexLines b 0 ∅ in
  let bjunk := match isJunk with None => ∅ | Some f => filter (λ elt, f elt = true) (dom b2j) end in
  let b2j := removeAll bjunk b2j in
  let n := length b in
  let bpopular := if 200 <=? n then dom (filter (λ kv, n / 100 + 1 < length kv.2) b2j) else ∅ in
  mkMatcher a b (removeAll bpopular b2j) bjunk bpopular.

Definition newSeqMatcher : option (string → bool) → lines → lines → seqMatcher := chainB.

(** ** The longest match in a region *)

Definition lineAt (l : lines) (i : nat) : string := default "" (l !! i).

(** [j2len[j-1]]; no index is below 0. *)
Definition lenBefore (j2len : gmap nat nat) (j : nat) : nat := match j with O => 0 | S j => default 0 (j2len !! j) end.

(** The loop over the indices of [a[i]] in [b]. *)
Fixpoint matchRow (js : list nat) (i blo bhi : nat) (j2len new : gmap nat nat) (best : seqMatch) : gmap nat nat * seqMatch :=
  match js with
  | [] => (new, best)
  | j :: js =>
      if j <? blo then matchRow js i blo bhi j2len new best else
      if bhi <=? j then (new, best) else
      let k := lenBefore j2len j + 1 in
      matchRow js i blo bhi j2len (<[j := k]> new) (if m_k best <? k then mkMatch (i + 1 - k) (j + 1 - k) k else best)
  end.

(** The loop over [i]; [count] is [ahi - i]. *)
Fixpoint matchRows (count : nat) (m : seqMatcher) (i blo bhi : nat) (j2len : gmap nat nat) (best : seqMatch) : seqMatch :=
  match count with
  | O => best
  | S count =>
      let '(j2len, best) := matchRow (default [] (sm_b2j m !! lineAt (sm_a m) i)) i blo bhi j2len ∅ best in
      matchRows count m (S i) blo bhi j2len best
  end.

Definition isbjunk (m : seqMatcher) (s : string) : bool := bool_decide (s ∈ sm_bjunk m).

(** The four loops that extend the match: [junk] says which lines are taken. *)
Fixpoint extendBack (fuel : nat) (m : seqMatcher) (junk : bool) (alo blo : nat) (x : seqMatch) : seqMatch :=
  match fuel with
  | O => x
  | S fuel =>
      if (alo <? m_i x) && (blo <? m_j x) && Bool.eqb (isbjunk m (lineAt (sm_b m) (m_j x - 1))) junk
         && String.eqb (lineAt (sm_a m) (m_i x - 1)) (lineAt (sm_b m) (m_j x - 1))
      then extendBack fuel m junk alo blo (mkMatch (m_i x - 1) (m_j x - 1) (m_k x + 1)) else x
  end.
Fixpoint extendForward (fuel : nat) (m : seqMatcher) (junk : bool) (ahi bhi : nat) (x : seqMatch) : seqMatch :=
  match fuel with
  | O => x
  | S fuel =>
      if (m_i x + m_k x <? ahi) && (m_j x + m_k x <? bhi) && Bool.eqb (isbjunk m (lineAt (sm_b m) (m_j x + m_k x))) junk
         && String.eqb (lineAt (sm_a m) (m_i x + m_k x)) (lineAt (sm_b m) (m_j x + m_k x))
      then extendForward fuel m junk ahi bhi (mkMatch (m_i x) (m_j x) (m_k x + 1)) else x
  end.

Definition findLongestMatch (m : seqMatcher) (alo ahi blo bhi : nat) : seqMatch :=
  let x := matchRows (ahi - alo) m alo blo bhi ∅ (mkMatch alo blo 0) in
  let x := extendBack (m_i x) m false alo blo x in
  let x := extendForward ahi m false ahi bhi x in
  let x := extendBack (m_i x) m true alo blo x in
  extendForward ahi m true ahi bhi x.

(** ** Matching blocks *)

Record region := mkRegion { g_alo : nat; g_ahi : nat; g_blo : nat; g_bhi : nat }.

(** The stack loop: the top of the stack is the head of the list. *)
Fixpoint blocksLoop (fuel : nat) (m : seqMatcher) (stack : list region) (blocks : list seqMatch) : option (list seqMatch) :=
  match stack, fuel with
  | [], _ => Some blocks
  | _, O => None
  | r :: stack, S fuel =>
      let x := findLongestMatch m (g_alo r) (g_ahi r) (g_blo r) (g_bhi r) in
      if m_k x =? 0 then blocksLoop fuel m stack blocks else
      let stack := if (g_alo r <? m_i x) && (g_blo r <? m_j x) then mkRegion (g_alo r) (m_i x) (g_blo r) (m_j x) :: stack else stack in
      let stack := if (m_i x + m_k x <? g_ahi r) && (m_j x + m_k x <? g_bhi r)
                   then mkRegion (m_i x + m_k x) (g_ahi r) (m_j x + m_k x) (g_bhi r) :: stack else stack in
      blocksLoop fuel m stack (blocks ++ [x])
  end.

(** The order of [sort.Slice]. *)
Definition matchLe (x y : seqMatch) : bool :=
  if negb (m_i x =? m_i y) then m_i x <? m_i y else
  if negb (m_j x =? m_j y) then m_j x <? m_j y else m_k x <=? m_k y.

Fixpoint collapse (blocks : list seqMatch) (cur : seqMatch) : list seqMatch :=
  match blocks with
  | [] => if m_k cur =? 0 then [] else [cur]
  | b :: blocks =>
      if (m_i cur + m_k cur =? m_i b) && (m_j cur + m_k cur =? m_j b)
      then collapse blocks (mkMatch (m_i cur) (m_j cur) (m_k cur + m_k b))
      else (if m_k cur =? 0 then [] else [cur]) ++ collapse blocks b
  end.

(** A region is at most as often on the stack as there are lines to match. *)
Definition blocksFuel (m : seqMatcher) : nat := 2 * length (sm_a m) + 1.

Definition getMatchingBlocks (m : seqMatcher) : option (list seqMatch) :=
  let la := length (sm_a m) in
  let lb := length (sm_b m) in
  blocks ← blocksLoop (blocksFuel m) m [mkRegion 0 la 0 lb] [];
  Some (collapse (sort_by matchLe blocks) (mkMatch 0 0 0) ++ [mkMatch la lb 0]).

(** ** Opcodes *)

Fixpoint opcodesFrom (i j : nat) (blocks : list seqMatch) : list seqOpcode :=
  match blocks with
  | [] => []
  | b :: blocks =>
      let ai := m_i b in
      let bj := m_j b in
      (if (i <? ai) && (j <? bj) then [mkOp Replace i ai j bj]
       else if i <? ai then [mkOp Delete i ai j bj]
       else if j <? bj then [mkOp Insert i ai j bj] else [])
      ++ (if m_k b =? 0 then [] else [mkOp Equal ai (ai + m_k b) bj (bj + m_k b)])
      ++ opcodesFrom (ai + m_k b) (bj + m_k b) blocks
  end.
Definition getOpcodes (m : seqMatcher) : option (list seqOpcode) := blocks ← getMatchingBlocks m; Some (opcodesFrom 0 0 blocks).

Definition isEqual (c : seqOpcode) : bool := bool_decide (op_tag c = Equal).
Definition trimFirst (n : nat) (c : seqOpcode) : seqOpcode :=
  if isEqual c then mkOp Equal (Nat.max (op_i1 c) (op_i2 c - n)) (op_i2 c) (Nat.max (op_j1 c) (op_j2 c - n)) (op_j2 c) else c.
Definition trimLast (n : nat) (c : seqOpcode) : seqOpcode :=
  if isEqual c then mkOp Equal (op_i1 c) (Nat.min (op_i2 c) (op_i1 c + n)) (op_j1 c) (Nat.min (op_j2 c) (op_j1 c + n)) else c.
Fixpoint mapLast (f : seqOpcode → seqOpcode) (l : list seqOpcode) : list seqOpcode :=
  match l with [] => [] | [c] => [f c] | c :: l => c :: mapLast f l end.

Fixpoint groupLoop (n : nat) (codes group : list seqOpcode) : list (list seqOpcode) :=
  match codes with
  | [] => match group with
          | [] => []
          | [c] => if isEqual c then [] else [group]
          | _ => [group]
          end
  | c :: codes =>
      if isEqual c && (n + n <? op_i2 c - op_i1 c) then
        (group ++ [mkOp Equal (op_i1 c) (Nat.min (op_i2 c) (op_i1 c + n)) (op_j1 c) (Nat.min (op_j2 c) (op_j1 c + n))])
        :: groupLoop n codes [mkOp Equal (Nat.max (op_i1 c) (op_i2 c - n)) (op_i2 c) (Nat.max (op_j1 c) (op_j2 c - n)) (op_j2 c)]
      else groupLoop n codes (group ++ [c])
  end.

Definition groupOpcodes (n : nat) (codes : list seqOpcode) : list (list seqOpcode) :=
  let codes := match codes with [] => [mkOp Equal 0 1 0 1] | _ => codes end in
  let codes := match codes with c :: codes => trimFirst n c :: codes | [] => [] end in
  groupLoop n (mapLast (trimLast n) codes) [].
Definition getGroupedOpcodes (m : seqMatcher) (n : nat) : option (list (list seqOpcode)) := codes ← getOpcodes m; Some (groupOpcodes n codes).

(** ** The unified diff *)

Definition formatRangeUnified (start stop : nat) : string :=
  let beginning := (Z.of_nat start + 1)%Z in
  let len := (Z.of_nat stop - Z.of_nat start)%Z in
  if (len =? 1)%Z then Itoa beginning else
  let beginning := if (len =? 0)%Z then (beginning - 1)%Z else beginning in
  Itoa beginning +:+ "," +:+ Itoa len.

Definition opLines (a b : lines) (op : seqOpcode) : list string :=
  match op_tag op with
  | Equal => map (λ l, " " +:+ l) (slice a (op_i1 op) (op_i2 op))
  | Replace => map (λ l, "-" +:+ l) (slice a (op_i1 op) (op_i2 op)) ++ map (λ l, "+" +:+ l) (slice b (op_j1 op) (op_j2 op))
  | Delete => map (λ l, "-" +:+ l) (slice a (op_i1 op) (op_i2 op))
  | Insert => map (λ l, "+" +:+ l) (slice b (op_j1 op) (op_j2 op))
  end.

Definition groupLines (a b : lines) (lineTerm : string) (group : list seqOpcode) : list string :=
  match head group, last group with
  | Some first, Some last_ =>
      ("@@ -" +:+ formatRangeUnified (op_i1 first) (op_i2 last_) +:+ " +" +:+ formatRangeUnified (op_j1 first) (op_j2 last_) +:+ " @@" +:+ lineTerm)
      :: concat (map (opLines a b) group)
  | _, _ => []
  end.

Definition unifiedDiff (a b : lines) (fromFile toFile : string) (n : nat) (lineTerm : string) : option (list string) :=
  groups ← getGroupedOpcodes (newSeqMatcher None a b) n;
  Some (match groups with
        | [] => []
        | _ => ("--- " +:+ fromFile +:+ lineTerm) :: ("+++ " +:+ toFile +:+ lineTerm) :: concat (map (groupLines a b lineTerm) groups)
        end).

Example unifiedDiff_example :
  unifiedDiff ["a"; "b"; "c"; "d"] ["a"; "x"; "c"; "d"; "e"] "f" "g" 1 ""
  = Some ["--- f"; "+++ g"; "@@ -1,4 +1,5 @@"; " a"; "-b"; "+x"; " c"; " d"; "+e"].
Proof. by vm_compute. Qed.
