(* ===== verification/PyDiffFacts.v ===== *)
(** * The diff turns the old lines into the new ones

    The matching blocks are common to both texts and in order, the stack loop ends, and
    applying the hunks of a unified diff to the old text gives the new one. *)

From Stdlib Require Import Ascii.
From stdpp Require Import gmap strings list.
From S2P Require Import Prelude GoText GoLib PyDiff.

Open Scope string_scope.
Open Scope list_scope.
Open Scope nat_scope.

(** ** The index of [b] *)

Definition sound_index (b : lines) (b2j : gmap string (list nat)) : Prop := ∀ s js j, b2j !! s = Some js → j ∈ js → b !! j = Some s.

Lemma indexLines_sound pre b b2j : sound_index (pre ++ b) b2j → sound_index (pre ++ b) (indexLines b (length pre) b2j).
Proof.
  revert pre b2j. induction b as [|elt b IH]; intros pre b2j Hs; [done|]. cbn [indexLines].
  replace (pre ++ elt :: b) with ((pre ++ [elt]) ++ b) in * by (by rewrite <- app_assoc). replace (S (length pre)) with (length (pre ++ [elt])) by (rewrite length_app; cbn; lia).
  apply IH. intros s js j Hl Hin. apply lookup_insert_Some in Hl as [[<- <-]|[_ Hl]]; [|by eapply Hs].
  apply elem_of_app in Hin as [Hin|Hin%list_elem_of_singleton]; [destruct (b2j !! elt) eqn:E; [by eapply Hs|by apply elem_of_nil in Hin]|].
  subst j. rewrite <- app_assoc, lookup_app_r, Nat.sub_diag by lia. done.
Qed.

Lemma removeAll_sound b junk b2j : sound_index b b2j → sound_index b (removeAll junk b2j).
Proof. intros Hs s js j [Hl _]%map_lookup_filter_Some. by eapply Hs. Qed.

Lemma chainB_sound isJunk a b : sound_index b (sm_b2j (chainB isJunk a b)).
Proof. cbn. apply removeAll_sound, removeAll_sound, (indexLines_sound []). intros s js j Hl. by rewrite lookup_empty in Hl. Qed.

(** ** Matches *)

Section Match.
Context (m : seqMatcher).
Abbreviation a := (sm_a m).
Abbreviation b := (sm_b m).
Hypothesis index_sound : sound_index b (sm_b2j m).

Definition common (i j k : nat) : Prop := ∀ t, t < k → ∃ s, a !! (i + t) = Some s ∧ b !! (j + t) = Some s.

Record matchIn (alo ahi blo bhi : nat) (x : seqMatch) : Prop := mkMatchIn
  { mi_lo : alo ≤ m_i x ∧ blo ≤ m_j x; mi_hi : m_i x + m_k x ≤ ahi ∧ m_j x + m_k x ≤ bhi; mi_common : common (m_i x) (m_j x) (m_k x) }.

Lemma common_grow i j k s : common i j k → a !! (i + k) = Some s → b !! (j + k) = Some s → common i j (k + 1).
Proof. intros Hc Ha Hb t Ht. destruct (decide (t = k)) as [->|]; [eauto|]. apply Hc. lia. Qed.

Lemma common_back i j k s : common (S i) (S j) k → a !! i = Some s → b !! j = Some s → common i j (k + 1).
Proof.
  intros Hc Ha Hb [|t] Ht; [rewrite !Nat.add_0_r; eauto|]. rewrite <- !Nat.add_succ_comm. apply Hc. lia.
Qed.

Context (alo ahi blo bhi : nat).
Hypothesis ranges : ahi ≤ length a ∧ bhi ≤ length b.

(** The lengths kept for the rows before [e]: matches that end at [e] and after [j]. *)
Definition row_sound (e : nat) (j2len : gmap nat nat) : Prop :=
  ∀ j k, j2len !! j = Some k → 1 ≤ k ∧ alo + k ≤ e ∧ blo + k ≤ j + 1 ∧ j < bhi ∧ common (e - k) (j + 1 - k) k.

Lemma lenBefore_sound i j old :
  row_sound i old → alo ≤ i → blo ≤ j →
  alo + lenBefore old j ≤ i ∧ blo + lenBefore old j ≤ j ∧ common (i - lenBefore old j) (j - lenBefore old j) (lenBefore old j).
Proof.
  intros Ho Hi Hj. destruct j as [|j]; cbn [lenBefore]; [split_and!; [lia|lia|]; intros t Ht; lia|].
  destruct (old !! j) as [k|] eqn:E; cbn [default from_option id]; [|split_and!; [lia|lia|]; intros t Ht; lia].
  destruct (Ho j k E) as (_ & H1 & H2 & _ & H3). split_and!; [lia|lia|]. by replace (S j - k) with (j + 1 - k) by lia.
Qed.

Lemma matchRow_sound js i old new best s :
  alo ≤ i < ahi → a !! i = Some s → (∀ j, j ∈ js → b !! j = Some s) →
  row_sound i old → row_sound (S i) new → matchIn alo ahi blo bhi best →
  let '(new', best') := matchRow js i blo bhi old new best in row_sound (S i) new' ∧ matchIn alo ahi blo bhi best'.
Proof.
  intros Hi Ha Hjs Hold. revert new best. induction js as [|j js IH]; intros new best Hnew Hbest; [done|]. cbn [matchRow].
  destruct (Nat.ltb_spec j blo); [apply IH; [set_solver|done|done]|]. destruct (Nat.leb_spec bhi j); [done|].
  destruct (lenBefore_sound i j old Hold ltac:(lia) ltac:(lia)) as (H1 & H2 & H3). set (k0 := lenBefore old j) in *.
  assert (Hc : common (i - k0) (j - k0) (k0 + 1)).
  { apply (common_grow _ _ _ s H3); [by replace (i - k0 + k0) with i by lia|]. replace (j - k0 + k0) with j by lia. apply Hjs. by left. }
  apply IH; [set_solver| |].
  - intros j' k' [[<- <-]|[_ Hl]]%lookup_insert_Some; [|by apply Hnew]. split_and!; try lia. by replace (S i - (k0 + 1)) with (i - k0) by lia; replace (j + 1 - (k0 + 1)) with (j - k0) by lia.
  - destruct (m_k best <? k0 + 1); [|done]. split; cbn [m_i m_j m_k]; try lia. by replace (i + 1 - (k0 + 1)) with (i - k0) by lia; replace (j + 1 - (k0 + 1)) with (j - k0) by lia.
Qed.

Lemma matchRows_sound count i j2len best :
  alo ≤ i → i + count ≤ ahi → row_sound i j2len → matchIn alo ahi blo bhi best → matchIn alo ahi blo bhi (matchRows count m i blo bhi j2len best).
Proof.
  revert i j2len best. induction count as [|count IH]; intros i j2len best Hi Hc Hr Hb; [done|]. cbn [matchRows].
  destruct (lookup_lt_is_Some_2 a i) as [s Hs]; [lia|]. unfold lineAt. rewrite Hs. cbn [default].
  pose proof (matchRow_sound (default [] (sm_b2j m !! s)) i j2len ∅ best s ltac:(lia) Hs) as Hrow.
  destruct (matchRow _ i blo bhi j2len ∅ best) as [new best']. destruct Hrow as [H1 H2]; [|done| |done|by apply IH; [lia|lia|..]].
  - intros j Hj. destruct (sm_b2j m !! s) as [js|] eqn:E; [by eapply index_sound|by apply elem_of_nil in Hj].
  - intros j k Hl. by rewrite lookup_empty in Hl.
Qed.

Lemma extendBack_sound fuel junk x : matchIn alo ahi blo bhi x → matchIn alo ahi blo bhi (extendBack fuel m junk alo blo x).
Proof.
  revert x. induction fuel as [|fuel IH]; intros x Hx; [done|]. cbn [extendBack]. destruct (_ && _) eqn:E; [|done].
  rewrite !andb_true_iff, !Nat.ltb_lt, String.eqb_eq in E. destruct E as [[[H1 H2] _] He]. apply IH. destruct Hx as [Hlo Hhi Hc]. split; cbn [m_i m_j m_k]; try lia.
  destruct (lookup_lt_is_Some_2 a (m_i x - 1)) as [s Hs]; [lia|]. destruct (lookup_lt_is_Some_2 b (m_j x - 1)) as [s' Hs']; [lia|].
  unfold lineAt in He. rewrite Hs, Hs' in He. cbn in He. subst s'. apply (common_back _ _ _ s); [|done|done].
  by replace (S (m_i x - 1)) with (m_i x) by lia; replace (S (m_j x - 1)) with (m_j x) by lia.
Qed.

Lemma extendForward_sound fuel junk x : matchIn alo ahi blo bhi x → matchIn alo ahi blo bhi (extendForward fuel m junk ahi bhi x).
Proof.
  revert x. induction fuel as [|fuel IH]; intros x Hx; [done|]. cbn [extendForward]. destruct (_ && _) eqn:E; [|done].
  rewrite !andb_true_iff, !Nat.ltb_lt, String.eqb_eq in E. destruct E as [[[H1 H2] _] He]. apply IH. destruct Hx as [Hlo Hhi Hc]. split; cbn [m_i m_j m_k]; try lia.
  destruct (lookup_lt_is_Some_2 a (m_i x + m_k x)) as [s Hs]; [lia|]. destruct (lookup_lt_is_Some_2 b (m_j x + m_k x)) as [s' Hs']; [lia|].
  unfold lineAt in He. rewrite Hs, Hs' in He. cbn in He. subst s'. by apply (common_grow _ _ _ s).
Qed.

Lemma findLongestMatch_sound : alo ≤ ahi → blo ≤ bhi → matchIn alo ahi blo bhi (findLongestMatch m alo ahi blo bhi).
Proof.
  intros Ha Hb. unfold findLongestMatch. apply extendForward_sound, extendBack_sound, extendForward_sound, extendBack_sound, matchRows_sound; [lia|lia| |].
  - intros j k Hl. by rewrite lookup_empty in Hl.
  - split; cbn; try lia. intros t Ht. lia.
Qed.
End Match.

(** ** The match is the longest one *)

(** Every line of [b] is in the index, in order. *)
Definition full_index (b : lines) (b2j : gmap string (list nat)) : Prop :=
  (∀ s j, b !! j = Some s → ∃ js, b2j !! s = Some js ∧ j ∈ js) ∧ ∀ s js, b2j !! s = Some js → StronglySorted lt js.

Lemma StronglySorted_snoc (l : list nat) x : StronglySorted lt l → Forall (λ y, y < x) l → StronglySorted lt (l ++ [x]).
Proof.
  intros Hs Hx. induction Hs as [|y l Hs IH Hy]; cbn; [by repeat constructor|]. apply Forall_cons in Hx as [Hyx Hx]. constructor; [auto|]. apply Forall_app. split; [done|by repeat constructor].
Qed.

Lemma indexLines_full pre b b2j :
  sound_index pre b2j → full_index pre b2j → full_index (pre ++ b) (indexLines b (length pre) b2j).
Proof.
  revert pre b2j. induction b as [|elt b IH]; intros pre b2j Hs [Hf Ho]; [by rewrite app_nil_r|]. cbn [indexLines].
  replace (pre ++ elt :: b) with ((pre ++ [elt]) ++ b) by (by rewrite <- app_assoc). replace (S (length pre)) with (length (pre ++ [elt])) by (rewrite length_app; cbn; lia).
  set (js := default [] (b2j !! elt)). assert (Hjs : ∀ j, j ∈ js → pre !! j = Some elt) by (unfold js; intros j Hj; destruct (b2j !! elt) eqn:E; [by eapply Hs|by apply elem_of_nil in Hj]).
  assert (Hnew : sound_index (pre ++ [elt]) (<[elt := js ++ [length pre]]> b2j)).
  { intros s l j [[<- <-]|[_ Hl]]%lookup_insert_Some Hin; [|apply lookup_app_l_Some; by eapply Hs].
    apply elem_of_app in Hin as [Hin|Hin%list_elem_of_singleton]; [by apply lookup_app_l_Some, Hjs|]. subst j. rewrite lookup_app_r, Nat.sub_diag by lia. done. }
  apply IH; [done|]. split.
  - intros s j Hj. apply lookup_app_Some in Hj as [Hj|[Hge Hj]].
    + destruct (Hf s j Hj) as (l & Hl & Hin). destruct (decide (s = elt)) as [->|Hne]; [|exists l; by rewrite lookup_insert_ne].
      exists (js ++ [length pre]). rewrite lookup_insert_eq. split; [done|]. unfold js. rewrite Hl. cbn. set_solver.
    + destruct (j - length pre) as [|d] eqn:Ed; [|done]. cbn in Hj. injection Hj as <-. exists (js ++ [length pre]). rewrite lookup_insert_eq. split; [done|].
      replace j with (length pre) by lia. set_solver.
  - intros s l [[<- <-]|[_ Hl]]%lookup_insert_Some; [|by eapply Ho]. apply StronglySorted_snoc; [unfold js; destruct (b2j !! elt) eqn:E; [by eapply Ho|constructor]|].
    apply Forall_forall. intros j Hj. by eapply lookup_lt_Some, Hjs.
Qed.

(** Without a junk function and below 200 lines nothing is left out. *)
Lemma chainB_full a b : length b < 200 → full_index b (sm_b2j (chainB None a b)).
Proof.
  intros Hb. unfold chainB. cbn [sm_b2j]. rewrite (proj2 (Nat.leb_gt 200 (length b)) Hb). assert (He : ∀ b2j, removeAll ∅ b2j = b2j).
  { intros b2j. unfold removeAll. apply map_filter_id. intros. cbn. set_solver. }
  rewrite !He. apply (indexLines_full []); [intros s js j Hl; by rewrite lookup_empty in Hl|]. split; [by intros s j|]. intros s js Hl. by rewrite lookup_empty in Hl.
Qed.

Section Longest.
Context (m : seqMatcher) (alo ahi blo bhi : nat).
Abbreviation a := (sm_a m).
Abbreviation b := (sm_b m).
Hypothesis index_full : full_index b (sm_b2j m).

Definition row_complete (e : nat) (j2len : gmap nat nat) : Prop :=
  ∀ j k, 1 ≤ k → alo + k ≤ e → blo + k ≤ j + 1 → j < bhi → common m (e - k) (j + 1 - k) k → ∃ k', j2len !! j = Some k' ∧ k ≤ k'.
Definition best_until (e : nat) (best : seqMatch) : Prop := ∀ x, matchIn m alo e blo bhi x → m_k x ≤ m_k best.

Lemma matchRow_spec js i old new best :
  StronglySorted lt js →
  let '(new', best') := matchRow js i blo bhi old new best in
  (∀ j, j ∈ js → blo ≤ j < bhi → new' !! j = Some (lenBefore old j + 1) ∧ lenBefore old j + 1 ≤ m_k best')
  ∧ (∀ j, j ∉ js → new' !! j = new !! j) ∧ m_k best ≤ m_k best'.
Proof.
  intros Hs. revert new best. induction Hs as [|j js Hs IH Hj]; intros new best; [cbn; split_and!; [by intros j ?%elem_of_nil|done|done]|]. cbn [matchRow].
  rewrite Forall_forall in Hj. destruct (Nat.ltb_spec j blo) as [Hlo|Hlo].
  { specialize (IH new best). destruct (matchRow js i blo bhi old new best) as [new' best']. destruct IH as (H1 & H2 & H3).
    split_and!; [|intros j' Hn; apply H2; set_solver|done]. intros j' [->|Hin]%elem_of_cons Hr; [lia|by apply H1]. }
  destruct (Nat.leb_spec bhi j) as [Hhi|Hhi].
  { split_and!; [|done|done]. intros j' [->|Hin]%elem_of_cons Hr; [lia|]. specialize (Hj j' Hin). lia. }
  set (best1 := if m_k best <? _ then _ else _). assert (Hb1 : m_k best ≤ m_k best1 ∧ lenBefore old j + 1 ≤ m_k best1).
  { unfold best1. destruct (Nat.ltb_spec (m_k best) (lenBefore old j + 1)); cbn [m_k]; lia. }
  specialize (IH (<[j := lenBefore old j + 1]> new) best1). destruct (matchRow js i blo bhi old _ best1) as [new' best']. destruct IH as (H1 & H2 & H3).
  assert (Hnj : j ∉ js) by (intros Hin; specialize (Hj j Hin); lia). split_and!; [| |lia].
  - intros j' [->|Hin]%elem_of_cons Hr; [|by apply H1]. rewrite H2 by done. rewrite lookup_insert_eq. split; [done|lia].
  - intros j' Hn. apply not_elem_of_cons in Hn as [Hne Hn]. rewrite H2 by done. by rewrite lookup_insert_ne.
Qed.

(** A match that ends at row [i] is one longer than what the row before knows. *)
Lemma longest_row i j k old : row_complete i old → 1 ≤ k → alo + k ≤ S i → blo + k ≤ j + 1 → j < bhi → common m (S i - k) (j + 1 - k) k → k ≤ lenBefore old j + 1.
Proof.
  intros Ho Hk Hi Hj Hb Hc. destruct (decide (k = 1)) as [->|Hk1]; [lia|]. destruct j as [|j]; [lia|]. cbn [lenBefore].
  destruct (Ho j (k - 1)) as (k' & -> & Hle); [lia|lia|lia|lia| |cbn; lia]. intros t Ht. destruct (Hc t ltac:(lia)) as (s & Ha & Hb').
  exists s. by replace (S i - k + t) with (i - (k - 1) + t) in Ha by lia; replace (S j + 1 - k + t) with (j + 1 - (k - 1) + t) in Hb' by lia.
Qed.

Lemma matchRows_longest count i j2len best :
  alo ≤ i → row_complete i j2len → best_until i best → best_until (i + count) (matchRows count m i blo bhi j2len best).
Proof.
  revert i j2len best. induction count as [|count IH]; intros i j2len best Hi Hr Hb; [by rewrite Nat.add_0_r|]. cbn [matchRows]. destruct index_full as [Hf Ho].
  set (js := default [] (sm_b2j m !! lineAt a i)). assert (Hjs : StronglySorted lt js) by (unfold js; destruct (sm_b2j m !! _) eqn:E; [by eapply Ho|constructor]).
  assert (Hin : ∀ j k, 1 ≤ k ≤ S i → k ≤ j + 1 → common m (S i - k) (j + 1 - k) k → j ∈ js).
  { intros j k Hk Hkj Hc. destruct (Hc (k - 1) ltac:(lia)) as (s & Ha & Hbj). replace (S i - k + (k - 1)) with i in Ha by lia. replace (j + 1 - k + (k - 1)) with j in Hbj by lia.
    destruct (Hf s j Hbj) as (l & Hl & Hin). unfold js, lineAt. rewrite Ha. cbn. by rewrite Hl. }
  pose proof (matchRow_spec js i j2len ∅ best Hjs) as Hrow. destruct (matchRow js i blo bhi j2len ∅ best) as [new best']. destruct Hrow as (H1 & _ & H3).
  replace (i + S count) with (S i + count) by lia. apply IH; [lia| |].
  - intros j k Hk Hki Hkj Hjb Hc. destruct (H1 j) as [Hnew _]; [apply (Hin j k); [lia|lia|done]|lia|]. exists (lenBefore j2len j + 1). split; [done|]. by eapply longest_row.
  - intros x [[Hlo1 Hlo2] [Hhi1 Hhi2] Hc]. destruct (decide (m_i x + m_k x ≤ i)) as [Hle|Hgt]; [etransitivity; [by apply Hb|done]|]. destruct (decide (m_k x = 0)) as [->|Hk]; [lia|].
    set (j := m_j x + m_k x - 1). assert (Hc' : common m (S i - m_k x) (j + 1 - m_k x) (m_k x)).
    { by replace (S i - m_k x) with (m_i x) by lia; replace (j + 1 - m_k x) with (m_j x) by lia. }
    destruct (H1 j) as [_ Hbest]; [apply (Hin j (m_k x)); [lia|lia|done]|lia|]. pose proof (longest_row i j (m_k x) j2len Hr ltac:(lia) ltac:(lia) ltac:(lia) ltac:(lia) Hc'). lia.
Qed.

Lemma extendBack_grows fuel junk x : m_k x ≤ m_k (extendBack fuel m junk alo blo x).
Proof. revert x. induction fuel as [|fuel IH]; intros x; [done|]. cbn [extendBack]. destruct (_ && _); [|done]. etransitivity; [|apply IH]. cbn. lia. Qed.

Lemma extendForward_grows fuel junk x : m_k x ≤ m_k (extendForward fuel m junk ahi bhi x).
Proof. revert x. induction fuel as [|fuel IH]; intros x; [done|]. cbn [extendForward]. destruct (_ && _); [|done]. etransitivity; [|apply IH]. cbn. lia. Qed.

Lemma findLongestMatch_longest x : alo ≤ ahi → matchIn m alo ahi blo bhi x → m_k x ≤ m_k (findLongestMatch m alo ahi blo bhi).
Proof.
  intros Ha Hx. unfold findLongestMatch. repeat (etransitivity; [|first [apply extendForward_grows|apply extendBack_grows]]).
  pose proof (matchRows_longest (ahi - alo) alo ∅ (mkMatch alo blo 0) ltac:(lia)) as Hm. replace (alo + (ahi - alo)) with ahi in Hm by lia. apply Hm; [|intros y [? ? ?]; cbn; lia|done].
  intros j k Hk Hki. lia.
Qed.
End Longest.

(** ** Boxes that are in order *)

Definition before (x y : region) : Prop := g_ahi x ≤ g_alo y ∧ g_bhi x ≤ g_blo y.
Definition ordered (x y : region) : Prop := before x y ∨ before y x.
Definition inside (x r : region) : Prop := g_alo r ≤ g_alo x ∧ g_ahi x ≤ g_ahi r ∧ g_blo r ≤ g_blo x ∧ g_bhi x ≤ g_bhi r.
Definition boxOf (x : seqMatch) : region := mkRegion (m_i x) (m_i x + m_k x) (m_j x) (m_j x + m_k x).

Fixpoint pairwise (l : list region) : Prop := match l with [] => True | x :: l => Forall (ordered x) l ∧ pairwise l end.

#[export] Instance ordered_sym : Symmetric ordered.
Proof. intros x y [H|H]; [by right|by left]. Qed.

Lemma pairwise_perm l l' : l ≡ₚ l' → pairwise l → pairwise l'.
Proof.
  induction 1 as [|x l l' Hp IH|x y l|l1 l2 l3 _ IH1 _ IH2]; cbn; try done.
  - intros [Hx Hl]. split; [by rewrite <- Hp|auto].
  - rewrite !Forall_cons. intros [[Hyx Hy] [Hx Hl]]. split_and!; [by symmetry|done|done|done].
  - auto.
Qed.

Lemma inside_ordered x r y : inside x r → ordered r y → ordered x y.
Proof. intros (?&?&?&?) [[]|[]]; [left|right]; split; lia. Qed.

(** A box is replaced by boxes inside it. *)
Lemma pairwise_split r l parts : Forall (λ x, inside x r) parts → pairwise parts → pairwise (r :: l) → pairwise (parts ++ l).
Proof.
  intros Hin Hp [Hr Hl]. induction Hin as [|x parts Hx Hin IH]; [done|]. cbn in *. destruct Hp as [Hx' Hp]. split; [|auto]. apply Forall_app. split; [done|].
  eapply Forall_impl; [exact Hr|]. intros y. by apply inside_ordered.
Qed.

Definition measure (stack : list region) : nat := sum_list_with (λ r, 2 * (g_ahi r - g_alo r) + 1) stack.

Section Blocks.
Context (m : seqMatcher).
Hypothesis index_sound : sound_index (sm_b m) (sm_b2j m).
Abbreviation la := (length (sm_a m)).
Abbreviation lb := (length (sm_b m)).

Definition wf_region (r : region) : Prop := g_alo r ≤ g_ahi r ∧ g_blo r ≤ g_bhi r ∧ g_ahi r ≤ la ∧ g_bhi r ≤ lb.
Definition good (x : seqMatch) : Prop := 1 ≤ m_k x ∧ matchIn m 0 la 0 lb x.

(** One region: its longest match and what is left of it. *)
Definition leftOf (r : region) (x : seqMatch) : list region :=
  if (g_alo r <? m_i x) && (g_blo r <? m_j x) then [mkRegion (g_alo r) (m_i x) (g_blo r) (m_j x)] else [].
Definition rightOf (r : region) (x : seqMatch) : list region :=
  if (m_i x + m_k x <? g_ahi r) && (m_j x + m_k x <? g_bhi r) then [mkRegion (m_i x + m_k x) (g_ahi r) (m_j x + m_k x) (g_bhi r)] else [].

Lemma blocksLoop_S fuel r stack blocks :
  let x := findLongestMatch m (g_alo r) (g_ahi r) (g_blo r) (g_bhi r) in
  blocksLoop (S fuel) m (r :: stack) blocks
  = if m_k x =? 0 then blocksLoop fuel m stack blocks else blocksLoop fuel m (rightOf r x ++ leftOf r x ++ stack) (blocks ++ [x]).
Proof. cbn zeta. cbn [blocksLoop]. destruct (m_k _ =? 0); [done|]. unfold leftOf, rightOf. by destruct (_ && _), (_ && _). Qed.

Lemma split_region r x :
  wf_region r → matchIn m (g_alo r) (g_ahi r) (g_blo r) (g_bhi r) x → 1 ≤ m_k x →
  let parts := rightOf r x ++ leftOf r x in
  Forall wf_region parts ∧ Forall (λ y, inside y r) (parts ++ [boxOf x]) ∧ pairwise (parts ++ [boxOf x]) ∧ measure parts < 2 * (g_ahi r - g_alo r) + 1.
Proof.
  intros (H1 & H2 & H3 & H4) [[Hi Hj] [Hi' Hj'] _] Hk. unfold leftOf, rightOf, measure, wf_region, inside, ordered, before, boxOf. cbn zeta.
  destruct (Nat.ltb_spec (m_i x + m_k x) (g_ahi r)), (Nat.ltb_spec (m_j x + m_k x) (g_bhi r)), (Nat.ltb_spec (g_alo r) (m_i x)), (Nat.ltb_spec (g_blo r) (m_j x));
    cbn [andb app sum_list_with pairwise g_alo g_ahi g_blo g_bhi]; rewrite ?Forall_cons, ?Forall_nil; cbn [g_alo g_ahi g_blo g_bhi]; split_and!; try done; try lia; unfold ordered, before; cbn [g_alo g_ahi g_blo g_bhi]; lia.
Qed.

Lemma blocksLoop_ok fuel stack blocks :
  measure stack ≤ fuel → Forall wf_region stack → Forall good blocks → pairwise (stack ++ map boxOf blocks) →
  ∃ out, blocksLoop fuel m stack blocks = Some out ∧ Forall good out ∧ pairwise (map boxOf out).
Proof.
  revert stack blocks. induction fuel as [|fuel IH]; intros stack blocks Hf Hs Hg Hp; (destruct stack as [|r stack]; [by exists blocks|]); [cbn in Hf; lia|].
  rewrite blocksLoop_S. set (x := findLongestMatch m (g_alo r) (g_ahi r) (g_blo r) (g_bhi r)). apply Forall_cons in Hs as [Hr Hs].
  assert (Hm : matchIn m (g_alo r) (g_ahi r) (g_blo r) (g_bhi r) x) by (destruct Hr as (?&?&?&?); by apply findLongestMatch_sound).
  cbn [measure sum_list_with] in Hf. fold (measure stack) in Hf. destruct (Nat.eqb_spec (m_k x) 0) as [E|E].
  { apply IH; [lia|done|done|]. by destruct Hp. }
  destruct (split_region r x Hr Hm ltac:(lia)) as (H1 & H2 & H3 & H4). rewrite app_assoc. apply IH.
  - unfold measure in *. rewrite sum_list_with_app. lia.
  - by apply Forall_app.
  - apply Forall_app. split; [done|]. repeat constructor; [lia|..]; destruct Hm as [? ? ?], Hr as (?&?&?&?); lia || done.
  - rewrite map_app. cbn [map]. eapply pairwise_perm; [|by eapply (pairwise_split r (stack ++ map boxOf blocks))]. solve_Permutation.
Qed.
End Blocks.

(** ** The blocks in order *)

Section Chains.
Context (m : seqMatcher).
Hypothesis index_sound : sound_index (sm_b m) (sm_b2j m).
Abbreviation a := (sm_a m).
Abbreviation b := (sm_b m).
Abbreviation la := (length a).
Abbreviation lb := (length b).

(** Blocks from the position [(i, j)] on, each after the one before. *)
Fixpoint chain (i j : nat) (l : list seqMatch) : Prop :=
  match l with
  | [] => True
  | x :: l => i ≤ m_i x ∧ j ≤ m_j x ∧ matchIn m 0 la 0 lb x ∧ chain (m_i x + m_k x) (m_j x + m_k x) l
  end.

Lemma matchLe_first x y : matchLe x y = true → m_i x ≤ m_i y.
Proof. unfold matchLe. destruct (Nat.eqb_spec (m_i x) (m_i y)); cbn [negb]; [lia|]. intros ?%Nat.ltb_lt. lia. Qed.

Lemma matchLe_total x y : matchLe x y = false → m_i y ≤ m_i x.
Proof. unfold matchLe. destruct (Nat.eqb_spec (m_i x) (m_i y)); cbn [negb]; [lia|]. intros ?%Nat.ltb_ge. lia. Qed.

Lemma sorted_blocks blocks : StronglySorted (λ x y, m_i x ≤ m_i y) (sort_by matchLe blocks).
Proof. apply (sort_by_sorted matchLe); [intros x y z; lia|apply matchLe_first|apply matchLe_total]. Qed.

Lemma chain_sorted l i j :
  StronglySorted (λ x y, m_i x ≤ m_i y) l → Forall (good m) l → pairwise (map boxOf l) → Forall (λ x, i ≤ m_i x ∧ j ≤ m_j x) l → chain i j l.
Proof.
  intros Hs. revert i j. induction Hs as [|x l Hs IH Hx]; intros i j Hg Hp Hf; [done|]. apply Forall_cons in Hg as [[Hk Hm] Hg], Hf as [[Hi Hj] Hf]. destruct Hp as [Hxo Hp].
  cbn [chain]. split_and!; [done|done|done|]. apply IH; [done|done|]. rewrite Forall_forall in Hx, Hg. rewrite Forall_forall in Hxo.
  apply Forall_forall. intros y Hy. specialize (Hx y Hy). destruct (Hg y Hy) as [Hky _].
  destruct (Hxo (boxOf y) (list_elem_of_fmap_2 boxOf l y Hy)) as [[H1 H2]|[H1 H2]]; cbn [boxOf g_alo g_ahi g_blo g_bhi] in *; lia.
Qed.

Lemma common_join i j k k' : common m i j k → common m (i + k) (j + k) k' → common m i j (k + k').
Proof.
  intros H1 H2 t Ht. destruct (decide (t < k)) as [Hk|Hk]; [by apply H1|]. destruct (H2 (t - k) ltac:(lia)) as (s & Ha & Hb).
  exists s. by replace (i + t) with (i + k + (t - k)) by lia; replace (j + t) with (j + k + (t - k)) by lia.
Qed.

Lemma collapse_chain blocks cur i j :
  matchIn m 0 la 0 lb cur → i ≤ m_i cur → j ≤ m_j cur → chain (m_i cur + m_k cur) (m_j cur + m_k cur) blocks → chain i j (collapse blocks cur).
Proof.
  revert cur i j. induction blocks as [|x blocks IH]; intros cur i j Hc Hi Hj; cbn [chain collapse].
  { intros _. by destruct (m_k cur =? 0). }
  intros (Hx1 & Hx2 & Hx & Hl). destruct (_ && _) eqn:E.
  - rewrite andb_true_iff, !Nat.eqb_eq in E. destruct E as [E1 E2]. destruct Hc as [H1 H2 H3], Hx as [H4 H5 H6]. apply IH; cbn [m_i m_j m_k]; [|lia|lia|].
    + split; cbn [m_i m_j m_k]; try lia. apply common_join; [done|]. by rewrite E1, E2.
    + by replace (m_i cur + (m_k cur + m_k x)) with (m_i x + m_k x) by lia; replace (m_j cur + (m_k cur + m_k x)) with (m_j x + m_k x) by lia.
  - destruct (Nat.eqb_spec (m_k cur) 0); cbn [app]; [apply IH; [done|lia|lia|done]|]. cbn [chain]. split_and!; [done|done|done|]. by apply IH.
Qed.

Lemma chain_end l i j : i ≤ la → j ≤ lb → chain i j l → chain i j (l ++ [mkMatch la lb 0]).
Proof.
  revert i j. induction l as [|x l IH]; intros i j Hi Hj; cbn [app chain].
  - intros _. split_and!; [done|done| |done]. split; cbn; try lia. intros t Ht. lia.
  - intros (H1 & H2 & H3 & H4). split_and!; [done|done|done|]. destruct H3 as [_ [? ?] _]. apply IH; [lia|lia|done].
Qed.

Lemma getMatchingBlocks_ok : ∃ l, getMatchingBlocks m = Some (l ++ [mkMatch la lb 0]) ∧ chain 0 0 (l ++ [mkMatch la lb 0]).
Proof.
  unfold getMatchingBlocks. destruct (blocksLoop_ok m index_sound (blocksFuel m) [mkRegion 0 la 0 lb] []) as (out & -> & Hg & Hp).
  - unfold measure, blocksFuel. cbn. lia.
  - repeat constructor; cbn; lia.
  - constructor.
  - cbn. by repeat constructor.
  - cbn [mbind option_bind]. eexists. split; [done|]. apply chain_end; [lia|lia|]. apply collapse_chain; cbn [m_i m_j m_k]; [split; cbn; try lia; intros t Ht; lia|lia|lia|].
    apply chain_sorted; [apply sorted_blocks|by rewrite sort_by_perm| |apply Forall_forall; intros; lia].
    eapply pairwise_perm; [|exact Hp]. change (map boxOf ?l) with (boxOf <$> l). by rewrite sort_by_perm.
Qed.

(** ** Opcodes *)

Definition op_ok (c : seqOpcode) : Prop :=
  op_i1 c ≤ op_i2 c ≤ la ∧ op_j1 c ≤ op_j2 c ≤ lb ∧
  match op_tag c with
  | Equal => op_i2 c - op_i1 c = op_j2 c - op_j1 c ∧ common m (op_i1 c) (op_j1 c) (op_i2 c - op_i1 c)
  | Delete => op_j1 c = op_j2 c
  | Insert => op_i1 c = op_i2 c
  | Replace => True
  end.

(** Opcodes that cover both texts from [(i, j)] to [(i', j')]. *)
Fixpoint covers (i j : nat) (codes : list seqOpcode) (i' j' : nat) : Prop :=
  match codes with
  | [] => i = i' ∧ j = j'
  | c :: codes => op_i1 c = i ∧ op_j1 c = j ∧ op_ok c ∧ covers (op_i2 c) (op_j2 c) codes i' j'
  end.

Lemma covers_app i j c1 c2 i' j' : covers i j (c1 ++ c2) i' j' ↔ ∃ k l, covers i j c1 k l ∧ covers k l c2 i' j'.
Proof.
  revert i j. induction c1 as [|c c1 IH]; intros i j; cbn [app covers]; [naive_solver|]. rewrite IH. naive_solver.
Qed.

Lemma opcodesFrom_covers l i j : chain i j (l ++ [mkMatch la lb 0]) → covers i j (opcodesFrom i j (l ++ [mkMatch la lb 0])) la lb.
Proof.
  assert (Hone : ∀ x i j, i ≤ m_i x → j ≤ m_j x → matchIn m 0 la 0 lb x →
    covers i j ((if (i <? m_i x) && (j <? m_j x) then [mkOp Replace i (m_i x) j (m_j x)]
       else if i <? m_i x then [mkOp Delete i (m_i x) j (m_j x)] else if j <? m_j x then [mkOp Insert i (m_i x) j (m_j x)] else [])
      ++ (if m_k x =? 0 then [] else [mkOp Equal (m_i x) (m_i x + m_k x) (m_j x) (m_j x + m_k x)])) (m_i x + m_k x) (m_j x + m_k x)).
  { intros x p q Hp Hq [H1 H2 H3]. apply covers_app. exists (m_i x), (m_j x). split.
    - unfold op_ok. destruct (Nat.ltb_spec p (m_i x)), (Nat.ltb_spec q (m_j x)); cbn [andb covers op_tag op_i1 op_i2 op_j1 op_j2]; unfold op_ok; cbn [op_tag op_i1 op_i2 op_j1 op_j2]; lia.
    - destruct (Nat.eqb_spec (m_k x) 0) as [->|]; cbn [covers]; [lia|]. unfold op_ok. cbn [op_tag op_i1 op_i2 op_j1 op_j2].
      replace (m_i x + m_k x - m_i x) with (m_k x) by lia. split_and!; try done; lia. }
  revert i j. induction l as [|x l IH]; intros i j; cbn [app chain opcodesFrom]; intros (H1 & H2 & H3 & H4); rewrite app_assoc, covers_app.
  - exists (la + 0), (lb + 0). split; [by apply Hone|]. cbn. lia.
  - do 2 eexists. split; [by apply Hone|by apply IH].
Qed.

Lemma getOpcodes_ok : ∃ codes, getOpcodes m = Some codes ∧ covers 0 0 codes la lb.
Proof.
  destruct getMatchingBlocks_ok as (l & Hl & Hc). unfold getOpcodes. rewrite Hl. cbn [mbind option_bind]. eexists. split; [done|]. by apply opcodesFrom_covers.
Qed.
End Chains.

(** ** Hunks as opcodes *)

Section Patch.
Context (m : seqMatcher).
Abbreviation a := (sm_a m).
Abbreviation b := (sm_b m).
Abbreviation la := (length a).
Abbreviation lb := (length b).

(** The lines an opcode leaves in the new text: its context comes from the old one. *)
Definition newSide (c : seqOpcode) : lines :=
  match op_tag c with Equal => slice a (op_i1 c) (op_i2 c) | Delete => [] | Replace | Insert => slice b (op_j1 c) (op_j2 c) end.

Definition firstOp (g : list seqOpcode) : nat := match g with [] => 0 | c :: _ => op_i1 c end.
Definition lastOp (g : list seqOpcode) : nat := match last g with Some c => op_i2 c | None => 0 end.

(** Applying the hunks to the old text from [pos] on. *)
Fixpoint patchGroups (pos : nat) (groups : list (list seqOpcode)) : lines :=
  match groups with
  | [] => drop pos a
  | g :: groups => slice a pos (firstOp g) ++ concat (map newSide g) ++ patchGroups (lastOp g) groups
  end.

Lemma common_slice i j k : i + k ≤ la → j + k ≤ lb → common m i j k → slice a i (i + k) = slice b j (j + k).
Proof.
  intros Hi Hj Hc. apply list_eq. intros t. unfold slice. replace (i + k - i) with k by lia. replace (j + k - j) with k by lia.
  destruct (decide (t < k)) as [Ht|Ht]; [|by rewrite !lookup_take_ge by lia]. rewrite !lookup_take_lt, !lookup_drop by lia. destruct (Hc t Ht) as (s & -> & ->). done.
Qed.

Lemma newSide_ok c : op_ok m c → newSide c = slice b (op_j1 c) (op_j2 c).
Proof.
  unfold op_ok, newSide. intros (H1 & H2 & H3). destruct (op_tag c); try done.
  - rewrite H3. by rewrite slice_nil.
  - destruct H3 as [H3 H4]. replace (op_i2 c) with (op_i1 c + (op_i2 c - op_i1 c)) at 1 by lia. rewrite (common_slice _ (op_j1 c)) by (lia || done). f_equal. lia.
Qed.

Lemma covers_le i j codes i' j' : covers m i j codes i' j' → i ≤ i' ∧ j ≤ j'.
Proof.
  revert i j. induction codes as [|c codes IH]; intros i j; cbn [covers]; [lia|]. intros (<- & <- & (H1 & H2 & _) & Hc). apply IH in Hc. lia.
Qed.

Lemma covers_newSide i j codes i' j' : covers m i j codes i' j' → concat (map newSide codes) = slice b j j'.
Proof.
  revert i j. induction codes as [|c codes IH]; intros i j; cbn [covers map concat]; [intros [_ ->]; by rewrite slice_nil|].
  intros (<- & <- & Hc & Hcs). pose proof (covers_le _ _ _ _ _ Hcs). rewrite newSide_ok, (IH _ _ Hcs) by done. destruct Hc as (_ & ? & _). apply slice_app; lia.
Qed.

Lemma covers_first i j g i' j' : g ≠ [] → covers m i j g i' j' → firstOp g = i ∧ lastOp g = i'.
Proof.
  intros Hne Hc. split; [destruct g; [done|]; by destruct Hc as [? _]|]. destruct g as [|c g] using rev_ind; [done|]. unfold lastOp. rewrite last_snoc.
  apply covers_app in Hc as (k & l & _ & Hc). cbn in Hc. tauto.
Qed.

(** A part of a run of equal lines. *)
Lemma equal_part c p q r s :
  op_ok m c → op_tag c = Equal → op_i1 c ≤ p ≤ q → q ≤ op_i2 c → r - op_j1 c = p - op_i1 c → s - op_j1 c = q - op_i1 c → op_j1 c ≤ r → op_j1 c ≤ s →
  op_ok m (mkOp Equal p q r s) ∧ slice a p q = slice b r s.
Proof.
  intros (H1 & H2 & H3) Ht Hp Hq Hr Hs Hr' Hs'. rewrite Ht in H3. destruct H3 as [H3 H4].
  assert (Hc : common m p r (q - p)).
  { intros t Hlt. destruct (H4 (p - op_i1 c + t) ltac:(lia)) as (l & Ha & Hb). exists l.
    by replace (op_i1 c + (p - op_i1 c + t)) with (p + t) in Ha by lia; replace (op_j1 c + (p - op_i1 c + t)) with (r + t) in Hb by lia. }
  split; [unfold op_ok; cbn [op_tag op_i1 op_i2 op_j1 op_j2]; split_and!; try lia; done|].
  replace q with (p + (q - p)) at 1 by lia. rewrite (common_slice _ r) by (done || lia). f_equal. lia.
Qed.

(** The loop: [group] covers from [(gi, gj)] to [(i, j)], the text before it is common
    from [(pi, pj)] on, and so is the text after the last opcode. *)
Lemma groupLoop_patches n codes group pi pj gi gj i j ie je :
  covers m i j codes ie je → covers m gi gj group i j → pi ≤ gi → pj ≤ gj → slice a pi gi = slice b pj gj → drop ie a = drop je b →
  patchGroups pi (groupLoop n codes group) = drop pj b.
Proof.
  revert group pi pj gi gj i j. induction codes as [|c codes IH]; intros group pi pj gi gj i j Hc Hg Hpi Hpj Hpre Hsuf; cbn [covers groupLoop] in *.
  - destruct Hc as [-> ->]. pose proof (covers_le _ _ _ _ _ Hg) as [? ?].
    assert (Hall : group ≠ [] → patchGroups pi [group] = drop pj b).
    { intros Hne. cbn [patchGroups]. destruct (covers_first _ _ _ _ _ Hne Hg) as [-> ->]. rewrite (covers_newSide _ _ _ _ _ Hg), Hpre, Hsuf.
      rewrite slice_drop by lia. by apply slice_drop. }
    assert (Hnone : slice a gi ie = slice b gj je → patchGroups pi [] = drop pj b).
    { intros Heq. cbn [patchGroups]. rewrite <- (slice_drop a pi gi), <- (slice_drop a gi ie) by lia. rewrite Hpre, Heq, Hsuf. rewrite slice_drop by lia. by apply slice_drop. }
    destruct group as [|g [|g' group]]; [|destruct (isEqual g) eqn:E; [|by apply Hall]|by apply Hall].
    + apply Hnone. cbn in Hg. destruct Hg as [-> ->]. by rewrite !slice_nil.
    + apply Hnone. cbn in Hg. destruct Hg as (<- & <- & Hok & <- & <-). apply bool_decide_eq_true in E. pose proof Hok as (?&?&Ht). rewrite E in Ht.
      apply (equal_part g); [done|done|lia..].
  - destruct Hc as (<- & <- & Hok & Hc). pose proof Hok as (Hi & Hj & Ht). destruct (isEqual c && _) eqn:E.
    + apply andb_true_iff in E as [E Hlen%Nat.ltb_lt]. apply bool_decide_eq_true in E. rewrite E in Ht. destruct Ht as [Ht _]. cbn [patchGroups].
      set (p := Nat.min (op_i2 c) (op_i1 c + n)). set (q := Nat.min (op_j2 c) (op_j1 c + n)).
      set (p' := Nat.max (op_i1 c) (op_i2 c - n)). set (q' := Nat.max (op_j1 c) (op_j2 c - n)).
      destruct (equal_part c (op_i1 c) p (op_j1 c) q Hok E ltac:(lia) ltac:(lia) ltac:(lia) ltac:(lia) ltac:(lia) ltac:(lia)) as [Hh _].
      destruct (equal_part c p' (op_i2 c) q' (op_j2 c) Hok E ltac:(lia) ltac:(lia) ltac:(lia) ltac:(lia) ltac:(lia) ltac:(lia)) as [Htl _].
      destruct (equal_part c p p' q q' Hok E ltac:(lia) ltac:(lia) ltac:(lia) ltac:(lia) ltac:(lia) ltac:(lia)) as [_ Hmid].
      assert (Hg' : covers m gi gj (group ++ [mkOp Equal (op_i1 c) p (op_j1 c) q]) p q).
      { apply covers_app. exists (op_i1 c), (op_j1 c). split; [done|]. cbn. auto. }
      pose proof (covers_le _ _ _ _ _ Hg') as [? ?]. destruct (covers_first gi gj (group ++ [mkOp Equal (op_i1 c) p (op_j1 c) q]) p q) as [-> ->]; [by destruct group|done|].
      rewrite (covers_newSide _ _ _ _ _ Hg'), Hpre. rewrite (IH _ p q p' q' (op_i2 c) (op_j2 c)); [|done|cbn; auto|lia|lia|done|done].
      rewrite slice_drop by lia. by apply slice_drop.
    + apply (IH _ pi pj gi gj (op_i2 c) (op_j2 c)); [done| |done|done|done|done]. apply covers_app. exists (op_i1 c), (op_j1 c). split; [done|]. cbn. auto.
Qed.
Lemma drop_slice {A} i (l : list A) : i ≤ length l → drop i l = slice l i (length l).
Proof. intros Hi. rewrite <- (slice_drop l i (length l)) by done. by rewrite drop_all, app_nil_r. Qed.

Lemma trimFirst_covers n c codes :
  covers m 0 0 (c :: codes) la lb → ∃ i j, covers m i j (trimFirst n c :: codes) la lb ∧ slice a 0 i = slice b 0 j.
Proof.
  cbn [covers]. intros (Hi & Hj & Hok & Hc). unfold trimFirst. destruct (isEqual c) eqn:E; [|exists 0, 0; by rewrite !slice_nil].
  apply bool_decide_eq_true in E. pose proof Hok as (H1 & H2 & Ht). rewrite E in Ht. destruct Ht as [Ht _].
  set (p := Nat.max (op_i1 c) (op_i2 c - n)). set (q := Nat.max (op_j1 c) (op_j2 c - n)).
  destruct (equal_part c p (op_i2 c) q (op_j2 c) Hok E ltac:(lia) ltac:(lia) ltac:(lia) ltac:(lia) ltac:(lia) ltac:(lia)) as [Htl _].
  destruct (equal_part c (op_i1 c) p (op_j1 c) q Hok E ltac:(lia) ltac:(lia) ltac:(lia) ltac:(lia) ltac:(lia) ltac:(lia)) as [_ Hpre].
  exists p, q. rewrite Hi, Hj in Hpre. by split_and!.
Qed.

Lemma trimLast_covers n codes i j :
  codes ≠ [] → covers m i j codes la lb → ∃ ie je, covers m i j (mapLast (trimLast n) codes) ie je ∧ drop ie a = drop je b.
Proof.
  revert i j. induction codes as [|c codes IH]; intros i j Hne; [done|]. destruct codes as [|c' codes].
  - cbn [covers mapLast]. intros (Hi & Hj & Hok & He & He'). unfold trimLast. destruct (isEqual c) eqn:E.
    2:{ exists la, lb. rewrite !drop_all. by split_and!. }
    apply bool_decide_eq_true in E. pose proof Hok as (H1 & H2 & Ht). rewrite E in Ht. destruct Ht as [Ht _].
    set (p := Nat.min (op_i2 c) (op_i1 c + n)). set (q := Nat.min (op_j2 c) (op_j1 c + n)).
    destruct (equal_part c (op_i1 c) p (op_j1 c) q Hok E ltac:(lia) ltac:(lia) ltac:(lia) ltac:(lia) ltac:(lia) ltac:(lia)) as [Hh _].
    destruct (equal_part c p (op_i2 c) q (op_j2 c) Hok E ltac:(lia) ltac:(lia) ltac:(lia) ltac:(lia) ltac:(lia) ltac:(lia)) as [_ Hsuf].
    exists p, q. split; [by split_and!|]. rewrite !drop_slice by lia. by rewrite <- He, <- He'.
  - intros (Hi & Hj & Hok & Hc). destruct (IH _ _ ltac:(done) Hc) as (ie & je & Hc' & Hd). exists ie, je. split; [|done]. by cbn [mapLast covers].
Qed.

Lemma groupOpcodes_patches n codes : covers m 0 0 codes la lb → patchGroups 0 (groupOpcodes n codes) = b.
Proof.
  intros Hc. destruct codes as [|c codes].
  - destruct Hc as [Ha Hb]. replace (groupOpcodes n []) with (@nil (list seqOpcode)) by (destruct n; reflexivity). cbn [patchGroups].
    rewrite (nil_length_inv a), (nil_length_inv b) by done. done.
  - destruct (trimFirst_covers n c codes Hc) as (i & j & Hc1 & Hpre). destruct (trimLast_covers n (trimFirst n c :: codes) i j ltac:(done) Hc1) as (ie & je & Hc2 & Hsuf).
    pose proof (covers_le _ _ _ _ _ Hc1). unfold groupOpcodes. rewrite (groupLoop_patches n _ [] 0 0 i j i j ie je); [done|exact Hc2|by split|lia|lia|done|done].
Qed.
End Patch.

(** ** Reading a unified diff back

    A reader of the text, as [patch] reads it: the ranges of a hunk header say how many
    lines of each side follow, and the context and the lines to remove must be those of
    the old text. *)

Definition parseRange (s : string) : option (nat * nat) :=
  match cutByte s "," with
  | Some (x, y) => p ← Atoi x; q ← Atoi y; Some (Z.to_nat p, Z.to_nat q)
  | None => p ← Atoi s; Some (Z.to_nat p, 1)
  end.
Definition hunkStart (r : nat * nat) : nat := if r.2 =? 0 then r.1 else r.1 - 1.
Definition parseHunk (h : string) : option ((nat * nat) * (nat * nat)) :=
  match Split h " " with
  | ["@@"; String "-" r1; String "+" r2; "@@"] => x ← parseRange r1; y ← parseRange r2; Some (x, y)
  | _ => None
  end.

Fixpoint hunkBody (a : lines) (old new pos : nat) (diff : list string) {struct diff} : option (lines * nat * list string) :=
  match old, new with
  | O, O => Some ([], pos, diff)
  | _, _ =>
      match diff with
      | String " " l :: diff =>
          match old, new with
          | S old, S new =>
              if bool_decide (a !! pos = Some l)
              then '(out, p, rest) ← hunkBody a old new (S pos) diff; Some (l :: out, p, rest) else None
          | _, _ => None
          end
      | String "-" l :: diff =>
          match old with S old => if bool_decide (a !! pos = Some l) then hunkBody a old new (S pos) diff else None | O => None end
      | String "+" l :: diff =>
          match new with S new => '(out, p, rest) ← hunkBody a old new pos diff; Some (l :: out, p, rest) | O => None end
      | _ => None
      end
  end.

Fixpoint readHunks (fuel : nat) (a : lines) (pos : nat) (diff : list string) : option lines :=
  match diff, fuel with
  | [], _ => Some (drop pos a)
  | h :: diff, S fuel =>
      '(r1, r2) ← parseHunk h;
      '(out, p, rest) ← hunkBody a r1.2 r2.2 (hunkStart r1) diff;
      tail ← readHunks fuel a p rest;
      Some (slice a pos (hunkStart r1) ++ out ++ tail)
  | _ :: _, O => None
  end.

Definition applyPatch (a : lines) (diff : list string) : option lines :=
  match diff with
  | [] => Some a
  | from :: to :: rest => if HasPrefix from "--- " && HasPrefix to "+++ " then readHunks (length rest) a 0 rest else None
  | _ => None
  end.

Section Read.
Context (m : seqMatcher).
Abbreviation a := (sm_a m).
Abbreviation b := (sm_b m).
Abbreviation la := (length a).
Abbreviation lb := (length b).
Hypothesis sizes : (Z.of_nat la < 2 ^ 62)%Z ∧ (Z.of_nat lb < 2 ^ 62)%Z.

Lemma parseRange_format s e : s ≤ e → (Z.of_nat e < 2 ^ 62)%Z → ∃ r, parseRange (formatRangeUnified s e) = Some r ∧ hunkStart r = s ∧ r.2 = e - s.
Proof.
  intros Hs He. unfold parseRange, formatRangeUnified. assert (Hno : ∀ z, (0 ≤ z)%Z → ContainsByte (Itoa z) "," = false) by (intros z Hz; by apply Itoa_contain).
  destruct (Z.eqb_spec (Z.of_nat e - Z.of_nat s) 1) as [E|E].
  - rewrite cutByte_none by (apply Hno; lia). rewrite Atoi_Itoa by lia. eexists. split; [done|]. unfold hunkStart. cbn. lia.
  - set (z := if (_ =? 0)%Z then _ else _). assert (Hz : (0 ≤ z < 2 ^ 63)%Z) by (unfold z; case_match; lia).
    change (Itoa z +:+ "," +:+ Itoa (Z.of_nat e - Z.of_nat s)) with (Itoa z +:+ String "," (Itoa (Z.of_nat e - Z.of_nat s))).
    rewrite cutByte_app by (apply Hno; lia). rewrite !Atoi_Itoa by lia. eexists. split; [done|]. unfold hunkStart, z. cbn.
    destruct (Z.eqb_spec (Z.of_nat e - Z.of_nat s) 0), (Nat.eqb_spec (Z.to_nat (Z.of_nat e - Z.of_nat s)) 0); lia.
Qed.
Lemma formatRange_no_space s e : s ≤ e → ContainsByte (formatRangeUnified s e) " " = false.
Proof.
  intros Hs. unfold formatRangeUnified. assert (Hno : ∀ z, (0 ≤ z)%Z → ContainsByte (Itoa z) " " = false) by (intros z Hz; by apply Itoa_contain).
  repeat case_match; rewrite ?ContainsByte_app; cbn [ContainsByte]; rewrite !Hno by lia; done.
Qed.

Lemma parseHunk_header s e s' e' :
  s ≤ e → s' ≤ e' → (Z.of_nat e < 2 ^ 62)%Z → (Z.of_nat e' < 2 ^ 62)%Z →
  ∃ r r', parseHunk ("@@ -" +:+ formatRangeUnified s e +:+ " +" +:+ formatRangeUnified s' e' +:+ " @@" +:+ "") = Some (r, r')
    ∧ hunkStart r = s ∧ r.2 = e - s ∧ r'.2 = e' - s'.
Proof.
  intros Hs Hs' He He'. destruct (parseRange_format s e Hs He) as (r & Hr & H1 & H2). destruct (parseRange_format s' e' Hs' He') as (r' & Hr' & _ & H3).
  exists r, r'. split_and!; [|done..]. set (f := formatRangeUnified s e) in *. set (g := formatRangeUnified s' e') in *.
  change ("@@ -" +:+ f +:+ " +" +:+ g +:+ " @@" +:+ "") with (Join ["@@"; "-" +:+ f; "+" +:+ g; "@@"] " "). unfold parseHunk.
  rewrite Split_Join; [|done|repeat constructor; cbn [String.append ContainsByte]; by apply formatRange_no_space]. cbn [String.append]. rewrite Hr, Hr'. done.
Qed.

(** One line of each kind. *)
Lemma hunkBody_context old new pos l diff :
  a !! pos = Some l → hunkBody a (S old) (S new) pos ((" " +:+ l) :: diff) = ('(out, p, rest) ← hunkBody a old new (S pos) diff; Some (l :: out, p, rest)).
Proof. intros Hl. cbn. by rewrite bool_decide_eq_true_2. Qed.

Lemma hunkBody_remove old new pos l diff : a !! pos = Some l → hunkBody a (S old) new pos (("-" +:+ l) :: diff) = hunkBody a old new (S pos) diff.
Proof. intros Hl. cbn. by rewrite bool_decide_eq_true_2. Qed.

Lemma hunkBody_add old new pos l diff :
  hunkBody a old (S new) pos (("+" +:+ l) :: diff) = ('(out, p, rest) ← hunkBody a old new pos diff; Some (l :: out, p, rest)).
Proof. by destruct old. Qed.

Lemma hunkBody_none pos diff : hunkBody a 0 0 pos diff = Some ([], pos, diff).
Proof. by destruct diff. Qed.

Abbreviation withLines ls body := ('(out, p, rest) ← body; Some (ls ++ out, p, rest)).

Lemma withLines_cons l ls (body : option (lines * nat * list string)) :
  ('(out, p, rest) ← withLines ls body; Some (l :: out, p, rest)) = withLines (l :: ls) body.
Proof. by destruct body as [[[? ?] ?]|]. Qed.

Lemma withLines_nil (body : option (lines * nat * list string)) : withLines (@nil string) body = body.
Proof. by destruct body as [[[? ?] ?]|]. Qed.

Lemma hunkBody_contexts k old new pos diff :
  pos + k ≤ la → hunkBody a (k + old) (k + new) pos (map (λ l, " " +:+ l) (slice a pos (pos + k)) ++ diff) = withLines (slice a pos (pos + k)) (hunkBody a old new (pos + k) diff).
Proof.
  revert pos. induction k as [|k IH]; intros pos Hk; [rewrite !Nat.add_0_r, slice_nil; by rewrite withLines_nil|].
  destruct (lookup_lt_is_Some_2 a pos) as [l Hl]; [lia|]. rewrite (slice_cons _ pos _ l) by (done || lia). cbn [map app Nat.add].
  rewrite hunkBody_context by done. replace (pos + S k) with (S pos + k) by lia. rewrite IH by lia. apply withLines_cons.
Qed.

Lemma hunkBody_removes k old new pos diff :
  pos + k ≤ la → hunkBody a (k + old) new pos (map (λ l, "-" +:+ l) (slice a pos (pos + k)) ++ diff) = hunkBody a old new (pos + k) diff.
Proof.
  revert pos. induction k as [|k IH]; intros pos Hk; [rewrite !Nat.add_0_r, slice_nil; done|].
  destruct (lookup_lt_is_Some_2 a pos) as [l Hl]; [lia|]. rewrite (slice_cons _ pos _ l) by (done || lia). cbn [map app Nat.add].
  rewrite hunkBody_remove by done. replace (pos + S k) with (S pos + k) by lia. by apply IH; lia.
Qed.

Lemma hunkBody_adds ls old new pos diff :
  hunkBody a old (length ls + new) pos (map (λ l, "+" +:+ l) ls ++ diff) = withLines ls (hunkBody a old new pos diff).
Proof.
  induction ls as [|l ls IH]; [by rewrite withLines_nil|]. cbn [map app length Nat.add]. rewrite hunkBody_add, IH. apply withLines_cons.
Qed.
Lemma hunkBody_op c old new diff :
  op_ok m c →
  hunkBody a (op_i2 c - op_i1 c + old) (op_j2 c - op_j1 c + new) (op_i1 c) (opLines a b c ++ diff) = withLines (newSide m c) (hunkBody a old new (op_i2 c) diff).
Proof.
  destruct c as [tag i1 i2 j1 j2]. unfold op_ok, opLines, newSide. cbn [op_tag op_i1 op_i2 op_j1 op_j2]. intros (H1 & H2 & H3).
  assert (Hlen : length (slice b j1 j2) = j2 - j1) by (apply slice_length; lia). assert (∃ k, i2 = i1 + k) as [k ->] by (exists (i2 - i1); lia).
  replace (i1 + k - i1) with k in * by lia. destruct tag.
  - rewrite <- app_assoc, hunkBody_removes by lia. rewrite <- Hlen. apply hunkBody_adds.
  - rewrite hunkBody_removes by lia. replace (j2 - j1) with 0 by lia. by rewrite withLines_nil.
  - replace k with 0 by lia. rewrite Nat.add_0_r, <- Hlen. apply hunkBody_adds.
  - destruct H3 as [<- _]. by rewrite hunkBody_contexts by lia.
Qed.

Lemma withLines_app ls ls' (body : option (lines * nat * list string)) : withLines ls (withLines ls' body) = withLines (ls ++ ls') body.
Proof. destruct body as [[[? ?] ?]|]; [|done]. cbn. by rewrite app_assoc. Qed.

Lemma hunkBody_ops g i j i' j' old new diff :
  covers m i j g i' j' →
  hunkBody a (i' - i + old) (j' - j + new) i (concat (map (opLines a b) g) ++ diff) = withLines (concat (map (newSide m) g)) (hunkBody a old new i' diff).
Proof.
  revert i j. induction g as [|c g IH]; intros i j; cbn [covers map concat].
  - intros [-> ->]. rewrite !Nat.sub_diag. by rewrite withLines_nil.
  - intros (<- & <- & Hok & Hc). pose proof (covers_le _ _ _ _ _ _ Hc) as [? ?]. pose proof Hok as (? & ? & _).
    replace (i' - op_i1 c + old) with (op_i2 c - op_i1 c + (i' - op_i2 c + old)) by lia. replace (j' - op_j1 c + new) with (op_j2 c - op_j1 c + (j' - op_j2 c + new)) by lia.
    rewrite <- app_assoc, hunkBody_op, (IH _ _ Hc) by done. apply withLines_app.
Qed.

Definition group_ok (g : list seqOpcode) : Prop := g ≠ [] ∧ ∃ i j i' j', covers m i j g i' j' ∧ i' ≤ la ∧ j' ≤ lb.

Lemma covers_ends i j g i' j' :
  g ≠ [] → covers m i j g i' j' → ∃ c d, head g = Some c ∧ last g = Some d ∧ op_i1 c = i ∧ op_j1 c = j ∧ op_i2 d = i' ∧ op_j2 d = j'.
Proof.
  intros Hne Hc. destruct g as [|c g]; [done|]. exists c. pose proof Hc as (H1 & H2 & _). destruct (last (c :: g)) as [d|] eqn:El; [|by apply last_None in El].
  exists d. split_and!; try done; apply last_Some in El as (g' & El); rewrite El in Hc; apply covers_app in Hc as (k & l & _ & Hc); cbn in Hc; tauto.
Qed.

Lemma readHunks_groups groups fuel pos :
  Forall group_ok groups → length groups ≤ fuel → readHunks fuel a pos (concat (map (groupLines a b "") groups)) = Some (patchGroups m pos groups).
Proof.
  intros Hg. revert fuel pos. induction Hg as [|g groups [Hne (i & j & i' & j' & Hc & Hi & Hj)] Hg IH]; intros fuel pos Hf; [by destruct fuel|].
  destruct fuel as [|fuel]; [cbn in Hf; lia|]. cbn [map concat patchGroups]. destruct (covers_ends _ _ _ _ _ Hne Hc) as (c & d & Hh & Hl & <- & <- & <- & <-).
  unfold groupLines at 1. rewrite Hh, Hl. cbn [app readHunks]. pose proof (covers_le _ _ _ _ _ _ Hc) as [? ?].
  destruct (parseHunk_header (op_i1 c) (op_i2 d) (op_j1 c) (op_j2 d)) as (r & r' & -> & H1 & H2 & H3); [lia|lia|lia|lia|]. cbn [mbind option_bind]. rewrite H1, H2, H3.
  rewrite <- (Nat.add_0_r (op_i2 d - op_i1 c)), <- (Nat.add_0_r (op_j2 d - op_j1 c)), (hunkBody_ops _ _ _ _ _ _ _ _ Hc), hunkBody_none. cbn [mbind option_bind].
  rewrite IH by (cbn in Hf; lia). cbn [mbind option_bind]. rewrite app_nil_r. destruct (covers_first m _ _ _ _ _ Hne Hc) as [-> ->]. done.
Qed.

Lemma groupLoop_ok n codes group gi gj i j ie je :
  covers m i j codes ie je → covers m gi gj group i j → ie ≤ la → je ≤ lb → Forall group_ok (groupLoop n codes group).
Proof.
  revert group gi gj i j. induction codes as [|c codes IH]; intros group gi gj i j Hc Hg Hi Hj; cbn [covers groupLoop] in *.
  - destruct Hc as [-> ->]. assert (Hok : group ≠ [] → Forall group_ok [group]).
    { intros Hne. repeat constructor; [done|]. exists gi, gj, ie, je. done. }
    destruct group as [|g [|g' group]]; [constructor|destruct (isEqual g); [constructor|by apply Hok]|by apply Hok].
  - destruct Hc as (<- & <- & Hok & Hc). pose proof Hok as (Hi1 & Hj1 & Ht). destruct (isEqual c && _) eqn:E.
    + apply andb_true_iff in E as [E Hlen%Nat.ltb_lt]. apply bool_decide_eq_true in E. rewrite E in Ht. destruct Ht as [Ht _].
      set (p := Nat.min (op_i2 c) (op_i1 c + n)). set (q := Nat.min (op_j2 c) (op_j1 c + n)).
      set (p' := Nat.max (op_i1 c) (op_i2 c - n)). set (q' := Nat.max (op_j1 c) (op_j2 c - n)).
      destruct (equal_part m c (op_i1 c) p (op_j1 c) q Hok E ltac:(lia) ltac:(lia) ltac:(lia) ltac:(lia) ltac:(lia) ltac:(lia)) as [Hh _].
      destruct (equal_part m c p' (op_i2 c) q' (op_j2 c) Hok E ltac:(lia) ltac:(lia) ltac:(lia) ltac:(lia) ltac:(lia) ltac:(lia)) as [Htl _].
      constructor; [|apply (IH _ p' q' (op_i2 c) (op_j2 c)); [done|by split_and!|done|done]]. split; [by destruct group|]. exists gi, gj, p, q.
      split; [|lia]. apply covers_app. exists (op_i1 c), (op_j1 c). split; [done|by split_and!].
    + apply (IH _ gi gj (op_i2 c) (op_j2 c)); [done| |done|done]. apply covers_app. exists (op_i1 c), (op_j1 c). split; [done|by split_and!].
Qed.

Lemma covers_bound i j codes i' j' : codes ≠ [] → covers m i j codes i' j' → i' ≤ la ∧ j' ≤ lb.
Proof.
  intros Hne Hc. destruct codes as [|c codes] using rev_ind; [done|]. apply covers_app in Hc as (k & l & _ & (_ & _ & (? & ? & _) & <- & <-)). lia.
Qed.

Lemma groupOpcodes_ok n codes : covers m 0 0 codes la lb → Forall group_ok (groupOpcodes n codes).
Proof.
  intros Hc. destruct codes as [|c codes].
  - replace (groupOpcodes n []) with (@nil (list seqOpcode)) by (destruct n; reflexivity). constructor.
  - destruct (trimFirst_covers m n c codes Hc) as (i & j & Hc1 & Hpre). destruct (trimLast_covers m n (trimFirst n c :: codes) i j ltac:(done) Hc1) as (ie & je & Hc2 & Hsuf).
    unfold groupOpcodes. apply (groupLoop_ok n _ [] i j i j ie je); [exact Hc2|by split|..].
    all: destruct (covers_bound i j (mapLast (trimLast n) (trimFirst n c :: codes)) ie je); [by destruct codes|done|lia].
Qed.
End Read.

(** ** The diff *)

Lemma getOpcodes_total a b : ∃ codes, getOpcodes (newSeqMatcher None a b) = Some codes ∧ covers (newSeqMatcher None a b) 0 0 codes (length a) (length b).
Proof. exact (getOpcodes_ok (newSeqMatcher None a b) (chainB_sound None a b)). Qed.

(** C26. A unified diff is a patch.  For any two texts and any number of context lines,
    [unifiedDiff] returns a diff, and reading that text the way [patch] does, with the
    counts of its hunk headers and with every context line and every removed line checked
    against the old text, turns the old text into the new one.  The search for matching
    blocks ends within the fuel it is given, also when popular lines are left out. *)
Theorem unified_diff_patches a b fromFile toFile n :
  (Z.of_nat (length a) < 2 ^ 62)%Z → (Z.of_nat (length b) < 2 ^ 62)%Z →
  ∃ diff, unifiedDiff a b fromFile toFile n "" = Some diff ∧ applyPatch a diff = Some b.
Proof.
  intros Ha Hb. destruct (getOpcodes_total a b) as (codes & Hc & Hcov). unfold unifiedDiff, getGroupedOpcodes. rewrite Hc. cbn [mbind option_bind].
  pose proof (groupOpcodes_ok (newSeqMatcher None a b) n codes Hcov) as Hok. pose proof (groupOpcodes_patches (newSeqMatcher None a b) n codes Hcov) as Hp.
  destruct (groupOpcodes n codes) as [|g groups]; [exists []; split; [done|]; cbn [patchGroups drop] in Hp; cbn; by f_equal|].
  eexists. split; [done|]. unfold applyPatch. rewrite !HasPrefix_app. cbn [andb].
  assert (Hlen : length (g :: groups) ≤ length (concat (map (groupLines a b "") (g :: groups)))).
  { clear -Hok. induction Hok as [|h gs [Hne _] Hg IH]; [done|]. cbn [map concat length]. rewrite length_app. assert (1 ≤ length (groupLines a b "" h)); [|lia].
    unfold groupLines. destruct h as [|c h]; [done|]. cbn [head]. destruct (last (c :: h)) eqn:E; [cbn; lia|by apply last_None in E]. }
  pose proof (readHunks_groups (newSeqMatcher None a b) (conj Ha Hb) (g :: groups) _ 0 Hok Hlen) as Hr. rewrite Hp in Hr. exact Hr.
Qed.

Lemma unified_diff_patches_witness :
  ∃ diff, unifiedDiff ["a"; "b"; "c"; "d"] ["a"; "x"; "c"; "d"; "e"] "f" "g" 1 "" = Some diff ∧ applyPatch ["a"; "b"; "c"; "d"] diff = Some ["a"; "x"; "c"; "d"; "e"].
Proof. exact (unified_diff_patches ["a"; "b"; "c"; "d"] ["a"; "x"; "c"; "d"; "e"] "f" "g" 1 ltac:(done) ltac:(done)). Defined.

(** The match is a longest one.  In any region of two texts, where the new one has
    fewer than 200 lines, [findLongestMatch] returns a block of equal lines inside the
    region and no block of equal lines inside it is longer. *)
Theorem longest_match a b alo ahi blo bhi :
  length b < 200 → alo ≤ ahi ≤ length a → blo ≤ bhi ≤ length b →
  let m := newSeqMatcher None a b in
  let x := findLongestMatch m alo ahi blo bhi in
  matchIn m alo ahi blo bhi x ∧ ∀ y, matchIn m alo ahi blo bhi y → m_k y ≤ m_k x.
Proof.
  intros Hb Ha Hbb m x. split.
  - apply findLongestMatch_sound; [apply chainB_sound|cbn; lia|lia|lia].
  - intros y. apply findLongestMatch_longest; [by apply chainB_full|lia].
Qed.

Lemma longest_match_witness :
  let m := newSeqMatcher None ["a"; "b"; "c"] ["b"; "c"; "a"; "b"] in
  findLongestMatch m 0 3 0 4 = mkMatch 0 2 2 ∧ ∀ y, matchIn m 0 3 0 4 y → m_k y ≤ 2.
Proof.
  split; [by vm_compute|]. exact (proj2 (longest_match ["a"; "b"; "c"] ["b"; "c"; "a"; "b"] 0 3 0 4 ltac:(cbn; lia) ltac:(cbn; lia) ltac:(cbn; lia))).
Defined.
