(* ===== verification/GitObject.v ===== *)
(** * Git objects (src/internal/gitstore/object.go)

    Object names, loose objects, trees and commits as bytes.  A loose object file is
    the zlib stream of a header and a body; the object database maps paths to files.
    SHA-1 and zlib are arguments: [inflate] reads the zlib stream at the start of its
    input and [deflate] writes one. *)

From Stdlib Require Import Ascii.
From stdpp Require Import gmap strings.
From S2P Require Import Prelude GoText GoLib Regex GoFmt.

Open Scope string_scope.
Open Scope list_scope.
Open Scope Z_scope.

(** A [[20]byte]. *)
Abbreviation objectID := string.
(** The files under [.git/objects]. *)
Abbreviation objectFiles := (gmap string string).
Definition valid_id (id : objectID) : Prop := slen id = 20%nat.

Definition NUL : ascii := Zbyte 0.
Definition LF : ascii := Zbyte 10.
Definition zeroID : objectID := of_bytes (replicate 20 0).

Definition idString (id : objectID) : string := hexBytes id.
Definition short (id : objectID) : string := stake 8 (idString id).

Inductive GitError :=
  | ErrIDLength | ErrIDHex | ErrInflate | ErrNoHeader | ErrHeader | ErrSize | ErrLength (declared actual : Z)
  | ErrTreeEntry | ErrTreeName | ErrTreeTruncated | ErrCommitHeader | ErrNotExist (id : objectID)
  | ErrPackDeep | ErrPackSeek | ErrPackEOF | ErrPackKind (kind : Z) | ErrPackBase | ErrDeltaTruncated | ErrDeltaBase (want have : Z)
  | ErrDeltaCopy | ErrDeltaRange | ErrDeltaOpcode | ErrDeltaInsert | ErrDeltaSize (produced expected : Z) | ErrMakeSlice
  | ErrPackIndex | ErrIndexTruncated | ErrIndexSignature | ErrIndexVersion (v : Z) | ErrNotTree (id : objectID) | ErrNotCommit (id : objectID)
  | ErrHeadChanged | ErrHeadBad | ErrIO (path : string) | ErrSliceBounds.

Definition objectIDFromHex (s : string) : GitError + objectID :=
  if negb (Nat.eqb (slen s) 40) then inl ErrIDLength else
  match DecodeString s with Some b => inr b | None => inl ErrIDHex end.

Definition objectIDFromBytes (b : string) : GitError + objectID :=
  if negb (Nat.eqb (slen b) 20) then inl ErrIDLength else inr b.

Definition kindCommit : string := "commit".
Definition kindTree : string := "tree".
Definition kindBlob : string := "blob".
Definition kindTag : string := "tag".

Record rawObject := mkRaw { ro_kind : string; ro_data : string }.

(** The bytes that are hashed and stored: [<type> <len>\0<body>]. *)
Definition framed (kind data : string) : string := kind +:+ " " +:+ Itoa (Z.of_nat (slen data)) +:+ String NUL data.

(** ** Trees *)

Record treeEntry := mkEntry { te_name : string; te_mode : string; te_id : objectID }.

Fixpoint parseTree_loop (fuel : nat) (data : string) : GitError + list treeEntry :=
  match fuel, data with
  | _, "" => inr []
  | O, _ => inl ErrTreeEntry
  | S fuel, _ =>
      match cutByte data " " with
      | None => inl ErrTreeEntry
      | Some (mode, rest) =>
          match cutByte rest NUL with
          | None => inl ErrTreeName
          | Some (name, rest) =>
              if (slen rest <? 20)%nat then inl ErrTreeTruncated else
              es ←? parseTree_loop fuel (sdrop 20 rest);
              inr (mkEntry name mode (stake 20 rest) :: es)
          end
      end
  end.
Definition parseTree (data : string) : GitError + list treeEntry := parseTree_loop (slen data) data.

Definition treeEntryKey (e : treeEntry) : string :=
  if String.eqb (te_mode e) "40000" || String.eqb (te_mode e) "040000" then te_name e +:+ "/" else te_name e.

(** [sort.SliceStable] by the key. *)
Definition sortEntries : list treeEntry → list treeEntry := sort_by (λ x y, String.leb (treeEntryKey x) (treeEntryKey y)).

Definition writeEntry (e : treeEntry) : string := te_mode e +:+ " " +:+ te_name e +:+ String NUL (te_id e).
Definition writeEntries (l : list treeEntry) : string := foldr (λ e acc, writeEntry e +:+ acc) "" l.
Definition encodeTree (entries : list treeEntry) : string := writeEntries (sortEntries entries).

(** ** Commits *)

Record commitObj := mkCommit { c_tree : objectID; c_parents : list objectID; c_commitTime : Z; c_message : string }.
Record commitIdent := mkIdent { ci_name : string; ci_email : string }.

Definition parseIdentTime (value : string) : option Z :=
  let fields := Fields value in
  if (length fields <? 2)%nat then None else fields !! (length fields - 2)%nat ≫= Atoi.

(** One header line. *)
Definition parseHeader (key value : string) (c : commitObj) : GitError + commitObj :=
  if String.eqb key "tree" then id ←? objectIDFromHex value; inr (mkCommit id (c_parents c) (c_commitTime c) (c_message c)) else
  if String.eqb key "parent" then id ←? objectIDFromHex value; inr (mkCommit (c_tree c) (c_parents c ++ [id]) (c_commitTime c) (c_message c)) else
  if String.eqb key "committer" then
    inr (match parseIdentTime value with Some ts => mkCommit (c_tree c) (c_parents c) ts (c_message c) | None => c end)
  else inr c.

Definition setMessage (c : commitObj) (m : string) : commitObj := mkCommit (c_tree c) (c_parents c) (c_commitTime c) m.

Fixpoint parseCommit_loop (fuel : nat) (c : commitObj) (rest : string) : GitError + commitObj :=
  match fuel, rest with
  | O, _ | _, "" => inr (setMessage c rest)
  | S fuel, _ =>
      match cutByte rest LF with
      | None => inl ErrCommitHeader
      | Some (line, rest) =>
          if String.eqb line "" then inr (setMessage c rest) else
          if HasPrefix line " " then parseCommit_loop fuel c rest else
          match cutByte line " " with
          | None => parseCommit_loop fuel c rest
          | Some (key, value) => c ←? parseHeader key value c; parseCommit_loop fuel c rest
          end
      end
  end.
Definition parseCommit (data : string) : GitError + commitObj := parseCommit_loop (slen data) (mkCommit zeroID [] 0 "") data.

(** [%02d] of a number that is not negative. *)
Definition pad2 (n : Z) : string := if n <? 10 then "0" +:+ Itoa n else Itoa n.
Definition formatTimezone (offset : Z) (negUTC : bool) : string :=
  let sign := if offset <? 0 then "-" else if (offset =? 0) && negUTC then "-" else "+" in
  let offset := Z.abs offset in
  sign +:+ pad2 (offset / 3600) +:+ pad2 (offset mod 3600 / 60).

Definition identLine (key : string) (who : commitIdent) (time tz : Z) : string :=
  key +:+ " " +:+ ci_name who +:+ " <" +:+ ci_email who +:+ "> " +:+ Itoa time +:+ " " +:+ formatTimezone tz false +:+ String LF "".

Definition encodeCommit (tree : objectID) (parents : list objectID) (author committer : commitIdent)
    (authorTime commitTime authorTZ commitTZ : Z) (message : string) : string :=
  "tree " +:+ idString tree +:+ String LF ""
  +:+ foldr (λ p acc, "parent " +:+ idString p +:+ String LF "" +:+ acc) "" parents
  +:+ identLine "author" author authorTime authorTZ +:+ identLine "committer" committer commitTime commitTZ
  +:+ String LF "" +:+ message.

(** ** Loose objects *)

Section Loose.
Context (sha1 : string → string) (inflate : string → option string) (deflate : string → string).

Definition hashObject (kind data : string) : objectID := sha1 (framed kind data).

Definition loosePath (id : objectID) : string := stake 2 (idString id) +:+ "/" +:+ sdrop 2 (idString id).

Definition decodeLoose (compressed : string) : GitError + rawObject :=
  match inflate compressed with
  | None => inl ErrInflate
  | Some body =>
      match cutByte body NUL with
      | None => inl ErrNoHeader
      | Some (header, data) =>
          match cutByte header " " with
          | None => inl ErrHeader
          | Some (kind, size) =>
              match Atoi size with
              | None => inl ErrSize
              | Some size =>
                  if Z.of_nat (slen data) =? size then inr (mkRaw kind data) else inl (ErrLength size (Z.of_nat (slen data)))
              end
          end
      end
  end.

Definition hasLoose (fs : objectFiles) (id : objectID) : bool := bool_decide (is_Some (fs !! loosePath id)).

Definition put (fs : objectFiles) (kind data : string) : objectID * objectFiles :=
  let id := hashObject kind data in
  if hasLoose fs id then (id, fs) else (id, <[loosePath id := deflate (framed kind data)]> fs).
End Loose.

(** ** Trees are read back *)

Definition wf_entry (e : treeEntry) : Prop :=
  ContainsByte (te_mode e) " " = false ∧ ContainsByte (te_name e) NUL = false ∧ valid_id (te_id e).

Lemma writeEntry_app e rest :
  writeEntry e +:+ rest = te_mode e +:+ String " " (te_name e +:+ String NUL (te_id e +:+ rest)).
Proof. unfold writeEntry. rewrite <- !sapp_assoc. cbn [String.append]. rewrite <- ?sapp_assoc. done. Qed.

Lemma parseTree_loop_write l fuel : Forall wf_entry l → (slen (writeEntries l) ≤ fuel)%nat → parseTree_loop fuel (writeEntries l) = inr l.
Proof.
  revert fuel. induction l as [|e l IH]; intros fuel Hwf Hf; [by destruct fuel|]. inversion_clear Hwf as [|? ? (Hm & Hn & Hid) Hl].
  change (writeEntries (e :: l)) with (writeEntry e +:+ writeEntries l) in *. rewrite writeEntry_app in *.
  rewrite !slen_app in Hf. cbn [slen String.length] in Hf. rewrite !slen_app in Hf. cbn [slen String.length] in Hf. unfold valid_id in Hid.
  destruct fuel as [|fuel]; [unfold slen in *; lia|]. set (data := te_mode e +:+ _). cbn [parseTree_loop].
  assert (Hne : data ≠ "") by (unfold data; destruct (te_mode e); done). destruct data as [|c t] eqn:Ed; [done|]. rewrite <- Ed. unfold data.
  rewrite cutByte_app, cutByte_app by done. cbn [rbind].
  assert (Hlen : slen (te_id e +:+ writeEntries l) = (20 + slen (writeEntries l))%nat) by (rewrite slen_app; lia).
  rewrite (proj2 (Nat.ltb_ge _ _)) by lia. rewrite <- Hid, sdrop_app, stake_app.
  rewrite IH; [by destruct e|done|]. rewrite slen_app in Hf. unfold slen in *. lia.
Qed.

Lemma sortEntries_perm l : sortEntries l ≡ₚ l.
Proof. apply sort_by_perm. Qed.

(** The bytes of a tree do not depend on the order its entries come in. *)
Lemma sortEntries_order l l' : l ≡ₚ l' → NoDup (treeEntryKey <$> l) → sortEntries l = sortEntries l'.
Proof.
  intros Hp Hnd. apply (sort_by_order _) with (key := treeEntryKey); try done.
  - intros x y E. by apply String_leb_false in E as [? _].
  - intros x y z. apply String_leb_trans.
  - intros x y. apply String.leb_antisym.
Qed.

(** A tree's bytes are read back as its entries in tree order, and are the same
    whatever order the entries came in: for modes without a space, names without a NUL
    byte and 20-byte object names. *)
Theorem tree_roundtrip es es' :
  Forall wf_entry es → NoDup (treeEntryKey <$> es) → es ≡ₚ es' →
  parseTree (encodeTree es) = inr (sortEntries es) ∧ encodeTree es' = encodeTree es.
Proof.
  intros Hwf Hnd Hp. split.
  - unfold parseTree, encodeTree. apply parseTree_loop_write; [|done]. by rewrite sortEntries_perm.
  - unfold encodeTree. by rewrite (sortEntries_order es es').
Qed.

(** ** Loose objects are read back *)

Section LooseFacts.
Context (sha1 : string → string) (inflate : string → option string) (deflate : string → string).
(** [compress/zlib]: what the writer wrote is read back, whatever follows it. *)
Hypothesis inflate_deflate : ∀ d rest, inflate (deflate d +:+ rest) = Some d.
(** [crypto/sha1]: a sum is 20 bytes. *)
Hypothesis sha1_size : ∀ s, slen (sha1 s) = 20%nat.

Definition wf_object (kind data : string) : Prop :=
  ContainsByte kind " " = false ∧ ContainsByte kind NUL = false ∧ Z.of_nat (slen data) < 2 ^ 63.

Lemma decode_framed kind data : wf_object kind data → decodeLoose inflate (deflate (framed kind data)) = inr (mkRaw kind data).
Proof.
  intros (Hk & Hn & Hlen). pose proof (Itoa_digits (Z.of_nat (slen data))) as (Hd & _ & _); [lia|].
  unfold decodeLoose. rewrite <- (sapp_nil_r (deflate _)), inflate_deflate. unfold framed.
  replace (kind +:+ " " +:+ Itoa (Z.of_nat (slen data)) +:+ String NUL data)
    with ((kind +:+ String " " (Itoa (Z.of_nat (slen data)))) +:+ String NUL data) by (by rewrite <- sapp_assoc).
  rewrite cutByte_app, cutByte_app by (rewrite ?ContainsByte_app; cbn [ContainsByte]; rewrite ?Hn, ?Hk, ?(digits_contain _ NUL Hd); done).
  rewrite Atoi_Itoa by lia. by rewrite Z.eqb_refl.
Qed.

Lemma loosePath_inj id id' : valid_id id → valid_id id' → loosePath id = loosePath id' → id = id'.
Proof.
  unfold valid_id, loosePath, idString. intros Hi Hi' He. apply (inj hexBytes).
  pose proof (slen_hexBytes id) as H1. pose proof (slen_hexBytes id') as H2.
  destruct (hexBytes id) as [|a [|b s]], (hexBytes id') as [|a' [|b' s']]; unfold slen in *; cbn in *; try lia. congruence.
Qed.

Lemma hashObject_valid kind data : valid_id (hashObject sha1 kind data).
Proof. apply sha1_size. Qed.

(** The objects of a database: every file is the one [put] writes for its name. *)
Definition stored (fs : objectFiles) (kind data : string) : Prop :=
  fs !! loosePath (hashObject sha1 kind data) = Some (deflate (framed kind data)).

(** No two of the objects involved have the same SHA-1. *)
Definition hash_distinct (objs : list (string * string)) : Prop :=
  ∀ k d k' d', (k, d) ∈ objs → (k', d') ∈ objs → hashObject sha1 k d = hashObject sha1 k' d' → k = k' ∧ d = d'.

(** Each file stores one of the objects [objs]. *)
Definition holds (objs : list (string * string)) (fs : objectFiles) : Prop :=
  ∀ path file, fs !! path = Some file →
    ∃ k d, (k, d) ∈ objs ∧ path = loosePath (hashObject sha1 k d) ∧ file = deflate (framed k d).

Lemma put_spec objs fs kind data id fs' :
  hash_distinct objs → holds objs fs → (kind, data) ∈ objs → put sha1 deflate fs kind data = (id, fs') →
  id = hashObject sha1 kind data ∧ stored fs' kind data ∧ holds objs fs' ∧ (∀ path file, fs !! path = Some file → fs' !! path = Some file).
Proof.
  intros Hd Hh Hin. unfold put, hasLoose. case_bool_decide as Hs; intros [= <- <-].
  - split_and!; [done| |done|done]. destruct Hs as [file Hf]. unfold stored. destruct (Hh _ _ Hf) as (k & d & Hkd & Hp & ->).
    apply loosePath_inj in Hp; [|apply hashObject_valid..]. destruct (Hd kind data k d) as [-> ->]; done.
  - split_and!; [done|apply lookup_insert_eq| |].
    + intros path file [[<- <-]|[_ Hf]]%lookup_insert_Some; [eauto|]. by apply Hh.
    + intros path file Hf. rewrite lookup_insert_ne; [done|]. intros <-. apply Hs. eauto.
Qed.
End LooseFacts.

(** ** Commits are read back *)

Lemma parse_line fuel c key value rest :
  ContainsByte key " " = false → key ≠ "" → ContainsByte key LF = false → ContainsByte value LF = false →
  (slen (key +:+ String " " (value +:+ String LF rest)) ≤ fuel)%nat →
  ∃ fuel', (slen rest ≤ fuel')%nat ∧
    parseCommit_loop fuel c (key +:+ String " " (value +:+ String LF rest)) = (c ←? parseHeader key value c; parseCommit_loop fuel' c rest).
Proof.
  intros Hk Hne Hkl Hvl Hf. rewrite slen_app in Hf. change (slen (String " " (value +:+ String LF rest))) with (S (slen (value +:+ String LF rest))) in Hf.
  rewrite slen_app in Hf. change (slen (String LF rest)) with (S (slen rest)) in Hf. destruct fuel as [|fuel]; [lia|].
  exists fuel. split; [lia|]. cbn [parseCommit_loop]. destruct (key +:+ _) as [|a t] eqn:E; [by destruct key|]. rewrite <- E.
  replace (key +:+ String " " (value +:+ String LF rest)) with ((key +:+ String " " value) +:+ String LF rest) by (by rewrite <- sapp_assoc).
  rewrite cutByte_app by (rewrite ContainsByte_app; cbn [ContainsByte]; by rewrite Hkl, Hvl).
  destruct key as [|k key]; [done|]. cbn in Hk. apply orb_false_iff in Hk as [Hk1 Hk2]. cbn [String.append String.eqb HasPrefix].
  rewrite Ascii.eqb_sym, Hk1. cbn [andb]. change (String k (key +:+ String " " value)) with (String k key +:+ String " " value).
  rewrite cutByte_app by (cbn; by rewrite Hk1). done.
Qed.

Lemma hexdigit_byte d : 0 ≤ d < 16 → 48 ≤ byteZ (hexdigit d) < 103.
Proof. intros Hd. unfold hexdigit. destruct (Z.ltb_spec d 10); rewrite byteZ_Zbyte; lia. Qed.

Lemma hexBytes_no_LF s : ContainsByte (hexBytes s) LF = false.
Proof.
  induction s as [|c s IH]; [done|]. rewrite hexBytes_cons. cbn [ContainsByte]. rewrite IH. pose proof (byteZ_range c).
  assert (∀ d, 0 ≤ d < 16 → Ascii.eqb (hexdigit d) LF = false) as Hd.
  { intros d Hd. apply Ascii.eqb_neq. intros He. apply hexdigit_byte in Hd. rewrite He in Hd. by destruct Hd. }
  rewrite !Hd; [done|apply Z.mod_pos_bound; lia|split; [apply Z.div_pos; lia|apply Z.div_lt_upper_bound; lia]].
Qed.

Lemma objectIDFromHex_String id : valid_id id → objectIDFromHex (idString id) = inr id.
Proof. intros Hi. unfold objectIDFromHex, idString. rewrite slen_hexBytes, Hi. cbn [Nat.eqb negb]. by rewrite DecodeString_hexBytes. Qed.

Lemma Itoa_word n : 0 ≤ n → Itoa n ≠ "" ∧ forallb word_byte (String.list_ascii_of_string (Itoa n)) = true.
Proof.
  intros Hn. destruct (Itoa_digits n Hn) as (Hd & _ & Hne). split; [done|]. clear Hne. induction (Itoa n) as [|c s IH]; [done|].
  cbn in *. apply andb_true_iff in Hd as [Hc Hs]. rewrite (IH Hs), andb_true_r. unfold is_digit in Hc. unfold word_byte, IsSpace.
  apply andb_true_iff in Hc as [?%Z.leb_le ?%Z.leb_le]. repeat match goal with |- context [?a =? ?b] => rewrite (proj2 (Z.eqb_neq a b)) by lia end.
  rewrite (proj2 (Z.ltb_lt _ _)) by lia. rewrite (proj2 (Z.leb_gt (byteZ c) 0x0d)) by lia. rewrite (proj2 (Z.leb_gt 0x2000 (byteZ c))) by lia.
  by rewrite andb_false_r.
Qed.

Definition word (w : string) : Prop := w ≠ "" ∧ forallb word_byte (String.list_ascii_of_string w) = true.

Lemma word_app v w : word v → word w → word (v +:+ w).
Proof.
  intros [Hv1 Hv2] [Hw1 Hw2]. split; [by destruct v|]. clear Hv1 Hw1. induction v as [|c v IH]; cbn in *; [done|].
  apply andb_true_iff in Hv2 as [-> Hv2]. by rewrite IH.
Qed.

Lemma word_no_LF w : word w → ContainsByte w LF = false.
Proof.
  intros [_ Hw]. induction w as [|c w IH]; [done|]. cbn in *. apply andb_true_iff in Hw as [Hc Hw]. rewrite (IH Hw), orb_false_r.
  apply Ascii.eqb_neq. intros ->. done.
Qed.

Lemma pad2_word n : 0 ≤ n → word (pad2 n).
Proof. intros Hn. unfold pad2. pose proof (Itoa_word n Hn) as Hw. destruct (n <? 10); [by apply word_app|done]. Qed.

Lemma formatTimezone_word tz neg : word (formatTimezone tz neg).
Proof.
  unfold formatTimezone. apply word_app; [by repeat case_match|]. apply word_app; apply pad2_word.
  - apply Z.div_pos; lia.
  - apply Z.div_pos; [apply Z.mod_pos_bound|]; lia.
Qed.

Definition wf_ident (who : commitIdent) : Prop := ContainsByte (ci_name who) LF = false ∧ ContainsByte (ci_email who) LF = false.

Definition identValue (who : commitIdent) (time tz : Z) : string :=
  (ci_name who +:+ " <" +:+ ci_email who +:+ ">") +:+ String " " (Itoa time +:+ String " " (formatTimezone tz false)).

Lemma identLine_value key who time tz rest :
  identLine key who time tz +:+ rest = key +:+ String " " (identValue who time tz +:+ String LF rest).
Proof. unfold identLine, identValue. rewrite <- !sapp_assoc. cbn [String.append]. by rewrite <- ?sapp_assoc. Qed.

Lemma parseIdentTime_value who time tz : 0 ≤ time < 2 ^ 63 → parseIdentTime (identValue who time tz) = Some time.
Proof.
  intros Ht. unfold parseIdentTime, identValue. rewrite !Fields_app by done.
  destruct (Itoa_word time) as [H1 H2]; [lia|]. destruct (formatTimezone_word tz false) as [H3 H4].
  rewrite (Fields_word _ H1 H2), (Fields_word _ H3 H4). set (l := Fields _). rewrite !length_app. cbn [length].
  rewrite (proj2 (Nat.ltb_ge _ _)) by lia. replace (length l + (1 + 1) - 2)%nat with (length l + 0)%nat by lia.
  rewrite lookup_app_r by lia. replace (length l + 0 - length l)%nat with 0%nat by lia. cbn. apply Atoi_Itoa. lia.
Qed.

Lemma identValue_no_LF who time tz : wf_ident who → 0 ≤ time → ContainsByte (identValue who time tz) LF = false.
Proof.
  intros [Hn He] Ht. unfold identValue. rewrite !ContainsByte_app. cbn [ContainsByte]. rewrite !ContainsByte_app. cbn [ContainsByte].
  rewrite Hn, He, (word_no_LF _ (Itoa_word _ Ht)), (word_no_LF _ (formatTimezone_word tz false)). done.
Qed.

Lemma parse_parents fuel c parents rest :
  Forall valid_id parents →
  (slen (foldr (λ p acc, "parent " +:+ idString p +:+ String LF "" +:+ acc) "" parents +:+ rest) ≤ fuel)%nat →
  ∃ fuel', (slen rest ≤ fuel')%nat ∧
    parseCommit_loop fuel c (foldr (λ p acc, "parent " +:+ idString p +:+ String LF "" +:+ acc) "" parents +:+ rest)
    = parseCommit_loop fuel' (mkCommit (c_tree c) (c_parents c ++ parents) (c_commitTime c) (c_message c)) rest.
Proof.
  revert fuel c. induction parents as [|p ps IH]; intros fuel c Hv Hf.
  - exists fuel. split; [done|]. rewrite app_nil_r. by destruct c.
  - inversion_clear Hv as [|? ? Hp Hps]. cbn [foldr] in *. set (tl := foldr _ "" ps) in *.
    replace (("parent " +:+ idString p +:+ String LF "" +:+ tl) +:+ rest)
      with ("parent" +:+ String " " (idString p +:+ String LF (tl +:+ rest))) in * by (cbn; rewrite <- ?sapp_assoc; cbn; by rewrite <- ?sapp_assoc).
    apply (parse_line _ c) in Hf as (f1 & Hf1 & ->); [|done|done|done|apply hexBytes_no_LF].
    destruct (IH f1 (mkCommit (c_tree c) (c_parents c ++ [p]) (c_commitTime c) (c_message c)) Hps Hf1) as (f2 & Hf2 & E).
    exists f2. split; [done|]. unfold parseHeader. cbn [String.eqb Ascii.eqb]. change (String.eqb "parent" "tree") with false.
    change (String.eqb "parent" "parent") with true. cbn beta iota. rewrite objectIDFromHex_String by done. cbn [rbind].
    etransitivity; [exact E|]. cbn [c_tree c_parents c_commitTime c_message]. by rewrite <- app_assoc.
Qed.

(** A commit's bytes are read back with its tree, its parents in order, its commit time
    and its message, whatever the message holds. *)
Lemma parseCommit_encode tree parents author committer authorTime commitTime authorTZ commitTZ message :
  valid_id tree → Forall valid_id parents → wf_ident author → wf_ident committer → 0 ≤ authorTime → 0 ≤ commitTime < 2 ^ 63 →
  parseCommit (encodeCommit tree parents author committer authorTime commitTime authorTZ commitTZ message)
  = inr (mkCommit tree parents commitTime message).
Proof.
  intros Ht Hp Ha Hc Hat Hct. unfold parseCommit, encodeCommit. set (rest1 := foldr _ "" parents +:+ _). set (data := "tree " +:+ _).
  destruct (parse_line (slen data) (mkCommit zeroID [] 0 "") "tree" (idString tree) rest1) as (f1 & Hf1 & E1); [done..|apply hexBytes_no_LF|done|].
  etransitivity; [exact E1|]. unfold parseHeader at 1. change (String.eqb "tree" "tree") with true. cbn beta iota.
  rewrite objectIDFromHex_String by done. cbn [rbind c_parents c_commitTime c_message]. unfold rest1 in *. clear E1.
  apply (parse_parents _ (mkCommit tree [] 0 "")) in Hf1 as (f2 & Hf2 & E2); [|done]. etransitivity; [exact E2|]. clear E2.
  cbn [c_tree c_parents c_commitTime c_message app]. rewrite identLine_value in *.
  destruct (parse_line f2 (mkCommit tree parents 0 "") "author" _ _ eq_refl ltac:(done) eq_refl (identValue_no_LF author authorTime authorTZ Ha Hat) Hf2) as (f3 & Hf3 & E3).
  etransitivity; [exact E3|]. clear E3 Hf2. change (parseHeader "author" _ (mkCommit tree parents 0 "")) with (@inr GitError _ (mkCommit tree parents 0 "")).
  cbn [rbind]. rewrite identLine_value in *.
  destruct (parse_line f3 (mkCommit tree parents 0 "") "committer" _ _ eq_refl ltac:(done) eq_refl (identValue_no_LF committer commitTime commitTZ Hc ltac:(lia)) Hf3) as (f4 & Hf4 & E4).
  etransitivity; [exact E4|]. clear E4 Hf3. unfold parseHeader. change (String.eqb "committer" "committer") with true.
  change (String.eqb "committer" "tree") with false. change (String.eqb "committer" "parent") with false.
  cbn beta iota. rewrite parseIdentTime_value by done. cbn [rbind c_tree c_parents c_message].
  destruct f4 as [|f4]; [cbn in Hf4; lia|]. done.
Qed.
