(* ===== verification/GitPack.v ===== *)
(** * Pack files (src/internal/gitstore/pack.go)

    The version 2 index with its binary search, objects at an offset with their delta
    chains, and the delta instructions.  A pack is its bytes; seeking is dropping them.
    Reading has fuel because a delta may name its base by object name, which starts a
    new search: [None] is a read that has not ended. *)

From Stdlib Require Import Ascii.
From stdpp Require Import gmap strings.
From S2P Require Import Prelude GoText GoLib Regex GoFmt GitObject.

Open Scope string_scope.
Open Scope list_scope.
Open Scope Z_scope.

Definition packTypeCommit : Z := 1.
Definition packTypeTree : Z := 2.
Definition packTypeBlob : Z := 3.
Definition packTypeTag : Z := 4.
Definition packTypeOfsDelta : Z := 6.
Definition packTypeRefDelta : Z := 7.

Definition sub (start len : nat) (s : string) : string := stake len (sdrop start s).

(** [binary.BigEndian.Uint32] and [Uint64] at a position. *)
Fixpoint be (n : nat) (s : string) (acc : Z) : Z :=
  match n, s with
  | S n, String c s => be n s (256 * acc + byteZ c)
  | _, _ => acc
  end.
Definition Uint32 (pos : nat) (data : string) : Z := be 4 (sdrop pos data) 0.
Definition Uint64 (pos : nat) (data : string) : Z := be 8 (sdrop pos data) 0.

(** ** The index *)

Record packIndex := mkIndex { px_names : list objectID; px_offsets : list Z }.

(** [sort.Search]: the least index from which [f] holds, by halving. *)
Fixpoint Search_loop (fuel : nat) (f : nat → bool) (i j : nat) : nat :=
  match fuel with
  | O => i
  | S fuel =>
      if (i <? j)%nat then
        let h := ((i + j) / 2)%nat in
        if negb (f h) then Search_loop fuel f (h + 1) j else Search_loop fuel f i h
      else i
  end.
Definition Search (n : nat) (f : nat → bool) : nat := Search_loop n f 0 n.

Definition nameAt (p : packIndex) (i : nat) : objectID := default "" (px_names p !! i).

Definition lookupName (p : packIndex) (id : objectID) : option Z :=
  let i := Search (length (px_names p)) (λ i, String.leb id (nameAt p i)) in
  if (i <? length (px_names p))%nat && String.eqb (nameAt p i) id then px_offsets p !! i else None.

Definition headerBytes : nat := 8 + 256 * 4.
Definition indexMagic : string := of_bytes [0xff; 116; 79; 99].

Definition offsetAt (data : string) (bigStart : nat) (nBig : Z) (v : Z) : GitError + Z :=
  if Z.testbit v 31 then
    let n := Z.land v 0x7fffffff in
    if nBig <=? n then inl ErrPackIndex else inr (Uint64 (bigStart + Z.to_nat n * 8) data)
  else inr v.

Fixpoint rmap {E A B} (f : A → E + B) (l : list A) : E + list B :=
  match l with [] => inr [] | a :: l => b ←? f a; bs ←? rmap f l; inr (b :: bs) end.

Definition readPackIndex (data : string) : GitError + packIndex :=
  _ ←? guard_err (slen data <? headerBytes + 40)%nat ErrPackIndex;
  _ ←? guard_err (negb (String.eqb (stake 4 data) indexMagic)) ErrPackIndex;
  _ ←? guard_err (negb (Uint32 4 data =? 2)) ErrPackIndex;
  let count := Z.to_nat (Uint32 (8 + 255 * 4) data) in
  let namesStart := headerBytes in
  let crcStart := (namesStart + count * 20)%nat in
  let offStart := (crcStart + count * 4)%nat in
  let bigStart := (offStart + count * 4)%nat in
  _ ←? guard_err (slen data <? bigStart)%nat ErrPackIndex;
  names ←? rmap (λ i, objectIDFromBytes (sub (namesStart + i * 20) 20 data)) (seq 0 count);
  let vs := map (λ i, Uint32 (offStart + i * 4) data) (seq 0 count) in
  let nBig := Z.of_nat (length (List.filter (λ v, Z.testbit v 31) vs)) in
  _ ←? guard_err (slen data <? bigStart + Z.to_nat nBig * 8)%nat ErrPackIndex;
  offsets ←? rmap (offsetAt data bigStart nBig) vs;
  inr (mkIndex names offsets).

(** ** Deltas *)

Fixpoint readVarint (s : string) (v shift : Z) : option (Z * string) :=
  match s with
  | "" => None
  | String b s =>
      let v := Z.lor v (u64 (Z.shiftl (Z.land (byteZ b) 0x7f) shift)) in
      if Z.testbit (byteZ b) 7 then readVarint s v (shift + 7) else Some (v, s)
  end.

(** The loops over the bits of a copy instruction: byte [i] of the value follows when
    bit [bit] of [op] is set. *)
Fixpoint readFields (op bit i : Z) (n : nat) (s : string) (v : Z) : option (Z * string) :=
  match n with
  | O => Some (v, s)
  | S n =>
      if Z.testbit op bit then
        match s with
        | "" => None
        | String b s => readFields op (bit + 1) (i + 1) n s (Z.lor v (Z.shiftl (byteZ b) (8 * i)))
        end
      else readFields op (bit + 1) (i + 1) n s v
  end.

Fixpoint applyDelta_loop (fuel : nat) (base s out : string) : GitError + string :=
  match fuel, s with
  | O, _ | _, "" => inr out
  | S fuel, String opc s =>
      let op := byteZ opc in
      if Z.testbit op 7 then
        match readFields op 0 0 4 s 0 with
        | None => inl ErrDeltaCopy
        | Some (copyOffset, s) =>
            match readFields op 4 0 3 s 0 with
            | None => inl ErrDeltaCopy
            | Some (copySize, s) =>
                let copySize := if copySize =? 0 then 0x10000 else copySize in
                if Z.of_nat (slen base) <? u64 (copyOffset + copySize) then inl ErrDeltaRange else
                applyDelta_loop fuel base s (out +:+ sub (Z.to_nat copyOffset) (Z.to_nat copySize) base)
            end
        end
      else if op =? 0 then inl ErrDeltaOpcode else
      if (slen s <? Z.to_nat op)%nat then inl ErrDeltaInsert else
      applyDelta_loop fuel base (sdrop (Z.to_nat op) s) (out +:+ stake (Z.to_nat op) s)
  end.

(** The largest capacity [make] accepts on a 64-bit Linux; above it the runtime panics. *)
Definition maxAlloc : Z := 2 ^ 48.

Definition applyDelta (base delta : string) : GitError + string :=
  match readVarint delta 0 0 with
  | None => inl ErrDeltaTruncated
  | Some (srcSize, s) =>
      if negb (srcSize =? Z.of_nat (slen base)) then inl (ErrDeltaBase srcSize (Z.of_nat (slen base))) else
      match readVarint s 0 0 with
      | None => inl ErrDeltaTruncated
      | Some (dstSize, s) =>
          if maxAlloc <? dstSize then inl ErrMakeSlice else
          out ←? applyDelta_loop (slen s) base s "";
          if negb (Z.of_nat (slen out) =? dstSize) then inl (ErrDeltaSize (Z.of_nat (slen out)) dstSize) else inr out
      end
  end.

(** ** Objects in packs *)

Record packFile := mkPack { pf_idx : packIndex; pf_data : string }.
Record objectStore := mkStore { os_loose : objectFiles; os_packs : list packFile }.

Definition packKindName (t : Z) : string :=
  if t =? packTypeCommit then kindCommit else if t =? packTypeTree then kindTree else if t =? packTypeBlob then kindBlob else kindTag.

(** The continuation bytes of an object's size, after its first byte. *)
Fixpoint readSize (s : string) (more : bool) (size shift : Z) : option (Z * string) :=
  if negb more then Some (size, s) else
  match s with
  | "" => None
  | String b s => readSize s (Z.testbit (byteZ b) 7) (Z.lor size (u64 (Z.shiftl (Z.land (byteZ b) 0x7f) shift))) (shift + 7)
  end.

(** The offset encoding of an ofs-delta. *)
Fixpoint readOffset (s : string) (more : bool) (rel : Z) : option (Z * string) :=
  if negb more then Some (rel, s) else
  match s with
  | "" => None
  | String b s => readOffset s (Z.testbit (byteZ b) 7) (Z.lor (u64 (Z.shiftl (u64 (rel + 1)) 7)) (Z.land (byteZ b) 0x7f))
  end.

Section Packs.
Context (inflate : string → option string).

Definition inflateSized (s : string) (size : Z) : GitError + string :=
  match inflate s with
  | None => inl ErrInflate
  | Some data => if negb (Z.of_nat (slen data) =? size) then inl (ErrLength size (Z.of_nat (slen data))) else inr data
  end.

(** A result of the reading loop; [None] is out of fuel. *)
Abbreviation reading A := (option (GitError + A)).
Definition fails {A} (e : GitError) : reading A := Some (inl e).

(** [base] with the delta applied. *)
Definition onBase (r : reading rawObject) (delta : string) : reading rawObject :=
  match r with
  | Some (inr base) => Some (data ←? applyDelta (ro_data base) delta; inr (mkRaw (ro_kind base) data))
  | r => r
  end.

(** [getPacked], with [read] for [readObjectAt(off, 0)]. *)
Fixpoint getPacked (read : string → Z → reading rawObject) (packs : list packFile) (id : objectID) : reading rawObject :=
  match packs with
  | [] => fails (ErrNotExist id)
  | p :: packs => match lookupName (pf_idx p) id with Some off => read (pf_data p) off | None => getPacked read packs id end
  end.

(** [ref] is [store.get], which a delta against a named base calls. *)
Fixpoint readObjectFrom (fuel : nat) (ref : objectID → reading rawObject) (pack : string) (offset depth : Z) : reading rawObject :=
  match fuel with
  | O => None
  | S fuel =>
      if 64 <? depth then fails ErrPackDeep else
      if 2 ^ 63 <=? offset then fails ErrPackSeek else
      match sdrop (Z.to_nat offset) pack with
      | "" => fails ErrPackEOF
      | String h s =>
          let kind := Z.land (Z.shiftr (byteZ h) 4) 7 in
          match readSize s (Z.testbit (byteZ h) 7) (Z.land (byteZ h) 0x0f) 4 with
          | None => fails ErrPackEOF
          | Some (size, s) =>
              if (kind =? packTypeCommit) || (kind =? packTypeTree) || (kind =? packTypeBlob) || (kind =? packTypeTag) then
                Some (data ←? inflateSized s size; inr (mkRaw (packKindName kind) data))
              else if kind =? packTypeOfsDelta then
                match s with
                | "" => fails ErrPackEOF
                | String b s =>
                    match readOffset s (Z.testbit (byteZ b) 7) (Z.land (byteZ b) 0x7f) with
                    | None => fails ErrPackEOF
                    | Some (baseRel, s) =>
                        if offset <? baseRel then fails ErrPackBase else
                        match inflateSized s size with
                        | inl e => fails e
                        | inr delta => onBase (readObjectFrom fuel ref pack (offset - baseRel) (depth + 1)) delta
                        end
                    end
                end
              else if kind =? packTypeRefDelta then
                if (slen s <? 20)%nat then fails ErrPackEOF else
                match inflateSized (sdrop 20 s) size with
                | inl e => fails e
                | inr delta => onBase (ref (stake 20 s)) delta
                end
              else fails (ErrPackKind kind)
          end
      end
  end.

(** A chain of offset deltas ends at depth 65. *)
Definition chainFuel : nat := 66.

Fixpoint get (fuel : nat) (st : objectStore) (id : objectID) : reading rawObject :=
  match fuel with
  | O => None
  | S fuel =>
      match os_loose st !! loosePath id with
      | Some file => Some (decodeLoose inflate file)
      | None => getPacked (λ pack off, readObjectFrom chainFuel (get fuel st) pack off 0) (os_packs st) id
      end
  end.
End Packs.

(** ** The binary search *)

Lemma Search_loop_spec fuel f i j n :
  (j - i ≤ fuel)%nat → (i ≤ j ≤ n)%nat → (∀ k, (k < i)%nat → f k = false) → (∀ k, (j ≤ k < n)%nat → f k = true) →
  (∀ a b, (a ≤ b < n)%nat → f a = true → f b = true) →
  let r := Search_loop fuel f i j in
  (r ≤ n)%nat ∧ (∀ k, (k < r)%nat → f k = false) ∧ ∀ k, (r ≤ k < n)%nat → f k = true.
Proof.
  revert i j. induction fuel as [|fuel IH]; intros i j Hf Hij Hlo Hhi Hmono; cbn [Search_loop].
  - assert (i = j) as -> by lia. split_and!; [lia|done|done].
  - destruct (Nat.ltb_spec i j) as [Hlt|]; [|assert (i = j) as -> by lia; split_and!; [lia|done|done]].
    set (h := ((i + j) / 2)%nat). assert (Hh : (i ≤ h < j)%nat) by (unfold h; split; [apply Nat.div_le_lower_bound|apply Nat.Div0.div_lt_upper_bound]; lia).
    destruct (f h) eqn:E; cbn [negb].
    + apply IH; [lia|lia|done| |done]. intros k Hk. apply (Hmono h k); [lia|done].
    + apply IH; [lia|lia| |done|done]. intros k Hk. apply not_true_iff_false. intros Hk'.
      rewrite (Hmono k h) in E; [done|lia|done].
Qed.

Definition lt_name (a b : objectID) : Prop := String.leb a b = true ∧ a ≠ b.

Lemma sorted_lookup (l : list objectID) i j a b :
  StronglySorted lt_name l → l !! i = Some a → l !! j = Some b → (i < j)%nat → lt_name a b.
Proof.
  revert i j. induction l as [|x l IH]; intros i j Hs Hi Hj Hlt; [done|]. apply StronglySorted_inv in Hs as [Hs Hx].
  destruct j as [|j]; [lia|]. destruct i as [|i].
  - cbn in Hi, Hj. simplify_eq. rewrite Forall_forall in Hx. apply Hx. by eapply list_elem_of_lookup_2.
  - apply (IH i j); try done. lia.
Qed.

(** For an index whose names are in order, the binary search finds the offset of a
    name exactly when the name is there. *)
Theorem pack_lookup_exact p id off :
  StronglySorted lt_name (px_names p) → length (px_offsets p) = length (px_names p) →
  lookupName p id = Some off ↔ ∃ i, px_names p !! i = Some id ∧ px_offsets p !! i = Some off.
Proof.
  intros Hs Hlen. set (n := length (px_names p)). set (f := λ i, String.leb id (nameAt p i)).
  assert (Hat : ∀ i, (i < n)%nat → px_names p !! i = Some (nameAt p i)).
  { intros i Hi. unfold nameAt. destruct (lookup_lt_is_Some_2 (px_names p) i Hi) as [x Hx]. by rewrite Hx. }
  destruct (Search_loop_spec n f 0 n n) as (Hr & Hlo & Hhi); [lia|lia|lia|lia| |].
  { intros a b Hab Ha. destruct (decide (a = b)) as [->|]; [done|]. unfold f in *.
    apply (String_leb_trans _ (nameAt p a)); [done|]. apply (sorted_lookup (px_names p) a b); [done|apply Hat; lia..|lia]. }
  unfold lookupName. fold n f. change (Search_loop n f 0 n) with (Search n f) in *. generalize dependent (Search n f). intros r Hr Hlo Hhi. split.
  - destruct (Nat.ltb_spec r n); cbn [andb]; [|done]. destruct (String.eqb_spec (nameAt p r) id) as [<-|]; [|done]. eauto.
  - intros (i & Hi & Ho). assert (Hin : (i < n)%nat) by (by eapply lookup_lt_Some). pose proof (Hat i Hin) as Hi'. rewrite Hi in Hi'. injection Hi' as Hi'.
    assert (r = i) as ->.
    { assert (f i = true) by (unfold f; rewrite <- Hi'; apply String_leb_refl).
      destruct (Nat.lt_trichotomy r i) as [Hlt|[?|Hlt]]; [|done|by rewrite (Hlo i Hlt) in *].
      exfalso. destruct (sorted_lookup _ r i _ _ Hs (Hat r ltac:(lia)) (Hat i Hin) Hlt) as [Hle Hne]. apply Hne.
      apply String.leb_antisym; [done|]. rewrite <- Hi'. apply (Hhi r). lia. }
    rewrite (proj2 (Nat.ltb_lt _ _) Hin), <- Hi', String.eqb_refl. done.
Qed.

(** ** Delta instructions *)

Inductive deltaOp := DCopy (off size : Z) | DInsert (data : string).

Definition denoteOp (base : string) (op : deltaOp) : string :=
  match op with DCopy off size => sub (Z.to_nat off) (Z.to_nat size) base | DInsert data => data end.
Definition denote (base : string) (ops : list deltaOp) : string := foldr (λ op acc, denoteOp base op +:+ acc) "" ops.

(** What the format can express. *)
Definition wf_op (base : string) (op : deltaOp) : Prop :=
  match op with
  | DCopy off size => 0 ≤ off < 2 ^ 32 ∧ 1 ≤ size < 2 ^ 24 ∧ off + size ≤ Z.of_nat (slen base)
  | DInsert data => (1 ≤ slen data ≤ 127)%nat
  end.

(** Git's encoding of sizes and instructions. *)
Fixpoint writeVarint (fuel : nat) (n : Z) : string :=
  match fuel with
  | O => String (Zbyte n) ""
  | S fuel => if n <? 128 then String (Zbyte n) "" else String (Zbyte (128 + n mod 128)) (writeVarint fuel (n / 128))
  end.
Fixpoint writeFields (n : nat) (x : Z) : string :=
  match n with
  | O => ""
  | S n => (if x mod 256 =? 0 then "" else String (Zbyte (x mod 256)) "") +:+ writeFields n (x / 256)
  end.
Fixpoint fieldMask (bit : Z) (n : nat) (x : Z) : Z :=
  match n with
  | O => 0
  | S n => (if x mod 256 =? 0 then 0 else 2 ^ bit) + fieldMask (bit + 1) n (x / 256)
  end.
Definition writeOp (op : deltaOp) : string :=
  match op with
  | DCopy off size => String (Zbyte (128 + fieldMask 0 4 off + fieldMask 4 3 size)) (writeFields 4 off +:+ writeFields 3 size)
  | DInsert data => String (Zbyte (Z.of_nat (slen data))) data
  end.
Definition writeDelta (base out : string) (ops : list deltaOp) : string :=
  writeVarint 9 (Z.of_nat (slen base)) +:+ writeVarint 9 (Z.of_nat (slen out)) +:+ foldr (λ op acc, writeOp op +:+ acc) "" ops.

Lemma testbit7 x : 0 ≤ x < 256 → Z.testbit x 7 = (128 <=? x).
Proof.
  intros Hx. rewrite Z.testbit_eqb by lia. change (2 ^ 7) with 128. destruct (Z.leb_spec 128 x).
  - assert (x / 128 = 1) as -> by (symmetry; apply (Z.div_unique_pos x 128 1 (x - 128)); lia). done.
  - by rewrite Z.div_small by lia.
Qed.

Lemma readVarint_write fuel n v shift rest :
  0 ≤ n < 128 ^ (Z.of_nat fuel + 1) → 0 ≤ shift → 0 ≤ v < 2 ^ shift → v + n * 2 ^ shift < 2 ^ 64 →
  readVarint (writeVarint fuel n +:+ rest) v shift = Some (v + n * 2 ^ shift, rest).
Proof.
  revert n v shift. induction fuel as [|fuel IH]; intros n v shift Hn Hs Hv Hlt.
  - assert (Hn' : 0 ≤ n < 128) by (cbn in Hn; lia). cbn [writeVarint String.append readVarint].
    rewrite byteZ_Zbyte, testbit7, (proj2 (Z.leb_gt 128 n)), (Z.land_ones _ 7), Z.shiftl_mul_pow2, (Z.mod_small n) by lia.
    unfold u64. rewrite Z.mod_small by lia. by rewrite lor_add_shift.
  - cbn [writeVarint]. destruct (Z.ltb_spec n 128).
    + cbn [String.append readVarint]. rewrite byteZ_Zbyte, testbit7, (proj2 (Z.leb_gt 128 n)), (Z.land_ones _ 7), Z.shiftl_mul_pow2, (Z.mod_small n) by lia.
      unfold u64. rewrite Z.mod_small by lia. by rewrite lor_add_shift.
    + pose proof (Z.mod_pos_bound n 128 ltac:(lia)) as Hm. pose proof (Z.div_mod n 128 ltac:(lia)) as Hdm.
      cbn [String.append readVarint]. rewrite byteZ_Zbyte, testbit7, (proj2 (Z.leb_le 128 _)), (Z.land_ones _ 7), Z.shiftl_mul_pow2 by lia.
      change (2 ^ 7) with 128. replace ((128 + n mod 128) mod 128) with (n mod 128) by (apply (Z.mod_unique_pos _ 128 1); lia).
      assert (Hp : 0 < 2 ^ shift) by (apply Z.pow_pos_nonneg; lia).
      unfold u64. rewrite (Z.mod_small (n mod 128 * 2 ^ shift)) by nia. rewrite lor_add_shift by done.
      rewrite IH.
      * f_equal. f_equal. rewrite Z.pow_add_r by lia. change (2 ^ 7) with 128. nia.
      * replace (Z.of_nat (S fuel) + 1) with (Z.succ (Z.of_nat fuel + 1)) in Hn by lia. rewrite Z.pow_succ_r in Hn by lia.
        split; [apply Z.div_pos; lia|apply Z.div_lt_upper_bound; lia].
      * lia.
      * rewrite Z.pow_add_r by lia. change (2 ^ 7) with 128. nia.
      * rewrite Z.pow_add_r by lia. change (2 ^ 7) with 128. nia.
Qed.

Lemma fieldMask_range bit n x : 0 ≤ bit → 0 ≤ fieldMask bit n x < 2 ^ (bit + Z.of_nat n) ∧ (2 ^ bit | fieldMask bit n x).
Proof.
  revert bit x. induction n as [|n IH]; intros bit x Hb; cbn [fieldMask].
  - assert (0 < 2 ^ (bit + Z.of_nat 0)) by (apply Z.pow_pos_nonneg; lia). split; [lia|]. apply Z.divide_0_r.
  - destruct (IH (bit + 1) (x / 256) ltac:(lia)) as [Hr Hd]. replace (bit + 1 + Z.of_nat n) with (bit + Z.of_nat (S n)) in Hr by lia.
    rewrite Z.pow_add_r in Hd by lia. change (2 ^ 1) with 2 in Hd. destruct Hd as [q Hq]. rewrite Hq in *.
    assert (0 < 2 ^ bit) by (apply Z.pow_pos_nonneg; lia). assert (Hp : 2 ^ (bit + Z.of_nat (S n)) = 2 ^ Z.of_nat n * 2 * 2 ^ bit).
    { replace (bit + Z.of_nat (S n)) with (Z.of_nat n + 1 + bit) by lia. rewrite !Z.pow_add_r by lia. done. }
    rewrite Hp in *. assert (Hq' : 0 ≤ q < 2 ^ Z.of_nat n) by (clear -Hr H; generalize dependent (2 ^ bit); intros; nia).
    assert (q * (2 ^ bit * 2) ≤ (2 ^ Z.of_nat n - 1) * (2 ^ bit * 2)) by (apply Z.mul_le_mono_nonneg_r; lia).
    split; [destruct (x mod 256 =? 0); lia|]. exists ((if x mod 256 =? 0 then 0 else 1) + q * 2). destruct (x mod 256 =? 0); lia.
Qed.

(** The bits of an instruction byte say which bytes follow. *)
Definition flags (op bit : Z) (n : nat) (x : Z) : Prop :=
  ∀ j, 0 ≤ j < Z.of_nat n → Z.testbit op (bit + j) = negb ((x / 256 ^ j) mod 256 =? 0).

Lemma flags_mask hi bit n x lo :
  0 ≤ bit → 0 ≤ lo < 2 ^ bit → 0 ≤ hi → flags (lo + fieldMask bit n x + hi * 2 ^ (bit + Z.of_nat n)) bit n x.
Proof.
  revert bit x lo. induction n as [|n IH]; intros bit x lo Hb Hlo Hhi j Hj; [lia|]. cbn [fieldMask].
  set (b := if x mod 256 =? 0 then 0 else 1). assert (Hbit : (if x mod 256 =? 0 then 0 else 2 ^ bit) = b * 2 ^ bit) by (unfold b; destruct (_ =? _); lia).
  rewrite Hbit. assert (0 < 2 ^ bit) by (apply Z.pow_pos_nonneg; lia). destruct (decide (j = 0)) as [->|].
  - rewrite Z.add_0_r, Z.pow_0_r, Z.div_1_r. destruct (fieldMask_range (bit + 1) n (x / 256) ltac:(lia)) as [_ [q Hq]].
    rewrite Hq, !Z.pow_add_r by lia. change (2 ^ 1) with 2.
    assert (Hn : 2 ^ Z.of_nat (S n) = 2 * 2 ^ Z.of_nat n) by (replace (Z.of_nat (S n)) with (Z.succ (Z.of_nat n)) by lia; apply Z.pow_succ_r; lia). rewrite Hn.
    replace (lo + (b * 2 ^ bit + q * (2 ^ bit * 2)) + hi * (2 ^ bit * (2 * 2 ^ Z.of_nat n))) with (lo + (b + 2 * (q + hi * 2 ^ Z.of_nat n)) * 2 ^ bit) by lia.
    rewrite Z.testbit_eqb, Z.div_add, (Z.div_small lo) by lia. rewrite Z.add_0_l, (Z.mul_comm 2), Z.mod_add by lia. unfold b. by destruct (x mod 256 =? 0).
  - replace (lo + (b * 2 ^ bit + fieldMask (bit + 1) n (x / 256)) + hi * 2 ^ (bit + Z.of_nat (S n)))
      with ((lo + b * 2 ^ bit) + fieldMask (bit + 1) n (x / 256) + hi * 2 ^ (bit + 1 + Z.of_nat n)) by (replace (bit + 1 + Z.of_nat n) with (bit + Z.of_nat (S n)) by lia; lia).
    replace (bit + j) with (bit + 1 + (j - 1)) by lia.
    rewrite (IH (bit + 1) (x / 256) (lo + b * 2 ^ bit)); [|lia| |done|lia].
    + rewrite Z.div_div by (try apply Z.pow_nonzero; lia). rewrite <- Z.pow_succ_r by lia. by replace (Z.succ (j - 1)) with j by lia.
    + rewrite Z.pow_add_r by lia. unfold b. destruct (x mod 256 =? 0); lia.
Qed.

Lemma readFields_write op bit i n x v rest :
  flags op bit n x → 0 ≤ i → 0 ≤ x < 256 ^ Z.of_nat n → 0 ≤ v < 2 ^ (8 * i) →
  readFields op bit i n (writeFields n x +:+ rest) v = Some (v + x * 2 ^ (8 * i), rest).
Proof.
  revert bit i x v. induction n as [|n IH]; intros bit i x v Hfl Hi Hx Hv.
  - cbn in *. assert (x = 0) as -> by lia. f_equal. f_equal. lia.
  - cbn [readFields writeFields]. pose proof (Hfl 0 ltac:(lia)) as H0. rewrite Z.add_0_r, Z.pow_0_r, Z.div_1_r in H0. rewrite H0.
    pose proof (Z.mod_pos_bound x 256 ltac:(lia)). pose proof (Z.div_mod x 256 ltac:(lia)).
    assert (Hp : 2 ^ (8 * (i + 1)) = 2 ^ (8 * i) * 256) by (replace (8 * (i + 1)) with (8 * i + 8) by lia; rewrite Z.pow_add_r by lia; done).
    assert (0 < 2 ^ (8 * i)) by (apply Z.pow_pos_nonneg; lia).
    assert (Hrec : ∀ v', 0 ≤ v' < 2 ^ (8 * (i + 1)) → readFields op (bit + 1) (i + 1) n (writeFields n (x / 256) +:+ rest) v' = Some (v' + x / 256 * 2 ^ (8 * (i + 1)), rest)).
    { intros v' Hv'. apply IH; [|lia| |done].
      - intros j Hj. replace (bit + 1 + j) with (bit + (j + 1)) by lia. rewrite Hfl by lia. rewrite Z.div_div by (try apply Z.pow_pos_nonneg; lia).
        rewrite Z.add_1_r, Z.pow_succ_r by lia. done.
      - replace (Z.of_nat (S n)) with (Z.succ (Z.of_nat n)) in Hx by lia. rewrite Z.pow_succ_r in Hx by lia. split; [apply Z.div_pos; lia|apply Z.div_lt_upper_bound; lia]. }
    destruct (x mod 256 =? 0) eqn:E; cbn [negb String.append].
    + apply Z.eqb_eq in E. rewrite Hrec by nia. f_equal. f_equal. nia.
    + rewrite byteZ_Zbyte, Z.shiftl_mul_pow2, lor_add_shift by lia. rewrite Hrec by nia. f_equal. f_equal. nia.
Qed.

Lemma applyDelta_copy fuel base off size s out :
  wf_op base (DCopy off size) →
  applyDelta_loop (S fuel) base (writeOp (DCopy off size) +:+ s) out = applyDelta_loop fuel base s (out +:+ denoteOp base (DCopy off size)).
Proof.
  intros (Ho & Hs & Hr). cbn [writeOp String.append]. rewrite <- sapp_assoc.
  destruct (fieldMask_range 0 4 off ltac:(lia)) as [H0 _]. destruct (fieldMask_range 4 3 size ltac:(lia)) as [H4 [q Hq]].
  change (2 ^ (0 + Z.of_nat 4)) with 16 in H0. change (2 ^ (4 + Z.of_nat 3)) with 128 in H4. change (2 ^ 4) with 16 in Hq.
  set (op := 128 + fieldMask 0 4 off + fieldMask 4 3 size). assert (Hop : 128 ≤ op < 256) by (unfold op; lia).
  assert (Hf0 : flags op 0 4 off).
  { unfold op. replace (128 + fieldMask 0 4 off + fieldMask 4 3 size) with (0 + fieldMask 0 4 off + (8 + q) * 2 ^ (0 + Z.of_nat 4)) by (change (2 ^ (0 + Z.of_nat 4)) with 16; lia).
    apply flags_mask; lia. }
  assert (Hf4 : flags op 4 3 size).
  { unfold op. replace (128 + fieldMask 0 4 off + fieldMask 4 3 size) with (fieldMask 0 4 off + fieldMask 4 3 size + 1 * 2 ^ (4 + Z.of_nat 3)) by (change (2 ^ (4 + Z.of_nat 3)) with 128; lia).
    apply flags_mask; lia. }
  cbn [applyDelta_loop]. rewrite byteZ_Zbyte, testbit7, (proj2 (Z.leb_le 128 op)) by lia.
  rewrite (readFields_write op 0 0 4 off 0) by (try done; cbn; lia). rewrite (readFields_write op 4 0 3 size 0) by (try done; cbn; lia).
  rewrite !Z.add_0_l, !Z.mul_1_r, (proj2 (Z.eqb_neq size 0)) by lia. unfold u64.
  rewrite Z.mod_small, (proj2 (Z.ltb_ge _ _)) by lia. done.
Qed.

Lemma applyDelta_insert fuel base data s out :
  wf_op base (DInsert data) → applyDelta_loop (S fuel) base (writeOp (DInsert data) +:+ s) out = applyDelta_loop fuel base s (out +:+ data).
Proof.
  intros Hd. cbn in Hd. cbn [writeOp String.append applyDelta_loop]. rewrite byteZ_Zbyte, testbit7, (proj2 (Z.leb_gt 128 _)) by lia.
  rewrite (proj2 (Z.eqb_neq _ 0)), Nat2Z.id, slen_app, (proj2 (Nat.ltb_ge _ _)), sdrop_app, stake_app by lia. done.
Qed.

Lemma applyDelta_ops base ops fuel out :
  Forall (wf_op base) ops → (slen (foldr (λ op acc, writeOp op +:+ acc) "" ops) ≤ fuel)%nat →
  applyDelta_loop fuel base (foldr (λ op acc, writeOp op +:+ acc) "" ops) out = inr (out +:+ denote base ops).
Proof.
  revert fuel out. induction ops as [|op ops IH]; intros fuel out Hwf Hf; [cbn; rewrite sapp_nil_r; by destruct fuel|].
  inversion_clear Hwf as [|? ? Ho Hops]. cbn [foldr] in *. rewrite slen_app in Hf.
  assert (1 ≤ slen (writeOp op))%nat by (destruct op; cbn; lia). destruct fuel as [|fuel]; [lia|].
  assert (Hstep : applyDelta_loop (S fuel) base (writeOp op +:+ foldr (λ op acc, writeOp op +:+ acc) "" ops) out
    = applyDelta_loop fuel base (foldr (λ op acc, writeOp op +:+ acc) "" ops) (out +:+ denoteOp base op)).
  { destruct op; [by apply applyDelta_copy|by apply applyDelta_insert]. }
  rewrite Hstep, IH by (try done; lia). unfold denote. cbn [foldr]. by rewrite sapp_assoc.
Qed.

(** Applying a delta gives what its instructions denote: for every base and every
    list of copies and insertions that the format can express. *)
Theorem delta_applies base ops :
  Forall (wf_op base) ops → Z.of_nat (slen base) < 2 ^ 63 → Z.of_nat (slen (denote base ops)) ≤ maxAlloc →
  applyDelta base (writeDelta base (denote base ops) ops) = inr (denote base ops).
Proof.
  intros Hwf Hb Hd. unfold maxAlloc in *. unfold applyDelta, writeDelta.
  rewrite (readVarint_write 9) by (cbn; lia). rewrite Z.add_0_l, Z.mul_1_r, Z.eqb_refl. cbn [negb].
  rewrite (readVarint_write 9) by (cbn; lia). rewrite Z.add_0_l, Z.mul_1_r. unfold maxAlloc. rewrite (proj2 (Z.ltb_ge _ _)) by done.
  rewrite applyDelta_ops by done. cbn [rbind]. cbn [String.append]. by rewrite Z.eqb_refl.
Qed.

Lemma delta_applies_witness :
  applyDelta "the quick fox" (writeDelta "the quick fox" "the slow quick fox" [DCopy 0 4; DInsert "slow "; DCopy 4 9]) = inr "the slow quick fox".
Proof.
  apply (delta_applies "the quick fox" [DCopy 0 4; DInsert "slow "; DCopy 4 9]).
  - repeat constructor; vm_compute; intuition congruence.
  - by vm_compute.
  - by vm_compute.
Defined.

(** The size a delta declares is allocated before any instruction is looked at: eleven
    bytes over an empty base ask for a buffer that [make] refuses with a panic. *)
Theorem huge_delta_panics : applyDelta "" (of_bytes [0; 0xff; 0xff; 0xff; 0xff; 0xff; 0xff; 0xff; 0xff; 0xff; 1]) = inl ErrMakeSlice.
Proof. by vm_compute. Qed.

(** ** Reading ends, but for named bases *)

Section Ends.
Context (inflate : string → option string).

Lemma onBase_none r delta : onBase r delta = None → r = None.
Proof. by destruct r as [[|]|]. Qed.

(** An unfinished read of a pack is an unfinished search for a named base. *)
Lemma readObjectFrom_none fuel ref pack offset depth :
  depth ≤ 65 → 66 - depth ≤ Z.of_nat fuel → readObjectFrom inflate fuel ref pack offset depth = None → ∃ id, ref id = None.
Proof.
  revert offset depth. induction fuel as [|fuel IH]; intros offset depth Hd Hf; [lia|]. cbn [readObjectFrom]. unfold fails.
  destruct (Z.ltb_spec 64 depth); [done|]. destruct (2 ^ 63 <=? offset); [done|]. destruct (sdrop _ pack) as [|h s]; [done|].
  destruct (readSize _ _ _ _) as [[size s1]|]; [|done]. destruct (_ || _); [done|]. destruct (_ =? packTypeOfsDelta).
  - destruct s1 as [|b s2]; [done|]. destruct (readOffset _ _ _) as [[rel s3]|]; [|done]. destruct (offset <? rel); [done|].
    destruct (inflateSized _ _ _); [done|]. intros E%onBase_none. by apply IH in E; [|lia..].
  - destruct (_ =? packTypeRefDelta); [|done]. destruct (_ <? _)%nat; [done|]. destruct (inflateSized _ _ _); [done|].
    intros E%onBase_none. eauto.
Qed.

(** Following a chain of offset deltas ends, in every pack, also a corrupt one whose
    delta is its own base: the result is an object or an error as soon as the search for
    named bases ends. *)
Theorem offset_chain_ends ref pack offset :
  (∀ id, ref id ≠ None) → readObjectFrom inflate chainFuel ref pack offset 0 ≠ None.
Proof. intros Href [id Hid]%readObjectFrom_none; [by apply (Href id)|lia|done]. Qed.

(** A search ends with one more step of fuel once the searches it starts end. *)
Lemma get_ends fuel st id : (∀ id', get inflate fuel st id' ≠ None) → get inflate (S fuel) st id ≠ None.
Proof.
  intros Hends. cbn [get]. destruct (os_loose st !! loosePath id); [done|]. induction (os_packs st) as [|p packs IH]; [done|]. cbn [getPacked].
  destruct (lookupName (pf_idx p) id); [|done]. intros [id' Hid']%readObjectFrom_none; [by apply (Hends id')|lia|done].
Qed.
End Ends.

(** ** A delta whose base has its own name *)

(** A stand-in for zlib: every byte with a mark before it, and an end mark. *)
Fixpoint markBytes (d : string) : string := match d with "" => String (Zbyte 0) "" | String c d => String (Zbyte 1) (String c (markBytes d)) end.
Fixpoint unmarkBytes (s : string) : option string :=
  match s with
  | String m s => if byteZ m =? 0 then Some "" else match s with String c s => d ← unmarkBytes s; Some (String c d) | "" => None end
  | "" => None
  end.

Lemma unmark_mark d rest : unmarkBytes (markBytes d +:+ rest) = Some d.
Proof. induction d as [|c d IH]; [done|]. cbn. by rewrite IH. Qed.

Definition loopID : objectID := "01234567890123456789".
(** One object, a delta of kind 7 against its own name. *)
Definition loopPack : packFile := mkPack (mkIndex [loopID] [0]) (String (Zbyte 0x70) (loopID +:+ markBytes "")).
Definition loopStore : objectStore := mkStore ∅ [loopPack].

(** The depth bound does not reach a base that is given by name: the search starts
    again at depth 0 and a pack whose delta names itself is read without end. *)
Theorem named_base_cycle fuel : get unmarkBytes fuel loopStore loopID = None.
Proof.
  induction fuel as [|fuel IH]; [done|].
  transitivity (onBase (get unmarkBytes fuel loopStore loopID) ""); [reflexivity|by rewrite IH].
Qed.

Lemma offset_chain_ends_witness : readObjectFrom unmarkBytes chainFuel (λ id, fails (ErrNotExist id)) (of_bytes [0x60; 0; 0]) 0 0 = fails ErrPackDeep.
Proof.
  pose proof (offset_chain_ends unmarkBytes (λ id, fails (ErrNotExist id)) (of_bytes [0x60; 0; 0]) 0) as H.
  destruct (readObjectFrom unmarkBytes chainFuel _ _ 0 0) eqn:E; [|exfalso; by apply H]. rewrite <- E. by vm_compute.
Defined.

Lemma pack_lookup_exact_witness : lookupName (mkIndex ["a"; "b"; "d"] [10; 20; 30]) "b" = Some 20.
Proof.
  apply (pack_lookup_exact (mkIndex ["a"; "b"; "d"] [10; 20; 30]) "b" 20).
  - repeat constructor; done.
  - done.
  - by exists 1%nat.
Defined.
