(* ===== verification/GitIndex.v ===== *)
(** * The index file (src/internal/gitstore/index.go)

    Reading and writing [.git/index], version 2 with the extended entries of version 3
    on reading.  The index is a map from tree paths to entries; the numbers of an entry
    are 32 bits wide and its flags 16. *)

From Stdlib Require Import Ascii.
From stdpp Require Import gmap strings.
From S2P Require Import Prelude GoText GoLib Regex GoFmt GitObject GitPack.

Open Scope string_scope.
Open Scope list_scope.
Open Scope Z_scope.

Definition indexSignature : string := "DIRC".
Definition indexVersion : Z := 2.

Record indexEntry := mkIdx
  { ie_ctimeSec : Z; ie_ctimeNsec : Z; ie_mtimeSec : Z; ie_mtimeNsec : Z; ie_dev : Z; ie_ino : Z; ie_mode : Z;
    ie_uid : Z; ie_gid : Z; ie_size : Z; ie_id : objectID; ie_flags : Z; ie_name : string }.

Abbreviation gitIndex := (gmap string indexEntry).

Definition Uint16 (pos : nat) (data : string) : Z := be 2 (sdrop pos data) 0.

(** [(n + 8) &^ 7]. *)
Definition padded (n : nat) : nat := ((n + 8) / 8 * 8)%nat.

Fixpoint readEntries (count : nat) (version : Z) (data : string) (pos : nat) (idx : gitIndex) : GitError + gitIndex :=
  match count with
  | O => inr idx
  | S count =>
      if (slen data <? pos + 62)%nat then inl ErrIndexTruncated else
      let at32 k := Uint32 (pos + k) data in
      let flags := Uint16 (pos + 60) data in
      if version =? 4 then inl (ErrIndexVersion 4) else
      let start := pos in
      let pos := (pos + 62 + (if Z.testbit flags 14 then 2 else 0))%nat in
      nameLen ←? (if Z.land flags 0x0fff =? 0x0fff then
                    if (slen data <? pos)%nat then inl ErrSliceBounds else
                    match cutByte (sdrop pos data) NUL with Some (name, _) => inr (slen name) | None => inl ErrIndexTruncated end
                  else inr (Z.to_nat (Z.land flags 0x0fff)));
      if (slen data <? pos + nameLen)%nat then inl ErrIndexTruncated else
      let name := sub pos nameLen data in
      let e := mkIdx (at32 0%nat) (at32 4%nat) (at32 8%nat) (at32 12%nat) (at32 16%nat) (at32 20%nat) (at32 24%nat) (at32 28%nat) (at32 32%nat)
                 (at32 36%nat) (sub (start + 40) 20 data) flags name in
      readEntries count version data (start + padded (pos - start + nameLen)) (<[name := e]> idx)
  end.

(** [None] is a file that does not exist. *)
Definition readIndex (file : option string) : GitError + gitIndex :=
  match file with
  | None => inr ∅
  | Some data =>
      if (slen data <? 12)%nat then inl ErrIndexTruncated else
      if negb (String.eqb (stake 4 data) indexSignature) then inl ErrIndexSignature else
      let version := Uint32 4 data in
      if (version <? 2) || (4 <? version) then inl (ErrIndexVersion version) else
      readEntries (Z.to_nat (Uint32 8 data)) version data 12 ∅
  end.

(** [PutUint32] and [PutUint16]. *)
Definition put32 (z : Z) : string := of_bytes [z / 2 ^ 24 mod 256; z / 2 ^ 16 mod 256; z / 2 ^ 8 mod 256; z mod 256].
Definition put16 (z : Z) : string := of_bytes [z / 2 ^ 8 mod 256; z mod 256].

Definition zeros (n : nat) : string := of_bytes (replicate n 0).

Definition writeFixed (e : indexEntry) : string :=
  put32 (ie_ctimeSec e) +:+ put32 (ie_ctimeNsec e) +:+ put32 (ie_mtimeSec e) +:+ put32 (ie_mtimeNsec e) +:+ put32 (ie_dev e)
  +:+ put32 (ie_ino e) +:+ put32 (ie_mode e) +:+ put32 (ie_uid e) +:+ put32 (ie_gid e) +:+ put32 (ie_size e) +:+ ie_id e.

Definition writtenFlags (e : indexEntry) : Z :=
  let nameLen := Z.of_nat (slen (ie_name e)) in
  Z.lor (if 0x0fff <? nameLen then 0x0fff else nameLen) (Z.ldiff (ie_flags e) 0x0fff).

Definition writeIndexEntry (e : indexEntry) : string :=
  writeFixed e +:+ put16 (writtenFlags e) +:+ ie_name e +:+ zeros (padded (62 + slen (ie_name e)) - (62 + slen (ie_name e))).

Section Write.
Context (sha1 : string → string).

Definition indexBody (idx : gitIndex) : string :=
  let names := sort_strings (map fst (map_to_list idx)) in
  indexSignature +:+ put32 indexVersion +:+ put32 (Z.of_nat (length names))
  +:+ foldr (λ name acc, match idx !! name with Some e => writeIndexEntry e +:+ acc | None => acc end) "" names.
Definition writeIndex (idx : gitIndex) : string := indexBody idx +:+ sha1 (indexBody idx).
End Write.

(** ** Bytes at positions *)

Lemma sdrop_add_app a b k : sdrop (slen a + k) (a +:+ b) = sdrop k b.
Proof. induction a as [|c a IH]; [done|]. exact IH. Qed.

Lemma slen_put32 z : slen (put32 z) = 4%nat.
Proof. done. Qed.

Lemma be_put32 z rest : 0 ≤ z < 2 ^ 32 → be 4 (put32 z +:+ rest) 0 = z.
Proof.
  intros Hz. unfold put32. cbn [of_bytes String.append be]. rewrite !byteZ_Zbyte by (apply Z.mod_pos_bound; lia).
  rewrite (Z.mod_small (z / 2 ^ 24)) by (split; [apply Z.div_pos; lia|apply Z.div_lt_upper_bound; lia]).
  replace (z / 2 ^ 24) with (z / 2 ^ 16 / 2 ^ 8) by (rewrite Z.div_div by lia; done).
  replace (z / 2 ^ 16) with (z / 2 ^ 8 / 2 ^ 8) by (rewrite Z.div_div by lia; done).
  pose proof (Z.div_mod z (2 ^ 8) ltac:(lia)). pose proof (Z.div_mod (z / 2 ^ 8) (2 ^ 8) ltac:(lia)). pose proof (Z.div_mod (z / 2 ^ 8 / 2 ^ 8) (2 ^ 8) ltac:(lia)).
  change (2 ^ 8) with 256 in *. lia.
Qed.

Lemma be_put16 z rest : 0 ≤ z < 2 ^ 16 → be 2 (put16 z +:+ rest) 0 = z.
Proof.
  intros Hz. unfold put16. cbn [of_bytes String.append be]. rewrite !byteZ_Zbyte by (apply Z.mod_pos_bound; lia).
  rewrite (Z.mod_small (z / 2 ^ 8)) by (split; [apply Z.div_pos; lia|apply Z.div_lt_upper_bound; lia]).
  pose proof (Z.div_mod z (2 ^ 8) ltac:(lia)). change (2 ^ 8) with 256 in *. lia.
Qed.

Definition u32_ok (z : Z) : Prop := 0 ≤ z < 2 ^ 32.

(** An entry as the reader builds it: its numbers in range, no extended flags, and the
    length of its name in the flags. *)
Record wf_index (e : indexEntry) : Prop := mkWf
  { wi_numbers : Forall u32_ok [ie_ctimeSec e; ie_ctimeNsec e; ie_mtimeSec e; ie_mtimeNsec e; ie_dev e; ie_ino e; ie_mode e; ie_uid e; ie_gid e; ie_size e];
    wi_id : valid_id (ie_id e);
    wi_flags : 0 ≤ ie_flags e < 2 ^ 16;
    wi_plain : Z.testbit (ie_flags e) 14 = false;
    wi_length : Z.land (ie_flags e) 0x0fff = Z.min (Z.of_nat (slen (ie_name e))) 0x0fff;
    wi_name : 0x0fff ≤ Z.of_nat (slen (ie_name e)) → ContainsByte (ie_name e) NUL = false }.

Lemma writtenFlags_same e : wf_index e → writtenFlags e = ie_flags e.
Proof.
  intros Hw. unfold writtenFlags. pose proof (wi_length e Hw) as Hl.
  replace (if 0x0fff <? Z.of_nat (slen (ie_name e)) then 0x0fff else Z.of_nat (slen (ie_name e))) with (Z.land (ie_flags e) 0x0fff).
  - rewrite Z.lor_comm. apply Z.lor_ldiff_and.
  - rewrite Hl. destruct (Z.ltb_spec 0x0fff (Z.of_nat (slen (ie_name e)))); lia.
Qed.

Lemma slen_writeFixed e : wf_index e → slen (writeFixed e) = 60%nat.
Proof. intros Hw. unfold writeFixed. rewrite !slen_app, !slen_put32, (wi_id e Hw). done. Qed.

Lemma padded_gt n : (n < padded n)%nat.
Proof. unfold padded. pose proof (Nat.div_mod_eq (n + 8) 8). pose proof (Nat.mod_upper_bound (n + 8) 8 ltac:(lia)). lia. Qed.

Lemma slen_zeros n : slen (zeros n) = n.
Proof. unfold zeros. by rewrite slen_of_bytes, length_replicate. Qed.

Lemma slen_writeIndexEntry e : wf_index e → slen (writeIndexEntry e) = padded (62 + slen (ie_name e)).
Proof.
  intros Hw. unfold writeIndexEntry. rewrite !slen_app, slen_writeFixed, slen_zeros by done. change (slen (put16 _)) with 2%nat.
  pose proof (padded_gt (62 + slen (ie_name e))). lia.
Qed.

(** The numbers of an entry at its offsets. *)
Lemma fields_at e rest : wf_index e →
  let data := writeFixed e +:+ rest in
  Uint32 0 data = ie_ctimeSec e ∧ Uint32 4 data = ie_ctimeNsec e ∧ Uint32 8 data = ie_mtimeSec e ∧ Uint32 12 data = ie_mtimeNsec e
  ∧ Uint32 16 data = ie_dev e ∧ Uint32 20 data = ie_ino e ∧ Uint32 24 data = ie_mode e ∧ Uint32 28 data = ie_uid e
  ∧ Uint32 32 data = ie_gid e ∧ Uint32 36 data = ie_size e ∧ sub 40 20 data = ie_id e.
Proof.
  intros Hw. pose proof (wi_numbers e Hw) as Hn. rewrite !Forall_cons in Hn. destruct Hn as (?&?&?&?&?&?&?&?&?&?&_).
  unfold Uint32, writeFixed. rewrite <- !sapp_assoc. split_and!; try (by apply be_put32).
  unfold sub. transitivity (stake 20 (ie_id e +:+ rest)); [reflexivity|]. rewrite <- (wi_id e Hw). apply stake_app.
Qed.

Lemma nameLen_read e pos data rest :
  wf_index e → sdrop pos data = ie_name e +:+ String NUL rest →
  (if Z.land (ie_flags e) 0x0fff =? 0x0fff then
     if (slen data <? pos)%nat then inl ErrSliceBounds else
     match cutByte (sdrop pos data) NUL with Some (name, _) => inr (slen name) | None => inl ErrIndexTruncated end
   else inr (Z.to_nat (Z.land (ie_flags e) 0x0fff))) = inr (slen (ie_name e)).
Proof.
  intros Hw Hd. rewrite (wi_length e Hw). destruct (Z.eqb_spec (Z.min (Z.of_nat (slen (ie_name e))) 0x0fff) 0x0fff).
  - assert (Hp : (pos < slen data)%nat) by (apply (f_equal slen) in Hd; rewrite slen_sdrop, slen_app in Hd; cbn in Hd; lia).
    rewrite (proj2 (Nat.ltb_ge _ _)) by lia. rewrite Hd, cutByte_app; [done|]. apply (wi_name e Hw). lia.
  - f_equal. lia.
Qed.

(** Reading one entry. *)
Lemma readEntries_entry count pre e post idx :
  wf_index e →
  readEntries (S count) indexVersion (pre +:+ writeIndexEntry e +:+ post) (slen pre) idx
  = readEntries count indexVersion (pre +:+ writeIndexEntry e +:+ post) (slen pre + slen (writeIndexEntry e)) (<[ie_name e := e]> idx).
Proof.
  intros Hw. pose proof (padded_gt (62 + slen (ie_name e))) as Hpad. pose proof (slen_writeFixed e Hw) as Hfix.
  assert (Hz : ∃ z, zeros (padded (62 + slen (ie_name e)) - (62 + slen (ie_name e))) = String NUL z).
  { destruct (padded _ - _)%nat as [|k] eqn:E; [lia|]. by exists (zeros k). }
  destruct Hz as [z Hz]. set (data := pre +:+ writeIndexEntry e +:+ post). set (tail := ie_name e +:+ String NUL (z +:+ post)).
  assert (Hdata : data = pre +:+ writeFixed e +:+ put16 (ie_flags e) +:+ tail).
  { unfold data, tail, writeIndexEntry. rewrite writtenFlags_same, Hz by done. rewrite <- !sapp_assoc. done. }
  assert (Hflags : Uint16 (slen pre + 60) data = ie_flags e).
  { unfold Uint16. rewrite Hdata, sdrop_add_app. rewrite <- Hfix, sdrop_app. apply be_put16, (wi_flags e Hw). }
  assert (Hname : sdrop (slen pre + 62) data = tail).
  { rewrite Hdata, sdrop_add_app. replace 62%nat with (slen (writeFixed e) + 2)%nat by lia. by rewrite sdrop_add_app. }
  assert (Hlen : (slen data = slen pre + 62 + slen tail)%nat).
  { rewrite Hdata, !slen_app, Hfix. change (slen (put16 _)) with 2%nat. lia. }
  assert (Htail : (slen (ie_name e) < slen tail)%nat) by (unfold tail; rewrite slen_app; cbn; lia).
  cbn [readEntries]. rewrite (proj2 (Nat.ltb_ge _ _)) by lia. rewrite Hflags, (wi_plain e Hw), Nat.add_0_r. change (indexVersion =? 4) with false. cbn beta iota.
  rewrite (nameLen_read e (slen pre + 62) data (z +:+ post) Hw Hname). cbn [rbind]. rewrite (proj2 (Nat.ltb_ge _ _)) by lia.
  unfold sub at 1 3. rewrite !Hname. unfold tail at 1 2. rewrite !stake_app. rewrite slen_writeIndexEntry by done.
  replace (slen pre + 62 - slen pre + slen (ie_name e))%nat with (62 + slen (ie_name e))%nat by lia. f_equal. f_equal.
  destruct (fields_at e (put16 (ie_flags e) +:+ tail) Hw) as (F0&F1&F2&F3&F4&F5&F6&F7&F8&F9&F10). unfold Uint32, sub in *. rewrite Hdata, !sdrop_add_app.
  rewrite F0, F1, F2, F3, F4, F5, F6, F7, F8, F9, F10. by destruct e.
Qed.

Definition writeAll (es : list indexEntry) : string := foldr (λ e acc, writeIndexEntry e +:+ acc) "" es.
Definition insertAll (es : list indexEntry) (idx : gitIndex) : gitIndex := foldl (λ idx e, <[ie_name e := e]> idx) idx es.

Lemma readEntries_all es pre post idx :
  Forall wf_index es →
  readEntries (length es) indexVersion (pre +:+ writeAll es +:+ post) (slen pre) idx = inr (insertAll es idx).
Proof.
  revert pre idx. induction es as [|e es IH]; intros pre idx Hw; [done|]. inversion_clear Hw as [|? ? He Hes].
  change (writeAll (e :: es)) with (writeIndexEntry e +:+ writeAll es). rewrite <- (sapp_assoc (writeIndexEntry e)). cbn [length].
  rewrite readEntries_entry by done. rewrite (sapp_assoc pre), <- slen_app. by rewrite IH.
Qed.

Lemma insertAll_other es idx k : k ∉ (ie_name <$> es) → insertAll es idx !! k = idx !! k.
Proof.
  revert idx. induction es as [|e es IH]; intros idx Hn; [done|]. cbn in *. apply not_elem_of_cons in Hn as [Hne Hn].
  unfold insertAll in *. cbn. rewrite IH by done. by rewrite lookup_insert_ne.
Qed.

Lemma insertAll_in es idx e : e ∈ es → NoDup (ie_name <$> es) → insertAll es idx !! ie_name e = Some e.
Proof.
  revert idx. induction es as [|x es IH]; intros idx Hin Hnd; [by apply elem_of_nil in Hin|]. rewrite fmap_cons in Hnd.
  apply NoDup_cons in Hnd as [Hx Hnd]. change (insertAll (x :: es) idx) with (insertAll es (<[ie_name x := x]> idx)).
  apply elem_of_cons in Hin as [->|Hin]; [|by apply IH]. rewrite insertAll_other by done. apply lookup_insert_eq.
Qed.

(** The entries in the order they are written. *)
Definition entriesOf (idx : gitIndex) : list indexEntry := omap (idx !!.) (sort_strings (map fst (map_to_list idx))).

Lemma foldr_omap {A} (f : A → option indexEntry) l :
  foldr (λ a acc, match f a with Some e => writeIndexEntry e +:+ acc | None => acc end) "" l = writeAll (omap f l).
Proof.
  induction l as [|a l IH]; [done|]. cbn [foldr]. rewrite IH.
  change (omap f (a :: l)) with (match f a with Some e => e :: omap f l | None => omap f l end). by destruct (f a).
Qed.

Definition wf_indexmap (idx : gitIndex) : Prop := map_Forall (λ name e, ie_name e = name ∧ wf_index e) idx.

Lemma entriesOf_elem idx e : wf_indexmap idx → e ∈ entriesOf idx ↔ idx !! ie_name e = Some e.
Proof.
  intros Hw. unfold entriesOf. rewrite list_elem_of_omap. split.
  - intros (name & _ & He). destruct (Hw name e He) as [-> _]. done.
  - intros He. exists (ie_name e). split; [|done]. rewrite sort_strings_perm. change (map fst (map_to_list idx)) with ((map_to_list idx).*1).
    apply list_elem_of_fmap. exists (ie_name e, e). split; [done|]. by apply elem_of_map_to_list.
Qed.

Lemma entriesOf_names idx : wf_indexmap idx → ie_name <$> entriesOf idx = sort_strings (map fst (map_to_list idx)).
Proof.
  intros Hw. unfold entriesOf. assert (Hall : Forall (λ name, ∃ e, idx !! name = Some e) (sort_strings (map fst (map_to_list idx)))).
  { rewrite sort_strings_perm. apply Forall_fmap, Forall_forall. intros [name e] Hin%elem_of_map_to_list. cbn. eauto. }
  induction Hall as [|name l [e He] Hl IH]; [done|]. cbn. rewrite He. cbn. rewrite IH. f_equal. apply (Hw name e He).
Qed.

Lemma entriesOf_nodup idx : wf_indexmap idx → NoDup (ie_name <$> entriesOf idx).
Proof. intros Hw. rewrite entriesOf_names, sort_strings_perm by done. apply NoDup_fst_map_to_list. Qed.

Lemma readIndex_written sha1 idx :
  wf_indexmap idx → Z.of_nat (size idx) < 2 ^ 32 → readIndex (Some (writeIndex sha1 idx)) = inr idx.
Proof.
  intros Hw Hsize. assert (Hlen : length (sort_strings (map fst (map_to_list idx))) = size idx).
  { rewrite (Permutation_length (sort_strings_perm _)), length_map. by rewrite length_map_to_list. }
  assert (Hes : length (entriesOf idx) = size idx) by (rewrite <- Hlen, <- entriesOf_names by done; by rewrite length_fmap).
  set (pre := indexSignature +:+ put32 indexVersion +:+ put32 (Z.of_nat (size idx))).
  assert (Hd : writeIndex sha1 idx = pre +:+ writeAll (entriesOf idx) +:+ sha1 (indexBody idx)).
  { unfold writeIndex, pre. unfold indexBody at 1. rewrite Hlen, foldr_omap. rewrite <- !sapp_assoc. done. }
  unfold readIndex. rewrite Hd.
  assert (Hpre : slen pre = 12%nat) by done. rewrite slen_app, (proj2 (Nat.ltb_ge _ _)) by lia.
  change (stake 4 (pre +:+ _)) with indexSignature. rewrite String.eqb_refl. cbn [negb].
  assert (Hv : Uint32 4 (pre +:+ writeAll (entriesOf idx) +:+ sha1 (indexBody idx)) = indexVersion).
  { unfold Uint32, pre. rewrite <- !sapp_assoc. by apply (be_put32 indexVersion). }
  assert (Hc : Uint32 8 (pre +:+ writeAll (entriesOf idx) +:+ sha1 (indexBody idx)) = Z.of_nat (size idx)).
  { unfold Uint32, pre. rewrite <- !sapp_assoc. apply (be_put32 (Z.of_nat (size idx))). lia. }
  rewrite Hv, Hc. cbn [orb]. change ((indexVersion <? 2) || (4 <? indexVersion)) with false. cbn beta iota.
  rewrite Nat2Z.id, <- Hes, <- Hpre, readEntries_all; [|apply Forall_forall; intros e He%entriesOf_elem; [by apply (Hw _ e He)|done]].
  f_equal. apply map_eq. intros k. destruct (decide (k ∈ (ie_name <$> entriesOf idx))) as [Hin|Hn].
  - apply list_elem_of_fmap in Hin as (e & -> & He). rewrite insertAll_in by auto using entriesOf_nodup. symmetry. by apply entriesOf_elem.
  - rewrite insertAll_other by done. destruct (idx !! k) as [e|] eqn:E; [|done]. destruct Hn. destruct (Hw k e E) as [<- _].
    apply list_elem_of_fmap_2. by apply entriesOf_elem.
Qed.

(** An entry as the writer may get it: the length of its name is not in the flags yet. *)
Record wf_fields (e : indexEntry) : Prop := mkWfFields
  { wx_numbers : Forall u32_ok [ie_ctimeSec e; ie_ctimeNsec e; ie_mtimeSec e; ie_mtimeNsec e; ie_dev e; ie_ino e; ie_mode e; ie_uid e; ie_gid e; ie_size e];
    wx_id : valid_id (ie_id e);
    wx_flags : 0 ≤ ie_flags e < 2 ^ 16;
    wx_plain : Z.testbit (ie_flags e) 14 = false;
    wx_name : 0x0fff ≤ Z.of_nat (slen (ie_name e)) → ContainsByte (ie_name e) NUL = false }.

(** The entry with the flags that are written. *)
Definition recorded (e : indexEntry) : indexEntry :=
  mkIdx (ie_ctimeSec e) (ie_ctimeNsec e) (ie_mtimeSec e) (ie_mtimeNsec e) (ie_dev e) (ie_ino e) (ie_mode e) (ie_uid e) (ie_gid e) (ie_size e) (ie_id e)
    (writtenFlags e) (ie_name e).

Lemma writtenFlags_bits e :
  0 ≤ ie_flags e < 2 ^ 16 →
  0 ≤ writtenFlags e < 2 ^ 16 ∧ Z.land (writtenFlags e) 0x0fff = Z.min (Z.of_nat (slen (ie_name e))) 0x0fff
  ∧ Z.ldiff (writtenFlags e) 0x0fff = Z.ldiff (ie_flags e) 0x0fff ∧ Z.testbit (writtenFlags e) 14 = Z.testbit (ie_flags e) 14.
Proof.
  intros Hf. unfold writtenFlags. set (len := Z.of_nat (slen (ie_name e))). replace (if 0x0fff <? len then 0x0fff else len) with (Z.min len 0x0fff) by (destruct (Z.ltb_spec 0x0fff len); lia).
  set (m := Z.min len 0x0fff). assert (Hm : 0 ≤ m ≤ 0x0fff) by lia. assert (Hbits : ∀ i, Z.testbit m i = Z.testbit m i && (i <? 12)).
  { intros i. destruct (Z.ltb_spec i 12); [by rewrite andb_true_r|]. rewrite andb_false_r. destruct (Z.eq_dec m 0) as [->|]; [apply Z.bits_0|].
    apply Z.bits_above_log2; [lia|]. apply Z.log2_lt_pow2; [lia|]. pose proof (Z.pow_le_mono_r 2 12 i ltac:(lia) ltac:(lia)). lia. }
  assert (Hld : 0 ≤ Z.ldiff (ie_flags e) 0x0fff < 2 ^ 16).
  { change 0x0fff with (Z.ones 12). rewrite Z.ldiff_ones_r, Z.shiftl_mul_pow2, Z.shiftr_div_pow2 by lia. pose proof (Z.mul_div_le (ie_flags e) (2 ^ 12) ltac:(lia)).
    pose proof (Z.div_pos (ie_flags e) (2 ^ 12) ltac:(lia) ltac:(lia)). lia. }
  assert (Hones : ∀ i, 0 ≤ i → Z.testbit 0x0fff i = (i <? 12)) by (intros i Hi; change 0x0fff with (Z.ones 12); rewrite Z.testbit_ones by lia; by rewrite (proj2 (Z.leb_le 0 i) Hi)).
  split_and!.
  - apply Z.lor_nonneg. lia.
  - destruct (Z.eq_dec (Z.lor m (Z.ldiff (ie_flags e) 0x0fff)) 0); [lia|]. assert (0 ≤ Z.lor m (Z.ldiff (ie_flags e) 0x0fff)) by (apply Z.lor_nonneg; lia).
    apply Z.log2_lt_pow2; [lia|]. rewrite Z.log2_lor by lia.
    pose proof (Z.log2_le_mono m (2 ^ 16 - 1) ltac:(lia)). pose proof (Z.log2_le_mono (Z.ldiff (ie_flags e) 0x0fff) (2 ^ 16 - 1) ltac:(lia)).
    change (Z.log2 (2 ^ 16 - 1)) with 15 in *. lia.
  - apply Z.bits_inj'. intros i Hi. rewrite Z.land_spec, Z.lor_spec, Z.ldiff_spec, Hones, Hbits by done. by destruct (Z.testbit m i), (Z.testbit (ie_flags e) i), (i <? 12).
  - apply Z.bits_inj'. intros i Hi. rewrite !Z.ldiff_spec, Z.lor_spec, Z.ldiff_spec, Hones, Hbits by done. by destruct (Z.testbit m i), (Z.testbit (ie_flags e) i), (i <? 12).
  - rewrite Z.lor_spec, Z.ldiff_spec, Hones, Hbits by lia. cbn. by rewrite andb_false_r, andb_true_r.
Qed.

Lemma recorded_wf e : wf_fields e → wf_index (recorded e).
Proof.
  intros He. destruct (writtenFlags_bits e (wx_flags e He)) as (H1 & H2 & _ & H3). split; cbn [ie_flags ie_name ie_id recorded]; try done; try apply He.
  rewrite H3. apply He.
Qed.

Lemma writeIndexEntry_recorded e : wf_fields e → writeIndexEntry (recorded e) = writeIndexEntry e.
Proof.
  intros He. unfold writeIndexEntry. replace (writtenFlags (recorded e)) with (writtenFlags e); [done|].
  symmetry. exact (writtenFlags_same (recorded e) (recorded_wf e He)).
Qed.

(** An index whose entries are in range, under their paths. *)
Definition wf_writable (idx : gitIndex) : Prop := map_Forall (λ name e, ie_name e = name ∧ wf_fields e) idx ∧ Z.of_nat (size idx) < 2 ^ 32.

Lemma writeIndex_recorded sha1 idx : wf_writable idx → writeIndex sha1 (recorded <$> idx) = writeIndex sha1 idx.
Proof.
  intros [Hw _]. assert (Hb : indexBody (recorded <$> idx) = indexBody idx); [|unfold writeIndex; by rewrite Hb].
  unfold indexBody. rewrite map_to_list_fmap. replace (map fst (prod_map id recorded <$> map_to_list idx)) with (map fst (map_to_list idx)).
  2:{ change (map fst (map_to_list idx) = (prod_map id recorded <$> map_to_list idx).*1). rewrite <- list_fmap_compose. by apply list_fmap_ext. }
  do 3 f_equal. induction (sort_strings _) as [|name l IH]; [done|]. cbn [foldr]. rewrite IH, lookup_fmap. destruct (idx !! name) as [e|] eqn:E; [|done].
  cbn [fmap option_fmap option_map]. by rewrite (writeIndexEntry_recorded e (proj2 (Hw name e E))).
Qed.

Lemma readIndex_recorded sha1 idx : wf_writable idx → readIndex (Some (writeIndex sha1 idx)) = inr (recorded <$> idx).
Proof.
  intros Hw. rewrite <- writeIndex_recorded by done. destruct Hw as [Hw Hs]. apply readIndex_written; [|by rewrite map_size_fmap].
  intros name e' Hl. rewrite lookup_fmap in Hl. destruct (idx !! name) as [e|] eqn:E; [|done]. injection Hl as <-. destruct (Hw name e E) as [Hn Hf].
  split; [done|by apply recorded_wf].
Qed.

(** An index that is written is read back entry by entry, each with the length of its
    name in its flags, and exactly as it was if that length is already there: for entries
    whose numbers fit their fields and that have no extended flags. *)
Theorem index_roundtrip sha1 idx :
  wf_writable idx →
  readIndex (Some (writeIndex sha1 idx)) = inr (recorded <$> idx)
  ∧ ((∀ name e, idx !! name = Some e → Z.land (ie_flags e) 0x0fff = Z.min (Z.of_nat (slen name)) 0x0fff) → recorded <$> idx = idx).
Proof.
  intros Hw. split; [by apply readIndex_recorded|]. intros Hl. apply map_eq. intros name. rewrite lookup_fmap.
  destruct (idx !! name) as [e|] eqn:E; [|done]. cbn. f_equal. destruct Hw as [Hw _]. destruct (Hw name e E) as [Hn Hf].
  assert (Hfl : writtenFlags e = ie_flags e).
  { apply writtenFlags_same. split; try apply Hf. rewrite Hn. by apply Hl. }
  unfold recorded. rewrite Hfl. by destruct e.
Qed.

Definition demoEntry (name : string) (flags : Z) : indexEntry := mkIdx 1 2 3 4 5 6 33188 7 8 9 "01234567890123456789" flags name.
Definition demoIndex : gitIndex := <["a/b" := demoEntry "a/b" 3]> (<["SOUL.md" := demoEntry "SOUL.md" 7]> ∅).
Definition demoSum (s : string) : string := "....................".

Lemma demoEntry_wf name flags :
  0 ≤ flags < 0x0fff → Z.of_nat (slen name) = flags → wf_index (demoEntry name flags).
Proof.
  intros Hf Hn. assert (Hl : Z.land flags 0x0fff = flags) by (change 0x0fff with (Z.ones 12); rewrite Z.land_ones, Z.mod_small by lia; done).
  split; cbn [ie_flags ie_name ie_id demoEntry]; try lia.
  - repeat (apply Forall_cons_2; [unfold u32_ok; cbn; lia|]). apply Forall_nil_2.
  - done.
  - rewrite Z.testbit_eqb, Z.div_small by lia. done.
Qed.

Lemma demoIndex_wf : wf_writable demoIndex.
Proof.
  split; [|done]. assert (H : ∀ name flags, wf_index (demoEntry name flags) → wf_fields (demoEntry name flags)) by (intros name flags He; split; apply He).
  apply map_Forall_insert_2; [split; [done|by apply H, demoEntry_wf]|]. apply map_Forall_insert_2; [split; [done|by apply H, demoEntry_wf]|]. apply map_Forall_empty.
Qed.

Lemma index_roundtrip_witness : readIndex (Some (writeIndex demoSum demoIndex)) = inr (recorded <$> demoIndex).
Proof. exact (proj1 (index_roundtrip demoSum demoIndex demoIndex_wf)). Defined.

(** A version 3 file with one entry that has extended flags, as Git writes it for an
    entry marked by [git add --intent-to-add]. *)
Definition extendedFile : string :=
  indexSignature +:+ put32 3 +:+ put32 1 +:+ writeFixed (demoEntry "a" 0x4001) +:+ put16 0x4001 +:+ put16 0x2000 +:+ "a" +:+ zeros 7
  +:+ demoSum "".

(** It is read as it should be, but written back in version 2 with the flag and
    without the field the flag announces: the next reader finds another path. *)
Theorem extended_entry_corrupted :
  readIndex (Some extendedFile) = inr (<["a" := demoEntry "a" 0x4001]> ∅)
  ∧ readIndex (Some (writeIndex demoSum (<["a" := demoEntry "a" 0x4001]> ∅))) = inr (<["." := demoEntry "." 0x4001]> ∅).
Proof. by vm_compute. Qed.

(** A corrupt file: the last entry has the extended flag and a long name, and ends where
    the extra field should begin.  The name is looked for beyond the end of the file,
    which stops the program instead of reporting an error. *)
Theorem truncated_index_panics :
  readIndex (Some (indexSignature +:+ put32 3 +:+ put32 1 +:+ writeFixed (demoEntry "" 0) +:+ put16 0x4fff)) = inl ErrSliceBounds.
Proof. by vm_compute. Qed.
