(* ===== verification/GitTree.v ===== *)
(** * Trees from the index, and tree differences
      (src/internal/gitstore/index.go and worktree.go)

    [writeTreeFromIndex] builds the directories of the index and writes their trees
    bottom up; [walkChanges] compares two trees entry by entry.  A Go map is an
    association list in the order it happens to be walked; the order of the index is an
    argument. *)

From Stdlib Require Import Ascii.
From stdpp Require Import gmap strings.
From S2P Require Import Prelude GoText GoLib Regex GoFmt GitObject GitPack GitIndex.

Open Scope string_scope.
Open Scope list_scope.
Open Scope Z_scope.

(** 0100644, 0100755, 0120000, 0040000 and 0160000. *)
Definition modeRegular : Z := 33188.
Definition modeExecutable : Z := 33261.
Definition modeSymlink : Z := 40960.
Definition modeTree : Z := 16384.
Definition modeGitlink : Z := 57344.

(** [fmt.Sprintf("%o", mode)] of a 32-bit number. *)
Fixpoint octal (fuel : nat) (z : Z) (acc : string) : string :=
  match fuel with
  | O => acc
  | S fuel =>
      let acc := String (Zbyte (48 + z mod 8)) acc in
      if z / 8 =? 0 then acc else octal fuel (z / 8) acc
  end.
Definition gitModeString (mode : Z) : string :=
  if (mode =? modeTree) || (mode =? 16384) then "40000" else octal 11 mode "".

(** ** Directories *)

Section Assoc.
Context {V : Type}.
Fixpoint getAssoc (k : string) (l : list (string * V)) : option V :=
  match l with [] => None | (k', v) :: l => if String.eqb k' k then Some v else getAssoc k l end.
Fixpoint setAssoc (k : string) (v : V) (l : list (string * V)) : list (string * V) :=
  match l with [] => [(k, v)] | (k', v') :: l => if String.eqb k' k then (k, v) :: l else (k', v') :: setAssoc k v l end.
End Assoc.

#[local] Set Warnings "-register-all".
Inductive node := mkNode (entries : list (string * indexEntry)) (dirs : list (string * node)).
Definition n_entries (n : node) : list (string * indexEntry) := match n with mkNode es _ => es end.
Definition n_dirs (n : node) : list (string * node) := match n with mkNode _ ds => ds end.
Definition newNode : node := mkNode [] [].

Fixpoint insertPath (parts : list string) (e : indexEntry) (n : node) : node :=
  match parts with
  | [] => n
  | [name] => mkNode (setAssoc name e (n_entries n)) (n_dirs n)
  | part :: parts =>
      let next := default newNode (getAssoc part (n_dirs n)) in
      mkNode (n_entries n) (setAssoc part (insertPath parts e next) (n_dirs n))
  end.

Definition buildNodes (order : list (string * indexEntry)) : node :=
  foldl (λ n ne, insertPath (Split ne.1 "/") ne.2 n) newNode order.

Definition fileEntry (ne : string * indexEntry) : treeEntry := mkEntry ne.1 (gitModeString (ie_mode ne.2)) (ie_id ne.2).
Definition dirEntry (name : string) (id : objectID) : treeEntry := mkEntry name "40000" id.

Section WriteTree.
Context (sha1 : string → string) (deflate : string → string).

Fixpoint build (n : node) (fs : objectFiles) {struct n} : objectID * objectFiles :=
  match n with
  | mkNode es ds =>
      let '(subtrees, fs) :=
        (fix go (ds : list (string * node)) (fs : objectFiles) : list treeEntry * objectFiles :=
           match ds with
           | [] => ([], fs)
           | (name, child) :: ds =>
               let '(id, fs) := build child fs in
               let '(rest, fs) := go ds fs in
               (dirEntry name id :: rest, fs)
           end) ds fs in
      put sha1 deflate fs kindTree (encodeTree (map fileEntry es ++ subtrees))
  end.

Definition writeTreeFromIndex (fs : objectFiles) (order : list (string * indexEntry)) : objectID * objectFiles :=
  build (buildNodes order) fs.
End WriteTree.

(** ** Tree differences *)

Record treeChange := mkChange
  { tc_oldPath : string; tc_newPath : string; tc_oldMode : option Z; tc_newMode : option Z; tc_oldID : option objectID; tc_newID : option objectID }.

Fixpoint parseOctal_loop (mode : string) (v : Z) : Z :=
  match mode with
  | "" => v
  | String c mode => if (byteZ c <? 48) || (55 <? byteZ c) then v else parseOctal_loop mode (u32 (v * 8 + (byteZ c - 48)))
  end.
Definition parseOctalMode (mode : string) : Z := parseOctal_loop mode 0.
Definition isTreeMode (mode : string) : bool := let m := parseOctalMode mode in (m =? modeTree) || (m =? 16384).
Definition fileType (mode : string) : Z := Z.land (parseOctalMode mode) 61440.

Definition deleted (e : treeEntry) (path : string) : treeChange := mkChange path "" (Some (parseOctalMode (te_mode e))) None (Some (te_id e)) None.
Definition added (e : treeEntry) (path : string) : treeChange := mkChange "" path None (Some (parseOctalMode (te_mode e))) None (Some (te_id e)).

Definition changeFor (e1 e2 : option treeEntry) (path : string) : list treeChange :=
  match e1, e2 with
  | Some e1, Some e2 =>
      if negb (fileType (te_mode e1) =? fileType (te_mode e2)) then [deleted e1 path; added e2 path] else
      if String.eqb (te_id e1) (te_id e2) && String.eqb (te_mode e1) (te_mode e2) then [] else
      [mkChange path path (Some (parseOctalMode (te_mode e1))) (Some (parseOctalMode (te_mode e2))) (Some (te_id e1)) (Some (te_id e2))]
  | Some e1, None => [deleted e1 path]
  | None, Some e2 => [added e2 path]
  | None, None => []
  end.

Abbreviation pair := (option treeEntry * option treeEntry)%type.

(** The two-pointer merge; [fuel] is the number of entries. *)
Fixpoint mergeEntries (fuel : nat) (prefix : string) (l1 l2 : list treeEntry) : list pair :=
  match fuel, l1, l2 with
  | S fuel, e1 :: r1, e2 :: r2 =>
      let p1 := prefix +:+ te_name e1 in
      let p2 := prefix +:+ te_name e2 in
      if String.ltb p1 p2 then (Some e1, None) :: mergeEntries fuel prefix r1 l2 else
      if String.ltb p2 p1 then (None, Some e2) :: mergeEntries fuel prefix l1 r2 else
      (Some e1, Some e2) :: mergeEntries fuel prefix r1 r2
  | _, _, _ => map (λ e, (Some e, None)) l1 ++ map (λ e, (None, Some e)) l2
  end.

Definition isTree (e : option treeEntry) : bool := match e with Some e => isTreeMode (te_mode e) | None => false end.
Definition ifFile (e : option treeEntry) : option treeEntry := if isTree e then None else e.
Definition ifTree (e : option treeEntry) : option objectID := if isTree e then te_id <$> e else None.
Definition nameOf (e1 e2 : option treeEntry) : string :=
  match e1 with Some e => te_name e | None => match e2 with Some e => te_name e | None => "" end end.

Abbreviation reading A := (option (GitError + A)).
Definition bindR {A B} (m : reading A) (k : A → reading B) : reading B :=
  match m with Some (inr a) => k a | Some (inl e) => Some (inl e) | None => None end.

Section Changes.
Context (inflate : string → option string) (st : objectStore) (searchFuel : nat).

Definition treeEntries (id : objectID) : reading (list treeEntry) :=
  bindR (get inflate searchFuel st id) (λ obj,
    Some (if negb (String.eqb (ro_kind obj) kindTree) then inl (ErrNotTree id) else parseTree (ro_data obj))).

Definition entriesAt (t : option objectID) : reading (list treeEntry) :=
  match t with Some id => treeEntries id | None => Some (inr []) end.

(** One pair, with [walk] for the recursive call. *)
Definition pairChanges (walk : option objectID → option objectID → string → reading (list treeChange)) (prefix : string) (pr : pair)
    : reading (list treeChange) :=
  let '(e1, e2) := pr in
  let same := match e1, e2 with Some a, Some b => isTree e1 && isTree e2 && String.eqb (te_id a) (te_id b) | _, _ => false end in
  if same then Some (inr []) else
  let here := changeFor (ifFile e1) (ifFile e2) (prefix +:+ nameOf (ifFile e1) (ifFile e2)) in
  if isTree e1 || isTree e2 then
    bindR (walk (ifTree e1) (ifTree e2) (prefix +:+ nameOf e1 e2 +:+ "/")) (λ below, Some (inr (here ++ below)))
  else Some (inr here).

Fixpoint overPairs (f : pair → reading (list treeChange)) (l : list pair) : reading (list treeChange) :=
  match l with
  | [] => Some (inr [])
  | pr :: l => bindR (f pr) (λ a, bindR (overPairs f l) (λ b, Some (inr (a ++ b))))
  end.

Fixpoint walkChanges (fuel : nat) (t1 t2 : option objectID) (prefix : string) : reading (list treeChange) :=
  match fuel with
  | O => None
  | S fuel =>
      bindR (entriesAt t1) (λ l1, bindR (entriesAt t2) (λ l2,
        overPairs (pairChanges (walkChanges fuel) prefix) (mergeEntries (length l1 + length l2) prefix l1 l2)))
  end.
Definition treeChanges (fuel : nat) (oldTree newTree : option objectID) : reading (list treeChange) := walkChanges fuel oldTree newTree "".
End Changes.
