(* ===== verification/GitTreeFacts.v ===== *)
(** * A commit's tree is the index

    The trees that [writeTreeFromIndex] writes, read back by [treeChanges], list the
    entries of the index and nothing else. *)

From Stdlib Require Import Ascii.
From stdpp Require Import gmap strings.
From S2P Require Import Prelude GoText GoLib Regex GoFmt GitObject GitPack GitIndex GitTree.

Open Scope string_scope.
Open Scope list_scope.
Open Scope Z_scope.

(** ** Modes *)

Lemma octal_parse fuel z acc :
  0 ≤ z < 2 ^ 32 → z < 8 ^ Z.of_nat fuel → (0 < fuel)%nat → parseOctal_loop (octal fuel z acc) 0 = parseOctal_loop acc z.
Proof.
  revert z acc. induction fuel as [|fuel IH]; intros z acc Hz Hf Hpos; [lia|]. cbn [octal].
  pose proof (Z.mod_pos_bound z 8 ltac:(lia)) as Hm. pose proof (Z.div_mod z 8 ltac:(lia)) as Hd.
  assert (Hstep : ∀ v, v * 8 + z mod 8 = z → parseOctal_loop (String (Zbyte (48 + z mod 8)) acc) v = parseOctal_loop acc z).
  { intros v Hv. cbn [parseOctal_loop]. rewrite byteZ_Zbyte by lia.
    rewrite (proj2 (Z.ltb_ge (48 + z mod 8) 48)), (proj2 (Z.ltb_ge 55 (48 + z mod 8))) by lia. cbn [orb].
    replace (v * 8 + (48 + z mod 8 - 48)) with z by lia. unfold u32. by rewrite Z.mod_small. }
  destruct (Z.eqb_spec (z / 8) 0) as [E|E]; [apply Hstep; lia|]. destruct fuel as [|fuel'].
  - cbn in Hf. assert (z / 8 = 0) by (apply Z.div_small; lia). lia.
  - rewrite IH; [apply Hstep; lia| | |lia].
    + split; [apply Z.div_pos; lia|]. apply Z.div_lt_upper_bound; lia.
    + replace (Z.of_nat (S (S fuel'))) with (Z.succ (Z.of_nat (S fuel'))) in Hf by lia. rewrite Z.pow_succ_r in Hf by lia. apply Z.div_lt_upper_bound; lia.
Qed.

Lemma parseOctal_gitMode m : 0 ≤ m < 2 ^ 32 → parseOctalMode (gitModeString m) = m.
Proof.
  intros Hm. unfold gitModeString. destruct (Z.eqb_spec m modeTree) as [->|]; [done|]. destruct (Z.eqb_spec m 16384) as [->|]; [done|]. cbn [orb].
  unfold parseOctalMode. rewrite octal_parse; [done|done|cbn; lia|lia].
Qed.

Lemma octal_no_space fuel z acc : ContainsByte acc " " = false → ContainsByte (octal fuel z acc) " " = false.
Proof.
  revert z acc. induction fuel as [|fuel IH]; intros z acc Ha; [done|]. cbn [octal]. pose proof (Z.mod_pos_bound z 8 ltac:(lia)).
  assert (Hc : ContainsByte (String (Zbyte (48 + z mod 8)) acc) " " = false).
  { cbn [ContainsByte]. rewrite Ha, orb_false_r. apply Ascii.eqb_neq. intros He. apply (f_equal byteZ) in He. rewrite byteZ_Zbyte in He by lia.
    change (byteZ " ") with 32 in He. lia. }
  destruct (_ =? _); [done|]. by apply IH.
Qed.

Lemma gitModeString_no_space m : ContainsByte (gitModeString m) " " = false.
Proof. unfold gitModeString. destruct (_ || _); [done|]. by apply octal_no_space. Qed.

(** ** Paths *)

Definition slash : ascii := "/".
Definition clean (part : string) : Prop := ContainsByte part slash = false.
Definition joinPath (parts : list string) : string := Join parts "/".

Lemma Split_nonempty s c : Split s c ≠ [].
Proof. destruct s as [|d s]; cbn; [done|]. destruct (Ascii.eqb d c); [done|]. by destruct (Split s c). Qed.

Lemma Split_joinPath parts : parts ≠ [] → Forall clean parts → Split (joinPath parts) slash = parts.
Proof. apply Split_Join. Qed.

Lemma join_Split s : joinPath (Split s slash) = s.
Proof.
  induction s as [|d s IH]; cbn; [done|]. destruct (Ascii.eqb_spec d slash) as [->|].
  - destruct (Split s slash) as [|w ws] eqn:E; [by apply Split_nonempty in E|]. rewrite ?E in IH.
    transitivity (String slash (joinPath (w :: ws))); [done|]. by rewrite IH.
  - destruct (Split s slash) as [|w [|w' ws]] eqn:E; [by apply Split_nonempty in E|..]; rewrite ?E in IH.
    + unfold joinPath in *. cbn in *. by rewrite IH.
    + transitivity (String d (joinPath (w :: w' :: ws))); [done|]. by rewrite IH.
Qed.

Lemma Split_clean s : Forall clean (Split s slash).
Proof.
  unfold clean. induction s as [|d s IH]; cbn; [by repeat constructor|]. destruct (Ascii.eqb d slash) eqn:E; [by constructor|].
  destruct (Split s slash) as [|w ws]; [constructor; [cbn; by rewrite E|constructor]|]. inversion_clear IH. constructor; [cbn; by rewrite E|done].
Qed.

Lemma Split_inj s t : Split s slash = Split t slash → s = t.
Proof. intros He. rewrite <- (join_Split s), <- (join_Split t). by rewrite He. Qed.

(** ** Directories *)

Section AssocFacts.
Context {V : Type}.
Implicit Types (l : list (string * V)).

Lemma getAssoc_set k v k' l : getAssoc k' (setAssoc k v l) = if String.eqb k k' then Some v else getAssoc k' l.
Proof.
  induction l as [|[x w] l IH]; cbn; [done|]. destruct (String.eqb_spec x k) as [->|Hx]; cbn.
  - by destruct (String.eqb_spec k k').
  - destruct (String.eqb_spec x k') as [->|]; [|done]. apply not_eq_sym, String.eqb_neq in Hx. by rewrite Hx.
Qed.

Lemma setAssoc_keys k v l : (k ∈ (l.*1) ∧ (setAssoc k v l).*1 = l.*1) ∨ (¬ (k ∈ (l.*1)) ∧ (setAssoc k v l).*1 = (l.*1) ++ [k]).
Proof.
  induction l as [|[x w] l IH]; cbn; [right; split; [apply not_elem_of_nil|done]|]. destruct (String.eqb_spec x k) as [->|Hx].
  - left. split; [left|done].
  - destruct IH as [[Hin He]|[Hn He]]; [left|right]; cbn; rewrite He; (split; [set_solver|done]).
Qed.

Lemma setAssoc_nodup k v l : NoDup l.*1 → NoDup (setAssoc k v l).*1.
Proof.
  intros Hnd. destruct (setAssoc_keys k v l) as [[_ ->]|[Hn ->]]; [done|]. apply NoDup_app. split_and!; [done| |apply NoDup_singleton].
  intros x Hx ->%list_elem_of_singleton. done.
Qed.

Lemma getAssoc_elem k v l : NoDup l.*1 → getAssoc k l = Some v ↔ (k, v) ∈ l.
Proof.
  induction l as [|[x w] l IH]; cbn; intros Hnd; [split; [done|by intros ?%elem_of_nil]|]. apply NoDup_cons in Hnd as [Hx Hnd].
  rewrite elem_of_cons. destruct (String.eqb_spec x k) as [->|Hne].
  - split; [intros [= ->]; by left|]. intros [[= ->]|Hin]; [done|]. destruct Hx. apply list_elem_of_fmap. by exists (k, v).
  - rewrite (IH Hnd). naive_solver.
Qed.

Lemma setAssoc_Forall (P : string * V → Prop) k v l : P (k, v) → Forall P l → Forall P (setAssoc k v l).
Proof. intros Hp Hl. induction Hl as [|[x w] l Hx Hl IH]; cbn; [by repeat constructor|]. destruct (String.eqb x k); by constructor. Qed.
End AssocFacts.

(** The entry at a path. *)
Fixpoint nodeAt (n : node) (parts : list string) : option indexEntry :=
  match parts with
  | [] => None
  | [name] => getAssoc name (n_entries n)
  | part :: parts => c ← getAssoc part (n_dirs n); nodeAt c parts
  end.

Lemma nodeAt_cons n part parts : parts ≠ [] → nodeAt n (part :: parts) = (c ← getAssoc part (n_dirs n); nodeAt c parts).
Proof. by destruct parts. Qed.

Lemma nodeAt_new parts : nodeAt newNode parts = None.
Proof. by destruct parts as [|p [|q parts]]. Qed.

Lemma nodeAt_insert parts e n parts' :
  parts ≠ [] → nodeAt (insertPath parts e n) parts' = if decide (parts = parts') then Some e else nodeAt n parts'.
Proof.
  revert n parts'. induction parts as [|p parts IH]; intros n parts' Hne; [done|]. destruct parts as [|q parts].
  - cbn [insertPath]. destruct parts' as [|p' [|q' parts']]; [by case_decide| |by case_decide]. cbn [nodeAt n_entries]. rewrite getAssoc_set.
    destruct (String.eqb_spec p p') as [->|Hpp]; [by rewrite decide_True|]. rewrite decide_False; [done|congruence].
  - change (insertPath (p :: q :: parts) e n)
      with (mkNode (n_entries n) (setAssoc p (insertPath (q :: parts) e (default newNode (getAssoc p (n_dirs n)))) (n_dirs n))).
    destruct parts' as [|p' [|q' parts']]; [done|by case_decide|]. rewrite !nodeAt_cons by done. cbn [n_dirs].
    rewrite getAssoc_set. destruct (String.eqb_spec p p') as [->|Hpp].
    + cbn [mbind option_bind]. rewrite IH by done. destruct (decide (q :: parts = q' :: parts')) as [E|E].
      * rewrite decide_True; [done|congruence].
      * rewrite decide_False by congruence. destruct (getAssoc p' (n_dirs n)); [done|]. cbn [default option_bind mbind]. apply nodeAt_new.
    + rewrite decide_False; [done|congruence].
Qed.

(** The directories hold the entries of the index. *)
Lemma nodeAt_foldl order n parts e :
  NoDup order.*1 →
  nodeAt (foldl (λ n ne, insertPath (Split ne.1 slash) ne.2 n) n order) parts = Some e
  ↔ (∃ name, (name, e) ∈ order ∧ Split name slash = parts)
    ∨ (nodeAt n parts = Some e ∧ ∀ name e', (name, e') ∈ order → Split name slash ≠ parts).
Proof.
  revert n. induction order as [|[name0 e0] order IH]; intros n Hnd; [cbn; set_solver|]. rewrite fmap_cons in Hnd. apply NoDup_cons in Hnd as [Hn Hnd].
  cbn [foldl fst snd]. rewrite IH by done. rewrite nodeAt_insert by apply Split_nonempty. setoid_rewrite elem_of_cons. split.
  - intros [(name & Hin & Hs)|[He Hno]]; [left; eauto|]. case_decide as Hd.
    + left. exists name0. split; [left; congruence|done].
    + right. split; [done|]. intros name e' [[= -> ->]|Hin]; [done|eauto].
  - intros [(name & [[= -> ->]|Hin] & Hs)|[He Hno]].
    + right. rewrite decide_True by done. split; [done|]. intros name' e' Hin Hs'. rewrite <- Hs in Hs'. apply Split_inj in Hs' as ->.
      apply Hn, list_elem_of_fmap. by exists (name0, e').
    + left. eauto.
    + right. rewrite decide_False; [|apply (Hno name0 e0); by left]. split; [done|]. intros name e' Hin. apply (Hno name e'). by right.
Qed.

Lemma nodeAt_build order parts e :
  NoDup order.*1 → nodeAt (buildNodes order) parts = Some e ↔ ∃ name, (name, e) ∈ order ∧ Split name slash = parts.
Proof.
  intros Hnd. unfold buildNodes. change "/"%char with slash. rewrite nodeAt_foldl by done. rewrite nodeAt_new. naive_solver.
Qed.

(** The paths of a directory: its files, and the paths of its directories. *)
Lemma nodeAt_cases es ds parts e :
  NoDup (es.*1) → NoDup (ds.*1) →
  nodeAt (mkNode es ds) parts = Some e ↔
  (∃ name, parts = [name] ∧ (name, e) ∈ es) ∨ (∃ d c rest, parts = d :: rest ∧ rest ≠ [] ∧ (d, c) ∈ ds ∧ nodeAt c rest = Some e).
Proof.
  intros Hes Hds. destruct parts as [|p parts]; [cbn; naive_solver|]. destruct parts as [|q parts].
  - cbn [nodeAt n_entries]. rewrite getAssoc_elem by done. split; [eauto|]. intros [(name & [= ->] & Hin)|(d & c & rest & [= -> <-] & Hne & _)]; done.
  - rewrite nodeAt_cons by done. cbn [n_dirs]. rewrite bind_Some. split.
    + intros (c & Hc & He). right. exists p, c, (q :: parts). split_and!; try done. by apply getAssoc_elem.
    + intros [(name & [=] & _)|(d & c & rest & [= -> <-] & _ & Hin & He)]. exists c. split; [by apply getAssoc_elem|done].
Qed.

(** Induction over directories. *)
Fixpoint node_ind' (P : node → Prop) (H : ∀ es ds, Forall (λ dc, P dc.2) ds → P (mkNode es ds)) (n : node) : P n :=
  match n with
  | mkNode es ds =>
      H es ds ((fix go (ds : list (string * node)) : Forall (λ dc, P dc.2) ds :=
                  match ds with [] => Forall_nil_2 _ | dc :: ds => Forall_cons_2 _ dc ds (node_ind' P H dc.2) (go ds) end) ds)
  end.

Definition wf_name (s : string) : Prop := ContainsByte s NUL = false ∧ clean s.
Definition wf_file (e : indexEntry) : Prop := valid_id (ie_id e) ∧ 0 ≤ ie_mode e < 2 ^ 32 ∧ ie_mode e ≠ modeTree.

(** A directory is made for a path. *)
Definition nonempty (n : node) : Prop := ∃ parts e, nodeAt n parts = Some e.

Fixpoint wf_node (n : node) : Prop :=
  match n with
  | mkNode es ds =>
      NoDup (es.*1) ∧ NoDup (ds.*1) ∧ Forall (λ ne, wf_name ne.1 ∧ wf_file ne.2) es
      ∧ (fix all (ds : list (string * node)) : Prop := match ds with [] => True | dc :: ds => (wf_name dc.1 ∧ nonempty dc.2 ∧ wf_node dc.2) ∧ all ds end) ds
  end.

Lemma wf_node_eq es ds :
  wf_node (mkNode es ds) ↔ NoDup (es.*1) ∧ NoDup (ds.*1) ∧ Forall (λ ne, wf_name ne.1 ∧ wf_file ne.2) es ∧ Forall (λ dc, wf_name dc.1 ∧ nonempty dc.2 ∧ wf_node dc.2) ds.
Proof.
  cbn [wf_node]. do 3 f_equiv. induction ds as [|dc ds IH]; [split; [constructor|done]|]. rewrite IH. by rewrite Forall_cons.
Qed.

Lemma wf_newNode : wf_node newNode.
Proof. apply wf_node_eq. split_and!; constructor. Qed.

Lemma wf_insertPath parts e n : Forall wf_name parts → wf_file e → wf_node n → wf_node (insertPath parts e n).
Proof.
  intros Hp He. revert n. induction Hp as [|p parts Hp Hps IH]; intros n Hn; [done|]. destruct n as [es ds].
  apply wf_node_eq in Hn as (Hes & Hds & Hfe & Hfd). destruct parts as [|q parts].
  - apply wf_node_eq. split_and!; [by apply setAssoc_nodup|done|by apply setAssoc_Forall|done].
  - change (insertPath (p :: q :: parts) e (mkNode es ds)) with (mkNode es (setAssoc p (insertPath (q :: parts) e (default newNode (getAssoc p ds))) ds)).
    apply wf_node_eq. split_and!; [done|by apply setAssoc_nodup|done|]. apply setAssoc_Forall; [|done]. cbn [fst snd].
    split_and!; [done|exists (q :: parts), e; rewrite nodeAt_insert by done; by rewrite decide_True|]. apply IH.
    destruct (getAssoc p ds) as [c|] eqn:E; [|apply wf_newNode]. apply getAssoc_elem in E; [|done]. rewrite Forall_forall in Hfd. apply (Hfd (p, c) E).
Qed.

(** An index entry that a tree can hold. *)
Definition wf_treePath (path : string) : Prop := ContainsByte path NUL = false.

Lemma Split_no_byte s c b : ContainsByte s b = false → Forall (λ p, ContainsByte p b = false) (Split s c).
Proof.
  induction s as [|d s IH]; cbn; [by repeat constructor|]. intros [Hd Hs]%orb_false_iff. specialize (IH Hs).
  destruct (Ascii.eqb d c); [by constructor|]. destruct (Split s c) as [|w ws]; [repeat constructor; cbn; by rewrite Hd|].
  inversion_clear IH. constructor; [cbn; by rewrite Hd|done].
Qed.

Lemma wf_buildNodes order : Forall (λ ne, wf_treePath ne.1 ∧ wf_file ne.2) order → wf_node (buildNodes order).
Proof.
  intros Ho. unfold buildNodes. assert (Hgen : ∀ n, wf_node n → wf_node (foldl (λ n ne, insertPath (Split ne.1 "/") ne.2 n) n order)); [|by apply Hgen, wf_newNode].
  induction Ho as [|[name e] order [Hn He] Ho IH]; intros n Hwn; [done|]. cbn [foldl]. apply IH, wf_insertPath; [|done|done]. cbn [fst].
  pose proof (Split_no_byte name slash NUL Hn) as H1. pose proof (Split_clean name) as H2. rewrite Forall_forall in H1, H2. apply Forall_forall. intros p Hp.
  split; [by apply H1|by apply H2].
Qed.

(** ** What is written *)

Section Written.
Context (sha1 : string → string) (inflate : string → option string) (deflate : string → string).
Hypothesis inflate_deflate : ∀ d rest, inflate (deflate d +:+ rest) = Some d.
Hypothesis sha1_size : ∀ s, slen (sha1 s) = 20%nat.

Fixpoint treeBody (n : node) : string :=
  match n with
  | mkNode es ds => encodeTree (map fileEntry es ++ map (λ dc, dirEntry dc.1 (hashObject sha1 kindTree (treeBody dc.2))) ds)
  end.
Definition treeId (n : node) : objectID := hashObject sha1 kindTree (treeBody n).

(** The trees below a directory. *)
Fixpoint bodies (n : node) : list string :=
  match n with mkNode es ds => treeBody (mkNode es ds) :: concat (map (λ dc, bodies dc.2) ds) end.

Fixpoint buildDirs (ds : list (string * node)) (fs : objectFiles) : list treeEntry * objectFiles :=
  match ds with
  | [] => ([], fs)
  | (name, child) :: ds =>
      let '(id, fs) := build sha1 deflate child fs in
      let '(rest, fs) := buildDirs ds fs in
      (dirEntry name id :: rest, fs)
  end.

Lemma build_eq es ds fs :
  build sha1 deflate (mkNode es ds) fs
  = let '(subtrees, fs) := buildDirs ds fs in put sha1 deflate fs kindTree (encodeTree (map fileEntry es ++ subtrees)).
Proof. reflexivity. Qed.

Lemma put_id fs kind data : (put sha1 deflate fs kind data).1 = hashObject sha1 kind data.
Proof. unfold put. by destruct (hasLoose _ _). Qed.

Lemma build_id n fs : (build sha1 deflate n fs).1 = treeId n.
Proof.
  revert fs. induction n as [es ds IH] using node_ind'; intros fs. rewrite build_eq.
  assert (Hd : ∀ fs, (buildDirs ds fs).1 = map (λ dc, dirEntry dc.1 (treeId dc.2)) ds).
  { clear fs. induction IH as [|[name c] ds Hc Hds IHd]; intros fs; [done|]. cbn [buildDirs map fst snd]. specialize (Hc fs). cbn [snd] in Hc.
    destruct (build sha1 deflate c fs) as [id fs1]. specialize (IHd fs1). destruct (buildDirs ds fs1) as [rest fs2]. cbn in *. by subst. }
  specialize (Hd fs). destruct (buildDirs ds fs) as [subs fs1]. cbn [fst] in Hd. subst subs. apply put_id.
Qed.

Lemma buildDirs_ids ds fs : (buildDirs ds fs).1 = map (λ dc, dirEntry dc.1 (treeId dc.2)) ds.
Proof.
  revert fs. induction ds as [|[name c] ds IH]; intros fs; [done|]. cbn [buildDirs map fst snd]. pose proof (build_id c fs) as Hc.
  destruct (build sha1 deflate c fs) as [id fs1]. specialize (IH fs1). destruct (buildDirs ds fs1) as [rest fs2]. cbn in *. by subst.
Qed.

Lemma build_stores objs n fs :
  hash_distinct sha1 objs → holds sha1 deflate objs fs → Forall (λ b, (kindTree, b) ∈ objs) (bodies n) →
  let fs' := (build sha1 deflate n fs).2 in
  holds sha1 deflate objs fs' ∧ Forall (stored sha1 deflate fs' kindTree) (bodies n) ∧ (∀ path file, fs !! path = Some file → fs' !! path = Some file).
Proof.
  intros Hd. revert fs. induction n as [es ds IH] using node_ind'; intros fs Hh Hb. cbn [bodies] in *. apply Forall_cons in Hb as [Hb Hbs].
  assert (Hgo : ∀ fs, holds sha1 deflate objs fs → let fs' := (buildDirs ds fs).2 in
    holds sha1 deflate objs fs' ∧ Forall (stored sha1 deflate fs' kindTree) (concat (map (λ dc, bodies dc.2) ds)) ∧ (∀ path file, fs !! path = Some file → fs' !! path = Some file)).
  { clear fs Hh Hb es. induction IH as [|[name c] ds Hc Hds IHd]; intros fs Hh; [cbn; auto|]. cbn [map concat snd] in Hbs. apply Forall_app in Hbs as [Hb1 Hb2].
    cbn [buildDirs]. destruct (Hc fs Hh Hb1) as (H1 & H2 & H3). cbn [snd] in *. destruct (build sha1 deflate c fs) as [id fs1]. cbn [snd] in *.
    destruct (IHd Hb2 fs1 H1) as (H4 & H5 & H6). destruct (buildDirs ds fs1) as [rest fs2]. cbn [snd map concat] in *. split_and!; [done| |eauto].
    apply Forall_app. split; [|done]. eapply Forall_impl; [exact H2|]. intros b. apply H6. }
  rewrite build_eq. destruct (Hgo fs Hh) as (H1 & H2 & H3). pose proof (buildDirs_ids ds fs) as Hids.
  destruct (buildDirs ds fs) as [subs fs1]. cbn [fst snd] in *. subst subs.
  destruct (put sha1 deflate fs1 kindTree _) as [id fs2] eqn:Ep. apply (put_spec sha1 deflate sha1_size objs) in Ep as (_ & Hst & Hh2 & Hkeep); [|done..].
  cbn [snd]. split_and!; [done| |eauto]. apply Forall_cons. split; [done|]. eapply Forall_impl; [exact H2|]. intros b. apply Hkeep.
Qed.

(** The entries of one directory. *)
Definition nodeEntries (n : node) : list treeEntry := map fileEntry (n_entries n) ++ map (λ dc, dirEntry dc.1 (treeId dc.2)) (n_dirs n).

Lemma nodeEntries_wf n : wf_node n → Forall wf_entry (nodeEntries n).
Proof.
  destruct n as [es ds]. intros (_ & _ & Hes & Hds)%wf_node_eq. unfold nodeEntries. cbn [n_entries n_dirs]. apply Forall_app. split.
  - apply Forall_fmap. eapply Forall_impl; [exact Hes|]. intros [name e] [[Hn _] [Hid _]]. split_and!; [apply gitModeString_no_space|done|done].
  - apply Forall_fmap. eapply Forall_impl; [exact Hds|]. intros [name c] ([Hn _] & _). split_and!; [done|done|apply sha1_size].
Qed.

Lemma entries_elem n te :
  te ∈ sortEntries (nodeEntries n) ↔
  (∃ name e, te = fileEntry (name, e) ∧ (name, e) ∈ n_entries n) ∨ (∃ d c, te = dirEntry d (treeId c) ∧ (d, c) ∈ n_dirs n).
Proof.
  rewrite sortEntries_perm. unfold nodeEntries. rewrite elem_of_app.
  change (map fileEntry (n_entries n)) with (fileEntry <$> n_entries n). change (map ?f (n_dirs n)) with (f <$> n_dirs n). rewrite !list_elem_of_fmap. split.
  - intros [([name e] & -> & Hin)|([d c] & -> & Hin)]; [left|right]; eauto.
  - intros [(name & e & -> & Hin)|(d & c & -> & Hin)]; [left; by exists (name, e)|right; by exists (d, c)].
Qed.

Lemma parseTree_body n : wf_node n → parseTree (treeBody n) = inr (sortEntries (nodeEntries n)).
Proof.
  intros Hn. replace (treeBody n) with (writeEntries (sortEntries (nodeEntries n))) by (by destruct n).
  unfold parseTree. rewrite parseTree_loop_write; [done| |done]. rewrite sortEntries_perm. by apply nodeEntries_wf.
Qed.

(** ** The trees depend on the snapshot: path, mode and blob of each entry *)

Definition snap (e : indexEntry) : Z * objectID := (ie_mode e, ie_id e).
Definition same (n m : node) : Prop := ∀ parts, snap <$> nodeAt n parts = snap <$> nodeAt m parts.

Lemma key_file name e : wf_file e → treeEntryKey (fileEntry (name, e)) = name.
Proof.
  intros (_ & Hm & Ht). unfold treeEntryKey. cbn [fileEntry te_mode te_name fst snd].
  assert (Hne : ∀ s, parseOctalMode s = modeTree → String.eqb (gitModeString (ie_mode e)) s = false).
  { intros s Hs. apply String.eqb_neq. intros <-. rewrite parseOctal_gitMode in Hs by done. done. }
  rewrite !Hne by done. done.
Qed.

Lemma nodeEntries_keys n :
  wf_node n → treeEntryKey <$> nodeEntries n = ((n_entries n).*1) ++ ((λ d, d +:+ "/") <$> (n_dirs n).*1).
Proof.
  destruct n as [es ds]. intros (_ & _ & Hes & _)%wf_node_eq. unfold nodeEntries. cbn [n_entries n_dirs]. rewrite fmap_app. f_equal.
  - change (map fileEntry es) with (fileEntry <$> es). rewrite <- list_fmap_compose. apply list_fmap_ext. intros i [name e] Hi. cbn [fst].
    apply key_file. rewrite Forall_forall in Hes. apply (Hes (name, e)). by eapply list_elem_of_lookup_2.
  - change (map ?f ds) with (f <$> ds). rewrite <- !list_fmap_compose. by apply list_fmap_ext.
Qed.

Lemma sapp_inj_r c a b : a +:+ c = b +:+ c → a = b.
Proof.
  intros He. assert (Hl : slen a = slen b) by (apply (f_equal slen) in He; rewrite !slen_app in He; lia).
  rewrite <- (stake_app a c), <- (stake_app b c), He. by rewrite Hl.
Qed.

Lemma nodeEntries_nodup n : wf_node n → NoDup (treeEntryKey <$> nodeEntries n).
Proof.
  intros Hn. rewrite nodeEntries_keys by done. destruct n as [es ds]. apply wf_node_eq in Hn as (H1 & H2 & H3 & _). cbn [n_entries n_dirs].
  apply NoDup_app. split_and!; [done| |].
  - intros x (ne & -> & Hin)%list_elem_of_fmap (d & He & _)%list_elem_of_fmap. rewrite Forall_forall in H3. destruct (H3 ne Hin) as [[_ Hc] _].
    unfold clean in Hc. rewrite He, ContainsByte_app in Hc. apply orb_false_iff in Hc as [_ Hc]. done.
  - apply NoDup_fmap_2; [|done]. intros a b. apply sapp_inj_r.
Qed.

Lemma same_sym n m : same n m → same m n.
Proof. intros Hs parts. by rewrite Hs. Qed.

Lemma same_dir n m d c : wf_node n → wf_node m → same n m → (d, c) ∈ n_dirs n → ∃ c', (d, c') ∈ n_dirs m ∧ same c c' ∧ wf_node c'.
Proof.
  destruct n as [es ds], m as [es' ds']. cbn [n_dirs]. intros (_ & Hds & _ & Hfd)%wf_node_eq (_ & Hds' & _ & Hfd')%wf_node_eq Hs Hin.
  rewrite Forall_forall in Hfd, Hfd'. destruct (Hfd _ Hin) as (_ & (parts & e & Hat) & _). cbn [snd] in Hat.
  assert (Hne : parts ≠ []) by (by intros ->). pose proof Hin as Hget. apply getAssoc_elem in Hget; [|done].
  pose proof (Hs (d :: parts)) as Hp. rewrite !nodeAt_cons in Hp by done. cbn [n_dirs] in Hp. rewrite Hget in Hp. cbn [mbind option_bind] in Hp.
  rewrite Hat in Hp. destruct (getAssoc d ds') as [c'|] eqn:Hget'; [|done]. exists c'. pose proof Hget' as Hin'. apply getAssoc_elem in Hin'; [|done].
  split_and!; [done| |apply (Hfd' _ Hin')]. intros q. destruct (decide (q = [])) as [->|Hq]; [done|].
  specialize (Hs (d :: q)). rewrite !nodeAt_cons in Hs by done. cbn [n_dirs] in Hs. by rewrite Hget, Hget' in Hs.
Qed.

Lemma same_file n m name e :
  wf_node n → wf_node m → same n m → (name, e) ∈ n_entries n → ∃ e', (name, e') ∈ n_entries m ∧ fileEntry (name, e') = fileEntry (name, e).
Proof.
  destruct n as [es ds], m as [es' ds']. cbn [n_entries]. intros (Hes & _)%wf_node_eq (Hes' & _)%wf_node_eq Hs Hin.
  specialize (Hs [name]). cbn [nodeAt n_entries] in Hs. apply getAssoc_elem in Hin; [|done]. rewrite Hin in Hs.
  destruct (getAssoc name es') as [e'|] eqn:He; [|done]. exists e'. split; [by apply getAssoc_elem|]. cbn in Hs. unfold snap in Hs. unfold fileEntry. cbn. congruence.
Qed.

Lemma treeBody_same n m : wf_node n → wf_node m → same n m → treeBody n = treeBody m.
Proof.
  revert m. induction n as [es ds IH] using node_ind'. intros m Hn Hm Hs. rewrite Forall_forall in IH. set (n := mkNode es ds) in *.
  replace (treeBody n) with (writeEntries (sortEntries (nodeEntries n))) by done.
  replace (treeBody m) with (writeEntries (sortEntries (nodeEntries m))) by (by destruct m). f_equal.
  apply sortEntries_order; [|by apply nodeEntries_nodup]. pose proof (NoDup_fmap_1 _ _ (nodeEntries_nodup n Hn)). pose proof (NoDup_fmap_1 _ _ (nodeEntries_nodup m Hm)).
  assert (Hsub : ∀ c d c', (d, c) ∈ ds → wf_node c' → same c c' → treeId c = treeId c').
  { intros c d c' Hin Hc' Hcc. unfold treeId. pose proof (IH (d, c) Hin c') as Hx. cbn [snd] in Hx. rewrite Hx; [done| |done|done]. apply wf_node_eq in Hn as (_ & _ & _ & Hfd).
    rewrite Forall_forall in Hfd. apply (Hfd _ Hin). }
  apply NoDup_Permutation; [done|done|]. intros te. rewrite <- (sortEntries_perm (nodeEntries n)), <- (sortEntries_perm (nodeEntries m)), !entries_elem. split.
  - intros [(name & e & -> & Hin)|(d & c & -> & Hin)].
    + destruct (same_file n m name e) as (e' & Hin' & Heq); [done..|]. left. eauto.
    + destruct (same_dir n m d c) as (c' & Hin' & Hcc & Hc'); [done..|]. right. exists d, c'. split; [|done]. by rewrite (Hsub c d c').
  - intros [(name & e & -> & Hin)|(d & c & -> & Hin)].
    + destruct (same_file m n name e) as (e' & Hin' & Heq); [done|done|by apply same_sym|done|]. left. eauto.
    + destruct (same_dir m n d c) as (c' & Hin' & Hcc & Hc'); [done|done|by apply same_sym|done|]. right. exists d, c'. split; [|done].
      rewrite (Hsub c' d c); [done|done| |by apply same_sym]. destruct m as [es' ds']. apply wf_node_eq in Hm as (_ & _ & _ & Hfd). rewrite Forall_forall in Hfd. apply (Hfd _ Hin).
Qed.

(** ** Reading the trees back *)

Definition small (b : string) : Prop := Z.of_nat (slen b) < 2 ^ 63.

Context (fs : objectFiles) (packs : list packFile).
Abbreviation st := (mkStore fs packs).
Context (searchFuel : nat).

Lemma treeEntries_read n :
  wf_node n → stored sha1 deflate fs kindTree (treeBody n) → small (treeBody n) →
  treeEntries inflate st (S searchFuel) (treeId n) = Some (inr (sortEntries (nodeEntries n))).
Proof.
  intros Hn Hst Hsm. unfold treeEntries. cbn [get os_loose]. unfold treeId. unfold stored in Hst. rewrite Hst.
  rewrite (decode_framed inflate deflate inflate_deflate) by done. cbn [bindR ro_kind ro_data]. change (String.eqb kindTree kindTree) with true. cbn [negb].
  by rewrite parseTree_body.
Qed.

Lemma mergeEntries_new fuel prefix l : mergeEntries fuel prefix [] l = map (λ e, (None, Some e)) l.
Proof. by destruct fuel. Qed.

(** A walk over pairs that all succeed. *)
Lemma overPairs_all (f : pair → reading (list treeChange)) l :
  (∀ pr, pr ∈ l → ∃ cs, f pr = Some (inr cs)) →
  ∃ all, overPairs f l = Some (inr all) ∧ ∀ c, c ∈ all ↔ ∃ pr cs, pr ∈ l ∧ f pr = Some (inr cs) ∧ c ∈ cs.
Proof.
  induction l as [|pr l IH]; intros Hf; [exists []; split; [done|]; intros c; split; [by intros ?%elem_of_nil|]; intros (? & ? & ?%elem_of_nil & _); done|].
  destruct (Hf pr) as [cs Hcs]; [by left|]. destruct IH as (all & Hall & Hmem); [intros pr' Hpr'; apply Hf; by right|].
  exists (cs ++ all). cbn [overPairs]. rewrite Hcs. cbn [bindR]. rewrite Hall. split; [done|]. intros c. rewrite elem_of_app, Hmem. split.
  - intros [Hc|(pr' & cs' & Hin & He & Hc)]; [exists pr, cs; split; [by left|done]|exists pr', cs'; split; [by right|done]].
  - intros (pr' & cs' & [->|Hin]%elem_of_cons & He & Hc); [left; rewrite Hcs in He; by simplify_eq|right; eauto].
Qed.

Fixpoint height (n : node) : nat := match n with mkNode _ ds => S (list_max (map (λ dc, height dc.2) ds)) end.

Lemma height_dir es ds name c : (name, c) ∈ ds → (height c < height (mkNode es ds))%nat.
Proof.
  intros Hin. cbn [height]. apply le_n_S. pose proof (proj1 (list_max_le (map (λ dc, height dc.2) ds) _) (Nat.le_refl _)) as Hall.
  rewrite List.Forall_forall in Hall. apply Hall. apply in_map_iff. exists (name, c). split; [done|]. by apply list_elem_of_In.
Qed.

(** The entry of the index as a file that was added. *)
Definition addedEntry (path : string) (e : indexEntry) : treeChange := mkChange "" path None (Some (ie_mode e)) None (Some (ie_id e)).

Lemma bodies_dir es ds name c : (name, c) ∈ ds → ∀ b, b ∈ bodies c → b ∈ bodies (mkNode es ds).
Proof.
  intros Hin b Hb. cbn [bodies]. apply elem_of_cons. right. apply list_elem_of_In, in_concat. exists (bodies c).
  split; [|by apply list_elem_of_In]. apply in_map_iff. exists (name, c). split; [done|]. by apply list_elem_of_In.
Qed.

Lemma bodies_root n : treeBody n ∈ bodies n.
Proof. destruct n. cbn [bodies]. left. Qed.

Lemma file_pair walk prefix name e :
  wf_file e → pairChanges walk prefix (None, Some (fileEntry (name, e))) = Some (inr [addedEntry (prefix +:+ name) e]).
Proof.
  intros (_ & Hm & Ht). assert (Ho : parseOctalMode (gitModeString (ie_mode e)) = ie_mode e) by (by apply parseOctal_gitMode).
  assert (Hf : isTree (Some (fileEntry (name, e))) = false).
  { cbn. unfold isTreeMode. rewrite Ho. unfold modeTree in *. rewrite (proj2 (Z.eqb_neq _ _)) by done. done. }
  unfold pairChanges, ifFile, ifTree. rewrite Hf. cbn [isTree orb nameOf changeFor]. unfold added, addedEntry.
  cbn [fileEntry te_name te_mode te_id fst snd]. by rewrite Ho.
Qed.

Lemma dir_pair walk prefix name id :
  pairChanges walk prefix (None, Some (dirEntry name id)) = bindR (walk None (Some id) (prefix +:+ name +:+ "/")) (λ below, Some (inr below)).
Proof. reflexivity. Qed.

Lemma joinPath_cons p parts : parts ≠ [] → joinPath (p :: parts) = p +:+ "/" +:+ joinPath parts.
Proof. by destruct parts. Qed.

(** One directory, when the walk below each of its directories is known. *)
Definition below (walk : option objectID → option objectID → string → reading (list treeChange)) (n : node) (prefix : string) : Prop :=
  ∃ cs, walk None (Some (treeId n)) prefix = Some (inr cs)
    ∧ ∀ c, c ∈ cs ↔ ∃ parts e, nodeAt n parts = Some e ∧ c = addedEntry (prefix +:+ joinPath parts) e.

Lemma pairs_new walk es ds prefix :
  NoDup (es.*1) → NoDup (ds.*1) → Forall (λ ne, wf_file ne.2) es → (∀ d c, (d, c) ∈ ds → below walk c (prefix +:+ d +:+ "/")) →
  ∃ cs, overPairs (pairChanges walk prefix) (map (λ e, (None, Some e)) (sortEntries (nodeEntries (mkNode es ds)))) = Some (inr cs)
    ∧ ∀ c, c ∈ cs ↔ ∃ parts e, nodeAt (mkNode es ds) parts = Some e ∧ c = addedEntry (prefix +:+ joinPath parts) e.
Proof.
  intros Hes Hds Hfe Hdir.
  assert (Hfile : ∀ name e, (name, e) ∈ es → pairChanges walk prefix (None, Some (fileEntry (name, e))) = Some (inr [addedEntry (prefix +:+ name) e])).
  { intros name e Hin. apply file_pair. rewrite Forall_forall in Hfe. apply (Hfe _ Hin). }
  destruct (overPairs_all (pairChanges walk prefix) (map (λ e, (None, Some e)) (sortEntries (nodeEntries (mkNode es ds))))) as (all & Hall & Hmem).
  { intros pr (te & -> & [(name & e & -> & Hin)|(d & c & -> & Hin)]%entries_elem)%list_elem_of_fmap; [eauto|].
    destruct (Hdir d c Hin) as (cs & Hcs & _). rewrite dir_pair, Hcs. cbn [bindR]. eauto. }
  exists all. split; [done|]. intros x. rewrite Hmem. setoid_rewrite (nodeAt_cases es ds _ _ Hes Hds). split.
  - intros (pr & cs & (te & -> & [(name & e & -> & Hin)|(d & c & -> & Hin)]%entries_elem)%list_elem_of_fmap & He & Hx).
    + rewrite (Hfile name e Hin) in He. simplify_eq. apply list_elem_of_singleton in Hx as ->. exists [name], e. split; [left; eauto|done].
    + destruct (Hdir d c Hin) as (cs' & Hcs' & Hm). rewrite dir_pair, Hcs' in He. cbn [bindR] in He. simplify_eq. apply Hm in Hx as (parts & e & Hat & ->).
      exists (d :: parts), e. assert (parts ≠ []) by (intros ->; done). split; [right; exists d, c, parts; done|]. rewrite joinPath_cons by done. by rewrite <- !sapp_assoc.
  - intros (parts & e & [(name & -> & Hin)|(d & c & rest & -> & Hne & Hin & Hat)] & ->).
    + exists (None, Some (fileEntry (name, e))), [addedEntry (prefix +:+ name) e]. split_and!; [|by apply Hfile|by left].
      apply list_elem_of_fmap. eexists. split; [done|]. apply entries_elem. left. eauto.
    + destruct (Hdir d c Hin) as (cs & Hcs & Hm). exists (None, Some (dirEntry d (treeId c))), cs. rewrite dir_pair, Hcs. split_and!; [|done|].
      * apply list_elem_of_fmap. eexists. split; [done|]. apply entries_elem. right. eauto.
      * apply Hm. exists rest, e. split; [done|]. rewrite joinPath_cons by done. by rewrite <- !sapp_assoc.
Qed.

Lemma walk_new n :
  wf_node n → Forall (λ b, stored sha1 deflate fs kindTree b ∧ small b) (bodies n) →
  ∀ fuel prefix, (height n ≤ fuel)%nat → below (walkChanges inflate st (S searchFuel) fuel) n prefix.
Proof.
  induction n as [es ds IH] using node_ind'. intros Hn Hb fuel prefix Hf. pose proof Hn as (Hes & Hds & Hfe & Hfd)%wf_node_eq.
  destruct fuel as [|fuel]; [cbn in Hf; lia|]. rewrite Forall_forall in Hb.
  destruct (Hb _ (bodies_root (mkNode es ds))) as [Hst Hsm]. unfold below. cbn [walkChanges entriesAt]. rewrite (treeEntries_read _ Hn Hst Hsm). cbn [bindR].
  rewrite mergeEntries_new. apply pairs_new; [done|done|eapply Forall_impl; [exact Hfe|]; by intros ? []|]. intros d c Hin.
  rewrite Forall_forall in IH, Hfd. apply (IH _ Hin); [apply (Hfd _ Hin)| |].
  - apply Forall_forall. intros b Hbc. apply Hb. by eapply bodies_dir.
  - pose proof (height_dir es ds d c Hin). cbn [snd]. lia.
Qed.
End Written.

Section CommitTree.
Context (sha1 : string → string) (inflate : string → option string) (deflate : string → string).
Hypothesis inflate_deflate : ∀ d rest, inflate (deflate d +:+ rest) = Some d.
Hypothesis sha1_size : ∀ s, slen (sha1 s) = 20%nat.
Context (objs : list (string * string)) (fs0 : objectFiles) (packs : list packFile) (idx : gitIndex) (order : list (string * indexEntry)).
Hypothesis objs_distinct : hash_distinct sha1 objs.
Hypothesis objs_held : holds sha1 deflate objs fs0.
Hypothesis walked : order ≡ₚ map_to_list idx.
Hypothesis paths_wf : map_Forall (λ path e, wf_treePath path ∧ wf_file e) idx.
Hypothesis trees_known : Forall (λ b, (kindTree, b) ∈ objs ∧ small b) (bodies sha1 (buildNodes order)).

Lemma order_nodup : NoDup order.*1.
Proof. rewrite walked. apply NoDup_fst_map_to_list. Qed.

Lemma order_wf : Forall (λ ne, wf_treePath ne.1 ∧ wf_file ne.2) order.
Proof.
  rewrite walked. apply Forall_forall. intros [path e] Hin%elem_of_map_to_list. apply (paths_wf path e Hin).
Qed.

Lemma nodeAt_index parts e : nodeAt (buildNodes order) parts = Some e ↔ ∃ path, idx !! path = Some e ∧ Split path slash = parts.
Proof.
  rewrite nodeAt_build by apply order_nodup. setoid_rewrite walked. by setoid_rewrite elem_of_map_to_list.
Qed.

(** A commit's tree is the index.  The trees that [writeTreeFromIndex] writes for an
    index, walked by [treeChanges] against nothing, report every entry of the index as an
    added file, with its path, its mode and its blob, and report nothing else; the walk
    needs no more rounds than the directories are deep. *)
Theorem tree_is_index searchFuel fuel :
  (height (buildNodes order) ≤ fuel)%nat →
  let '(id, fs) := writeTreeFromIndex sha1 deflate fs0 order in
  ∃ cs, treeChanges inflate (mkStore fs packs) (S searchFuel) fuel None (Some id) = Some (inr cs)
    ∧ ∀ c, c ∈ cs ↔ ∃ path e, idx !! path = Some e ∧ c = addedEntry path e.
Proof.
  intros Hf. unfold writeTreeFromIndex. set (n := buildNodes order).
  pose proof (build_id sha1 deflate n fs0) as Hid. apply Forall_and in trees_known as [Hk Hs].
  destruct (build_stores sha1 deflate sha1_size objs n fs0 objs_distinct objs_held Hk) as (_ & Hst & _).
  destruct (build sha1 deflate n fs0) as [id fs]. cbn [fst snd] in *. subst id.
  destruct (walk_new sha1 inflate deflate inflate_deflate sha1_size fs packs searchFuel n (wf_buildNodes _ order_wf)
    ltac:(by apply Forall_and) fuel "" Hf) as (cs & Hcs & Hmem).
  exists cs. split; [done|]. intros c. rewrite Hmem. split.
  - intros (parts & e & (path & He & <-)%nodeAt_index & ->). exists path, e. split; [done|]. cbn. by rewrite join_Split.
  - intros (path & e & He & ->). exists (Split path slash), e. split; [apply nodeAt_index; eauto|]. cbn. by rewrite join_Split.
Qed.
End CommitTree.
