(* ===== verification/GitRepo.v ===== *)
(** * The repository: refs, HEAD, staging and commits
      (src/internal/gitstore/repo.go, worktree.go and gitstore.go)

    A repository is its object files and packs and the other files under [.git]; the
    working tree is a map from paths.  An operation is a state passing function: it
    returns the repository it leaves behind, on an error too.  SHA-1, zlib, the stat
    numbers of a file, the order in which Go walks the index and the text of a local time
    are arguments. *)

From Stdlib Require Import Ascii.
From stdpp Require Import gmap strings.
From S2P Require Import Prelude GoText GoLib Regex GoFmt GoPath PyText GitObject GitPack GitIndex GitTree.

Open Scope string_scope.
Open Scope list_scope.
Open Scope Z_scope.

Record repository := mkRepo
  { r_worktree : string; r_gitDir : string; r_fs : fileTree; r_objects : objectFiles; r_packs : list packFile }.
Definition r_store (r : repository) : objectStore := mkStore (r_objects r) (r_packs r).
Definition withFs (r : repository) (fs : fileTree) : repository := mkRepo (r_worktree r) (r_gitDir r) fs (r_objects r) (r_packs r).
Definition withObjects (r : repository) (objects : objectFiles) : repository := mkRepo (r_worktree r) (r_gitDir r) (r_fs r) objects (r_packs r).

(** ** Operations that change the repository and can fail *)

Definition M (A : Type) : Type := repository → option (repository * (GitError + A)).
Definition ret {A} (a : A) : M A := λ r, Some (r, inr a).
Definition fail {A} (e : GitError) : M A := λ r, Some (r, inl e).
Definition bindM {A B} (m : M A) (k : A → M B) : M B :=
  λ r, match m r with
       | Some (r, inr a) => k a r
       | Some (r, inl e) => Some (r, inl e)
       | None => None
       end.
Declare Scope git_scope.
Delimit Scope git_scope with git.
Notation "x ←! m ; k" := (bindM m (λ x, k)) (at level 20, m at level 100, k at level 200) : git_scope.
Notation "m ;! k" := (bindM m (λ _, k)) (at level 100, right associativity) : git_scope.
Open Scope git_scope.

Definition asks {A} (f : repository → reading A) : M A := λ r, match f r with Some a => Some (r, a) | None => None end.
Definition gets {A} (f : repository → GitError + A) : M A := λ r, Some (r, f r).
(** A step on the files that fails at [path]. *)
Definition onFiles (path : string) (f : fileTree → option fileTree) : M unit :=
  λ r, match f (r_fs r) with Some fs => Some (withFs r fs, inr tt) | None => Some (r, inl (ErrIO path)) end.

(** ** Refs *)

Definition gitPath (r : repository) (name : string) : string := JoinPath [r_gitDir r; name].

Definition readRef (r : repository) (name : string) : option string :=
  data ← ReadFile (r_fs r) (gitPath r name); Some (TrimRightByte data LF).

Definition packedLine (out : gmap string string) (line : string) : gmap string string :=
  let line := TrimRightByte line (Zbyte 13) in
  if String.eqb line "" || HasPrefix line "#" || HasPrefix line "^" then out else
  match cutByte line " " with
  | Some (id, name) => if Nat.eqb (slen id) 40 then <[name := id]> out else out
  | None => out
  end.
Definition packedRefs (r : repository) : gmap string string :=
  match ReadFile (r_fs r) (gitPath r "packed-refs") with
  | None => ∅
  | Some data => foldl packedLine ∅ (Split data LF)
  end.

Definition readRefResolved (r : repository) (name : string) : option string :=
  match readRef r name with Some v => Some v | None => packedRefs r !! name end.

Definition refPrefix : string := "ref: ".

(** [fuel] is the number of links that may still be followed, 6 at the start. *)
Fixpoint follow_loop (fuel : nat) (r : repository) (contents : string) (refnames : list string) : list string * option objectID :=
  if HasPrefix contents refPrefix then
    match fuel with
    | O => (refnames, None)
    | S fuel =>
        let refname := sdrop 5 contents in
        let refnames := refnames ++ [refname] in
        match readRefResolved r refname with
        | None | Some "" => (refnames, None)
        | Some value => follow_loop fuel r value refnames
        end
    end
  else (refnames, match objectIDFromHex contents with inr id => Some id | inl _ => None end).
Definition follow (r : repository) (name : string) : list string * option objectID := follow_loop 6 r (refPrefix +:+ name) [].

Definition headID (r : repository) : GitError + option objectID :=
  match readRef r "HEAD" with
  | None | Some "" => inr None
  | Some value =>
      if negb (HasPrefix value refPrefix) then
        match objectIDFromHex value with inr id => inr (Some id) | inl _ => inl ErrHeadBad end
      else inr (follow r "HEAD").2
  end.

Definition setSymbolicRef (name target : string) : M unit := λ r,
  let path := gitPath r name in
  (onFiles path (λ fs, MkdirAll fs (DirPath path)) ;!
   onFiles path (λ fs, WriteFile fs path (refPrefix +:+ target +:+ String LF ""))) r.

(** The temporary file is renamed over the ref. *)
Definition writeRefFile (path : string) (id : objectID) : M unit :=
  onFiles path (λ fs, MkdirAll fs (DirPath path)) ;!
  onFiles path (λ fs, WriteFile fs path (idString id +:+ String LF "")).

Definition TAB : string := String (Zbyte 9) "".
Definition reflogLine (oldID newID : objectID) (committer : string) (ts tz : Z) (message : string) : string :=
  idString oldID +:+ " " +:+ idString newID +:+ " " +:+ committer +:+ " " +:+ Itoa ts +:+ " " +:+ formatTimezone tz false
  +:+ TAB +:+ message +:+ String LF "".

Definition logPath (r : repository) (ref : string) : string := JoinPath [r_gitDir r; "logs"; ref].
Definition appendReflog (ref : string) (oldID newID : objectID) (committer : string) (ts tz : Z) (message : string) : M unit := λ r,
  let path := logPath r ref in
  (onFiles path (λ fs, MkdirAll fs (DirPath path)) ;!
   onFiles path (λ fs, AppendFile fs path (reflogLine oldID newID committer ts tz message))) r.

Definition updateHead (newID : objectID) (message committer : string) (ts tz : Z) : M unit := λ r,
  (old ←! gets headID;
   let realname := default "HEAD" (last (follow r "HEAD").1) in
   let refPath := gitPath r realname in
   match old with
   | None =>
       if Stat (r_fs r) refPath then fail ErrHeadChanged else
       if bool_decide (is_Some (packedRefs r !! realname)) then fail ErrHeadChanged else
       writeRefFile refPath newID ;!
       appendReflog "HEAD" zeroID newID committer ts tz message
   | Some oldID =>
       let current := match readRef r realname with Some v => v | None => default (idString zeroID) (packedRefs r !! realname) end in
       if negb (String.eqb current (idString oldID)) then fail ErrHeadChanged else
       if String.eqb current (idString newID) then ret tt else
       writeRefFile refPath newID ;!
       appendReflog realname oldID newID committer ts tz message
   end) r.

(** ** The index and the working tree *)

Definition indexPath (r : repository) : string := gitPath r "index".
Definition loadIndex (r : repository) : GitError + gitIndex :=
  match r_fs r !! indexPath r with
  | None => readIndex None
  | Some (File data) => readIndex (Some data)
  | Some Dir => inl (ErrIO (indexPath r))
  end.

(** What [os.Lstat] finds: the owner's execute bit is all of the permissions that is used.
    A path that is not in the working tree does not exist; [WtHidden] is one that
    [os.Lstat] fails at for another reason, [WtUnreadable] a file or link that cannot be
    read. *)
Inductive wtNode := WtFile (content : string) (executable : bool) | WtLink (target : string) | WtDir | WtOther | WtHidden | WtUnreadable.
Abbreviation workTree := (gmap string wtNode).

Record statInfo := mkStat
  { st_ctimeSec : Z; st_ctimeNsec : Z; st_mtimeSec : Z; st_mtimeNsec : Z; st_dev : Z; st_ino : Z; st_uid : Z; st_gid : Z; st_size : Z }.

Definition readWorktreeFile (path : string) (n : wtNode) : GitError + (string * Z) :=
  match n with
  | WtLink target => inr (target, modeSymlink)
  | WtFile content executable => inr (content, if executable then modeExecutable else modeRegular)
  | _ => inl (ErrIO path)
  end.

Definition indexEntryFromStat (st : statInfo) (mode : Z) (id : objectID) (name : string) : indexEntry :=
  mkIdx (st_ctimeSec st) (st_ctimeNsec st) (st_mtimeSec st) (st_mtimeNsec st) (st_dev st) (st_ino st) mode (st_uid st) (st_gid st) (st_size st) id 0 name.

(** ** The log *)

Record CommitInfo := mkInfo { info_SHA : string; info_Message : string; info_Timestamp : string }.
Definition Subject (c : CommitInfo) : string := default "(no message)" (head (splitLinesStr (info_Message c))).

Section Repo.
Context (sha1 : string → string) (inflate : string → option string) (deflate : string → string).
Context (walk : gitIndex → list (string * indexEntry)) (statOf : string → statInfo) (localTime : Z → string).
Context (searchFuel : nat).

Definition readObject (r : repository) (id : objectID) : reading rawObject := get inflate searchFuel (r_store r) id.

Definition writeTree (idx : gitIndex) : M objectID := λ r,
  let '(id, objects) := writeTreeFromIndex sha1 deflate (r_objects r) (walk idx) in Some (withObjects r objects, inr id).
Definition putObject (kind data : string) : M objectID := λ r,
  let '(id, objects) := put sha1 deflate (r_objects r) kind data in Some (withObjects r objects, inr id).

Definition headTree (r : repository) : reading (option objectID) :=
  match headID r with
  | inl e => Some (inl e)
  | inr None => Some (inr None)
  | inr (Some id) =>
      bindR (readObject r id) (λ obj,
        if negb (String.eqb (ro_kind obj) kindCommit) then Some (inr None) else
        Some (c ←? parseCommit (ro_data obj); inr (Some (c_tree c))))
  end.

(** The loop of [stage] over the paths. *)
Fixpoint stage_loop (wt : workTree) (relPaths : list string) (idx : gitIndex) : M gitIndex :=
  match relPaths with
  | [] => ret idx
  | rel :: relPaths => λ r,
      let full := JoinPath [r_worktree r; rel] in
      match wt !! full with
      | None | Some WtDir | Some WtOther => stage_loop wt relPaths (delete rel idx) r
      | Some WtHidden => Some (r, inl (ErrIO full))
      | Some n =>
          (file ←! gets (λ _, readWorktreeFile full n);
           id ←! putObject kindBlob file.1;
           stage_loop wt relPaths (<[rel := indexEntryFromStat (statOf full) file.2 id rel]> idx)) r
      end
  end.

Definition storeIndex (idx : gitIndex) : M unit := λ r,
  let path := indexPath r in
  (onFiles path (λ fs, MkdirAll fs (DirPath path)) ;! onFiles path (λ fs, WriteFile fs path (writeIndex sha1 idx))) r.

Definition stage (wt : workTree) (relPaths : list string) : M unit :=
  idx ←! gets loadIndex;
  idx ←! stage_loop wt relPaths idx;
  storeIndex idx.

Definition hasStagedChanges (idx : gitIndex) : M bool :=
  treeID ←! writeTree idx;
  head ←! asks headTree;
  match head with
  | None => ret (0 <? Z.of_nat (size idx))
  | Some head => ret (negb (String.eqb treeID head))
  end.

Definition identString (i : commitIdent) : string := ci_name i +:+ " <" +:+ ci_email i +:+ ">".

Definition commit (message : string) (ident : commitIdent) (ts tz : Z) : M objectID :=
  idx ←! gets loadIndex;
  treeID ←! writeTree idx;
  head ←! gets headID;
  let parents := match head with Some h => [h] | None => [] end in
  id ←! putObject kindCommit (encodeCommit treeID parents ident ident ts ts tz tz message);
  updateHead id ("commit: " +:+ message) (identString ident) ts tz ;!
  ret id.

(** The loop of [log]; [fuel] bounds the commits walked. *)
Fixpoint log_loop (fuel : nat) (r : repository) (maxEntries : Z) (prefix : option string) (sha : objectID) (entries : list CommitInfo)
    : reading (list CommitInfo) :=
  if Z.of_nat (length entries) <? maxEntries then
    match fuel with
    | O => None
    | S fuel =>
        bindR (readObject r sha) (λ obj,
          if negb (String.eqb (ro_kind obj) kindCommit) then Some (inr entries) else
          match parseCommit (ro_data obj) with
          | inl e => Some (inl e)
          | inr c =>
              let msg := pythonStrip (decodeUTF8Replace (c_message c)) in
              let wanted := match prefix with None => true | Some p => pythonStartsWith msg p end in
              let entries := if wanted then entries ++ [mkInfo (short sha) msg (localTime (c_commitTime c))] else entries in
              match c_parents c with
              | [] => Some (inr entries)
              | parent :: _ => log_loop fuel r maxEntries prefix parent entries
              end
          end)
    end
  else Some (inr entries).
Definition log (fuel : nat) (r : repository) (maxEntries : Z) (prefix : option string) : reading (list CommitInfo) :=
  match headID r with
  | inl e => Some (inl e)
  | inr None => Some (inr [])
  | inr (Some sha) => log_loop fuel r maxEntries prefix sha []
  end.

Fixpoint resolve_loop (fuel : nat) (r : repository) (shortSHA : string) (sha : objectID) : option (option objectID) :=
  match fuel with
  | O => None
  | S fuel =>
      if HasPrefix (idString sha) shortSHA then Some (Some sha) else
      match readObject r sha with
      | None => None
      | Some (inl _) => Some None
      | Some (inr obj) =>
          if negb (String.eqb (ro_kind obj) kindCommit) then Some None else
          match parseCommit (ro_data obj) with
          | inl _ => Some None
          | inr c => match c_parents c with [] => Some None | parent :: _ => resolve_loop fuel r shortSHA parent end
          end
      end
  end.
Definition resolveSHA (fuel : nat) (r : repository) (shortSHA : string) : option (option objectID) :=
  match headID r with inr (Some sha) => resolve_loop fuel r shortSHA sha | _ => Some None end.

Definition commitTree (r : repository) (id : objectID) : reading objectID :=
  bindR (readObject r id) (λ obj,
    if negb (String.eqb (ro_kind obj) kindCommit) then Some (inl (ErrNotCommit id)) else
    Some (c ←? parseCommit (ro_data obj); inr (c_tree c))).

(** The loop of [readBlobFromTree] over the parts of the path. *)
Fixpoint readBlob_loop (r : repository) (parts : list string) (current : rawObject) : reading (option string) :=
  match parts with
  | [] => Some (inr None)
  | part :: parts =>
      if negb (String.eqb (ro_kind current) kindTree) then Some (inl (ErrNotTree "")) else
      match parseTree (ro_data current) with
      | inl e => Some (inl e)
      | inr entries =>
          match List.find (λ e, String.eqb (te_name e) part) entries with
          | None => Some (inr None)
          | Some found =>
              bindR (readObject r (te_id found)) (λ child,
                if String.eqb (ro_kind child) kindBlob then Some (inr (Some (decodeUTF8Replace (ro_data child)))) else
                if String.eqb (ro_kind child) kindTree then readBlob_loop r parts child else
                Some (inr None))
          end
      end
  end.
Definition readBlobFromTree (r : repository) (treeID : objectID) (treePath : string) : reading (option string) :=
  bindR (readObject r treeID) (readBlob_loop r (pythonPathParts treePath)).
End Repo.
