(* ===== verification/GitRepoFacts.v ===== *)
(** * Staging, committing and reading back

    A commit moves HEAD to the new commit; a file that is staged and committed is read
    back from the commit's tree; the index differs from HEAD exactly when a path, a mode
    or a blob does; the log lists the commits. *)

From Stdlib Require Import Ascii.
From stdpp Require Import gmap strings.
From S2P Require Import Prelude GoText GoLib Regex GoFmt GoPath PyText GitObject GitPack GitIndex GitTree GitTreeFacts GitRepo.

Open Scope string_scope.
Open Scope list_scope.
Open Scope Z_scope.
Open Scope git_scope.

(** ** Operations that succeed *)

Lemma bindM_ok {A B} (m : M A) (k : A → M B) r r' b :
  bindM m k r = Some (r', inr b) ↔ ∃ a r1, m r = Some (r1, inr a) ∧ k a r1 = Some (r', inr b).
Proof.
  unfold bindM. split.
  - destruct (m r) as [[r1 [e|a]]|]; naive_solver.
  - intros (a & r1 & -> & Hk). done.
Qed.

Lemma onFiles_ok path f r r' u : onFiles path f r = Some (r', inr u) ↔ ∃ fs, f (r_fs r) = Some fs ∧ r' = withFs r fs.
Proof. unfold onFiles. destruct u. destruct (f (r_fs r)); naive_solver. Qed.

(** ** Bytes of a ref *)

Lemma TrimRightByte_LF s : ContainsByte s LF = false → TrimRightByte (s +:+ String LF "") LF = s.
Proof.
  induction s as [|c s IH]; [done|]. cbn [ContainsByte]. intros [Hc Hs]%orb_false_iff. cbn [String.append TrimRightByte]. rewrite (IH Hs).
  destruct (String.eqb s ""); [|done]. cbn [andb]. by rewrite Hc.
Qed.

Lemma hexdigit_not_r d : 0 ≤ d < 16 → hexdigit d ≠ "r"%char.
Proof. intros Hd He. apply hexdigit_byte in Hd. rewrite He in Hd. vm_compute in Hd. by destruct Hd. Qed.

(** The name of an object is no symbolic ref. *)
Lemma hex_not_ref id : HasPrefix (idString id) refPrefix = false.
Proof.
  unfold idString. destruct id as [|c id]; [done|]. rewrite hexBytes_cons. cbn [HasPrefix refPrefix].
  pose proof (byteZ_range c). assert (Hne : hexdigit (byteZ c / 16) ≠ "r"%char).
  { apply hexdigit_not_r. split; [apply Z.div_pos; lia|apply Z.div_lt_upper_bound; lia]. }
  apply andb_false_iff. left. apply Ascii.eqb_neq. congruence.
Qed.

Lemma idString_nonempty id : valid_id id → ∃ c s, idString id = String c s.
Proof. intros Hi. destruct (idString id) as [|c s] eqn:E; [|eauto]. apply (f_equal slen) in E. unfold idString in E. rewrite slen_hexBytes, Hi in E. done. Qed.

(** ** HEAD after its ref is written *)

Lemma follow_S fuel s contents acc :
  HasPrefix contents refPrefix = true →
  follow_loop (S fuel) s contents acc
  = match readRefResolved s (sdrop 5 contents) with
    | None | Some "" => (acc ++ [sdrop 5 contents], None)
    | Some value => follow_loop fuel s value (acc ++ [sdrop 5 contents])
    end.
Proof. intros Hc. cbn [follow_loop]. by rewrite Hc. Qed.

Lemma follow_keeps fuel s contents acc names res x : follow_loop fuel s contents acc = (names, res) → x ∈ acc → x ∈ names.
Proof.
  revert contents acc. induction fuel as [|fuel IH]; intros contents acc; cbn [follow_loop]; (destruct (HasPrefix contents refPrefix); [|by intros [= <- _]]); [by intros [= <- _]|].
  destruct (readRefResolved s _) as [[|c v]|]; [intros [= <- _]; set_solver| |intros [= <- _]; set_solver]. intros Hf Hx. eapply IH; [done|set_solver].
Qed.

Lemma follow_first fuel s contents acc names res :
  HasPrefix contents refPrefix = true → follow_loop (S fuel) s contents acc = (names, res) → sdrop 5 contents ∈ names.
Proof.
  intros Hc. cbn [follow_loop]. rewrite Hc. destruct (readRefResolved s _) as [[|c v]|]; [intros [= <- _]; set_solver| |intros [= <- _]; set_solver].
  intros Hf. eapply follow_keeps; [done|set_solver].
Qed.

(** One link further, unless the chain ends here. *)
Lemma follow_step fuel s contents acc names res real :
  HasPrefix contents refPrefix = true → follow_loop (S fuel) s contents acc = (names, res) → last names = Some real → sdrop 5 contents ≠ real →
  ∃ v, readRefResolved s (sdrop 5 contents) = Some v ∧ v ≠ "" ∧
    (HasPrefix v refPrefix = false ∨ fuel = 0%nat → False) ∧ follow_loop fuel s v (acc ++ [sdrop 5 contents]) = (names, res).
Proof.
  intros Hc Hf Hl Hne. cbn [follow_loop] in Hf. rewrite Hc in Hf.
  assert (Hlast : ∀ res', (acc ++ [sdrop 5 contents], res') = (names, res) → False).
  { intros res' [= <- _]. rewrite last_snoc in Hl. by simplify_eq. }
  destruct (readRefResolved s _) as [[|c v]|]; [by apply Hlast in Hf| |by apply Hlast in Hf]. exists (String c v). split_and!; [done|done| |done].
  intros [Ep| ->].
  - destruct fuel; cbn [follow_loop] in Hf; rewrite Ep in Hf; by eapply Hlast.
  - cbn [follow_loop] in Hf. destruct (HasPrefix (String c v) refPrefix); by eapply Hlast.
Qed.

Section Moved.
Context (r r' : repository) (P : string) (newID : objectID) (unsafe : string → Prop).
Hypothesis new_valid : valid_id newID.
Hypothesis moved_P : ∀ name, gitPath r name = P → readRef r' name = Some (idString newID).
Hypothesis moved_other : ∀ name, gitPath r name ≠ P → ¬ unsafe (gitPath r name) → readRef r' name = readRef r name.
Hypothesis moved_packed : packedRefs r' = packedRefs r.

Lemma follow_hex fuel (s : repository) acc : (follow_loop fuel s (idString newID) acc).2 = Some newID.
Proof.
  destruct fuel; cbn [follow_loop]; rewrite hex_not_ref; cbn [snd]; by rewrite objectIDFromHex_String.
Qed.

Lemma follow_moved fuel contents acc names res real :
  HasPrefix contents refPrefix = true → follow_loop (S fuel) r contents acc = (names, res) → last names = Some real → gitPath r real = P →
  (∀ n, n ∈ names → ¬ unsafe (gitPath r n)) →
  (follow_loop (S fuel) r' contents acc).2 = Some newID.
Proof.
  intros Hc Hf Hl HP Hu. revert contents acc Hc Hf. induction fuel as [|fuel IH]; intros contents acc Hc Hf;
    pose proof (follow_first _ _ _ _ _ _ Hc Hf) as Hin; rewrite follow_S by done; set (n := sdrop 5 contents) in *.
  all: destruct (decide (gitPath r n = P)) as [Hn|Hn];
    [destruct (idString_nonempty newID new_valid) as (c0 & s0 & Hid); unfold readRefResolved; rewrite (moved_P n Hn), Hid, <- Hid; apply follow_hex|].
  all: assert (Hne : n ≠ real) by (by intros ->).
  all: destruct (follow_step _ _ _ _ _ _ _ Hc Hf Hl Hne) as (v & Hv & Hv0 & Hgo & Hf').
  - exfalso. apply Hgo. by right.
  - assert (Hsame : readRefResolved r' n = Some v) by (unfold readRefResolved; rewrite moved_other by auto; rewrite moved_packed; exact Hv).
    rewrite Hsame. destruct v as [|c v]; [done|]. apply IH; [|done]. apply not_false_is_true. intros E. apply Hgo. by left.
Qed.

Lemma head_moved names res real :
  follow r "HEAD" = (names, res) → last names = Some real → gitPath r real = P →
  (∀ n, n ∈ names → ¬ unsafe (gitPath r n)) → packedRefs r !! "HEAD" = None →
  headID r' = inr (Some newID).
Proof.
  intros Hf Hl HP Hu Hp. destruct (idString_nonempty newID new_valid) as (c0 & s0 & Hid). unfold headID.
  destruct (decide (gitPath r "HEAD" = P)) as [Hn|Hn].
  { rewrite (moved_P "HEAD" Hn), Hid, <- Hid, hex_not_ref. cbn [negb]. by rewrite objectIDFromHex_String. }
  assert (Hne : "HEAD" ≠ real) by (by intros <-).
  destruct (follow_step 5%nat r (refPrefix +:+ "HEAD") [] names res real eq_refl Hf Hl Hne) as (v & Hv & Hv0 & Hgo & _).
  change (sdrop 5 (refPrefix +:+ "HEAD")) with "HEAD" in Hv. pose proof (follow_first 5%nat r (refPrefix +:+ "HEAD") [] names res eq_refl Hf) as Hin.
  unfold readRefResolved in Hv. destruct (readRef r "HEAD") as [w|] eqn:Er; [|congruence]. injection Hv as ->.
  rewrite moved_other, Er; [|done|by apply Hu]. destruct v as [|c v]; [done|]. destruct (HasPrefix (String c v) refPrefix) eqn:Ep; [|exfalso; apply Hgo; by left].
  cbn [negb]. f_equal. unfold follow. by eapply follow_moved.
Qed.
End Moved.

(** ** Updating HEAD *)

Definition headNames (r : repository) : list string := (follow r "HEAD").1.
Definition headRef (r : repository) : string := default "HEAD" (last (headNames r)).
Definition headLogs (r : repository) : list string := [logPath r "HEAD"; logPath r (headRef r)].
(** The files an update writes. *)
Definition headFiles (r : repository) : list string := gitPath r (headRef r) :: headLogs r.

(** The reflogs are apart from the refs, the packed refs are apart from both, and HEAD
    itself is not packed. *)
Definition refs_apart (r : repository) : Prop :=
  (gitPath r "packed-refs" ∉ headFiles r) ∧ (∀ n, n ∈ headNames r → gitPath r n ∉ headLogs r) ∧ packedRefs r !! "HEAD" = None.

Lemma headRef_last r : last (headNames r) = Some (headRef r).
Proof.
  unfold headRef, headNames. destruct (follow r "HEAD") as [names res] eqn:E. pose proof (follow_first 5%nat r (refPrefix +:+ "HEAD") [] names res eq_refl E) as Hin. cbn [fst].
  destruct (last names) eqn:El; [done|]. apply last_None in El as ->. by apply elem_of_nil in Hin.
Qed.

Lemma makeAndWrite path (w : fileTree → option fileTree) r r' u :
  (∀ fs fs' q, w fs = Some fs' → q ≠ path → ReadFile fs' q = ReadFile fs q) →
  (onFiles path (λ fs, MkdirAll fs (DirPath path)) ;! onFiles path w) r = Some (r', inr u) →
  ∃ fs1 fs, r' = withFs r fs ∧ w fs1 = Some fs ∧ (∀ q, ReadFile fs1 q = ReadFile (r_fs r) q) ∧ ∀ q, q ≠ path → ReadFile fs q = ReadFile (r_fs r) q.
Proof.
  intros Hw. rewrite bindM_ok. intros (a & r1 & (fs1 & Hm & ->)%onFiles_ok & (fs & Hf & ->)%onFiles_ok). cbn [r_fs withFs] in Hf.
  exists fs1, fs. split_and!; [done|done|intros q; by eapply MkdirAll_read|]. intros q Hq. rewrite (Hw _ _ _ Hf Hq). by eapply MkdirAll_read.
Qed.

Lemma writeRefFile_ok path id r r' u :
  writeRefFile path id r = Some (r', inr u) →
  ∃ fs, r' = withFs r fs ∧ ReadFile fs path = Some (idString id +:+ String LF "") ∧ ∀ q, q ≠ path → ReadFile fs q = ReadFile (r_fs r) q.
Proof.
  intros (fs1 & fs & -> & Hw & _ & Hq)%makeAndWrite; [|intros *; by apply WriteFile_other]. exists fs. split_and!; [done|by eapply WriteFile_same|done].
Qed.

Lemma appendReflog_ok ref oldID newID committer ts tz message r r' u :
  appendReflog ref oldID newID committer ts tz message r = Some (r', inr u) →
  ∃ fs, r' = withFs r fs ∧ ∀ q, q ≠ logPath r ref → ReadFile fs q = ReadFile (r_fs r) q.
Proof. unfold appendReflog. intros (fs1 & fs & -> & _ & _ & Hq)%makeAndWrite; [eauto|intros *; by apply AppendFile_other]. Qed.

(** The ref is written and a reflog is appended. *)
Lemma move_head r r1 r2 newID ref oldID committer ts tz message u u' :
  valid_id newID → refs_apart r → logPath r ref ∈ headLogs r →
  writeRefFile (gitPath r (headRef r)) newID r = Some (r1, inr u) → appendReflog ref oldID newID committer ts tz message r1 = Some (r2, inr u') →
  headID r2 = inr (Some newID) ∧ ∃ fs, r2 = withFs r fs ∧ ∀ q, q ∉ headFiles r → ReadFile fs q = ReadFile (r_fs r) q.
Proof.
  intros Hid (Hpk & Hnm & Hph) Hlog (fs1 & -> & Hw & Hq1)%writeRefFile_ok (fs2 & -> & Hq2)%appendReflog_ok. change (logPath (withFs r fs1) ref) with (logPath r ref) in Hq2. cbn [r_fs withFs] in Hq2.
  assert (Hfar : ∀ q, q ∉ headFiles r → ReadFile fs2 q = ReadFile (r_fs r) q).
  { intros q Hq. unfold headFiles in Hq. rewrite Hq2, Hq1; [done|set_solver|set_solver]. }
  change (withFs (withFs r fs1) fs2) with (withFs r fs2). split; [|eauto]. pose proof (headRef_last r) as Hl. unfold headNames in *. destruct (follow r "HEAD") as [names res] eqn:Ef.
  apply (head_moved r (withFs r fs2) (gitPath r (headRef r)) newID (λ q, q ∈ headLogs r) Hid) with (names := names) (res := res) (real := headRef r); try done.
  - intros name Hn. unfold readRef. change (gitPath (withFs r fs2) name) with (gitPath r name). cbn [r_fs withFs]. rewrite Hn, Hq2, Hw.
    + cbn [mbind option_bind]. by rewrite TrimRightByte_LF by apply hexBytes_no_LF.
    + intros He. apply (Hnm (headRef r)); [by eapply last_Some_elem_of|]. by rewrite He.
  - intros name Hn Hu. unfold readRef. change (gitPath (withFs r fs2) name) with (gitPath r name). cbn [r_fs withFs]. rewrite Hfar; [done|]. unfold headFiles. set_solver.
  - unfold packedRefs. change (gitPath (withFs r fs2) "packed-refs") with (gitPath r "packed-refs"). cbn [r_fs withFs]. by rewrite Hfar.
Qed.


(** An update that succeeds leaves HEAD at the new commit and touches only HEAD's ref and reflogs. *)
Lemma updateHead_ok newID message committer ts tz r r' u :
  valid_id newID → refs_apart r → updateHead newID message committer ts tz r = Some (r', inr u) →
  headID r' = inr (Some newID) ∧ ∃ fs, r' = withFs r fs ∧ ∀ q, q ∉ headFiles r → ReadFile fs q = ReadFile (r_fs r) q.
Proof.
  intros Hid Hap. unfold updateHead. rewrite bindM_ok. intros (old & r0 & [= <- Hold] & Hup). fold (headNames r) (headRef r) in Hup. destruct old as [oldID|].
  - destruct (negb _) eqn:Ec; [done|]. apply negb_false_iff, String.eqb_eq in Ec. rewrite Ec in Hup. destruct (String.eqb_spec (idString oldID) (idString newID)) as [He|He].
    + injection Hup as <- _. apply hexBytes_inj in He as ->. split; [done|]. exists (r_fs r). split; [by destruct r|done].
    + apply bindM_ok in Hup as (a & r1 & Hw & Ha). eapply move_head; [done|done| |done|done]. unfold headLogs. set_solver.
  - destruct (Stat _ _); [done|]. destruct (bool_decide _); [done|]. apply bindM_ok in Hup as (a & r1 & Hw & Ha).
    eapply move_head; [done|done| |done|done]. unfold headLogs. set_solver.
Qed.

(** ** The refs do not depend on the objects *)

Lemma follow_loop_objects fuel r o contents acc : follow_loop fuel (withObjects r o) contents acc = follow_loop fuel r contents acc.
Proof.
  revert contents acc. induction fuel as [|fuel IH]; intros contents acc; [done|]. cbn [follow_loop]. destruct (HasPrefix contents refPrefix); [|done].
  change (readRefResolved (withObjects r o) (sdrop 5 contents)) with (readRefResolved r (sdrop 5 contents)). by destruct (readRefResolved r _) as [[|]|].
Qed.

Lemma follow_objects r o name : follow (withObjects r o) name = follow r name.
Proof. apply follow_loop_objects. Qed.

Lemma headID_objects r o : headID (withObjects r o) = headID r.
Proof.
  unfold headID. change (readRef (withObjects r o) "HEAD") with (readRef r "HEAD"). destruct (readRef r "HEAD") as [[|c v]|]; [done| |done].
  rewrite follow_objects. done.
Qed.

Lemma headFiles_objects r o : headFiles (withObjects r o) = headFiles r.
Proof. unfold headFiles, headLogs, headRef, headNames. by rewrite follow_objects. Qed.

Lemma refs_apart_objects r o : refs_apart r → refs_apart (withObjects r o).
Proof. unfold refs_apart. rewrite headFiles_objects. unfold headNames, headLogs, headRef, headNames. by rewrite follow_objects. Qed.

(** ** Commits *)

Section Commits.
Context (sha1 : string → string) (inflate : string → option string) (deflate : string → string).
Context (walk : gitIndex → list (string * indexEntry)) (searchFuel : nat).
Hypothesis inflate_deflate : ∀ d rest, inflate (deflate d +:+ rest) = Some d.
Hypothesis sha1_size : ∀ s, slen (sha1 s) = 20%nat.
Hypothesis walk_perm : ∀ idx, walk idx ≡ₚ map_to_list idx.
(** The objects involved, no two of which have the same name. *)
Context (objs : list (string * string)).
Hypothesis objs_distinct : hash_distinct sha1 objs.

Abbreviation writeTree := (GitRepo.writeTree sha1 deflate walk).
Abbreviation putObject := (GitRepo.putObject sha1 deflate).
Abbreviation commit := (GitRepo.commit sha1 deflate walk).
Abbreviation hasStagedChanges := (GitRepo.hasStagedChanges sha1 inflate deflate walk (S searchFuel)).
Abbreviation readObject := (GitRepo.readObject inflate (S searchFuel)).
Abbreviation headTree := (GitRepo.headTree inflate (S searchFuel)).

Definition known (r : repository) : Prop := holds sha1 deflate objs (r_objects r).
Definition stores (r : repository) (kind data : string) : Prop := stored sha1 deflate (r_objects r) kind data.
(** Only objects are added. *)
Definition grows (r r' : repository) : Prop :=
  (∃ o, r' = withObjects r o) ∧ ∀ path file, r_objects r !! path = Some file → r_objects r' !! path = Some file.

Definition treeOf (idx : gitIndex) : objectID := treeId sha1 (buildNodes (walk idx)).
Definition wf_committed (idx : gitIndex) : Prop :=
  map_Forall (λ path e, wf_treePath path ∧ wf_file e) idx
  ∧ Forall (λ b, (kindTree, b) ∈ objs ∧ small b) (bodies sha1 (buildNodes (walk idx))).

Lemma grows_refl r : grows r r.
Proof. split; [exists (r_objects r); by destruct r|done]. Qed.

Lemma grows_trans r1 r2 r3 : grows r1 r2 → grows r2 r3 → grows r1 r3.
Proof. intros [[o ->] H1] [[o' ->] H2]. split; [by exists o'|]. eauto. Qed.

Lemma grows_stores r r' kind data : grows r r' → stores r kind data → stores r' kind data.
Proof. intros [_ Hg]. apply Hg. Qed.

Lemma writeTree_ok idx r r' id :
  known r → wf_committed idx → writeTree idx r = Some (r', inr id) →
  id = treeOf idx ∧ known r' ∧ grows r r' ∧ Forall (stores r' kindTree) (bodies sha1 (buildNodes (walk idx))).
Proof.
  intros Hk [_ Hb]. unfold GitRepo.writeTree, writeTreeFromIndex. pose proof (build_id sha1 deflate (buildNodes (walk idx)) (r_objects r)) as Hid.
  apply Forall_and in Hb as [Hb _]. pose proof (build_stores sha1 deflate sha1_size objs (buildNodes (walk idx)) (r_objects r) objs_distinct Hk Hb) as (H1 & H2 & H3).
  destruct (build sha1 deflate _ _) as [id' fs']. cbn [fst snd] in *. intros [= <- <-]. split_and!; [done|done| |done]. split; [by exists fs'|done].
Qed.

Lemma putObject_ok kind data r r' id :
  known r → (kind, data) ∈ objs → putObject kind data r = Some (r', inr id) →
  id = hashObject sha1 kind data ∧ known r' ∧ grows r r' ∧ stores r' kind data.
Proof.
  intros Hk Hin. unfold GitRepo.putObject. destruct (put sha1 deflate (r_objects r) kind data) as [id' fs'] eqn:E. intros [= <- <-].
  apply (put_spec sha1 deflate sha1_size objs) in E as (H1 & H2 & H3 & H4); [|done..]. split_and!; [done|done| |done]. split; [by exists fs'|done].
Qed.

Lemma readObject_stores r kind data : wf_object kind data → stores r kind data → readObject r (hashObject sha1 kind data) = Some (inr (mkRaw kind data)).
Proof.
  intros Hw Hs. unfold GitRepo.readObject. cbn [get r_store os_loose]. unfold stores, stored in Hs. rewrite Hs. by rewrite (decode_framed inflate deflate inflate_deflate).
Qed.

Definition parentsOf (r : repository) : list objectID := match headID r with inr (Some h) => [h] | _ => [] end.
Definition commitBody (r : repository) (idx : gitIndex) (ident : commitIdent) (ts tz : Z) (message : string) : string :=
  encodeCommit (treeOf idx) (parentsOf r) ident ident ts ts tz tz message.

(** What the commit of an index needs. *)
Record committable (r : repository) (idx : gitIndex) (ident : commitIdent) (ts tz : Z) (message : string) : Prop := mkCommittable
  { cm_known : known r;
    cm_index : loadIndex r = inr idx;
    cm_wf : wf_committed idx;
    cm_body : (kindCommit, commitBody r idx ident ts tz message) ∈ objs;
    cm_small : small (commitBody r idx ident ts tz message);
    cm_apart : refs_apart r }.

Lemma commit_ok message ident ts tz idx r r' id :
  committable r idx ident ts tz message → commit message ident ts tz r = Some (r', inr id) →
  headID r' = inr (Some id) ∧ id = hashObject sha1 kindCommit (commitBody r idx ident ts tz message)
  ∧ stores r' kindCommit (commitBody r idx ident ts tz message) ∧ Forall (stores r' kindTree) (bodies sha1 (buildNodes (walk idx))) ∧ known r'
  ∧ (∀ kind data, stores r kind data → stores r' kind data)
  ∧ r_gitDir r' = r_gitDir r ∧ r_packs r' = r_packs r ∧ ∀ q, q ∉ headFiles r → ReadFile (r_fs r') q = ReadFile (r_fs r) q.
Proof.
  intros [Hk Hidx Hwf Hin Hsm Hap]. unfold GitRepo.commit. rewrite bindM_ok. intros (i & r0 & [= <- Hi] & Hc). rewrite Hidx in Hi. injection Hi as <-.
  apply bindM_ok in Hc as (tree & r1 & Ht & Hc). apply writeTree_ok in Ht as (-> & Hk1 & Hg1 & Hs1); [|done..].
  apply bindM_ok in Hc as (head & r2 & [= <- Hh] & Hc). assert (Hh1 : headID r1 = headID r) by (destruct Hg1 as [[o ->] _]; apply headID_objects).
  replace (match head with Some h => [h] | None => [] end) with (parentsOf r) in Hc by (unfold parentsOf; rewrite <- Hh1, Hh; by destruct head).
  apply bindM_ok in Hc as (cid & r2 & Hp & Hc). apply putObject_ok in Hp as (-> & Hk2 & Hg2 & Hs2); [|done..].
  apply bindM_ok in Hc as (u & r3 & Hu & Hc). injection Hc as <- <-. pose proof (grows_trans _ _ _ Hg1 Hg2) as Hg. pose proof Hg as [[o Ho] _].
  apply updateHead_ok in Hu as (Hhead & fs & -> & Hfar); [|apply sha1_size|rewrite Ho; by apply refs_apart_objects].
  split_and!; try done.
  - eapply Forall_impl; [exact Hs1|]. intros b. by apply (grows_stores r1 r2).
  - intros kind data. by apply (grows_stores r r2).
  - cbn. by rewrite Ho.
  - cbn. by rewrite Ho.
  - intros q Hq. cbn [r_fs withFs]. rewrite Hfar; [by rewrite Ho|]. by rewrite Ho, headFiles_objects.
Qed.

(** ** Reading a commit *)

Lemma objectIDFromHex_valid s id : objectIDFromHex s = inr id → valid_id id.
Proof.
  unfold objectIDFromHex. destruct (Nat.eqb_spec (slen s) 40); [|done]. cbn [negb]. destruct (DecodeString s) eqn:E; [|done]. intros [= <-].
  apply DecodeString_length in E. unfold valid_id. lia.
Qed.

Lemma follow_valid fuel r contents acc id : (follow_loop fuel r contents acc).2 = Some id → valid_id id.
Proof.
  revert contents acc. induction fuel as [|fuel IH]; intros contents acc; cbn [follow_loop]; destruct (HasPrefix contents refPrefix); cbn [snd]; try done.
  - destruct (objectIDFromHex contents) eqn:E; [done|]. intros [= <-]. by eapply objectIDFromHex_valid.
  - destruct (readRefResolved r _) as [[|]|]; cbn [snd]; try done. apply IH.
  - destruct (objectIDFromHex contents) eqn:E; [done|]. intros [= <-]. by eapply objectIDFromHex_valid.
Qed.

Lemma headID_valid r id : headID r = inr (Some id) → valid_id id.
Proof.
  unfold headID. destruct (readRef r "HEAD") as [[|c v]|]; [done| |done]. destruct (negb _).
  - destruct (objectIDFromHex _) eqn:E; [done|]. intros [= <-]. by eapply objectIDFromHex_valid.
  - intros [= H]. by eapply follow_valid.
Qed.

Lemma parentsOf_valid r : Forall valid_id (parentsOf r).
Proof. unfold parentsOf. destruct (headID r) as [|[h|]] eqn:E; repeat constructor. by eapply headID_valid. Qed.

Lemma parse_commitBody r idx ident ts tz message :
  wf_ident ident → 0 ≤ ts < 2 ^ 63 → parseCommit (commitBody r idx ident ts tz message) = inr (mkCommit (treeOf idx) (parentsOf r) ts message).
Proof. intros Hi Ht. apply parseCommit_encode; [apply sha1_size|apply parentsOf_valid|done|done|lia|done]. Qed.

Lemma headTree_committed message ident ts tz idx r r' id :
  wf_ident ident → 0 ≤ ts < 2 ^ 63 → committable r idx ident ts tz message → commit message ident ts tz r = Some (r', inr id) →
  headTree r' = Some (inr (Some (treeOf idx))).
Proof.
  intros Hi Ht Hc Hr. destruct (commit_ok _ _ _ _ _ _ _ _ Hc Hr) as (Hh & -> & Hs & _). unfold GitRepo.headTree.
  rewrite Hh, readObject_stores; [|split_and!; [done|done|apply Hc]|done]. cbn [bindR ro_kind ro_data]. change (String.eqb kindCommit kindCommit) with true. cbn [negb].
  by rewrite parse_commitBody.
Qed.

(** A commit moves HEAD.  When committing succeeds, HEAD names the new commit, its
    object is read back with the tree of the index, the old HEAD as its only parent (none
    for the first commit), the time and the message, and the tree at HEAD is the tree of
    the index, whatever chain of symbolic refs HEAD goes through. *)
Theorem commit_moves_head message ident ts tz idx r r' id :
  wf_ident ident → 0 ≤ ts < 2 ^ 63 → committable r idx ident ts tz message → commit message ident ts tz r = Some (r', inr id) →
  headID r' = inr (Some id)
  ∧ (∃ data, readObject r' id = Some (inr (mkRaw kindCommit data)) ∧ parseCommit data = inr (mkCommit (treeOf idx) (parentsOf r) ts message))
  ∧ headTree r' = Some (inr (Some (treeOf idx))).
Proof.
  intros Hi Ht Hc Hr. pose proof (headTree_committed _ _ _ _ _ _ _ _ Hi Ht Hc Hr) as Htree. destruct (commit_ok _ _ _ _ _ _ _ _ Hc Hr) as (Hh & -> & Hs & _).
  split_and!; [done| |done]. exists (commitBody r idx ident ts tz message). split; [|by apply parse_commitBody]. apply readObject_stores; [|done]. split_and!; [done|done|apply Hc].
Qed.

(** ** Staged changes *)

Lemma walk_nodup idx : NoDup (walk idx).*1.
Proof. rewrite walk_perm. apply NoDup_fst_map_to_list. Qed.

Lemma wf_nodes idx : wf_committed idx → wf_node (buildNodes (walk idx)).
Proof. intros [Hw _]. apply wf_buildNodes. by apply (order_wf idx). Qed.

(** The files that a walk over the tree of an index lists. *)
Lemma walked_index idx fs fuel :
  wf_committed idx → Forall (stored sha1 deflate fs kindTree) (bodies sha1 (buildNodes (walk idx))) → (height (buildNodes (walk idx)) ≤ fuel)%nat →
  ∃ cs, walkChanges inflate (mkStore fs []) 1 fuel None (Some (treeOf idx)) "" = Some (inr cs) ∧ ∀ path e, addedEntry path e ∈ cs ↔ ∃ e', idx !! path = Some e' ∧ snap e' = snap e.
Proof.
  intros Hw Hs Hf. destruct (walk_new sha1 inflate deflate inflate_deflate sha1_size fs [] 0 (buildNodes (walk idx)) (wf_nodes idx Hw)) with (fuel := fuel) (prefix := "") as (cs & Hcs & Hm); [|done|].
  { destruct Hw as [_ Hb]. apply Forall_and in Hb as [_ Hb]. by apply Forall_and. }
  exists cs. split; [done|]. intros path e. rewrite Hm. setoid_rewrite (nodeAt_index idx (walk idx) (walk_perm idx)). split.
  - intros (parts & e' & (path' & He & <-) & Heq). cbn in Heq. rewrite join_Split in Heq. unfold addedEntry in Heq. simplify_eq. exists e'. split; [done|]. unfold snap. congruence.
  - intros (e' & He & [= H1 H2]). exists (Split path slash), e'. split; [eauto|]. cbn. rewrite join_Split. unfold addedEntry. congruence.
Qed.

(** Both trees in one database. *)
Lemma both_stored idx idx' :
  wf_committed idx → wf_committed idx' →
  ∃ fs, Forall (stored sha1 deflate fs kindTree) (bodies sha1 (buildNodes (walk idx))) ∧ Forall (stored sha1 deflate fs kindTree) (bodies sha1 (buildNodes (walk idx'))).
Proof.
  intros [_ [Hb _]%Forall_and] [_ [Hb' _]%Forall_and].
  pose proof (build_stores sha1 deflate sha1_size objs (buildNodes (walk idx)) ∅ objs_distinct ltac:(intros path file Hf; by rewrite lookup_empty in Hf) Hb) as (H1 & H2 & _).
  pose proof (build_stores sha1 deflate sha1_size objs (buildNodes (walk idx')) _ objs_distinct H1 Hb') as (_ & H3 & H4).
  eexists. split; [|exact H3]. eapply Forall_impl; [exact H2|]. intros b. apply H4.
Qed.

Lemma treeOf_snap idx idx' : wf_committed idx → wf_committed idx' → treeOf idx = treeOf idx' ↔ snap <$> idx = snap <$> idx'.
Proof.
  intros Hw Hw'. split.
  - intros He. destruct (both_stored idx idx' Hw Hw') as (fs & H1 & H2). set (fuel := Nat.max (height (buildNodes (walk idx))) (height (buildNodes (walk idx')))).
    destruct (walked_index idx fs fuel Hw H1 ltac:(lia)) as (cs & Hcs & Hm). destruct (walked_index idx' fs fuel Hw' H2 ltac:(lia)) as (cs' & Hcs' & Hm').
    rewrite He in Hcs. rewrite Hcs' in Hcs. injection Hcs as ->. apply map_eq. intros path. rewrite !lookup_fmap.
    destruct (idx !! path) as [e|] eqn:E, (idx' !! path) as [e'|] eqn:E'; cbn; [| | |done].
    + f_equal. destruct (proj1 (Hm' path e)) as (e'' & He'' & Hs); [apply Hm; eauto|]. congruence.
    + destruct (proj1 (Hm' path e)) as (e'' & He'' & _); [apply Hm; eauto|]. congruence.
    + destruct (proj1 (Hm path e')) as (e'' & He'' & _); [apply Hm'; eauto|]. congruence.
  - intros Hs. unfold treeOf, treeId. f_equal. apply treeBody_same; [by apply wf_nodes..|]. intros parts. apply option_eq. intros v.
    assert (Hside : ∀ i, snap <$> nodeAt (buildNodes (walk i)) parts = Some v ↔ ∃ path, (snap <$> i) !! path = Some v ∧ Split path slash = parts).
    { intros i. rewrite fmap_Some. setoid_rewrite (nodeAt_index i (walk i) (walk_perm i)). setoid_rewrite lookup_fmap_Some. naive_solver. }
    rewrite !Hside. by rewrite Hs.
Qed.

(** Staged changes are exact.  Right after a commit, an index has staged changes
    against HEAD exactly when it differs from the committed one in a path, a mode or a
    blob; times, sizes and other stat numbers do not count, and the order in which Go
    walks the maps does not matter. *)
Theorem staged_changes_exact message ident ts tz idx idx' r r' id :
  wf_ident ident → 0 ≤ ts < 2 ^ 63 → committable r idx ident ts tz message → commit message ident ts tz r = Some (r', inr id) →
  wf_committed idx' →
  ∃ r'', hasStagedChanges idx' r' = Some (r'', inr (bool_decide (snap <$> idx ≠ snap <$> idx'))) ∧ headID r'' = inr (Some id).
Proof.
  intros Hi Ht Hc Hr Hw. destruct (commit_ok _ _ _ _ _ _ _ _ Hc Hr) as (Hh & -> & Hs & _ & Hk & _).
  unfold GitRepo.hasStagedChanges. destruct (writeTree idx' r') as [[r1 [e|tree]]|] eqn:Ew.
  1,3: unfold GitRepo.writeTree in Ew; by destruct (writeTreeFromIndex _ _ _ _).
  exists r1. unfold bindM at 1. rewrite Ew. apply writeTree_ok in Ew as (-> & Hk1 & Hg & _); [|done..].
  assert (Hh1 : headID r1 = headID r') by (destruct Hg as [[o ->] _]; apply headID_objects). split; [|by rewrite Hh1].
  pose proof (grows_stores _ _ _ _ Hg Hs) as Hs1. unfold bindM, asks, GitRepo.headTree. rewrite Hh1, Hh, readObject_stores; [|split_and!; [done|done|apply Hc]|done].
  cbn [bindR ro_kind ro_data]. change (String.eqb kindCommit kindCommit) with true. cbn [negb]. rewrite parse_commitBody by done. cbn [rbind c_tree]. unfold ret. do 3 f_equal.
  pose proof (treeOf_snap idx idx' (cm_wf _ _ _ _ _ _ Hc) Hw) as Hsnap. destruct (String.eqb_spec (treeOf idx') (treeOf idx)) as [E|E]; cbn [negb].
  - symmetry. apply bool_decide_eq_false. intros Hn. apply Hn, Hsnap. done.
  - symmetry. apply bool_decide_eq_true. intros Hn. apply Hsnap in Hn. done.
Qed.
(** ** Reading a file out of a tree *)

(** No file is where a directory is. *)
Definition apart (n : node) : Prop := ∀ p q e f, nodeAt n p = Some e → nodeAt n q = Some f → p `prefix_of` q → p = q.

Lemma apart_dir n d c : wf_node n → apart n → (d, c) ∈ n_dirs n → apart c ∧ wf_node c ∧ d ∉ (n_entries n).*1.
Proof.
  destruct n as [es ds]. intros (Hes & Hds & _ & Hfd)%wf_node_eq Ha Hin. cbn [n_dirs n_entries] in *. rewrite Forall_forall in Hfd.
  destruct (Hfd _ Hin) as (_ & (parts & e & Hat) & Hc). cbn [snd] in *. assert (Hne : parts ≠ []) by (by intros ->).
  assert (Hup : ∀ q f, nodeAt c q = Some f → nodeAt (mkNode es ds) (d :: q) = Some f).
  { intros q f Hq. apply nodeAt_cases; [done|done|]. right. exists d, c, q. split_and!; [done|by intros ->|done|done]. }
  split_and!; [|done|].
  - intros p q x y Hp Hq Hpre. assert (He : d :: p = d :: q); [|congruence]. apply (Ha _ _ x y); [by apply Hup..|]. by apply prefix_cons.
  - intros ([name f] & -> & Hf)%list_elem_of_fmap. assert (He : [name] = name :: parts); [|simplify_eq; done].
    apply (Ha _ _ f e); [apply nodeAt_cases; [done|done|]; left; eauto|by apply Hup|]. apply prefix_cons, prefix_nil.
Qed.

Lemma find_by_name (l : list treeEntry) te : NoDup (te_name <$> l) → te ∈ l → List.find (λ e, String.eqb (te_name e) (te_name te)) l = Some te.
Proof.
  induction l as [|x l IH]; intros Hnd Hin; [by apply elem_of_nil in Hin|]. rewrite fmap_cons in Hnd. apply NoDup_cons in Hnd as [Hx Hnd]. cbn.
  apply elem_of_cons in Hin as [->|Hin]; [by rewrite String.eqb_refl|]. destruct (String.eqb_spec (te_name x) (te_name te)) as [He|]; [|by apply IH].
  destruct Hx. rewrite He. by apply list_elem_of_fmap_2.
Qed.

Lemma names_nodup n : wf_node n → apart n → NoDup (te_name <$> sortEntries (nodeEntries sha1 n)).
Proof.
  intros Hn Ha. rewrite sortEntries_perm. pose proof (λ d c, apart_dir n d c Hn Ha) as Hd. destruct n as [es ds]. pose proof Hn as (Hes & Hds & _)%wf_node_eq.
  unfold nodeEntries. cbn [n_entries n_dirs] in *. rewrite fmap_app.
  replace (te_name <$> map fileEntry es) with (es.*1) by (change (map fileEntry es) with (fileEntry <$> es); rewrite <- list_fmap_compose; by apply list_fmap_ext).
  replace (te_name <$> map _ ds) with (ds.*1) by (change (map ?f ds) with (f <$> ds); rewrite <- list_fmap_compose; by apply list_fmap_ext).
  apply NoDup_app. split_and!; [done| |done]. intros x Hx ([d c] & -> & Hin)%list_elem_of_fmap. by apply (Hd d c Hin).
Qed.

Abbreviation readBlob := (readBlob_loop inflate (S searchFuel)).

Lemma readBlob_step r n parts part te :
  wf_node n → apart n → te ∈ sortEntries (nodeEntries sha1 n) → te_name te = part →
  readBlob r (part :: parts) (mkRaw kindTree (treeBody sha1 n))
  = bindR (readObject r (te_id te)) (λ child,
      if String.eqb (ro_kind child) kindBlob then Some (inr (Some (decodeUTF8Replace (ro_data child)))) else
      if String.eqb (ro_kind child) kindTree then readBlob r parts child else Some (inr None)).
Proof.
  intros Hn Ha Hin <-. cbn [readBlob_loop ro_kind ro_data]. change (String.eqb kindTree kindTree) with true. cbn [negb].
  rewrite (parseTree_body sha1 sha1_size n Hn). by rewrite (find_by_name _ te (names_nodup n Hn Ha) Hin).
Qed.

Definition readable (r : repository) (n : node) : Prop := Forall (λ b, stores r kindTree b ∧ small b) (bodies sha1 n).

Lemma readObject_dir r es ds d c : readable r (mkNode es ds) → (d, c) ∈ ds → readable r c ∧ readObject r (treeId sha1 c) = Some (inr (mkRaw kindTree (treeBody sha1 c))).
Proof.
  intros Hr Hin. unfold readable in *. rewrite Forall_forall in Hr.
  assert (Hc : ∀ b, b ∈ bodies sha1 c → stores r kindTree b ∧ small b) by (intros b Hb; apply Hr; by eapply bodies_dir).
  split; [by apply Forall_forall|]. destruct (Hc _ (bodies_root sha1 c)) as [H1 H2]. apply readObject_stores; [by split_and!|done].
Qed.

Lemma readBlob_file r parts n e content :
  wf_node n → apart n → readable r n → nodeAt n parts = Some e → ie_id e = hashObject sha1 kindBlob content → stores r kindBlob content → small content →
  readBlob r parts (mkRaw kindTree (treeBody sha1 n)) = Some (inr (Some (decodeUTF8Replace content))).
Proof.
  revert n. induction parts as [|p parts IH]; intros n Hn Ha Hr Hat Hid Hs Hsm; [done|]. destruct n as [es ds]. pose proof Hn as (Hes & Hds & _)%wf_node_eq.
  apply (nodeAt_cases es ds _ _ Hes Hds) in Hat as [(name & [= -> ->] & Hin)|(d & c & rest & [= -> ->] & Hne & Hin & Hat)].
  - rewrite (readBlob_step r _ [] name (fileEntry (name, e))); [|done|done|apply entries_elem; left; eauto|done]. cbn [te_id fileEntry fst snd]. rewrite Hid.
    rewrite readObject_stores; [done|by split_and!|done].
  - rewrite (readBlob_step r _ rest d (dirEntry d (treeId sha1 c))); [|done|done|apply entries_elem; right; eauto|done]. cbn [te_id dirEntry].
    destruct (readObject_dir r es ds d c Hr Hin) as [Hrc ->]. cbn [bindR ro_kind]. change (String.eqb kindTree kindBlob) with false. change (String.eqb kindTree kindTree) with true.
    destruct (apart_dir _ d c Hn Ha Hin) as (Hac & Hwc & _). by apply IH.
Qed.

Lemma readBlob_missing r parts n :
  wf_node n → apart n → readable r n → (∀ q, q `prefix_of` parts → nodeAt n q = None) → readBlob r parts (mkRaw kindTree (treeBody sha1 n)) = Some (inr None).
Proof.
  revert n. induction parts as [|p parts IH]; intros n Hn Ha Hr Hno; [done|]. destruct n as [es ds]. pose proof Hn as (Hes & Hds & _)%wf_node_eq.
  destruct (List.find (λ e, String.eqb (te_name e) p) (sortEntries (nodeEntries sha1 (mkNode es ds)))) as [te|] eqn:Ef.
  - apply List.find_some in Ef as [Hin%list_elem_of_In Hp%String.eqb_eq]. rewrite (readBlob_step r _ parts p te) by done.
    apply entries_elem in Hin as [(name & e & -> & Hin)|(d & c & -> & Hin)]; cbn [te_name te_id fileEntry dirEntry fst snd n_entries n_dirs] in *; subst p.
    + assert (Hat : nodeAt (mkNode es ds) [name] = Some e) by (apply nodeAt_cases; [done|done|]; left; eauto). rewrite Hno in Hat; [done|]. apply prefix_cons, prefix_nil.
    + destruct (readObject_dir r es ds d c Hr Hin) as [Hrc ->]. cbn [bindR ro_kind]. change (String.eqb kindTree kindBlob) with false. change (String.eqb kindTree kindTree) with true.
      destruct (apart_dir _ d c Hn Ha Hin) as (Hac & Hwc & _). apply IH; [done..|]. intros q Hq. destruct q as [|x q]; [done|].
      destruct (nodeAt c (x :: q)) as [f|] eqn:Eq; [|done]. rewrite <- (Hno (d :: x :: q)) by (by apply prefix_cons). symmetry. apply nodeAt_cases; [done|done|].
      right. exists d, c, (x :: q). done.
  - cbn [readBlob_loop ro_kind ro_data]. change (String.eqb kindTree kindTree) with true. cbn [negb]. rewrite (parseTree_body sha1 sha1_size _ Hn). by rewrite Ef.
Qed.
(** ** Staging *)

Context (statOf : string → statInfo).
Abbreviation stage := (GitRepo.stage sha1 deflate statOf).
Abbreviation stageLoop := (stage_loop sha1 deflate statOf).
Abbreviation readBlobFromTree := (GitRepo.readBlobFromTree inflate (S searchFuel)).

(** What a path holds in the working tree, and the entry it gets. *)
Definition worktreeFile (r : repository) (wt : workTree) (rel : string) : option (string * Z) :=
  let full := JoinPath [r_worktree r; rel] in
  wt !! full ≫= λ n, match readWorktreeFile full n with inr file => Some file | inl _ => None end.

(** The path can be examined and, if it is a file or a link, read. *)
Definition accessible (r : repository) (wt : workTree) (rel : string) : Prop :=
  wt !! JoinPath [r_worktree r; rel] ≠ Some WtHidden ∧ wt !! JoinPath [r_worktree r; rel] ≠ Some WtUnreadable.
Definition stagedEntry (r : repository) (wt : workTree) (rel : string) : option indexEntry :=
  '(content, mode) ← worktreeFile r wt rel;
  Some (indexEntryFromStat (statOf (JoinPath [r_worktree r; rel])) mode (hashObject sha1 kindBlob content) rel).
Definition stagedIndex (r : repository) (wt : workTree) (rels : list string) (idx : gitIndex) : gitIndex :=
  foldl (λ idx rel, partial_alter (λ _, stagedEntry r wt rel) rel idx) idx rels.

Definition blobs_known (r : repository) (wt : workTree) (rels : list string) : Prop :=
  ∀ rel content mode, rel ∈ rels → worktreeFile r wt rel = Some (content, mode) → (kindBlob, content) ∈ objs ∧ small content.

Lemma stagedIndex_other r wt rels idx p : p ∉ rels → stagedIndex r wt rels idx !! p = idx !! p.
Proof.
  unfold stagedIndex. revert idx. induction rels as [|rel rels IH]; intros idx Hp; [done|]. cbn [foldl].
  apply not_elem_of_cons in Hp as [Hne Hp]. rewrite IH by done. by apply lookup_partial_alter_ne.
Qed.

Lemma stagedIndex_in r wt rels idx p : p ∈ rels → stagedIndex r wt rels idx !! p = stagedEntry r wt p.
Proof.
  unfold stagedIndex. revert idx. induction rels as [|rel rels IH]; intros idx Hp; [by apply elem_of_nil in Hp|]. cbn [foldl].
  destruct (decide (p ∈ rels)) as [Hin|Hn]; [by apply IH|]. apply elem_of_cons in Hp as [->|]; [|done].
  fold (stagedIndex r wt rels (partial_alter (λ _, stagedEntry r wt rel) rel idx)). rewrite stagedIndex_other by done. apply lookup_partial_alter_eq.
Qed.

Lemma worktreeFile_objects r o wt rel : worktreeFile (withObjects r o) wt rel = worktreeFile r wt rel.
Proof. done. Qed.

Lemma stagedIndex_objects r o wt rels idx : stagedIndex (withObjects r o) wt rels idx = stagedIndex r wt rels idx.
Proof. done. Qed.

(** One path: what is done for a file or a link, for anything that is not there as one,
    and where the loop stops. *)
Lemma stage_loop_cons wt rel rels idx r r' idx' :
  stageLoop wt (rel :: rels) idx r = Some (r', inr idx') →
  accessible r wt rel ∧
  match worktreeFile r wt rel with
  | Some (content, mode) => ∃ id r1, GitRepo.putObject sha1 deflate kindBlob content r = Some (r1, inr id)
      ∧ stageLoop wt rels (<[rel := indexEntryFromStat (statOf (JoinPath [r_worktree r; rel])) mode id rel]> idx) r1 = Some (r', inr idx')
  | None => stageLoop wt rels (delete rel idx) r = Some (r', inr idx')
  end.
Proof.
  cbn [stage_loop]. unfold accessible, worktreeFile. cbv zeta.
  destruct (wt !! JoinPath [r_worktree r; rel]) as [[c x|t| | | |]|]; cbn [mbind option_bind readWorktreeFile]; try (by intros Hl; split); [| |done..].
  all: rewrite bindM_ok; intros (file & r0 & [= <- <-] & (id & r1 & Hp & Hl)%bindM_ok); split; [done|]; by exists id, r1.
Qed.

Lemma stage_loop_ok wt rels idx r r' idx' :
  known r → blobs_known r wt rels → stageLoop wt rels idx r = Some (r', inr idx') →
  idx' = stagedIndex r wt rels idx ∧ known r' ∧ grows r r'
  ∧ (∀ rel content mode, rel ∈ rels → worktreeFile r wt rel = Some (content, mode) → stores r' kindBlob content)
  ∧ ∀ rel, rel ∈ rels → accessible r wt rel.
Proof.
  revert idx r. induction rels as [|rel rels IH]; intros idx r Hk Hb.
  { intros [= <- <-]. split_and!; [done|done|apply grows_refl|..]; [by intros ? ? ? ?%elem_of_nil|by intros ? ?%elem_of_nil]. }
  intros [Hacc Hl]%stage_loop_cons. destruct (worktreeFile r wt rel) as [[content mode]|] eqn:Ew.
  - destruct Hl as (id & r1 & Hp & Hl). destruct (Hb rel content mode) as [Hin _]; [by left|done|].
    apply putObject_ok in Hp as (-> & Hk1 & Hg1 & Hs1); [|done..]. pose proof Hg1 as [[o Ho] _]. subst r1.
    apply IH in Hl as (-> & Hk' & Hg' & Hs' & Ha'); [|done|intros ? ? ? ?; apply Hb; by right]. split_and!; [|done|by eapply grows_trans|..].
    + rewrite stagedIndex_objects. unfold stagedIndex. cbn [foldl]. unfold stagedEntry at 3. rewrite Ew. done.
    + intros q c m [->|Hq]%elem_of_cons Hw; [|by eapply Hs']. rewrite Ew in Hw. simplify_eq. by eapply grows_stores.
    + intros q [->|Hq]%elem_of_cons; [done|by apply (Ha' q)].
  - apply IH in Hl as (-> & Hk' & Hg' & Hs' & Ha'); [|done|intros ? ? ? ?; apply Hb; by right]. split_and!; [|done|done|..].
    + unfold stagedIndex. cbn [foldl]. unfold stagedEntry at 3. rewrite Ew. done.
    + intros q c m [->|Hq]%elem_of_cons Hw; [congruence|by eapply Hs'].
    + intros q [->|Hq]%elem_of_cons; auto.
Qed.

Lemma stage_ok wt rels idx r r' u :
  known r → blobs_known r wt rels → loadIndex r = inr idx → wf_writable (stagedIndex r wt rels idx) → stage wt rels r = Some (r', inr u) →
  loadIndex r' = inr (recorded <$> stagedIndex r wt rels idx) ∧ known r'
  ∧ (∀ rel content mode, rel ∈ rels → worktreeFile r wt rel = Some (content, mode) → stores r' kindBlob content)
  ∧ ∀ rel, rel ∈ rels → accessible r wt rel.
Proof.
  intros Hk Hb Hi Hw. unfold GitRepo.stage. rewrite bindM_ok. intros (i & r0 & [= <- Hi'] & Hs). rewrite Hi in Hi'. injection Hi' as <-.
  apply bindM_ok in Hs as (idx1 & r1 & Hl & Hs). apply stage_loop_ok in Hl as (-> & Hk1 & [[o ->] _] & Hs1 & Ha1); [|done..].
  unfold storeIndex in Hs. apply makeAndWrite in Hs as (fs1 & fs & -> & Hwr & _ & _); [|intros *; by apply WriteFile_other].
  split_and!; [|done|exact Hs1|exact Ha1]. unfold loadIndex. change (indexPath (withFs (withObjects r o) fs)) with (indexPath (withObjects r o)). cbn [r_fs withFs].
  apply WriteFile_insert in Hwr as ->. rewrite lookup_insert_eq. by apply readIndex_recorded.
Qed.

(** A path that cannot be examined or read stops the staging with its error. *)
Lemma stage_loop_stops wt rel rels idx r :
  ¬ accessible r wt rel → stageLoop wt (rel :: rels) idx r = Some (r, inl (ErrIO (JoinPath [r_worktree r; rel]))).
Proof.
  unfold accessible. intros Hn. cbn [stage_loop].
  destruct (wt !! JoinPath [r_worktree r; rel]) as [[c x|t| | | |]|]; done || (exfalso; apply Hn; split; discriminate).
Qed.

(** No path of the index is a directory of another. *)
Definition prefix_free (idx : gitIndex) : Prop :=
  ∀ p q e f, idx !! p = Some e → idx !! q = Some f → Split p slash `prefix_of` Split q slash → p = q.

Lemma apart_index idx : prefix_free idx → apart (buildNodes (walk idx)).
Proof.
  intros Hp ps qs e f (p & He & <-)%(nodeAt_index idx (walk idx) (walk_perm idx)) (q & Hf & <-)%(nodeAt_index idx (walk idx) (walk_perm idx)) Hpre.
  by rewrite (Hp p q e f).
Qed.

Lemma staged_read_back wt rels message ident ts tz idx r r1 r2 id rel :
  wf_ident ident → 0 ≤ ts < 2 ^ 63 → known r → blobs_known r wt rels → loadIndex r = inr idx →
  let idx1 := recorded <$> stagedIndex r wt rels idx in
  wf_writable (stagedIndex r wt rels idx) → prefix_free idx1 →
  stage wt rels r = Some (r1, inr tt) → committable r1 idx1 ident ts tz message → commit message ident ts tz r1 = Some (r2, inr id) →
  rel ∈ rels → pythonPathParts rel = Split rel slash →
  accessible r wt rel ∧ ∃ tree, headTree r2 = Some (inr (Some tree)) ∧
    match worktreeFile r wt rel with
    | Some (content, _) => readBlobFromTree r2 tree rel = Some (inr (Some (decodeUTF8Replace content)))
    | None => (∀ p e, idx1 !! p = Some e → ¬ Split p slash `prefix_of` Split rel slash) → readBlobFromTree r2 tree rel = Some (inr None)
    end.
Proof.
  intros Hi Ht Hk Hb Hidx idx1 Hw Hpf Hst Hc Hr Hrel Hparts.
  pose proof (headTree_committed _ _ _ _ _ _ _ _ Hi Ht Hc Hr) as Hhead. destruct (stage_ok wt rels idx r r1 tt Hk Hb Hidx Hw Hst) as (_ & _ & Hblobs & Hacc). destruct (commit_ok _ _ _ _ _ _ _ _ Hc Hr) as (Hh & -> & Hs & Hts & _ & Hkeep & _).
  split; [by apply Hacc|]. exists (treeOf idx1).
  pose proof (cm_wf _ _ _ _ _ _ Hc) as Hwf. assert (Hread : readable r2 (buildNodes (walk idx1))).
  { destruct Hwf as [_ [_ Hsm]%Forall_and]. by apply Forall_and. }
  assert (Htree : readObject r2 (treeOf idx1) = Some (inr (mkRaw kindTree (treeBody sha1 (buildNodes (walk idx1)))))).
  { pose proof Hread as Hr2. unfold readable in Hr2. rewrite Forall_forall in Hr2. destruct (Hr2 _ (bodies_root sha1 _)) as [H1 H2]. apply readObject_stores; [by split_and!|done]. }
  split; [exact Hhead|].
  unfold GitRepo.readBlobFromTree. rewrite Htree, Hparts. cbn [bindR]. pose proof (wf_nodes idx1 Hwf) as Hn. pose proof (apart_index idx1 Hpf) as Ha.
  destruct (worktreeFile r wt rel) as [[content mode]|] eqn:Ew.
  - destruct (Hb rel content mode Hrel Ew) as [_ Hsm]. assert (Hat : ∃ e, idx1 !! rel = Some e ∧ ie_id e = hashObject sha1 kindBlob content).
    { unfold idx1. rewrite lookup_fmap, stagedIndex_in by done. unfold stagedEntry. rewrite Ew. by eexists. }
    destruct Hat as (e & He & Hid). apply (readBlob_file _ _ _ e); [done|done|done| |done|apply Hkeep; by eapply Hblobs|done].
    apply (nodeAt_index idx1 (walk idx1) (walk_perm idx1)). eauto.
  - intros Hno. apply readBlob_missing; [done..|]. intros q Hq. apply eq_None_not_Some. intros [e (p & He & <-)%(nodeAt_index idx1 (walk idx1) (walk_perm idx1))]. by apply (Hno p e).
Qed.

(** C25. What is staged and committed is what is read.  For objects without a SHA-1
    collision and within the size limits, an index all of whose entries survive writing
    (none has extended flags) and none of whose paths is a directory of another, and a path
    in normal form: if [stage] and [commit] succeed, the path could be examined and read
    when it was staged; if it was a file, or a symbolic link, it is read from the tree at
    HEAD with the content (or target) the working tree had, decoded as UTF-8 with
    replacement characters; and if it was gone or neither, it is not in the commit, unless
    a path of the index is a directory of it. *)
Theorem staged_file_read wt rels message ident ts tz idx r r1 r2 id rel :
  wf_ident ident → 0 ≤ ts < 2 ^ 63 → known r → blobs_known r wt rels → loadIndex r = inr idx →
  let idx1 := recorded <$> stagedIndex r wt rels idx in
  wf_writable (stagedIndex r wt rels idx) → prefix_free idx1 →
  stage wt rels r = Some (r1, inr tt) → committable r1 idx1 ident ts tz message → commit message ident ts tz r1 = Some (r2, inr id) →
  rel ∈ rels → pythonPathParts rel = Split rel slash →
  accessible r wt rel ∧ ∃ tree, headTree r2 = Some (inr (Some tree)) ∧
    match worktreeFile r wt rel with
    | Some (content, _) => readBlobFromTree r2 tree rel = Some (inr (Some (decodeUTF8Replace content)))
    | None => (∀ p e, idx1 !! p = Some e → ¬ Split p slash `prefix_of` Split rel slash) → readBlobFromTree r2 tree rel = Some (inr None)
    end.
Proof. exact (staged_read_back wt rels message ident ts tz idx r r1 r2 id rel). Qed.
(** ** The log *)

Context (localTime : Z → string).
Abbreviation log := (GitRepo.log inflate localTime (S searchFuel)).
Abbreviation logLoop := (log_loop inflate localTime (S searchFuel)).

Definition storedCommit (r : repository) (id : objectID) (c : commitObj) : Prop :=
  ∃ data, id = hashObject sha1 kindCommit data ∧ stores r kindCommit data ∧ small data ∧ parseCommit data = inr c.

(** The first-parent chain from a commit, newest first. *)
Inductive History (r : repository) : objectID → list (objectID * commitObj) → Prop :=
  | History_root id c : storedCommit r id c → c_parents c = [] → History r id [(id, c)]
  | History_step id c p ps h : storedCommit r id c → c_parents c = p :: ps → History r p h → History r id ((id, c) :: h).

Definition infoOf (ic : objectID * commitObj) : CommitInfo :=
  mkInfo (short ic.1) (pythonStrip (decodeUTF8Replace (c_message ic.2))) (localTime (c_commitTime ic.2)).
Definition matching (prefix : option string) (i : CommitInfo) : bool := match prefix with None => true | Some p => pythonStartsWith (info_Message i) p end.
Definition listed (maxEntries : Z) (prefix : option string) (h : list (objectID * commitObj)) : list CommitInfo :=
  take (Z.to_nat maxEntries) (List.filter (matching prefix) (map infoOf h)).

(** One round of the loop at a commit. *)
Lemma log_round fuel r maxEntries prefix id c entries :
  storedCommit r id c → Z.of_nat (length entries) < maxEntries →
  logLoop (S fuel) r maxEntries prefix id entries
  = let entries := if matching prefix (infoOf (id, c)) then entries ++ [infoOf (id, c)] else entries in
    match c_parents c with [] => Some (inr entries) | parent :: _ => logLoop fuel r maxEntries prefix parent entries end.
Proof.
  intros (data & -> & Hs & Hsm & Hp) Hl. cbn [log_loop]. rewrite (proj2 (Z.ltb_lt _ _) Hl). rewrite readObject_stores by (by try split_and!).
  cbn [bindR ro_kind ro_data]. change (String.eqb kindCommit kindCommit) with true. cbn [negb]. by rewrite Hp.
Qed.

Lemma log_loop_full fuel r maxEntries prefix id entries : maxEntries ≤ Z.of_nat (length entries) → logLoop fuel r maxEntries prefix id entries = Some (inr entries).
Proof. intros Hl. destruct fuel; cbn [log_loop]; by rewrite (proj2 (Z.ltb_ge _ _) Hl). Qed.

Lemma listed_one entries i maxEntries prefix h :
  Z.of_nat (length entries) < maxEntries →
  entries ++ listed (maxEntries - Z.of_nat (length entries)) prefix (i :: h)
  = (if matching prefix (infoOf i) then entries ++ [infoOf i] else entries)
    ++ listed (maxEntries - Z.of_nat (length (if matching prefix (infoOf i) then entries ++ [infoOf i] else entries))) prefix h.
Proof.
  intros Hl. unfold listed. cbn [map List.filter]. destruct (matching prefix (infoOf i)); [|done]. rewrite length_app. cbn [length].
  replace (Z.to_nat (maxEntries - Z.of_nat (length entries))) with (S (Z.to_nat (maxEntries - Z.of_nat (length entries + 1)))) by lia. cbn [take]. by rewrite <- app_assoc.
Qed.

Lemma log_loop_history r id h maxEntries prefix :
  History r id h → ∀ fuel entries, (length h ≤ fuel)%nat →
  Z.of_nat (length entries) ≤ Z.max 0 maxEntries → logLoop fuel r maxEntries prefix id entries = Some (inr (entries ++ listed (maxEntries - Z.of_nat (length entries)) prefix h)).
Proof.
  assert (Hfull : ∀ fuel sha entries k, maxEntries ≤ Z.of_nat (length entries) →
    logLoop fuel r maxEntries prefix sha entries = Some (inr (entries ++ listed (maxEntries - Z.of_nat (length entries)) prefix k))).
  { intros fuel sha entries k Hm. rewrite log_loop_full by done. unfold listed. replace (Z.to_nat _) with 0%nat by lia. cbn [take]. by rewrite app_nil_r. }
  intros Hh. induction Hh as [id c Hc Hp|id c p ps h Hc Hp Hh IH]; intros fuel entries Hf Hl; (destruct (decide (maxEntries ≤ Z.of_nat (length entries))) as [Hm|Hm]; [by apply Hfull|]);
    (destruct fuel as [|fuel]; [cbn in Hf; lia|]); rewrite (log_round fuel r maxEntries prefix id c) by (done || lia); cbn zeta; rewrite Hp, listed_one by lia.
  - unfold listed. cbn [map List.filter]. by rewrite take_nil, app_nil_r.
  - apply IH; [cbn in Hf; lia|]. destruct (matching _ _); [rewrite length_app; cbn|]; lia.
Qed.

Lemma History_keep r r' id h : (∀ kind data, stores r kind data → stores r' kind data) → History r id h → History r' id h.
Proof.
  intros Hk Hh. assert (Hc : ∀ i c, storedCommit r i c → storedCommit r' i c) by (intros i c (data & ? & ? & ? & ?); exists data; auto).
  induction Hh; [apply History_root|eapply History_step]; eauto.
Qed.

(** The commits before a commit. *)
Definition past (r : repository) (h : list (objectID * commitObj)) : Prop :=
  match headID r with inl _ => False | inr None => h = [] | inr (Some p) => History r p h end.

(** The log lists the commits, newest first.  After a commit, [log] returns the new
    commit and then the commits it had before, with their short names, their stripped
    messages and their times, keeping the messages that start with the prefix and at most
    [maxEntries] of them; it needs one round for each commit. *)
Theorem log_after_commit message ident ts tz idx r r' id h :
  wf_ident ident → 0 ≤ ts < 2 ^ 63 → committable r idx ident ts tz message → commit message ident ts tz r = Some (r', inr id) → past r h →
  ∀ fuel maxEntries prefix, (length h < fuel)%nat →
  log fuel r' maxEntries prefix = Some (inr (listed maxEntries prefix ((id, mkCommit (treeOf idx) (parentsOf r) ts message) :: h))).
Proof.
  intros Hi Ht Hc Hr Hp fuel maxEntries prefix Hf. destruct (commit_ok _ _ _ _ _ _ _ _ Hc Hr) as (Hh & -> & Hs & _ & _ & Hkeep & _).
  unfold GitRepo.log. rewrite Hh. set (c := mkCommit _ _ _ _). set (id := hashObject _ _ _) in *.
  assert (Hst : storedCommit r' id c) by (exists (commitBody r idx ident ts tz message); split_and!; [done|done|apply Hc|by apply parse_commitBody]).
  assert (Hhist : History r' id ((id, c) :: h)).
  { unfold past in Hp. destruct (headID r) as [|[p|]] eqn:E; [done| |].
    - eapply History_step; [done| |by eapply History_keep]. cbn. unfold parentsOf. by rewrite E.
    - subst h. apply History_root; [done|]. cbn. unfold parentsOf. by rewrite E. }
  rewrite (log_loop_history r' id _ maxEntries prefix Hhist); [|cbn; lia|cbn; lia]. cbn [app length]. by rewrite Z.sub_0_r.
Qed.
End Commits.

(** ** A repository *)

(** A stand-in for SHA-1: twenty hexadecimal digits of a rolling sum. *)
Fixpoint rollingSum (acc : Z) (s : string) : Z := match s with "" => acc | String c s => rollingSum ((acc * 257 + byteZ c) mod (2 ^ 80)) s end.
Definition toySum (s : string) : string := hex 20 (rollingSum 7 s).

Lemma slen_hex width z : slen (hex width z) = width.
Proof. revert z. induction width as [|w IH]; intros z; [done|]. cbn [hex]. rewrite slen_app, IH. cbn. lia. Qed.

Lemma toySum_size s : slen (toySum s) = 20%nat.
Proof. apply slen_hex. Qed.

Lemma hash_distinct_list sum objs : NoDup ((λ kd, hashObject sum kd.1 kd.2) <$> objs) → hash_distinct sum objs.
Proof.
  intros Hnd k d k' d' Hin Hin' He. apply list_elem_of_lookup in Hin as [i Hi], Hin' as [j Hj].
  assert (i = j) as ->; [|by simplify_eq]. eapply (NoDup_lookup _ _ _ _ Hnd); rewrite list_lookup_fmap; [rewrite Hi|rewrite Hj]; cbn; [done|]. by rewrite He.
Qed.

Definition demoFs : fileTree :=
  <["/ws/.git" := Dir]> (<["/ws/.git/refs/heads" := Dir]> (<["/ws/.git/HEAD" := File ("ref: refs/heads/main" +:+ String LF "")]> ∅)).
Definition demoRepo : repository := mkRepo "/ws" "/ws/.git" demoFs ∅ [].
Definition demoWt : workTree := <["/ws/SOUL.md" := WtFile "calm" false]> (<["/ws/memory/MEMORY.md" := WtFile "tea" true]> ∅).
Definition demoRels : list string := ["SOUL.md"; "memory/MEMORY.md"; "USER.md"].
Definition demoStat (path : string) : statInfo := mkStat 1 2 3 4 5 6 7 8 9.
Definition demoIdent : commitIdent := mkIdent "nanobot" "nanobot@dream".
Definition demoWalk (idx : gitIndex) : list (string * indexEntry) := map_to_list idx.

Definition demoStaged : gitIndex := stagedIndex toySum demoStat demoRepo demoWt demoRels ∅.
Definition demoIdx : gitIndex := recorded <$> demoStaged.
Definition stateOf {A} (o : option (repository * A)) : repository := match o with Some (r, _) => r | None => demoRepo end.
Definition demoRepo1 : repository := stateOf (stage toySum markBytes demoStat demoWt demoRels demoRepo).
Definition demoRepo2 : repository := stateOf (commit toySum markBytes demoWalk "first" demoIdent 1000 0 demoRepo1).
Definition demoBody : string := commitBody toySum demoWalk demoRepo1 demoIdx demoIdent 1000 0 "first".
Definition demoObjs : list (string * string) :=
  [(kindBlob, "calm"); (kindBlob, "tea"); (kindCommit, demoBody)] ++ map (λ b, (kindTree, b)) (bodies toySum (buildNodes (demoWalk demoIdx))).

Lemma demoObjs_distinct : hash_distinct toySum demoObjs.
Proof. apply hash_distinct_list. by apply (bool_decide_unpack _); vm_compute. Qed.

Lemma demo_known : known toySum markBytes demoObjs demoRepo.
Proof. intros path file Hf. cbn in Hf. by rewrite lookup_empty in Hf. Qed.

Lemma demo_blobs : blobs_known demoObjs demoRepo demoWt demoRels.
Proof.
  intros rel content mode Hin Hw. unfold demoRels in Hin. rewrite !elem_of_cons in Hin.
  destruct Hin as [->|[->|[->|[]%elem_of_nil]]]; vm_compute in Hw; simplify_eq; (split; [apply elem_of_app; left; first [by left|right; by left]|by vm_compute]).
Qed.

Lemma demoStaged_lookup p e :
  demoStaged !! p = Some e → (p = "SOUL.md" ∧ e = indexEntryFromStat (demoStat "/ws/SOUL.md") modeRegular (hashObject toySum kindBlob "calm") p)
  ∨ (p = "memory/MEMORY.md" ∧ e = indexEntryFromStat (demoStat "/ws/memory/MEMORY.md") modeExecutable (hashObject toySum kindBlob "tea") p).
Proof.
  unfold demoStaged. destruct (decide (p ∈ demoRels)) as [Hin|Hn]; [rewrite stagedIndex_in by done|by rewrite stagedIndex_other, lookup_empty by done].
  unfold demoRels in Hin. rewrite !elem_of_cons in Hin. intros He.
  destruct Hin as [->|[->|[->|[]%elem_of_nil]]]; [left|right|by vm_compute in He]; (split; [done|]); apply (inj Some); rewrite <- He; by vm_compute.
Qed.

Lemma demo_fields mode id name path :
  valid_id id → 0 ≤ mode < 2 ^ 32 → Z.of_nat (slen name) < 0x0fff → wf_fields (indexEntryFromStat (demoStat path) mode id name).
Proof.
  intros Hi Hm Hn. split; cbn [ie_flags ie_name ie_id indexEntryFromStat]; try lia; try done.
  repeat (apply Forall_cons_2; [unfold u32_ok; cbn; lia|]). apply Forall_nil_2.
Qed.

Lemma demo_writable : wf_writable demoStaged.
Proof.
  split; [|by vm_compute]. intros p e [[-> ->]|[-> ->]]%demoStaged_lookup; (split; [done|]); apply demo_fields; try apply toySum_size; cbn; unfold modeRegular, modeExecutable; lia.
Qed.

Lemma demo_stage : stage toySum markBytes demoStat demoWt demoRels demoRepo = Some (demoRepo1, inr tt).
Proof. by vm_compute. Qed.

Lemma demo_commit : commit toySum markBytes demoWalk "first" demoIdent 1000 0 demoRepo1 = Some (demoRepo2, inr (hashObject toySum kindCommit demoBody)).
Proof. by vm_compute. Qed.

Lemma demoIdx_lookup p e :
  demoIdx !! p = Some e → (p = "SOUL.md" ∨ p = "memory/MEMORY.md") ∧ wf_file e.
Proof.
  unfold demoIdx. rewrite lookup_fmap_Some. intros (e0 & <- & [[-> ->]|[-> ->]]%demoStaged_lookup); (split; [auto|]);
    (split_and!; [apply toySum_size|..]; cbn; unfold modeRegular, modeExecutable, modeTree; lia).
Qed.

Lemma demo_prefix_free : prefix_free demoIdx.
Proof.
  intros p q e f [[->| ->] _]%demoIdx_lookup [[->| ->] _]%demoIdx_lookup [k Hk]; try done; vm_compute in Hk; by simplify_eq.
Qed.

Lemma demo_wf : wf_committed toySum demoWalk demoObjs demoIdx.
Proof.
  split; [intros p e [[->| ->] He]%demoIdx_lookup; done|]. apply Forall_and. split.
  - apply Forall_forall. intros b Hb. apply elem_of_app. right. by apply (list_elem_of_fmap_2 (λ b, (kindTree, b))).
  - assert (Hb : forallb (λ b, Z.of_nat (slen b) <? 2 ^ 63) (bodies toySum (buildNodes (demoWalk demoIdx))) = true) by (by vm_compute).
    apply Forall_forall. intros b Hin%list_elem_of_In. rewrite forallb_forall in Hb. by apply Z.ltb_lt, Hb.
Qed.

Lemma demo_names : headNames demoRepo1 = ["HEAD"; "refs/heads/main"].
Proof. by vm_compute. Qed.

Lemma demo_apart : refs_apart demoRepo1.
Proof.
  unfold refs_apart, headFiles, headLogs, headRef. rewrite demo_names. split_and!; [|intros n Hn|by vm_compute].
  - apply (bool_decide_eq_false_1 _). by vm_compute.
  - rewrite !elem_of_cons, elem_of_nil in Hn. destruct Hn as [->|[->|[]]]; apply (bool_decide_eq_false_1 _); by vm_compute.
Qed.

Lemma demo_committable : committable toySum markBytes demoWalk demoObjs demoRepo1 demoIdx demoIdent 1000 0 "first".
Proof.
  destruct (stage_ok toySum markBytes toySum_size demoObjs demoObjs_distinct demoStat demoWt demoRels ∅ demoRepo demoRepo1 tt demo_known demo_blobs eq_refl demo_writable demo_stage)
    as (Hidx & Hk & _).
  split; [exact Hk|exact Hidx|exact demo_wf| |by vm_compute|exact demo_apart]. apply elem_of_app. left. right. right. by left.
Qed.

Lemma demo_ident : wf_ident demoIdent.
Proof. done. Qed.

Lemma demo_time : 0 ≤ 1000 < 2 ^ 63.
Proof. lia. Qed.

Lemma demoWalk_perm idx : demoWalk idx ≡ₚ map_to_list idx.
Proof. reflexivity. Qed.

Definition demoID : objectID := hashObject toySum kindCommit demoBody.

Lemma commit_moves_head_witness :
  headID demoRepo2 = inr (Some demoID) ∧ headTree unmarkBytes 1 demoRepo2 = Some (inr (Some (treeOf toySum demoWalk demoIdx))).
Proof.
  pose proof (commit_moves_head toySum unmarkBytes markBytes demoWalk 0 unmark_mark toySum_size demoObjs demoObjs_distinct "first" demoIdent 1000 0 demoIdx
    demoRepo1 demoRepo2 demoID demo_ident demo_time demo_committable demo_commit) as (H1 & _ & H2).
  exact (conj H1 H2).
Defined.

(** The committed index has no staged changes. *)
Lemma staged_changes_exact_witness :
  ∃ r, hasStagedChanges toySum unmarkBytes markBytes demoWalk 1 demoIdx demoRepo2 = Some (r, inr false).
Proof.
  destruct (staged_changes_exact toySum unmarkBytes markBytes demoWalk 0 unmark_mark toySum_size demoWalk_perm demoObjs demoObjs_distinct "first" demoIdent 1000 0 demoIdx demoIdx
    demoRepo1 demoRepo2 demoID demo_ident demo_time demo_committable demo_commit demo_wf) as (r & H & _).
  exists r. rewrite bool_decide_eq_false_2 in H by (intros Hn; exact (Hn eq_refl)). exact H.
Defined.

Lemma staged_file_read_witness :
  ∃ tree, headTree unmarkBytes 1 demoRepo2 = Some (inr (Some tree)) ∧ readBlobFromTree unmarkBytes 1 demoRepo2 tree "memory/MEMORY.md" = Some (inr (Some "tea")).
Proof.
  exact (proj2 (staged_file_read toySum unmarkBytes markBytes demoWalk 0 unmark_mark toySum_size demoWalk_perm demoObjs demoObjs_distinct demoStat demoWt demoRels "first" demoIdent 1000 0 ∅
    demoRepo demoRepo1 demoRepo2 demoID "memory/MEMORY.md" demo_ident demo_time demo_known demo_blobs eq_refl demo_writable demo_prefix_free demo_stage demo_committable demo_commit
    (list_elem_of_further _ _ _ (list_elem_of_here _ _)) eq_refl)).
Defined.

Lemma log_after_commit_witness :
  log unmarkBytes Itoa 1 1 demoRepo2 10 None = Some (inr [mkInfo (short demoID) "first" "1000"]).
Proof.
  pose proof (log_after_commit toySum unmarkBytes markBytes demoWalk 0 unmark_mark toySum_size demoObjs demoObjs_distinct Itoa "first" demoIdent 1000 0 demoIdx
    demoRepo1 demoRepo2 demoID [] demo_ident demo_time demo_committable demo_commit) as H.
  rewrite (H ltac:(by vm_compute) 1%nat 10 None ltac:(cbn; lia)). by vm_compute.
Defined.

Lemma tree_is_index_witness :
  let '(id, fs) := writeTreeFromIndex toySum markBytes ∅ (demoWalk demoIdx) in
  ∃ cs, treeChanges unmarkBytes (mkStore fs []) 1 2 None (Some id) = Some (inr cs)
    ∧ ∀ c, c ∈ cs ↔ ∃ path e, demoIdx !! path = Some e ∧ c = addedEntry path e.
Proof.
  exact (tree_is_index toySum unmarkBytes markBytes unmark_mark toySum_size demoObjs ∅ [] demoIdx (demoWalk demoIdx) demoObjs_distinct demo_known
    (demoWalk_perm demoIdx) (proj1 demo_wf) (proj2 demo_wf) 0 2 ltac:(vm_compute; lia)).
Defined.

(** ** A file that did not change is reported as changed *)

Definition bareEntry (name : string) : string * indexEntry := (name, mkIdx 0 0 0 0 0 0 modeRegular 0 0 0 (toySum name) 0 name).

(** The trees of [a-b] and [a/x] before, and of [a/x] after: git sorts the directory [a]
    as [a/], after [a-b], and the merge compares [a] with [a-b].  It reports [a/x], which
    is the same in both, as added and as deleted. *)
Theorem merge_reports_unchanged :
  let '(old, fs) := writeTreeFromIndex toySum markBytes ∅ [bareEntry "a-b"; bareEntry "a/x"] in
  let '(new, fs) := writeTreeFromIndex toySum markBytes fs [bareEntry "a/x"] in
  treeChanges unmarkBytes (mkStore fs []) 1 2 (Some old) (Some new)
  = Some (inr [mkChange "" "a/x" None (Some modeRegular) None (Some (toySum "a/x"));
               mkChange "a-b" "" (Some modeRegular) None (Some (toySum "a-b")) None;
               mkChange "a/x" "" (Some modeRegular) None (Some (toySum "a/x")) None]).
Proof. by vm_compute. Qed.
