(* ===== verification/GitPatch.v ===== *)
(** * Diffs of commits and of the working tree
      (src/internal/gitstore/patch.go and gitstore.go)

    The patch text of a tree difference, the diff of two commits and the summary of the
    working tree.  What [os.Stat] and [os.ReadFile] find at a path of the working tree is
    an argument. *)

From Stdlib Require Import Ascii.
From stdpp Require Import gmap strings.
From S2P Require Import Prelude GoText GoLib Regex GoFmt GoPath PyText PyDiff PyDiffFacts GitObject GitPack GitIndex GitTree GitTreeFacts GitRepo GitRepoFacts.

Open Scope string_scope.
Open Scope list_scope.
Open Scope Z_scope.

Definition NL : string := String LF "".
Definition firstFewBytes : nat := N.to_nat 8000.

(** One side of a change. *)
Record diffFile := mkSide { df_path : option string; df_mode : option Z; df_id : option objectID }.

Definition optionalString (s : string) : option string := if String.eqb s "" then None else Some s.
Definition patchFilename (p : option string) (root : string) : string := match p with None => "/dev/null" | Some p => root +:+ "/" +:+ p end.
Definition shortObjectID (id : option objectID) : string := match id with None => "0000000" | Some id => stake 7 (idString id) end.
Definition isBinaryContent (content : string) : bool := ContainsByte (stake firstFewBytes content) NUL.
Definition blobLines (content : string) : list string := if String.eqb content "" then [] else splitLinesKeepEnds content false.
Definition sameMode (a b : option Z) : bool := match a, b with Some a, Some b => a =? b | None, None => true | _, _ => false end.

(** [strconv.FormatUint(mode, 8)]. *)
Definition modeText (mode : Z) : string := octal 11 mode "".

Definition writeDiffHeader (old new : diffFile) : string :=
  let oldPath := match df_path old with None => df_path new | p => p end in
  let newPath := match df_path new with None => oldPath | p => p end in
  "diff --git " +:+ patchFilename oldPath "a" +:+ " " +:+ patchFilename newPath "b" +:+ NL
  +:+ (if sameMode (df_mode old) (df_mode new) then "" else
       match df_mode new, df_mode old with
       | Some n, Some o => "old file mode " +:+ modeText o +:+ NL +:+ "new file mode " +:+ modeText n +:+ NL
       | Some n, None => "new file mode " +:+ modeText n +:+ NL
       | None, Some o => "deleted file mode " +:+ modeText o +:+ NL
       | None, None => ""
       end)
  +:+ "index " +:+ shortObjectID (df_id old) +:+ ".." +:+ shortObjectID (df_id new)
  +:+ (match df_mode new, df_mode old with Some n, Some _ => " " +:+ modeText n | _, _ => "" end) +:+ NL.

(** [strings.HasSuffix(line, "\n")]. *)
Fixpoint endsWithLF (s : string) : bool := match s with "" => false | String c "" => Ascii.eqb c LF | String _ s => endsWithLF s end.
Definition withNoNewlineMarker (line : string) : string := if endsWithLF line then line else line +:+ NL +:+ "\ No newline at end of file" +:+ NL.

Definition opText (a b : lines) (op : seqOpcode) : string :=
  let removed := Join (map (λ l, "-" +:+ withNoNewlineMarker l) (slice a (op_i1 op) (op_i2 op))) "" in
  let inserted := Join (map (λ l, "+" +:+ withNoNewlineMarker l) (slice b (op_j1 op) (op_j2 op))) "" in
  match op_tag op with
  | Equal => Join (map (λ l, " " +:+ l) (slice a (op_i1 op) (op_i2 op))) ""
  | Replace => removed +:+ inserted
  | Delete => removed
  | Insert => inserted
  end.

Definition groupText (a b : lines) (group : list seqOpcode) : string :=
  match head group, last group with
  | Some first, Some last_ =>
      "@@ -" +:+ formatRangeUnified (op_i1 first) (op_i2 last_) +:+ " +" +:+ formatRangeUnified (op_j1 first) (op_j2 last_) +:+ " @@" +:+ NL
      +:+ Join (map (opText a b) group) ""
  | _, _ => ""
  end.

(** The matcher does not fail ([unified_diff_patches]); [None] never happens. *)
Definition writeUnifiedDiff (a b : lines) (fromFile toFile : string) : option string :=
  groups ← getGroupedOpcodes (newSeqMatcher None a b) 3;
  Some (match groups with
        | [] => ""
        | _ => "--- " +:+ fromFile +:+ NL +:+ "+++ " +:+ toFile +:+ NL +:+ Join (map (groupText a b) groups) ""
        end).

Section Diffs.
Context (inflate : string → option string) (localTime : Z → string) (searchFuel : nat).

Definition objectContent (r : repository) (f : diffFile) : reading string :=
  match df_id f with
  | None => Some (inr "")
  | Some id =>
      if match df_mode f with Some m => Z.land m 61440 =? modeGitlink | None => false end
      then Some (inr ("Subproject commit " +:+ idString id +:+ NL))
      else bindR (readObject inflate searchFuel r id) (λ obj, Some (inr (ro_data obj)))
  end.

Definition writeObjectDiff (r : repository) (old new : diffFile) : reading string :=
  let oldPath := patchFilename (df_path old) "a" in
  let newPath := patchFilename (df_path new) "b" in
  bindR (objectContent r old) (λ oldContent, bindR (objectContent r new) (λ newContent,
    if isBinaryContent oldContent || isBinaryContent newContent
    then Some (inr (writeDiffHeader old new +:+ "Binary files " +:+ oldPath +:+ " and " +:+ newPath +:+ " differ" +:+ NL))
    else body ← writeUnifiedDiff (blobLines oldContent) (blobLines newContent) oldPath newPath; Some (inr (writeDiffHeader old new +:+ body)))).

Fixpoint writeChanges (r : repository) (changes : list treeChange) : reading string :=
  match changes with
  | [] => Some (inr "")
  | c :: changes =>
      let old := mkSide (optionalString (tc_oldPath c)) (tc_oldMode c) (tc_oldID c) in
      let new := mkSide (optionalString (tc_newPath c)) (tc_newMode c) (tc_newID c) in
      bindR (writeObjectDiff r old new) (λ text, bindR (writeChanges r changes) (λ rest, Some (inr (text +:+ rest))))
  end.

Definition writeTreeDiff (fuel : nat) (r : repository) (oldTree newTree : option objectID) : reading string :=
  bindR (treeChanges inflate (r_store r) searchFuel fuel oldTree newTree) (writeChanges r).

Definition diffCommits (fuel : nat) (r : repository) (sha1 sha2 : string) : reading string :=
  full1 ← resolveSHA inflate searchFuel fuel r sha1;
  full2 ← resolveSHA inflate searchFuel fuel r sha2;
  match full1, full2 with
  | Some full1, Some full2 =>
      bindR (commitTree inflate searchFuel r full1) (λ tree1, bindR (commitTree inflate searchFuel r full2) (λ tree2,
        bindR (writeTreeDiff fuel r (Some tree1) (Some tree2)) (λ patch, Some (inr (decodeUTF8Replace patch)))))
  | _, _ => Some (inr "")
  end.

Definition showCommitDiff (fuel : nat) (r : repository) (shortSHA : string) (maxEntries : Z) (messagePrefix : option string)
    : reading (option (CommitInfo * string)) :=
  bindR (log inflate localTime searchFuel fuel r maxEntries messagePrefix) (λ commits,
    match List.find (λ c, HasPrefix (info_SHA c) shortSHA) commits with
    | None => Some (inr None)
    | Some c =>
        full ← resolveSHA inflate searchFuel fuel r (info_SHA c);
        match full with
        | None => Some (inr None)
        | Some full =>
            bindR (readObject inflate searchFuel r full) (λ obj,
              match parseCommit (ro_data obj) with
              | inl e => Some (inl e)
              | inr commit =>
                  match c_parents commit with
                  | [] => Some (inr (Some (c, "")))
                  | p :: _ => bindR (diffCommits fuel r (short p) (info_SHA c)) (λ diff, Some (inr (Some (c, diff))))
                  end
              end)
        end
    end).

(** ** The summary of the working tree *)

(** [None] is a path that does not exist. *)
Context (wtRead : string → option (GitError + string)).

Definition workingTreeDiffMaxChars : nat := N.to_nat 6000.
Definition plural (n : Z) : string := if n =? 1 then "" else "s".
Definition countPrefixed (prefix but : string) (hunks : list string) : Z :=
  Z.of_nat (length (List.filter (λ l, HasPrefix l prefix && negb (HasPrefix l but)) hunks)).
Definition crlf (s : string) : string := ReplaceAll s (String (Zbyte 13) NL) NL.

(** What one path adds: summary lines, diff lines, insertions and deletions. *)
Record pathSummary := mkPath { ps_lines : list string; ps_diff : list string; ps_added : Z; ps_removed : Z }.

Definition summarizeText (path headText wtText : string) : option (option pathSummary) :=
  if String.eqb (crlf headText) (crlf wtText) then Some None else
  hunks ← unifiedDiff (splitLinesStr headText) (splitLinesStr wtText) path path 3 "";
  let added := countPrefixed "+" "+++" hunks in
  let removed := countPrefixed "-" "---" hunks in
  Some (Some (mkPath [path +:+ ": +" +:+ Itoa added +:+ " -" +:+ Itoa removed] hunks added removed)).

Definition summarizePath (r : repository) (headTree : option objectID) (workspace path : string) : reading (option pathSummary) :=
  bindR (match headTree with None => Some (inr None) | Some t => readBlobFromTree inflate searchFuel r t path end) (λ headText,
    match wtRead (pythonPathJoin workspace path) with
    | Some (inl e) => Some (inl e)
    | Some (inr data) =>
        if negb (Valid data) then Some (inr (Some (mkPath [path +:+ ": binary or non-UTF-8 file changed"] [] 0 0))) else
        s ← summarizeText path (default "" headText) data; Some (inr s)
    | None => s ← summarizeText path (default "" headText) ""; Some (inr s)
    end).

Fixpoint summarizePaths (r : repository) (headTree : option objectID) (workspace : string) (paths : list string) : reading (list pathSummary) :=
  match paths with
  | [] => Some (inr [])
  | path :: paths =>
      bindR (summarizePath r headTree workspace path) (λ s,
        bindR (summarizePaths r headTree workspace paths) (λ rest, Some (inr (match s with Some s => s :: rest | None => rest end))))
  end.

Definition truncateDiff (diffText : string) : string :=
  if (workingTreeDiffMaxChars <? slen diffText)%nat then stake workingTreeDiffMaxChars diffText +:+ NL +:+ "...[diff truncated]" else diffText.

Definition summaryText (changed : list pathSummary) : string :=
  match changed with
  | [] => ""
  | _ =>
      let diffLines := concat (map ps_diff changed) in
      let n := Z.of_nat (length changed) in
      let added := foldr Z.add 0 (map ps_added changed) in
      let removed := foldr Z.add 0 (map ps_removed changed) in
      Join (concat (map ps_lines changed)) NL
      +:+ NL +:+ Itoa n +:+ " file" +:+ plural n +:+ " changed, " +:+ Itoa added +:+ " insertion" +:+ plural added +:+ "(+), "
      +:+ Itoa removed +:+ " deletion" +:+ plural removed +:+ "(-)"
      +:+ (match diffLines with [] => "" | _ => NL +:+ NL +:+ "```diff" +:+ NL +:+ truncateDiff (Join diffLines NL) +:+ NL +:+ "```" end)
  end.

Definition summarize (r : repository) (workspace : string) (paths : list string) : reading string :=
  bindR (headTree inflate searchFuel r) (λ t, bindR (summarizePaths r t workspace paths) (λ changed, Some (inr (summaryText changed)))).
End Diffs.

Definition Format (c : CommitInfo) (diff : string) : string :=
  let header := "## " +:+ Subject c +:+ NL +:+ "`" +:+ info_SHA c +:+ "` " +:+ of_bytes (EncodeRune 0x2014) +:+ " " +:+ info_Timestamp c +:+ NL in
  if String.eqb diff "" then header +:+ NL +:+ "(no file changes)" else header +:+ NL +:+ "```diff" +:+ NL +:+ diff +:+ NL +:+ "```".

(** ** The summary is empty exactly when nothing changed *)

Section Summary.
Context (inflate : string → option string) (searchFuel : nat) (wtRead : string → option (GitError + string)).

(** The text at HEAD and the text of the working tree; a file that is missing is empty. *)
Definition headTextIs (r : repository) (t : option objectID) (path h : string) : Prop :=
  match t with
  | None => h = ""
  | Some t => ∃ o, readBlobFromTree inflate searchFuel r t path = Some (inr o) ∧ h = default "" o
  end.
Definition wtTextIs (workspace path w : string) : Prop :=
  match wtRead (pythonPathJoin workspace path) with
  | None => w = ""
  | Some (inl _) => False
  | Some (inr data) => Valid data = true ∧ w = data
  end.
Definition unchanged (r : repository) (t : option objectID) (workspace path : string) : Prop :=
  ∃ h w, headTextIs r t path h ∧ wtTextIs workspace path w ∧ crlf h = crlf w.

Lemma summarizeText_none path h w s : summarizeText path h w = Some s → s = None ↔ crlf h = crlf w.
Proof.
  unfold summarizeText. destruct (String.eqb_spec (crlf h) (crlf w)) as [E|E]; [by intros [= <-]|]. intros (hunks & _ & [= <-])%bind_Some. split; [done|]. intros. done.
Qed.

Lemma summarizePath_none r t workspace path s :
  summarizePath inflate searchFuel wtRead r t workspace path = Some (inr s) → s = None ↔ unchanged r t workspace path.
Proof.
  unfold summarizePath. set (m := match t with None => _ | Some _ => _ end). destruct m as [[e|o]|] eqn:Em; [done| |done]. cbn [bindR].
  assert (Hh : ∀ h, headTextIs r t path h ↔ h = default "" o).
  { intros h. unfold m in Em. unfold headTextIs. destruct t; [|injection Em as <-; done]. split; [intros (o' & Ho & ->); congruence|eauto]. }
  unfold unchanged, wtTextIs. setoid_rewrite Hh. destruct (wtRead _) as [[e|data]|]; [done| |].
  - destruct (Valid data) eqn:Ev; cbn [negb]; [|intros [= <-]; split; [done|]; by intros (? & ? & _ & [? _] & _)].
    destruct (summarizeText _ _ _) as [s'|] eqn:Es; [|done]. intros [= ->]. rewrite (summarizeText_none _ _ _ _ Es). naive_solver.
  - destruct (summarizeText _ _ _) as [s'|] eqn:Es; [|done]. intros [= ->]. rewrite (summarizeText_none _ _ _ _ Es). naive_solver.
Qed.

Lemma summarizePaths_none r t workspace paths l :
  summarizePaths inflate searchFuel wtRead r t workspace paths = Some (inr l) → l = [] ↔ ∀ path, path ∈ paths → unchanged r t workspace path.
Proof.
  revert l. induction paths as [|path paths IH]; intros l; cbn [summarizePaths].
  { intros [= <-]. split; [by intros _ p ?%elem_of_nil|done]. }
  destruct (summarizePath _ _ _ _ _ _ _) as [[e|s]|] eqn:Es; [done| |done]. cbn [bindR]. destruct (summarizePaths _ _ _ _ _ _ paths) as [[e|rest]|] eqn:Er; [done| |done].
  intros [= <-]. apply summarizePath_none in Es. specialize (IH rest eq_refl). setoid_rewrite elem_of_cons. destruct s as [s|]; [|naive_solver].
  split; [done|]. intros Hall. assert (Hn : Some s = None) by (apply Es, Hall; by left). done.
Qed.

Lemma summaryText_empty l : summaryText l = "" ↔ l = [].
Proof.
  destruct l as [|p l]; [done|]. split; [|done]. unfold summaryText. intros He. apply (f_equal slen) in He. rewrite !slen_app in He. cbn in He. lia.
Qed.

(** The summary of the working tree is empty exactly when nothing changed: when
    [summarize] returns a text, the text is empty if and only if every path has, at HEAD
    and in the working tree, the same text up to CRLF line ends, and is UTF-8 in the
    working tree; a file that is missing counts as empty. *)
Theorem summary_empty_exact r workspace paths text :
  summarize inflate searchFuel wtRead r workspace paths = Some (inr text) →
  ∃ t, headTree inflate searchFuel r = Some (inr t) ∧ (text = "" ↔ ∀ path, path ∈ paths → unchanged r t workspace path).
Proof.
  unfold summarize. destruct (headTree inflate searchFuel r) as [[e|t]|]; [done| |done]. cbn [bindR].
  destruct (summarizePaths _ _ _ _ _ _ _) as [[e|l]|] eqn:El; [done| |done]. intros [= <-]. exists t. split; [done|].
  rewrite summaryText_empty. by apply summarizePaths_none.
Qed.
End Summary.

(** ** After a commit there is nothing to report *)

Section AfterCommit.
Context (sha1 : string → string) (inflate : string → option string) (deflate : string → string).
Context (walk : gitIndex → list (string * indexEntry)) (searchFuel : nat) (statOf : string → statInfo) (objs : list (string * string)).
Hypothesis inflate_deflate : ∀ d rest, inflate (deflate d +:+ rest) = Some d.
Hypothesis sha1_size : ∀ s, slen (sha1 s) = 20%nat.
Hypothesis walk_perm : ∀ idx, walk idx ≡ₚ map_to_list idx.
Hypothesis objs_distinct : hash_distinct sha1 objs.

(** The files are text and still what was staged. *)
Definition still_staged (wtRead : string → option (GitError + string)) (r : repository) (wt : workTree) (rels paths : list string) : Prop :=
  ∀ rel, rel ∈ paths → rel ∈ rels ∧ pythonPathParts rel = Split rel slash
    ∧ ∃ content mode, worktreeFile r wt rel = Some (content, mode) ∧ Valid content = true ∧ wtRead (pythonPathJoin (r_worktree r) rel) = Some (inr content).

(** Nothing is reported after a commit.  Files of UTF-8 text that are staged and
    committed, and not changed since, give an empty summary of the working tree. *)
Theorem summary_after_commit wtRead wt rels paths message ident ts tz idx r r1 r2 id :
  wf_ident ident → 0 ≤ ts < 2 ^ 63 → known sha1 deflate objs r → blobs_known objs r wt rels → loadIndex r = inr idx →
  let idx1 := recorded <$> stagedIndex sha1 statOf r wt rels idx in
  wf_writable (stagedIndex sha1 statOf r wt rels idx) → prefix_free idx1 →
  stage sha1 deflate statOf wt rels r = Some (r1, inr tt) → committable sha1 deflate walk objs r1 idx1 ident ts tz message →
  commit sha1 deflate walk message ident ts tz r1 = Some (r2, inr id) → still_staged wtRead r wt rels paths →
  summarize inflate (S searchFuel) wtRead r2 (r_worktree r) paths = Some (inr "").
Proof.
  intros Hi Ht Hk Hb Hidx idx1 Hw Hpf Hst Hc Hr Hstill. unfold summarize.
  pose proof (headTree_committed sha1 inflate deflate walk searchFuel inflate_deflate sha1_size objs objs_distinct _ _ _ _ _ _ _ _ Hi Ht Hc Hr) as Hhead. rewrite Hhead. cbn [bindR].
  assert (Hpath : ∀ rel, rel ∈ paths → summarizePath inflate (S searchFuel) wtRead r2 (Some (treeOf sha1 walk idx1)) (r_worktree r) rel = Some (inr None)).
  { intros rel Hin. destruct (Hstill rel Hin) as (Hrel & Hparts & content & mode & Hwf & Hv & Hwt).
    destruct (staged_read_back sha1 inflate deflate walk searchFuel inflate_deflate sha1_size walk_perm objs objs_distinct statOf wt rels message ident ts tz idx r r1 r2 id rel
      Hi Ht Hk Hb Hidx Hw Hpf Hst Hc Hr Hrel Hparts) as (_ & tree & Htree & Hread).
    rewrite Hhead in Htree. injection Htree as <-. rewrite Hwf in Hread. unfold summarizePath. rewrite Hread, Hwt, Hv. cbn [bindR negb default from_option].
    rewrite (proj2 (proj2 (decodeUTF8Replace_spec content)) Hv). unfold summarizeText. by rewrite String.eqb_refl. }
  assert (Hall : summarizePaths inflate (S searchFuel) wtRead r2 (Some (treeOf sha1 walk idx1)) (r_worktree r) paths = Some (inr [])); [|by rewrite Hall].
  clear -Hpath. induction paths as [|rel paths IH]; [done|]. cbn [summarizePaths]. rewrite Hpath by (by left). cbn [bindR]. rewrite IH; [done|]. intros q Hq. apply Hpath. by right.
Qed.
End AfterCommit.

(** ** What the texts get wrong *)

(** The cap on the diff counts bytes: valid text is cut inside a character. *)
Theorem truncated_diff_invalid :
  let diffText := of_bytes (replicate (N.to_nat 5999) 97 ++ [0xC3; 0xA9]) in Valid diffText = true ∧ Valid (truncateDiff diffText) = false.
Proof. by vm_compute. Qed.

(** A last line without a line feed that is context gets no marker and no line feed: what
    follows in the patch is on the same line. *)
Theorem context_line_glued :
  writeUnifiedDiff ["a" +:+ NL; "b"] ["x" +:+ NL; "b"] "a/f" "b/f"
  = Some ("--- a/f" +:+ NL +:+ "+++ b/f" +:+ NL +:+ "@@ -1,2 +1,2 @@" +:+ NL +:+ "-a" +:+ NL +:+ "+x" +:+ NL +:+ " b").
Proof. by vm_compute. Qed.

(** A file that is not UTF-8 is reported as changed even when it is what HEAD has. *)
Theorem binary_always_changed inflate searchFuel wtRead r tree workspace path data :
  readBlobFromTree inflate searchFuel r tree path = Some (inr (Some (decodeUTF8Replace data))) →
  wtRead (pythonPathJoin workspace path) = Some (inr data) → Valid data = false →
  summarizePath inflate searchFuel wtRead r (Some tree) workspace path = Some (inr (Some (mkPath [path +:+ ": binary or non-UTF-8 file changed"] [] 0 0))).
Proof. intros Hr Hw Hv. unfold summarizePath. by rewrite Hr, Hw, Hv. Qed.

(** ** Witnesses *)

Definition demoRead (path : string) : option (GitError + string) := match demoWt !! path with Some (WtFile c _) => Some (inr c) | _ => None end.
Definition demoTracked : list string := ["SOUL.md"; "memory/MEMORY.md"].

(** A path that is gone, a file that has changed and one that has not. *)
Lemma summary_empty_exact_witness :
  summarize unmarkBytes 1 (λ path, if String.eqb path "/ws/SOUL.md" then Some (inr "warm") else None) demoRepo2 "/ws" ["SOUL.md"] ≠ Some (inr "").
Proof.
  intros H. destruct (summary_empty_exact _ _ _ _ _ _ _ H) as (t & Ht & Hiff). destruct (proj1 Hiff eq_refl "SOUL.md" ltac:(by left)) as (h & w & Hh & [_ ->] & Hc).
  vm_compute in Ht. injection Ht as <-. destruct Hh as (o & Ho & ->). vm_compute in Ho. injection Ho as <-. vm_compute in Hc. done.
Defined.

Lemma demo_still_staged : still_staged demoRead demoRepo demoWt demoRels demoTracked.
Proof.
  intros rel Hin. unfold demoTracked in Hin. rewrite !elem_of_cons, elem_of_nil in Hin.
  destruct Hin as [->|[->|[]]]; (split; [first [by left|right; by left]|split; [done|do 2 eexists; split_and!; [by vm_compute|done|by vm_compute]]]).
Qed.

Lemma summary_after_commit_witness : summarize unmarkBytes 1 demoRead demoRepo2 "/ws" demoTracked = Some (inr "").
Proof.
  exact (summary_after_commit toySum unmarkBytes markBytes demoWalk 0 demoStat demoObjs unmark_mark toySum_size demoWalk_perm demoObjs_distinct demoRead demoWt demoRels demoTracked
    "first" demoIdent 1000 0 ∅ demoRepo demoRepo1 demoRepo2 demoID demo_ident demo_time demo_known demo_blobs eq_refl demo_writable demo_prefix_free demo_stage demo_committable demo_commit
    demo_still_staged).
Defined.
