(* ===== verification/SessionText.v ===== *)
(** * Values and texts of a stored message

    What the session replay reads off a message record: Python's truth and [str] of a
    JSON text (src/internal/session/pyvalue.go, src/internal/pyjson), the visibility
    markers (history_visibility.go), the runtime context that is taken out again
    (src/internal/runtimecontext), media breadcrumbs (src/internal/textutil/media.go)
    and the cleaning of assistant texts (history.go).

    A decoded [any] is a [json] whose objects have one entry per key in sorted order,
    as a Go map has one value per key. *)

From Stdlib Require Import Ascii.
From S2P Require Import Prelude GoText GoLib PyFloat GoFmt Core GoJson PyJson Governance Response Provider.
#[local] Open Scope string_scope.
#[local] Open Scope list_scope.
#[local] Open Scope Z_scope.

(** ** Decoded values *)

Definition sortFields {A} (m : gmap string A) : list (string * A) := sort_by (λ a b, String.leb a.1 b.1) (map_to_list m).

(** The Go value of a JSON value: a map keeps the last value of a key. *)
Fixpoint goAny (v : json) : json :=
  match v with
  | JArr items => JArr (map goAny items)
  | JObj fields => JObj (sortFields (list_to_map (rev (map (λ '(k, v), (k, goAny v)) fields)) : gmap string json))
  | _ => v
  end.

(** [v[key]] of a map. *)
Fixpoint member (fields : list (string * json)) (key : string) : option json :=
  match fields with [] => None | (k, v) :: fields => if String.eqb k key then Some v else member fields key end.

(** nil for an absent or unreadable text. *)
Definition decodeJSONValue (raw : RawJSON) : json :=
  if String.eqb (TrimSpace raw) "" then JNull else
  match decode raw with Some (v, _) => goAny v | None => JNull end.

(** ** Truth and [str] (pyvalue.go) *)

Definition firstByte (s : string) : Z := match s with String c _ => byteZ c | "" => 0 end.

Definition isZero (f : float64) : bool := match f with Fin _ m => m =? 0 | _ => false end.

Definition jsonNumberFloat (raw : RawJSON) : option float64 :=
  if json_Valid raw then unmarshalNumber raw ≫= Float64 else None.

Definition pyTruthy (raw : RawJSON) : bool :=
  let trimmed := TrimSpace raw in
  if String.eqb trimmed "" then false else
  let b := firstByte trimmed in
  if b =? 110 then false
  else if b =? 116 then true
  else if b =? 102 then false
  else if b =? 34 then match unmarshalString trimmed with None => true | Some s => negb (String.eqb s "") end
  else if b =? 91 then match arrayItems trimmed with None => true | Some items => negb (Nat.eqb (length items) 0) end
  else if b =? 123 then match objectFields trimmed with None => true | Some fields => negb (Nat.eqb (length fields) 0) end
  else match jsonNumberFloat trimmed with None => true | Some f => negb (isZero f) end.

(** [strconv.FormatFloat(f, 'f', -1, 64)] for a nonzero magnitude. *)
Definition FormatF (mag : Z) : string :=
  let '(ds, exp) := sci_parts mag in
  let decpt := exp + 1 in
  let len := Z.of_nat (slen ds) in
  if decpt <=? 0 then "0." +:+ zeros (Z.to_nat (- decpt)) +:+ ds
  else if len <=? decpt then ds +:+ zeros (Z.to_nat (decpt - len))
  else stake (Z.to_nat decpt) ds +:+ "." +:+ sdrop (Z.to_nat decpt) ds.

(** [pyjson.FormatFloat]. *)
Definition FormatFloat (f : float64) : string :=
  match f with
  | NaN => "NaN"
  | Inf neg => if neg then "-Infinity" else "Infinity"
  | Fin neg mag =>
      let sign := if neg : bool then "-" else "" in
      let sci := sign +:+ (if mag =? 0 then "0e+00" else FormatE mag) in
      let exp := match cutByte sci "e" with Some (_, e) => default 0 (Atoi e) | None => 0 end in
      if (exp <? -4) || (16 <=? exp) then sci else
      let plain := sign +:+ (if mag =? 0 then "0" else FormatF mag) in
      if Contains plain "." then plain else plain +:+ ".0"
  end.

Definition pyNumberString (raw : RawJSON) : string :=
  if is_float_literal raw then match jsonNumberFloat raw with Some f => FormatFloat f | None => raw end else raw.

Section Text.
Context `{PrintTable} `{CaseTable}.

Definition pyIsPrintable (r : Z) : bool :=
  if r =? 32 then true else if r <? 0x80 then (0x20 <=? r) && negb (r =? 0x7f) else IsPrint r.

Definition reprChar (quote r : Z) : string :=
  if (r =? quote) || (r =? 92) then String backslash (of_runes [r])
  else if r =? 9 then String backslash "t"
  else if r =? 10 then String backslash "n"
  else if r =? 13 then String backslash "r"
  else if (r <? 0x20) || (r =? 0x7f) then String backslash (String "x" (hex 2 r))
  else if r <? 0x7f then of_runes [r]
  else if negb (pyIsPrintable r) then
    (if r <=? 0xff then String backslash (String "x" (hex 2 r))
     else if r <=? 0xffff then String backslash (String "u" (hex 4 r))
     else String backslash (String "U" (hex 8 r)))
  else of_runes [r].

Definition pyReprString (s : string) : string :=
  let rs := runes s in
  let quote := if existsb (Z.eqb 39) rs && negb (existsb (Z.eqb 34) rs) then 34 else 39 in
  of_runes [quote] +:+ foldr (λ r t, reprChar quote r +:+ t) "" rs +:+ of_runes [quote].

(** A container's members are shorter than the container, so the length is enough. *)
Fixpoint pyStr_fuel (fuel : nat) (raw : RawJSON) : string :=
  let trimmed := TrimSpace raw in
  match fuel with
  | O => trimmed
  | S fuel =>
      let pyRepr raw :=
        let t := TrimSpace raw in
        match (if firstByte t =? 34 then unmarshalString t else None) with Some s => pyReprString s | None => pyStr_fuel fuel t end in
      let b := firstByte trimmed in
      if String.eqb trimmed "" then "None"
      else if b =? 110 then "None"
      else if b =? 116 then "True"
      else if b =? 102 then "False"
      else if b =? 34 then match unmarshalString trimmed with None => trimmed | Some s => s end
      else if b =? 91 then match arrayItems trimmed with None => trimmed | Some items => "[" +:+ Join (map pyRepr items) ", " +:+ "]" end
      else if b =? 123 then
        match objectFields trimmed with
        | None => trimmed
        | Some fields => "{" +:+ Join (map (λ kv, pyReprString kv.1 +:+ ": " +:+ pyRepr kv.2) fields) ", " +:+ "}"
        end
      else pyNumberString trimmed
  end.
Definition pyStr (raw : RawJSON) : string := pyStr_fuel (S (slen raw)) raw.

(** [str(value or default)] *)
Definition pyStrOr (raw : RawJSON) (def : string) : string :=
  if String.eqb (TrimSpace raw) "" || negb (pyTruthy raw) then def else pyStr raw.

(** ** CLI-app breadcrumbs (history.go) *)

Definition cliAppsBreadcrumbLimit : nat := 8.

Definition cliAppLine (item : RawJSON) : option string :=
  fields ← objectFields item;
  let name := ToLower (PyStrip (pyStrOr (default "" (fieldValue fields "name")) "")) in
  if String.eqb name "" then None else
  let entryPoint := PyStrip (pyStrOr (default "" (fieldValue fields "entry_point")) "unknown") in
  let entryPoint := if String.eqb entryPoint "" then "unknown" else entryPoint in
  Some ("[CLI App Attachment: @" +:+ name +:+ "; tool=run_cli_app; entry_point=" +:+ entryPoint +:+ "; skill=skills/cli-app-" +:+ name +:+ "/SKILL.md]").

Definition appendCLIAppBreadcrumbs (content : json) (cliApps : RawJSON) : json :=
  match content with
  | JStr text =>
      match arrayItems cliApps with
      | None | Some [] => content
      | Some items =>
          match omap cliAppLine (take cliAppsBreadcrumbLimit items) with
          | [] => content
          | lines =>
              let breadcrumbs := Join lines newline in
              if String.eqb text "" then JStr breadcrumbs else JStr (text +:+ newline +:+ breadcrumbs)
          end
      end
  | _ => content
  end.
End Text.

(** ** Visibility markers (history_visibility.go) *)

Definition HiddenHistoryMeta : string := "_hidden_history".
Definition AutomationHistoryMeta : string := "_automation_turn".
Definition CronHistoryMeta : string := "_cron_turn".
Definition ChannelDeliveryMeta : string := "_channel_delivery".

Definition markerIsTrueOrMapping (m : Message) (key : string) : bool :=
  match Extra m key with
  | None => false
  | Some raw => let trimmed := TrimSpace raw in (firstByte trimmed =? 123) || String.eqb trimmed "true"
  end.
Definition markerIsTrue (m : Message) (key : string) : bool :=
  match Extra m key with None => false | Some raw => String.eqb (TrimSpace raw) "true" end.
Definition markerTruthy (m : Message) (key : string) : bool :=
  match Extra m key with None => false | Some raw => pyTruthy raw end.

Definition hasHiddenHistoryMarker (m : Message) : bool := markerIsTrueOrMapping m HiddenHistoryMeta.
Definition isAutomationHistoryMessage (m : Message) : bool := markerIsTrueOrMapping m AutomationHistoryMeta || markerIsTrue m CronHistoryMeta.
Definition IsHiddenHistoryMessage (m : Message) : bool := hasHiddenHistoryMarker m || isAutomationHistoryMessage m.

(** ** The runtime context (runtimecontext.go) *)

Definition HistoryMeta : string := "_runtime_context".

Definition feq (x y : float64) : bool := negb (flt x y) && negb (flt y x).

(** [asPyNumber]: booleans are numbers. *)
Definition asPyNumber (v : json) : option float64 :=
  match v with JBool b => Some (of_int (if b then 1 else 0)) | JNum lit => Float64 lit | _ => None end.

Definition isMarkerVersion (v : option json) : bool :=
  match v with
  | Some (JBool b) => b
  | Some (JNum lit) => match Float64 lit with Some f => feq f (of_int 1) | None => false end
  | _ => false
  end.

Fixpoint jsonValueEqual (a b : json) : bool :=
  match asPyNumber a with
  | Some af => match asPyNumber b with Some bf => feq af bf | None => false end
  | None =>
      match a, b with
      | JNull, JNull => true
      | JStr s, JStr t => String.eqb s t
      | JArr l, JArr k =>
          (fix items (l k : list json) : bool :=
             match l, k with [], [] => true | x :: l, y :: k => jsonValueEqual x y && items l k | _, _ => false end) l k
      | JObj l, JObj k =>
          Nat.eqb (length l) (length k)
          && forallb (λ kv, match member k kv.1 with Some other => jsonValueEqual kv.2 other | None => false end) l
      | _, _ => false
      end
  end.

Definition HasSuffix (s suffix : string) : bool :=
  (slen suffix <=? slen s)%nat && String.eqb (sdrop (slen s - slen suffix) s) suffix.

(** The content of the user-visible copy of a message; the marker itself is dropped. *)
Definition publicContent (content marker : json) : json :=
  match marker with
  | JObj markerData =>
      if negb (isMarkerVersion (member markerData "version")) then content else
      let blocksBranch :=
        match member markerData "blocks", content with
        | Some (JArr expected), JArr blocks =>
            if Nat.eqb (length expected) 0 || (length blocks <? length expected)%nat then content else
            let n := (length blocks - length expected)%nat in
            if jsonValueEqual (JArr (drop n blocks)) (JArr expected) then JArr (take n blocks) else content
        | _, _ => content
        end in
      match content, member markerData "suffix" with
      | JStr text, Some (JStr suffix) =>
          if String.eqb suffix "" then blocksBranch else
          if String.eqb text suffix then JStr ""
          else if HasSuffix text (newline +:+ newline +:+ suffix) then JStr (stake (slen text - (slen suffix + 2)) text) else content
      | _, _ => blocksBranch
      end
  | _ => content
  end.

(** [PublicHistoryMessage]: a nil map entry is an absent one. *)
Definition PublicHistoryMessage (message : gmap string json) : gmap string json :=
  let cleaned := delete HistoryMeta message in
  let content := default JNull (cleaned !! "content") in
  let content' := publicContent content (default JNull (message !! HistoryMeta)) in
  if bool_decide (is_Some (cleaned !! "content")) then <["content" := content']> cleaned else cleaned.

Definition PublicHistoryMessages (messages : list (gmap string json)) : list (gmap string json) := map PublicHistoryMessage messages.

(** ** Media breadcrumbs (media.go) *)

Definition ImagePlaceholderText (path : string) : string := if String.eqb path "" then "[image]" else "[image: " +:+ path +:+ "]".

Definition jstring (v : json) : option string := match v with JStr s => Some s | _ => None end.

(** The paths that are shown, one to a line. *)
Definition breadcrumbs (paths : list string) : string :=
  Join (map ImagePlaceholderText (List.filter (λ p, negb (String.eqb p "")) paths)) newline.

Definition ContentWithMediaBreadcrumbs (role : string) (content media : json) : json :=
  match content, media with
  | JStr text, JArr list =>
      if negb (String.eqb role "user") then content else
      let b := breadcrumbs (omap jstring list) in
      if String.eqb b "" then content else if String.eqb text "" then JStr b else JStr (text +:+ newline +:+ b)
  | _, _ => content
  end.

(** ** Assistant texts (history.go) *)

Definition messageTimePrefix : string := "[Message Time: ".
Definition localImageBreadcrumbPrefix : string := "[image: ".
Definition toolCallEchoNames : list string := ["generate_image"; "message"].

(** An index that is absent or 0 leaves the text alone: the brackets hold a character. *)
Definition stripMessageTimePrefix (s : string) : string :=
  if negb (HasPrefix s messageTimePrefix) then s else
  match cutByte (sdrop (slen messageTimePrefix) s) "]" with
  | None | Some ("", _) => s
  | Some (_, rest) => match rest with String c t => if byteZ c =? 10 then t else rest | "" => "" end
  end.

(** [pyAllSpace] *)
Definition pyAllSpace (s : string) : bool := forallb PyIsSpace (runes s).

Definition matchLocalImageBreadcrumb (line : string) : bool :=
  if negb (HasPrefix line localImageBreadcrumbPrefix) then false else
  match sdrop (slen localImageBreadcrumbPrefix) line with
  | "" => false
  | String c body =>
      if negb (byteZ c =? 47) && negb (byteZ c =? 126) then false else
      match cutByte body "]" with
      | None | Some ("", _) => false
      | Some (_, rest) => pyAllSpace rest
      end
  end.

Definition echoBody (rest : string) : option string :=
  (fix names (l : list string) : option string :=
     match l with [] => None | name :: l => if HasPrefix rest (name +:+ "(") then Some (sdrop (S (slen name)) rest) else names l end) toolCallEchoNames.

Definition matchToolCallEcho (line : string) : bool :=
  match echoBody (PyLStrip line) ≫= λ body, cutByte body ")" with
  | None => false
  | Some (_, rest) => pyAllSpace rest
  end.

Definition isPyLineBoundary (r : Z) : bool :=
  existsb (Z.eqb r) [10; 13; 11; 12; 0x1c; 0x1d; 0x1e; 0x85; 0x2028; 0x2029].

(** [cur] is the line read so far. *)
Fixpoint pySplitLines_loop (fuel : nat) (s cur : string) : list string :=
  match fuel, s with
  | O, _ | _, "" => if String.eqb cur "" then [] else [cur]
  | S fuel, _ =>
      let '(r, size) := DecodeRune s in
      let rest := sdrop size s in
      if negb (isPyLineBoundary r) then pySplitLines_loop fuel rest (cur +:+ stake size s) else
      let rest := match rest with String c t => if (r =? 13) && (byteZ c =? 10) then t else rest | "" => "" end in
      cur :: pySplitLines_loop fuel rest ""
  end.
Definition pySplitLines (s : string) : list string := pySplitLines_loop (slen s) s "".

Definition sanitizeAssistantReplayText (content : string) : string :=
  let lines := pySplitLines (stripMessageTimePrefix content) in
  PyStrip (Join (List.filter (λ line, negb (matchLocalImageBreadcrumb line || matchToolCallEcho line)) lines) newline).

Example sanitize_1 :
  sanitizeAssistantReplayText ("[Message Time: 10:00]" +:+ newline +:+ "Here it is." +:+ newline +:+ "[image: /tmp/a.png] " +:+ newline +:+ "  message(hi)" +:+ newline +:+ "Bye [image: /x]")
  = "Here it is." +:+ newline +:+ "Bye [image: /x]".
Proof. vm_compute. reflexivity. Qed.
