(* ===== verification/Session.v ===== *)
(** * Sessions and their replay (src/internal/session/session.go, summary.go, history.go)

    A session is a transcript with, for each message, the record it was read from and
    the value parsed from it.  [GetHistory] makes of it what is sent to a model:
    the messages after the archived ones, from the start of a turn, without command
    echoes, each rebuilt from its record.  Local wall-clock formatting is a parameter;
    the tokenizer comes through its class. *)

From Stdlib Require Import Ascii.
From S2P Require Import Prelude GoText GoLib PyFloat GoFmt Core GoJson PyJson Governance Response Provider SessionText.
#[local] Open Scope string_scope.
#[local] Open Scope list_scope.
#[local] Open Scope Z_scope.

(** ** Go's encoding of a decoded value ([json.Marshal]) *)

Definition goChar (r : Z) (text : string) : string :=
  if r =? 34 then String backslash (String (Zbyte 34) "")
  else if r =? 92 then String backslash (String backslash "")
  else if r =? 8 then String backslash "b"
  else if r =? 12 then String backslash "f"
  else if r =? 10 then String backslash "n"
  else if r =? 13 then String backslash "r"
  else if r =? 9 then String backslash "t"
  else if (r <? 0x20) || existsb (Z.eqb r) [60; 62; 38; 0x2028; 0x2029] then String backslash (String "u" (hex 4 r))
  else text.

Fixpoint goChars (fuel : nat) (s : string) : string :=
  match fuel, s with
  | O, _ | _, "" => ""
  | S fuel, _ =>
      let '(r, size) := DecodeRune s in
      (if (r =? RuneError) && (size =? 1)%nat then String backslash "ufffd" else goChar r (stake size s)) +:+ goChars fuel (sdrop size s)
  end.
Definition goString (s : string) : string := String (Zbyte 34) (goChars (slen s) s +:+ String (Zbyte 34) "").

Fixpoint goText (v : json) : string :=
  match v with
  | JNull => "null"
  | JBool b => if b then "true" else "false"
  | JNum lit => lit
  | JStr s => goString s
  | JArr items => "[" +:+ Join (map goText items) "," +:+ "]"
  | JObj fields => "{" +:+ Join (map (λ '(k, v), goString k +:+ ":" +:+ goText v) fields) "," +:+ "}"
  end.

(** ** Contents *)

(** The value of a raw member; a nil message is written as null. *)
Definition rawAny (raw : RawJSON) : option json :=
  if String.eqb raw "" then Some JNull else if json_Valid raw then (λ v, goAny v.1) <$> decode raw else None.

Definition goStr (s : string) : json := JStr (of_runes (runes s)).

(** The members [ContentBlock.MarshalJSON] writes, by key. *)
Definition blockMembers (b : ContentBlock) : gmap string RawJSON :=
  let put key (present : bool) raw m := if present then <[key := raw]> m else m in
  match cb_Raw b with
  | None =>
      put "image_url" (negb (String.eqb (cb_ImageURL b) "")) (cb_ImageURL b)
        (put "text" (negb (String.eqb (cb_Text b) "")) (goString (cb_Text b)) {["type" := goString (cb_Type b)]})
  | Some raw =>
      put "image_url" (negb (String.eqb (cb_ImageURL b) "")) (cb_ImageURL b)
        (put "text" (negb (String.eqb (cb_Text b) "")) (goString (cb_Text b))
          (put "type" (negb (String.eqb (cb_Type b) "")) (goString (cb_Type b)) raw))
  end.

(** A block marshalled and decoded again. *)
Definition blockValue (b : ContentBlock) : option json :=
  vs ← mapM (λ kv, v ← rawAny kv.2; Some (kv.1, v)) (sortFields (blockMembers b));
  Some (JObj vs).

Definition blocksValue (blocks : list ContentBlock) : json :=
  match mapM blockValue blocks with Some vs => JArr vs | None => JNull end.

(** [ContentBlock.UnmarshalJSON] of a value that was marshalled. *)
Definition blockOf (item : json) : option ContentBlock :=
  match item with
  | JNull => Some {| cb_Type := ""; cb_Text := ""; cb_ImageURL := ""; cb_Raw := None |}
  | JObj fields =>
      let str key := match member fields key with Some (JStr s) => s | _ => "" end in
      Some {| cb_Type := str "type"; cb_Text := str "text";
              cb_ImageURL := match member fields "image_url" with Some v => goText v | None => "" end;
              cb_Raw := Some (list_to_map (map (λ '(k, v), (k, goText v)) fields)) |}
  | _ => None
  end.

Definition zeroContent : Content := {| c_Text := ""; c_Blocks := None; c_isText := false |}.

Definition toCoreContent (v : json) : Content :=
  match v with
  | JStr s => TextContent s
  | JArr items => match mapM blockOf items with Some blocks => BlockContent (Some blocks) | None => zeroContent end
  | _ => zeroContent
  end.

(** ** The view of the transcript *)

Record historyView := mkView { hv_messages : list Message; hv_rawLines : list (option string) }.

Definition CommandMeta : string := "_command".
Definition MediaMeta : string := "media".
Definition CLIAppsMeta : string := "cli_apps".

Definition recordFields (v : historyView) (i : nat) : option (list (string * RawJSON)) :=
  line ← hv_rawLines v !! i; raw ← (line : option string); objectFields raw.

Definition extraAt (v : historyView) (i : nat) (key : string) : option RawJSON :=
  match recordFields v i with
  | Some fields => fieldValue fields key
  | None => m ← hv_messages v !! i; Extra m key
  end.

Definition isSome {A} (o : option A) : bool := match o with Some _ => true | None => false end.

Definition messageKeyPresent (m : Message) (key : string) : bool :=
  if String.eqb key "role" || String.eqb key "content" then true
  else if String.eqb key "tool_calls" then isSome (m_ToolCalls m)
  else if String.eqb key "tool_call_id" then negb (String.eqb (m_ToolCallID m) "")
  else if String.eqb key "name" then negb (String.eqb (m_Name m) "")
  else if String.eqb key "reasoning_content" then negb (String.eqb (m_ReasoningContent m) "")
  else if String.eqb key "thinking_blocks" then isSome (m_ThinkingBlocks m)
  else isSome (Extra m key).

Definition keyPresent (v : historyView) (i : nat) (key : string) : bool :=
  match recordFields v i with
  | Some fields => isSome (fieldValue fields key)
  | None => match hv_messages v !! i with Some m => messageKeyPresent m key | None => false end
  end.

Definition contentValue (v : historyView) (i : nat) : json :=
  if negb (keyPresent v i "content") then JStr "" else
  match hv_messages v !! i with
  | None => JNull
  | Some m =>
      if IsZero (m_Content m) then JNull
      else if IsText (m_Content m) then JStr (c_Text (m_Content m))
      else blocksValue (default [] (c_Blocks (m_Content m)))
  end.

Definition viewMarkerTruthy (v : historyView) (i : nat) (key : string) : bool :=
  match extraAt v i key with None => false | Some raw => pyTruthy raw end.

(** ** Where the replay starts *)

Definition pySliceStart (i n : Z) : Z :=
  let i := if i <? 0 then Z.max 0 (i + n) else i in
  if n <? i then n else i.

(** The last user message before an index. *)
Fixpoint lastUserBefore (messages : list Message) (i : nat) : option nat :=
  match i with
  | O => None
  | S i => match messages !! i with
           | Some m => if isRole RoleUser m then Some i else lastUserBefore messages i
           | None => lastUserBefore messages i
           end
  end.

Definition recentMessageStartIndex (messages : list Message) (maxMessages : Z) (extendToUser : bool) : nat :=
  if maxMessages <=? 0 then length messages else
  let startIdx := (length messages - Z.to_nat maxMessages)%nat in
  if negb extendToUser || (Z.of_nat (length messages) <=? maxMessages) then startIdx else
  if existsb (isRole RoleUser) (drop startIdx messages) then startIdx else
  match lastUserBefore messages startIdx with
  | None => startIdx
  | Some recoveredUser =>
      match recoveredUser with
      | O => recoveredUser
      | S before => match messages !! before with
                    | Some m => if markerTruthy m ChannelDeliveryMeta then before else recoveredUser
                    | None => recoveredUser
                    end
      end
  end.

(** The loop that avoids starting in the middle of a turn; [i] runs from [lo]. *)
Fixpoint alignTurn (v : historyView) (lo i n : nat) : nat :=
  match n with
  | O => lo
  | S n =>
      match hv_messages v !! i with
      | Some m =>
          if negb (isRole RoleUser m) then alignTurn v lo (S i) n
          else if (lo <? i)%nat && viewMarkerTruthy v (i - 1) ChannelDeliveryMeta then (i - 1)%nat else i
      | None => alignTurn v lo (S i) n
      end
  end.

(** ** One message of the replay *)

Section Replay.
Context `{PrintTable} `{CaseTable}.

Definition isJSONObject (raw : RawJSON) : bool := isSome (objectFields raw).

(** The content that is replayed. *)
Definition replayContent (v : historyView) (i : nat) (m : Message) (includeRuntimeContext : bool) : json :=
  let marker := extraAt v i HistoryMeta in
  let hasPersistedRuntimeContext := match marker with Some raw => isJSONObject raw | None => false end in
  let content := contentValue v i in
  let content :=
    if includeRuntimeContext then content else
    let message : gmap string json := <["content" := content]> {[HistoryMeta := decodeJSONValue (default "" marker)]} in
    default JNull (PublicHistoryMessage message !! "content") in
  let content := match content with JStr text => if isRole RoleAssistant m then JStr (sanitizeAssistantReplayText text) else content | _ => content end in
  let content := ContentWithMediaBreadcrumbs (m_Role m) content (decodeJSONValue (default "" (extraAt v i MediaMeta))) in
  if includeRuntimeContext && negb hasPersistedRuntimeContext && isRole RoleUser m
  then appendCLIAppBreadcrumbs content (default "" (extraAt v i CLIAppsMeta)) else content.

(** An assistant message with nothing in it. *)
Definition emptyAssistant (v : historyView) (i : nat) (m : Message) (content : json) : bool :=
  isRole RoleAssistant m
  && match content with JStr text => String.eqb (PyStrip text) "" | _ => false end
  && negb (keyPresent v i "tool_calls") && negb (keyPresent v i "reasoning_content") && negb (keyPresent v i "thinking_blocks").

Definition replayMessage (v : historyView) (i : nat) (m : Message) (content : json) : Message :=
  let copy {A} key (value none : A) := if keyPresent v i key then value else none in
  mkMessage (m_Role m) (toCoreContent content) ""
    (copy "tool_calls" (m_ToolCalls m) None) (copy "tool_call_id" (m_ToolCallID m) "") (copy "name" (m_Name m) "")
    (copy "reasoning_content" (m_ReasoningContent m) "") (copy "thinking_blocks" (m_ThinkingBlocks m) None) [] ∅.

(** The entry of message [i], if it has one. *)
Definition replayEntry (v : historyView) (includeRuntimeContext : bool) (i : nat) : option Message :=
  m ← hv_messages v !! i;
  if viewMarkerTruthy v i CommandMeta then None else
  let content := replayContent v i m includeRuntimeContext in
  if emptyAssistant v i m content then None else Some (replayMessage v i m content).
End Replay.

(** ** The token budget *)

Section Trim.
Context {ToolSchema : Type} `{!Tokenizer ToolSchema}.

Definition trimHistoryToTokens (out : list Message) (maxTokens : Z) : list Message :=
  let kept := keepNewest maxTokens (rev out) [] 0 in
  let kept := match firstUserTail kept with
              | [] => match lastUserTail out with [] => kept | tail => tail end
              | tail => tail
              end in
  drop (FindLegalMessageStart kept) kept.
End Trim.

(** ** Sessions *)

(** [None] is an absent record line or state; times are instants in nanoseconds. *)
Record Session := mkSession {
  s_key : string;
  s_messages : list Message; s_snapshots : list Message; s_rawLines : list (option string);
  s_meta : gmap string json; s_metaOrder : list string; s_metaExtra : list (string * RawJSON);
  s_metaRaw : gmap string RawJSON; s_metaLoaded : gmap string json;
  s_createdAt : Z; s_createdStr : string; s_updatedAt : Z; s_updatedStr : string;
  s_lastArchived : Z;
  s_providerState : option RawJSON; s_providerLine : option string; s_providerSnap : option RawJSON;
  s_journalSize : Z }.

(** The transcript as [GetHistory] copies it. *)
Definition viewOf (s : Session) : historyView := mkView (s_messages s) (s_rawLines s).

Section History.
Context `{PrintTable} `{CaseTable} {ToolSchema : Type} `{!Tokenizer ToolSchema}.

(** Where the replay starts: after the archived messages, within the limit, at a turn,
    past results without their call. *)
Definition historyStart (v : historyView) (lastArchived maxMessages : Z) (extendToUser : bool) : nat :=
  let hi := length (hv_messages v) in
  let lo := Z.to_nat (pySliceStart lastArchived (Z.of_nat hi)) in
  let lo := if 0 <? maxMessages then (lo + recentMessageStartIndex (drop lo (hv_messages v)) maxMessages extendToUser)%nat else lo in
  let lo := alignTurn v lo lo (hi - lo) in
  (lo + FindLegalMessageStart (drop lo (hv_messages v)))%nat.

Definition replay (v : historyView) (includeRuntimeContext : bool) (lo : nat) : list Message :=
  omap (replayEntry v includeRuntimeContext) (seq lo (length (hv_messages v) - lo)).

Definition GetHistory (s : Session) (maxMessages maxTokens : Z) (extendToUser includeRuntimeContext : bool) : list Message :=
  let v := viewOf s in
  let out := replay v includeRuntimeContext (historyStart v (s_lastArchived s) maxMessages extendToUser) in
  if (0 <? maxTokens) && negb (Nat.eqb (length out) 0) then trimHistoryToTokens out maxTokens else out.
End History.

(** ** Changing a session *)

Section Operations.
(** [t.Format("2006-01-02T15:04:05")] in the local zone. *)
Context (localSeconds : Z → string).

(** [fmt.Sprintf("%06d", n)] for a natural number below a million. *)
Definition pad6 (n : Z) : string := zeros (6 - slen (Itoa n)) +:+ Itoa n.

Definition formatNaive (t : Z) : string :=
  let us := t mod 1000000000 / 1000 in
  if us =? 0 then localSeconds t else localSeconds t +:+ "." +:+ pad6 us.

Definition with_messages ms snaps raws (s : Session) : Session :=
  mkSession (s_key s) ms snaps raws (s_meta s) (s_metaOrder s) (s_metaExtra s) (s_metaRaw s) (s_metaLoaded s)
    (s_createdAt s) (s_createdStr s) (s_updatedAt s) (s_updatedStr s) (s_lastArchived s) (s_providerState s) (s_providerLine s) (s_providerSnap s) (s_journalSize s).
Definition with_meta meta order raw loaded (s : Session) : Session :=
  mkSession (s_key s) (s_messages s) (s_snapshots s) (s_rawLines s) meta order (s_metaExtra s) raw loaded
    (s_createdAt s) (s_createdStr s) (s_updatedAt s) (s_updatedStr s) (s_lastArchived s) (s_providerState s) (s_providerLine s) (s_providerSnap s) (s_journalSize s).
Definition with_updated now (s : Session) : Session :=
  mkSession (s_key s) (s_messages s) (s_snapshots s) (s_rawLines s) (s_meta s) (s_metaOrder s) (s_metaExtra s) (s_metaRaw s) (s_metaLoaded s)
    (s_createdAt s) (s_createdStr s) now (formatNaive now) (s_lastArchived s) (s_providerState s) (s_providerLine s) (s_providerSnap s) (s_journalSize s).
Definition with_provider state line snap (s : Session) : Session :=
  mkSession (s_key s) (s_messages s) (s_snapshots s) (s_rawLines s) (s_meta s) (s_metaOrder s) (s_metaExtra s) (s_metaRaw s) (s_metaLoaded s)
    (s_createdAt s) (s_createdStr s) (s_updatedAt s) (s_updatedStr s) (s_lastArchived s) state line snap (s_journalSize s).

Definition SetLastArchived (n : Z) (s : Session) : Session :=
  mkSession (s_key s) (s_messages s) (s_snapshots s) (s_rawLines s) (s_meta s) (s_metaOrder s) (s_metaExtra s) (s_metaRaw s) (s_metaLoaded s)
    (s_createdAt s) (s_createdStr s) (s_updatedAt s) (s_updatedStr s) n (s_providerState s) (s_providerLine s) (s_providerSnap s) (s_journalSize s).

Definition newSession (key : string) (now : Z) : Session :=
  mkSession key [] [] [] ∅ [] [] ∅ ∅ now (formatNaive now) now (formatNaive now) 0 None None None 0.

Definition zeroMessage : Message := mkMessage "" zeroContent "" None "" "" "" None [] ∅.

Definition stamp (now : Z) (m : Message) : Message :=
  if String.eqb (m_Timestamp m) ""
  then mkMessage (m_Role m) (m_Content m) (formatNaive now) (m_ToolCalls m) (m_ToolCallID m) (m_Name m) (m_ReasoningContent m) (m_ThinkingBlocks m) (m_extra m) (m_present m)
  else m.

(** The clock is read twice: for the message and for the session. *)
Definition AddMessage (now1 now2 : Z) (m : Message) (s : Session) : Session :=
  with_updated now2 (with_messages (s_messages s ++ [stamp now1 m]) (s_snapshots s ++ [zeroMessage]) (s_rawLines s ++ [None]) s).

Definition SetMessage (i : Z) (m : Message) (s : Session) : option Session :=
  if (i <? 0) || (Z.of_nat (length (s_messages s)) <=? i) then None else
  let k := Z.to_nat i in
  Some (with_messages (<[k := m]> (s_messages s)) (<[k := zeroMessage]> (s_snapshots s)) (<[k := None]> (s_rawLines s)) s).

Definition insertAt {A} (k : nat) (x : A) (l : list A) : list A := take k l ++ x :: drop k l.

(** [list.insert] clamps its index. *)
Definition insertIndex (i : Z) (n : nat) : nat := Z.to_nat (pySliceStart i (Z.of_nat n)).

Definition insertMessageLocked (i : Z) (m : Message) (raw : option string) (s : Session) : Session :=
  let k := insertIndex i (length (s_messages s)) in
  with_messages (insertAt k m (s_messages s)) (insertAt k m (s_snapshots s)) (insertAt k raw (s_rawLines s)) s.

Definition setMetaRawLocked (key : string) (value : json) (raw : RawJSON) (s : Session) : Session :=
  with_meta (<[key := value]> (s_meta s)) (if decide (is_Some (s_meta s !! key)) then s_metaOrder s else s_metaOrder s ++ [key])
    (<[key := raw]> (s_metaRaw s)) (<[key := decodeJSONValue raw]> (s_metaLoaded s)) s.

Fixpoint removeFirst (key : string) (l : list string) : list string :=
  match l with [] => [] | k :: l => if String.eqb k key then l else k :: removeFirst key l end.

Definition dropMetaLocked (key : string) (s : Session) : Session :=
  with_meta (delete key (s_meta s)) (removeFirst key (s_metaOrder s)) (delete key (s_metaRaw s)) (delete key (s_metaLoaded s)) s.

Definition LastSummaryMetaKey : string := "_last_summary".
Definition SummaryContinuationText : string := "Continue the active task from the working-memory checkpoint above.".

Definition Clear (now : Z) (s : Session) : Session :=
  with_updated now (dropMetaLocked LastSummaryMetaKey (with_provider None None None (SetLastArchived 0 (with_messages [] [] [] s)))).

Definition SetProviderState (raw : RawJSON) (s : Session) : Session :=
  with_provider (if String.eqb raw "" then None else Some raw) (s_providerLine s) (s_providerSnap s) s.

(** ** The summary checkpoint (summary.go) *)

Definition IsSummaryCheckpoint (m : Message) : bool :=
  IsHiddenHistoryMessage m && IsText (m_Content m) && String.eqb (c_Text (m_Content m)) SummaryContinuationText.

Definition summaryMarkerRecord (timestamp : string) : string :=
  "{" +:+ writePyString "role" +:+ pyKeySep +:+ writePyString RoleUser +:+ pyItemSep +:+ writePyString "content" +:+ pyKeySep
  +:+ writePyString SummaryContinuationText +:+ pyItemSep +:+ writePyString HiddenHistoryMeta +:+ pyKeySep +:+ "true" +:+ pyItemSep
  +:+ writePyString "timestamp" +:+ pyKeySep +:+ writePyString timestamp +:+ "}".

Definition lastSummaryRecord (text lastActive : string) : RawJSON :=
  "{" +:+ writePyString "text" +:+ pyKeySep +:+ writePyString text +:+ pyItemSep +:+ writePyString "last_active" +:+ pyKeySep
  +:+ writePyString lastActive +:+ "}".

Definition summaryMarker (timestamp : string) : Message :=
  mkMessage RoleUser (TextContent SummaryContinuationText) timestamp None "" "" "" None [(HiddenHistoryMeta, "true")] {[HiddenHistoryMeta]}.

(** The archive offset keeps the boundary as it was given. *)
Definition CommitSummaryCheckpoint (now : Z) (summary : string) (insertAt : option Z) (lastActive : option Z) (s : Session) : Session :=
  let boundary := default (Z.of_nat (length (s_messages s))) insertAt in
  let timestamp := formatNaive now in
  let lastActiveText := formatNaive (default (s_updatedAt s) lastActive) in
  SetLastArchived boundary
    (setMetaRawLocked LastSummaryMetaKey (JObj [("last_active", JStr lastActiveText); ("text", JStr summary)]) (lastSummaryRecord summary lastActiveText)
      (insertMessageLocked boundary (summaryMarker timestamp) (Some (summaryMarkerRecord timestamp)) s)).

(** A call that changes a session in memory. *)
Inductive op :=
  | OAdd (now1 now2 : Z) (m : Message) | OSet (i : Z) (m : Message) | OClear (now : Z) | OArchived (n : Z)
  | OProvider (raw : RawJSON) | OCommit (now : Z) (summary : string) (insertAt lastActive : option Z).

Definition apply (o : op) (s : Session) : Session :=
  match o with
  | OAdd now1 now2 m => AddMessage now1 now2 m s
  | OSet i m => default s (SetMessage i m s)
  | OClear now => Clear now s
  | OArchived n => SetLastArchived n s
  | OProvider raw => SetProviderState raw s
  | OCommit now summary at_ active => CommitSummaryCheckpoint now summary at_ active s
  end.
End Operations.
