(* ===== verification/SessionFacts.v ===== *)
(** * What the replay of a session guarantees

    Facts about [Session]: the operations in memory keep the arrays of a session aligned,
    the history is a legal suffix of what is not archived, the window of recent messages reaches a user
    turn, and a summary checkpoint is where the history starts. *)

From Stdlib Require Import Ascii.
From S2P Require Import Prelude GoText GoLib PyFloat GoFmt Core GoJson PyJson Governance Response Provider SessionText Session.
#[local] Open Scope string_scope.
#[local] Open Scope list_scope.
#[local] Open Scope Z_scope.

(** ** Invariants of a session *)

Section Invariant.
Context (localSeconds : Z → string).

(** The transcript, the parsed values and the records belong together, index by index. *)
Definition aligned (s : Session) : Prop :=
  length (s_snapshots s) = length (s_messages s) ∧ length (s_rawLines s) = length (s_messages s).

(** A message with calls, or with the id of a call, has the key in its record. *)
Definition agrees (m : Message) (raw : option string) : Prop :=
  match raw ≫= objectFields with
  | None => True
  | Some fields =>
      (fieldValue fields "tool_calls" = None → m_ToolCalls m = None) ∧ (fieldValue fields "tool_call_id" = None → m_ToolCallID m = "")
  end.
Definition records_agree (s : Session) : Prop :=
  ∀ i m raw, s_messages s !! i = Some m → s_rawLines s !! i = Some raw → agrees m raw.

Definition Inv (s : Session) : Prop := aligned s ∧ records_agree s.

Lemma insertAt_length {A} k (x : A) l : length (insertAt k x l) = S (length l).
Proof. unfold insertAt. rewrite length_app. cbn. rewrite <- (take_drop k l) at 3. rewrite length_app. lia. Qed.

Lemma insertAt_lookup {A} k (x : A) l i : (k ≤ length l)%nat →
  insertAt k x l !! i = if (i <? k)%nat then l !! i else if (i =? k)%nat then Some x else l !! (i - 1)%nat.
Proof.
  intros Hk. unfold insertAt. assert (length (take k l) = k) as Hl by (rewrite length_take; lia). destruct (Nat.ltb_spec i k).
  - rewrite lookup_app_l by lia. by apply lookup_take_lt.
  - rewrite lookup_app_r by lia. rewrite Hl. destruct (Nat.eqb_spec i k) as [->|]; [by rewrite Nat.sub_diag|].
    replace (i - k)%nat with (S (i - k - 1)) by lia. change ((x :: drop k l) !! S (i - k - 1)%nat) with (drop k l !! (i - k - 1)%nat). rewrite lookup_drop. f_equal. lia.
Qed.

Lemma insertIndex_le i n : (insertIndex i n ≤ n)%nat.
Proof. unfold insertIndex, pySliceStart. repeat case_match; bool_hyps; lia. Qed.

Lemma summaryMarker_agrees ts raw : agrees (summaryMarker ts) raw.
Proof. unfold agrees. by destruct (raw ≫= objectFields). Qed.

Lemma none_agrees m : agrees m None.
Proof. done. Qed.

(** Where the marker of a checkpoint goes, and what else changes with it. *)
Lemma commit_fields now summary at_ active s :
  let s' := CommitSummaryCheckpoint localSeconds now summary at_ active s in
  let boundary := default (Z.of_nat (length (s_messages s))) at_ in
  let k := insertIndex boundary (length (s_messages s)) in
  let marker := summaryMarker (formatNaive localSeconds now) in
  s_messages s' = insertAt k marker (s_messages s) ∧ s_snapshots s' = insertAt k marker (s_snapshots s) ∧
  s_rawLines s' = insertAt k (Some (summaryMarkerRecord (formatNaive localSeconds now))) (s_rawLines s) ∧ s_lastArchived s' = boundary.
Proof. split_and!; reflexivity. Qed.

Lemma Inv_op o s : Inv s → Inv (apply localSeconds o s).
Proof.
  intros [[H1 H2] Hr]. destruct o as [now1 now2 m|i m|now|n|raw|now summary at_ active]; cbn [apply].
  - split; [split; cbn; rewrite !length_app; cbn; lia|]. intros i m' raw Hm Hraw. cbn in Hm, Hraw.
    apply lookup_snoc_Some in Hm as [[Hi Hm]|[-> <-]].
    + rewrite lookup_app_l in Hraw by lia. by apply (Hr i).
    + rewrite <- H2, lookup_app_r, Nat.sub_diag in Hraw by lia. by injection Hraw as <-.
  - unfold SetMessage. destruct (_ || _) eqn:E; [by split|]. cbn. split; [split; cbn; by rewrite !length_insert|]. intros j m' raw Hm Hraw. cbn in Hm, Hraw.
    apply list_lookup_insert_Some in Hraw as [(_ & <- & _)|(Hne & Hraw)]; [done|]. apply list_lookup_insert_Some in Hm as [(Hj & _)|(_ & Hm)]; [done|by apply (Hr j)].
  - by split.
  - by split.
  - by split.
  - pose proof (insertIndex_le (default (Z.of_nat (length (s_messages s))) at_) (length (s_messages s))) as Hk.
    destruct (commit_fields now summary at_ active s) as (E1 & E2 & E3 & _). revert E1 E2 E3. generalize (CommitSummaryCheckpoint localSeconds now summary at_ active s).
    intros s' E1 E2 E3. split; [split; by rewrite ?E1, ?E2, ?E3, !insertAt_length, ?H1, ?H2|]. intros j m' raw Hm Hraw. rewrite E1 in Hm. rewrite E3 in Hraw.
    rewrite insertAt_lookup in Hm by lia. rewrite insertAt_lookup in Hraw by lia.
    destruct (_ <? _)%nat; [by apply (Hr j)|]. destruct (_ =? _)%nat; [injection Hm as <-; apply summaryMarker_agrees|by apply (Hr (j - 1)%nat)].
Qed.

Lemma Inv_ops key now ops : Inv (foldl (λ s o, apply localSeconds o s) (newSession localSeconds key now) ops).
Proof.
  assert (Inv (newSession localSeconds key now)) as Hnew by (split; [by split|by intros i m raw H; cbn in H; rewrite lookup_nil in H]).
  revert Hnew. generalize (newSession localSeconds key now). induction ops as [|o ops IH]; intros s Hs; [done|]. cbn. by apply IH, Inv_op.
Qed.
End Invariant.

(** ** The history *)

Section History.
Context `{PrintTable} `{CaseTable} {ToolSchema : Type} `{!Tokenizer ToolSchema}.

Lemma alignTurn_ge v lo i n : (lo ≤ i)%nat → (lo ≤ alignTurn v lo i n)%nat.
Proof.
  revert i. induction n as [|n IH]; intros i Hi; [done|]. cbn [alignTurn]. destruct (hv_messages v !! i) as [m|]; [|apply IH; lia].
  destruct (negb _); [apply IH; lia|]. destruct (Nat.ltb_spec lo i); cbn [andb]; [|done]. destruct (viewMarkerTruthy _ _ _); lia.
Qed.

(** The index of the first message that is not archived. *)
Definition archived (s : Session) : nat := Z.to_nat (pySliceStart (s_lastArchived s) (Z.of_nat (length (s_messages s)))).

Lemma historyStart_ge s maxMessages ext : (archived s ≤ historyStart (viewOf s) (s_lastArchived s) maxMessages ext)%nat.
Proof.
  unfold historyStart, archived. cbn [viewOf hv_messages]. set (lo := Z.to_nat _). set (lo1 := if 0 <? maxMessages then _ else lo).
  assert (lo ≤ lo1)%nat by (subst lo1; destruct (0 <? maxMessages); lia).
  pose proof (alignTurn_ge (viewOf s) lo1 lo1 (length (s_messages s) - lo1) ltac:(lia)). lia.
Qed.

Lemma replay_suffix v inc lo lo' : (lo ≤ lo')%nat → replay v inc lo' `suffix_of` replay v inc lo.
Proof.
  intros Hle. unfold replay. set (n := length (hv_messages v)). destruct (decide (lo' ≤ n)%nat).
  - replace (n - lo)%nat with ((lo' - lo) + (n - lo'))%nat by lia. rewrite seq_app, omap_app. replace (lo + (lo' - lo))%nat with lo' by lia. by eexists.
  - replace (n - lo')%nat with 0%nat by lia. apply suffix_nil.
Qed.

Lemma isSome_false {A} (o : option A) : isSome o = false → o = None.
Proof. destruct o; [discriminate|reflexivity]. Qed.

(** A record tells whether its message has calls, and an id. *)
Lemma Inv_keys s i m : Inv s → s_messages s !! i = Some m →
  (keyPresent (viewOf s) i "tool_calls" = false → m_ToolCalls m = None) ∧ (keyPresent (viewOf s) i "tool_call_id" = false → m_ToolCallID m = "").
Proof.
  intros [[_ Hl] Hr] Hm. unfold keyPresent, recordFields. cbn [viewOf hv_messages hv_rawLines].
  destruct (lookup_lt_is_Some_2 (s_rawLines s) i) as [raw Hraw]; [rewrite Hl; by eapply lookup_lt_Some|]. specialize (Hr i m raw Hm Hraw). unfold agrees in Hr. rewrite Hraw, Hm. cbn [mbind option_bind].
  destruct raw as [line|]; cbn [mbind option_bind] in *; [destruct (objectFields line) as [fields|]|].
  - destruct Hr as [H1 H2]. split; intros E; [apply H1|apply H2]; by apply isSome_false.
  - split; intros E; cbn in E; [by apply isSome_false|by apply negb_false_iff, String.eqb_eq in E].
  - split; intros E; cbn in E; [by apply isSome_false|by apply negb_false_iff, String.eqb_eq in E].
Qed.

(** An echo of a command carries no tool call. *)
Definition echoes_plain (s : Session) : Prop :=
  ∀ i m, s_messages s !! i = Some m → viewMarkerTruthy (viewOf s) i CommandMeta = true → calls m = [].

Lemma declareMsg_none m D : calls m = [] → declareMsg m D = D.
Proof. unfold declareMsg. intros ->. by destruct (isRole _ m). Qed.

(** What is replayed of a message. *)
Lemma replayEntry_step s inc i m D : Inv s → echoes_plain s → s_messages s !! i = Some m →
  match replayEntry (viewOf s) inc i with
  | None => declareMsg m D = D
  | Some e => m_Role e = m_Role m ∧ m_ToolCallID e = m_ToolCallID m ∧ declareMsg e D = declareMsg m D
  end.
Proof.
  intros HI He Hm. destruct (Inv_keys s i m HI Hm) as [Hc Hid]. unfold replayEntry. cbn [viewOf hv_messages]. rewrite Hm. cbn [mbind option_bind].
  fold (viewOf s). destruct (viewMarkerTruthy (viewOf s) i CommandMeta) eqn:Ec; [by apply declareMsg_none, (He i)|].
  destruct (emptyAssistant _ _ _ _) eqn:Ee.
  - apply declareMsg_none. unfold calls. unfold emptyAssistant in Ee. bool_hyps. by rewrite Hc.
  - split_and!; [done|cbn; destruct (keyPresent _ _ "tool_call_id"); [done|by rewrite Hid]|].
    unfold declareMsg, isRole, calls. cbn. destruct (keyPresent _ _ "tool_calls"); [done|by rewrite Hc].
Qed.

Lemma replay_legal s inc n lo D : Inv s → echoes_plain s → (lo + n = length (s_messages s))%nat →
  startLegal D (drop lo (s_messages s)) → startLegal D (omap (replayEntry (viewOf s) inc) (seq lo n)).
Proof.
  intros HI He. revert lo D. induction n as [|n IH]; intros lo D Hn Hl; [done|]. destruct (lookup_lt_is_Some_2 (s_messages s) lo) as [m Hm]; [lia|].
  rewrite (drop_S _ _ _ Hm) in Hl. destruct Hl as [Htool Hl]. cbn [seq omap list_omap].
  pose proof (replayEntry_step s inc lo m D HI He Hm) as Hstep. destruct (replayEntry (viewOf s) inc lo) as [e|].
  - destruct Hstep as (Hrole & Hid & Hdecl). cbn [startLegal]. split; [unfold isRole; by rewrite Hrole, Hid|]. rewrite Hdecl. apply IH; [lia|done].
  - rewrite Hstep in Hl. apply IH; [lia|done].
Qed.

Lemma trim_spec out maxTokens :
  let t := trimHistoryToTokens out maxTokens in
  t `suffix_of` out ∧ startLegal ∅ t ∧ ((length t ≤ 1)%nat ∨ sumTokens t ≤ maxTokens ∨ t `suffix_of` lastUserTail out).
Proof.
  cbn zeta. unfold trimHistoryToTokens. destruct (keepNewest_spec maxTokens (rev out) [] 0 eq_refl) as (Hs & Hb & _); [by left|].
  rewrite rev_involutive, app_nil_r in Hs. set (kept := keepNewest _ _ _ _) in *.
  set (kept' := match firstUserTail kept with [] => _ | _ => _ end). destruct (FindLegalMessageStart_spec kept') as (_ & Hl & _).
  assert (kept' `suffix_of` kept ∨ kept' = lastUserTail out) as Hk.
  { subst kept'. pose proof (firstUserTail_suffix kept). destruct (firstUserTail kept); [|by left]. destruct (lastUserTail out); [by left|by right]. }
  assert (kept' `suffix_of` out) as Hko by (destruct Hk as [Hk| ->]; [by etrans|apply lastUserTail_suffix]).
  split_and!; [etrans; [apply drop_suffix|done]|done|]. destruct Hk as [Hk| ->]; [|right; right; apply drop_suffix].
  assert (drop (FindLegalMessageStart kept') kept' `suffix_of` kept) as [pre Hpre] by (etrans; [apply drop_suffix|done]).
  generalize dependent (drop (FindLegalMessageStart kept') kept'). intros t Hl Ht. destruct Hb as [Hb|Hb].
  - left. rewrite Ht, length_app in Hb. lia.
  - right; left. rewrite Ht in Hb. clear -Hb. induction pre as [|p pre IH]; cbn in Hb; [done|]. pose proof (EstimateMessageTokens_ge p). apply IH. unfold sumTokens. lia.
Qed.

(** The history consists of the newest messages that are neither archived nor dropped, in
    order; under a token budget it fits, unless a single message or the turn of the last
    user message alone exceeds it; and with a budget, or if no echo of a command carries a
    call, each tool result in it that has an id comes after a call with that id. *)
Lemma history_spec s maxMessages maxTokens ext inc :
  let out := GetHistory s maxMessages maxTokens ext inc in
  out `suffix_of` replay (viewOf s) inc (archived s) ∧
  (0 < maxTokens → (length out ≤ 1)%nat ∨ sumTokens out ≤ maxTokens ∨ out `suffix_of` lastUserTail (replay (viewOf s) inc (archived s))) ∧
  (Inv s → 0 < maxTokens ∨ echoes_plain s → startLegal ∅ out).
Proof.
  cbn zeta. unfold GetHistory. set (lo := historyStart _ _ _ _). pose proof (historyStart_ge s maxMessages ext) as Hge. fold lo in Hge.
  pose proof (replay_suffix (viewOf s) inc _ _ Hge) as Hsuf. set (out := replay (viewOf s) inc lo) in *.
  assert (Inv s → echoes_plain s → startLegal ∅ out) as Hl.
  { intros HI He. destruct (decide (lo ≤ length (s_messages s))%nat) as [Hlo|Hlo].
    - apply replay_legal; [done|done|cbn [viewOf hv_messages]; lia|]. subst lo. unfold historyStart. cbn [viewOf hv_messages]. fold (viewOf s). set (lo2 := alignTurn _ _ _ _).
      rewrite <- drop_drop. apply FindLegalMessageStart_spec.
    - subst out. unfold replay. replace (length (hv_messages (viewOf s)) - lo)%nat with 0%nat by (cbn [viewOf hv_messages]; lia). done. }
  destruct (Z.ltb_spec 0 maxTokens) as [Hmax|]; cbn [andb]; [|split_and!; [done|lia|intros HI [?|?]; [lia|auto]]].
  destruct (Nat.eqb_spec (length out) 0) as [E|_]; cbn [negb]; [split_and!; [done|intros _; left; lia|by destruct out]|].
  destruct (trim_spec out maxTokens) as (H1 & H2 & H3). split_and!; [by etrans| |done]. intros _. destruct H3 as [?|[?|H3]]; [by left|by right; left|].
  right; right. etrans; [exact H3|]. destruct Hsuf as [pre ->]. clear. induction pre as [|p pre IH]; [done|]. cbn [app lastUserTail]. set (t := lastUserTail (pre ++ out)) in *.
  destruct t eqn:Et; [|done]. apply suffix_nil_inv in IH. rewrite IH. apply suffix_nil.
Qed.

(** ** The window of recent messages *)

Lemma lastUserBefore_spec ms k : (k ≤ length ms)%nat →
  match lastUserBefore ms k with
  | Some i => (i < k)%nat ∧ ∃ m, ms !! i = Some m ∧ isRole RoleUser m = true
  | None => existsb (isRole RoleUser) (take k ms) = false
  end.
Proof.
  induction k as [|k IH]; intros Hk; [done|]. cbn [lastUserBefore]. destruct (lookup_lt_is_Some_2 ms k) as [m Hm]; [lia|]. rewrite Hm.
  destruct (isRole RoleUser m) eqn:E; [split; [lia|eauto]|]. specialize (IH ltac:(lia)). destruct (lastUserBefore ms k) as [i|].
  - destruct IH as [? ?]. split; [lia|done].
  - by rewrite (take_S_r ms k m Hm), existsb_app, IH; cbn; rewrite E.
Qed.

Lemma user_in_drop ms i m r : ms !! i = Some m → isRole RoleUser m = true → (r ≤ i)%nat → existsb (isRole RoleUser) (drop r ms) = true.
Proof.
  intros Hm Hu Hr. apply existsb_exists. exists m. split; [|done]. apply list_elem_of_In, list_elem_of_lookup. exists (i - r)%nat. rewrite lookup_drop. by replace (r + (i - r))%nat with i by lia.
Qed.

(** The window of the newest messages has at least as many as asked for when there
    are as many, exactly as many when it is not to be extended, and when it is to be
    extended it holds a user message if the transcript has one. *)
Theorem recent_window ms maxMessages ext :
  0 < maxMessages →
  let r := recentMessageStartIndex ms maxMessages ext in
  (r ≤ length ms)%nat ∧ Z.min maxMessages (Z.of_nat (length ms)) ≤ Z.of_nat (length ms - r) ∧
  (ext = false → Z.of_nat (length ms - r) = Z.min maxMessages (Z.of_nat (length ms))) ∧
  (ext = true → existsb (isRole RoleUser) ms = true → existsb (isRole RoleUser) (drop r ms) = true).
Proof.
  intros Hmax. cbn zeta. unfold recentMessageStartIndex. rewrite (proj2 (Z.leb_gt _ _) Hmax). set (start := (length ms - Z.to_nat maxMessages)%nat).
  destruct (negb ext || _) eqn:E.
  - split_and!; [lia|lia|lia|]. intros -> Hu. cbn in E. apply Z.leb_le in E. by replace start with 0%nat by lia.
  - apply orb_false_iff in E as [->%negb_false_iff Hlen%Z.leb_gt]. destruct (existsb _ (drop start ms)) eqn:Ed; [split_and!; (done || lia)|].
    pose proof (lastUserBefore_spec ms start ltac:(lia)) as Hl. destruct (lastUserBefore ms start) as [u|].
    + destruct Hl as (Hu & m & Hm & Hrole). destruct u as [|before]; [split_and!; try (done || lia); intros _ _; by eapply user_in_drop|].
      destruct (ms !! before) as [m'|]; [destruct (markerTruthy m' _)|]; split_and!; try (done || lia); intros _ _; eapply user_in_drop; eauto.
    + split_and!; try (done || lia). intros _. rewrite <- (take_drop start ms) at 1. by rewrite existsb_app, Hl, Ed.
Qed.
End History.

(** ** The summary checkpoint *)

Section Checkpoint.
Context `{PrintTable} `{CaseTable} {ToolSchema : Type} `{!Tokenizer ToolSchema} (localSeconds : Z → string).

(** An entry depends on its message and its record only. *)
Lemma replayEntry_ext v v' inc i j :
  hv_messages v !! i = hv_messages v' !! j → hv_rawLines v !! i = hv_rawLines v' !! j → replayEntry v inc i = replayEntry v' inc j.
Proof.
  intros Hm Hr. assert (recordFields v i = recordFields v' j) as Hf by (unfold recordFields; by rewrite Hr).
  assert (∀ key, extraAt v i key = extraAt v' j key) as Hx by (intros key; unfold extraAt; by rewrite Hf, Hm).
  assert (∀ key, keyPresent v i key = keyPresent v' j key) as Hk by (intros key; unfold keyPresent; by rewrite Hf, Hm).
  assert (contentValue v i = contentValue v' j) as Hc by (unfold contentValue; by rewrite Hk, Hm).
  unfold replayEntry. rewrite Hm. destruct (hv_messages v' !! j) as [m|]; [|done]. cbn [mbind option_bind].
  assert (replayContent v i m inc = replayContent v' j m inc) as Hrc by (unfold replayContent; by rewrite !Hx, Hc).
  unfold viewMarkerTruthy, emptyAssistant, replayMessage. by rewrite Hx, Hrc, !Hk.
Qed.

(** The record of the marker, as a value. *)
Definition markerFields (ts : string) : list (string * json) :=
  [("role", JStr RoleUser); ("content", JStr SummaryContinuationText); (HiddenHistoryMeta, JBool true); ("timestamp", JStr (of_runes (runes ts)))].

Lemma markerRecord_text ts : summaryMarkerRecord ts = pyText (JObj (markerFields ts)).
Proof. unfold summaryMarkerRecord. cbn [pyText markerFields map Join]. rewrite writePyString_utf8, <- !sapp_assoc. reflexivity. Qed.

Lemma markerRecord_fields ts : objectFields (summaryMarkerRecord ts) = Some (rawFields (markerFields ts)).
Proof.
  rewrite markerRecord_text. apply objectFields_text.
  - cbn [sound markerFields forallb]. assert (utf8ok (of_runes (runes ts)) = true) as -> by (unfold utf8ok; rewrite runes_of_runes by apply runes_valid; by rewrite String.eqb_refl).
    rewrite !andb_true_r. by vm_compute.
  - change (height (JObj (markerFields ts))) with 1%nat. unfold maxNestingDepth. lia.
Qed.

Lemma markerRecord_key ts key :
  isSome (fieldValue (rawFields (markerFields ts)) key) = existsb (λ k, String.eqb k key) ["role"; "content"; HiddenHistoryMeta; "timestamp"].
Proof.
  cbn [rawFields markerFields map fieldValue existsb]. generalize (pyText (JStr RoleUser)), (pyText (JStr SummaryContinuationText)), (pyText (JBool true)), (pyText (JStr (of_runes (runes ts)))).
  intros t1 t2 t3 t4. by destruct (String.eqb "timestamp" key), (String.eqb HiddenHistoryMeta key), (String.eqb "content" key), (String.eqb "role" key).
Qed.

(** What the model is shown in place of what was summarized. *)
Definition summaryEntry : Message := mkMessage RoleUser (TextContent SummaryContinuationText) "" None "" "" "" None [] ∅.

Lemma replay_marker v inc k ts :
  hv_messages v !! k = Some (summaryMarker ts) → hv_rawLines v !! k = Some (Some (summaryMarkerRecord ts)) → replayEntry v inc k = Some summaryEntry.
Proof.
  intros Hm Hr. assert (recordFields v k = Some (rawFields (markerFields ts))) as Hf by (unfold recordFields; rewrite Hr; apply markerRecord_fields).
  assert (∀ key, existsb (λ k, String.eqb k key) ["role"; "content"; HiddenHistoryMeta; "timestamp"] = false → extraAt v k key = None) as Hx.
  { intros key E. unfold extraAt. rewrite Hf. apply isSome_false. by rewrite markerRecord_key. }
  assert (∀ key, keyPresent v k key = existsb (λ k, String.eqb k key) ["role"; "content"; HiddenHistoryMeta; "timestamp"]) as Hk by (intros key; unfold keyPresent; rewrite Hf; apply markerRecord_key).
  clear Hf. assert (contentValue v k = JStr SummaryContinuationText) as Hc by (unfold contentValue; rewrite Hk, Hm; reflexivity).
  unfold replayEntry. rewrite Hm. cbn [mbind option_bind]. unfold viewMarkerTruthy. rewrite (Hx CommandMeta) by reflexivity.
  assert (replayContent v k (summaryMarker ts) inc = JStr SummaryContinuationText) as ->.
  { unfold replayContent. rewrite (Hx HistoryMeta), (Hx MediaMeta), (Hx CLIAppsMeta), Hc by reflexivity. destruct inc; reflexivity. }
  unfold emptyAssistant, replayMessage. rewrite !Hk. reflexivity.
Qed.

Lemma insertIndex_at b n : 0 ≤ b ≤ Z.of_nat n → insertIndex b n = Z.to_nat b.
Proof. intros Hb. unfold insertIndex, pySliceStart. rewrite (proj2 (Z.ltb_ge b 0)), (proj2 (Z.ltb_ge (Z.of_nat n) b)) by lia. done. Qed.

Lemma omap_seq_shift {A} (f g : nat → option A) k n : (∀ i, (k ≤ i < k + n)%nat → f (S i) = g i) → omap f (seq (S k) n) = omap g (seq k n).
Proof.
  revert k. induction n as [|n IH]; intros k H'; [done|]. cbn [seq omap list_omap]. rewrite (H' k) by lia. rewrite (IH (S k)) by (intros i Hi; apply H'; lia). done.
Qed.

(** After a summary is committed at a boundary of the transcript, the history is the
    continuation marker followed by what comes after the boundary, and nothing of what
    was summarized. *)
Theorem checkpoint_replay now summary b active s ext inc :
  aligned s → 0 ≤ b ≤ Z.of_nat (length (s_messages s)) → startLegal ∅ (drop (Z.to_nat b) (s_messages s)) →
  GetHistory (CommitSummaryCheckpoint localSeconds now summary (Some b) active s) 0 0 ext inc = summaryEntry :: replay (viewOf s) inc (Z.to_nat b).
Proof.
  intros [_ Hraw] Hb Hl. destruct (commit_fields localSeconds now summary (Some b) active s) as (E1 & _ & E3 & E4). revert E1 E3 E4.
  generalize (CommitSummaryCheckpoint localSeconds now summary (Some b) active s). intros s' E1 E3 E4. cbn [default from_option id] in *. rewrite insertIndex_at in E1, E3 by done.
  set (k := Z.to_nat b) in *. assert (k ≤ length (s_messages s) ∧ k ≤ length (s_rawLines s))%nat as [Hkn Hkr'] by (rewrite Hraw; subst k; lia). set (n := length (s_messages s)) in *. assert (length (s_messages s') = S n) as Hn by (by rewrite E1, insertAt_length).
  assert (s_messages s' !! k = Some (summaryMarker (formatNaive localSeconds now))) as Hk.
  { rewrite E1, insertAt_lookup by done. rewrite (proj2 (Nat.ltb_ge k k)) by lia. by rewrite Nat.eqb_refl. }
  assert (s_rawLines s' !! k = Some (Some (summaryMarkerRecord (formatNaive localSeconds now)))) as Hkr.
  { rewrite E3, insertAt_lookup by done. rewrite (proj2 (Nat.ltb_ge k k)) by lia. by rewrite Nat.eqb_refl. }
  assert (drop k (s_messages s') = summaryMarker (formatNaive localSeconds now) :: drop k (s_messages s)) as Hdrop.
  { rewrite E1. unfold insertAt. rewrite drop_app_length'; [done|]. rewrite length_take. lia. }
  unfold GetHistory. change (0 <? 0) with false. cbn [andb]. unfold historyStart. cbn [viewOf hv_messages]. rewrite E4, Hn.
  assert (Z.to_nat (pySliceStart b (Z.of_nat (S n))) = k) as -> by (unfold pySliceStart; rewrite (proj2 (Z.ltb_ge b 0)), (proj2 (Z.ltb_ge _ b)) by lia; done).
  change (0 <? 0) with false. cbn match. replace (S n - k)%nat with (S (n - k)) by lia. cbn [alignTurn]. change (hv_messages (viewOf s')) with (s_messages s'). rewrite Hk. cbn match.
  change (isRole RoleUser (summaryMarker (formatNaive localSeconds now))) with true. cbn [negb]. rewrite (proj2 (Nat.ltb_ge k k)) by lia. cbn [andb].
  assert (FindLegalMessageStart (drop k (s_messages s')) = 0%nat) as ->.
  { destruct (FindLegalMessageStart_spec (drop k (s_messages s'))) as (_ & _ & Hleast). destruct (FindLegalMessageStart (drop k (s_messages s'))) as [|f]; [done|].
    destruct (Hleast 0%nat ltac:(lia)). rewrite Hdrop. cbn. split; [done|]. exact Hl. }
  rewrite Nat.add_0_r. unfold replay. cbn [viewOf hv_messages]. fold (viewOf s) (viewOf s'). rewrite Hn. replace (S n - k)%nat with (S (n - k)) by lia. cbn [seq omap list_omap].
  rewrite (replay_marker (viewOf s') inc k _ Hk Hkr). f_equal. fold n. apply omap_seq_shift. intros i Hi. apply replayEntry_ext; cbn [viewOf hv_messages hv_rawLines].
  - rewrite E1, insertAt_lookup by done. rewrite (proj2 (Nat.ltb_ge _ _)) by lia. rewrite (proj2 (Nat.eqb_neq _ _)) by lia. f_equal. lia.
  - rewrite E3, insertAt_lookup by done. rewrite (proj2 (Nat.ltb_ge _ _)) by lia. rewrite (proj2 (Nat.eqb_neq _ _)) by lia. f_equal. lia.
Qed.
End Checkpoint.

(** ** Examples *)

#[local] Instance asciiPrint : PrintTable := λ r, (32 <=? r) && (r <? 127).
#[local] Instance asciiLower : CaseTable := {| ToLower := ToLower_ascii; ToLower_on_ascii := λ _ _, eq_refl |}.

Definition demoClock (t : Z) : string := "2026-01-01T00:00:00".

(** A turn with a tool call, and a second question. *)
Definition demoOps : list op :=
  [OAdd 0 0 (NewMessage RoleUser "list"); OAdd 0 0 (demoAssistant "" [demoCall "c1" "ls"]); OAdd 0 0 (demoResult "c1");
   OAdd 0 0 (NewMessage RoleAssistant "two files"); OAdd 0 0 (NewMessage RoleUser "thanks")].
Definition demoSession : Session := foldl (λ s o, apply demoClock o s) (newSession demoClock "cli:direct" 0) demoOps.

Lemma demo_Inv : Inv demoSession.
Proof. apply Inv_ops. Qed.

Lemma recent_window_witness :
  let ms := s_messages demoSession in
  let r := recentMessageStartIndex ms 1 true in
  (r ≤ length ms)%nat ∧ Z.min 1 (Z.of_nat (length ms)) ≤ Z.of_nat (length ms - r) ∧ (true = false → Z.of_nat (length ms - r) = Z.min 1 (Z.of_nat (length ms))) ∧
  (true = true → existsb (isRole RoleUser) ms = true → existsb (isRole RoleUser) (drop r ms) = true).
Proof. exact (recent_window (s_messages demoSession) 1 true eq_refl). Defined.

Lemma checkpoint_replay_witness :
  GetHistory (CommitSummaryCheckpoint demoClock 0 "listed the files" (Some 4) None demoSession) 0 0 true true
  = summaryEntry :: replay (viewOf demoSession) true (Z.to_nat 4).
Proof.
  apply (checkpoint_replay demoClock 0 "listed the files" 4 None demoSession true true).
  - exact (proj1 demo_Inv).
  - vm_compute. intuition congruence.
  - vm_compute. intuition congruence.
Defined.
