(* ===== verification/Transient.v ===== *)
(** * Temporary sessions (src/internal/session/transient.go)

    Sessions kept in memory only.  The store bounds itself: idle sessions are dropped
    after six hours, and at capacity the least recently used ones.  Both are locked, so a
    method is one step.  The order in which Go walks the map is a parameter. *)

From Stdlib Require Import Ascii.
From S2P Require Import Prelude GoText GoLib PyFloat GoFmt Core GoJson PyJson Governance Response Provider SessionText Session.
#[local] Open Scope string_scope.
#[local] Open Scope list_scope.
#[local] Open Scope Z_scope.

Definition IsTransientKey (key : string) : bool := HasPrefix key "webui:tmp_".

(** In nanoseconds. *)
Definition transientTTL : Z := 6 * 3600 * 1000000000.
Definition maxTransientSessions : nat := 64.

Record TransientSession := mkT {
  t_key : string; t_messages : list Message; t_meta : gmap string json; t_updatedAt : Z; t_lastArchived : Z }.

Abbreviation TransientStore := (gmap string TransientSession) (only parsing).

Definition newTransient (key : string) (now : Z) : TransientSession := mkT key [] ∅ now 0.
Definition touch (now : Z) (t : TransientSession) : TransientSession := mkT (t_key t) (t_messages t) (t_meta t) now (t_lastArchived t).

(** ** Eviction *)

Section Evict.
Context (walk : TransientStore → list (string * TransientSession)).

Definition expired (now : Z) (keep : string) (kv : string * TransientSession) : bool :=
  negb (String.eqb kv.1 keep) && (transientTTL <? now - t_updatedAt kv.2).

Definition dropExpired (now : Z) (keep : string) (m : TransientStore) : TransientStore :=
  foldr (λ kv m, if expired now keep kv then delete kv.1 m else m) m (walk m).

(** The candidate so far is [oldestKey], the empty key for none. *)
Fixpoint oldest (keep : string) (l : list (string * TransientSession)) (oldestKey : string) (at_ : Z) : string :=
  match l with
  | [] => oldestKey
  | (k, v) :: l =>
      if String.eqb k keep then oldest keep l oldestKey at_
      else if String.eqb oldestKey "" || (t_updatedAt v <? at_) then oldest keep l k (t_updatedAt v)
      else oldest keep l oldestKey at_
  end.

(** The loop drops a session a round, so the sessions there are bound it. *)
Fixpoint dropOldest (fuel : nat) (keep : string) (m : TransientStore) : TransientStore :=
  match fuel with
  | O => m
  | S fuel =>
      if (size m <? maxTransientSessions)%nat then m else
      let k := oldest keep (walk m) "" 0 in
      if String.eqb k "" then m else dropOldest fuel keep (delete k m)
  end.

Definition evictLocked (now : Z) (keep : string) (m : TransientStore) : TransientStore :=
  let m := dropExpired now keep m in dropOldest (size m) keep m.

Definition Open (now : Z) (key : string) (m : TransientStore) : TransientStore :=
  let m := evictLocked now key m in
  match m !! key with
  | Some t => <[key := touch now t]> m
  | None => <[key := newTransient key now]> m
  end.
Definition Delete (key : string) (m : TransientStore) : TransientStore := delete key m.
Definition Count (now : Z) (m : TransientStore) : TransientStore * nat := let m := evictLocked now "" m in (m, size m).
End Evict.

(** ** The session *)

Section Ops.
Context (localSeconds rfc3339 : Z → string).

Definition addMessage (now1 now2 : Z) (m : Message) (t : TransientSession) : TransientSession :=
  mkT (t_key t) (t_messages t ++ [stamp localSeconds now1 m]) (t_meta t) now2 (t_lastArchived t).
Definition clear (now : Z) (t : TransientSession) : TransientSession := mkT (t_key t) [] ∅ now 0.
Definition setMessage (i : Z) (m : Message) (t : TransientSession) : TransientSession :=
  if (0 <=? i) && (i <? Z.of_nat (length (t_messages t)))
  then mkT (t_key t) (<[Z.to_nat i := m]> (t_messages t)) (t_meta t) (t_updatedAt t) (t_lastArchived t) else t.

Definition transientMarker : Message :=
  mkMessage RoleUser (TextContent SummaryContinuationText) "" None "" "" "" None [(HiddenHistoryMeta, "true")] {[HiddenHistoryMeta]}.

Definition commitSummaryCheckpoint (now : Z) (summary : string) (at_ : option Z) (lastActive : option Z) (t : TransientSession) : TransientSession :=
  let n := length (t_messages t) in
  let boundary := default (Z.of_nat n) at_ in
  let active := default (t_updatedAt t) lastActive in
  mkT (t_key t) (insertAt (insertIndex boundary n) transientMarker (t_messages t))
    (<[LastSummaryMetaKey := JObj [("last_active", JStr (rfc3339 active)); ("text", JStr summary)]]> (t_meta t)) now boundary.

(** The newest messages that are not archived; the other two parameters of the
    interface are not looked at, nor is the token budget. *)
Definition getHistory (t : TransientSession) (maxMessages : Z) : list Message :=
  let n := Z.of_nat (length (t_messages t)) in
  let start := if (t_lastArchived t <? 0) || (n <? t_lastArchived t) then 0 else t_lastArchived t in
  let out := drop (Z.to_nat start) (t_messages t) in
  if (0 <? maxMessages) && (maxMessages <? Z.of_nat (length out)) then drop (length out - Z.to_nat maxMessages) out else out.
End Ops.

(** ** The bound *)

Section Bound.
Context (walk : TransientStore → list (string * TransientSession)).
Hypothesis walk_all : ∀ m, walk m ≡ₚ map_to_list m.

Lemma oldest_in keep l key at_ :
  oldest keep l key at_ = key ∨ ∃ v, (oldest keep l key at_, v) ∈ l ∧ oldest keep l key at_ ≠ keep.
Proof.
  revert key at_. induction l as [|[k v] l IH]; intros key at_; [by left|]. cbn [oldest]. destruct (String.eqb_spec k keep) as [->|Hk].
  - destruct (IH key at_) as [?|(w & ? & ?)]; [by left|right; exists w; split; [by right|done]].
  - destruct (_ || _).
    + right. destruct (IH k (t_updatedAt v)) as [->|(w & ? & ?)]; [exists v; split; [by left|done]|exists w; split; [by right|done]].
    + destruct (IH key at_) as [?|(w & ? & ?)]; [by left|right; exists w; split; [by right|done]].
Qed.

Lemma oldest_found keep l key at_ : (∀ k v, (k, v) ∈ l → k ≠ "") → (∃ k v, (k, v) ∈ l ∧ k ≠ keep) ∨ key ≠ "" → oldest keep l key at_ ≠ "".
Proof.
  revert key at_. induction l as [|[k v] l IH]; intros key at_ Hne Hex; cbn [oldest].
  { destruct Hex as [(k & v & Hin & _)|?]; [by apply elem_of_nil in Hin|done]. }
  assert (∀ k v, (k, v) ∈ l → k ≠ "") as Hne' by (intros k' v' Hin; eapply Hne; right; exact Hin). assert (k ≠ "") as Hk by (eapply Hne; left).
  destruct (String.eqb_spec k keep) as [->|Hkk].
  - apply IH; [done|]. destruct Hex as [(k' & v' & Hin & Hk')|?]; [|by right]. apply elem_of_cons in Hin as [[= -> ->]|Hin]; [done|]. left. eauto.
  - destruct (String.eqb_spec key "") as [->|Hkey]; cbn [orb]; [apply IH; [done|by right]|]. destruct (_ <? _); apply IH; auto.
Qed.

Definition keyed (m : TransientStore) : Prop := m !! "" = None.

Lemma victim keep m : keyed m → (2 ≤ size m)%nat →
  let k := oldest keep (walk m) "" 0 in k ≠ "" ∧ k ≠ keep ∧ is_Some (m !! k).
Proof.
  intros Hk Hs. cbn zeta. assert (Hel : ∀ k v, (k, v) ∈ walk m ↔ m !! k = Some v) by (intros k v; rewrite walk_all; apply elem_of_map_to_list).
  assert (oldest keep (walk m) "" 0 ≠ "") as Hne.
  { apply oldest_found.
    - intros k v Hin%Hel ->. unfold keyed in Hk. congruence.
    - left. assert (delete keep m ≠ ∅) as (k & v & Hkv)%map_choose.
      { intros E. apply (f_equal size) in E. rewrite map_size_empty in E. destruct (m !! keep) as [v|] eqn:Em; [|rewrite delete_id in E by done; lia].
        rewrite map_size_delete_Some in E by done. lia. }
      apply lookup_delete_Some in Hkv as [? ?]. exists k, v. split; [by apply Hel|done]. }
  split; [done|]. destruct (oldest_in keep (walk m) "" 0) as [?|(v & Hin%Hel & ?)]; [done|eauto].
Qed.

Lemma dropOldest_spec fuel keep m : keyed m → (size m < fuel + maxTransientSessions)%nat →
  (size (dropOldest walk fuel keep m) < maxTransientSessions)%nat ∧ dropOldest walk fuel keep m ⊆ m ∧ dropOldest walk fuel keep m !! keep = m !! keep.
Proof.
  unfold maxTransientSessions. revert m. induction fuel as [|fuel IH]; intros m Hk Hs; [done|]. cbn [dropOldest]. unfold maxTransientSessions. destruct (Nat.ltb_spec (size m) 64); [done|].
  destruct (victim keep m Hk ltac:(lia)) as (Hne & Hkeep & [v Hv]). set (k := oldest keep (walk m) "" 0) in *. rewrite (proj2 (String.eqb_neq _ _) Hne).
  destruct (IH (delete k m)) as (H1 & H2 & H3).
  - unfold keyed. by rewrite lookup_delete_None; right.
  - rewrite map_size_delete_Some by done. lia.
  - split_and!; [done|etrans; [exact H2|apply delete_subseteq]|]. rewrite H3. by apply lookup_delete_ne.
Qed.

Lemma dropExpired_spec now keep m : dropExpired walk now keep m ⊆ m ∧ dropExpired walk now keep m !! keep = m !! keep.
Proof.
  unfold dropExpired. generalize (walk m). intros l. induction l as [|kv l [IH1 IH2]]; [done|]. cbn [foldr].
  destruct (expired now keep kv) eqn:E; [|done]. split; [etrans; [apply delete_subseteq|done]|]. rewrite lookup_delete_ne; [done|].
  unfold expired in E. apply andb_true_iff in E as [E _]. apply negb_true_iff, String.eqb_neq in E. done.
Qed.

(** Eviction leaves room for one, takes nothing else away, and spares the session that
    is being opened. *)
Lemma evict_spec now keep m : keyed m →
  (size (evictLocked walk now keep m) < maxTransientSessions)%nat ∧ evictLocked walk now keep m ⊆ m ∧ evictLocked walk now keep m !! keep = m !! keep.
Proof.
  intros Hk. unfold evictLocked. destruct (dropExpired_spec now keep m) as [H1 H2]. destruct (dropOldest_spec (size (dropExpired walk now keep m)) keep (dropExpired walk now keep m)) as (H3 & H4 & H5).
  - unfold keyed in *. eapply lookup_weaken_None; eauto.
  - unfold maxTransientSessions. lia.
  - split_and!; [done|by etrans|by rewrite H5].
Qed.

(** Calls of the store, with the time they read. *)
Inductive call := COpen (now : Z) (key : string) | CDelete (key : string) | CCount (now : Z) | CTouch (key : string) (t : TransientSession).

(** [CTouch] is any change a holder of a session makes to it. *)
Definition step (c : call) (m : TransientStore) : TransientStore :=
  match c with
  | COpen now key => Open walk now key m
  | CDelete key => Delete key m
  | CCount now => (Count walk now m).1
  | CTouch key t => if decide (is_Some (m !! key)) then <[key := t]> m else m
  end.
Definition okCall (c : call) : Prop := match c with COpen _ key => key ≠ "" | _ => True end.

Definition bounded (m : TransientStore) : Prop := keyed m ∧ (size m ≤ maxTransientSessions)%nat.

Lemma keyed_sub m m' : m' ⊆ m → keyed m → keyed m'.
Proof. intros Hs Hk. unfold keyed in *. eapply lookup_weaken_None; eauto. Qed.

Lemma step_bounded c m : okCall c → bounded m → bounded (step c m).
Proof.
  intros Hok [Hk Hs]. destruct c as [now key|key|now|key t]; cbn [step] in *.
  - unfold Open. destruct (evict_spec now key m Hk) as (H1 & H2 & H3). set (m' := evictLocked walk now key m) in *. assert (keyed m') as Hk' by (by eapply keyed_sub).
    assert (∀ t, bounded (<[key := t]> m')) as Hins; [|by destruct (m' !! key)]. intros t. cbn in Hok. split; [unfold keyed; by rewrite lookup_insert_ne|].
    destruct (m' !! key) as [v|] eqn:E; [rewrite map_size_insert_Some by eauto|rewrite map_size_insert_None by done]; lia.
  - split; [eapply keyed_sub; [apply delete_subseteq|done]|]. unfold Delete. etrans; [apply map_subseteq_size, delete_subseteq|done].
  - destruct (evict_spec now "" m Hk) as (H1 & H2 & _). split; [by eapply keyed_sub|]. cbn. lia.
  - destruct (decide _) as [[v Hv]|]; [|done]. split; [|by rewrite map_size_insert_Some by eauto]. unfold keyed in *. rewrite lookup_insert_ne; [done|]. intros ->. congruence.
Qed.

(** Whatever is opened, counted, deleted and used in whatever order, there are never
    more than 64 temporary sessions, and opening one that exists finds it as it was. *)
Theorem transient_bounded calls :
  Forall okCall calls →
  let m := foldl (λ m c, step c m) ∅ calls in
  (size m ≤ maxTransientSessions)%nat ∧
  ∀ now key t, m !! key = Some t → Open walk now key m !! key = Some (touch now t).
Proof.
  intros Hok. cbn zeta. assert (∀ m, bounded m → bounded (foldl (λ m c, step c m) m calls)) as Hb.
  { induction Hok as [|c cs Hc _ IH]; intros m Hm; [done|]. cbn. by apply IH, step_bounded. }
  destruct (Hb ∅) as [Hk Hs]; [split; [done|rewrite map_size_empty; unfold maxTransientSessions; lia]|]. split; [done|]. intros now key t Hm. set (m := foldl _ _ _) in *. unfold Open.
  destruct (evict_spec now key m Hk) as (_ & _ & E). rewrite E, Hm. by rewrite lookup_insert_eq.
Qed.
End Bound.

(** ** Examples *)

Definition demoKeys : list string := map (λ i, "webui:tmp_" +:+ Itoa (Z.of_nat i)) (seq 0 64).
Definition demoStore : TransientStore := foldl (λ m kc, Open map_to_list (Z.of_nat kc.1) kc.2 m) ∅ (zip (seq 0 64) demoKeys).

(** Counting at capacity throws the least recently used session away, although none is
    idle: the method that only reports how many there are is one less than there were. *)
Theorem count_evicts : size demoStore = 64%nat ∧ (Count map_to_list 100 demoStore).2 = 63%nat ∧ (Count map_to_list 100 demoStore).1 !! "webui:tmp_0" = None.
Proof. vm_compute. split_and!; reflexivity. Qed.

(** A history that starts with a tool result whose call was cut off. *)
Theorem transient_history_illegal :
  let t := mkT "webui:tmp_0" [NewMessage RoleUser "list"; demoAssistant "" [demoCall "c1" "ls"]; demoResult "c1"] ∅ 0 0 in
  getHistory t 1 = [demoResult "c1"].
Proof. vm_compute. reflexivity. Qed.

Lemma transient_bounded_witness :
  let m := foldl (λ m c, step map_to_list c m) ∅ [COpen 0 "webui:tmp_1"; COpen 5 "webui:tmp_2"; CCount 9] in
  (size m ≤ maxTransientSessions)%nat ∧ ∀ now key t, m !! key = Some t → Open map_to_list now key m !! key = Some (touch now t).
Proof. apply (transient_bounded map_to_list (λ m, reflexivity _) [COpen 0 "webui:tmp_1"; COpen 5 "webui:tmp_2"; CCount 9]). repeat constructor; done. Defined.
