(* ===== verification/Events.v ===== *)
(** * Outbound messages and their events (src/internal/events, internal/core/types.go)

    An [AgentEvent] is an interface value: an event, or a pointer to one.  The
    helpers that build and rewrite a message for an event, the views of an event
    that the channel manager dispatches on, and the delivery policy of
    notifications. *)

From Stdlib Require Import Ascii.
From S2P Require Import Prelude GoText GoLib PyFloat GoFmt Core GoJson.
#[local] Open Scope string_scope.
#[local] Open Scope list_scope.

(** ** Events *)

Record ProgressEvent := mkProgress {
  pe_Content : string; pe_ToolHint : bool; pe_Reasoning : bool; pe_ReasoningDelta : bool; pe_ReasoningEnd : bool;
  pe_StreamID : option string; pe_ToolEvents : list json; pe_FileEditEvents : list json }.

Record StreamDeltaEvent := mkDelta { sd_Content : string; sd_StreamID : option string }.

Record StreamEndEvent := mkEnd { se_Content : string; se_StreamID : option string; se_Resuming : bool; se_MergeNext : bool }.

Inductive ContextCompactionPhase := CompactionStarted | CompactionSucceeded | CompactionFailed | CompactionCancelled.

(** A [RetryStatusEvent] and a [RecoveryStateEvent] keep the fields as the value they
    encode to; [EvOther] is an event of another package, by its name. *)
Inductive Event :=
  | EvProgress (p : ProgressEvent)
  | EvFileEdit (p : ProgressEvent)
  | EvStreamDelta (d : StreamDeltaEvent)
  | EvStreamEnd (e : StreamEndEvent)
  | EvStreamedResponse
  | EvRetryWait (content : string)
  | EvContextCompaction (compactionID : string) (phase : ContextCompactionPhase)
  | EvRetryStatus (fields : json)
  | EvRecoveryState (fields : json)
  | EvOther (name : string).

(** [ENilPointer] is a nil pointer to one of the event types [normalizeEvent] lists. *)
Inductive AgentEvent := EValue (e : Event) | EPointer (e : Event) | ENilPointer.

Record OutboundMessage := mkOut {
  out_Channel : string; out_ChatID : string; out_Content : string; out_ReplyTo : option string;
  out_Media : list string; out_Metadata : gmap string json; out_Buttons : list (list string);
  out_Event : option AgentEvent }.

Definition EventName (e : Event) : string :=
  match e with
  | EvProgress _ => "ProgressEvent" | EvFileEdit _ => "FileEditEvent" | EvStreamDelta _ => "StreamDeltaEvent"
  | EvStreamEnd _ => "StreamEndEvent" | EvStreamedResponse => "StreamedResponseEvent" | EvRetryWait _ => "RetryWaitEvent"
  | EvContextCompaction _ _ => "ContextCompactionEvent" | EvRetryStatus _ => "RetryStatusEvent"
  | EvRecoveryState _ => "RecoveryStateEvent" | EvOther name => name
  end.

Definition progressView (e : Event) : option ProgressEvent :=
  match e with EvProgress p | EvFileEdit p => Some p | _ => None end.

(** The method is promoted to pointers; on a nil pointer it panics, which no caller
    reaches as they normalize first. *)
Definition ProgressOf (e : option AgentEvent) : option ProgressEvent :=
  match e with Some (EValue e | EPointer e) => progressView e | _ => None end.

(** The type switch on values: pointers fall through. *)
Definition eventContent (event : option AgentEvent) : string :=
  match ProgressOf event with
  | Some p => pe_Content p
  | None =>
      match event with
      | Some (EValue (EvRetryWait c)) => c
      | Some (EValue (EvStreamDelta d)) => sd_Content d
      | Some (EValue (EvStreamEnd e)) => se_Content e
      | Some (EValue (EvContextCompaction _ phase)) =>
          match phase with
          | CompactionStarted => "Compressing context" +:+ of_runes [0x2026%Z]
          | CompactionFailed => "Unable to compact context."
          | CompactionCancelled => "Context compaction cancelled."
          | CompactionSucceeded => "Context compacted."
          end
      | _ => ""
      end
  end.

Definition OutboundMessageForEvent (channel chatID : string) (event : option AgentEvent) (content : option string)
    (metadata : gmap string json) : OutboundMessage :=
  mkOut channel chatID (default (eventContent event) content) None [] metadata [] event.

Definition ReplaceOutboundEvent (msg : OutboundMessage) (event : option AgentEvent) (content : option string) : OutboundMessage :=
  mkOut (out_Channel msg) (out_ChatID msg) (default (eventContent event) content) (out_ReplyTo msg)
    (out_Media msg) (out_Metadata msg) (out_Buttons msg) event.

(** ** Views of the channel manager (src/internal/channels/manager_outbound.go, base.go) *)

(** [normalizeEvent]: a pointer to one of six types becomes its value. *)
Definition normalizeEvent (event : option AgentEvent) : option AgentEvent :=
  match event with
  | Some (EPointer ((EvProgress _ | EvFileEdit _ | EvStreamDelta _ | EvStreamEnd _ | EvStreamedResponse | EvRetryWait _) as e)) => Some (EValue e)
  | Some ENilPointer => None
  | _ => event
  end.

Definition EventStreamID (event : option AgentEvent) : option string :=
  match ProgressOf event with
  | Some p => pe_StreamID p
  | None =>
      match event with
      | Some (EValue (EvStreamDelta d) | EPointer (EvStreamDelta d)) => sd_StreamID d
      | Some (EValue (EvStreamEnd e) | EPointer (EvStreamEnd e)) => se_StreamID e
      | _ => None
      end
  end.

Definition runtimeModelUpdatedEventName : string := "RuntimeModelUpdatedEvent".
Definition isRuntimeModelUpdatedEvent (event : option AgentEvent) : bool :=
  match event with Some (EValue e | EPointer e) => String.eqb (EventName e) runtimeModelUpdatedEventName | _ => false end.

(** ** Who may be notified (notification.go) *)

Inductive NotificationAudience := AudienceChannel | AudienceLifecycle | AudienceInteractive.

(** The table by type; an absent type is not deliverable. *)
Definition notificationAudiences (e : Event) : option NotificationAudience :=
  match e with
  | EvProgress _ | EvFileEdit _ | EvRetryWait _ => Some AudienceLifecycle
  | EvStreamDelta _ | EvStreamEnd _ | EvContextCompaction _ _ => Some AudienceChannel
  | EvRecoveryState _ | EvRetryStatus _ => Some AudienceInteractive
  | EvStreamedResponse | EvOther _ => None
  end.

Definition isRetryStatus (e : Event) : bool := match e with EvRetryStatus _ => true | _ => false end.

(** The type of a value is given by any value of it. *)
Definition NotificationIsDeliverable (eventType : Event) (channel : string) (publishLifecycle : bool) : bool :=
  match notificationAudiences eventType with
  | None => false
  | Some AudienceLifecycle => publishLifecycle
  | Some AudienceInteractive => String.eqb channel "websocket" && (negb (isRetryStatus eventType) || publishLifecycle)
  | Some AudienceChannel => true
  end.

Lemma normalize_idem e : normalizeEvent (normalizeEvent e) = normalizeEvent e.
Proof. by destruct e as [[e|e|]|]; try destruct e. Qed.

(** A pointer to a delta loses its text where the event's own content is used. *)
Example pointer_content : eventContent (Some (EPointer (EvStreamDelta (mkDelta "hi" None)))) = ""
  ∧ eventContent (normalizeEvent (Some (EPointer (EvStreamDelta (mkDelta "hi" None))))) = "hi".
Proof. done. Qed.
