(* ===== verification/Channels.v ===== *)
(** * What channels share (src/internal/channels/base.go, section.go, delivery_policy.go)

    A channel is what its type implements: which of the optional methods it has, its
    delivery policy and its identity.  The calls the program makes to a channel are
    recorded, and what a call answers is a parameter.  [HandleMessage] is the way in:
    who may talk to the agent, and what the others are told. *)

From S2P Require Import Prelude GoText GoLib PyFloat Regex GoFmt Core GoJson Bus Pairing Events.
#[local] Open Scope string_scope.
#[local] Open Scope list_scope.
#[local] Open Scope Z_scope.

(** ** Configuration of a channel (section.go) *)

(** A decoded map, or an object with two attributes; values are as JSON decodes
    them. *)
Inductive Section_ := SecMap (raw : gmap string json) | SecObj (AllowFrom Streaming : json) | SecNone.

Definition pyTruthy (v : json) : bool :=
  match v with
  | JNull => false
  | JBool b => b
  | JStr s => negb (String.eqb s "")
  | JNum lit => match Float64 lit with None => true | Some (Fin _ m) => negb (m =? 0) | Some _ => true end
  | JArr items => negb (Nat.eqb (length items) 0)
  | JObj fields => negb (Nat.eqb (length fields) 0)
  end.

(** [m[key]]: nil when absent. *)
Definition valueAt (m : gmap string json) (key : string) : json := default JNull (m !! key).

Definition allowValue (s : Section_) : json :=
  match s with
  | SecMap raw =>
      if pyTruthy (valueAt raw "allow_from") then valueAt raw "allow_from"
      else if pyTruthy (valueAt raw "allowFrom") then valueAt raw "allowFrom" else JArr []
  | SecObj allow _ => if pyTruthy allow then allow else JArr []
  | SecNone => JArr []
  end.

Definition streamingValue (s : Section_) : json :=
  match s with SecMap raw => valueAt raw "streaming" | SecObj _ streaming => streaming | SecNone => JNull end.

(** Python's [in]: an element of a list, a part of a string, a key of a map. *)
Definition containsToken (value : json) (token : string) : bool :=
  match value with
  | JArr items => existsb (λ item, match item with JStr s => String.eqb s token | _ => false end) items
  | JStr v => Contains v token
  | JObj fields => existsb (λ kv, String.eqb kv.1 token) fields
  | _ => false
  end.

(** ** Delivery policy (delivery_policy.go) *)

Definition boolCamelAliases (key : string) : option string :=
  if String.eqb key "send_progress" then Some "sendProgress"
  else if String.eqb key "send_tool_hints" then Some "sendToolHints"
  else if String.eqb key "show_reasoning" then Some "showReasoning" else None.

Definition ResolveBoolOverride (section : gmap string json) (key : string) (def : bool) : bool :=
  let value := match valueAt section key with
               | JNull => match boolCamelAliases key with Some camel => valueAt section camel | None => JNull end
               | v => v
               end in
  match value with JBool b => b | _ => def end.

Record DeliveryPolicy := mkPolicy { SendProgress : bool; SendToolHints : bool; ShowReasoning : bool }.

(** ** Channels *)

(** [RBase] is the method promoted from [Base], [ROwn] a method of the channel. *)
Inductive reasoningMethod := RNone | RBase | ROwn.

(** [ch_policy] is the stored policy with whether it can be written, [None] for a
    channel without the reading half; [ch_transport] is what
    [ProgressTransportDefaults] answers. *)
Record Channel := mkChannel {
  ch_id : nat; ch_comparable : bool;
  ch_Delta : bool; ch_ReasoningDelta : bool; ch_ReasoningEnd : bool; ch_FileEdits : bool; ch_Reasoning : reasoningMethod;
  ch_policy : option (DeliveryPolicy * bool); ch_transport : option (bool * bool) }.

Definition deliveryPolicy (ch : Channel) : DeliveryPolicy :=
  match ch_policy ch with Some (p, _) => p | None => mkPolicy true true true end.

Definition ApplyDeliveryPolicy (section : gmap string json) (global : DeliveryPolicy) (ch : Channel) : Channel :=
  let '(progressDefault, toolHintsDefault) := default (SendProgress global, SendToolHints global) (ch_transport ch) in
  match ch_policy ch with
  | Some (_, true) =>
      let p := mkPolicy (ResolveBoolOverride section "send_progress" progressDefault)
                 (ResolveBoolOverride section "send_tool_hints" toolHintsDefault)
                 (ResolveBoolOverride section "show_reasoning" (ShowReasoning global)) in
      mkChannel (ch_id ch) (ch_comparable ch) (ch_Delta ch) (ch_ReasoningDelta ch) (ch_ReasoningEnd ch) (ch_FileEdits ch)
        (ch_Reasoning ch) (Some (p, true)) (ch_transport ch)
  | _ => ch
  end.

(** ** Calls to a channel *)

Record DeltaOptions := mkOpts { do_StreamID : option string; do_StreamEnd : bool; do_Resuming : bool; do_MergeNext : bool }.

Inductive Call :=
  | CSend (msg : OutboundMessage)
  | CDelta (chatID delta : string) (metadata : gmap string json) (opts : DeltaOptions)
  | CReasoningDelta (chatID delta : string) (metadata : gmap string json) (streamID : option string)
  | CReasoningEnd (chatID : string) (metadata : gmap string json) (streamID : option string)
  | CReasoning (msg : OutboundMessage)
  | CFileEdits (chatID : string) (edits : list json) (metadata : gmap string json).

Section Calls.
(** [answer calls c] is what call [c] returns after [calls]: [None] is no error. *)
Context {Err : Type} (answer : list Call → Call → option Err).

(** The calls made so far, and the error of the last one. *)
Definition send (c : Call) (calls : list Call) : list Call * option Err := (calls ++ [c], answer calls c).

(** [Base.SendReasoning], and the bridge of the manager for a channel without it. *)
Definition reasoningBridge (ch : Channel) (msg : OutboundMessage) (calls : list Call) : list Call * option Err :=
  if String.eqb (out_Content msg) "" then (calls, None) else
  let streamID := EventStreamID (out_Event msg) in
  let '(calls, err) := if ch_ReasoningDelta ch then send (CReasoningDelta (out_ChatID msg) (out_Content msg) (out_Metadata msg) streamID) calls
                       else (calls, None) in
  match err with
  | Some e => (calls, Some e)
  | None => if ch_ReasoningEnd ch then send (CReasoningEnd (out_ChatID msg) (out_Metadata msg) streamID) calls else (calls, None)
  end.

(** ** The way in *)

Context {EventHandler : Type}.
Abbreviation MessageBus := (@Bus.Bus InboundMessage OutboundMessage EventHandler).
Context `{PrintTable}.

Record Base := mkBase { b_self : option Channel; b_name : string; b_config : Section_; b_bus : bool }.

Record InboundRequest := mkRequest {
  rq_SenderID : string; rq_ChatID : string; rq_Content : string; rq_Media : list string; rq_Metadata : gmap string RawJSON;
  rq_SessionKey : option string; rq_IsDM : bool; rq_AuthorizationID : option string; rq_RequireExistingSession : bool }.

Definition WantsStreamMetaKey : string := "_wants_stream".
Definition PairingCodeMetaKey : string := "_pairing_code".
Definition DefaultTTLSeconds : Z := 600.

Definition FormatPairingReply (code : string) : string :=
  let nl := newline in let tick := "`" in
  "Hi! This is your private nanobot." +:+ nl +:+ nl +:+ "Your pairing code is: " +:+ tick +:+ code +:+ tick +:+ nl +:+ nl +:+
  "Open the nanobot WebUI and enter this code to pair your chat account." +:+ nl +:+
  "Without the WebUI, approve it from an already paired chat with " +:+ tick +:+ "/pairing approve " +:+ code +:+ tick +:+ ".".

Definition IsAllowed (b : Base) (senderID : string) (f : file) : bool :=
  let allowList := allowValue (b_config b) in
  containsToken allowList "*" || containsToken allowList senderID || IsApproved (b_name b) senderID f.

Definition SupportsStreaming (b : Base) : bool :=
  pyTruthy (streamingValue (b_config b)) && match b_self b with Some ch => ch_Delta ch | None => false end.

Inductive HandleErr := ErrNoChannel | ErrNoBus | ErrStore (e : ioErr) | ErrSend (e : Err) | ErrPublish (e : BusErr).

(** Every error of the store is a [*StoreIOError]. *)
Definition IsStoreIOError (e : ioErr) : bool := match e with ErrRead | ErrWrite | ErrRandom => true end.

(** The store file, the bus and the calls made. *)
Record World := mkWorld { w_file : file; w_bus : MessageBus; w_calls : list Call }.

Definition permissionID (req : InboundRequest) : string := default (rq_SenderID req) (rq_AuthorizationID req).

Definition pairingReply (b : Base) (req : InboundRequest) (code : string) : OutboundMessage :=
  mkOut (b_name b) (rq_ChatID req) (FormatPairingReply code) None [] {[PairingCodeMetaKey := JStr code]} [] None.

Definition inboundMessage (b : Base) (req : InboundRequest) (timestamp : Z) : InboundMessage := {|
  in_Channel := b_name b; in_SenderID := rq_SenderID req; in_ChatID := rq_ChatID req; in_Content := rq_Content req;
  in_Timestamp := timestamp; in_Media := rq_Media req;
  in_Metadata := if SupportsStreaming b then <[WantsStreamMetaKey := "true"]> (rq_Metadata req) else rq_Metadata req;
  in_SessionKeyOverride := rq_SessionKey req; in_RequireExistingSess := rq_RequireExistingSession req; in_InputRole := None |}.

(** What others did to the store. *)
Definition storeOps (ops : list (op * bool)) (f : file) : file := foldl (λ f o, run o.1 o.2 f) f ops.

(** [between] is what others do to the store after the permission check; [now],
    [stream] and [ok] are the store's clock, its random bytes and whether its write
    succeeds; [timestamp] is the clock of the message. *)
Definition HandleMessage (b : Base) (req : InboundRequest) (ctx : option CtxErr) (between : list (op * bool)) (now : float64)
    (stream : list Z) (ok : bool) (timestamp : Z) (w : World) : World * option HandleErr :=
  match b_self b with
  | None => (w, Some ErrNoChannel)
  | Some _ =>
      if negb (IsAllowed b (permissionID req) (w_file w)) then
        if negb (rq_IsDM req) then (w, None) else
        let '(f, r) := GenerateCode (b_name b) (rq_SenderID req) DefaultTTLSeconds now stream ok (storeOps between (w_file w)) in
        let w := mkWorld f (w_bus w) (w_calls w) in
        match r with
        | inl e => if IsStoreIOError e then (w, None) else (w, Some (ErrStore e))
        | inr code =>
            let '(calls, err) := send (CSend (pairingReply b req code)) (w_calls w) in
            (mkWorld f (w_bus w) calls, ErrSend <$> err)
        end
      else if negb (b_bus b) then (w, Some ErrNoBus)
      else let '(bus, err) := PublishInbound ctx (inboundMessage b req timestamp) (w_bus w) in
           (mkWorld (w_file w) bus (w_calls w), ErrPublish <$> err)
  end.

(** ** Results *)

(** A request or an operation of the pairing store. *)
Inductive event :=
  | EvRequest (req : InboundRequest) (ctx : option CtxErr) (between : list (op * bool)) (now : float64) (stream : list Z) (ok : bool) (timestamp : Z)
  | EvStore (o : op) (ok : bool).

Definition act (b : Base) (e : event) (w : World) : World :=
  match e with
  | EvRequest req ctx between now stream ok timestamp => (HandleMessage b req ctx between now stream ok timestamp w).1
  | EvStore o ok => mkWorld (run o ok (w_file w)) (w_bus w) (w_calls w)
  end.

Definition acts (b : Base) (es : list event) (w : World) : World := foldl (λ w e, act b e w) w es.

(** The store operations an event performs, those of others included. *)
Definition opsOf (b : Base) (w : World) (e : event) : list (op * bool) :=
  match e with
  | EvRequest req _ between now stream ok _ =>
      if bool_decide (is_Some (b_self b)) && negb (IsAllowed b (permissionID req) (w_file w)) && rq_IsDM req
      then between ++ [(OGenerate (b_name b) (rq_SenderID req) DefaultTTLSeconds now stream, ok)] else []
  | EvStore o ok => [(o, ok)]
  end.

Fixpoint traceOps (b : Base) (w : World) (es : list event) : list (op * bool) :=
  match es with [] => [] | e :: es => opsOf b w e ++ traceOps b (act b e w) es end.

(** The configuration names the sender. *)
Definition configured (b : Base) (senderID : string) : bool :=
  containsToken (allowValue (b_config b)) "*" || containsToken (allowValue (b_config b)) senderID.

Lemma storeOps_app l1 l2 f : storeOps (l1 ++ l2) f = storeOps l2 (storeOps l1 f).
Proof. apply foldl_app. Qed.

(** Approval comes from the start or from a live code. *)
Lemma storeOps_approved ops f c s :
  file_ok f → file_ok (storeOps ops f) ∧
  (IsApproved c s (storeOps ops f) = true →
   IsApproved c s f = true ∨
   ∃ l1 l2 code now ok, ops = l1 ++ (OApprove code now, ok) :: l2 ∧ requested (storeOps l1 f) code now c s).
Proof.
  revert f. induction ops as [|[o ok] ops IH]; intros f Hf; [by auto|]. change (storeOps ((o, ok) :: ops) f) with (storeOps ops (run o ok f)).
  destruct (run_admits o ok f c s Hf) as (Hf' & _ & Ha). destruct (IH _ Hf') as [Hok H2]. split; [done|]. intros H3.
  destruct (H2 H3) as [H4|(l1 & l2 & code & now & ok' & -> & Hr)].
  - destruct (Ha H4) as [|(code & now & -> & Hr)]; [by left|]. right. by exists [], ops, code, now, ok.
  - right. by exists ((o, ok) :: l1), l2, code, now, ok'.
Qed.

Lemma act_file b e w : w_file (act b e w) = storeOps (opsOf b w e) (w_file w).
Proof.
  destruct e as [req ctx between now stream ok ts|o ok]; [|done]. cbn [act opsOf]. unfold HandleMessage.
  destruct (b_self b) as [ch|]; [rewrite bool_decide_eq_true_2 by eauto|by rewrite bool_decide_eq_false_2 by (intros [? ?]; done)]. cbn [andb].
  destruct (negb (IsAllowed _ _ _)); cbn [andb].
  - destruct (rq_IsDM req); cbn [negb]; [|done]. rewrite storeOps_app. cbn [storeOps foldl fst snd run]. fold (storeOps between (w_file w)).
    destruct (GenerateCode _ _ _ _ _ _ _) as [f [e|code]]; cbn; [by destruct (IsStoreIOError e)|done].
  - destruct (negb (b_bus b)); [done|]. by destruct (PublishInbound _ _ _).
Qed.

Lemma acts_file b es w : w_file (acts b es w) = storeOps (traceOps b w es) (w_file w).
Proof.
  revert w. induction es as [|e es IH]; intros w; [done|]. cbn [traceOps]. rewrite storeOps_app, <- act_file. apply IH.
Qed.

(** Only an allowed request puts a message on the bus. *)
Lemma act_bus b e w m : m ∈ inbound (w_bus (act b e w)) →
  m ∈ inbound (w_bus w) ∨
  ∃ req ctx between now stream ok ts, e = EvRequest req ctx between now stream ok ts ∧ m = inboundMessage b req ts ∧
    IsAllowed b (permissionID req) (w_file w) = true.
Proof.
  destruct e as [req ctx between now stream ok ts|o ok]; [|by left]. cbn [act]. unfold HandleMessage. destruct (b_self b); [|by left].
  destruct (IsAllowed b (permissionID req) (w_file w)) eqn:E; cbn [negb].
  - destruct (negb (b_bus b)); [by left|]. unfold PublishInbound. repeat case_match; simplify_eq/=; try by left. all: rewrite elem_of_app, list_elem_of_singleton; intros [| ->]; [by left|right]; by eexists _, _, _, _, _, _, _.
  - destruct (negb (rq_IsDM req)); [by left|]. destruct (GenerateCode _ _ _ _ _ _ _) as [f [e|code]]; cbn; [destruct (IsStoreIOError e)|]; by left.
Qed.

(** C12. Nobody reaches the agent uninvited: whatever requests a channel handles and
    whatever is done to the pairing store meanwhile, a message on the bus was there
    before or came from a sender (or the group it speaks for) that the configuration
    names, that was approved at the start, or for whom a live code that had been
    requested on this channel was approved before the request. *)
Theorem stranger_needs_code b es w m :
  file_ok (w_file w) → m ∈ inbound (w_bus (acts b es w)) →
  m ∈ inbound (w_bus w) ∨
  ∃ es1 req ctx between now stream ok ts es2,
    es = es1 ++ EvRequest req ctx between now stream ok ts :: es2 ∧ m = inboundMessage b req ts ∧
    (configured b (permissionID req) = true ∨ IsApproved (b_name b) (permissionID req) (w_file w) = true ∨
     ∃ l1 l2 code at_ ok', traceOps b w es1 = l1 ++ (OApprove code at_, ok') :: l2 ∧
       requested (storeOps l1 (w_file w)) code at_ (b_name b) (permissionID req)).
Proof.
  intros Hf. induction es as [|e es IH] using rev_ind; [by left|]. unfold acts. rewrite foldl_snoc. fold (acts b es w). intros [Hm|Hm]%act_bus.
  - destruct (IH Hm) as [|(es1 & req & ctx & bt & now & st & ok & ts & es2 & -> & Hreq)]; [by left|]. right.
    exists es1, req, ctx, bt, now, st, ok, ts, (es2 ++ [e]). by rewrite <- app_assoc.
  - right. destruct Hm as (req & ctx & bt & now & st & ok & ts & -> & -> & Ha). exists es, req, ctx, bt, now, st, ok, ts, []. split_and!; [done..|].
    unfold IsAllowed in Ha. rewrite acts_file in Ha. fold (configured b (permissionID req)) in Ha. apply orb_true_iff in Ha as [Ha|Ha]; [by left|right].
    by apply (storeOps_approved (traceOps b w es) _ (b_name b) (permissionID req) Hf).
Qed.

(** A denied sender leaves no trace but, in a direct message, one answer with a code
    that is pending for it. *)
Lemma denied_only_paired b req ctx between now stream ok ts w ch :
  b_self b = Some ch → IsAllowed b (permissionID req) (w_file w) = false →
  let w' := (HandleMessage b req ctx between now stream ok ts w).1 in
  w_bus w' = w_bus w ∧
  (w_calls w' = w_calls w ∨ rq_IsDM req = true ∧ ∃ code, w_calls w' = w_calls w ++ [CSend (pairingReply b req code)]).
Proof.
  intros Hs Ha. cbn zeta. unfold HandleMessage. rewrite Hs, Ha. cbn [negb]. destruct (rq_IsDM req); cbn [negb]; [|by auto].
  destruct (GenerateCode _ _ _ _ _ _ _) as [f [e|code]]; cbn; [destruct (IsStoreIOError e); by auto|]. split; [done|right]. by eauto.
Qed.
End Calls.

(** A request for a group with an empty identity is let in by any allowlist written as
    a text: every text contains the empty one. *)
Example empty_identity_allowed :
  configured (mkBase None "telegram" (SecMap {["allow_from" := JStr "alice,bob"]}) true) "" = true
  ∧ configured (mkBase None "telegram" (SecMap {["allow_from" := JStr "alice,bob"]}) true) "li" = true.
Proof. by vm_compute. Qed.

#[local] Instance print_ascii : PrintTable := λ r, (32 <=? r) && (r <? 127).

Definition demo_base : Base := mkBase (Some (mkChannel 0 true true false false false RBase (Some (mkPolicy true true true, true)) None)) "telegram" SecNone true.
Definition demo_request : InboundRequest := mkRequest "ann" "42" "hello" [] ∅ None true None false.
Definition demo_world : World := mkWorld (EventHandler := unit) demo_store (New {| MaxInbound := 10; MaxOutbound := 10 |}) [].
Definition demo_events : list event :=
  [EvRequest demo_request None [] (of_int 150) [] true 1; EvStore (OApprove "AAAA-AAAB" (of_int 200)) true;
   EvRequest demo_request None [] (of_int 250) [] true 2].

(** Before the approval ann is only told the code that is pending for her. *)
Lemma stranger_needs_code_witness :
  length (inbound (w_bus (acts (λ _ _, @None unit) demo_base demo_events demo_world))) = 1%nat ∧
  length (w_calls (acts (λ _ _, @None unit) demo_base demo_events demo_world)) = 1%nat ∧
  ∃ es1 l1 l2 code at_ ok', traceOps (λ _ _, @None unit) demo_base demo_world es1 = l1 ++ (OApprove code at_, ok') :: l2
    ∧ requested (storeOps l1 demo_store) code at_ "telegram" "ann".
Proof.
  split; [by vm_compute|split; [by vm_compute|]].
  destruct (stranger_needs_code (λ _ _, @None unit) demo_base demo_events demo_world (inboundMessage demo_base demo_request 2) demo_store_ok)
    as [Hm|(es1 & req & ctx & bt & now & st & ok & ts & es2 & Hes & Hm & Ha)].
  - vm_compute. left.
  - vm_compute in Hm. by apply elem_of_nil in Hm.
  - assert (permissionID req = "ann") as Hp.
    { assert (EvRequest req ctx bt now st ok ts ∈ demo_events) as Hin by (rewrite Hes, elem_of_app; right; left). unfold demo_events in Hin.
      rewrite !elem_of_cons, elem_of_nil in Hin. destruct Hin as [[= ->]|[|[[= ->]|[]]]]; done. }
    rewrite Hp in Ha. destruct Ha as [Ha|[Ha|Ha]]; [by vm_compute in Ha..|]. destruct Ha as (l1 & l2 & code & at_ & ok' & Ha). by exists es1, l1, l2, code, at_, ok'.
Defined.
