(* ===== verification/Outbound.v ===== *)
(** * The outbound path of the channel manager (src/internal/channels/manager_outbound.go)

    From the bus to one delivery: duplicate suppression with its bounded memory, the
    merging of stream deltas, the gates of the dispatcher, and a delivery with its
    retries.  The tasks that carry deliveries are in [OutboundTasks]. *)

From S2P Require Import Prelude GoText GoLib PyFloat Regex GoFmt Core GoJson Bus Pairing Events Channels.
#[local] Open Scope string_scope.
#[local] Open Scope list_scope.
#[local] Open Scope Z_scope.

(** ** The memory of fingerprints *)

Record fingerprintKey := mkFkey { fk_channel : string; fk_chatID : string; fk_id : string }.
#[export] Instance fingerprintKey_eq_dec : EqDecision fingerprintKey.
Proof. solve_decision. Defined.

(** [order], oldest first; [index] finds the element of a key. *)
Record fingerprintStore := mkStore { fs_max : Z; fs_order : list (fingerprintKey * string) }.

Definition newFingerprintStore (max : Z) : fingerprintStore := mkStore max [].

Definition indexOf (order : list (fingerprintKey * string)) (key : fingerprintKey) : option string :=
  snd <$> (snd <$> list_find (λ e, e.1 = key) order).

Definition get_fingerprint (s : fingerprintStore) (key : fingerprintKey) : string := default "" (indexOf (fs_order s) key).

(** The elements but the one of a key. *)
Definition removeKey (key : fingerprintKey) (order : list (fingerprintKey * string)) : list (fingerprintKey * string) :=
  List.filter (λ e, negb (bool_decide (e.1 = key))) order.

Definition touch (key : fingerprintKey) (s : fingerprintStore) : fingerprintStore :=
  match indexOf (fs_order s) key with
  | Some fp => mkStore (fs_max s) (removeKey key (fs_order s) ++ [(key, fp)])
  | None => s
  end.

(** Evicting from the front. *)
Definition evict (max : Z) (order : list (fingerprintKey * string)) : list (fingerprintKey * string) :=
  if 0 <? max then drop (length order - Z.to_nat max) order else order.

Definition remember (key : fingerprintKey) (fingerprint : string) (s : fingerprintStore) : fingerprintStore :=
  mkStore (fs_max s) (evict (fs_max s) (removeKey key (fs_order s) ++ [(key, fingerprint)])).

Definition OriginReplyFingerprintsMaxSize : Z := 1000.

Section Suppression.
(** SHA-1, as hexadecimal text. *)
Context (sha1hex : string → string).

(** [b] is what is written, [first] whether nothing is, [cur] the word that has begun
    ([start >= 0]). *)
Definition writeWord (b : string) (first : bool) (word : string) : string := (if first then b else b +:+ " ") +:+ word.

Fixpoint joinPySplit_loop (fuel : nat) (s b : string) (first : bool) (cur : option string) : string :=
  let flush := match cur with Some word => writeWord b first word | None => b end in
  match fuel, s with
  | O, _ | _, "" => flush
  | S fuel, _ =>
      let '(r, size) := DecodeRune s in
      if PyIsSpace r then joinPySplit_loop fuel (sdrop size s) flush (first && negb (bool_decide (is_Some cur))) None
      else joinPySplit_loop fuel (sdrop size s) b first (Some (default "" cur +:+ stake size s))
  end.

Definition joinPySplit (s : string) : string := joinPySplit_loop (slen s) s "" true None.

Definition FingerprintContent (content : string) : string :=
  let normalized := joinPySplit content in
  if String.eqb normalized "" then "" else sha1hex normalized.

Definition stringMetadata (metadata : gmap string json) (key : string) : option string :=
  match metadata !! key with Some (JStr v) => if String.eqb v "" then None else Some v | _ => None end.

Definition keyOf (msg : OutboundMessage) (id : string) : fingerprintKey := mkFkey (out_Channel msg) (out_ChatID msg) id.

Definition rememberMessageID (msg : OutboundMessage) (fingerprint : string) (s : fingerprintStore) : fingerprintStore :=
  match stringMetadata (out_Metadata msg) "message_id" with
  | Some messageID => remember (keyOf msg messageID) fingerprint s
  | None => s
  end.

Definition ShouldSuppressOutbound (msg : OutboundMessage) (s : fingerprintStore) : fingerprintStore * bool :=
  match ProgressOf (normalizeEvent (out_Event msg)) with
  | Some _ => (s, false)
  | None =>
      let fingerprint := FingerprintContent (out_Content msg) in
      if String.eqb fingerprint "" then (s, false) else
      match stringMetadata (out_Metadata msg) "origin_message_id" with
      | Some originID =>
          let key := keyOf msg originID in
          if String.eqb (get_fingerprint s key) fingerprint then (touch key s, true)
          else (rememberMessageID msg fingerprint (remember key fingerprint s), false)
      | None => (rememberMessageID msg fingerprint s, false)
      end
  end.
End Suppression.

(** ** Merging deltas *)

Definition streamKeyEquals (channel chatID : string) (streamID : option string) (msg : OutboundMessage) (nextID : option string) : bool :=
  String.eqb channel (out_Channel msg) && String.eqb chatID (out_ChatID msg) && bool_decide (streamID = nextID).

Definition isDelta (e : option AgentEvent) : bool := match e with Some (EValue (EvStreamDelta _)) => true | _ => false end.
Definition endOf (e : option AgentEvent) : option StreamEndEvent := match e with Some (EValue (EvStreamEnd e)) => Some e | _ => None end.

(** The stream of a delta or an end. *)
Definition streamOf (e : option AgentEvent) : option string :=
  match e with Some (EValue (EvStreamDelta d)) => sd_StreamID d | Some (EValue (EvStreamEnd e)) => se_StreamID e | _ => None end.

Definition firstDelta (first : OutboundMessage) : StreamDeltaEvent :=
  match normalizeEvent (out_Event first) with
  | Some (EValue (EvStreamDelta d)) => d
  | _ => mkDelta "" None
  end.

(** The message belongs to the stream: a delta, or an end with text. *)
Definition joins (first next : OutboundMessage) : bool :=
  let e := normalizeEvent (out_Event next) in
  streamKeyEquals (out_Channel first) (out_ChatID first) (sd_StreamID (firstDelta first)) next (streamOf e) &&
  (isDelta e || (bool_decide (is_Some (endOf e)) && negb (String.eqb (out_Content next) ""))).

(** The loop of [CoalesceStreamDeltas] over the messages [TryConsumeOutbound] gives
    before it finds the bus empty: the text, the event, the message that does not
    belong and what is left on the bus. *)
Fixpoint coalesce_loop (first : OutboundMessage) (avail : list OutboundMessage) (combined : string)
    : string * AgentEvent * list OutboundMessage * list OutboundMessage :=
  match avail with
  | [] => (combined, EValue (EvStreamDelta (firstDelta first)), [], [])
  | next :: avail =>
      if joins first next then
        match endOf (normalizeEvent (out_Event next)) with
        | Some e => (combined +:+ out_Content next, EValue (EvStreamEnd (mkEnd "" (se_StreamID e) (se_Resuming e) (se_MergeNext e))), [], avail)
        | None => coalesce_loop first avail (combined +:+ out_Content next)
        end
      else (combined, EValue (EvStreamDelta (firstDelta first)), [next], avail)
  end.

Definition CoalesceStreamDeltas (first : OutboundMessage) (avail : list OutboundMessage)
    : OutboundMessage * list OutboundMessage * list OutboundMessage :=
  let '(combined, finalEvent, nonMatching, rest) := coalesce_loop first avail (out_Content first) in
  (ReplaceOutboundEvent first (Some finalEvent) (Some combined), nonMatching, rest).

(** ** The gates of the dispatcher *)

Definition websocketChannelName : string := "websocket".

(** The registry as it is found: the map is read up to four times under its lock while
    a message passes. *)
Abbreviation Registry := (gmap string Channel).

Definition shouldSendProgress (reg : Registry) (channelName : string) (toolHint : bool) : bool :=
  match reg !! channelName with
  | None => false
  | Some ch => if toolHint then SendToolHints (deliveryPolicy ch) else SendProgress (deliveryPolicy ch)
  end.

Inductive verdict := Dropped | Queued (ch : Channel) (msg : OutboundMessage).

Definition isReasoning (p : ProgressEvent) : bool := pe_ReasoningDelta p || pe_ReasoningEnd p || pe_Reasoning p.
Definition isRetryWait (e : option AgentEvent) : bool := match e with Some (EValue (EvRetryWait _)) => true | _ => false end.

(** The kinds that are not checked for duplicates. *)
Definition isStream (e : option AgentEvent) : bool :=
  match e with Some (EValue (EvStreamDelta _ | EvStreamEnd _ | EvStreamedResponse)) => true | _ => false end.

Section Dispatch.
Context (sha1hex : string → string).

(** [look k] is the registry at the [k]-th reading; [avail] what the bus gives without
    waiting, and the result has what is left of it. *)
Definition dispatchOne (look : nat → Registry) (msg : OutboundMessage) (pending avail : list OutboundMessage) (fs : fingerprintStore)
    : verdict * list OutboundMessage * list OutboundMessage * fingerprintStore :=
  let event := normalizeEvent (out_Event msg) in
  let drop_ := (Dropped, pending, avail, fs) in
  let rest (_ : unit) :=
    if isRetryWait event then drop_ else
    if isRuntimeModelUpdatedEvent event && String.eqb (out_Channel msg) websocketChannelName && negb (bool_decide (is_Some (look 2%nat !! websocketChannelName)))
    then drop_ else
    let '(msg, extra, avail) := if isDelta event then CoalesceStreamDeltas msg avail else (msg, [], avail) in
    let pending := pending ++ extra in
    let event := normalizeEvent (out_Event msg) in
    match look 3%nat !! out_Channel msg with
    | None => (Dropped, pending, avail, fs)
    | Some ch =>
        if isStream event then (Queued ch msg, pending, avail, fs) else
        let '(fs, suppress) := ShouldSuppressOutbound sha1hex msg fs in
        if suppress then (Dropped, pending, avail, fs) else (Queued ch msg, pending, avail, fs)
    end in
  match ProgressOf event with
  | Some p =>
      if isReasoning p then
        match look 0%nat !! out_Channel msg with
        | Some ch => if ShowReasoning (deliveryPolicy ch) then (Queued ch msg, pending, avail, fs) else drop_
        | None => drop_
        end
      else if shouldSendProgress (look 1%nat) (out_Channel msg) (pe_ToolHint p) then rest tt else drop_
  | None => rest tt
  end.

(** The loop over what the bus delivers: [stream] is the messages of the bus in order,
    [limit i] how many of them are there to take without waiting in the [i]-th round
    and [look i] the registry; [ended i] is whether the context has ended before the
    round, [unqueued i] whether it ends while the message waits for an admission slot.
    The result is what is queued.  An idle poll is no round. *)
Fixpoint dispatchOutboundLoop (fuel i : nat) (limit : nat → nat) (ended unqueued : nat → bool) (look : nat → nat → Registry) (pending stream : list OutboundMessage)
    (fs : fingerprintStore) : list (Channel * OutboundMessage) :=
  match fuel with
  | O => []
  | S fuel =>
      if ended i then [] else
      let go msg pending stream :=
        let '(v, pending, kept, fs) := dispatchOne (look i) msg pending (take (limit i) stream) fs in
        let out := dispatchOutboundLoop fuel (S i) limit ended unqueued look pending (kept ++ drop (limit i) stream) fs in
        match v with Dropped => out | Queued ch msg => if unqueued i then [] else (ch, msg) :: out end in
      match pending with
      | msg :: pending => go msg pending stream
      | [] => match stream with [] => [] | msg :: stream => go msg [] stream end
      end
  end.
End Dispatch.

(** ** One delivery *)

Section Send.
Context {Err : Type} (answer : list Call → Call → option Err).

Definition with_event (e : option AgentEvent) (m : OutboundMessage) : OutboundMessage :=
  mkOut (out_Channel m) (out_ChatID m) (out_Content m) (out_ReplyTo m) (out_Media m) (out_Metadata m) (out_Buttons m) e.

Definition sendReasoning (ch : Channel) (msg : OutboundMessage) (calls : list Call) : list Call * option Err :=
  match ch_Reasoning ch with
  | ROwn => send answer (CReasoning msg) calls
  | RBase | RNone => reasoningBridge answer ch msg calls
  end.

Definition sendStreamEvent (ch : Channel) (msg : OutboundMessage) (opts : DeltaOptions) (calls : list Call) : list Call * option Err :=
  if ch_Delta ch then send answer (CDelta (out_ChatID msg) (out_Content msg) (out_Metadata msg) opts) calls else (calls, None).

(** The cases of a [ProgressEvent] that have a method of their own. *)
Definition progressCase (ch : Channel) (msg : OutboundMessage) (p : ProgressEvent) (calls : list Call) : option (list Call * option Err) :=
  if pe_ReasoningEnd p then
    Some (if ch_ReasoningEnd ch then send answer (CReasoningEnd (out_ChatID msg) (out_Metadata msg) (pe_StreamID p)) calls else (calls, None))
  else if pe_ReasoningDelta p then
    Some (if ch_ReasoningDelta ch then send answer (CReasoningDelta (out_ChatID msg) (out_Content msg) (out_Metadata msg) (pe_StreamID p)) calls else (calls, None))
  else if pe_Reasoning p then Some (sendReasoning ch msg calls)
  else match pe_FileEditEvents p with
       | [] => None
       | edits => Some (if ch_FileEdits ch then send answer (CFileEdits (out_ChatID msg) edits (out_Metadata msg)) calls else (calls, None))
       end.

Definition SendOnce (ch : Channel) (msg : OutboundMessage) (calls : list Call) : list Call * option Err :=
  let event := normalizeEvent (out_Event msg) in
  let msg := with_event event msg in
  match ProgressOf event ≫= λ p, progressCase ch msg p calls with
  | Some r => r
  | None =>
      match event with
      | Some (EValue (EvStreamDelta d)) => sendStreamEvent ch msg (mkOpts (sd_StreamID d) false false false) calls
      | Some (EValue (EvStreamEnd e)) => sendStreamEvent ch msg (mkOpts (se_StreamID e) true (se_Resuming e) (se_MergeNext e)) calls
      | Some (EValue EvStreamedResponse) => (calls, None)
      | _ => send answer (CSend msg) calls
      end
  end.

(** ** Retries *)

Definition SendRetryDelays : list Z := [1000000000; 2000000000; 4000000000].

Definition retryDelayAt (delays : list Z) (attempt : Z) : Z :=
  match delays with
  | [] => 0
  | _ => let i := attempt - 1 in
         let i := if i <? 0 then 0 else i in
         let i := if Z.of_nat (length delays) <=? i then Z.of_nat (length delays) - 1 else i in
         default 0 (delays !! Z.to_nat i)
  end.

(** What the task meets: whether its context ends during attempt [n] or the sleep after
    it, the clock when attempt [n] has failed (read twice), and the hook of the channel,
    if it has one. *)
Record SendEnv := mkSendEnv {
  cancelled : Z → bool; sleepCancelled : Z → bool; clock1 : Z → Z; clock2 : Z → Z; ShouldRetrySendError : option (Err → bool) }.

Definition shouldRetrySendError (env : SendEnv) (e : Err) : bool :=
  match ShouldRetrySendError env with Some p => p e | None => true end.

Inductive SendEnd := Delivered | Interrupted | NotRetryable (e : Err) | GaveUp (attempts : Z) (e : Err).

(** The loop: the calls, the delays slept so far and how it ends; [None] when the fuel
    is used up. *)
Fixpoint sendRetry_loop (fuel : nat) (env : SendEnv) (delays : list Z) (maxAttempts : Z) (deadline : option Z) (ch : Channel)
    (msg : OutboundMessage) (attempt : Z) (calls : list Call) (slept : list Z) : option (SendEnd * list Call * list Z) :=
  match fuel with
  | O => None
  | S fuel =>
      let attempt := attempt + 1 in
      let '(calls, err) := SendOnce ch msg calls in
      match err with
      | None => Some (Delivered, calls, slept)
      | Some e =>
          if cancelled env attempt then Some (Interrupted, calls, slept)
          else if negb (shouldRetrySendError env e) then Some (NotRetryable e, calls, slept)
          else if match deadline with None => maxAttempts <=? attempt | Some d => d <=? clock1 env attempt end
          then Some (GaveUp attempt e, calls, slept)
          else let delay := retryDelayAt delays attempt in
               let delay := match deadline with
                            | None => delay
                            | Some d => Z.min delay (Z.max 0 (d - clock2 env attempt))
                            end in
               if sleepCancelled env attempt then Some (Interrupted, calls, slept)
               else sendRetry_loop fuel env delays maxAttempts deadline ch msg attempt calls (slept ++ [delay])
      end
  end.

Definition SendWithRetry (fuel : nat) (env : SendEnv) (delays : list Z) (SendMaxRetries : Z) (deadline : option Z) (ch : Channel)
    (msg : OutboundMessage) (calls : list Call) : option (SendEnd * list Call * list Z) :=
  sendRetry_loop fuel env delays (if SendMaxRetries <? 1 then 1 else SendMaxRetries) deadline ch msg 0 calls [].
End Send.
#[global] Arguments mkSendEnv {Err}.
