(* ===== verification/OutboundFacts.v ===== *)
(** * What the outbound path guarantees

    The dispatcher hands on the messages of the bus in order, the text of every
    stream complete; a reply is suppressed only as a repetition for the same source
    message; a delivery makes a bounded number of attempts. *)

From S2P Require Import Prelude GoText GoLib PyFloat Regex GoFmt Core GoJson Bus Pairing Events Channels Outbound.
#[local] Open Scope string_scope.
#[local] Open Scope list_scope.
#[local] Open Scope Z_scope.

(** ** Order *)

(** A group of consecutive messages of the bus: one message, or a delta with what joins
    its stream, of which only the last may end it. *)
Definition group : Type := OutboundMessage * list OutboundMessage.
Definition messages_of (g : group) : list OutboundMessage := g.1 :: g.2.

Definition ends (m : OutboundMessage) : bool := bool_decide (is_Some (endOf (normalizeEvent (out_Event m)))).

Definition group_ok (g : group) : Prop :=
  g.2 = [] ∨ isDelta (normalizeEvent (out_Event g.1)) = true ∧ Forall (λ m, joins g.1 m = true) g.2
    ∧ Forall (λ m, ends m = false) (removelast g.2).

Definition text_of (ms : list OutboundMessage) : string := foldr (λ m t, out_Content m +:+ t) "" ms.

(** The event of a merged message: the end of its last message, if it is one. *)
Definition final_event (first : OutboundMessage) (more : list OutboundMessage) : AgentEvent :=
  match last more ≫= λ m, endOf (normalizeEvent (out_Event m)) with
  | Some e => EValue (EvStreamEnd (mkEnd "" (se_StreamID e) (se_Resuming e) (se_MergeNext e)))
  | None => EValue (EvStreamDelta (firstDelta first))
  end.

(** What is handed on for a group. *)
Definition merge_group (g : group) : OutboundMessage :=
  if isDelta (normalizeEvent (out_Event g.1)) then ReplaceOutboundEvent g.1 (Some (final_event g.1 g.2)) (Some (text_of (messages_of g))) else g.1.

Lemma coalesce_loop_spec first avail combined : isDelta (normalizeEvent (out_Event first)) = true →
  ∃ more nm rest, avail = more ++ nm ++ rest ∧ (length nm ≤ 1)%nat ∧ group_ok (first, more) ∧
    coalesce_loop first avail combined = (combined +:+ text_of more, final_event first more, nm, rest).
Proof.
  intros Hd. revert combined. induction avail as [|next avail IH]; intros combined.
  - exists [], [], []. split_and!; [done|cbn; lia|by left|]. cbn. by rewrite sapp_nil_r.
  - cbn [coalesce_loop]. destruct (joins first next) eqn:Hj; [destruct (endOf _) as [e|] eqn:He|].
    + exists [next], [], avail. split_and!; [done|cbn; lia|right; split_and!; [done|by constructor|by constructor]|].
      cbn. unfold final_event. cbn. rewrite He. by rewrite sapp_nil_r.
    + destruct (IH (combined +:+ out_Content next)) as (more & nm & rest & -> & Hl & Hg & E). exists (next :: more), nm, rest.
      split_and!; [done|done| |].
      * right. assert (Forall (λ m, joins first m = true) more ∧ Forall (λ m, ends m = false) (removelast more)) as [H1 H2].
        { destruct Hg as [Hg|(_ & ? & ?)]; [cbn in Hg; by subst more|done]. }
        split_and!; [done|by constructor|]. cbn [snd]. destruct more as [|m more]; [by constructor|]. constructor; [|done].
        unfold ends. rewrite He. by apply bool_decide_eq_false_2, is_Some_None.
      * rewrite E. cbn [text_of foldr]. rewrite sapp_assoc. do 3 f_equal. unfold final_event. destruct more as [|m more]; [|done].
        cbn. by rewrite He.
    + exists [], [next], avail. split_and!; [done|cbn; lia|by left|]. cbn. by rewrite sapp_nil_r.
Qed.

Lemma coalesce_spec first avail : isDelta (normalizeEvent (out_Event first)) = true →
  ∃ more nm rest, avail = more ++ nm ++ rest ∧ (length nm ≤ 1)%nat ∧ group_ok (first, more) ∧
    CoalesceStreamDeltas first avail = (merge_group (first, more), nm, rest).
Proof.
  intros Hd. destruct (coalesce_loop_spec first avail (out_Content first) Hd) as (more & nm & rest & E & Hl & Hg & Hc).
  exists more, nm, rest. split_and!; [done..|]. unfold CoalesceStreamDeltas, merge_group. cbn [fst]. by rewrite Hc, Hd.
Qed.

Lemma merge_event_stream g : isDelta (normalizeEvent (out_Event g.1)) = true → isStream (normalizeEvent (out_Event (merge_group g))) = true.
Proof. intros Hd. unfold merge_group. rewrite Hd. cbn. unfold final_event. by destruct (_ ≫= _). Qed.

Section Order.
Context (sha1hex : string → string).

(** One message passes: a group is taken, what does not belong to it waits, and the
    merged message is dropped or queued; a stream of a registered channel is queued. *)
Definition passes (look : nat → Registry) (msg : OutboundMessage) (avail : list OutboundMessage)
    (r : verdict * list OutboundMessage * list OutboundMessage * fingerprintStore) : Prop :=
  let '(v, nm, rest, _) := r in
  ∃ more, avail = more ++ nm ++ rest ∧ (length nm ≤ 1)%nat ∧ group_ok (msg, more) ∧
    (v = Dropped ∨ ∃ ch k, v = Queued ch (merge_group (msg, more)) ∧ look k !! out_Channel msg = Some ch) ∧
    (isDelta (normalizeEvent (out_Event msg)) || ends msg = true → is_Some (look 3%nat !! out_Channel msg) →
     ∃ ch, v = Queued ch (merge_group (msg, more))).

Lemma passes_alone look msg avail v fs : isDelta (normalizeEvent (out_Event msg)) = false →
  (v = Dropped ∨ ∃ ch k, v = Queued ch msg ∧ look k !! out_Channel msg = Some ch) →
  (ends msg = true → is_Some (look 3%nat !! out_Channel msg) → ∃ ch, v = Queued ch msg) →
  passes look msg avail (v, [], avail, fs).
Proof.
  intros Hd Hv Hs. exists []. unfold merge_group. cbn [fst snd]. rewrite Hd. split_and!; [done|cbn; lia|by left|done|done].
Qed.

Lemma dispatchOne_delta look msg avail fs : isDelta (normalizeEvent (out_Event msg)) = true →
  passes look msg avail (dispatchOne sha1hex look msg [] avail fs).
Proof.
  unfold dispatchOne. set (event := normalizeEvent (out_Event msg)). intros Hd.
  destruct (coalesce_spec msg avail Hd) as (more & nm & rest & E & Hl & Hg & Hc).
  assert (ProgressOf event = None ∧ isRetryWait event = false ∧ isRuntimeModelUpdatedEvent event = false) as (-> & -> & ->).
  { clearbody event. by destruct event as [[[]| |]|]. }
  cbn [andb]. rewrite Hd, Hc. assert (out_Channel (merge_group (msg, more)) = out_Channel msg) as -> by (unfold merge_group; by destruct (isDelta _)).
  destruct (look 3%nat !! out_Channel msg) as [ch|] eqn:Hch.
  - rewrite (merge_event_stream (msg, more) Hd). exists more. split_and!; [done..| |by eauto]. right. by exists ch, 3%nat.
  - exists more. split_and!; [done..|by left|]. rewrite Hch. by intros _ [? ?].
Qed.

Lemma dispatchOne_passes look msg avail fs : passes look msg avail (dispatchOne sha1hex look msg [] avail fs).
Proof.
  destruct (isDelta (normalizeEvent (out_Event msg))) eqn:Hd; [by apply dispatchOne_delta|].
  unfold dispatchOne. set (event := normalizeEvent (out_Event msg)) in *. destruct (ends msg) eqn:He.
  - assert (ProgressOf event = None ∧ isRetryWait event = false ∧ isRuntimeModelUpdatedEvent event = false ∧ isStream event = true) as (-> & -> & -> & Hs).
    { unfold ends in He. fold event in He. apply bool_decide_eq_true in He as [e He]. clearbody event. by destruct event as [[[]| |]|]. }
    cbn [andb]. rewrite Hd. fold event. rewrite Hs. destruct (look 3%nat !! out_Channel msg) as [ch|] eqn:Hch; apply passes_alone; try done.
    + right. by exists ch, 3%nat.
    + by eauto.
    + by left.
    + rewrite Hch. by intros _ [? ?].
  - assert (∀ v fs', v = Dropped ∨ (∃ ch k, v = Queued ch msg ∧ look k !! out_Channel msg = Some ch) → passes look msg avail (v, [], avail, fs')) as Done.
    { intros v fs' Hv. apply passes_alone; [done|done|]. by rewrite He. }
    rewrite Hd. fold event. cbn beta iota zeta. change ([] ++ []) with (@nil OutboundMessage). fold event.
    repeat case_match; (apply Done; first [by left | right; by eauto]).
Qed.

(** The deltas and ends of a stream. *)
Record target := mkTarget { tg_channel : string; tg_chat : string; tg_stream : option string }.
Definition onStream (t : target) (m : OutboundMessage) : bool :=
  let e := normalizeEvent (out_Event m) in
  streamKeyEquals (tg_channel t) (tg_chat t) (tg_stream t) m (streamOf e) && (isDelta e || ends m).

Lemma onStream_channel t m : onStream t m = true → out_Channel m = tg_channel t ∧ isDelta (normalizeEvent (out_Event m)) || ends m = true.
Proof.
  unfold onStream, streamKeyEquals. intros [[[H1 _]%andb_true_iff _]%andb_true_iff H2]%andb_true_iff. by apply String.eqb_eq in H1.
Qed.

Lemma normalize_final first more : normalizeEvent (Some (final_event first more)) = Some (final_event first more).
Proof. unfold final_event. by destruct (_ ≫= _). Qed.

(** A merged message is on the stream its first message is on. *)
Lemma onStream_merge t g : group_ok g → onStream t (merge_group g) = onStream t g.1.
Proof.
  destruct g as [first more]. cbn [fst]. intros Hg. unfold merge_group. cbn [fst snd]. destruct (isDelta _) eqn:Hd; [|done].
  unfold onStream, ends. cbn [ReplaceOutboundEvent out_Event]. rewrite normalize_final, Hd. cbn [orb]. rewrite andb_true_r.
  assert (streamOf (Some (final_event first more)) = streamOf (normalizeEvent (out_Event first)) ∧
    isDelta (Some (final_event first more)) || bool_decide (is_Some (endOf (Some (final_event first more)))) = true) as [-> ->]; [|by rewrite andb_true_r].
  assert (sd_StreamID (firstDelta first) = streamOf (normalizeEvent (out_Event first))) as Hf.
  { unfold firstDelta. by destruct (normalizeEvent (out_Event first)) as [[[]| |]|]. }
  unfold final_event. destruct (last more ≫= _) as [e|] eqn:E; [|by split]. split; [|done]. apply bind_Some in E as (m & Hm & He).
  destruct Hg as [Hg|(_ & Hg & _)]; [cbn in Hg; by subst more|]. rewrite Forall_forall in Hg. specialize (Hg m (last_Some_elem_of _ _ Hm)).
  cbn [fst] in Hg. unfold joins in Hg. apply andb_true_iff in Hg as [[_ Hg]%andb_true_iff _]. apply bool_decide_eq_true in Hg. cbn. rewrite <- Hf, Hg.
  unfold endOf in He. by destruct (normalizeEvent (out_Event m)) as [[[]| |]|]; simplify_eq.
Qed.

(** Messages that are never read, each for itself. *)
Lemma groups_alone l : ∃ gs, concat (map messages_of gs) = l ∧ Forall group_ok gs.
Proof.
  exists (map (λ m, (m, [])) l). split; [induction l as [|m l IH]; [done|]; cbn; by rewrite IH|]. apply Forall_fmap, Forall_true. intros m. by left.
Qed.

Lemma dispatch_groups fuel i limit ended unqueued look pending stream fs :
  (length pending ≤ 1)%nat → (length pending + length stream ≤ fuel)%nat →
  ∃ gs, concat (map messages_of gs) = pending ++ stream ∧ Forall group_ok gs ∧
    map snd (dispatchOutboundLoop sha1hex fuel i limit ended unqueued look pending stream fs) `sublist_of` map merge_group gs ∧
    ∀ t, (∀ j, ended j = false ∧ unqueued j = false ∧ is_Some (look j 3%nat !! tg_channel t)) →
      List.filter (onStream t) (map snd (dispatchOutboundLoop sha1hex fuel i limit ended unqueued look pending stream fs)) = List.filter (onStream t) (map merge_group gs).
Proof.
  revert i pending stream fs. induction fuel as [|fuel IH]; intros i pending stream fs Hp Hf.
  { destruct pending, stream; cbn in Hf; [|lia..]. by exists []. }
  assert (∀ msg stream, (length stream ≤ fuel)%nat → ∃ gs, concat (map messages_of gs) = msg :: stream ∧ Forall group_ok gs ∧
    let out := map snd (let '(v, pending, kept, fs) := dispatchOne sha1hex (look i) msg [] (take (limit i) stream) fs in
      let out := dispatchOutboundLoop sha1hex fuel (S i) limit ended unqueued look pending (kept ++ drop (limit i) stream) fs in
      match v with Dropped => out | Queued ch msg => if unqueued i then [] else (ch, msg) :: out end) in
    out `sublist_of` map merge_group gs ∧ ∀ t, (∀ j, ended j = false ∧ unqueued j = false ∧ is_Some (look j 3%nat !! tg_channel t)) →
      List.filter (onStream t) out = List.filter (onStream t) (map merge_group gs)) as Hround.
  { clear pending stream Hp Hf. intros msg stream Hf. pose proof (dispatchOne_passes (look i) msg (take (limit i) stream) fs) as Hpass.
    destruct (dispatchOne _ _ _ _ _ _) as [[[v nm] rest] fs']. destruct Hpass as (more & E & Hl & Hg & Hv & Hs).
    assert (more ++ nm ++ rest ++ drop (limit i) stream = stream) as Hst by (rewrite <- (take_drop (limit i) stream) at 2; by rewrite E, <- !app_assoc).
    destruct (IH (S i) nm (rest ++ drop (limit i) stream) fs' Hl) as (gs & Hc & Hgs & Hsub & Hstr).
    { rewrite <- Hst, length_app in Hf. rewrite length_app in Hf. lia. }
    exists ((msg, more) :: gs). cbn zeta. split_and!.
    - cbn. rewrite Hc. by rewrite Hst.
    - by constructor.
    - destruct Hv as [->|(ch & k & -> & _)]; [by apply sublist_cons|]. destruct (unqueued i); [apply sublist_nil_l|by apply sublist_skip].
    - intros t Ht. destruct (Ht i) as (_ & -> & Hreg). cbn [map List.filter]. rewrite <- (Hstr t Ht). destruct (onStream t (merge_group (msg, more))) eqn:Eo.
      + rewrite onStream_merge in Eo by done. cbn [fst] in Eo. apply onStream_channel in Eo as Ho. destruct Ho as [Hc1 Hc2].
        destruct (Hs Hc2) as [ch ->]; [by rewrite Hc1|]. cbn [map List.filter snd]. rewrite onStream_merge by done. cbn [fst]. by rewrite Eo.
      + destruct Hv as [->|(ch & k & -> & _)]; [done|]. cbn [map List.filter snd]. by rewrite Eo. }
  cbn [dispatchOutboundLoop]. destruct (ended i) eqn:Ee.
  { destruct (groups_alone (pending ++ stream)) as (gs & Hc & Hg). exists gs. split_and!; [done|done|apply sublist_nil_l|]. intros t Ht. destruct (Ht i) as [E _]. congruence. }
  destruct pending as [|msg [|]]; [|apply Hround; cbn in Hf; lia|cbn in Hp; lia].
  destruct stream as [|msg stream]; [by exists []|]. apply Hround. cbn in Hf. lia.
Qed.

(** What joins a delta is on the same streams. *)
Lemma joins_onStream t first m : isDelta (normalizeEvent (out_Event first)) = true → joins first m = true → onStream t m = onStream t first.
Proof.
  intros Hd Hj. unfold joins in Hj. set (e := normalizeEvent (out_Event m)) in *. apply andb_true_iff in Hj as [Hk Hj].
  unfold streamKeyEquals in Hk. apply andb_true_iff in Hk as [[H1 H2]%andb_true_iff H3]. apply String.eqb_eq in H1, H2. apply bool_decide_eq_true in H3.
  assert (sd_StreamID (firstDelta first) = streamOf (normalizeEvent (out_Event first))) as Hf.
  { unfold firstDelta. by destruct (normalizeEvent (out_Event first)) as [[[]| |]|]. }
  assert (isDelta e || ends m = true) as Hm.
  { unfold ends. fold e. destruct (isDelta e); [done|]. cbn in *. by apply andb_true_iff in Hj as [? _]. }
  unfold onStream, streamKeyEquals. fold e. by rewrite Hd, Hm, <- H1, <- H2, <- H3, Hf.
Qed.

Lemma text_of_app l k : text_of (l ++ k) = text_of l +:+ text_of k.
Proof. induction l as [|m l IH]; [done|]. cbn [app]. unfold text_of in *. cbn [foldr]. by rewrite IH, sapp_assoc. Qed.

Lemma text_merge t g : group_ok g → text_of (List.filter (onStream t) (messages_of g)) = if onStream t (merge_group g) then out_Content (merge_group g) else "".
Proof.
  intros Hg. rewrite onStream_merge by done. destruct g as [first more]. unfold messages_of, merge_group. cbn [fst snd List.filter].
  destruct (isDelta _) eqn:Hd.
  - assert (Forall (λ m, joins first m = true) more) as Hj by (destruct Hg as [Hg|(_ & Hg & _)]; [cbn in Hg; by subst more|done]).
    assert (List.filter (onStream t) more = if onStream t first then more else []) as ->.
    { clear Hg. induction Hj as [|m more Hm _ IH]; cbn [List.filter]; [by destruct (onStream t first)|]. rewrite (joins_onStream t first m Hd Hm), IH. by destruct (onStream t first). }
    by destruct (onStream t first).
  - destruct Hg as [Hg|(Hg & _)]; cbn in Hg; [subst more|congruence]. cbn. destruct (onStream t first); [|done]. cbn. by rewrite sapp_nil_r.
Qed.

Definition streamText (t : target) (ms : list OutboundMessage) : string := text_of (List.filter (onStream t) ms).

Lemma streamText_app t l k : streamText t (l ++ k) = streamText t l +:+ streamText t k.
Proof. unfold streamText. by rewrite List.filter_app, text_of_app. Qed.

Lemma streamText_merge t gs : Forall group_ok gs → streamText t (map merge_group gs) = streamText t (concat (map messages_of gs)).
Proof.
  induction 1 as [|g gs Hg _ IH]; [done|]. cbn [map concat]. rewrite streamText_app, <- IH. unfold streamText at 2. rewrite text_merge by done.
  unfold streamText. cbn [List.filter]. by destruct (onStream t (merge_group g)).
Qed.

(** C31. The dispatcher keeps the order of the bus: the messages it reads fall into
    consecutive groups, one message or a delta with what continues its stream, and what
    it queues are the merged messages of some of the groups, in order, however the
    publications interleave with it, whatever the registry is meanwhile and whenever it
    is stopped. *)
Theorem dispatch_in_order limit ended unqueued look stream fs :
  ∃ gs, concat (map messages_of gs) = stream ∧ Forall group_ok gs ∧
    map snd (dispatchOutboundLoop sha1hex (length stream) 0 limit ended unqueued look [] stream fs) `sublist_of` map merge_group gs.
Proof.
  destruct (dispatch_groups (length stream) 0 limit ended unqueued look [] stream fs) as (gs & Hc & Hg & Hs & _); [cbn; lia..|]. by exists gs.
Qed.

(** C30. The text of a stream arrives whole and in order: for a channel that stays
    registered and a dispatcher that is not stopped, the texts queued for a stream of a chat are together the texts that were
    published for it. *)
Theorem stream_text_kept limit ended unqueued look stream fs t :
  (∀ i, ended i = false ∧ unqueued i = false ∧ is_Some (look i 3%nat !! tg_channel t)) →
  streamText t (map snd (dispatchOutboundLoop sha1hex (length stream) 0 limit ended unqueued look [] stream fs)) = streamText t stream.
Proof.
  intros Ht. destruct (dispatch_groups (length stream) 0 limit ended unqueued look [] stream fs) as (gs & Hc & Hg & _ & Hs); [cbn; lia..|].
  unfold streamText at 1. rewrite (Hs t Ht). fold (streamText t (map merge_group gs)). by rewrite streamText_merge, Hc.
Qed.
End Order.

(** ** Suppression *)

Section Suppressed.
Context (sha1hex : string → string).

Definition suppressAll (ms : list OutboundMessage) (s : fingerprintStore) : fingerprintStore :=
  foldl (λ s m, (ShouldSuppressOutbound sha1hex m s).1) s ms.

Definition has_id (m : OutboundMessage) (field id : string) : Prop := stringMetadata (out_Metadata m) field = Some id.
Definition plain (m : OutboundMessage) : Prop := ProgressOf (normalizeEvent (out_Event m)) = None.

(** A message that puts its fingerprint under a key. *)
Definition records (m : OutboundMessage) (key : fingerprintKey) (fp : string) : Prop :=
  plain m ∧ FingerprintContent sha1hex (out_Content m) = fp ∧ fp ≠ "" ∧
  ∃ field id, (field = "origin_message_id" ∨ field = "message_id") ∧ has_id m field id ∧ key = mkFkey (out_Channel m) (out_ChatID m) id.

Definition justified (ms : list OutboundMessage) (s : fingerprintStore) : Prop :=
  ∀ key fp, (key, fp) ∈ fs_order s → ∃ m, m ∈ ms ∧ records m key fp.

Lemma indexOf_elem order key fp : indexOf order key = Some fp → (key, fp) ∈ order.
Proof.
  unfold indexOf. destruct (list_find _ order) as [[i [k v]]|] eqn:E; [|done]. cbn. intros [= <-].
  apply list_find_Some in E as (Hl & Hk & _). cbn in Hk. subst k. by eapply list_elem_of_lookup_2.
Qed.

Lemma get_elem s key fp : get_fingerprint s key = fp → fp ≠ "" → (key, fp) ∈ fs_order s.
Proof. unfold get_fingerprint. destruct (indexOf _ key) eqn:E; cbn; intros <- H; [by apply indexOf_elem|done]. Qed.

Lemma removeKey_elem key order e : e ∈ removeKey key order → e ∈ order.
Proof. unfold removeKey. rewrite !list_elem_of_In. by intros [? _]%filter_In. Qed.

Lemma evict_elem max order e : e ∈ evict max order → e ∈ order.
Proof. unfold evict. destruct (0 <? max); [|done]. intros H. rewrite <- (take_drop (length order - Z.to_nat max) order). apply elem_of_app. by right. Qed.

Lemma remember_elem key fp s e : e ∈ fs_order (remember key fp s) → e ∈ fs_order s ∨ e = (key, fp).
Proof.
  cbn. intros H%evict_elem. rewrite elem_of_app, list_elem_of_singleton in H. destruct H as [H%removeKey_elem| ->]; [by left|by right].
Qed.

Lemma touch_elem key s e : e ∈ fs_order (touch key s) → e ∈ fs_order s.
Proof.
  unfold touch. destruct (indexOf _ key) eqn:E; [|done]. cbn. rewrite elem_of_app, list_elem_of_singleton. intros [H%removeKey_elem| ->]; [done|by apply indexOf_elem].
Qed.

(** What is remembered after a message was remembered before or recorded by it. *)
Lemma step_elem m s k f : (k, f) ∈ fs_order (ShouldSuppressOutbound sha1hex m s).1 → (k, f) ∈ fs_order s ∨ records m k f.
Proof.
  unfold ShouldSuppressOutbound. destruct (ProgressOf _) eqn:Hp; [by left|].
  destruct (String.eqb_spec (FingerprintContent sha1hex (out_Content m)) "") as [|Hne]; [by left|].
  assert (∀ s, (k, f) ∈ fs_order (rememberMessageID m (FingerprintContent sha1hex (out_Content m)) s) → (k, f) ∈ fs_order s ∨ records m k f) as Hid.
  { intros s'. unfold rememberMessageID. destruct (stringMetadata _ _) as [id|] eqn:E; [|by left].
    intros [?|[= -> ->]]%remember_elem; [by left|right]. split_and!; [done..|]. exists "message_id", id. by auto. }
  destruct (stringMetadata _ "origin_message_id") as [id|] eqn:E; [|apply Hid]. destruct (String.eqb _ _); cbn [fst].
  - intros Hin%touch_elem. by left.
  - intros [[?|[= -> ->]]%remember_elem|?]%Hid; [by left| |by right]. right. split_and!; [done..|]. exists "origin_message_id", id. by auto.
Qed.

Lemma justified_step ms m s : justified ms s → justified (ms ++ [m]) (ShouldSuppressOutbound sha1hex m s).1.
Proof.
  intros H k f [Hin|Hr]%step_elem; [destruct (H k f Hin) as (m' & Hm & Hr); exists m'|exists m]; set_solver.
Qed.

Lemma justified_all ms max : justified ms (suppressAll ms (newFingerprintStore max)).
Proof.
  induction ms as [|m ms IH] using rev_ind; [intros k f H; cbn in H; by apply elem_of_nil in H|].
  unfold suppressAll. rewrite foldl_snoc. by apply justified_step.
Qed.

(** ** How long a fingerprint is remembered *)

(** The key is there with at most [n] younger ones. *)
Definition placed (n : nat) (key : fingerprintKey) (fp : string) (order : list (fingerprintKey * string)) : Prop :=
  ∃ pre post, order = pre ++ (key, fp) :: post ∧ (key ∉ pre.*1) ∧ (key ∉ post.*1) ∧ (length post ≤ n)%nat.
Definition fresh (n : nat) (key : fingerprintKey) (fp : string) (s : fingerprintStore) : Prop := placed n key fp (fs_order s).

Lemma fresh_get n key fp s : fresh n key fp s → indexOf (fs_order s) key = Some fp.
Proof.
  intros (pre & post & E & Hpre & _). unfold indexOf. rewrite E.
  assert (list_find (λ e : fingerprintKey * string, e.1 = key) (pre ++ (key, fp) :: post) = Some (length pre, (key, fp))) as ->; [|done].
  apply list_find_Some. split_and!; [by apply list_lookup_middle|done|]. intros j [k v] Hj Hlt. rewrite lookup_app_l in Hj by done.
  cbn. intros ->. apply Hpre. apply list_elem_of_fmap. exists (key, v). split; [done|]. by eapply list_elem_of_lookup_2.
Qed.

Lemma removeKey_app key l k : removeKey key (l ++ k) = removeKey key l ++ removeKey key k.
Proof. apply List.filter_app. Qed.

Lemma removeKey_keys key l k : k ∉ (l.*1) → k ∉ (removeKey key l).*1.
Proof. intros H [e [-> He%removeKey_elem]]%list_elem_of_fmap. apply H. apply list_elem_of_fmap. by exists e. Qed.

Lemma removeKey_length key l : (length (removeKey key l) ≤ length l)%nat.
Proof. apply List.filter_length_le. Qed.

(** Another key is moved or added behind. *)
Lemma fresh_behind n key fp order k' f' : k' ≠ key →
  placed n key fp order → placed (S n) key fp (removeKey k' order ++ [(k', f')]).
Proof.
  intros Hne (pre & post & -> & H1 & H2 & H3). exists (removeKey k' pre), (removeKey k' post ++ [(k', f')]). split_and!.
  - rewrite removeKey_app. unfold removeKey at 2. cbn [List.filter fst]. rewrite bool_decide_eq_false_2 by congruence. cbn [negb].
    fold (removeKey k' post). by rewrite <- app_assoc.
  - by apply removeKey_keys.
  - rewrite fmap_app, elem_of_app. intros [Hin|Hin]; [by eapply removeKey_keys|]. cbn in Hin. apply list_elem_of_singleton in Hin. congruence.
  - rewrite length_app. pose proof (removeKey_length k' post). cbn. lia.
Qed.

Lemma evict_placed n key fp max order : Z.of_nat n < max →
  placed n key fp order → placed n key fp (evict max order).
Proof.
  intros Hmax (pre & post & -> & H1 & H2 & H3). unfold evict. rewrite (proj2 (Z.ltb_lt 0 max)) by lia.
  set (d := (length (pre ++ (key, fp) :: post) - Z.to_nat max)%nat). assert (d ≤ length pre)%nat as Hd by (subst d; rewrite length_app; cbn; lia).
  exists (drop d pre), post. split_and!; [by rewrite drop_app_le|..]; [|done|done].
  intros Hin. apply H1. rewrite <- (take_drop d pre), fmap_app, elem_of_app. by right.
Qed.

Lemma fresh_remember_other n key fp k' f' s : k' ≠ key → Z.of_nat (S n) < fs_max s → fresh n key fp s → fresh (S n) key fp (remember k' f' s).
Proof. intros Hne Hmax H. unfold fresh. cbn. apply evict_placed; [done|]. by apply fresh_behind. Qed.

Lemma fresh_touch_other n key fp k' s : k' ≠ key → fresh n key fp s → fresh (S n) key fp (touch k' s).
Proof.
  intros Hne H. unfold touch. destruct (indexOf _ k'); [by apply fresh_behind|].
  destruct H as (pre & post & E & H1 & H2 & H3). exists pre, post. split_and!; [done..|lia].
Qed.

Lemma removeKey_gone key l : key ∉ (removeKey key l).*1.
Proof.
  intros [[k v] [-> He]]%list_elem_of_fmap. unfold removeKey in He. apply list_elem_of_In, filter_In in He as [_ He]. cbn in He.
  rewrite bool_decide_eq_true_2 in He by done. done.
Qed.

Lemma fresh_remember key fp s : 0 < fs_max s → fresh 0 key fp (remember key fp s).
Proof.
  intros Hmax. unfold fresh. cbn. apply evict_placed; [done|]. exists (removeKey key (fs_order s)), [].
  split_and!; [done|apply removeKey_gone|by apply not_elem_of_nil|done].
Qed.

Lemma fresh_touch key fp s : indexOf (fs_order s) key = Some fp → fresh 0 key fp (touch key s).
Proof.
  intros E. unfold touch. rewrite E. exists (removeKey key (fs_order s)), [].
  split_and!; [done|apply removeKey_gone|by apply not_elem_of_nil|done].
Qed.

Lemma fresh_weaken n n' key fp s : (n ≤ n')%nat → fresh n key fp s → fresh n' key fp s.
Proof. intros Hn (pre & post & E & H1 & H2 & H3). exists pre, post. split_and!; [done..|lia]. Qed.

Lemma fs_max_suppress m s : fs_max (ShouldSuppressOutbound sha1hex m s).1 = fs_max s.
Proof. unfold ShouldSuppressOutbound, rememberMessageID, remember, touch. repeat case_match; done. Qed.

(** A message that does not use the key. *)
Definition avoids (m : OutboundMessage) (key : fingerprintKey) : Prop :=
  ∀ field id, (field = "origin_message_id" ∨ field = "message_id") → has_id m field id → mkFkey (out_Channel m) (out_ChatID m) id ≠ key.

Lemma fresh_messageID n key fp m f s : Z.of_nat (S n) < fs_max s → avoids m key → fresh n key fp s → fresh (S n) key fp (rememberMessageID m f s).
Proof.
  intros Hmax Ha Hf. unfold rememberMessageID. destruct (stringMetadata _ _) as [id|] eqn:E; [|by apply (fresh_weaken n (S n)); [lia|]].
  apply fresh_remember_other; [|done|done]. apply (Ha "message_id"); [by right|done].
Qed.

Lemma fresh_step n key fp m s : Z.of_nat (S (S n)) < fs_max s → avoids m key → fresh n key fp s → fresh (S (S n)) key fp (ShouldSuppressOutbound sha1hex m s).1.
Proof.
  intros Hmax Ha Hf. unfold ShouldSuppressOutbound. destruct (ProgressOf _); [by apply (fresh_weaken n); [lia|]|].
  destruct (String.eqb _ ""); [by apply (fresh_weaken n); [lia|]|]. destruct (stringMetadata _ "origin_message_id") as [id|] eqn:E; cbn [fst].
  - assert (keyOf m id ≠ key) as Hk by (apply (Ha "origin_message_id"); [by left|done]). destruct (String.eqb _ _); cbn [fst].
    + apply (fresh_weaken (S n)); [lia|]. by apply fresh_touch_other.
    + apply fresh_messageID; [by cbn|done|]. apply fresh_remember_other; [done|lia|done].
  - apply (fresh_weaken (S n)); [lia|]. apply fresh_messageID; [lia|done|done].
Qed.

Lemma fresh_all ms n key fp s : Z.of_nat (2 * length ms + n) < fs_max s → Forall (λ m, avoids m key) ms → fresh n key fp s →
  fresh (2 * length ms + n) key fp (suppressAll ms s).
Proof.
  intros Hmax Ha. revert n s Hmax. induction Ha as [|m ms Hm _ IH]; intros n s Hmax Hf; [done|]. cbn [length] in *.
  change (suppressAll (m :: ms) s) with (suppressAll ms (ShouldSuppressOutbound sha1hex m s).1).
  replace (2 * S (length ms) + n)%nat with (2 * length ms + S (S n))%nat in * by lia. apply IH; [by rewrite fs_max_suppress|]. apply fresh_step; [lia|done|done].
Qed.

(** A reply to a source message. *)
Definition replies (m : OutboundMessage) (key : fingerprintKey) (fp : string) : Prop :=
  plain m ∧ FingerprintContent sha1hex (out_Content m) = fp ∧ fp ≠ "" ∧ ∃ id, has_id m "origin_message_id" id ∧ key = mkFkey (out_Channel m) (out_ChatID m) id.

Lemma fresh_reply m key fp s : 1 < fs_max s → replies m key fp → fresh 1 key fp (ShouldSuppressOutbound sha1hex m s).1.
Proof.
  intros Hmax (Hp & Hfp & Hne & id & Hid & Hk). unfold ShouldSuppressOutbound. rewrite Hp, Hfp, Hid. fold (keyOf m id) in Hk. rewrite <- Hk.
  rewrite (proj2 (String.eqb_neq _ _) Hne). destruct (String.eqb_spec (get_fingerprint s key) fp) as [Eg|Eg]; cbn [fst].
  - apply (fresh_weaken 0); [lia|]. apply fresh_touch. unfold get_fingerprint in Eg. destruct (indexOf _ key); cbn in Eg; [by subst|congruence].
  - assert (fresh 0 key fp (remember key fp s)) as H0 by (apply fresh_remember; lia). unfold rememberMessageID.
    destruct (stringMetadata _ "message_id") as [id'|]; [|by apply (fresh_weaken 0); [lia|]]. destruct (decide (keyOf m id' = key)) as [->|Hd].
    + apply (fresh_weaken 0); [lia|]. apply fresh_remember. cbn. lia.
    + apply fresh_remember_other; [done|by cbn|done].
Qed.

(** At most one fingerprint is kept for a key, whatever the other keys do. *)
Definition only (key : fingerprintKey) (fp : string) (s : fingerprintStore) : Prop := ∀ v, (key, v) ∈ fs_order s → v = fp.

Lemma fresh_only n key fp s : fresh n key fp s → only key fp s.
Proof.
  intros (pre & post & E & H1 & H2 & _) v. rewrite E, elem_of_app, elem_of_cons. intros [Hin|[[= ->]|Hin]]; [|done|];
    [destruct H1|destruct H2]; apply list_elem_of_fmap; by exists (key, v).
Qed.

Lemma only_all ms key fp s : Forall (λ m, avoids m key) ms → only key fp s → only key fp (suppressAll ms s).
Proof.
  intros Ha. revert s. induction Ha as [|m ms Hm _ IH]; intros s Ho; [done|].
  change (suppressAll (m :: ms) s) with (suppressAll ms (ShouldSuppressOutbound sha1hex m s).1). apply IH.
  intros v [?|(_ & _ & _ & field & id & Hf & Hid & ->)]%step_elem; [by apply Ho|]. by destruct (Hm field id Hf Hid).
Qed.

Lemma replies_key m key fp key' fp' : replies m key fp → replies m key' fp' → key = key' ∧ fp = fp'.
Proof.
  intros (_ & <- & _ & id & Hid & ->) (_ & <- & _ & id' & Hid' & ->). unfold has_id in *. rewrite Hid in Hid'. by injection Hid' as ->.
Qed.

Lemma suppressed_iff m s : (ShouldSuppressOutbound sha1hex m s).2 = true ↔
  ∃ key fp, replies m key fp ∧ get_fingerprint s key = fp.
Proof.
  unfold ShouldSuppressOutbound, replies, plain, has_id. destruct (ProgressOf _) eqn:Hp; [split; [done|by intros (? & ? & (? & _) & _)]|].
  destruct (String.eqb_spec (FingerprintContent sha1hex (out_Content m)) "") as [E|Hne]; [split; [done|intros (? & ? & (_ & ? & ? & _) & _); congruence]|].
  destruct (stringMetadata _ "origin_message_id") as [id|] eqn:Eo; [|split; [done|intros (? & ? & (_ & _ & _ & ? & ? & _) & _); congruence]].
  destruct (String.eqb_spec (get_fingerprint s (keyOf m id)) (FingerprintContent sha1hex (out_Content m))) as [Eg|Eg]; cbn [snd]; split; try done.
  - intros _. exists (keyOf m id), (FingerprintContent sha1hex (out_Content m)). split_and!; [done..|by exists id|done].
  - intros (key & fp & (_ & <- & _ & id' & [= <-] & ->) & Hg). by destruct Eg.
Qed.

(** C32. Suppression is for repetitions of the last answer only.  A message is suppressed
    only if an earlier message to the same chat recorded the same text (up to white space
    and SHA-1) under the source message it answers.  If the last message for that source
    was an answer with the same text, and fewer than 500 messages for other sources came
    after it, it is suppressed; if that answer had another text it is not, however many
    came after it: of the answers A, B, A to one message all three are delivered. *)
Theorem suppression_exact ms m :
  let s := suppressAll ms (newFingerprintStore OriginReplyFingerprintsMaxSize) in
  ((ShouldSuppressOutbound sha1hex m s).2 = true → ∃ m' key fp, m' ∈ ms ∧ replies m key fp ∧ records m' key fp) ∧
  (∀ ms1 m' ms2 key fp, ms = ms1 ++ m' :: ms2 → replies m' key fp → replies m key fp →
     Forall (λ x, avoids x key) ms2 → (length ms2 < 500)%nat → (ShouldSuppressOutbound sha1hex m s).2 = true) ∧
  (∀ ms1 m' ms2 key fp fp', ms = ms1 ++ m' :: ms2 → replies m' key fp' → replies m key fp → fp' ≠ fp →
     Forall (λ x, avoids x key) ms2 → (ShouldSuppressOutbound sha1hex m s).2 = false).
Proof.
  cbn zeta.
  assert (∀ ms1, fs_max (suppressAll ms1 (newFingerprintStore OriginReplyFingerprintsMaxSize)) = 1000) as Hmax.
  { clear. intros ms1. induction ms1 as [|x ms1 IH] using rev_ind; [done|]. unfold suppressAll in *. by rewrite foldl_snoc, fs_max_suppress. }
  split_and!.
  - intros (key & fp & Hr & Hg)%suppressed_iff. destruct (justified_all ms OriginReplyFingerprintsMaxSize key fp) as (m' & Hm & Hrec).
    { apply get_elem; [done|]. by destruct Hr as (_ & _ & ? & _). }
    by exists m', key, fp.
  - intros ms1 m' ms2 key fp -> Hr' Hr Ha Hl. apply suppressed_iff. exists key, fp. split; [done|].
    unfold suppressAll. rewrite foldl_app. cbn [foldl]. fold (suppressAll ms1 (newFingerprintStore OriginReplyFingerprintsMaxSize)).
    unfold get_fingerprint. erewrite fresh_get; [done|]. apply (fresh_all ms2 1); [rewrite fs_max_suppress, Hmax; lia|done|].
    apply fresh_reply; [rewrite Hmax; lia|done].
  - intros ms1 m' ms2 key fp fp' -> Hr' Hr Hne Ha. apply not_true_iff_false. rewrite suppressed_iff.
    intros (key0 & fp0 & Hr0 & Hg). destruct (replies_key _ _ _ _ _ Hr Hr0) as [<- <-]. apply get_elem in Hg; [|by destruct Hr as (_ & _ & ? & _)].
    apply Hne. symmetry. revert Hg. unfold suppressAll. rewrite foldl_app. cbn [foldl].
    apply (only_all ms2); [done|]. apply (fresh_only 1), fresh_reply; [|done].
    fold (suppressAll ms1 (newFingerprintStore OriginReplyFingerprintsMaxSize)). rewrite Hmax. lia.
Qed.
End Suppressed.

(** ** Attempts *)

Section Attempts.
Context {Err : Type} (answer : list Call → Call → option Err).

(** The calls after [n] attempts, and the error of attempt [n]. *)
Definition attempts (ch : Channel) (msg : OutboundMessage) (calls : list Call) (n : nat) : list Call :=
  Nat.iter n (λ c, (SendOnce answer ch msg c).1) calls.
Definition failure (ch : Channel) (msg : OutboundMessage) (calls : list Call) (n : nat) : option Err :=
  (SendOnce answer ch msg (attempts ch msg calls (n - 1))).2.

(** Attempt [n] fails and is to be followed by another one. *)
Definition goesOn (env : SendEnv (Err := Err)) (ch : Channel) (msg : OutboundMessage) (calls : list Call) (n : nat) : Prop :=
  ∃ e, failure ch msg calls n = Some e ∧ cancelled env (Z.of_nat n) = false ∧ shouldRetrySendError env e = true ∧ sleepCancelled env (Z.of_nat n) = false.

(** How attempt [n], the last one, ends the delivery. *)
Definition endsWith (env : SendEnv (Err := Err)) (maxAttempts : Z) (ch : Channel) (msg : OutboundMessage) (calls : list Call) (n : nat) (r : SendEnd) : Prop :=
  match failure ch msg calls n with
  | None => r = Delivered
  | Some e => (r = Interrupted ∧ (cancelled env (Z.of_nat n) = true ∨ sleepCancelled env (Z.of_nat n) = true)) ∨
              (r = NotRetryable e ∧ shouldRetrySendError env e = false) ∨
              (r = GaveUp (Z.of_nat n) e ∧ Z.of_nat n = maxAttempts)
  end.

Lemma sendRetry_spec fuel env delays maxAttempts ch msg calls n slept :
  1 ≤ maxAttempts → Z.of_nat n + Z.of_nat fuel = maxAttempts → (0 < fuel)%nat →
  ∃ r k, sendRetry_loop answer fuel env delays maxAttempts None ch msg (Z.of_nat n) (attempts ch msg calls n) slept =
      Some (r, attempts ch msg calls (n + k), slept ++ map (λ i, retryDelayAt delays (Z.of_nat i)) (seq (S n) (k - 1))) ∧
    (1 ≤ k ≤ fuel)%nat ∧ (∀ j, (n < j < n + k)%nat → goesOn env ch msg calls j) ∧ endsWith env maxAttempts ch msg calls (n + k) r.
Proof.
  intros Hmax. revert n slept. induction fuel as [|fuel IH]; intros n slept Hn Hpos; [lia|]. cbn [sendRetry_loop].
  replace (Z.of_nat n + 1) with (Z.of_nat (S n)) by lia.
  assert (failure ch msg calls (S n) = (SendOnce answer ch msg (attempts ch msg calls n)).2) as Hfail by (unfold failure; by replace (S n - 1)%nat with n by lia).
  assert (attempts ch msg calls (S n) = (SendOnce answer ch msg (attempts ch msg calls n)).1) as Hatt by done.
  assert (∀ r, endsWith env maxAttempts ch msg calls (S n) r → ∃ r0 k, Some (r, attempts ch msg calls (S n), slept) =
    Some (r0, attempts ch msg calls (n + k), slept ++ map (λ i, retryDelayAt delays (Z.of_nat i)) (seq (S n) (k - 1))) ∧
    (1 ≤ k ≤ S fuel)%nat ∧ (∀ j, (n < j < n + k)%nat → goesOn env ch msg calls j) ∧ endsWith env maxAttempts ch msg calls (n + k) r0) as Last.
  { intros r Hr. exists r, 1%nat. cbn [Nat.sub seq map]. rewrite app_nil_r, Nat.add_1_r. split_and!; [done|lia|lia| |done]. intros j Hj. lia. }
  destruct (SendOnce answer ch msg (attempts ch msg calls n)) as [calls' [e|]] eqn:E; cbn [fst snd] in Hfail, Hatt; rewrite <- Hatt; clear calls' E Hatt;
    [|apply Last; unfold endsWith; by rewrite Hfail].
  destruct (cancelled env _) eqn:Hc; [apply Last; unfold endsWith; rewrite Hfail; by auto|].
  destruct (shouldRetrySendError env e) eqn:Hr; cbn [negb]; [|apply Last; unfold endsWith; rewrite Hfail; by auto].
  destruct (Z.leb_spec maxAttempts (Z.of_nat (S n))); [apply Last; unfold endsWith; rewrite Hfail; right; right; split; [done|lia]|].
  destruct (sleepCancelled env _) eqn:Hs; [apply Last; unfold endsWith; rewrite Hfail; by auto|].
  destruct (IH (S n) (slept ++ [retryDelayAt delays (Z.of_nat (S n))])) as (r & k & Hl & Hk & Hj & He); [lia..|].
  exists r, (S k). rewrite Hl. replace (n + S k)%nat with (S n + k)%nat by lia. split_and!; [|lia|lia| |done].
  - do 2 f_equal. rewrite <- app_assoc. f_equal. replace (S k - 1)%nat with (S (k - 1)) by lia. done.
  - intros j Hj'. destruct (decide (j = S n)) as [->|]; [by exists e|]. apply Hj. lia.
Qed.

(** A delivery ends: it makes at least one attempt and at most the configured
    number, sleeps the scheduled delay after each attempt that fails and is repeated,
    and its end is that of its last attempt: delivered if that succeeded, otherwise
    cancelled, not retryable, or given up because it was the last one allowed. *)
Theorem retries_bounded env delays SendMaxRetries ch msg calls :
  let maxAttempts := Z.max 1 SendMaxRetries in
  ∃ r k, SendWithRetry answer (Z.to_nat maxAttempts) env delays SendMaxRetries None ch msg calls =
      Some (r, attempts ch msg calls k, map (λ i, retryDelayAt delays (Z.of_nat i)) (seq 1 (k - 1))) ∧
    1 ≤ Z.of_nat k ≤ maxAttempts ∧ (∀ j, (0 < j < k)%nat → goesOn env ch msg calls j) ∧ endsWith env maxAttempts ch msg calls k r.
Proof.
  cbn zeta. unfold SendWithRetry. replace (if SendMaxRetries <? 1 then 1 else SendMaxRetries) with (Z.max 1 SendMaxRetries) by (destruct (Z.ltb_spec SendMaxRetries 1); lia).
  set (M := Z.max 1 SendMaxRetries). destruct (sendRetry_spec (Z.to_nat M) env delays M ch msg calls 0 []) as (r & k & H1 & H2 & H3 & H4); [lia..|].
  exists r, k. split_and!; [exact H1|lia|lia|exact H3|exact H4].
Qed.
End Attempts.

(** ** A concrete stream *)

Definition demo_delta (chat text : string) : OutboundMessage :=
  mkOut "telegram" chat text None [] ∅ [] (Some (EValue (EvStreamDelta (mkDelta text (Some "s1"))))).
Definition demo_end (chat text : string) : OutboundMessage :=
  mkOut "telegram" chat text None [] ∅ [] (Some (EPointer (EvStreamEnd (mkEnd text (Some "s1") false false)))).
Definition demo_stream : list OutboundMessage :=
  [demo_delta "1" "Hel"; demo_delta "1" "lo "; demo_delta "2" "Bye"; demo_delta "1" "wor"; demo_end "1" "ld"; demo_end "2" ""].
Definition demo_registry : Registry := {["telegram" := mkChannel 0 true true true true true RBase None None]}.

Lemma stream_text_kept_witness :
  let out := map snd (dispatchOutboundLoop id (length demo_stream) 0 (λ _, 5%nat) (λ _, false) (λ _, false) (λ _ _, demo_registry) [] demo_stream (newFingerprintStore 1000)) in
  streamText (mkTarget "telegram" "1" (Some "s1")) out = "Hello world" ∧ length out = 4%nat.
Proof.
  cbn zeta. split; [|by vm_compute].
  rewrite (stream_text_kept id (λ _, 5%nat) (λ _, false) (λ _, false) (λ _ _, demo_registry) demo_stream (newFingerprintStore 1000) (mkTarget "telegram" "1" (Some "s1")));
    [by vm_compute|]. intros i. split_and!; [done|done|by eexists].
Defined.

(** The delays before attempts two to five. *)
Example retry_schedule : map (retryDelayAt SendRetryDelays) [1; 2; 3; 4] = [1000000000; 2000000000; 4000000000; 4000000000].
Proof. reflexivity. Qed.
