(* ===== verification/OutboundTasks.v ===== *)
(** * The tasks of the outbound path (src/internal/channels/manager_outbound.go, manager.go)

    [QueueOutbound] takes one of the admission slots, looks whether the channel is still
    the one registered, and starts a goroutine that waits for its predecessor to the same
    chat, takes a send slot, delivers and cleans up.  [cancelOutbound] takes a snapshot of
    the tasks, cancels them one by one and waits for them; [StopChannel] marks the channel
    around it.  The state is what they share; a label is one critical section or channel
    operation of one of them, and any interleaving of labels is a run.  What a delivery
    itself does is in [Outbound]. *)

From S2P Require Import Prelude GoText GoLib PyFloat Regex GoFmt Core GoJson Bus Pairing Events Channels Outbound.
#[local] Open Scope string_scope.
#[local] Open Scope list_scope.
#[local] Open Scope nat_scope.

(** ** State *)

(** [(channel, chatID)]. *)
Abbreviation outboundKey := (string * string)%type.

(** Where the goroutine of a task is: at the wait for its predecessor, at the send slots,
    in [sendWithRetry], at the lock of the deferred clean-up, before it frees its
    admission slot, before it closes [done], and after. *)
Inductive tphase := TWait | TAcquire | TSending | TLeaving | TUnlinked | TFreed | TDone.
#[export] Instance tphase_eq_dec : EqDecision tphase.
Proof. solve_decision. Defined.

Record outboundTask := mkTask {
  t_key : outboundKey; t_prev : option nat; t_ch : Channel; t_msg : OutboundMessage; t_phase : tphase; t_cancelled : bool }.

(** Where a caller of [QueueOutbound] that has a slot is: before the two checks, before
    it registers its task, or about to give the slot back. *)
Inductive cphase := CAdmitted | CLive | CChecked | CDrop.
Record caller := mkCaller { c_ch : Channel; c_msg : OutboundMessage; c_phase : cphase }.

(** A call of [cancelOutbound]: the tasks still to cancel and those to wait for. *)
Record sweep := mkSweep { sw_todo : list nat; sw_wait : list nat }.

(** A task is its index; [o_next] is the next one.  [o_sent] is the order in which
    deliveries have started. *)
Record OState := mkO {
  o_tasks : gmap nat outboundTask; o_next : nat; o_live : gset nat; o_tails : gmap outboundKey nat;
  o_slots : nat; o_sends : nat; o_callers : gmap nat caller; o_sweeps : gmap nat sweep;
  o_stopping : gset string; o_registry : Registry; o_sent : list nat }.

(** The size of the two semaphores. *)
Record limits := mkLimits { pendingLimit : nat; sendLimit : nat }.

Definition init (reg : Registry) : OState := mkO ∅ 0 ∅ ∅ 0 0 ∅ ∅ ∅ reg [].

Definition with_phase (p : tphase) (t : outboundTask) : outboundTask :=
  mkTask (t_key t) (t_prev t) (t_ch t) (t_msg t) p (t_cancelled t).
Definition set_cancelled (t : outboundTask) : outboundTask :=
  mkTask (t_key t) (t_prev t) (t_ch t) (t_msg t) (t_phase t) true.
Definition with_caller (p : cphase) (c : caller) : caller := mkCaller (c_ch c) (c_msg c) p.

(** Field assignments. *)
Definition set_tasks (ts : gmap nat outboundTask) (s : OState) : OState :=
  mkO ts (o_next s) (o_live s) (o_tails s) (o_slots s) (o_sends s) (o_callers s) (o_sweeps s) (o_stopping s) (o_registry s) (o_sent s).
Definition set_slots (n : nat) (s : OState) : OState :=
  mkO (o_tasks s) (o_next s) (o_live s) (o_tails s) n (o_sends s) (o_callers s) (o_sweeps s) (o_stopping s) (o_registry s) (o_sent s).
Definition set_sends (n : nat) (s : OState) : OState :=
  mkO (o_tasks s) (o_next s) (o_live s) (o_tails s) (o_slots s) n (o_callers s) (o_sweeps s) (o_stopping s) (o_registry s) (o_sent s).
Definition set_callers (cs : gmap nat caller) (s : OState) : OState :=
  mkO (o_tasks s) (o_next s) (o_live s) (o_tails s) (o_slots s) (o_sends s) cs (o_sweeps s) (o_stopping s) (o_registry s) (o_sent s).
Definition set_sweeps (ws : gmap nat sweep) (s : OState) : OState :=
  mkO (o_tasks s) (o_next s) (o_live s) (o_tails s) (o_slots s) (o_sends s) (o_callers s) ws (o_stopping s) (o_registry s) (o_sent s).
Definition set_manager (st : gset string) (reg : Registry) (s : OState) : OState :=
  mkO (o_tasks s) (o_next s) (o_live s) (o_tails s) (o_slots s) (o_sends s) (o_callers s) (o_sweeps s) st reg (o_sent s).
Definition set_links (live : gset nat) (tails : gmap outboundKey nat) (s : OState) : OState :=
  mkO (o_tasks s) (o_next s) live tails (o_slots s) (o_sends s) (o_callers s) (o_sweeps s) (o_stopping s) (o_registry s) (o_sent s).
Definition log_sent (id : nat) (s : OState) : OState :=
  mkO (o_tasks s) (o_next s) (o_live s) (o_tails s) (o_slots s) (o_sends s) (o_callers s) (o_sweeps s) (o_stopping s) (o_registry s) (o_sent s ++ [id]).

(** ** The manager's registry *)

Definition isStopping (s : OState) (channel : string) : bool := bool_decide (channel ∈ o_stopping s).

(** Identity; a value whose type has no equality is never the same. *)
Definition sameChannel (a b : Channel) : bool := (ch_id a =? ch_id b) && ch_comparable a.

Definition isCurrentChannel (s : OState) (channel : string) (ch : Channel) : bool :=
  match o_registry s !! channel with Some current => sameChannel current ch | None => false end.

(** ** Steps of a caller *)

(** Waiting for a slot: [None] while there is none. *)
Definition admitCaller (L : limits) (c : nat) (ch : Channel) (msg : OutboundMessage) (s : OState) : option OState :=
  match o_callers s !! c with
  | Some _ => None
  | None => if o_slots s <? pendingLimit L then Some (set_slots (S (o_slots s)) (set_callers (<[c := mkCaller ch msg CAdmitted]> (o_callers s)) s)) else None
  end.

Definition checkStopping (c : nat) (s : OState) : option OState :=
  match o_callers s !! c with
  | Some (mkCaller ch msg CAdmitted as x) =>
      Some (set_callers (<[c := with_caller (if isStopping s (out_Channel msg) then CDrop else CLive) x]> (o_callers s)) s)
  | _ => None
  end.

Definition checkCurrent (c : nat) (s : OState) : option OState :=
  match o_callers s !! c with
  | Some (mkCaller ch msg CLive as x) =>
      Some (set_callers (<[c := with_caller (if isCurrentChannel s (out_Channel msg) ch then CChecked else CDrop) x]> (o_callers s)) s)
  | _ => None
  end.

Definition dropCaller (c : nat) (s : OState) : option OState :=
  match o_callers s !! c with
  | Some (mkCaller _ _ CDrop) => Some (set_slots (o_slots s - 1) (set_callers (delete c (o_callers s)) s))
  | _ => None
  end.

(** The critical section that registers the task, and the [go] statement. *)
Definition register (c : nat) (s : OState) : option OState :=
  match o_callers s !! c with
  | Some (mkCaller ch msg CChecked) =>
      let key := (out_Channel msg, out_ChatID msg) in
      let task := mkTask key (o_tails s !! key) ch msg TWait false in
      Some (mkO (<[o_next s := task]> (o_tasks s)) (S (o_next s)) ({[o_next s]} ∪ o_live s) (<[key := o_next s]> (o_tails s))
              (o_slots s) (o_sends s) (delete c (o_callers s)) (o_sweeps s) (o_stopping s) (o_registry s) (o_sent s))
  | _ => None
  end.

(** ** Steps of the goroutine of a task *)

Definition phaseOf (s : OState) (id : nat) : option tphase := t_phase <$> o_tasks s !! id.

Definition goTo (id : nat) (t : outboundTask) (p : tphase) (s : OState) : OState := set_tasks (<[id := with_phase p t]> (o_tasks s)) s.

(** [previous] is nil or done. *)
Definition predecessorDone (s : OState) (t : outboundTask) : bool :=
  match t_prev t with None => true | Some p => bool_decide (phaseOf s p = Some TDone) end.

Inductive taskLabel := KWaited | KWaitCancelled | KTakeSend | KAcquireCancelled | KSendReturns | KUnlink | KFreeSlot | KClose.

Definition taskStep (L : limits) (id : nat) (k : taskLabel) (s : OState) : option OState :=
  match o_tasks s !! id with
  | None => None
  | Some t =>
      match t_phase t, k with
      | TWait, KWaited => if predecessorDone s t then Some (goTo id t TAcquire s) else None
      | TWait, KWaitCancelled => if bool_decide (is_Some (t_prev t)) && t_cancelled t then Some (goTo id t TLeaving s) else None
      | TAcquire, KTakeSend => if o_sends s <? sendLimit L then Some (log_sent id (set_sends (S (o_sends s)) (goTo id t TSending s))) else None
      | TAcquire, KAcquireCancelled => if t_cancelled t then Some (goTo id t TLeaving s) else None
      | TSending, KSendReturns => Some (set_sends (o_sends s - 1) (goTo id t TLeaving s))
      | TLeaving, KUnlink =>
          let tails := if bool_decide (o_tails s !! t_key t = Some id) then delete (t_key t) (o_tails s) else o_tails s in
          Some (set_links (o_live s ∖ {[id]}) tails (goTo id t TUnlinked s))
      | TUnlinked, KFreeSlot => Some (set_slots (o_slots s - 1) (goTo id t TFreed s))
      | TFreed, KClose => Some (goTo id t TDone s)
      | _, _ => None
      end
  end.

(** ** Steps of [cancelOutbound] and of the manager *)

Definition matchesChannel (s : OState) (channel : string) (id : nat) : bool :=
  String.eqb channel "" || match o_tasks s !! id with Some t => String.eqb (fst (t_key t)) channel | None => false end.

Definition sweepBegin (w : nat) (channel : string) (s : OState) : option OState :=
  match o_sweeps s !! w with
  | Some _ => None
  | None => let tasks := List.filter (matchesChannel s channel) (elements (o_live s)) in
            Some (set_sweeps (<[w := mkSweep tasks tasks]> (o_sweeps s)) s)
  end.

Definition sweepCancel (w : nat) (s : OState) : option OState :=
  match o_sweeps s !! w with
  | Some (mkSweep (id :: todo) wait_) =>
      Some (set_sweeps (<[w := mkSweep todo wait_]> (o_sweeps s)) (set_tasks (alter set_cancelled id (o_tasks s)) s))
  | _ => None
  end.

Definition sweepEnd (w : nat) (s : OState) : option OState :=
  match o_sweeps s !! w with
  | Some (mkSweep [] wait_) =>
      if forallb (λ id, bool_decide (phaseOf s id = Some TDone)) wait_ then Some (set_sweeps (delete w (o_sweeps s)) s) else None
  | _ => None
  end.

Inductive label :=
  | LAdmit (c : nat) (ch : Channel) (msg : OutboundMessage) | LCheckStopping (c : nat) | LCheckCurrent (c : nat) | LDrop (c : nat) | LRegister (c : nat)
  | LTask (id : nat) (k : taskLabel)
  | LSweep (w : nat) (channel : string) | LCancel (w : nat) | LSwept (w : nat)
  | LMark (channel : string) | LUnmark (channel : string) | LSetChannel (name : string) (ch : Channel) | LRemoveChannel (name : string).

Definition exec (L : limits) (l : label) (s : OState) : option OState :=
  match l with
  | LAdmit c ch msg => admitCaller L c ch msg s
  | LCheckStopping c => checkStopping c s
  | LCheckCurrent c => checkCurrent c s
  | LDrop c => dropCaller c s
  | LRegister c => register c s
  | LTask id k => taskStep L id k s
  | LSweep w channel => sweepBegin w channel s
  | LCancel w => sweepCancel w s
  | LSwept w => sweepEnd w s
  | LMark channel => Some (set_manager ({[channel]} ∪ o_stopping s) (o_registry s) s)
  | LUnmark channel => Some (set_manager (o_stopping s ∖ {[channel]}) (o_registry s) s)
  | LSetChannel name ch => Some (set_manager (o_stopping s) (<[name := ch]> (o_registry s)) s)
  | LRemoveChannel name => Some (set_manager (o_stopping s) (delete name (o_registry s)) s)
  end.

Definition step (L : limits) (s : OState) (l : label) (s' : OState) : Prop := exec L l s = Some s'.
Definition initial (s : OState) : Prop := ∃ reg, s = init reg.
Abbreviation reach L := (reachable (step L) initial).

Fixpoint execs (L : limits) (ls : list label) (s : OState) : option OState :=
  match ls with [] => Some s | l :: ls => exec L l s ≫= execs L ls end.
