(* ===== verification/OutboundTasksFacts.v ===== *)
(** * What the outbound tasks guarantee

    In every interleaving the two semaphores are counted exactly and never exceeded, the
    deliveries to one chat start in the order of their registration and do not overlap
    unless one of them is cancelled, and whatever happens the tasks can always run to
    their end. *)

From S2P Require Import Prelude GoText GoLib PyFloat Regex GoFmt Core GoJson Bus Pairing Events Channels Outbound OutboundTasks.
#[local] Open Scope string_scope.
#[local] Open Scope list_scope.
#[local] Open Scope nat_scope.

Section Facts.
Context (L : limits).

(** ** Phases *)

(** The task is in [tasks]; it holds an admission slot; it has a send slot; it has begun
    to deliver. *)
Definition linked (p : tphase) : bool := match p with TWait | TAcquire | TSending | TLeaving => true | _ => false end.
Definition holds (p : tphase) : bool := match p with TFreed | TDone => false | _ => true end.
Definition sending (p : tphase) : bool := match p with TSending => true | _ => false end.
Definition started (p : tphase) : bool := match p with TWait | TAcquire => false | _ => true end.

Definition b2z (b : bool) : Z := if b then 1%Z else 0%Z.

(** ** Tasks change by phase and cancellation only *)

Definition evolve (t t' : outboundTask) : Prop :=
  t_key t = t_key t' ∧ t_prev t = t_prev t' ∧ (t_cancelled t = true → t_cancelled t' = true) ∧ (t_phase t ≠ TWait → t_phase t' ≠ TWait) ∧
  (started (t_phase t) = true → started (t_phase t') = true).
Definition evolves (ts ts' : gmap nat outboundTask) : Prop := map_relation (λ _, evolve) (λ _ _, False) (λ _ _, False) ts ts'.

Lemma evolve_refl t : evolve t t.
Proof. by split_and!. Qed.

Lemma evolves_update ts id t t' : ts !! id = Some t → evolve t t' → evolves ts (<[id := t']> ts).
Proof.
  intros Hid He a. destruct (decide (a = id)) as [->|Hne]; [by rewrite Hid, lookup_insert_eq|]. rewrite lookup_insert_ne by done.
  destruct (ts !! a); [apply evolve_refl|done].
Qed.

Lemma evolves_alter ts id f : (∀ t, evolve t (f t)) → evolves ts (alter f id ts).
Proof.
  intros Hf a. destruct (decide (a = id)) as [->|Hne]; [rewrite lookup_alter_eq|rewrite lookup_alter_ne by done]; destruct (ts !! _); cbn; auto using evolve_refl.
Qed.

Lemma evolves_fwd ts ts' a t : evolves ts ts' → ts !! a = Some t → ∃ t', ts' !! a = Some t' ∧ evolve t t'.
Proof. intros H Ha. specialize (H a). rewrite Ha in H. destruct (ts' !! a) as [t'|]; [by exists t'|done]. Qed.

Lemma evolves_bwd ts ts' a t' : evolves ts ts' → ts' !! a = Some t' → ∃ t, ts !! a = Some t ∧ evolve t t'.
Proof. intros H Ha. specialize (H a). rewrite Ha in H. destruct (ts !! a) as [t|]; [by exists t|done]. Qed.

(** ** Registration order *)

Definition newest (ts : gmap nat outboundTask) (k : outboundKey) (id : nat) : Prop := ∀ a t, ts !! a = Some t → t_key t = k → a ≤ id.

Record Static (s : OState) : Prop := {
  st_ids : ∀ id t, o_tasks s !! id = Some t → id < o_next s;
  st_prev : ∀ b t p, o_tasks s !! b = Some t → t_prev t = Some p →
    p < b ∧ is_Some (o_tasks s !! p) ∧ (∀ tp, o_tasks s !! p = Some tp → t_key tp = t_key t) ∧
    ∀ a ta, o_tasks s !! a = Some ta → t_key ta = t_key t → a < b → a ≤ p }.

Lemma newest_evolves ts ts' k id : evolves ts ts' → newest ts k id → newest ts' k id.
Proof. intros He H a t' Ha Hk. destruct (evolves_bwd _ _ _ _ He Ha) as (t & Ht & E & _). apply (H a t Ht). congruence. Qed.

Lemma Static_evolves s s' : evolves (o_tasks s) (o_tasks s') → o_next s' = o_next s → Static s → Static s'.
Proof.
  intros He Hn [H1 H2]. split.
  - intros id t' Ha. destruct (evolves_bwd _ _ _ _ He Ha) as (t & Ht & _). rewrite Hn. by eapply H1.
  - intros b t' p Hb Hp. destruct (evolves_bwd _ _ _ _ He Hb) as (t & Ht & E1 & E2 & _). rewrite <- E2 in Hp.
    destruct (H2 b t p Ht Hp) as (Hlt & [tp Htp] & Hk & Hm). split_and!; [done|..].
    + destruct (evolves_fwd _ _ _ _ He Htp) as (tp' & ? & _). by exists tp'.
    + intros tp' Htp'. destruct (evolves_bwd _ _ _ _ He Htp') as (tp0 & Htp0 & E3 & _). rewrite <- E3, <- E1. by apply Hk.
    + intros a ta' Ha Hka Hab. destruct (evolves_bwd _ _ _ _ He Ha) as (ta & Hta & E4 & _). apply (Hm a ta Hta); [congruence|done].
Qed.

(** ** The registered tasks and the tails *)

Record Live (s : OState) : Prop := {
  lv_live : ∀ id, id ∈ o_live s ↔ ∃ t, o_tasks s !! id = Some t ∧ linked (t_phase t) = true;
  lv_tails : ∀ k id, o_tails s !! k = Some id → newest (o_tasks s) k id ∧ ∃ t, o_tasks s !! id = Some t ∧ t_key t = k ∧ linked (t_phase t) = true }.

(** Nothing is registered or unlinked. *)
Definition sameLinks (ts ts' : gmap nat outboundTask) : Prop :=
  ∀ a t t', ts !! a = Some t → ts' !! a = Some t' → linked (t_phase t') = linked (t_phase t).

Lemma Live_evolves s s' : evolves (o_tasks s) (o_tasks s') → sameLinks (o_tasks s) (o_tasks s') → o_live s' = o_live s → o_tails s' = o_tails s → Live s → Live s'.
Proof.
  intros He Hl E1 E2 [H1 H2]. split.
  - intros id. rewrite E1, H1. split.
    + intros (t & Ht & Hp). destruct (evolves_fwd _ _ _ _ He Ht) as (t' & Ht' & _). exists t'. split; [done|]. by rewrite (Hl _ _ _ Ht Ht').
    + intros (t' & Ht' & Hp). destruct (evolves_bwd _ _ _ _ He Ht') as (t & Ht & _). exists t. split; [done|]. by rewrite <- (Hl _ _ _ Ht Ht').
  - intros k id. rewrite E2. intros (Hn & t & Ht & Hk & Hp)%H2. split; [by eapply newest_evolves|].
    destruct (evolves_fwd _ _ _ _ He Ht) as (t' & Ht' & Ek & _). exists t'. split_and!; [done|congruence|]. by rewrite (Hl _ _ _ Ht Ht').
Qed.

Lemma sameLinks_update ts id t t' : ts !! id = Some t → linked (t_phase t') = linked (t_phase t) → sameLinks ts (<[id := t']> ts).
Proof.
  intros Hid Hl a x x' Hx Hx'. destruct (decide (a = id)) as [->|Hne].
  - rewrite lookup_insert_eq in Hx'. congruence.
  - rewrite lookup_insert_ne in Hx' by done. congruence.
Qed.

Lemma sameLinks_alter ts id : sameLinks ts (alter set_cancelled id ts).
Proof.
  intros a x x' Hx Hx'. destruct (decide (a = id)) as [->|Hne]; [rewrite lookup_alter_eq, Hx in Hx'; by injection Hx' as <-|].
  rewrite lookup_alter_ne in Hx' by done. congruence.
Qed.

(** ** First in, first out *)

(** No task to this chat has been cancelled. *)
Definition quiet (s : OState) (k : outboundKey) : Prop := ∀ a t, o_tasks s !! a = Some t → t_key t = k → t_cancelled t = false.

Definition sentTo (s : OState) (k : outboundKey) : list nat :=
  List.filter (λ id, bool_decide (t_key <$> o_tasks s !! id = Some k)) (o_sent s).

(** A task that has passed the wait follows only tasks that are through. *)
Record Fifo (s : OState) (k : outboundKey) : Prop := {
  ff_order : ∀ a b ta tb, o_tasks s !! a = Some ta → o_tasks s !! b = Some tb → t_key ta = k → t_key tb = k → a < b →
    t_phase tb ≠ TWait → linked (t_phase ta) = false;
  ff_tail : o_tails s !! k = None → ∀ a ta, o_tasks s !! a = Some ta → t_key ta = k → linked (t_phase ta) = false;
  ff_first : ∀ a b ta tb, o_tasks s !! a = Some ta → o_tasks s !! b = Some tb → t_key ta = k → t_key tb = k → a < b →
    t_prev tb = None → linked (t_phase ta) = false;
  ff_sent : StronglySorted lt (sentTo s k) }.

Record Order (s : OState) : Prop := {
  or_static : Static s;
  or_live : Live s;
  or_sent : ∀ id, id ∈ o_sent s → ∃ t, o_tasks s !! id = Some t ∧ started (t_phase t) = true;
  or_fifo : ∀ k, quiet s k → Fifo s k }.

Lemma quiet_evolves s s' k : evolves (o_tasks s) (o_tasks s') → quiet s' k → quiet s k.
Proof.
  intros He Hq a t Ha Hk. destruct (evolves_fwd _ _ _ _ He Ha) as (t' & Ha' & E & _ & Hc & _). specialize (Hq a t' Ha' ltac:(congruence)).
  destruct (t_cancelled t); [|done]. rewrite Hc in Hq; done.
Qed.

Lemma sentTo_evolves s s' k : evolves (o_tasks s) (o_tasks s') → o_sent s' = o_sent s → sentTo s' k = sentTo s k.
Proof.
  intros He E. unfold sentTo. rewrite E. apply List.filter_ext. intros id. apply bool_decide_ext. specialize (He id).
  destruct (o_tasks s !! id) as [t|], (o_tasks s' !! id) as [t'|]; cbn in *; try done. by destruct He as (-> & _).
Qed.

Lemma sent_evolves s s' : evolves (o_tasks s) (o_tasks s') → o_sent s' = o_sent s →
  (∀ id, id ∈ o_sent s → ∃ t, o_tasks s !! id = Some t ∧ started (t_phase t) = true) →
  ∀ id, id ∈ o_sent s' → ∃ t, o_tasks s' !! id = Some t ∧ started (t_phase t) = true.
Proof.
  intros He E H id Hid. rewrite E in Hid. destruct (H id Hid) as (t & Ht & Hs). destruct (evolves_fwd _ _ _ _ He Ht) as (t' & Ht' & _ & _ & _ & _ & Hst).
  exists t'. by auto.
Qed.

(** A step that lets no further task of the chat pass the wait. *)
Lemma Fifo_evolves s s' k : evolves (o_tasks s) (o_tasks s') → sameLinks (o_tasks s) (o_tasks s') → o_tails s' = o_tails s → o_sent s' = o_sent s →
  (∀ a t t', o_tasks s !! a = Some t → o_tasks s' !! a = Some t' → t_key t = k → t_phase t' ≠ TWait → t_phase t ≠ TWait) → Fifo s k → Fifo s' k.
Proof.
  intros He Hl Et Es Hw [H1 H2 H3 H4]. split.
  - intros a b ta' tb' Ha' Hb' Ka Kb Hab Hp. destruct (evolves_bwd _ _ _ _ He Ha') as (ta & Ha & Ea & _). destruct (evolves_bwd _ _ _ _ He Hb') as (tb & Hb & Eb & _).
    rewrite (Hl _ _ _ Ha Ha'). apply (H1 a b ta tb); try congruence. apply (Hw b tb tb' Hb Hb'); congruence.
  - rewrite Et. intros Hn a ta' Ha' Ka. destruct (evolves_bwd _ _ _ _ He Ha') as (ta & Ha & Ea & _). rewrite (Hl _ _ _ Ha Ha'). apply (H2 Hn a ta Ha). congruence.
  - intros a b ta' tb' Ha' Hb' Ka Kb Hab Hp. destruct (evolves_bwd _ _ _ _ He Ha') as (ta & Ha & Ea & _). destruct (evolves_bwd _ _ _ _ He Hb') as (tb & Hb & Eb & Ep & _).
    rewrite (Hl _ _ _ Ha Ha'). apply (H3 a b ta tb); congruence.
  - by rewrite (sentTo_evolves s s').
Qed.

Lemma Order_evolves s s' : evolves (o_tasks s) (o_tasks s') → sameLinks (o_tasks s) (o_tasks s') →
  o_next s' = o_next s → o_live s' = o_live s → o_tails s' = o_tails s → o_sent s' = o_sent s →
  (∀ a t t', o_tasks s !! a = Some t → o_tasks s' !! a = Some t' → t_phase t' ≠ TWait → t_phase t ≠ TWait) → Order s → Order s'.
Proof.
  intros He Hl En El Et Es Hw [H1 H2 H3 H4]. split.
  - by eapply Static_evolves.
  - by eapply Live_evolves.
  - by eapply sent_evolves.
  - intros k Hq. eapply Fifo_evolves; eauto. by apply H4, (quiet_evolves s s').
Qed.

Lemma evolves_refl ts : evolves ts ts.
Proof. intros a. destruct (ts !! a); [apply evolve_refl|done]. Qed.

(** A step that touches neither tasks nor links. *)
Lemma Order_same s s' : o_tasks s' = o_tasks s → o_next s' = o_next s → o_live s' = o_live s → o_tails s' = o_tails s → o_sent s' = o_sent s → Order s → Order s'.
Proof.
  intros E1 E2 E3 E4 E5. apply Order_evolves; rewrite ?E1; try done; [apply evolves_refl|intros a t t' Ht Ht'..]; [congruence|]. intros. congruence.
Qed.

(** A change of phase of a task that has passed the wait. *)
Lemma Order_phase s s' id t p : o_tasks s !! id = Some t → o_tasks s' = <[id := with_phase p t]> (o_tasks s) →
  o_next s' = o_next s → o_live s' = o_live s → o_tails s' = o_tails s → o_sent s' = o_sent s →
  t_phase t ≠ TWait → p ≠ TWait → (started (t_phase t) = true → started p = true) → linked p = linked (t_phase t) → Order s → Order s'.
Proof.
  intros Hid E En El Et Es Hw Hp Hst Hlk. apply Order_evolves; rewrite ?E; try done.
  - by eapply evolves_update.
  - by eapply sameLinks_update.
  - intros a x x' Hx Hx' Hne. destruct (decide (a = id)) as [->|Ha]; [congruence|]. rewrite lookup_insert_ne in Hx' by done. congruence.
Qed.

(** A task passes the wait: nobody before it is still registered. *)
Lemma Order_pass s id t p : o_tasks s !! id = Some t → t_phase t = TWait → p ≠ TWait → linked p = true →
  (quiet (goTo id t p s) (t_key t) → ∀ a ta, o_tasks s !! a = Some ta → t_key ta = t_key t → a < id → linked (t_phase ta) = false) →
  Order s → Order (goTo id t p s).
Proof.
  intros Hid Hw Hp Hlk Hbefore [H1 H2 H3 H4].
  assert (evolves (o_tasks s) (o_tasks (goTo id t p s))) as He by (eapply evolves_update; [done|]; split_and!; [done..|by rewrite Hw]).
  assert (sameLinks (o_tasks s) (o_tasks (goTo id t p s))) as Hl by (eapply sameLinks_update; [done|]; by rewrite Hw).
  split; [by eapply Static_evolves|by eapply Live_evolves|by eapply sent_evolves|]. intros k Hq. pose proof (H4 k (quiet_evolves _ _ _ He Hq)) as HF.
  destruct (decide (t_key t = k)) as [<-|Hk].
  - destruct HF as [F1 F2 F3 F4]. assert (∀ a x, o_tasks (goTo id t p s) !! a = Some x → a ≠ id → o_tasks s !! a = Some x) as Hother.
    { intros a x Hx Hne. cbn in Hx. by rewrite lookup_insert_ne in Hx. }
    assert (∀ a x', o_tasks (goTo id t p s) !! a = Some x' → t_key x' = t_key t → ∃ x, o_tasks s !! a = Some x ∧ t_key x = t_key t ∧ t_prev x = t_prev x' ∧ linked (t_phase x') = linked (t_phase x)) as Hback.
    { intros a x' Hx' Hk'. destruct (evolves_bwd _ _ _ _ He Hx') as (x & Hx & E & E' & _). exists x. split_and!; [done|congruence|done|by eapply Hl]. }
    split.
    + intros a b ta' tb' Ha Hb Ka Kb Hab Hph. destruct (Hback a ta' Ha Ka) as (ta & Ha0 & Ka0 & _ & ->). destruct (decide (b = id)) as [->|Hne]; [by apply (Hbefore Hq a ta)|].
      apply (F1 a b ta tb'); auto.
    + intros Hn a ta' Ha Ka. destruct (Hback a ta' Ha Ka) as (ta & Ha0 & Ka0 & _ & ->). by apply (F2 Hn a ta).
    + intros a b ta' tb' Ha Hb Ka Kb Hab Hph. destruct (Hback a ta' Ha Ka) as (ta & Ha0 & Ka0 & _ & ->). destruct (Hback b tb' Hb Kb) as (tb & Hb0 & Kb0 & Eb & _).
      apply (F3 a b ta tb); congruence.
    + by rewrite (sentTo_evolves s _ _ He).
  - apply (Fifo_evolves s); try done. intros a x x' Hx Hx' Hkx Hne. cbn in Hx'. rewrite lookup_insert_ne in Hx' by congruence. congruence.
Qed.

(** Waiting is over when the predecessor is done. *)
Lemma before_through s id t : Order s → o_tasks s !! id = Some t → predecessorDone s t = true → quiet s (t_key t) →
  ∀ a ta, o_tasks s !! a = Some ta → t_key ta = t_key t → a < id → linked (t_phase ta) = false.
Proof.
  intros [[_ Hprev] _ _ Hf] Hid Hd Hq a ta Ha Hk Hlt. destruct (Hf _ Hq) as [F1 _ F3 _]. unfold predecessorDone in Hd. destruct (t_prev t) as [q|] eqn:Ep; [|by apply (F3 a id ta t)].
  apply bool_decide_eq_true in Hd. unfold phaseOf in Hd. apply fmap_Some in Hd as (tq & Hq' & Hph). destruct (Hprev id t q Hid Ep) as (Hqid & _ & Hkq & Hmax).
  specialize (Hkq tq Hq'). specialize (Hmax a ta Ha Hk Hlt). destruct (decide (a = q)) as [->|]; [assert (ta = tq) as -> by congruence; by rewrite <- Hph|].
  apply (F1 a q ta tq); [done..|lia|]. by rewrite <- Hph.
Qed.

Lemma sorted_snoc_lt l (x : nat) : StronglySorted lt l → Forall (λ y, y < x) l → StronglySorted lt (l ++ [x]).
Proof.
  induction 1 as [|y l Hs IH Hy]; intros Hx; [by repeat constructor|]. apply Forall_cons in Hx as [Hyx Hx]. cbn. constructor; [by apply IH|].
  apply Forall_app. by split; [|constructor].
Qed.

(** A delivery starts after all those registered before it to the same chat. *)
Lemma Order_start s id t : o_tasks s !! id = Some t → t_phase t = TAcquire → Order s → Order (log_sent id (goTo id t TSending s)).
Proof.
  intros Hid Hp HO. assert (Order (goTo id t TSending s)) as [H1 H2 H3 H4] by (eapply (Order_phase s _ id t TSending); try done; by rewrite Hp).
  assert (o_tasks (goTo id t TSending s) !! id = Some (with_phase TSending t)) as Hid' by apply lookup_insert_eq.
  split; [by destruct H1|by destruct H2| |].
  - intros a. cbn [log_sent o_sent o_tasks]. rewrite elem_of_app, list_elem_of_singleton. intros [Ha| ->]; [by apply H3|]. by eexists.
  - intros k Hq. destruct (H4 k Hq) as [F1 F2 F3 F4]. split; [exact F1|exact F2|exact F3|]. unfold sentTo in *. cbn [log_sent o_sent]. rewrite List.filter_app. cbn [List.filter].
    change (o_tasks (log_sent id (goTo id t TSending s))) with (o_tasks (goTo id t TSending s)). rewrite Hid'. cbn [fmap option_fmap option_map t_key with_phase].
    destruct (bool_decide _) eqn:Ek; [|by rewrite app_nil_r]. apply bool_decide_eq_true in Ek. injection Ek as Ek. apply sorted_snoc_lt; [exact F4|].
    apply Forall_forall. intros c [Hc Hck]%list_elem_of_In%filter_In. apply list_elem_of_In in Hc. apply bool_decide_eq_true, fmap_Some in Hck as (tc & Htc & Hck).
    destruct (or_sent _ HO c Hc) as (tc0 & Htc0 & Hst). destruct (decide (c = id)) as [->|Hne]; [assert (tc0 = t) as -> by congruence; by rewrite Hp in Hst|].
    destruct (decide (c < id)); [done|]. cbn in Htc. rewrite lookup_insert_ne in Htc by done. assert (tc0 = tc) as -> by congruence.
    assert (evolves (o_tasks s) (o_tasks (goTo id t TSending s))) as He by (eapply evolves_update; [done|]; split_and!; [done..|by rewrite Hp]).
    assert (linked (t_phase t) = false) as Hl; [|by rewrite Hp in Hl].
    apply (ff_order _ _ (or_fifo _ HO k (quiet_evolves _ _ _ He Hq)) id c t tc); try done; [lia|]. by destruct (t_phase tc).
Qed.

Definition unlink (id : nat) (t : outboundTask) (s : OState) : OState :=
  set_links (o_live s ∖ {[id]}) (if bool_decide (o_tails s !! t_key t = Some id) then delete (t_key t) (o_tails s) else o_tails s) (goTo id t TUnlinked s).

Lemma unlink_tails id t s k a : o_tails (unlink id t s) !! k = Some a → o_tails s !! k = Some a ∧ (k = t_key t → a ≠ id).
Proof.
  cbn. destruct (bool_decide _) eqn:E; bool_hyps.
  - intros [Hk Ha]%lookup_delete_Some. split; [done|congruence].
  - intros Ha. split; [done|]. intros -> ->. done.
Qed.

Lemma Live_unlink s id t : o_tasks s !! id = Some t → Live s → Live (unlink id t s).
Proof.
  intros Hid [H1 H2]. split.
  - intros a. cbn [unlink set_links o_live o_tasks goTo set_tasks]. rewrite elem_of_difference, elem_of_singleton, H1. split.
    + intros ((x & Hx & Hl) & Hne). exists x. by rewrite lookup_insert_ne.
    + intros (x & Hx & Hl). destruct (decide (a = id)) as [->|Hne]; [rewrite lookup_insert_eq in Hx; injection Hx as <-; done|].
      rewrite lookup_insert_ne in Hx by done. split; [by exists x|done].
  - intros k a [Ha Hne]%unlink_tails. destruct (H2 k a Ha) as (Hn & x & Hx & Hk & Hl). split.
    + eapply newest_evolves; [|exact Hn]. eapply evolves_update; [done|]. split_and!; done.
    + exists x. split_and!; [|done|done]. cbn. rewrite lookup_insert_ne; [done|]. intros <-. assert (x = t) as -> by congruence. by destruct Hne.
Qed.

Lemma Fifo_unlink s id t k : o_tasks s !! id = Some t → t_phase t = TLeaving → Live s → Fifo s k → Fifo (unlink id t s) k.
Proof.
  intros Hid Hp HL [F1 F2 F3 F4]. assert (evolves (o_tasks s) (o_tasks (unlink id t s))) as He by (eapply evolves_update; [done|]; by split_and!).
  assert (∀ a x', o_tasks (unlink id t s) !! a = Some x' → ∃ x, o_tasks s !! a = Some x ∧ t_key x = t_key x' ∧ t_prev x = t_prev x' ∧
    (t_phase x' ≠ TWait → t_phase x ≠ TWait) ∧ (linked (t_phase x) = false ∨ a = id → linked (t_phase x') = false)) as Hback.
  { intros a x' Hx'. cbn in Hx'. destruct (decide (a = id)) as [->|Hne].
    - rewrite lookup_insert_eq in Hx'. injection Hx' as <-. exists t. rewrite Hp. by split_and!.
    - rewrite lookup_insert_ne in Hx' by done. exists x'. split_and!; try done. by intros [|]. }
  split.
  - intros a b ta' tb' Ha Hb Ka Kb Hab Hph. destruct (Hback a ta' Ha) as (ta & Ha0 & Ka0 & _ & _ & Hl). destruct (Hback b tb' Hb) as (tb & Hb0 & Kb0 & _ & Hph0 & _).
    apply Hl. left. apply (F1 a b ta tb); try congruence. by apply Hph0.
  - intros Hn a ta' Ha Ka. destruct (Hback a ta' Ha) as (ta & Ha0 & Ka0 & _ & _ & Hl). apply Hl. cbn in Hn. destruct (bool_decide _) eqn:E; bool_hyps.
    + destruct (decide (k = t_key t)) as [->|Hk]; [|left; rewrite lookup_delete_ne in Hn by done; apply (F2 Hn a ta Ha0); congruence].
      destruct (lv_tails _ HL _ _ E) as [Hnew _]. destruct (decide (a = id)) as [->|Hne]; [by right|left]. specialize (Hnew a ta Ha0 ltac:(congruence)).
      apply (F1 a id ta t); try congruence. lia.
    + left. apply (F2 Hn a ta Ha0). congruence.
  - intros a b ta' tb' Ha Hb Ka Kb Hab Hph. destruct (Hback a ta' Ha) as (ta & Ha0 & Ka0 & _ & _ & Hl). destruct (Hback b tb' Hb) as (tb & Hb0 & Kb0 & Ep & _).
    apply Hl. left. apply (F3 a b ta tb); congruence.
  - by rewrite (sentTo_evolves s _ _ He).
Qed.

Lemma Order_unlink s id t : o_tasks s !! id = Some t → t_phase t = TLeaving → Order s → Order (unlink id t s).
Proof.
  intros Hid Hp [H1 H2 H3 H4]. assert (evolves (o_tasks s) (o_tasks (unlink id t s))) as He by (eapply evolves_update; [done|]; by split_and!).
  split; [by eapply Static_evolves|by apply Live_unlink|by eapply sent_evolves|]. intros k Hq. apply Fifo_unlink; [done..|]. by apply H4, (quiet_evolves _ _ _ He).
Qed.

(** ** Registration *)

Definition registered (key : outboundKey) (ch : Channel) (msg : OutboundMessage) (s : OState) : OState :=
  mkO (<[o_next s := mkTask key (o_tails s !! key) ch msg TWait false]> (o_tasks s)) (S (o_next s)) ({[o_next s]} ∪ o_live s) (<[key := o_next s]> (o_tails s))
    (o_slots s) (o_sends s) (o_callers s) (o_sweeps s) (o_stopping s) (o_registry s) (o_sent s).

Lemma registered_lookup key ch msg s a x : o_tasks (registered key ch msg s) !! a = Some x →
  (a = o_next s ∧ x = mkTask key (o_tails s !! key) ch msg TWait false) ∨ (a ≠ o_next s ∧ o_tasks s !! a = Some x).
Proof. cbn. destruct (decide (a = o_next s)) as [->|Hne]; [rewrite lookup_insert_eq; intros [= <-]; by left|rewrite lookup_insert_ne by done; by right]. Qed.

Lemma Static_registered key ch msg s : Static s → Live s → Static (registered key ch msg s).
Proof.
  intros [H1 H2] [_ HT]. assert (∀ a x, o_tasks s !! a = Some x → o_tasks (registered key ch msg s) !! a = Some x) as Hold.
  { intros a x Hx. cbn. rewrite lookup_insert_ne; [done|]. specialize (H1 a x Hx). lia. }
  split.
  - intros id t [[-> _]|[_ Ht]]%registered_lookup; cbn; [lia|]. specialize (H1 id t Ht). lia.
  - intros b t p [[-> ->]|[Hne Hb]]%registered_lookup; cbn [t_prev t_key]; intros Hp.
    + destruct (HT key p Hp) as (Hn & tp & Htp & Hk & _). split_and!; [by eapply H1|by exists tp; apply Hold|..].
      * intros x Hx. rewrite (Hold p tp Htp) in Hx. by injection Hx as <-.
      * intros a ta [[-> _]|[_ Ha]]%registered_lookup Hka Hlt; [lia|]. by apply (Hn a ta).
    + destruct (H2 b t p Hb Hp) as (Hlt & [tp Htp] & Hk & Hm). split_and!; [done|by exists tp; apply Hold|..].
      * intros x Hx. rewrite (Hold p tp Htp) in Hx. apply Hk. congruence.
      * intros a ta [[-> _]|[_ Ha]]%registered_lookup Hka Hlt'; [specialize (H1 b t Hb); lia|]. by apply (Hm a ta).
Qed.

Lemma Live_registered key ch msg s : Static s → Live s → Live (registered key ch msg s).
Proof.
  intros [H1 _] [HL HT]. split.
  - intros a. cbn [registered o_live]. rewrite elem_of_union, elem_of_singleton, HL. split.
    + intros [->|(x & Hx & Hl)]; [eexists; cbn; rewrite lookup_insert_eq; done|]. exists x. split; [|done]. cbn. rewrite lookup_insert_ne; [done|]. specialize (H1 a x Hx). lia.
    + intros (x & [[-> _]|[_ Hx]]%registered_lookup & Hl); [by left|right; by exists x].
  - intros k a. cbn [registered o_tails]. destruct (decide (k = key)) as [->|Hk].
    + rewrite lookup_insert_eq. intros [= <-]. split; [|eexists; cbn; rewrite lookup_insert_eq; done].
      intros b x [[-> _]|[_ Hx]]%registered_lookup _; [done|]. specialize (H1 b x Hx). lia.
    + rewrite lookup_insert_ne by done. intros (Hn & x & Hx & Hkx & Hl)%HT. split.
      * intros b y [[-> ->]|[_ Hy]]%registered_lookup; cbn; [congruence|]. by apply Hn.
      * exists x. split_and!; [|done|done]. cbn. rewrite lookup_insert_ne; [done|]. specialize (H1 a x Hx). lia.
Qed.

Lemma Order_registered key ch msg s : Order s → Order (registered key ch msg s).
Proof.
  intros [H1 H2 H3 H4]. split; [by apply Static_registered|by apply Live_registered| |].
  - intros id Hid. destruct (H3 id Hid) as (t & Ht & Hs). exists t. split; [|done]. cbn. rewrite lookup_insert_ne; [done|]. apply (st_ids _ H1) in Ht. lia.
  - intros k Hq. destruct (H4 k) as [F1 F2 F3 F4].
    { intros a t Ha Hk. apply (Hq a); [|done]. cbn. rewrite lookup_insert_ne; [done|]. apply (st_ids _ H1) in Ha. lia. }
    split.
    + intros a b ta tb [[-> ->]|[_ Ha]]%registered_lookup [[-> ->]|[_ Hb]]%registered_lookup Ka Kb Hab Hp; [lia|apply (st_ids _ H1) in Hb; lia|done|]. by apply (F1 a b ta tb).
    + cbn [registered o_tails]. intros Hn a ta [[-> ->]|[_ Ha]]%registered_lookup Ka; [cbn in Ka; subst k; by rewrite lookup_insert_eq in Hn|].
      destruct (decide (key = k)) as [->|Hne]; [by rewrite lookup_insert_eq in Hn|]. rewrite lookup_insert_ne in Hn by done. by apply (F2 Hn a).
    + intros a b ta tb [[-> ->]|[_ Ha]]%registered_lookup [[-> ->]|[_ Hb]]%registered_lookup Ka Kb Hab Hp; [lia|apply (st_ids _ H1) in Hb; lia| |by apply (F3 a b ta tb)].
      cbn in Kb, Hp. rewrite Kb in Hp. by apply (F2 Hp a ta).
    + unfold sentTo in *. cbn [registered o_sent]. erewrite List.filter_ext_in; [exact F4|]. intros id Hid%list_elem_of_In. cbn beta. apply bool_decide_ext.
      destruct (H3 id Hid) as (t & Ht & _). cbn. rewrite lookup_insert_ne; [done|]. apply (st_ids _ H1) in Ht. lia.
Qed.

(** ** Every step keeps the order *)

Lemma Order_task id k s s' : taskStep L id k s = Some s' → Order s → Order s'.
Proof.
  unfold taskStep. destruct (o_tasks s !! id) as [t|] eqn:Hid; [|done]. destruct (t_phase t) eqn:Hp, k; try done; intros Hs HO.
  - destruct (predecessorDone s t) eqn:Hd; [|done]. injection Hs as <-. apply Order_pass; try done. intros Hq. apply before_through; [done..|].
    eapply quiet_evolves; [|exact Hq]. eapply evolves_update; [done|]. split_and!; [done..|by rewrite Hp].
  - destruct (_ && _) eqn:Hc; [|done]. bool_hyps. injection Hs as <-. apply Order_pass; try done. intros Hq. specialize (Hq id (with_phase TLeaving t)).
    cbn in Hq. rewrite lookup_insert_eq in Hq. rewrite Hq in H0 by done. done.
  - destruct (_ <? _); [|done]. injection Hs as <-. eapply (Order_same (log_sent id (goTo id t TSending s))); [done..|]. by apply Order_start.
  - destruct (t_cancelled t); [|done]. injection Hs as <-. eapply (Order_phase s _ id t TLeaving); rewrite ?Hp; done.
  - injection Hs as <-. eapply (Order_phase s _ id t TLeaving); rewrite ?Hp; done.
  - injection Hs as <-. by apply (Order_unlink s id t).
  - injection Hs as <-. eapply (Order_phase s _ id t TFreed); rewrite ?Hp; done.
  - injection Hs as <-. eapply (Order_phase s _ id t TDone); rewrite ?Hp; done.
Qed.

Lemma Order_cancel w s s' : sweepCancel w s = Some s' → Order s → Order s'.
Proof.
  unfold sweepCancel. destruct (o_sweeps s !! w) as [[[|id todo] wait_]|]; try done. intros [= <-]. apply Order_evolves; try done.
  - apply evolves_alter. intros t. by split_and!.
  - apply sameLinks_alter.
  - intros a t t' Ht. cbn. intros Ht'. destruct (decide (a = id)) as [->|Hne]; [rewrite lookup_alter_eq, Ht in Ht'; by injection Ht' as <-|].
    rewrite lookup_alter_ne in Ht' by done. congruence.
Qed.

Lemma Order_step s l s' : step L s l s' → Order s → Order s'.
Proof.
  unfold step. destruct l; cbn [exec]; intros Hs HO.
  - unfold admitCaller in Hs. repeat case_match; simplify_eq. by eapply Order_same, HO.
  - unfold checkStopping in Hs. repeat case_match; simplify_eq; by eapply Order_same, HO.
  - unfold checkCurrent in Hs. repeat case_match; simplify_eq; by eapply Order_same, HO.
  - unfold dropCaller in Hs. repeat case_match; simplify_eq. by eapply Order_same, HO.
  - unfold register in Hs. repeat case_match; simplify_eq. eapply Order_same; [..|apply Order_registered, HO]; done.
  - by eapply Order_task.
  - unfold sweepBegin in Hs. repeat case_match; simplify_eq. by eapply Order_same, HO.
  - by eapply Order_cancel.
  - unfold sweepEnd in Hs. repeat case_match; simplify_eq. by eapply Order_same, HO.
  - injection Hs as <-. by eapply Order_same, HO.
  - injection Hs as <-. by eapply Order_same, HO.
  - injection Hs as <-. by eapply Order_same, HO.
  - injection Hs as <-. by eapply Order_same, HO.
Qed.

Lemma reach_Order s : reach L s → Order s.
Proof.
  apply reachable_invariant; [|intros ? ? ? H Hs; by eapply Order_step]. intros ? [reg ->]. split.
  - by split.
  - split; [intros id; cbn; split; [intros H; by apply not_elem_of_empty in H|by intros (? & ? & _)]|done].
  - intros id H. cbn in H. by apply elem_of_nil in H.
  - intros k _. split; try done. constructor.
Qed.

(** C13. First in, first out: in every interleaving, as long as no delivery to a chat is
    cancelled, deliveries to it start in the order in which they were queued, and one
    that has begun to wait for a send slot, or has gone further, finds all earlier ones
    through. *)
Theorem outbound_fifo s k :
  reach L s → quiet s k →
  StronglySorted lt (sentTo s k) ∧
  ∀ a b ta tb, o_tasks s !! a = Some ta → o_tasks s !! b = Some tb → t_key ta = k → t_key tb = k → a < b → t_phase tb ≠ TWait →
    linked (t_phase ta) = false.
Proof. intros HR Hq. destruct (or_fifo _ (reach_Order s HR) k Hq) as [F1 _ _ F4]. by split. Qed.

(** ** The semaphores *)

Definition count (f : tphase → bool) (ts : gmap nat outboundTask) : Z := msum (λ _ t, b2z (f (t_phase t))) ts.

Record Counts (s : OState) : Prop := {
  ct_slots : Z.of_nat (o_slots s) = (Z.of_nat (size (o_callers s)) + count holds (o_tasks s))%Z;
  ct_sends : Z.of_nat (o_sends s) = count sending (o_tasks s);
  ct_pending : o_slots s ≤ pendingLimit L;
  ct_sending : o_sends s ≤ sendLimit L }.

Lemma b2z_range b : (0 ≤ b2z b ≤ 1)%Z.
Proof. destruct b; cbn; lia. Qed.

Lemma count_phase f ts id t p : ts !! id = Some t → count f (<[id := with_phase p t]> ts) = (count f ts - b2z (f (t_phase t)) + b2z (f p))%Z.
Proof. intros Hid. unfold count. by rewrite (msum_update _ _ _ _ _ Hid). Qed.

Lemma count_new f ts id t : ts !! id = None → count f (<[id := t]> ts) = (b2z (f (t_phase t)) + count f ts)%Z.
Proof. intros Hid. unfold count. by rewrite msum_insert. Qed.

Lemma count_nonneg f ts : (0 ≤ count f ts)%Z.
Proof. apply msum_nonneg. intros. apply b2z_range. Qed.

Lemma count_pos f ts id t : ts !! id = Some t → (b2z (f (t_phase t)) ≤ count f ts)%Z.
Proof.
  intros Hid. unfold count. rewrite (msum_delete _ _ _ _ Hid). pose proof (count_nonneg f (delete id ts)). unfold count in *. lia.
Qed.

Lemma count_cancel f ts id : count f (alter set_cancelled id ts) = count f ts.
Proof.
  destruct (ts !! id) as [t|] eqn:Hid; [|by rewrite alter_id by congruence].
  assert (alter set_cancelled id ts = <[id := set_cancelled t]> ts) as ->.
  { apply map_eq. intros a. destruct (decide (a = id)) as [->|Hne]; [by rewrite lookup_alter_eq, lookup_insert_eq, Hid|by rewrite lookup_alter_ne, lookup_insert_ne]. }
  unfold count. rewrite (msum_update _ _ _ _ _ Hid). cbn [set_cancelled t_phase]. lia.
Qed.

Lemma size_positive {V} (m : gmap nat V) c v : m !! c = Some v → (0 < size m).
Proof. intros H. destruct (size m) eqn:E; [|lia]. apply map_size_empty_iff in E. by rewrite E in H. Qed.

Ltac counts id Hid :=
  pose proof (count_pos holds _ id _ Hid); pose proof (count_pos sending _ id _ Hid);
  split; cbn [o_slots o_sends o_callers o_tasks set_sends set_slots set_links set_tasks goTo log_sent];
  rewrite ?(count_phase _ _ _ _ _ Hid); cbn [b2z holds sending] in *.

Lemma Counts_task id k s s' : taskStep L id k s = Some s' → Counts s → Counts s'.
Proof.
  unfold taskStep. destruct (o_tasks s !! id) as [t|] eqn:Hid; [|done]. destruct (t_phase t) eqn:Hp, k; try done; intros Hs [C1 C2 C3 C4];
    repeat (case_match; [|done]); simplify_eq; bool_hyps; counts id Hid; rewrite Hp in *; cbn [b2z holds sending] in *; try lia.
  all: apply Nat.ltb_lt in H; lia.
Qed.

Lemma Counts_step s l s' : step L s l s' → Order s → Counts s → Counts s'.
Proof.
  unfold step. destruct l as [c ch msg|c|c|c|c|id k|w channel|w|w|channel|channel|name ch|name]; cbn [exec]; intros Hs HO; try (intros [C1 C2 C3 C4]).
  - unfold admitCaller in Hs. repeat case_match; simplify_eq. apply Nat.ltb_lt in H0. split; cbn; rewrite ?map_size_insert_None by done; lia.
  - unfold checkStopping in Hs. repeat case_match; simplify_eq; split; cbn; rewrite ?map_size_insert_Some by eauto; done.
  - unfold checkCurrent in Hs. repeat case_match; simplify_eq; split; cbn; rewrite ?map_size_insert_Some by eauto; done.
  - unfold dropCaller in Hs. repeat case_match; simplify_eq. pose proof (size_positive _ _ _ H). pose proof (count_nonneg holds (o_tasks s)).
    split; cbn; rewrite ?map_size_delete_Some by eauto; try done; lia.
  - unfold register in Hs. repeat case_match; simplify_eq. pose proof (size_positive _ _ _ H).
    assert (o_tasks s !! o_next s = None) as Hn by (destruct (o_tasks s !! o_next s) eqn:E; [apply (st_ids _ (or_static _ HO)) in E; lia|done]).
    split; cbn [o_slots o_sends o_callers o_tasks]; rewrite ?map_size_delete_Some, ?count_new by eauto; cbn [b2z holds sending t_phase]; try done; lia.
  - by eapply Counts_task.
  - unfold sweepBegin in Hs. repeat case_match; simplify_eq. by split.
  - unfold sweepCancel in Hs. repeat case_match; simplify_eq. split; cbn; rewrite ?count_cancel; done.
  - unfold sweepEnd in Hs. repeat case_match; simplify_eq. by split.
  - injection Hs as <-. by split.
  - injection Hs as <-. by split.
  - injection Hs as <-. by split.
  - injection Hs as <-. by split.
Qed.

Lemma reach_Counts s : reach L s → Order s ∧ Counts s.
Proof.
  apply (reachable_invariant (step L) initial (λ s, Order s ∧ Counts s)); [|intros ? ? ? [H1 H2] Hs; split; [by eapply Order_step|by eapply Counts_step]].
  intros ? [reg ->]. split; [apply reach_Order, reachable_init; by exists reg|]. split; cbn; try done; lia.
Qed.

Lemma live_count s : Order s → (Z.of_nat (size (o_live s)) ≤ count holds (o_tasks s))%Z.
Proof.
  intros [_ HL _ _]. assert (o_live s ⊆ dom (filter (λ x : nat * outboundTask, holds (t_phase x.2) = true) (o_tasks s))) as Hsub.
  { intros id (t & Ht & Hl)%(lv_live _ HL). apply elem_of_dom. exists t. apply map_lookup_filter_Some. split; [done|]. cbn. by destruct (t_phase t). }
  apply subseteq_size in Hsub. rewrite size_dom in Hsub. enough (Z.of_nat (size (filter (λ x : nat * outboundTask, holds (t_phase x.2) = true) (o_tasks s))) = count holds (o_tasks s)) by lia.
  unfold count. clear. induction (o_tasks s) as [|id t ts Hn IH] using map_ind; [done|]. rewrite msum_insert by done. destruct (holds (t_phase t)) eqn:E.
  - rewrite map_filter_insert_True by done. rewrite map_size_insert_None by (apply map_lookup_filter_None; by left). cbn [b2z]. lia.
  - rewrite map_filter_insert_False by (cbn; by rewrite E). rewrite delete_id by done. cbn [b2z]. lia.
Qed.

(** The limits hold: in every interleaving, cancelled or not, the admission
    semaphore counts exactly the callers about to register and the tasks that have not
    given their slot back, the send semaphore exactly the deliveries in progress;
    neither exceeds its limit, nor does the number of registered tasks. *)
Theorem outbound_bounded s :
  reach L s →
  Z.of_nat (o_slots s) = (Z.of_nat (size (o_callers s)) + count holds (o_tasks s))%Z ∧ Z.of_nat (o_sends s) = count sending (o_tasks s) ∧
  o_slots s ≤ pendingLimit L ∧ o_sends s ≤ sendLimit L ∧ size (o_callers s) + size (o_live s) ≤ pendingLimit L.
Proof. intros [HO [C1 C2 C3 C4]]%reach_Counts. pose proof (live_count s HO). split_and!; [done..|lia]. Qed.

(** ** The end of the tasks *)

(** What is left to do for a task, at most. *)
Definition remaining_steps (p : tphase) : nat :=
  match p with TWait => 6 | TAcquire => 5 | TSending => 4 | TLeaving => 3 | TUnlinked => 2 | TFreed => 1 | TDone => 0 end.
Definition work (s : OState) : Z := msum (λ _ t, Z.of_nat (remaining_steps (t_phase t))) (o_tasks s).

Lemma work_phase s id t p : o_tasks s !! id = Some t →
  work (goTo id t p s) = (work s - Z.of_nat (remaining_steps (t_phase t)) + Z.of_nat (remaining_steps p))%Z.
Proof. intros Hid. unfold work. cbn. by rewrite (msum_update _ _ _ _ _ Hid). Qed.

Lemma work_nonneg s : (0 ≤ work s)%Z.
Proof. apply msum_nonneg. intros. lia. Qed.

Lemma work_task id k s s' : taskStep L id k s = Some s' → (work s' < work s)%Z.
Proof.
  unfold taskStep. destruct (o_tasks s !! id) as [t|] eqn:Hid; [|done]. destruct (t_phase t) eqn:Hp, k; try done; intros Hs;
    repeat (case_match; [|done]); simplify_eq; unfold work in *; cbn; rewrite (msum_update _ _ _ _ _ Hid), Hp; cbn; lia.
Qed.

Definition all_done (s : OState) : Prop := ∀ id t, o_tasks s !! id = Some t → t_phase t = TDone.

(** The first task that is not done. *)
Lemma first_busy s : ¬ all_done s → ∃ id t, o_tasks s !! id = Some t ∧ t_phase t ≠ TDone ∧ ∀ a ta, o_tasks s !! a = Some ta → a < id → t_phase ta = TDone.
Proof.
  intros Hn. assert (∃ id t, o_tasks s !! id = Some t ∧ t_phase t ≠ TDone) as (id & t & Hid & Hp).
  { apply dec_stable. intros Hx. apply Hn. intros id t Hid. destruct (decide (t_phase t = TDone)) as [|Hp]; [done|]. destruct Hx. by exists id, t. }
  revert t Hid Hp. induction (lt_wf id) as [id _ IH]. intros t Hid Hp.
  destruct (decide (∃ a ta, o_tasks s !! a = Some ta ∧ a < id ∧ t_phase ta ≠ TDone)) as [(a & ta & Ha & Hlt & Hpa)|Hx]; [by eapply (IH a)|].
  exists id, t. split_and!; [done..|]. intros a ta Ha Hlt. destruct (decide (t_phase ta = TDone)) as [|Hpa]; [done|]. destruct Hx. by exists a, ta.
Qed.

Lemma count_witness f ts : (0 < count f ts)%Z → ∃ id t, ts !! id = Some t ∧ f (t_phase t) = true.
Proof.
  intros Hc. destruct (decide (∃ id t, ts !! id = Some t ∧ f (t_phase t) = true)) as [|Hn]; [done|]. exfalso.
  assert (count f ts = msum (λ _ _, 0%Z) ts) as E.
  { apply msum_ext. intros id t Ht. destruct (f (t_phase t)) eqn:E; [|done]. destruct Hn. by exists id, t. }
  enough (msum (λ (_ : nat) (_ : outboundTask), 0%Z) ts = 0%Z) by lia. clear. induction ts as [|id t ts Hn IH] using map_ind; [done|]. by rewrite msum_insert.
Qed.

(** Some goroutine can go on, if only the one whose delivery returns. *)
Lemma task_progress s : 0 < sendLimit L → Order s → Counts s → ¬ all_done s → ∃ id k s', taskStep L id k s = Some s'.
Proof.
  intros HL HO HC (id & t & Hid & Hp & Hmin)%first_busy. destruct (t_phase t) eqn:Ht; try done.
  - exists id, KWaited. unfold taskStep. rewrite Hid, Ht. assert (predecessorDone s t = true) as ->; [|by eauto]. unfold predecessorDone.
    destruct (t_prev t) as [q|] eqn:Eq; [|done]. destruct (st_prev _ (or_static _ HO) id t q Hid Eq) as (Hlt & [tq Hq] & _).
    apply bool_decide_eq_true. unfold phaseOf. rewrite Hq. cbn. by rewrite (Hmin q tq Hq Hlt).
  - destruct (o_sends s <? sendLimit L) eqn:E; [exists id, KTakeSend; unfold taskStep; rewrite Hid, Ht, E; by eauto|]. apply Nat.ltb_ge in E.
    destruct (count_witness sending (o_tasks s)) as (b & tb & Hb & Hsb); [rewrite <- (ct_sends _ HC); lia|]. exists b, KSendReturns. unfold taskStep. rewrite Hb.
    destruct (t_phase tb); try done. by eauto.
  - exists id, KSendReturns. unfold taskStep. rewrite Hid, Ht. by eauto.
  - exists id, KUnlink. unfold taskStep. rewrite Hid, Ht. by eauto.
  - exists id, KFreeSlot. unfold taskStep. rewrite Hid, Ht. by eauto.
  - exists id, KClose. unfold taskStep. rewrite Hid, Ht. by eauto.
Qed.

Lemma count_done f s : all_done s → f TDone = false → count f (o_tasks s) = 0%Z.
Proof.
  intros Hd Hf. destruct (decide (0 < count f (o_tasks s))%Z) as [(id & t & Ht & Hp)%count_witness|]; [rewrite (Hd id t Ht) in Hp; congruence|].
  pose proof (count_nonneg f (o_tasks s)). lia.
Qed.

(** Nothing is left of the tasks. *)
Definition drained (s : OState) : Prop :=
  all_done s ∧ o_live s = ∅ ∧ o_tails s = ∅ ∧ o_sends s = 0 ∧ o_slots s = size (o_callers s).

Lemma done_drained s : Order s → Counts s → all_done s → drained s.
Proof.
  intros HO HC Hd. split; [done|]. pose proof (count_done holds s Hd eq_refl) as Hh. pose proof (count_done sending s Hd eq_refl) as Hs. split_and!.
  - apply set_eq. intros id. rewrite (lv_live _ (or_live _ HO)). split; [|intros H; by apply not_elem_of_empty in H]. intros (t & Ht & Hl). by rewrite (Hd id t Ht) in Hl.
  - apply map_eq. intros k. rewrite lookup_empty. destruct (o_tails s !! k) as [id|] eqn:E; [|done]. destruct (lv_tails _ (or_live _ HO) k id E) as (_ & t & Ht & _ & Hl).
    by rewrite (Hd id t Ht) in Hl.
  - pose proof (ct_sends _ HC). lia.
  - pose proof (ct_slots _ HC). lia.
Qed.

Definition is_task_label (l : label) : Prop := match l with LTask _ _ => True | _ => False end.

(** C14. The outbound path drains: from any reachable state, cancelled tasks or not, the
    goroutines of the tasks can take only so many steps together, whatever their order,
    and when none of them can move every task is done, all links are gone, no send slot
    is held and no admission slot but those of callers. *)
Theorem outbound_drains s ls s' :
  0 < sendLimit L → reach L s → steps (step L) s ls s' → Forall is_task_label ls →
  (Z.of_nat (length ls) ≤ work s)%Z ∧ ((∀ id k, taskStep L id k s' = None) → drained s').
Proof.
  intros HL HR Hs Hf. assert (reach L s' ∧ (Z.of_nat (length ls) + work s' ≤ work s)%Z) as [HR' Hw].
  { induction Hs as [|s0 ls s1 l s2 _ IH Hst]; [split; [done|cbn; lia]|]. apply Forall_app in Hf as [Hf Hl]. destruct (IH HR Hf) as [HR1 Hw].
    split; [by eapply reachable_step|]. apply Forall_cons in Hl as [Hl _]. destruct l; try done. apply work_task in Hst. rewrite length_app. cbn. lia. }
  pose proof (work_nonneg s'). split; [lia|]. intros Hstuck. destruct (reach_Counts s' HR') as [HO HC]. apply done_drained; [done..|].
  destruct (decide (all_done s')) as [|Hn]; [done|]. destruct (task_progress s' HL HO HC Hn) as (id & k & s2 & E). by rewrite Hstuck in E.
Qed.
End Facts.

(** ** Concrete runs *)

Lemma execs_steps L ls s s' : execs L ls s = Some s' → steps (step L) s ls s'.
Proof.
  revert s s'. induction ls as [|l ls IH] using rev_ind; intros s s' H; [injection H as <-; constructor|].
  assert (∀ ls s, execs L (ls ++ [l]) s = execs L ls s ≫= exec L l) as Happ.
  { intros k. induction k as [|x k IHk]; intros s0; cbn; [by destruct (exec L l s0)|]. destruct (exec L x s0); cbn; [apply IHk|done]. }
  rewrite Happ in H. apply bind_Some in H as (s1 & H1 & H2). econstructor; [by apply IH|done].
Qed.

Lemma execs_reach L ls reg s : execs L ls (init reg) = Some s → reach L s.
Proof. intros H. exists (init reg), ls. split; [by exists reg|by apply execs_steps]. Qed.

Definition tiny : limits := mkLimits 4 2.
Definition demo_channel : Channel := mkChannel 0 true true false false false RNone None None.
Definition demo_reg : Registry := {["telegram" := demo_channel]}.
Definition demo_msg (chat text : string) : OutboundMessage := mkOut "telegram" chat text None [] ∅ [] None.

(** [QueueOutbound] from admission to the [go] statement. *)
Definition queue (c : nat) (chat text : string) : list label :=
  [LAdmit c demo_channel (demo_msg chat text); LCheckStopping c; LCheckCurrent c; LRegister c].
Definition task_run (id : nat) (ks : list taskLabel) : list label := map (LTask id) ks.

(** Two messages to one chat and one to another; the first is delivered. *)
Definition demo_run : list label :=
  queue 0 "1" "a" ++ queue 1 "1" "b" ++ queue 2 "2" "c" ++ task_run 2 [KWaited; KTakeSend] ++
  task_run 0 [KWaited; KTakeSend; KSendReturns; KUnlink; KFreeSlot; KClose] ++ task_run 1 [KWaited; KTakeSend].

Definition demo_state : OState := default (init demo_reg) (execs tiny demo_run (init demo_reg)).
Lemma demo_reached : reach tiny demo_state.
Proof. apply (execs_reach tiny demo_run demo_reg). by vm_compute. Qed.
Lemma demo_quiet k : quiet demo_state k.
Proof.
  assert (map_Forall (λ _ t, t_cancelled t = false) (o_tasks demo_state)) as Hq by (apply (bool_decide_unpack _); by vm_compute).
  intros a t Ha _. by apply (Hq a t Ha).
Qed.

Lemma outbound_fifo_witness :
  sentTo demo_state ("telegram", "1") = [0; 1] ∧ phaseOf demo_state 1 = Some TSending ∧ StronglySorted lt (sentTo demo_state ("telegram", "1")).
Proof. split_and!; [by vm_compute|by vm_compute|]. apply (outbound_fifo tiny demo_state ("telegram", "1") demo_reached (demo_quiet _)). Defined.

Lemma outbound_bounded_witness : o_sends demo_state = 2 ∧ o_slots demo_state = 2 ∧ o_sends demo_state ≤ sendLimit tiny.
Proof. split_and!; [by vm_compute|by vm_compute|]. apply (outbound_bounded tiny demo_state demo_reached). Defined.

(** The rest of the run of [demo_run]. *)
Definition demo_rest : list label := task_run 1 [KSendReturns; KUnlink; KFreeSlot; KClose] ++ task_run 2 [KSendReturns; KUnlink; KFreeSlot; KClose].
Definition demo_over : OState := default demo_state (execs tiny demo_rest demo_state).

Lemma outbound_drains_witness : work demo_state = 8%Z ∧ (Z.of_nat (length demo_rest) ≤ work demo_state)%Z ∧ o_slots demo_over = 0.
Proof.
  split_and!; [by vm_compute| |by vm_compute]. apply (outbound_drains tiny demo_state demo_rest demo_over); [cbn; lia|apply demo_reached| |by repeat constructor].
  apply execs_steps. by vm_compute.
Defined.

(** A cancelled successor unlinks itself while its predecessor, whose delivery has not
    noticed the cancellation, is still in progress: what is queued next finds no tail,
    waits for nobody and is delivered at the same time. *)
Definition overlap_run : list label :=
  queue 0 "1" "a" ++ queue 1 "1" "b" ++ task_run 0 [KWaited; KTakeSend] ++
  [LAdmit 2 demo_channel (demo_msg "1" "c"); LCheckStopping 2; LMark "telegram"; LSweep 0 "telegram"; LCancel 0; LCancel 0] ++
  task_run 1 [KWaitCancelled; KUnlink] ++ [LCheckCurrent 2; LRegister 2] ++ task_run 2 [KWaited; KTakeSend].

Theorem cancel_overlaps : ∃ s, execs tiny overlap_run (init demo_reg) = Some s ∧
  phaseOf s 0 = Some TSending ∧ phaseOf s 2 = Some TSending ∧ (t_key <$> o_tasks s !! 0) = (t_key <$> o_tasks s !! 2).
Proof. eexists. split; [by vm_compute|]. by vm_compute. Qed.
