(* ===== verification/ChannelManager.v ===== *)
(** * The registry of the channel manager (src/internal/channels/manager.go)

    Which channels there are, in the order in which they were added, what plugin owns
    them, whether they failed to start, and the status reported of them.  Each method is
    one critical section of the manager's lock. *)

From S2P Require Import Prelude GoText GoLib PyFloat Regex GoFmt Core GoJson Bus Pairing Events Channels.
#[local] Open Scope string_scope.
#[local] Open Scope list_scope.
#[local] Open Scope nat_scope.

Record channelSpec := mkSpec { owner : string; instanceID : string }.

(** A start task is its index; [mg_finished] are those whose [done] is closed,
    [mg_cancelled] those that were cancelled. *)
Record ChannelManager := mkManager {
  mg_channels : gmap string Channel; mg_order : list string; mg_owners : gmap string string;
  mg_specs : gmap string channelSpec; mg_specOrder : list string; mg_errs : gmap string string;
  mg_tasks : gmap string nat; mg_finished : gset nat; mg_cancelled : gset nat; mg_next : nat }.

Definition NewManager : ChannelManager := mkManager ∅ [] ∅ ∅ [] ∅ ∅ ∅ ∅ 0.

(** ** Registration *)

Definition setChannelLocked (name : string) (ch : Channel) (m : ChannelManager) : ChannelManager :=
  let order := match mg_channels m !! name with Some _ => mg_order m | None => mg_order m ++ [name] end in
  mkManager (<[name := ch]> (mg_channels m)) order (mg_owners m) (mg_specs m) (mg_specOrder m) (mg_errs m) (mg_tasks m) (mg_finished m) (mg_cancelled m) (mg_next m).
Definition AddChannel := setChannelLocked.

Definition SetChannelRuntimeSpec (runtimeName own inst : string) (m : ChannelManager) : ChannelManager :=
  let specOrder := match mg_specs m !! runtimeName with Some _ => mg_specOrder m | None => mg_specOrder m ++ [runtimeName] end in
  mkManager (mg_channels m) (mg_order m) (<[runtimeName := own]> (mg_owners m)) (<[runtimeName := mkSpec own inst]> (mg_specs m)) specOrder
    (mg_errs m) (mg_tasks m) (mg_finished m) (mg_cancelled m) (mg_next m).

Definition AddChannelInstance (runtimeName own inst : string) (ch : Channel) (m : ChannelManager) : ChannelManager :=
  SetChannelRuntimeSpec runtimeName own inst (setChannelLocked runtimeName ch m).

(** The loops that cut a name out of an order. *)
Fixpoint removeName (name : string) (l : list string) : list string :=
  match l with [] => [] | n :: l => if String.eqb n name then l else n :: removeName name l end.

Definition RemoveChannel (name : string) (m : ChannelManager) : ChannelManager :=
  match mg_channels m !! name with
  | None => m
  | Some _ =>
      let specOrder := match mg_specs m !! name with Some _ => removeName name (mg_specOrder m) | None => mg_specOrder m end in
      mkManager (delete name (mg_channels m)) (removeName name (mg_order m)) (delete name (mg_owners m)) (delete name (mg_specs m)) specOrder
        (delete name (mg_errs m)) (mg_tasks m) (mg_finished m) (mg_cancelled m) (mg_next m)
  end.

Definition EnabledChannels (m : ChannelManager) : list string := mg_order m.

Definition SetChannelError (runtimeName message : string) (m : ChannelManager) : ChannelManager :=
  mkManager (mg_channels m) (mg_order m) (mg_owners m) (mg_specs m) (mg_specOrder m) (<[runtimeName := message]> (mg_errs m))
    (mg_tasks m) (mg_finished m) (mg_cancelled m) (mg_next m).

(** ** Starting and stopping *)

Definition genericStartError : string := "Channel failed to start. Check gateway logs.".

(** The entry of a start task. *)
Definition beginStart (name : string) (m : ChannelManager) : ChannelManager :=
  mkManager (mg_channels m) (mg_order m) (mg_owners m) (mg_specs m) (mg_specOrder m) (mg_errs m)
    (<[name := mg_next m]> (mg_tasks m)) (mg_finished m) (mg_cancelled m) (S (mg_next m)).

(** [startChannel] up to the call of [Start]. *)
Definition clearError (name : string) (m : ChannelManager) : ChannelManager :=
  mkManager (mg_channels m) (mg_order m) (mg_owners m) (mg_specs m) (mg_specOrder m) (delete name (mg_errs m))
    (mg_tasks m) (mg_finished m) (mg_cancelled m) (mg_next m).

(** [startChannel] after it: [result] is the error of [Start] as [StartErrorMessage]
    puts it, [cancelled] whether the context had ended; the task is done. *)
Definition startReturned (name : string) (task : nat) (result : option string) (cancelled : bool) (m : ChannelManager) : ChannelManager :=
  let m := match result with
           | None => m
           | Some message => if cancelled then m else SetChannelError name (if String.eqb message "" then genericStartError else message) m
           end in
  mkManager (mg_channels m) (mg_order m) (mg_owners m) (mg_specs m) (mg_specOrder m) (mg_errs m) (mg_tasks m) ({[task]} ∪ mg_finished m) (mg_cancelled m) (mg_next m).

(** [stopChannelRuntime]: whether the channel exists, whether [ctx] ended, and the state;
    the task that is cancelled is waited for. *)
Definition stopChannelRuntime (name : string) (ctxEnded : bool) (m : ChannelManager) : ChannelManager * bool * bool :=
  let without := mkManager (mg_channels m) (mg_order m) (mg_owners m) (mg_specs m) (mg_specOrder m) (mg_errs m) (delete name (mg_tasks m))
                   (mg_finished m) (mg_cancelled m) (mg_next m) in
  match mg_channels m !! name with
  | None => (without, false, false)
  | Some _ =>
      if ctxEnded then (without, true, true) else
      match mg_tasks m !! name with
      | Some task =>
          if decide (task ∈ mg_finished m) then (without, true, false)
          else (mkManager (mg_channels m) (mg_order m) (mg_owners m) (mg_specs m) (mg_specOrder m) (mg_errs m) (delete name (mg_tasks m))
                  ({[task]} ∪ mg_finished m) ({[task]} ∪ mg_cancelled m) (mg_next m), true, false)
      | None => (without, true, false)
      end
  end.

(** ** Status *)

Inductive ChannelState := ChannelStateFailed | ChannelStateRunning | ChannelStateStarting | ChannelStateStopped.
Record ChannelStatus := mkStatus { cs_Running : bool; cs_State : ChannelState; cs_Owner : string; cs_InstanceID : string; cs_Error : string }.

(** The names with a spec, then the channels without one. *)
Definition StatusOrder (m : ChannelManager) : list string :=
  let withSpec := List.filter (λ n, bool_decide (is_Some (mg_specs m !! n))) (mg_specOrder m) in
  withSpec ++ List.filter (λ n, negb (bool_decide (n ∈ withSpec))) (mg_order m).

Definition specFor (m : ChannelManager) (name : string) : channelSpec :=
  match mg_specs m !! name with Some spec => spec | None => mkSpec (default name (mg_owners m !! name)) "default" end.

(** [isRunning] is what the channels answer. *)
Definition statusOf (isRunning : Channel → bool) (m : ChannelManager) (name : string) : ChannelStatus :=
  let errMsg := default "" (mg_errs m !! name) in
  let running := match mg_channels m !! name with Some ch => isRunning ch | None => false end in
  let starting := match mg_tasks m !! name with Some t => negb (bool_decide (t ∈ mg_finished m)) | None => false end in
  let state := if negb (String.eqb errMsg "") then ChannelStateFailed else if running then ChannelStateRunning
               else if starting then ChannelStateStarting else ChannelStateStopped in
  mkStatus running state (owner (specFor m name)) (instanceID (specFor m name)) errMsg.

Definition GetStatus (isRunning : Channel → bool) (m : ChannelManager) : gmap string ChannelStatus :=
  foldl (λ st name, <[name := statusOf isRunning m name]> st) ∅ (StatusOrder m).

(** ** The orders list what is registered *)

Inductive op :=
  | OAddChannel (name : string) (ch : Channel) | OSetSpec (name own inst : string) | ORemove (name : string) | OError (name message : string)
  | OBegin (name : string) | OClearError (name : string) | OReturned (name : string) (task : nat) (result : option string) (cancelled : bool)
  | OStop (name : string) (ctxEnded : bool).

Definition apply_op (o : op) (m : ChannelManager) : ChannelManager :=
  match o with
  | OAddChannel name ch => AddChannel name ch m
  | OSetSpec name own inst => SetChannelRuntimeSpec name own inst m
  | ORemove name => RemoveChannel name m
  | OError name message => SetChannelError name message m
  | OBegin name => beginStart name m
  | OClearError name => clearError name m
  | OReturned name task result cancelled => startReturned name task result cancelled m
  | OStop name ctxEnded => (stopChannelRuntime name ctxEnded m).1.1
  end.

(** The order is a list of the keys without repetition. *)
Definition lists {V} (order : list string) (m : gmap string V) : Prop := NoDup order ∧ ∀ n, n ∈ order ↔ is_Some (m !! n).

Lemma removeName_elem name l n : NoDup l → n ∈ removeName name l ↔ n ∈ l ∧ n ≠ name.
Proof.
  induction 1 as [|x l Hx _ IH]; cbn [removeName]; [rewrite elem_of_nil; naive_solver|]. destruct (String.eqb_spec x name) as [->|Hne]; rewrite !elem_of_cons.
  - split; [|naive_solver]. intros Hn. split; [by right|]. by intros ->.
  - rewrite IH. naive_solver.
Qed.

Lemma removeName_NoDup name l : NoDup l → NoDup (removeName name l).
Proof.
  induction 1 as [|x l Hx Hl IH]; cbn [removeName]; [constructor|]. destruct (String.eqb_spec x name); [done|]. constructor; [|done].
  rewrite removeName_elem by done. naive_solver.
Qed.

Lemma lists_insert {V} order (m : gmap string V) name v : lists order m →
  lists (match m !! name with Some _ => order | None => order ++ [name] end) (<[name := v]> m).
Proof.
  intros [Hn Hl]. destruct (m !! name) eqn:E; split; try done.
  - intros n. rewrite Hl. destruct (decide (n = name)) as [->|]; [rewrite lookup_insert_eq, E; naive_solver|by rewrite lookup_insert_ne].
  - apply NoDup_app. split_and!; [done| |by apply NoDup_singleton]. intros n Hin ->%list_elem_of_singleton. apply Hl in Hin. rewrite E in Hin. by destruct Hin.
  - intros n. rewrite elem_of_app, list_elem_of_singleton, Hl. destruct (decide (n = name)) as [->|]; [rewrite lookup_insert_eq; naive_solver|rewrite lookup_insert_ne by done; naive_solver].
Qed.

Lemma lists_delete {V} order (m : gmap string V) name : lists order m → lists (removeName name order) (delete name m).
Proof.
  intros [Hn Hl]. split; [by apply removeName_NoDup|]. intros n. rewrite removeName_elem, Hl by done. destruct (decide (n = name)) as [->|].
  - rewrite lookup_delete_eq. split; [naive_solver|by intros [? ?]].
  - rewrite lookup_delete_ne by done. naive_solver.
Qed.

Record Consistent (m : ChannelManager) : Prop := { cn_order : lists (mg_order m) (mg_channels m); cn_specs : lists (mg_specOrder m) (mg_specs m) }.

Lemma Consistent_op o m : Consistent m → Consistent (apply_op o m).
Proof.
  intros [H1 H2]. destruct o as [name ch|name own inst|name|name message|name|name|name task result cancelled|name ctxEnded]; cbn [apply_op]; try (by split).
  - split; [by apply lists_insert|done].
  - split; [done|by apply lists_insert].
  - unfold RemoveChannel. destruct (mg_channels m !! name); [|by split]. split; cbn; [by apply lists_delete|].
    destruct (mg_specs m !! name) eqn:E; [by apply lists_delete|]. by rewrite delete_id.
  - unfold startReturned. destruct result as [message|]; [destruct cancelled|]; by split.
  - unfold stopChannelRuntime. repeat case_match; by split.
Qed.

(** What is reported does not depend on the order of its insertion. *)
Lemma foldl_insert_lookup {V} (f : string → V) l (m : gmap string V) n :
  foldl (λ st name, <[name := f name]> st) m l !! n = if decide (n ∈ l) then Some (f n) else m !! n.
Proof.
  revert m. induction l as [|x l IH]; intros m; cbn [foldl]; [by rewrite decide_False by apply not_elem_of_nil|]. rewrite IH.
  destruct (decide (n ∈ l)); [by rewrite decide_True by (by right)|]. destruct (decide (n = x)) as [->|Hne].
  - rewrite lookup_insert_eq, decide_True by left. done.
  - rewrite lookup_insert_ne by done. rewrite decide_False; [done|]. rewrite elem_of_cons. naive_solver.
Qed.

Lemma StatusOrder_spec m : Consistent m → NoDup (StatusOrder m) ∧ ∀ n, n ∈ StatusOrder m ↔ is_Some (mg_specs m !! n) ∨ is_Some (mg_channels m !! n).
Proof.
  intros [[Ho1 Ho2] [Hs1 Hs2]]. unfold StatusOrder. set (withSpec := List.filter _ (mg_specOrder m)).
  assert (∀ n, n ∈ withSpec ↔ is_Some (mg_specs m !! n)) as Hw.
  { intros n. subst withSpec. rewrite list_elem_of_In, filter_In, <- list_elem_of_In, bool_decide_eq_true, Hs2. naive_solver. }
  split.
  - apply NoDup_app. split_and!.
    + subst withSpec. pose proof (NoDup_map_filter (λ x : string, x) (λ n, bool_decide (is_Some (mg_specs m !! n))) (mg_specOrder m)) as H. rewrite !map_id in H. by apply H.
    + intros n Hn Hin. apply list_elem_of_In, filter_In in Hin as [_ Hin]. by rewrite bool_decide_eq_true_2 in Hin.
    + pose proof (NoDup_map_filter (λ x : string, x) (λ n, negb (bool_decide (n ∈ withSpec))) (mg_order m)) as H. rewrite !map_id in H. by apply H.
  - intros n. rewrite elem_of_app, Hw, list_elem_of_In, filter_In, <- list_elem_of_In, negb_true_iff, bool_decide_eq_false, Ho2, Hw.
    destruct (decide (is_Some (mg_specs m !! n))); naive_solver.
Qed.

(** The status is complete: after any operations on the manager the status has
    exactly one entry for every channel and for every runtime that only has a spec, each
    name once in the reported order, with the state the manager has for it. *)
Theorem status_complete isRunning ops :
  let m := foldl (λ m o, apply_op o m) NewManager ops in
  NoDup (EnabledChannels m) ∧ NoDup (StatusOrder m) ∧
  ∀ n, GetStatus isRunning m !! n =
       (if decide (is_Some (mg_specs m !! n) ∨ is_Some (mg_channels m !! n)) then Some (statusOf isRunning m n) else None).
Proof.
  cbn zeta. set (m := foldl _ _ ops). assert (Consistent m) as HC.
  { subst m. assert (Consistent NewManager) as Hnew by (split; split; [constructor| |constructor|]; intros n; cbn; rewrite elem_of_nil, lookup_empty; split; [done|by intros [? ?]|done|by intros [? ?]]).
    revert Hnew. generalize NewManager. induction ops as [|o ops IH]; intros m0 H0; [done|]. by apply IH, Consistent_op. }
  destruct (StatusOrder_spec m HC) as [Hn Hs]. split_and!; [apply HC|done|]. intros n. unfold GetStatus. rewrite foldl_insert_lookup, lookup_empty.
  destruct (decide (n ∈ StatusOrder m)) as [Hin|Hin]; rewrite Hs in Hin; [by rewrite decide_True|by rewrite decide_False].
Qed.

(** A runtime that has a spec but no channel cannot be removed. *)
Example spec_stays : mg_specs (RemoveChannel "t" (SetChannelRuntimeSpec "t" "telegram" "default" NewManager)) !! "t" = Some (mkSpec "telegram" "default").
Proof. by vm_compute. Qed.
