(* ===== verification/NetPolicy.v ===== *)
(** * Where outbound requests may go (src/internal/netpolicy/netpolicy.go)

    A host is resolved, and every address it resolves to is checked, before a request and
    again when its connection is dialled.  Addresses are bytes as in package net, with
    its classification of them; name resolution, the parsers of URLs and addresses and
    the network itself are parameters, and a name may resolve differently each time. *)

From S2P Require Import Prelude GoText GoLib.
#[local] Open Scope string_scope.
#[local] Open Scope list_scope.
#[local] Open Scope Z_scope.

(** ** Addresses (package net) *)

(** Four or sixteen bytes; [nil] is an absent address. *)
Abbreviation IP := (list Z).

Definition v4InV6Prefix : list Z := [0; 0; 0; 0; 0; 0; 0; 0; 0; 0; 0xff; 0xff].
Definition To4 (ip : IP) : option IP :=
  if Nat.eqb (length ip) 4 then Some ip
  else if Nat.eqb (length ip) 16 && bool_decide (take 12 ip = v4InV6Prefix) then Some (drop 12 ip) else None.
Definition byteAt (ip : IP) (i : nat) : Z := default 0 (ip !! i).

Definition IPEqual (a b : IP) : bool :=
  if Nat.eqb (length a) (length b) then bool_decide (a = b)
  else if Nat.eqb (length a) 4 && Nat.eqb (length b) 16 then bool_decide (take 12 b = v4InV6Prefix ∧ a = drop 12 b)
  else if Nat.eqb (length a) 16 && Nat.eqb (length b) 4 then bool_decide (take 12 a = v4InV6Prefix ∧ drop 12 a = b)
  else false.

Definition IPv4zero : IP := v4InV6Prefix ++ [0; 0; 0; 0].
Definition IPv6unspecified : IP := replicate 16 0.
Definition IPv6loopback : IP := replicate 15 0 ++ [1].

Definition IsUnspecified (ip : IP) : bool := IPEqual ip IPv4zero || IPEqual ip IPv6unspecified.
Definition IsLoopback (ip : IP) : bool := match To4 ip with Some ip4 => byteAt ip4 0 =? 127 | None => IPEqual ip IPv6loopback end.
Definition IsPrivate (ip : IP) : bool :=
  match To4 ip with
  | Some ip4 => (byteAt ip4 0 =? 10) || ((byteAt ip4 0 =? 172) && (Z.land (byteAt ip4 1) 0xf0 =? 16)) || ((byteAt ip4 0 =? 192) && (byteAt ip4 1 =? 168))
  | None => Nat.eqb (length ip) 16 && (Z.land (byteAt ip 0) 0xfe =? 0xfc)
  end.
Definition IsLinkLocalUnicast (ip : IP) : bool :=
  match To4 ip with
  | Some ip4 => (byteAt ip4 0 =? 169) && (byteAt ip4 1 =? 254)
  | None => Nat.eqb (length ip) 16 && (byteAt ip 0 =? 0xfe) && (Z.land (byteAt ip 1) 0xc0 =? 0x80)
  end.
Definition IsMulticast (ip : IP) : bool :=
  match To4 ip with
  | Some ip4 => Z.land (byteAt ip4 0) 0xf0 =? 0xe0
  | None => Nat.eqb (length ip) 16 && (byteAt ip 0 =? 0xff)
  end.
Definition IsLinkLocalMulticast (ip : IP) : bool :=
  match To4 ip with
  | Some ip4 => (byteAt ip4 0 =? 224) && (byteAt ip4 1 =? 0) && (byteAt ip4 2 =? 0)
  | None => Nat.eqb (length ip) 16 && (byteAt ip 0 =? 0xff) && (Z.land (byteAt ip 1) 0x0f =? 0x02)
  end.

Definition blockedIP (ip : IP) : bool :=
  match ip with
  | [] => true
  | _ => IsUnspecified ip || IsLoopback ip || IsPrivate ip || IsLinkLocalUnicast ip || IsLinkLocalMulticast ip || IsMulticast ip
  end.

(** ** The parsers and the resolver *)

Record URL := mkURL { u_Scheme : string; u_Hostname : string; u_User : bool }.

(** A CIDR block is the test whether it contains an address. *)
Class NetEnv := {
  url_Parse : string → option URL;
  ParseIP : string → option IP;
  ParseCIDR : string → option (IP → bool);
  SplitHostPort : string → option (string * string);
  EqualFold : string → string → bool }.

(** [strings.Trim(s, "[]")]. *)
Definition isBracket (c : Ascii.ascii) : bool := (byteZ c =? 91) || (byteZ c =? 93).
Fixpoint dropBrackets (l : list Ascii.ascii) : list Ascii.ascii :=
  match l with c :: l' => if isBracket c then dropBrackets l' else l | [] => [] end.
Definition TrimBrackets (s : string) : string :=
  String.string_of_list_ascii (rev (dropBrackets (rev (dropBrackets (String.list_ascii_of_string s))))).

Section Policy.
Context `{!NetEnv}.

Inductive NetErr :=
  | ErrInvalidURL | ErrScheme | ErrNoHost | ErrUserinfo | ErrResolve | ErrNoAddresses | ErrBlocked (ip : IP) | ErrDialAddress | ErrDial | ErrTooManyRedirects.

(** The answer of the resolver: an error, or addresses of which some may be nil. *)
Abbreviation answer := (option (list IP)).

Definition nonNil (ip : IP) : bool := match ip with [] => false | _ => true end.

Definition resolveHost (lookup : answer) (host : string) : NetErr + list IP :=
  match ParseIP (TrimBrackets host) with
  | Some ip => inr [ip]
  | None => match lookup with None => inl ErrResolve | Some addrs => inr (List.filter nonNil addrs) end
  end.

(** What an allowlist entry stands for. *)
Definition allowEntry (raw : string) : string :=
  let entry := TrimSpace raw in
  let entry := match url_Parse entry with Some u => if String.eqb (u_Hostname u) "" then entry else u_Hostname u | None => entry end in
  let entry := match SplitHostPort entry with Some (h, _) => h | None => entry end in
  TrimBrackets entry.

Definition entryAllows (host : string) (ip : IP) (raw : string) : bool :=
  if String.eqb (TrimSpace raw) "" then false else
  let entry := allowEntry raw in
  EqualFold entry host
  || match ParseIP entry with Some allowIP => IPEqual allowIP ip | None => false end
  || match ParseCIDR entry with Some contains => contains ip | None => false end.

Definition allowedHostIP (host : string) (ip : IP) (allowlist : list string) : bool :=
  existsb (entryAllows (TrimBrackets (TrimSpace host)) ip) allowlist.

(** The first address that is neither allowed nor public. *)
Definition refused (host : string) (allowlist : list string) (ips : list IP) : option IP :=
  snd <$> list_find (λ ip, negb (allowedHostIP host ip allowlist) && blockedIP ip = true) ips.

Definition validateHost (lookup : answer) (host : string) (allowlist : list string) : NetErr + unit :=
  match resolveHost lookup host with
  | inl e => inl e
  | inr [] => inl ErrNoAddresses
  | inr ips => match refused host allowlist ips with Some ip => inl (ErrBlocked ip) | None => inr () end
  end.

Record Policy := mkNetPolicy { Allowlist : list string; MaxResponse : Z }.

Definition DefaultMaxResponseBytes : Z := Z.shiftl 4 20.
Definition maxResponseBytes (p : Policy) : Z := if MaxResponse p <=? 0 then DefaultMaxResponseBytes else MaxResponse p.

Definition ValidateURL (lookup : answer) (raw : string) (p : Policy) : NetErr + URL :=
  match url_Parse (TrimSpace raw) with
  | None => inl ErrInvalidURL
  | Some u =>
      if negb (String.eqb (u_Scheme u) "http") && negb (String.eqb (u_Scheme u) "https") then inl ErrScheme
      else if String.eqb (u_Hostname u) "" then inl ErrNoHost
      else if u_User u then inl ErrUserinfo
      else match validateHost lookup (u_Hostname u) (Allowlist p) with inl e => inl e | inr _ => inr u end
  end.

(** ** The dialer *)

(** What the network does: whether a connection to the [i]-th address is made, and
    whether the context has ended after it failed. *)
Record dialing := mkDialing { connects : nat → bool; ctxEnded : nat → bool }.

(** The addresses tried, in order, and whether the last one connected. *)
Fixpoint dial_loop (d : dialing) (i : nat) (ips tried : list IP) : list IP * bool :=
  match ips with
  | [] => (tried, false)
  | ip :: ips =>
      if connects d i then (tried ++ [ip], true)
      else if ctxEnded d i then (tried ++ [ip], false) else dial_loop d (S i) ips (tried ++ [ip])
  end.

(** [base.DialContext] *)
Definition DialContext (p : Policy) (lookup : answer) (d : dialing) (address : string) : list IP * (NetErr + unit) :=
  match SplitHostPort address with
  | None => ([], inl ErrDialAddress)
  | Some (host, _) =>
      match resolveHost lookup host with
      | inl e => ([], inl e)
      | inr ips =>
          match refused host (Allowlist p) ips with
          | Some ip => ([], inl (ErrBlocked ip))
          | None =>
              match ips with
              | [] => ([], inl ErrNoAddresses)
              | _ => let '(tried, ok) := dial_loop d 0 ips [] in (tried, if ok then inr () else inl ErrDial)
              end
          end
      end
  end.

(** [client.CheckRedirect] with [via] earlier requests. *)
Definition CheckRedirect (p : Policy) (lookup : answer) (via : nat) (url : string) : NetErr + unit :=
  if (5 <=? via)%nat then inl ErrTooManyRedirects else
  match ValidateURL lookup url p with inl e => inl e | inr _ => inr () end.

(** ** A request with its redirects *)

(** One request as [http.Client] makes it: the address dialled, what the resolver and
    the network answer, and, if the response redirects, the next URL with the answer of
    the resolver to its check. *)
Record hop := mkHop { h_address : string; h_lookup : answer; h_dialing : dialing; h_redirect : option (string * answer) }.

(** The addresses tried over all hops, the number of requests, and the outcome; the list
    of hops is as long as the servers go on redirecting. *)
Fixpoint fetch (p : Policy) (via : nat) (hops : list hop) : list (string * IP) * nat * (NetErr + unit) :=
  match hops with
  | [] => ([], O, inr ())
  | h :: hops =>
      let host := match SplitHostPort (h_address h) with Some (host, _) => host | None => "" end in
      let '(tried, r) := DialContext p (h_lookup h) (h_dialing h) (h_address h) in
      let tried := map (pair host) tried in
      match r with
      | inl e => (tried, 1%nat, inl e)
      | inr _ =>
          match h_redirect h with
          | None => (tried, 1%nat, inr ())
          | Some (url, lookup) =>
              match CheckRedirect p lookup (S via) url with
              | inl e => (tried, 1%nat, inl e)
              | inr _ => let '(more, n, r) := fetch p (S via) hops in (tried ++ more, S n, r)
              end
          end
      end
  end.
End Policy.

(** ** The blocked addresses as ranges *)

Definition is_byte (z : Z) : Prop := 0 ≤ z < 256.
Definition value (ip : IP) : Z := foldl (λ acc b, 256 * acc + b) 0 ip.
Definition between (lo hi v : Z) : bool := (lo <=? v) && (v <=? hi).

(** The first address and the last one of a block of IPv4, by its bytes. *)
Definition ip4 (a b c d : Z) : Z := value [a; b; c; d].
Definition v4Ranges : list (Z * Z) :=
  [(ip4 0 0 0 0, ip4 0 0 0 0); (ip4 10 0 0 0, ip4 10 255 255 255); (ip4 127 0 0 0, ip4 127 255 255 255); (ip4 169 254 0 0, ip4 169 254 255 255);
   (ip4 172 16 0 0, ip4 172 31 255 255); (ip4 192 168 0 0, ip4 192 168 255 255); (ip4 224 0 0 0, ip4 239 255 255 255)].

(** [::], [::1], [fc00::/7], [fe80::/10] and [ff00::/8]. *)
Definition v6Ranges : list (Z * Z) :=
  [(0, 0); (1, 1); (0xfc00 * 2 ^ 112, 0xfe00 * 2 ^ 112 - 1); (0xfe80 * 2 ^ 112, 0xfec0 * 2 ^ 112 - 1); (0xff00 * 2 ^ 112, 2 ^ 128 - 1)].

Definition inRanges (rs : list (Z * Z)) (v : Z) : bool := existsb (λ r, between r.1 r.2 v) rs.

Lemma value_from acc l : foldl (λ acc b, 256 * acc + b) acc l = acc * 256 ^ Z.of_nat (length l) + value l.
Proof.
  unfold value. revert acc. induction l as [|b l IH]; intros acc; [cbn; lia|]. cbn [foldl length]. rewrite IH, (IH (256 * 0 + b)), Nat2Z.inj_succ, Z.pow_succ_r by lia. lia.
Qed.

Lemma value_app l k : value (l ++ k) = value l * 256 ^ Z.of_nat (length k) + value k.
Proof. unfold value at 1. rewrite foldl_app. fold (value l). apply value_from. Qed.

Lemma value_range l : Forall is_byte l → 0 ≤ value l < 256 ^ Z.of_nat (length l).
Proof.
  induction l as [|b l IH] using rev_ind; [done|]. intros [Hl Hb]%Forall_app. apply Forall_cons in Hb as [Hb _]. specialize (IH Hl). rewrite value_app, length_app, Nat2Z.inj_add, Z.pow_add_r by lia.
  unfold is_byte in Hb. change (value [b]) with (256 * 0 + b). change (256 ^ Z.of_nat (length [b])) with 256. lia.
Qed.

(** The masks on one byte. *)
Lemma byte_masks b : is_byte b →
  (Z.land b 0xf0 =? 16) = between 16 31 b ∧ (Z.land b 0xf0 =? 0xe0) = between 224 239 b ∧ (Z.land b 0xfe =? 0xfc) = between 252 253 b ∧ (Z.land b 0xc0 =? 0x80) = between 128 191 b.
Proof.
  intros Hb. assert (forallb (λ n, let b := Z.of_nat n in Bool.eqb (Z.land b 0xf0 =? 16) (between 16 31 b) && Bool.eqb (Z.land b 0xf0 =? 0xe0) (between 224 239 b)
    && Bool.eqb (Z.land b 0xfe =? 0xfc) (between 252 253 b) && Bool.eqb (Z.land b 0xc0 =? 0x80) (between 128 191 b)) (seq 0 256) = true) as H by (by vm_compute).
  rewrite forallb_forall in H. specialize (H (Z.to_nat b)). unfold is_byte in Hb. rewrite Z2Nat.id in H by lia.
  assert (In (Z.to_nat b) (seq 0 256)) as Hin by (apply in_seq; lia). specialize (H Hin). cbn zeta in H. rewrite !andb_true_iff, !Bool.eqb_true_iff in H. naive_solver.
Qed.

Ltac to_lia := unfold between in *; repeat match goal with
  | |- context [(?a <=? ?b)] => destruct (Z.leb_spec a b)
  | |- context [(?a =? ?b)] => destruct (Z.eqb_spec a b)
  end; cbn [andb orb]; try reflexivity; exfalso; lia.

(** The classes of four bytes. *)
Definition blocked4 (a b c d : Z) : bool :=
  ((a =? 0) && (b =? 0) && (c =? 0) && (d =? 0)) || (a =? 127) || (a =? 10) || ((a =? 172) && between 16 31 b) || ((a =? 192) && (b =? 168))
  || ((a =? 169) && (b =? 254)) || between 224 239 a.

Lemma blocked4_ranges a b c d : is_byte a → is_byte b → is_byte c → is_byte d → blocked4 a b c d = inRanges v4Ranges (value [a; b; c; d]).
Proof.
  unfold is_byte. intros Ha Hb Hc Hd. apply eq_true_iff_eq. unfold blocked4, inRanges, v4Ranges. cbn [existsb fst snd]. unfold between, ip4, value. cbn [foldl].
  rewrite !orb_true_iff, !andb_true_iff, !Z.eqb_eq, !Z.leb_le. lia.
Qed.

Lemma value_inj l k : Forall is_byte l → Forall is_byte k → length l = length k → value l = value k → l = k.
Proof.
  revert k. induction l as [|a l IH] using rev_ind; intros k Hl Hk Hlen Hv.
  - symmetry in Hlen. apply nil_length_inv in Hlen. done.
  - destruct k as [|b k _] using rev_ind; rewrite !length_app in Hlen; cbn in Hlen; [lia|]. apply Forall_app in Hl as [Hl Ha], Hk as [Hk Hb].
    apply Forall_cons in Ha as [Ha _], Hb as [Hb _]. rewrite !value_app in Hv. change (256 ^ Z.of_nat (length [a])) with 256 in Hv.
    change (256 ^ Z.of_nat (length [b])) with 256 in Hv. change (value [a]) with (256 * 0 + a) in Hv. change (value [b]) with (256 * 0 + b) in Hv. unfold is_byte in *.
    assert (value l = value k ∧ a = b) as [E ->] by lia. f_equal. apply IH; [done..|lia|done].
Qed.

Lemma bool_decide_bytes (a b c d a' b' c' d' : Z) :
  bool_decide ([a; b; c; d] = [a'; b'; c'; d']) = (a =? a') && (b =? b') && (c =? c') && (d =? d').
Proof.
  apply eq_true_iff_eq. rewrite bool_decide_eq_true, !andb_true_iff, !Z.eqb_eq. split; [by intros [= -> -> -> ->]|by intros [[[-> ->] ->] ->]].
Qed.

(** IPv4, plain or mapped into IPv6. *)
Lemma blocked_v4 ip a b c d : To4 ip = Some [a; b; c; d] → is_byte a → is_byte b → blockedIP ip = blocked4 a b c d.
Proof.
  intros HT Ha Hb. destruct (byte_masks a Ha) as (_ & Ma & _). destruct (byte_masks b Hb) as (Mb & _).
  assert (IsUnspecified ip = (a =? 0) && (b =? 0) && (c =? 0) && (d =? 0) ∧ ip ≠ []) as [Hu Hne].
  { unfold To4 in HT. destruct (Nat.eqb_spec (length ip) 4) as [|_]; [injection HT as ->|].
    - split; [|done]. unfold IsUnspecified, IPEqual. cbn [length Nat.eqb IPv4zero v4InV6Prefix IPv6unspecified replicate app andb].
      rewrite (bool_decide_eq_false_2 (take 12 (replicate 16 0) = v4InV6Prefix ∧ _)) by (intros [[=] _]). rewrite orb_false_r, <- bool_decide_bytes. apply bool_decide_ext. cbn. naive_solver.
    - destruct (Nat.eqb_spec (length ip) 16) as [Hlen|]; [|done]. destruct (bool_decide _) eqn:E; [|done]. cbn in HT. injection HT as HT. bool_hyps.
      assert (ip = v4InV6Prefix ++ [a; b; c; d]) as -> by (rewrite <- (take_drop 12 ip), E, HT; done). split; [|done].
      unfold IsUnspecified, IPEqual. cbn [length Nat.eqb IPv4zero v4InV6Prefix IPv6unspecified replicate app andb].
      rewrite (bool_decide_eq_false_2 (_ = [0; 0; 0; 0; 0; 0; 0; 0; 0; 0; 0; 0; 0; 0; 0; 0])) by (intros [=]). rewrite orb_false_r, <- bool_decide_bytes. apply bool_decide_ext. naive_solver. }
  unfold blockedIP, IsLoopback, IsPrivate, IsLinkLocalUnicast, IsLinkLocalMulticast, IsMulticast. destruct ip as [|x ip]; [done|]. rewrite Hu, HT.
  unfold byteAt. cbn [lookup list_lookup default from_option id]. rewrite Ma, Mb. unfold blocked4. generalize ((a =? 0) && (b =? 0) && (c =? 0) && (d =? 0)). intros u.
  unfold is_byte in *. destruct u; [done|]. cbn [orb]. apply eq_true_iff_eq. unfold between. rewrite !orb_true_iff, !andb_true_iff, !Z.eqb_eq, !Z.leb_le. lia.
Qed.

(** IPv6. *)
Lemma blocked_v6 ip : length ip = 16%nat → Forall is_byte ip → To4 ip = None → blockedIP ip = inRanges v6Ranges (value ip).
Proof.
  intros Hlen Hb HT. destruct ip as [|a [|b l]]; try done. assert (IPEqual (a :: b :: l) IPv4zero = false) as Hz.
  { unfold IPEqual. rewrite Hlen. cbn [IPv4zero v4InV6Prefix app length Nat.eqb]. apply bool_decide_eq_false. intros E. rewrite E in HT. done. }
  assert (∀ k, length k = 16%nat → Forall is_byte k → IPEqual (a :: b :: l) k = (value (a :: b :: l) =? value k)) as Heq.
  { intros k Hk Hbk. unfold IPEqual. rewrite Hlen, Hk. cbn [Nat.eqb]. apply eq_true_iff_eq. rewrite bool_decide_eq_true, Z.eqb_eq. split; [by intros ->|].
    apply value_inj; [done..|congruence]. }
  unfold blockedIP, IsUnspecified, IsLoopback, IsPrivate, IsLinkLocalUnicast, IsLinkLocalMulticast, IsMulticast. rewrite HT, Hz, Hlen. cbn [orb Nat.eqb andb].
  rewrite !Heq by (try done; unfold IPv6unspecified, IPv6loopback; cbn; repeat constructor; unfold is_byte; lia).
  change (value IPv6unspecified) with 0. change (value IPv6loopback) with 1. unfold byteAt. cbn [lookup list_lookup default from_option id].
  apply Forall_cons in Hb as [Ha [Hb Hl]%Forall_cons]. destruct (byte_masks a Ha) as (_ & _ & -> & _). destruct (byte_masks b Hb) as (_ & _ & _ & ->).
  change (a :: b :: l) with ([a; b] ++ l). rewrite value_app. injection Hlen as Hlen. rewrite Hlen. pose proof (value_range l Hl) as Hv. rewrite Hlen in Hv.
  change (value [a; b]) with (256 * (256 * 0 + a) + b). generalize dependent (value l). intros v Hv. generalize (Z.land b 0x0f =? 0x02). intros m.
  unfold is_byte in *. change (256 ^ Z.of_nat 14) with (2 ^ 112) in *. apply eq_true_iff_eq. unfold inRanges, v6Ranges, between. cbn [existsb fst snd].
  rewrite !orb_true_iff, !andb_true_iff, !Z.eqb_eq, !Z.leb_le. change (2 ^ 128) with (65536 * 2 ^ 112). assert (0 < 2 ^ 112) by done. generalize dependent (2 ^ 112). intros P HvP HP. nia.
Qed.

(** ** Results *)

Lemma To4_bytes ip q : Forall is_byte ip → To4 ip = Some q → ∃ a b c d, q = [a; b; c; d] ∧ is_byte a ∧ is_byte b ∧ is_byte c ∧ is_byte d.
Proof.
  intros Hb HT. assert (length q = 4%nat ∧ Forall is_byte q) as [Hl Hq].
  { unfold To4 in HT. destruct (Nat.eqb_spec (length ip) 4); [by simplify_eq|]. destruct (Nat.eqb_spec (length ip) 16); [|done]. cbn in HT.
    destruct (bool_decide _); simplify_eq. rewrite length_drop. split; [lia|]. by apply Forall_drop. }
  destruct q as [|a [|b [|c [|d []]]]]; try done. rewrite !Forall_cons in Hq. destruct Hq as (? & ? & ? & ? & _). by exists a, b, c, d.
Qed.

(** The blocked addresses are the ranges meant: an IPv4 address, also one mapped into
    IPv6, is blocked exactly if it lies in 0.0.0.0/32, 10/8, 127/8, 169.254/16,
    172.16/12, 192.168/16 or 224/4, any other IPv6 address exactly if it is :: or ::1 or
    lies in fc00::/7, fe80::/10 or ff00::/8. *)
Theorem blockedIP_ranges ip :
  Forall is_byte ip → length ip = 4%nat ∨ length ip = 16%nat →
  blockedIP ip = match To4 ip with Some q => inRanges v4Ranges (value q) | None => inRanges v6Ranges (value ip) end.
Proof.
  intros Hb Hlen. destruct (To4 ip) as [q|] eqn:HT.
  - destruct (To4_bytes ip q Hb HT) as (a & b & c & d & -> & Ha & Hb' & Hc & Hd). rewrite (blocked_v4 ip a b c d) by done. by apply blocked4_ranges.
  - destruct Hlen as [Hlen|Hlen]; [unfold To4 in HT; by rewrite Hlen in HT|]. by apply blocked_v6.
Qed.

Section Safe.
Context `{!NetEnv}.

(** The destination is allowed by the configuration or public. *)
Definition permitted (p : Policy) (host : string) (ip : IP) : Prop := allowedHostIP host ip (Allowlist p) = true ∨ blockedIP ip = false.

Lemma refused_none host allowlist ips : refused host allowlist ips = None → Forall (λ ip, allowedHostIP host ip allowlist = true ∨ blockedIP ip = false) ips.
Proof.
  unfold refused. destruct (list_find _ ips) eqn:E; [done|]. intros _. apply list_find_None in E. eapply Forall_impl; [exact E|]. cbn. intros ip Hn.
  destruct (allowedHostIP host ip allowlist); [by left|]. right. by destruct (blockedIP ip).
Qed.

Lemma dial_loop_tried d i ips tried ip : ip ∈ (dial_loop d i ips tried).1 → ip ∈ tried ∨ ip ∈ ips.
Proof.
  revert i tried. induction ips as [|x ips IH]; intros i tried; cbn [dial_loop]; [by left|].
  destruct (connects d i); [|destruct (ctxEnded d i)]; cbn [fst]; rewrite ?elem_of_app, ?list_elem_of_singleton, ?elem_of_cons; [naive_solver..|].
  intros Hin. apply IH in Hin. rewrite elem_of_app, list_elem_of_singleton in Hin. naive_solver.
Qed.

Lemma dial_permitted p lookup d address ip : ip ∈ (DialContext p lookup d address).1 →
  ∃ host port, SplitHostPort address = Some (host, port) ∧ permitted p host ip.
Proof.
  unfold DialContext. destruct (SplitHostPort address) as [[host port]|] eqn:Es; [|by intros ?%elem_of_nil]. destruct (resolveHost lookup host) as [e|ips]; [by intros ?%elem_of_nil|].
  destruct (refused host (Allowlist p) ips) eqn:Er; [by intros ?%elem_of_nil|]. destruct ips as [|x ips]; [by intros ?%elem_of_nil|].
  destruct (dial_loop d 0 (x :: ips) []) as [tried ok] eqn:Ed. cbn [fst]. intros Hin. exists host, port. split; [done|].
  apply refused_none in Er. rewrite Forall_forall in Er. apply Er. pose proof (dial_loop_tried d 0 (x :: ips) [] ip) as Ht. rewrite Ed in Ht. destruct (Ht Hin) as [Hnil%elem_of_nil|]; done.
Qed.

(** C15. No request leaves for a forbidden place: whatever URLs the servers redirect to
    and however names resolve, each time anew, every address a connection is tried to is
    one the allowlist names for its host or is not blocked, and at most five requests are
    made. *)
Theorem fetch_permitted p hops :
  let '(tried, n, _) := fetch p 0 hops in
  (n ≤ 5)%nat ∧ ∀ host ip, (host, ip) ∈ tried → permitted p host ip.
Proof.
  assert (∀ via, (via ≤ 4)%nat → let '(tried, n, _) := fetch p via hops in (n + via ≤ 5)%nat ∧ ∀ host ip, (host, ip) ∈ tried → permitted p host ip) as Hfetch.
  { induction hops as [|h hops IH]; intros via Hvia; cbn [fetch]; [split; [lia|by intros ? ? ?%elem_of_nil]|].
    pose proof (dial_permitted p (h_lookup h) (h_dialing h) (h_address h)) as Hd. destruct (DialContext _ _ _ _) as [tried r]. cbn [fst] in Hd.
    set (host0 := match SplitHostPort _ with Some (host, _) => host | None => "" end).
    assert (∀ host ip, (host, ip) ∈ map (pair host0) tried → permitted p host ip) as Ht.
    { intros host ip (ip' & [= -> ->] & Hin)%list_elem_of_fmap. destruct (Hd _ Hin) as (host & port & E & Hp). subst host0. by rewrite E. }
    destruct r as [e|[]]; [by split; [lia|]|]. destruct (h_redirect h) as [[url lookup]|]; [|by split; [lia|]].
    unfold CheckRedirect. destruct (Nat.leb_spec 5 (S via)); [by split; [lia|]|]. destruct (ValidateURL lookup url p); [by split; [lia|]|].
    specialize (IH (S via) ltac:(lia)). destruct (fetch p (S via) hops) as [[more n] r]. destruct IH as [Hn Hm]. split; [lia|]. intros host ip [Hin|Hin]%elem_of_app; auto. }
  specialize (Hfetch 0%nat ltac:(lia)). destruct (fetch p 0 hops) as [[tried n] r]. destruct Hfetch as [Hn Hp]. split; [lia|done].
Qed.

(** A URL that validates is plain http(s) to a host all of whose addresses are permitted
    at that moment. *)
Lemma ValidateURL_checked lookup raw p u : ValidateURL lookup raw p = inr u →
  (u_Scheme u = "http" ∨ u_Scheme u = "https") ∧ u_Hostname u ≠ "" ∧ u_User u = false ∧
  ∃ ips, resolveHost lookup (u_Hostname u) = inr ips ∧ ips ≠ [] ∧ Forall (permitted p (u_Hostname u)) ips.
Proof.
  unfold ValidateURL, validateHost. destruct (url_Parse _) as [v|]; [|done]. destruct (String.eqb_spec (u_Scheme v) "http"), (String.eqb_spec (u_Scheme v) "https"); cbn [negb andb]; try done;
  (destruct (String.eqb_spec (u_Hostname v) ""); [done|]; destruct (u_User v) eqn:Eu; [done|]; destruct (resolveHost _ _) as [|[|x ips]] eqn:Er; [done..|];
   destruct (refused _ _ _) eqn:Ef; [done|]; intros [= <-]; split_and!; [by auto|done|done|]; exists (x :: ips); split_and!; [done|done|by apply refused_none]).
Qed.
End Safe.

(** ** Concrete addresses *)

Lemma blockedIP_ranges_witness :
  blockedIP (v4InV6Prefix ++ [172; 31; 9; 9]) = true ∧ blockedIP [172; 32; 0; 1] = inRanges v4Ranges (value [172; 32; 0; 1]) ∧ inRanges v4Ranges (value [172; 32; 0; 1]) = false.
Proof.
  split; [by vm_compute|]. split; [|by vm_compute]. rewrite (blockedIP_ranges [172; 32; 0; 1]); [done| |by left]. repeat constructor; unfold is_byte; lia.
Defined.

(** The addresses the tests of the program name. *)
Example blocked_classification :
  map blockedIP [[127; 0; 0; 1]; [10; 0; 0; 1]; [192; 168; 1; 1]; [169; 254; 1; 1]; IPv6loopback; [8; 8; 8; 8]; [1; 1; 1; 1]] = [true; true; true; true; true; false; false].
Proof. by vm_compute. Qed.
