(* ===== verification/SessionCodec.v ===== *)
(** * Message records (src/internal/core/message.go, types.go, src/internal/session/session.go)

    A message of a transcript is kept on disk as one line of JSON in Python's syntax:
    [MarshalJSON] gives the members in Python's order, [encodeMessage] writes them again
    with Python's separators and turns tool calls into the shape of the OpenAI API;
    [UnmarshalJSON] and [convertToolCalls] read a record back, keeping the members they
    do not know.

    Of encoding/json the parts that are used are written out: the compact form of a raw
    message, structs, maps in the order of their keys, and decoding into strings, maps
    and slices.  A [map[string]any] keeps the text of each value as [json.Marshal] writes
    it, so that equal values have equal texts.  A record in which thinking_blocks is
    given more than once is read as if only the last one were there. *)

From Stdlib Require Import Ascii.
From S2P Require Import Prelude GoText GoLib PyFloat GoFmt Core GoJson PyJson Governance Response Provider SessionText Session.
#[local] Open Scope string_scope.
#[local] Open Scope list_scope.
#[local] Open Scope Z_scope.

#[export] Instance ContentBlock_eq_dec : EqDecision ContentBlock.
Proof. solve_decision. Defined.
#[export] Instance Content_eq_dec : EqDecision Content.
Proof. solve_decision. Defined.
#[export] Instance ToolCall_eq_dec : EqDecision ToolCall.
Proof. solve_decision. Defined.
#[export] Instance Message_eq_dec : EqDecision Message.
Proof. solve_decision. Defined.

(** ** encoding/json: writing *)

Definition uEscape (r : Z) : string := String backslash (String "u" (hex 4 r)).

(** [appendCompact] of a valid text: no white space outside of string literals, and
    the characters that matter in HTML escaped. *)
Fixpoint compactText (quoted escaped : bool) (s : string) : string :=
  match s with
  | "" => ""
  | String c t =>
      let b := byteZ c in
      if negb quoted && is_json_space c then compactText quoted escaped t else
      let quoted' := if b =? 34 then negb quoted || escaped else quoted in
      let escaped' := quoted && negb escaped && (b =? 92) in
      if (b =? 60) || (b =? 62) || (b =? 38) then uEscape b +:+ compactText quoted' escaped' t else
      match t with
      | String d (String e u) =>
          if (b =? 0xE2) && (byteZ d =? 0x80) && ((byteZ e =? 0xA8) || (byteZ e =? 0xA9))
          then uEscape (0x2020 + byteZ e mod 16) +:+ compactText quoted' escaped' u
          else String c (compactText quoted' escaped' t)
      | _ => String c (compactText quoted' escaped' t)
      end
  end.

(** A [json.RawMessage]; a nil one is written as null. *)
Definition marshalRaw (raw : RawJSON) : option string :=
  if String.eqb raw "" then Some "null" else if json_Valid raw then Some (compactText false false raw) else None.

(** An object of members that are JSON texts. *)
Definition writeFields (fields : list (string * RawJSON)) : string :=
  "{" +:+ Join (map (λ '(key, raw), goString key +:+ ":" +:+ raw) fields) "," +:+ "}".
Definition writeItems (items : list RawJSON) : string := "[" +:+ Join items "," +:+ "]".

(** A member that is left out when it is empty. *)
Definition omitEmpty (key : string) (empty : bool) (raw : RawJSON) : list (string * RawJSON) := if empty then [] else [(key, raw)].

(** *** Content *)

Definition marshalBlock (b : ContentBlock) : option string :=
  let fields := match cb_Raw b with
    | None => ("type", goString (cb_Type b)) :: omitEmpty "text" (String.eqb (cb_Text b) "") (goString (cb_Text b))
              ++ omitEmpty "image_url" (String.eqb (cb_ImageURL b) "") (cb_ImageURL b)
    | Some _ => sortFields (blockMembers b)
    end in
  writeFields <$> mapM (λ kv, raw ← marshalRaw kv.2; Some (kv.1, raw)) fields.

Definition marshalContent (c : Content) : option string :=
  if c_isText c then Some (goString (c_Text c)) else
  match c_Blocks c with None => Some "null" | Some blocks => writeItems <$> mapM marshalBlock blocks end.

(** *** Tool calls *)

Definition emptyMap {A} (m : option (gmap string A)) : bool := match m with Some m => bool_decide (m = ∅) | None => true end.
Definition marshalMap (m : option (gmap string RawJSON)) : string := match m with None => "null" | Some m => writeFields (sortFields m) end.

Definition marshalCall (t : ToolCall) : option string :=
  args ← marshalRaw (tc_Arguments t);
  Some (writeFields ([("id", goString (tc_ID t)); ("name", goString (tc_Name t)); ("arguments", args)]
    ++ omitEmpty "extra_content" (emptyMap (tc_ExtraContent t)) (marshalMap (tc_ExtraContent t))
    ++ omitEmpty "provider_specific_fields" (emptyMap (tc_ProviderSpecificFields t)) (marshalMap (tc_ProviderSpecificFields t))
    ++ omitEmpty "function_provider_specific_fields" (emptyMap (tc_FunctionProviderSpecific t)) (marshalMap (tc_FunctionProviderSpecific t)))).

(** *** Messages *)

Definition mustJSON (text : option string) : string := default "null" text.

Definition orderedKeys : list string := ["role"; "content"; "timestamp"].
Definition typedKeys : list string := ["tool_calls"; "tool_call_id"; "name"; "reasoning_content"; "thinking_blocks"].

Definition present (m : Message) (key : string) : bool := bool_decide (key ∈ m_present m).

(** A text field is written when it is not empty or was there when the message was read. *)
Definition textField (m : Message) (key s : string) : list (string * RawJSON) :=
  omitEmpty key (String.eqb s "" && negb (present m key)) (goString s).

Definition messageFields (m : Message) : option (list (string * RawJSON)) :=
  content ← (if IsZero (m_Content m) && negb (present m "content") then Some "null" else marshalContent (m_Content m));
  Some ([("role", goString (m_Role m)); ("content", content)]
    ++ omitEmpty "timestamp" (String.eqb (m_Timestamp m) "") (goString (m_Timestamp m))
    ++ omitEmpty "tool_calls" (negb (isSome (m_ToolCalls m)) && negb (present m "tool_calls")) (mustJSON (writeItems <$> mapM marshalCall (calls m)))
    ++ textField m "tool_call_id" (m_ToolCallID m)
    ++ textField m "name" (m_Name m)
    ++ textField m "reasoning_content" (m_ReasoningContent m)
    ++ omitEmpty "thinking_blocks" (negb (isSome (m_ThinkingBlocks m)) && negb (present m "thinking_blocks"))
         (match m_ThinkingBlocks m with None => "null" | Some blocks => writeItems blocks end)
    ++ List.filter (λ e, negb (existsb (String.eqb e.1) (orderedKeys ++ typedKeys))) (m_extra m)).

Definition MarshalJSON (m : Message) : option string := writeFields <$> messageFields m.

(** ** Records in Python's syntax (session.go) *)

(** [appendPyValue] of a value whose numbers are float64. *)
Fixpoint pyFloats (v : json) : json :=
  match v with
  | JNum lit => match Float64 lit with Some f => JNum (FormatFloat f) | None => JNull end
  | JArr items => JArr (map pyFloats items)
  | JObj fields => JObj (map (λ '(k, v), (k, pyFloats v)) fields)
  | _ => v
  end.
Definition pyAny (raw : RawJSON) : string := match decode raw with Some (v, _) => pyText (pyFloats v) | None => "null" end.

(** Members in Python's syntax. *)
Definition pyMember (key text : string) : string := writePyString key +:+ pyKeySep +:+ text.
Definition pyObject (members : list string) : string := "{" +:+ Join members pyItemSep +:+ "}".

Definition pyAnyMap (m : option (gmap string RawJSON)) : string :=
  match m with None => "{}" | Some m => pyObject (map (λ '(k, v), pyMember k (pyAny v)) (sortFields m)) end.

Definition toolCallArguments (call : ToolCall) : string :=
  let raw := TrimSpace (tc_Arguments call) in
  if String.eqb raw "" then "{}"
  else if firstByte raw =? 34 then default raw (unmarshalString raw) else raw.

Definition pyUnlessEmpty (key : string) (m : option (gmap string RawJSON)) : list string :=
  if emptyMap m then [] else [pyMember key (pyAnyMap m)].

Definition encodeToolCall (call : ToolCall) : string :=
  pyObject ([pyMember "id" (writePyString (tc_ID call)); pyMember "type" (writePyString "function");
    pyMember "function" (pyObject ([pyMember "name" (writePyString (tc_Name call)); pyMember "arguments" (writePyString (toolCallArguments call))]
      ++ pyUnlessEmpty "provider_specific_fields" (tc_FunctionProviderSpecific call)))]
    ++ pyUnlessEmpty "extra_content" (tc_ExtraContent call)
    ++ pyUnlessEmpty "provider_specific_fields" (tc_ProviderSpecificFields call)).

Definition encodeToolCalls (calls : list ToolCall) : string := "[" +:+ Join (map encodeToolCall calls) pyItemSep +:+ "]".

(** One member of the record. *)
Definition encodeField (m : Message) (f : string * RawJSON) : option string :=
  let '(key, val) := f in
  text ← (if String.eqb key "tool_calls" && negb (Nat.eqb (length (calls m)) 0) then Some (encodeToolCalls (calls m))
          else if String.eqb key "content" && String.eqb (TrimSpace val) "null" then Some (writePyString "")
          else appendPyRaw val);
  Some (pyMember key text).

Definition encodeMessage (m : Message) : option string :=
  raw ← MarshalJSON m;
  fields ← objectFields raw;
  pyObject <$> mapM (encodeField m) fields.

(** ** encoding/json: reading *)

(** The text of a float64. *)
Definition goFloat (f : float64) : string :=
  match f with
  | Fin neg mag =>
      (if neg : bool then "-" else "") +:+
      (if mag =? 0 then "0" else
       let '(ds, exp) := sci_parts mag in
       if (exp <? -6) || (21 <=? exp)
       then stake 1 ds +:+ (if Nat.ltb 1 (slen ds) then "." +:+ sdrop 1 ds else "") +:+ "e" +:+ (if exp <? 0 then "-" else "+") +:+ Itoa (Z.abs exp)
       else FormatF mag)
  | _ => "null"
  end.

(** A decoded [any]: numbers are float64, and one out of range is left nil. *)
Fixpoint floats (v : json) : json :=
  match v with
  | JNum lit => match Float64 lit with Some f => JNum (goFloat f) | None => JNull end
  | JArr items => JArr (map floats items)
  | JObj fields => JObj (map (λ '(k, v), (k, floats v)) fields)
  | _ => v
  end.
Fixpoint outOfRange (v : json) : bool :=
  match v with
  | JNum lit => negb (isSome (Float64 lit))
  | JArr items => existsb outOfRange items
  | JObj fields => existsb (λ '(_, v), outOfRange v) fields
  | _ => false
  end.
Definition anyText (v : json) : RawJSON := goText (goAny (floats v)).

(** [_ = json.Unmarshal(raw, &m)] of a nil [map[string]any]. *)
Definition unmarshalMap (raw : RawJSON) : option (gmap string RawJSON) :=
  match decode raw with
  | Some (JObj fields, _) => Some (list_to_map (rev (map (λ '(k, v), (k, anyText v)) fields)))
  | _ => None
  end.

Definition isNull (raw : RawJSON) : bool := match decode raw with Some (JNull, _) => true | _ => false end.

(** A [map[string]json.RawMessage] as its members: null is the nil map. *)
Definition unmarshalRawMap (raw : RawJSON) : option (list (string * RawJSON)) := if isNull raw then Some [] else objectFields raw.

(** A text that was there before stays when null is read into it. *)
Definition storeString (raw : RawJSON) (before : string) : option string := if isNull raw then Some before else unmarshalString raw.

Definition fieldString (fields : list (string * RawJSON)) (key : string) : string := default "" (fieldValue fields key ≫= unmarshalString).

(** *** Content *)

Definition unmarshalBlock (data : RawJSON) : option ContentBlock :=
  if isNull data then Some {| cb_Type := ""; cb_Text := ""; cb_ImageURL := ""; cb_Raw := None |} else
  fields ← objectFields data;
  Some {| cb_Type := fieldString fields "type"; cb_Text := fieldString fields "text";
          cb_ImageURL := default "" (fieldValue fields "image_url"); cb_Raw := Some (list_to_map (rev fields)) |}.

Definition unmarshalContent (raw : RawJSON) : option Content :=
  '(v, _) ← decode raw;
  match v with
  | JNull => Some zeroContent
  | JStr s => Some (TextContent s)
  | JArr _ => items ← arrayItems raw; blocks ← mapM unmarshalBlock items; Some (BlockContent (Some blocks))
  | _ => None
  end.

(** *** Tool calls *)

Definition zeroCall : ToolCall :=
  {| tc_ID := ""; tc_Name := ""; tc_Arguments := ""; tc_ExtraContent := None; tc_ProviderSpecificFields := None; tc_FunctionProviderSpecific := None |}.

(** The member of [function], where there is one, before the flat one. *)
Definition nestedFirst (fields : list (string * RawJSON)) (fnFields : option (list (string * RawJSON))) (key : string) : option RawJSON :=
  match fnFields ≫= (λ fn, fieldValue fn key) with Some v => Some v | None => fieldValue fields key end.

Definition unmarshalCall (data : RawJSON) : option ToolCall :=
  fields ← unmarshalRawMap data;
  let fnFields := fieldValue fields "function" ≫= unmarshalRawMap in
  Some {| tc_ID := fieldString fields "id";
          tc_Name := default "" (nestedFirst fields fnFields "name" ≫= unmarshalString);
          tc_Arguments := match nestedFirst fields fnFields "arguments" with
                          | Some arguments => let trimmed := TrimSpace arguments in if String.eqb trimmed "null" then "" else trimmed
                          | None => ""
                          end;
          tc_ExtraContent := fieldValue fields "extra_content" ≫= unmarshalMap;
          tc_ProviderSpecificFields := fieldValue fields "provider_specific_fields" ≫= unmarshalMap;
          tc_FunctionProviderSpecific := (fnFields ≫= (λ fn, fieldValue fn "provider_specific_fields")) ≫= unmarshalMap |}.

(** The calls up to the first that cannot be read, which stays as it was made, and
    whether there is one. *)
Fixpoint callsUntil (items : list RawJSON) : list ToolCall * bool :=
  match items with
  | [] => ([], true)
  | item :: items =>
      match unmarshalCall item with
      | Some call => let '(calls, ok) := callsUntil items in (call :: calls, ok)
      | None => ([zeroCall], false)
      end
  end.

(** [json.Unmarshal(raw, &calls)]: the slice afterwards and whether it succeeded. *)
Definition unmarshalCalls (raw : RawJSON) (before : option (list ToolCall)) : option (list ToolCall) * bool :=
  if isNull raw then (None, true) else
  match arrayItems raw with Some items => let '(calls, ok) := callsUntil items in (Some calls, ok) | None => (before, false) end.

(** *** Thinking blocks *)

Definition unmarshalThinking (raw : RawJSON) (before : option (list RawJSON)) : option (list RawJSON) * bool :=
  match decode raw with
  | Some (JNull, _) => (None, true)
  | Some (JArr items, _) =>
      (Some (map (λ v, match v with JObj _ => anyText v | _ => "null" end) items),
       forallb (λ v, match v with JObj _ => negb (outOfRange v) | JNull => true | _ => false end) items)
  | _ => (before, false)
  end.

(** *** Messages *)

Definition set_extra (key : string) (raw : RawJSON) (ok : bool) (m : Message) : Message :=
  if ok then m else
  mkMessage (m_Role m) (m_Content m) (m_Timestamp m) (m_ToolCalls m) (m_ToolCallID m) (m_Name m) (m_ReasoningContent m) (m_ThinkingBlocks m)
    (m_extra m ++ [(key, raw)]) (m_present m).

Definition unmarshalField (m : Message) (f : string * RawJSON) : option Message :=
  let '(key, raw) := f in
  let m := mkMessage (m_Role m) (m_Content m) (m_Timestamp m) (m_ToolCalls m) (m_ToolCallID m) (m_Name m) (m_ReasoningContent m)
             (m_ThinkingBlocks m) (m_extra m) ({[key]} ∪ m_present m) in
  let '(mkMessage role content timestamp calls callID name reasoning thinking extra pres) := m in
  let text s (k : string → Message) := match s with Some s => Some (k s) | None => Some (set_extra key raw false m) end in
  if String.eqb key "role" then role ← unmarshalString raw; Some (mkMessage role content timestamp calls callID name reasoning thinking extra pres)
  else if String.eqb key "content" then content ← unmarshalContent raw; Some (mkMessage role content timestamp calls callID name reasoning thinking extra pres)
  else if String.eqb key "timestamp" then text (unmarshalString raw) (λ timestamp, mkMessage role content timestamp calls callID name reasoning thinking extra pres)
  else if String.eqb key "tool_calls" then
    let '(calls, ok) := unmarshalCalls raw calls in
    Some (set_extra key raw ok (mkMessage role content timestamp calls callID name reasoning thinking extra pres))
  else if String.eqb key "tool_call_id" then text (storeString raw callID) (λ callID, mkMessage role content timestamp calls callID name reasoning thinking extra pres)
  else if String.eqb key "name" then text (storeString raw name) (λ name, mkMessage role content timestamp calls callID name reasoning thinking extra pres)
  else if String.eqb key "reasoning_content" then
    text (storeString raw reasoning) (λ reasoning, mkMessage role content timestamp calls callID name reasoning thinking extra pres)
  else if String.eqb key "thinking_blocks" then
    let '(thinking, ok) := unmarshalThinking raw thinking in
    Some (set_extra key raw ok (mkMessage role content timestamp calls callID name reasoning thinking extra pres))
  else Some (set_extra key raw false m).

Fixpoint foldFields (m : Message) (fields : list (string * RawJSON)) : option Message :=
  match fields with [] => Some m | f :: fields => m ← unmarshalField m f; foldFields m fields end.

(** [json.Unmarshal(line, &msg)] of a line that starts with an object. *)
Definition UnmarshalJSON (line : string) : option Message :=
  if negb (json_Valid line) then None else fields ← objectFields line; foldFields zeroMessage fields.

(** ** Tool calls of a record (session.go) *)

Definition NormalizeToolArguments (raw : RawJSON) : RawJSON :=
  let trimmed := TrimSpace raw in
  if String.eqb trimmed "" then ""
  else if negb (firstByte trimmed =? 34) then trimmed
  else match unmarshalString trimmed with
       | None => trimmed
       | Some s => let inner := TrimSpace s in if negb (String.eqb inner "") && json_Valid inner then inner else trimmed
       end.

Definition stringField (fields : list (string * RawJSON)) (key : string) : option string := fieldValue fields key ≫= unmarshalString.

Definition convertToolCall (item : RawJSON) : option ToolCall :=
  fields ← objectFields item;
  fnFields ← (match fieldValue fields "function" with None => Some None | Some fn => Some <$> objectFields fn end);
  let name := match fnFields ≫= (λ fn, stringField fn "name") with Some name => Some name | None => stringField fields "name" end in
  Some {| tc_ID := default "" (stringField fields "id"); tc_Name := default "" name;
          tc_Arguments := match nestedFirst fields fnFields "arguments" with Some arguments => NormalizeToolArguments arguments | None => "" end;
          tc_ExtraContent := fieldValue fields "extra_content" ≫= unmarshalMap;
          tc_ProviderSpecificFields := fieldValue fields "provider_specific_fields" ≫= unmarshalMap;
          tc_FunctionProviderSpecific := (fnFields ≫= (λ fn, fieldValue fn "provider_specific_fields")) ≫= unmarshalMap |}.

Definition convertToolCalls (raw : RawJSON) : option (list ToolCall) := items ← arrayItems raw; mapM convertToolCall items.

(** The message a record stands for, and whether it could be read as one. *)
Definition recordMessage (fields : list (string * RawJSON)) (line : string) : Message * bool :=
  let msg := UnmarshalJSON line in
  let m := default zeroMessage msg in
  (match fieldValue fields "tool_calls" ≫= convertToolCalls with Some calls => with_ToolCalls (Some calls) m | None => m end, isSome msg).
