(* ===== verification/SessionRecords.v ===== *)
(** * Session files (src/internal/session/session.go, store.go, pyjson.go, timefmt.go)

    A session file is a list of records, one a line: a metadata record, perhaps a
    provider state, then the messages.  [consumeRecords] reads the records of a file into a
    session and skips what is not a JSON object; [renderSession] is the text a full
    save writes, in which a message that was read and not changed since is its line
    again; [mergeJournal] puts the messages of the journal behind those of the
    file; [overlayCheckpoint] applies the sidecar of an interrupted run.

    Times are instants in nanoseconds; the parsing and formatting of package time,
    which depend on the local zone, come through [TimeLib]. *)

From Stdlib Require Import Ascii.
From S2P Require Import Prelude GoText GoLib PyFloat GoFmt Core GoJson PyJson Governance Response Provider SessionText Session SessionCodec.
#[local] Open Scope string_scope.
#[local] Open Scope list_scope.
#[local] Open Scope Z_scope.

(** ** Lines *)

(** The universal newlines of Python's text mode; [cur] is the line being read,
    [afterCR] whether a line feed would only complete a line end. *)
Fixpoint splitLines_loop (s : string) (cur : string) (afterCR : bool) : list string :=
  match s with
  | "" => if String.eqb cur "" then [] else [cur]
  | String c s =>
      if byteZ c =? 10 then if afterCR then splitLines_loop s "" false else cur :: splitLines_loop s "" false
      else if byteZ c =? 13 then cur :: splitLines_loop s "" true
      else splitLines_loop s (cur +:+ String c "") false
  end.
Definition splitLines (data : string) : list string := splitLines_loop data "" false.

Example split_lines_1 : splitLines (of_bytes [97; 10; 98; 13; 10; 10; 99; 13; 13; 100]) = ["a"; "b"; ""; "c"; ""; "d"].
Proof. vm_compute. reflexivity. Qed.
Example split_lines_2 : splitLines (of_bytes [97; 10]) = ["a"].
Proof. vm_compute. reflexivity. Qed.

(** ** Members of a record (store.go) *)

Definition intField (fields : list (string * RawJSON)) (key : string) : option Z :=
  raw ← fieldValue fields key;
  s ← unmarshalNumber raw;
  if Contains s "." || Contains s "e" || Contains s "E" then None else Atoi s.

(** The distinct keys in the order in which they come first. *)
Fixpoint firstKeys (seen : list string) (keys : list string) : list string :=
  match keys with
  | [] => []
  | k :: keys => if existsb (String.eqb k) seen then firstKeys seen keys else k :: firstKeys (k :: seen) keys
  end.

Definition decodeOrderedObject (raw : RawJSON) : option (gmap string json * list string) :=
  fields ← objectFields raw;
  vs ← mapM (λ f, '(v, _) ← decode f.2; Some (f.1, goAny v)) fields;
  Some (list_to_map (rev vs), firstKeys [] (map fst fields)).

(** ** Time (timefmt.go) *)

Class TimeLib := {
  localSeconds : Z → string;              (** [t.Format("2006-01-02T15:04:05")] in the local zone *)
  zonedSeconds : Z → Z → string;          (** the same in a zone of the given offset in seconds *)
  parseZoned : string → string → option (Z * Z);  (** [time.Parse]: the instant and the offset *)
  parseLocal : string → string → option Z         (** [time.ParseInLocation] in the local zone *)
}.

Section Time.
Context `{TimeLib}.

Definition isoformat (t : Z) : string := formatNaive localSeconds t.

Definition formatOffset (seconds : Z) : string :=
  let '(sign, seconds) := if seconds <? 0 then ("-", - seconds) else ("+", seconds) in
  sign +:+ pad2 (seconds / 3600) +:+ ":" +:+ pad2 (seconds mod 3600 / 60).

Definition formatWithOffset (t offset : Z) : string := formatNaive (zonedSeconds offset) t +:+ formatOffset offset.

Definition zonedLayouts : list string :=
  ["2006-01-02T15:04:05.999999999Z07:00"; "2006-01-02T15:04:05Z07:00"; "2006-01-02T15:04Z07:00";
   "2006-01-02 15:04:05.999999999Z07:00"; "2006-01-02 15:04:05Z07:00"].
Definition naiveLayouts : list string :=
  ["2006-01-02T15:04:05.999999999"; "2006-01-02T15:04:05"; "2006-01-02T15:04"; "2006-01-02";
   "2006-01-02 15:04:05.999999999"; "2006-01-02 15:04:05"; "2006-01-02 15:04"].

(** The instant and the text Python would write for it. *)
Definition parseTimestamp (s : string) : option (Z * string) :=
  if String.eqb s "" then None else
  let trimmed := TrimSpace s in
  match head (omap (λ layout, parseZoned layout trimmed) zonedLayouts) with
  | Some (t, offset) => Some (t, formatWithOffset t offset)
  | None => match head (omap (λ layout, parseLocal layout trimmed) naiveLayouts) with
            | Some t => Some (t, isoformat t)
            | None => None
            end
  end.
End Time.

(** ** Reading records (session.go) *)

Definition with_times created createdStr updated updatedStr (s : Session) : Session :=
  mkSession (s_key s) (s_messages s) (s_snapshots s) (s_rawLines s) (s_meta s) (s_metaOrder s) (s_metaExtra s) (s_metaRaw s) (s_metaLoaded s)
    created createdStr updated updatedStr (s_lastArchived s) (s_providerState s) (s_providerLine s) (s_providerSnap s) (s_journalSize s).
Definition with_metaExtra extra (s : Session) : Session :=
  mkSession (s_key s) (s_messages s) (s_snapshots s) (s_rawLines s) (s_meta s) (s_metaOrder s) extra (s_metaRaw s) (s_metaLoaded s)
    (s_createdAt s) (s_createdStr s) (s_updatedAt s) (s_updatedStr s) (s_lastArchived s) (s_providerState s) (s_providerLine s) (s_providerSnap s) (s_journalSize s).
Definition with_journalSize n (s : Session) : Session :=
  mkSession (s_key s) (s_messages s) (s_snapshots s) (s_rawLines s) (s_meta s) (s_metaOrder s) (s_metaExtra s) (s_metaRaw s) (s_metaLoaded s)
    (s_createdAt s) (s_createdStr s) (s_updatedAt s) (s_updatedStr s) (s_lastArchived s) (s_providerState s) (s_providerLine s) (s_providerSnap s) n.

Definition resetMeta (s : Session) : Session := with_meta ∅ [] ∅ ∅ s.

(** [captureMetaRaw]: the text of each value and a decode of its own. *)
Definition captureMetaRaw (raw : RawJSON) : gmap string RawJSON * gmap string json :=
  match objectFields raw with
  | None => (∅, ∅)
  | Some fields => (list_to_map (rev fields), list_to_map (rev (map (λ f, (f.1, decodeJSONValue f.2)) fields)))
  end.

Definition archiveOffset (fields : list (string * RawJSON)) : Z :=
  match intField fields "last_archived" with
  | Some v => v
  | None => default 0 (intField fields "last_consolidated")
  end.

Definition metadataKeys : list string := ["_type"; "key"; "created_at"; "updated_at"; "metadata"; "last_archived"; "last_consolidated"].

Section Records.
Context `{TimeLib}.

(** A stored time, if there is a usable one. *)
Definition storedTime (fields : list (string * RawJSON)) (key : string) : option (Z * string) := stringField fields key ≫= parseTimestamp.

Definition applyMetadataRecord (fields : list (string * RawJSON)) (s : Session) : Session :=
  let s := match fieldValue fields "metadata" with
           | Some raw => match decodeOrderedObject raw with
                         | Some (meta, order) => let '(texts, loaded) := captureMetaRaw raw in with_meta meta order texts loaded s
                         | None => resetMeta s
                         end
           | None => resetMeta s
           end in
  let '(created, createdStr) := default (s_createdAt s, s_createdStr s) (storedTime fields "created_at") in
  let '(updated, updatedStr) := default (s_updatedAt s, s_updatedStr s) (storedTime fields "updated_at") in
  with_metaExtra (List.filter (λ f, negb (existsb (String.eqb f.1) metadataKeys)) fields)
    (SetLastArchived (archiveOffset fields) (with_times created createdStr updated updatedStr s)).
End Records.

Definition validProviderState (raw : RawJSON) : bool :=
  match objectFields raw with
  | None => false
  | Some fields =>
      forallb (λ key, match stringField fields key with Some v => negb (String.eqb v "") | None => false end) ["kind"; "provider"; "model"]
      && isSome (intField fields "version")
      && match fieldValue fields "payload" with Some payload => isJSONObject payload | None => false end
      && match fieldValue fields "pending_messages" with
         | None => true
         | Some pending => match arrayItems pending with None => false | Some items => forallb isJSONObject items end
         end
  end.

Definition applyProviderStateRecord (fields : list (string * RawJSON)) (line : string) (s : Session) : Session :=
  match fieldValue fields "state" with
  | Some raw => if validProviderState raw then with_provider (Some raw) (Some line) (Some raw) s else with_provider None None None s
  | None => with_provider None None None s
  end.

Definition appendMessageRecord (fields : list (string * RawJSON)) (line : string) (s : Session) : Session :=
  let msg := (recordMessage fields line).1 in
  with_messages (s_messages s ++ [msg]) (s_snapshots s ++ [msg]) (s_rawLines s ++ [Some line]) s.

Section Consume.
Context `{TimeLib}.

Definition consumeLine (s : Session) (line : string) : Session :=
  let trimmed := TrimSpace line in
  if String.eqb trimmed "" then s else
  match objectFields trimmed with
  | None => s
  | Some fields =>
      let recordType := default "" (stringField fields "_type") in
      if String.eqb recordType "metadata" then applyMetadataRecord fields s
      else if String.eqb recordType "provider_state" then applyProviderStateRecord fields trimmed s
      else appendMessageRecord fields trimmed s
  end.

Definition consumeRecords (data : string) (s : Session) : Session := foldl consumeLine s (splitLines data).
End Consume.

(** ** Writing (session.go, pyjson.go) *)

(** [pyMapKeys]: the recorded order first, then the other keys sorted. *)
Definition pyMapKeys {A} (m : gmap string A) (order : list string) : list string :=
  let keys := firstKeys [] (List.filter (λ k, isSome (m !! k)) order) in
  keys ++ sort_strings (List.filter (λ k, negb (existsb (String.eqb k) keys)) (map fst (map_to_list m))).

Fixpoint validNumbers (v : json) : bool :=
  match v with
  | JNum lit => json_Valid lit
  | JArr items => forallb validNumbers items
  | JObj fields => forallb (λ '(_, v), validNumbers v) fields
  | _ => true
  end.
Definition appendPyValue (v : json) : option string := if validNumbers v then Some (pyText v) else None.

(** [reflect.DeepEqual] of decoded values. *)
Fixpoint deepEqual (a b : json) : bool :=
  match a, b with
  | JNull, JNull => true
  | JBool x, JBool y => Bool.eqb x y
  | JNum x, JNum y | JStr x, JStr y => String.eqb x y
  | JArr xs, JArr ys =>
      (fix go xs ys := match xs, ys with [], [] => true | x :: xs, y :: ys => deepEqual x y && go xs ys | _, _ => false end) xs ys
  | JObj xs, JObj ys =>
      (fix go (xs ys : list (string * json)) := match xs, ys with
        | [], [] => true
        | (k, x) :: xs, (l, y) :: ys => String.eqb k l && deepEqual x y && go xs ys
        | _, _ => false
        end) xs ys
  | _, _ => false
  end.

(** A value of the metadata: its text again unless it was changed. *)
Definition metaValue (s : Session) (k : string) : option string :=
  v ← s_meta s !! k;
  match s_metaRaw s !! k with
  | Some r => if negb (String.eqb r "") && deepEqual v (default JNull (s_metaLoaded s !! k)) then appendPyRaw r else appendPyValue v
  | None => appendPyValue v
  end.

Definition appendMetaMap (s : Session) : option string :=
  pyObject <$> mapM (λ k, text ← metaValue s k; Some (pyMember k text)) (pyMapKeys (s_meta s) (s_metaOrder s)).

Definition metadataRecord (s : Session) : option string :=
  meta ← appendMetaMap s;
  extras ← mapM (λ f, text ← appendPyRaw f.2; Some (pyMember f.1 text)) (s_metaExtra s);
  Some (pyObject ([pyMember "_type" (writePyString "metadata"); pyMember "key" (writePyString (s_key s));
    pyMember "created_at" (writePyString (s_createdStr s)); pyMember "updated_at" (writePyString (s_updatedStr s));
    pyMember "metadata" meta; pyMember "last_archived" (Itoa (s_lastArchived s)); pyMember "last_consolidated" (Itoa (s_lastArchived s))] ++ extras)).

Definition providerRecord (s : Session) : option (list string) :=
  match s_providerState s with
  | None => Some []
  | Some state =>
      if String.eqb state "" then Some [] else
      match s_providerLine s with
      | Some line => if bool_decide (s_providerSnap s = Some state) then Some [line]
                     else text ← appendPyRaw state; Some [pyObject [pyMember "_type" (writePyString "provider_state"); pyMember "state" text]]
      | None => text ← appendPyRaw state; Some [pyObject [pyMember "_type" (writePyString "provider_state"); pyMember "state" text]]
      end
  end.

(** The line of message [i]: the one it was read from unless the message was changed. *)
Definition messageLine (s : Session) (i : nat) (m : Message) : option string :=
  match (s_rawLines s !! i) ≫= id, s_snapshots s !! i with
  | Some raw, Some snapshot => if bool_decide (m = snapshot) then Some raw else encodeMessage m
  | _, _ => encodeMessage m
  end.

Definition messageLines (s : Session) : option (list string) := mapM (λ '(i, m), messageLine s i m) (imap pair (s_messages s)).

Definition newline : string := String (Zbyte 10) "".
Definition fileOf (lines : list string) : string := foldr (λ line rest, line +:+ newline +:+ rest) "" lines.

Definition renderSession (s : Session) : option string :=
  header ← metadataRecord s;
  provider ← providerRecord s;
  lines ← messageLines s;
  Some (fileOf (header :: provider ++ lines)).

(** ** The journal (loadLocked) *)

(** Whether the record of a message could be read as one. *)
Definition readable (line : option string) : bool := match line with Some line => isSome (UnmarshalJSON line) | None => false end.

(** [reflect.DeepEqual] of two messages that were read: a message that could not be
    read has no map of the keys that were present. *)
Definition sameRecord (a b : Message * option string) : bool := bool_decide (a.1 = b.1) && Bool.eqb (readable a.2) (readable b.2).

Definition allSame (xs ys : list (Message * option string)) : bool := forallb (λ '(x, y), sameRecord x y) (combine xs ys).

Fixpoint overlapFrom (candidate : nat) (base journal : list (Message * option string)) : nat :=
  match candidate with
  | O => O
  | S c => if allSame (drop (length base - candidate) base) journal then candidate else overlapFrom c base journal
  end.

Definition entries (s : Session) : list (Message * option string) := combine (s_messages s) (s_rawLines s).

Definition overlap (sess journalSess : Session) : nat :=
  overlapFrom (length (s_messages journalSess) `min` length (s_messages sess)) (entries sess) (entries journalSess).

Definition mergeJournal (sess journalSess : Session) : Session :=
  let k := overlap sess journalSess in
  if (k <? length (s_messages journalSess))%nat
  then with_messages (s_messages sess ++ drop k (s_messages journalSess)) (s_snapshots sess ++ drop k (s_snapshots journalSess))
         (s_rawLines sess ++ drop k (s_rawLines journalSess)) sess
  else sess.

Definition resetArchived (s : Session) : Session :=
  if (s_lastArchived s <? 0) || (Z.of_nat (length (s_messages s)) <? s_lastArchived s) then SetLastArchived 0 s else s.

Section Load.
Context `{TimeLib}.

(** The session of the contents of the file and of the journal, the latter with its
    modification time if that can be had, before the checkpoint: [now] is the clock for
    a new session. *)
Definition loadFiles (key : string) (now : Z) (file : option string) (journal : option (string * option Z)) : Session :=
  let sess := newSession localSeconds key now in
  let sess := match file with Some data => consumeRecords data sess | None => sess end in
  let sess := match journal with
              | Some (data, mtime) =>
                  let sess := with_journalSize (Z.of_nat (slen data)) (mergeJournal sess (consumeRecords data (newSession localSeconds key now))) in
                  match mtime with Some t => with_updated localSeconds t sess | None => sess end
              | None => sess
              end in
  resetArchived sess.
End Load.

(** ** The runtime checkpoint (overlayCheckpointLocked) *)

(** [None] means that the sidecar is discarded. *)
Definition overlayCheckpoint (data : string) (s : Session) : option Session :=
  fields ← objectFields data;
  version ← intField fields "version";
  checkpointKey ← stringField fields "session_key";
  baseUpdated ← stringField fields "base_updated_at";
  baseCount ← intField fields "base_message_count";
  if negb (version =? 1) || negb (String.eqb checkpointKey (s_key s)) || negb (String.eqb baseUpdated (s_updatedStr s))
     || negb (baseCount =? Z.of_nat (length (s_messages s))) then None else
  checkpointRaw ← fieldValue fields "checkpoint";
  '(checkpoint, _) ← decodeOrderedObject checkpointRaw;
  s ← (match fieldValue fields "provider_state" with
       | Some providerRaw => if String.eqb (TrimSpace providerRaw) "null" then Some s
                             else if validProviderState providerRaw then Some (with_provider (Some providerRaw) None (Some providerRaw) s) else None
       | None => Some s
       end);
  let s := if isSome (s_meta s !! "runtime_checkpoint") then s
           else with_meta (s_meta s) (s_metaOrder s ++ ["runtime_checkpoint"]) (s_metaRaw s) (s_metaLoaded s) s in
  Some (setMetaRawLocked "runtime_checkpoint" (JObj (sortFields checkpoint)) checkpointRaw s).
