(* ===== verification/SessionStore.v ===== *)
(** * The session store (src/internal/session/store.go, session.go)

    Sessions are kept in a directory: a file of records per key, a journal to which new
    messages are appended, a checkpoint sidecar.  The store hands out sessions by
    reference and keeps up to four of them in a cache that is checked against the sizes
    and times of the files.

    The world is the directory, the sessions in memory and the cache.  An operation is a
    computation that may succeed, fail or be cut short by a crash; every system call
    asks [weather] what becomes of it, a write also how much of it is done.  A crash is
    the death of the process: the directory stays as the calls have left it.  A loss of
    power, which can take back calls that have returned since nothing is synced, is not
    a behaviour of this model (see [power_loss_loses] in SessionDurable).  An operation
    holds the lock of the directory from its first call on, so operations of the store
    do not interleave.  The clock, which also gives files their times, and the random
    names of temporary files are given.
    A store that could not be set up is not modelled. *)

From Stdlib Require Import Ascii.
From S2P Require Import Prelude GoText GoLib PyFloat GoFmt Core GoJson PyJson Governance Response Provider SessionText Session ToolOutput SessionKeys SessionCodec SessionRecords.
#[local] Open Scope string_scope.
#[local] Open Scope list_scope.
#[local] Open Scope Z_scope.

(** ** The world *)

Record File := mkFile { f_data : string; f_mtime : Z; f_regular : bool }.

Definition f_size (f : File) : Z := Z.of_nat (slen (f_data f)).

(** A session is held by its number in [st_heap]. *)
Record cachedSession := mkCached {
  cs_sess : nat; cs_exists : bool; cs_size : Z; cs_modTime : Z;
  cs_journalExists : bool; cs_journalSize : Z; cs_journalModTime : Z; cs_used : Z }.

Record Store := mkStore { st_heap : list Session; st_cache : gmap string cachedSession; st_cacheSeq : Z }.

Definition emptyStore : Store := mkStore [] ∅ 0.

(** [w_calls] and [w_reads] count the system calls and the readings of the clock. *)
Record World := mkWorld { w_files : gmap string File; w_store : Store; w_calls : nat; w_reads : nat }.

Inductive syscall := SLock | SStat | SRead | SRemove | SCreate | SWrite | SClose | SRename | SOpenAppend | SAppend | SCloseJournal | SReadDir.

(** What becomes of a system call; of a write that does not succeed, [kept] bytes are
    written. *)
Inductive outcome := Fine | Fails (kept : nat) | Crashes (kept : nat).

Inductive res (A : Type) := Ok (a : A) | Err | Crashed.
Arguments Ok {A} a.
Arguments Err {A}.
Arguments Crashed {A}.

Definition IO (A : Type) : Type := World → res A * World.
Definition ret {A} (a : A) : IO A := λ w, (Ok a, w).
Definition fail {A} : IO A := λ w, (Err, w).
Definition bind {A B} (m : IO A) (k : A → IO B) : IO B :=
  λ w, match m w with (Ok a, w) => k a w | (Err, w) => (Err, w) | (Crashed, w) => (Crashed, w) end.

Declare Scope io_scope.
Delimit Scope io_scope with io.
Notation "x <- m ;; k" := (bind m (λ x, k)) (at level 100, m at next level, right associativity) : io_scope.
Notation "m ;; k" := (bind m (λ _, k)) (at level 100, right associativity) : io_scope.
#[local] Open Scope io_scope.

(** An error that the caller looks at itself. *)
Definition attempt {A} (m : IO A) : IO (option A) :=
  λ w, match m w with (Ok a, w) => (Ok (Some a), w) | (Err, w) => (Ok None, w) | (Crashed, w) => (Crashed, w) end.

Definition with_files (f : gmap string File → gmap string File) (w : World) : World := mkWorld (f (w_files w)) (w_store w) (w_calls w) (w_reads w).
Definition with_store (f : Store → Store) (w : World) : World := mkWorld (w_files w) (f (w_store w)) (w_calls w) (w_reads w).
Definition files (f : gmap string File → gmap string File) : IO () := λ w, (Ok (), with_files f w).
Definition memory (f : Store → Store) : IO () := λ w, (Ok (), with_store f w).

(** ** Names of files *)

Definition sessionSuffix : string := ".jsonl".
Definition journalSuffix : string := ".journal.jsonl".
Definition checkpointSuffix : string := ".checkpoint.json".
Definition sessionCacheMaxEntries : nat := 4.

Definition Path (key : string) : string := StorageKey key +:+ sessionSuffix.
Definition journalPath (key : string) : string := StorageKey key +:+ journalSuffix.
Definition checkpointPath (key : string) : string := StorageKey key +:+ checkpointSuffix.

(** ** The cache *)

Definition infoSize (info : option File) : Z := match info with Some f => f_size f | None => 0 end.
Definition infoTime (info : option File) : Z := match info with Some f => f_mtime f | None => 0 end.

Definition with_cache (f : gmap string cachedSession → gmap string cachedSession) (st : Store) : Store := mkStore (st_heap st) (f (st_cache st)) (st_cacheSeq st).
Definition nextSeq (st : Store) : Store := mkStore (st_heap st) (st_cache st) (u64 (st_cacheSeq st + 1)).

(** Whether a file is still as it was when the session was remembered. *)
Definition unchanged (info : option File) (size modTime : Z) : bool :=
  match info with Some f => (f_size f =? size) && (f_mtime f =? modTime) | None => true end.

Definition set_used (used : Z) (c : cachedSession) : cachedSession :=
  mkCached (cs_sess c) (cs_exists c) (cs_size c) (cs_modTime c) (cs_journalExists c) (cs_journalSize c) (cs_journalModTime c) used.

(** [info] and [journalInfo] are absent when the file does not exist. *)
Definition cachedSession_ (key : string) (info journalInfo : option File) (st : Store) : option nat * Store :=
  match st_cache st !! key with
  | None => (None, st)
  | Some cached =>
      if negb (Bool.eqb (cs_exists cached) (isSome info)) || negb (Bool.eqb (cs_journalExists cached) (isSome journalInfo)) then (None, st)
      else if negb (unchanged info (cs_size cached) (cs_modTime cached)) then (None, with_cache (delete key) st)
      else if negb (unchanged journalInfo (cs_journalSize cached) (cs_journalModTime cached)) then (None, with_cache (delete key) st)
      else let st := nextSeq st in (Some (cs_sess cached), with_cache <[key := set_used (st_cacheSeq st) cached]> st)
  end.

(** The entry used longest ago; the empty key stands for none. *)
Definition oldest (cache : gmap string cachedSession) : string * Z :=
  foldl (λ '(oldestKey, used) '(candidate, cached), if String.eqb oldestKey "" || (cs_used cached <? used) then (candidate, cs_used cached) else (oldestKey, used))
    ("", 0) (map_to_list cache).

Definition rememberSession (key : string) (sess : nat) (info journalInfo : option File) (st : Store) : Store :=
  let st := nextSeq st in
  let entry := mkCached sess (isSome info) (infoSize info) (infoTime info) (isSome journalInfo) (infoSize journalInfo) (infoTime journalInfo) (st_cacheSeq st) in
  let oldestKey := (oldest (st_cache st)).1 in
  let evict := (sessionCacheMaxEntries <=? size (st_cache st))%nat && negb (String.eqb oldestKey "") && negb (String.eqb oldestKey key) in
  with_cache (λ cache, <[key := entry]> (if evict then delete oldestKey cache else cache)) st.

Definition forgetSession (key : string) : Store → Store := with_cache (delete key).

Definition setSession (h : nat) (f : Session → Session) (st : Store) : Store :=
  mkStore (alter f h (st_heap st)) (st_cache st) (st_cacheSeq st).

(** [&Session{...}]. *)
Definition allocate (s : Session) : IO nat :=
  λ w, (Ok (length (st_heap (w_store w))), with_store (λ st, mkStore (st_heap st ++ [s]) (st_cache st) (st_cacheSeq st)) w).
Definition deref (h : nat) : IO Session := λ w, match st_heap (w_store w) !! h with Some s => (Ok s, w) | None => (Err, w) end.

Section System.
Context `{TimeLib} (weather : nat → syscall → outcome) (clock : nat → Z) (randomHex : nat → string).

Definition now : IO Z := λ w, (Ok (clock (w_reads w)), mkWorld (w_files w) (w_store w) (w_calls w) (S (w_reads w))).

(** The next call and what becomes of it. *)
Definition call (c : syscall) : IO outcome := λ w, (Ok (weather (w_calls w) c), mkWorld (w_files w) (w_store w) (S (w_calls w)) (w_reads w)).
Definition crash {A} : IO A := λ w, (Crashed, w).

(** A call that does nothing when it does not succeed. *)
Definition sys (c : syscall) : IO () := o <- call c;; match o with Fine => ret () | Fails _ => fail | Crashes _ => crash end.

Definition lookupFile (path : string) : IO (option File) := λ w, (Ok (w_files w !! path), w).

(** [os.Stat], [os.Lstat] and [os.ReadFile]; a missing file is not an error here, since
    every caller asks for it. *)
Definition stat (path : string) : IO (option File) := sys SStat;; lookupFile path.
Definition ReadFile (path : string) : IO (option string) := sys SRead;; (f <- lookupFile path;; ret (f_data <$> f)).

(** [os.Remove], a missing file being accepted. *)
Definition Remove (path : string) : IO () := sys SRemove;; files (delete path).

(** ** Atomic replacement *)

Definition tmpName (path : string) (n : nat) : string := "." +:+ path +:+ "." +:+ randomHex n +:+ ".tmp".

(** What is done when a step after the creation of the temporary file fails. *)
Definition cleanup {A} (tmp : string) : IO A := attempt (sys SRemove;; files (delete tmp));; fail.

Definition orCleanup (tmp : string) (c : syscall) : IO () := r <- attempt (sys c);; match r with Some _ => ret () | None => cleanup tmp end.

(** As in the code there is no [fsync]: the rename is atomic for readers, this process
    after a restart among them. *)
Definition writeAtomic (path data : string) : IO () :=
  n <- (λ w, (Ok (w_calls w), w));;
  let tmp := tmpName path n in
  sys SCreate;;
  (there <- lookupFile tmp;;
   if isSome there then fail else
   (t <- now;;
    files <[tmp := mkFile "" t true]>;;
    (o <- call SWrite;;
     match o with
     | Fine => files <[tmp := mkFile data t true]>
     | Fails kept => files <[tmp := mkFile (stake kept data) t true]>;; cleanup tmp
     | Crashes kept => files <[tmp := mkFile (stake kept data) t true]>;; crash
     end;;
     orCleanup tmp SClose;;
     orCleanup tmp SRename;;
     files (λ fs, <[path := mkFile data t true]> (delete tmp fs))))).

(** ** Loading *)

Definition discardCheckpoint (path : string) : IO () :=
  info <- attempt (stat path);;
  match info with Some (Some f) => if f_regular f then attempt (Remove path);; ret () else ret () | _ => ret () end.

(** [overlayCheckpointLocked]. *)
Definition overlayCheckpointLocked (key : string) (sess : Session) : IO Session :=
  let path := checkpointPath key in
  info <- attempt (stat path);;
  match info with
  | Some (Some f) =>
      if negb (f_regular f) then ret sess else
      mainInfo <- attempt (stat (Path key));;
      match mainInfo with
      | Some (Some main) =>
          if f_mtime f <? f_mtime main then attempt (Remove path);; ret sess else
          data <- attempt (ReadFile path);;
          match data with
          | Some (Some data) => match overlayCheckpoint data sess with Some sess => ret sess | None => discardCheckpoint path;; ret sess end
          | _ => discardCheckpoint path;; ret sess
          end
      | _ => ret sess
      end
  | _ => ret sess
  end.

Definition loadLocked (key : string) : IO Session :=
  t <- now;;
  file <- ReadFile (Path key);;
  data <- ReadFile (journalPath key);;
  journal <- match data with
             | None => ret None
             | Some data => now;; (info <- attempt (stat (journalPath key));; ret (Some (data, f_mtime <$> (info ≫= id))))
             end;;
  let sess := loadFiles key t file journal in
  there <- attempt (stat (Path key));;
  if isSome (there ≫= id) then overlayCheckpointLocked key sess else ret sess.

(** ** The operations *)

Definition withLock {A} (m : IO A) : IO A := sys SLock;; m.

Definition Open (key : string) : IO nat :=
  withLock (
    info <- stat (Path key);;
    checkpointInfo <- attempt (stat (checkpointPath key));;
    journalInfo <- stat (journalPath key);;
    cached <- (λ w, match checkpointInfo with
                    | Some None => let '(hit, st) := cachedSession_ key info journalInfo (w_store w) in (Ok hit, with_store (λ _, st) w)
                    | _ => (Ok None, w)
                    end);;
    match cached with
    | Some h => ret h
    | None =>
        loaded <- loadLocked key;;
        h <- allocate loaded;;
        memory (rememberSession key h info journalInfo);;
        ret h
    end).

Definition rememberCurrent (key : string) (h : nat) : IO () :=
  info <- attempt (stat (Path key));;
  match info with
  | None => memory (forgetSession key)
  | Some info =>
      journalInfo <- attempt (stat (journalPath key));;
      match journalInfo with
      | None => memory (forgetSession key)
      | Some journalInfo => memory (rememberSession key h info journalInfo)
      end
  end.

Definition saveLocked (h : nat) : IO () :=
  s <- deref h;;
  match renderSession s with
  | None => fail
  | Some data =>
      let key := s_key s in
      writeAtomic (Path key) data;;
      Remove (checkpointPath key);;
      Remove (journalPath key);;
      memory (setSession h (with_journalSize 0));;
      rememberCurrent key h
  end.

Definition Save (h : nat) : IO () := withLock (saveLocked h).

(** Messages without a time get one. *)
Fixpoint stampAll (ms : list Message) : IO (list Message) :=
  match ms with
  | [] => ret []
  | m :: ms =>
      m <- (if String.eqb (m_Timestamp m) "" then t <- now;; ret (stamp localSeconds t m) else ret m);;
      ms <- stampAll ms;;
      ret (m :: ms)
  end.

(** [text] comes to the end of a file, which is made if there is none. *)
Definition appendText (path : string) (t : Z) (text : string) : IO () :=
  files (λ fs, <[path := match fs !! path with Some f => mkFile (f_data f +:+ text) t (f_regular f) | None => mkFile text t true end]> fs).

(** The journal gets [data] at its end. *)
Definition appendJournal (path data : string) : IO () :=
  sys SOpenAppend;;
  (t <- now;;
   o <- call SAppend;;
   match o with
   | Fine => appendText path t data
   | Fails kept => appendText path t (stake kept data);; attempt (sys SCloseJournal);; fail
   | Crashes kept => appendText path t (stake kept data);; crash
   end;;
   sys SCloseJournal).

Definition addAll (size : Z) (t : Z) (ms : list Message) (s : Session) : Session :=
  with_updated localSeconds t (with_journalSize (s_journalSize s + size)
    (with_messages (s_messages s ++ ms) (s_snapshots s ++ map (λ _, zeroMessage) ms) (s_rawLines s ++ map (λ _, None) ms) s)).

Definition AppendMessagesDurable (h : nat) (messages : list Message) : IO () :=
  match messages with
  | [] => ret ()
  | _ =>
      s <- deref h;;
      normalized <- stampAll messages;;
      match mapM encodeMessage normalized with
      | None => fail
      | Some lines =>
          let data := fileOf lines in
          withLock (
            appendJournal (journalPath (s_key s)) data;;
            (t <- now;;
             memory (setSession h (addAll (Z.of_nat (slen data)) t normalized));;
             rememberCurrent (s_key s) h))
      end
  end.

Definition CompactJournal (h : nat) (minBytes : Z) : IO () :=
  withLock (
    s <- deref h;;
    info <- stat (journalPath (s_key s));;
    match info with
    | None => ret ()
    | Some f =>
        if (0 <? minBytes) && (f_size f <? minBytes) then ret ()
        else if (0 <? s_journalSize s) && negb (f_size f =? s_journalSize s) then ret ()
        else saveLocked h
    end).

(** The name a key had before keys were encoded. *)
Definition safeKey (key : string) : string := TrimSpace (replace_unsafe (ReplaceAll key ":" "_")).
Definition legacyLossyPath (key : string) : string := safeKey key +:+ sessionSuffix.

(** Every file is tried; the first error is reported at the end. *)
Fixpoint removeAll (paths : list string) : IO bool :=
  match paths with
  | [] => ret true
  | path :: paths => r <- attempt (Remove path);; ok <- removeAll paths;; ret (isSome r && ok)
  end.

Definition Delete (key : string) : IO () :=
  withLock (
    ok <- removeAll [Path key; journalPath key; checkpointPath key; legacyLossyPath key];;
    memory (forgetSession key);;
    if ok then ret () else fail).

(** ** Listing *)

Definition modTimeText (name : string) : IO (option string) := info <- attempt (stat name);; ret ((λ f, isoformat (f_mtime f)) <$> (info ≫= id)).

(** The time in the first record of a file, which has to be a metadata record. *)
Definition firstRecordUpdatedAt (name : string) : IO (option string) :=
  data <- attempt (ReadFile name);;
  match data ≫= id with
  | None => ret None
  | Some data =>
      let line := TrimSpace (match cutByte data (Zbyte 10) with Some (line, _) => line | None => data end) in
      match (if String.eqb line "" then None else objectFields line) with
      | None => ret None
      | Some fields =>
          if negb (String.eqb (default "" (stringField fields "_type")) "metadata") then ret None else
          match stringField fields "updated_at" with
          | Some updated => if String.eqb updated "" then modTimeText name else ret (Some updated)
          | None => modTimeText name
          end
      end
  end.

Definition TrimSuffix (s suffix : string) : string := if HasSuffix s suffix then stake (slen s - slen suffix) s else s.

(** One entry of the directory; the rows so far are by key. *)
Definition listEntry (byKey : gmap string string) (name : string) : IO (gmap string string) :=
  if HasPrefix name "." then ret byKey
  else if HasSuffix name sessionSuffix && negb (HasSuffix name journalSuffix) then
    match SessionKeyFromStem (TrimSuffix name sessionSuffix) with
    | None => ret byKey
    | Some key => updated <- firstRecordUpdatedAt name;; ret (match updated with Some updated => <[key := updated]> byKey | None => byKey end)
    end
  else if HasSuffix name journalSuffix then
    match SessionKeyFromStem (TrimSuffix name journalSuffix) with
    | None => ret byKey
    | Some key =>
        updated <- modTimeText name;;
        ret (match updated with
             | Some updated => match byKey !! key with
                               | Some prev => if String.ltb prev updated then <[key := updated]> byKey else byKey
                               | None => <[key := updated]> byKey
                               end
             | None => byKey
             end)
    end
  else ret byKey.

Fixpoint listEntries (names : list string) (byKey : gmap string string) : IO (gmap string string) :=
  match names with [] => ret byKey | name :: names => byKey <- listEntry byKey name;; listEntries names byKey end.

(** A journal newer than the file gives the time. *)
Fixpoint journalTimes (rows : list (string * string)) : IO (list (string * string)) :=
  match rows with
  | [] => ret []
  | (key, updated) :: rows =>
      journal <- modTimeText (journalPath key);;
      rows <- journalTimes rows;;
      ret ((key, match journal with Some t => if String.ltb updated t then t else updated | None => updated end) :: rows)
  end.

(** Latest first, then by key. *)
Definition newer (a b : string * string) : bool := if String.eqb a.2 b.2 then String.leb a.1 b.1 else String.ltb b.2 a.2.

Definition List_ : IO (list string) :=
  withLock (
    sys SReadDir;;
    (names <- (λ w, (Ok (map fst (sortFields (w_files w))), w));;
     byKey <- listEntries names ∅;;
     rows <- journalTimes (map_to_list byKey);;
     ret (map fst (sort_by newer rows)))).

(** A change of a session in memory. *)
Definition change (h : nat) (o : op) : IO () := memory (setSession h (apply localSeconds o)).
End System.
