(* ===== verification/SessionFiles.v ===== *)
(** * What the files of a session hold

    The messages a file gives are read off its lines one by one ([recordLines]), so text
    can be appended to a file that ends with a line end.  [loadFiles] gives the messages
    of the file and then those of the journal, less an overlap that is already there;
    nothing of either is lost. *)

From Stdlib Require Import Ascii.
From S2P Require Import Prelude GoText GoLib PyFloat GoFmt Core GoJson PyJson Governance Response Provider SessionText Session SessionKeys SessionCodec SessionRecords SessionFacts.
#[local] Open Scope string_scope.
#[local] Open Scope list_scope.
#[local] Open Scope Z_scope.

(** ** Lines *)

Definition plainLine (line : string) : bool := negb (ContainsByte line (Zbyte 10)) && negb (ContainsByte line (Zbyte 13)).

(** A text after which another line can be written. *)
Definition closed (t : string) : Prop := t = "" ∨ ∃ t0, t = t0 +:+ newline.

Lemma splitLines_newline t cur cr x :
  splitLines_loop (t +:+ newline +:+ x) cur cr = splitLines_loop (t +:+ newline) cur cr ++ splitLines_loop x "" false.
Proof.
  unfold newline. revert cur cr. induction t as [|c t IH]; intros cur cr.
  - cbn [String.append splitLines_loop]. change (byteZ (Zbyte 10) =? 10) with true. cbn match. by destruct cr.
  - cbn [String.append splitLines_loop]. destruct (byteZ c =? 10); [destruct cr; [|cbn [app]; f_equal]; apply IH|].
    destruct (byteZ c =? 13); [cbn [app]; f_equal|]; apply IH.
Qed.

Lemma splitLines_closed t x : closed t → splitLines (t +:+ x) = splitLines t ++ splitLines x.
Proof. intros [->|[t0 ->]]; [done|]. rewrite <- sapp_assoc. apply splitLines_newline. Qed.

Lemma splitLines_plain line cur : plainLine line = true → line ≠ "" ∨ cur ≠ "" → splitLines_loop (line +:+ newline) cur false = [cur +:+ line].
Proof.
  unfold plainLine. revert cur. induction line as [|c line IH]; intros cur Hp Hne.
  - cbn. by rewrite sapp_nil_r.
  - cbn [ContainsByte] in Hp. rewrite !negb_orb in Hp. apply andb_true_iff in Hp as [[H1 H2]%andb_true_iff [H3 H4]%andb_true_iff].
    assert ((byteZ c =? 10) = false ∧ (byteZ c =? 13) = false) as [Ha Hb].
    { split; apply Z.eqb_neq; intros E; [apply negb_true_iff in H1; apply Ascii.eqb_neq in H1; apply H1 | apply negb_true_iff in H3; apply Ascii.eqb_neq in H3; apply H3]; symmetry; by apply Zbyte_eq. }
    cbn [String.append splitLines_loop]. rewrite Ha, Hb, IH; [by rewrite <- sapp_assoc|by rewrite H2, H4|right; by destruct cur].
Qed.

Lemma fileOf_closed lines : closed (fileOf lines).
Proof.
  induction lines as [|line lines IH]; [by left|]. right. cbn [fileOf foldr]. fold (fileOf lines). destruct IH as [->|[t ->]]; [exists line; by rewrite sapp_nil_r|].
  exists (line +:+ newline +:+ t). by rewrite <- !sapp_assoc.
Qed.

Lemma closed_app t x : closed t → closed x → closed (t +:+ x).
Proof. intros Ht [->|[x0 ->]]; [by rewrite sapp_nil_r|]. right. exists (t +:+ x0). by rewrite <- sapp_assoc. Qed.

(** ** Records *)

(** A record that is read as a message. *)
Definition isMessageRecord (line : string) : bool :=
  match objectFields line with
  | None => false
  | Some fields => let ty := default "" (stringField fields "_type") in negb (String.eqb ty "metadata") && negb (String.eqb ty "provider_state")
  end.

(** A line that is read as a message, as it is. *)
Definition okRecord (line : string) : bool := plainLine line && String.eqb (TrimSpace line) line && negb (String.eqb line "") && isMessageRecord line.

Definition recordOf (line : string) : option string :=
  let line := TrimSpace line in if negb (String.eqb line "") && isMessageRecord line then Some line else None.
Definition recordLines (data : string) : list string := omap recordOf (splitLines data).

Definition readMessage (line : string) : Message := (recordMessage (default [] (objectFields line)) line).1.

Lemma recordLines_closed t x : closed t → recordLines (t +:+ x) = recordLines t ++ recordLines x.
Proof. intros Ht. unfold recordLines. by rewrite splitLines_closed, omap_app. Qed.

Lemma recordLines_line line : okRecord line = true → recordLines (line +:+ newline) = [line].
Proof.
  unfold okRecord. intros [[[Hp Ht]%andb_true_iff Hn]%andb_true_iff Hm]%andb_true_iff. apply String.eqb_eq in Ht. unfold recordLines, splitLines.
  rewrite splitLines_plain by (done || left; by destruct line). cbn [omap list_omap String.append]. unfold recordOf. by rewrite Ht, Hn, Hm.
Qed.

Lemma recordLines_fileOf lines line : line ∈ lines → okRecord line = true → line ∈ recordLines (fileOf lines).
Proof.
  intros Hin Hok. induction lines as [|x lines IH]; [by apply not_elem_of_nil in Hin|]. cbn [fileOf foldr]. fold (fileOf lines).
  rewrite sapp_assoc, recordLines_closed by (right; eauto). apply elem_of_app. apply elem_of_cons in Hin as [->|Hin]; [left|by right; apply IH].
  rewrite recordLines_line by done. by constructor.
Qed.

Lemma recordLines_all lines : Forall (λ line, okRecord line = true) lines → recordLines (fileOf lines) = lines.
Proof.
  induction 1 as [|line lines Hok _ IH]; [done|]. cbn [fileOf foldr]. fold (fileOf lines). rewrite sapp_assoc, recordLines_closed by (right; eauto). by rewrite recordLines_line, IH.
Qed.

(** ** A record is read again as it is *)

Lemma DecodeRune_low c t : byteZ c < 128 → DecodeRune (String c t) = (byteZ c, 1%nat).
Proof. intros Hc. unfold DecodeRune. destruct (accept2 (byteZ c)) as [lo hi]. destruct (Z.ltb_spec (byteZ c) 128); [done|lia]. Qed.

Lemma TrimLeft_split fuel s : ∃ a, s = a +:+ TrimLeft_fuel fuel s.
Proof.
  revert s. induction fuel as [|fuel IH]; intros s; [by exists ""; destruct s|]. destruct s as [|c s]; [by exists ""|]. cbn [TrimLeft_fuel].
  destruct (DecodeRune (String c s)) as [r n]. destruct (IsSpace r); [|by exists ""]. destruct (IH (sdrop n (String c s))) as [a Ha].
  exists (stake n (String c s) +:+ a). rewrite <- sapp_assoc, <- Ha. by rewrite stake_sdrop.
Qed.

Lemma TrimRight_split fuel s : ∃ b, s = TrimRight_fuel fuel s +:+ b.
Proof.
  revert s. induction fuel as [|fuel IH]; intros s; [exists ""; cbn; by rewrite sapp_nil_r|]. destruct s as [|c s]; [by exists ""|]. cbn [TrimRight_fuel].
  destruct (DecodeLastRune (String c s)) as [r n]. destruct (IsSpace r); [|exists ""; by rewrite sapp_nil_r]. set (k := (slen (String c s) - n)%nat).
  destruct (IH (stake k (String c s))) as [b Hb]. exists (b +:+ sdrop k (String c s)). rewrite sapp_assoc, <- Hb. by rewrite stake_sdrop.
Qed.

Lemma scan_start_down k start s : (scan_start k start s ≤ start)%nat.
Proof. revert start. induction k as [|k IH]; intros start; [done|]. cbn [scan_start]. case_match; [done|]. destruct start as [|start]; [done|]. specialize (IH start). lia. Qed.

Lemma DecodeLastRune_pos s r n : DecodeLastRune s = (r, n) → s ≠ "" → (1 ≤ n)%nat.
Proof.
  unfold DecodeLastRune. destruct (slen s) as [|start] eqn:El; [by destruct s|]. intros H _. destruct (byteZ _ <? 0x80); [injection H; lia|].
  set (st := match start with O => O | S st => scan_start 3 st s end) in *.
  assert (st ≤ start)%nat as Hst by (subst st; destruct start as [|start]; [done|]; pose proof (scan_start_down 3 start s); lia). destruct (DecodeRune (sdrop st s)) as [r' size] eqn:E.
  destruct (Nat.eqb_spec (st + size) (S start)) as [He|]; [|injection H; lia]. injection H as <- <-.
  destruct (sdrop st s) as [|c u] eqn:Ed; [|pose proof (DecodeRune_width _ _ _ E ltac:(done)); lia]. apply (f_equal slen) in Ed. rewrite slen_sdrop in Ed. cbn in Ed, E. injection E as <- <-. lia.
Qed.

Lemma TrimLeft_head fuel s : (slen s ≤ fuel)%nat → TrimLeft_fuel fuel s = "" ∨ IsSpace (DecodeRune (TrimLeft_fuel fuel s)).1 = false.
Proof.
  revert s. induction fuel as [|fuel IH]; intros s Hl; [destruct s; [by left|cbn in Hl; lia]|]. destruct s as [|c s]; [by left|]. cbn [TrimLeft_fuel].
  destruct (DecodeRune (String c s)) as [r n] eqn:E. destruct (IsSpace r) eqn:Er; [|right; rewrite E; exact Er]. apply IH. rewrite slen_sdrop.
  apply DecodeRune_width in E; [|done]. lia.
Qed.

Lemma TrimRight_last fuel s : (slen s ≤ fuel)%nat → TrimRight_fuel fuel s = "" ∨ IsSpace (DecodeLastRune (TrimRight_fuel fuel s)).1 = false.
Proof.
  revert s. induction fuel as [|fuel IH]; intros s Hl; [destruct s; [by left|cbn in Hl; lia]|]. destruct s as [|c s]; [by left|]. cbn [TrimRight_fuel].
  destruct (DecodeLastRune (String c s)) as [r n] eqn:E. destruct (IsSpace r) eqn:Er; [|right; rewrite E; exact Er]. apply IH. rewrite slen_stake.
  apply DecodeLastRune_pos in E; [|done]. lia.
Qed.

Lemma TrimRight_id fuel s : IsSpace (DecodeLastRune s).1 = false → TrimRight_fuel fuel s = s.
Proof. destruct fuel, s as [|c s]; [done..|]. intros Hs. cbn [TrimRight_fuel]. destruct (DecodeLastRune (String c s)) as [r n]. cbn in Hs. by rewrite Hs. Qed.

Lemma json_space_IsSpace c : is_json_space c = true → byteZ c < 128 ∧ IsSpace (byteZ c) = true.
Proof.
  unfold is_json_space. intros Hc. assert (byteZ c = 32 ∨ byteZ c = 9 ∨ byteZ c = 10 ∨ byteZ c = 13) as H by (repeat (apply orb_true_iff in Hc as [Hc|Hc]); apply Z.eqb_eq in Hc; auto).
  destruct H as [ -> | [ -> | [ -> | -> ] ] ]; split; (lia || done).
Qed.

(** A trimmed text that starts with an object starts with its brace. *)
Lemma trimmed_object line fields : objectFields (TrimSpace line) = Some fields → ∃ t, TrimSpace line = String "{" t.
Proof.
  unfold TrimSpace. set (s1 := TrimLeft_fuel (slen line) line). destruct (TrimRight_split (slen s1) s1) as [b Hb]. destruct (TrimLeft_head (slen line) line ltac:(lia)) as [He|Hh].
  { fold s1 in He. by rewrite He. }
  fold s1 in Hh. destruct (TrimRight_fuel (slen s1) s1) as [|c t] eqn:Et; [done|]. rewrite Hb in Hh. cbn [String.append] in Hh. intros Ho. exists t. f_equal.
  destruct (is_json_space c) eqn:Hc; [destruct (json_space_IsSpace c Hc) as [H1 H2]; rewrite DecodeRune_low in Hh by done; cbn in Hh; congruence|].
  unfold objectFields in Ho. rewrite skip_space_first in Ho by done. destruct (byteZ c =? 123) eqn:E; [|done]. apply Z.eqb_eq in E.
  rewrite <- (Zbyte_eq 123 c) by done. done.
Qed.

Lemma TrimSpace_record line fields : objectFields (TrimSpace line) = Some fields → TrimSpace (TrimSpace line) = TrimSpace line.
Proof.
  intros Ho. destruct (trimmed_object line fields Ho) as [t Ht]. rewrite Ht. unfold TrimSpace at 1.
  assert (TrimLeft_fuel (slen (String "{" t)) (String "{" t) = String "{" t) as ->.
  { change (slen (String "{" t)) with (S (slen t)). cbn [TrimLeft_fuel]. rewrite DecodeRune_low by done. done. }
  apply TrimRight_id. unfold TrimSpace in Ht. set (s1 := TrimLeft_fuel (slen line) line) in *.
  destruct (TrimRight_last (slen s1) s1 ltac:(lia)) as [He|Hl]; [by rewrite He in Ht|by rewrite Ht in Hl].
Qed.

Lemma plainLine_app a b : plainLine (a +:+ b) = plainLine a && plainLine b.
Proof. unfold plainLine. rewrite !ContainsByte_app. by repeat destruct (ContainsByte _ _). Qed.

Lemma plainLine_TrimSpace line : plainLine line = true → plainLine (TrimSpace line) = true.
Proof.
  intros Hp. unfold TrimSpace. destruct (TrimLeft_split (slen line) line) as [a Ha]. set (s1 := TrimLeft_fuel _ line) in *. destruct (TrimRight_split (slen s1) s1) as [b Hb].
  rewrite Ha, plainLine_app in Hp. apply andb_true_iff in Hp as [_ Hp]. rewrite Hb, plainLine_app in Hp. by apply andb_true_iff in Hp as [Hp _].
Qed.

Lemma splitLines_all_plain s cur cr : plainLine cur = true → Forall (λ line, plainLine line = true) (splitLines_loop s cur cr).
Proof.
  revert cur cr. induction s as [|c s IH]; intros cur cr Hc; cbn [splitLines_loop]; [destruct (String.eqb cur ""); by repeat constructor|].
  destruct (byteZ c =? 10) eqn:H1; [destruct cr; [by apply IH|by constructor; [|apply IH]]|]. destruct (byteZ c =? 13) eqn:H2; [by constructor; [|apply IH]|].
  apply IH. rewrite plainLine_app, Hc. unfold plainLine. cbn [ContainsByte andb]. apply Z.eqb_neq in H1, H2.
  destruct (Ascii.eqb_spec c (Zbyte 10)) as [->|]; [by exfalso; apply H1|]. by destruct (Ascii.eqb_spec c (Zbyte 13)) as [->|]; [exfalso; apply H2|].
Qed.

Lemma recordLines_ok data : Forall (λ line, okRecord line = true) (recordLines data).
Proof.
  pose proof (splitLines_all_plain data "" false eq_refl) as Hp. unfold recordLines, splitLines. induction Hp as [|line lines Hl _ IH]; [constructor|].
  cbn [omap list_omap]. destruct (recordOf line) as [t|] eqn:E; [constructor; [|done]|done]. unfold recordOf in E. destruct (negb _ && _) eqn:Hc; [|done]. injection E as <-.
  apply andb_true_iff in Hc as [Hn Hm]. unfold okRecord. rewrite plainLine_TrimSpace, Hn, Hm by done. unfold isMessageRecord in Hm.
  destruct (objectFields (TrimSpace line)) as [fields|] eqn:Ho; [|done]. rewrite (TrimSpace_record _ _ Ho), String.eqb_refl. done.
Qed.

Section Reading.
Context `{TimeLib}.

Lemma meta_messages fields s :
  let s' := applyMetadataRecord fields s in s_messages s' = s_messages s ∧ s_snapshots s' = s_snapshots s ∧ s_rawLines s' = s_rawLines s.
Proof. unfold applyMetadataRecord, resetMeta. repeat case_match; done. Qed.

Lemma provider_messages fields line s :
  let s' := applyProviderStateRecord fields line s in s_messages s' = s_messages s ∧ s_snapshots s' = s_snapshots s ∧ s_rawLines s' = s_rawLines s.
Proof. unfold applyProviderStateRecord. repeat case_match; done. Qed.

Lemma consumeLine_messages s line :
  let s' := consumeLine s line in let new := option_list (recordOf line) in
  s_messages s' = s_messages s ++ map readMessage new ∧ s_snapshots s' = s_snapshots s ++ map readMessage new ∧ s_rawLines s' = s_rawLines s ++ map Some new.
Proof.
  cbn zeta. unfold consumeLine, recordOf, isMessageRecord. set (t := TrimSpace line). destruct (String.eqb t ""); cbn [negb andb option_list map]; [by rewrite !app_nil_r|].
  destruct (objectFields t) as [fields|] eqn:Ef; cbn [option_list map]; [|by rewrite !app_nil_r]. destruct (String.eqb _ "metadata"); cbn [negb andb option_list map].
  { rewrite !app_nil_r. apply meta_messages. }
  destruct (String.eqb _ "provider_state"); cbn [negb andb option_list map]; [rewrite !app_nil_r; apply provider_messages|].
  cbn. unfold readMessage. by rewrite Ef.
Qed.

Lemma consumeRecords_messages data s :
  let s' := consumeRecords data s in
  s_messages s' = s_messages s ++ map readMessage (recordLines data) ∧ s_snapshots s' = s_snapshots s ++ map readMessage (recordLines data)
  ∧ s_rawLines s' = s_rawLines s ++ map Some (recordLines data).
Proof.
  unfold consumeRecords, recordLines. cbn zeta. generalize (splitLines data). intros lines. revert s. induction lines as [|line lines IH]; intros s; [by cbn; rewrite !app_nil_r|].
  cbn [foldl omap list_omap]. destruct (IH (consumeLine s line)) as (-> & -> & ->). destruct (consumeLine_messages s line) as (-> & -> & ->).
  destruct (recordOf line); cbn [option_list map]; [by rewrite <- !app_assoc|by rewrite !app_nil_r].
Qed.
End Reading.

(** ** The journal *)

Definition entryOf (line : string) : Message * option string := (readMessage line, Some line).

Lemma overlapFrom_spec c base j :
  let k := overlapFrom c base j in
  (k ≤ c)%nat ∧ allSame (drop (length base - k) base) j = true ∧ ∀ k', (k < k' ≤ c)%nat → allSame (drop (length base - k') base) j = false.
Proof.
  induction c as [|c IH]; cbn [overlapFrom].
  - split_and!; [done| |lia]. by rewrite Nat.sub_0_r, drop_all.
  - destruct (allSame _ j) eqn:E; [split_and!; [done|done|lia]|]. destruct IH as (Hk & Hs & Hm). split_and!; [lia|done|].
    intros k' Hk'. destruct (decide (k' = S c)) as [->|]; [done|]. apply Hm. lia.
Qed.

Lemma sameRecord_refl e : sameRecord e e = true.
Proof. unfold sameRecord. by rewrite bool_decide_eq_true_2, eqb_reflx. Qed.

Lemma allSame_refl xs ys : allSame xs (xs ++ ys) = true.
Proof. unfold allSame. induction xs as [|x xs IH]; [done|]. cbn [app combine forallb]. by rewrite sameRecord_refl, IH. Qed.

(** Entries that are the same have the same messages. *)
Lemma allSame_messages (xs ys : list string) : (length xs ≤ length ys)%nat → allSame (map entryOf xs) (map entryOf ys) = true →
  map readMessage xs = take (length xs) (map readMessage ys).
Proof.
  unfold allSame. revert ys. induction xs as [|x xs IH]; intros ys Hl Hs; [done|]. destruct ys as [|y ys]; [cbn in Hl; lia|].
  cbn [map combine forallb] in Hs. apply andb_true_iff in Hs as [[Hm _]%andb_true_iff Hs]. apply bool_decide_eq_true in Hm. cbn in Hm, Hl.
  cbn. rewrite Hm. f_equal. apply IH; [lia|done].
Qed.

Section Journal.
Context `{TimeLib}.

Definition fileLines (file : option string) : list string := match file with Some data => recordLines data | None => [] end.

(** Every line of a session stands for the message that it was read as. *)
Definition fromLines (lines : list string) (s : Session) : Prop :=
  s_messages s = map readMessage lines ∧ s_snapshots s = map readMessage lines ∧ s_rawLines s = map Some lines.

Lemma fromLines_entries lines s : fromLines lines s → entries s = map entryOf lines.
Proof.
  intros (Hm & _ & Hr). unfold entries. rewrite Hm, Hr. clear. induction lines as [|l lines IH]; [done|]. cbn. by rewrite IH.
Qed.

Lemma consume_new key now data : fromLines (recordLines data) (consumeRecords data (newSession localSeconds key now)).
Proof. destruct (consumeRecords_messages data (newSession localSeconds key now)) as (H1 & H2 & H3). unfold fromLines. by rewrite H1, H2, H3. Qed.

Lemma mergeJournal_lines bl jl s j : fromLines bl s → fromLines jl j →
  ∃ k, (k ≤ length jl)%nat ∧ fromLines (bl ++ drop k jl) (mergeJournal s j) ∧ s_lastArchived (mergeJournal s j) = s_lastArchived s ∧
    take k (map readMessage jl) `suffix_of` map readMessage bl ∧
    ∀ k', (k < k' ≤ length jl)%nat → (k' ≤ length bl)%nat → allSame (drop (length bl - k') (map entryOf bl)) (map entryOf jl) = false.
Proof.
  intros Hs Hj. pose proof (fromLines_entries _ _ Hs) as Es. pose proof (fromLines_entries _ _ Hj) as Ej. unfold mergeJournal, overlap. rewrite Es, Ej.
  destruct Hs as (Hs1 & Hs2 & Hs3), Hj as (Hj1 & Hj2 & Hj3). rewrite Hs1, Hj1, !length_map.
  destruct (overlapFrom_spec (length jl `min` length bl) (map entryOf bl) (map entryOf jl)) as (Hk & Hsame & Hmax). rewrite length_map in *.
  set (k := overlapFrom _ _ _) in *. exists k. split; [lia|]. split; [|split; [by case_match|split]].
  - case_match eqn:E; apply Nat.ltb_lt in E || apply Nat.ltb_ge in E.
    + unfold fromLines. cbn. rewrite Hs2, Hs3, Hj2, Hj3, !map_app. by rewrite !skipn_map.
    + unfold fromLines. rewrite Hs1, Hs2, Hs3. replace k with (length jl) by lia. by rewrite drop_all, app_nil_r.
  - exists (take (length bl - k) (map readMessage bl)). rewrite <- (take_drop (length bl - k) (map readMessage bl)) at 1. f_equal.
    rewrite skipn_map in Hsame. apply allSame_messages in Hsame; rewrite length_drop in *; [|lia]. rewrite skipn_map. etrans; [exact Hsame|]. f_equal. lia.
  - intros k' H1 H2. apply Hmax. lia.
Qed.

(** The messages of a load, in terms of the lines of the two files. *)
Lemma loadFiles_lines key now file journal :
  let bl := fileLines file in let jl := fileLines (fst <$> journal) in
  ∃ k, (k ≤ length jl)%nat ∧ fromLines (bl ++ drop k jl) (loadFiles key now file journal) ∧
    take k (map readMessage jl) `suffix_of` map readMessage bl ∧
    ∀ k', (k < k' ≤ length jl)%nat → (k' ≤ length bl)%nat → allSame (drop (length bl - k') (map entryOf bl)) (map entryOf jl) = false.
Proof.
  cbn zeta. unfold loadFiles, resetArchived. set (s0 := match file with Some _ => _ | None => _ end).
  assert (fromLines (fileLines file) s0) as H0 by (subst s0; destruct file as [data|]; [apply consume_new|done]).
  destruct journal as [[data mtime]|]; cbn [fmap option_fmap option_map fst].
  - destruct (mergeJournal_lines _ _ _ _ H0 (consume_new key now data)) as (k & Hk & Hl & _ & Hsuf & Hmax). exists k. split_and!; [done| |done|done].
    destruct Hl as (H1 & H2 & H3). by destruct mtime; case_match.
  - exists 0%nat. cbn [fileLines]. rewrite drop_nil, app_nil_r. destruct H0 as (H1 & H2 & H3). split_and!; [done|by case_match|apply suffix_nil|cbn; lia].
Qed.

(** C35. Replaying the journal: what is loaded starts with the messages of the file and
    ends with the messages of the journal, whatever the two files hold, so every message
    of either is there and in its order.  When the messages are distinct and the journal
    begins where the file ends, as after a save that could not remove the journal, or
    does not touch it, each message is there exactly once. *)
Theorem journal_replayed key now file journal mtime :
  let B := map readMessage (recordLines file) in let J := map readMessage (recordLines journal) in
  let M := s_messages (loadFiles key now (Some file) (Some (journal, mtime))) in
  B `prefix_of` M ∧ J `suffix_of` M ∧
  ∀ X Y Z, recordLines file = X ++ Y → recordLines journal = Y ++ Z → NoDup (map readMessage (X ++ Y ++ Z)) → M = map readMessage (X ++ Y ++ Z).
Proof.
  cbn zeta. destruct (loadFiles_lines key now (Some file) (Some (journal, mtime))) as (k & Hk & (-> & _ & _) & [P HP] & Hmax). cbn [fileLines fmap option_fmap option_map fst] in *.
  rewrite map_app. split_and!.
  - by eexists.
  - exists P. rewrite HP, <- app_assoc. f_equal. rewrite <- skipn_map. by rewrite take_drop.
  - intros X Y Z HB HJ Hnd. rewrite HB, HJ in *. rewrite map_app, <- app_assoc, <- !map_app. enough (k = length Y) as -> by by rewrite drop_app_length.
    destruct (lt_eq_lt_dec k (length Y)) as [[Hlt|]|Hgt]; [|done|].
    + exfalso. specialize (Hmax (length Y) ltac:(rewrite length_app; lia) ltac:(rewrite length_app; lia)).
      rewrite length_app, Nat.add_sub, !map_app in Hmax. rewrite <- (length_map entryOf X) in Hmax. rewrite drop_app_length in Hmax. by rewrite allSame_refl in Hmax.
    + exfalso. rewrite length_app in Hk. destruct Z as [|z Z]; [cbn in Hk; lia|].
      assert (readMessage z ∈ take k (map readMessage (Y ++ z :: Z))) as Hz.
      { apply list_elem_of_lookup. exists (length Y). rewrite lookup_take_lt by done. rewrite <- (length_map readMessage Y), map_app. cbn [map]. by rewrite list_lookup_middle. }
      assert (readMessage z ∈ map readMessage (X ++ Y)) as Hz2 by (rewrite HP; apply elem_of_app; by right).
      rewrite app_assoc, map_app in Hnd. apply NoDup_app in Hnd as (_ & Hd & _). apply (Hd _ Hz2). cbn. by left.
Qed.

Lemma stored_loaded key now file journal m :
  m ∈ map readMessage (fileLines file) ++ map readMessage (fileLines (fst <$> journal)) → m ∈ s_messages (loadFiles key now file journal).
Proof.
  destruct (loadFiles_lines key now file journal) as (k & Hk & (-> & _ & _) & [P HP] & _). rewrite map_app. intros [Hm|Hm]%elem_of_app; [apply elem_of_app; by left|].
  set (jl := fileLines (fst <$> journal)) in *. rewrite <- (take_drop k jl), map_app in Hm. apply elem_of_app in Hm as [Hm|Hm]; apply elem_of_app; [left|by right].
  rewrite HP. apply elem_of_app. right. by rewrite <- firstn_map in Hm.
Qed.
End Journal.

(** ** A concrete journal *)

#[local] Instance fixedTime : TimeLib := {| localSeconds := λ _, "2026-01-01T00:00:00"; zonedSeconds := λ _ _, "2026-01-01T00:00:00"; parseZoned := λ _ _, None; parseLocal := λ _ _, None |}.
Definition demoLine (text : string) : string := dq ("{'role': 'user', 'content': '" +:+ text +:+ "'}").

(** A save that could not remove the journal, after which one message more was appended. *)
Lemma journal_replayed_witness :
  s_messages (loadFiles "k" 0 (Some (fileOf [demoLine "a"; demoLine "b"])) (Some (fileOf [demoLine "b"; demoLine "c"], None))) = map readMessage [demoLine "a"; demoLine "b"; demoLine "c"].
Proof.
  apply (proj2 (proj2 (journal_replayed "k" 0 (fileOf [demoLine "a"; demoLine "b"]) (fileOf [demoLine "b"; demoLine "c"]) None)) [demoLine "a"] [demoLine "b"] [demoLine "c"]);
    [vm_compute; reflexivity|vm_compute; reflexivity|].
  apply NoDup_ListNoDup. repeat constructor; vm_compute; intros Hx; repeat (destruct Hx as [Hx|Hx]; [discriminate|]); exact Hx.
Defined.
