(* ===== verification/SessionStoreFacts.v ===== *)
(** * What the session store guarantees

    [disk] is what the two files of each key hold.  An operation of the store leaves the
    files of other keys alone, and of its own changes one file at a time; what
    [saveLocked], [AppendMessagesDurable] and [Open] may leave behind, whatever system call
    fails or is the last one before a crash, is listed in their [_cases] lemmas.  From
    these follows that an acknowledged message is never lost. *)

From Stdlib Require Import Ascii.
From S2P Require Import Prelude GoText GoLib PyFloat GoFmt Core GoJson PyJson Governance Response Provider SessionText Session SessionKeys SessionCodec SessionRecords SessionFacts SessionFiles SessionStore.
#[local] Open Scope string_scope.
#[local] Open Scope list_scope.
#[local] Open Scope Z_scope.

(** ** Names *)

Lemma StorageKey_dot k : ContainsByte (StorageKey k) "." = false.
Proof.
  unfold StorageKey. induction (sextets_range k) as [|v vs Hv _ IH]; [done|]. cbn [text foldr ContainsByte]. fold (text vs). rewrite IH, orb_false_r.
  apply Ascii.eqb_neq. intros E. destruct (b64_char v Hv) as [Hc _]. rewrite E in Hc. discriminate.
Qed.

Lemma dotted_cut k suffix : cutByte (StorageKey k +:+ String "." suffix) "." = Some (StorageKey k, suffix).
Proof. apply cutByte_app, StorageKey_dot. Qed.

Lemma dotted_inj k k' s s' : StorageKey k +:+ String "." s = StorageKey k' +:+ String "." s' → k = k' ∧ s = s'.
Proof. intros E. pose proof (dotted_cut k s) as H. rewrite E, dotted_cut in H. injection H as H <-. split; [by apply StorageKey_inj|done]. Qed.

Lemma Path_inj k k' : Path k = Path k' → k = k'.
Proof. intros H. by apply (dotted_inj k k' "jsonl" "jsonl") in H as [H _]. Qed.
Lemma journalPath_inj k k' : journalPath k = journalPath k' → k = k'.
Proof. intros H. by apply (dotted_inj k k' "journal.jsonl" "journal.jsonl") in H as [H _]. Qed.
Lemma Path_journal k k' : Path k ≠ journalPath k'.
Proof. intros H. by apply (dotted_inj k k' "jsonl" "journal.jsonl") in H as [_ H]. Qed.
Lemma Path_checkpoint k k' : Path k ≠ checkpointPath k'.
Proof. intros H. by apply (dotted_inj k k' "jsonl" "checkpoint.json") in H as [_ H]. Qed.
Lemma journal_checkpoint k k' : journalPath k ≠ checkpointPath k'.
Proof. intros H. by apply (dotted_inj k k' "journal.jsonl" "checkpoint.json") in H as [_ H]. Qed.

Lemma tmp_dotted hex k n : tmpName hex (Path k) n = String "." (StorageKey k +:+ String "." ("jsonl." +:+ hex n +:+ ".tmp")).
Proof. unfold tmpName, Path, sessionSuffix. rewrite <- !sapp_assoc. reflexivity. Qed.

Lemma tmp_path hex k n k' : tmpName hex (Path k) n ≠ Path k' ∧ tmpName hex (Path k) n ≠ journalPath k'.
Proof.
  rewrite tmp_dotted.
  split; intros E; apply (f_equal (λ s, cutByte s ".")) in E; [change (Path k') with (StorageKey k' +:+ String "." "jsonl") in E|change (journalPath k') with (StorageKey k' +:+ String "." "journal.jsonl") in E];
    rewrite dotted_cut in E; cbn [cutByte] in E; change (Ascii.eqb "." ".") with true in E; cbn match in E; injection E as _ E; apply (f_equal (λ s, cutByte s ".")) in E; rewrite dotted_cut in E; [done|].
  change (cutByte "journal.jsonl" ".") with (Some ("journal", "jsonl")) in E. discriminate.
Qed.

(** ** Computations *)

Definition disk (w : World) (k : string) : option string * option string := (f_data <$> w_files w !! Path k, f_data <$> w_files w !! journalPath k).

(** The files of the sessions and the memory are as they were. *)
Definition kept (w w' : World) : Prop := w_store w' = w_store w ∧ ∀ k, disk w' k = disk w k.

Lemma kept_refl w : kept w w.
Proof. done. Qed.
Lemma kept_trans w1 w2 w3 : kept w1 w2 → kept w2 w3 → kept w1 w3.
Proof. intros [H1 H2] [H3 H4]. split; [congruence|]. intros k. by rewrite H4, H2. Qed.

Definition keeps {A} (m : IO A) : Prop := ∀ w, kept w (m w).2.

Lemma keeps_ret {A} (a : A) : keeps (ret a).
Proof. done. Qed.
Lemma keeps_fail {A} : keeps (@fail A).
Proof. done. Qed.
Lemma keeps_bind {A B} (m : IO A) (k : A → IO B) : keeps m → (∀ a, keeps (k a)) → keeps (bind m k).
Proof. intros Hm Hk w. unfold bind. specialize (Hm w). destruct (m w) as [[a| |] w1]; cbn in *; [|done|done]. eapply kept_trans; [done|apply Hk]. Qed.
Lemma keeps_attempt {A} (m : IO A) : keeps m → keeps (attempt m).
Proof. intros Hm w. unfold attempt. specialize (Hm w). by destruct (m w) as [[a| |] w1]. Qed.

(** [Q] holds of the result and of the world afterwards. *)
Definition wp {A} (m : IO A) (Q : res A → World → Prop) (w : World) : Prop := Q (m w).1 (m w).2.

Lemma wp_bind {A B} (m : IO A) (k : A → IO B) Q w :
  wp m (λ r w', match r with Ok a => wp (k a) Q w' | Err => Q Err w' | Crashed => Q Crashed w' end) w → wp (bind m k) Q w.
Proof. unfold wp, bind. by destruct (m w) as [[a| |] w1]. Qed.

Lemma wp_keeps {A} (m : IO A) Q w : keeps m → (∀ r w', kept w w' → Q r w') → wp m Q w.
Proof. intros Hm HQ. apply HQ, Hm. Qed.

(** A step that keeps everything, then the rest. *)
Lemma wp_then {A B} (m : IO A) (k : A → IO B) Q w : keeps m →
  (∀ w', kept w w' → Q Err w' ∧ Q Crashed w') → (∀ a w', kept w w' → wp (k a) Q w') → wp (bind m k) Q w.
Proof. intros Hm He Hk. apply wp_bind, wp_keeps; [done|]. intros [a| |] w' Hw'; [by apply Hk|apply He, Hw'|apply He, Hw']. Qed.

Lemma wp_mono {A} (m : IO A) (P Q : res A → World → Prop) w : wp m P w → (∀ r w', P r w' → Q r w') → wp m Q w.
Proof. unfold wp. auto. Qed.

Create HintDb keeps.
#[export] Hint Resolve keeps_ret keeps_fail keeps_bind keeps_attempt : keeps.

Section Calls.
Context (weather : nat → syscall → outcome) (clock : nat → Z) (randomHex : nat → string).

Lemma keeps_call c : keeps (call weather c).
Proof. done. Qed.
Lemma keeps_now : keeps (now clock).
Proof. done. Qed.
Lemma keeps_lookup path : keeps (lookupFile path).
Proof. done. Qed.
Lemma keeps_sys c : keeps (sys weather c).
Proof. apply keeps_bind; [apply keeps_call|]. by intros []. Qed.
Lemma keeps_stat path : keeps (stat weather path).
Proof. apply keeps_bind; [apply keeps_sys|done]. Qed.
Lemma keeps_ReadFile path : keeps (ReadFile weather path).
Proof. apply keeps_bind; [apply keeps_sys|]. intros []. by apply keeps_bind. Qed.

(** A change of a file that is not one of a session. *)
Lemma keeps_files f : (∀ fs k, f fs !! Path k = fs !! Path k ∧ f fs !! journalPath k = fs !! journalPath k) → keeps (files f).
Proof. intros Hf w. split; [done|]. intros k. unfold disk. cbn. by destruct (Hf (w_files w) k) as [-> ->]. Qed.

Lemma keeps_checkpoint k : keeps (files (delete (checkpointPath k))).
Proof. apply keeps_files. intros fs k'. split; apply lookup_delete_ne; apply not_eq_sym; [apply Path_checkpoint|apply journal_checkpoint]. Qed.
Lemma keeps_tmp_insert k n f : keeps (files <[tmpName randomHex (Path k) n := f]>).
Proof. apply keeps_files. intros fs k'. split; apply lookup_insert_ne; apply tmp_path. Qed.
Lemma keeps_tmp_delete k n : keeps (files (delete (tmpName randomHex (Path k) n))).
Proof. apply keeps_files. intros fs k'. split; apply lookup_delete_ne; apply tmp_path. Qed.
End Calls.

#[export] Hint Resolve keeps_call keeps_now keeps_lookup keeps_sys keeps_stat keeps_ReadFile keeps_checkpoint keeps_tmp_insert keeps_tmp_delete : keeps.
#[export] Hint Extern 1 (keeps (λ w, (_, w))) => intros ?; exact (kept_refl _) : keeps.

(** ** What an operation leaves behind *)

Section Cases.
Context `{TimeLib} (weather : nat → syscall → outcome) (clock : nat → Z) (randomHex : nat → string).

(** The files of [key] are [d], those of other keys as they were. *)
Definition wrote (key : string) (d : option string * option string) (w w' : World) : Prop :=
  ∀ k, disk w' k = if decide (k = key) then d else disk w k.

Lemma wrote_self key w w' : (∀ k, disk w' k = disk w k) → wrote key (disk w key) w w'.
Proof. intros Hd k. rewrite Hd. by destruct (decide _) as [->|]. Qed.

Lemma wrote_kept key d w w1 w2 : wrote key d w w1 → kept w1 w2 → wrote key d w w2.
Proof. intros H1 [_ H2] k. by rewrite H2, H1. Qed.

Lemma keeps_cleanup {A} key n : keeps (@cleanup weather A (tmpName randomHex (Path key) n)).
Proof. unfold cleanup. auto 8 with keeps. Qed.

Lemma keeps_orCleanup key n c : keeps (orCleanup weather (tmpName randomHex (Path key) n) c).
Proof. unfold orCleanup. apply keeps_bind; [auto with keeps|]. intros []; [auto with keeps|apply keeps_cleanup]. Qed.

(** The file is replaced as a whole or not at all. *)
Lemma writeAtomic_cases key data w :
  wp (writeAtomic weather clock randomHex (Path key) data)
    (λ r w', w_store w' = w_store w ∧ match r with Ok _ => wrote key (Some data, (disk w key).2) w w' | _ => ∀ k, disk w' k = disk w k end) w.
Proof.
  unfold writeAtomic. set (Q := λ (r : res ()) w', _). assert (∀ w', kept w w' → Q Err w' ∧ Q Crashed w') as HQ by (intros w' [? ?]; by split).
  apply wp_then; [auto with keeps|auto|]. intros n w1 H1. cbn zeta. apply wp_then; [auto with keeps|intros; eapply HQ, kept_trans; eauto|]. intros _ w2 H2%(kept_trans _ _ _ H1).
  apply wp_then; [auto with keeps|intros; eapply HQ, kept_trans; eauto|]. intros there w3 H3%(kept_trans _ _ _ H2). destruct (isSome there); [by apply HQ|].
  apply wp_then; [auto with keeps|intros; eapply HQ, kept_trans; eauto|]. intros t w4 H4%(kept_trans _ _ _ H3).
  apply wp_then; [auto with keeps|intros; eapply HQ, kept_trans; eauto|]. intros _ w5 H5%(kept_trans _ _ _ H4).
  apply wp_then; [auto with keeps|intros; eapply HQ, kept_trans; eauto|]. intros o w6 H6%(kept_trans _ _ _ H5).
  apply wp_then; [destruct o; [auto with keeps|apply keeps_bind; [auto with keeps|intros; apply keeps_cleanup]|apply keeps_bind; [auto with keeps|done]]|intros; eapply HQ, kept_trans; eauto|].
  intros _ w7 H7%(kept_trans _ _ _ H6). apply wp_then; [apply keeps_orCleanup|intros; eapply HQ, kept_trans; eauto|]. intros _ w8 H8%(kept_trans _ _ _ H7).
  apply wp_then; [apply keeps_orCleanup|intros; eapply HQ, kept_trans; eauto|]. intros _ w9 [Hs Hd]%(kept_trans _ _ _ H8).
  unfold wp, Q. cbn. split; [done|]. intros k. unfold disk in *. cbn. destruct (tmp_path randomHex key n k) as [T1 T2]. destruct (decide (k = key)) as [->|Hk].
  - rewrite lookup_insert_eq, lookup_insert_ne, lookup_delete_ne by (done || apply Path_journal). cbn. f_equal. exact (f_equal snd (Hd key)).
  - rewrite !lookup_insert_ne, !lookup_delete_ne by (done || (intros E; apply Path_inj in E; congruence) || apply Path_journal). apply Hd.
Qed.

(** The entry of the key, if there is one, is this session; other entries are old. *)
Definition cached (key : string) (h : nat) (st st' : Store) : Prop :=
  ∀ k c, st_cache st' !! k = Some c → if decide (k = key) then cs_sess c = h else st_cache st !! k = Some c.

Definition recached (key : string) (h : nat) (st st' : Store) : Prop := cached key h st st' ∨ st_cache st' = st_cache st.

Lemma rememberSession_cached key h info journalInfo st : let st' := rememberSession key h info journalInfo st in st_heap st' = st_heap st ∧ cached key h st st'.
Proof.
  cbn zeta. split; [done|]. intros k c. unfold rememberSession. cbn. destruct (decide (k = key)) as [->|Hk]; [rewrite lookup_insert_eq; by intros [= <-]|].
  rewrite lookup_insert_ne by done. intros Hc. case_match; [|done]. by apply lookup_delete_Some in Hc as [_ ?].
Qed.

Lemma forgetSession_cached key h st : let st' := forgetSession key st in st_heap st' = st_heap st ∧ cached key h st st'.
Proof. cbn zeta. split; [done|]. intros k c Hc. cbn in Hc. apply lookup_delete_Some in Hc as [Hne ?]. by destruct (decide (k = key)). Qed.

Lemma rememberCurrent_cases key h w :
  wp (rememberCurrent weather key h) (λ r w', (∀ k, disk w' k = disk w k) ∧ st_heap (w_store w') = st_heap (w_store w) ∧ recached key h (w_store w) (w_store w')) w.
Proof.
  unfold rememberCurrent. apply wp_bind. unfold wp at 1. pose proof (keeps_attempt _ (keeps_stat weather (Path key)) w) as K1. unfold attempt in *. destruct (stat weather (Path key) w) as [[info| |] w1]; cbn in K1 |- *.
  - apply wp_bind. unfold wp at 1. pose proof (keeps_attempt _ (keeps_stat weather (journalPath key)) w1) as K2. unfold attempt in *. destruct (stat weather (journalPath key) w1) as [[ji| |] w2]; cbn in K2 |- *;
      pose proof (kept_trans _ _ _ K1 K2) as [Ks Kd]; unfold wp; cbn; rewrite Ks; (split; [done|]).
    + destruct (rememberSession_cached key h info ji (w_store w)). split; [done|by left].
    + destruct (forgetSession_cached key h (w_store w)). split; [done|by left].
    + split; [done|by right].
  - destruct K1 as [Ks Kd]. unfold wp; cbn. rewrite Ks. split; [done|]. destruct (forgetSession_cached key h (w_store w)). split; [done|by left].
  - destruct K1 as [Ks Kd]. rewrite Ks. split; [done|]. split; [done|by right].
Qed.

Lemma alter_at {A} (f : A → A) h (l : list A) x : l !! h = Some x → alter f h l = <[h := f x]> l.
Proof. revert h. induction l as [|y l IH]; intros [|h] Hx; [done..|by injection Hx as ->|]. cbn. f_equal. by apply IH. Qed.

Lemma keeps_Remove_checkpoint key : keeps (Remove weather (checkpointPath key)).
Proof. apply keeps_bind; auto with keeps. Qed.

(** A save leaves both files as they were, or has replaced the file of records, and
    perhaps removed the journal; it succeeds only when it has done both. *)
Lemma saveLocked_cases h s w : st_heap (w_store w) !! h = Some s →
  wp (saveLocked weather clock randomHex h) (λ r w',
    (r ≠ Ok () ∧ kept w w') ∨
    ∃ data, renderSession s = Some data ∧
      ((r ≠ Ok () ∧ w_store w' = w_store w ∧ wrote (s_key s) (Some data, (disk w (s_key s)).2) w w') ∨
       (wrote (s_key s) (Some data, None) w w' ∧ st_heap (w_store w') = <[h := with_journalSize 0 s]> (st_heap (w_store w)) ∧ recached (s_key s) h (w_store w) (w_store w')))) w.
Proof.
  intros Hh. unfold saveLocked. apply wp_bind. unfold wp at 1, deref. rewrite Hh. cbn [fst snd]. destruct (renderSession s) as [data|] eqn:Er; [|left; split; [done|apply kept_refl]].
  apply wp_bind. eapply wp_mono; [apply writeAtomic_cases|]. intros [[]| |] w1 [Hs1 Hw1]; [|left; split; [discriminate|by split]..]. set (key := s_key s) in *.
  assert (∀ r w', r ≠ Ok () → kept w1 w' → (r ≠ Ok () ∧ kept w w') ∨ ∃ data', Some data = Some data' ∧
    ((r ≠ Ok () ∧ w_store w' = w_store w ∧ wrote key (Some data', (disk w key).2) w w') ∨
     (wrote key (Some data', None) w w' ∧ st_heap (w_store w') = <[h := with_journalSize 0 s]> (st_heap (w_store w)) ∧ recached key h (w_store w) (w_store w')))) as Hmid.
  { intros r w' Hr K. right. exists data. split; [done|]. left. split_and!; [done|destruct K; congruence|by eapply wrote_kept]. }
  apply wp_then; [apply keeps_Remove_checkpoint|intros w' K; split; by apply Hmid|]. intros _ w2 K2. unfold Remove. apply wp_bind. apply wp_then; [auto with keeps|intros w' K; split; (apply Hmid; [done|by eapply kept_trans])|].
  intros _ w3 K3%(kept_trans _ _ _ K2). unfold wp at 1. cbn. apply wp_bind. unfold wp at 1. cbn.
  assert (wrote key (Some data, None) w (with_files (delete (journalPath key)) w3)) as Hw.
  { intros k. pose proof (wrote_kept _ _ _ _ _ Hw1 K3 k) as Hd. unfold disk in *. cbn in *. rewrite lookup_delete_ne by apply not_eq_sym, Path_journal. destruct (decide (k = key)) as [->|Hk].
    - rewrite lookup_delete_eq. cbn. f_equal. by apply (f_equal fst) in Hd.
    - rewrite lookup_delete_ne by (intros E; by apply journalPath_inj in E). done. }
  eapply wp_mono; [apply rememberCurrent_cases|]. intros r w' (Hd & Hheap & Hc). right. exists data. split; [done|]. right. destruct K3 as [Ks3 _]. cbn in *. split_and!.
  - intros k. rewrite Hd. apply Hw.
  - rewrite Hheap, Ks3, Hs1. by apply alter_at.
  - unfold recached, cached in *. cbn in Hc. by rewrite Ks3, Hs1 in Hc.
Qed.

(** *** Loading *)

(** The same transcript under the same key. *)
Definition sameTranscript (s s' : Session) : Prop :=
  s_key s' = s_key s ∧ s_messages s' = s_messages s ∧ s_snapshots s' = s_snapshots s ∧ s_rawLines s' = s_rawLines s.

Lemma overlayCheckpoint_same data s s' : overlayCheckpoint data s = Some s' → sameTranscript s s'.
Proof.
  unfold overlayCheckpoint. repeat (intros [? [_ Hx]]%bind_Some; revert Hx). destruct (_ || _); [done|]. intros [raw [_ Hx]]%bind_Some. apply bind_Some in Hx as [[ck order] [_ Hx]].
  apply bind_Some in Hx as [s1 [H1 [= <-]]]. assert (sameTranscript s s1) as (K & M & S & R) by (repeat case_match; by simplify_eq).
  unfold sameTranscript, setMetaRawLocked, with_meta. destruct (isSome (s_meta s1 !! "runtime_checkpoint")); cbn; by split_and!.
Qed.

Definition gives {A} (P : A → Prop) (w : World) (r : res A) (w' : World) : Prop := kept w w' ∧ match r with Ok a => P a | _ => True end.

Lemma wp_gives_then {A B} (m : IO A) (k : A → IO B) (P : A → Prop) (Q : B → Prop) w0 w :
  kept w0 w → wp m (gives P w) w → (∀ a w', P a → kept w0 w' → wp (k a) (gives Q w0) w') → wp (bind m k) (gives Q w0) w.
Proof.
  intros K0 Hm Hk. apply wp_bind. eapply wp_mono; [exact Hm|]. intros [a| |] w' [K HP]; [apply Hk; [done|]| |]; try (split; [|done]); by eapply kept_trans.
Qed.

Lemma keeps_gives {A} (m : IO A) w : keeps m → wp m (gives (λ _, True) w) w.
Proof. intros Hm. apply wp_keeps; [done|]. intros [] w' K; by split. Qed.

Lemma gives_ret {A} (P : A → Prop) a w0 w : kept w0 w → P a → wp (ret a) (gives P w0) w.
Proof. by split. Qed.

Lemma keeps_discard key : keeps (discardCheckpoint weather (checkpointPath key)).
Proof.
  unfold discardCheckpoint. apply keeps_bind; [auto with keeps|]. intros [[f|]|]; [|done|done]. destruct (f_regular f); [|done].
  apply keeps_bind; [apply keeps_attempt, keeps_Remove_checkpoint|done].
Qed.

Lemma overlay_gives key s w0 w : kept w0 w → wp (overlayCheckpointLocked weather key s) (gives (sameTranscript s) w0) w.
Proof.
  intros K. unfold overlayCheckpointLocked. assert (sameTranscript s s) as Hs by done.
  eapply wp_gives_then; [done|apply keeps_gives; auto with keeps|]. intros [[f|]|] w1 _ K1; [|by apply gives_ret..]. destruct (negb (f_regular f)); [by apply gives_ret|].
  eapply wp_gives_then; [done|apply keeps_gives; auto with keeps|]. intros [[main|]|] w2 _ K2; [|by apply gives_ret..]. destruct (f_mtime f <? f_mtime main).
  { eapply wp_gives_then; [done|apply keeps_gives, keeps_attempt, keeps_Remove_checkpoint|]. intros _ w3 _ K3. by apply gives_ret. }
  assert (∀ w3, kept w0 w3 → wp (bind (discardCheckpoint weather (checkpointPath key)) (λ _, ret s)) (gives (sameTranscript s) w0) w3) as Hd.
  { intros w3 K3. eapply wp_gives_then; [done|apply keeps_gives, keeps_discard|]. intros _ w4 _ K4. by apply gives_ret. }
  eapply wp_gives_then; [done|apply keeps_gives; auto with keeps|]. intros [[data|]|] w3 _ K3; [|by apply Hd..].
  destruct (overlayCheckpoint data s) as [s'|] eqn:E; [|by apply Hd]. apply gives_ret; [done|by eapply overlayCheckpoint_same].
Qed.

(** The messages on the disk. *)
Definition stored (d : option string * option string) : list Message := map readMessage (fileLines d.1) ++ map readMessage (fileLines d.2).

(** A session as it is after a load. *)
Definition loaded (key : string) (d : option string * option string) (s : Session) : Prop :=
  s_key s = key ∧ ∃ lines, fromLines lines s ∧ Forall (λ line, okRecord line = true) lines ∧ ∀ a, a ∈ stored d → a ∈ map readMessage lines.

Lemma consumeRecords_key data s : s_key (consumeRecords data s) = s_key s.
Proof.
  unfold consumeRecords. generalize (splitLines data). intros lines. revert s. induction lines as [|line lines IH]; intros s; [done|]. cbn [foldl]. rewrite IH.
  unfold consumeLine, applyMetadataRecord, resetMeta, applyProviderStateRecord, appendMessageRecord. repeat case_match; done.
Qed.

Lemma loadFiles_loaded key t file journal : loaded key (file, fst <$> journal) (loadFiles key t file journal).
Proof.
  split.
  - unfold loadFiles, resetArchived, mergeJournal. repeat case_match; cbn; rewrite ?consumeRecords_key; done.
  - destruct (loadFiles_lines key t file journal) as (k & _ & Hl & _ & _). eexists. split; [exact Hl|]. split.
    + apply Forall_app. split; [|apply Forall_drop]; (destruct file, journal; cbn; first [apply recordLines_ok|constructor]).
    + intros a Ha. destruct Hl as (<- & _). by apply stored_loaded.
Qed.

Lemma loaded_same key d s s' : sameTranscript s s' → loaded key d s → loaded key d s'.
Proof. intros (K & M & S & R) [<- (lines & (H1 & H2 & H3) & Hr)]. split; [done|]. exists lines. split; [|done]. unfold fromLines. by rewrite M, S, R. Qed.

Lemma ReadFile_gives path w : wp (ReadFile weather path) (gives (λ v, v = f_data <$> w_files w !! path) w) w.
Proof. unfold wp, ReadFile, sys, bind, call, gives. cbn. destruct (weather (w_calls w) SRead); by repeat split. Qed.

Lemma loadLocked_gives key w0 w : kept w0 w → wp (loadLocked weather clock key) (gives (loaded key (disk w0 key)) w0) w.
Proof.
  intros K. unfold loadLocked. eapply wp_gives_then; [done|apply keeps_gives; auto with keeps|]. intros t w1 _ K1.
  eapply wp_gives_then; [done|apply ReadFile_gives|]. intros file w2 Hf K2. assert (file = (disk w0 key).1) as -> by (destruct K1 as [_ <-]; done).
  eapply wp_gives_then; [done|apply ReadFile_gives|]. intros data w3 Hd K3. assert (data = (disk w0 key).2) as -> by (destruct K2 as [_ <-]; done).
  eapply (wp_gives_then _ _ (λ journal, fst <$> journal = (disk w0 key).2)); [done| |].
  { destruct (disk w0 key).2 as [data|]; [|by apply gives_ret]. eapply wp_gives_then; [done|apply keeps_gives; auto with keeps|]. intros _ w4 _ K4.
    eapply wp_gives_then; [done|apply keeps_gives; auto with keeps|]. intros info w5 _ K5. by apply gives_ret. }
  intros journal w4 Hj K4. cbn zeta. pose proof (loadFiles_loaded key t (disk w0 key).1 journal) as Hl. rewrite Hj, <- surjective_pairing in Hl.
  eapply wp_gives_then; [done|apply keeps_gives; auto with keeps|]. intros there w5 _ K5. case_match; [|by apply gives_ret].
  eapply wp_mono; [by apply overlay_gives|]. intros [s'| |] w' [Kw Hs]; split; [done| |done|done|done|done]. by eapply loaded_same.
Qed.

Lemma cachedSession_hit key info ji st h st' : cachedSession_ key info ji st = (Some h, st') →
  st_heap st' = st_heap st ∧ (∃ c, st_cache st !! key = Some c ∧ cs_sess c = h) ∧ cached key h st st'.
Proof.
  unfold cachedSession_. destruct (st_cache st !! key) as [c|] eqn:E; [|done]. repeat (case_match; [done|]). intros [= <- <-]. split_and!; [done|eauto|].
  intros k c' Hc. cbn in Hc. destruct (decide (k = key)) as [->|]; [rewrite lookup_insert_eq in Hc; by injection Hc as <-|]. by rewrite lookup_insert_ne in Hc.
Qed.

Lemma cachedSession_miss key info ji st st' : cachedSession_ key info ji st = (None, st') → st_heap st' = st_heap st ∧ ∀ k c, st_cache st' !! k = Some c → st_cache st !! k = Some c.
Proof.
  unfold cachedSession_. repeat case_match; intros [= <-]; (split; [done|]); try done; intros k c' Hc; cbn in Hc; by apply lookup_delete_Some in Hc as [_ ?].
Qed.

(** Opening a session returns the one in the cache, or one read from the files. *)
Lemma Open_cases key w :
  wp (Open weather clock key) (λ r w', (∀ k, disk w' k = disk w k) ∧
    match r with
    | Ok h => cached key h (w_store w) (w_store w') ∧
        ((st_heap (w_store w') = st_heap (w_store w) ∧ ∃ c, st_cache (w_store w) !! key = Some c ∧ cs_sess c = h) ∨
         (h = length (st_heap (w_store w)) ∧ ∃ s, st_heap (w_store w') = st_heap (w_store w) ++ [s] ∧ loaded key (disk w key) s))
    | _ => st_heap (w_store w') = st_heap (w_store w) ∧ ∀ k c, st_cache (w_store w') !! k = Some c → st_cache (w_store w) !! k = Some c
    end) w.
Proof.
  unfold Open, withLock. set (Q := λ (r : res nat) w', _). assert (∀ w', kept w w' → Q Err w' ∧ Q Crashed w') as HQ by (intros w' [Hs Hd]; unfold Q; by rewrite Hs).
  apply wp_then; [auto with keeps|auto|]. intros _ w1 K1. apply wp_then; [auto with keeps|intros; eapply HQ, kept_trans; eauto|]. intros info w2 K2%(kept_trans _ _ _ K1).
  apply wp_then; [auto with keeps|intros; eapply HQ, kept_trans; eauto|]. intros ck w3 K3%(kept_trans _ _ _ K2). apply wp_then; [auto with keeps|intros; eapply HQ, kept_trans; eauto|].
  intros ji w4 K4%(kept_trans _ _ _ K3). destruct K4 as [Ks Kd].
  assert (∀ w5, (∀ k, disk w5 k = disk w k) → st_heap (w_store w5) = st_heap (w_store w) → (∀ k c, st_cache (w_store w5) !! k = Some c → st_cache (w_store w) !! k = Some c) →
    wp (bind (loadLocked weather clock key) (λ s, bind (allocate s) (λ h, bind (memory (rememberSession key h info ji)) (λ _, ret h)))) Q w5) as Hload.
  { intros w5 Hd5 Hh5 Hc5. apply wp_bind. eapply wp_mono; [apply (loadLocked_gives key w5 w5 (kept_refl _))|]. intros [s| |] w6 [[Ks6 Kd6] Hl].
    2,3: unfold Q; rewrite Ks6; split; [intros k; by rewrite Kd6|done].
    unfold wp, Q. cbn. rewrite Ks6. split; [intros k; etrans; [apply Kd6|apply Hd5]|]. split.
    - intros k c Hc. destruct (rememberSession_cached key (length (st_heap (w_store w5))) info ji (mkStore (st_heap (w_store w5) ++ [s]) (st_cache (w_store w5)) (st_cacheSeq (w_store w5)))) as [_ Hrem].
      specialize (Hrem k c Hc). destruct (decide (k = key)); [done|by apply Hc5].
    - right. rewrite Hh5. split; [done|]. exists s. split; [done|]. by rewrite <- Hd5. }
  apply wp_bind. unfold wp at 1. destruct ck as [[f|]|]; cbn [fst snd]; [apply Hload; rewrite ?Ks; auto| |apply Hload; rewrite ?Ks; auto].
  rewrite Ks. destruct (cachedSession_ key info ji (w_store w)) as [[h|] st] eqn:E; cbn [fst snd].
  - apply cachedSession_hit in E as (E1 & E2 & E3). unfold wp, Q. cbn. split; [apply Kd|]. split; [done|by left].
  - apply cachedSession_miss in E as [E1 E2]. by apply Hload.
Qed.
End Cases.
