(* ===== verification/SessionDurable.v ===== *)
(** * Acknowledged messages are not lost

    A process opens sessions, changes them in memory, appends to journals, saves and
    compacts, and may crash and be started again at any system call.  A message counts as
    acknowledged once [AppendMessagesDurable] or [Save] has returned for it.  A crash is
    the death of the process: what its system calls have done stays done.  As long as
    the writes to a journal are all or nothing, every acknowledged message is in what is
    loaded after a restart; messages that are equal in every field are one message here.
    The examples at the end show what the store does not protect against: a loss of power
    (no call of [fsync] is made, as the comments of [writeAtomic] and [Save] say), a torn
    write, a repeated message, a second process, a destructive save that is interrupted,
    and a key that is the name of another session's file. *)

From Stdlib Require Import Ascii.
From S2P Require Import Prelude GoText GoLib PyFloat GoFmt Core GoJson PyJson Governance Response Provider SessionText Session SessionKeys SessionCodec SessionRecords SessionFacts SessionFiles SessionStore SessionStoreFacts.
#[local] Open Scope string_scope.
#[local] Open Scope list_scope.
#[local] Open Scope Z_scope.

(** ** The process *)

(** [y_cur] is the session that is in use for a key; [y_acked] the messages that were
    acknowledged, as they will be read. *)
Record System := mkSystem { y_world : World; y_cur : gmap string nat; y_acked : gmap string (list Message) }.

Inductive action :=
  | AOpen (key : string) | AChange (key : string) (o : op) | AAppend (key : string) (ms : list Message)
  | ASave (key : string) | ACompact (key : string) (minBytes : Z) | ARestart.

(** A change that replaces or removes messages. *)
Definition destructive (o : op) : bool := match o with OSet _ _ | OClear _ => true | _ => false end.

(** How messages will be read whose records are readable. *)
Definition acks (lines : list string) : list Message := map readMessage (List.filter okRecord lines).

Definition acked (y : System) (key : string) : list Message := default [] (y_acked y !! key).
Definition acknowledge (key : string) (ms : list Message) (a : gmap string (list Message)) : gmap string (list Message) := <[key := default [] (a !! key) ++ ms]> a.

Definition restart (w : World) : World := with_store (λ _, emptyStore) w.

Section Process.
Context `{TimeLib} (weather : nat → syscall → outcome) (clock : nat → Z) (randomHex : nat → string).

Definition sessionAt (w : World) (h : nat) : Session := default (newSession localSeconds "" 0) (st_heap (w_store w) !! h).

(** The outcome of an operation on the session in use; [ack] is what success acknowledges. *)
Definition finish (y : System) (r : res () * World) (ack : World → gmap string (list Message)) : System :=
  match r with
  | (Ok _, w) => mkSystem w (y_cur y) (ack w)
  | (Err, w) => mkSystem w (y_cur y) (y_acked y)
  | (Crashed, w) => mkSystem (restart w) ∅ (y_acked y)
  end.

Definition act (y : System) (a : action) : System :=
  let w := y_world y in
  match a with
  | AOpen key =>
      match Open weather clock key w with
      | (Ok h, w) => mkSystem w (<[key := h]> (y_cur y)) (y_acked y)
      | (Err, w) => mkSystem w (y_cur y) (y_acked y)
      | (Crashed, w) => mkSystem (restart w) ∅ (y_acked y)
      end
  | AChange key o =>
      match y_cur y !! key with
      | None => y
      | Some h => mkSystem (change h o w).2 (y_cur y) (if destructive o then <[key := []]> (y_acked y) else y_acked y)
      end
  | AAppend key ms =>
      match y_cur y !! key with
      | None => y
      | Some h =>
          finish y (AppendMessagesDurable weather clock h ms w) (λ w',
            let new := drop (length (s_messages (sessionAt w h))) (s_messages (sessionAt w' h)) in
            acknowledge key (acks (omap encodeMessage new)) (y_acked y))
      end
  | ASave key =>
      match y_cur y !! key with
      | None => y
      | Some h => finish y (Save weather clock randomHex h w) (λ _, acknowledge key (acks (default [] (messageLines (sessionAt w h)))) (y_acked y))
      end
  | ACompact key minBytes =>
      match y_cur y !! key with
      | None => y
      | Some h => finish y (CompactJournal weather clock randomHex h minBytes w) (λ _, y_acked y)
      end
  | ARestart => mkSystem (restart w) ∅ (y_acked y)
  end.

Definition startWith (fs : gmap string File) : System := mkSystem (mkWorld fs emptyStore 0 0) ∅ ∅.
End Process.

(** ** What memory and disk owe to the acknowledged messages *)

(** A save of the session writes a record that is read as [a]. *)
Definition covers (s : Session) (a : Message) : Prop :=
  ∃ i m line, s_messages s !! i = Some m ∧ messageLine s i m = Some line ∧ okRecord line = true ∧ readMessage line = a.

Lemma messageLines_lookup s lines i line : messageLines s = Some lines → (∃ m, s_messages s !! i = Some m ∧ messageLine s i m = Some line) ↔ lines !! i = Some line.
Proof.
  unfold messageLines. intros Hm%mapM_Some. split.
  - intros (m & Hi & Hl). destruct (Forall2_lookup_l _ _ _ i (i, m) Hm) as (line' & Hline & E); [by rewrite list_lookup_imap, Hi|]. cbn in E. congruence.
  - intros Hi. destruct (Forall2_lookup_r _ _ _ i line Hm Hi) as ([i' m] & Him & E). rewrite list_lookup_imap in Him. destruct (s_messages s !! i) as [m'|] eqn:Es; [|done]. cbn in Him. simplify_eq. eauto.
Qed.

Lemma elem_read line lines : line ∈ lines → readMessage line ∈ map readMessage lines.
Proof. rewrite !list_elem_of_In. apply in_map. Qed.

Lemma render_covers s data a : renderSession s = Some data → covers s a → a ∈ map readMessage (recordLines data).
Proof.
  unfold renderSession. intros (header & _ & (provider & _ & (lines & Hl & Hd)%bind_Some)%bind_Some)%bind_Some (i & m & line & Hi & Hml & Hok & <-).
  apply (inj Some) in Hd as <-. apply elem_read, recordLines_fileOf; [|done]. right. apply elem_of_app. right. apply list_elem_of_lookup. exists i. apply (messageLines_lookup s); eauto.
Qed.

Lemma acks_in lines a : a ∈ acks lines ↔ ∃ line, line ∈ lines ∧ okRecord line = true ∧ readMessage line = a.
Proof.
  unfold acks. rewrite list_elem_of_In, in_map_iff. setoid_rewrite filter_In. split; [intros (line & <- & Hin & Hok)|intros (line & Hin & Hok & <-)]; exists line; split_and!; try done; by apply list_elem_of_In.
Qed.

(** Messages at the end of a session, with what they were read from. *)
Definition extended (ms snaps : list Message) (raws : list (option string)) (s s' : Session) : Prop :=
  s_messages s' = s_messages s ++ ms ∧ s_snapshots s' = s_snapshots s ++ snaps ∧ s_rawLines s' = s_rawLines s ++ raws.

Lemma extended_covers ms snaps raws s s' a : aligned s → extended ms snaps raws s s' → covers s a → covers s' a.
Proof.
  intros [A1 A2] (E1 & E2 & E3) (i & m & line & Hi & Hl & Hok & Ha). assert (i < length (s_messages s))%nat as Hlt by (by eapply lookup_lt_Some).
  exists i, m, line. split_and!; [rewrite E1; by apply lookup_app_l_Some| |done|done]. unfold messageLine. rewrite E2, E3, !lookup_app_l by lia. done.
Qed.

Lemma extended_aligned ms snaps raws s s' : aligned s → extended ms snaps raws s s' → length snaps = length ms → length raws = length ms → aligned s'.
Proof. intros [A1 A2] (E1 & E2 & E3) L1 L2. unfold aligned. rewrite E1, E2, E3, !length_app. lia. Qed.

Section Memory.
Context `{TimeLib}.

Lemma addAll_extended size t ms s : extended ms (map (λ _, zeroMessage) ms) (map (λ _, None) ms) s (addAll size t ms s).
Proof. done. Qed.

Lemma addAll_aligned size t ms s : aligned s → aligned (addAll size t ms s).
Proof. intros Ha. eapply extended_aligned; [done|apply addAll_extended|by rewrite length_map..]. Qed.

(** A new message is written by the next save as it was written to the journal. *)
Lemma addAll_new size t ms s m line : aligned s → m ∈ ms → encodeMessage m = Some line → okRecord line = true → covers (addAll size t ms s) (readMessage line).
Proof.
  intros [A1 A2] [j Hj]%list_elem_of_lookup He Hok. exists (length (s_messages s) + j)%nat, m, line. assert (j < length ms)%nat as Hlt by (by eapply lookup_lt_Some).
  split_and!; [cbn; by rewrite lookup_app_r, Nat.add_comm, Nat.add_sub by lia| |done|done]. unfold messageLine. cbn [addAll with_updated with_journalSize with_messages s_rawLines s_snapshots].
  rewrite <- A2 at 1. rewrite lookup_app_r by lia. replace (length (s_rawLines s) + j - length (s_rawLines s))%nat with j by lia. rewrite list_lookup_fmap. change (map ?f ms !! j) with ((f <$> ms) !! j).
  rewrite ?list_lookup_fmap, Hj. done.
Qed.

Lemma commit_covers now summary at_ active s a : aligned s → covers s a → covers (CommitSummaryCheckpoint localSeconds now summary at_ active s) a.
Proof.
  intros [A1 A2] (i & m & line & Hi & Hl & Hok & Ha). assert (i < length (s_messages s))%nat as Hlt by (by eapply lookup_lt_Some). cbn zeta.
  set (k := insertIndex (default (Z.of_nat (length (s_messages s))) at_) (length (s_messages s))).
  assert (k ≤ length (s_messages s))%nat as Hk by apply insertIndex_le. set (i' := if (i <? k)%nat then i else S i).
  assert (∀ {A} (x : A) l, length l = length (s_messages s) → insertAt k x l !! i' = l !! i) as Hat.
  { intros A x l Hlen. rewrite insertAt_lookup by lia. subst i'. destruct (Nat.ltb_spec i k) as [Hik|Hik]; [by rewrite (proj2 (Nat.ltb_lt i k) Hik)|].
    destruct (Nat.ltb_spec (S i) k); [lia|]. destruct (Nat.eqb_spec (S i) k); [lia|]. f_equal. lia. }
  destruct (commit_fields localSeconds now summary at_ active s) as (E1 & E2 & E3 & _). exists i', m, line. unfold messageLine in *. rewrite E1, E2, E3. fold k. by rewrite !Hat.
Qed.

(** A change that is not destructive keeps what a save would write. *)
Lemma apply_covers o s a : destructive o = false → aligned s → covers s a → covers (apply localSeconds o s) a.
Proof.
  intros Hd Ha Hc. destruct o as [now1 now2 m|i m|now|n|raw|now summary at_ active]; try discriminate; cbn [apply].
  - eapply (extended_covers [stamp localSeconds now1 m] [zeroMessage] [None]); [done|by split_and!|done].
  - destruct Hc as (i & m & line & Hx). by exists i, m, line.
  - destruct Hc as (i & m & line & Hx). by exists i, m, line.
  - by apply commit_covers.
Qed.

Lemma apply_aligned o s : aligned s → aligned (apply localSeconds o s).
Proof.
  intros [A1 A2]. destruct o as [now1 now2 m|i m|now|n|raw|now summary at_ active]; cbn [apply]; unfold aligned.
  - cbn. rewrite !length_app. cbn. lia.
  - unfold SetMessage. case_match; cbn; [done|]. by rewrite !length_insert.
  - done.
  - done.
  - done.
  - destruct (commit_fields localSeconds now summary at_ active s) as (-> & -> & -> & _). rewrite !insertAt_length. lia.
Qed.

Lemma apply_key o s : s_key (apply localSeconds o s) = s_key s.
Proof. destruct o; try done. cbn. unfold SetMessage. by case_match. Qed.

Lemma loaded_covers key d s a : loaded key d s → a ∈ stored d → covers s a.
Proof.
  intros [_ (lines & (H1 & H2 & H3) & Hok & Hin)] Ha. apply Hin in Ha. rewrite list_elem_of_In, in_map_iff in Ha. destruct Ha as (line & <- & Hl). apply list_elem_of_In, list_elem_of_lookup in Hl as [i Hi].
  assert (∀ {B} (f : string → B), map f lines !! i = Some (f line)) as Hm by (intros B f; change (map f lines) with (f <$> lines); by rewrite list_lookup_fmap, Hi).
  exists i, (readMessage line), line. unfold messageLine. rewrite H1, H2, H3, !Hm. cbn. rewrite bool_decide_eq_true_2 by done. rewrite Forall_forall in Hok. split_and!; try done. apply Hok. by eapply list_elem_of_lookup_2.
Qed.

Lemma loaded_aligned key d s : loaded key d s → aligned s.
Proof. intros [_ (lines & (H1 & H2 & H3) & _)]. unfold aligned. by rewrite H1, H2, H3, !length_map. Qed.
End Memory.

(** ** Appending *)

Section Durable.
Context `{TimeLib} (weather : nat → syscall → outcome) (clock : nat → Z) (randomHex : nat → string).

(** A write to a journal that does not succeed writes nothing. *)
Definition noTorn : Prop := ∀ n, match weather n SAppend with Fine => True | Fails k | Crashes k => k = O end.
Context (Htorn : noTorn).

Definition appended (w : World) (key text : string) : option string * option string := ((disk w key).1, Some (default "" (disk w key).2 +:+ text)).

Lemma appendJournal_cases key data w :
  wp (appendJournal weather clock (journalPath key) data) (λ r w', w_store w' = w_store w ∧
    match r with
    | Ok _ => wrote key (appended w key data) w w'
    | _ => (∀ k, disk w' k = disk w k) ∨ ∃ text, (text = "" ∨ text = data) ∧ wrote key (appended w key text) w w'
    end) w.
Proof.
  unfold appendJournal. set (Q := λ (r : res ()) w', _). assert (∀ w', kept w w' → Q Err w' ∧ Q Crashed w') as HQ by (intros w' [? ?]; split; (split; [done|by left])).
  apply wp_then; [auto with keeps|auto|]. intros _ w1 K1. apply wp_then; [auto with keeps|intros; eapply HQ, kept_trans; eauto|]. intros t w2 K2%(kept_trans _ _ _ K1).
  set (write := appendText (journalPath key) t).
  assert (∀ text w', kept w w' → w_store (write text w').2 = w_store w ∧ wrote key (appended w key text) w (write text w').2) as Hwrite.
  { intros text w' [Ks Kd]. split; [done|]. intros k. pose proof (Kd k) as Hk. unfold appended, disk in *. cbn in *. rewrite lookup_insert_ne by apply not_eq_sym, Path_journal. destruct (decide (k = key)) as [->|Hne].
    - rewrite lookup_insert_eq. pose proof (f_equal fst Hk) as H1. pose proof (f_equal snd Hk) as H2. cbn in H1, H2. rewrite H1, <- H2. f_equal. by destruct (w_files w' !! journalPath key).
    - rewrite lookup_insert_ne by (intros E; by apply journalPath_inj in E). done. }
  apply wp_bind. unfold wp at 1. cbn [call fst snd]. set (w3 := mkWorld _ _ _ _). assert (kept w w3) as K3 by (eapply kept_trans; [exact K2|done]).
  assert (∀ w', kept (write "" w3).2 w' → Q Err w' ∧ Q Crashed w') as Hnone.
  { destruct (Hwrite "" w3 K3) as [Hs Hw]. intros w' K. split; (split; [destruct K; congruence|right; exists ""; split; [by left|by eapply wrote_kept]]). }
  pose proof (Htorn (w_calls w2)) as Hn. apply wp_bind. destruct (weather (w_calls w2) SAppend) as [|n|n].
  - destruct (Hwrite data w3 K3) as [Hs Hw]. unfold wp at 1. cbn [fst]. change (write data w3).1 with (@Ok () ()). cbn match. apply wp_keeps; [auto with keeps|].
    intros [[]| |] w' K; (split; [destruct K; congruence|]); [by eapply wrote_kept|right; exists data; split; [by right|by eapply wrote_kept]..].
  - subst n. replace (stake 0 data) with "" by by destruct data. apply wp_bind. unfold wp at 1. change (write "" w3).1 with (@Ok () ()). cbn match.
    apply wp_then; [auto with keeps|by apply Hnone|]. intros _ w' K. by apply Hnone.
  - subst n. replace (stake 0 data) with "" by by destruct data. apply wp_bind. unfold wp at 1. change (write "" w3).1 with (@Ok () ()). cbn match. by apply Hnone.
Qed.

Lemma keeps_stampAll ms : keeps (stampAll clock ms).
Proof.
  induction ms as [|m ms IH]; [done|]. cbn [stampAll]. apply keeps_bind; [destruct (String.eqb _ _); [|done]; apply keeps_bind; [apply keeps_now|done]|].
  intros m'. apply keeps_bind; [done|]. intros ms'. done.
Qed.

(** An append leaves the journal as it was, or longer by all the records or by none; it
    succeeds only when they are there. *)
Lemma AppendMessagesDurable_cases h s ms w : st_heap (w_store w) !! h = Some s →
  wp (AppendMessagesDurable weather clock h ms) (λ r w',
    ((r ≠ Ok () ∨ ms = []) ∧ kept w w') ∨
    ∃ ms' lines, mapM encodeMessage ms' = Some lines ∧
      ((r ≠ Ok () ∧ w_store w' = w_store w ∧ ∃ text, (text = "" ∨ text = fileOf lines) ∧ wrote (s_key s) (appended w (s_key s) text) w w') ∨
       (wrote (s_key s) (appended w (s_key s) (fileOf lines)) w w' ∧
        ∃ t, st_heap (w_store w') = <[h := addAll (Z.of_nat (slen (fileOf lines))) t ms' s]> (st_heap (w_store w)) ∧ recached (s_key s) h (w_store w) (w_store w')))) w.
Proof.
  intros Hh. unfold AppendMessagesDurable. set (Q := λ (r : res ()) w', _). assert (∀ w', kept w w' → Q Err w' ∧ Q Crashed w') as HQ by (intros w' K; split; left; (split; [by left|done])).
  destruct ms as [|m0 ms0] eqn:Em; [left; split; [by right|apply kept_refl]|]. rewrite <- Em in *. apply wp_bind. unfold wp at 1, deref. rewrite Hh. cbn [fst snd].
  apply wp_then; [apply keeps_stampAll|auto|]. intros ms' w1 K1. destruct (mapM encodeMessage ms') as [lines|] eqn:El; [|by apply HQ]. cbn zeta. unfold withLock.
  apply wp_then; [auto with keeps|intros; eapply HQ, kept_trans; eauto|]. intros _ w2 K2%(kept_trans _ _ _ K1). set (key := s_key s) in *. destruct K2 as [Ks2 Kd2].
  assert (∀ text w', wrote key (appended w2 key text) w2 w' → wrote key (appended w key text) w w') as Hw2.
  { intros text w' Hw k. rewrite Hw. unfold appended. rewrite Kd2. destruct (decide _) as [->|]; [done|apply Kd2]. }
  apply wp_bind. eapply wp_mono; [apply appendJournal_cases|]. intros r w3 [Hs3 Hr3]. assert (r ≠ Ok () → Q r w3) as Hfail.
  { intros Hr. assert ((∀ k, disk w3 k = disk w2 k) ∨ ∃ text, (text = "" ∨ text = fileOf lines) ∧ wrote key (appended w2 key text) w2 w3) as [Hd|(text & Ht & Hw)] by (destruct r as [[]| |]; [done|done|done]).
    - left. split; [by left|]. split; [congruence|]. intros k. by rewrite Hd.
    - right. exists ms', lines. split; [done|]. left. split_and!; [done|congruence|]. exists text. split; [done|]. by apply Hw2. }
  destruct r as [[]| |]; [|by apply Hfail..]. apply Hw2 in Hr3. apply wp_bind. unfold wp at 1. cbn [now fst snd]. set (w4 := mkWorld _ _ _ _). apply wp_bind. unfold wp at 1. cbn [memory fst snd].
  eapply wp_mono; [apply rememberCurrent_cases|]. intros r w5 (Hd & Hheap & Hc). right. exists ms', lines. split; [done|]. right. split; [intros k; rewrite Hd; apply Hr3|]. eexists. split.
  - rewrite Hheap. cbn. rewrite Hs3, Ks2. by apply alter_at.
  - unfold recached, cached in *. cbn in Hc. by rewrite Hs3, Ks2 in Hc.
Qed.

(** ** The invariant *)

(** What is on the disk and what is in memory owes to the acknowledged messages. *)
Record Owed (w : World) (cur : gmap string nat) (ack : string → list Message) : Prop := {
  o_closed : ∀ k j, (disk w k).2 = Some j → closed j;
  o_disk : ∀ k a, a ∈ ack k → a ∈ stored (disk w k);
  o_cur : ∀ k h, cur !! k = Some h → ∃ s, st_heap (w_store w) !! h = Some s ∧ s_key s = k ∧ aligned s ∧ ∀ a, a ∈ ack k → covers s a;
  o_cache : ∀ k c, st_cache (w_store w) !! k = Some c → cur !! k = Some (cs_sess c) }.

Lemma owed_restart w cur ack : Owed w cur ack → Owed (restart w) ∅ ack.
Proof. intros [H1 H2 H3 H4]. by constructor. Qed.

Lemma owed_kept w w' cur ack : kept w w' → Owed w cur ack → Owed w' cur ack.
Proof. intros [Ks Kd] [H1 H2 H3 H4]. constructor; rewrite ?Ks; [intros k; rewrite Kd; apply H1|intros k; rewrite Kd; apply H2|done|done]. Qed.

(** An operation on the session of one key. *)
Lemma owed_step key h s s' d w w' cur ack ack' :
  Owed w cur ack → cur !! key = Some h → st_heap (w_store w) !! h = Some s → s_key s = key →
  wrote key d w w' → (∀ j, d.2 = Some j → closed j) → (∀ a, a ∈ ack' key → a ∈ stored d) → (∀ k, k ≠ key → ack' k = ack k) →
  st_heap (w_store w') = <[h := s']> (st_heap (w_store w)) → s_key s' = key → aligned s' → (∀ a, a ∈ ack' key → covers s' a) → recached key h (w_store w) (w_store w') →
  Owed w' cur ack'.
Proof.
  intros [H1 H2 H3 H4] Hcur Hh Hkey Hw Hcl Hst Hack Hheap Hkey' Hal Hcov Hc. constructor.
  - intros k j. rewrite Hw. destruct (decide (k = key)); [apply Hcl|apply H1].
  - intros k a. rewrite Hw. destruct (decide (k = key)) as [->|Hk]; [apply Hst|rewrite Hack by done; apply H2].
  - intros k h2 Hk2. rewrite Hheap. destruct (decide (k = key)) as [->|Hk].
    + rewrite Hcur in Hk2. injection Hk2 as <-. exists s'. rewrite list_lookup_insert_eq by (by eapply lookup_lt_Some). by split_and!.
    + destruct (H3 k h2 Hk2) as (s2 & Hs2 & Hks2 & Ha2 & Hc2). exists s2. rewrite list_lookup_insert_ne by (intros <-; congruence). rewrite Hack by done. by split_and!.
  - intros k c Hkc. destruct Hc as [Hc|Hc]; [|rewrite Hc in Hkc; by apply H4]. specialize (Hc k c Hkc). destruct (decide (k = key)) as [->|]; [by rewrite Hc|by apply H4].
Qed.

Lemma stored_append b j text a : (∀ x, j = Some x → closed x) → a ∈ stored (b, j) → a ∈ stored (b, Some (default "" j +:+ text)).
Proof.
  intros Hj. unfold stored. cbn [fst snd fileLines]. rewrite !elem_of_app. intros [Ha|Ha]; [by left|right]. destruct j as [j|]; [|by apply not_elem_of_nil in Ha]. cbn [fileLines default] in *.
  rewrite recordLines_closed by auto. rewrite map_app. apply elem_of_app. by left.
Qed.

Lemma stored_new b j lines line : (∀ x, j = Some x → closed x) → line ∈ lines → okRecord line = true → readMessage line ∈ stored (b, Some (default "" j +:+ fileOf lines)).
Proof.
  intros Hj Hl Hok. unfold stored. cbn [fst snd fileLines]. apply elem_of_app. right. apply elem_read. rewrite recordLines_closed by (destruct j; [by apply Hj|by left]). apply elem_of_app. right. by apply recordLines_fileOf.
Qed.

Lemma omap_mapM {A B} (f : A → option B) xs ys : mapM f xs = Some ys → omap f xs = ys.
Proof. intros Hm%mapM_Some. induction Hm as [|x y xs ys Hx _ IH]; [done|]. cbn. by rewrite Hx, IH. Qed.

Lemma acknowledged_other y key ms k : k ≠ key → default [] (acknowledge key ms (y_acked y) !! k) = acked y k.
Proof. intros Hk. unfold acknowledge, acked. by rewrite lookup_insert_ne. Qed.
Lemma acknowledged_self y key ms : default [] (acknowledge key ms (y_acked y) !! key) = acked y key ++ ms.
Proof. unfold acknowledge, acked. by rewrite lookup_insert_eq. Qed.

Definition owed (y : System) : Prop := Owed (y_world y) (y_cur y) (acked y).

(** A result that acknowledges nothing. *)
Lemma owed_finish y r w' ack : (r ≠ Ok () → Owed w' (y_cur y) (acked y)) → (r = Ok () → Owed w' (y_cur y) (λ k, default [] (ack w' !! k))) → owed (finish y (r, w') ack).
Proof. intros Hn Ho. destruct r as [[]| |]; unfold owed; cbn; [by apply Ho|by apply Hn|eapply owed_restart; by apply Hn]. Qed.

Lemma messageLines_covers s lines line : messageLines s = Some lines → line ∈ lines → okRecord line = true → covers s (readMessage line).
Proof. intros Hl [i Hi]%list_elem_of_lookup Hok. apply (messageLines_lookup s lines) in Hi as (m & Hm & Hml); [|done]. by exists i, m, line. Qed.

Lemma render_lines s data : renderSession s = Some data → ∃ lines, messageLines s = Some lines.
Proof. unfold renderSession. intros (header & _ & (provider & _ & (lines & Hl & _)%bind_Some)%bind_Some)%bind_Some. eauto. Qed.

(** A save, whatever it acknowledges among what it writes. *)
Lemma owed_save y key h s w r w' ack' : kept (y_world y) w → owed y → y_cur y !! key = Some h → st_heap (w_store w) !! h = Some s → s_key s = key →
  ((r ≠ Ok () ∧ kept w w') ∨
    ∃ data, renderSession s = Some data ∧
      ((r ≠ Ok () ∧ w_store w' = w_store w ∧ wrote (s_key s) (Some data, (disk w (s_key s)).2) w w') ∨
       (wrote (s_key s) (Some data, None) w w' ∧ st_heap (w_store w') = <[h := with_journalSize 0 s]> (st_heap (w_store w)) ∧ recached (s_key s) h (w_store w) (w_store w')))) →
  (r ≠ Ok () → ∀ k, ack' k = acked y k) → (∀ k, k ≠ key → ack' k = acked y k) → (∀ a, a ∈ ack' key → covers s a) →
  Owed w' (y_cur y) ack'.
Proof.
  intros Kw Hy Hcur Hh Hkey Hcases Hsame Hother Hcov. apply (owed_kept _ _ _ _ Kw) in Hy. pose proof (o_cur _ _ _ Hy key h Hcur) as (s1 & Hs1 & _ & Hal & Hcov0). rewrite Hh in Hs1. injection Hs1 as <-.
  destruct Hcases as [[Hr K]|(data & Hd & [(Hr & Hs & Hw)|(Hw & Hheap & Hc)])]; rewrite ?Hkey in *.
  - apply (owed_kept _ _ _ _ K) in Hy. destruct Hy as [H1 H2 H3 H4]. constructor; [done| | |done]; intros k; rewrite (Hsame Hr); [apply H2|apply H3].
  - eapply owed_step; [exact Hy|done|exact Hh|done|exact Hw| | |exact Hother| |exact Hkey|exact Hal|exact Hcov|right; by rewrite Hs].
    + intros j Hj. by apply (o_closed _ _ _ Hy key).
    + intros a Ha. apply elem_of_app. left. cbn. eapply render_covers; [done|by apply Hcov].
    + rewrite Hs. by rewrite list_insert_id.
  - eapply owed_step; [exact Hy|done|exact Hh|done|exact Hw|done| |exact Hother|exact Hheap|done|exact Hal|exact Hcov|exact Hc].
    intros a Ha. apply elem_of_app. left. cbn. eapply render_covers; [done|by apply Hcov].
Qed.

Lemma owed_open y key : owed y → owed (act weather clock randomHex y (AOpen key)).
Proof.
  intros Hy. unfold owed in *. cbn [act]. pose proof (Open_cases weather clock key (y_world y)) as Ho. unfold wp in Ho. destruct (Open weather clock key (y_world y)) as [r w']. cbn [fst snd] in Ho.
  destruct Ho as [Hd Hr]. destruct Hy as [H1 H2 H3 H4].
  assert (∀ k j, (disk w' k).2 = Some j → closed j) as D1 by (intros k j; rewrite Hd; apply H1). assert (∀ k a, a ∈ acked y k → a ∈ stored (disk w' k)) as D2 by (intros k a; rewrite Hd; apply H2).
  destruct r as [h| |]; cbn [y_world y_cur].
  - destruct Hr as [Hc Hcase]. unfold acked. cbn [y_acked]. change (λ key0, default [] (y_acked y !! key0)) with (acked y).
    assert (∀ k h', y_cur y !! k = Some h' → ∃ s, st_heap (w_store w') !! h' = Some s ∧ s_key s = k ∧ aligned s ∧ ∀ a, a ∈ acked y k → covers s a) as Hold.
    { intros k h' Hk. destruct (H3 k h' Hk) as (s & Hs & Hrest). exists s. split; [|done]. destruct Hcase as [[-> _]|(_ & s' & -> & _)]; [done|by apply lookup_app_l_Some]. }
    constructor; [done|done| |].
    + intros k h' Hk. destruct (decide (k = key)) as [->|Hne]; [|rewrite lookup_insert_ne in Hk by done; by apply Hold]. rewrite lookup_insert_eq in Hk. injection Hk as <-.
      destruct Hcase as [[_ (c & Hc1 & <-)]|(-> & s & Hheap & Hl)]; [apply Hold; by apply H4|]. exists s. rewrite Hheap, list_lookup_middle by done.
      split_and!; [done|by destruct Hl|by eapply loaded_aligned|]. intros a Ha. eapply loaded_covers; [exact Hl|]. by apply H2.
    + intros k c Hkc. specialize (Hc k c Hkc). destruct (decide (k = key)) as [->|Hne]; [by rewrite lookup_insert_eq, Hc|rewrite lookup_insert_ne by done; by apply H4].
  - destruct Hr as [Hh Hc]. constructor; [done|done|by rewrite Hh|]. intros k c Hkc. apply H4. by apply Hc.
  - eapply owed_restart. destruct Hr as [Hh Hc]. constructor; [done|done|by rewrite Hh|]. intros k c Hkc. apply H4. by apply Hc.
Qed.

(** What a save may leave behind, after calls that keep everything. *)
Definition savedFrom (y : System) (h : nat) (s : Session) (r : res ()) (w' : World) : Prop :=
  ∃ w, kept (y_world y) w ∧
  ((r ≠ Ok () ∧ kept w w') ∨
    ∃ data, renderSession s = Some data ∧
      ((r ≠ Ok () ∧ w_store w' = w_store w ∧ wrote (s_key s) (Some data, (disk w (s_key s)).2) w w') ∨
       (wrote (s_key s) (Some data, None) w w' ∧ st_heap (w_store w') = <[h := with_journalSize 0 s]> (st_heap (w_store w)) ∧ recached (s_key s) h (w_store w) (w_store w')))).

Lemma save_savedFrom y h s w : kept (y_world y) w → st_heap (w_store (y_world y)) !! h = Some s → wp (saveLocked weather clock randomHex h) (savedFrom y h s) w.
Proof. intros K Hh. eapply wp_mono; [apply saveLocked_cases; destruct K as [-> _]; exact Hh|]. intros r w' Hc. by exists w. Qed.

Lemma owed_saved y key h s r w' ack' : owed y → y_cur y !! key = Some h → st_heap (w_store (y_world y)) !! h = Some s → s_key s = key → savedFrom y h s r w' →
  (r ≠ Ok () → ∀ k, ack' k = acked y k) → (∀ k, k ≠ key → ack' k = acked y k) → (∀ a, a ∈ ack' key → covers s a) → Owed w' (y_cur y) ack'.
Proof. intros Hy Hcur Hh Hkey (w & K & Hc). eapply owed_save; [exact K|done|done|destruct K as [-> _]; exact Hh|done|exact Hc]. Qed.

Lemma Save_savedFrom y h s : st_heap (w_store (y_world y)) !! h = Some s → wp (Save weather clock randomHex h) (savedFrom y h s) (y_world y).
Proof.
  intros Hh. unfold Save, withLock. assert (∀ r w', r ≠ Ok () → kept (y_world y) w' → savedFrom y h s r w') as Hn by (intros r w' Hr K; exists (y_world y); split; [done|by left]).
  apply wp_then; [auto with keeps|intros w' K; split; by apply Hn|]. intros _ w K. by apply save_savedFrom.
Qed.

Lemma Compact_savedFrom y h s n : st_heap (w_store (y_world y)) !! h = Some s →
  wp (CompactJournal weather clock randomHex h n) (λ r w', kept (y_world y) w' ∨ savedFrom y h s r w') (y_world y).
Proof.
  intros Hh. unfold CompactJournal, withLock. apply wp_then; [auto with keeps|intros w' K; split; by left|]. intros _ w K. apply wp_bind. unfold wp at 1, deref. rewrite (proj1 K), Hh. cbn [fst snd].
  apply wp_then; [auto with keeps|intros w' K'; split; left; by eapply kept_trans|]. intros info w1 K1%(kept_trans _ _ _ K). destruct info as [f|]; [|by left].
  destruct (_ && _); [by left|]. destruct (_ && _); [by left|]. eapply wp_mono; [by apply save_savedFrom|]. intros r w' Hs. by right.
Qed.

Lemma owed_append y key ms : owed y → owed (act weather clock randomHex y (AAppend key ms)).
Proof.
  intros Hy. cbn [act]. destruct (y_cur y !! key) as [h|] eqn:Hcur; [|done]. destruct (o_cur _ _ _ Hy key h Hcur) as (s & Hh & Hkey & Hal & Hcov).
  pose proof (AppendMessagesDurable_cases h s ms (y_world y) Hh) as Hc. unfold wp in Hc. destruct (AppendMessagesDurable weather clock h ms (y_world y)) as [r w']. cbn [fst snd] in Hc. rewrite Hkey in Hc.
  assert (sessionAt (y_world y) h = s) as Es by (unfold sessionAt; by rewrite Hh). pose proof (o_closed _ _ _ Hy key) as Hcl.
  assert (closed (default "" (disk (y_world y) key).2)) as Hdef by (destruct (disk (y_world y) key).2 as [j|]; [by apply Hcl|by left]). apply owed_finish.
  - intros Hr. destruct Hc as [[_ K]|(ms' & lines & El & [(_ & Hs & text & Ht & Hw)|(Hw & t & Hheap & Hc)])]; [by eapply owed_kept| |].
    + eapply (owed_step key h s s); [exact Hy|done|done|done|exact Hw| | |done|rewrite Hs; by rewrite list_insert_id|done|done|done|right; by rewrite Hs].
      * intros j [= <-]. apply closed_app; [exact Hdef|]. destruct Ht as [->| ->]; [by left|apply fileOf_closed].
      * intros a Ha. apply stored_append; [done|]. rewrite <- surjective_pairing. by apply (o_disk _ _ _ Hy).
    + eapply (owed_step key h s); [exact Hy|done|done|done|exact Hw| | |done|exact Hheap|done|by apply addAll_aligned| |exact Hc].
      * intros j [= <-]. apply closed_app; [exact Hdef|apply fileOf_closed].
      * intros a Ha. apply stored_append; [done|]. rewrite <- surjective_pairing. by apply (o_disk _ _ _ Hy).
      * intros a Ha. eapply extended_covers; [done|apply addAll_extended|by apply Hcov].
  - intros ->. destruct Hc as [[[Hn|_] K]|(ms' & lines & El & [(Hn & _)|(Hw & t & Hheap & Hc)])]; [done| |done|].
    + assert (sessionAt w' h = s) as -> by (unfold sessionAt; destruct K as [-> _]; by rewrite Hh). rewrite Es, drop_all. apply (owed_kept _ _ _ _ K) in Hy.
      assert (∀ k, default [] (acknowledge key (acks (omap encodeMessage [])) (y_acked y) !! k) = acked y k) as Ea.
      { intros k. destruct (decide (k = key)) as [->|]; [rewrite acknowledged_self; apply app_nil_r|by apply acknowledged_other]. }
      destruct Hy as [H1 H2 H3 H4]. constructor; [done| | |done]; intros k; rewrite Ea; [apply H2|apply H3].
    + assert (sessionAt w' h = addAll (Z.of_nat (slen (fileOf lines))) t ms' s) as -> by (unfold sessionAt; rewrite Hheap, list_lookup_insert_eq by (by eapply lookup_lt_Some); done).
      cbn [addAll with_updated with_journalSize with_messages s_messages]. rewrite Es, drop_app_length, (omap_mapM _ _ _ El).
      assert (∀ line, line ∈ lines → ∃ m, m ∈ ms' ∧ encodeMessage m = Some line) as Hlines.
      { intros line [i Hi]%list_elem_of_lookup. apply mapM_Some in El. destruct (Forall2_lookup_r _ _ _ i line El Hi) as (m & Hm & He). exists m. split; [by eapply list_elem_of_lookup_2|done]. }
      eapply (owed_step key h s); [exact Hy|done|done|done|exact Hw| | |by intros k Hk; apply acknowledged_other|exact Hheap|done|by apply addAll_aligned| |exact Hc].
      * intros j [= <-]. apply closed_app; [exact Hdef|apply fileOf_closed].
      * intros a. cbn beta. rewrite acknowledged_self. intros [Ha|(line & Hl & Hok & <-)%acks_in]%elem_of_app; [apply stored_append; [done|]; rewrite <- surjective_pairing; by apply (o_disk _ _ _ Hy)|by apply stored_new].
      * intros a. cbn beta. rewrite acknowledged_self. intros [Ha|(line & Hl & Hok & <-)%acks_in]%elem_of_app; [eapply extended_covers; [done|apply addAll_extended|by apply Hcov]|].
        destruct (Hlines line Hl) as (m & Hm & He). by eapply addAll_new.
Qed.

Lemma owed_change y key o : owed y → owed (act weather clock randomHex y (AChange key o)).
Proof.
  intros Hy. cbn [act]. destruct (y_cur y !! key) as [h|] eqn:Hcur; [|done]. destruct (o_cur _ _ _ Hy key h Hcur) as (s & Hh & Hkey & Hal & Hcov). unfold owed. cbn [y_world y_cur].
  eapply (owed_step key h s (apply localSeconds o s) (disk (y_world y) key)); [exact Hy|done|done|done|by apply wrote_self|apply (o_closed _ _ _ Hy)| | |cbn; by apply alter_at|by rewrite apply_key|by apply apply_aligned| |by right].
  - intros a Ha. apply (o_disk _ _ _ Hy). unfold acked in Ha. cbn in Ha. destruct (destructive o); [|done]. rewrite lookup_insert_eq in Ha. by apply not_elem_of_nil in Ha.
  - intros k Hk. unfold acked. cbn. destruct (destructive o); [by rewrite lookup_insert_ne|done].
  - intros a Ha. unfold acked in Ha. cbn in Ha. destruct (destructive o) eqn:Hd; [rewrite lookup_insert_eq in Ha; by apply not_elem_of_nil in Ha|]. apply apply_covers; [done|done|by apply Hcov].
Qed.

Lemma owed_act y a : owed y → owed (act weather clock randomHex y a).
Proof.
  intros Hy. destruct a as [key|key o|key ms|key|key n|]; [by apply owed_open|by apply owed_change|by apply owed_append| | |by eapply owed_restart].
  - cbn [act]. destruct (y_cur y !! key) as [h|] eqn:Hcur; [|done]. destruct (o_cur _ _ _ Hy key h Hcur) as (s & Hh & Hkey & Hal & Hcov).
    pose proof (Save_savedFrom y h s Hh) as Hc. unfold wp in Hc. destruct (Save weather clock randomHex h (y_world y)) as [r w']. cbn [fst snd] in Hc. apply owed_finish; [intros Hr; by eapply owed_saved|].
    intros ->. eapply owed_saved; [done..| |by intros k Hk; apply acknowledged_other|]; [done|]. intros a. cbn beta. rewrite acknowledged_self. intros [Ha|(line & Hl & Hok & <-)%acks_in]%elem_of_app; [by apply Hcov|].
    unfold sessionAt in Hl. rewrite Hh in Hl. cbn in Hl. destruct (messageLines s) as [lines|] eqn:El; [|by apply not_elem_of_nil in Hl]. by eapply messageLines_covers.
  - cbn [act]. destruct (y_cur y !! key) as [h|] eqn:Hcur; [|done]. destruct (o_cur _ _ _ Hy key h Hcur) as (s & Hh & Hkey & Hal & Hcov).
    pose proof (Compact_savedFrom y h s n Hh) as Hc. unfold wp in Hc. destruct (CompactJournal weather clock randomHex h n (y_world y)) as [r w']. cbn [fst snd] in Hc.
    apply owed_finish; intros _; (destruct Hc as [K|Hs]; [by eapply owed_kept|by eapply owed_saved]).
Qed.

Lemma owed_start fs : (∀ k f, fs !! journalPath k = Some f → closed (f_data f)) → owed (startWith fs).
Proof.
  intros Hcl. constructor; cbn; [|intros k a Ha; by apply not_elem_of_nil in Ha|done|done]. intros k j Hj. destruct (fs !! journalPath k) as [f|] eqn:E; [|done]. injection Hj as <-. by eapply Hcl.
Qed.

(** *** Opening succeeds when no call fails *)

Definition calm : nat → syscall → outcome := λ _ _, Fine.
Definition returns {A} (m : IO A) : Prop := ∀ w, ∃ a w', m w = (Ok a, w').

Lemma returns_bind {A B} (m : IO A) (k : A → IO B) : returns m → (∀ a, returns (k a)) → returns (bind m k).
Proof. intros Hm Hk w. destruct (Hm w) as (a & w1 & E). unfold bind. rewrite E. apply Hk. Qed.
Lemma returns_ret {A} (a : A) : returns (ret a).
Proof. intros w. by exists a, w. Qed.
Lemma returns_attempt {A} (m : IO A) : returns m → returns (attempt m).
Proof. intros Hm w. destruct (Hm w) as (a & w1 & E). unfold attempt. rewrite E. eauto. Qed.
Lemma returns_stat path : returns (stat calm path).
Proof. intros w. eauto. Qed.
Lemma returns_ReadFile path : returns (ReadFile calm path).
Proof. intros w. eauto. Qed.
Lemma returns_Remove path : returns (Remove calm path).
Proof. intros w. eauto. Qed.
Lemma returns_discard path : returns (discardCheckpoint calm path).
Proof.
  unfold discardCheckpoint. apply returns_bind; [apply returns_attempt, returns_stat|]. intros [[f|]|]; [|apply returns_ret..]. destruct (f_regular f); [|apply returns_ret].
  apply returns_bind; [apply returns_attempt, returns_Remove|intros; apply returns_ret].
Qed.

Lemma returns_overlay key s : returns (overlayCheckpointLocked calm key s).
Proof.
  assert (∀ path, returns (bind (discardCheckpoint calm path) (λ _, ret s))) as Hd by (intros path; apply returns_bind; [apply returns_discard|intros; apply returns_ret]).
  unfold overlayCheckpointLocked. apply returns_bind; [apply returns_attempt, returns_stat|]. intros [[f|]|]; [|apply returns_ret..]. destruct (negb _); [apply returns_ret|].
  apply returns_bind; [apply returns_attempt, returns_stat|]. intros [[main|]|]; [|apply returns_ret..]. destruct (_ <? _); [apply returns_bind; [apply returns_attempt, returns_Remove|intros; apply returns_ret]|].
  apply returns_bind; [apply returns_attempt, returns_ReadFile|]. intros [[data|]|]; [|apply Hd..]. destruct (overlayCheckpoint data s); [apply returns_ret|apply Hd].
Qed.

Lemma returns_load key : returns (loadLocked calm clock key).
Proof.
  unfold loadLocked. apply returns_bind; [intros w; by eauto|]. intros t. apply returns_bind; [apply returns_ReadFile|]. intros file. apply returns_bind; [apply returns_ReadFile|]. intros data.
  apply returns_bind; [destruct data; [|apply returns_ret]; apply returns_bind; [intros w; by eauto|]; intros; apply returns_bind; [apply returns_attempt, returns_stat|]; intros; apply returns_ret|].
  intros journal. apply returns_bind; [apply returns_attempt, returns_stat|]. intros there. destruct (isSome _); [apply returns_overlay|apply returns_ret].
Qed.

Lemma returns_Open key : returns (Open calm clock key).
Proof.
  unfold Open, withLock. apply returns_bind; [intros w; by eauto|]. intros _. apply returns_bind; [apply returns_stat|]. intros info. apply returns_bind; [apply returns_attempt, returns_stat|]. intros ck.
  apply returns_bind; [apply returns_stat|]. intros ji. apply returns_bind; [intros w; destruct ck as [[|]|]; [by eauto| |by eauto]; destruct (cachedSession_ key info ji (w_store w)); by eauto|].
  intros [h|]; [apply returns_ret|]. apply returns_bind; [apply returns_load|]. intros s. apply returns_bind; [intros w; by eauto|]. intros h. apply returns_bind; [intros w; by eauto|]. intros. apply returns_ret.
Qed.

End Durable.

(** ** A concrete process *)

#[local] Instance demoTime : TimeLib :=
  {| localSeconds := λ t, "2026-01-01T00:00:" +:+ pad2 (t / 1000000000); zonedSeconds := λ _ t, "2026-01-01T00:00:" +:+ pad2 (t / 1000000000);
     parseZoned := λ _ _, None; parseLocal := λ _ _, None |}.
Definition demoClock (n : nat) : Z := Z.of_nat n * 1000000000.
Definition demoHex (_ : nat) : string := "00".
Definition demoKey : string := "cli:direct".

(** A crash in the call before the removal of the journal in the first save. *)
Definition demoWeather (n : nat) (c : syscall) : outcome := match c with SRemove => if (n <? 25)%nat then Crashes 0 else Fine | _ => Fine end.
Definition demoActions : list action :=
  [AOpen demoKey; AAppend demoKey [NewMessage RoleUser "hello"]; ASave demoKey; AOpen demoKey; AAppend demoKey [NewMessage RoleAssistant "hi"]].
Definition demoSystem : System := foldl (act demoWeather demoClock demoHex) (startWith ∅) demoActions.


(** The texts of the messages that are read after a restart. *)
Definition reopened (key : string) (w : World) : option (list string) :=
  match Open calm demoClock key (restart w) with
  | (Ok h, w) => Some (map (λ m, c_Text (m_Content m)) (s_messages (sessionAt w h)))
  | _ => None
  end.
Definition runDemo (weather : nat → syscall → outcome) (actions : list action) : System := foldl (act weather demoClock demoHex) (startWith ∅) actions.
Definition hello : Message := mkMessage RoleUser (TextContent "hello") "2026-01-01T00:00:00" None "" "" "" None [] ∅.
Definition again : Message := mkMessage RoleUser (TextContent "again") "2026-01-01T00:00:00" None "" "" "" None [] ∅.

(** ** Limits *)

(** Without [fsync] nothing is on the disk when a call returns: after a loss of power
    the names can be there and the contents not. *)
Definition powerLoss (w : World) : World := with_files (fmap (λ f, mkFile "" (f_mtime f) (f_regular f))) w.

(** A message that was appended, and one that was saved, are gone after a loss of power,
    although the comment of [AppendMessagesDurable] says that they are durably recorded. *)
Example power_loss_loses :
  let y := runDemo calm [AOpen demoKey; AAppend demoKey [hello]] in
  let y' := act calm demoClock demoHex y (ASave demoKey) in
  length (acked y demoKey) = 1%nat ∧ reopened demoKey (y_world y) = Some ["hello"] ∧
  reopened demoKey (powerLoss (y_world y)) = Some [] ∧ reopened demoKey (y_world y') = Some ["hello"] ∧
  reopened demoKey (powerLoss (y_world y')) = Some [].
Proof. vm_compute. by split_and!. Qed.

(** An append that fails in the middle leaves a piece of a record without a line end; the
    next append succeeds and is glued to it: the acknowledged message is not read again. *)
Example torn_append_loses :
  let torn := λ (n : nat) c, match c with SAppend => if (n <? 12)%nat then Fails 10 else Fine | _ => Fine end in
  let y := runDemo torn [AOpen demoKey; AAppend demoKey [hello]; AAppend demoKey [again]] in
  length (acked y demoKey) = 1%nat ∧ reopened demoKey (y_world y) = Some [].
Proof. vm_compute. by split. Qed.

(** A message equal to the last one of the file, appended once more, is taken for the
    overlap of an interrupted save and read only once. *)
Example repeated_message_dropped :
  let y := runDemo calm [AOpen demoKey; AAppend demoKey [hello]; ASave demoKey; AAppend demoKey [hello]] in
  map (λ h, map (λ m, c_Text (m_Content m)) (s_messages (sessionAt (y_world y) h))) (option_list (y_cur y !! demoKey)) = [["hello"; "hello"]] ∧
  reopened demoKey (y_world y) = Some ["hello"].
Proof. vm_compute. by split. Qed.

(** Messages that were cleared come back when the save after it cannot remove the
    journal. *)
Example cleared_messages_return :
  let y0 := runDemo calm [AOpen demoKey; AAppend demoKey [hello]; AChange demoKey (OClear 0)] in
  let stuck := λ (n : nat) c, match c with SRemove => Fails 0 | _ => Fine end in
  reopened demoKey (y_world (act stuck demoClock demoHex y0 (ASave demoKey))) = Some ["hello"].
Proof. vm_compute. reflexivity. Qed.

(** Two processes, [a] and [b]: the session of [a] was opened before there was a journal;
    compacting it removes what [b] has appended since, although its append succeeded. *)
Example stale_compaction_loses :
  let a := runDemo calm [AOpen demoKey] in
  let b := foldl (act calm demoClock demoHex) (mkSystem (restart (y_world a)) ∅ ∅) [AOpen demoKey; AAppend demoKey [hello]] in
  let a' := act calm demoClock demoHex (mkSystem (with_store (λ _, w_store (y_world a)) (y_world b)) (y_cur a) (y_acked a)) (ACompact demoKey 0) in
  length (acked b demoKey) = 1%nat ∧ reopened demoKey (y_world b) = Some ["hello"] ∧ reopened demoKey (y_world a') = Some [].
Proof. vm_compute. by split_and!. Qed.

(** Deleting a key that is the stem of another session's file deletes that file. *)
Example delete_hits_other :
  let y := runDemo calm [AOpen demoKey; AAppend demoKey [hello]; ASave demoKey] in
  reopened demoKey (y_world y) = Some ["hello"] ∧ StorageKey demoKey = "Y2xpOmRpcmVjdA" ∧
  reopened demoKey (Delete calm "Y2xpOmRpcmVjdA" (y_world y)).2 = Some [].
Proof. vm_compute. by split_and!. Qed.
