(* ===== verification/SessionRoundtrip.v ===== *)
(** * A saved session is read back

    The records [renderSession] writes are objects in Python's syntax, and what
    [objectFields] makes of such a text is what was written ([written_fields]), however deeply
    its values are nested.  So the metadata record and the provider state are recognised
    for what they are, and what a save writes is loaded with its records and the archive
    offset ([saved_loaded]); what this means for the messages of a session is in
    SessionLife. *)

From Stdlib Require Import Ascii.
From stdpp Require Import pretty.
From S2P Require Import Prelude GoText GoLib PyFloat GoFmt Core GoJson PyJson Governance Response Provider SessionText Session SessionKeys SessionCodec SessionRecords SessionFacts SessionFiles.
#[local] Open Scope string_scope.
#[local] Open Scope list_scope.
#[local] Open Scope Z_scope.

(** ** Reading what was written *)

(** A deeper limit does not change what is read. *)
Lemma json_depth fuel :
  (∀ d d' s r, (d ≤ d')%nat → json_value fuel d s = Some r → json_value fuel d' s = Some r) ∧
  (∀ d d' s r, (d ≤ d')%nat → json_members fuel d s = Some r → json_members fuel d' s = Some r) ∧
  (∀ d d' s r, (d ≤ d')%nat → json_elements fuel d s = Some r → json_elements fuel d' s = Some r).
Proof.
  induction fuel as [|fuel (IHv & IHm & IHe)]; [done|]. split_and!; intros d d' s r Hd.
  - cbn [json_value]. destruct (skip_space s) as [|c t]; [done|]. destruct (byteZ c =? 123).
    { destruct d as [|d]; [done|]. destruct d' as [|d']; [lia|]. destruct (skip_space t) as [|e u]; [done|]. destruct (byteZ e =? 125); [done|].
      destruct (json_members fuel d t) as [r'|] eqn:E; [|done]. by rewrite (IHm d d' t r' ltac:(lia) E). }
    destruct (byteZ c =? 91); [|done].
    destruct d as [|d]; [done|]. destruct d' as [|d']; [lia|]. destruct (skip_space t) as [|e u]; [done|]. destruct (byteZ e =? 93); [done|].
    destruct (json_elements fuel d t) as [r'|] eqn:E; [|done]. by rewrite (IHe d d' t r' ltac:(lia) E).
  - cbn [json_members]. destruct (stringToken _) as [[key t]|]; [|done]. cbn [mbind option_bind]. destruct (skip_space t) as [|e u]; [done|]. destruct (byteZ e =? 58); [|done].
    destruct (json_value fuel d u) as [[v w]|] eqn:E; [|done]. rewrite (IHv d d' u _ Hd E). cbn [mbind option_bind]. destruct (skip_space w) as [|g x]; [done|].
    destruct (byteZ g =? 44); [|done]. destruct (json_members fuel d x) as [r'|] eqn:E2; [|done]. by rewrite (IHm d d' x r' Hd E2).
  - cbn [json_elements]. destruct (json_value fuel d s) as [[v w]|] eqn:E; [|done]. rewrite (IHv d d' s _ Hd E). cbn [mbind option_bind]. destruct (skip_space w) as [|g x]; [done|].
    destruct (byteZ g =? 44); [|done]. destruct (json_elements fuel d x) as [r'|] eqn:E2; [|done]. by rewrite (IHe d d' x r' Hd E2).
Qed.

Lemma decode_written v rest x u : sound v = true → closes rest = true → decode (pyText v +:+ rest) = Some (x, u) → x = v ∧ u = rest.
Proof.
  intros Hs Hc Hd. unfold decode in Hd. apply (proj1 (json_depth _)) with (d' := (maxNestingDepth `max` height v)%nat) in Hd; [|lia].
  rewrite pyText_reads in Hd; [by injection Hd|done|done| |lia]. rewrite slen_app. pose proof (jsize_text v Hs). lia.
Qed.

Lemma rawValue_written v rest raw u : sound v = true → closes rest = true → rawValue (String " " (pyText v +:+ rest)) = Some (raw, u) → raw = pyText v ∧ u = rest.
Proof.
  intros Hs Hc. unfold rawValue. destruct (pyText_first v Hs) as (c & t & E & H1 & _).
  assert (skip_space (String " " (pyText v +:+ rest)) = pyText v +:+ rest) as -> by (rewrite E; cbn [String.append]; change (skip_space (String " " (String c (t +:+ rest)))) with (skip_space (String c (t +:+ rest))); by apply skip_space_first).
  intros ([x w] & Hd & [= <- <-])%bind_Some. destruct (decode_written v rest x w Hs Hc Hd) as [_ ->]. by rewrite consumed_app.
Qed.

Lemma membersFrom_written kv fields fuel rest fs :
  forallb (λ '(k, v), utf8ok k && sound v) (kv :: fields) = true →
  membersFrom fuel (Join (map pyField (kv :: fields)) pyItemSep +:+ String "}" rest) = Some fs → fs = rawFields (kv :: fields).
Proof.
  revert kv fuel fs. induction fields as [|kw fields IH]; intros [k v] fuel fs Hs;
    cbn [forallb] in Hs; apply andb_true_iff in Hs as [[Hk Hsv]%andb_true_iff Hs]; (destruct fuel as [|fuel]; [done|]).
  - cbn [map Join membersFrom pyField]. rewrite <- !sapp_assoc, key_read by done. cbn [mbind option_bind]. change (pyKeySep +:+ ?x) with (String ":" (String " " x)).
    rewrite skip_space_first by done. change (byteZ ":" =? 58) with true. cbn [negb]. destruct (rawValue _) as [[raw u]|] eqn:E; [|done].
    apply rawValue_written in E as [-> ->]; [|done|done]. cbn. by intros [= <-].
  - change (Join (map pyField ((k, v) :: kw :: fields)) pyItemSep) with ((writePyString k +:+ String ":" (String " " (pyText v))) +:+ String "," (String " " (Join (map pyField (kw :: fields)) pyItemSep))).
    specialize (IH kw fuel). revert IH. generalize (Join (map pyField (kw :: fields)) pyItemSep). intros tl IH.
    rewrite <- !sapp_assoc. cbn [membersFrom String.append]. rewrite key_read by done. cbn [mbind option_bind].
    rewrite skip_space_first by done. change (byteZ ":" =? 58) with true. cbn [negb]. destruct (rawValue _) as [[raw u]|] eqn:E; [|done].
    apply rawValue_written in E as [-> ->]; [|done|done]. cbn [mbind option_bind]. rewrite skip_space_first by done. change (byteZ "," =? 44) with true. cbn match. rewrite membersFrom_space.
    intros (fs' & Hfs & [= <-])%bind_Some. by rewrite (IH fs' Hs Hfs).
Qed.

(** Whatever is read from a written object are its members. *)
Lemma written_fields fields fs : sound (JObj fields) = true → objectFields (pyText (JObj fields)) = Some fs → fs = rawFields fields.
Proof.
  intros Hs. cbn [pyText]. fold pyField. unfold objectFields. change ("{" +:+ ?x) with (String "{" x). rewrite skip_space_first by done. change (byteZ "{" =? 123) with true. cbn [negb].
  destruct fields as [|kv fields]; [cbn; by intros [= <-]|]. change ("}" : string) with (String "}" "").
  assert (∃ tl, Join (map pyField (kv :: fields)) pyItemSep = String (Zbyte 34) tl) as [tl Hj].
  { destruct kv. cbn [map Join pyField]. unfold writePyString. destruct (map pyField fields); cbn [String.append]; eauto. }
  pose proof (membersFrom_written kv fields (slen (Join (map pyField (kv :: fields)) pyItemSep +:+ String "}" "")) "" fs Hs) as Hm.
  rewrite Hj in *. cbn [String.append] in *. rewrite skip_space_first by done. change (byteZ (Zbyte 34) =? 125) with false. cbn match. exact Hm.
Qed.

(** ** Written lines are lines *)

Definition lowByte (c : ascii) : bool := byteZ c <? 32.
Fixpoint noLow (s : string) : bool := match s with "" => true | String c s => negb (lowByte c) && noLow s end.

Lemma noLow_app a b : noLow (a +:+ b) = noLow a && noLow b.
Proof. induction a as [|c a IH]; [done|]. cbn. by rewrite IH, andb_assoc. Qed.

Lemma noLow_plain s : noLow s = true → plainLine s = true.
Proof.
  unfold plainLine. induction s as [|c s IH]; [done|]. cbn [noLow ContainsByte]. intros [Hc Hs]%andb_true_iff. apply IH in Hs. apply andb_true_iff in Hs as [H1 H2].
  unfold lowByte in Hc. destruct (Z.ltb_spec (byteZ c) 32) as [|Hge]; [done|].
  assert (Ascii.eqb c (Zbyte 10) = false ∧ Ascii.eqb c (Zbyte 13) = false) as [-> ->] by (split; apply Ascii.eqb_neq; intros ->; revert Hge; vm_compute; intros Hge; by apply Hge). cbn [orb]. by rewrite H1, H2.
Qed.

Lemma noLow_digits ds : all_digits ds = true → noLow ds = true.
Proof.
  induction ds as [|c ds IH]; [done|]. cbn [all_digits noLow]. intros [Hc Hs]%andb_true_iff. rewrite IH by done. unfold is_digit in Hc. apply andb_true_iff in Hc as [Hc _]. unfold lowByte. apply Z.leb_le in Hc.
  destruct (Z.ltb_spec (byteZ c) 32); [lia|done].
Qed.

Lemma noLow_span s ds r : span_digits s = (ds, r) → noLow r = true → noLow s = true.
Proof. intros (-> & Hd & _)%span_digits_split Hr. by rewrite noLow_app, noLow_digits, Hr. Qed.

Lemma noLow_number lit u : json_number lit = Some u → noLow u = true → noLow lit = true.
Proof.
  assert (∀ r u, json_exp r = Some u → noLow u = true → noLow r = true) as He.
  { intros [|c t] u'; cbn [json_exp]; [by intros [= <-]|]. destruct ((byteZ c =? 101) || (byteZ c =? 69)) eqn:Hc; [|by intros [= <-]]. intros Hx Hu.
    cbn [noLow]. apply andb_true_iff. split; [unfold lowByte; destruct (Z.ltb_spec (byteZ c) 32); [|done]; apply orb_true_iff in Hc as [Hc|Hc]; apply Z.eqb_eq in Hc; lia|].
    destruct t as [|d t']; [done|]. destruct ((byteZ d =? 43) || (byteZ d =? 45)) eqn:Hd.
    - destruct (span_digits t') as [ds r] eqn:Es. destruct (String.eqb ds ""); [done|]. injection Hx as ->. cbn [noLow]. rewrite (noLow_span _ _ _ Es Hu), andb_true_r.
      unfold lowByte. destruct (Z.ltb_spec (byteZ d) 32); [|done]. apply orb_true_iff in Hd as [Hd|Hd]; apply Z.eqb_eq in Hd; lia.
    - destruct (span_digits (String d t')) as [ds r] eqn:Es. destruct (String.eqb ds ""); [done|]. injection Hx as ->. by apply (noLow_span _ _ _ Es). }
  assert (∀ r u, json_frac r = Some u → noLow u = true → noLow r = true) as Hf.
  { intros [|c t] u'; cbn [json_frac]; [by intros [= <-]|]. destruct (byteZ c =? 46) eqn:Hc; [|by intros [= <-]]. destruct (span_digits t) as [ds r] eqn:Es. destruct (String.eqb ds ""); [done|]. intros [= ->] Hu.
    cbn [noLow]. rewrite (noLow_span _ _ _ Es Hu), andb_true_r. unfold lowByte. apply Z.eqb_eq in Hc. destruct (Z.ltb_spec (byteZ c) 32); [lia|done]. }
  unfold json_number. set (s := match lit with String c t => if byteZ c =? 45 then t else lit | "" => lit end).
  intros Hn Hu. assert (noLow s = true) as Hs.
  { destruct (span_digits s) as [ds r] eqn:Es. apply (noLow_span _ _ _ Es). destruct ds as [|c ds']; [done|]. destruct (_ && _); [done|]. apply bind_Some in Hn as (r' & H1 & H2). by eapply Hf, He. }
  destruct lit as [|c t]; [done|]. subst s. cbn match in Hs. destruct (byteZ c =? 45) eqn:Hc; [|done]. apply Z.eqb_eq in Hc. cbn [noLow]. rewrite Hs, andb_true_r. unfold lowByte. destruct (Z.ltb_spec (byteZ c) 32); [lia|done].
Qed.

Lemma noLow_pyChar r : valid_rune r → noLow (pyChar r) = true.
Proof.
  intros Hv. destruct (decide (r < 128)) as [Hlt|Hge].
  - assert (forallb (λ n, noLow (pyChar (Z.of_nat n))) (seq 0 128) = true) as Hall by (vm_compute; reflexivity). rewrite forallb_forall in Hall. unfold valid_rune in Hv.
    specialize (Hall (Z.to_nat r)). rewrite Z2Nat.id in Hall by lia. apply Hall. apply in_seq. lia.
  - unfold pyChar, writePyChar. assert (∀ k, k < 128 → (r =? k) = false) as Hne by (intros k Hk; apply Z.eqb_neq; lia). rewrite !Hne by lia. destruct (Z.ltb_spec r 32); [lia|].
    assert (Forall (λ b, 128 ≤ b < 256) (EncodeRune r)) as Hb.
    { destruct (EncodeRune_shape r Hv) as [[? _]|[(a & b & -> & ?)|[(a & b & c & -> & ?)|(a & b & c & d & -> & ?)]]]; [lia|repeat constructor; lia..]. }
    induction Hb as [|b l Hb _ IH]; [done|]. cbn [of_bytes noLow]. rewrite IH, andb_true_r. unfold lowByte. rewrite byteZ_Zbyte by lia. destruct (Z.ltb_spec b 32); [lia|done].
Qed.

Lemma noLow_writePyString s : noLow (writePyString s) = true.
Proof.
  unfold writePyString. rewrite writePyChars_runes by done. cbn [noLow]. rewrite noLow_app. cbn [noLow]. rewrite andb_true_r. change (lowByte (Zbyte 34)) with false. cbn [negb andb].
  induction (runes_valid s) as [|r l Hr _ IH]; [done|]. cbn [pyChars foldr]. fold (pyChars l). by rewrite noLow_app, noLow_pyChar, IH.
Qed.

Lemma noLow_Join {A} (f : A → string) l : Forall (λ x, noLow (f x) = true) l → noLow (Join (map f l) pyItemSep) = true.
Proof.
  induction 1 as [|x l Hx Hl IH]; [done|]. destruct l as [|y l]; [done|].
  change (Join (map f (x :: y :: l)) pyItemSep) with (f x +:+ pyItemSep +:+ Join (map f (y :: l)) pyItemSep). by rewrite !noLow_app, Hx, IH.
Qed.

Lemma noLow_pyText v : sound v = true → noLow (pyText v) = true.
Proof.
  induction v as [|[]|lit|s|items IH|fields IH] using json_nested_ind; intros Hs; [done..| | | |].
  - cbn in *. eapply noLow_number; [by apply isValidNumber_spec|done].
  - apply noLow_writePyString.
  - cbn [pyText sound] in *. rewrite !noLow_app. cbn [noLow andb]. change (negb (lowByte "[")) with true. change (negb (lowByte "]")) with true. cbn [andb]. rewrite andb_true_r. apply noLow_Join.
    rewrite forallb_forall in Hs. rewrite Forall_forall in IH |- *. intros x Hx. apply IH; [done|]. by apply Hs, list_elem_of_In.
  - cbn [pyText sound] in *. fold pyField. rewrite !noLow_app. cbn [noLow andb]. change (negb (lowByte "{")) with true. change (negb (lowByte "}")) with true. cbn [andb]. rewrite andb_true_r. apply noLow_Join.
    rewrite forallb_forall in Hs. rewrite Forall_forall in IH |- *. intros [k x] Hx. cbn [pyField]. rewrite !noLow_app, noLow_writePyString. cbn [andb]. change (noLow pyKeySep) with true. cbn [andb].
    apply (IH (k, x)); [done|]. apply list_elem_of_In in Hx. by apply Hs, andb_true_iff in Hx as [_ ?].
Qed.

(** A written object is the record it is: no blank around it. *)
Lemma written_trim fields : sound (JObj fields) = true → TrimSpace (pyText (JObj fields)) = pyText (JObj fields).
Proof.
  intros Hs. cbn [pyText]. set (t := Join _ _). change ("{" +:+ t +:+ "}") with (String "{" (t +:+ "}")). unfold TrimSpace.
  assert (TrimLeft_fuel (slen (String "{" (t +:+ "}"))) (String "{" (t +:+ "}")) = String "{" (t +:+ "}")) as ->.
  { change (slen (String "{" ?x)) with (S (slen x)). cbn [TrimLeft_fuel]. by rewrite DecodeRune_low. }
  apply TrimRight_id. assert (∀ u, sget (slen u) (u +:+ "}") = "}"%char) as Hlast by (intros u; unfold sget; induction u as [|c u IH]; [done|exact IH]).
  unfold DecodeLastRune. change (String "{" (t +:+ "}")) with ((String "{" t) +:+ "}"). rewrite slen_app. change (slen "}") with 1%nat. rewrite Nat.add_1_r, Hlast. done.
Qed.

Lemma absent_field fields key : Forall (λ kv, kv.1 ≠ key) fields → fieldValue (rawFields fields) key = None.
Proof.
  induction 1 as [|[k v] l Hne _ IH]; [done|]. cbn [rawFields map fieldValue]. fold (rawFields l). rewrite IH. cbn in Hne. destruct (String.eqb_spec k key); [done|done].
Qed.

(** ** The metadata record *)

Fixpoint clean (v : json) : json :=
  match v with
  | JStr s => JStr (of_runes (runes s))
  | JArr items => JArr (map clean items)
  | JObj fields => JObj (map (λ '(k, v), (of_runes (runes k), clean v)) fields)
  | _ => v
  end.
Fixpoint numbersOk (v : json) : bool :=
  match v with
  | JNum lit => isValidNumber lit
  | JArr items => forallb numbersOk items
  | JObj fields => forallb (λ '(_, v), numbersOk v) fields
  | _ => true
  end.

Lemma utf8ok_runes s : utf8ok (of_runes (runes s)) = true.
Proof. unfold utf8ok. by rewrite runes_of_runes, String.eqb_refl by apply runes_valid. Qed.

Lemma pyText_clean v : pyText (clean v) = pyText v.
Proof.
  induction v as [|[]|lit|s|items IH|fields IH] using json_nested_ind; cbn [clean pyText]; [done..| | |].
  - apply writePyString_utf8.
  - do 3 f_equal. rewrite map_map. apply map_ext_in. intros x Hx. rewrite Forall_forall in IH. by apply IH, list_elem_of_In.
  - do 3 f_equal. rewrite map_map. apply map_ext_in. intros [k x] Hx. rewrite Forall_forall in IH. rewrite writePyString_utf8. apply list_elem_of_In, IH in Hx. cbn in Hx. by rewrite Hx.
Qed.

Lemma clean_sound v : numbersOk v = true → sound (clean v) = true.
Proof.
  induction v as [|[]|lit|s|items IH|fields IH] using json_nested_ind; cbn [clean numbersOk sound]; [done..|intros _; apply utf8ok_runes| |].
  all: rewrite !forallb_forall; rewrite Forall_forall in IH; intros Hn x Hx; apply in_map_iff in Hx as (y & <- & Hy).
  - apply IH; [by apply list_elem_of_In|by apply Hn].
  - destruct y as [k y]. rewrite utf8ok_runes. cbn [andb]. apply (IH (k, y)); [by apply list_elem_of_In|by apply (Hn (k, y))].
Qed.

(** A text that is the text of a member. *)
Definition isMember (key : string) (text : string) : Prop := ∃ v, sound v = true ∧ text = pyField (key, v).

Lemma pyMember_text key v : numbersOk v = true → isMember (of_runes (runes key)) (pyMember key (pyText v)).
Proof. intros Hv. exists (clean v). split; [by apply clean_sound|]. unfold pyMember, pyField. by rewrite writePyString_utf8, pyText_clean. Qed.

Lemma sound_numbersOk v : sound v = true → numbersOk v = true.
Proof.
  induction v as [|[]|lit|s|items IH|fields IH] using json_nested_ind; cbn [numbersOk sound]; [done..| |]; rewrite !forallb_forall; rewrite Forall_forall in IH; intros Hn x Hx.
  - apply IH; [by apply list_elem_of_In|by apply Hn].
  - destruct x as [k x]. apply (IH (k, x)); [by apply list_elem_of_In|]. apply Hn in Hx. by apply andb_true_iff in Hx as [_ ?].
Qed.

Lemma appendPyRaw_text raw text : appendPyRaw raw = Some text → ∃ v, sound v = true ∧ text = pyText v.
Proof.
  unfold appendPyRaw. intros ([v rest] & Hd & Hx)%bind_Some. destruct (More rest); [done|]. injection Hx as <-. exists v. split; [|done]. unfold decode in Hd. by apply json_sound in Hd as [? _].
Qed.

(** The members of an object, taken together. *)
Lemma members_fields keys texts : Forall2 isMember keys texts → Forall (λ k, utf8ok k = true) keys →
  ∃ fields, map fst fields = keys ∧ texts = map pyField fields ∧ forallb (λ '(k, v), utf8ok k && sound v) fields = true.
Proof.
  induction 1 as [|k t keys texts (v & Hv & ->) _ IH]; intros Hk; [by exists []|]. inversion Hk as [|?? H1 H2]; subst. destruct (IH H2) as (fields & <- & -> & Hf). exists ((k, v) :: fields). cbn. by rewrite H1, Hv.
Qed.

Lemma pyObject_fields fields : pyObject (map pyField fields) = pyText (JObj fields).
Proof. done. Qed.

(** What a session has to be like for its metadata to be written and read. *)
Record saveable (s : Session) : Prop := {
  sv_aligned : aligned s;
  sv_archived : 0 ≤ s_lastArchived s ≤ Z.of_nat (length (s_messages s));
  sv_size : Z.of_nat (length (s_messages s)) < 2 ^ 63;
  sv_meta : map_Forall (λ _ v, numbersOk v = true) (s_meta s);
  sv_extra : Forall (λ f, utf8ok f.1 = true ∧ f.1 ∉ metadataKeys) (s_metaExtra s);
  sv_provider : ∀ line, s_providerLine s = Some line → plainLine line = true ∧ TrimSpace line = line ∧ line ≠ "" ∧ ∃ fields, objectFields line = Some fields ∧ stringField fields "_type" = Some "provider_state" }.

Lemma metaValue_text s k text : map_Forall (λ _ v, numbersOk v = true) (s_meta s) → metaValue s k = Some text → ∃ v, numbersOk v = true ∧ text = pyText v.
Proof.
  intros Hm (v & Hv & Hx)%bind_Some. apply Hm in Hv.
  assert (∀ r, appendPyRaw r = Some text → ∃ v, numbersOk v = true ∧ text = pyText v) as Hr by (intros r (x & Hs & ->)%appendPyRaw_text; exists x; split; [by apply sound_numbersOk|done]).
  assert (appendPyValue v = Some text → ∃ v, numbersOk v = true ∧ text = pyText v) as Hw by (unfold appendPyValue; destruct (validNumbers v); [|done]; intros [= <-]; eauto).
  destruct (s_metaRaw s !! k) as [r|]; [|by apply Hw]. destruct (_ && _); [by eapply Hr|by apply Hw].
Qed.

Lemma appendMetaMap_text s meta : map_Forall (λ _ v, numbersOk v = true) (s_meta s) → appendMetaMap s = Some meta → ∃ v, sound v = true ∧ meta = pyText v.
Proof.
  intros Hm. unfold appendMetaMap. intros (texts & Ht & ->)%fmap_Some. apply mapM_Some in Ht.
  destruct (members_fields (map (λ k, of_runes (runes k)) (pyMapKeys (s_meta s) (s_metaOrder s))) texts) as (fields & _ & -> & Hf).
  - revert Ht. generalize (pyMapKeys (s_meta s) (s_metaOrder s)). intros keys Ht. induction Ht as [|k t keys texts (text & Hv & Ht)%bind_Some _ IH]; [constructor|]. injection Ht as <-. cbn [map]. constructor; [|done].
    destruct (metaValue_text s k text Hm Hv) as (v & Hn & ->). by apply pyMember_text.
  - apply Forall_forall. intros k Hk. apply list_elem_of_In, in_map_iff in Hk as (k' & <- & _). apply utf8ok_runes.
  - exists (JObj fields). by rewrite pyObject_fields.
Qed.

Lemma pretty_head x s : x ≠ 0%N → ∃ c t, pretty_N_go x s = String c t ∧ byteZ c ≠ 48.
Proof.
  revert x s. apply (pretty_go_ind (λ x s, x ≠ 0%N → ∃ c t, pretty_N_go x s = String c t ∧ byteZ c ≠ 48)); [done|]. intros x s Hx IH _. rewrite pretty_N_go_step by lia.
  destruct (decide (x `div` 10 = 0)%N) as [E|Hd]; [|by apply IH]. rewrite E, pretty_N_go_0. eexists _, _. split; [done|]. pose proof (N.mod_lt x 10 ltac:(lia)). pose proof (N.div_mod x 10 ltac:(lia)).
  rewrite pretty_char_digit by lia. lia.
Qed.

Lemma Itoa_number n : 0 ≤ n → isValidNumber (Itoa n) = true.
Proof.
  intros Hn. destruct (decide (n = 0)) as [->|Hne]; [done|]. destruct (Itoa_digits n Hn) as (Ha & _ & _).
  assert (∃ c t, Itoa n = String c t ∧ byteZ c ≠ 48) as (c & t & E & Hc) by (destruct n as [|p|p]; [done| |lia]; change (Itoa (Zpos p)) with (pretty (Npos p)); unfold pretty, pretty_N; rewrite decide_False by done; by apply pretty_head).
  unfold isValidNumber, json_number. rewrite E in *. pose proof Ha as Ha'. cbn [all_digits] in Ha'. apply andb_true_iff in Ha' as [Hd _]. unfold is_digit in Hd. apply andb_true_iff in Hd as [Hd1 Hd2].
  assert ((byteZ c =? 45) = false) as -> by (apply Z.eqb_neq; lia). pose proof (span_digits_app (String c t) "" Ha eq_refl) as Hs. rewrite sapp_nil_r in Hs. rewrite Hs.
  assert ((byteZ c =? 48) = false) as -> by (by apply Z.eqb_neq). done.
Qed.

(** The members of the metadata record. *)
Definition headerFields (s : Session) (meta : json) (extras : list (string * json)) : list (string * json) :=
  [("_type", JStr "metadata"); ("key", JStr (of_runes (runes (s_key s)))); ("created_at", JStr (of_runes (runes (s_createdStr s))));
   ("updated_at", JStr (of_runes (runes (s_updatedStr s)))); ("metadata", meta); ("last_archived", JNum (Itoa (s_lastArchived s)));
   ("last_consolidated", JNum (Itoa (s_lastArchived s)))] ++ extras.

Lemma metadataRecord_text s header : saveable s → metadataRecord s = Some header →
  ∃ meta extras, header = pyText (JObj (headerFields s meta extras)) ∧ sound (JObj (headerFields s meta extras)) = true ∧ Forall (λ kv, kv.1 ∉ metadataKeys) extras.
Proof.
  intros Hs (meta & Hmeta & (texts & Ht & Hh)%bind_Some)%bind_Some. apply (inj Some) in Hh as <-. destruct (appendMetaMap_text s meta (sv_meta _ Hs) Hmeta) as (mv & Hmv & ->). apply mapM_Some in Ht.
  assert (∃ fields, map fst fields = map fst (s_metaExtra s) ∧ texts = map pyField fields ∧ forallb (λ '(k, v), utf8ok k && sound v) fields = true) as (extras & Hk & -> & Hex).
  { apply members_fields.
    - pose proof (sv_extra _ Hs) as Hx. revert Ht Hx. generalize (s_metaExtra s). intros fs Ht. induction Ht as [|f t fs texts (text & Hv & Ht)%bind_Some _ IH]; intros Hx; [constructor|]. injection Ht as <-. inversion Hx as [|?? [Hu _] Hx']; subst.
      cbn [map]. constructor; [|by apply IH]. apply appendPyRaw_text in Hv as (v & Hv & ->). exists v. by split.
    - apply Forall_fmap. eapply Forall_impl; [exact (sv_extra _ Hs)|]. by intros f [? _]. }
  exists mv, extras. split_and!.
  - rewrite <- pyObject_fields. unfold headerFields. rewrite map_app. f_equal. f_equal. cbn [map pyField pyText]. rewrite !writePyString_utf8. done.
  - unfold headerFields. cbn [sound app forallb]. rewrite !utf8ok_runes, Hmv, Hex, !Itoa_number by apply (sv_archived _ Hs). done.
  - pose proof (sv_extra _ Hs) as Hx. apply Forall_forall. intros kv Hkv. assert (kv.1 ∈ map fst (s_metaExtra s)) as Hin by (rewrite <- Hk; apply list_elem_of_In, in_map, list_elem_of_In, Hkv).
    apply list_elem_of_In, in_map_iff in Hin as (f & <- & Hf). rewrite Forall_forall in Hx. apply (Hx f). by apply list_elem_of_In.
Qed.

Lemma not_key extras key : key ∈ metadataKeys → Forall (λ kv : string * json, kv.1 ∉ metadataKeys) extras → Forall (λ kv, kv.1 ≠ key) extras.
Proof. intros Hk Hx. eapply Forall_impl; [exact Hx|]. intros kv Hn Heq. apply Hn. by rewrite Heq. Qed.

Lemma plain_number_text s : all_digits s = true → Contains s "." || Contains s "e" || Contains s "E" = false.
Proof.
  intros Hd. assert (∀ c, is_digit c = false → Contains s (String c "") = false) as H.
  { intros c Hc. unfold Contains. apply bool_decide_eq_false_2. intros [i Hi]. revert i Hi. induction s as [|d s IH]; [done|]. cbn [all_digits] in Hd. apply andb_true_iff in Hd as [Hdd Hd].
    intros i. cbn [Index]. destruct (HasPrefix (String d s) (String c "")) eqn:E.
    - cbn in E. apply andb_true_iff in E as [E _]. apply Ascii.eqb_eq in E. congruence.
    - destruct (Index s (String c "")) as [j|] eqn:Ej; [|done]. by destruct (IH Hd j). }
  by rewrite !H.
Qed.

(** ** Loading what was saved *)

Lemma fileOf_app a b : fileOf (a ++ b) = fileOf a +:+ fileOf b.
Proof. induction a as [|line a IH]; [done|]. cbn [app fileOf foldr]. fold (fileOf (a ++ b)). fold (fileOf a). by rewrite IH, <- !sapp_assoc. Qed.

Lemma splitLines_fileOf lines : Forall (λ line, plainLine line = true ∧ line ≠ "") lines → splitLines (fileOf lines) = lines.
Proof.
  induction 1 as [|line lines [Hp Hne] _ IH]; [done|]. cbn [fileOf foldr]. fold (fileOf lines). rewrite sapp_assoc, splitLines_closed by (right; eauto). rewrite IH. unfold splitLines. rewrite splitLines_plain by auto. done.
Qed.

(** A line of a given type: a record of a message has any other than these two. *)
Definition typed (ty line : string) : Prop := plainLine line = true ∧ line ≠ "" ∧ TrimSpace line = line ∧ ∀ fields, objectFields line = Some fields → stringField fields "_type" = Some ty.

Lemma typed_quiet ty line : ty = "metadata" ∨ ty = "provider_state" → typed ty line → recordOf line = None.
Proof.
  intros Hty (_ & _ & Ht & Hf). unfold recordOf, isMessageRecord. rewrite Ht. destruct (objectFields line) as [fields|]; [|by rewrite andb_false_r]. rewrite (Hf fields eq_refl). cbn [default].
  destruct Hty as [->| ->]; by rewrite andb_false_r.
Qed.

(** A written record has the type that was written. *)
Lemma written_typed fields ty : sound (JObj (("_type", JStr ty) :: fields)) = true → utf8ok ty = true → Forall (λ kv, kv.1 ≠ "_type") fields → typed ty (pyText (JObj (("_type", JStr ty) :: fields))).
Proof.
  intros Hs Hu Hk. split; [by apply noLow_plain, noLow_pyText|]. split; [done|]. split; [by apply written_trim|]. intros fs ->%written_fields; [|done].
  unfold stringField. cbn [rawFields map fieldValue]. fold (rawFields fields). rewrite absent_field by done. cbn match. change (String.eqb "_type" "_type") with true. cbn match. cbn [mbind option_bind].
  unfold unmarshalString. pose proof (decode_pyText (JStr ty) "" ltac:(done) ltac:(cbn; lia) eq_refl) as Hd. rewrite sapp_nil_r in Hd. unfold json_Valid. by rewrite Hd.
Qed.

Lemma header_typed s header : saveable s → metadataRecord s = Some header → typed "metadata" header.
Proof.
  intros Hs (meta & extras & -> & Hsound & Hk)%metadataRecord_text; [|done]. apply written_typed; [done|done|]. repeat constructor; try done. apply not_key; [|done]. by left.
Qed.

Lemma provider_typed s lines : saveable s → providerRecord s = Some lines → Forall (typed "provider_state") lines.
Proof.
  intros Hs. unfold providerRecord. destruct (s_providerState s) as [state|]; [|intros [= <-]; constructor]. destruct (String.eqb state ""); [intros [= <-]; constructor|].
  assert (∀ lines, (text ← appendPyRaw state; Some [pyObject [pyMember "_type" (writePyString "provider_state"); pyMember "state" text]]) = Some lines → Forall (typed "provider_state") lines) as Hw.
  { intros ls (text & (v & Hv & ->)%appendPyRaw_text & Hl)%bind_Some. apply (inj Some) in Hl as <-. constructor; [|constructor].
    change (pyObject _) with (pyText (JObj [("_type", JStr "provider_state"); ("state", v)])). apply written_typed; [cbn; by rewrite Hv|done|by repeat constructor]. }
  destruct (s_providerLine s) as [line|] eqn:El; [|apply Hw]. case_bool_decide; [|apply Hw]. intros [= <-]. constructor; [|constructor].
  destruct (sv_provider _ Hs line El) as (H1 & H2 & H3 & fields & Hf & Ht). split_and!; [done..|]. intros fs Hfs. congruence.
Qed.

Lemma okRecord_line line : okRecord line = true → plainLine line = true ∧ line ≠ "" ∧ recordOf line = Some line.
Proof.
  unfold okRecord. intros [[[Hp Ht]%andb_true_iff Hn]%andb_true_iff Hm]%andb_true_iff. apply String.eqb_eq in Ht. unfold recordOf. rewrite Ht, Hn, Hm. split_and!; [done|by destruct line|done].
Qed.

Section Load.
Context `{TimeLib}.

(** Only a metadata record changes the archive offset. *)
Lemma consumeLine_archived s line : (∀ fields, objectFields (TrimSpace line) = Some fields → default "" (stringField fields "_type") ≠ "metadata") → s_lastArchived (consumeLine s line) = s_lastArchived s.
Proof.
  intros Hn. unfold consumeLine. destruct (String.eqb _ ""); [done|]. destruct (objectFields (TrimSpace line)) as [fields|]; [|done]. specialize (Hn fields eq_refl). apply String.eqb_neq in Hn. rewrite Hn.
  destruct (String.eqb _ "provider_state"); [|done]. unfold applyProviderStateRecord. by repeat case_match.
Qed.

Lemma header_archived s header s0 : saveable s → metadataRecord s = Some header → is_Some (objectFields header) → s_lastArchived (consumeLine s0 header) = s_lastArchived s.
Proof.
  intros Hs Hh [fs Hfs]. destruct (header_typed s header Hs Hh) as (_ & Hne & Ht & Hty). unfold consumeLine. rewrite Ht, Hfs, (Hty fs Hfs). apply String.eqb_neq in Hne. rewrite Hne. cbn [default]. change (String.eqb "metadata" "metadata") with true. cbn match.
  assert (archiveOffset fs = s_lastArchived s) as Ha.
  { destruct (metadataRecord_text s header Hs Hh) as (meta & extras & -> & Hsound & Hk). apply written_fields in Hfs as ->; [|done]. unfold archiveOffset, intField. cbn [headerFields app rawFields map fieldValue]. fold (rawFields extras).
    rewrite absent_field by (apply not_key; [|done]; do 5 right; by left). cbn match. change (String.eqb "last_consolidated" "last_archived") with false. cbn match. change (String.eqb "last_archived" "last_archived") with true. cbn match. cbn [mbind option_bind pyText].
    pose proof (sv_archived _ Hs) as Hr. pose proof (sv_size _ Hs) as Hz. destruct (Itoa_digits (s_lastArchived s) ltac:(lia)) as (Hd & _ & _).
    unfold unmarshalNumber. pose proof (decode_pyText (JNum (Itoa (s_lastArchived s))) "" (Itoa_number (s_lastArchived s) ltac:(lia)) ltac:(cbn; lia) eq_refl) as Hdec. rewrite sapp_nil_r in Hdec. cbn [pyText] in Hdec. rewrite Hdec.
    cbn [mbind option_bind]. rewrite plain_number_text, Atoi_Itoa by (done || lia). done. }
  unfold applyMetadataRecord. rewrite Ha. by repeat case_match.
Qed.

Lemma fromLines_messageLines lines s : fromLines lines s → messageLines s = Some lines.
Proof.
  intros (H1 & H2 & H3). unfold messageLines. apply mapM_Some. apply Forall2_same_length_lookup. split; [rewrite length_imap, H1, length_map; done|].
  intros i [j m] line Hi Hl. rewrite list_lookup_imap, H1 in Hi. assert (∀ {B} (f : string → B), map f lines !! i = Some (f line)) as Hm by (intros B f; change (map f lines) with (f <$> lines); by rewrite list_lookup_fmap, Hl).
  rewrite Hm in Hi. cbn in Hi. injection Hi as <- <-. unfold messageLine. rewrite H2, H3, !Hm. cbn. by rewrite bool_decide_eq_true_2.
Qed.

(** What was saved is loaded: provided each message has a record that can be read as one,
    what is loaded has, message by message, what those records say, keeps the records,
    which the next save writes again unchanged, and has the archive offset. *)
Lemma saved_loaded s data lines now :
  saveable s → renderSession s = Some data → messageLines s = Some lines → Forall (λ line, okRecord line = true) lines → is_Some (metadataRecord s ≫= objectFields) →
  let s' := loadFiles (s_key s) now (Some data) None in
  fromLines lines s' ∧ messageLines s' = Some lines ∧ s_lastArchived s' = s_lastArchived s.
Proof.
  intros Hs Hr Hl Hok Hread. unfold renderSession in Hr. rewrite Hl in Hr. destruct (metadataRecord s) as [header|] eqn:Hh; [|done]. apply bind_Some in Hr as (? & [= <-] & Hr). apply bind_Some in Hr as (provider & Hp & Hd).
  cbn [mbind option_bind] in Hread. apply bind_Some in Hd as (? & [= <-] & Hd). apply (inj Some) in Hd as <-. pose proof (header_typed s header Hs Hh) as Hty. pose proof (provider_typed s provider Hs Hp) as Hpt.
  assert (splitLines (fileOf (header :: provider ++ lines)) = header :: provider ++ lines) as Hsplit.
  { apply splitLines_fileOf. constructor; [by destruct Hty as (? & ? & _)|]. apply Forall_app. split; (eapply Forall_impl; [eassumption|]); [by intros line (? & ? & _)|]. intros line (? & ? & _)%okRecord_line. done. }
  assert (recordLines (fileOf (header :: provider ++ lines)) = lines) as Hrec.
  { unfold recordLines. rewrite Hsplit. cbn [omap list_omap]. rewrite (typed_quiet "metadata" header) by auto. rewrite omap_app. assert (omap recordOf provider = []) as ->.
    { clear - Hpt. induction Hpt as [|line l Hx _ IH]; [done|]. cbn. by rewrite (typed_quiet "provider_state" line) by auto. }
    clear - Hok. cbn [app]. induction Hok as [|line l (_ & _ & Hx)%okRecord_line _ IH]; [done|]. cbn. by rewrite Hx, IH. }
  pose proof (consume_new (s_key s) now (fileOf (header :: provider ++ lines))) as Hf. rewrite Hrec in Hf.
  assert (s_lastArchived (consumeRecords (fileOf (header :: provider ++ lines)) (newSession localSeconds (s_key s) now)) = s_lastArchived s) as Ha.
  { unfold consumeRecords. rewrite Hsplit. cbn [foldl]. rewrite <- (header_archived s header (newSession localSeconds (s_key s) now) Hs Hh Hread). generalize (consumeLine (newSession localSeconds (s_key s) now) header). intros s1.
    assert (Forall (λ line, ∀ fields, objectFields (TrimSpace line) = Some fields → default "" (stringField fields "_type") ≠ "metadata") (provider ++ lines)) as Hall.
    { apply Forall_app. split; (eapply Forall_impl; [eassumption|]).
      - intros line (_ & _ & Ht & Hx) fields. rewrite Ht. intros Hf'. by rewrite (Hx fields Hf').
      - intros line Hx fields Hf'. unfold okRecord in Hx. apply andb_true_iff in Hx as [[[_ Ht]%andb_true_iff _]%andb_true_iff Hm]. apply String.eqb_eq in Ht. rewrite Ht in Hf'. unfold isMessageRecord in Hm. rewrite Hf' in Hm.
        apply andb_true_iff in Hm as [Hm _]. intros E. by rewrite E in Hm. }
    clear - Hall. revert s1 Hall. generalize (provider ++ lines). intros all s1 Hall. revert s1. induction Hall as [|line ls Hx _ IH]; intros s1; [done|]. cbn [foldl]. rewrite IH. by apply consumeLine_archived. }
  cbn zeta. assert (loadFiles (s_key s) now (Some (fileOf (header :: provider ++ lines))) None = consumeRecords (fileOf (header :: provider ++ lines)) (newSession localSeconds (s_key s) now)) as ->.
  { unfold loadFiles, resetArchived. rewrite Ha. destruct Hf as (-> & _). rewrite length_map. assert (length lines = length (s_messages s)) as El.
    { unfold messageLines in Hl. apply mapM_Some, Forall2_length in Hl. by rewrite length_imap in Hl. }
    pose proof (sv_archived _ Hs). destruct (Z.ltb_spec (s_lastArchived s) 0); [lia|]. destruct (Z.ltb_spec (Z.of_nat (length lines)) (s_lastArchived s)); [lia|]. done. }
  split_and!; [done|by apply fromLines_messageLines|done].
Qed.
End Load.

(** ** What is loaded can be saved *)

Lemma goAny_numbers v : numbersOk v = true → numbersOk (goAny v) = true.
Proof.
  induction v as [|[]|lit|s|items IH|fields IH] using json_nested_ind; cbn [goAny numbersOk]; [done..| |]; rewrite !forallb_forall; rewrite Forall_forall in IH; intros Hn x Hx.
  - apply in_map_iff in Hx as (y & <- & Hy). apply IH; [by apply list_elem_of_In|by apply Hn].
  - destruct x as [k x]. unfold sortFields in Hx. apply list_elem_of_In in Hx. rewrite sort_by_perm in Hx. apply elem_of_map_to_list, elem_of_list_to_map_2 in Hx.
    apply list_elem_of_In, in_rev, in_map_iff in Hx as ([k' y] & [= <- <-] & Hy). apply (IH (k', y)); [by apply list_elem_of_In|by apply (Hn (k', y))].
Qed.

Lemma objectFields_keys data fields : objectFields data = Some fields → Forall (λ f, utf8ok f.1 = true) fields.
Proof.
  unfold objectFields. destruct (skip_space data) as [|b s]; [done|]. destruct (negb _); [done|]. destruct (skip_space s) as [|e t]; [done|]. destruct (byteZ e =? 125); [intros [= <-]; constructor|].
  generalize (slen s). intros fuel. revert s fields. induction fuel as [|fuel IH]; intros s fields; [done|]. cbn [membersFrom]. intros ([key u] & Hk%stringToken_sound & Hx)%bind_Some.
  destruct (skip_space u) as [|colon w]; [done|]. destruct (negb _); [done|]. apply bind_Some in Hx as ([val x] & _ & Hx). destruct (skip_space x) as [|g y]; [done|].
  destruct (byteZ g =? 44); [|destruct (byteZ g =? 125); [|done]; injection Hx as <-; by repeat constructor]. apply bind_Some in Hx as (fs & Hfs & [= <-]). constructor; [done|]. by eapply IH.
Qed.

(** What loading leaves in a session besides the transcript. *)
Record storable (s : Session) : Prop := {
  st_meta : map_Forall (λ _ v, numbersOk v = true) (s_meta s);
  st_extra : Forall (λ f, utf8ok f.1 = true ∧ f.1 ∉ metadataKeys) (s_metaExtra s);
  st_provider : ∀ line, s_providerLine s = Some line → plainLine line = true ∧ TrimSpace line = line ∧ line ≠ "" ∧ ∃ fields, objectFields line = Some fields ∧ stringField fields "_type" = Some "provider_state" }.

Section Saveable.
Context `{TimeLib}.

Lemma decodeOrderedObject_numbers raw meta order : decodeOrderedObject raw = Some (meta, order) → map_Forall (λ _ v, numbersOk v = true) meta.
Proof.
  unfold decodeOrderedObject. intros (fields & _ & (vs & Hvs & [= <- _])%bind_Some)%bind_Some. apply mapM_Some in Hvs. intros k v Hv. apply elem_of_list_to_map_2, list_elem_of_In, in_rev, list_elem_of_In, list_elem_of_lookup in Hv as [i Hi].
  destruct (Forall2_lookup_r _ _ _ i (k, v) Hvs Hi) as (f & _ & ([x rest] & Hd & [= _ <-])%bind_Some). apply goAny_numbers, sound_numbersOk. unfold decode in Hd. by apply json_sound in Hd as [? _].
Qed.

Lemma applyMetadata_storable line fields s : objectFields line = Some fields → storable s → storable (applyMetadataRecord fields s).
Proof.
  intros Hf%objectFields_keys [H1 H2 H3]. unfold applyMetadataRecord. set (s1 := match fieldValue fields "metadata" with Some _ => _ | None => _ end).
  assert (map_Forall (λ _ v, numbersOk v = true) (s_meta s1) ∧ s_providerLine s1 = s_providerLine s) as [Hm Hp].
  { subst s1. destruct (fieldValue fields "metadata") as [raw|]; [|split; [apply map_Forall_empty|done]]. destruct (decodeOrderedObject raw) as [[meta order]|] eqn:Ed; [|split; [apply map_Forall_empty|done]].
    destruct (captureMetaRaw raw). split; [|done]. by eapply decodeOrderedObject_numbers. }
  destruct (default _ _) as [created createdStr]. destruct (default _ _) as [updated updatedStr]. constructor; cbn [with_metaExtra SetLastArchived with_times s_meta s_metaExtra s_providerLine]; [done| |by rewrite Hp].
  apply Forall_forall. intros f Hin. apply list_elem_of_In, filter_In in Hin as [Hin Hn]. rewrite Forall_forall in Hf. split; [by apply Hf, list_elem_of_In|].
  intros Hk. apply negb_true_iff in Hn. assert (existsb (String.eqb f.1) metadataKeys = true) as Hy by (apply existsb_exists; exists f.1; split; [by apply list_elem_of_In|by apply String.eqb_refl]). congruence.
Qed.

Lemma consumeLine_storable s line : plainLine line = true → storable s → storable (consumeLine s line).
Proof.
  intros Hp Hs. unfold consumeLine. destruct (String.eqb (TrimSpace line) "") eqn:He; [done|]. destruct (objectFields (TrimSpace line)) as [fields|] eqn:Ho; [|done].
  destruct (String.eqb _ "metadata"); [by eapply applyMetadata_storable|]. destruct Hs as [H1 H2 H3].
  destruct (String.eqb (default "" _) "provider_state") eqn:Et; [|by constructor]. unfold applyProviderStateRecord.
  assert (storable (with_provider None None None s)) as Hnone by (by constructor). destruct (fieldValue fields "state") as [raw|]; [|done]. destruct (validProviderState raw); [|done]. constructor; [done..|].
  intros l [= <-]. apply String.eqb_eq in Et. split_and!; [by apply plainLine_TrimSpace|by eapply TrimSpace_record|by apply String.eqb_neq|]. exists fields. split; [done|]. destruct (stringField fields "_type"); cbn in Et; congruence.
Qed.

Lemma consumeRecords_storable data s : storable s → storable (consumeRecords data s).
Proof.
  unfold consumeRecords. pose proof (splitLines_all_plain data "" false eq_refl) as Hp. fold (splitLines data) in Hp. revert s. induction Hp as [|line lines Hl _ IH]; intros s Hs; [done|]. cbn [foldl]. by apply IH, consumeLine_storable.
Qed.

Lemma storable_same s s' : s_meta s' = s_meta s → s_metaExtra s' = s_metaExtra s → s_providerLine s' = s_providerLine s → storable s → storable s'.
Proof. intros E1 E2 E3 [H1 H2 H3]. constructor; by rewrite ?E1, ?E2, ?E3. Qed.

Lemma loadFiles_storable key now file journal : storable (loadFiles key now file journal).
Proof.
  unfold loadFiles, resetArchived. assert (storable (newSession localSeconds key now)) as Hnew by (constructor; [apply map_Forall_empty|constructor|done]).
    set (s0 := match file with Some _ => _ | None => _ end). assert (storable s0) as H0 by (subst s0; destruct file; [by apply consumeRecords_storable|done]).
    clearbody s0. assert (∀ j, storable (mergeJournal s0 j)) as Hm by (intros j; unfold mergeJournal; destruct (_ <? _)%nat; [by eapply (storable_same s0)|done]).
    destruct journal as [[data mtime]|]; [specialize (Hm (consumeRecords data (newSession localSeconds key now))); revert Hm; generalize (mergeJournal s0 (consumeRecords data (newSession localSeconds key now))); intros s2 Hm|];
      [destruct mtime|]; destruct (_ || _); first [done|by eapply (storable_same s2)|by eapply (storable_same s0)].
Qed.
End Saveable.
