(* ===== verification/MessageRecords.v ===== *)
(** * A message is written and read back

    The texts of a message go through two encoders before they are on disk,
    [json.Marshal] inside [MarshalJSON] and Python's syntax in [encodeMessage].  For a
    message of texts, which is any user, system or tool message the program makes, what
    is read from the record is the message that was written. *)

From Stdlib Require Import Ascii.
From S2P Require Import Prelude GoText GoLib PyFloat GoFmt Core GoJson PyJson Governance Response Provider SessionText Session SessionKeys SessionCodec SessionRecords SessionFacts SessionFiles SessionRoundtrip.
#[local] Open Scope string_scope.
#[local] Open Scope list_scope.
#[local] Open Scope Z_scope.

(** ** String literals of encoding/json *)

Definition goRune (r : Z) : string := goChar r (of_bytes (EncodeRune r)).
Definition goRunes (rs : list Z) : string := foldr (λ r t, goRune r +:+ t) "" rs.

(** The character that replaces a byte that is not UTF-8 is escaped, unlike the same
    character in the text. *)
Lemma unquote_goRune fuel r t : valid_rune r →
  unquoteRunes (S fuel) (goRune r +:+ t) = ('(rs, rest) ← unquoteRunes fuel t; Some (r :: rs, rest)).
Proof.
  intros Hv. unfold goRune, goChar.
  destruct (Z.eqb_spec r 34) as [->|]; [done|]. destruct (Z.eqb_spec r 92) as [->|]; [done|]. destruct (Z.eqb_spec r 8) as [->|]; [done|].
  destruct (Z.eqb_spec r 12) as [->|]; [done|]. destruct (Z.eqb_spec r 10) as [->|]; [done|]. destruct (Z.eqb_spec r 13) as [->|]; [done|].
  destruct (Z.eqb_spec r 9) as [->|]; [done|]. destruct (Z.ltb_spec r 0x20) as [Hr|Hr]; cbn [orb].
  - assert (0 ≤ r < 0x20) as Hr' by (unfold valid_rune in Hv; lia). clear -Hr'.
    rewrite <- (Z2Nat.id r) by lia. assert (Z.to_nat r < 32)%nat as Hk by lia. clear Hr'. revert Hk. generalize (Z.to_nat r). intros k Hk.
    do 32 (destruct k as [|k]; [reflexivity|]). lia.
  - destruct (existsb (Z.eqb r) _) eqn:He.
    + apply existsb_exists in He as (x & Hx & ->%Z.eqb_eq). repeat (destruct Hx as [<-|Hx]; [reflexivity|]). destruct Hx.
    + destruct (plain_first r t Hv) as (c & u & E & H1 & H2 & H3); [done..|]. pose proof (DecodeRune_EncodeRune r t Hv) as Hd.
      pose proof (sdrop_app (of_bytes (EncodeRune r)) t) as Hs. rewrite slen_of_bytes in Hs. rewrite E in *. cbn [unquoteRunes].
      rewrite (proj2 (Z.eqb_neq _ _) H1), (proj2 (Z.eqb_neq _ _) H2), (proj2 (Z.ltb_ge _ _)) by lia. by rewrite Hd, Hs.
Qed.

Lemma goRune_length r : (1 ≤ slen (goRune r))%nat.
Proof. unfold goRune, goChar. pose proof (EncodeRune_length r). repeat case_match; rewrite ?slen_of_bytes; cbn; lia. Qed.

(** A text that is UTF-8 is written rune by rune. *)
Lemma goChars_of_runes fuel rs : Forall valid_rune rs → (slen (of_runes rs) ≤ fuel)%nat → goChars fuel (of_runes rs) = goRunes rs.
Proof.
  intros Hv. revert fuel. induction Hv as [|r rs Hr Hv IH]; intros fuel Hf; [by destruct fuel|].
  destruct (of_runes (r :: rs)) as [|c s] eqn:Es; [by apply of_runes_nonempty in Es|]. destruct fuel as [|fuel]; [cbn in Hf; lia|].
  change (goRunes (r :: rs)) with (goRune r +:+ goRunes rs). rewrite <- Es in *. cbn [of_runes] in *. pose proof (DecodeRune_EncodeRune r (of_runes rs) Hr) as Hd.
  destruct (of_bytes (EncodeRune r) +:+ of_runes rs) as [|c' s'] eqn:Eb; [done|]. cbn [goChars]. rewrite Hd. rewrite <- Eb in *. pose proof (EncodeRune_length r) as Hl.
  assert ((r =? RuneError) && (length (EncodeRune r) =? 1)%nat = false) as Hne.
  { apply andb_false_iff. destruct (Z.eqb_spec r RuneError) as [->|]; [right; done|by left]. }
  rewrite Hne. assert (stake (length (EncodeRune r)) (of_bytes (EncodeRune r) +:+ of_runes rs) = of_bytes (EncodeRune r)) as ->.
  { rewrite <- slen_of_bytes. rewrite stake_app_le by lia. generalize (of_bytes (EncodeRune r)). intros u. unfold slen. induction u as [|x u IHu]; [done|]. cbn. by rewrite IHu. }
  pose proof (sdrop_app (of_bytes (EncodeRune r)) (of_runes rs)) as Hs. rewrite slen_of_bytes in Hs. rewrite Hs. rewrite IH; [done|].
  rewrite slen_app, slen_of_bytes in Hf. lia.
Qed.

Lemma stringToken_goString s t : utf8ok s = true → stringToken (goString s +:+ t) = Some (s, t).
Proof.
  intros Hs%utf8ok_eq. unfold goString. rewrite <- Hs at 1 2. rewrite goChars_of_runes by (apply runes_valid || done). cbn [String.append stringToken].
  rewrite byteZ_Zbyte, Z.eqb_refl by lia. rewrite <- sapp_assoc. cbn [String.append].
  assert (∀ rs fuel, Forall valid_rune rs → (length rs < fuel)%nat → unquoteRunes fuel (goRunes rs +:+ String (Zbyte 34) t) = Some (rs, t)) as Hu.
  { intros rs fuel Hv. revert fuel. induction Hv as [|r rs Hr Hv IH]; intros fuel Hf; (destruct fuel as [|fuel]; [cbn in Hf; lia|]); [done|].
    cbn [goRunes foldr]. rewrite <- sapp_assoc, unquote_goRune by done. cbn in Hf. fold (goRunes rs). by rewrite IH by lia. }
  rewrite Hu; [by rewrite <- Hs at 2|apply runes_valid|]. rewrite slen_app. assert (length (runes s) ≤ slen (goRunes (runes s)))%nat; [|cbn; lia].
  clear. generalize (runes s). intros rs. induction rs as [|r rs IH]; cbn [goRunes foldr length]; [lia|]. rewrite slen_app. pose proof (goRune_length r). fold (goRunes rs). lia.
Qed.

(** ** An object of texts *)

Definition goTexts (texts : list (string * string)) : list (string * RawJSON) := map (λ '(k, s), (k, goString s)) texts.
Definition texts_ok (texts : list (string * string)) : Prop := Forall (λ f, utf8ok f.1 = true ∧ utf8ok f.2 = true) texts.

Lemma decode_goString s t : utf8ok s = true → decode (goString s +:+ t) = Some (JStr s, t).
Proof.
  intros Hs. pose proof (stringToken_goString s t Hs) as Ht. unfold decode. unfold goString in *. cbn [String.append json_value] in *. cbn [skip_space]. change (is_json_space (Zbyte 34)) with false. cbn match.
  change (byteZ (Zbyte 34) =? 123) with false. change (byteZ (Zbyte 34) =? 91) with false. change (byteZ (Zbyte 34) =? 34) with true. cbn match. rewrite Ht. done.
Qed.

Lemma membersFrom_goTexts f texts fuel : texts_ok (f :: texts) → (length (f :: texts) ≤ fuel)%nat →
  membersFrom fuel (Join (map (λ '(key, raw), goString key +:+ ":" +:+ raw) (goTexts (f :: texts))) "," +:+ "}") = Some (goTexts (f :: texts)).
Proof.
  assert (∀ s t, skip_space (goString s +:+ t) = goString s +:+ t) as Hq by (intros s t; by apply skip_space_first).
  assert (∀ s t, utf8ok s = true → rawValue (goString s +:+ t) = Some (goString s, t)) as Hraw.
  { intros s t Hs. unfold rawValue. rewrite Hq, decode_goString by done. cbn [mbind option_bind]. by rewrite consumed_app. }
  revert f fuel. induction texts as [|g texts IH]; intros [k s] fuel Hok Hf; inversion Hok as [|?? [Hk Hs] Hrest]; subst; (destruct fuel as [|fuel]; [cbn in Hf; lia|]); cbn [fst snd] in Hk, Hs.
  - cbn [goTexts map Join membersFrom]. rewrite <- !sapp_assoc, Hq, stringToken_goString by done. cbn [mbind option_bind]. change (":" +:+ ?x) with (String ":" x). rewrite skip_space_first by done.
    change (byteZ ":" =? 58) with true. cbn [negb]. by rewrite Hraw.
  - change (Join (map (λ '(key, raw), goString key +:+ ":" +:+ raw) (goTexts ((k, s) :: g :: texts))) ",")
      with ((goString k +:+ String ":" (goString s)) +:+ String "," (Join (map (λ '(key, raw), goString key +:+ ":" +:+ raw) (goTexts (g :: texts))) ",")).
    rewrite <- !sapp_assoc. cbn [membersFrom String.append]. rewrite <- ?sapp_assoc. cbn [String.append]. rewrite Hq, stringToken_goString by done. cbn [mbind option_bind]. rewrite skip_space_first by done.
    change (byteZ ":" =? 58) with true. cbn [negb]. rewrite <- ?sapp_assoc. cbn [String.append]. rewrite Hraw by done. cbn [mbind option_bind]. rewrite skip_space_first by done. change (byteZ "," =? 44) with true. cbn match.
    rewrite IH; [done|done|cbn in *; lia].
Qed.

Lemma objectFields_goTexts f texts : texts_ok (f :: texts) → objectFields (writeFields (goTexts (f :: texts))) = Some (goTexts (f :: texts)).
Proof.
  intros Hok. unfold writeFields, objectFields. change ("{" +:+ ?x) with (String "{" x). rewrite skip_space_first by done. change (byteZ "{" =? 123) with true. cbn [negb].
  set (body := Join _ ","). assert (∃ tl, body = String (Zbyte 34) tl) as [tl Hj].
  { subst body. destruct f as [k s]. cbn [goTexts map Join]. unfold goString at 1. destruct (map _ (map _ texts)); cbn [String.append]; eauto. }
  assert (length (f :: texts) ≤ slen (body +:+ "}"))%nat as Hlen.
  { subst body. rewrite slen_app. clear. revert f. induction texts as [|g texts IH]; intros [k s]; [cbn; lia|].
    change (Join (map (λ '(key, raw), goString key +:+ ":" +:+ raw) (goTexts ((k, s) :: g :: texts))) ",")
      with ((goString k +:+ ":" +:+ goString s) +:+ "," +:+ Join (map (λ '(key, raw), goString key +:+ ":" +:+ raw) (goTexts (g :: texts))) ",").
    specialize (IH g). rewrite !slen_app. cbn [length] in *. change (slen ",") with 1%nat. lia. }
  pose proof (membersFrom_goTexts f texts (slen (body +:+ "}")) Hok Hlen) as Hm. fold body in Hm. rewrite Hj in *. cbn [String.append] in *. rewrite skip_space_first by done.
  change (byteZ (Zbyte 34) =? 125) with false. cbn match. exact Hm.
Qed.

(** ** Messages of texts *)

(** A message made of texts, as the program makes them. *)
Record plainMessage (m : Message) : Prop := {
  pm_content : ∃ text, m_Content m = TextContent text ∧ utf8ok text = true;
  pm_calls : m_ToolCalls m = None;
  pm_thinking : m_ThinkingBlocks m = None;
  pm_extra : m_extra m = [];
  pm_present : m_present m = ∅;
  pm_utf8 : forallb utf8ok [m_Role m; m_Timestamp m; m_ToolCallID m; m_Name m; m_ReasoningContent m] = true }.

Definition optText (key s : string) : list (string * string) := if String.eqb s "" then [] else [(key, s)].
Definition optionalTexts (m : Message) : list (string * string) :=
  optText "timestamp" (m_Timestamp m) ++ optText "tool_call_id" (m_ToolCallID m) ++ optText "name" (m_Name m) ++ optText "reasoning_content" (m_ReasoningContent m).
Definition messageTexts (m : Message) : list (string * string) := [("role", m_Role m); ("content", c_Text (m_Content m))] ++ optionalTexts m.

Definition jsonTexts (texts : list (string * string)) : list (string * json) := map (λ '(k, s), (k, JStr s)) texts.

Lemma goTexts_opt key s : omitEmpty key (String.eqb s "") (goString s) = goTexts (optText key s).
Proof. unfold omitEmpty, optText. by destruct (String.eqb s ""). Qed.

Lemma messageFields_texts m : plainMessage m → messageFields m = Some (goTexts (messageTexts m)).
Proof.
  intros [(text & Hc & _) H1 H2 H3 H4 _]. unfold messageFields, textField, present. rewrite Hc, H1, H2, H3, H4. cbn [IsZero TextContent c_isText negb andb marshalContent c_Text mbind option_bind isSome omitEmpty app List.filter].
  rewrite !(bool_decide_eq_false_2 (_ ∈ (∅ : gset string))) by set_solver. cbn [negb andb]. rewrite !andb_true_r, !goTexts_opt. cbn [omitEmpty app]. unfold messageTexts, optionalTexts, goTexts. rewrite !map_app, app_nil_r, Hc. done.
Qed.

Lemma optText_ok key s : utf8ok key = true → utf8ok s = true → texts_ok (optText key s).
Proof. intros Hk Hs. unfold optText. destruct (String.eqb s ""); [constructor|by repeat constructor]. Qed.

Lemma messageTexts_ok m : plainMessage m → texts_ok (messageTexts m).
Proof.
  intros [(text & Hc & Ht) _ _ _ _ Hu]. cbn [forallb] in Hu. apply andb_true_iff in Hu as [H1 Hu]. apply andb_true_iff in Hu as [H2 Hu]. apply andb_true_iff in Hu as [H3 Hu]. apply andb_true_iff in Hu as [H4 Hu]. apply andb_true_iff in Hu as [H5 _].
  unfold messageTexts, optionalTexts. rewrite Hc. repeat (apply Forall_app; split); [by repeat constructor|by apply optText_ok..].
Qed.

Lemma goString_not_null s : String.eqb (TrimSpace (goString s)) "null" = false.
Proof.
  apply String.eqb_neq. unfold TrimSpace, goString. set (u := goChars _ s +:+ _).
  assert (TrimLeft_fuel (slen (String (Zbyte 34) u)) (String (Zbyte 34) u) = String (Zbyte 34) u) as -> by (change (slen (String (Zbyte 34) u)) with (S (slen u)); cbn [TrimLeft_fuel]; by rewrite DecodeRune_low).
  intros E. destruct (TrimRight_split (slen (String (Zbyte 34) u)) (String (Zbyte 34) u)) as [b Hb]. rewrite E in Hb. discriminate.
Qed.

Lemma encodeField_text m k s : calls m = [] → utf8ok s = true → encodeField m (k, goString s) = Some (pyField (k, JStr s)).
Proof.
  intros Hc Hs. unfold encodeField. rewrite Hc, goString_not_null, !andb_false_r. unfold appendPyRaw. pose proof (decode_goString s "" Hs) as Hd. rewrite sapp_nil_r in Hd. by rewrite Hd.
Qed.

Lemma encodeMessage_text m : plainMessage m → encodeMessage m = Some (pyText (JObj (jsonTexts (messageTexts m)))).
Proof.
  intros Hm. pose proof (messageTexts_ok m Hm) as Hok. unfold encodeMessage, MarshalJSON. rewrite (messageFields_texts m Hm). cbn [fmap option_fmap option_map mbind option_bind].
  change (messageTexts m) with (("role", m_Role m) :: ("content", c_Text (m_Content m)) :: optionalTexts m) in *. rewrite objectFields_goTexts by done. cbn [mbind option_bind].
  rewrite <- pyObject_fields. set (texts := _ :: _). assert (mapM (encodeField m) (goTexts texts) = Some (map pyField (jsonTexts texts))) as ->; [|done].
  subst texts. generalize dependent (("role", m_Role m) :: ("content", c_Text (m_Content m)) :: optionalTexts m). intros texts Hok. apply mapM_Some. unfold goTexts, jsonTexts. rewrite map_map.
  induction Hok as [|[k s] texts [_ Hs] _ IH]; [constructor|]. cbn [map]. constructor; [|done]. apply encodeField_text; [|done]. unfold calls. by rewrite (pm_calls _ Hm).
Qed.

(** ** Reading it *)

Lemma unmarshal_written s : utf8ok s = true → unmarshalString (writePyString s) = Some s ∧ isNull (writePyString s) = false ∧ unmarshalContent (writePyString s) = Some (TextContent s).
Proof.
  intros Hs. pose proof (decode_pyText (JStr s) "" Hs ltac:(cbn; lia) eq_refl) as Hd. rewrite sapp_nil_r in Hd. cbn [pyText] in Hd. unfold unmarshalString, isNull, unmarshalContent, json_Valid. rewrite Hd. done.
Qed.

(** The fields of a message that carry its contents. *)
Definition contents (m : Message) :=
  (m_Role m, m_Content m, m_Timestamp m, m_ToolCalls m, m_ToolCallID m, m_Name m, m_ReasoningContent m, m_ThinkingBlocks m, m_extra m).

Lemma foldFields_app m a b : foldFields m (a ++ b) = (m ← foldFields m a; foldFields m b).
Proof. revert m. induction a as [|f a IH]; intros m; [done|]. cbn [app foldFields]. destruct (unmarshalField m f); [apply IH|done]. Qed.

(** Reading an optional text: an empty one is not there and the field stays empty. *)
Ltac read_optional s Hs :=
  destruct (unmarshal_written s Hs) as (Hu & Hn & _); unfold optText; destruct (String.eqb_spec s "") as [-> | _]; [eexists; reflexivity|];
  eexists; cbn [jsonTexts rawFields map pyText foldFields]; unfold unmarshalField, storeString; rewrite ?Hn, Hu; reflexivity.

Section Optional.
Context (role : string) (content : Content) (calls : option (list ToolCall)) (thinking : option (list RawJSON)) (extra : list (string * RawJSON)).
Implicit Types timestamp callID name reasoning : string.

Lemma read_timestamp s callID name reasoning pres : utf8ok s = true → ∃ pres',
  foldFields (mkMessage role content "" calls callID name reasoning thinking extra pres) (rawFields (jsonTexts (optText "timestamp" s)))
  = Some (mkMessage role content s calls callID name reasoning thinking extra pres').
Proof. intros Hs. read_optional s Hs. Qed.
Lemma read_callID s timestamp name reasoning pres : utf8ok s = true → ∃ pres',
  foldFields (mkMessage role content timestamp calls "" name reasoning thinking extra pres) (rawFields (jsonTexts (optText "tool_call_id" s)))
  = Some (mkMessage role content timestamp calls s name reasoning thinking extra pres').
Proof. intros Hs. read_optional s Hs. Qed.
Lemma read_name s timestamp callID reasoning pres : utf8ok s = true → ∃ pres',
  foldFields (mkMessage role content timestamp calls callID "" reasoning thinking extra pres) (rawFields (jsonTexts (optText "name" s)))
  = Some (mkMessage role content timestamp calls callID s reasoning thinking extra pres').
Proof. intros Hs. read_optional s Hs. Qed.
Lemma read_reasoning s timestamp callID name pres : utf8ok s = true → ∃ pres',
  foldFields (mkMessage role content timestamp calls callID name "" thinking extra pres) (rawFields (jsonTexts (optText "reasoning_content" s)))
  = Some (mkMessage role content timestamp calls callID name s thinking extra pres').
Proof. intros Hs. read_optional s Hs. Qed.
End Optional.

Lemma rawTexts_app a b : rawFields (jsonTexts (a ++ b)) = rawFields (jsonTexts a) ++ rawFields (jsonTexts b).
Proof. unfold rawFields, jsonTexts. by rewrite !map_app. Qed.

Lemma read_texts m : plainMessage m → ∃ m', foldFields zeroMessage (rawFields (jsonTexts (messageTexts m))) = Some m' ∧ contents m' = contents m.
Proof.
  intros [(text & Hc & Ht) Hcalls Hth Hex _ Hu]. destruct m as [role content timestamp calls callID name reasoning thinking extra pres].
  cbn [m_Role m_Content m_Timestamp m_ToolCalls m_ToolCallID m_Name m_ReasoningContent m_ThinkingBlocks m_extra forallb] in *. subst.
  apply andb_true_iff in Hu as [H1 Hu]. apply andb_true_iff in Hu as [H2 Hu]. apply andb_true_iff in Hu as [H3 Hu]. apply andb_true_iff in Hu as [H4 Hu]. apply andb_true_iff in Hu as [H5 _].
  unfold messageTexts, optionalTexts. cbn [m_Role m_Content m_Timestamp m_ToolCallID m_Name m_ReasoningContent c_Text TextContent]. rewrite !rawTexts_app, !foldFields_app.
  assert (∃ p, foldFields zeroMessage (rawFields (jsonTexts [("role", role); ("content", text)])) = Some (mkMessage role (TextContent text) "" None "" "" "" None [] p)) as [p ->].
  { destruct (unmarshal_written role H1) as (Hr & _), (unmarshal_written text Ht) as (_ & _ & Hx). change (rawFields (jsonTexts [("role", role); ("content", text)])) with [("role", writePyString role); ("content", writePyString text)].
    cbn [foldFields]. assert (∃ q, unmarshalField zeroMessage ("role", writePyString role) = Some (mkMessage role zeroContent "" None "" "" "" None [] q)) as [q ->] by (eexists; unfold unmarshalField; rewrite Hr; reflexivity).
    cbn [mbind option_bind]. unfold unmarshalField. rewrite Hx. eexists. reflexivity. }
  cbn [mbind option_bind]. rewrite foldFields_app. destruct (read_timestamp role (TextContent text) None None [] timestamp "" "" "" p H2) as [p1 ->]. cbn [mbind option_bind]. rewrite foldFields_app.
  destruct (read_callID role (TextContent text) None None [] callID timestamp "" "" p1 H3) as [p2 ->]. cbn [mbind option_bind]. rewrite foldFields_app.
  destruct (read_name role (TextContent text) None None [] name timestamp callID "" p2 H4) as [p3 ->]. cbn [mbind option_bind].
  destruct (read_reasoning role (TextContent text) None None [] reasoning timestamp callID name p3 H5) as [p4 ->]. eauto.
Qed.

(** The keys of a message's members. *)
Lemma messageTexts_keys m : Forall (λ kv, kv.1 ∈ ["role"; "content"; "timestamp"; "tool_call_id"; "name"; "reasoning_content"]) (jsonTexts (messageTexts m)).
Proof. unfold messageTexts, optionalTexts, optText. repeat destruct (String.eqb _ ""); cbn; repeat constructor; cbn [fst]; set_solver. Qed.

Lemma messageTexts_absent m key : key ∉ ["role"; "content"; "timestamp"; "tool_call_id"; "name"; "reasoning_content"] → fieldValue (rawFields (jsonTexts (messageTexts m))) key = None.
Proof. intros Hk. apply absent_field. eapply Forall_impl; [apply messageTexts_keys|]. intros kv Hin E. apply Hk. by rewrite <- E. Qed.

Lemma jsonTexts_sound texts : texts_ok texts → sound (JObj (jsonTexts texts)) = true ∧ (height (JObj (jsonTexts texts)) ≤ maxNestingDepth)%nat.
Proof.
  intros Hok. split.
  - cbn [sound]. induction Hok as [|[k s] texts [Hk Hs] _ IH]; [done|]. cbn [jsonTexts map forallb fst snd sound] in *. by rewrite Hk, Hs.
  - cbn [height]. assert (list_max (map (λ '(_, v), height v) (jsonTexts texts)) = 0)%nat as ->; [|unfold maxNestingDepth; lia].
    clear Hok. induction texts as [|[k s] texts IH]; [done|]. exact IH.
Qed.

(** The record of a message of texts. *)
Lemma plain_record m : plainMessage m →
  ∃ line, encodeMessage m = Some line ∧ okRecord line = true ∧ contents (readMessage line) = contents m.
Proof.
  intros Hm. destruct (jsonTexts_sound _ (messageTexts_ok m Hm)) as [Hs Hh]. set (v := JObj (jsonTexts (messageTexts m))) in *. exists (pyText v).
  pose proof (objectFields_text _ Hs Hh) as Hf. fold v in Hf. split; [by apply encodeMessage_text|]. split.
  - unfold okRecord, isMessageRecord, stringField. rewrite noLow_plain by by apply noLow_pyText. pose proof (written_trim _ Hs) as Ht. fold v in Ht. rewrite Ht, String.eqb_refl, Hf, messageTexts_absent by set_solver. done.
  - unfold readMessage, recordMessage, UnmarshalJSON, json_Valid. rewrite Hf. change (default [] (Some ?x)) with x. rewrite messageTexts_absent by set_solver.
    pose proof (decode_pyText v "" Hs Hh eq_refl) as Hd. rewrite sapp_nil_r in Hd. rewrite Hd. destruct (read_texts m Hm) as (m' & Hr & Hc). cbn [mbind option_bind skip_space String.eqb negb from_option fst]. by rewrite Hr.
Qed.

(** C37. A message of texts is written and read back: the record [encodeMessage] makes of
    it is one line, is recognised as a message, and stands for a message with the same
    role, content, timestamp, tool call identifier, name and reasoning, and nothing else. *)
Theorem message_record_roundtrip m : plainMessage m →
  ∃ line, encodeMessage m = Some line ∧ okRecord line = true ∧ contents (readMessage line) = contents m.
Proof. apply plain_record. Qed.

(** A tool result with quotes, a line feed and a character outside of ASCII. *)
Definition demoResult : Message :=
  mkMessage "tool" (TextContent (dq "say 'hi'" +:+ newline +:+ of_runes [8232; 233])) "2026-01-01T00:00:00" None "call_1" "exec" "" None [] ∅.
Lemma demoResult_plain : plainMessage demoResult.
Proof. split; [eexists; split; [reflexivity|vm_compute; reflexivity]|reflexivity..|vm_compute; reflexivity]. Qed.

Lemma message_record_roundtrip_witness :
  ∃ line, encodeMessage demoResult = Some line ∧ okRecord line = true ∧ contents (readMessage line) = contents demoResult.
Proof. exact (message_record_roundtrip demoResult demoResult_plain). Defined.
