(* ===== verification/SessionLife.v ===== *)
(** * Sessions of the store, whatever happens to them

    A [visit] is anything that can be done to a store and its sessions: opening a key,
    changing a session in memory, writing to its live metadata map, appending durably,
    saving, compacting, deleting, listing, the death of the process and its restart, and
    a change of the directory by somebody else.  Any system call of a visit may fail, be
    cut short or be the last one, and a journal may be torn.  [life] is the world after
    some visits, and the theorems here are about every session that is then in memory,
    the loaded ones among them:
    - a message that has a record is what its record reads as, and is saved as that
      record ([session_aligned]);
    - what [GetHistory] replays of it can be sent ([history_sendable]);
    - what a save of it writes is loaded with its messages ([session_file_roundtrip]).

    A caller that writes into the slices and maps inside of a message it was given is
    not modelled. *)

From Stdlib Require Import Ascii.
From S2P Require Import Prelude GoText GoLib PyFloat GoFmt Core GoJson PyJson Governance Response Provider SessionText Session SessionKeys SessionCodec SessionRecords SessionFacts SessionFiles SessionStore SessionStoreFacts SessionDurable SessionRoundtrip MessageRecords.
#[local] Open Scope string_scope.
#[local] Open Scope list_scope.
#[local] Open Scope Z_scope.
#[local] Open Scope io_scope.

(** ** Visits *)

Inductive visit :=
  | VOpen (key : string) | VChange (h : nat) (o : op) | VMeta (h : nat) (meta : gmap string json) | VAppend (h : nat) (ms : list Message)
  | VSave (h : nat) | VCompact (h : nat) (minBytes : Z) | VDelete (key : string) | VList | VRestart | VForeign (fs : gmap string File).

(** The map that [Metadata] returns is the session's own. *)
Definition setMeta (meta : gmap string json) (s : Session) : Session := with_meta meta (s_metaOrder s) (s_metaRaw s) (s_metaLoaded s) s.

Section Life.
Context `{TimeLib} (weather : nat → syscall → outcome) (clock : nat → Z) (randomHex : nat → string).

Definition after {A} (r : res A * World) : World := match r with (Crashed, w) => restart w | (_, w) => w end.

Definition visited (w : World) (v : visit) : World :=
  match v with
  | VOpen key => after (Open weather clock key w)
  | VChange h o => after (change h o w)
  | VMeta h meta => after (memory (setSession h (setMeta meta)) w)
  | VAppend h ms => after (AppendMessagesDurable weather clock h ms w)
  | VSave h => after (Save weather clock randomHex h w)
  | VCompact h minBytes => after (CompactJournal weather clock randomHex h minBytes w)
  | VDelete key => after (Delete weather key w)
  | VList => after (List_ weather w)
  | VRestart => restart w
  | VForeign fs => with_files (λ _, fs) w
  end.

Definition life (fs : gmap string File) (visits : list visit) : World := foldl visited (mkWorld fs emptyStore 0 0) visits.
End Life.

(** ** An invariant of all sessions in memory *)

Definition heap (w : World) : list Session := st_heap (w_store w).

Section Memory.
Context (P : Session → Prop).

(** The invariant is kept, and a result is as promised. *)
Definition safe {A} (m : IO A) (Q : A → Prop) : Prop :=
  ∀ w, Forall P (heap w) → Forall P (heap (m w).2) ∧ ∀ a, (m w).1 = Ok a → Q a.
Definition any {A} : A → Prop := λ _, True.

Lemma safe_ret {A} (a : A) (Q : A → Prop) : Q a → safe (ret a) Q.
Proof. intros Ha w Hw. split; [done|]. by intros ? [= <-]. Qed.
Lemma safe_fail {A} (Q : A → Prop) : safe fail Q.
Proof. done. Qed.
Lemma safe_crash {A} (Q : A → Prop) : safe crash Q.
Proof. done. Qed.
Lemma safe_io_bind {A B} (m : IO A) (k : A → IO B) Q R : safe m Q → (∀ a, Q a → safe (k a) R) → safe (bind m k) R.
Proof.
  intros Hm Hk w Hw. unfold bind. destruct (Hm w Hw) as [H1 H2]. destruct (m w) as [[a| |] w']; cbn in *; [|done|done]. apply (Hk a); auto.
Qed.
Lemma safe_io_then {A B} (m : IO A) (k : A → IO B) R : safe m any → (∀ a, safe (k a) R) → safe (bind m k) R.
Proof. intros Hm Hk. by eapply safe_io_bind. Qed.
Lemma safe_attempt {A} (m : IO A) : safe m any → safe (attempt m) any.
Proof. intros Hm w Hw. unfold attempt. destruct (Hm w Hw) as [H1 _]. by destruct (m w) as [[a| |] w']. Qed.

(** A step that leaves the sessions alone. *)
Lemma safe_quiet {A} (m : IO A) : (∀ w, heap (m w).2 = heap w) → safe m any.
Proof. intros Hm w Hw. by rewrite Hm. Qed.
Lemma safe_files f : safe (files f) any.
Proof. by apply safe_quiet. Qed.
Lemma safe_cache f : (∀ st, st_heap (f st) = st_heap st) → safe (memory f) any.
Proof. intros Hf. apply safe_quiet. intros w. apply Hf. Qed.
Lemma safe_set h f : (∀ s, P s → P (f s)) → safe (memory (setSession h f)) any.
Proof.
  intros Hf w Hw. split; [|done]. unfold heap in *. cbn. apply Forall_lookup. intros i s Hi. rewrite list_lookup_alter in Hi.
  destruct (decide (h = i)); [apply fmap_Some in Hi as (s0 & Hs & ->); apply Hf|]; eapply (Forall_lookup_1 P); eauto.
Qed.
Lemma safe_deref h : safe (deref h) P.
Proof. intros w Hw. unfold deref. destruct (st_heap (w_store w) !! h) as [s|] eqn:E; (split; [done|]); [|done]. intros ? [= <-]. eapply (Forall_lookup_1 P); eauto. Qed.
Lemma safe_allocate s : P s → safe (allocate s) any.
Proof. intros Hs w Hw. split; [|done]. unfold heap in *. cbn. apply Forall_app. auto. Qed.
Lemma safe_any {A} (m : IO A) Q : safe m Q → safe m any.
Proof. intros Hm w Hw. split; [by apply Hm|done]. Qed.
End Memory.

Create HintDb heap.
#[export] Hint Resolve safe_ret safe_fail safe_crash safe_attempt safe_files safe_deref safe_allocate : heap.
#[export] Hint Extern 1 (any _) => exact I : heap.
#[export] Hint Extern 2 (safe _ (λ w, (_, w)) any) => by apply safe_quiet : heap.
#[export] Hint Extern 3 (safe _ (bind _ _) _) => apply safe_io_then; [|intros ?] : heap.

Ltac step := apply safe_io_then; [auto 12 with heap|intros ?].

(** What an invariant has to survive; [W] is asked of a metadata map that a caller leaves. *)
Class SessionInv `{TimeLib} (P : Session → Prop) (W : gmap string json → Prop) := {
  inv_load key t file journal : P (loadFiles key t file journal);
  inv_overlay data s s' : P s → overlayCheckpoint data s = Some s' → P s';
  inv_size n s : P s → P (with_journalSize n s);
  inv_add size t ms s : P s → P (addAll size t ms s);
  inv_op o s : P s → P (apply localSeconds o s);
  inv_meta meta s : W meta → P s → P (setMeta meta s) }.

Definition wellFormed (W : gmap string json → Prop) (v : visit) : Prop := match v with VMeta _ meta => W meta | _ => True end.

Section Visits.
Context `{TimeLib} (weather : nat → syscall → outcome) (clock : nat → Z) (randomHex : nat → string).
Context (P : Session → Prop) (W : gmap string json → Prop) `{!SessionInv P W}.
Abbreviation safe := (safe P).

Lemma safe_sys c : safe (sys weather c) any.
Proof. unfold sys. apply safe_io_then; [by apply safe_quiet|]. intros []; auto with heap. Qed.
Lemma safe_stat path : safe (stat weather path) any.
Proof. unfold stat. apply safe_io_then; [apply safe_sys|intros _; by apply safe_quiet]. Qed.
Lemma safe_read path : safe (ReadFile weather path) any.
Proof. unfold ReadFile. apply safe_io_then; [apply safe_sys|intros _]. apply safe_io_then; [by apply safe_quiet|auto with heap]. Qed.
Lemma safe_remove path : safe (Remove weather path) any.
Proof. unfold Remove. apply safe_io_then; [apply safe_sys|auto with heap]. Qed.
Lemma safe_now : safe (now clock) any.
Proof. by apply safe_quiet. Qed.
Lemma safe_call c : safe (call weather c) any.
Proof. by apply safe_quiet. Qed.
Lemma safe_lookup path : safe (lookupFile path) any.
Proof. by apply safe_quiet. Qed.
Hint Resolve safe_sys safe_stat safe_read safe_remove safe_now safe_call safe_lookup : heap.

Lemma safe_cleanup {A} tmp (Q : A → Prop) : safe (cleanup weather tmp) Q.
Proof. unfold cleanup. step. auto with heap. Qed.
Hint Resolve safe_cleanup : heap.

Lemma safe_orCleanup tmp c : safe (orCleanup weather tmp c) any.
Proof. unfold orCleanup. step. case_match; auto with heap. Qed.
Hint Resolve safe_orCleanup : heap.

Lemma safe_writeAtomic path data : safe (writeAtomic weather clock randomHex path data) any.
Proof.
  unfold writeAtomic. apply safe_io_then; [by apply safe_quiet|intros n]. step. step. case_match; [auto with heap|]. step. step. step.
  step; [case_match; auto with heap|]. step. step. auto with heap.
Qed.

Lemma safe_discard path : safe (discardCheckpoint weather path) any.
Proof. unfold discardCheckpoint. step. repeat case_match; auto with heap. Qed.
Hint Resolve safe_writeAtomic safe_discard : heap.

Lemma safe_overlay key s : P s → safe (overlayCheckpointLocked weather key s) P.
Proof.
  intros Hs. unfold overlayCheckpointLocked. step. destruct a as [[f|]|]; [|auto with heap..]. case_match; [auto with heap|]. step. destruct a as [[main|]|]; [|auto with heap..].
  case_match; [step; auto with heap|]. step. destruct a as [[data|]|]; [|step; auto with heap..]. destruct (overlayCheckpoint data s) as [s'|] eqn:E; [|step; auto with heap].
  apply safe_ret. by eapply inv_overlay.
Qed.

Lemma safe_load key : safe (loadLocked weather clock key) P.
Proof.
  unfold loadLocked. step. step. step. apply safe_io_then; [case_match; auto with heap|intros journal]. step. case_match; [apply safe_overlay|apply safe_ret]; apply inv_load.
Qed.

Lemma safe_rememberCurrent key h : safe (rememberCurrent weather key h) any.
Proof.
  assert (∀ info ji, safe (memory (rememberSession key h info ji)) any) by (intros; by apply safe_cache).
  assert (safe (memory (forgetSession key)) any) by (by apply safe_cache).
  unfold rememberCurrent. step. case_match; [|done]. step. case_match; auto with heap.
Qed.
Hint Resolve safe_rememberCurrent : heap.

Lemma safe_open key : safe (Open weather clock key) any.
Proof.
  unfold Open, withLock. step. step. step. step. apply safe_io_then.
  - apply safe_quiet. intros w. case_match; [|done]. case_match; [done|]. destruct (cachedSession_ _ _ _ _) as [hit st] eqn:E. unfold heap. cbn.
    destruct hit; [by apply cachedSession_hit in E as (? & ? & ?)|by apply cachedSession_miss in E as [? ?]].
  - intros [h|]; [auto with heap|]. eapply safe_io_bind; [apply safe_load|]. intros s Hs. apply safe_io_then; [auto with heap|intros h]. apply safe_io_then; [by apply safe_cache|auto with heap].
Qed.

Lemma safe_save h : safe (saveLocked weather clock randomHex h) any.
Proof.
  unfold saveLocked. eapply safe_io_bind; [apply safe_deref|intros s Hs]. case_match; [|auto with heap]. step. step. step. apply safe_io_then; [|auto with heap]. apply safe_set, inv_size.
Qed.

Lemma safe_stampAll ms : safe (stampAll clock ms) any.
Proof. induction ms as [|m ms IH]; cbn [stampAll]; [auto with heap|]. apply safe_io_then; [case_match; auto with heap|intros ?]. apply safe_io_then; [done|auto with heap]. Qed.

Lemma safe_appendJournal path data : safe (appendJournal weather clock path data) any.
Proof. unfold appendJournal, appendText. step. step. step. apply safe_io_then; [case_match; auto with heap|auto with heap]. Qed.

Lemma safe_append h ms : safe (AppendMessagesDurable weather clock h ms) any.
Proof.
  unfold AppendMessagesDurable, withLock. case_match; [auto with heap|]. eapply safe_io_bind; [apply safe_deref|intros s Hs]. apply safe_io_then; [apply safe_stampAll|intros normalized].
  case_match; [|auto with heap]. step. apply safe_io_then; [apply safe_appendJournal|intros _]. step. apply safe_io_then; [apply safe_set; intros; by apply inv_add|auto with heap].
Qed.

Lemma safe_compact h n : safe (CompactJournal weather clock randomHex h n) any.
Proof.
  unfold CompactJournal, withLock. step. eapply safe_io_bind; [apply safe_deref|intros s Hs]. step. repeat case_match; auto with heap. apply safe_save.
Qed.

Lemma safe_delete key : safe (Delete weather key) any.
Proof.
  unfold Delete, withLock. step. apply safe_io_then.
  - generalize [Path key; journalPath key; checkpointPath key; legacyLossyPath key]. intros paths. induction paths as [|path paths IH]; cbn [removeAll]; [auto with heap|]. step. apply safe_io_then; [done|auto with heap].
  - intros ok. apply safe_io_then; [by apply safe_cache|]. intros _. case_match; auto with heap.
Qed.

Lemma safe_modTime name : safe (modTimeText weather name) any.
Proof. unfold modTimeText. step. auto with heap. Qed.
Hint Resolve safe_modTime : heap.

Lemma safe_list : safe (List_ weather) any.
Proof.
  assert (∀ name, safe (firstRecordUpdatedAt weather name) any) as Hfirst by (intros name; unfold firstRecordUpdatedAt; step; repeat case_match; auto with heap).
  unfold List_, withLock. step. step. apply safe_io_then; [by apply safe_quiet|intros names]. apply safe_io_then.
  - generalize (∅ : gmap string string). induction names as [|name names IH]; intros byKey; cbn [listEntries]; [auto with heap|]. apply safe_io_then; [|done].
    unfold listEntry. repeat case_match; try (apply safe_ret; exact I); step; auto with heap.
  - intros byKey. apply safe_io_then; [|auto with heap]. induction (map_to_list byKey) as [|[key updated] rows IH]; cbn [journalTimes]; [auto with heap|]. step. apply safe_io_then; [done|auto with heap].
Qed.

Lemma after_safe {A} (m : IO A) w : safe m any → Forall P (heap w) → Forall P (heap (after (m w))).
Proof. intros Hm Hw. destruct (Hm w Hw) as [H1 _]. unfold after. by destruct (m w) as [[a| |] w']. Qed.

Lemma visited_inv w v : wellFormed W v → Forall P (heap w) → Forall P (heap (visited weather clock randomHex w v)).
Proof.
  intros Hv Hw. destruct v as [key|h o|h meta|h ms|h|h n|key| | |fs]; cbn [visited]; [..|constructor|done]; (apply after_safe; [|done]).
  - apply safe_open.
  - apply safe_set. intros s. apply inv_op.
  - apply safe_set. intros s. by apply inv_meta.
  - apply safe_append.
  - unfold Save, withLock. step. apply safe_save.
  - apply safe_compact.
  - apply safe_delete.
  - apply safe_list.
Qed.

(** The invariant holds of every session there ever is. *)
Lemma life_inv fs visits : Forall (wellFormed W) visits → Forall P (heap (life weather clock randomHex fs visits)).
Proof.
  intros Hv. unfold life. assert (Forall P (heap (mkWorld fs emptyStore 0 0))) as Hw by constructor. revert Hw. generalize (mkWorld fs emptyStore 0 0).
  induction Hv as [|v visits Hv _ IH]; intros w Hw; [done|]. cbn [foldl]. by apply IH, visited_inv.
Qed.
End Visits.

(** ** Messages and their records *)

Section Faithful.
Context `{TimeLib}.

(** A message, the value it had when its record was made, and the record. *)
Definition entry : Type := Message * Message * option string.

(** A record is a line that was read as the message, or the record of a marker. *)
Definition recordFor (line : string) (m : Message) : Prop :=
  (okRecord line = true ∧ m = readMessage line) ∨
  ∃ now, line = summaryMarkerRecord (formatNaive localSeconds now) ∧ m = summaryMarker (formatNaive localSeconds now).
Definition entryFaithful (e : entry) : Prop := ∀ line, e.2 = Some line → e.1.2 = e.1.1 ∧ recordFor line e.1.1.

Definition faithful (s : Session) : Prop :=
  ∃ es : list entry, s_messages s = map (λ e, e.1.1) es ∧ s_snapshots s = map (λ e, e.1.2) es ∧ s_rawLines s = map snd es ∧ Forall entryFaithful es.

Lemma faithful_same s s' : s_messages s' = s_messages s → s_snapshots s' = s_snapshots s → s_rawLines s' = s_rawLines s → faithful s → faithful s'.
Proof. intros E1 E2 E3 (es & H1 & H2 & H3 & Hf). exists es. by rewrite E1, E2, E3. Qed.

Lemma faithful_lines lines s : fromLines lines s → Forall (λ line, okRecord line = true) lines → faithful s.
Proof.
  intros (H1 & H2 & H3) Hok. exists (map (λ line, (readMessage line, readMessage line, Some line)) lines). rewrite !map_map. split_and!; [done..|].
  apply Forall_forall. intros e He. apply list_elem_of_In, in_map_iff in He as (line & <- & Hin). rewrite Forall_forall in Hok. intros ? [= <-]. split; [done|]. left. split; [by apply Hok, list_elem_of_In|done].
Qed.

Lemma faithful_load key t file journal : faithful (loadFiles key t file journal).
Proof.
  destruct (loadFiles_lines key t file journal) as (k & _ & Hl & _). apply (faithful_lines _ _ Hl).
  assert (∀ f, Forall (λ line, okRecord line = true) (fileLines f)) as Hf by (intros [data|]; [apply recordLines_ok|constructor]).
  apply Forall_app. split; [apply Hf|apply Forall_drop, Hf].
Qed.

Lemma map_insertAt {A B} (f : A → B) k x l : map f (insertAt k x l) = insertAt k (f x) (map f l).
Proof. unfold insertAt. rewrite map_app. cbn. by rewrite firstn_map, skipn_map. Qed.
Lemma map_insert {A B} (f : A → B) k x (l : list A) : map f (<[k := x]> l) = <[k := f x]> (map f l).
Proof. apply (list_fmap_insert f). Qed.

Lemma faithful_add ms s s' : faithful s → s_messages s' = s_messages s ++ ms → s_snapshots s' = s_snapshots s ++ map (λ _, zeroMessage) ms → s_rawLines s' = s_rawLines s ++ map (λ _, None) ms → faithful s'.
Proof.
  intros (es & H1 & H2 & H3 & Hf) E1 E2 E3. exists (es ++ map (λ m, (m, zeroMessage, None)) ms). rewrite E1, E2, E3, H1, H2, H3, !map_app, !map_map. cbn. rewrite map_id. split_and!; [done..|].
  apply Forall_app. split; [done|]. apply Forall_forall. intros e He. apply list_elem_of_In, in_map_iff in He as (m & <- & _). done.
Qed.

Lemma faithful_op o s : faithful s → faithful (apply localSeconds o s).
Proof.
  intros Hs. destruct o as [now1 now2 m|i m|now|n|raw|now summary at_ active]; cbn [apply]; [by eapply (faithful_add [_])|..].
  - unfold SetMessage. destruct (_ || _); [done|]. destruct Hs as (es & H1 & H2 & H3 & Hf). exists (<[Z.to_nat i := (m, zeroMessage, None)]> es). cbn. rewrite !map_insert, H1, H2, H3. split_and!; [done..|]. by apply Forall_insert.
  - by exists [].
  - by apply (faithful_same s).
  - by apply (faithful_same s).
  - destruct (commit_fields localSeconds now summary at_ active s) as (E1 & E2 & E3 & _). revert E1 E2 E3. generalize (CommitSummaryCheckpoint localSeconds now summary at_ active s). generalize (insertIndex (default (Z.of_nat (length (s_messages s))) at_) (length (s_messages s))). intros k s' E1 E2 E3.
    destruct Hs as (es & H1 & H2 & H3 & Hf). rewrite H1 in E1. rewrite H2 in E2. rewrite H3 in E3.
    exists (insertAt k (summaryMarker (formatNaive localSeconds now), summaryMarker (formatNaive localSeconds now), Some (summaryMarkerRecord (formatNaive localSeconds now))) es).
    rewrite !map_insertAt. split_and!; [done..|]. unfold insertAt. apply Forall_app. split; [by apply Forall_take|]. constructor; [|by apply Forall_drop]. intros ? [= <-]. split; [done|]. right. by exists now.
Qed.

#[global] Instance faithful_inv : SessionInv faithful (λ _, True).
Proof.
  split.
  - apply faithful_load.
  - intros data s s' Hs (_ & E1 & E2 & E3)%overlayCheckpoint_same. by apply (faithful_same s).
  - intros n s. by apply faithful_same.
  - intros size t ms s Hs. by eapply (faithful_add ms).
  - apply faithful_op.
  - intros meta s _. by apply faithful_same.
Qed.
End Faithful.

(** A member that is not there leaves its field alone. *)
Lemma unmarshalField_calls m f m' : f.1 ≠ "tool_calls" → unmarshalField m f = Some m' → m_ToolCalls m' = m_ToolCalls m.
Proof.
  destruct f as [key raw], m as [role content timestamp calls callID name reasoning thinking extra pres]. intros Hk%String.eqb_neq. cbn [fst] in Hk. unfold unmarshalField. cbn [m_Role m_Content m_Timestamp m_ToolCalls m_ToolCallID m_Name m_ReasoningContent m_ThinkingBlocks m_extra m_present]. rewrite Hk.
  intros Hf. repeat (case_match; try (apply bind_Some in Hf as (? & _ & Hf))); simplify_eq; by try (unfold set_extra; case_match).
Qed.
Lemma unmarshalField_callID m f m' : f.1 ≠ "tool_call_id" → unmarshalField m f = Some m' → m_ToolCallID m' = m_ToolCallID m.
Proof.
  destruct f as [key raw], m as [role content timestamp calls callID name reasoning thinking extra pres]. intros Hk%String.eqb_neq. cbn [fst] in Hk. unfold unmarshalField. cbn [m_Role m_Content m_Timestamp m_ToolCalls m_ToolCallID m_Name m_ReasoningContent m_ThinkingBlocks m_extra m_present]. rewrite Hk.
  intros Hf. repeat (case_match; try (apply bind_Some in Hf as (? & _ & Hf))); simplify_eq; by try (unfold set_extra; case_match).
Qed.

Lemma foldFields_keeps {A} (field : Message → A) (key : string) : (∀ m f m', f.1 ≠ key → unmarshalField m f = Some m' → field m' = field m) →
  ∀ fields m m', fieldValue fields key = None → foldFields m fields = Some m' → field m' = field m.
Proof.
  intros Hstep fields. induction fields as [|[k raw] fields IH]; intros m m' Hv Hf; cbn in Hf; [by injection Hf as ->|]. apply bind_Some in Hf as (m1 & H1 & Hf). cbn [fieldValue] in Hv.
  destruct (fieldValue fields key) eqn:E; [done|]. destruct (String.eqb_spec k key) as [|Hne]; [done|]. rewrite (IH m1 m'); [|done|done]. by apply (Hstep m (k, raw)).
Qed.

(** A record without calls, or without the id of a call, is read as a message without. *)
Lemma read_agrees line : agrees (readMessage line) (Some line).
Proof.
  unfold agrees, readMessage, recordMessage, UnmarshalJSON. cbn [mbind option_bind]. destruct (objectFields line) as [fields|]; [|done]. cbn [default from_option mbind option_bind].
  set (m := default zeroMessage (if negb (json_Valid line) then None else foldFields zeroMessage fields)).
  assert ((fieldValue fields "tool_calls" = None → m_ToolCalls m = None) ∧ (fieldValue fields "tool_call_id" = None → m_ToolCallID m = "")) as [H1 H2].
  { subst m. destruct (negb (json_Valid line)); [done|]. destruct (foldFields zeroMessage fields) as [m|] eqn:E; [|done].
    split; intros Hv; [exact (foldFields_keeps m_ToolCalls _ unmarshalField_calls _ _ _ Hv E)|exact (foldFields_keeps m_ToolCallID _ unmarshalField_callID _ _ _ Hv E)]. }
  clearbody m. change (id fields) with fields. cbn [fst]. split; intros Hv; [rewrite Hv; by apply H1|]. destruct (_ ≫= convertToolCalls); by apply H2.
Qed.

Section Records.
Context `{TimeLib}.

Lemma faithful_Inv s : faithful s → Inv s.
Proof.
  intros (es & H1 & H2 & H3 & Hf). split; [split; by rewrite ?H1, ?H2, ?H3, !length_map|]. intros i m raw Hm Hraw. destruct raw as [line|]; [|done].
  rewrite H1 in Hm. rewrite H3 in Hraw. apply list_lookup_fmap_Some in Hm as (e & -> & He). apply list_lookup_fmap_Some in Hraw as (e' & El & He'). simplify_eq.
  destruct (Forall_lookup_1 _ _ _ _ Hf He line (eq_sym El)) as [_ [[_ ->]|(now & -> & ->)]]; [apply read_agrees|apply summaryMarker_agrees].
Qed.

(** The record of a marker is read as the marker. *)
Lemma marker_read ts : utf8ok ts = true → okRecord (summaryMarkerRecord ts) = true ∧ contents (readMessage (summaryMarkerRecord ts)) = contents (summaryMarker ts).
Proof.
  intros Hts. pose proof (markerRecord_fields ts) as Hf. rewrite (markerRecord_text ts) in *. set (v := JObj (markerFields ts)) in *.
  assert (sound v = true) as Hs by (subst v; cbn [sound markerFields forallb]; rewrite utf8ok_runes; by vm_compute).
  assert (∀ key, key ∉ ["role"; "content"; HiddenHistoryMeta; "timestamp"] → fieldValue (rawFields (markerFields ts)) key = None) as Hx.
  { intros key Hk. apply absent_field. repeat constructor; cbn [fst]; intros <-; apply Hk; set_solver. }
  split.
  - unfold okRecord, isMessageRecord, stringField. rewrite noLow_plain by by apply noLow_pyText. subst v. rewrite written_trim, String.eqb_refl, Hf, Hx by (done || set_solver). done.
  - unfold readMessage, recordMessage, UnmarshalJSON, json_Valid. rewrite Hf. change (default [] (Some ?x)) with x. rewrite Hx by set_solver.
    pose proof (decode_pyText v "" Hs ltac:(unfold maxNestingDepth; cbn; lia) eq_refl) as Hd. rewrite sapp_nil_r in Hd. rewrite Hd. cbn [mbind option_bind skip_space String.eqb negb from_option fst].
    cbn [rawFields markerFields map pyText]. rewrite (utf8ok_eq ts Hts). destruct (unmarshal_written ts Hts) as (Hu & _). 
    assert (∃ p, foldFields zeroMessage [("role", writePyString RoleUser); ("content", writePyString SummaryContinuationText); (HiddenHistoryMeta, "true")] = Some (mkMessage RoleUser (TextContent SummaryContinuationText) "" None "" "" "" None [(HiddenHistoryMeta, "true")] p)) as [p Hp] by (vm_compute; eauto).
    change [?a; ?b; ?c; ?d] with ([a; b; c] ++ [d]). rewrite foldFields_app, Hp. cbn [mbind option_bind foldFields]. unfold unmarshalField. rewrite Hu. reflexivity.
Qed.
End Records.

(** ** What is saved besides the transcript *)

Definition numbersValid (meta : gmap string json) : Prop := map_Forall (λ _ v, numbersOk v = true) meta.

Section Storable.
Context `{TimeLib}.

Lemma storable_meta s s' : numbersValid (s_meta s') → s_metaExtra s' = s_metaExtra s → (s_providerLine s' = s_providerLine s ∨ s_providerLine s' = None) → storable s → storable s'.
Proof. intros E1 E2 E3 [H1 H2 H3]. constructor; [done|by rewrite E2|]. by destruct E3 as [-> | ->]. Qed.

Ltac same s := apply (storable_meta s); [|reflexivity|first [by left|by right]|done].

Lemma storable_op o s : storable s → storable (apply localSeconds o s).
Proof.
  intros Hs. pose proof (st_meta _ Hs) as Hm. destruct o as [now1 now2 m|i m|now|n|raw|now summary at_ active]; cbn [apply].
  - by same s.
  - unfold SetMessage. destruct (_ || _); [done|]. by same s.
  - same s. by apply map_Forall_delete.
  - by same s.
  - by same s.
  - same s. by apply map_Forall_insert_2.
Qed.

Lemma storable_overlay data s s' : storable s → overlayCheckpoint data s = Some s' → storable s'.
Proof.
  intros Hs. unfold overlayCheckpoint. repeat (intros [? [_ Hx]]%bind_Some; revert Hx). destruct (_ || _); [done|]. intros [raw [_ Hx]]%bind_Some. apply bind_Some in Hx as [[ck order] [Hck Hx]].
  apply bind_Some in Hx as [s1 [H1 [= <-]]]. assert (storable s1) as Hs1.
  { repeat case_match; simplify_eq; [done| |done]. same s. apply (st_meta _ Hs). }
  pose proof (st_meta _ Hs1) as Hm. apply decodeOrderedObject_numbers in Hck.
  assert (numbersOk (JObj (sortFields ck)) = true) as Hv.
  { cbn [numbersOk]. apply forallb_forall. intros [k v] Hin. apply list_elem_of_In in Hin. unfold sortFields in Hin. rewrite sort_by_perm in Hin. apply elem_of_map_to_list in Hin. by apply (Hck k). }
  destruct (isSome (s_meta s1 !! "runtime_checkpoint")); same s1; by apply map_Forall_insert_2.
Qed.

#[global] Instance storable_inv : SessionInv storable numbersValid.
Proof.
  split.
  - apply loadFiles_storable.
  - apply storable_overlay.
  - intros n s Hs. same s. apply (st_meta _ Hs).
  - intros size t ms s Hs. same s. apply (st_meta _ Hs).
  - apply storable_op.
  - intros meta s Hm Hs. by same s.
Qed.
End Storable.

(** ** Texts of times *)

Fixpoint asciiText (s : string) : bool := match s with "" => true | String c s => (byteZ c <? 128) && asciiText s end.

Lemma asciiText_app a b : asciiText (a +:+ b) = asciiText a && asciiText b.
Proof. induction a as [|c a IH]; [done|]. cbn. by rewrite IH, andb_assoc. Qed.

Lemma asciiText_utf8 s : asciiText s = true → utf8ok s = true.
Proof.
  intros Ha. apply String.eqb_eq. induction s as [|c s IH]; [done|]. cbn [asciiText] in Ha. apply andb_true_iff in Ha as [Hc%Z.ltb_lt Ha]. rewrite (runes_cons (String c s) (byteZ c) 1 ltac:(done) (DecodeRune_low c s Hc)).
  assert (sdrop 1 (String c s) = s) as -> by (apply (sdrop_app (String c "") s)). cbn [of_runes]. rewrite (IH Ha). unfold EncodeRune. pose proof (byteZ_range c).
  repeat case_match; bool_hyps; try lia. cbn. f_equal. by apply Zbyte_eq.
Qed.

Lemma asciiText_digits s : all_digits s = true → asciiText s = true.
Proof.
  induction s as [|c s IH]; [done|]. cbn [all_digits asciiText]. intros [Hc Hs]%andb_true_iff. rewrite IH, andb_true_r by done. unfold is_digit in Hc. apply andb_true_iff in Hc as [_ Hc%Z.leb_le]. apply Z.ltb_lt. lia.
Qed.

(** What [time.Format] gives for the layout of seconds is ASCII, so what is made of it is UTF-8. *)
Lemma formatNaive_utf8 localSeconds t : (∀ t, asciiText (localSeconds t) = true) → utf8ok (formatNaive localSeconds t) = true.
Proof.
  intros Hl. apply asciiText_utf8. unfold formatNaive, pad6. set (us := _ / 1000). assert (0 ≤ us) as Hus by (subst us; apply Z.div_pos; [apply Z.mod_pos_bound|]; lia).
  destruct (us =? 0); [done|]. rewrite !asciiText_app, Hl. rewrite (asciiText_digits (Itoa us)) by by apply Itoa_digits. rewrite andb_true_r. cbn [asciiText andb]. change (byteZ "." <? 128) with true. cbn [andb].
  generalize (6 - slen (Itoa us))%nat. intros n. by induction n.
Qed.

(** ** The guarantees *)

Section Guarantees.
Context `{TimeLib} (weather : nat → syscall → outcome) (clock : nat → Z) (randomHex : nat → string).
Abbreviation life := (life weather clock randomHex).

Lemma life_faithful fs visits h s : heap (life fs visits) !! h = Some s → faithful s.
Proof. intros Hs. eapply Forall_lookup_1; [|exact Hs]. apply (life_inv _ _ _ faithful (λ _, True)). apply Forall_forall. by intros []. Qed.

(** A message that has a record. *)
Lemma faithful_record s i m line : (∀ t, asciiText (localSeconds t) = true) → faithful s → s_messages s !! i = Some m → s_rawLines s !! i = Some (Some line) →
  s_snapshots s !! i = Some m ∧ messageLine s i m = Some line ∧ okRecord line = true ∧ contents (readMessage line) = contents m.
Proof.
  intros Hu (es & H1 & H2 & H3 & Hf) Hm Hraw. unfold messageLine. rewrite Hraw. rewrite H1 in Hm. rewrite H3 in Hraw.
  apply list_lookup_fmap_Some in Hm as (e & -> & He). apply list_lookup_fmap_Some in Hraw as (e' & El & He'). simplify_eq. destruct (Forall_lookup_1 _ _ _ _ Hf He line (eq_sym El)) as [Hsnap Hrec].
  assert (s_snapshots s !! i = Some e.1.1) as -> by (rewrite H2, <- Hsnap; apply (list_lookup_fmap_Some (λ e : entry, e.1.2) es); eauto). cbn [mbind option_bind id]. rewrite bool_decide_eq_true_2 by done.
  split; [done|]. split; [done|]. destruct Hrec as [[Hok ->]|(now & -> & ->)]; [done|by apply marker_read, formatNaive_utf8].
Qed.

(** C38. In a session of the store, loaded or new, and whatever calls of the store and
    of the session were made before, with whatever files and failures, the transcript,
    the values parsed at load and the records have the same length; and a message that
    has a record equals the value kept beside it, so that a save writes this record, and
    the record is one line that is read back as a message with the same contents.
    Formatted times are assumed to be ASCII. *)
Theorem session_aligned fs visits h s : (∀ t, asciiText (localSeconds t) = true) → heap (life fs visits) !! h = Some s →
  length (s_snapshots s) = length (s_messages s) ∧ length (s_rawLines s) = length (s_messages s) ∧
  ∀ i m line, s_messages s !! i = Some m → s_rawLines s !! i = Some (Some line) →
    s_snapshots s !! i = Some m ∧ messageLine s i m = Some line ∧ okRecord line = true ∧ contents (readMessage line) = contents m.
Proof.
  intros Hu Hs%life_faithful. destruct (faithful_Inv s Hs) as [[H1 H2] _]. split_and!; [done..|]. intros i m line. by apply faithful_record.
Qed.

(** C34. What [GetHistory] replays of a session of the store consists of the newest messages
    that are neither archived nor dropped, in order; under a token budget it fits, unless
    it is a single message or lies within the turn of the last user message; and with a
    budget, or if no echo of a command, which is not replayed, carries a call, each tool
    result that names a call comes after an assistant message that makes that call. *)
Theorem history_sendable `{PrintTable} `{CaseTable} {ToolSchema : Type} `{!Tokenizer ToolSchema} fs visits h s maxMessages maxTokens ext inc : heap (life fs visits) !! h = Some s →
  let out := GetHistory s maxMessages maxTokens ext inc in
  out `suffix_of` replay (viewOf s) inc (archived s) ∧
  (0 < maxTokens → (length out ≤ 1)%nat ∨ sumTokens out ≤ maxTokens ∨ out `suffix_of` lastUserTail (replay (viewOf s) inc (archived s))) ∧
  (0 < maxTokens ∨ echoes_plain s → startLegal ∅ out).
Proof.
  intros Hs%life_faithful%faithful_Inv. destruct (history_spec s maxMessages maxTokens ext inc) as (H1' & H2' & H3'). split_and!; [done..|]. by apply H3'.
Qed.

Lemma messageLine_new s i m : s_rawLines s !! i = Some None → messageLine s i m = encodeMessage m.
Proof. intros Hr. unfold messageLine. by rewrite Hr. Qed.

(** C36. What a save of a session of the store writes is loaded again with its messages:
    as many, in order, one that has a record or is made of texts with the same contents,
    and any other as its record is read; the next save writes the same records, and the
    archive offset is kept.  It is assumed that formatted times are ASCII, that callers
    left valid numbers in the metadata, that the archive offset lies within the
    transcript, that the metadata record can be read, and that a message without a record
    has one that can be read as a message, which holds of messages of texts. *)
Theorem session_file_roundtrip fs visits h s data now : (∀ t, asciiText (localSeconds t) = true) → Forall (wellFormed numbersValid) visits →
  heap (life fs visits) !! h = Some s → 0 ≤ s_lastArchived s ≤ Z.of_nat (length (s_messages s)) → Z.of_nat (length (s_messages s)) < 2 ^ 63 →
  is_Some (metadataRecord s ≫= objectFields) →
  (∀ i m line, s_messages s !! i = Some m → s_rawLines s !! i = Some None → encodeMessage m = Some line → plainMessage m ∨ okRecord line = true) →
  renderSession s = Some data →
  let s' := loadFiles (s_key s) now (Some data) None in
  length (s_messages s') = length (s_messages s) ∧ messageLines s' = messageLines s ∧ s_lastArchived s' = s_lastArchived s ∧
  ∀ i m, s_messages s !! i = Some m → ∃ line, messageLine s i m = Some line ∧ s_messages s' !! i = Some (readMessage line) ∧
    (s_rawLines s !! i ≠ Some None ∨ plainMessage m → contents (readMessage line) = contents m).
Proof.
  intros Hu Hv Hs Hrange Hsize Hread Hnew Hrender. pose proof (life_faithful fs visits h s Hs) as Hf. pose proof (proj1 (faithful_Inv s Hf)) as Hal.
  assert (storable s) as [Hm Hx Hp] by (eapply Forall_lookup_1; [|exact Hs]; by apply (life_inv _ _ _ storable numbersValid)).
  assert (saveable s) as Hsave by (constructor; done). destruct (render_lines s data Hrender) as [lines Hl].
  assert (∀ i m line, s_messages s !! i = Some m → messageLine s i m = Some line → okRecord line = true ∧ (s_rawLines s !! i ≠ Some None ∨ plainMessage m → contents (readMessage line) = contents m)) as Hline.
  { intros i m line Hi Hml. destruct (lookup_lt_is_Some_2 (s_rawLines s) i) as [[raw|] Hraw]; [destruct Hal as [_ ->]; by eapply lookup_lt_Some|..].
    - destruct (faithful_record s i m raw Hu Hf Hi Hraw) as (_ & E & Hok & Hc). rewrite E in Hml. injection Hml as <-. done.
    - rewrite messageLine_new in Hml by done. assert (plainMessage m → okRecord line = true ∧ contents (readMessage line) = contents m) as Hplain.
      { intros (line' & E & ? & ?)%plain_record. rewrite E in Hml. injection Hml as <-. done. }
      split; [destruct (Hnew i m line Hi Hraw Hml) as [?|?]; [by apply Hplain|done]|]. intros [?|?]; [congruence|by apply Hplain]. }
  assert (Forall (λ line, okRecord line = true) lines) as Hok.
  { apply Forall_lookup. intros i line Hi. apply (messageLines_lookup s lines i line Hl) in Hi as (m & Hi & Hml). by apply (Hline i m). }
  destruct (saved_loaded s data lines now Hsave Hrender Hl Hok Hread) as ((E1 & _ & _) & E2 & E3). cbn zeta. rewrite E1, E2, E3, Hl, length_map. split_and!; [|done..|].
  - unfold messageLines in Hl. apply mapM_Some, Forall2_length in Hl. by rewrite length_imap in Hl.
  - intros i m Hi. unfold messageLines in Hl. pose proof Hl as Hl'. apply mapM_Some in Hl. destruct (Forall2_lookup_l _ _ _ i (i, m) Hl) as (line & Hline' & E); [by rewrite list_lookup_imap, Hi|]. cbn in E.
    exists line. split; [done|]. split; [change (map readMessage lines) with (readMessage <$> lines); by rewrite list_lookup_fmap, Hline'|]. by apply (Hline i m).
Qed.
End Guarantees.

(** ** Concrete lives *)

#[local] Instance asciiPrint : PrintTable := λ r, (32 <=? r) && (r <? 127).
#[local] Instance asciiLower : CaseTable := {| ToLower := ToLower_ascii; ToLower_on_ascii := λ _ _, eq_refl |}.
#[local] Instance stillTime : TimeLib := {| localSeconds := λ _, "2026-01-01T00:00:00"; zonedSeconds := λ _ _, "2026-01-01T00:00:00"; parseZoned := λ _ _, None; parseLocal := λ _ t, Some 0 |}.

Lemma stillTime_ascii t : asciiText (localSeconds t) = true.
Proof. reflexivity. Qed.

(** A file with a member of the metadata record and one of a message that the program
    does not know, and blocks of content. *)
Definition savedLines : list string :=
  [dq "{'_type': 'metadata', 'key': 'cli:direct', 'created_at': '2026-01-01T00:00:00', 'updated_at': '2026-01-01T00:00:00', 'metadata': {'n': 1.50}, 'last_archived': 1, 'last_consolidated': 1, 'future': [true]}";
   dq "{'role': 'user', 'content': 'hello', 'zz': {'a': 1.0}}"; dq "{'role': 'assistant', 'content': [{'type': 'text', 'text': 'hi'}]}"].
Definition savedFiles : gmap string File := {[Path "cli:direct" := mkFile (fileOf savedLines) 5 true]}.

(** The session is loaded, gets a message through the journal, a summary before that
    message, and a new metadata map. *)
Definition demoVisits : list visit :=
  [VOpen "cli:direct"; VAppend 0 [NewMessage RoleUser "list"]; VChange 0 (OCommit 0 "said hello" (Some 2) None); VMeta 0 {["title" := JStr "files"]}].
Definition demoLife : World := life calm demoClock demoHex savedFiles demoVisits.
Definition demoSession : Session := default (newSession localSeconds "" 0) (heap demoLife !! 0%nat).

Lemma demoSession_there : heap demoLife !! 0%nat = Some demoSession.
Proof. vm_compute. reflexivity. Qed.

Lemma session_aligned_witness :
  map isSome (s_rawLines demoSession) = [true; true; true; false] ∧
  length (s_snapshots demoSession) = length (s_messages demoSession) ∧ length (s_rawLines demoSession) = length (s_messages demoSession) ∧
  ∀ i m line, s_messages demoSession !! i = Some m → s_rawLines demoSession !! i = Some (Some line) →
    s_snapshots demoSession !! i = Some m ∧ messageLine demoSession i m = Some line ∧ okRecord line = true ∧ contents (readMessage line) = contents m.
Proof. split; [vm_compute; reflexivity|exact (session_aligned calm demoClock demoHex savedFiles demoVisits 0 demoSession stillTime_ascii demoSession_there)]. Defined.

Lemma history_sendable_witness :
  let out := GetHistory demoSession 3 40 true true in
  map m_Role out = [RoleUser] ∧ out `suffix_of` replay (viewOf demoSession) true (archived demoSession) ∧
  (0 < 40 → (length out ≤ 1)%nat ∨ sumTokens out ≤ 40 ∨ out `suffix_of` lastUserTail (replay (viewOf demoSession) true (archived demoSession))) ∧
  (0 < 40 ∨ echoes_plain demoSession → startLegal ∅ out).
Proof. split; [vm_compute; reflexivity|exact (history_sendable calm demoClock demoHex savedFiles demoVisits 0 demoSession 3 40 true true demoSession_there)]. Defined.

Definition demoFile : string := default "" (renderSession demoSession).

Lemma session_file_roundtrip_witness :
  let s' := loadFiles "cli:direct" 0 (renderSession demoSession) None in
  s_lastArchived demoSession = 2 ∧ length (s_messages s') = 4%nat ∧ messageLines s' = messageLines demoSession ∧ s_lastArchived s' = 2 ∧
  ∀ i m, s_messages demoSession !! i = Some m → ∃ line, messageLine demoSession i m = Some line ∧ s_messages s' !! i = Some (readMessage line) ∧
    (s_rawLines demoSession !! i ≠ Some None ∨ plainMessage m → contents (readMessage line) = contents m).
Proof.
  assert (renderSession demoSession = Some demoFile) as Hd by (vm_compute; reflexivity). rewrite Hd.
  assert (Forall (wellFormed numbersValid) demoVisits) as Hv.
  { repeat constructor. intros k v Hk. apply lookup_singleton_Some in Hk as [_ <-]. reflexivity. }
  assert (0 ≤ s_lastArchived demoSession ≤ Z.of_nat (length (s_messages demoSession)) ∧ Z.of_nat (length (s_messages demoSession)) < 2 ^ 63) as [Hr Hz] by (split; [split; vm_compute; discriminate|vm_compute; reflexivity]).
  assert (is_Some (metadataRecord demoSession ≫= objectFields)) as Hm by (vm_compute; eexists; reflexivity).
  split; [vm_compute; reflexivity|].
  refine (session_file_roundtrip calm demoClock demoHex savedFiles demoVisits 0 demoSession demoFile 0 stillTime_ascii Hv demoSession_there Hr Hz Hm _ Hd).
  assert (length (s_messages demoSession) = 4%nat) as Hlen by (vm_compute; reflexivity). intros i m line Hi Hraw Hline. right. pose proof (lookup_lt_Some _ _ _ Hi) as Hlt. rewrite Hlen in Hlt.
  do 3 (destruct i as [|i]; [vm_compute in Hraw; discriminate|]). destruct i as [|i]; [|exfalso; lia].
  vm_compute in Hi. injection Hi as <-. vm_compute in Hline. injection Hline as <-. vm_compute. reflexivity.
Defined.

(** Without a budget, the result of a call that an echo of a command makes is replayed
    without the echo. *)
Definition echoVisits : list visit :=
  let echo := mkMessage RoleAssistant (TextContent "") "" (Some [demoCall "c1" "ls"]) "" "" "" None [(CommandMeta, "true")] ∅ in
  [VOpen "cli:direct"; VChange 0 (OAdd 0 0 (NewMessage RoleUser "/ls")); VChange 0 (OAdd 0 0 echo); VChange 0 (OAdd 0 0 (Governance.demoResult "c1"))].
Example echo_hides_call :
  let s := default (newSession localSeconds "" 0) (heap (life calm demoClock demoHex ∅ echoVisits) !! 0%nat) in
  map m_Role (GetHistory s 0 0 true true) = [RoleUser; RoleTool] ∧ ¬ startLegal ∅ (GetHistory s 0 0 true true).
Proof. vm_compute. split; [reflexivity|]. intros (_ & Hx & _). set_solver. Qed.
