(* ===== verification/A2A.v ===== *)
(** * The A2A protocol: data and requests (src/internal/a2a/types.go, handler.go)

    Other agents reach this one over JSON-RPC: they send messages, each of which makes a
    task, and read, list, cancel and stream tasks.  This file has the data of the
    protocol, the decoding of parameters and the parts of the handlers that are functions
    of their input: pages of a list, error codes, the discovery card.

    Structs are decoded as encoding/json does it: names match without regard to case, a
    later member overrides an earlier one, null changes nothing and a value of the wrong
    kind fails the whole.  Members of the protocol that this agent never sets (metadata
    of messages and tasks, extensions) are left out; the text of a decoding error is
    opaque.  Package time comes through [A2AEnv]. *)

From Stdlib Require Import Ascii.
From S2P Require Import Prelude GoText GoLib PyFloat GoFmt Core GoJson PyJson Governance Response Provider SessionText Session SessionCodec.
#[local] Open Scope string_scope.
#[local] Open Scope list_scope.
#[local] Open Scope Z_scope.

(** ** Data (types.go) *)

Definition ProtocolVersion : string := "1.0".

Definition TaskStateWorking : string := "TASK_STATE_WORKING".
Definition TaskStateCompleted : string := "TASK_STATE_COMPLETED".
Definition TaskStateFailed : string := "TASK_STATE_FAILED".
Definition TaskStateCanceled : string := "TASK_STATE_CANCELED".
Definition TaskStateRejected : string := "TASK_STATE_REJECTED".

Definition RoleUser : string := "ROLE_USER".
Definition RoleAgent : string := "ROLE_AGENT".
Definition MediaTypeText : string := "text/plain".

Definition CodeJSONParseError : Z := -32700.
Definition CodeInvalidRequestError : Z := -32600.
Definition CodeMethodNotFoundError : Z := -32601.
Definition CodeInvalidParamsError : Z := -32602.
Definition CodeTaskNotFoundError : Z := -32001.
Definition CodeTaskNotCancelableError : Z := -32002.
Definition CodePushNotificationNotSupportedError : Z := -32003.
Definition CodeUnsupportedOperationError : Z := -32004.
Definition CodeContentTypeNotSupportedError : Z := -32005.
Definition CodeVersionNotSupportedError : Z := -32009.

Record Part := mkPart {
  p_Text : string; p_Raw : string; p_URL : string; p_Data : RawJSON;
  p_Metadata : option (gmap string RawJSON); p_Filename : string; p_MediaType : string }.

Record Message := mkMsg { am_MessageID : string; am_ContextID : string; am_TaskID : string; am_Role : string; am_Parts : list Part }.

Record TaskStatus := mkStatus { ts_State : string; ts_Message : option Message; ts_Timestamp : string }.
Record Artifact := mkArtifact { ar_ArtifactID : string; ar_Name : string; ar_Description : string; ar_Parts : list Part }.

(** [t_updated] is in nanoseconds. *)
Record Task := mkTask {
  t_ID : string; t_ContextID : string; t_Status : TaskStatus; t_Artifacts : list Artifact; t_History : list Message; t_updated : Z }.

#[export] Instance Part_eq_dec : EqDecision Part.
Proof. solve_decision. Defined.
#[export] Instance a2aMessage_eq_dec : EqDecision Message.
Proof. solve_decision. Defined.
#[export] Instance a2aStatus_eq_dec : EqDecision TaskStatus.
Proof. solve_decision. Defined.
#[export] Instance Artifact_eq_dec : EqDecision Artifact.
Proof. solve_decision. Defined.
#[export] Instance Task_eq_dec : EqDecision Task.
Proof. solve_decision. Defined.

Definition NewTextPart (text : string) : Part := mkPart text "" "" "" None "" MediaTypeText.

Definition terminal (t : Task) : bool := existsb (String.eqb (ts_State (t_Status t))) [TaskStateCompleted; TaskStateFailed; TaskStateCanceled; TaskStateRejected].

(** The texts of the parts, one a line. *)
Definition Text (m : Message) : string :=
  foldl (λ b p, if String.eqb (p_Text p) "" then b else (if String.eqb b "" then "" else b +:+ String (Zbyte 10) "") +:+ p_Text p) "" (am_Parts m).

Definition HasUnsupportedContent (m : Message) : bool :=
  existsb (λ p, negb (String.eqb (p_Raw p) "") || negb (String.eqb (p_URL p) "") || negb (String.eqb (p_Data p) "")) (am_Parts m).

(** *** Errors *)

(** A detail of an error: a text, or that of an error of encoding/json. *)
Inductive detail := DText (s : string) | DJSON.

(** [errorInfo]: the reason and the metadata. *)
Record errorInfo := mkInfo { ei_reason : string; ei_metadata : list (string * detail) }.
Record rpcFailure := mkFailure { rf_code : Z; rf_message : string; rf_data : list errorInfo }.

Definition invalidParams (metadata : list (string * detail)) : rpcFailure := mkFailure CodeInvalidParamsError "Invalid parameters" [mkInfo "INVALID_PARAMS" metadata].
Definition idRequired : rpcFailure := invalidParams [("field", DText "id"); ("detail", DText "id is required")].
Definition taskNotFound (taskID : string) : rpcFailure := mkFailure CodeTaskNotFoundError "Task not found" [mkInfo "TASK_NOT_FOUND" [("taskId", DText taskID)]].
Definition terminalTask (t : Task) (taskID : string) : rpcFailure :=
  mkFailure CodeUnsupportedOperationError "Operation not supported for a task in a terminal state"
    [mkInfo "UNSUPPORTED_OPERATION" [("taskId", DText taskID); ("state", DText (ts_State (t_Status t)))]].

(** ** Decoding into structs *)

(** The fold of encoding/json, for names made of ASCII letters. *)
Definition foldRune (r : Z) : Z :=
  if (97 <=? r) && (r <=? 122) then r - 32 else if r =? 0x17F then 83 else if r =? 0x212A then 75 else r.
Definition foldName (s : string) : list Z := map foldRune (runes s).

(** The values given for a member, in order. *)
Definition valuesOf (fields : list (string * RawJSON)) (name : string) : list RawJSON :=
  map snd (List.filter (λ f, bool_decide (foldName f.1 = foldName name)) fields).

Definition decodeInto {A} (store : RawJSON → A → option A) (zero : A) (values : list RawJSON) : option A :=
  foldl (λ acc raw, a ← acc; store raw a) (Some zero) values.

Definition stringMember (fields : list (string * RawJSON)) (name : string) : option string := decodeInto storeString "" (valuesOf fields name).

Definition storeInt (raw : RawJSON) (_ : option Z) : option (option Z) :=
  match decode raw with Some (JNull, _) => Some None | Some (JNum lit, _) => n ← Atoi lit; Some (Some n) | _ => None end.
Definition intMember (fields : list (string * RawJSON)) (name : string) : option (option Z) := decodeInto storeInt None (valuesOf fields name).

Definition storeBool (raw : RawJSON) (_ : option bool) : option (option bool) :=
  match decode raw with Some (JNull, _) => Some None | Some (JBool b, _) => Some (Some b) | _ => None end.
Definition boolMember (fields : list (string * RawJSON)) (name : string) : option (option bool) := decodeInto storeBool None (valuesOf fields name).

Definition rawMember (fields : list (string * RawJSON)) (name : string) : RawJSON := default "" (last (valuesOf fields name)).

(** A [map[string]any]: objects are merged, null is the nil map. *)
Definition storeMap (raw : RawJSON) (m : option (gmap string RawJSON)) : option (option (gmap string RawJSON)) :=
  '(v, _) ← decode raw;
  match v with
  | JNull => Some None
  | JObj _ => if outOfRange v then None else new ← unmarshalMap raw; Some (Some (new ∪ default ∅ m))
  | _ => None
  end.
Definition mapMember (fields : list (string * RawJSON)) (name : string) : option (option (gmap string RawJSON)) := decodeInto storeMap None (valuesOf fields name).

(** A struct inside of a struct: the members of all its objects. *)
Definition structMember (fields : list (string * RawJSON)) (name : string) : option (list (string * RawJSON)) :=
  (λ objects, mjoin objects) <$> mapM unmarshalRawMap (valuesOf fields name).

(** A slice whose elements are decoded one by one; null is nil. *)
Definition storeSlice {A} (item : RawJSON → option A) (raw : RawJSON) (_ : list A) : option (list A) :=
  if isNull raw then Some [] else items ← arrayItems raw; mapM item items.

(** *** Parts *)

Definition firstNonEmpty (a b c : string) : string := if negb (String.eqb a "") then a else if negb (String.eqb b "") then b else c.

Definition unmarshalPart (data : RawJSON) : option Part :=
  fields ← unmarshalRawMap data;
  text ← stringMember fields "text";
  raw ← stringMember fields "raw";
  url ← stringMember fields "url";
  let dat := rawMember fields "data" in
  metadata ← mapMember fields "metadata";
  filename ← stringMember fields "filename";
  mediaType ← stringMember fields "mediaType";
  kind ← stringMember fields "kind";
  file ← structMember fields "file";
  name ← stringMember file "name";
  mimeType ← stringMember file "mimeType";
  bytes ← stringMember file "bytes";
  fileWithBytes ← stringMember file "fileWithBytes";
  fileWithURI ← stringMember file "fileWithUri";
  uri ← stringMember file "uri";
  Some (if String.eqb kind "file"
        then mkPart text (firstNonEmpty raw fileWithBytes bytes) (firstNonEmpty url fileWithURI uri) dat metadata
               (if String.eqb filename "" then name else filename) (if String.eqb mediaType "" then mimeType else mediaType)
        else mkPart text raw url dat metadata filename mediaType).

(** [MarshalJSON]: one content member. *)
Definition partFields (p : Part) : list (string * RawJSON) :=
  (if negb (String.eqb (p_Text p) "") || (String.eqb (p_Raw p) "" && String.eqb (p_URL p) "" && String.eqb (p_Data p) "") then [("text", goString (p_Text p))]
   else if negb (String.eqb (p_Raw p) "") then [("raw", goString (p_Raw p))]
   else if negb (String.eqb (p_URL p) "") then [("url", goString (p_URL p))]
   else [("data", p_Data p)])
  ++ omitEmpty "metadata" (emptyMap (p_Metadata p)) (marshalMap (p_Metadata p))
  ++ omitEmpty "filename" (String.eqb (p_Filename p) "") (goString (p_Filename p))
  ++ omitEmpty "mediaType" (String.eqb (p_MediaType p) "") (goString (p_MediaType p)).
Definition marshalPart (p : Part) : option string := writeFields <$> mapM (λ kv, raw ← marshalRaw kv.2; Some (kv.1, raw)) (partFields p).

(** *** SendMessage *)

(** Whether a configuration can be decoded; nothing of it is used. *)
Definition configurationOk (raw : RawJSON) : bool :=
  match unmarshalRawMap raw with
  | None => false
  | Some fields =>
      isSome (decodeInto (storeSlice (λ s, storeString s "")) [] (valuesOf fields "acceptedOutputModes"))
      && isSome (intMember fields "historyLength") && isSome (boolMember fields "returnImmediately")
      && forallb (λ raw, match decode raw with Some (v, _) => negb (outOfRange v) | None => false end) (valuesOf fields "taskPushNotificationConfig")
  end.

(** The message of the parameters, before identifiers are minted; [None] when they do
    not decode. *)
Definition decodeSend (raw : RawJSON) : option Message :=
  if negb (json_Valid raw) then None else
  fields ← unmarshalRawMap raw;
  tenant ← stringMember fields "tenant";
  message ← structMember fields "message";
  messageID ← stringMember message "messageId";
  contextID ← stringMember message "contextId";
  taskID ← stringMember message "taskId";
  role ← stringMember message "role";
  parts ← decodeInto (storeSlice unmarshalPart) [] (valuesOf message "parts");
  text ← stringMember message "text";
  input ← stringMember fields "input";
  if negb (forallb configurationOk (valuesOf fields "configuration")) then None else
  let legacy := if String.eqb (TrimSpace text) "" then TrimSpace input else TrimSpace text in
  Some (mkMsg messageID contextID taskID role (if Nat.eqb (length parts) 0 && negb (String.eqb legacy "") then [NewTextPart legacy] else parts)).

(** The [id] parameter of GetTask, CancelTask and SubscribeToTask. *)
Definition decodeID (raw : RawJSON) : rpcFailure + string :=
  match (if String.eqb raw "" then Some "" else if negb (json_Valid raw) then None else fields ← unmarshalRawMap raw; stringMember fields "id") with
  | None => inl (invalidParams [("detail", DJSON)])
  | Some id => if String.eqb (TrimSpace id) "" then inl idRequired else inr id
  end.

(** ** GetTask *)

Definition taskWithHistoryLength (t : Task) (historyLength : option Z) : Task :=
  match historyLength with
  | None => t
  | Some n =>
      let len := Z.of_nat (length (t_History t)) in
      mkTask (t_ID t) (t_ContextID t) (t_Status t) (t_Artifacts t)
        (if n <=? 0 then [] else if n <? len then drop (Z.to_nat (len - n)) (t_History t) else t_History t) (t_updated t)
  end.

(** The parameters of GetTask. *)
Definition decodeGet (raw : RawJSON) : rpcFailure + (string * option Z) :=
  match (if String.eqb raw "" then Some ("", None) else if negb (json_Valid raw) then None else
         fields ← unmarshalRawMap raw; id ← stringMember fields "id"; n ← intMember fields "historyLength"; Some (id, n)) with
  | None => inl (invalidParams [("detail", DJSON)])
  | Some (id, n) => if String.eqb (TrimSpace id) "" then inl idRequired else inr (id, n)
  end.

(** ** ListTasks *)

Definition defaultListPageSize : Z := 50.
Definition maxListPageSize : Z := 100.

Record listParams := mkList {
  lp_ContextID : string; lp_Status : string; lp_PageSize : option Z; lp_PageToken : string;
  lp_HistoryLength : option Z; lp_IncludeArtifacts : option bool; lp_StatusTimestampAfter : string }.

Definition decodeList (raw : RawJSON) : option listParams :=
  if String.eqb raw "" then Some (mkList "" "" None "" None None "") else
  if negb (json_Valid raw) then None else
  fields ← unmarshalRawMap raw;
  contextID ← stringMember fields "contextId";
  status ← stringMember fields "status";
  pageSize ← intMember fields "pageSize";
  pageToken ← stringMember fields "pageToken";
  historyLength ← intMember fields "historyLength";
  includeArtifacts ← boolMember fields "includeArtifacts";
  after ← stringMember fields "statusTimestampAfter";
  Some (mkList contextID status pageSize pageToken historyLength includeArtifacts after).

Class A2AEnv := {
  rfc3339UTC : Z → string;                 (** [t.UTC().Format(time.RFC3339Nano)] *)
  parseRFC3339 : string → option Z;        (** [time.Parse(time.RFC3339, s)] *)
  parseRFC3339Nano : string → option Z     (** [time.Parse(time.RFC3339Nano, s)] *)
}.

(** The size of a page and where it starts. *)
Definition pageSizeOf (p : listParams) : option Z :=
  match lp_PageSize p with
  | Some n => if n <? 1 then None else Some (Z.min n maxListPageSize)
  | None => Some defaultListPageSize
  end.
Definition offsetOf (p : listParams) : option Z :=
  if String.eqb (lp_PageToken p) "" then Some 0 else
  match Atoi (lp_PageToken p) with Some parsed => if parsed <? 0 then None else Some parsed | None => None end.
Definition pageOf (p : listParams) : rpcFailure + (Z * Z) :=
  match pageSizeOf p, offsetOf p with
  | None, _ => inl (invalidParams [("field", DText "pageSize"); ("detail", DText "pageSize must be at least 1")])
  | _, None => inl (invalidParams [("field", DText "pageToken"); ("detail", DText "pageToken is not a token issued by this agent")])
  | Some pageSize, Some offset => inr (pageSize, offset)
  end.

Section List_.
Context `{A2AEnv}.

(** Whether a task is listed. *)
Definition listed (p : listParams) (t : Task) : bool :=
  (String.eqb (lp_ContextID p) "" || String.eqb (t_ContextID t) (lp_ContextID p))
  && (String.eqb (lp_Status p) "" || String.eqb (ts_State (t_Status t)) (lp_Status p))
  && (String.eqb (lp_StatusTimestampAfter p) ""
      || match parseRFC3339 (lp_StatusTimestampAfter p), parseRFC3339Nano (ts_Timestamp (t_Status t)) with Some after, Some ts => negb (ts <? after) | _, _ => true end).

(** Latest first, then by identifier. *)
Definition laterTask (a b : Task) : bool := if t_updated a =? t_updated b then String.leb (t_ID a) (t_ID b) else t_updated b <? t_updated a.

Definition listView (p : listParams) (t : Task) : Task :=
  let view := taskWithHistoryLength t (lp_HistoryLength p) in
  if default false (lp_IncludeArtifacts p) then view else mkTask (t_ID view) (t_ContextID view) (t_Status view) [] (t_History view) (t_updated view).

Record ListTasksResponse := mkListed { lr_Tasks : list Task; lr_NextPageToken : string; lr_PageSize : Z; lr_TotalSize : Z }.

(** The page of the tasks that the walk over the store met. *)
Definition listPage (p : listParams) (met : list Task) : rpcFailure + ListTasksResponse :=
  match pageOf p with
  | inl f => inl f
  | inr (pageSize, offset) =>
      let all := sort_by laterTask (List.filter (listed p) met) in
      let total := Z.of_nat (length all) in
      let offset := Z.min offset total in
      let stop := Z.min (offset + pageSize) total in
      let page := take (Z.to_nat (stop - offset)) (drop (Z.to_nat offset) all) in
      inr (mkListed (map (listView p) page) (if stop <? total then Itoa stop else "") pageSize total)
  end.
End List_.

(** ** The discovery card *)

Record APIConfig := mkAPI { api_PublicBaseURL : string; api_Host : string; api_Port : Z; api_Timeout : option Z }.

(** [strings.TrimRight(s, "/")]. *)
Fixpoint TrimSlashes (s : string) : string :=
  match s with
  | "" => ""
  | String c t => match TrimSlashes t with "" => if byteZ c =? 47 then "" else String c "" | u => String c u end
  end.

Definition agentCardURL (cfg : APIConfig) (defaultAPIPort : Z) : string :=
  let base := TrimSlashes (api_PublicBaseURL cfg) in
  if negb (String.eqb base "") then base +:+ "/a2a" else
  let host := if String.eqb (api_Host cfg) "" || String.eqb (api_Host cfg) "0.0.0.0" then "127.0.0.1" else api_Host cfg in
  let port := if api_Port cfg <=? 0 then defaultAPIPort else api_Port cfg in
  "http://" +:+ host +:+ ":" +:+ Itoa port +:+ "/a2a".

Definition trimWeak (s : string) : string := if HasPrefix s "W/" then sdrop 2 s else s.
Definition matchesETag (header etag : string) : bool :=
  let header := TrimSpace header in
  if String.eqb header "" then false
  else if String.eqb header "*" then true
  else existsb (λ candidate, String.eqb (trimWeak (TrimSpace candidate)) etag) (Split header (Zbyte 44)).

Fixpoint fnv1a_loop (s : string) (h : Z) : Z :=
  match s with "" => h | String c s => fnv1a_loop s (u64 (Z.lxor h (byteZ c) * 1099511628211)) end.
Definition fnv1a (b : string) : Z := fnv1a_loop b 14695981039346656037.

(** [strconv.FormatUint(n, 16)] of a 64-bit number. *)
Fixpoint stripZeros (s : string) : string := match s with String c (String _ _ as t) => if byteZ c =? 48 then stripZeros t else s | _ => s end.
Definition FormatHex (n : Z) : string := stripZeros (hex 16 n).

Definition cardETag (body : string) : string :=
  String (Zbyte 34) (FormatHex (Z.of_nat (slen body)) +:+ "-" +:+ FormatHex (fnv1a body) +:+ String (Zbyte 34) "").

(** The status of the answer and whether it has the card as its body.  [notModified] is
    the outcome of the comparison with If-Modified-Since. *)
Definition handleAgentCard (method body ifNoneMatch : string) (notModified : bool) : Z * bool :=
  if negb (String.eqb method "GET") && negb (String.eqb method "HEAD") then (405, false)
  else if matchesETag ifNoneMatch (cardETag body) then (304, false)
  else if notModified then (304, false)
  else (200, String.eqb method "GET").
