(* ===== verification/A2AQueries.v ===== *)
(** * The answers of GetTask and ListTasks

    A client that follows the page tokens of ListTasks gets the tasks it asked for, each
    once and in order, although every request walks the store in an order of its own, as
    long as the store does not change between the requests.  When it changes, a task is
    still not missed as long as its place in the list does not move to the front; the
    example at the end shows that an updated task is. *)

From Stdlib Require Import Ascii.
From S2P Require Import Prelude GoText GoLib PyFloat GoFmt Core GoJson PyJson Governance Response Provider SessionText Session SessionCodec A2A.
#[local] Open Scope string_scope.
#[local] Open Scope list_scope.
#[local] Open Scope Z_scope.

(** ** The order of the list *)

Lemma laterTask_trans a b c : laterTask a b = true → laterTask b c = true → laterTask a c = true.
Proof.
  unfold laterTask. destruct (Z.eqb_spec (t_updated a) (t_updated b)), (Z.eqb_spec (t_updated b) (t_updated c)), (Z.eqb_spec (t_updated a) (t_updated c));
    rewrite ?Z.ltb_lt; try lia; eauto using String_leb_trans.
Qed.
Lemma laterTask_total a b : laterTask a b = false → laterTask b a = true.
Proof.
  unfold laterTask. destruct (Z.eqb_spec (t_updated a) (t_updated b)), (Z.eqb_spec (t_updated b) (t_updated a)); rewrite ?Z.ltb_lt, ?Z.ltb_ge; try lia.
  intros E. by destruct (String.leb_total (t_ID a) (t_ID b)) as [|]; [congruence|].
Qed.
Lemma laterTask_ties a b : laterTask a b = true → laterTask b a = true → t_ID a = t_ID b.
Proof.
  unfold laterTask. destruct (Z.eqb_spec (t_updated a) (t_updated b)), (Z.eqb_spec (t_updated b) (t_updated a)); rewrite ?Z.ltb_lt; try lia. apply String.leb_antisym.
Qed.

(** ** Following the tokens *)

Section Pages.
Context `{A2AEnv}.

Definition with_token (token : string) (p : listParams) : listParams :=
  mkList (lp_ContextID p) (lp_Status p) (lp_PageSize p) token (lp_HistoryLength p) (lp_IncludeArtifacts p) (lp_StatusTimestampAfter p).

(** Requests that follow the tokens, and for each of them the walk over the store. *)
Fixpoint follow (p : listParams) (token : string) (walks : list (list Task)) : option (list Task) :=
  match walks with
  | [] => None
  | met :: walks =>
      match listPage (with_token token p) met with
      | inl _ => None
      | inr l => if String.eqb (lr_NextPageToken l) "" then Some (lr_Tasks l) else rest ← follow p (lr_NextPageToken l) walks; Some (lr_Tasks l ++ rest)
      end
  end.

Definition listing (p : listParams) (store : list Task) : list Task := sort_by laterTask (List.filter (listed p) store).

Lemma listing_order p store met : NoDup (map t_ID store) → met ≡ₚ store → listing p met = listing p store.
Proof.
  intros Hnd Hp. unfold listing. symmetry. apply (sort_by_order laterTask laterTask_total laterTask_trans t_ID); [apply laterTask_ties| |].
  - change (NoDup (map t_ID (List.filter (listed p) store))). clear Hp. induction store as [|t store IH]; cbn in *; [done|]. apply NoDup_cons in Hnd as [Hn Hnd]. destruct (listed p t); [|by apply IH].
    cbn. apply NoDup_cons. split; [|by apply IH]. intros Hin. apply Hn. apply list_elem_of_In, in_map_iff in Hin as (x & <- & [Hx _]%filter_In). apply list_elem_of_In, in_map. done.
  - symmetry. clear Hnd. induction Hp as [|x l l' Hp IH|x y l|l1 l2 l3 H1 IH1 H2 IH2]; cbn; [done| | |by rewrite IH1].
    + destruct (listed p x); [by rewrite IH|done].
    + destruct (listed p x), (listed p y); try done. apply perm_swap.
Qed.

(** A page. *)
Lemma listPage_at p met n k : pageSizeOf p = Some n → 0 ≤ k ≤ Z.of_nat (length (listing p met)) → Z.of_nat (length (listing p met)) < 2 ^ 63 →
  let all := listing p met in let total := Z.of_nat (length all) in let stop := Z.min (k + n) total in
  listPage (with_token (if k =? 0 then "" else Itoa k) p) met =
  inr (mkListed (map (listView p) (take (Z.to_nat (stop - k)) (drop (Z.to_nat k) all))) (if stop <? total then Itoa stop else "") n total).
Proof.
  intros Hn Hk Hlen all total stop. unfold listPage, pageOf. change (pageSizeOf (with_token _ p)) with (pageSizeOf p). rewrite Hn.
  assert (offsetOf (with_token (if k =? 0 then "" else Itoa k) p) = Some k) as ->.
  { unfold offsetOf, with_token. cbn [lp_PageToken]. destruct (Z.eqb_spec k 0) as [->|Hne]; [done|]. destruct (Itoa_digits k) as (_ & _ & Hne2); [lia|]. rewrite (proj2 (String.eqb_neq _ _) Hne2), Atoi_Itoa by lia. rewrite (proj2 (Z.ltb_ge _ _)); [done|lia]. }
  change (sort_by laterTask (List.filter (listed (with_token _ p)) met)) with all. fold total. rewrite (Z.min_l k total) by apply Hk. done.
Qed.

(** Following the tokens from [k] on. *)
Lemma follow_from p store n walks k : pageSizeOf p = Some n → 0 < n → NoDup (map t_ID store) → Forall (λ met, met ≡ₚ store) walks →
  let all := listing p store in
  Z.of_nat (length all) < 2 ^ 63 → 0 ≤ k ≤ Z.of_nat (length all) → (length all - Z.to_nat k < length walks)%nat →
  follow p (if k =? 0 then "" else Itoa k) walks = Some (map (listView p) (drop (Z.to_nat k) all)).
Proof.
  intros Hn Hpos Hnd Hw all Hlen. revert k. induction Hw as [|met walks Hm Hw IH]; intros k Hk Hf; cbn [length] in Hf; [lia|]. cbn [follow].
  assert (listing p met = all) as Hall by by apply listing_order. rewrite (listPage_at p met n k) by (rewrite ?Hall; done). rewrite Hall. cbn [lr_NextPageToken lr_Tasks].
  set (total := Z.of_nat (length all)) in *. destruct (Z.ltb_spec (Z.min (k + n) total) total) as [Hlt|Hge].
  - rewrite Z.min_l in * by lia. destruct (Itoa_digits (k + n)) as (_ & _ & Hne); [lia|]. rewrite (proj2 (String.eqb_neq _ _) Hne).
    specialize (IH (k + n) ltac:(lia) ltac:(lia)). rewrite (proj2 (Z.eqb_neq (k + n) 0)) in IH by lia. rewrite IH. cbn. f_equal.
    rewrite <- map_app. f_equal. replace (Z.to_nat (k + n)) with (Z.to_nat k + Z.to_nat (k + n - k))%nat by lia. rewrite <- drop_drop. apply take_drop.
  - cbn. f_equal. f_equal. apply take_ge. rewrite length_drop. lia.
Qed.

Lemma pageSize_pos p n : pageSizeOf p = Some n → 0 < n ≤ maxListPageSize.
Proof. unfold pageSizeOf, maxListPageSize, defaultListPageSize. repeat case_match; intros; simplify_eq; lia. Qed.

(** A task that is in the list of every walk, at a place from [i] on that never moves to
    the front. *)
Fixpoint steady (p : listParams) (t : Task) (i : nat) (walks : list (list Task)) : Prop :=
  match walks with
  | [] => True
  | met :: walks => ∃ pos, (i ≤ pos)%nat ∧ listing p met !! pos = Some t ∧ steady p t pos walks
  end.

Lemma follow_steady p n t walks k i out : pageSizeOf p = Some n → 0 < n → Forall (λ met, Z.of_nat (length met) < 2 ^ 63) walks →
  0 ≤ k ≤ Z.of_nat i → steady p t i walks → follow p (if k =? 0 then "" else Itoa k) walks = Some out → listView p t ∈ out.
Proof.
  intros Hn Hpos Hw. revert k i out. induction Hw as [|met walks Hm Hw IH]; intros k i out Hk Hs Hf; [done|]. cbn [follow] in Hf.
  destruct Hs as (pos & Hi & Hat & Hs). assert (length (listing p met) ≤ length met)%nat as Hle.
  { unfold listing. rewrite sort_by_perm. apply filter_length_le. }
  assert (pos < length (listing p met))%nat as Hlt by by eapply lookup_lt_Some.
  rewrite (listPage_at p met n k) in Hf by (try done; lia). set (total := Z.of_nat (length (listing p met))) in *. cbn [lr_NextPageToken lr_Tasks] in Hf.
  assert (Hin : ∀ stop, Z.of_nat pos < stop → listView p t ∈ map (listView p) (take (Z.to_nat (stop - k)) (drop (Z.to_nat k) (listing p met)))).
  { intros stop Hstop. apply list_elem_of_In, in_map, list_elem_of_In. apply list_elem_of_lookup. exists (pos - Z.to_nat k)%nat.
    rewrite lookup_take_lt by lia. rewrite lookup_drop. by replace (Z.to_nat k + (pos - Z.to_nat k))%nat with pos by lia. }
  destruct (decide (Z.of_nat pos < k + n)) as [Hhere|Hlater].
  - specialize (Hin (Z.min (k + n) total)). assert (Hp : Z.of_nat pos < Z.min (k + n) total) by lia. specialize (Hin Hp).
    destruct (String.eqb _ ""); [by injection Hf as <-|]. apply bind_Some in Hf as (rest & _ & [= <-]). apply elem_of_app. by left.
  - rewrite (Z.min_l (k + n) total) in Hf by lia. rewrite (proj2 (Z.ltb_lt (k + n) total)) in Hf by lia. destruct (Itoa_digits (k + n)) as (_ & _ & Hne); [lia|].
    rewrite (proj2 (String.eqb_neq _ _) Hne) in Hf. apply bind_Some in Hf as (rest & Hrest & [= <-]). apply elem_of_app. right.
    apply (IH (k + n) pos); [lia|done|]. by rewrite (proj2 (Z.eqb_neq (k + n) 0)) by lia.
Qed.

(** C33. Paging through the tasks.  When the store does not change, a client that follows
    the page tokens gets every task it asked for exactly once, latest first, however the
    walk of each request happens to meet the tasks; one request more than there are tasks
    is always enough.  When the store does change between the requests, a client that
    reaches the last page has got every task that stayed in the list as it was and never
    moved to the front; others can be missed or repeated ([pages_shift]). *)
Theorem list_pages p : is_Some (pageSizeOf p) →
  (∀ store walks, NoDup (map t_ID store) → Z.of_nat (length store) < 2 ^ 63 →
     Forall (λ met, met ≡ₚ store) walks → (length store < length walks)%nat →
     ∃ all, follow p "" walks = Some (map (listView p) all) ∧ all ≡ₚ List.filter (listed p) store ∧ StronglySorted (λ a b, laterTask a b = true) all) ∧
  (∀ t walks out, Forall (λ met, Z.of_nat (length met) < 2 ^ 63) walks → steady p t 0 walks → follow p "" walks = Some out → listView p t ∈ out).
Proof.
  intros [n Hn]. pose proof (proj1 (pageSize_pos p n Hn)) as Hpos. split.
  - intros store walks Hnd Hlen Hw Hl. exists (listing p store). assert (length (listing p store) ≤ length store)%nat as Hle.
    { unfold listing. rewrite sort_by_perm. apply filter_length_le. }
    split; [|split; [apply sort_by_perm|]].
    + apply (follow_from p store n walks 0 Hn); [done..|lia|lia|lia].
    + assert (Transitive (λ a b, laterTask a b = true)) by (intros a b c; apply laterTask_trans). apply sort_by_sorted; [done|done|apply laterTask_total].
  - intros t walks out Hw Hs Hf. by apply (follow_steady p n t walks 0 0%nat out).
Qed.
End Pages.

(** Three tasks, one of them of another conversation, in pages of one. *)
Definition demoTask (id context : string) (updated : Z) : Task := mkTask id context (mkStatus TaskStateWorking None "") [] [] updated.
Definition demoTasks : list Task := [demoTask "a" "ctx" 1; demoTask "b" "ctx" 3; demoTask "c" "other" 2].
Definition demoPages : listParams := mkList "ctx" "" (Some 1) "" None None "".
#[local] Instance demoTimes : A2AEnv := {| rfc3339UTC := Itoa; parseRFC3339 := λ _, None; parseRFC3339Nano := λ _, None |}.

Lemma list_pages_witness : ∃ all, follow demoPages "" (demoTasks :: repeat (reverse demoTasks) 3) = Some (map (listView demoPages) all) ∧
  all ≡ₚ List.filter (listed demoPages) demoTasks ∧ StronglySorted (λ a b, laterTask a b = true) all ∧ map t_ID all = ["b"; "a"].
Proof.
  assert (Forall (λ met, met ≡ₚ demoTasks) (demoTasks :: repeat (reverse demoTasks) 3)) as Hw by (constructor; [reflexivity|apply Forall_forall; intros met Hm%list_elem_of_In%repeat_spec; rewrite Hm; apply reverse_Permutation]).
  destruct (list_pages demoPages) as [Hpages _]; [by exists 1|].
  destruct (Hpages demoTasks (demoTasks :: repeat (reverse demoTasks) 3)) as (all & Hf & Hp & Hs).
  - apply (bool_decide_eq_true_1 (NoDup (map t_ID demoTasks))). reflexivity.
  - reflexivity.
  - exact Hw.
  - cbn. lia.
  - exists all. split; [exact Hf|]. split; [exact Hp|]. split; [exact Hs|]. assert (map t_ID (map (listView demoPages) all) = ["b"; "a"]) as <-.
    + assert (follow demoPages "" (demoTasks :: repeat (reverse demoTasks) 3) = Some [demoTask "b" "ctx" 3; demoTask "a" "ctx" 1]) as Hv by (vm_compute; reflexivity).
      rewrite Hf in Hv. injection Hv as ->. reflexivity.
    + rewrite map_map. reflexivity.
Defined.

(** A page token is an offset into the list of the moment: when a task is updated between
    two requests, it moves to the front and is missed, and one that was already sent is
    sent again. *)
Example pages_shift :
  let later := [demoTask "a" "ctx" 4; demoTask "b" "ctx" 3; demoTask "c" "other" 2] in
  option_map (map t_ID) (follow demoPages "" [demoTasks; later; later]) = Some ["b"; "b"].
Proof. vm_compute. reflexivity. Qed.
