(* ===== verification/A2AStore.v ===== *)
(** * The A2A protocol: tasks and streams (src/internal/a2a/handler.go, stream.go)

    Requests are served concurrently, and what they share is kept in concurrent maps,
    atomic numbers, and hubs with a lock of their own.  A handler is a program: a tree of
    atomic actions, each with the answers it can get.  [exec] is what an action does;
    a [step] lets one of the programs take its next action, so that every interleaving
    of the handlers at the granularity of those actions is covered.

    The critical section of a hub is one action, since nobody sees the hub while its lock
    is held.  What an action asks of the outside (the clock, the next entry of a walk
    over a map, the outcome of a turn of the agent, whether a client still reads) comes
    with the step.  A loop gets [rounds] as fuel, and a program that has used it up is
    still in its loop ([Spin]).  Deadlines and the identifiers of requests are left out:
    a turn ends when the step says so. *)

From Stdlib Require Import Ascii.
From S2P Require Import Prelude GoText GoLib PyFloat GoFmt Core GoJson PyJson Governance Response Provider SessionText Session SessionCodec A2A.
#[local] Open Scope string_scope.
#[local] Open Scope list_scope.
#[local] Open Scope Z_scope.

(** ** Limits *)

Definition taskRetentionTTL : Z := 10 * 60 * 1000000000.
Definition taskSweepInterval : Z := 60 * 1000000000.
Definition maxRetainedTasks : Z := 1024.
Definition taskTrimTarget : Z := maxRetainedTasks * 7 / 8.
Definition streamSubscriberBuffer : nat := 16.

(** ** Actions *)

Record sendPlan := mkPlan { sp_taskID : string; sp_contextID : string; sp_input : string; sp_inbound : Message }.

Inductive response :=
  | RTask (t : Task) | RSent (t : Task) | RListed (l : ListTasksResponse) | RFailure (f : rpcFailure) | RHTTP (status : Z).

Inductive received := REvent (seq : Z) (t : Task) | RClosed | RDone.

Inductive action :=
  | Now | NewSeq
  | HasTask (id : string) | LoadTask (id : string) | StoreTask (t : Task) | SwapTask (t : Task) | DeleteEntry (id : string) | RangeTasks (seen : list string)
  | LoadRetained | CasRetained (n : Z) | ReleaseRetained | LoadSweep | CasSweep (last now : Z) | LockTrim | UnlockTrim
  | LoadHub (id : string) | LoadOrStoreHub (id : string) | DeleteHub (id : string)
  | Broadcast (hub : nat) (t : Task) | Subscribe (hub : nat) (id : string) | Unsubscribe (hub sub : nat) | Receive (sub : nat)
  | StoreCancel (id : string) | CallCancel (id : string) | DeleteCancel (id : string)
  | ProcessMessage (chatID content taskID : string) | GoRunTurn (plan : sendPlan) | Await (thread : nat)
  | OpenStream | WriteEvent (t : Task) | Respond (r : response).

Definition answer (a : action) : Type :=
  match a with
  | Now | NewSeq | LoadRetained | LoadSweep => Z
  | HasTask _ | SwapTask _ | DeleteEntry _ | CasRetained _ | CasSweep _ _ | OpenStream | WriteEvent _ => bool
  | LoadTask _ => option Task
  | RangeTasks _ => option (string * Task)
  | LoadHub _ => option nat
  | LoadOrStoreHub _ | GoRunTurn _ => nat
  | Subscribe _ _ => nat * option (Z * Task)
  | Receive _ => received
  | ProcessMessage _ _ _ => string + option string
  | _ => unit
  end.

(** ** Programs *)

Inductive prog (A : Type) : Type :=
  | Ret (a : A)
  | Vis (a : action) (k : answer a → prog A)
  | Spin.
Arguments Ret {A} a.
Arguments Vis {A} a k.
Arguments Spin {A}.

Fixpoint pbind {A B} (p : prog A) (f : A → prog B) : prog B :=
  match p with Ret a => f a | Vis a k => Vis a (λ x, pbind (k x) f) | Spin => Spin end.
Definition act (a : action) : prog (answer a) := Vis a Ret.

Declare Scope prog_scope.
Delimit Scope prog_scope with prog.
Notation "x <- m ;; k" := (pbind m (λ x, k)) (at level 100, m at next level, right associativity) : prog_scope.
Notation "m ;; k" := (pbind m (λ _, k)) (at level 100, right associativity) : prog_scope.
Notation "'when' b 'do' m" := (if b then m else Ret tt) (at level 90, m at next level) : prog_scope.
#[local] Open Scope prog_scope.

Section Handler.
Context `{A2AEnv} (rounds : nat) (attached : bool).

(** *** Retention (handler.go) *)

Definition deleteTask (key : string) : prog unit :=
  loaded <- act (DeleteEntry key);;
  (when loaded do act ReleaseRetained);;
  act (DeleteHub key).

Fixpoint evict_loop (fuel : nat) (now : Z) (seen : list string) : prog unit :=
  match fuel with
  | O => Spin
  | S fuel =>
      entry <- act (RangeTasks seen);;
      match entry with
      | None => Ret tt
      | Some (key, task) =>
          (when terminal task && (taskRetentionTTL <? now - t_updated task) do deleteTask key);;
          evict_loop fuel now (key :: seen)
      end
  end.
Definition evictExpiredTasks (now : Z) : prog unit := evict_loop rounds now [].

Fixpoint candidates_loop (fuel : nat) (candidates : list (string * Task)) : prog (list (string * Task)) :=
  match fuel with
  | O => Spin
  | S fuel =>
      entry <- act (RangeTasks (map fst candidates));;
      match entry with None => Ret candidates | Some candidate => candidates_loop fuel (candidates ++ [candidate]) end
  end.

(** Terminal tasks first, least recently updated first. *)
Definition evictFirst (a b : string * Task) : bool :=
  if Bool.eqb (terminal a.2) (terminal b.2) then t_updated a.2 <=? t_updated b.2 else terminal a.2.

Fixpoint victims_loop (victims : list (string * Task)) : prog unit :=
  match victims with
  | [] => Ret tt
  | victim :: victims =>
      n <- act LoadRetained;;
      if n <=? taskTrimTarget then Ret tt else deleteTask victim.1;; victims_loop victims
  end.

Definition trim : prog unit :=
  act LockTrim;;
  (n <- act LoadRetained;;
   (when negb (n <? maxRetainedTasks) do (candidates <- candidates_loop rounds [];; victims_loop (sort_by evictFirst candidates)));;
   act UnlockTrim).

Definition enforceTaskCap : prog unit := n <- act LoadRetained;; if n <=? maxRetainedTasks then Ret tt else trim.

Definition sweepTasks (now : Z) : prog unit :=
  last <- act LoadSweep;;
  (when (last =? 0) || (taskSweepInterval <=? now - last) do
     (swapped <- act (CasSweep last now);; when swapped do evictExpiredTasks now));;
  enforceTaskCap.

(** *** Hubs (stream.go) *)

Definition hubFor (id : string) : prog nat :=
  hub <- act (LoadHub id);;
  match hub with Some hub => Ret hub | None => act (LoadOrStoreHub id) end.

Definition broadcast (t : Task) : prog unit :=
  hub <- act (LoadHub (t_ID t));;
  match hub with None => Ret tt | Some hub => act (Broadcast hub t) end.

Definition subscribe (id : string) : prog (nat * option (Z * Task)) := hub <- hubFor id;; act (Subscribe hub id).

Definition unsubscribe (id : string) (sub : nat) : prog unit :=
  hub <- act (LoadHub id);;
  match hub with None => Ret tt | Some hub => act (Unsubscribe hub sub) end.

(** *** Publishing *)

Definition with_updated (now : Z) (t : Task) : Task := mkTask (t_ID t) (t_ContextID t) (t_Status t) (t_Artifacts t) (t_History t) now.
Definition with_status (status : TaskStatus) (t : Task) : Task := mkTask (t_ID t) (t_ContextID t) status (t_Artifacts t) (t_History t) (t_updated t).

(** The loop that takes a slot. *)
Fixpoint slot_loop (fuel : nat) : prog unit :=
  match fuel with
  | O => Spin
  | S fuel =>
      n <- act LoadRetained;;
      if n <? maxRetainedTasks then (swapped <- act (CasRetained n);; if swapped then Ret tt else slot_loop fuel)
      else trim;; slot_loop fuel
  end.

Definition publish (task : Task) : prog unit :=
  now <- act Now;;
  let snapshot := with_updated now task in
  loaded <- act (HasTask (t_ID task));;
  (if loaded then act (StoreTask snapshot)
   else slot_loop rounds;; (loaded <- act (SwapTask snapshot);; when loaded do act ReleaseRetained));;
  broadcast snapshot;;
  (now <- act Now;; sweepTasks now).

Definition loadTask (id : string) : prog (option Task) := act (LoadTask id).

Definition snapshotOr (task : Task) : prog Task :=
  current <- loadTask (t_ID task);;
  match current with Some current => Ret current | None => now <- act Now;; Ret (with_updated now task) end.

Definition newID (prefix : string) : prog string :=
  now <- act Now;;
  n <- act NewSeq;;
  Ret (prefix +:+ "-" +:+ Itoa now +:+ "-" +:+ Itoa n).

Definition taskStatus (state : string) : prog TaskStatus := now <- act Now;; Ret (mkStatus state None (rfc3339UTC now)).

(** *** SendMessage *)

Definition parseSendParams (raw : RawJSON) : prog (detail + Message) :=
  if String.eqb raw "" then Ret (inl (DText "params is required")) else
  match decodeSend raw with
  | None => Ret (inl DJSON)
  | Some msg =>
      if Nat.eqb (length (am_Parts msg)) 0 then Ret (inl (DText "message.parts must contain at least one part")) else
      messageID <- (if String.eqb (TrimSpace (am_MessageID msg)) "" then newID "msg" else Ret (am_MessageID msg));;
      let role := if String.eqb (TrimSpace (am_Role msg)) "" then RoleUser else am_Role msg in
      if negb (String.eqb role RoleUser) && negb (String.eqb role RoleAgent)
      then Ret (inl (DText ("message.role must be " +:+ RoleUser +:+ " or " +:+ RoleAgent)))
      else Ret (inr (mkMsg messageID (am_ContextID msg) (am_TaskID msg) role (am_Parts msg)))
  end.

(** The task a request is for, checked when it names one. *)
Definition resolveTask (taskID contextID : string) : prog (rpcFailure + string) :=
  if String.eqb taskID "" then Ret (inr contextID) else
  existing <- loadTask taskID;;
  match existing with
  | None => Ret (inl (taskNotFound taskID))
  | Some existing =>
      if terminal existing then Ret (inl (terminalTask existing taskID))
      else if negb (String.eqb contextID "") && negb (String.eqb contextID (t_ContextID existing)) then
        Ret (inl (invalidParams [("field", DText "message.contextId"); ("detail", DText "contextId does not match the task it was sent with");
                                 ("taskId", DText taskID); ("expectedContextId", DText (t_ContextID existing))]))
      else Ret (inr (t_ContextID existing))
  end.

Definition prepareSend (params : RawJSON) : prog (rpcFailure + sendPlan) :=
  parsed <- parseSendParams params;;
  match parsed with
  | inl err => Ret (inl (invalidParams [("detail", err)]))
  | inr msg =>
      if HasUnsupportedContent msg then
        Ret (inl (mkFailure CodeContentTypeNotSupportedError "Content type not supported" [mkInfo "CONTENT_TYPE_NOT_SUPPORTED" [("supportedInputModes", DText MediaTypeText)]]))
      else
      let inputText := TrimSpace (Text msg) in
      if String.eqb inputText "" then Ret (inl (invalidParams [("field", DText "message.parts"); ("detail", DText "at least one text part is required")])) else
      resolved <- resolveTask (am_TaskID msg) (am_ContextID msg);;
      match resolved with
      | inl failure => Ret (inl failure)
      | inr contextID =>
          taskID <- (if String.eqb (am_TaskID msg) "" then newID "task" else Ret (am_TaskID msg));;
          contextID <- (if String.eqb contextID "" then newID "ctx" else Ret contextID);;
          Ret (inr (mkPlan taskID contextID inputText (mkMsg (am_MessageID msg) contextID taskID RoleUser (am_Parts msg))))
      end
  end.

(** The snapshot of a task that has ended already, if there is one. *)
Definition endedTask (id : string) : prog (option Task) :=
  current <- loadTask id;;
  Ret (match current with Some t => if terminal t then Some t else None | None => None end).

(** The end of a turn that failed. *)
Definition failTurn (plan : sendPlan) (task : Task) (err : string) : prog Task :=
  ended <- endedTask (sp_taskID plan);;
  match ended with
  | Some current => Ret current
  | None =>
      status <- taskStatus TaskStateFailed;;
      messageID <- newID "msg";;
      let task := with_status (mkStatus (ts_State status) (Some (mkMsg messageID (sp_contextID plan) (sp_taskID plan) RoleAgent [NewTextPart err])) (ts_Timestamp status)) task in
      publish task;;
      snapshotOr task
  end.

Definition completeTurn (plan : sendPlan) (task : Task) (finalOutput : string) : prog Task :=
  ended <- endedTask (sp_taskID plan);;
  match ended with
  | Some current => Ret current
  | None =>
      status <- taskStatus TaskStateCompleted;;
      artifactID <- newID "artifact";;
      messageID <- newID "msg";;
      let task := mkTask (t_ID task) (t_ContextID task) status
        [mkArtifact artifactID "response" "Agent response text" [NewTextPart finalOutput]]
        (t_History task ++ [mkMsg messageID (sp_contextID plan) (sp_taskID plan) RoleAgent [NewTextPart finalOutput]]) (t_updated task) in
      publish task;;
      snapshotOr task
  end.

Definition runTurn (plan : sendPlan) : prog Task :=
  status <- taskStatus TaskStateWorking;;
  let task := mkTask (sp_taskID plan) (sp_contextID plan) status [] [sp_inbound plan] 0 in
  publish task;;
  act (StoreCancel (sp_taskID plan));;
  (final <- (if attached then
               (out <- act (ProcessMessage (sp_contextID plan) (sp_input plan) (sp_taskID plan));;
                match out with inl err => failTurn plan task err | inr content => completeTurn plan task (default "" content) end)
             else completeTurn plan task ("Haosbot received: " +:+ sp_input plan +:+ " (agent loop not attached)"));;
   act (DeleteCancel (sp_taskID plan));;
   Ret final).

Definition handleSendMessage (params : RawJSON) : prog unit :=
  plan <- prepareSend params;;
  match plan with
  | inl failure => act (Respond (RFailure failure))
  | inr plan => task <- runTurn plan;; act (Respond (RSent task))
  end.

(** *** GetTask, ListTasks, CancelTask *)

Definition handleGetTask (params : RawJSON) : prog unit :=
  match decodeGet params with
  | inl failure => act (Respond (RFailure failure))
  | inr (id, historyLength) =>
      task <- loadTask id;;
      act (Respond (match task with None => RFailure (taskNotFound id) | Some task => RTask (taskWithHistoryLength task historyLength) end))
  end.

Definition handleListTasks (params : RawJSON) : prog unit :=
  match decodeList params with
  | None => act (Respond (RFailure (invalidParams [("detail", DJSON)])))
  | Some p =>
      match pageOf p with
      | inl failure => act (Respond (RFailure failure))
      | inr _ =>
          met <- candidates_loop rounds [];;
          act (Respond (match listPage p (map snd met) with inl failure => RFailure failure | inr l => RListed l end))
      end
  end.

Definition handleCancelTask (params : RawJSON) : prog unit :=
  match decodeID params with
  | inl failure => act (Respond (RFailure failure))
  | inr id =>
      found <- loadTask id;;
      match found with
      | None => act (Respond (RFailure (taskNotFound id)))
      | Some task =>
          let state := ts_State (t_Status task) in
          if String.eqb state TaskStateCanceled then act (Respond (RTask task))
          else if existsb (String.eqb state) [TaskStateCompleted; TaskStateFailed; TaskStateRejected] then
            act (Respond (RFailure (mkFailure CodeTaskNotCancelableError "Task cannot be canceled"
              [mkInfo "TASK_NOT_CANCELABLE" [("taskId", DText id); ("state", DText state)]])))
          else
            act (CallCancel id);;
            (status <- taskStatus TaskStateCanceled;;
             let canceled := with_status status task in
             publish canceled;;
             (task <- snapshotOr canceled;; act (Respond (RTask task))))
      end
  end.

(** *** Streams *)

Fixpoint relay_loop (fuel : nat) (sub : nat) (lastSeq : Z) : prog unit :=
  match fuel with
  | O => Spin
  | S fuel =>
      event <- act (Receive sub);;
      match event with
      | RClosed | RDone => Ret tt
      | REvent seq task =>
          if seq <=? lastSeq then relay_loop fuel sub lastSeq else
          written <- act (WriteEvent task);;
          if negb written then Ret tt else if terminal task then Ret tt else relay_loop fuel sub seq
      end
  end.
Definition relayTask (sub : nat) (lastSeq : Z) : prog unit := relay_loop rounds sub lastSeq.

Definition handleSendStreamingMessage (params : RawJSON) : prog unit :=
  planned <- prepareSend params;;
  match planned with
  | inl failure => act (Respond (RFailure failure))
  | inr plan =>
      joined <- subscribe (sp_taskID plan);;
      opened <- act OpenStream;;
      (if negb opened then act (Respond (RHTTP 500))
       else turn <- act (GoRunTurn plan);; relayTask joined.1 0;; act (Await turn));;
      unsubscribe (sp_taskID plan) joined.1
  end.

Definition handleSubscribeToTask (params : RawJSON) : prog unit :=
  match decodeID params with
  | inl failure => act (Respond (RFailure failure))
  | inr taskID =>
      joined <- subscribe taskID;;
      match joined.2 with
      | None => unsubscribe taskID joined.1;; act (Respond (RFailure (taskNotFound taskID)))
      | Some (seq, first) =>
          (if terminal first then act (Respond (RFailure (terminalTask first taskID))) else
           opened <- act OpenStream;;
           if negb opened then act (Respond (RHTTP 500)) else
           written <- act (WriteEvent first);;
           if written then relayTask joined.1 seq else Ret tt);;
          unsubscribe taskID joined.1
      end
  end.

(** *** Dispatch *)

Definition supportedVersions : list string := ["1.0"; "0.3"].

Definition methodAliases : list (string * string) :=
  [("message/send", "SendMessage"); ("tasks/send", "SendMessage"); ("tasks/create", "SendMessage"); ("tasks/get", "GetTask");
   ("message/stream", "SendStreamingMessage"); ("tasks/resubscribe", "SubscribeToTask"); ("tasks/cancel", "CancelTask"); ("tasks/list", "ListTasks");
   ("tasks/pushNotificationConfig/set", "CreateTaskPushNotificationConfig"); ("tasks/pushNotificationConfig/get", "GetTaskPushNotificationConfig");
   ("tasks/pushNotificationConfig/list", "ListTaskPushNotificationConfigs"); ("tasks/pushNotificationConfig/delete", "DeleteTaskPushNotificationConfig");
   ("agent/getAuthenticatedExtendedCard", "GetExtendedAgentCard")].
Definition canonical (method : string) : string := default method (snd <$> List.find (λ alias, String.eqb alias.1 method) methodAliases).
Definition pushMethods : list string :=
  ["CreateTaskPushNotificationConfig"; "GetTaskPushNotificationConfig"; "ListTaskPushNotificationConfigs"; "DeleteTaskPushNotificationConfig"].

(** The members of a request that are used. *)
Definition decodeRequest (body : string) : option (string * string * RawJSON) :=
  '(raw, _) ← rawValue body;
  fields ← unmarshalRawMap raw;
  jsonrpc ← stringMember fields "jsonrpc";
  method ← stringMember fields "method";
  if negb (forallb (λ raw, match decode raw with Some (v, _) => negb (outOfRange v) | None => false end) (valuesOf fields "id")) then None
  else Some (jsonrpc, method, rawMember fields "params").

Record request := mkRequest { rq_Path : string; rq_Method : string; rq_Version : string; rq_Body : string }.

Definition handleJSONRPC (r : request) : prog unit :=
  if negb (String.eqb (rq_Path r) "/a2a") && negb (String.eqb (rq_Path r) "/a2a/") then act (Respond (RHTTP 404))
  else if negb (String.eqb (rq_Method r) "POST") then act (Respond (RHTTP 405))
  else match decodeRequest (rq_Body r) with
  | None => act (Respond (RFailure (mkFailure CodeJSONParseError "Invalid JSON payload" [])))
  | Some (jsonrpc, name, params) =>
      let version := TrimSpace (rq_Version r) in
      if negb (String.eqb jsonrpc "") && negb (String.eqb jsonrpc "2.0") then
        act (Respond (RFailure (mkFailure CodeInvalidRequestError "Request payload validation error" [mkInfo "INVALID_REQUEST" [("jsonrpc", DText jsonrpc)]])))
      else if negb (String.eqb version "") && negb (existsb (String.eqb version) supportedVersions) then
        act (Respond (RFailure (mkFailure CodeVersionNotSupportedError "Version not supported"
          [mkInfo "VERSION_NOT_SUPPORTED" [("requestedVersion", DText version); ("supportedVersion", DText ProtocolVersion)]])))
      else
      let method := canonical name in
      if String.eqb method "SendMessage" then handleSendMessage params
      else if String.eqb method "GetTask" then handleGetTask params
      else if String.eqb method "ListTasks" then handleListTasks params
      else if String.eqb method "CancelTask" then handleCancelTask params
      else if String.eqb method "SendStreamingMessage" then handleSendStreamingMessage params
      else if String.eqb method "SubscribeToTask" then handleSubscribeToTask params
      else if existsb (String.eqb method) pushMethods then
        act (Respond (RFailure (mkFailure CodePushNotificationNotSupportedError "This agent does not support push notifications"
          [mkInfo "PUSH_NOTIFICATION_NOT_SUPPORTED" [("capability", DText "pushNotifications")]])))
      else if String.eqb method "GetExtendedAgentCard" then
        act (Respond (RFailure (mkFailure CodeUnsupportedOperationError "This agent has no extended agent card"
          [mkInfo "UNSUPPORTED_OPERATION" [("capability", DText "extendedAgentCard")]])))
      else act (Respond (RFailure (mkFailure CodeMethodNotFoundError "Method not found" [mkInfo "METHOD_NOT_FOUND" [("method", DText name)]])))
  end.
End Handler.

(** ** The shared state *)

(** [hb_id] records the task a hub was made for, [hb_log] every event that was broadcast. *)
Record Hub := mkHub { hb_id : string; hb_subs : list nat; hb_last : option Task; hb_seq : Z; hb_log : list (Z * Task) }.

(** A channel of a stream: what is in its buffer and whether it was closed.  The other
    members are a record of how it came to be: the hub, its sequence number, its last
    snapshot and the length of its log when the stream joined, and what was received. *)
Record Sub := mkSub {
  sb_buffer : list (Z * Task); sb_closed : bool;
  sb_hub : nat; sb_joined : Z; sb_first : option Task; sb_from : nat; sb_got : list (Z * Task) }.

Inductive output := OResponse (r : response) | OEvent (t : Task).

(** [a_recreated] counts the stores that did not find the entry they replace,
    [a_time] the actions, [a_since] when each entry was stored, [a_looks] when a program
    last looked at a task. *)
Record State := mkState {
  a_tasks : gmap string Task; a_retained : Z; a_lastSweep : Z; a_trim : option nat;
  a_hubs : gmap string nat; a_hubHeap : list Hub; a_subs : list Sub;
  a_cancels : gmap string nat; a_cancelled : gset nat; a_taskSeq : Z; a_out : gmap nat (list output);
  a_recreated : Z; a_time : nat; a_since : gmap string nat; a_looks : gmap (nat * string) nat }.

Definition initState : State := mkState ∅ 0 0 None ∅ [] [] ∅ ∅ 0 ∅ 0 0 ∅ ∅.

(** What comes from outside with a step. *)
Record oracle := mkOracle { o_now : Z; o_key : option string; o_turn : string + option string; o_ok : bool }.

Definition set_tasks f (s : State) : State :=
  mkState (f (a_tasks s)) (a_retained s) (a_lastSweep s) (a_trim s) (a_hubs s) (a_hubHeap s) (a_subs s) (a_cancels s) (a_cancelled s) (a_taskSeq s) (a_out s)
    (a_recreated s) (a_time s) (a_since s) (a_looks s).
Definition set_retained n (s : State) : State :=
  mkState (a_tasks s) n (a_lastSweep s) (a_trim s) (a_hubs s) (a_hubHeap s) (a_subs s) (a_cancels s) (a_cancelled s) (a_taskSeq s) (a_out s)
    (a_recreated s) (a_time s) (a_since s) (a_looks s).
Definition set_sweep n (s : State) : State :=
  mkState (a_tasks s) (a_retained s) n (a_trim s) (a_hubs s) (a_hubHeap s) (a_subs s) (a_cancels s) (a_cancelled s) (a_taskSeq s) (a_out s)
    (a_recreated s) (a_time s) (a_since s) (a_looks s).
Definition set_trim l (s : State) : State :=
  mkState (a_tasks s) (a_retained s) (a_lastSweep s) l (a_hubs s) (a_hubHeap s) (a_subs s) (a_cancels s) (a_cancelled s) (a_taskSeq s) (a_out s)
    (a_recreated s) (a_time s) (a_since s) (a_looks s).
Definition set_hubs f heap subs (s : State) : State :=
  mkState (a_tasks s) (a_retained s) (a_lastSweep s) (a_trim s) (f (a_hubs s)) heap subs (a_cancels s) (a_cancelled s) (a_taskSeq s) (a_out s)
    (a_recreated s) (a_time s) (a_since s) (a_looks s).
Definition set_cancels f g (s : State) : State :=
  mkState (a_tasks s) (a_retained s) (a_lastSweep s) (a_trim s) (a_hubs s) (a_hubHeap s) (a_subs s) (f (a_cancels s)) (g (a_cancelled s)) (a_taskSeq s) (a_out s)
    (a_recreated s) (a_time s) (a_since s) (a_looks s).
Definition set_taskSeq n (s : State) : State :=
  mkState (a_tasks s) (a_retained s) (a_lastSweep s) (a_trim s) (a_hubs s) (a_hubHeap s) (a_subs s) (a_cancels s) (a_cancelled s) n (a_out s)
    (a_recreated s) (a_time s) (a_since s) (a_looks s).
Definition put_out tid o (s : State) : State :=
  mkState (a_tasks s) (a_retained s) (a_lastSweep s) (a_trim s) (a_hubs s) (a_hubHeap s) (a_subs s) (a_cancels s) (a_cancelled s) (a_taskSeq s)
    (<[tid := default [] (a_out s !! tid) ++ [o]]> (a_out s)) (a_recreated s) (a_time s) (a_since s) (a_looks s).
Definition record_recreated n (s : State) : State :=
  mkState (a_tasks s) (a_retained s) (a_lastSweep s) (a_trim s) (a_hubs s) (a_hubHeap s) (a_subs s) (a_cancels s) (a_cancelled s) (a_taskSeq s) (a_out s)
    (a_recreated s + n) (a_time s) (a_since s) (a_looks s).
Definition record_since id (s : State) : State :=
  mkState (a_tasks s) (a_retained s) (a_lastSweep s) (a_trim s) (a_hubs s) (a_hubHeap s) (a_subs s) (a_cancels s) (a_cancelled s) (a_taskSeq s) (a_out s)
    (a_recreated s) (a_time s) (<[id := a_time s]> (a_since s)) (a_looks s).
Definition record_look tid id (s : State) : State :=
  mkState (a_tasks s) (a_retained s) (a_lastSweep s) (a_trim s) (a_hubs s) (a_hubHeap s) (a_subs s) (a_cancels s) (a_cancelled s) (a_taskSeq s) (a_out s)
    (a_recreated s) (a_time s) (a_since s) (<[(tid, id) := a_time s]> (a_looks s)).
(** A turn that is started for a request has looked when the request did. *)
Definition inherit_look tid fresh id (s : State) : State :=
  mkState (a_tasks s) (a_retained s) (a_lastSweep s) (a_trim s) (a_hubs s) (a_hubHeap s) (a_subs s) (a_cancels s) (a_cancelled s) (a_taskSeq s) (a_out s)
    (a_recreated s) (a_time s) (a_since s) (match a_looks s !! (tid, id) with Some t => <[(fresh, id) := t]> (a_looks s) | None => a_looks s end).
Definition record_time (s : State) : State :=
  mkState (a_tasks s) (a_retained s) (a_lastSweep s) (a_trim s) (a_hubs s) (a_hubHeap s) (a_subs s) (a_cancels s) (a_cancelled s) (a_taskSeq s) (a_out s)
    (a_recreated s) (S (a_time s)) (a_since s) (a_looks s).

Definition putTask (t : Task) (s : State) : State := record_since (t_ID t) (set_tasks <[t_ID t := t]> s).
Definition hasTask (id : string) (s : State) : bool := isSome (a_tasks s !! id).

(** ** What actions do *)

Definition with_buffer buffer closed got (sub : Sub) : Sub := mkSub buffer closed (sb_hub sub) (sb_joined sub) (sb_first sub) (sb_from sub) got.

Definition roomy (sub : Sub) : bool := (length (sb_buffer sub) <? streamSubscriberBuffer)%nat.

(** [sub.ch <- event] with a default: a full channel is closed. *)
Definition offer (event : Z * Task) (sub : Sub) : Sub :=
  if roomy sub then with_buffer (sb_buffer sub ++ [event]) (sb_closed sub) (sb_got sub) sub else with_buffer (sb_buffer sub) true (sb_got sub) sub.
Definition hasRoom (subs : list Sub) (i : nat) : bool := match subs !! i with Some sub => roomy sub | None => true end.
Definition close (sub : Sub) : Sub := with_buffer (sb_buffer sub) true (sb_got sub) sub.

(** The critical section of [broadcast]. *)
Definition broadcastIn (h : nat) (t : Task) (s : State) : State :=
  match a_hubHeap s !! h with
  | None => s
  | Some hub =>
      let seq := hb_seq hub + 1 in
      set_hubs id (<[h := mkHub (hb_id hub) (List.filter (hasRoom (a_subs s)) (hb_subs hub)) (Some t) seq (hb_log hub ++ [(seq, t)])]> (a_hubHeap s))
        (imap (λ i sub, if existsb (Nat.eqb i) (hb_subs hub) then offer (seq, t) sub else sub) (a_subs s)) s
  end.

(** The critical section of [subscribe]. *)
Definition subscribeIn (h : nat) (id : string) (s : State) : option (nat * option (Z * Task) * State) :=
  hub ← a_hubHeap s !! h;
  let i := length (a_subs s) in
  let '(last, seq) := match hb_last hub, a_tasks s !! id with
                      | Some last, _ => (Some last, hb_seq hub)
                      | None, Some task => (Some task, hb_seq hub + 1)
                      | None, None => (None, hb_seq hub)
                      end in
  Some (i, (λ t, (seq, t)) <$> last,
    set_hubs (λ m, m) (<[h := mkHub (hb_id hub) (hb_subs hub ++ [i]) last seq (hb_log hub)]> (a_hubHeap s)) (a_subs s ++ [mkSub [] false h seq last (length (hb_log hub)) []]) s).

Definition unsubscribeIn (h i : nat) (s : State) : State :=
  match a_hubHeap s !! h with
  | None => s
  | Some hub =>
      if existsb (Nat.eqb i) (hb_subs hub)
      then set_hubs id (<[h := mkHub (hb_id hub) (List.filter (λ j, negb (Nat.eqb j i)) (hb_subs hub)) (hb_last hub) (hb_seq hub) (hb_log hub)]> (a_hubHeap s)) (alter close i (a_subs s)) s
      else s
  end.

(** [<-sub.ch]: what is in the buffer first, then that it was closed. *)
Definition receiveFrom (i : nat) (s : State) : option (received * State) :=
  sub ← a_subs s !! i;
  match sb_buffer sub with
  | (seq, t) :: rest => Some (REvent seq t, set_hubs id (a_hubHeap s) (<[i := with_buffer rest (sb_closed sub) (sb_got sub ++ [(seq, t)]) sub]> (a_subs s)) s)
  | [] => if sb_closed sub then Some (RClosed, s) else None
  end.

(** The answer to an action of program [tid] and the state after it; [None] when it has
    to wait.  [fresh] is the number of a program that is started. *)
Definition exec (tid fresh : nat) (o : oracle) (ended : nat → bool) (a : action) (s : State) : option (answer a * State) :=
  match a return option (answer a * State) with
  | Now => Some (o_now o, s)
  | NewSeq => let n := a_taskSeq s + 1 in Some (n, set_taskSeq n s)
  | HasTask id => Some (hasTask id s, s)
  | LoadTask id => Some (a_tasks s !! id, record_look tid id s)
  | StoreTask t => Some (tt, record_recreated (if hasTask (t_ID t) s then 0 else 1) (putTask t s))
  | SwapTask t => Some (hasTask (t_ID t) s, putTask t s)
  | DeleteEntry id => Some (hasTask id s, set_tasks (delete id) s)
  | RangeTasks seen =>
      match o_key o with
      | None => Some (None, s)
      | Some key => if existsb (String.eqb key) seen then None else t ← a_tasks s !! key; Some (Some (key, t), s)
      end
  | LoadRetained => Some (a_retained s, s)
  | CasRetained n => if a_retained s =? n then Some (true, set_retained (n + 1) s) else Some (false, s)
  | ReleaseRetained => Some (tt, set_retained (a_retained s - 1) s)
  | LoadSweep => Some (a_lastSweep s, s)
  | CasSweep last now => if a_lastSweep s =? last then Some (true, set_sweep now s) else Some (false, s)
  | LockTrim => match a_trim s with None => Some (tt, set_trim (Some tid) s) | Some _ => None end
  | UnlockTrim => Some (tt, set_trim None s)
  | LoadHub id => Some (a_hubs s !! id, s)
  | LoadOrStoreHub id =>
      match a_hubs s !! id with
      | Some h => Some (h, s)
      | None => let h := length (a_hubHeap s) in Some (h, set_hubs <[id := h]> (a_hubHeap s ++ [mkHub id [] None 0 []]) (a_subs s) s)
      end
  | DeleteHub id => Some (tt, set_hubs (delete id) (a_hubHeap s) (a_subs s) s)
  | Broadcast h t => Some (tt, broadcastIn h t s)
  | Subscribe h id => '(i, first, s') ← subscribeIn h id s; Some ((i, first), s')
  | Unsubscribe h i => Some (tt, unsubscribeIn h i s)
  | Receive i => if o_ok o then receiveFrom i s else Some (RDone, s)
  | StoreCancel id => Some (tt, set_cancels <[id := tid]> (λ c, c) s)
  | CallCancel id => Some (tt, set_cancels (λ c, c) (λ c, match a_cancels s !! id with Some turn => {[turn]} ∪ c | None => c end) s)
  | DeleteCancel id => Some (tt, set_cancels (delete id) (λ c, {[tid]} ∪ c) s)
  | ProcessMessage _ _ _ => Some (o_turn o, s)
  | GoRunTurn plan => Some (fresh, inherit_look tid fresh (sp_taskID plan) s)
  | Await turn => if ended turn then Some (tt, s) else None
  | OpenStream => Some (o_ok o, s)
  | WriteEvent t => Some (o_ok o, if o_ok o then put_out tid (OEvent t) s else s)
  | Respond r => Some (tt, put_out tid (OResponse r) s)
  end.

(** ** Interleavings *)

Record System := mkSystem { y_state : State; y_threads : gmap nat (prog unit); y_next : nat }.
Definition initSystem : System := mkSystem initState ∅ 0.

Definition hasEnded (threads : gmap nat (prog unit)) (tid : nat) : bool := match threads !! tid with Some (Ret _) => true | _ => false end.

Inductive label := Arrive (r : request) | Go (tid : nat) (o : oracle).

Section Run.
Context `{A2AEnv} (rounds : nat) (attached : bool).

(** The program an action starts. *)
Definition started (a : action) : option (prog unit) := match a with GoRunTurn plan => Some (pbind (runTurn rounds attached plan) (λ _, Ret tt)) | _ => None end.

Definition step (y : System) (l : label) : option System :=
  match l with
  | Arrive r => Some (mkSystem (y_state y) (<[y_next y := handleJSONRPC rounds attached r]> (y_threads y)) (S (y_next y)))
  | Go tid o =>
      match y_threads y !! tid with
      | Some (Vis a k) =>
          '(x, s) ← exec tid (y_next y) o (hasEnded (y_threads y)) a (y_state y);
          let threads := <[tid := k x]> (y_threads y) in
          Some (match started a with
                | Some child => mkSystem (record_time s) (<[y_next y := child]> threads) (S (y_next y))
                | None => mkSystem (record_time s) threads (y_next y)
                end)
      | _ => None
      end
  end.

Fixpoint runs (y : System) (ls : list label) : option System := match ls with [] => Some y | l :: ls => y ← step y l; runs y ls end.
End Run.
