(* ===== verification/A2AFacts.v ===== *)
(** * What the A2A handlers guarantee

    Programs are verified one at a time with a small logic: [safe] follows a program
    through all answers it can get, with a value that stands for its share of what the
    whole has to account for.  Each theorem picks the share: the slots a program holds
    ([Slots]), the tasks it may publish ([Permits]), and, for streams, the events it has
    passed on.  A step of the system is then a matter of one action. *)

From Stdlib Require Import Ascii.
From S2P Require Import Prelude GoText GoLib PyFloat GoFmt Core GoJson PyJson Governance Response Provider SessionText Session SessionCodec A2A A2AStore.
#[local] Open Scope string_scope.
#[local] Open Scope list_scope.
#[local] Open Scope Z_scope.

(** ** Programs under all answers *)

Section Logic.
Context {G : Type} (pre : action → G → Prop) (rule : ∀ a : action, G → answer a → G → Prop).

Fixpoint safe {A} (p : prog A) (g : G) (Q : A → G → Prop) : Prop :=
  match p with
  | Ret a => Q a g
  | Spin => True
  | Vis a k => pre a g ∧ ∀ x g', rule a g x g' → safe (k x) g' Q
  end.

Lemma safe_mono {A} (p : prog A) g (Q Q' : A → G → Prop) : (∀ a g, Q a g → Q' a g) → safe p g Q → safe p g Q'.
Proof. intros HQ. revert g. induction p as [a|a k IH|]; intros g; cbn; [auto| |done]. intros [Hp Hk]. split; [done|]. intros x g' Hr. by apply IH, Hk. Qed.

Lemma safe_bind {A B} (p : prog A) (f : A → prog B) g Q : safe p g (λ a g, safe (f a) g Q) → safe (pbind p f) g Q.
Proof. revert g. induction p as [a|a k IH|]; intros g; cbn; [done| |done]. intros [Hp Hk]. split; [done|]. intros x g' Hr. by apply IH, Hk. Qed.

Lemma safe_then {A B} (p : prog A) (f : A → prog B) g (R : A → G → Prop) Q : safe p g R → (∀ a g, R a g → safe (f a) g Q) → safe (pbind p f) g Q.
Proof. intros Hp Hf. apply safe_bind. by eapply safe_mono. Qed.

Lemma safe_act a g (Q : answer a → G → Prop) : pre a g → (∀ x g', rule a g x g' → Q x g') → safe (act a) g Q.
Proof. intros Hp Hr. by split. Qed.

(** A program that ends with the share it had before. *)
Definition stable {A} (p : prog A) : Prop := ∀ g, safe p g (λ _ g', g' = g).

Lemma stable_bind {A B} (p : prog A) (f : A → prog B) : stable p → (∀ a, stable (f a)) → stable (pbind p f).
Proof. intros Hp Hf g. eapply safe_then; [apply Hp|]. intros a g' ->. apply Hf. Qed.
Lemma stable_ret {A} (a : A) : stable (Ret a).
Proof. by intros g. Qed.
Lemma stable_spin {A} : stable (@Spin A).
Proof. by intros g. Qed.
Lemma stable_act a : (∀ g, pre a g) → (∀ g x g', rule a g x g' → g' = g) → stable (act a).
Proof. intros Hp Hr g. apply safe_act; [done|]. intros x g' Hx. by eapply Hr. Qed.
Lemma stable_when (b : bool) (p : prog unit) : stable p → stable (if b then p else Ret tt).
Proof. intros Hp. destruct b; [done|apply stable_ret]. Qed.
Lemma stable_then {A B} (p : prog A) (f : A → prog B) g Q : stable p → (∀ a, safe (f a) g Q) → safe (pbind p f) g Q.
Proof. intros Hp Hf. eapply safe_then; [apply Hp|]. intros a g' ->. apply Hf. Qed.
End Logic.

Create HintDb slots.
Create HintDb permits.

(** Programs built from stable programs are stable. *)
Ltac stabilize db :=
  repeat first
    [ db
    | apply stable_ret
    | lazymatch goal with |- stable _ _ (act ?a) => refine (stable_act _ _ a _ _); [done | first [by intros | by intros ? ? ? [] | by intros [] ? []]] end
    | apply stable_when
    | apply stable_bind; [ | intros ]
    | case_match ].

(** ** Chores *)

(** A program that takes actions of one kind only. *)
Abbreviation only P := (stable (λ a (_ : unit), P a) (λ _ _ _ _, True)).

Lemma only_stable {G A} (pre : action → G → Prop) rule (P : action → Prop) (p : prog A) :
  (∀ a g, P a → pre a g ∧ ∀ x g', rule a g x g' → g' = g) → only P p → stable pre rule p.
Proof.
  intros HP Hp. specialize (Hp tt). induction p as [a|a k IH|]; intros g; [done| |done]. destruct Hp as [Ha Hk]. destruct (HP a g Ha) as [Hpre Hr]. split; [done|].
  intros x g' ->%Hr. by apply IH, (Hk x tt).
Qed.

(** What keeping the store small consists of. *)
Definition chore (a : action) : Prop :=
  match a with
  | DeleteEntry _ | RangeTasks _ | LoadRetained | CasRetained _ | ReleaseRetained | LoadSweep | CasSweep _ _ | LockTrim | UnlockTrim | DeleteHub _ => True
  | _ => False
  end.
Abbreviation chores := (only chore).
Create HintDb chores.
Ltac chore_only := stabilize ltac:(solve [auto 1 with chores]).

Section Chores.
Context `{A2AEnv} (rounds : nat).

Lemma chores_delete key : chores (deleteTask key).
Proof. unfold deleteTask. chore_only. Qed.
#[local] Hint Resolve chores_delete : chores.
Lemma chores_evict fuel now seen : chores (evict_loop fuel now seen).
Proof. revert seen. induction fuel as [|fuel IH]; intros seen; [apply stable_spin|]. cbn [evict_loop]. chore_only. Qed.
Lemma chores_candidates fuel cs : chores (candidates_loop fuel cs).
Proof. revert cs. induction fuel as [|fuel IH]; intros cs; [apply stable_spin|]. cbn [candidates_loop]. chore_only. Qed.
Lemma chores_victims vs : chores (victims_loop vs).
Proof. induction vs as [|v vs IH]; cbn [victims_loop]; chore_only. Qed.
#[local] Hint Resolve chores_evict chores_candidates chores_victims : chores.
Lemma chores_trim : chores (trim rounds).
Proof. unfold trim. chore_only. Qed.
#[local] Hint Resolve chores_trim : chores.
Lemma chores_slot fuel : chores (slot_loop rounds fuel).
Proof. induction fuel as [|fuel IH]; [apply stable_spin|]. cbn [slot_loop]. chore_only. Qed.
Lemma chores_sweep now : chores (sweepTasks rounds now).
Proof. unfold sweepTasks, enforceTaskCap, evictExpiredTasks. chore_only. Qed.
End Chores.

(** ** Slots *)

Module Slots.

Definition pre (a : action) (d : nat) : Prop :=
  match a with
  | CasRetained n => n < maxRetainedTasks
  | SwapTask _ | ReleaseRetained => (0 < d)%nat
  | _ => True
  end.

Definition rule (a : action) (d : nat) : answer a → nat → Prop :=
  match a return answer a → nat → Prop with
  | CasRetained _ => λ swapped d', d' = if swapped : bool then S d else d
  | SwapTask _ => λ loaded d', if loaded : bool then d' = d else d = S d'
  | ReleaseRetained => λ _ d', d = S d'
  | DeleteEntry _ => λ loaded d', d' = if loaded : bool then S d else d
  | _ => λ _ d', d' = d
  end.

(** A program that ends with the slots it had before. *)
Abbreviation balanced := (stable pre rule).
Ltac balance := stabilize ltac:(solve [auto 1 with slots]).

Section Programs.
Context `{A2AEnv} (rounds : nat) (attached : bool).

Lemma balanced_delete key : balanced (deleteTask key).
Proof.
  intros d. unfold deleteTask. apply safe_bind, safe_act; [done|]. intros loaded d' Hd. apply safe_bind. destruct loaded; cbn in Hd; subst d'.
  - apply safe_act; [cbn; lia|]. intros u e Hr. cbn in Hr. assert (e = d) as -> by lia. apply safe_act; [done|]. by intros.
  - cbn. split; [done|]. by intros.
Qed.
#[local] Hint Resolve balanced_delete : slots.

Lemma balanced_evict fuel now seen : balanced (evict_loop fuel now seen).
Proof. revert seen. induction fuel as [|fuel IH]; intros seen; [apply stable_spin|]. cbn [evict_loop]. balance. Qed.
Lemma balanced_candidates fuel cs : balanced (candidates_loop fuel cs).
Proof. revert cs. induction fuel as [|fuel IH]; intros cs; [apply stable_spin|]. cbn [candidates_loop]. balance. Qed.
Lemma balanced_victims vs : balanced (victims_loop vs).
Proof. induction vs as [|v vs IH]; cbn [victims_loop]; balance. Qed.
#[local] Hint Resolve balanced_evict balanced_candidates balanced_victims : slots.

Lemma balanced_trim : balanced (trim rounds).
Proof. unfold trim. balance. Qed.
#[local] Hint Resolve balanced_trim : slots.

Lemma balanced_sweep now : balanced (sweepTasks rounds now).
Proof. unfold sweepTasks, enforceTaskCap, evictExpiredTasks. balance. Qed.

Lemma balanced_broadcast t : balanced (broadcast t).
Proof. unfold broadcast. balance. Qed.
#[local] Hint Resolve balanced_sweep balanced_broadcast : slots.

(** The loop that takes a slot takes one. *)
Lemma slot_taken fuel d : safe pre rule (slot_loop rounds fuel) d (λ _ d', d' = S d).
Proof.
  revert d. induction fuel as [|fuel IH]; intros d; [done|]. cbn [slot_loop]. apply safe_bind, safe_act; [done|]. intros n d' ->. destruct (Z.ltb_spec n maxRetainedTasks).
  - apply safe_bind, safe_act; [done|]. intros [] d'' ->; [done|apply IH].
  - eapply safe_then; [apply balanced_trim|]. intros _ d'' ->. apply IH.
Qed.

Lemma balanced_publish t : balanced (publish rounds t).
Proof.
  unfold publish. apply stable_bind; [balance|]. intros now. apply stable_bind; [balance|]. intros loaded. apply stable_bind; [|intros; balance]. destruct loaded; [balance|].
  intros d. eapply safe_then; [apply slot_taken|]. intros _ d' ->. apply safe_bind, safe_act; [cbn; lia|]. intros [] d''; cbn.
  - intros ->. split; [lia|]. intros _ d3. lia.
  - by intros [= ->].
Qed.
#[local] Hint Resolve balanced_publish : slots.

Lemma balanced_runTurn plan : balanced (runTurn rounds attached plan).
Proof. unfold runTurn, failTurn, completeTurn, taskStatus, newID, endedTask, snapshotOr, loadTask. balance. Qed.
Lemma balanced_prepare params : balanced (prepareSend params).
Proof. unfold prepareSend, parseSendParams, resolveTask, newID, loadTask. balance. Qed.
Lemma balanced_relay fuel sub last : balanced (relay_loop fuel sub last).
Proof. revert last. induction fuel as [|fuel IH]; intros last; [apply stable_spin|]. cbn [relay_loop]. balance. Qed.
#[local] Hint Resolve balanced_runTurn balanced_prepare balanced_relay : slots.

Lemma balanced_handler r : balanced (handleJSONRPC rounds attached r).
Proof.
  unfold handleJSONRPC, handleSendMessage, handleGetTask, handleListTasks, handleCancelTask, handleSendStreamingMessage, handleSubscribeToTask,
    subscribe, unsubscribe, hubFor, relayTask, taskStatus, snapshotOr, loadTask. balance.
Qed.
End Programs.
End Slots.

(** *** The accounts of the system *)

Definition balance_of (s : State) : Z := a_retained s + a_recreated s - Z.of_nat (size (a_tasks s)).

Lemma balance_same s s' : a_tasks s' = a_tasks s → a_retained s' = a_retained s → a_recreated s' = a_recreated s → balance_of s' = balance_of s.
Proof. unfold balance_of. by intros -> -> ->. Qed.

Lemma hasTask_spec id s : hasTask id s = bool_decide (is_Some (a_tasks s !! id)).
Proof. unfold hasTask. destruct (a_tasks s !! id); [by rewrite bool_decide_eq_true_2|]. rewrite bool_decide_eq_false_2; [done|by intros []]. Qed.

Lemma size_put t s : Z.of_nat (size (a_tasks (putTask t s))) = Z.of_nat (size (a_tasks s)) + (if hasTask (t_ID t) s then 0 else 1).
Proof.
  cbn. unfold hasTask. destruct (a_tasks s !! t_ID t) as [old|] eqn:E; cbn.
  - rewrite map_size_insert_Some by eauto. lia.
  - rewrite map_size_insert_None by done. lia.
Qed.

Lemma size_del id s : Z.of_nat (size (a_tasks (set_tasks (delete id) s))) = Z.of_nat (size (a_tasks s)) - (if hasTask id s then 1 else 0).
Proof.
  cbn. unfold hasTask. destruct (a_tasks s !! id) as [old|] eqn:E; cbn.
  - rewrite map_size_delete_Some by eauto. assert (size (a_tasks s) ≠ 0)%nat; [|lia]. rewrite map_size_non_empty_iff. intros He. by rewrite He, lookup_empty in E.
  - rewrite map_size_delete_None by done. lia.
Qed.

(** The sections of a hub touch hubs and channels only. *)
Definition hubs_only (s s' : State) : Prop := s' = s ∨ ∃ f heap subs, s' = set_hubs f heap subs s.
Lemma broadcast_frame h t s : hubs_only s (broadcastIn h t s).
Proof. unfold broadcastIn. case_match; [right; eauto|by left]. Qed.
Lemma subscribe_frame h id s i first s' : subscribeIn h id s = Some (i, first, s') → hubs_only s s'.
Proof. unfold subscribeIn. intros (hub & _ & E)%bind_Some. repeat case_match; simplify_eq; right; eauto. Qed.
Lemma unsubscribe_frame h i s : hubs_only s (unsubscribeIn h i s).
Proof. unfold unsubscribeIn. repeat case_match; [right; eauto|by left..]. Qed.
Lemma receive_frame i s x s' : receiveFrom i s = Some (x, s') → hubs_only s s'.
Proof. unfold receiveFrom. intros (sub & _ & E)%bind_Some. repeat case_match; simplify_eq; [by left|right; eauto]. Qed.

(** What the hubs do not concern. *)
Lemma hubs_frame s s' : hubs_only s s' →
  a_tasks s' = a_tasks s ∧ a_retained s' = a_retained s ∧ a_recreated s' = a_recreated s ∧ a_taskSeq s' = a_taskSeq s ∧ a_out s' = a_out s ∧
  a_time s' = a_time s ∧ a_since s' = a_since s ∧ a_looks s' = a_looks s.
Proof. by intros [-> | (f & heap & subs & ->)]. Qed.

(** One action moves slots between the store and the program that takes it. *)
Lemma exec_slots tid fresh o ended a s x s' d :
  Slots.pre a d → exec tid fresh o ended a s = Some (x, s') → a_retained s ≤ maxRetainedTasks →
  ∃ d', Slots.rule a d x d' ∧ balance_of s' - Z.of_nat d' = balance_of s - Z.of_nat d ∧ a_retained s' ≤ maxRetainedTasks.
Proof.
  intros Hp He Hr.
  assert (hubs_only s s' → balance_of s' - Z.of_nat d = balance_of s - Z.of_nat d ∧ a_retained s' ≤ maxRetainedTasks) as Hh.
  { intros (H1 & H2 & H3 & _)%hubs_frame. rewrite (balance_same s s') by done. rewrite H2. done. }
  destruct a; cbn [exec] in He;
    try (exists d; split; [done|]; repeat (case_match; simplify_eq; cbn in * ); simplify_option_eq; done).
  - injection He as <- <-. exists d. split; [done|]. unfold balance_of. pose proof (size_put t s) as Hs. cbn in *. split; [|done]. lia.
  - injection He as <- <-. cbn in Hp. pose proof (size_put t s) as Hs. unfold balance_of. cbn in *. exists (if hasTask (t_ID t) s then d else pred d). destruct (hasTask (t_ID t) s); split_and!; cbn; lia.
  - injection He as <- <-. pose proof (size_del id s) as Hs. unfold balance_of. cbn in *. exists (if hasTask id s then S d else d). destruct (hasTask id s); split_and!; cbn; lia.
  - cbn in Hp. destruct (Z.eqb_spec (a_retained s) n) as [<-|]; injection He as <- <-; [exists (S d)|exists d]; unfold balance_of; cbn; split_and!; lia.
  - injection He as <- <-. cbn in Hp. exists (pred d). unfold balance_of. cbn. split_and!; lia.
  - injection He as <- <-. exists d. split; [done|]. apply Hh, broadcast_frame.
  - apply bind_Some in He as ([[i first] s1] & He & [= <- <-]). exists d. split; [done|]. by eapply Hh, subscribe_frame.
  - injection He as <- <-. exists d. split; [done|]. apply Hh, unsubscribe_frame.
  - exists d. split; [done|]. destruct (o_ok o); [by eapply Hh, receive_frame|]. injection He as <- <-. apply Hh. by left.
Qed.

(** *** Every interleaving *)

Section Accounts.
Context `{A2AEnv} (rounds : nat) (attached : bool).

(** [debts] are the slots that the programs hold. *)
Definition accounted (y : System) : Prop := ∃ debts : gmap nat nat,
  balance_of (y_state y) = msum (λ _ d, Z.of_nat d) debts ∧ a_retained (y_state y) ≤ maxRetainedTasks ∧
  (∀ tid, is_Some (debts !! tid) → (tid < y_next y)%nat) ∧
  ∀ tid p, y_threads y !! tid = Some p → (tid < y_next y)%nat ∧ ∃ d, debts !! tid = Some d ∧ safe Slots.pre Slots.rule p d (λ _ d', d' = 0%nat).

Lemma accounted_init : accounted initSystem.
Proof. exists ∅. split_and!; [done|cbn; unfold maxRetainedTasks; lia|intros tid [x Hx]; by rewrite lookup_empty in Hx|intros tid p Hx; cbn in Hx; by rewrite lookup_empty in Hx]. Qed.

(** A new program holds nothing. *)
Lemma accounted_start s threads next p : accounted (mkSystem s threads next) → Slots.balanced p → accounted (mkSystem s (<[next := p]> threads) (S next)).
Proof.
  intros (debts & Hb & Hc & Hd & Ht) Hp. cbn in *. exists (<[next := 0%nat]> debts). assert (debts !! next = None) as Hn.
  { destruct (debts !! next) eqn:E; [|done]. specialize (Hd next ltac:(eauto)). lia. }
  split_and!; [by rewrite msum_insert|done| |].
  - intros tid. destruct (decide (tid = next)) as [->|]; [cbn; lia|]. rewrite lookup_insert_ne by done. intros H1%Hd. cbn. lia.
  - cbn [y_threads y_next]. intros tid q. destruct (decide (tid = next)) as [->|].
    + rewrite !lookup_insert_eq. intros E. apply (inj Some) in E as <-. split; [cbn; lia|]. exists 0%nat. split; [done|]. apply Hp.
    + rewrite !lookup_insert_ne by done. intros Hq. destruct (Ht tid q Hq) as [Hlt Hs]. split; [cbn; lia|done].
Qed.

Lemma started_balanced a child : started rounds attached a = Some child → Slots.balanced child.
Proof.
  destruct a; cbn [started]; try done. intros E. apply (inj Some) in E as <-. apply stable_bind; [apply Slots.balanced_runTurn|]. intros. apply stable_ret.
Qed.

Lemma accounted_step y l y' : accounted y → step rounds attached y l = Some y' → accounted y'.
Proof.
  intros Ha Hs. destruct l as [r|tid o]; cbn [step] in Hs.
  { injection Hs as <-. destruct y as [s threads next]. apply accounted_start; [done|]. apply Slots.balanced_handler. }
  destruct (y_threads y !! tid) as [[|a k|]|] eqn:Et; [done| |done..]. apply bind_Some in Hs as ([x s] & He & Hs).
  destruct Ha as (debts & Hb & Hc & Hd & Ht). destruct (Ht tid _ Et) as [Hlt (d & Hdt & Hp & Hk)].
  destruct (exec_slots _ _ _ _ _ _ _ _ d Hp He Hc) as (d' & Hr & Hbal & Hc').
  assert (accounted (mkSystem (record_time s) (<[tid := k x]> (y_threads y)) (y_next y))) as Hy.
  { exists (<[tid := d']> debts). cbn. split_and!.
    - rewrite (msum_update _ _ _ d) by done. change (balance_of (record_time s)) with (balance_of s). lia.
    - done.
    - intros t2. destruct (decide (t2 = tid)) as [->|]; [done|]. rewrite lookup_insert_ne by done. apply Hd.
    - intros t2 q. destruct (decide (t2 = tid)) as [->|]; [|by rewrite !lookup_insert_ne by done; apply Ht].
      rewrite !lookup_insert_eq. intros E. apply (inj Some) in E as <-. split; [done|]. exists d'. split; [done|]. by apply Hk. }
  destruct (started rounds attached a) as [child|] eqn:Es; apply (inj Some) in Hs as <-; [|exact Hy].
  apply accounted_start; [exact Hy|]. by eapply started_balanced.
Qed.

Lemma accounted_runs y ls y' : accounted y → runs rounds attached y ls = Some y' → accounted y'.
Proof. revert y. induction ls as [|l ls IH]; intros y Ha; cbn; [by intros [= <-]|]. intros (y1 & H1 & H2)%bind_Some. eapply IH; [|done]. by eapply accounted_step. Qed.

(** C18. The bound on the tasks that are kept.  In every interleaving of the handlers, at
    every moment, the counter is at most the cap, and the number of tasks in the store is
    at most the counter plus the number of times an entry was stored by a publication
    that had seen it before it was evicted; so the store keeps within its cap as long as
    no publication loses that race. *)
Theorem retention_cap ls y : runs rounds attached initSystem ls = Some y →
  let s := y_state y in
  a_retained s ≤ maxRetainedTasks ∧ Z.of_nat (size (a_tasks s)) ≤ a_retained s + a_recreated s ∧
  (a_recreated s = 0 → Z.of_nat (size (a_tasks s)) ≤ maxRetainedTasks).
Proof.
  intros Hr. destruct (accounted_runs _ _ _ accounted_init Hr) as (debts & Hb & Hc & _). cbn zeta. unfold balance_of in Hb.
  pose proof (msum_nonneg (λ _ d, Z.of_nat d) debts (λ k v _, Nat2Z.is_nonneg v)) as Hn. set (n := msum _ _) in *. split_and!; [done|lia|lia].
Qed.
End Accounts.

(** ** Who may publish a task *)

Module Permits.

(** [may] are the tasks the program looked at last while they had not ended, [known]
    those it has seen or stored, [minted] the numbers of its new identifiers. *)
Record permit := mkPermit { may : gset string; known : gset string; minted : gset Z }.
Definition nothing : permit := mkPermit ∅ ∅ ∅.

Definition mintedID (n : Z) (id : string) : Prop := ∃ t, id = "task" +:+ "-" +:+ Itoa t +:+ "-" +:+ Itoa n.
Definition allowed (g : permit) (id : string) : Prop := id ∈ may g ∨ ∃ n, n ∈ minted g ∧ mintedID n id.

Definition pre (a : action) (g : permit) : Prop :=
  match a with
  | StoreTask t | SwapTask t => allowed g (t_ID t)
  | GoRunTurn plan => allowed g (sp_taskID plan)
  | _ => True
  end.

Definition looked (id : string) (found : option Task) (g : permit) : permit :=
  match found with
  | Some t => mkPermit (if terminal t then may g ∖ {[id]} else {[id]} ∪ may g) ({[id]} ∪ known g) (minted g)
  | None => mkPermit (if decide (id ∈ known g) then {[id]} ∪ may g else may g) (known g) (minted g)
  end.
Definition published (id : string) (g : permit) : permit := mkPermit (may g ∖ {[id]}) ({[id]} ∪ known g) ∅.

(** What a turn takes over from the request that starts it. *)
Definition handed (id : string) (g : permit) : permit := mkPermit ({[id]} ∩ may g) ({[id]} ∩ known g) (minted g).

Definition rule (a : action) (g : permit) : answer a → permit → Prop :=
  match a return answer a → permit → Prop with
  | LoadTask id => λ found g', (∀ t, found = Some t → t_ID t = id) ∧ g' = looked id found g
  | NewSeq => λ n g', g' = mkPermit (may g) (known g) ({[n]} ∪ minted g)
  | StoreTask t | SwapTask t => λ _ g', g' = published (t_ID t) g
  | GoRunTurn _ => λ _ g', g' = nothing
  | _ => λ _ g', g' = g
  end.

Abbreviation neutral := (stable pre rule).
Ltac neutralize := stabilize ltac:(solve [auto 1 with permits]).

Section Programs.
Context `{A2AEnv} (rounds : nat) (attached : bool).

Lemma neutral_chores {A} (p : prog A) : chores p → neutral p.
Proof. apply only_stable. intros [] g Ha; cbn in Ha; try done; (split; [done|]; by intros). Qed.
Lemma neutral_candidates fuel cs : neutral (candidates_loop fuel cs).
Proof. apply neutral_chores, chores_candidates. Qed.
Lemma neutral_slot fuel : neutral (slot_loop rounds fuel).
Proof. apply neutral_chores, chores_slot. Qed.
Lemma neutral_sweep now : neutral (sweepTasks rounds now).
Proof. apply neutral_chores, chores_sweep. Qed.
Lemma neutral_broadcast t : neutral (broadcast t).
Proof. unfold broadcast. neutralize. Qed.
Lemma neutral_relay fuel sub last : neutral (relay_loop fuel sub last).
Proof. revert last. induction fuel as [|fuel IH]; intros last; [apply stable_spin|]. cbn [relay_loop]. neutralize. Qed.
Lemma neutral_unsubscribe id sub : neutral (unsubscribe id sub).
Proof. unfold unsubscribe. neutralize. Qed.
Lemma neutral_subscribe id : neutral (subscribe id).
Proof. unfold subscribe, hubFor. neutralize. Qed.
Lemma neutral_status state : neutral (taskStatus state).
Proof. unfold taskStatus. neutralize. Qed.
#[local] Hint Resolve neutral_candidates neutral_slot neutral_sweep neutral_broadcast neutral_relay neutral_unsubscribe neutral_subscribe neutral_status : permits.

(** Publishing takes a permit. *)
Lemma publish_permit t g : allowed g (t_ID t) → safe pre rule (publish rounds t) g (λ _ g', g' = published (t_ID t) g).
Proof.
  intros Ha. unfold publish. apply stable_then; [neutralize|]. intros now. apply stable_then; [neutralize|]. intros loaded.
  eapply (safe_then _ _ _ _ _ (λ _ g', g' = published (t_ID t) g)); [|intros _ g' ->; apply stable_then; [neutralize|]; intros; apply stable_then; [neutralize|]; intros; apply neutral_sweep].
  destruct loaded.
  - apply safe_act; [done|]. by intros.
  - apply stable_then; [neutralize|]. intros _. apply safe_bind, safe_act; [done|]. intros found g' ->. apply stable_when. neutralize.
Qed.

(** A new identifier comes with its number. *)
Lemma newID_minted prefix g :
  safe pre rule (newID prefix) g (λ id g', ∃ t n, id = prefix +:+ "-" +:+ Itoa t +:+ "-" +:+ Itoa n ∧ g' = mkPermit (may g) (known g) ({[n]} ∪ minted g)).
Proof. unfold newID. apply stable_then; [neutralize|]. intros t. apply safe_bind, safe_act; [done|]. intros n g' ->. cbn. eauto. Qed.

(** Minting takes no permit away. *)
Definition grows (g g' : permit) : Prop := may g ⊆ may g' ∧ known g ⊆ known g' ∧ minted g ⊆ minted g'.
Lemma allowed_grows g g' id : grows g g' → allowed g id → allowed g' id.
Proof. intros (H1 & _ & H3) [Hm|(n & Hn & Hid)]; [left|right; exists n]; set_solver. Qed.
Lemma newID_grows prefix g : safe pre rule (newID prefix) g (λ _ g', grows g g').
Proof. eapply safe_mono; [|apply newID_minted]. intros id g' (t & n & _ & ->). unfold grows. set_solver. Qed.

(** After a look that did not find an end, the task may be published. *)
Lemma endedTask_permit id g : id ∈ known g → safe pre rule (endedTask id) g (λ ended g', id ∈ known g' ∧ (ended = None → id ∈ may g')).
Proof.
  intros Hk. unfold endedTask, loadTask. apply safe_bind, safe_act; [done|]. intros [t|] g' [_ ->]; cbn -[terminal].
  - destruct (terminal t); split; [set_solver|done|set_solver|set_solver].
  - rewrite decide_True by done. split; [done|set_solver].
Qed.

(** A program that needs no more permits. *)
Definition fine {A} (p : prog A) : Prop := ∀ g, safe pre rule p g (λ _ _, True).
Lemma neutral_fine {A} (p : prog A) : neutral p → fine p.
Proof. intros Hp g. by eapply safe_mono; [|apply Hp]. Qed.
Lemma fine_bind {A B} (p : prog A) (f : A → prog B) : fine p → (∀ a, fine (f a)) → fine (pbind p f).
Proof. intros Hp Hf g. eapply safe_then; [apply Hp|]. intros a g' _. apply Hf. Qed.
Lemma fine_snapshotOr t : fine (snapshotOr t).
Proof. intros g. unfold snapshotOr, loadTask. apply safe_bind, safe_act; [done|]. intros [] g' [_ ->]; cbn; [done|]. by split; [|intros]. Qed.

Lemma turn_ends plan task err g :
  t_ID task = sp_taskID plan → sp_taskID plan ∈ known g →
  safe pre rule (failTurn rounds plan task err) g (λ _ _, True) ∧ safe pre rule (completeTurn rounds plan task err) g (λ _ _, True).
Proof.
  intros Hid Hk. split.
  - unfold failTurn. eapply safe_then; [by apply endedTask_permit|]. intros [current|] g1 [Hk1 Hm]; [done|]. specialize (Hm eq_refl).
    apply stable_then; [neutralize|]. intros st. eapply safe_then; [apply newID_grows|]. intros msg g2 Hg. eapply safe_then; [apply publish_permit|intros; apply fine_snapshotOr].
    cbn. rewrite Hid. eapply allowed_grows; [exact Hg|]. by left.
  - unfold completeTurn. eapply safe_then; [by apply endedTask_permit|]. intros [current|] g1 [Hk1 Hm]; [done|]. specialize (Hm eq_refl).
    apply stable_then; [neutralize|]. intros st. eapply safe_then; [apply newID_grows|]. intros ar g2 Hg. eapply safe_then; [apply newID_grows|]. intros msg g3 Hg3.
    eapply safe_then; [apply publish_permit|intros; apply fine_snapshotOr].
    cbn. rewrite Hid. eapply allowed_grows; [exact Hg3|]. eapply allowed_grows; [exact Hg|]. by left.
Qed.

Lemma runTurn_permit plan g : allowed g (sp_taskID plan) → safe pre rule (runTurn rounds attached plan) g (λ _ _, True).
Proof.
  intros Ha. unfold runTurn. apply stable_then; [neutralize|]. intros status. eapply safe_then; [by apply publish_permit|]. intros _ g1 ->. apply stable_then; [neutralize|]. intros _.
  eapply (safe_then _ _ _ _ _ (λ _ _, True)); [|intros; apply neutral_fine; neutralize].
  set (task := mkTask _ _ _ _ _ _). assert (sp_taskID plan ∈ known (published (t_ID task) g)) as Hk by set_solver.
  assert (∀ err, safe pre rule (failTurn rounds plan task err) (published (t_ID task) g) (λ _ _, True) ∧ safe pre rule (completeTurn rounds plan task err) (published (t_ID task) g) (λ _ _, True)) as Hend
    by (intros err; by apply turn_ends).
  destruct attached; [|apply Hend]. apply stable_then; [neutralize|]. intros [err|content]; apply Hend.
Qed.

Lemma parse_fine params : fine (parseSendParams params).
Proof.
  assert (∀ prefix, fine (newID prefix)) as Hn by (intros prefix g; by eapply safe_mono; [|apply newID_grows]).
  unfold parseSendParams. repeat case_match; try (by intros g); apply fine_bind; try done; intros; repeat case_match; by intros g.
Qed.

(** A request that is accepted comes with a permit for its task. *)
Lemma prepare_permit params g : safe pre rule (prepareSend params) g (λ plan g', match plan with inr plan => allowed g' (sp_taskID plan) | inl _ => True end).
Proof.
  unfold prepareSend. eapply safe_then; [apply parse_fine|]. intros [err|msg] g1 _; [done|]. destruct (HasUnsupportedContent msg); [done|]. destruct (String.eqb (TrimSpace (Text msg)) ""); [done|].
  eapply (safe_then _ _ _ _ _ (λ resolved g', match resolved with inr _ => am_TaskID msg = "" ∨ am_TaskID msg ∈ may g' | inl _ => True end)).
  - unfold resolveTask. destruct (String.eqb_spec (am_TaskID msg) "") as [He|]; [by left|]. apply safe_bind, safe_act; [done|]. intros [t|] g2 [_ ->]; [|done].
    destruct (terminal t) eqn:Et; [done|]. destruct (_ && _); [done|]. cbn -[terminal]. rewrite Et. right. set_solver.
  - intros [f|ctx] g2 Hr; [done|]. eapply (safe_then _ _ _ _ _ (λ taskID g', allowed g' taskID)).
    + destruct (String.eqb_spec (am_TaskID msg) "") as [_|Hne].
      * eapply safe_mono; [|apply newID_minted]. intros id g3 (t & n & -> & ->). right. exists n. split; [set_solver|by exists t].
      * left. by destruct Hr.
    + intros taskID g3 Ha. eapply (safe_then _ _ _ _ _ (λ _ g', allowed g' taskID)).
      * destruct (String.eqb ctx ""); [|done]. eapply safe_mono; [|apply newID_grows]. intros c g4 Hg. exact (allowed_grows _ _ _ Hg Ha).
      * by intros c g4 Ha4.
Qed.

Lemma handler_fine r : fine (handleJSONRPC rounds attached r).
Proof.
  assert (∀ id, fine (loadTask id)) as Hl by (intros id g; by split).
  assert (∀ res, fine (act (Respond res))) as Hres by (intros res; apply neutral_fine; neutralize).
  assert (∀ params, fine (handleSendMessage rounds attached params)) as H1.
  { intros params g. unfold handleSendMessage. eapply safe_then; [apply prepare_permit|]. intros [f|plan] g1 Ha; [apply Hres|]. eapply safe_then; [by apply runTurn_permit|]. intros; apply Hres. }
  assert (∀ params, fine (handleCancelTask rounds params)) as H2.
  { intros params g. unfold handleCancelTask. destruct (decodeID params) as [f|id]; [apply Hres|]. apply safe_bind, safe_act; [done|]. intros [t|] g1 [Hid ->]; [|apply Hres]. specialize (Hid t eq_refl).
    cbn zeta. destruct (String.eqb _ TaskStateCanceled) eqn:Ec; [apply Hres|]. destruct (existsb _ _) eqn:Ex; [apply Hres|].
    apply stable_then; [neutralize|]. intros _. apply stable_then; [neutralize|]. intros status. eapply safe_then; [apply publish_permit|].
    - assert (terminal t = false) as Et by (unfold terminal; cbn [existsb] in *; repeat (apply orb_false_iff in Ex as [? Ex]); by rewrite !orb_false_iff).
      cbn -[terminal]. rewrite Hid. left. cbn -[terminal]. rewrite Et. set_solver.
    - intros _ g2 _. apply fine_bind; [apply fine_snapshotOr|]. intros; apply Hres. }
  assert (∀ params, fine (handleSendStreamingMessage rounds params)) as H3.
  { intros params g. unfold handleSendStreamingMessage. eapply safe_then; [apply prepare_permit|]. intros [f|plan] g1 Ha; [apply Hres|]. apply stable_then; [neutralize|]. intros joined.
    apply stable_then; [neutralize|]. intros opened. eapply (safe_then _ _ _ _ _ (λ _ _, True)); [|intros; apply neutral_fine; neutralize].
    destruct (negb opened); [apply Hres|]. apply safe_bind, safe_act; [done|]. intros turn g2 ->. apply neutral_fine. unfold relayTask. neutralize. }
  unfold handleJSONRPC. repeat case_match; try apply Hres; try apply H1; try apply H2; try apply H3.
  - unfold handleGetTask. case_match; [apply Hres|]. case_match. apply fine_bind; [done|]. intros; apply Hres.
  - unfold handleListTasks. repeat case_match; try apply Hres. apply neutral_fine. neutralize.
  - unfold handleSubscribeToTask, relayTask. case_match; [apply Hres|]. apply neutral_fine. neutralize.
Qed.
End Programs.
End Permits.

Import Permits.

Lemma after_last a p q x y : ContainsByte p a = false → ContainsByte q a = false → x +:+ String a p = y +:+ String a q → p = q.
Proof.
  intros Hp Hq. revert y. induction x as [|c x IH]; intros [|d y] E; cbn in E; injection E.
  - done.
  - intros -> _. rewrite ContainsByte_app in Hp. cbn in Hp. rewrite Ascii.eqb_refl, orb_true_r in Hp. done.
  - intros <- _. rewrite ContainsByte_app in Hq. cbn in Hq. rewrite Ascii.eqb_refl, orb_true_r in Hq. done.
  - intros E' _. by eapply IH.
Qed.

Lemma mintedID_inj n m id : 0 ≤ n → 0 ≤ m → mintedID n id → mintedID m id → n = m.
Proof.
  intros Hn Hm [t ->] [u E]. apply (inj pretty.pretty). apply (after_last "-"%char _ _ ("task" +:+ "-" +:+ Itoa t) ("task" +:+ "-" +:+ Itoa u)); [by apply Itoa_contain..|].
  rewrite <- !sapp_assoc in *. exact E.
Qed.

(** A permit is good in a state: its program looked before a task that has ended did so,
    and its new identifiers were never used. *)
Record good (s : State) (tid : nat) (g : permit) : Prop := {
  g_known : ∀ id, id ∈ known g → is_Some (a_since s !! id);
  g_may : ∀ id, id ∈ may g → id ∈ known g ∧ ∃ τ, a_looks s !! (tid, id) = Some τ ∧ (τ < a_time s)%nat ∧
    ∀ c, a_tasks s !! id = Some c → terminal c = true → ∃ σ, a_since s !! id = Some σ ∧ (τ < σ)%nat;
  g_minted : ∀ n, n ∈ minted g → 0 ≤ n ≤ a_taskSeq s ∧ ∀ id, mintedID n id → a_since s !! id = None }.

Lemma good_nothing s tid : good s tid nothing.
Proof. split; intros ?; set_solver. Qed.

(** What the permits depend on. *)
Definition same_view (s s' : State) : Prop :=
  a_tasks s' = a_tasks s ∧ a_since s' = a_since s ∧ a_looks s' = a_looks s ∧ a_taskSeq s' = a_taskSeq s ∧ a_time s' = a_time s.

Lemma good_view s s' tid g : same_view s s' → good s tid g → good s' tid g.
Proof. intros (H1 & H2 & H3 & H4 & H5) [G1 G2 G3]. split; rewrite ?H1, ?H2, ?H3, ?H4, ?H5; done. Qed.

Lemma good_time s tid g : good s tid g → good (record_time s) tid g.
Proof. intros [G1 G2 G3]. split; [done| |done]. intros id Hid. destruct (G2 id Hid) as (Hk & τ & Hl & Ht & Hc). split; [done|]. exists τ. split_and!; [done|cbn; lia|done]. Qed.

Lemma good_delete s tid g id : good s tid g → good (set_tasks (delete id) s) tid g.
Proof.
  intros [G1 G2 G3]. split; [done| |done]. intros id' Hid. destruct (G2 id' Hid) as (Hk & τ & Hl & Ht & Hc). split; [done|]. exists τ. split_and!; [done..|].
  intros c Hcc. cbn in Hcc. apply lookup_delete_Some in Hcc as [_ Hcc]. by apply Hc.
Qed.

(** Others look, too. *)
Lemma good_look_other s tid tid2 g id : tid2 ≠ tid → good s tid2 g → good (record_look tid id s) tid2 g.
Proof.
  intros Hne [G1 G2 G3]. split; [done| |done]. intros id' Hid. destruct (G2 id' Hid) as (Hk & τ & Hl & Ht & Hc). split; [done|]. exists τ. split_and!; [|done..].
  cbn. rewrite lookup_insert_ne by congruence. done.
Qed.

Lemma good_look s tid g id :
  (∀ t, a_tasks s !! id = Some t → is_Some (a_since s !! id)) → good s tid g → good (record_time (record_look tid id s)) tid (looked id (a_tasks s !! id) g).
Proof.
  intros Hst [G1 G2 G3].
  assert (∀ id', id' ∈ may g → id' ≠ id → ∃ τ, a_looks (record_look tid id s) !! (tid, id') = Some τ ∧ (τ < S (a_time s))%nat ∧
    ∀ c, a_tasks s !! id' = Some c → terminal c = true → ∃ σ, a_since s !! id' = Some σ ∧ (τ < σ)%nat) as Hold.
  { intros id' Hid Hne. destruct (G2 id' Hid) as (_ & τ & Hl & Ht & Hc). exists τ. split_and!; [|lia|done]. cbn. rewrite lookup_insert_ne by congruence. done. }
  assert ((∀ c, a_tasks s !! id = Some c → terminal c = false) → ∃ τ, a_looks (record_look tid id s) !! (tid, id) = Some τ ∧ (τ < S (a_time s))%nat ∧
    ∀ c, a_tasks s !! id = Some c → terminal c = true → ∃ σ, a_since s !! id = Some σ ∧ (τ < σ)%nat) as Hnew.
  { intros Hf. exists (a_time s). split_and!; [cbn; by rewrite lookup_insert_eq|lia|]. intros c Hc Ht. by rewrite (Hf c Hc) in Ht. }
  unfold looked. destruct (a_tasks s !! id) as [t|] eqn:E; split; cbn [may known minted]; try done.
  - intros id' [->%elem_of_singleton|Hid]%elem_of_union; [by eapply Hst|by apply G1].
  - intros id' Hid. destruct (terminal t) eqn:Et.
    + apply elem_of_difference in Hid as [Hid Hne%not_elem_of_singleton]. split; [apply elem_of_union; right; by apply G2|]. by apply Hold.
    + destruct (decide (id' = id)) as [->|Hne]; [split; [set_solver|]; rewrite <- E in *; apply Hnew; intros c Hc; congruence|].
      assert (id' ∈ may g) as Hid' by set_solver. split; [apply elem_of_union; right; by apply G2|]. by apply Hold.
  - intros id' Hid. destruct (decide (id' = id)) as [->|Hne].
    + destruct (decide (id ∈ known g)) as [Hk|Hk]; [|exfalso; apply Hk; by apply G2]. split; [done|]. rewrite <- E in Hnew. apply Hnew. intros c Hc. congruence.
    + assert (id' ∈ may g) as Hid' by (destruct (decide (id ∈ known g)); set_solver). split; [by apply G2|]. by apply Hold.
Qed.

(** Publishing a task is fair to those who looked before. *)
Lemma good_put s tid tid2 g g2 t :
  good s tid g → good s tid2 g2 → tid2 ≠ tid → minted g ## minted g2 → allowed g (t_ID t) →
  good (record_time (putTask t s)) tid2 g2 ∧ good (record_time (putTask t s)) tid (published (t_ID t) g).
Proof.
  intros G G2 Hne Hdis Ha.
  assert (∀ x gx, good s x gx → (∀ n, n ∈ minted gx → ¬ mintedID n (t_ID t)) → good (record_time (putTask t s)) x gx) as Hput.
  { intros x gx [K1 K2 K3] Hfresh. split.
    - intros id Hid. cbn. destruct (decide (id = t_ID t)) as [->|]; [rewrite lookup_insert_eq; eauto|]. rewrite lookup_insert_ne by done. by apply K1.
    - intros id Hid. destruct (K2 id Hid) as (Hk & τ & Hl & Ht & Hc). split; [done|]. exists τ. cbn. split_and!; [done|lia|].
      intros c. destruct (decide (id = t_ID t)) as [->|]; [rewrite !lookup_insert_eq; eauto|]. rewrite !lookup_insert_ne by done. apply Hc.
    - intros n Hn. destruct (K3 n Hn) as [Hb Hf]. split; [done|]. intros id Hid. cbn. rewrite lookup_insert_ne; [by apply Hf|]. intros E. apply (Hfresh n Hn). by rewrite E. }
  split.
  - apply Hput; [done|]. intros n Hn Hid. destruct Ha as [Hm|(m & Hm & Hmid)].
    + destruct (g_known _ _ _ G (t_ID t) ltac:(by apply G)) as [σ Hs]. rewrite (proj2 (g_minted _ _ _ G2 n Hn) _ Hid) in Hs. done.
    + assert (n = m) as ->; [|by apply (Hdis m)]. eapply mintedID_inj; [apply G2|apply G|done|done]; done.
  - assert (good s tid (mkPermit (may g) (known g) ∅)) as G' by (destruct G as [K1 K2 K3]; split; [done|done|set_solver]).
    apply Hput in G' as [K1 K2 K3]; [|set_solver]. split; cbn [may known minted published].
    + intros id [->%elem_of_singleton|Hid]%elem_of_union; [cbn; rewrite lookup_insert_eq; eauto|by apply K1].
    + intros id [Hid _]%elem_of_difference. destruct (K2 id Hid) as [Hk Hl]. split; [set_solver|done].
    + set_solver.
Qed.

(** Tasks are stored under their identifiers, that is recorded, and no identifier of a
    later number is in use. *)
Record stored_ok (s : State) : Prop := {
  so_seq : 0 ≤ a_taskSeq s;
  so_id : ∀ id t, a_tasks s !! id = Some t → t_ID t = id ∧ is_Some (a_since s !! id);
  so_used : ∀ id n, is_Some (a_since s !! id) → 0 ≤ n → mintedID n id → n ≤ a_taskSeq s }.

Lemma stored_view s s' : same_view s s' → stored_ok s → stored_ok s'.
Proof. intros (H1 & H2 & _ & H4 & _) [Hq Hs Hu]. split; rewrite ?H1, ?H2, ?H4; done. Qed.

Lemma stored_put t s tid g : stored_ok s → good s tid g → allowed g (t_ID t) → stored_ok (putTask t s).
Proof.
  intros [Hq Hs Hu] Hg Ha. split; [done| |].
  - intros id t'. cbn. destruct (decide (id = t_ID t)) as [->|]; [rewrite !lookup_insert_eq; intros [= ->]; eauto|]. rewrite !lookup_insert_ne by done. apply Hs.
  - intros id n. cbn. destruct (decide (id = t_ID t)) as [->|]; [|rewrite lookup_insert_ne by done; apply Hu]. intros _ Hn Hid.
    destruct Ha as [Hm|(m & Hm & Hmid)]; [apply (Hu (t_ID t)); [|done..]; eapply g_known, g_may; done|].
    destruct (g_minted _ _ _ Hg m Hm) as [Hb _]. assert (n = m) as -> by (eapply mintedID_inj; [done|by destruct Hb|done|done]). cbn. lia.
Qed.

Lemma inherit_view tid fresh id s tid2 id2 : tid2 ≠ fresh → a_looks (inherit_look tid fresh id s) !! (tid2, id2) = a_looks s !! (tid2, id2).
Proof. intros Hne. cbn. case_match; [|done]. rewrite lookup_insert_ne by congruence. done. Qed.

(** A turn that is started takes over the permit for its task. *)
Lemma good_handed tid fresh id s g : tid ≠ fresh → good s tid g → good (record_time (inherit_look tid fresh id s)) fresh (handed id g).
Proof.
  intros Hne [G1 G2 G3]. apply good_time. split; cbn [may known minted handed].
  - intros id' Hid. apply G1. set_solver.
  - intros id' [->%elem_of_singleton Hid]%elem_of_intersection. destruct (G2 id Hid) as (Hk & τ & Hl & Ht & Hc). split; [set_solver|]. exists τ. split_and!; [|done..].
    cbn. rewrite Hl. apply lookup_insert_eq.
  - done.
Qed.
Lemma good_inherit tid fresh id s tid2 g2 : tid2 ≠ fresh → good s tid2 g2 → good (inherit_look tid fresh id s) tid2 g2.
Proof.
  intros Hne [G1 G2 G3]. split; [done| |done]. intros id' Hid. destruct (G2 id' Hid) as (Hk & τ & Hl & Ht & Hc). split; [done|]. exists τ. split_and!; [|done..]. by rewrite inherit_view.
Qed.

(** One action and the permits: of the program that takes it, and of another one. *)
Lemma exec_permit tid fresh o ended a s x s' g :
  pre a g → exec tid fresh o ended a s = Some (x, s') → stored_ok s → good s tid g → tid ≠ fresh →
  ∃ g', rule a g x g' ∧ stored_ok s' ∧ good (record_time s') tid g' ∧ (∀ n, n ∈ minted g' → n ∈ minted g ∨ a_taskSeq s < n) ∧
    ∀ tid2 g2, tid2 ≠ tid → tid2 ≠ fresh → good s tid2 g2 → minted g ## minted g2 → good (record_time s') tid2 g2.
Proof.
  intros Hp He Hst Hg Hf.
  assert (rule a g x g → same_view s s' → ∃ g', rule a g x g' ∧ stored_ok s' ∧ good (record_time s') tid g' ∧ (∀ n, n ∈ minted g' → n ∈ minted g ∨ a_taskSeq s < n) ∧
    ∀ tid2 g2, tid2 ≠ tid → tid2 ≠ fresh → good s tid2 g2 → minted g ## minted g2 → good (record_time s') tid2 g2) as Hsame.
  { intros Hr Hv. exists g. split_and!; [done|by eapply stored_view|by eapply good_time, good_view|by left|]. intros. by eapply good_time, good_view. }
  assert (hubs_only s s' → same_view s s') as Hh by (by intros (? & ? & ? & ? & ? & ? & ? & ?)%hubs_frame).
  destruct a; cbn [exec] in He; try (apply Hsame; [done|]; repeat (case_match; simplify_eq; cbn in * ); simplify_option_eq; done).
  - injection He as <- <-. destruct Hst as [Hq Hs Hu]. exists (mkPermit (may g) (known g) ({[a_taskSeq s + 1]} ∪ minted g)). split_and!; [done| | | |].
    + split; [cbn; lia|done|]. intros id n Hi Hn Hid. specialize (Hu id n Hi Hn Hid). cbn. lia.
    + apply good_time. destruct Hg as [G1 G2 G3]. split; [done|done|]. cbn [minted]. intros n [->%elem_of_singleton|Hn]%elem_of_union.
      * split; [cbn; lia|]. intros id Hid. cbn. destruct (a_since s !! id) eqn:E; [|done]. specialize (Hu id (a_taskSeq s + 1) ltac:(eauto) ltac:(lia) Hid). lia.
      * destruct (G3 n Hn) as [Hb Hb2]. split; [cbn; lia|done].
    + intros n [->%elem_of_singleton|Hn]%elem_of_union; [right; lia|by left].
    + intros tid2 g2 _ _ [G1 G2 G3] _. apply good_time. split; [done|done|]. intros n Hn. destruct (G3 n Hn) as [Hb Hb2]. split; [cbn; lia|done].
  - injection He as <- <-. exists (looked id (a_tasks s !! id) g). destruct Hst as [Hq Hs Hu]. split_and!; [split; [|done]; by apply Hs|by split| | |].
    + apply good_look; [|done]. intros t Ht. by apply (Hs id t).
    + unfold looked. destruct (a_tasks s !! id); by left.
    + intros. by apply good_time, good_look_other.
  - injection He as <- <-. exists (published (t_ID t) g). split_and!; [done| | |set_solver|].
    + eapply stored_view; [|by eapply stored_put]. done.
    + eapply good_view; [|eapply (good_put s tid (S tid) g nothing t); [done|apply good_nothing|lia|set_solver|done]]. done.
    + intros tid2 g2 Hne _ H2 Hd. eapply good_view; [|by eapply (good_put s tid tid2 g g2 t)]. done.
  - injection He as <- <-. exists (published (t_ID t) g). split_and!; [done|by eapply stored_put| |set_solver|].
    + eapply (good_put s tid (S tid) g nothing t); [done|apply good_nothing|lia|set_solver|done].
    + intros tid2 g2 Hne _ H2 Hd. by eapply (good_put s tid tid2 g g2 t).
  - injection He as <- <-. exists g. split_and!; [done| |by apply good_time, good_delete|by left|intros; by apply good_time, good_delete].
    destruct Hst as [Hq Hs Hu]. split; [done| |done]. intros id' t. cbn. intros [_ Ht]%lookup_delete_Some. by apply Hs.
  - injection He as <- <-. apply Hsame; [done|]. apply Hh, broadcast_frame.
  - apply bind_Some in He as ([[i first] s1] & He & [= <- <-]). apply Hsame; [done|]. by eapply Hh, subscribe_frame.
  - injection He as <- <-. apply Hsame; [done|]. apply Hh, unsubscribe_frame.
  - destruct (o_ok o); [apply Hsame; [done|]; by eapply Hh, receive_frame|]. injection He as <- <-. by apply Hsame.
  - injection He as <- <-. exists nothing. split_and!; [done|by destruct Hst|apply good_nothing|set_solver|]. intros. by apply good_time, good_inherit.
Qed.

(** *** Every interleaving *)

Section Finality.
Context `{A2AEnv} (rounds : nat) (attached : bool).

Definition permitted (y : System) : Prop := ∃ permits : gmap nat permit,
  stored_ok (y_state y) ∧
  (∀ tid g, permits !! tid = Some g → (tid < y_next y)%nat ∧ good (y_state y) tid g) ∧
  (∀ i j gi gj, i ≠ j → permits !! i = Some gi → permits !! j = Some gj → minted gi ## minted gj) ∧
  ∀ tid p, y_threads y !! tid = Some p → ∃ g, permits !! tid = Some g ∧ safe pre rule p g (λ _ _, True).

Lemma permitted_init : permitted initSystem.
Proof.
  exists ∅. split_and!; [split; [done|..]| | |]; cbn.
  - intros id t Ht. by rewrite lookup_empty in Ht.
  - intros id n [x Hx]. by rewrite lookup_empty in Hx.
  - intros tid g Hg. by rewrite lookup_empty in Hg.
  - intros i j gi gj _ Hg. by rewrite lookup_empty in Hg.
  - intros tid p Hp. by rewrite lookup_empty in Hp.
Qed.

(** A program that starts with a permit nobody else has. *)
Lemma permitted_start s threads next p g (permits : gmap nat permit) :
  stored_ok s → (∀ tid g, permits !! tid = Some g → (tid < next)%nat ∧ good s tid g) →
  (∀ i j gi gj, i ≠ j → permits !! i = Some gi → permits !! j = Some gj → minted gi ## minted gj) →
  (∀ tid p, threads !! tid = Some p → ∃ g, permits !! tid = Some g ∧ safe pre rule p g (λ _ _, True)) →
  good s next g → (∀ tid g2, permits !! tid = Some g2 → minted g ## minted g2) → safe pre rule p g (λ _ _, True) →
  permitted (mkSystem s (<[next := p]> threads) (S next)).
Proof.
  intros Hst Hp Hd Ht Hg Hnew Hs. exists (<[next := g]> permits). cbn. split_and!; [done| | |].
  - intros tid g2. destruct (decide (tid = next)) as [->|]; [rewrite lookup_insert_eq; intros E; apply (inj Some) in E as <-; split; [lia|done]|].
    rewrite lookup_insert_ne by done. intros H2. destruct (Hp tid g2 H2). split; [lia|done].
  - intros i j gi gj Hij. destruct (decide (i = next)) as [->|Hi], (decide (j = next)) as [->|Hj]; rewrite ?lookup_insert_eq, ?lookup_insert_ne by done; [done| | |by apply Hd].
    + intros E Hgj. apply (inj Some) in E as <-. by eapply Hnew.
    + intros Hgi E. apply (inj Some) in E as <-. symmetry. by eapply Hnew.
  - intros tid q. destruct (decide (tid = next)) as [->|]; [rewrite !lookup_insert_eq; intros E; apply (inj Some) in E as <-; eauto|]. rewrite !lookup_insert_ne by done. apply Ht.
Qed.

Lemma started_spec a child g : started rounds attached a = Some child → pre a g → ∃ id, safe pre rule child (handed id g) (λ _ _, True) ∧
  ∀ tid fresh o ended s x s', tid ≠ fresh → good s tid g → exec tid fresh o ended a s = Some (x, s') → good (record_time s') fresh (handed id g).
Proof.
  destruct a; cbn [started]; try done. intros E Hp. apply (inj Some) in E as <-. exists (sp_taskID plan). split.
  - eapply safe_then; [apply runTurn_permit|by intros]. destruct Hp as [Hm|Hm]; [left; set_solver|by right].
  - intros tid fresh o ended s x s' Hne Hg He. cbn in He. injection He as <- <-. by apply good_handed.
Qed.

Lemma permitted_step y l y' : permitted y → step rounds attached y l = Some y' → permitted y'.
Proof.
  intros (permits & Hst & Hp & Hd & Ht) Hs. destruct l as [r|tid o]; cbn [step] in Hs.
  { injection Hs as <-. eapply (permitted_start _ _ _ _ nothing permits); [done..|apply good_nothing|set_solver|apply handler_fine]. }
  destruct (y_threads y !! tid) as [[|a k|]|] eqn:Et; [done| |done..]. apply bind_Some in Hs as ([x s] & He & Hs).
  destruct (Ht tid _ Et) as (g & Hg & Hpre & Hk). destruct (Hp tid g Hg) as [Hlt Hgood].
  destruct (exec_permit _ _ _ _ _ _ _ _ g Hpre He Hst Hgood ltac:(lia)) as (g' & Hr & Hst' & Hg' & Hm & Ho).
  assert (stored_ok (record_time s)) as Hst2 by (by destruct Hst'). set (permits' := <[tid := g']> permits).
  assert (∀ i gi, permits' !! i = Some gi → (i < y_next y)%nat ∧ good (record_time s) i gi) as Hp'.
  { intros i gi. unfold permits'. destruct (decide (i = tid)) as [->|Hi]; [rewrite lookup_insert_eq; intros E; apply (inj Some) in E as <-; done|].
    rewrite lookup_insert_ne by done. intros Hgi. destruct (Hp i gi Hgi) as [Hlti Hgi']. split; [done|]. apply Ho; [done|lia|done|]. exact (Hd tid i g gi (not_eq_sym Hi) Hg Hgi). }
  assert (∀ i gi, i ≠ tid → permits !! i = Some gi → minted g' ## minted gi) as Hdis.
  { intros i gi Hi Hgi n Hn1 Hn2. destruct (Hm n Hn1) as [Hn|Hn]; [exact (Hd tid i g gi (not_eq_sym Hi) Hg Hgi n Hn Hn2)|]. destruct (g_minted _ _ _ (proj2 (Hp i gi Hgi)) n Hn2). lia. }
  assert (∀ i j gi gj, i ≠ j → permits' !! i = Some gi → permits' !! j = Some gj → minted gi ## minted gj) as Hd'.
  { intros i j gi gj Hij. unfold permits'. destruct (decide (i = tid)) as [->|Hi], (decide (j = tid)) as [->|Hj]; rewrite ?lookup_insert_eq, ?lookup_insert_ne by done; [done| | |by apply Hd].
    - intros E Hgj. apply (inj Some) in E as <-. by eapply Hdis.
    - intros Hgi E. apply (inj Some) in E as <-. symmetry. by eapply Hdis. }
  assert (∀ i p, <[tid := k x]> (y_threads y) !! i = Some p → ∃ gi, permits' !! i = Some gi ∧ safe pre rule p gi (λ _ _, True)) as Ht'.
  { intros i p. unfold permits'. destruct (decide (i = tid)) as [->|Hi]; [|rewrite !lookup_insert_ne by done; apply Ht].
    rewrite !lookup_insert_eq. intros E. apply (inj Some) in E as <-. eauto. }
  destruct (started rounds attached a) as [child|] eqn:Es; apply (inj Some) in Hs as <-; [|exists permits'; split_and!; assumption].
  destruct (started_spec a child g Es Hpre) as (id & Hc & Hcg). eapply (permitted_start _ _ _ _ (handed id g) permits'); try done.
  - eapply Hcg; [|done|done]. lia.
  - intros i gi. unfold permits'. destruct (decide (i = tid)) as [->|Hi].
    + rewrite lookup_insert_eq. intros E. apply (inj Some) in E as <-. destruct a; try done. cbn in Hr. rewrite Hr. set_solver.
    + rewrite lookup_insert_ne by done. intros Hgi. exact (Hd tid i g gi (not_eq_sym Hi) Hg Hgi).
Qed.

Lemma permitted_runs y ls y' : permitted y → runs rounds attached y ls = Some y' → permitted y'.
Proof. revert y. induction ls as [|l ls IH]; intros y Ha; cbn; [by intros [= <-]|]. intros (y1 & H1 & H2)%bind_Some. eapply IH; [|done]. by eapply permitted_step. Qed.

(** C16. The end of a task.  In every interleaving, when a program is about to store a
    snapshot over one that has ended, it is a request that looked at the task before
    that end was stored: a request that looks later never reopens, completes or cancels
    a task that has ended. *)
Theorem ended_stays ls y tid a k t c :
  runs rounds attached initSystem ls = Some y → y_threads y !! tid = Some (Vis a k) → a = StoreTask t ∨ a = SwapTask t →
  a_tasks (y_state y) !! t_ID t = Some c → terminal c = true →
  ∃ τ σ, a_looks (y_state y) !! (tid, t_ID t) = Some τ ∧ a_since (y_state y) !! t_ID t = Some σ ∧ (τ < σ)%nat.
Proof.
  intros Hr Ht Ha Hc Hend. destruct (permitted_runs _ _ _ permitted_init Hr) as (permits & Hst & Hp & _ & Hs). destruct (Hs tid _ Ht) as (g & Hg & Hpre & _). destruct (Hp tid g Hg) as [_ Hgood].
  assert (allowed g (t_ID t)) as [Hm|(n & Hn & Hid)] by (by destruct Ha as [-> | ->]).
  - destruct (g_may _ _ _ Hgood _ Hm) as (_ & τ & Hl & _ & Hσ). destruct (Hσ c Hc Hend) as (σ & H1 & H2). eauto.
  - destruct (so_id _ Hst _ _ Hc) as [_ [σ Hσ]]. by rewrite (proj2 (g_minted _ _ _ Hgood n Hn) _ Hid) in Hσ.
Qed.
End Finality.

(** ** Runs *)

(** Requests in JSON, with apostrophes for quotation marks. *)
Fixpoint quoted (s : string) : string := match s with "" => "" | String c s => String (if byteZ c =? 39 then Zbyte 34 else c) (quoted s) end.
Definition demoPost (body : string) : request := mkRequest "/a2a" "POST" "1.0" (quoted body).
Definition demoSend : request := demoPost "{'jsonrpc': '2.0', 'id': 1, 'method': 'message/send', 'params': {'input': 'hello'}}".
Definition demoCancel : request := demoPost "{'jsonrpc': '2.0', 'id': 2, 'method': 'tasks/cancel', 'params': {'id': 'task-7-2'}}".
Definition demoUnknown : request := demoPost "{'jsonrpc': '2.0', 'id': 3, 'method': 'tasks/resubscribe', 'params': {'id': 'nobody'}}".

#[export] Instance demoEnv : A2AEnv := {| rfc3339UTC := Itoa; parseRFC3339 := λ _, None; parseRFC3339Nano := λ _, None |}.

(** Actions of a program at one time; a walk over the store ends at once. *)
Definition demoGo (tid n : nat) (now : Z) : list label := repeat (Go tid (mkOracle now None (inr (Some "hi")) true)) n.
Abbreviation demoRun := (runs 10 true initSystem).
Definition demoState {A} (ls : list label) (f : State → A) : option A := f ∘ y_state <$> demoRun ls.
Definition stateOf (id : string) (s : State) : option string := ts_State ∘ t_Status <$> a_tasks s !! id.

(** A turn runs to its end and its request is answered. *)
Lemma retention_cap_witness : match demoRun (Arrive demoSend :: demoGo 0 36 7) with Some y => Z.of_nat (size (a_tasks (y_state y))) ≤ maxRetainedTasks | None => False end.
Proof.
  assert (demoState (Arrive demoSend :: demoGo 0 36 7) a_recreated = Some 0) as Hc by (vm_compute; reflexivity). unfold demoState in Hc.
  destruct (demoRun _) as [y|] eqn:E; [|discriminate Hc]. exact (proj2 (proj2 (retention_cap 10 true _ y E)) (f_equal (default 0) Hc)).
Defined.

(** A turn is about to store its result when a cancellation has ended the task. *)
Definition demoRace : list label := Arrive demoSend :: demoGo 0 28 7 ++ Arrive demoCancel :: demoGo 1 12 8.
Definition overEnded (y : System) : bool :=
  match y_threads y !! 0%nat with Some (Vis (StoreTask t) _) => match a_tasks (y_state y) !! t_ID t with Some c => terminal c | None => false end | _ => false end.

Lemma ended_stays_witness : match demoRun demoRace with
  | Some y => match y_threads y !! 0%nat with
              | Some (Vis (StoreTask t) _) => ∃ τ σ, a_looks (y_state y) !! (0%nat, t_ID t) = Some τ ∧ a_since (y_state y) !! t_ID t = Some σ ∧ (τ < σ)%nat
              | _ => False
              end
  | None => False
  end.
Proof.
  assert (overEnded <$> demoRun demoRace = Some true) as Hc by (vm_compute; reflexivity). destruct (demoRun demoRace) as [y|] eqn:E; [|discriminate Hc].
  apply (f_equal (default false)) in Hc. cbn [fmap option_fmap option_map default] in Hc. unfold overEnded in Hc. destruct (y_threads y !! 0%nat) as [[|[] k|]|] eqn:Et; try discriminate Hc.
  destruct (a_tasks (y_state y) !! t_ID t) as [c|] eqn:Ec; [|discriminate Hc]. by apply (ended_stays 10 true demoRace y 0 (StoreTask t) k t c E Et); [left|..].
Defined.

(** The result is stored over the cancellation that the client was told of. *)
Example cancel_overwritten :
  demoState demoRace (stateOf "task-7-2") = Some (Some TaskStateCanceled) ∧
  demoState (demoRace ++ demoGo 0 1 9) (stateOf "task-7-2") = Some (Some TaskStateCompleted).
Proof. split; vm_compute; reflexivity. Qed.

(** A cancellation has seen the entry, the turn completes and its sweep, much later,
    evicts the entry; then the cancellation stores it again without taking a slot. *)
Definition demoEvicted : list label :=
  Arrive demoSend :: demoGo 0 20 7 ++ Arrive demoCancel :: demoGo 1 5 8 ++ demoGo 0 10 9 ++ demoGo 0 3 1000000000000
  ++ Go 0 (mkOracle 0 (Some "task-7-2") (inr None) true) :: demoGo 0 3 1000000000000.
Example recreated_uncounted : demoState (demoEvicted ++ demoGo 1 1 1000000000000) (λ s, (a_retained s, size (a_tasks s))) = Some (0, 1%nat).
Proof. vm_compute. reflexivity. Qed.

(** A subscription to an unknown task is refused and leaves a hub behind. *)
Example unknown_hub_kept : demoState (Arrive demoUnknown :: demoGo 0 6 7) (λ s, (a_hubs s !! "nobody", size (a_tasks s))) = Some (Some 0%nat, 0%nat).
Proof. vm_compute. reflexivity. Qed.
