(* ===== verification/A2AStreams.v ===== *)
(** * What a stream shows of a task

    The events a client of SendStreamingMessage or SubscribeToTask is sent are the
    snapshots that were broadcast on the hub of the task since the stream joined it, in
    order, without a gap or a repetition, and none after an end; a subscription begins
    with the snapshot of the moment it joined. *)

From Stdlib Require Import Ascii.
From S2P Require Import Prelude GoText GoLib PyFloat GoFmt Core GoJson PyJson Governance Response Provider SessionText Session SessionCodec A2A A2AStore A2AFacts.
#[local] Open Scope string_scope.
#[local] Open Scope list_scope.
#[local] Open Scope Z_scope.

(** ** Channels and hubs *)

Definition broadcast_before (a b : Z * Task) : Prop := a.1 < b.1.

Record hub_ok (subs : list Sub) (h : nat) (hub : Hub) : Prop := {
  hk_seq : 0 ≤ hb_seq hub;
  hk_sorted : StronglySorted broadcast_before (hb_log hub);
  hk_bound : Forall (λ e, e.1 ≤ hb_seq hub) (hb_log hub);
  hk_subs : ∀ i, i ∈ hb_subs hub → ∃ sub, subs !! i = Some sub ∧ sb_hub sub = h;
  hk_tasks : Forall (λ e, t_ID e.2 = hb_id hub) (hb_log hub);
  hk_last : ∀ t, hb_last hub = Some t → t_ID t = hb_id hub }.

(** What went into a channel is what was broadcast since it joined; all of it as long as
    the hub knows it. *)
Record sub_ok (hub : Hub) (i : nat) (sub : Sub) : Prop := {
  sk_joined : 0 ≤ sb_joined sub ≤ hb_seq hub;
  sk_from : (sb_from sub ≤ length (hb_log hub))%nat;
  sk_later : Forall (λ e, sb_joined sub < e.1) (drop (sb_from sub) (hb_log hub));
  sk_prefix : (sb_got sub ++ sb_buffer sub) `prefix_of` drop (sb_from sub) (hb_log hub);
  sk_all : i ∈ hb_subs hub → sb_got sub ++ sb_buffer sub = drop (sb_from sub) (hb_log hub);
  sk_first : ∀ t, sb_first sub = Some t → t_ID t = hb_id hub }.

Record streams_ok (s : State) : Prop := {
  st_hub : ∀ h hub, a_hubHeap s !! h = Some hub → hub_ok (a_subs s) h hub;
  st_sub : ∀ i sub, a_subs s !! i = Some sub → ∃ hub, a_hubHeap s !! sb_hub sub = Some hub ∧ sub_ok hub i sub;
  st_map : ∀ id h, a_hubs s !! id = Some h → ∃ hub, a_hubHeap s !! h = Some hub ∧ hb_id hub = id;
  st_ids : ∀ id t, a_tasks s !! id = Some t → t_ID t = id }.

(** The hubs are those of the tasks that [own] says, and later ones are left open. *)
Definition owned (own : nat → option string) (s : State) : Prop := ∀ h hub, a_hubHeap s !! h = Some hub → own h = Some (hb_id hub).
Definition owners (s : State) (h : nat) : option string := hb_id <$> a_hubHeap s !! h.
Lemma owned_owners s : owned (owners s) s.
Proof. intros h hub Hh. unfold owners. by rewrite Hh. Qed.

(** What was recorded of a channel is kept. *)
Definition same_record (a b : Sub) : Prop :=
  sb_hub b = sb_hub a ∧ sb_joined b = sb_joined a ∧ sb_first b = sb_first a ∧ sb_from b = sb_from a ∧ sb_got b = sb_got a.
Definition kept_subs (s s' : State) : Prop := ∀ i sub, a_subs s !! i = Some sub → ∃ sub', a_subs s' !! i = Some sub' ∧ same_record sub sub'.

Lemma kept_same s s' : a_subs s' = a_subs s → kept_subs s s'.
Proof. intros E i sub Hi. rewrite E. exists sub. done. Qed.

Lemma streams_same s s' : a_hubHeap s' = a_hubHeap s → a_subs s' = a_subs s → a_hubs s' = a_hubs s → a_tasks s' = a_tasks s → streams_ok s → streams_ok s'.
Proof. intros E1 E2 E3 E4 []. split; rewrite ?E1, ?E2, ?E3, ?E4; done. Qed.

Lemma existsb_elem i l : existsb (Nat.eqb i) l = true ↔ i ∈ l.
Proof. rewrite existsb_exists. setoid_rewrite list_elem_of_In. split; [intros (x & Hx & ->%Nat.eqb_eq); done|]. intros Hi. exists i. by rewrite Nat.eqb_refl. Qed.

Lemma offer_record e sub : same_record sub (offer e sub).
Proof. unfold offer. by destruct (roomy sub). Qed.

(** Changing a hub leaves it the hub of its task. *)
Lemma map_kept (heap : list Hub) h hub hub' (m : gmap string nat) : heap !! h = Some hub → hb_id hub' = hb_id hub →
  (∀ id h, m !! id = Some h → ∃ hub, heap !! h = Some hub ∧ hb_id hub = id) → ∀ id k, m !! id = Some k → ∃ hub, <[h := hub']> heap !! k = Some hub ∧ hb_id hub = id.
Proof.
  intros Hh Eid Hm id k Hk. destruct (Hm id k Hk) as (hub0 & H0 & E0). destruct (decide (k = h)) as [->|]; [|rewrite list_lookup_insert_ne by done; eauto].
  rewrite list_lookup_insert_eq by by eapply lookup_lt_Some. rewrite Hh in H0. injection H0 as <-. exists hub'. split; [done|congruence].
Qed.

(** Appending to the log of a hub. *)
Lemma sub_ok_grow hub i sub subs' last seq t :
  sub_ok hub i sub → hb_seq hub < seq → (i ∈ subs' → False) → sub_ok (mkHub (hb_id hub) subs' last seq (hb_log hub ++ [(seq, t)])) i sub.
Proof.
  intros [K1 K2 K3 K4 K5 K6] Hs Hn. split; cbn; [| | | | |done].
  - lia.
  - rewrite length_app. cbn. lia.
  - rewrite drop_app_le by done. apply Forall_app. split; [done|]. constructor; [cbn; lia|done].
  - rewrite drop_app_le by done. by apply prefix_app_r.
  - done.
Qed.

Lemma offer_ok hub i sub subs' last t : let seq := hb_seq hub + 1 in
  sub_ok hub i sub → i ∈ hb_subs hub → (roomy sub = false → i ∉ subs') →
  sub_ok (mkHub (hb_id hub) subs' last seq (hb_log hub ++ [(seq, t)])) i (offer (seq, t) sub).
Proof.
  intros seq Hs Hi Hr. unfold offer. destruct (roomy sub) eqn:E.
  - destruct Hs as [K1 K2 K3 K4 K5 K6]. specialize (K5 Hi). split; cbn; [| | | | |done].
    + lia.
    + rewrite length_app. cbn. lia.
    + rewrite drop_app_le by done. apply Forall_app. split; [done|]. constructor; [cbn; lia|done].
    + rewrite drop_app_le, app_assoc, K5 by done. done.
    + intros _. by rewrite drop_app_le, app_assoc, K5.
  - pose proof (sub_ok_grow hub i sub subs' last seq t Hs ltac:(lia) (Hr eq_refl)) as []. by split.
Qed.

Lemma broadcast_ok h t s : streams_ok s → owners s h = Some (t_ID t) → streams_ok (broadcastIn h t s) ∧ kept_subs s (broadcastIn h t s).
Proof.
  intros [H1 H2 H3 H4] Hown. unfold broadcastIn, owners in *. destruct (a_hubHeap s !! h) as [hub|] eqn:Eh; [|split; [by split|by apply kept_same]]. cbn in Hown. apply (inj Some) in Hown.
  pose proof (H1 h hub Eh) as [K1 K2 K3 K4 K5 K6]. set (seq := hb_seq hub + 1). set (f := λ i sub, if existsb (Nat.eqb i) (hb_subs hub) then offer (seq, t) sub else sub).
  assert (∀ i sub, same_record sub (f i sub)) as Hf by (intros i sub; unfold f; case_match; [apply offer_record|done]).
  split; [split|]; cbn; [| |by eapply map_kept|done|].
  - intros h' hub' [(-> & <- & Hlt)|[Hne Hh']]%list_lookup_insert_Some.
    + split; cbn; [lia| | | |apply Forall_app; by repeat constructor|by intros t' [= <-]].
      * apply StronglySorted_app. split_and!; [|done|repeat constructor]. intros a b Ha ->%list_elem_of_singleton. unfold broadcast_before. cbn. rewrite Forall_forall in K3. specialize (K3 a Ha). cbn in K3. lia.
      * apply Forall_app. split; [|by repeat constructor]. eapply Forall_impl; [exact K3|]. cbn. intros a Ha. lia.
      * intros i [Hi _]%list_elem_of_In%filter_In. apply list_elem_of_In in Hi. destruct (K4 i Hi) as (sub & Hsub & Hh). exists (f i sub). rewrite list_lookup_imap, Hsub. split; [done|]. exact (eq_trans (proj1 (Hf i sub)) Hh).
    + destruct (H1 h' hub' Hh') as [J1 J2 J3 J4 J5 J6]. split; [done..| |done|done]. intros i Hi. destruct (J4 i Hi) as (sub & Hsub & Hh). exists (f i sub). rewrite list_lookup_imap, Hsub. split; [done|]. exact (eq_trans (proj1 (Hf i sub)) Hh).
  - intros i sub'. rewrite list_lookup_imap. intros (sub & Hsub & ->)%fmap_Some. destruct (H2 i sub Hsub) as (hub' & Hh' & Hok). fold (f i sub). rewrite (proj1 (Hf i sub)).
    destruct (decide (sb_hub sub = h)) as [Eq|Hne].
    + rewrite Eq in *. rewrite Eh in Hh'. injection Hh' as <-. rewrite list_lookup_insert_eq by by eapply lookup_lt_Some. eexists. split; [done|].
      unfold f. destruct (existsb (Nat.eqb i) (hb_subs hub)) eqn:Ei.
      * apply existsb_elem in Ei. apply offer_ok; [done|done|]. intros Hr [_ Hroom]%list_elem_of_In%filter_In. unfold hasRoom in Hroom. rewrite Hsub, Hr in Hroom. done.
      * apply sub_ok_grow; [done|lia|]. intros [Hi _]%list_elem_of_In%filter_In. apply list_elem_of_In, existsb_elem in Hi. congruence.
    + rewrite list_lookup_insert_ne by done. exists hub'. split; [done|]. unfold f. destruct (existsb (Nat.eqb i) (hb_subs hub)) eqn:Ei; [|done].
      apply existsb_elem in Ei. destruct (K4 i Ei) as (sub2 & Hsub2 & Hh2). rewrite Hsub in Hsub2. injection Hsub2 as <-. done.
  - intros i sub Hsub. cbn. rewrite list_lookup_imap, Hsub. eauto.
Qed.

(** A hub whose log did not change. *)
Lemma sub_ok_same hub i sub subs' last seq :
  sub_ok hub i sub → hb_seq hub ≤ seq → (i ∈ subs' → i ∈ hb_subs hub) → sub_ok (mkHub (hb_id hub) subs' last seq (hb_log hub)) i sub.
Proof. intros [K1 K2 K3 K4 K5 K6] Hs Hi. split; cbn; try done; [lia|]. intros Hin. by apply K5, Hi. Qed.

Lemma subscribe_ok h id s i first s' : streams_ok s → owners s h = Some id → subscribeIn h id s = Some (i, first, s') →
  streams_ok s' ∧ kept_subs s s' ∧ i = length (a_subs s) ∧ ∃ sub, a_subs s' !! i = Some sub ∧ sb_got sub = [] ∧ 0 ≤ sb_joined sub ∧ first = (λ t, (sb_joined sub, t)) <$> sb_first sub.
Proof.
  intros [H1 H2 H3 H4] Hown (hub & Eh & E)%bind_Some. pose proof (H1 h hub Eh) as [K1 K2 K3 K4 K5 K6]. unfold owners in Hown. rewrite Eh in Hown. cbn in Hown. apply (inj Some) in Hown.
  destruct (match hb_last hub with Some last => _ | None => _ end) as [last seq] eqn:Es. assert (hb_seq hub ≤ seq) as Hseq by (repeat case_match; simplify_eq; lia).
  assert (∀ t, last = Some t → t_ID t = hb_id hub) as Hlast by (repeat case_match; simplify_eq; intros t' [= <-]; eauto). injection E as <- <- <-.
  set (new := mkSub [] false h seq last (length (hb_log hub)) []).
  assert (∀ j sub, a_subs s !! j = Some sub → (a_subs s ++ [new]) !! j = Some sub) as Hold by (intros; by apply lookup_app_l_Some).
  split; [split|split_and!]; cbn; [| |by eapply map_kept|done|..].
  - intros h' hub' [(-> & <- & Hlt)|[Hne Hh']]%list_lookup_insert_Some.
    + split; cbn; [lia|done| | |done|done]; [eapply Forall_impl; [exact K3|]; cbn; lia|]. intros j [Hj| ->%list_elem_of_singleton]%elem_of_app.
      * destruct (K4 j Hj) as (sub & Hsub & Hh). exists sub. eauto.
      * exists new. rewrite lookup_app_r, Nat.sub_diag by done. done.
    + destruct (H1 h' hub' Hh') as [J1 J2 J3 J4 J5 J6]. split; [done..| |done|done]. intros j Hj. destruct (J4 j Hj) as (sub & Hsub & Hh). exists sub. eauto.
  - intros j sub [Hsub|[Hlen Hsub]]%lookup_app_Some.
    + destruct (H2 j sub Hsub) as (hub' & Hh' & Hok). destruct (decide (sb_hub sub = h)) as [Eq|Hne].
      * rewrite Eq in *. rewrite Eh in Hh'. injection Hh' as <-. rewrite list_lookup_insert_eq by by eapply lookup_lt_Some. eexists. split; [done|]. apply sub_ok_same; [done|done|].
        intros [Hj| ->%list_elem_of_singleton]%elem_of_app; [done|]. apply lookup_lt_Some in Hsub. lia.
      * rewrite list_lookup_insert_ne by done. eauto.
    + apply list_lookup_singleton_Some in Hsub as [Hj <-]. cbn. rewrite list_lookup_insert_eq by by eapply lookup_lt_Some. eexists. split; [done|].
      split; cbn; rewrite ?drop_all; try done; [lia].
  - intros j sub Hsub. exists sub. split; [by apply Hold|done].
  - done.
  - exists new. rewrite lookup_app_r, Nat.sub_diag by done. split_and!; [done|done|cbn; lia|done].
Qed.

Lemma unsubscribe_ok h i s : streams_ok s → streams_ok (unsubscribeIn h i s) ∧ kept_subs s (unsubscribeIn h i s).
Proof.
  intros [H1 H2 H3 H4]. unfold unsubscribeIn. destruct (a_hubHeap s !! h) as [hub|] eqn:Eh; [|split; [by split|by apply kept_same]]. destruct (existsb _ _); [|split; [by split|by apply kept_same]].
  pose proof (H1 h hub Eh) as [K1 K2 K3 K4 K5 K6].
  assert (kept_subs s (set_hubs id (a_hubHeap s) (alter close i (a_subs s)) s)) as Hkept.
  { intros j sub Hsub. cbn. destruct (decide (j = i)) as [->|]; [rewrite list_lookup_alter_eq, Hsub|rewrite list_lookup_alter_ne, Hsub by done]; by eexists. }
  split; [split|]; cbn; [| |by eapply map_kept|done|exact Hkept].
  - intros h' hub' [(-> & <- & Hlt)|[Hne Hh']]%list_lookup_insert_Some.
    + split; [done..| |done|done]. intros j [Hj _]%list_elem_of_In%filter_In. apply list_elem_of_In in Hj. destruct (K4 j Hj) as (sub & Hsub & Hh). destruct (Hkept j sub Hsub) as (sub' & Hsub' & Hr). exists sub'. split; [done|]. by rewrite (proj1 Hr).
    + destruct (H1 h' hub' Hh') as [J1 J2 J3 J4 J5 J6]. split; [done..| |done|done]. intros j Hj. destruct (J4 j Hj) as (sub & Hsub & Hh). destruct (Hkept j sub Hsub) as (sub' & Hsub' & Hr). exists sub'. split; [done|]. by rewrite (proj1 Hr).
  - intros j sub' Hsub'. assert (∃ sub, a_subs s !! j = Some sub ∧ (sub' = sub ∨ sub' = close sub)) as (sub & Hsub & Hc).
    { destruct (decide (j = i)) as [->|]; [rewrite list_lookup_alter_eq in Hsub'; apply fmap_Some in Hsub' as (sub & Hsub & ->)|rewrite list_lookup_alter_ne in Hsub' by done]; eauto. }
    destruct (H2 j sub Hsub) as (hub' & Hh' & Hok). assert (sb_hub sub' = sb_hub sub) as -> by (by destruct Hc as [-> | ->]).
    assert (∀ hb, sub_ok hb j sub → sub_ok hb j sub') as Hcl by (intros hb []; destruct Hc as [-> | ->]; by split).
    destruct (decide (sb_hub sub = h)) as [Eq|Hne].
    + rewrite Eq in *. rewrite Eh in Hh'. injection Hh' as <-. rewrite list_lookup_insert_eq by by eapply lookup_lt_Some. eexists. split; [done|]. apply Hcl, sub_ok_same; [done|lia|].
      intros [Hj _]%list_elem_of_In%filter_In. by apply list_elem_of_In.
    + rewrite list_lookup_insert_ne by done. eauto.
Qed.

(** Receiving moves an event from the buffer to what was got. *)
Lemma receive_ok i s x s' : streams_ok s → receiveFrom i s = Some (x, s') →
  streams_ok s' ∧ (∀ j sub, j ≠ i → a_subs s !! j = Some sub → a_subs s' !! j = Some sub) ∧
  ∃ sub sub', a_subs s !! i = Some sub ∧ a_subs s' !! i = Some sub' ∧ sb_joined sub' = sb_joined sub ∧ sb_first sub' = sb_first sub ∧ sb_from sub' = sb_from sub ∧ sb_hub sub' = sb_hub sub ∧
    match x with
    | REvent seq t => sb_got sub' = sb_got sub ++ [(seq, t)] ∧ sb_joined sub < seq ∧ Forall (λ e, e.1 < seq) (sb_got sub)
    | _ => sb_got sub' = sb_got sub
    end.
Proof.
  intros [H1 H2 H3 H4] (sub & Hsub & E)%bind_Some. destruct (sb_buffer sub) as [|[seq t] rest] eqn:Eb.
  { destruct (sb_closed sub); [|done]. injection E as <- <-. split; [by split|]. split; [done|]. by exists sub, sub. }
  injection E as <- <-. set (sub' := with_buffer _ _ _ _). pose proof (lookup_lt_Some _ _ _ Hsub) as Hlt.
  assert (∀ j x, a_subs s !! j = Some x → ∃ x', <[i := sub']> (a_subs s) !! j = Some x' ∧ sb_hub x' = sb_hub x) as Hkept.
  { intros j y Hj. destruct (decide (j = i)) as [->|]; [rewrite list_lookup_insert_eq by done; exists sub'; split; [done|]; rewrite Hsub in Hj; by injection Hj as <-|]. rewrite list_lookup_insert_ne by done. eauto. }
  destruct (H2 i sub Hsub) as (hub & Hh & Hok). pose proof Hok as [J1 J2 J3 J4 J5 J6]. rewrite Eb in *.
  split; [split; cbn; [| |done|done]|split].
  - intros h' hub' Hh'. destruct (H1 h' hub' Hh') as [K1 K2 K3 K4 K5 K6]. split; [done..| |done|done]. intros j Hj. destruct (K4 j Hj) as (y & Hy & Eh). destruct (Hkept j y Hy) as (y' & Hy' & Eh'). exists y'. split; [done|congruence].
  - intros j y [(-> & <- & _)|[Hne Hy]]%list_lookup_insert_Some; [|by apply H2]. exists hub. split; [done|]. split; cbn; rewrite <- ?app_assoc; done.
  - intros j y Hne Hy. cbn. by rewrite list_lookup_insert_ne.
  - exists sub, sub'. cbn. rewrite list_lookup_insert_eq by done. split_and!; try done.
    + rewrite Forall_forall in J3. apply (J3 (seq, t)). eapply elem_of_prefix; [|exact J4]. set_solver.
    + destruct J4 as [rest' Hr]. assert (StronglySorted broadcast_before (drop (sb_from sub) (hb_log hub))) as Hsort.
      { pose proof (hk_sorted _ _ _ (H1 _ _ Hh)) as Hs. rewrite <- (take_drop (sb_from sub) (hb_log hub)) in Hs. by apply StronglySorted_app in Hs as (_ & _ & Hs). }
      rewrite Hr, <- app_assoc in Hsort. apply StronglySorted_app in Hsort as (Hs & _ & _). apply Forall_forall. intros e He. apply (Hs e (seq, t)); [done|]. set_solver.
Qed.

(** What a task is stored under. *)
Lemma ids_put t s : streams_ok s → streams_ok (putTask t s).
Proof. intros [H1 H2 H3 H4]. split; [done..|]. cbn. intros id t' [[<- <-]|[_ Ht]]%lookup_insert_Some; [done|by apply H4]. Qed.
Lemma ids_delete id s : streams_ok s → streams_ok (set_tasks (delete id) s).
Proof. intros [H1 H2 H3 H4]. split; [done..|]. cbn. intros id' t [_ Ht]%lookup_delete_Some. by apply H4. Qed.

(** An action on a hub is on that of its task. *)
Definition to_own (own : nat → option string) (a : action) : Prop :=
  match a with Broadcast h t => own h = Some (t_ID t) | Subscribe h id => own h = Some id | _ => True end.

(** Every action keeps channels and hubs in order. *)
Lemma exec_streams tid fresh o ended a s x s' :
  streams_ok s → to_own (owners s) a → exec tid fresh o ended a s = Some (x, s') → streams_ok s' ∧ ((∀ i, a ≠ Receive i) → kept_subs s s').
Proof.
  intros Hs Ho He.
  assert (a_subs s' = a_subs s → streams_ok s' → streams_ok s' ∧ ((∀ i, a ≠ Receive i) → kept_subs s s')) as Hsubs by (intros E ?; split; [done|]; intros _; by apply kept_same).
  assert (a_hubHeap s' = a_hubHeap s → a_subs s' = a_subs s → a_hubs s' = a_hubs s → a_tasks s' = a_tasks s → streams_ok s' ∧ ((∀ i, a ≠ Receive i) → kept_subs s s')) as Hsame.
  { intros E1 E2 E3 E4. apply Hsubs; [done|]. by eapply streams_same. }
  destruct a; cbn [exec] in He; try (apply Hsame; repeat (case_match; simplify_eq; cbn in * ); simplify_option_eq; done).
  - injection He as <- <-. apply Hsubs; [done|]. by eapply streams_same, ids_put.
  - injection He as <- <-. apply Hsubs; [done|]. by apply ids_put.
  - injection He as <- <-. apply Hsubs; [done|]. by apply ids_delete.
  - destruct (a_hubs s !! id) eqn:Ei; injection He as <- <-; [by apply Hsame|]. apply Hsubs; [done|]. destruct Hs as [H1 H2 H3 H4]. split; cbn; [| | |done].
    + intros h hub [Hh|[_ Hh]]%lookup_app_Some; [by apply H1|]. apply list_lookup_singleton_Some in Hh as [_ <-]. split; cbn; [lia|constructor|constructor|set_solver|done|done].
    + intros i sub Hi. destruct (H2 i sub Hi) as (hub & Hh & Hok). exists hub. split; [by apply lookup_app_l_Some|done].
    + intros id' h [[<- <-]|[_ Hh]]%lookup_insert_Some; [rewrite lookup_app_r, Nat.sub_diag by done; by eexists|].
      destruct (H3 id' h Hh) as (hub & Hhub & E). exists hub. split; [by apply lookup_app_l_Some|done].
  - injection He as <- <-. apply Hsubs; [done|]. destruct Hs as [H1 H2 H3 H4]. split; [done|done| |done]. cbn. intros id' h [_ Hh]%lookup_delete_Some. by apply H3.
  - injection He as <- <-. destruct (broadcast_ok hub t s Hs Ho). auto.
  - apply bind_Some in He as ([[i first] s1] & He & [= <- <-]). destruct (subscribe_ok _ _ _ _ _ _ Hs Ho He) as (? & ? & _). auto.
  - injection He as <- <-. destruct (unsubscribe_ok hub sub s Hs). auto.
  - destruct (o_ok o); [|injection He as <- <-; by apply Hsame]. split; [by eapply receive_ok|]. intros Hn. by destruct (Hn sub).
Qed.

(** ** Programs that relay *)

Module Relays.

(** The channel a program has joined, with the sequence number and the snapshot it got
    then, what it has received and what it has written. *)
Record relay := mkRelay { r_sub : option nat; r_base : Z; r_first : option Task; r_got : list (Z * Task); r_wrote : list Task }.
Definition idle : relay := mkRelay None 0 None [] [].

Definition running (t : Task) : Prop := terminal t = false.

(** A stream may begin with the snapshot it joined at. *)
Definition beginning (g : relay) (ini : list Task) : Prop := ini = [] ∨ ini = option_list (r_first g).

(** What was written so far is accounted for, and [t] is next. *)
Definition due (g : relay) (t : Task) : Prop :=
  r_sub g ≠ None ∧ ∃ ini, beginning g ini ∧ r_wrote g ++ [t] = ini ++ map snd (r_got g) ∧ Forall running (r_wrote g).

Definition pre (own : nat → option string) (a : action) (g : relay) : Prop :=
  to_own own a ∧
  match a with
  | Subscribe _ _ => g = idle
  | Receive i => r_sub g = Some i
  | WriteEvent t => due g t
  | _ => True
  end.

Definition rule (own : nat → option string) (a : action) (g : relay) : answer a → relay → Prop :=
  match a return answer a → relay → Prop with
  | LoadHub id => λ x g', g' = g ∧ ∀ h, x = Some h → own h = Some id
  | LoadOrStoreHub id => λ h g', g' = g ∧ own h = Some id
  | Subscribe _ _ => λ x g', ∃ b f, 0 ≤ b ∧ x.2 = (λ t, (b, t)) <$> f ∧ g' = mkRelay (Some x.1) b f [] []
  | Receive _ => λ x g', match x with
                         | REvent seq t => r_base g < seq ∧ Forall (λ e, e.1 < seq) (r_got g) ∧ g' = mkRelay (r_sub g) (r_base g) (r_first g) (r_got g ++ [(seq, t)]) (r_wrote g)
                         | _ => g' = g
                         end
  | WriteEvent t => λ ok g', g' = if ok : bool then mkRelay (r_sub g) (r_base g) (r_first g) (r_got g) (r_wrote g ++ [t]) else g
  | _ => λ _ g', g' = g
  end.

Create HintDb relays.
Ltac quieten := stabilize ltac:(solve [auto 1 with relays]).

Section Programs.
Context `{A2AEnv} (rounds : nat) (attached : bool) (own : nat → option string).
Abbreviation quiet := (stable (pre own) (rule own)).

Lemma quiet_chores {A} (p : prog A) : chores p → quiet p.
Proof. apply only_stable. intros [] g Ha; cbn in Ha; try done; (split; [done|]; by intros). Qed.
Lemma quiet_candidates fuel cs : quiet (candidates_loop fuel cs).
Proof. apply quiet_chores, chores_candidates. Qed.
Lemma quiet_slot fuel : quiet (slot_loop rounds fuel).
Proof. apply quiet_chores, chores_slot. Qed.
Lemma quiet_sweep now : quiet (sweepTasks rounds now).
Proof. apply quiet_chores, chores_sweep. Qed.
#[local] Hint Resolve quiet_candidates quiet_slot quiet_sweep : relays.
(** A snapshot is broadcast on the hub of its task. *)
Lemma quiet_broadcast t : quiet (broadcast t).
Proof.
  intros g. unfold broadcast. apply safe_bind, safe_act; [done|]. intros [h|] g' [-> Hown]; [|done]. apply safe_act; [|by intros ? ? ->]. split; [by apply Hown|done].
Qed.
#[local] Hint Resolve quiet_broadcast : relays.
Lemma quiet_publish t : quiet (publish rounds t).
Proof. unfold publish. quieten. Qed.
#[local] Hint Resolve quiet_publish : relays.
Lemma quiet_runTurn plan : quiet (runTurn rounds attached plan).
Proof. unfold runTurn, failTurn, completeTurn, taskStatus, newID, endedTask, snapshotOr, loadTask. quieten. Qed.
Lemma quiet_prepare params : quiet (prepareSend params).
Proof. unfold prepareSend, parseSendParams, resolveTask, newID, loadTask. quieten. Qed.
Lemma quiet_unsubscribe id sub : quiet (unsubscribe id sub).
Proof. unfold unsubscribe. quieten. Qed.
Lemma quiet_hubFor id : quiet (hubFor id).
Proof. unfold hubFor. quieten. Qed.
#[local] Hint Resolve quiet_runTurn quiet_prepare quiet_unsubscribe quiet_hubFor : relays.

(** The loop writes what it receives, until the end. *)
Lemma relay_writes fuel sub last g ini :
  r_sub g = Some sub → last ≤ r_base g ∨ (∃ e, e ∈ r_got g ∧ last = e.1) → beginning g ini → r_wrote g = ini ++ map snd (r_got g) → Forall running (r_wrote g) →
  safe (pre own) (rule own) (relay_loop fuel sub last) g (λ _ _, True).
Proof.
  revert last g. induction fuel as [|fuel IH]; intros last g Hsub Hlast Hini Hw Hrun; [done|]. cbn [relay_loop]. apply safe_bind, safe_act; [done|].
  intros [seq t| |] g'; [|by intros ->..]. cbn [rule]. intros (Hbase & Hgot & ->). rewrite (proj2 (Z.leb_gt _ _)).
  2: { destruct Hlast as [?|(e & He & ->)]; [lia|]. rewrite Forall_forall in Hgot. by apply Hgot. }
  apply safe_bind, safe_act.
  - split; [done|]. split; [cbn; congruence|]. exists ini. split_and!; [done|cbn|done]. rewrite map_app, Hw, app_assoc. done.
  - intros ok g' ->. destruct ok; cbn [negb]; [|done]. destruct (terminal t) eqn:Et; [done|]. apply IH; cbn; [done| |done| |].
    + right. exists (seq, t). split; [set_solver|done].
    + by rewrite map_app, Hw, app_assoc.
    + apply Forall_app. split; [done|]. by repeat constructor.
Qed.

Lemma subscribe_joins id : safe (pre own) (rule own) (subscribe id) idle (λ x g, ∃ b f, 0 ≤ b ∧ x.2 = (λ t, (b, t)) <$> f ∧ g = mkRelay (Some x.1) b f [] []).
Proof.
  unfold subscribe, hubFor. apply safe_bind, safe_bind, safe_act; [done|]. intros [h|] g [-> Hown].
  - cbn. split; [|done]. split; [by apply Hown|done].
  - apply safe_act; [done|]. intros h g [-> Hh]. by apply safe_act.
Qed.

Lemma handler_relays r : safe (pre own) (rule own) (handleJSONRPC rounds attached r) idle (λ _ _, True).
Proof.
  assert (∀ g (p : prog unit), quiet p → safe (pre own) (rule own) p g (λ _ _, True)) as Hq by (intros g p Hp; by eapply safe_mono; [|apply Hp]).
  unfold handleJSONRPC. repeat case_match; try (apply Hq; solve [unfold handleSendMessage, handleGetTask, handleListTasks, handleCancelTask, taskStatus, snapshotOr, loadTask; quieten]).
  - unfold handleSendStreamingMessage. apply stable_then; [quieten|]. intros [f|plan]; [apply Hq; quieten|]. eapply safe_then; [apply subscribe_joins|]. intros [i first] g (b & f & Hb & Hf & ->). cbn in Hf.
    apply stable_then; [quieten|]. intros opened. eapply (safe_then _ _ _ _ _ (λ _ _, True)); [|intros; apply Hq; quieten]. destruct (negb opened); [apply Hq; quieten|].
    apply stable_then; [quieten|]. intros turn. eapply (safe_then _ _ _ _ _ (λ _ _, True)); [|intros; apply Hq; quieten]. cbn. apply (relay_writes _ _ _ _ []); cbn; [done|by left|by left|done|done].
  - unfold handleSubscribeToTask. destruct (decodeID s) as [f|id]; [apply Hq; quieten|]. eapply safe_then; [apply subscribe_joins|]. intros [i first] g (b & f & Hb & Hf & ->). cbn in Hf. cbn [fst snd].
    destruct first as [[seq t]|]; [|apply Hq; quieten]. destruct f as [t'|]; [|done]. cbn in Hf. injection Hf as -> ->.
    eapply (safe_then _ _ _ _ _ (λ _ _, True)); [|intros; apply Hq; quieten]. destruct (terminal t') eqn:Et; [apply Hq; quieten|].
    apply stable_then; [quieten|]. intros opened. destruct (negb opened); [apply Hq; quieten|]. apply safe_bind, safe_act.
    + split; [done|]. split; [done|]. exists [t']. split_and!; [by right|done|done].
    + intros written g' ->. destruct written; [|done]. apply (relay_writes _ _ _ _ [t']); cbn; [done|left; lia|by right|done|]. by repeat constructor.
Qed.
End Programs.
End Relays.

(** ** Every interleaving *)

Import Relays.

Definition eventOf (o : output) : option Task := match o with OEvent t => Some t | OResponse _ => None end.
(** The events that program [tid] has sent to its client. *)
Definition eventsOf (s : State) (tid : nat) : list Task := omap eventOf (default [] (a_out s !! tid)).

(** The channel of a program has received what the program knows of. *)
Definition joined (s : State) (g : relay) : Prop :=
  ∀ i, r_sub g = Some i → ∃ sub, a_subs s !! i = Some sub ∧ sb_joined sub = r_base g ∧ sb_first sub = r_first g ∧ sb_got sub = r_got g.

(** What was written is what was received, up to an end. *)
Record told (g : relay) : Prop := {
  td_sub : r_sub g = None → r_wrote g = [];
  td_ini : ∃ ini, beginning g ini ∧ r_wrote g `prefix_of` ini ++ map snd (r_got g);
  td_end : Forall running (removelast (r_wrote g)) }.

Lemma told_idle : told idle.
Proof. split; [done| |constructor]. exists []. split; [by left|done]. Qed.

Lemma told_rule own a g x g' : pre own a g → rule own a g x g' → told g → told g'.
Proof.
  intros [_ Hp] Hr Ht. destruct a; cbn in Hp, Hr; try (by subst); try (by destruct Hr; subst).
  - destruct Hr as (b & f & _ & _ & ->). split; [done| |constructor]. exists []. split; [by left|done].
  - destruct x as [seq t| |]; [|by subst..]. destruct Hr as (_ & _ & ->). destruct Ht as [K1 (ini & Hi & Hw) K3]. split; [done| |done].
    exists ini. split; [done|]. cbn. rewrite map_app, app_assoc. by apply prefix_app_r.
  - subst g'. destruct x; [|done]. destruct Hp as (Hs & ini & Hi & Hw & Hrun). split; cbn; [done| |by rewrite removelast_last]. exists ini. split; [done|]. by rewrite Hw.
Qed.

(** *** What an action leaves alone *)

Lemma exec_out tid fresh o ended a s x s' tid2 : exec tid fresh o ended a s = Some (x, s') → tid2 ≠ tid → a_out s' !! tid2 = a_out s !! tid2.
Proof.
  intros He Hne. assert (hubs_only s s' → a_out s' !! tid2 = a_out s !! tid2) as Hh by (by intros (_ & _ & _ & _ & -> & _)%hubs_frame).
  destruct a; cbn [exec] in He; try (repeat (case_match; simplify_eq; cbn in * ); simplify_option_eq; rewrite ?lookup_insert_ne by done; done).
  - injection He as <- <-. apply Hh, broadcast_frame.
  - apply bind_Some in He as ([[i first] s1] & He & [= <- <-]). by eapply Hh, subscribe_frame.
  - injection He as <- <-. apply Hh, unsubscribe_frame.
  - destruct (o_ok o); [by eapply Hh, receive_frame|]. by injection He as <- <-.
Qed.

(** Hubs stay the hubs of their tasks. *)
Definition hubs_stay (s s' : State) : Prop := ∀ h hub, a_hubHeap s !! h = Some hub → ∃ hub', a_hubHeap s' !! h = Some hub' ∧ hb_id hub' = hb_id hub.
Lemma stay_same s s' : a_hubHeap s' = a_hubHeap s → hubs_stay s s'.
Proof. intros E h hub. rewrite E. eauto. Qed.
Lemma stay_insert s s' h hub hub' : a_hubHeap s' = <[h := hub']> (a_hubHeap s) → a_hubHeap s !! h = Some hub → hb_id hub' = hb_id hub → hubs_stay s s'.
Proof.
  intros E Hh Eid k hub0 H0. rewrite E. destruct (decide (k = h)) as [->|]; [|rewrite list_lookup_insert_ne by done; eauto].
  rewrite list_lookup_insert_eq by by eapply lookup_lt_Some. rewrite Hh in H0. injection H0 as <-. eauto.
Qed.
Lemma owned_stay own s s' : hubs_stay s s' → owned own s' → owned own s.
Proof. intros Hs Ho h hub Hh. destruct (Hs h hub Hh) as (hub' & Hh' & <-). by apply Ho. Qed.

Lemma exec_stay tid fresh o ended a s x s' : exec tid fresh o ended a s = Some (x, s') → hubs_stay s s'.
Proof.
  intros He. destruct a; cbn [exec] in He; try (apply stay_same; repeat (case_match; simplify_eq; cbn in * ); simplify_option_eq; done).
  - destruct (a_hubs s !! id); injection He as <- <-; [by apply stay_same|]. intros h hub Hh. exists hub. split; [by apply lookup_app_l_Some|done].
  - injection He as <- <-. unfold broadcastIn. destruct (a_hubHeap s !! hub) eqn:Eh; [by eapply stay_insert|by apply stay_same].
  - apply bind_Some in He as ([[i first] s1] & He & [= <- <-]). apply bind_Some in He as (hb & Eh & E). destruct (match hb_last hb with Some last => _ | None => _ end) as [last seq].
    injection E as <- <- <-. by eapply stay_insert.
  - injection He as <- <-. unfold unsubscribeIn. destruct (a_hubHeap s !! hub) eqn:Eh; [|by apply stay_same]. case_match; [by eapply stay_insert|by apply stay_same].
  - apply stay_same. destruct (o_ok o); [|by injection He as <- <-]. apply bind_Some in He as (sb & _ & E). repeat case_match; by simplify_eq.
Qed.

Lemma kept_joined s s' g : kept_subs s s' → joined s g → joined s' g.
Proof. intros Hk Hj i Hi. destruct (Hj i Hi) as (sub & Hsub & E1 & E2 & E3). destruct (Hk i sub Hsub) as (sub' & Hsub' & R1 & R2 & R3 & R4 & R5). exists sub'. split_and!; congruence. Qed.

(** The hub that was looked up or made is that of the task. *)
Lemma hub_answer own s id h : streams_ok s → owned own s → a_hubs s !! id = Some h → own h = Some id.
Proof. intros Hs Ho Hh. destruct (st_map _ Hs _ _ Hh) as (hub & Hhub & <-). by apply Ho. Qed.

Lemma eventsOf_put tid o s : eventsOf (put_out tid o s) tid = eventsOf s tid ++ option_list (eventOf o).
Proof. unfold eventsOf. cbn. rewrite lookup_insert_eq. cbn. rewrite omap_app. cbn. by destruct (eventOf o). Qed.

(** *** One action *)

Record holds (s : State) (tid : nat) (g : relay) : Prop := { ho_joined : joined s g; ho_wrote : eventsOf s tid = r_wrote g; ho_told : told g }.

(** No two programs have the same channel. *)
Definition apart (g g2 : relay) : Prop := ∀ i, r_sub g = Some i → r_sub g2 ≠ Some i.

Lemma exec_relay tid fresh o ended a s x s' g :
  streams_ok s → pre (owners s) a g → exec tid fresh o ended a s = Some (x, s') → joined s g → eventsOf s tid = r_wrote g →
  ∃ g', (∀ own, owned own s' → rule own a g x g') ∧ joined s' g' ∧ eventsOf s' tid = r_wrote g' ∧ (r_sub g' = r_sub g ∨ r_sub g' = Some (length (a_subs s))).
Proof.
  intros Hs Hp He Hj Hw. pose proof (exec_streams _ _ _ _ _ _ _ _ Hs (proj1 Hp) He) as [Hs' Hk].
  assert ((∀ own, owned own s' → rule own a g x g) → (∀ i, a ≠ Receive i) → a_out s' = a_out s →
    ∃ g', (∀ own, owned own s' → rule own a g x g') ∧ joined s' g' ∧ eventsOf s' tid = r_wrote g' ∧ (r_sub g' = r_sub g ∨ r_sub g' = Some (length (a_subs s)))) as Hsame.
  { intros Hr Hn Ho. exists g. split_and!; [done|by eapply kept_joined, Hj; apply Hk|unfold eventsOf; by rewrite Ho|by left]. }
  assert (hubs_only s s' → a_out s' = a_out s) as Hh by (by intros (_ & _ & _ & _ & -> & _)%hubs_frame).
  destruct a; cbn [exec] in He; try (apply Hsame; [done|done|]; repeat (case_match; simplify_eq; cbn in * ); simplify_option_eq; done).
  - injection He as <- <-. apply Hsame; [|done|done]. intros own Ho. split; [done|]. intros h Hh'. by eapply hub_answer.
  - assert (a_hubs s' !! id = Some x ∧ a_out s' = a_out s) as [Hx Ho]; [|apply Hsame; [|done|done]; intros own Hown; split; [done|]; by eapply hub_answer].
    destruct (a_hubs s !! id) eqn:Ei; injection He as <- <-; [done|]. cbn. by rewrite lookup_insert_eq.
  - injection He as <- <-. apply Hsame; [done|done|]. apply Hh, broadcast_frame.
  - apply bind_Some in He as ([[i first] s1] & He & [= <- <-]). destruct Hp as [Hown ->]. destruct (subscribe_ok _ _ _ _ _ _ Hs Hown He) as (_ & _ & -> & sub & Hsub & Hg & Hb & ->).
    exists (mkRelay (Some (length (a_subs s))) (sb_joined sub) (sb_first sub) [] []). split_and!; [intros own _; cbn; eauto| |by unfold eventsOf; rewrite Hh by by eapply subscribe_frame|by right].
    intros i [= <-]. exists sub. done.
  - injection He as <- <-. apply Hsame; [done|done|]. apply Hh, unsubscribe_frame.
  - destruct Hp as [_ Hsub]. destruct (o_ok o); [|injection He as <- <-; exists g; split_and!; [done|done|done|by left]].
    destruct (receive_ok _ _ _ _ Hs He) as (_ & _ & sb & sb' & Hsb & Hsb' & E1 & E2 & E3 & E4 & Hx). destruct (Hj _ Hsub) as (sb0 & Hsb0 & J1 & J2 & J3). rewrite Hsb in Hsb0. injection Hsb0 as <-.
    assert (eventsOf s' tid = r_wrote g) as Hw' by (unfold eventsOf; by rewrite Hh by by eapply receive_frame).
    destruct x as [seq t| |]; [destruct Hx as (Hx & Hlt & Hall)|..];
      [exists (mkRelay (r_sub g) (r_base g) (r_first g) (r_got g ++ [(seq, t)]) (r_wrote g))|exists g..]; (split_and!; [intros own _; cbn; congruence || (split_and!; [lia|by rewrite <- J3|done])| |done|by left]);
      intros i Hi; cbn in Hi; rewrite Hsub in Hi; injection Hi as <-; exists sb'; split_and!; cbn; congruence.
  - injection He as <- <-. exists (if o_ok o then mkRelay (r_sub g) (r_base g) (r_first g) (r_got g) (r_wrote g ++ [t]) else g). destruct (o_ok o); split_and!; try done; try (by left).
    rewrite eventsOf_put, Hw. done.
  - injection He as <- <-. exists g. split_and!; [done|done|rewrite eventsOf_put, Hw; cbn; by rewrite app_nil_r|by left].
Qed.

(** The other programs do not notice. *)
Lemma exec_other tid fresh o ended a s x s' g tid2 g2 :
  streams_ok s → pre (owners s) a g → exec tid fresh o ended a s = Some (x, s') → tid2 ≠ tid → apart g g2 → holds s tid2 g2 → holds s' tid2 g2.
Proof.
  intros Hs [Ho Hp] He Hne Hap [Hj Hw Ht]. split; [|unfold eventsOf; by erewrite exec_out|done].
  destruct (exec_streams _ _ _ _ _ _ _ _ Hs Ho He) as [_ Hk]. 
  assert ((∃ i, a = Receive i) ∨ ∀ i, a ≠ Receive i) as [[i ->]|Hn] by (clear; destruct a; solve [by right | left; eauto]); [|by eapply kept_joined; [apply Hk|]].
  cbn [exec] in He. destruct (o_ok o); [|by injection He as <- <-]. destruct (receive_ok _ _ _ _ Hs He) as (_ & Hkeep & _).
  intros j Hsub. destruct (Hj j Hsub) as (sub & Hsb & E). exists sub. split; [|done]. apply Hkeep; [|done]. intros ->. by apply (Hap i).
Qed.

(** *** All programs *)

Section Streams.
Context `{A2AEnv} (rounds : nat) (attached : bool).

(** A program that keeps to the rules, whatever hubs there will be. *)
Definition follows (s : State) (p : prog unit) (g : relay) : Prop := ∀ own, owned own s → safe (pre own) (rule own) p g (λ _ _, True).

Record relayed (s : State) (threads : gmap nat (prog unit)) (next : nat) (relays : gmap nat relay) : Prop := {
  rl_streams : streams_ok s;
  rl_dom : ∀ tid, is_Some (relays !! tid) ↔ (tid < next)%nat;
  rl_holds : ∀ tid g, relays !! tid = Some g → holds s tid g;
  rl_apart : ∀ i j gi gj, i ≠ j → relays !! i = Some gi → relays !! j = Some gj → apart gi gj;
  rl_safe : ∀ tid p, threads !! tid = Some p → ∃ g, relays !! tid = Some g ∧ follows s p g;
  rl_out : ∀ tid, (next ≤ tid)%nat → a_out s !! tid = None }.

Lemma relayed_init : relayed initState ∅ 0 ∅.
Proof.
  split; cbn.
  - split; cbn; [by intros []|by intros []|intros id h Hh|intros id t Ht]; [by rewrite lookup_empty in Hh|by rewrite lookup_empty in Ht].
  - intros tid. rewrite lookup_empty. split; [by intros []|lia].
  - intros tid g Hg. by rewrite lookup_empty in Hg.
  - intros i j gi gj _ Hg. by rewrite lookup_empty in Hg.
  - intros tid p Hp. by rewrite lookup_empty in Hp.
  - intros tid _. apply lookup_empty.
Qed.

(** A program that starts has joined nothing. *)
Lemma relayed_start s threads next relays p : relayed s threads next relays → follows s p idle → relayed s (<[next := p]> threads) (S next) (<[next := idle]> relays).
Proof.
  intros [H1 H2 H3 H4 H5 H6] Hp.
  assert (∀ tid g, <[next := idle]> relays !! tid = Some g → (tid = next ∧ g = idle) ∨ (tid ≠ next ∧ relays !! tid = Some g)) as Hcase.
  { intros tid g [[<- <-]|[Hne Hg]]%lookup_insert_Some; [by left|by right]. }
  split; [done|..].
  - intros tid. destruct (decide (tid = next)) as [->|]; [rewrite lookup_insert_eq; split; [lia|eauto]|]. rewrite lookup_insert_ne, H2 by done. lia.
  - intros tid g [[-> ->]|[_ Hg]]%Hcase; [|by apply H3]. split; [done|unfold eventsOf; by rewrite H6|apply told_idle].
  - intros i j gi gj Hij [[-> ->]|[_ Hi]]%Hcase [[-> ->]|[_ Hj]]%Hcase k; [done|done|done|]. by eapply H4.
  - intros tid q [[<- <-]|[Hne Hq]]%lookup_insert_Some; [exists idle; by rewrite lookup_insert_eq|]. rewrite lookup_insert_ne by done. by apply H5.
  - intros tid Ht. apply H6. lia.
Qed.

(** The records of when things happened do not matter. *)
Lemma relayed_time s threads next relays : relayed s threads next relays → relayed (record_time s) threads next relays.
Proof.
  intros [H1 H2 H3 H4 H5 H6]. split; [by apply (streams_same s)|done| |done|done|done]. intros tid g Hg. by destruct (H3 tid g Hg).
Qed.

Lemma relayed_go s threads next relays tid o a k x s' :
  relayed s threads next relays → threads !! tid = Some (Vis a k) → exec tid next o (hasEnded threads) a s = Some (x, s') →
  ∃ relays', relayed s' (<[tid := k x]> threads) next relays'.
Proof.
  intros [H1 H2 H3 H4 H5 H6] Ht He. destruct (H5 tid _ Ht) as (g & Hg & Hf). pose proof (proj1 (Hf _ (owned_owners s))) as Hp. destruct (H3 tid g Hg) as [Hj Hw Htold].
  destruct (exec_relay _ _ _ _ _ _ _ _ g H1 Hp He Hj Hw) as (g' & Hr & Hj' & Hw' & Hsub). pose proof (exec_stay _ _ _ _ _ _ _ _ He) as Hstay.
  destruct (exec_streams _ _ _ _ _ _ _ _ H1 (proj1 Hp) He) as [H1' _].
  assert (told g') as Htold' by (eapply told_rule; [exact (proj1 (Hf _ (owned_stay _ _ _ Hstay (owned_owners s'))))|apply Hr, owned_owners|done]).
  assert (∀ j gj, tid ≠ j → relays !! j = Some gj → apart g' gj) as Hap.
  { intros j gj Hne Hgj i Hi Hij. destruct Hsub as [Es|Es]; [rewrite Es in Hi; exact (H4 tid j g gj Hne Hg Hgj i Hi Hij)|]. rewrite Es in Hi. injection Hi as <-.
    destruct (ho_joined _ _ _ (H3 j gj Hgj) _ Hij) as (sub & Hl & _). apply lookup_lt_Some in Hl. lia. }
  exists (<[tid := g']> relays). split; [done|..].
  - intros j. rewrite <- H2. destruct (decide (j = tid)) as [->|]; [rewrite lookup_insert_eq, Hg; split; eauto|]. by rewrite lookup_insert_ne.
  - intros j gj [[<- <-]|[Hne Hgj]]%lookup_insert_Some; [done|]. exact (exec_other _ _ _ _ _ _ _ _ g j gj H1 Hp He (not_eq_sym Hne) (H4 tid j g gj Hne Hg Hgj) (H3 j gj Hgj)).
  - intros i j gi gj Hij [[<- <-]|[Hi Hgi]]%lookup_insert_Some [[<- <-]|[Hj2 Hgj]]%lookup_insert_Some; [done|exact (Hap j gj Hj2 Hgj)| |exact (H4 i j gi gj Hij Hgi Hgj)].
    intros k0 Hk1 Hk2. exact (Hap i gi Hi Hgi k0 Hk2 Hk1).
  - intros j p [[<- <-]|[Hne Hq]]%lookup_insert_Some.
    + exists g'. rewrite lookup_insert_eq. split; [done|]. intros own Hown. exact (proj2 (Hf own (owned_stay _ _ _ Hstay Hown)) x g' (Hr own Hown)).
    + rewrite lookup_insert_ne by done. destruct (H5 j p Hq) as (gj & Hgj & Hfj). exists gj. split; [done|]. intros own Hown. by eapply Hfj, owned_stay.
  - intros j Hj2. erewrite exec_out; [by apply H6|done|]. intros ->. assert (is_Some (relays !! tid)) as Hlt%H2 by eauto. lia.
Qed.

Lemma started_follows a child s : started rounds attached a = Some child → follows s child idle.
Proof. destruct a; cbn [started]; try done. intros E own _. apply (inj Some) in E as <-. apply safe_bind. eapply safe_mono; [|apply quiet_runTurn]. done. Qed.

Definition relaying (y : System) : Prop := ∃ relays, relayed (y_state y) (y_threads y) (y_next y) relays.

Lemma relaying_step y l y' : relaying y → step rounds attached y l = Some y' → relaying y'.
Proof.
  intros [relays Hy] Hs. destruct l as [r|tid o]; cbn [step] in Hs.
  { apply (inj Some) in Hs as <-. eexists. apply relayed_start; [exact Hy|]. intros own _. apply handler_relays. }
  destruct (y_threads y !! tid) as [[|a k|]|] eqn:Et; [done| |done..]. apply bind_Some in Hs as ([x s] & He & Hs).
  destruct (relayed_go _ _ _ _ _ _ _ _ _ _ Hy Et He) as [relays' Hy'%relayed_time].
  destruct (started rounds attached a) as [child|] eqn:Es; apply (inj Some) in Hs as <-; [|by exists relays']. eexists. apply relayed_start; [exact Hy'|]. by eapply started_follows.
Qed.

Lemma relaying_runs y ls y' : relaying y → runs rounds attached y ls = Some y' → relaying y'.
Proof. revert y. induction ls as [|l ls IH]; intros y Ha; cbn; [by intros [= <-]|]. intros (y1 & H1 & H2)%bind_Some. eapply IH; [|done]. by eapply relaying_step. Qed.

(** What a channel received was broadcast on its hub, and belongs to the task of it. *)
Lemma received_own s i sub : streams_ok s → a_subs s !! i = Some sub → ∃ hub, a_hubHeap s !! sb_hub sub = Some hub ∧
  sb_got sub `prefix_of` drop (sb_from sub) (hb_log hub) ∧ Forall (λ t, t_ID t = hb_id hub) (option_list (sb_first sub) ++ map snd (sb_got sub)).
Proof.
  intros [H1 H2 _ _] Hi. destruct (H2 i sub Hi) as (hub & Hh & [_ _ _ [rest Hr] _ Hf]). exists hub. split; [done|]. rewrite Hr, <- app_assoc. split; [by eexists|]. apply Forall_app. split.
  - destruct (sb_first sub) as [t|]; constructor; [by apply Hf|constructor].
  - apply Forall_map. assert (Forall (λ e, t_ID e.2 = hb_id hub) (drop (sb_from sub) (hb_log hub))) as Hall by (apply Forall_drop, (hk_tasks _ _ _ (H1 _ _ Hh))).
    rewrite Hr, <- app_assoc in Hall. by apply Forall_app in Hall as [? _].
Qed.

(** C17. What a stream shows.  In every interleaving, the events a program has sent to its
    client are, in order and without a gap or a repetition, the snapshots that were
    broadcast on one hub since the stream joined it, possibly after the snapshot that was
    current when it joined; they are all of the task of that hub, and none follows the
    end of the task. *)
Theorem stream_faithful ls y tid : runs rounds attached initSystem ls = Some y →
  let s := y_state y in let events := eventsOf s tid in
  events ≠ [] → ∃ i sub hub ini,
    a_subs s !! i = Some sub ∧ a_hubHeap s !! sb_hub sub = Some hub ∧ (ini = [] ∨ ini = option_list (sb_first sub)) ∧
    events `prefix_of` ini ++ map snd (drop (sb_from sub) (hb_log hub)) ∧
    Forall (λ t, t_ID t = hb_id hub) events ∧ Forall (λ t, terminal t = false) (removelast events).
Proof.
  intros Hr s events Hne. destruct (relaying_runs initSystem _ _ (ex_intro _ ∅ relayed_init) Hr) as [relays [H1 H2 H3 _ _ H6]]. fold s in H1, H3, H6.
  destruct (decide (tid < y_next y)%nat) as [[g Hg]%H2|Hlt]; [|destruct Hne; unfold events, eventsOf; by rewrite H6 by lia].
  destruct (H3 tid g Hg) as [Hj Hw [K1 (ini & Hini & Hpre) K3]]. fold events in Hw. rewrite Hw in *. destruct (r_sub g) as [i|] eqn:Es; [|by rewrite K1 in Hne].
  destruct (Hj i Es) as (sub & Hsub & E1 & E2 & E3). destruct (received_own s i sub H1 Hsub) as (hub & Hh & Hgot & Hall). unfold beginning in Hini. rewrite <- E2, <- E3 in *.
  exists i, sub, hub, ini. split_and!; [done|done|done| | |done].
  - etrans; [exact Hpre|]. apply prefix_app. destruct Hgot as [rest ->]. rewrite map_app. by eexists.
  - destruct Hpre as [rest Hpre]. apply Forall_app in Hall as [Hf Hg2]. assert (Forall (λ t, t_ID t = hb_id hub) (ini ++ map snd (sb_got sub))) as Hi by (apply Forall_app; split; [by destruct Hini as [-> | ->]|done]).
    rewrite Hpre in Hi. by apply Forall_app in Hi as [? _].
Qed.
End Streams.

(** A stream shows the two states of a turn. *)
Definition demoStream : list label :=
  Arrive (demoPost "{'jsonrpc': '2.0', 'id': 1, 'method': 'message/stream', 'params': {'input': 'hello'}}") :: demoGo 0 11 7 ++ demoGo 1 31 8 ++ demoGo 0 7 9.
Definition statesOf (tid : nat) (s : State) : list string := ts_State ∘ t_Status <$> eventsOf s tid.

Lemma stream_faithful_witness : match demoRun demoStream with
  | Some y => statesOf 0 (y_state y) = [TaskStateWorking; TaskStateCompleted] ∧
      ∃ i sub hub ini, a_subs (y_state y) !! i = Some sub ∧ a_hubHeap (y_state y) !! sb_hub sub = Some hub ∧ (ini = [] ∨ ini = option_list (sb_first sub)) ∧
        eventsOf (y_state y) 0 `prefix_of` ini ++ map snd (drop (sb_from sub) (hb_log hub)) ∧
        Forall (λ t, t_ID t = hb_id hub) (eventsOf (y_state y) 0) ∧ Forall (λ t, terminal t = false) (removelast (eventsOf (y_state y) 0))
  | None => False
  end.
Proof.
  assert (demoState demoStream (statesOf 0) = Some [TaskStateWorking; TaskStateCompleted]) as Hc by (vm_compute; reflexivity). unfold demoState in Hc.
  pose proof (stream_faithful 10 true demoStream) as Hf. destruct (demoRun demoStream) as [y|]; [|discriminate Hc]. apply (inj Some) in Hc. split; [exact Hc|].
  apply (Hf y 0%nat eq_refl). intros He. unfold statesOf in Hc. cbn [compose] in Hc. rewrite He in Hc. discriminate Hc.
Defined.
